(* ===== verification/_CoqProject ===== *)
-Q . S2P
Prelude.v
Js.v
JsText.v
Flow.v
CanonicalJson.v
Sha256.v
QuoteMath.v
TradeFees.v
ReservePolicy.v
BuybackJournal.v
AtomicSettlement.v
IntentCaps.v
CoupledOpening.v
PublicQuote.v
ReverseSettlement.v
Ledger.v
ChainBase.v
NativeTransfer.v
AccountSnapshot.v
BlockExecutor.v
AccountStore.v
StoreProtocol.v
StorePlans.v
StoreSafety.v
StoreGenesis.v
ChainComposition.v
StoreSamples.v
JsConvert.v
Mempool.v
MempoolSafety.v
JsonParse.v
TextLines.v
MerkleRoots.v
NodeBuffer.v
BlockFormat.v
BlockSafety.v
ChainHistory.v
SegFrames.v
SegStore.v
SegInvariant.v
SegSafety.v
SegRepair.v
SegRecovery.v
SegGuarantees.v
Receipts.v
ReceiptsSafety.v
Interleave.v
ReceiptLock.v
ReceiptLockLogic.v
ReceiptLockSpecs.v
ReceiptLockProtocol.v
ReceiptLockDrops.v
ReceiptLockShards.v
ReceiptLockSafety.v
ReceiptLockCalm.v
ReceiptLockLive.v
ReceiptLockSamples.v
UdpPacket.v
UdpSession.v
UdpTransport.v
UdpRuns.v
UdpGuards.v
UdpReceiver.v
UdpStream.v
UdpLive.v
UdpSamples.v
