(* ===== verification/Prelude.v ===== *)
(** * Verification of the VOID Network economic core, native ledger and canonical chain

    The VOID node repository keeps its economic rules in self-contained JavaScript
    modules under [tools/].  Each takes a parsed JSON request, checks it field by
    field, computes with BigInt or safe integers, and returns a JSON object that
    carries the SHA-256 identity of its own canonical text.  Its native ledger is three
    TypeScript modules under [src/chain/]: the state transition of one signed transfer,
    the execution of a block of them, and the durable account store that commits either
    exactly once.  Beside it, [src/chain/] has the pending queue of transactions, the format
    and validation of blocks, the rules for the eras of the recorded chain, and the segment
    store that keeps the canonical blocks on disk.  Under [src/p2p/] it has the secure transport
    that gives two peers a stream over UDP.  This library models those modules
    function by function and proves what they promise to each other, to the market and to
    the holders of accounts.

    ** The program's parts and how they interact

    - [quoteBtcVoidV1] prices a swap on a constant-product curve.
    - [deriveBtcVoidTradeFundedFeesV1] reduces a swap by its worst-case network fees
      and calls the quote on what is left.
    - [deriveBtcVoidBuybackLotV1] turns the proceeds of a settled sale into a bid
      budget below the sale price.
    - [evaluateBtcVoidBuybackLotJournalTransitionV1] re-derives such plans to decide
      whether a journal creates, recognises or holds a lot.
    - [evaluateBtcVoidAtomicSettlementTraceV1] replays the events of a hash-locked
      swap: it re-derives the quote of the contract, runs the phase machine and, for
      a settled sale, re-derives the buyback plan and its journal decision.
    - [verifyEconomicIntentTtlCapsStateV1] and its two classifiers bound how long
      intents live and how many may be outstanding.
    - [deriveWcVoidCoupledOpeningStateV1] verifies commitments and ledger debits of
      the WC/VOID opening, allocates the tranche and derives the opening price.
    - [verifyWcVoidPublicQuoteDisclosureV1] verifies the quote a WC/VOID trader sees.
    - [verifyWcVoidReverseSettlementV1] verifies such a quote together with the token
      transfer that pays for it (transaction calldata and receipt logs) and the ledger
      credit that settles it.
    - [prepareVoidNativeValueTransferStateTransitionV1] checks one signed transfer against
      a policy, a snapshot of the accounts it touches and its block, and returns a plan:
      every account before and after, bound by digests.
      [applyVoidNativeValueTransferStateTransitionV1] re-validates a plan and hands a
      request to the account store.
    - [prepareVoidNativeValueTransferBlockExecutionV1] runs the transfers of a block in
      order on a projected copy of the store's snapshot, calling the preparation of one
      transfer for each, and returns one plan for the block;
      [applyVoidNativeValueTransferBlockExecutionV1] hands it to the account store.
    - [createVoidNativeAccountStateStoreV1] is that store: a snapshot file, an append-only
      journal, an intent file and a lock file.  A commit writes the intent, the next
      snapshot, renames it, appends to the journal and removes the intent;
      [recoverVoidNativeAccountStateStoreV1] finishes or undoes what a killed process left;
      [initializeVoidNativeAccountStateStoreV1] creates the files.
    - [Mempool] is the queue of pending transactions with an index of their identities, a
      lock, and a selection that the proposer commits or rolls back while clients still
      change the queue through an array surface.
    - [validateBlockForAppend] checks a block against its parent: roots, header hash,
      proposer authority and signature; [merkleRootHex] computes the roots.
    - [validateMainnet0HistoricalTransitionV1] and the validators of minimal and legacy
      blocks say which block of which era may stand on which.
    - [SegStore] keeps the accepted blocks: length-prefixed frames in one file for 10,000
      heights, a sparse index, meta data, two head markers and a write-ahead log.  A save
      validates the block by its mode, then appends the record, the frame, the index line
      and moves the head; the constructor reconciles the markers and replays the log;
      [autoRepairDataDir] truncates torn tails and rebuilds everything derived.
    - [ReceiptsStore] records where each transaction was included, in shards of lines of
      JSON that are replaced as a whole, with a cache in memory.  Stores of several
      processes share a directory: an append claims it by linking a record of its process,
      looks for the claims of others, and gives it back by a release record.  Its [gc] drops
      old shards without the lock.
    - [deriveVoidUdpSecureDirectionKeysV1] derives the keys of a session from two key offers;
      [VoidUdpSecureReliableSenderV1] numbers chunks and packets, seals and retransmits them,
      [VoidUdpSecureReliableReceiverV1] opens packets, refuses replays and reorders chunks;
      [VoidUdpPeerSocketAdapterV1] makes a socket of the two: it queues what is written, sends
      while the window has room, answers data with acknowledgements and closes at its bounds.

    ** Files

    - [Prelude] (this file): the error monad [res], the tactics that invert it, the
      sorting and summation lemmas that the components share.
    - [Js]: parsed JSON values, property access, [===], decimal text, BigInt, safe
      integers, the regular expressions of the sources as boolean functions, and the
      checked-shape helpers that every module repeats.
    - [JsText], [Flow]: the text functions of JavaScript that the chain modules use, and
      function bodies that return early or throw.
    - [CanonicalJson]: the two canonical JSON printers, with the proof that a
      canonical text determines the value up to key order.
    - [Sha256]: the digest of [node:crypto] as an interface ([Digest],
      [DigestShape]), an executable SHA-256 that implements it, and content
      identities.
    - [QuoteMath]: [tools/void-btc-void-quote-math-v1.mjs].
    - [TradeFees]: [tools/void-btc-void-trade-funded-fees-v1.mjs].
    - [ReservePolicy]: [tools/void-btc-void-market-maker-reserve-policy-v1.mjs].
    - [BuybackJournal]: [tools/void-btc-void-buyback-lot-journal-transition-v1.mjs].
    - [AtomicSettlement]:
      [tools/void-btc-void-atomic-settlement-state-invariants-v1.mjs].
    - [IntentCaps]: [tools/void-economic-intent-ttl-caps-policy-v1.mjs].
    - [CoupledOpening]: [tools/void-wc-void-coupled-opening-v1.mjs].
    - [PublicQuote]: [tools/void-wc-void-public-quote-disclosure-v1.mjs].
    - [ReverseSettlement]: [tools/void-wc-void-reverse-settlement-v1.mjs].
    - [Ledger]: the abstract ledger, accounts with a balance and a nonce and what a
      transfer does to them: the specification of the chain modules.
    - [ChainBase]: the helpers that the chain modules repeat, and the interfaces [Ethers]
      and [Locale] for what they call.
    - [NativeTransfer]: [src/chain/native_value_transfer_state_transition_v1.ts].
    - [BlockExecutor]: [src/chain/native_value_transfer_block_executor_v1.ts].
    - [AccountSnapshot], [AccountStore]: [src/chain/native_account_state_store_v1.ts], the
      snapshots and the stateful operations.
    - [StoreProtocol], [StorePlans], [StoreSafety], [StoreGenesis]: the proofs about the
      store: the stages of a commit and what recovery does to each, the commits that the
      apply functions plan, the store over sequences of calls and crashes, new stores.
    - [ChainComposition]: the executor and the store together.
    - [StoreSamples]: a concrete store, for the witnesses of the store theorems.
    - [JsConvert], [JsonParse], [TextLines], [NodeBuffer]: [Number], [String] and truth
      values; [JSON.parse] with its round trip; lines and padded numbers; 32-bit words,
      base64 and UTF-8 of buffers.
    - [Mempool]: [src/chain/mempool.ts]; [MempoolSafety]: its invariant and properties.
    - [MerkleRoots], [BlockFormat]: [src/util/merkle.ts] and the block functions of
      [src/chain/block.ts]; [BlockSafety]: properties of accepted blocks and chains.
    - [ChainHistory]: [src/chain/legacy_commit_direct_v2fs_v1.ts],
      [src/chain/mainnet0_historical_compat_v1.ts],
      [src/chain/mainnet0_historical_cartography_projection_v1.ts] and the admission of
      blocks by [src/chain/seg_store.ts]; the history as a list of blocks, which is the
      specification of the segment store.
    - [SegFrames], [SegStore]: [src/chain/seg_store.ts] and [src/chain/auto_repair.ts], the
      bytes of the frames with the scans that read them, and the stateful operations.
    - [SegInvariant], [SegSafety], [SegRepair], [SegRecovery]: what the files of a segment
      store hold, and what a save, a repair and an opening do to them, system call by
      system call; [SegGuarantees]: what a client of the store relies on, with a concrete
      store.
    - [Receipts]: the shards of [src/chain/receipts.ts]; [ReceiptsSafety]: what its shards
      hold and its properties for one store.
    - [Interleave]: programs that interleave at their system calls, with a rely-guarantee
      logic for them.  [ReceiptLock]: the append lock of [src/chain/receipts.ts] and an
      append under it, call by call, and the system of stores, processes and directory.
      [ReceiptLockLogic], [ReceiptLockSpecs], [ReceiptLockProtocol], [ReceiptLockDrops],
      [ReceiptLockShards]: its invariant, the specifications of its functions, and what
      dropped shards leave of a directory; [ReceiptLockSafety]: what it guarantees.  [ReceiptLockCalm], [ReceiptLockLive]: total specifications for a store
      that nothing disturbs.  [ReceiptLockSamples]: runs of the system.
    - [UdpPacket]: the keys and packets of [src/p2p/udp_secure_reliable_transport_v1.ts];
      [UdpTransport]: its sender and receiver, and the socket of
      [src/p2p/udp_peer_socket_adapter_v1.ts].  [UdpSession]: agreement on keys and the round
      trip of packets; [UdpRuns]: the calls of a socket as sequences of actions; [UdpGuards],
      [UdpReceiver]: what holds of one socket and of the receiver; [UdpStream]: two sockets and
      a network; [UdpLive]: a round of that network without losses; [UdpSamples]: a cipher and
      runs of two sockets.

    Definitions keep the names of the functions they translate.  A long function
    body is split at its own seams (shape checks, number checks, loop body, rendered
    object), and the whole function composes the parts in the order of the code, so
    that the first failing check is the error of the model.

    ** What the theorems show

    - Quotes: the curve's product never decreases, the output is the largest amount
      that the fee-adjusted product allows, a round trip never profits, the request
      inside a quote replays to the same quote, and reserves stay in range.
    - Fees: gross amounts split exactly into curve amounts and fee envelopes that
      cover both the success and the refund route; the protocol fee is exact; the
      embedded curve quote is the quote of the reduced request; the errors that can
      surface from it are economic ones.
    - Buyback: proceeds split exactly into bid budget and retained spread, only
      settled and confirmed sales count, and plans replay.  The journal is
      append-only with one entry per lot and sale through any sequence of decisions,
      creations are idempotent, bindings permanent.  One boundary is recorded as it
      is: a journal of exactly 10,000 entries is extended once more and then refused.
    - Settlement: an accepted trace is a path of the phase machine, with what each
      outcome implies; terminal phases absorb; replays change nothing; the contract
      keeps the leg funded first refundable later; a settled sale is bound to its
      buyback.
    - Intents: the reported state is true and within the caps, admission is exact,
      time only frees capacity, late payments are never executed automatically, and
      the order of reservations is irrelevant.
    - Opening: the largest-remainder allocation is exact and fair, debits settle
      commitments one to one, the price is the reduced fraction of settled WC per
      VOID, and the order of submissions is irrelevant.
    - Public quotes: gross amounts are traded amounts plus the disclosed fees, the
      minimum output is exact, and the order of keys and fees is irrelevant.
    - Reverse settlement: the calldata decoder accepts exactly the encoded transfers,
      a settlement pays the gross input by exactly one transfer event and credits
      exactly the net output, and its identity stands for one payment.
    - Transfers and blocks: a prepared plan refines the abstract ledger ([Ledger]): the
      sender pays value and fee and uses one nonce, recipient and fee collectors are
      credited, the rest of the fee is burned, nothing else changes; a transfer is not
      prepared twice.  A block refines the sequence of its transfers, and a prepared block
      passes every check of the store it was prepared on and makes its accounts the ledger
      the transfers lead to.
    - Store: over any sequence of calls, each completed or killed after any of its system
      calls, every store reached is recoverable; a killed call
      has happened entirely or not at all once recovery has run, however often recovery is
      killed too, and a recovery that is left to run does succeed where the journal has room
      for the entry; an applied request is never applied again.  The calls of these theorems
      satisfy [StoreSafety.clash_free], a check on one call and the store it is made on: the
      commit it makes does not collide with the digests of that store's snapshot and journal.
      Two places where
      the store gets stuck are recorded as they are: a lock file whose owner died before
      writing its record, and a commit that renamed its snapshot when the journal had no
      room for its entry.
    - Mempool: over any sequence of calls, completed or thrown, the identity index is that
      of the queue, no identity is pending twice, and what is selected stays pending; a
      call that throws changes nothing; a splice is the splice of an array.
    - Blocks: an accepted block carries the roots of its contents and a verified signature,
      and the hash of a head fixes the headers of its chain up to a collision.  Recorded as
      it is: a block whose last transaction is repeated keeps its roots and hash.
    - Eras: every height of a stored chain carries its number, minimal blocks come first,
      and the recorded methods leave the modern era only at the six heights of the
      accepted history; the counts of the cartography are those of its projection.
    - Segment store: for blocks whose number is a JSON integer, with the AL runtime off, it
      behaves on its files as the list of its blocks, save by save; a save killed between two
      system calls or within the append of a frame, followed by openings and repairs killed
      likewise, loses at most the block being saved, and a repair and an opening that are left
      to run succeed; a torn frame fails closed.  Recorded as it is: a block whose number is text is saved
      and can never be read again.
    - Receipts: an append is exact and atomic with every fault point of the source (one after
      the rename throws although the append is recorded), no receipt is lost or changed by any
      number of failing or killed appends, and both lookups answer what is recorded.  Recorded
      as it is: a history over the bytes that a scan admits takes no more receipts.
    - Append lock: under every interleaving of the system calls of any number of stores,
      with failing calls, kills, reused process numbers, reboots and shards dropped by [gc], at
      most one append is at the shards, nothing recorded is lost and what an append has
      accepted stays recorded, but for shards that [gc] drops;
      an append that nothing disturbs runs to its end also after crashes.  Recorded as they
      are: in one run a process that once could not read its own entry of [/proc] loses its
      lock to another, and a claim that nobody remembers blocks all appends while its process
      lives.
    - Secure transport: both peers derive the same keys and open each other's packets; no nonce
      is used twice; the receiver accepts no packet number twice and never throws; a socket
      stays within its bounds.  Over a network that drops, duplicates, reorders and makes up
      packets, what is delivered at one end is a prefix of what was written at the other, and
      an open socket with nothing left to send has had everything delivered; one tick whose
      packets arrive delivers everything in flight.  Recorded as they
      are: a chunk is lost when a write fails because the clock is before the epoch, and the
      default bound may lie below the high-water mark.

    ** Modelling decisions

    Values are what [JSON.parse] produces, with text over code units below 256.
    Getters, proxies, symbols and sparse arrays cannot occur in such values, so the
    descriptor checks of the sources reduce to checks of keys and lengths;
    [Object.freeze] and [structuredClone] are the identity.  BigInt is [Z] with
    truncated division; numbers are integers with the safe-integer range written
    out, other numbers are kept as their text.

    The digest is a parameter.  Nothing assumes that it is injective: where content
    is bound by an identity, the alternative in the theorem is that the two texts at hand
    collide ([Sha256.collides]).
    Theorems with hypotheses have witnesses; those over large objects use the cheap
    digest [poly256], the others SHA-256 itself.  The executable SHA-256 also recomputes
    identities that the repository records ([policy_contract_id_recorded],
    [reverse_policy_id]), which checks the transcription of those policies byte by byte.

    The chain modules are typed: their inputs are records of the declared TypeScript types,
    with a union where the type has one.  [getAddress] and the transaction decoder of the
    package [ethers] are the interface [ChainBase.Ethers], with its documented behaviour in
    [EthersLaws]; [localeCompare] is [Locale].  The samples instantiate both.  The file
    system of a store is a record of its five files ([AccountStore.fs]); an operation is a
    program that records the file system after each system call that changes it, and a
    killed process leaves one of the recorded states.  A write to a temporary file followed
    by its rename is one such change, as the temporary name is never read; an append is
    taken to be complete or absent; [fsync], permissions and path checks are not modelled.

    The files of a segment store ([SegStore.disk]) are recorded in the same way; there an
    append of a frame to [blocks.bin] also leaves every shorter part of it, while a line of
    a log or an index is appended entirely or not at all.  Block files are bytes, logs and
    indexes lines of text, [heads.json] and [meta.json] values.  System calls do not fail.
    Segments and logs are keyed by their base height, so that names in other forms do not
    occur.  Blocks are parsed values; that a stored block is read back is the round trip of
    [JsonParse] and needs numbers that print in plain digits ([storable]).

    The world of the append lock ([ReceiptLock.world]) is one directory, the processes and
    what [/proc] says of them.  Every call of a store is one step and may fail; [ENOENT],
    [ESRCH] and [EEXIST] are truthful.  A listing begins and ends at different moments,
    metadata of files and times are arbitrary, random tokens do not repeat, and the names of
    temporary files of the lock, which are random, are not reached by others.  The clock is
    read for every item of a batch.  [gc] takes no lock: shards may be dropped at any moment.
    The shards are read in one step: under the lock nobody else writes them, and a scan that
    misses a dropped shard fails.  The loop that waits for the lock takes any number of rounds;
    running out of its fuel is an outcome of its own.  In [Receipts], which models one store
    without others, failing calls are the fault points of the source.

    The network between two sockets chooses freely which packets arrive; that it cannot forge is
    the side condition of a step ([UdpStream.valid_call]): a packet that the cipher opens was
    sent by the peer.  Calls take the time they read from the clock.  Listeners and the transmit
    callback do not call back into the socket, and the events of microtasks are recorded when
    they are scheduled.  X25519, HKDF and AES-256-GCM are the interface
    [UdpPacket.SessionCrypto] with the laws of key agreement and of opening what was sealed.

    What these modules call is again an interface: [Number] of a text is [StringNumber]
    (with [NumberTextLaws] for plain digits), numbers of [JSON.parse] that are not plain
    integers are [JsonNumber], key import and Ed25519 verification [NodeCrypto], the digest
    of buffers [BufferDigest]; the proposer that runtime truth names is the argument
    [runtimeTruth].  The pool copies an entry into a fresh object; its items carry a
    reference that stands for the identity of that object.

    Loops are structural recursions over the array they traverse, except these.
    [CoupledOpening.gcdLoop] gets log2(a * b) + 3 iterations, and termination
    within one less is a theorem: the loop then holds the greatest common divisor.  The block loop of [Sha256]
    gets the number of message words, more than the number of blocks.  The scans of
    [SegFrames] get one more step than the file has bytes, and a frame has at least four;
    [JSON_parse] gets one more than the text has characters, and every level of nesting
    takes one.  [UdpTransport.deliver] gets the number of chunks held back, of which every round
    takes one out (it stops at a missing chunk: [UdpReceiver.deliver_stops]); the loop of
    [flushQueued] gets the length of the queue, and a write is cut into at most as many chunks
    as it has bytes.

    ** What is not modelled

    The command-line wrappers ([main], bounded stdin), which only read, call and
    print.  The load-time checks of [AtomicSettlement]'s source (git processes, file
    descriptors, a private execution bundle): what they establish is the parameter
    [SourceGeneration], and the SHA-1 blob name and UTF-8 [JSON.parse] of the pinned
    bytes are the interface [SourceTools].  Of the segment store: the seals of an inherited
    checkpoint, the confinement of paths, failing system calls with the write hold they
    set, and metrics.  Of the receipts store: the stamps that detect a
    shard replaced while it is read, test hooks and [stats].  Of [block.ts]: what the file has
    beside the block functions.  Of the secure transport: the creation and verification of
    the signed key offers, which rest on the authenticated-path handshake.  The rest of the repository: the HTTP node, the
    rest of the peer-to-peer layer, the other chain and storage modules in TypeScript, contracts in
    Solidity, and operational scripts.

    ** Plan

    Next come the authenticated-path handshake with the key offers, the transaction index, the precommit
    hook that runs the block executor before a block is saved, the ledger persistence and
    current quote reserve of the WC/VOID market, then the opening policies (window, claim
    binding, replay protection, concentration), the durable reservation and replay stores,
    and the Bitcoin HTLC, Chain-2050 hashlock and cross-rail binding.

    ** This file

    The error monad [res] (a JavaScript function that may [throw new Error(msg)]),
    the tactics that invert chains of throwing calls, a stable insertion sort
    standing for [Array.prototype.sort], and facts on lists and integers that the
    component files share. *)

From Stdlib Require Export ZArith Lia.
From Stdlib Require Import Permutation Sorted.
From stdpp Require Export base option list strings gmap.

#[global] Open Scope Z_scope.

(** ** Results of throwing functions *)

Inductive res (A : Type) : Type :=
| Ok (a : A)
| Throw (message : string).

Arguments Ok {_} _.
Arguments Throw {_} _.

#[export] Instance res_ret : MRet res := fun _ a => Ok a.
#[export] Instance res_bind : MBind res := fun _ _ f m =>
  match m with Ok a => f a | Throw e => Throw e end.
#[export] Instance res_fmap : FMap res := fun _ _ f m =>
  match m with Ok a => Ok (f a) | Throw e => Throw e end.

(** [if (b) throw new Error(msg);] *)
Definition throw_if (b : bool) (msg : string) : res unit :=
  if b then Throw msg else Ok tt.

Definition is_ok {A} (r : res A) : bool :=
  match r with Ok _ => true | Throw _ => false end.

(** Sequencing a throwing callback over an array, [array.map(f)] with an
    index, in order: the first failure is the failure of the whole map. *)
Fixpoint mapi_res {A B} (f : nat -> A -> res B) (i : nat) (l : list A) : res (list B) :=
  match l with
  | [] => Ok []
  | a :: l' => b ← f i a; bs ← mapi_res f (S i) l'; Ok (b :: bs)
  end.

Definition map_res {A B} (f : A -> res B) (l : list A) : res (list B) :=
  mapi_res (fun _ => f) 0 l.

(** A left fold whose step may throw: a loop with mutable locals. *)
Fixpoint foldM {S A} (f : S -> A -> res S) (s : S) (l : list A) : res S :=
  match l with
  | [] => Ok s
  | a :: l' => s' ← f s a; foldM f s' l'
  end.

Create HintDb voidnet.

Section res_lemmas.
Context {A B : Type}.

Lemma bind_Ok (m : res A) (f : A -> res B) b :
  (m ≫= f) = Ok b <-> exists a, m = Ok a /\ f a = Ok b.
Proof. destruct m; simpl; split; naive_solver. Qed.

Lemma bind_Throw (m : res A) (f : A -> res B) e :
  (m ≫= f) = Throw e <-> m = Throw e \/ exists a, m = Ok a /\ f a = Throw e.
Proof. destruct m; simpl; split; naive_solver. Qed.

Lemma throw_if_Ok b msg u : throw_if b msg = Ok u <-> b = false.
Proof. destruct b, u; simpl; split; naive_solver. Qed.

Lemma throw_if_Throw b msg e : throw_if b msg = Throw e <-> b = true /\ e = msg.
Proof. destruct b; simpl; split; naive_solver. Qed.
End res_lemmas.

(** [inv_ok] breaks every hypothesis stating that a monadic chain returned
    [Ok] into the successes of its parts and the guards that did not fire. *)
Ltac inv_ok_step :=
  match goal with
  | H : (_ ≫= _) = Ok _ |- _ =>
      apply bind_Ok in H; let x := fresh "x" in destruct H as (x & ? & H)
  | H : throw_if _ _ = Ok _ |- _ => apply throw_if_Ok in H
  | H : mret _ = Ok _ |- _ => change (@mret res _ _) with (@Ok) in H
  | H : Ok _ = Ok _ |- _ => injection H as H
  | H : Throw _ = Ok _ |- _ => discriminate H
  | H : Ok _ = Throw _ |- _ => discriminate H
  | x : unit |- _ => destruct x
  | H : (_, _) = (_, _) |- _ => injection H as H
  end.

Ltac inv_ok := repeat (inv_ok_step; simplify_eq).

(** Boolean guards as propositions. *)
Ltac bool_prop :=
  repeat match goal with
  | H : orb _ _ = false |- _ => apply orb_false_iff in H; destruct H
  | H : andb _ _ = true |- _ => apply andb_true_iff in H; destruct H
  | H : negb _ = false |- _ => apply negb_false_iff in H
  | H : negb _ = true |- _ => apply negb_true_iff in H
  end.

(** ** Lists and loops *)

Section loops.
Context {A B S : Type}.

Lemma mapi_res_length (f : nat -> A -> res B) i l bs :
  mapi_res f i l = Ok bs -> length bs = length l.
Proof. revert i bs. induction l; intros; simpl in *; inv_ok; simpl; eauto. Qed.

Lemma mapi_res_Forall2 (f : nat -> A -> res B) i l bs :
  mapi_res f i l = Ok bs -> Forall2 (fun a b => exists j, f j a = Ok b) l bs.
Proof.
  revert i bs. induction l; intros; simpl in *; inv_ok; constructor; eauto.
Qed.

Lemma mapi_res_app (f : nat -> A -> res B) i l1 l2 :
  mapi_res f i (l1 ++ l2) =
    (b1 ← mapi_res f i l1; b2 ← mapi_res f (i + length l1)%nat l2; Ok (b1 ++ b2)).
Proof.
  revert i. induction l1 as [|a l1 IH]; intros i; simpl.
  - rewrite Nat.add_0_r. by destruct (mapi_res f i l2).
  - destruct (f i a); simpl; [|done]. rewrite IH.
    rewrite Nat.add_succ_r. simpl.
    destruct (mapi_res f (Datatypes.S i) l1); simpl; [|done].
    by destruct (mapi_res f _ l2).
Qed.

Lemma foldM_app (f : S -> A -> res S) s l1 l2 :
  foldM f s (l1 ++ l2) = (s' ← foldM f s l1; foldM f s' l2).
Proof.
  revert s. induction l1; intros; simpl; [done|].
  destruct (f s a); simpl; eauto.
Qed.

(** An invariant of the loop body is an invariant of the loop. *)
Lemma foldM_inv (P : S -> Prop) (f : S -> A -> res S) s l s' :
  (forall s a s', P s -> f s a = Ok s' -> P s') ->
  P s -> foldM f s l = Ok s' -> P s'.
Proof.
  intros Hf. revert s. induction l; intros s Hs; simpl; intros; inv_ok; eauto.
Qed.
End loops.

Lemma sublist_map {A B} (f : A -> B) l k : l `sublist_of` k -> map f l `sublist_of` map f k.
Proof. induction 1; simpl; [constructor|by apply sublist_skip|by apply sublist_cons]. Qed.

Lemma NoDup_snoc {A} (l : list A) a : NoDup (l ++ [a]) <-> NoDup l /\ a ∉ l.
Proof.
  rewrite NoDup_app. split; [set_solver|]. intros [? ?]. split; [done|].
  split; [set_solver|apply NoDup_singleton].
Qed.

(** A permutation of one side of a pointwise relation carries over to the other. *)
Lemma Forall2_perm_l {A B} (P : A -> B -> Prop) l l' k : Forall2 P l k -> l' ≡ₚ l ->
  exists k', k' ≡ₚ k /\ Forall2 P l' k'.
Proof.
  intros Hk Hp. symmetry in Hp. revert k Hk.
  induction Hp as [|a l l' _ IH|a b l|l l2 l3 _ IH1 _ IH2]; intros k Hk.
  - inversion Hk; subst. by exists [].
  - inversion Hk as [|? y ? k0 Hy Hk0]; subst. destruct (IH k0 Hk0) as (k' & ? & ?).
    exists (y :: k'). split; by constructor.
  - inversion Hk as [|? y ? k0 Hy Hk0]; subst. inversion Hk0 as [|? z ? k1 Hz Hk1]; subst.
    exists (z :: y :: k1). split; [by constructor|]. by repeat constructor.
  - destruct (IH1 k Hk) as (k2 & Hp2 & Hk2). destruct (IH2 k2 Hk2) as (k3 & Hp3 & Hk3).
    exists k3. split; [by rewrite Hp3|done].
Qed.

Lemma filter_perm {A} (f : A -> bool) l k : l ≡ₚ k -> List.filter f l ≡ₚ List.filter f k.
Proof.
  induction 1 as [|x l k _ IH|x y l|l k k' _ IH _ IH']; simpl; [done| | |by rewrite IH].
  - destruct (f x); by rewrite IH.
  - destruct (f x), (f y); try done. constructor.
Qed.

(** ** Sums *)

Definition sumZ {A} (f : A -> Z) (l : list A) : Z := foldr (fun a s => f a + s) 0 l.

Section sums.
Context {A : Type} (f : A -> Z).

Lemma sumZ_cons a l : sumZ f (a :: l) = f a + sumZ f l.
Proof. done. Qed.

Lemma sumZ_app l1 l2 : sumZ f (l1 ++ l2) = sumZ f l1 + sumZ f l2.
Proof. induction l1; simpl in *; lia. Qed.

Lemma sumZ_perm l1 l2 : l1 ≡ₚ l2 -> sumZ f l1 = sumZ f l2.
Proof. induction 1; simpl in *; lia. Qed.

Lemma sumZ_bound l B : Forall (fun a => f a <= B) l -> sumZ f l <= Z.of_nat (length l) * B.
Proof.
  induction 1 as [|a l Ha _ IH]; [simpl; lia|]. cbn [length]. rewrite Nat2Z.inj_succ. simpl in *. lia.
Qed.

Lemma sumZ_nonneg l : Forall (fun a => 0 <= f a) l -> 0 <= sumZ f l.
Proof. induction 1; simpl in *; lia. Qed.
End sums.

Lemma sumZ_ext {A} (f g : A -> Z) l : (forall a, a ∈ l -> f a = g a) -> sumZ f l = sumZ g l.
Proof.
  induction l as [|a l IH]; simpl; intros Heq; [done|]. rewrite Heq by left. f_equal.
  apply IH. intros. apply Heq. by right.
Qed.

Lemma sumZ_add {A} (f g : A -> Z) l : sumZ f l + sumZ g l = sumZ (fun x => f x + g x) l.
Proof. induction l; simpl in *; lia. Qed.

Lemma sumZ_map {A B} (f : B -> Z) (g : A -> B) l : sumZ f (map g l) = sumZ (fun a => f (g a)) l.
Proof. induction l; simpl in *; lia. Qed.

#[export] Instance sumZ_Proper {A} (f : A -> Z) : Proper ((≡ₚ) ==> eq) (sumZ f).
Proof. intros l1 l2. apply sumZ_perm. Qed.

(** ** [Array.prototype.sort] with a comparison: a stable insertion sort *)

Section isort.
Context {A : Type} (leb : A -> A -> bool).

Fixpoint insert_sorted (a : A) (l : list A) : list A :=
  match l with
  | [] => [a]
  | b :: l' => if leb a b then a :: b :: l' else b :: insert_sorted a l'
  end.

Fixpoint isort (l : list A) : list A :=
  match l with
  | [] => []
  | a :: l' => insert_sorted a (isort l')
  end.

Lemma insert_sorted_perm a l : insert_sorted a l ≡ₚ a :: l.
Proof.
  induction l as [|b l IH]; simpl; [done|].
  destruct (leb a b); [done|]. rewrite IH. apply Permutation_swap.
Qed.

Lemma isort_perm l : isort l ≡ₚ l.
Proof. induction l; simpl; [done|]. by rewrite insert_sorted_perm, IHl. Qed.

Lemma isort_length l : length (isort l) = length l.
Proof. apply Permutation_length, isort_perm. Qed.

Context (leb_total : forall a b, leb a b = true \/ leb b a = true).
Context (leb_trans : forall a b c, leb a b = true -> leb b c = true -> leb a c = true).

Definition Sorted_by : list A -> Prop := StronglySorted (fun a b => leb a b = true).

Lemma insert_sorted_Sorted a l : Sorted_by l -> Sorted_by (insert_sorted a l).
Proof using leb_total leb_trans.
  induction 1 as [|b l Hl IH Hb]; simpl; [repeat constructor|].
  destruct (leb a b) eqn:E.
  - constructor; [by constructor|]. constructor; [done|].
    eapply Forall_impl; [done|]. eauto.
  - constructor; [done|].
    rewrite insert_sorted_perm. constructor; [|done].
    destruct (leb_total a b); congruence.
Qed.

Lemma isort_Sorted l : Sorted_by (isort l).
Proof using leb_total leb_trans. induction l; [constructor|]. by apply insert_sorted_Sorted. Qed.

(** An element of a prefix is below every element of the rest. *)
Lemma sorted_split l k a b : Sorted_by l -> a ∈ take k l -> b ∈ drop k l -> leb a b = true.
Proof using Type.
  clear leb_total leb_trans. intros Hs. revert k. induction Hs as [|c l _ IH Hc]; intros [|k] Ha Hb; simpl in *; try set_solver.
  apply elem_of_cons in Ha as [->|Ha]; [|by eapply IH].
  rewrite Forall_forall in Hc. apply Hc. rewrite <- (take_drop k l). set_solver.
Qed.

(** Sorting is canonical when the order is antisymmetric on the elements. *)
Lemma Sorted_by_perm_eq l1 l2 :
  (forall a b, a ∈ l1 -> b ∈ l1 -> leb a b = true -> leb b a = true -> a = b) ->
  Sorted_by l1 -> Sorted_by l2 -> l1 ≡ₚ l2 -> l1 = l2.
Proof.
  intros Hanti H1. revert l2. induction H1 as [|a l1 H1 IH Ha]; intros l2 H2 Hp.
  { by apply Permutation_nil_l in Hp. }
  destruct l2 as [|b l2]; [by apply Permutation_nil_r in Hp|].
  inversion H2 as [|? ? H2' Hb]; subst.
  assert (a = b) as <-.
  { assert (a ∈ b :: l2) as Ha2 by (rewrite <- Hp; left).
    assert (b ∈ a :: l1) as Hb1 by (rewrite Hp; left).
    apply elem_of_cons in Ha2 as [->|Ha2]; [done|].
    apply elem_of_cons in Hb1 as [->|Hb1]; [done|].
    rewrite Forall_forall in Ha, Hb. apply Hanti; [by left|by right| |]; eauto. }
  f_equal. apply IH; [|done|by eapply Permutation_cons_inv].
  intros; apply Hanti; try (by right); done.
Qed.
End isort.

#[export] Hint Resolve isort_perm insert_sorted_perm : voidnet.

(** ** Integers *)

(** BigInt division truncates toward zero; on the non-negative operands of the
    economic code it is the floor. *)
Lemma quot_floor a b : 0 <= a -> 0 < b ->
  b * (a ÷ b) <= a /\ a < b * (a ÷ b) + b /\ 0 <= a ÷ b.
Proof.
  intros. pose proof (Z.quot_rem' a b). pose proof (Z.rem_bound_pos a b).
  pose proof (Z.quot_pos a b). lia.
Qed.

Lemma quot_le_iff a b q : 0 <= a -> 0 < b -> 0 <= q -> q <= a ÷ b <-> b * q <= a.
Proof. intros. pose proof (quot_floor a b). nia. Qed.

(** ** Concrete runs

    [run_ok r E] case-splits a concrete run [r]; the failing case is closed by
    evaluating it. *)
Ltac run_ok r E :=
  let x := fresh "out" in
  let e := fresh "err" in
  destruct r as [x|e] eqn:E;
  [| let Hb := fresh "Hb" in
     assert (is_ok r = true) as Hb by (vm_compute; reflexivity);
     rewrite E in Hb; discriminate Hb].

(** Closes [v = f out] for the result [out] of a concrete run [E : r = Ok out]. *)
Ltac run_field E f :=
  lazymatch type of E with
  | ?r = Ok ?x =>
      lazymatch goal with
      | |- ?v = _ =>
          let F := fresh "F" in
          assert ((f <$> r) = Ok v) as F by (vm_compute; reflexivity);
          rewrite E in F; injection F as F; symmetry; exact F
      end
  end.
