(* ===== verification/Js.v ===== *)
(** * The JavaScript values and built-ins the economic modules use

    Parsed JSON values with their property access and strict equality, decimal
    strings and BigInt, [Number.isSafeInteger], the regular expressions of the
    sources as boolean functions, and the checked-shape helpers ([plainObject],
    [exactKeys], [atomic], [integer]) that every economic module repeats.

    Strings are sequences of UTF-16 code units below 256 (Rocq's [string]); a
    number is an integer written without an exponent ([NInt]) or any other
    number, given by its [toString] text ([NOther]).  [structuredClone] and
    [Object.freeze] act as the identity on such values. *)

From Stdlib Require Import Ascii DecimalString DecimalN DecimalPos DecimalFacts.
From S2P Require Import Prelude.

Inductive jsnum : Type :=
| NInt (z : Z)
| NOther (text : string).

Inductive json : Type :=
| JUndefined
| JNull
| JBool (b : bool)
| JNum (n : jsnum)
| JStr (s : string)
| JArr (items : list json)
| JObj (fields : list (string * json)).

#[global] Coercion JBool : bool >-> json.
#[global] Coercion JStr : string >-> json.
Definition jint (z : Z) : json := JNum (NInt z).

Declare Scope js_scope.
Delimit Scope js_scope with js.
Notation "k ~> v" := (@pair string json k%string v%string) (at level 60) : js_scope.
#[global] Open Scope js_scope.

Section json_ind.
Context (P : json -> Prop).
Context (Hundef : P JUndefined) (Hnull : P JNull) (Hbool : forall b, P (JBool b))
  (Hnum : forall n, P (JNum n)) (Hstr : forall s, P (JStr s))
  (Harr : forall l, Forall P l -> P (JArr l))
  (Hobj : forall fs, Forall (fun f => P f.2) fs -> P (JObj fs)).

Fixpoint json_nested_ind (v : json) : P v :=
  match v with
  | JUndefined => Hundef
  | JNull => Hnull
  | JBool b => Hbool b
  | JNum n => Hnum n
  | JStr s => Hstr s
  | JArr l => Harr l ((fix go l : Forall P l :=
      match l with
      | [] => @List.Forall_nil _ P
      | x :: l' => @List.Forall_cons _ P x l' (json_nested_ind x) (go l')
      end) l)
  | JObj fs => Hobj fs ((fix go fs : Forall (fun f => P f.2) fs :=
      match fs with
      | [] => @List.Forall_nil _ (fun f => P f.2)
      | f :: fs' => @List.Forall_cons _ (fun f => P f.2) f fs' (json_nested_ind f.2) (go fs')
      end) fs)
  end.
End json_ind.

(** ** Property access and strict equality *)

Fixpoint assoc (k : string) (fs : list (string * json)) : json :=
  match fs with
  | [] => JUndefined
  | (k', v) :: fs' => if String.eqb k' k then v else assoc k fs'
  end.

(** [value.key] *)
Definition prop (v : json) (k : string) : json :=
  match v with JObj fs => assoc k fs | _ => JUndefined end.
Notation "v .@ k" := (prop v k%string) (at level 2, left associativity, k at level 1) : js_scope.

(** [Object.keys(value)] *)
Definition object_keys (v : json) : list string :=
  match v with JObj fs => fs.*1 | _ => [] end.

(** [{ ...rest } = value] without one key. *)
Definition omit (v : json) (k : string) : json :=
  match v with
  | JObj fs => JObj (List.filter (fun f => negb (String.eqb f.1 k)) fs)
  | _ => v
  end.

(** [{ ...value, key: x }] for a key the value does not have. *)
Definition extend (v : json) (k : string) (x : json) : json :=
  match v with JObj fs => JObj (fs ++ [(k, x)]) | _ => JObj [(k, x)] end.

(** [===]; distinct object references are never equal. *)
Definition strict_eq (a b : json) : bool :=
  match a, b with
  | JUndefined, JUndefined | JNull, JNull => true
  | JBool x, JBool y => eqb x y
  | JNum (NInt x), JNum (NInt y) => x =? y
  | JNum (NOther x), JNum (NOther y) => String.eqb x y && negb (String.eqb x "NaN")
  | JStr x, JStr y => String.eqb x y
  | _, _ => false
  end.
Infix "===" := strict_eq (at level 70) : js_scope.
Notation "a !== b" := (negb (strict_eq a b)) (at level 70) : js_scope.

(** [[a, b, ...].includes(value)] on string literals. *)
Definition includes (l : list string) (v : json) : bool :=
  match v with JStr s => existsb (String.eqb s) l | _ => false end.

Lemma strict_eq_str v s : (v === JStr s) = true <-> v = JStr s.
Proof.
  destruct v as [| |[]|[]|s'| |]; simpl; try (split; [discriminate|congruence]).
  rewrite String.eqb_eq. split; congruence.
Qed.

Lemma strict_eq_str_l v s : (JStr s === v) = true <-> v = JStr s.
Proof.
  destruct v as [| |[]|[]|s'| |]; simpl; try (split; [discriminate|congruence]).
  rewrite String.eqb_eq. split; congruence.
Qed.

Lemma strict_eq_bool v b : (v === JBool b) = true <-> v = JBool b.
Proof.
  destruct v as [| |b'|[]|s'| |]; simpl; try (split; [discriminate|congruence]).
  rewrite eqb_true_iff. split; congruence.
Qed.

Lemma strict_eq_int v z : (v === jint z) = true <-> v = jint z.
Proof.
  destruct v as [| |b'|[]|s'| |]; simpl; unfold jint; try (split; [discriminate|congruence]).
  rewrite Z.eqb_eq. split; congruence.
Qed.

Lemma strict_eq_null v : (v === JNull) = true <-> v = JNull.
Proof. destruct v as [| |b'|[]|s'| |]; simpl; split; congruence. Qed.

Lemma strict_eq_str_refl s : (JStr s === JStr s) = true.
Proof. by apply strict_eq_str. Qed.

Lemma includes_spec l v : includes l v = true <-> exists s, v = JStr s /\ s ∈ l.
Proof.
  destruct v; simpl; try (split; [discriminate|naive_solver]).
  rewrite existsb_exists. setoid_rewrite String.eqb_eq. setoid_rewrite <- list_elem_of_In.
  split; [naive_solver|]. intros (t & [= ->] & ?). eauto.
Qed.

(** Equality guards as equations. *)
Ltac js_eqs :=
  bool_prop;
  repeat match goal with
  | H : (_ === JStr _) = true |- _ => apply strict_eq_str in H
  | H : (_ === JBool _) = true |- _ => apply strict_eq_bool in H
  | H : (_ === jint _) = true |- _ => apply strict_eq_int in H
  | H : (_ === JNull) = true |- _ => apply strict_eq_null in H
  end.

Lemma omit_extend fs k x :
  k ∉ fs.*1 -> omit (extend (JObj fs) k x) k = JObj fs.
Proof.
  intros Hk. simpl. f_equal. rewrite List.filter_app. simpl.
  rewrite String.eqb_refl. simpl. rewrite app_nil_r.
  induction fs as [|[k' v] fs IH]; simpl in *; [done|].
  rewrite (proj2 (String.eqb_neq k' k)) by set_solver. simpl. f_equal. apply IH. set_solver.
Qed.

Lemma assoc_app k fs1 fs2 :
  k ∉ fs1.*1 -> assoc k (fs1 ++ fs2) = assoc k fs2.
Proof.
  induction fs1 as [|[k' v] fs1 IH]; intros Hk; simpl in *; [done|].
  rewrite (proj2 (String.eqb_neq k' k)) by set_solver. apply IH. set_solver.
Qed.

(** ** Characters and regular expressions *)

Fixpoint string_forallb (p : ascii -> bool) (s : string) : bool :=
  match s with
  | EmptyString => true
  | String c s' => p c && string_forallb p s'
  end.

Definition in_range (lo hi : N) (c : ascii) : bool :=
  (lo <=? N_of_ascii c)%N && (N_of_ascii c <=? hi)%N.

(** [[0-9]], [[1-9]] and [[0-9a-f]] *)
Definition is_digit : ascii -> bool := in_range 48 57.
Definition is_nonzero_digit : ascii -> bool := in_range 49 57.
Definition is_lower_hex (c : ascii) : bool := is_digit c || in_range 97 102 c.

(** The canonical-decimal expression: a lone zero, or a nonzero digit followed
    by digits. *)
Definition is_canonical_decimal (s : string) : bool :=
  match s with
  | EmptyString => false
  | String c s' =>
      (bool_decide (s = "0"%string)) || (is_nonzero_digit c && string_forallb is_digit s')
  end.

(** [/^[0-9a-f]{64}$/] *)
Definition is_hex64 (s : string) : bool :=
  (String.length s =? 64)%nat && string_forallb is_lower_hex s.

(** [/^sha256:[0-9a-f]{64}$/] *)
Definition is_sha256_id (s : string) : bool :=
  String.prefix "sha256:" s && is_hex64 (String.substring 7 (String.length s - 7) s).

(** ** BigInt and decimal strings *)

(** [BigInt(text)] on a text the canonical-decimal expression accepts. *)
Definition BigInt (s : string) : Z :=
  match NilZero.uint_of_string s with
  | Some d => Z.of_N (N.of_uint d)
  | None => 0
  end.

(** [value.toString()] of a non-negative BigInt. *)
Definition dec (z : Z) : string := NilZero.string_of_uint (N.to_uint (Z.to_N z)).

Lemma to_uint_unorm n : Decimal.unorm (N.to_uint n) = N.to_uint n.
Proof. rewrite <- (DecimalN.Unsigned.to_of (N.to_uint n)). by rewrite DecimalN.Unsigned.of_to. Qed.

Lemma to_uint_nonnil n : N.to_uint n <> Decimal.Nil.
Proof.
  rewrite <- to_uint_unorm. unfold Decimal.unorm. destruct (Decimal.nzhead _); discriminate.
Qed.

Lemma BigInt_dec z : 0 <= z -> BigInt (dec z) = z.
Proof.
  intros. unfold BigInt, dec. rewrite NilZero.usu by apply to_uint_nonnil.
  rewrite DecimalN.Unsigned.of_to. lia.
Qed.

Lemma BigInt_nonneg s : 0 <= BigInt s.
Proof. unfold BigInt. destruct (NilZero.uint_of_string s); lia. Qed.

Lemma string_of_uint_digits d : string_forallb is_digit (NilEmpty.string_of_uint d) = true.
Proof. induction d; simpl; auto. Qed.

Lemma nzhead_canonical d : Decimal.nzhead d <> Decimal.Nil ->
  is_canonical_decimal (NilEmpty.string_of_uint (Decimal.nzhead d)) = true.
Proof. induction d; simpl; intros; auto using string_of_uint_digits; done. Qed.

Lemma dec_canonical z : is_canonical_decimal (dec z) = true.
Proof.
  unfold dec. rewrite <- to_uint_unorm. unfold Decimal.unorm.
  destruct (Decimal.nzhead _) eqn:E; [done|..]; rewrite <- E;
    (assert (Decimal.nzhead (N.to_uint (Z.to_N z)) <> Decimal.Nil) as Hn by (rewrite E; done));
    pose proof (nzhead_canonical _ Hn) as Hc; rewrite E in *; exact Hc.
Qed.

Lemma uint_of_char_digit c o d :
  DecimalString.uint_of_char c (Some o) = Some d -> is_nonzero_digit c = true -> Decimal.nzhead d = d.
Proof.
  intros H Hc. destruct c as [[][][][][][][][]]; try discriminate Hc;
    simpl in H; injection H as <-; done.
Qed.

Lemma uint_of_char_Some c o : is_digit c = true -> exists d, DecimalString.uint_of_char c (Some o) = Some d.
Proof.
  intros Hc. destruct c as [[][][][][][][][]]; try discriminate Hc; eexists; reflexivity.
Qed.

Lemma uint_of_digits s : string_forallb is_digit s = true ->
  exists d, NilEmpty.uint_of_string s = Some d.
Proof.
  induction s as [|c s IH]; simpl; intros H; [by eexists|].
  apply andb_true_iff in H as [Hc Hs]. destruct (IH Hs) as [d ->].
  by apply uint_of_char_Some.
Qed.

Lemma dec_BigInt s : is_canonical_decimal s = true -> dec (BigInt s) = s.
Proof.
  unfold is_canonical_decimal. destruct s as [|c s]; [done|].
  destruct (bool_decide_reflect (String c s = "0"%string)) as [->|]; [done|].
  simpl. intros [Hc Hs]%andb_true_iff.
  destruct (uint_of_digits s Hs) as [d Hd].
  assert (is_digit c = true) as Hc'.
  { unfold is_digit, is_nonzero_digit, in_range in *.
    rewrite andb_true_iff, !N.leb_le in *. lia. }
  destruct (uint_of_char_Some c d Hc') as [d' Hd'].
  assert (NilZero.uint_of_string (String c s) = Some d') as Hp.
  { simpl. rewrite Hd. exact Hd'. }
  unfold BigInt, dec. rewrite Hp.
  rewrite N2Z.id, DecimalN.Unsigned.to_of.
  assert (Decimal.unorm d' = d') as ->.
  { unfold Decimal.unorm. rewrite (uint_of_char_digit c d d') by done.
    destruct d'; try done.
    destruct c as [[][][][][][][][]]; discriminate. }
  by apply NilZero.sus.
Qed.

Lemma dec_inj a b : 0 <= a -> 0 <= b -> dec a = dec b -> a = b.
Proof. intros Ha Hb H. rewrite <- (BigInt_dec a), <- (BigInt_dec b) by done. by rewrite H. Qed.

(** ** Numbers *)

(** [Number.isSafeInteger(value)] *)
Definition MAX_SAFE_INTEGER : Z := 2 ^ 53 - 1.

Definition as_safe_integer (v : json) : option Z :=
  match v with
  | JNum (NInt z) => if (Z.abs z <=? MAX_SAFE_INTEGER) then Some z else None
  | _ => None
  end.

Lemma as_safe_integer_Some v z :
  as_safe_integer v = Some z <-> v = jint z /\ Z.abs z <= MAX_SAFE_INTEGER.
Proof.
  unfold as_safe_integer, jint. destruct v as [| | |[z'|]| | |]; try (split; naive_solver).
  destruct (Z.leb_spec (Z.abs z') MAX_SAFE_INTEGER); split; intros H'; simplify_eq; try done.
  - destruct H' as [[= ->] _]. done.
  - destruct H' as [[= ->] ?]. lia.
Qed.

(** [String(value)] of an integer *)
Definition int_text (z : Z) : string :=
  if z <? 0 then "-" +:+ dec (- z) else dec z.

(** ** Checked shapes *)

Definition str_leb : string -> string -> bool := String.leb.

Definition plainObject (value : json) (label : string) : res json :=
  match value with
  | JObj _ => Ok value
  | _ => Throw (label +:+ " must be an object")
  end.

Definition same_keys (value : json) (keys : list string) : bool :=
  bool_decide (isort str_leb (object_keys value) = isort str_leb keys).

Definition exactKeys (value : json) (keys : list string) (label : string) : res json :=
  object ← plainObject value label;
  throw_if (negb (same_keys object keys)) (label +:+ " keys mismatch");;
  Ok object.

Definition MAX_ATOMIC_VALUE : Z := Z.shiftl 1 128 - 1.

Definition atomic (value : json) (label : string) (allowZero : bool) : res Z :=
  match value with
  | JStr s =>
      if is_canonical_decimal s then
        let parsed := BigInt s in
        throw_if ((negb allowZero && (parsed =? 0)) || (parsed >? MAX_ATOMIC_VALUE))
          (label +:+ " is outside the v1 atomic-value range");;
        Ok parsed
      else Throw (label +:+ " must be a canonical decimal string")
  | _ => Throw (label +:+ " must be a canonical decimal string")
  end.

Definition integer (value : json) (label : string) (minimum maximum : Z) : res Z :=
  match as_safe_integer value with
  | Some z =>
      throw_if ((z <? minimum) || (z >? maximum))
        (label +:+ " is outside the v1 integer range");;
      Ok z
  | None => Throw (label +:+ " is outside the v1 integer range")
  end.

Lemma atomic_Ok value label az z :
  atomic value label az = Ok z <->
  value = JStr (dec z) /\ 0 <= z <= MAX_ATOMIC_VALUE /\ (az = false -> z <> 0).
Proof.
  unfold atomic. split.
  - destruct value; try discriminate. destruct (is_canonical_decimal s) eqn:E; [|discriminate].
    intros H. inv_ok. pose proof (BigInt_nonneg s). rewrite dec_BigInt by done.
    bool_prop. split; [done|]. split; [lia|]. intros ->. simpl in *. lia.
  - intros (-> & Hz & Hnz). rewrite dec_canonical, BigInt_dec by lia.
    assert (((negb az && (z =? 0)) || (z >? MAX_ATOMIC_VALUE)) = false) as ->; [|done].
    destruct az; simpl in *; lia.
Qed.

Lemma integer_Ok value label lo hi z :
  integer value label lo hi = Ok z <->
  value = jint z /\ Z.abs z <= MAX_SAFE_INTEGER /\ lo <= z <= hi.
Proof.
  unfold integer. split.
  - destruct (as_safe_integer value) eqn:E; [|discriminate].
    apply as_safe_integer_Some in E as [-> ?]. intros. inv_ok. bool_prop. repeat split; lia.
  - intros (-> & Hs & Hr). rewrite (proj2 (as_safe_integer_Some (jint z) z)) by done.
    assert (((z <? lo) || (z >? hi)) = false) as -> by lia. done.
Qed.

Lemma exactKeys_Ok value keys label v :
  exactKeys value keys label = Ok v <->
  v = value /\ (exists fs, value = JObj fs) /\ same_keys value keys = true.
Proof.
  unfold exactKeys, plainObject. split.
  - destruct value; intros; inv_ok. bool_prop. split; [done|]. split; [by eexists|done].
  - intros (-> & [fs ->] & H). simpl. by rewrite H.
Qed.

Lemma str_leb_total a b : str_leb a b = true \/ str_leb b a = true.
Proof.
  unfold str_leb, String.leb. rewrite (String.compare_antisym b a).
  destruct (String.compare a b); simpl; auto.
Qed.

Lemma str_leb_antisym a b : str_leb a b = true -> str_leb b a = true -> a = b.
Proof.
  unfold str_leb, String.leb. rewrite (String.compare_antisym b a).
  destruct (String.compare a b) eqn:E; simpl; try discriminate.
  intros _ _. by apply String.compare_eq_iff.
Qed.

Lemma str_leb_refl a : str_leb a a = true.
Proof. destruct (str_leb_total a a); done. Qed.

Lemma str_leb_trans a b c : str_leb a b = true -> str_leb b c = true -> str_leb a c = true.
Proof.
  unfold str_leb, String.leb. revert b c.
  induction a as [|x a IH]; intros [|y b] [|z c]; simpl; try done.
  unfold Ascii.compare.
  destruct (N.compare_spec (N_of_ascii x) (N_of_ascii y)) as [Exy| |],
    (N.compare_spec (N_of_ascii y) (N_of_ascii z)) as [Eyz| |],
    (N.compare_spec (N_of_ascii x) (N_of_ascii z)); try done; try lia.
  apply IH.
Qed.

(** Sorting by a key that identifies the elements does not depend on their order. *)
Lemma isort_key_perm {A} (key : A -> string) l l' : NoDup (map key l) -> l ≡ₚ l' ->
  isort (fun a b => str_leb (key a) (key b)) l = isort (fun a b => str_leb (key a) (key b)) l'.
Proof.
  intros Hnd Hp. apply (Sorted_by_perm_eq (fun a b => str_leb (key a) (key b))).
  - intros a b Ha Hb H1 H2. rewrite isort_perm in Ha, Hb.
    assert (key a = key b) as Heq by (by apply str_leb_antisym).
    apply list_elem_of_lookup in Ha as [i Hi], Hb as [k Hk].
    assert (i = k) as <-; [|congruence].
    apply (NoDup_lookup (map key l) i k (key a)); [done|..];
      rewrite list_lookup_fmap, ?Hi, ?Hk; simpl; congruence.
  - apply isort_Sorted; eauto using str_leb_total, str_leb_trans.
  - apply isort_Sorted; eauto using str_leb_total, str_leb_trans.
  - by rewrite !isort_perm.
Qed.

(** A value with exactly the expected keys has each of them once. *)
Lemma same_keys_perm v keys : same_keys v keys = true <-> object_keys v ≡ₚ keys.
Proof.
  unfold same_keys. rewrite bool_decide_eq_true. split.
  - intros H. rewrite <- (isort_perm str_leb (object_keys v)), H. apply isort_perm.
  - intros H. apply (Sorted_by_perm_eq str_leb).
    + intros; eauto using str_leb_antisym.
    + apply isort_Sorted; eauto using str_leb_total, str_leb_trans.
    + apply isort_Sorted; eauto using str_leb_total, str_leb_trans.
    + by rewrite !isort_perm.
Qed.

#[export] Hint Resolve str_leb_total str_leb_antisym str_leb_trans str_leb_refl : voidnet.
#[export] Hint Resolve BigInt_nonneg dec_canonical : voidnet.

(** ** Snapshots

    The shape check of the opening and intent modules: the same keys, copied in
    the order of the expected list; a failure of any kind raises the one code. *)

Definition snapshotExact (value : json) (keys : list string) (code : string) : res json :=
  match value with
  | JObj _ =>
      throw_if (negb (same_keys value keys)) code;;
      Ok (JObj (map (fun key => (key, value.@key)) keys))
  | _ => Throw code
  end.

Definition canonicalSha (value : json) (code : string) : res string :=
  match value with
  | JStr s => throw_if (negb (is_sha256_id s)) code;; Ok s
  | _ => Throw code
  end.

Lemma snapshotExact_Ok v ks code w : snapshotExact v ks code = Ok w <->
  (exists fs, v = JObj fs) /\ same_keys v ks = true /\ w = JObj (map (fun k => (k, v.@k)) ks).
Proof.
  unfold snapshotExact. split.
  - destruct v; try discriminate. intros Hs. inv_ok. bool_prop. eauto.
  - intros ([fs ->] & Hk & ->). by rewrite Hk.
Qed.

Lemma assoc_snapshot (v : json) ks k : k ∈ ks -> assoc k (map (fun k => (k, v.@k)) ks) = v.@k.
Proof.
  induction ks as [|k' ks IH]; intros Hin; simpl; [set_solver|].
  destruct (String.eqb_spec k' k) as [->|Hne]; [done|]. apply IH. set_solver.
Qed.

(** A snapshot is its own snapshot. *)
Lemma snapshot_idem v ks : map (fun k => (k, (JObj (map (fun k => (k, v.@k)) ks)).@k)) ks =
  map (fun k => (k, v.@k)) ks.
Proof.
  apply List.map_ext_in. intros k Hk%list_elem_of_In. f_equal. by apply assoc_snapshot.
Qed.

Lemma snapshot_again v ks code w : snapshotExact v ks code = Ok w -> snapshotExact w ks code = Ok w.
Proof.
  rewrite !snapshotExact_Ok. intros (_ & _ & ->). split; [by eexists|]. split; [|by rewrite snapshot_idem].
  apply same_keys_perm. simpl. induction ks; simpl; [done|]. by constructor.
Qed.

Lemma canonicalSha_Ok v code i : canonicalSha v code = Ok i <-> v = JStr i /\ is_sha256_id i = true.
Proof.
  unfold canonicalSha. split.
  - destruct v; try discriminate. intros. inv_ok. by bool_prop.
  - intros [-> ->]. done.
Qed.

(** ** Running a checked function forward

    [js_run] evaluates a chain of checks whose successes follow from the
    context: closed shapes by computation, guards and ranges by arithmetic. *)
Ltac js_run_step :=
  lazymatch goal with
  | |- (throw_if ?b ?m ≫= _) = _ =>
      let E := fresh "E" in
      assert (b = false) as E; [try reflexivity | rewrite E; clear E; cbn [mbind res_bind throw_if]]
  | |- (exactKeys ?v ?ks ?l ≫= _) = _ =>
      let E := fresh "E" in
      assert (exactKeys v ks l = Ok v) as E;
        [apply exactKeys_Ok; split; [reflexivity | split; [eexists; reflexivity | reflexivity]]
        | rewrite E; clear E; cbn [mbind res_bind]]
  | |- (atomic ?v ?l ?z ≫= _) = _ =>
      let E := fresh "E" in
      eassert (atomic v l z = Ok _) as E;
        [apply atomic_Ok; split; [reflexivity|]; split; [try lia | try lia; try discriminate]
        | rewrite E; clear E; cbn [mbind res_bind]]
  | |- (integer ?v ?l ?lo ?hi ≫= _) = _ =>
      let E := fresh "E" in
      eassert (integer v l lo hi = Ok _) as E;
        [apply integer_Ok; split; [reflexivity|]; split; [try (unfold MAX_SAFE_INTEGER; lia) | try lia]
        | rewrite E; clear E; cbn [mbind res_bind]]
  end.

Ltac js_run := repeat js_run_step.

(** ** Which errors a checked function can raise *)

Lemma bind_avoids {A B} (m : res A) (f : A -> res B) e :
  m <> Throw e -> (forall a, m = Ok a -> f a <> Throw e) -> (m ≫= f) <> Throw e.
Proof. destruct m; simpl; intros Hm Hf; [by apply Hf|congruence]. Qed.

Lemma throw_if_avoids b m e : m <> e -> throw_if b m <> Throw e.
Proof. intros Hm [? ?]%throw_if_Throw. congruence. Qed.

Lemma exactKeys_avoids v ks l e :
  (l +:+ " must be an object") <> e -> (l +:+ " keys mismatch") <> e -> exactKeys v ks l <> Throw e.
Proof.
  intros H1 H2. unfold exactKeys, plainObject. apply bind_avoids; [destruct v; congruence|].
  intros a _. apply bind_avoids; [by apply throw_if_avoids|done].
Qed.

Lemma atomic_avoids v l z e :
  (l +:+ " must be a canonical decimal string") <> e ->
  (l +:+ " is outside the v1 atomic-value range") <> e -> atomic v l z <> Throw e.
Proof.
  intros H1 H2. unfold atomic. destruct v; try congruence.
  destruct (is_canonical_decimal s); [|congruence].
  apply bind_avoids; [by apply throw_if_avoids|done].
Qed.

Lemma integer_avoids v l lo hi e :
  (l +:+ " is outside the v1 integer range") <> e -> integer v l lo hi <> Throw e.
Proof.
  intros H1. unfold integer. destruct (as_safe_integer v); [|congruence].
  apply bind_avoids; [by apply throw_if_avoids|done].
Qed.

(** Proves that a chain of checks does not raise a given message. *)
Ltac avoid_step :=
  lazymatch goal with
  | |- (throw_if _ _) <> Throw _ => apply throw_if_avoids; try discriminate
  | |- (exactKeys _ _ _) <> Throw _ => apply exactKeys_avoids; discriminate
  | |- (atomic _ _ _) <> Throw _ => apply atomic_avoids; discriminate
  | |- (integer _ _ _ _) <> Throw _ => apply integer_avoids; discriminate
  | |- (_ ≫= _) <> Throw _ => apply bind_avoids; [|intros ? ?]
  | |- Ok _ <> Throw _ => discriminate
  end.
Ltac avoid_throw := repeat avoid_step.

(** Reads the successes of the shape checks out of the context. *)
Ltac js_facts :=
  repeat match goal with
  | Ha : atomic _ _ _ = Ok _ |- _ => apply atomic_Ok in Ha as (? & ? & ?)
  | Ha : integer _ _ _ _ = Ok _ |- _ => apply integer_Ok in Ha as (? & ? & ?)
  | Ha : exactKeys _ _ _ = Ok _ |- _ => apply exactKeys_Ok in Ha as (? & ? & ?)
  | Ha : includes _ _ = true |- _ => apply includes_spec in Ha as (? & ? & ?)
  end.
