(* ===== verification/JsText.v ===== *)
(** * Text functions of JavaScript

    [toLowerCase], [trim], [slice] and the regular expressions for hexadecimal text and
    safe identifiers that several modules share, on code units below 256. *)

From Stdlib Require Import Ascii.
From S2P Require Import Prelude Js.

(** [value.toLowerCase()], on code units below 256. *)
Definition lower_char (c : ascii) : ascii :=
  if in_range 65 90 c || (in_range 192 222 c && negb (N_of_ascii c =? 215)%N)
  then ascii_of_N (N_of_ascii c + 32) else c.

Fixpoint toLowerCase (s : string) : string :=
  match s with
  | EmptyString => EmptyString
  | String c s' => String (lower_char c) (toLowerCase s')
  end.

(** [value.slice(from)] and [value.slice(from, to)] *)
Fixpoint slice_from (n : nat) (s : string) : string :=
  match n, s with
  | S n', String _ s' => slice_from n' s'
  | _, _ => s
  end.
Fixpoint prefix_of_length (n : nat) (s : string) : string :=
  match n, s with
  | S n', String c s' => String c (prefix_of_length n' s')
  | _, _ => EmptyString
  end.
Definition slice (from to : nat) (s : string) : string := prefix_of_length (to - from) (slice_from from s).

(** The expressions for a fixed number of hexadecimal digits, with and without the
    prefix, in lower case and in both cases. *)
Definition is_hex_digits (n : nat) (s : string) : bool :=
  (String.length s =? n)%nat && string_forallb is_lower_hex s.
Definition has_0x (s : string) : bool := String.prefix "0x" s.
Definition is_0x_hex (n : nat) (s : string) : bool := has_0x s && is_hex_digits n (slice_from 2 s).
Definition is_any_hex (c : ascii) : bool := is_lower_hex c || in_range 65 70 c.
Definition is_0x_any_hex (n : nat) (s : string) : bool :=
  has_0x s && (String.length (slice_from 2 s) =? n)%nat && string_forallb is_any_hex (slice_from 2 s).


(** [value.trim()]: the white space and line terminators below 256. *)
Definition is_js_space (c : ascii) : bool :=
  in_range 9 13 c || Ascii.eqb c " " || (N_of_ascii c =? 160)%N.

Fixpoint trim_start (s : string) : string :=
  match s with
  | String c s' => if is_js_space c then trim_start s' else s
  | EmptyString => EmptyString
  end.

Fixpoint trim_end (s : string) : string :=
  match s with
  | String c s' =>
      match trim_end s' with
      | EmptyString => if is_js_space c then EmptyString else String c EmptyString
      | t => String c t
      end
  | EmptyString => EmptyString
  end.

Definition trim (s : string) : string := trim_end (trim_start s).

(** [/^[A-Za-z0-9._:@/-]{1,200}$/] *)
Definition is_safe_char (c : ascii) : bool :=
  in_range 65 90 c || in_range 97 122 c || is_digit c ||
  existsb (Ascii.eqb c) ["."; "_"; ":"; "@"; "/"; "-"]%char.
Definition is_safe_id (s : string) : bool :=
  (1 <=? String.length s)%nat && (String.length s <=? 200)%nat && string_forallb is_safe_char s.

(** ** Slices *)

Lemma slice_from_app a b : slice_from (String.length a) (a +:+ b) = b.
Proof. induction a; simpl; [by destruct b|done]. Qed.

Lemma prefix_app a b : prefix_of_length (String.length a) (a +:+ b) = a.
Proof. induction a; simpl; [done|by f_equal]. Qed.

Lemma slice_from_app_n n a b : String.length a = n -> slice_from n (a +:+ b) = b.
Proof. intros <-. apply slice_from_app. Qed.

Lemma slice_0_app n a b : String.length a = n -> slice 0 n (a +:+ b) = a.
Proof.
  intros <-. unfold slice. rewrite Nat.sub_0_r.
  assert (slice_from 0 (a +:+ b) = a +:+ b) as -> by (by destruct (a +:+ b)). apply prefix_app.
Qed.

Lemma prefix_slice n s : prefix_of_length n s +:+ slice_from n s = s.
Proof.
  revert s. induction n as [|n IH]; intros [|c s]; try done.
  change (String c (prefix_of_length n s +:+ slice_from n s) = String c s). by rewrite IH.
Qed.

Lemma prefix_length n s : (n <= String.length s)%nat -> String.length (prefix_of_length n s) = n.
Proof. revert s. induction n; intros [|c s] Hn; simpl in *; try done; [lia|]. f_equal. apply IHn. lia. Qed.

Lemma forallb_sapp p a b : string_forallb p (a +:+ b) = string_forallb p a && string_forallb p b.
Proof. induction a; simpl; [done|]. rewrite IHa. by rewrite andb_assoc. Qed.

Lemma length_sapp (a b : string) : String.length (a +:+ b) = (String.length a + String.length b)%nat.
Proof. induction a as [|c a IH]; [done|]. change (S (String.length (a +:+ b)) = S (String.length a + String.length b)). by rewrite IH. Qed.

(** A string of hexadecimal digits splits into two. *)
Lemma is_hex_digits_split n m s : is_hex_digits (n + m) s = true <->
  exists a b, s = a +:+ b /\ is_hex_digits n a = true /\ is_hex_digits m b = true.
Proof.
  unfold is_hex_digits. split.
  - intros [Hl%Nat.eqb_eq Hs]%andb_true_iff.
    rewrite <- (prefix_slice n s) in Hs. rewrite forallb_sapp in Hs. bool_prop.
    exists (prefix_of_length n s), (slice_from n s). split; [by rewrite prefix_slice|].
    assert (String.length (prefix_of_length n s) = n) as Hp by (apply prefix_length; lia).
    rewrite Hp, Nat.eqb_refl. split; [done|]. apply andb_true_iff. split; [|done]. apply Nat.eqb_eq.
    rewrite <- (prefix_slice n s), length_sapp, Hp in Hl. lia.
  - intros (a & b & -> & [Ha%Nat.eqb_eq Ha']%andb_true_iff & [Hb%Nat.eqb_eq Hb']%andb_true_iff).
    rewrite length_sapp, forallb_sapp, Ha, Hb, Nat.eqb_refl, Ha', Hb'. done.
Qed.

Lemma hex_digits_length n s : is_hex_digits n s = true -> String.length s = n.
Proof. intros [Hl%Nat.eqb_eq _]%andb_true_iff. done. Qed.

Lemma lower_hex_char c : is_lower_hex c = true -> lower_char c = c.
Proof. destruct c as [[][][][][][][][]]; intros; done. Qed.

Lemma toLowerCase_hex s : string_forallb is_lower_hex s = true -> toLowerCase s = s.
Proof.
  induction s as [|c s IH]; simpl; [done|]. intros [Hc Hs]%andb_true_iff.
  by rewrite (IH Hs), lower_hex_char.
Qed.

Lemma lower_any_hex s : string_forallb is_lower_hex s = true -> string_forallb is_any_hex s = true.
Proof.
  induction s as [|c s IH]; simpl; [done|]. unfold is_any_hex at 1. intros [-> Hs]%andb_true_iff. by rewrite IH.
Qed.

Lemma is_0x_hex_iff n s : is_0x_hex n s = true <-> exists r, s = "0x" +:+ r /\ is_hex_digits n r = true.
Proof.
  unfold is_0x_hex, has_0x. split.
  - destruct s as [|c0 [|c1 s]]; cbn [String.prefix slice_from]; [discriminate|..].
    + destruct (ascii_dec "0" c0); intros; bool_prop; discriminate.
    + destruct (ascii_dec "0" c0) as [<-|]; [|intros; bool_prop; discriminate].
      destruct (ascii_dec "x" c1) as [<-|]; [|intros; bool_prop; discriminate]. intros Hs; simpl in Hs. exists s. split; [done|].
      destruct s; done.
  - intros (r & -> & Hr). change (String.prefix "0x" ("0x" +:+ r)) with (String.prefix "" r).
    destruct r; exact Hr.
Qed.

Lemma toLowerCase_0x_hex n s : is_0x_hex n s = true -> toLowerCase s = s.
Proof.
  intros (r & -> & [_ Hr]%andb_true_iff)%is_0x_hex_iff.
  change (toLowerCase ("0x" +:+ r)) with ("0x" +:+ toLowerCase r). by rewrite toLowerCase_hex.
Qed.

(** Identifiers hold no white space, so trimming keeps them. *)
Lemma safe_char_no_space c : is_safe_char c = true -> is_js_space c = false.
Proof. destruct c as [[][][][][][][][]]; intros; done. Qed.

Lemma trim_end_safe s : string_forallb is_safe_char s = true -> trim_end s = s.
Proof.
  induction s as [|c s IH]; simpl; [done|]. intros [Hc Hs]%andb_true_iff.
  rewrite (IH Hs), (safe_char_no_space c Hc). by destruct s.
Qed.

Lemma trim_safe s : string_forallb is_safe_char s = true -> trim s = s.
Proof.
  intros Hs. unfold trim. enough (trim_start s = s) as -> by (by apply trim_end_safe).
  destruct s as [|c s]; [done|]. simpl in *. apply andb_true_iff in Hs as [Hc _].
  by rewrite (safe_char_no_space c Hc).
Qed.

Lemma lower_hex_safe s : string_forallb is_lower_hex s = true -> string_forallb is_safe_char s = true.
Proof.
  induction s as [|c s IH]; simpl; [done|]. intros [Hc Hs]%andb_true_iff. rewrite IH by done.
  rewrite andb_true_r. clear -Hc. destruct c as [[][][][][][][][]]; done.
Qed.

(** A short prefix of safe characters before a digest is a safe identifier. *)
Lemma safe_id_digest p h : is_hex64 h = true -> string_forallb is_safe_char p = true ->
  (String.length p <= 136)%nat -> is_safe_id (p +:+ h) = true.
Proof.
  intros [Hl%Nat.eqb_eq Hh]%andb_true_iff Hp Hlen. unfold is_safe_id.
  rewrite length_sapp, forallb_sapp, Hp, (lower_hex_safe _ Hh), Hl.
  destruct (Nat.leb_spec 1 (String.length p + 64)); [|lia].
  destruct (Nat.leb_spec (String.length p + 64) 200); [done|lia].
Qed.

#[export] Hint Resolve toLowerCase_hex toLowerCase_0x_hex trim_safe : voidnet.
