(* ===== verification/Flow.v ===== *)
(** * Functions that return early

    A JavaScript function whose body may [return] before its end and may throw:
    [flow R A] is a piece of such a body that goes on with an [A], has returned an [R],
    or has thrown. *)

From S2P Require Import Prelude.

Inductive flow (R A : Type) : Type :=
| Next (a : A)
| Return (r : R)
| Raise (message : string).

Arguments Next {_ _} _.
Arguments Return {_ _} _.
Arguments Raise {_ _} _.

#[export] Instance flow_ret R : MRet (flow R) := fun _ a => Next a.
#[export] Instance flow_bind R : MBind (flow R) := fun _ _ f m =>
  match m with Next a => f a | Return r => Return r | Raise e => Raise e end.

(** [if (b) return r;] *)
Definition return_if {R} (b : bool) (r : R) : flow R unit := if b then Return r else Next tt.

(** A call of a throwing function inside the body. *)
Definition call {R A} (m : res A) : flow R A :=
  match m with Ok a => Next a | Throw e => Raise e end.

(** [for (const item of items) { ... }] with its mutable locals. *)
Fixpoint for_each {R S A} (body : S -> A -> flow R S) (s : S) (items : list A) : flow R S :=
  match items with
  | [] => Next s
  | a :: items' => s' ← body s a; for_each body s' items'
  end.

(** The same with the index of the item. *)
Fixpoint for_indexed {R S A} (body : S -> nat -> A -> flow R S) (i : nat) (s : S) (items : list A)
    : flow R S :=
  match items with
  | [] => Next s
  | a :: items' => s' ← body s i a; for_indexed body (Datatypes.S i) s' items'
  end.

Section flow_lemmas.
Context {R A B : Type}.

Lemma bind_Next (m : flow R A) (f : A -> flow R B) b :
  (m ≫= f) = Next b <-> exists a, m = Next a /\ f a = Next b.
Proof. destruct m; simpl; split; naive_solver. Qed.

Lemma return_if_Next b (r : R) u : return_if b r = Next u <-> b = false.
Proof. destruct b, u; simpl; split; naive_solver. Qed.

Lemma call_Next (m : res A) a : call (R := R) m = Next a <-> m = Ok a.
Proof. destruct m; simpl; split; naive_solver. Qed.

End flow_lemmas.

Section loops.
Context {R A S : Type}.

(** An invariant of the loop body is an invariant of the loop. *)
Lemma for_each_inv (P : S -> Prop) (f : S -> A -> flow R S) s l s' :
  (forall s a s', a ∈ l -> P s -> f s a = Next s' -> P s') -> P s -> for_each f s l = Next s' -> P s'.
Proof.
  revert s. induction l as [|a l IH]; simpl; intros s Hf Hs; [congruence|].
  intros (s1 & H1 & H2)%bind_Next. apply (IH s1); [|by apply (Hf s a s1); [left| |]|done].
  intros ? ? ? ?. apply Hf. by right.
Qed.

Lemma for_indexed_inv (P : S -> Prop) (f : S -> nat -> A -> flow R S) i s l s' :
  (forall s i a s', P s -> f s i a = Next s' -> P s') -> P s -> for_indexed f i s l = Next s' -> P s'.
Proof.
  intros Hf. revert i s. induction l as [|a l IH]; simpl; intros i s Hs; [congruence|].
  intros (s1 & H1 & H2)%bind_Next. by eapply IH; [eapply Hf|].
Qed.

(** A body that never returns early on the items carries the loop to its end. *)
Lemma for_each_total (P : list A -> S -> Prop) (f : S -> A -> flow R S) l s k :
  (forall k s a, a ∈ l -> P k s -> exists s', f s a = Next s' /\ P (k ++ [a]) s') -> P k s ->
  exists s', for_each f s l = Next s' /\ P (k ++ l) s'.
Proof.
  revert s k. induction l as [|a l IH]; simpl; intros s k Hf Hs.
  { exists s. by rewrite app_nil_r. }
  destruct (Hf k s a) as (s1 & -> & H1); [by left|done|]. simpl.
  destruct (IH s1 (k ++ [a])) as (s' & ? & Hs'); [|done|].
  { intros ? ? ? ?. apply Hf. by right. }
  exists s'. split; [done|]. by rewrite <- app_assoc in Hs'.
Qed.
End loops.

(** [flow_post Q P m]: if [m] goes on its value satisfies [Q], if it returns early its answer
    satisfies [P]. *)
Definition flow_post {R A} (Q : A -> Prop) (P : R -> Prop) (m : flow R A) : Prop :=
  match m with Next a => Q a | Return r => P r | Raise _ => True end.

Section flow_post_rules.
Context {R A B : Type} (P : R -> Prop).

Lemma flow_post_bind (m : flow R A) (f : A -> flow R B) Q :
  flow_post (fun a => flow_post Q P (f a)) P m -> flow_post Q P (m ≫= f).
Proof. by destruct m. Qed.

Lemma flow_post_return_if b (r : R) (Q : unit -> Prop) : (b = true -> P r) -> (b = false -> Q tt) ->
  flow_post Q P (return_if b r).
Proof. destruct b; simpl; auto. Qed.

Lemma flow_post_call (m : res A) (Q : A -> Prop) : (forall a, m = Ok a -> Q a) -> flow_post Q P (call m).
Proof. destruct m; simpl; auto. Qed.

Lemma flow_post_for_each (f : A -> B -> flow R A) s l (Q : A -> Prop) :
  (forall s b, flow_post (fun _ => True) P (f s b)) -> (forall s', for_each f s l = Next s' -> Q s') ->
  flow_post Q P (for_each f s l).
Proof.
  intros Hf. revert s. induction l as [|b l IH]; simpl; intros s HQ; [by apply HQ|].
  specialize (Hf s b). destruct (f s b) as [s1|r|e]; simpl in *; [by apply IH|done|done].
Qed.
End flow_post_rules.

(** [inv_flow] breaks every hypothesis stating that a body went on. *)
Ltac inv_flow_step :=
  match goal with
  | H : (_ ≫= _) = Next _ |- _ =>
      apply bind_Next in H; let x := fresh "x" in destruct H as (x & ? & H)
  | H : return_if _ _ = Next _ |- _ => apply return_if_Next in H
  | H : call _ = Next _ |- _ => apply call_Next in H
  | H : Next _ = Next _ |- _ => injection H as H
  | H : Return _ = Next _ |- _ => discriminate H
  | H : Raise _ = Next _ |- _ => discriminate H
  | x : unit |- _ => destruct x
  end.
Ltac inv_flow := repeat (inv_flow_step; simplify_eq).

(** Runs a body forward over guards that are false and calls that succeed. *)
Lemma return_if_false {R B} b (r : R) (f : unit -> flow R B) : b = false -> (return_if b r ≫= f) = f tt.
Proof. by intros ->. Qed.

Lemma call_Ok {R A B} (m : res A) a (f : A -> flow R B) : m = Ok a -> (call m ≫= f) = f a.
Proof. by intros ->. Qed.
