(* ===== verification/CanonicalJson.v ===== *)
(** * Canonical JSON

    The two canonical printers of the repository.  [canonical_text] is the
    recursive printer of the settlement, opening and intent modules (keys sorted
    by code unit, safe integers only, everything else refused);
    [canonicalJson] is [JSON.stringify(canonicalize(value))] of the BTC/VOID
    quote and reserve modules.  The theorems show that a canonical text
    determines the value it was printed from, so that an identity computed from
    the text binds the content. *)

From Stdlib Require Import Ascii.
From S2P Require Import Prelude Js.

Definition chr (n : N) : ascii := ascii_of_N n.
Definition char_text (n : N) : string := String (chr n) EmptyString.

(** ** JSON.stringify of a string *)

Definition hex_digit (n : N) : ascii := if (n <? 10)%N then chr (48 + n) else chr (87 + n).

Definition escape_char (c : ascii) : string :=
  let n := N_of_ascii c in
  let backslash := chr 92 in
  if (n =? 34)%N || (n =? 92)%N then String backslash (String c EmptyString)
  else if (n =? 8)%N then String backslash "b"
  else if (n =? 9)%N then String backslash "t"
  else if (n =? 10)%N then String backslash "n"
  else if (n =? 12)%N then String backslash "f"
  else if (n =? 13)%N then String backslash "r"
  else if (n <? 32)%N then
    String backslash ("u00" +:+ String (hex_digit (n / 16)) (String (hex_digit (n mod 16)) EmptyString))
  else String c EmptyString.

Fixpoint escape (s : string) : string :=
  match s with
  | EmptyString => EmptyString
  | String c s' => escape_char c +:+ escape s'
  end.

Definition json_quote (s : string) : string := String (chr 34) (escape s +:+ char_text 34).

(** [items.join(",")] *)
Fixpoint join_tail (l : list string) : string :=
  match l with
  | [] => EmptyString
  | x :: l' => "," +:+ x +:+ join_tail l'
  end.

Definition join_comma (l : list string) : string :=
  match l with
  | [] => EmptyString
  | x :: l' => x +:+ join_tail l'
  end.

Definition key_leb {A} (f g : string * A) : bool := str_leb f.1 g.1.

(** ** The recursive canonical printer *)

Section canonical_text.
Context (bad_number bad_value : string).

Definition field_text (f : string * string) : string := json_quote f.1 +:+ ":" +:+ f.2.

Definition field_res (f : string * res string) : res string :=
  t ← f.2; Ok (field_text (f.1, t)).

Fixpoint canonical_text (v : json) : res string :=
  match v with
  | JNull => Ok "null"
  | JStr s => Ok (json_quote s)
  | JBool b => Ok (if b then "true" else "false")
  | JNum n =>
      match as_safe_integer (JNum n) with
      | Some z => Ok (int_text z)
      | None => Throw bad_number
      end
  | JArr l =>
      texts ← map_res id (map canonical_text l);
      Ok ("[" +:+ join_comma texts +:+ "]")
  | JObj fs =>
      texts ← map_res field_res
        (isort key_leb (map (fun f => (f.1, canonical_text f.2)) fs));
      Ok ("{" +:+ join_comma texts +:+ "}")
  | JUndefined => Throw bad_value
  end.
End canonical_text.

(** ** JSON.stringify(canonicalize(value)) *)

(** Array-index keys enumerate first, in ascending numeric order. *)
Definition is_array_index (k : string) : bool :=
  is_canonical_decimal k && (BigInt k <? 2 ^ 32 - 1).

Definition index_leb {A} (f g : string * A) : bool := BigInt f.1 <=? BigInt g.1.

Definition own_order {A} (fs : list (string * A)) : list (string * A) :=
  isort index_leb (List.filter (fun f => is_array_index f.1) fs) ++
  List.filter (fun f => negb (is_array_index f.1)) fs.

Fixpoint canonicalize (v : json) : json :=
  match v with
  | JArr l => JArr (map canonicalize l)
  | JObj fs => JObj (own_order (isort key_leb (map (fun f => (f.1, canonicalize f.2)) fs)))
  | _ => v
  end.

Definition is_non_finite (text : string) : bool :=
  bool_decide (text ∈ ["NaN"; "Infinity"; "-Infinity"]%string).

(** [JSON.stringify(value)]: [None] stands for [undefined]. *)
Fixpoint stringify (v : json) : option string :=
  match v with
  | JUndefined => None
  | JNull => Some "null"%string
  | JBool b => Some (if b then "true" else "false")%string
  | JNum (NInt z) => Some (int_text z)
  | JNum (NOther t) => Some (if is_non_finite t then "null"%string else t)
  | JStr s => Some (json_quote s)
  | JArr l =>
      Some ("[" +:+ join_comma (map (fun x => default "null"%string (stringify x)) l) +:+ "]")
  | JObj fs =>
      Some ("{" +:+ join_comma (omap
        (fun f => (fun t => field_text (f.1, t)) <$> f.2)
        (map (fun f => (f.1, stringify f.2)) fs)) +:+ "}")
  end.

Definition canonicalJson (v : json) : string := default ""%string (stringify (canonicalize v)).

(** ** Normal forms: keys sorted at every level *)

Fixpoint norm (v : json) : json :=
  match v with
  | JArr l => JArr (map norm l)
  | JObj fs => JObj (isort key_leb (map (fun f => (f.1, norm f.2)) fs))
  | _ => v
  end.

(** The text of a normal form. *)
Fixpoint print (v : json) : string :=
  match v with
  | JNull => "null"
  | JStr s => json_quote s
  | JBool b => if b then "true" else "false"
  | JNum (NInt z) => int_text z
  | JArr l => "[" +:+ join_comma (map print l) +:+ "]"
  | JObj fs => "{" +:+ join_comma (map (fun f => field_text (f.1, print f.2)) fs) +:+ "}"
  | JNum (NOther _) | JUndefined => EmptyString
  end.

(** The values a canonical printer accepts. *)
Fixpoint printable (v : json) : bool :=
  match v with
  | JNull | JStr _ | JBool _ => true
  | JNum n => bool_decide (is_Some (as_safe_integer (JNum n)))
  | JArr l => forallb printable l
  | JObj fs => forallb (fun f => printable f.2) fs
  | JUndefined => false
  end.

Lemma insert_sorted_map {A B} (leA : A -> A -> bool) (leB : B -> B -> bool) (g : A -> B) a l :
  (forall x y, leB (g x) (g y) = leA x y) ->
  insert_sorted leB (g a) (map g l) = map g (insert_sorted leA a l).
Proof.
  intros Hg. induction l as [|b l IH]; simpl; [done|]. rewrite Hg.
  destruct (leA a b); simpl; [done|]. by rewrite IH.
Qed.

Lemma isort_map {A B} (leA : A -> A -> bool) (leB : B -> B -> bool) (g : A -> B) l :
  (forall x y, leB (g x) (g y) = leA x y) ->
  isort leB (map g l) = map g (isort leA l).
Proof.
  intros Hg. induction l as [|a l IH]; simpl; [done|].
  rewrite IH. by apply insert_sorted_map.
Qed.

Lemma map_res_pure {A B} (f : A -> res B) (g : A -> B) l :
  Forall (fun a => f a = Ok (g a)) l -> map_res f l = Ok (map g l).
Proof.
  unfold map_res. generalize 0%nat. intros i Hl. revert i.
  induction Hl as [|a l Ha _ IH]; intros i; simpl; [done|]. rewrite Ha. simpl.
  by rewrite IH.
Qed.

Lemma map_res_fails {A B} (f : A -> res B) l :
  Exists (fun a => is_ok (f a) = false) l -> is_ok (map_res f l) = false.
Proof.
  unfold map_res. generalize 0%nat. intros i Hl. revert i.
  induction Hl as [a l Ha|a l _ IH]; intros i; simpl.
  - by destruct (f a).
  - destruct (f a); simpl; [|done]. specialize (IH (S i)).
    by destruct (mapi_res _ (S i) l).
Qed.

Section canonical_text_facts.
Context (bad_number bad_value : string).
Abbreviation text := (canonical_text bad_number bad_value).

Lemma field_texts_ok fs :
  Forall (fun f => printable f.2 = true -> text f.2 = Ok (print (norm f.2))) fs ->
  forallb (fun f : string * json => printable f.2) fs = true ->
  map_res field_res (isort key_leb (map (fun f => (f.1, text f.2)) fs)) =
  Ok (map (fun f => field_text (f.1, print f.2))
        (isort key_leb (map (fun f => (f.1, norm f.2)) fs))).
Proof.
  intros IH Hp. rewrite !(isort_map key_leb key_leb) by done.
  rewrite (map_res_pure _ (fun f => default EmptyString
    (match f.2 with Ok t => Some (field_text (f.1, t)) | Throw _ => None end))).
  - f_equal. rewrite !List.map_map. apply List.map_ext_in. intros f Hf.
    apply list_elem_of_In in Hf. rewrite isort_perm in Hf. rewrite Forall_forall in IH.
    rewrite forallb_forall in Hp. simpl. rewrite IH; [done|done|].
    apply Hp. by apply list_elem_of_In.
  - apply Forall_forall. intros f. rewrite list_elem_of_In, in_map_iff.
    intros (g & <- & Hg). apply list_elem_of_In in Hg. rewrite isort_perm in Hg.
    rewrite forallb_forall in Hp. rewrite Forall_forall in IH. unfold field_res. simpl.
    rewrite IH; [done|done|]. apply Hp. by apply list_elem_of_In.
Qed.

(** The printer accepts exactly the printable values, and prints the normal form. *)
Lemma canonical_text_print v : printable v = true -> text v = Ok (print (norm v)).
Proof.
  induction v using json_nested_ind; simpl; intros Hp; try done.
  - destruct n as [z|]; [|by rewrite bool_decide_eq_true in Hp; destruct Hp].
    simpl in *. destruct (Z.abs z <=? MAX_SAFE_INTEGER); [done|].
    rewrite bool_decide_eq_true in Hp. by destruct Hp.
  - rewrite (map_res_pure id (fun r => match r with Ok t => t | Throw _ => EmptyString end)).
    + simpl. rewrite !List.map_map. do 4 f_equal. apply List.map_ext_in. intros x Hx.
      rewrite Forall_forall in H. rewrite forallb_forall in Hp.
      rewrite H; [done|by apply list_elem_of_In|auto].
    + apply Forall_forall. intros r. rewrite list_elem_of_In, in_map_iff.
      intros (x & <- & Hx). rewrite Forall_forall in H. rewrite forallb_forall in Hp.
      unfold id. rewrite H; [done|by apply list_elem_of_In|auto].
  - by rewrite field_texts_ok.
Qed.

Lemma canonical_text_fails v : printable v = false -> is_ok (text v) = false.
Proof.
  induction v using json_nested_ind; simpl; intros Hp; try done.
  - destruct n as [z|]; simpl in *; [|done].
    destruct (Z.abs z <=? MAX_SAFE_INTEGER); [|done].
    rewrite bool_decide_eq_false in Hp. exfalso. eauto.
  - assert (is_ok (map_res id (map text l)) = false) as Hf.
    { apply map_res_fails. apply Exists_exists. apply not_true_iff_false in Hp.
      rewrite forallb_forall in Hp.
      destruct (decide (Exists (fun x => printable x = false) l)) as [He|He].
      - apply Exists_exists in He as (x & Hx & Hpx). exists (text x).
        split; [by apply list_elem_of_In, in_map, list_elem_of_In|].
        rewrite Forall_forall in H. by apply H.
      - exfalso. apply Hp. intros x Hx. apply list_elem_of_In in Hx.
        destruct (printable x) eqn:E; [done|].
        exfalso. apply He, Exists_exists. eauto. }
    by destruct (map_res id _).
  - assert (is_ok (map_res field_res
      (isort key_leb (map (fun f => (f.1, text f.2)) fs))) = false) as Hf;
      [|by destruct (map_res field_res _)].
    apply map_res_fails. apply Exists_exists. apply not_true_iff_false in Hp.
    rewrite forallb_forall in Hp.
    destruct (decide (Exists (fun f : string * json => printable f.2 = false) fs)) as [He|He].
    + apply Exists_exists in He as (f & Hx & Hpx). exists (f.1, text f.2).
      rewrite isort_perm. split; [by apply list_elem_of_In, (in_map (fun f => (f.1, text f.2))), list_elem_of_In|].
      rewrite Forall_forall in H. unfold field_res. specialize (H f Hx Hpx). simpl.
      by destruct (text f.2).
    + exfalso. apply Hp. intros f Hx. apply list_elem_of_In in Hx.
      destruct (printable f.2) eqn:E; [done|].
      exfalso. apply He, Exists_exists. eauto.
Qed.

Lemma canonical_text_Ok v s : text v = Ok s <-> printable v = true /\ s = print (norm v).
Proof.
  split.
  - intros H. destruct (printable v) eqn:E.
    + rewrite canonical_text_print in H by done. naive_solver.
    + apply canonical_text_fails in E. by rewrite H in E.
  - intros [Hp ->]. by apply canonical_text_print.
Qed.
End canonical_text_facts.

(** ** A canonical text determines its value *)

#[local] Arguments String.append : simpl nomatch.

Lemma sapp_assoc (a b c : string) : (a +:+ b) +:+ c = a +:+ (b +:+ c).
Proof. induction a; simpl; congruence. Qed.

Lemma sapp_nil_r (a : string) : a +:+ "" = a.
Proof. induction a; simpl; congruence. Qed.

Definition hex_value (c : ascii) : N :=
  let n := N_of_ascii c in if (n <? 58)%N then (n - 48)%N else (n - 87)%N.

(** Reads one escaped character back; [None] at a closing quote. *)
Definition unescape_char (s : string) : option (ascii * string) :=
  match s with
  | EmptyString => None
  | String c s' =>
      if (N_of_ascii c =? 34)%N then None
      else if (N_of_ascii c =? 92)%N then
        match s' with
        | String k t =>
            match N_of_ascii k with
            | 98%N => Some (chr 8, t)
            | 116%N => Some (chr 9, t)
            | 110%N => Some (chr 10, t)
            | 102%N => Some (chr 12, t)
            | 114%N => Some (chr 13, t)
            | 117%N =>
                match t with
                | String _ (String _ (String h (String l t'))) =>
                    Some (chr (16 * hex_value h + hex_value l), t')
                | _ => None
                end
            | _ => Some (k, t)
            end
        | EmptyString => None
        end
      else Some (c, s')
  end.

Lemma unescape_escape c t : unescape_char (escape_char c +:+ t) = Some (c, t).
Proof. destruct c as [[][][][][][][][]]; reflexivity. Qed.

Lemma unescape_close t : unescape_char (char_text 34 +:+ t) = None.
Proof. done. Qed.

Lemma escape_prefix_inj s1 s2 r1 r2 :
  escape s1 +:+ (char_text 34 +:+ r1) = escape s2 +:+ (char_text 34 +:+ r2) ->
  s1 = s2 /\ r1 = r2.
Proof.
  revert s2. induction s1 as [|c1 s1 IH]; intros [|c2 s2] H.
  - simpl in H. by injection H.
  - cbn [escape] in H. rewrite sapp_assoc in H.
    apply (f_equal unescape_char) in H. by rewrite unescape_escape in H.
  - cbn [escape] in H. rewrite sapp_assoc in H.
    apply (f_equal unescape_char) in H. by rewrite unescape_escape in H.
  - cbn [escape] in H. rewrite !sapp_assoc in H. apply (f_equal unescape_char) in H.
    rewrite !unescape_escape in H. injection H as -> H. by apply IH in H as [-> ->].
Qed.

Lemma json_quote_prefix_inj s1 s2 r1 r2 :
  json_quote s1 +:+ r1 = json_quote s2 +:+ r2 -> s1 = s2 /\ r1 = r2.
Proof.
  unfold json_quote. simpl. rewrite !sapp_assoc. intros H. injection H as H.
  by apply escape_prefix_inj.
Qed.

(** What may follow a value inside a text: nothing, or a structural character. *)
Definition delimited (r : string) : bool :=
  match r with
  | EmptyString => true
  | String c _ => negb (is_digit c)
  end.

Lemma digits_prefix_inj d1 d2 r1 r2 :
  string_forallb is_digit d1 = true -> string_forallb is_digit d2 = true ->
  delimited r1 = true -> delimited r2 = true ->
  d1 +:+ r1 = d2 +:+ r2 -> d1 = d2 /\ r1 = r2.
Proof.
  revert d2. induction d1 as [|c1 d1 IH]; intros [|c2 d2] H1 H2 Hr1 Hr2 H; simpl in *;
    subst; bool_prop; simpl in *; bool_prop; try congruence; auto.
  injection H as -> H. destruct (IH d2) as [-> ->]; auto.
Qed.

Lemma dec_digits z : string_forallb is_digit (dec z) = true.
Proof.
  pose proof (dec_canonical z) as H. destruct (dec z) as [|c s]; [done|].
  unfold is_canonical_decimal in H. apply orb_true_iff in H as [H|H].
  - apply bool_decide_eq_true in H. by rewrite H.
  - simpl. apply andb_true_iff in H as [Hc ->]. rewrite andb_true_r.
    unfold is_digit, is_nonzero_digit, in_range in *.
    rewrite andb_true_iff, !N.leb_le in *. lia.
Qed.

Lemma dec_first z : exists c s, dec z = String c s /\ is_digit c = true.
Proof.
  pose proof (dec_canonical z) as H. pose proof (dec_digits z) as Hd.
  destruct (dec z) as [|c s]; [done|]. simpl in Hd. apply andb_true_iff in Hd as [? _]. eauto.
Qed.

Lemma int_text_prefix_inj z1 z2 r1 r2 :
  delimited r1 = true -> delimited r2 = true ->
  int_text z1 +:+ r1 = int_text z2 +:+ r2 -> z1 = z2 /\ r1 = r2.
Proof.
  intros Hr1 Hr2. unfold int_text.
  destruct (dec_first z1) as (c1 & s1 & E1 & D1), (dec_first z2) as (c2 & s2 & E2 & D2).
  destruct (Z.ltb_spec z1 0), (Z.ltb_spec z2 0); intros Ht.
  - simpl in Ht. injection Ht as Ht.
    apply digits_prefix_inj in Ht as [Ht ->]; auto using dec_digits.
    apply dec_inj in Ht; [split; [lia|done]|lia|lia].
  - rewrite E2 in Ht. simpl in Ht. injection Ht as <- _. discriminate.
  - rewrite E1 in Ht. simpl in Ht. injection Ht as -> _. discriminate.
  - apply digits_prefix_inj in Ht as [Ht ->]; auto using dec_digits.
    apply dec_inj in Ht; [split; [lia|done]|lia|lia].
Qed.

(** The first character of a text tells the kind of value. *)
Definition kind_of (c : ascii) : N :=
  if is_digit c then 45%N else N_of_ascii c.

Definition head_kind (s : string) : option N :=
  match s with EmptyString => None | String c _ => Some (kind_of c) end.

Definition json_kind (v : json) : N :=
  match v with
  | JNull => 110
  | JBool true => 116
  | JBool false => 102
  | JNum _ => 45
  | JStr _ => 34
  | JArr _ => 91
  | JObj _ => 123
  | JUndefined => 0
  end.

Lemma print_kind v r : printable v = true -> head_kind (print v +:+ r) = Some (json_kind v).
Proof.
  destruct v as [| |[]|[z|]| | |]; simpl; try done.
  intros _. unfold int_text. destruct (dec_first z) as (c & s & E & D).
  destruct (dec_first (- z)) as (c' & s' & E' & D').
  destruct (z <? 0); simpl; [done|]. rewrite E. simpl. unfold kind_of. by rewrite D.
Qed.

(** Two texts with the same start print values of the same kind, so the main
    induction only meets equal constructors. *)
Definition print_inj_at (v : json) : Prop := forall w r1 r2,
  printable v = true -> printable w = true -> delimited r1 = true -> delimited r2 = true ->
  print v +:+ r1 = print w +:+ r2 -> v = w /\ r1 = r2.

Lemma join_tail_delimited l c t :
  is_digit c = false -> delimited (join_tail l +:+ String c t) = true.
Proof. destruct l; simpl; intros H; [by rewrite H|done]. Qed.

(** Comma-separated items up to a closing bracket, for items printed by a
    prefix-injective [pr]. *)
Section items.
Context {A : Type} (pr : A -> string) (good : A -> bool).
Context (close : ascii) (Hclose : is_digit close = false) (Hcomma : close <> chr 44).
Context (pr_head : forall x r, good x = true -> head_kind (pr x +:+ r) <> Some (kind_of close)).

Definition pr_inj_at (x : A) : Prop := forall y r1 r2,
  good x = true -> good y = true -> delimited r1 = true -> delimited r2 = true ->
  pr x +:+ r1 = pr y +:+ r2 -> x = y /\ r1 = r2.

Lemma tail_inj l1 l2 r1 r2 :
  Forall pr_inj_at l1 -> forallb good l1 = true -> forallb good l2 = true ->
  join_tail (map pr l1) +:+ String close r1 = join_tail (map pr l2) +:+ String close r2 ->
  l1 = l2 /\ r1 = r2.
Proof using Hclose Hcomma.
  revert l2. induction l1 as [|x l1 IH]; intros [|y l2] Hall H1 H2 H; simpl in *.
  - by injection H.
  - injection H as H _. by destruct Hcomma.
  - injection H as H _. by destruct Hcomma.
  - injection H as H. rewrite !sapp_assoc in H. bool_prop.
    inversion_clear Hall as [|? ? Hx Hl].
    apply Hx in H as [-> H]; auto using join_tail_delimited.
    by apply IH in H as [-> ->].
Qed.

Lemma items_inj l1 l2 r1 r2 :
  Forall pr_inj_at l1 -> forallb good l1 = true -> forallb good l2 = true ->
  join_comma (map pr l1) +:+ String close r1 = join_comma (map pr l2) +:+ String close r2 ->
  l1 = l2 /\ r1 = r2.
Proof using Hclose Hcomma pr_head.
  destruct l1 as [|x l1], l2 as [|y l2]; intros Hall H1 H2 H; simpl in *; bool_prop.
  - by injection H.
  - rewrite sapp_assoc in H. exfalso. eapply (pr_head y); [done|]. by rewrite <- H.
  - rewrite sapp_assoc in H. exfalso. eapply (pr_head x); [done|]. by rewrite H.
  - rewrite !sapp_assoc in H. inversion_clear Hall as [|? ? Hx Hl].
    apply Hx in H as [-> H]; auto using join_tail_delimited.
    by apply tail_inj in H as [-> ->].
Qed.
End items.

Lemma kind_neq v w r1 r2 :
  printable v = true -> printable w = true ->
  print v +:+ r1 = print w +:+ r2 -> json_kind v = json_kind w.
Proof.
  intros Hv Hw H. apply (f_equal head_kind) in H. rewrite !print_kind in H by done. congruence.
Qed.

Lemma print_prefix_inj v : print_inj_at v.
Proof.
  induction v using json_nested_ind; intros w r1 r2 Hv Hw Hr1 Hr2 Heq;
    pose proof (kind_neq _ _ _ _ Hv Hw Heq) as Hk;
    destruct w as [| |[]|[z'|]|s'|l'|fs']; try discriminate Hk; try discriminate Hw;
    try (destruct b; try discriminate Hk); try done; simpl in Heq.
  - by injection Heq.
  - by injection Heq.
  - by injection Heq.
  - destruct n as [z|]; [|discriminate Hv]. apply int_text_prefix_inj in Heq as [-> ->]; auto.
  - apply json_quote_prefix_inj in Heq as [-> ->]. auto.
  - injection Heq as Heq. rewrite !sapp_assoc in Heq. simpl in *.
    apply (items_inj print printable) in Heq as [-> ->]; auto; try done.
    intros x r Hx. rewrite print_kind by done. by destruct x as [| |[]|[]| | |].
  - injection Heq as Heq. rewrite !sapp_assoc in Heq. simpl in *.
    apply (items_inj (fun f => field_text (f.1, print f.2)) (fun f => printable f.2)) in Heq
      as [-> ->]; auto; try done.
    eapply Forall_impl; [exact H|]. intros [k x] Hx [k' x'] s1 s2 Hp1 Hp2 Hs1 Hs2 Hs.
    unfold field_text in Hs. cbn [fst snd] in *. rewrite !sapp_assoc in Hs.
    apply json_quote_prefix_inj in Hs as [-> Hs]. simpl in Hs. injection Hs as Hs.
    apply Hx in Hs as [-> ->]; auto.
Qed.

Lemma printable_norm v : printable (norm v) = printable v.
Proof.
  induction v using json_nested_ind; simpl; try done.
  - apply eq_true_iff_eq. rewrite !forallb_forall. rewrite Forall_forall in H.
    split; intros Hp x Hx.
    + rewrite <- H by (by apply list_elem_of_In). apply Hp. by apply in_map.
    + apply in_map_iff in Hx as (y & <- & Hy). rewrite H by (by apply list_elem_of_In). auto.
  - apply eq_true_iff_eq. rewrite !forallb_forall. rewrite Forall_forall in H.
    assert (forall f, In f (isort key_leb (map (fun f => (f.1, norm f.2)) fs)) <->
      exists g, (g.1, norm g.2) = f /\ In g fs) as Hin.
    { intros f. rewrite <- list_elem_of_In, isort_perm, list_elem_of_In, in_map_iff. done. }
    split; intros Hp x Hx.
    + rewrite <- H by (by apply list_elem_of_In). apply (Hp (x.1, norm x.2)). apply Hin. eauto.
    + apply Hin in Hx as (g & <- & Hg). simpl. rewrite H by (by apply list_elem_of_In). auto.
Qed.

(** Equal canonical texts come from values that are equal up to key order. *)
Lemma canonical_text_inj bn bv v w s :
  canonical_text bn bv v = Ok s -> canonical_text bn bv w = Ok s -> norm v = norm w.
Proof.
  rewrite !canonical_text_Ok. intros [Hv ->] [Hw H].
  apply (f_equal (fun s => s +:+ EmptyString)) in H.
  apply print_prefix_inj in H as [H _]; rewrite ?printable_norm; done.
Qed.

(** ** The two printers agree on values without array-index keys *)

Fixpoint no_index_keys (v : json) : bool :=
  match v with
  | JArr l => forallb no_index_keys l
  | JObj fs => forallb (fun f => negb (is_array_index f.1) && no_index_keys f.2) fs
  | _ => true
  end.

Lemma own_order_id {A} (fs : list (string * A)) :
  forallb (fun f => negb (is_array_index f.1)) fs = true -> own_order fs = fs.
Proof.
  unfold own_order. intros H.
  assert (List.filter (fun f => is_array_index f.1) fs = []) as ->.
  { induction fs; simpl in *; [done|]. bool_prop. by rewrite H, IHfs. }
  simpl. induction fs; simpl in *; [done|]. bool_prop. rewrite H. simpl. by rewrite IHfs.
Qed.

Lemma canonicalize_norm v : no_index_keys v = true -> canonicalize v = norm v.
Proof.
  induction v using json_nested_ind; simpl; try done; intros Hk;
    rewrite Forall_forall in H; rewrite forallb_forall in Hk.
  - f_equal. apply List.map_ext_in. intros x Hx. apply H; [by apply list_elem_of_In|auto].
  - assert (map (fun f => (f.1, canonicalize f.2)) fs = map (fun f => (f.1, norm f.2)) fs) as ->.
    { apply List.map_ext_in. intros f Hf. specialize (Hk f Hf). bool_prop.
      f_equal. apply H; [by apply list_elem_of_In|done]. }
    f_equal. apply own_order_id. apply forallb_forall. intros f Hf.
    apply list_elem_of_In in Hf. rewrite isort_perm, list_elem_of_In, in_map_iff in Hf.
    destruct Hf as (g & <- & Hg). specialize (Hk g Hg). bool_prop. simpl. by apply negb_true_iff.
Qed.

Lemma stringify_print v : printable v = true -> stringify v = Some (print v).
Proof.
  induction v using json_nested_ind; simpl; try done; intros Hp;
    try (rewrite Forall_forall in H; rewrite forallb_forall in Hp).
  - destruct n; [done|]. by rewrite bool_decide_eq_true in Hp; destruct Hp.
  - do 4 f_equal. apply List.map_ext_in. intros x Hx.
    rewrite H; [done|by apply list_elem_of_In|auto].
  - do 4 f_equal. induction fs as [|f fs IH]; simpl in *; [done|].
    rewrite H; [|set_solver|auto]. simpl. f_equal. apply IH; [|auto].
    intros g Hg. apply H. by right.
Qed.

Lemma canonicalJson_print v :
  printable v = true -> no_index_keys v = true -> canonicalJson v = print (norm v).
Proof.
  intros Hp Hk. unfold canonicalJson. rewrite canonicalize_norm by done.
  by rewrite stringify_print by (by rewrite printable_norm).
Qed.

Lemma canonicalJson_inj v w :
  printable v = true -> no_index_keys v = true ->
  printable w = true -> no_index_keys w = true ->
  canonicalJson v = canonicalJson w -> norm v = norm w.
Proof.
  intros ? ? ? ? H. rewrite !canonicalJson_print in H by done.
  eapply (canonical_text_inj EmptyString EmptyString); apply canonical_text_Ok; eauto.
Qed.

(** ** Properties of values with one canonical text *)

Lemma assoc_elem k v fs : NoDup fs.*1 -> (k, v) ∈ fs -> assoc k fs = v.
Proof.
  induction fs as [|[k' v'] fs IH]; simpl; intros Hnd Hin; [set_solver|].
  apply NoDup_cons in Hnd as [Hk Hnd]. apply elem_of_cons in Hin as [[= -> ->]|Hin].
  - by rewrite String.eqb_refl.
  - rewrite (proj2 (String.eqb_neq k' k)); [auto|].
    intros ->. apply Hk. apply list_elem_of_fmap. by exists (k, v).
Qed.

Lemma assoc_absent k fs : k ∉ fs.*1 -> assoc k fs = JUndefined.
Proof.
  induction fs as [|[k' v'] fs IH]; simpl; intros Hk; [done|].
  rewrite (proj2 (String.eqb_neq k' k)) by set_solver. apply IH. set_solver.
Qed.

Lemma assoc_perm k fs gs : NoDup fs.*1 -> fs ≡ₚ gs -> assoc k fs = assoc k gs.
Proof.
  intros Hnd Hp. assert (NoDup gs.*1) as Hnd' by (by rewrite <- Hp).
  destruct (decide (k ∈ fs.*1)) as [Hk|Hk].
  - apply list_elem_of_fmap in Hk as ([k' v] & -> & Hin). simpl.
    rewrite (assoc_elem k' v fs) by done. symmetry. apply assoc_elem; [done|]. by rewrite <- Hp.
  - rewrite !assoc_absent; [done| |done]. by rewrite <- Hp.
Qed.

Lemma assoc_map (g : json -> json) k fs :
  g JUndefined = JUndefined -> assoc k (map (fun f => (f.1, g f.2)) fs) = g (assoc k fs).
Proof.
  intros Hg. induction fs as [|[k' v] fs IH]; simpl; [done|]. by destruct (String.eqb k' k).
Qed.

Lemma keys_map (g : json -> json) (fs : list (string * json)) :
  (map (fun f => (f.1, g f.2)) fs).*1 = fs.*1.
Proof. induction fs as [|f fs IH]; simpl; [done|]. by f_equal. Qed.

(** Values with one normal form have the same properties up to normal form. *)
Lemma norm_prop v w k :
  norm v = norm w -> NoDup (object_keys w) -> norm (v.@k) = norm (w.@k).
Proof.
  intros Hn Hnd.
  destruct v as [| | | | | |fs], w as [| | | | | |gs]; try discriminate Hn; try reflexivity.
  simpl in *. injection Hn as Hn. rewrite <- !(assoc_map norm) by done.
  assert (map (fun f => (f.1, norm f.2)) fs ≡ₚ map (fun f => (f.1, norm f.2)) gs) as Hp.
  { rewrite <- (isort_perm key_leb), Hn. apply isort_perm. }
  symmetry. apply assoc_perm; [by rewrite keys_map|done].
Qed.

Lemma norm_str v s : norm v = JStr s -> v = JStr s.
Proof. by destruct v. Qed.

(** Objects with distinct keys that are permutations have one normal form. *)
Lemma norm_perm fs gs : NoDup fs.*1 ->
  map (fun f => (f.1, norm f.2)) fs ≡ₚ map (fun f => (f.1, norm f.2)) gs ->
  norm (JObj fs) = norm (JObj gs).
Proof.
  intros Hnd Hp. simpl. f_equal. apply (Sorted_by_perm_eq key_leb).
  - intros [k v] [k' v'] Hv Hv' H1 H2. rewrite isort_perm in Hv, Hv'.
    assert (k = k') as <- by (by apply str_leb_antisym). f_equal.
    assert (NoDup (map (fun f => (f.1, norm f.2)) fs).*1) as Hnd' by (by rewrite keys_map).
    apply (assoc_elem k v) in Hv; [|done]. apply (assoc_elem k v') in Hv'; [|done]. congruence.
  - apply isort_Sorted; unfold key_leb; eauto using str_leb_total, str_leb_trans.
  - apply isort_Sorted; unfold key_leb; eauto using str_leb_total, str_leb_trans.
  - by rewrite !isort_perm.
Qed.

Lemma norm_extend fs gs k x : NoDup fs.*1 -> k ∉ fs.*1 -> norm (JObj fs) = norm (JObj gs) ->
  norm (extend (JObj fs) k x) = norm (extend (JObj gs) k x).
Proof.
  intros Hnd Hk Hn. simpl in Hn. injection Hn as Hn. unfold extend. apply norm_perm.
  - rewrite fmap_app. apply NoDup_app. split; [done|]. split; [set_solver|]. apply NoDup_singleton.
  - rewrite !map_app. apply Permutation_app_tail.
    rewrite <- (isort_perm key_leb), Hn. apply isort_perm.
Qed.

Lemma printable_extend fs k x :
  printable (extend (JObj fs) k x) = true -> printable (JObj fs) = true.
Proof. simpl. rewrite forallb_app. by intros [? _]%andb_true_iff. Qed.

Lemma no_index_keys_extend fs k x :
  no_index_keys (extend (JObj fs) k x) = true -> no_index_keys (JObj fs) = true.
Proof. simpl. rewrite forallb_app. by intros [? _]%andb_true_iff. Qed.
