(* ===== verification/Sha256.v ===== *)
(** * SHA-256 and content identities

    The digest the economic modules take from [node:crypto], as an interface
    ([Digest], with the shape of its hexadecimal output as [DigestShape]) and as
    an executable SHA-256 over the UTF-8 bytes of a string that implements it. *)

From Stdlib Require Import Ascii.
From S2P Require Import Prelude Js CanonicalJson.

(** [crypto.createHash("sha256").update(text).digest("hex")] *)
Class Digest : Type := sha256_hex : string -> string.

(** A digest is printed as 64 lower-case hexadecimal digits. *)
Class DigestShape (d : Digest) : Prop :=
  digest_is_hex64 : forall s, is_hex64 (sha256_hex s) = true.

(** ** The algorithm *)

Definition w32 (x : Z) : Z := Z.land x 4294967295.
Definition rotr (n x : Z) : Z := w32 (Z.lor (Z.shiftr x n) (Z.shiftl x (32 - n))).
Definition add32 (x y : Z) : Z := w32 (x + y).

(** The largest [r] below [2 ^ bits] with [r ^ 3 <= n], bit by bit. *)
Fixpoint cube_root (bits : nat) (n r : Z) : Z :=
  match bits with
  | O => r
  | S b =>
      let r' := r + 2 ^ Z.of_nat b in
      cube_root b n (if r' ^ 3 <=? n then r' else r)
  end.

Definition is_prime (n : Z) : bool :=
  forallb (fun d => negb (n mod Z.of_nat d =? 0)) (seq 2 (Z.to_nat n - 2)).

Definition primes64 : list Z :=
  Eval vm_compute in List.filter is_prime (map Z.of_nat (seq 2 310)).

(** The round constants: the first 32 bits of the fractional parts of the cube
    roots of the first 64 primes. *)
Definition K256 : list Z :=
  Eval vm_compute in map (fun p => w32 (cube_root 40 (p * 2 ^ 96) 0)) primes64.

Record hash_state := HashState { h0 : Z; h1 : Z; h2 : Z; h3 : Z; h4 : Z; h5 : Z; h6 : Z; h7 : Z }.

(** The first 32 bits of the fractional parts of the square roots of the first
    eight primes. *)
Definition initial_word (i : nat) : Z := w32 (Z.sqrt (nth i primes64 0 * 2 ^ 64)).

Definition initial_hash : hash_state := Eval vm_compute in
  HashState (initial_word 0) (initial_word 1) (initial_word 2) (initial_word 3)
    (initial_word 4) (initial_word 5) (initial_word 6) (initial_word 7).

(** The message schedule, kept as the last sixteen words, oldest first. *)
Definition next_word (w : list Z) : Z :=
  let at_ i := nth i w 0 in
  let w15 := at_ 1%nat in let w2 := at_ 14%nat in
  let s0 := Z.lxor (Z.lxor (rotr 7 w15) (rotr 18 w15)) (Z.shiftr w15 3) in
  let s1 := Z.lxor (Z.lxor (rotr 17 w2) (rotr 19 w2)) (Z.shiftr w2 10) in
  add32 (add32 (at_ 0%nat) s0) (add32 (at_ 9%nat) s1).

Definition round (s : hash_state) (k w : Z) : hash_state :=
  let S1 := Z.lxor (Z.lxor (rotr 6 (h4 s)) (rotr 11 (h4 s))) (rotr 25 (h4 s)) in
  let ch := Z.lxor (Z.land (h4 s) (h5 s)) (Z.land (Z.lxor (h4 s) 4294967295) (h6 s)) in
  let t1 := add32 (add32 (h7 s) S1) (add32 (add32 ch k) w) in
  let S0 := Z.lxor (Z.lxor (rotr 2 (h0 s)) (rotr 13 (h0 s))) (rotr 22 (h0 s)) in
  let maj := Z.lxor (Z.lxor (Z.land (h0 s) (h1 s)) (Z.land (h0 s) (h2 s))) (Z.land (h1 s) (h2 s)) in
  let t2 := add32 S0 maj in
  HashState (add32 t1 t2) (h0 s) (h1 s) (h2 s) (add32 (h3 s) t1) (h4 s) (h5 s) (h6 s).

Fixpoint rounds (ks : list Z) (w : list Z) (s : hash_state) : hash_state :=
  match ks with
  | [] => s
  | k :: ks' => rounds ks' (tail w ++ [next_word w]) (round s k (nth 0 w 0))
  end.

Definition compress (s : hash_state) (block : list Z) : hash_state :=
  let r := rounds K256 block s in
  HashState (add32 (h0 s) (h0 r)) (add32 (h1 s) (h1 r)) (add32 (h2 s) (h2 r)) (add32 (h3 s) (h3 r))
    (add32 (h4 s) (h4 r)) (add32 (h5 s) (h5 r)) (add32 (h6 s) (h6 r)) (add32 (h7 s) (h7 r)).

(** The UTF-8 bytes of a string of code units below 256. *)
Fixpoint utf8_bytes (s : string) : list Z :=
  match s with
  | EmptyString => []
  | String c s' =>
      let n := Z.of_N (N_of_ascii c) in
      if n <? 128 then n :: utf8_bytes s'
      else (192 + Z.shiftr n 6) :: (128 + Z.land n 63) :: utf8_bytes s'
  end.

Definition byte_at (x i : Z) : Z := Z.land (Z.shiftr x (8 * i)) 255.

(** Padding: a one bit, zeros, and the length in bits as 64 bits. *)
Definition pad (bytes : list Z) : list Z :=
  let n := Z.of_nat (length bytes) in
  bytes ++ [128] ++ replicate (Z.to_nat ((55 - n) mod 64)) 0 ++
  map (byte_at (8 * n)) [7; 6; 5; 4; 3; 2; 1; 0].

Fixpoint words (bytes : list Z) : list Z :=
  match bytes with
  | a :: b :: c :: d :: rest =>
      (Z.shiftl a 24 + Z.shiftl b 16 + Z.shiftl c 8 + d) :: words rest
  | _ => []
  end.

Fixpoint blocks (fuel : nat) (ws : list Z) (s : hash_state) : hash_state :=
  match fuel, ws with
  | S fuel', _ :: _ => blocks fuel' (drop 16 ws) (compress s (take 16 ws))
  | _, _ => s
  end.

Definition hex_word (x : Z) : list ascii :=
  map (fun i => hex_digit (Z.to_N (Z.land (Z.shiftr x (4 * i)) 15))) [7; 6; 5; 4; 3; 2; 1; 0].

Definition hash_words (s : hash_state) : list Z :=
  [h0 s; h1 s; h2 s; h3 s; h4 s; h5 s; h6 s; h7 s].

(** The number of words bounds the number of sixteen-word blocks, so the fuel
    is enough to consume the whole message. *)
Definition sha256_hex_text (s : string) : string :=
  let ws := words (pad (utf8_bytes s)) in
  String.string_of_list_ascii (concat (map hex_word (hash_words (blocks (length ws) ws initial_hash)))).

#[export] Instance sha256 : Digest := sha256_hex_text.

(** The test vectors of FIPS 180-4. *)
Example sha256_abc : sha256_hex_text "abc" =
  "ba7816bf8f01cfea414140de5dae2223b00361a396177a9cb410ff61f20015ad".
Proof. vm_compute. reflexivity. Qed.

Example sha256_empty : sha256_hex_text "" =
  "e3b0c44298fc1c149afbf4c8996fb92427ae41e4649b934ca495991b7852b855".
Proof. vm_compute. reflexivity. Qed.

Example sha256_two_blocks :
  sha256_hex_text "abcdbcdecdefdefgefghfghighijhijkijkljklmklmnlmnomnopnopq" =
  "248d6a61d20638b8e5c026930c3e6039a33ce45964ff2167f6ecedd419db06c1".
Proof. vm_compute. reflexivity. Qed.

Lemma hex_digit_lower n : (n < 16)%N -> is_lower_hex (hex_digit n) = true.
Proof.
  intros H. do 16 (destruct n as [|n] using N.peano_ind; [reflexivity|]; clear IHn).
  lia.
Qed.

Lemma string_forallb_list p l :
  string_forallb p (String.string_of_list_ascii l) = forallb p l.
Proof. induction l; simpl; congruence. Qed.

Lemma length_string_of_list l : String.length (String.string_of_list_ascii l) = length l.
Proof. induction l; simpl; congruence. Qed.

Lemma hex_word_lower x : forallb is_lower_hex (hex_word x) = true.
Proof.
  unfold hex_word. rewrite forallb_forall. intros c (i & <- & _)%in_map_iff.
  apply hex_digit_lower. change 15 with (Z.ones 4). rewrite Z.land_ones by lia.
  pose proof (Z.mod_pos_bound (Z.shiftr x (4 * i)) (2 ^ 4)). lia.
Qed.

#[export] Instance sha256_shape : DigestShape sha256.
Proof.
  intros s. unfold is_hex64, sha256_hex, sha256, sha256_hex_text.
  rewrite length_string_of_list, string_forallb_list.
  generalize (blocks (length (words (pad (utf8_bytes s)))) (words (pad (utf8_bytes s))) initial_hash).
  intros h. apply andb_true_iff. split; [done|].
  apply forallb_forall. intros c (w & Hw & Hc)%in_concat.
  apply in_map_iff in Hw as (x & <- & _). eapply forallb_forall; [apply hex_word_lower|done].
Qed.

(** ** A cheaper digest

    A polynomial checksum with the shape of a digest.  The theorems hold for every
    digest; concrete runs of the larger components use this one. *)

Fixpoint poly_sum (s : string) (acc : Z) : Z :=
  match s with
  | EmptyString => acc
  | String c s' => poly_sum s' (w32 (acc * 33 + Z.of_N (N_of_ascii c)))
  end.

Definition poly256 : Digest := fun s =>
  let n := poly_sum s 1 in
  String.string_of_list_ascii (concat (map (fun i => hex_word (n + i)) [7; 6; 5; 4; 3; 2; 1; 0])).

#[export] Instance poly256_shape : DigestShape poly256.
Proof.
  intros s. unfold is_hex64, sha256_hex, poly256.
  rewrite length_string_of_list, string_forallb_list.
  apply andb_true_iff. split; [done|].
  apply forallb_forall. intros c (w & Hw & Hc)%in_concat.
  apply in_map_iff in Hw as (x & <- & _). eapply forallb_forall; [apply hex_word_lower|done].
Qed.

(** ** Content identities *)

Section content_id.
Context {H : Digest}.

(** ["sha256:" + sha256(canonicalJson(value))] *)
Definition contentId (value : json) : string := "sha256:" +:+ sha256_hex (canonicalJson value).

(** The same with a printer that may refuse the value. *)
Definition contentIdOf (printer : json -> res string) (value : json) : res string :=
  text ← printer value; Ok ("sha256:" +:+ sha256_hex text).

Lemma substring_prefix_drop s n : String.length s = n -> String.substring 0 n s = s.
Proof. intros <-. induction s; simpl; congruence. Qed.

Lemma is_sha256_id_prefix h : is_sha256_id ("sha256:" +:+ h) = is_hex64 h.
Proof.
  unfold is_sha256_id.
  change ("sha256:" +:+ h) with (String "s" (String "h" (String "a" (String "2"
    (String "5" (String "6" (String ":" h))))))).
  cbn. rewrite Nat.sub_0_r, substring_prefix_drop by done. by destruct h.
Qed.

Lemma contentId_shape `{!DigestShape H} v : is_sha256_id (contentId v) = true.
Proof. unfold contentId. rewrite is_sha256_id_prefix. apply digest_is_hex64. Qed.

Lemma contentIdOf_shape `{!DigestShape H} printer v i :
  contentIdOf printer v = Ok i -> is_sha256_id i = true.
Proof.
  unfold contentIdOf. intros. inv_ok. rewrite is_sha256_id_prefix. apply digest_is_hex64.
Qed.

(** Two different texts with one digest.  Every digest of fixed length has such pairs; the
    theorems name the two texts at hand. *)
Definition collides (s t : string) : Prop := s <> t /\ sha256_hex s = sha256_hex t.

(** The texts of two values collide. *)
Definition collide_as (printer : json -> res string) (v w : json) : Prop :=
  exists s t, printer v = Ok s /\ printer w = Ok t /\ collides s t.

Lemma sha256_prefix_inj s t : "sha256:" +:+ s = "sha256:" +:+ t -> s = t.
Proof. cbn. intros Heq. by injection Heq. Qed.

(** Equal content identities mean equal canonical texts, or texts that collide. *)
Lemma contentId_binds v w :
  contentId v = contentId w ->
  canonicalJson v = canonicalJson w \/ collides (canonicalJson v) (canonicalJson w).
Proof.
  intros Heq%sha256_prefix_inj.
  destruct (decide (canonicalJson v = canonicalJson w)) as [|Hne]; [auto|].
  by right.
Qed.

(** With the recursive printer, an identity determines the value up to key order. *)
Lemma contentIdOf_binds bn bv v w i :
  contentIdOf (canonical_text bn bv) v = Ok i -> contentIdOf (canonical_text bn bv) w = Ok i ->
  norm v = norm w \/ collide_as (canonical_text bn bv) v w.
Proof.
  unfold contentIdOf. intros Hv Hw.
  apply bind_Ok in Hv as (s & Hs & [= Hi]), Hw as (t & Ht & [= <-]).
  destruct (decide (s = t)) as [->|Hne]; [left; by eapply canonical_text_inj|].
  right. exists s, t. do 2 (split; [done|]). split; [done|]. exact (sha256_prefix_inj _ _ Hi).
Qed.
End content_id.

#[export] Hint Resolve contentId_shape : voidnet.
