(* ===== verification/QuoteMath.v ===== *)
(** * BTC/VOID indicative quotes

    Model of [tools/void-btc-void-quote-math-v1.mjs]: a constant-product quote
    between a satoshi reserve and a VoidToken reserve, with a basis-point fee
    kept in the pool, an input cap as a fraction of the input reserve, reserve
    floors, and a content identity of the whole quote.  [priceQuote] is the
    arithmetic of [quoteBtcVoidV1] on a normalized request, [renderQuote] the
    object it builds. *)

From S2P Require Import Prelude Js CanonicalJson Sha256.

Definition BPS_DENOMINATOR : Z := 10000.
Definition MAX_FEE_BPS : Z := 1000.
Definition MAX_INPUT_RESERVE_FRACTION_BPS : Z := 2500.

(** The object [normalizeRequest] returns. *)
Record NormalizedRequest := mkNormalizedRequest {
  request : json;
  amountIn : Z;
  btcReserve : Z;
  voidReserve : Z;
  minimumBtcReserve : Z;
  minimumVoidReserve : Z;
  feeBps : Z;
  maxInputFractionBps : Z
}.

Definition QUOTE_REQUEST_SCHEMA : string := "void.btc_void.indicative_quote_request.v1".
Definition DIRECTIONS : list string := ["btc_to_void"; "void_to_btc"]%string.

Definition requestJson (direction : json) (amountIn btcReserve voidReserve : Z)
    (feeBps maxInputFractionBps minimumBtcReserve minimumVoidReserve : Z) : json :=
  JObj [
    "schema" ~> QUOTE_REQUEST_SCHEMA;
    "direction" ~> direction;
    "amount_in" ~> dec amountIn;
    "reserves" ~> JObj [
      "btc_sats" ~> dec btcReserve;
      "void_atomic" ~> dec voidReserve];
    "policy" ~> JObj [
      "fee_bps" ~> jint feeBps;
      "max_input_reserve_fraction_bps" ~> jint maxInputFractionBps;
      "minimum_btc_reserve_sats" ~> dec minimumBtcReserve;
      "minimum_void_reserve_atomic" ~> dec minimumVoidReserve]].

Definition normalizeRequest (raw : json) : res NormalizedRequest :=
  request ← exactKeys raw
    ["schema"; "direction"; "amount_in"; "reserves"; "policy"]%string "quote request";
  throw_if (request.@"schema" !== QUOTE_REQUEST_SCHEMA) "quote request schema mismatch";;
  throw_if (negb (includes DIRECTIONS (request.@"direction"))) "quote direction is unsupported";;
  reserves ← exactKeys (request.@"reserves") ["btc_sats"; "void_atomic"]%string "quote reserves";
  policy ← exactKeys (request.@"policy")
    ["fee_bps"; "max_input_reserve_fraction_bps";
     "minimum_btc_reserve_sats"; "minimum_void_reserve_atomic"]%string "quote policy";
  amountIn ← atomic (request.@"amount_in") "amount_in" false;
  btcReserve ← atomic (reserves.@"btc_sats") "reserves.btc_sats" false;
  voidReserve ← atomic (reserves.@"void_atomic") "reserves.void_atomic" false;
  minimumBtcReserve ← atomic (policy.@"minimum_btc_reserve_sats")
    "policy.minimum_btc_reserve_sats" true;
  minimumVoidReserve ← atomic (policy.@"minimum_void_reserve_atomic")
    "policy.minimum_void_reserve_atomic" true;
  feeBps ← integer (policy.@"fee_bps") "policy.fee_bps" 0 MAX_FEE_BPS;
  maxInputFractionBps ← integer (policy.@"max_input_reserve_fraction_bps")
    "policy.max_input_reserve_fraction_bps" 1 MAX_INPUT_RESERVE_FRACTION_BPS;
  Ok (mkNormalizedRequest
    (requestJson (request.@"direction") amountIn btcReserve voidReserve
       feeBps maxInputFractionBps minimumBtcReserve minimumVoidReserve)
    amountIn btcReserve voidReserve minimumBtcReserve minimumVoidReserve
    feeBps maxInputFractionBps).

(** The locals of [quoteBtcVoidV1]. *)
Record PricedQuote := mkPricedQuote {
  btcIn : bool;
  feeFactor : Z;
  adjustedInputNumerator : Z;
  outputNumerator : Z;
  outputDenominator : Z;
  amountOut : Z;
  btcAfter : Z;
  voidAfter : Z;
  kBefore : Z;
  kAfter : Z
}.

Definition priceQuote (normalized : NormalizedRequest) : res PricedQuote :=
  let btcIn := normalized.(request).@"direction" === "btc_to_void" in
  let reserveIn := if btcIn then normalized.(btcReserve) else normalized.(voidReserve) in
  let reserveOut := if btcIn then normalized.(voidReserve) else normalized.(btcReserve) in
  throw_if (normalized.(amountIn) * BPS_DENOMINATOR >? reserveIn * normalized.(maxInputFractionBps))
    "amount_in exceeds the configured reserve-fraction limit";;
  throw_if (reserveIn + normalized.(amountIn) >? MAX_ATOMIC_VALUE)
    "post-quote input reserve exceeds the v1 atomic-value range";;
  let feeFactor := BPS_DENOMINATOR - normalized.(feeBps) in
  let adjustedInputNumerator := normalized.(amountIn) * feeFactor in
  let outputNumerator := reserveOut * adjustedInputNumerator in
  let outputDenominator := reserveIn * BPS_DENOMINATOR + adjustedInputNumerator in
  let amountOut := outputNumerator ÷ outputDenominator in
  throw_if ((amountOut =? 0) || (amountOut >=? reserveOut))
    "quote output is zero or exhausts the output reserve";;
  let reserveInAfter := reserveIn + normalized.(amountIn) in
  let reserveOutAfter := reserveOut - amountOut in
  let btcAfter := if btcIn then reserveInAfter else reserveOutAfter in
  let voidAfter := if btcIn then reserveOutAfter else reserveInAfter in
  throw_if ((btcAfter <? normalized.(minimumBtcReserve))
      || (voidAfter <? normalized.(minimumVoidReserve)))
    "quote would cross a configured reserve floor";;
  let kBefore := normalized.(btcReserve) * normalized.(voidReserve) in
  let kAfter := btcAfter * voidAfter in
  throw_if (kAfter <? kBefore) "constant-product invariant decreased";;
  Ok (mkPricedQuote btcIn feeFactor adjustedInputNumerator outputNumerator outputDenominator
    amountOut btcAfter voidAfter kBefore kAfter).

Definition btc_asset : string := "native_btc".
Definition void_asset : string := "canonical_chain2050_voidtoken".

Definition renderQuote (normalized : NormalizedRequest) (p : PricedQuote) : json :=
  JObj [
    "schema" ~> "void.btc_void.indicative_quote.v1";
    "marker" ~> "VOID_BTC_VOID_QUOTE_MATH_V1";
    "market" ~> JObj [
      "pair" ~> "BTC_VOID";
      "bitcoin_asset" ~> "native_btc";
      "bitcoin_unit" ~> "satoshi";
      "void_asset" ~> "canonical_chain2050_voidtoken";
      "void_unit" ~> "void_atomic"];
    "request" ~> normalized.(request);
    "result" ~> JObj [
      "input_asset" ~> (if p.(btcIn) then btc_asset else void_asset);
      "output_asset" ~> (if p.(btcIn) then void_asset else btc_asset);
      "amount_in" ~> dec normalized.(amountIn);
      "amount_out" ~> dec p.(amountOut);
      "reserves_after" ~> JObj [
        "btc_sats" ~> dec p.(btcAfter);
        "void_atomic" ~> dec p.(voidAfter)];
      "invariant_before" ~> dec p.(kBefore);
      "invariant_after" ~> dec p.(kAfter);
      "rounding" ~> "floor_output"];
    "math" ~> JObj [
      "basis_points_denominator" ~> dec BPS_DENOMINATOR;
      "fee_factor_bps" ~> dec p.(feeFactor);
      "adjusted_input_numerator" ~> dec p.(adjustedInputNumerator);
      "output_numerator" ~> dec p.(outputNumerator);
      "output_denominator" ~> dec p.(outputDenominator)];
    "authority" ~> JObj [
      "indicative_only" ~> true;
      "runtime_observed" ~> false;
      "inventory_reserved" ~> false;
      "execution_authorized" ~> false;
      "wallet_or_signer_accessed" ~> false;
      "transaction_constructed" ~> false;
      "transaction_broadcast" ~> false;
      "funds_moved" ~> false]].

Section quote.
Context {H : Digest}.

Definition quoteBtcVoidV1 (raw : json) : res json :=
  normalized ← normalizeRequest raw;
  priced ← priceQuote normalized;
  let quote := renderQuote normalized priced in
  Ok (extend quote "indicative_quote_id" (contentId quote)).
End quote.

(** ** Facts about normalized requests *)

(** What every request that passes [normalizeRequest] satisfies. *)
Record request_ok (n : NormalizedRequest) : Prop := {
  ok_direction : exists d, d ∈ DIRECTIONS /\ n.(request) = requestJson (JStr d)
    n.(amountIn) n.(btcReserve) n.(voidReserve) n.(feeBps) n.(maxInputFractionBps)
    n.(minimumBtcReserve) n.(minimumVoidReserve);
  ok_amountIn : 0 < n.(amountIn) <= MAX_ATOMIC_VALUE;
  ok_btcReserve : 0 < n.(btcReserve) <= MAX_ATOMIC_VALUE;
  ok_voidReserve : 0 < n.(voidReserve) <= MAX_ATOMIC_VALUE;
  ok_minimumBtc : 0 <= n.(minimumBtcReserve) <= MAX_ATOMIC_VALUE;
  ok_minimumVoid : 0 <= n.(minimumVoidReserve) <= MAX_ATOMIC_VALUE;
  ok_feeBps : 0 <= n.(feeBps) <= MAX_FEE_BPS;
  ok_fraction : 1 <= n.(maxInputFractionBps) <= MAX_INPUT_RESERVE_FRACTION_BPS
}.

Lemma normalizeRequest_ok raw n : normalizeRequest raw = Ok n -> request_ok n.
Proof.
  unfold normalizeRequest. intros Hn. inv_ok. bool_prop.
  js_facts.
  constructor; simpl; try (assert (false = false) by done; intuition lia).
  eexists. split; [eassumption|]. by f_equal.
Qed.

(** The fields of the raw request that the normalized one was read from. *)
Lemma normalizeRequest_raw raw n :
  normalizeRequest raw = Ok n ->
  raw.@"direction" = n.(request).@"direction" /\
  raw.@"amount_in" = JStr (dec n.(amountIn)) /\
  raw.@"reserves".@"btc_sats" = JStr (dec n.(btcReserve)) /\
  raw.@"reserves".@"void_atomic" = JStr (dec n.(voidReserve)) /\
  raw.@"policy".@"fee_bps" = jint n.(feeBps) /\
  raw.@"policy".@"max_input_reserve_fraction_bps" = jint n.(maxInputFractionBps) /\
  raw.@"policy".@"minimum_btc_reserve_sats" = JStr (dec n.(minimumBtcReserve)) /\
  raw.@"policy".@"minimum_void_reserve_atomic" = JStr (dec n.(minimumVoidReserve)).
Proof.
  unfold normalizeRequest. intros Hn. inv_ok. bool_prop.
  js_facts.
  subst. simpl. auto 10.
Qed.

(** A well-formed request text is accepted as it stands. *)
Lemma normalizeRequest_requestJson d x b v f m mb mv :
  d ∈ DIRECTIONS ->
  0 < x <= MAX_ATOMIC_VALUE -> 0 < b <= MAX_ATOMIC_VALUE -> 0 < v <= MAX_ATOMIC_VALUE ->
  0 <= f <= MAX_FEE_BPS -> 1 <= m <= MAX_INPUT_RESERVE_FRACTION_BPS ->
  0 <= mb <= MAX_ATOMIC_VALUE -> 0 <= mv <= MAX_ATOMIC_VALUE ->
  normalizeRequest (requestJson (JStr d) x b v f m mb mv) =
  Ok (mkNormalizedRequest (requestJson (JStr d) x b v f m mb mv) x b v mb mv f m).
Proof.
  intros Hd Hx Hb Hv Hf Hm Hmb Hmv. unfold normalizeRequest, MAX_FEE_BPS,
    MAX_INPUT_RESERVE_FRACTION_BPS in *.
  js_run; [|done].
  apply negb_false_iff, includes_spec. eauto.
Qed.

(** ** The pricing arithmetic *)

Section pricing.
Context (rin rout x f : Z).
Context (Hrin : 0 < rin) (Hrout : 0 < rout) (Hx : 0 < x) (Hf : 0 <= f <= MAX_FEE_BPS).
Let adj := x * (BPS_DENOMINATOR - f).
Let den := rin * BPS_DENOMINATOR + adj.
Let out := (rout * adj) ÷ den.

Lemma price_terms_pos : 0 < adj <= x * BPS_DENOMINATOR /\ 0 < den.
Proof. unfold adj, den, BPS_DENOMINATOR, MAX_FEE_BPS in *. nia. Qed.

(** The output is the largest one that keeps the fee-adjusted product. *)
Lemma price_maximal y : 0 <= y ->
  y <= out <-> rin * BPS_DENOMINATOR * rout <= den * (rout - y).
Proof.
  intros Hy. pose proof price_terms_pos. unfold out. rewrite quot_le_iff by nia.
  unfold den. split; intros; nia.
Qed.

Lemma price_out_range : 0 <= out < rout.
Proof.
  pose proof price_terms_pos. pose proof (quot_floor (rout * adj) den).
  split; [nia|]. unfold out in *. unfold BPS_DENOMINATOR in *. nia.
Qed.

(** Without the fee the product still does not decrease. *)
Lemma price_product : rin * rout <= (rin + x) * (rout - out).
Proof.
  pose proof price_terms_pos. pose proof price_out_range.
  pose proof (proj1 (price_maximal out ltac:(lia)) ltac:(lia)) as Hm.
  unfold den, BPS_DENOMINATOR in *. nia.
Qed.
End pricing.

(** The sides of a normalized request. *)
Definition quote_btcIn (n : NormalizedRequest) : bool := n.(request).@"direction" === "btc_to_void".
Definition reserve_in (n : NormalizedRequest) : Z :=
  if quote_btcIn n then n.(btcReserve) else n.(voidReserve).
Definition reserve_out (n : NormalizedRequest) : Z :=
  if quote_btcIn n then n.(voidReserve) else n.(btcReserve).

(** What a priced quote satisfies. *)
Record priced_ok (n : NormalizedRequest) (p : PricedQuote) : Prop := {
  pk_btcIn : p.(btcIn) = quote_btcIn n;
  pk_fraction : n.(amountIn) * BPS_DENOMINATOR <= reserve_in n * n.(maxInputFractionBps);
  pk_range : reserve_in n + n.(amountIn) <= MAX_ATOMIC_VALUE;
  pk_formula : p.(amountOut) =
    (reserve_out n * (n.(amountIn) * (BPS_DENOMINATOR - n.(feeBps)))) ÷
    (reserve_in n * BPS_DENOMINATOR + n.(amountIn) * (BPS_DENOMINATOR - n.(feeBps)));
  pk_out : 0 < p.(amountOut) < reserve_out n;
  pk_btcAfter : p.(btcAfter) =
    if quote_btcIn n then n.(btcReserve) + n.(amountIn) else n.(btcReserve) - p.(amountOut);
  pk_voidAfter : p.(voidAfter) =
    if quote_btcIn n then n.(voidReserve) - p.(amountOut) else n.(voidReserve) + n.(amountIn);
  pk_floors : n.(minimumBtcReserve) <= p.(btcAfter) /\ n.(minimumVoidReserve) <= p.(voidAfter);
  pk_k : p.(kBefore) = n.(btcReserve) * n.(voidReserve) /\ p.(kAfter) = p.(btcAfter) * p.(voidAfter);
  pk_k_le : p.(kBefore) <= p.(kAfter)
}.

Lemma reserves_pos n : request_ok n -> 0 < reserve_in n /\ 0 < reserve_out n.
Proof. intros []. unfold reserve_in, reserve_out. destruct (quote_btcIn n); lia. Qed.

Lemma priceQuote_ok n p : request_ok n -> priceQuote n = Ok p -> priced_ok n p.
Proof.
  intros Hn Hp. pose proof (reserves_pos n Hn) as [Hi Ho]. destruct Hn.
  unfold priceQuote in Hp. fold (quote_btcIn n) in Hp. fold (reserve_in n) in Hp.
  fold (reserve_out n) in Hp. inv_ok. bool_prop.
  pose proof (price_out_range (reserve_in n) (reserve_out n) (amountIn n) (feeBps n) Hi Ho
    ltac:(lia) ltac:(lia)).
  constructor; simpl; try lia; try done;
    unfold reserve_in, reserve_out in *; destruct (quote_btcIn n); lia.
Qed.

(** The product check of the code cannot fail. *)
Lemma priceQuote_product n e : request_ok n -> priceQuote n = Throw e ->
  e <> "constant-product invariant decreased"%string.
Proof.
  intros Hn Hp ->. pose proof (reserves_pos n Hn) as [Hi Ho]. destruct Hn.
  unfold priceQuote in Hp. fold (quote_btcIn n) in Hp. fold (reserve_in n) in Hp.
  fold (reserve_out n) in Hp.
  pose proof (price_product (reserve_in n) (reserve_out n) (amountIn n) (feeBps n) Hi Ho
    ltac:(lia) ltac:(lia)) as Hk.
  repeat (apply bind_Throw in Hp as [Hp|(? & ? & Hp)];
    [apply throw_if_Throw in Hp as [Hb He]; try discriminate He|]); [|discriminate Hp].
  unfold reserve_in, reserve_out in *. destruct (quote_btcIn n); lia.
Qed.

(** ** Properties of [quoteBtcVoidV1] *)

Section quote_properties.
Context {H : Digest}.

Lemma quote_inv raw q : quoteBtcVoidV1 raw = Ok q ->
  exists n p, normalizeRequest raw = Ok n /\ priceQuote n = Ok p /\
    request_ok n /\ priced_ok n p /\
    q = extend (renderQuote n p) "indicative_quote_id" (contentId (renderQuote n p)).
Proof.
  unfold quoteBtcVoidV1. intros Hq. inv_ok.
  eauto 10 using normalizeRequest_ok, priceQuote_ok.
Qed.

(** C18: A quote never lowers the constant product: the check at the end of
    [quoteBtcVoidV1] cannot fail on any input, and an accepted quote reports a
    positive product before the trade that is at most the product after it. *)
Theorem quote_product_never_decreases raw :
  quoteBtcVoidV1 raw <> Throw "constant-product invariant decreased" /\
  forall q, quoteBtcVoidV1 raw = Ok q ->
    exists k k', q.@"result".@"invariant_before" = JStr (dec k) /\
      q.@"result".@"invariant_after" = JStr (dec k') /\ 0 < k <= k'.
Proof.
  split.
  - unfold quoteBtcVoidV1. apply bind_avoids; [unfold normalizeRequest; avoid_throw|].
    intros n Hn%normalizeRequest_ok. apply bind_avoids; [|done].
    intros Hp. by apply (priceQuote_product n) in Hp.
  - intros q (n & p & Hn & Hp & Hok & Hpk & ->)%quote_inv.
    exists (kBefore p), (kAfter p). do 2 (split; [reflexivity|]).
    destruct Hok, Hpk as [? ? ? ? ? ? ? ? [Hk ?] ?]. rewrite Hk in *. nia.
Qed.

(** The quoted output is the largest whole amount that keeps the
    fee-adjusted constant product (rounding is down, never in the trader's
    favour), and it is positive and leaves the output reserve positive. *)
Theorem quote_output_maximal raw q :
  quoteBtcVoidV1 raw = Ok q ->
  exists n out, normalizeRequest raw = Ok n /\
    q.@"result".@"amount_out" = JStr (dec out) /\ 0 < out < reserve_out n /\
    forall y, 0 <= y ->
      y <= out <->
      reserve_in n * BPS_DENOMINATOR * reserve_out n <=
      (reserve_in n * BPS_DENOMINATOR + n.(amountIn) * (BPS_DENOMINATOR - n.(feeBps))) *
        (reserve_out n - y).
Proof.
  intros (n & p & Hn & Hp & Hok & Hpk & ->)%quote_inv.
  exists n, (amountOut p). split; [done|]. split; [reflexivity|].
  pose proof (reserves_pos n Hok). destruct Hok, Hpk. split; [done|].
  intros y Hy. rewrite pk_formula0. apply price_maximal; lia.
Qed.

(** Selling the output of a quote straight back, at the reserves the first
    quote leaves, never returns more than was paid in, whatever the fees and
    limits of the two requests. *)
Theorem quote_round_trip_no_profit raw1 q1 raw2 q2 :
  quoteBtcVoidV1 raw1 = Ok q1 -> quoteBtcVoidV1 raw2 = Ok q2 ->
  raw2.@"reserves".@"btc_sats" = q1.@"result".@"reserves_after".@"btc_sats" ->
  raw2.@"reserves".@"void_atomic" = q1.@"result".@"reserves_after".@"void_atomic" ->
  raw2.@"amount_in" = q1.@"result".@"amount_out" ->
  raw2.@"direction" <> raw1.@"direction" ->
  exists paid back, q1.@"result".@"amount_in" = JStr (dec paid) /\
    q2.@"result".@"amount_out" = JStr (dec back) /\ 0 < back <= paid.
Proof.
  intros (n1 & p1 & Hn1 & _ & Hok1 & Hpk1 & ->)%quote_inv
    (n2 & p2 & Hn2 & _ & Hok2 & Hpk2 & ->)%quote_inv Hb Hv Ha Hd.
  exists (amountIn n1), (amountOut p2). do 2 (split; [reflexivity|]).
  apply normalizeRequest_raw in Hn1 as (Hd1 & _).
  apply normalizeRequest_raw in Hn2 as (Hd2 & Ha2 & Hb2 & Hv2 & _).
  rewrite Hb2 in Hb. rewrite Hv2 in Hv. rewrite Ha2 in Ha. cbn in Hb, Hv, Ha.
  injection Hb as Hb. injection Hv as Hv. injection Ha as Ha.
  rewrite Hd1, Hd2 in Hd. clear Hd1 Hd2 Ha2 Hb2 Hv2.
  pose proof (ok_direction _ Hok1) as (d1 & Hd1 & Hr1).
  pose proof (ok_direction _ Hok2) as (d2 & Hd2 & Hr2).
  rewrite Hr1, Hr2 in Hd. cbn in Hd.
  destruct Hpk1, Hpk2 as [? ? ? ? Hout2 Hba2 Hva2 ? [Hk2 Hk2'] Hkle2].
  destruct pk_k0 as [Hk1 Hk1']. destruct Hok1, Hok2.
  apply dec_inj in Ha; [|lia|lia].
  unfold quote_btcIn, reserve_in, reserve_out in *.
  unfold quote_btcIn in *. rewrite Hr1 in *. rewrite Hr2 in *. cbn in *.
  unfold DIRECTIONS in *.
  assert (d1 = "btc_to_void"%string /\ d2 = "void_to_btc"%string \/
          d1 = "void_to_btc"%string /\ d2 = "btc_to_void"%string) as [[-> ->]|[-> ->]].
  { set_unfold in Hd1. set_unfold in Hd2. destruct Hd1 as [->|[->|[]]], Hd2 as [->|[->|[]]];
      auto; by destruct Hd. }
  all: cbn in *; apply dec_inj in Hb; [|lia|lia]; apply dec_inj in Hv; [|lia|lia]; nia.
Qed.

(** The request a quote carries is in normal form: quoting it again gives
    the same quote, identity included. *)
Theorem quote_request_replays raw q :
  quoteBtcVoidV1 raw = Ok q -> quoteBtcVoidV1 (q.@"request") = Ok q.
Proof.
  intros (n & p & Hn & Hp & Hok & Hpk & ->)%quote_inv.
  change (extend _ _ _).@"request" with (request n).
  destruct (ok_direction n Hok) as (d & Hd & Hr). destruct Hok.
  unfold quoteBtcVoidV1. rewrite Hr, normalizeRequest_requestJson by done.
  rewrite <- Hr. destruct n. simpl in *. by rewrite Hp.
Qed.

(** The reserves an accepted quote leaves are again valid atomic reserves
    above the configured floors, and the input side moved by at most the
    configured fraction of its reserve. *)
Theorem quote_reserves_after_valid raw q :
  quoteBtcVoidV1 raw = Ok q ->
  exists n b v, normalizeRequest raw = Ok n /\
    q.@"result".@"reserves_after".@"btc_sats" = JStr (dec b) /\
    q.@"result".@"reserves_after".@"void_atomic" = JStr (dec v) /\
    (forall l, atomic (JStr (dec b)) l false = Ok b) /\
    (forall l, atomic (JStr (dec v)) l false = Ok v) /\
    n.(minimumBtcReserve) <= b /\ n.(minimumVoidReserve) <= v /\
    n.(amountIn) * 4 <= reserve_in n.
Proof.
  intros (n & p & Hn & Hp & Hok & Hpk & ->)%quote_inv.
  exists n, (btcAfter p), (voidAfter p). split; [done|]. do 2 (split; [reflexivity|]).
  pose proof (reserves_pos n Hok). destruct Hok, Hpk as [? ? ? ? ? Hb Hv [] ? ?].
  unfold MAX_INPUT_RESERVE_FRACTION_BPS, BPS_DENOMINATOR, reserve_in, reserve_out in *.
  assert (0 < btcAfter p <= MAX_ATOMIC_VALUE /\ 0 < voidAfter p <= MAX_ATOMIC_VALUE) as [].
  { rewrite Hb, Hv. destruct (quote_btcIn n); lia. }
  repeat split; try lia; try (intros; apply atomic_Ok; repeat split; lia).
  destruct (quote_btcIn n); nia.
Qed.
End quote_properties.

(** ** Concrete quotes *)

Definition sample_request : json :=
  requestJson "btc_to_void" 1000000 100000000 5000000000000 50 2500 0 0.

(** The return leg, at the reserves [sample_request] leaves. *)
Definition sample_return_request : json :=
  requestJson "void_to_btc" 49259864349 101000000 4950740135651 50 2500 0 0.

Example sample_quote_output :
  (fun q => q.@"result".@"amount_out") <$> quoteBtcVoidV1 (H := sha256) sample_request =
  Ok (JStr "49259864349").
Proof. vm_compute. reflexivity. Qed.

Lemma quote_product_never_decreases_witness :
  match quoteBtcVoidV1 (H := sha256) sample_request with
  | Ok q => exists k k', q.@"result".@"invariant_before" = JStr (dec k) /\
      q.@"result".@"invariant_after" = JStr (dec k') /\ 0 < k <= k'
  | Throw _ => False
  end.
Proof.
  run_ok (quoteBtcVoidV1 (H := sha256) sample_request) E.
  exact (proj2 (quote_product_never_decreases sample_request) _ E).
Defined.

Lemma quote_output_maximal_witness :
  match quoteBtcVoidV1 (H := sha256) sample_request with
  | Ok q => exists n out, normalizeRequest sample_request = Ok n /\
      q.@"result".@"amount_out" = JStr (dec out) /\ 0 < out < reserve_out n
  | Throw _ => False
  end.
Proof.
  run_ok (quoteBtcVoidV1 (H := sha256) sample_request) E.
  destruct (quote_output_maximal sample_request _ E) as (n & o & ? & ? & ? & _). eauto 10.
Defined.

Lemma quote_round_trip_no_profit_witness :
  match quoteBtcVoidV1 (H := sha256) sample_request,
        quoteBtcVoidV1 (H := sha256) sample_return_request with
  | Ok q1, Ok q2 => exists paid back, q1.@"result".@"amount_in" = JStr (dec paid) /\
      q2.@"result".@"amount_out" = JStr (dec back) /\ 0 < back <= paid
  | _, _ => False
  end.
Proof.
  run_ok (quoteBtcVoidV1 (H := sha256) sample_request) E1.
  run_ok (quoteBtcVoidV1 (H := sha256) sample_return_request) E2.
  apply (quote_round_trip_no_profit sample_request _ sample_return_request _ E1 E2).
  - run_field E1 (fun q => q.@"result".@"reserves_after".@"btc_sats").
  - run_field E1 (fun q => q.@"result".@"reserves_after".@"void_atomic").
  - run_field E1 (fun q => q.@"result".@"amount_out").
  - discriminate.
Defined.

Lemma quote_request_replays_witness :
  match quoteBtcVoidV1 (H := sha256) sample_request with
  | Ok q => quoteBtcVoidV1 (q.@"request") = Ok q
  | Throw _ => False
  end.
Proof.
  run_ok (quoteBtcVoidV1 (H := sha256) sample_request) E.
  exact (quote_request_replays sample_request _ E).
Defined.

Lemma quote_reserves_after_valid_witness :
  match quoteBtcVoidV1 (H := sha256) sample_request with
  | Ok q => exists n b v, normalizeRequest sample_request = Ok n /\
      q.@"result".@"reserves_after".@"btc_sats" = JStr (dec b) /\
      q.@"result".@"reserves_after".@"void_atomic" = JStr (dec v) /\
      n.(minimumBtcReserve) <= b /\ n.(minimumVoidReserve) <= v
  | Throw _ => False
  end.
Proof.
  run_ok (quoteBtcVoidV1 (H := sha256) sample_request) E.
  destruct (quote_reserves_after_valid sample_request _ E) as (n & b & v & ? & ? & ? & ? & ? & ? & ? & _).
  eauto 10.
Defined.
