(* ===== verification/TradeFees.v ===== *)
(** * Trade-funded fees of a BTC/VOID swap

    Model of [tools/void-btc-void-trade-funded-fees-v1.mjs]: the swap pays its own
    worst-case network fees.  The input leg is reduced by its fee envelope before
    the curve is quoted ([QuoteMath.quoteBtcVoidV1]), the output leg by its own
    envelope after, and a fixed 50 bps protocol fee stays in the pool.
    [curveInputOf] and [netOutputOf] are the two halves of the body of
    [deriveBtcVoidTradeFundedFeesV1]; the [render*] definitions build its result. *)

From S2P Require Import Prelude Js CanonicalJson Sha256 QuoteMath.

Definition BTC_VOID_PROTOCOL_FEE_BPS_V1 : Z := 50.
Definition BPS : Z := 10000.

Definition AUTHORITY : json :=
  JObj [
      "source_only_policy" ~> true;
      "trade_pays_bitcoin_fees_from_btc_leg" ~> true;
      "voidtoken_economic_charge_bound_from_void_leg" ~> true;
      "trade_pays_chain2050_native_gas_from_voidtoken_leg" ~> false;
      "chain2050_native_gas_separate_from_voidtoken" ~> true;
      "chain2050_native_gas_model_ready" ~> false;
      "chain2050_native_gas_replenishment_or_user_paid_required" ~> true;
      "standing_bitcoin_fee_reserve_required" ~> false;
      "per_swap_fee_envelope_required" ~> true;
      "success_and_refund_fee_budget_required" ~> true;
      "fee_budget_bound_before_executable_quote" ~> true;
      "no_unfunded_bitcoin_fee_liability" ~> true;
      "no_unfunded_chain2050_native_gas_liability" ~> false;
      "wallet_or_signer_access" ~> false;
      "bitcoin_rpc_call" ~> false;
      "chain2050_rpc_call" ~> false;
      "transaction_construction" ~> false;
      "transaction_signing" ~> false;
      "transaction_broadcast" ~> false;
      "inventory_reservation" ~> false;
      "funds_movement" ~> false;
      "market_activation" ~> false].

(** This file's copies of the shared shape checks. *)
Definition plainObject := Js.plainObject.
Definition exactKeys := Js.exactKeys.
Definition atomic := Js.atomic.

Definition boundedBps (value : json) (label : string) : res Z :=
  match as_safe_integer value with
  | Some z =>
      throw_if ((z <? 0) || (z >? 5000)) (label +:+ " is outside the v1 basis-point range");;
      Ok z
  | None => Throw (label +:+ " is outside the v1 basis-point range")
  end.

Definition max (a b : Z) : Z := if a >? b then a else b.

(** The validated numbers of a fee request, in the order they are read. *)
Record FeeInputs := mkFeeInputs {
  fi_direction : json;
  fi_gross : Z;
  fi_btc : Z;
  fi_void : Z;
  fi_fraction : json;
  fi_min_btc : Z;
  fi_min_void : Z;
  fi_funding : Z;
  fi_claim : Z;
  fi_refund : Z;
  fi_terminal : Z;
  fi_lock : Z;
  fi_vclaim : Z;
  fi_vrefund : Z;
  fi_net_btc : Z;
  fi_net_void : Z;
  fi_btc_bps : Z;
  fi_void_bps : Z
}.

(** The [normalized] object. *)
Definition feeRequestJson (i : FeeInputs) : json :=
  JObj [
    "schema" ~> "void.btc_void.trade_funded_fee_request.v1";
    "direction" ~> i.(fi_direction);
    "gross_amount_in" ~> dec i.(fi_gross);
    "reserves" ~> JObj [
      "btc_sats" ~> dec i.(fi_btc);
      "void_atomic" ~> dec i.(fi_void)];
    "market_policy" ~> JObj [
      "fee_bps" ~> jint BTC_VOID_PROTOCOL_FEE_BPS_V1;
      "max_input_reserve_fraction_bps" ~> i.(fi_fraction);
      "minimum_btc_reserve_sats" ~> dec i.(fi_min_btc);
      "minimum_void_reserve_atomic" ~> dec i.(fi_min_void)];
    "fee_budget" ~> JObj [
      "bitcoin" ~> JObj [
        "funding_sats" ~> dec i.(fi_funding);
        "claim_sats" ~> dec i.(fi_claim);
        "refund_sats" ~> dec i.(fi_refund);
        "minimum_terminal_output_sats" ~> dec i.(fi_terminal)];
      "chain2050" ~> JObj [
        "lock_void_atomic" ~> dec i.(fi_lock);
        "claim_void_atomic" ~> dec i.(fi_vclaim);
        "refund_void_atomic" ~> dec i.(fi_vrefund)]];
    "execution_policy" ~> JObj [
      "minimum_net_btc_output_sats" ~> dec i.(fi_net_btc);
      "minimum_net_void_output_atomic" ~> dec i.(fi_net_void);
      "max_btc_fee_fraction_bps" ~> jint i.(fi_btc_bps);
      "max_void_fee_fraction_bps" ~> jint i.(fi_void_bps)]].

Record FeeSections := mkFeeSections {
  fs_request : json;
  fs_reserves : json;
  fs_market_policy : json;
  fs_bitcoin : json;
  fs_chain2050 : json;
  fs_execution_policy : json
}.

(** The shape checks of [normalize]. *)
Definition normalizeShape (raw : json) : res FeeSections :=
  request ← exactKeys raw
    ["schema"; "direction"; "gross_amount_in"; "reserves"; "market_policy"; "fee_budget";
     "execution_policy"]%string "trade-funded fee request";
  throw_if (request.@"schema" !== "void.btc_void.trade_funded_fee_request.v1")
    "trade-funded fee request schema mismatch";;
  throw_if (negb (includes DIRECTIONS (request.@"direction")))
    "trade-funded fee direction unsupported";;
  reserves ← exactKeys (request.@"reserves") ["btc_sats"; "void_atomic"]%string "reserves";
  marketPolicy ← exactKeys (request.@"market_policy")
    ["fee_bps"; "max_input_reserve_fraction_bps"; "minimum_btc_reserve_sats";
     "minimum_void_reserve_atomic"]%string "market_policy";
  throw_if (marketPolicy.@"fee_bps" !== jint BTC_VOID_PROTOCOL_FEE_BPS_V1)
    "official BTC/VOID protocol fee must equal 50 bps";;
  feeBudget ← exactKeys (request.@"fee_budget") ["bitcoin"; "chain2050"]%string "fee_budget";
  bitcoin ← exactKeys (feeBudget.@"bitcoin")
    ["funding_sats"; "claim_sats"; "refund_sats"; "minimum_terminal_output_sats"]%string
    "fee_budget.bitcoin";
  chain2050 ← exactKeys (feeBudget.@"chain2050")
    ["lock_void_atomic"; "claim_void_atomic"; "refund_void_atomic"]%string "fee_budget.chain2050";
  executionPolicy ← exactKeys (request.@"execution_policy")
    ["minimum_net_btc_output_sats"; "minimum_net_void_output_atomic";
     "max_btc_fee_fraction_bps"; "max_void_fee_fraction_bps"]%string "execution_policy";
  Ok (mkFeeSections request reserves marketPolicy bitcoin chain2050 executionPolicy).

(** The numbers of [normalize]. *)
Definition normalizeNumbers (s : FeeSections) : res FeeInputs :=
  gross ← atomic (s.(fs_request).@"gross_amount_in") "gross_amount_in" false;
  btc ← atomic (s.(fs_reserves).@"btc_sats") "reserves.btc_sats" false;
  void ← atomic (s.(fs_reserves).@"void_atomic") "reserves.void_atomic" false;
  minBtc ← atomic (s.(fs_market_policy).@"minimum_btc_reserve_sats")
    "market_policy.minimum_btc_reserve_sats" true;
  minVoid ← atomic (s.(fs_market_policy).@"minimum_void_reserve_atomic")
    "market_policy.minimum_void_reserve_atomic" true;
  funding ← atomic (s.(fs_bitcoin).@"funding_sats") "fee_budget.bitcoin.funding_sats" true;
  claim ← atomic (s.(fs_bitcoin).@"claim_sats") "fee_budget.bitcoin.claim_sats" true;
  refund ← atomic (s.(fs_bitcoin).@"refund_sats") "fee_budget.bitcoin.refund_sats" true;
  terminal ← atomic (s.(fs_bitcoin).@"minimum_terminal_output_sats")
    "fee_budget.bitcoin.minimum_terminal_output_sats" true;
  lock ← atomic (s.(fs_chain2050).@"lock_void_atomic") "fee_budget.chain2050.lock_void_atomic" true;
  vclaim ← atomic (s.(fs_chain2050).@"claim_void_atomic")
    "fee_budget.chain2050.claim_void_atomic" true;
  vrefund ← atomic (s.(fs_chain2050).@"refund_void_atomic")
    "fee_budget.chain2050.refund_void_atomic" true;
  netBtc ← atomic (s.(fs_execution_policy).@"minimum_net_btc_output_sats")
    "execution_policy.minimum_net_btc_output_sats" true;
  netVoid ← atomic (s.(fs_execution_policy).@"minimum_net_void_output_atomic")
    "execution_policy.minimum_net_void_output_atomic" true;
  btcBps ← boundedBps (s.(fs_execution_policy).@"max_btc_fee_fraction_bps")
    "execution_policy.max_btc_fee_fraction_bps";
  voidBps ← boundedBps (s.(fs_execution_policy).@"max_void_fee_fraction_bps")
    "execution_policy.max_void_fee_fraction_bps";
  Ok (mkFeeInputs (s.(fs_request).@"direction") gross btc void
    (s.(fs_market_policy).@"max_input_reserve_fraction_bps") minBtc minVoid
    funding claim refund terminal lock vclaim vrefund netBtc netVoid btcBps voidBps).

Record NormalizedFeeRequest := mkNormalizedFeeRequest {
  fr_request : json;
  fr_grossAmountIn : Z
}.

Definition normalize (raw : json) : res NormalizedFeeRequest :=
  sections ← normalizeShape raw;
  inputs ← normalizeNumbers sections;
  Ok (mkNormalizedFeeRequest (feeRequestJson inputs) inputs.(fi_gross)).

(** [BigInt(value)] of a property that holds a decimal string. *)
Definition BigIntOf (v : json) : Z := match v with JStr s => BigInt s | _ => 0 end.

Record FeeSummary := mkFeeSummary {
  btcFunding : Z; btcClaim : Z; btcRefund : Z; btcTerminal : Z; btcWorstCase : Z;
  voidLock : Z; voidClaim : Z; voidRefund : Z; voidTerminal : Z; voidWorstCase : Z
}.

Definition feeSummary (request : json) : FeeSummary :=
  let bitcoin := request.@"fee_budget".@"bitcoin" in
  let chain2050 := request.@"fee_budget".@"chain2050" in
  let btcFunding := BigIntOf (bitcoin.@"funding_sats") in
  let btcClaim := BigIntOf (bitcoin.@"claim_sats") in
  let btcRefund := BigIntOf (bitcoin.@"refund_sats") in
  let btcTerminal := max btcClaim btcRefund in
  let btcWorstCase := btcFunding + btcTerminal in
  let voidLock := BigIntOf (chain2050.@"lock_void_atomic") in
  let voidClaim := BigIntOf (chain2050.@"claim_void_atomic") in
  let voidRefund := BigIntOf (chain2050.@"refund_void_atomic") in
  let voidTerminal := max voidClaim voidRefund in
  let voidWorstCase := voidLock + voidTerminal in
  mkFeeSummary btcFunding btcClaim btcRefund btcTerminal btcWorstCase
    voidLock voidClaim voidRefund voidTerminal voidWorstCase.

(** [BigInt(maxBps)] of a validated basis-point number. *)
Definition bpsOf (v : json) : Z := match v with JNum (NInt z) => z | _ => 0 end.

Definition enforceFeeFraction (fee gross : Z) (maxBps : json) (label : string) : res unit :=
  if fee =? 0 then Ok tt
  else throw_if (fee * BPS >? gross * bpsOf maxBps) (label +:+ " exceeds configured fee-fraction cap").

Record ProtocolFee := mkProtocolFee {
  pf_bps : Z;
  exactNumerator : Z;
  denominator : Z;
  wholeAtomicFloor : Z;
  fractionalRemainder : Z
}.

Definition protocolFeeSummary (request : json) (curveInput : Z) : res ProtocolFee :=
  let feeBps := bpsOf (request.@"market_policy".@"fee_bps") in
  let exactNumerator := curveInput * feeBps in
  let wholeAtomicFloor := exactNumerator ÷ BPS in
  let fractionalRemainder := Z.rem exactNumerator BPS in
  throw_if (wholeAtomicFloor =? 0) "protocol fee would retain less than one whole input atomic unit";;
  Ok (mkProtocolFee feeBps exactNumerator BPS wholeAtomicFloor fractionalRemainder).

(** The input side: what is left of the gross input for the curve. *)
Definition curveInputOf (request : json) (gross : Z) (fees : FeeSummary) : res Z :=
  if request.@"direction" === "btc_to_void" then
    throw_if (gross <=? fees.(btcWorstCase)) "BTC input cannot cover its complete network-fee envelope";;
    enforceFeeFraction fees.(btcWorstCase) gross
      (request.@"execution_policy".@"max_btc_fee_fraction_bps") "BTC fee envelope";;
    let curveInput := gross - fees.(btcWorstCase) in
    throw_if (curveInput <? BigIntOf (request.@"fee_budget".@"bitcoin".@"minimum_terminal_output_sats"))
      "BTC source terminal amount would fall below the configured dust/minimum floor";;
    Ok curveInput
  else
    throw_if (gross <=? fees.(voidWorstCase))
      "VoidToken input cannot cover its bounded economic-charge envelope";;
    enforceFeeFraction fees.(voidWorstCase) gross
      (request.@"execution_policy".@"max_void_fee_fraction_bps") "VoidToken economic charge envelope";;
    Ok (gross - fees.(voidWorstCase)).

(** The output side: what the trader receives of the curve output. *)
Definition netOutputOf (request : json) (curveOutput : Z) (fees : FeeSummary) : res Z :=
  if request.@"direction" === "btc_to_void" then
    throw_if (curveOutput <=? fees.(voidWorstCase))
      "quoted VoidToken output cannot cover its bounded economic-charge envelope";;
    enforceFeeFraction fees.(voidWorstCase) curveOutput
      (request.@"execution_policy".@"max_void_fee_fraction_bps") "VoidToken economic charge envelope";;
    let netOutput := curveOutput - fees.(voidWorstCase) in
    throw_if (netOutput <? BigIntOf (request.@"execution_policy".@"minimum_net_void_output_atomic"))
      "net VOID output is below the configured minimum";;
    Ok netOutput
  else
    throw_if (curveOutput <=? fees.(btcWorstCase))
      "quoted BTC output cannot cover its complete network-fee envelope";;
    enforceFeeFraction fees.(btcWorstCase) curveOutput
      (request.@"execution_policy".@"max_btc_fee_fraction_bps") "BTC fee envelope";;
    let netOutput := curveOutput - fees.(btcWorstCase) in
    throw_if (netOutput <? BigIntOf (request.@"execution_policy".@"minimum_net_btc_output_sats"))
      "net BTC output is below the configured minimum";;
    let minimumTerminalOutput :=
      BigIntOf (request.@"fee_budget".@"bitcoin".@"minimum_terminal_output_sats") in
    throw_if (curveOutput - fees.(btcFunding) - fees.(btcTerminal) <? minimumTerminalOutput)
      "BTC terminal output would fall below the configured dust/minimum floor";;
    Ok netOutput.

Definition renderFeeEnvelope (fees : FeeSummary) : json :=
  JObj [
    "bitcoin" ~> JObj [
      "funding_sats" ~> dec fees.(btcFunding);
      "claim_sats" ~> dec fees.(btcClaim);
      "refund_sats" ~> dec fees.(btcRefund);
      "terminal_route_budget_sats" ~> dec fees.(btcTerminal);
      "complete_worst_case_budget_sats" ~> dec fees.(btcWorstCase);
      "funding_fee_paid_from_btc_leg" ~> true;
      "claim_or_refund_fee_paid_from_btc_leg" ~> true;
      "standing_market_fee_reserve_required" ~> false;
      "funding_budget_must_cover_complete_transaction_shape" ~> true;
      "claim_budget_must_cover_complete_transaction_shape" ~> true;
      "refund_budget_must_cover_complete_transaction_shape" ~> true;
      "unbudgeted_rbf_or_cpfp_fee_bump_forbidden" ~> true];
    "chain2050" ~> JObj [
      "lock_void_atomic" ~> dec fees.(voidLock);
      "claim_void_atomic" ~> dec fees.(voidClaim);
      "refund_void_atomic" ~> dec fees.(voidRefund);
      "terminal_route_budget_void_atomic" ~> dec fees.(voidTerminal);
      "complete_worst_case_budget_void_atomic" ~> dec fees.(voidWorstCase);
      "amounts_are_voidtoken_economic_charge_not_native_gas" ~> true;
      "lock_native_gas_paid_from_voidtoken_leg" ~> false;
      "claim_or_refund_native_gas_paid_from_voidtoken_leg" ~> false;
      "native_gas_budget_wei_bound" ~> false;
      "native_gas_replenishment_proven" ~> false;
      "lock_voidtoken_charge_policy_bound" ~> true;
      "claim_voidtoken_charge_policy_bound" ~> true;
      "refund_voidtoken_charge_policy_bound" ~> true;
      "per_swap_contract_deployment_forbidden" ~> true;
      "separate_post_terminal_reimbursement_transaction_forbidden" ~> true]].

Definition launchFeeTopologyGate : json :=
  JObj [
      "protocol_fee_is_curve_accounting_not_a_transaction" ~> true;
      "predeployed_chain2050_settlement_contract_required" ~> true;
      "per_swap_chain2050_contract_deployment_forbidden" ~> true;
      "terminal_executor_native_gas_allowance_required_before_attempt" ~> true;
      "terminal_executor_native_gas_allowance_proven" ~> false;
      "failed_terminal_attempt_must_not_draw_unreserved_shared_gas" ~> true;
      "failed_terminal_attempt_native_gas_isolation_proven" ~> false;
      "maximum_terminal_broadcast_attempts" ~> jint 1;
      "automatic_terminal_retry_forbidden" ~> true;
      "unbudgeted_bitcoin_rbf_or_cpfp_transaction_forbidden" ~> true;
      "live_contract_gas_census_required_before_activation" ~> true;
      "bitcoin_fee_budget_must_bind_exact_vbytes_and_max_sat_per_vbyte" ~> true;
      "chain2050_native_gas_budget_must_bind_measured_gas_and_max_fee_per_gas" ~> true;
      "chain2050_native_gas_budget_bound_in_wei" ~> false;
      "voidtoken_protocol_fee_does_not_replenish_native_gas" ~> true;
      "native_gas_replenishment_or_user_paid_model_required" ~> true;
      "native_gas_micro_trade_grief_protection_required" ~> true;
      "native_gas_micro_trade_grief_protection_proven" ~> false;
      "executable_reservation_ttl_required" ~> true;
      "per_identity_outstanding_reservation_cap_required" ~> true;
      "global_outstanding_reservation_cap_required" ~> true;
      "expired_reservation_has_no_settlement_authority" ~> true;
      "late_funding_after_reservation_expiry_requires_reconciliation" ~> true;
      "executable_reservation_hoarding_protection_proven" ~> false;
      "zero_protocol_btc_seed_requires_opening_discovery" ~> true;
      "opening_reserve_snapshot_must_derive_from_verified_discovery" ~> true;
      "opening_quote_reserve_provenance_required" ~> true;
      "opening_concentration_and_sybil_protection_required" ~> true;
      "opening_minimum_real_btc_depth_policy_required" ~> true;
      "opening_price_discovery_authority_proven" ~> false;
      "protocol_fee_and_buyback_spread_are_distinct" ~> true;
      "combined_protocol_fee_and_buyback_spread_policy_review_required" ~> true;
      "combined_protocol_fee_and_buyback_spread_policy_reviewed" ~> false;
      "complete_public_fee_component_disclosure_required" ~> true;
      "complete_public_fee_component_disclosure_proven" ~> false;
      "net_user_output_and_quote_expiry_disclosure_required" ~> true;
      "explicit_minimum_if_used_must_be_public_and_policy_bound" ~> true;
      "batching_or_user_paid_gas_may_satisfy_grief_gate" ~> true;
      "caller_authored_unverified_fee_budget_forbidden" ~> true;
      "fee_observation_must_be_fresh_and_quote_bound" ~> true;
      "stale_fee_quote_must_fail_before_funding" ~> true;
      "runtime_fee_topology_proven" ~> false;
      "market_activation_ready" ~> false].

Definition executableInvariants : json :=
  JObj [
      "trade_pays_all_bitcoin_network_fees" ~> true;
      "trade_pays_all_chain2050_native_gas" ~> false;
      "voidtoken_economic_charge_bound" ~> true;
      "success_path_native_gas_fully_budgeted" ~> false;
      "refund_path_native_gas_fully_budgeted" ~> false;
      "no_standing_bitcoin_fee_reserve_dependency" ~> true;
      "chain2050_native_gas_liability_unresolved" ~> true;
      "no_trade_creates_unfunded_bitcoin_fee_liability" ~> true;
      "no_trade_creates_unfunded_chain2050_native_gas_liability" ~> false;
      "fixed_protocol_fee_required" ~> true;
      "protocol_fee_retained_in_market_reserve" ~> true;
      "protocol_fee_cannot_sponsor_other_trades" ~> true;
      "protocol_fee_cannot_auto_sweep_to_treasury" ~> true;
      "bitcoin_fee_budget_bound_before_inventory_reservation" ~> true;
      "chain2050_native_gas_budget_bound_before_inventory_reservation" ~> false;
      "quote_not_executable_until_native_gas_model_ready" ~> true;
      "quote_not_executable_until_micro_trade_grief_protection_ready" ~> true;
      "quote_not_executable_until_reservation_hoarding_protection_ready" ~> true;
      "quote_not_executable_until_opening_price_discovery_ready" ~> true;
      "quote_not_executable_until_combined_fee_policy_reviewed" ~> true;
      "quote_not_executable_until_fee_disclosure_ready" ~> true;
      "executable_quote_must_fail_if_fee_budget_does_not_fit" ~> true].

Definition renderPricing (gross curveInput curveOutput netOutput : Z) (curveQuote : json) : json :=
  JObj [
    "gross_input_amount" ~> dec gross;
    "curve_priced_input_amount" ~> dec curveInput;
    "curve_gross_output_amount" ~> dec curveOutput;
    "net_user_output_amount" ~> dec netOutput;
    "curve_indicative_quote_id" ~> curveQuote.@"indicative_quote_id";
    "curve_input_asset" ~> curveQuote.@"result".@"input_asset";
    "curve_output_asset" ~> curveQuote.@"result".@"output_asset"].

Definition renderProtocolFee (btcToVoid : bool) (curveInput : Z) (protocolFee : ProtocolFee) : json :=
  JObj [
    "policy" ~> "VOID_BTC_VOID_PROTOCOL_FEE_V1";
    "bps" ~> jint protocolFee.(pf_bps);
    "rate_percent" ~> "0.50";
    "charged_after_bitcoin_fee_and_voidtoken_economic_charge" ~> true;
    "input_asset" ~> (if btcToVoid then btc_asset else void_asset);
    "curve_input_amount" ~> dec curveInput;
    "nominal_fee_input_atomic_floor" ~> dec protocolFee.(wholeAtomicFloor);
    "nominal_fee_fraction_numerator" ~> dec protocolFee.(exactNumerator);
    "nominal_fee_fraction_denominator" ~> dec protocolFee.(denominator);
    "nominal_fee_fraction_remainder" ~> dec protocolFee.(fractionalRemainder);
    "retained_in_input_side_market_reserve" ~> true;
    "automatic_treasury_sweep" ~> false;
    "available_for_network_fee_sponsorship" ~> false;
    "separate_onchain_payment_transaction_required" ~> false].

Section fees.
Context {H : Digest}.

Definition sha256Id (prefix : string) (value : json) : string :=
  prefix +:+ sha256_hex (canonicalJson value).

Definition quoteWithNetInput (request : json) (amountIn : Z) : res json :=
  quoteBtcVoidV1 (JObj [
    "schema" ~> QUOTE_REQUEST_SCHEMA;
    "direction" ~> request.@"direction";
    "amount_in" ~> dec amountIn;
    "reserves" ~> request.@"reserves";
    "policy" ~> request.@"market_policy"]).

Definition renderFeeQuote (request : json) (gross curveInput curveOutput netOutput : Z)
    (curveQuote : json) (fees : FeeSummary) (protocolFee : ProtocolFee) : json :=
  JObj [
    "schema" ~> "void.btc_void.trade_funded_fee_quote.v1";
    "marker" ~> "VOID_BTC_VOID_TRADE_FUNDED_FEES_V1";
    "request" ~> request;
    "pricing" ~> renderPricing gross curveInput curveOutput netOutput curveQuote;
    "protocol_fee" ~> renderProtocolFee (request.@"direction" === "btc_to_void") curveInput protocolFee;
    "fee_envelope" ~> renderFeeEnvelope fees;
    "launch_fee_topology_gate" ~> launchFeeTopologyGate;
    "executable_invariants" ~> executableInvariants;
    "authority" ~> AUTHORITY].

Definition deriveBtcVoidTradeFundedFeesV1 (raw : json) : res json :=
  normalized ← normalize raw;
  let request := normalized.(fr_request) in
  let gross := normalized.(fr_grossAmountIn) in
  let fees := feeSummary request in
  curveInput ← curveInputOf request gross fees;
  protocolFee ← protocolFeeSummary request curveInput;
  curveQuote ← quoteWithNetInput request curveInput;
  let curveOutput := BigIntOf (curveQuote.@"result".@"amount_out") in
  netOutput ← netOutputOf request curveOutput fees;
  let result := renderFeeQuote request gross curveInput curveOutput netOutput
    curveQuote fees protocolFee in
  Ok (extend result "trade_funded_fee_quote_id" (sha256Id "voidbtcvfq1_" result)).
End fees.

(** ** Facts about normalized fee requests *)

(** Splits ranges of a non-negative atomic amount. *)
Definition atomic_range (z : Z) : Prop := 0 <= z <= MAX_ATOMIC_VALUE.

Record inputs_ok (i : FeeInputs) : Prop := {
  io_direction : exists d, i.(fi_direction) = JStr d /\ d ∈ DIRECTIONS;
  io_positive : 0 < i.(fi_gross) /\ 0 < i.(fi_btc) /\ 0 < i.(fi_void);
  io_amounts : Forall atomic_range [i.(fi_gross); i.(fi_btc); i.(fi_void); i.(fi_min_btc);
    i.(fi_min_void); i.(fi_funding); i.(fi_claim); i.(fi_refund); i.(fi_terminal); i.(fi_lock);
    i.(fi_vclaim); i.(fi_vrefund); i.(fi_net_btc); i.(fi_net_void)];
  io_bps : 0 <= i.(fi_btc_bps) <= 5000 /\ 0 <= i.(fi_void_bps) <= 5000
}.

Lemma boundedBps_Ok v l z : boundedBps v l = Ok z <-> v = jint z /\ 0 <= z <= 5000.
Proof.
  unfold boundedBps. split.
  - destruct (as_safe_integer v) eqn:E; [|discriminate].
    apply as_safe_integer_Some in E as [-> ?]. intros. inv_ok. bool_prop. split; [done|lia].
  - intros [-> ?]. rewrite (proj2 (as_safe_integer_Some (jint z) z))
      by (unfold MAX_SAFE_INTEGER; split; [done|lia]).
    assert (((z <? 0) || (z >? 5000)) = false) as -> by lia. done.
Qed.

Lemma normalize_inputs raw n : normalize raw = Ok n ->
  exists i, n = mkNormalizedFeeRequest (feeRequestJson i) i.(fi_gross) /\ inputs_ok i.
Proof.
  unfold normalize, normalizeShape, normalizeNumbers, atomic, exactKeys. intros Hn.
  inv_ok. bool_prop. js_facts. cbn [fs_request fs_reserves fs_market_policy fs_bitcoin
    fs_chain2050 fs_execution_policy] in *.
  repeat match goal with Hb : boundedBps _ _ = Ok _ |- _ => apply boundedBps_Ok in Hb as [? ?] end.
  eexists. split; [reflexivity|].
  constructor; cbn -[MAX_ATOMIC_VALUE].
  - eauto.
  - assert (false = false) by done. intuition lia.
  - repeat constructor; unfold atomic_range; lia.
  - done.
Qed.

(** The numbers of [inputs_ok], ready for arithmetic. *)
Ltac inputs_arith Hi :=
  destruct Hi as [? (? & ? & ?) Hi [? ?]];
  repeat (apply Forall_cons in Hi as [? Hi]); unfold atomic_range in *.

Lemma BigIntOf_dec z : 0 <= z -> BigIntOf (JStr (dec z)) = z.
Proof. apply BigInt_dec. Qed.

Lemma max_spec a b : max a b = Z.max a b.
Proof. unfold max. destruct (Z.gtb_spec a b); lia. Qed.

Definition btc_envelope (i : FeeInputs) : Z := i.(fi_funding) + Z.max i.(fi_claim) i.(fi_refund).
Definition void_envelope (i : FeeInputs) : Z := i.(fi_lock) + Z.max i.(fi_vclaim) i.(fi_vrefund).

Lemma feeSummary_request i : inputs_ok i ->
  feeSummary (feeRequestJson i) =
  mkFeeSummary i.(fi_funding) i.(fi_claim) i.(fi_refund) (Z.max i.(fi_claim) i.(fi_refund))
    (btc_envelope i) i.(fi_lock) i.(fi_vclaim) i.(fi_vrefund)
    (Z.max i.(fi_vclaim) i.(fi_vrefund)) (void_envelope i).
Proof.
  intros Hi. inputs_arith Hi. unfold feeSummary, feeRequestJson, btc_envelope, void_envelope.
  cbn -[dec BigIntOf max Z.add]. rewrite !BigIntOf_dec by lia. by rewrite !max_spec.
Qed.

(** The envelope of the input leg and of the output leg, and their caps. *)
Definition btc_to_void (i : FeeInputs) : bool := i.(fi_direction) === "btc_to_void".
Definition in_envelope (i : FeeInputs) : Z :=
  if btc_to_void i then btc_envelope i else void_envelope i.
Definition out_envelope (i : FeeInputs) : Z :=
  if btc_to_void i then void_envelope i else btc_envelope i.
Definition in_bps (i : FeeInputs) : Z := if btc_to_void i then i.(fi_btc_bps) else i.(fi_void_bps).
Definition out_bps (i : FeeInputs) : Z := if btc_to_void i then i.(fi_void_bps) else i.(fi_btc_bps).
Definition min_net (i : FeeInputs) : Z :=
  if btc_to_void i then i.(fi_net_void) else Z.max i.(fi_net_btc) i.(fi_terminal).

Lemma enforceFeeFraction_Ok fee gross m l u : 0 <= fee -> 0 < gross -> 0 <= bpsOf m ->
  enforceFeeFraction fee gross m l = Ok u -> fee * BPS <= gross * bpsOf m.
Proof.
  intros ? ? ?. unfold enforceFeeFraction. destruct (Z.eqb_spec fee 0) as [->|]; [nia|].
  intros Hf. inv_ok. lia.
Qed.

Lemma curveInputOf_Ok i c : inputs_ok i ->
  curveInputOf (feeRequestJson i) i.(fi_gross) (feeSummary (feeRequestJson i)) = Ok c ->
  c = i.(fi_gross) - in_envelope i /\ 0 < c /\ in_envelope i * BPS <= i.(fi_gross) * in_bps i /\
  (btc_to_void i = true -> i.(fi_terminal) <= c).
Proof.
  intros Hi. rewrite feeSummary_request by done. inputs_arith Hi.
  unfold curveInputOf, in_envelope, in_bps, btc_envelope, void_envelope.
  change ((feeRequestJson i).@"direction" === "btc_to_void") with (btc_to_void i).
  destruct (btc_to_void i); cbn -[BigIntOf dec Z.mul Z.add enforceFeeFraction]; intros Hc; inv_ok;
    rewrite ?BigIntOf_dec in * by lia;
    match goal with Hf : enforceFeeFraction _ _ _ _ = Ok _ |- _ =>
      apply enforceFeeFraction_Ok in Hf; [|lia|lia|cbn; lia] end;
    cbn [bpsOf jint] in *; repeat split; try lia; discriminate.
Qed.

Lemma netOutputOf_Ok i out n : inputs_ok i -> 0 < out ->
  netOutputOf (feeRequestJson i) out (feeSummary (feeRequestJson i)) = Ok n ->
  n = out - out_envelope i /\ 0 < n /\ out_envelope i * BPS <= out * out_bps i /\ min_net i <= n.
Proof.
  intros Hi Hout. rewrite feeSummary_request by done. inputs_arith Hi.
  unfold netOutputOf, out_envelope, out_bps, min_net, btc_envelope, void_envelope.
  change ((feeRequestJson i).@"direction" === "btc_to_void") with (btc_to_void i).
  destruct (btc_to_void i); cbn -[BigIntOf dec Z.mul Z.add enforceFeeFraction]; intros Hc; inv_ok;
    rewrite ?BigIntOf_dec in * by lia;
    match goal with Hf : enforceFeeFraction _ _ _ _ = Ok _ |- _ =>
      apply enforceFeeFraction_Ok in Hf; [|lia|lia|cbn; lia] end;
    cbn [bpsOf jint] in *; repeat split; lia.
Qed.

Lemma protocolFeeSummary_Ok i c pf :
  protocolFeeSummary (feeRequestJson i) c = Ok pf -> 0 < c ->
  pf = mkProtocolFee 50 (c * 50) BPS ((c * 50) ÷ BPS) (Z.rem (c * 50) BPS) /\ 200 <= c.
Proof.
  unfold protocolFeeSummary. intros Hp Hc.
  change (bpsOf _) with 50 in Hp. inv_ok. split; [reflexivity|].
  pose proof (quot_floor (c * 50) BPS). unfold BPS in *. lia.
Qed.

(** What a successful derivation computed. *)
Record fee_quote_ok `{Digest} (i : FeeInputs) (c out net : Z) (curveQuote q : json) : Prop := {
  fq_inputs : inputs_ok i;
  fq_in : i.(fi_gross) = c + in_envelope i;
  fq_out : out = net + out_envelope i;
  fq_c : 200 <= c;
  fq_net : 0 < net /\ min_net i <= net;
  fq_caps : in_envelope i * BPS <= i.(fi_gross) * in_bps i /\ out_envelope i * BPS <= out * out_bps i;
  fq_terminal : btc_to_void i = true -> i.(fi_terminal) <= c;
  fq_curve : quoteWithNetInput (feeRequestJson i) c = Ok curveQuote;
  fq_curve_out : curveQuote.@"result".@"amount_out" = JStr (dec out);
  fq_render : exists result, result = renderFeeQuote (feeRequestJson i) i.(fi_gross) c out net curveQuote
      (feeSummary (feeRequestJson i))
      (mkProtocolFee 50 (c * 50) BPS ((c * 50) ÷ BPS) (Z.rem (c * 50) BPS)) /\
    q = extend result "trade_funded_fee_quote_id" (sha256Id "voidbtcvfq1_" result)
}.

Section fee_properties.
Context {H : Digest}.

Lemma quote_amount_out raw q : quoteBtcVoidV1 raw = Ok q ->
  exists out, q.@"result".@"amount_out" = JStr (dec out) /\ 0 < out.
Proof.
  intros (n & p & ? & ? & ? & Hpk & ->)%quote_inv. exists (amountOut p).
  split; [reflexivity|]. destruct Hpk. lia.
Qed.

Lemma derive_inv raw q : deriveBtcVoidTradeFundedFeesV1 raw = Ok q ->
  exists i c out net curveQuote, fee_quote_ok i c out net curveQuote q.
Proof.
  unfold deriveBtcVoidTradeFundedFeesV1. intros Hq.
  apply bind_Ok in Hq as (n & Hn & Hq). apply normalize_inputs in Hn as (i & -> & Hi).
  cbn [fr_request fr_grossAmountIn] in Hq.
  apply bind_Ok in Hq as (c & Hc & Hq). apply curveInputOf_Ok in Hc as (Hin & Hpos & Hcap & Hterm); [|done].
  apply bind_Ok in Hq as (pf & Hpf & Hq). apply protocolFeeSummary_Ok in Hpf as [-> Hc200]; [|done].
  apply bind_Ok in Hq as (cq & Hcq & Hq). pose proof Hcq as Hcq'.
  apply quote_amount_out in Hcq' as (out & Hout & Hpos'). rewrite Hout in Hq.
  rewrite BigIntOf_dec in Hq by lia.
  apply bind_Ok in Hq as (net & Hnet & Hq). apply netOutputOf_Ok in Hnet as (Hno & ? & ? & ?); [|done|done].
  injection Hq as Hq. exists i, c, out, net, cq. constructor; try done; try lia. eauto.
Qed.

(** C19: Every accepted swap is fully self-funding: the gross input is the curve
    input plus the worst-case fee envelope of its leg, the curve output is the
    net output plus the envelope of the other leg, each envelope covers both the
    success and the refund route, stays within its configured fraction, and the
    net output is positive and at least the configured minimum. *)
Theorem fee_quote_self_funded raw q :
  deriveBtcVoidTradeFundedFeesV1 raw = Ok q ->
  exists i c out net,
    q.@"request" = feeRequestJson i /\
    q.@"pricing".@"gross_input_amount" = JStr (dec (c + in_envelope i)) /\
    q.@"pricing".@"curve_priced_input_amount" = JStr (dec c) /\
    q.@"pricing".@"curve_gross_output_amount" = JStr (dec (net + out_envelope i)) /\
    q.@"pricing".@"net_user_output_amount" = JStr (dec net) /\
    out = net + out_envelope i /\ i.(fi_gross) = c + in_envelope i /\
    0 < c /\ 0 < net /\ min_net i <= net /\
    in_envelope i * BPS <= i.(fi_gross) * in_bps i /\ out_envelope i * BPS <= out * out_bps i /\
    i.(fi_funding) + i.(fi_claim) <= btc_envelope i /\ i.(fi_funding) + i.(fi_refund) <= btc_envelope i /\
    i.(fi_lock) + i.(fi_vclaim) <= void_envelope i /\ i.(fi_lock) + i.(fi_vrefund) <= void_envelope i.
Proof.
  intros (i & c & out & net & cq & [])%derive_inv. destruct fq_render0 as (r & -> & ->).
  exists i, c, out, net. unfold btc_envelope, void_envelope. rewrite <- fq_in0, <- fq_out0.
  repeat (split; [first [reflexivity | lia]|]). lia.
Qed.

(** The protocol fee is exactly 50 basis points of the curve input, split
    into its whole part (at least one unit) and a remainder below the
    denominator; dust trades whose fee rounds to nothing are refused. *)
Theorem fee_protocol_fee_exact raw q :
  deriveBtcVoidTradeFundedFeesV1 raw = Ok q ->
  exists c whole rest,
    q.@"pricing".@"curve_priced_input_amount" = JStr (dec c) /\
    q.@"protocol_fee".@"bps" = jint 50 /\
    q.@"protocol_fee".@"nominal_fee_fraction_numerator" = JStr (dec (50 * c)) /\
    q.@"protocol_fee".@"nominal_fee_input_atomic_floor" = JStr (dec whole) /\
    q.@"protocol_fee".@"nominal_fee_fraction_remainder" = JStr (dec rest) /\
    50 * c = whole * BPS + rest /\ 0 <= rest < BPS /\ 1 <= whole.
Proof.
  intros (i & c & out & net & cq & [])%derive_inv. destruct fq_render0 as (r & -> & ->).
  exists c, ((c * 50) ÷ BPS), (Z.rem (c * 50) BPS). rewrite (Z.mul_comm 50 c).
  do 5 (split; [reflexivity|]).
  pose proof (Z.quot_rem' (c * 50) BPS). pose proof (Z.rem_bound_pos (c * 50) BPS).
  pose proof (quot_floor (c * 50) BPS). unfold BPS in *. lia.
Qed.

(** The curve part of a fee quote is the indicative quote of the reduced
    input at the same reserves and limits: [quoteBtcVoidV1] accepts the reduced
    request and its identity, assets and output are the ones reported. *)
Theorem fee_quote_binds_curve_quote raw q :
  deriveBtcVoidTradeFundedFeesV1 raw = Ok q ->
  exists c curveQuote,
    q.@"pricing".@"curve_priced_input_amount" = JStr (dec c) /\
    quoteBtcVoidV1 (JObj [
      "schema" ~> QUOTE_REQUEST_SCHEMA;
      "direction" ~> q.@"request".@"direction";
      "amount_in" ~> dec c;
      "reserves" ~> q.@"request".@"reserves";
      "policy" ~> q.@"request".@"market_policy"]) = Ok curveQuote /\
    q.@"pricing".@"curve_indicative_quote_id" = curveQuote.@"indicative_quote_id" /\
    q.@"pricing".@"curve_gross_output_amount" = curveQuote.@"result".@"amount_out" /\
    q.@"pricing".@"curve_output_asset" = curveQuote.@"result".@"output_asset".
Proof.
  intros (i & c & out & net & cq & [])%derive_inv. destruct fq_render0 as (r & -> & ->).
  exists c, cq. split; [reflexivity|]. split; [exact fq_curve0|].
  rewrite fq_curve_out0. repeat split.
Qed.

(** The errors [quoteBtcVoidV1] can raise once the request has been normalized
    by this module. *)
Definition inner_quote_errors : list string := [
  "policy.max_input_reserve_fraction_bps is outside the v1 integer range";
  "amount_in exceeds the configured reserve-fraction limit";
  "post-quote input reserve exceeds the v1 atomic-value range";
  "quote output is zero or exhausts the output reserve";
  "quote would cross a configured reserve floor"]%string.

Lemma integer_Throw v l lo hi e :
  integer v l lo hi = Throw e -> e = (l +:+ " is outside the v1 integer range").
Proof.
  unfold integer. destruct (as_safe_integer v); [|congruence].
  intros [Hb|(? & _ & Hb)]%bind_Throw; [|discriminate].
  by apply throw_if_Throw in Hb as [_ ->].
Qed.

Lemma priceQuote_errors n e : request_ok n -> priceQuote n = Throw e -> e ∈ inner_quote_errors.
Proof.
  intros Hn Hp. pose proof (priceQuote_product n e Hn Hp) as Hk. unfold priceQuote in Hp.
  unfold inner_quote_errors.
  repeat (apply bind_Throw in Hp as [Hp|(? & ? & Hp)];
    [apply throw_if_Throw in Hp as [_ ->]; (set_solver || done)|]); discriminate Hp.
Qed.

Lemma inner_request_normal i c : inputs_ok i -> 0 < c <= MAX_ATOMIC_VALUE ->
  (exists n, normalizeRequest (JObj [
      "schema" ~> QUOTE_REQUEST_SCHEMA; "direction" ~> i.(fi_direction); "amount_in" ~> dec c;
      "reserves" ~> (feeRequestJson i).@"reserves";
      "policy" ~> (feeRequestJson i).@"market_policy"]) = Ok n) \/
  normalizeRequest (JObj [
      "schema" ~> QUOTE_REQUEST_SCHEMA; "direction" ~> i.(fi_direction); "amount_in" ~> dec c;
      "reserves" ~> (feeRequestJson i).@"reserves";
      "policy" ~> (feeRequestJson i).@"market_policy"]) =
    Throw "policy.max_input_reserve_fraction_bps is outside the v1 integer range".
Proof.
  intros Hi Hc. inputs_arith Hi.
  match goal with Hx : exists d, _ |- _ => destruct Hx as (d & Hd & Hdir) end.
  destruct (integer i.(fi_fraction) "policy.max_input_reserve_fraction_bps" 1
    MAX_INPUT_RESERVE_FRACTION_BPS) as [m|e] eqn:E.
  - left. eexists. rewrite Hd. apply integer_Ok in E as (Hm & _ & ?).
    cbn -[dec normalizeRequest]. rewrite Hm.
    apply (normalizeRequest_requestJson d c (fi_btc i) (fi_void i) 50 m (fi_min_btc i) (fi_min_void i));
      unfold MAX_FEE_BPS; lia || done.
  - right. unfold normalizeRequest. rewrite Hd.
    js_run; [by apply negb_false_iff, includes_spec; eauto
      | unfold BTC_VOID_PROTOCOL_FEE_BPS_V1, MAX_SAFE_INTEGER; lia
      | unfold BTC_VOID_PROTOCOL_FEE_BPS_V1, MAX_FEE_BPS; lia |].
    change ((JObj _).@"policy".@"max_input_reserve_fraction_bps") with (fi_fraction i).
    rewrite E. by rewrite (integer_Throw _ _ _ _ _ E).
Qed.

(** Once a fee request is normalized, the inner quote can only be refused
    for an economic reason (input fraction, range, zero output, reserve floor)
    or for the input-fraction limit itself, which this module passes on
    unvalidated; no shape error of the inner request can surface. *)
Theorem fee_inner_quote_errors raw n c e :
  normalize raw = Ok n -> 0 < c <= n.(fr_grossAmountIn) ->
  quoteWithNetInput n.(fr_request) c = Throw e -> e ∈ inner_quote_errors.
Proof.
  intros (i & -> & Hi)%normalize_inputs Hc. cbn [fr_request fr_grossAmountIn] in *.
  assert (0 < c <= MAX_ATOMIC_VALUE) as Hc' by (pose proof Hi as Hi'; inputs_arith Hi'; lia).
  unfold quoteWithNetInput, quoteBtcVoidV1.
  change ((feeRequestJson i).@"direction") with (fi_direction i).
  intros [Hq|(n & Hn & Hq)]%bind_Throw.
  - destruct (inner_request_normal i c Hi Hc') as [[n Hn]|Hn]; rewrite Hn in Hq; [done|].
    injection Hq as <-. unfold inner_quote_errors. set_solver.
  - apply bind_Throw in Hq as [Hq|(? & _ & Hq)]; [|discriminate].
    eapply priceQuote_errors; eauto using normalizeRequest_ok.
Qed.
End fee_properties.

(** ** A concrete fee quote *)

Definition sample_fee_request : json :=
  feeRequestJson (mkFeeInputs "btc_to_void" 1000000 100000000 5000000000000 (jint 2500) 0 0
    3000 2000 2500 1000 500 700 900 0 1000000 1000 1000).

Example sample_fee_net :
  (fun q => q.@"pricing".@"net_user_output_amount") <$>
    deriveBtcVoidTradeFundedFeesV1 (H := sha256) sample_fee_request =
  Ok (JStr "48991588346").
Proof. vm_compute. reflexivity. Qed.

Lemma fee_quote_self_funded_witness :
  match deriveBtcVoidTradeFundedFeesV1 (H := sha256) sample_fee_request with
  | Ok q => exists i c net, q.@"request" = feeRequestJson i /\
      q.@"pricing".@"gross_input_amount" = JStr (dec (c + in_envelope i)) /\
      q.@"pricing".@"net_user_output_amount" = JStr (dec net) /\ 0 < c /\ 0 < net
  | Throw _ => False
  end.
Proof.
  run_ok (deriveBtcVoidTradeFundedFeesV1 (H := sha256) sample_fee_request) E.
  destruct (fee_quote_self_funded sample_fee_request _ E)
    as (i & c & o & net & ? & ? & ? & ? & ? & ? & ? & ? & ? & _). eauto 12.
Defined.

Lemma fee_protocol_fee_exact_witness :
  match deriveBtcVoidTradeFundedFeesV1 (H := sha256) sample_fee_request with
  | Ok q => exists c whole rest, q.@"pricing".@"curve_priced_input_amount" = JStr (dec c) /\
      q.@"protocol_fee".@"nominal_fee_input_atomic_floor" = JStr (dec whole) /\
      50 * c = whole * BPS + rest /\ 0 <= rest < BPS /\ 1 <= whole
  | Throw _ => False
  end.
Proof.
  run_ok (deriveBtcVoidTradeFundedFeesV1 (H := sha256) sample_fee_request) E.
  destruct (fee_protocol_fee_exact sample_fee_request _ E) as (c & w & r & ? & ? & ? & ? & ? & ?).
  eauto 10.
Defined.

Lemma fee_quote_binds_curve_quote_witness :
  match deriveBtcVoidTradeFundedFeesV1 (H := sha256) sample_fee_request with
  | Ok q => exists c curveQuote, q.@"pricing".@"curve_priced_input_amount" = JStr (dec c) /\
      q.@"pricing".@"curve_indicative_quote_id" = curveQuote.@"indicative_quote_id" /\
      q.@"pricing".@"curve_gross_output_amount" = curveQuote.@"result".@"amount_out"
  | Throw _ => False
  end.
Proof.
  run_ok (deriveBtcVoidTradeFundedFeesV1 (H := sha256) sample_fee_request) E.
  destruct (fee_quote_binds_curve_quote sample_fee_request _ E) as (c & cq & ? & ? & ? & ? & _).
  eauto 10.
Defined.

(** A request whose reduced input is above a quarter of the reserve. *)
Definition sample_fee_request_large : json :=
  feeRequestJson (mkFeeInputs "btc_to_void" 60000000 100000000 5000000000000 (jint 2500) 0 0
    3000 2000 2500 1000 500 700 900 0 1000000 1000 1000).

Lemma fee_inner_quote_errors_witness :
  match normalize sample_fee_request_large with
  | Ok n => match quoteWithNetInput (H := sha256) n.(fr_request) 50000000 with
            | Throw e => e ∈ inner_quote_errors
            | Ok _ => False
            end
  | Throw _ => False
  end.
Proof.
  run_ok (normalize sample_fee_request_large) E.
  destruct (quoteWithNetInput (H := sha256) (fr_request out) 50000000) as [q|e] eqn:Eq.
  - assert (negb (is_ok (n ← normalize sample_fee_request_large;
      quoteWithNetInput (H := sha256) (fr_request n) 50000000)) = true) as Hb
      by (vm_compute; reflexivity).
    rewrite E in Hb. simpl in Hb. rewrite Eq in Hb. discriminate Hb.
  - apply (fee_inner_quote_errors sample_fee_request_large out 50000000 e E); [|exact Eq].
    assert (fr_grossAmountIn out = 60000000) as ->; [|lia].
    assert ((fr_grossAmountIn <$> normalize sample_fee_request_large) = Ok 60000000) as F
      by (vm_compute; reflexivity).
    rewrite E in F. by injection F.
Defined.
