(* ===== verification/ReservePolicy.v ===== *)
(** * Market-maker reserve policy of the BTC/VOID market

    Model of [tools/void-btc-void-market-maker-reserve-policy-v1.mjs]: the premine
    purpose-vault target and its conservation check, and the plan that turns the
    BTC proceeds of a settled sale into a bid budget one percent below the sale
    price ([deriveBtcVoidBuybackLotV1]).  Plans and lots are named by content
    identities of the settled sale. *)

From S2P Require Import Prelude Js CanonicalJson Sha256.

Definition VOID_BTC_VOID_MARKET_MAKER_RESERVE_POLICY_V1 : string :=
  "VOID_BTC_VOID_MARKET_MAKER_RESERVE_POLICY_V1".
Definition VOID_BTC_VOID_V1_MINIMUM_SPREAD_BPS : Z := 100.
Definition BPS_DENOMINATOR : Z := 10000.
Definition MAX_SPREAD_BPS : Z := 5000.
Definition MAX_CONFIRMATIONS : Z := 1000000.
Definition MAX_BITCOIN_BLOCK_HEIGHT : Z := 10000000.
Definition MAX_BITCOIN_VOUT : Z := 4294967295.

(** ** The purpose-vault target *)

Definition VOID_PREMINE_PURPOSE_VAULT_TARGET_V1 : json :=
  JObj [
    "schema" ~> "void.premine.purpose_vault_target.v1";
    "marker" ~> "VOID_PREMINE_PURPOSE_VAULT_TARGET_V1";
    "amounts_void" ~> JObj [
      "core_void_treasury" ~> "307073333";
      "presale_inventory_vault" ~> "10000000";
      "btc_void_market_vault" ~> "10000000";
      "ops_treasury" ~> "5000000";
      "validator_stake_target" ~> "1260000";
      "total_premine" ~> "333333333"];
    "transition_basis_void" ~> JObj [
      "reconciled_void_treasury" ~> "333207333";
      "reconciled_ops_treasury" ~> "0";
      "reconciled_validator_stake" ~> "126000";
      "planned_presale_inventory_funding" ~> "10000000";
      "planned_btc_void_market_funding" ~> "10000000";
      "planned_ops_treasury_funding" ~> "5000000";
      "planned_validator_stake_delta" ~> "1134000";
      "combined_future_treasury_delta" ~> "26134000"];
    "funding_readiness" ~> JObj [
      "current_balance_reconciliation_required" ~> true;
      "canonical_custody_snapshot_required" ~> true;
      "final_vault_identity_and_controls_required" ~> true;
      "validator_target_mechanism_review_required" ~> true;
      "canary_transfer_receipt_required" ~> true;
      "full_target_delta_funded_after_gates" ~> true;
      "funding_does_not_activate_use" ~> true];
    "authority" ~> JObj [
      "source_only_target" ~> true;
      "wallet_or_signer_accessed" ~> false;
      "treasury_transfer_authorized" ~> false;
      "transaction_constructed" ~> false;
      "transaction_broadcast" ~> false;
      "funds_moved" ~> false]].

Definition BigIntOf (v : json) : Z := match v with JStr s => BigInt s | _ => 0 end.

Definition validatePurposeVaultTarget (target : json) : res json :=
  let amounts := target.@"amounts_void" in
  let allocated :=
    BigIntOf (amounts.@"core_void_treasury") +
    BigIntOf (amounts.@"presale_inventory_vault") +
    BigIntOf (amounts.@"btc_void_market_vault") +
    BigIntOf (amounts.@"ops_treasury") +
    BigIntOf (amounts.@"validator_stake_target") in
  throw_if (negb (allocated =? BigIntOf (amounts.@"total_premine")))
    "purpose-vault target does not conserve the premine";;
  let transition := target.@"transition_basis_void" in
  throw_if (negb (BigIntOf (transition.@"reconciled_ops_treasury") +
      BigIntOf (transition.@"planned_ops_treasury_funding") =? BigIntOf (amounts.@"ops_treasury")))
    "OpsTreasury transition does not reach its target";;
  throw_if (negb (BigIntOf (transition.@"reconciled_validator_stake") +
      BigIntOf (transition.@"planned_validator_stake_delta") =?
      BigIntOf (amounts.@"validator_stake_target")))
    "validator stake transition does not reach its target";;
  let futureTreasuryDelta :=
    BigIntOf (transition.@"planned_presale_inventory_funding") +
    BigIntOf (transition.@"planned_btc_void_market_funding") +
    BigIntOf (transition.@"planned_ops_treasury_funding") +
    BigIntOf (transition.@"planned_validator_stake_delta") in
  throw_if (negb (futureTreasuryDelta =? BigIntOf (transition.@"combined_future_treasury_delta")))
    "future treasury deltas do not match their combined total";;
  throw_if (negb (BigIntOf (transition.@"reconciled_void_treasury") - futureTreasuryDelta =?
      BigIntOf (amounts.@"core_void_treasury")))
    "VoidTreasury transition does not reach its target";;
  Ok (extend target "allocation_conserved" true).

Definition validatePurposeVaultTargetV1 : res json :=
  validatePurposeVaultTarget VOID_PREMINE_PURPOSE_VAULT_TARGET_V1.

(** ** Buyback lots *)

Definition is_sha256_value (v : json) : bool := match v with JStr s => is_sha256_id s | _ => false end.
Definition is_hex64_value (v : json) : bool := match v with JStr s => is_hex64 s | _ => false end.

Definition sourceSaleIdentityPayload (settlement : json) : json :=
  JObj [
    "schema" ~> "void.btc_void.source_sale_receipt.v1";
    "direction" ~> settlement.@"direction";
    "bitcoin_network" ~> settlement.@"bitcoin_network";
    "bitcoin_funding_txid" ~> settlement.@"bitcoin_funding_txid";
    "bitcoin_funding_vout" ~> settlement.@"bitcoin_funding_vout";
    "void_chain_id" ~> settlement.@"void_chain_id";
    "void_network_identity" ~> settlement.@"void_network_identity";
    "void_settlement_receipt_id" ~> settlement.@"void_settlement_receipt_id";
    "btc_received_sats" ~> settlement.@"btc_received_sats";
    "void_sold_atomic" ~> settlement.@"void_sold_atomic"].

(** The numbers read from a settlement. *)
Record SettlementNumbers := mkSettlementNumbers {
  bitcoinFundingVout : Z;
  bitcoinConfirmedBlockHeight : Z;
  bitcoinObservedTipHeight : Z;
  btcReceived : Z;
  voidSold : Z;
  observedConfirmations : Z;
  requiredConfirmations : Z
}.

Definition SETTLEMENT_KEYS : list string := [
  "source_sale_id"; "direction"; "status"; "bitcoin_network"; "bitcoin_funding_txid";
  "bitcoin_funding_vout"; "bitcoin_confirmed_block_hash"; "bitcoin_confirmed_block_height";
  "bitcoin_observed_tip_hash"; "bitcoin_observed_tip_height"; "void_chain_id";
  "void_network_identity"; "void_settlement_receipt_id"; "btc_received_sats";
  "void_sold_atomic"; "observed_bitcoin_confirmations"; "required_bitcoin_confirmations"]%string.

Definition checkSettlement (settlement : json) : res SettlementNumbers :=
  throw_if (negb (is_sha256_value (settlement.@"source_sale_id")))
    "settlement.source_sale_id must be a canonical sha256 identity";;
  throw_if (settlement.@"direction" !== "btc_to_void")
    "only settled BTC-to-VOID sales create v1 buyback lots";;
  throw_if (settlement.@"status" !== "settled")
    "BTC proceeds are not bid-eligible before terminal settlement";;
  throw_if (settlement.@"bitcoin_network" !== "bitcoin_mainnet")
    "official reserve lots require bitcoin_mainnet";;
  throw_if (negb (is_hex64_value (settlement.@"bitcoin_funding_txid")))
    "settlement.bitcoin_funding_txid must be lowercase hex64";;
  vout ← integer (settlement.@"bitcoin_funding_vout") "settlement.bitcoin_funding_vout" 0 MAX_BITCOIN_VOUT;
  throw_if (negb (is_hex64_value (settlement.@"bitcoin_confirmed_block_hash")))
    "settlement.bitcoin_confirmed_block_hash must be lowercase hex64";;
  throw_if (negb (is_hex64_value (settlement.@"bitcoin_observed_tip_hash")))
    "settlement.bitcoin_observed_tip_hash must be lowercase hex64";;
  confirmedHeight ← integer (settlement.@"bitcoin_confirmed_block_height")
    "settlement.bitcoin_confirmed_block_height" 0 MAX_BITCOIN_BLOCK_HEIGHT;
  tipHeight ← integer (settlement.@"bitcoin_observed_tip_height")
    "settlement.bitcoin_observed_tip_height" 0 MAX_BITCOIN_BLOCK_HEIGHT;
  throw_if (tipHeight <? confirmedHeight)
    "Bitcoin observation tip predates the confirmed funding block";;
  throw_if (settlement.@"void_chain_id" !== jint 2050) "official reserve lots require Chain-2050";;
  throw_if (settlement.@"void_network_identity" !== "mainnet0")
    "official reserve lots require VOID mainnet0";;
  throw_if (negb (is_sha256_value (settlement.@"void_settlement_receipt_id")))
    "settlement.void_settlement_receipt_id must be a canonical sha256 identity";;
  btcReceived ← atomic (settlement.@"btc_received_sats") "settlement.btc_received_sats" false;
  voidSold ← atomic (settlement.@"void_sold_atomic") "settlement.void_sold_atomic" false;
  observed ← integer (settlement.@"observed_bitcoin_confirmations")
    "settlement.observed_bitcoin_confirmations" 0 MAX_CONFIRMATIONS;
  throw_if (negb (observed =? tipHeight - confirmedHeight + 1))
    "observed Bitcoin confirmations do not match bound block heights";;
  required ← integer (settlement.@"required_bitcoin_confirmations")
    "settlement.required_bitcoin_confirmations" 1 MAX_CONFIRMATIONS;
  throw_if (observed <? required) "BTC proceeds have insufficient Bitcoin confirmations";;
  Ok (mkSettlementNumbers vout confirmedHeight tipHeight btcReceived voidSold observed required).

Definition checkPolicy (policy : json) : res Z :=
  minimumSpreadBps ← integer (policy.@"minimum_spread_bps") "policy.minimum_spread_bps" 1 MAX_SPREAD_BPS;
  throw_if (negb (minimumSpreadBps =? VOID_BTC_VOID_V1_MINIMUM_SPREAD_BPS))
    "v1 minimum spread must be exactly 100 basis points";;
  networkFeeReserve ← atomic (policy.@"bitcoin_network_fee_reserve_sats")
    "policy.bitcoin_network_fee_reserve_sats" true;
  throw_if (negb (networkFeeReserve =? 0))
    "standing Bitcoin network-fee reserve is forbidden; executable swaps must fund Bitcoin fees from their own BTC leg";;
  Ok minimumSpreadBps.

Definition settlementJson (settlement : json) (n : SettlementNumbers) : json :=
  JObj [
    "source_sale_id" ~> settlement.@"source_sale_id";
    "direction" ~> settlement.@"direction";
    "status" ~> settlement.@"status";
    "bitcoin_network" ~> settlement.@"bitcoin_network";
    "bitcoin_funding_txid" ~> settlement.@"bitcoin_funding_txid";
    "bitcoin_funding_vout" ~> jint n.(bitcoinFundingVout);
    "bitcoin_confirmed_block_hash" ~> settlement.@"bitcoin_confirmed_block_hash";
    "bitcoin_confirmed_block_height" ~> jint n.(bitcoinConfirmedBlockHeight);
    "bitcoin_observed_tip_hash" ~> settlement.@"bitcoin_observed_tip_hash";
    "bitcoin_observed_tip_height" ~> jint n.(bitcoinObservedTipHeight);
    "void_chain_id" ~> settlement.@"void_chain_id";
    "void_network_identity" ~> settlement.@"void_network_identity";
    "void_settlement_receipt_id" ~> settlement.@"void_settlement_receipt_id";
    "btc_received_sats" ~> dec n.(btcReceived);
    "void_sold_atomic" ~> dec n.(voidSold);
    "observed_bitcoin_confirmations" ~> jint n.(observedConfirmations);
    "required_bitcoin_confirmations" ~> jint n.(requiredConfirmations)].

(** The object [normalizeRequest] returns ([networkFeeReserve] is zero there). *)
Record NormalizedLotRequest := mkNormalizedLotRequest {
  lr_request : json;
  lr_btcReceived : Z;
  lr_voidSold : Z;
  lr_minimumSpreadBps : Z
}.

Section reserve_policy.
Context {H : Digest}.

Definition normalizeRequest (raw : json) : res NormalizedLotRequest :=
  request ← exactKeys raw ["schema"; "settlement"; "policy"]%string "reserve-recycling request";
  throw_if (request.@"schema" !== "void.btc_void.reserve_recycling_request.v1")
    "reserve-recycling request schema mismatch";;
  settlement ← exactKeys (request.@"settlement") SETTLEMENT_KEYS "settlement";
  policy ← exactKeys (request.@"policy")
    ["minimum_spread_bps"; "bitcoin_network_fee_reserve_sats"]%string "policy";
  numbers ← checkSettlement settlement;
  minimumSpreadBps ← checkPolicy policy;
  let normalizedSettlement := settlementJson settlement numbers in
  let expectedSourceSaleId := contentId (sourceSaleIdentityPayload normalizedSettlement) in
  throw_if (normalizedSettlement.@"source_sale_id" !== expectedSourceSaleId)
    "settlement.source_sale_id does not match canonical settled-sale content";;
  Ok (mkNormalizedLotRequest
    (JObj [
      "schema" ~> request.@"schema";
      "settlement" ~> normalizedSettlement;
      "policy" ~> JObj [
        "minimum_spread_bps" ~> jint minimumSpreadBps;
        "bitcoin_network_fee_reserve_sats" ~> dec 0]])
    numbers.(btcReceived) numbers.(voidSold) minimumSpreadBps).

Definition lotMarket : json :=
  JObj [
      "pair" ~> "BTC_VOID";
      "bitcoin_asset" ~> "native_btc";
      "bitcoin_network" ~> "bitcoin_mainnet";
      "void_asset" ~> "canonical_chain2050_voidtoken";
      "void_chain_id" ~> jint 2050;
      "void_network_identity" ~> "mainnet0";
      "settlement" ~> "btc_to_chain2050_voidtoken_atomic";
      "pricing_basis" ~> "native_btc_sats_per_voidtoken_atomic_only";
      "fiat_or_usd_value_used" ~> false;
      "external_price_oracle_used" ~> false].

Definition lotLifecycle : json :=
  JObj [
      "source_sale_content_address_verified" ~> true;
      "pending_or_unconfirmed_btc_bid_eligible" ~> false;
      "settled_confirmed_btc_bid_eligible" ~> true;
      "duplicate_source_sale_creates_second_lot" ~> false;
      "conflicting_source_sale_plan_requires_hold" ~> true;
      "unused_bid_budget_remains_market_reserve" ~> true;
      "completed_buyback_returns_void_to_market_inventory" ~> true;
      "opening_bid_requires_existing_confirmed_btc_or_first_confirmed_sale" ~> true;
      "opening_btc_seed_authorized_by_this_plan" ~> false].

Definition lotAuthority : json :=
  JObj [
      "source_only_plan" ~> true;
      "reserve_state_mutated" ~> false;
      "inventory_reserved" ~> false;
      "wallet_or_signer_accessed" ~> false;
      "transaction_constructed" ~> false;
      "transaction_broadcast" ~> false;
      "ops_treasury_sweep_authorized" ~> false;
      "leverage_or_credit_authorized" ~> false;
      "funds_moved" ~> false].

Definition buybackLotId (sourceSaleId : json) : string :=
  contentId (JObj [
    "schema" ~> "void.btc_void.buyback_lot_identity.v1";
    "source_sale_id" ~> sourceSaleId]).

Definition renderPlan (normalized : NormalizedLotRequest) (bidBudget spreadEquity : Z) : json :=
  let source_sale_id := normalized.(lr_request).@"settlement".@"source_sale_id" in
  JObj [
    "schema" ~> "void.btc_void.buyback_lot_plan.v1";
    "marker" ~> VOID_BTC_VOID_MARKET_MAKER_RESERVE_POLICY_V1;
    "buyback_lot_id" ~> buybackLotId source_sale_id;
    "market" ~> lotMarket;
    "source" ~> normalized.(lr_request);
    "reserve_recycling" ~> JObj [
      "confirmed_btc_added_to_market_reserve_sats" ~> dec normalized.(lr_btcReceived);
      "automatic_bid_budget_sats" ~> dec bidBudget;
      "bitcoin_network_fee_reserve_sats" ~> "0";
      "network_fees_trade_funded" ~> true;
      "retained_spread_equity_sats" ~> dec spreadEquity;
      "automatic_ops_treasury_sweep_sats" ~> "0";
      "proceeds_conserved" ~> true];
    "buyback_lot" ~> JObj [
      "source_sale_id" ~> source_sale_id;
      "target_void_atomic" ~> dec normalized.(lr_voidSold);
      "maximum_btc_out_sats" ~> dec bidBudget;
      "maximum_bid_price" ~> JObj [
        "btc_sats_numerator" ~> dec bidBudget;
        "void_atomic_denominator" ~> dec normalized.(lr_voidSold)];
      "source_sale_effective_price" ~> JObj [
        "btc_sats_numerator" ~> dec normalized.(lr_btcReceived);
        "void_atomic_denominator" ~> dec normalized.(lr_voidSold)];
      "full_source_lot_round_trip_btc_out_lt_btc_received" ~> true;
      "fill_rule" ~> "actual_btc_out_must_not_exceed_curve_quote_or_remaining_lot_budget";
      "reacquired_void_destination" ~> "btc_void_market_vault"];
    "lifecycle" ~> lotLifecycle;
    "authority" ~> lotAuthority].

Definition deriveBtcVoidBuybackLotV1 (raw : json) : res json :=
  normalized ← normalizeRequest raw;
  let netProceeds := normalized.(lr_btcReceived) in
  let bidFactor := BPS_DENOMINATOR - normalized.(lr_minimumSpreadBps) in
  let bidBudget := (netProceeds * bidFactor) ÷ BPS_DENOMINATOR in
  throw_if ((bidBudget =? 0) || (bidBudget >=? netProceeds))
    "spread policy did not create a lower nonzero buyback budget";;
  let spreadEquity := netProceeds - bidBudget in
  throw_if (negb (bidBudget + spreadEquity =? normalized.(lr_btcReceived)))
    "BTC reserve classification does not conserve sale proceeds";;
  let plan := renderPlan normalized bidBudget spreadEquity in
  Ok (extend plan "buyback_lot_plan_id" (contentId plan)).
End reserve_policy.

(** The target of the repository conserves the premine. *)
Example purpose_vault_target_valid :
  validatePurposeVaultTargetV1 =
  Ok (extend VOID_PREMINE_PURPOSE_VAULT_TARGET_V1 "allocation_conserved" true).
Proof. vm_compute. reflexivity. Qed.

(** ** Facts about accepted settlements *)

Record settlement_ok (s : json) (n : SettlementNumbers) : Prop := {
  so_sale_id : is_sha256_value (s.@"source_sale_id") = true;
  so_direction : s.@"direction" = JStr "btc_to_void";
  so_status : s.@"status" = JStr "settled";
  so_network : s.@"bitcoin_network" = JStr "bitcoin_mainnet";
  so_txid : is_hex64_value (s.@"bitcoin_funding_txid") = true;
  so_block_hash : is_hex64_value (s.@"bitcoin_confirmed_block_hash") = true;
  so_tip_hash : is_hex64_value (s.@"bitcoin_observed_tip_hash") = true;
  so_chain : s.@"void_chain_id" = jint 2050;
  so_void_network : s.@"void_network_identity" = JStr "mainnet0";
  so_receipt : is_sha256_value (s.@"void_settlement_receipt_id") = true;
  so_vout : 0 <= n.(bitcoinFundingVout) <= MAX_BITCOIN_VOUT;
  so_heights : 0 <= n.(bitcoinConfirmedBlockHeight) <= n.(bitcoinObservedTipHeight) /\
    n.(bitcoinObservedTipHeight) <= MAX_BITCOIN_BLOCK_HEIGHT;
  so_received : 0 < n.(btcReceived) <= MAX_ATOMIC_VALUE;
  so_sold : 0 < n.(voidSold) <= MAX_ATOMIC_VALUE;
  so_observed : n.(observedConfirmations) =
    n.(bitcoinObservedTipHeight) - n.(bitcoinConfirmedBlockHeight) + 1 /\
    n.(observedConfirmations) <= MAX_CONFIRMATIONS;
  so_required : 1 <= n.(requiredConfirmations) <= n.(observedConfirmations);
  so_vout_read : s.@"bitcoin_funding_vout" = jint n.(bitcoinFundingVout);
  so_confirmed_read : s.@"bitcoin_confirmed_block_height" = jint n.(bitcoinConfirmedBlockHeight);
  so_tip_read : s.@"bitcoin_observed_tip_height" = jint n.(bitcoinObservedTipHeight);
  so_required_read : s.@"required_bitcoin_confirmations" = jint n.(requiredConfirmations);
  so_received_read : s.@"btc_received_sats" = JStr (dec n.(btcReceived));
  so_sold_read : s.@"void_sold_atomic" = JStr (dec n.(voidSold))
}.

Lemma checkSettlement_ok s n : checkSettlement s = Ok n -> settlement_ok s n.
Proof.
  unfold checkSettlement. intros Hs. inv_ok. js_eqs. js_facts.
  constructor; simpl; try done; assert (false = false) by done; intuition lia.
Qed.

(** The normalized settlement passes the same checks with the same numbers. *)
Lemma checkSettlement_normal s n : settlement_ok s n -> checkSettlement (settlementJson s n) = Ok n.
Proof.
  intros Hs. destruct n, Hs as [? Hd Hst Hnet ? ? ? Hch Hvn ? ? ? ? ? ? ? _ _ _ _ _ _]. simpl in *.
  unfold MAX_BITCOIN_VOUT, MAX_BITCOIN_BLOCK_HEIGHT, MAX_CONFIRMATIONS in *.
  unfold checkSettlement, MAX_BITCOIN_VOUT, MAX_BITCOIN_BLOCK_HEIGHT, MAX_CONFIRMATIONS.
  js_run; try done; simpl; rewrite ?Hd, ?Hst, ?Hnet, ?Hch, ?Hvn; simpl;
    try (by apply negb_false_iff); try lia; unfold MAX_SAFE_INTEGER; lia.
Qed.

Lemma settlementJson_idem s n : settlementJson (settlementJson s n) n = settlementJson s n.
Proof. reflexivity. Qed.

(** The numbers of the normalized settlement are those of the request, so both
    have the same sale identity. *)
Lemma sale_payload_read s n : settlement_ok s n ->
  sourceSaleIdentityPayload (settlementJson s n) = sourceSaleIdentityPayload s.
Proof.
  intros []. unfold sourceSaleIdentityPayload, settlementJson. cbn -[dec prop]. simpl prop.
  by rewrite so_vout_read0, so_received_read0, so_sold_read0.
Qed.

Section plan_properties.
Context {H : Digest}.

(** The normalized request for a settlement. *)
Definition lotRequestJson (s : json) (n : SettlementNumbers) : json :=
  JObj [
    "schema" ~> "void.btc_void.reserve_recycling_request.v1";
    "settlement" ~> settlementJson s n;
    "policy" ~> JObj [
      "minimum_spread_bps" ~> jint 100;
      "bitcoin_network_fee_reserve_sats" ~> dec 0]].

Definition sale_id_bound (s : json) (n : SettlementNumbers) : Prop :=
  s.@"source_sale_id" = JStr (contentId (sourceSaleIdentityPayload (settlementJson s n))).

Lemma normalizeRequest_lot raw r : normalizeRequest raw = Ok r ->
  exists s n, s = raw.@"settlement" /\ settlement_ok s n /\ sale_id_bound s n /\
    r = mkNormalizedLotRequest (lotRequestJson s n) n.(btcReceived) n.(voidSold) 100.
Proof.
  unfold normalizeRequest, checkPolicy. intros Hr. inv_ok. js_eqs. js_facts. subst.
  repeat match goal with
  | Hc : checkSettlement _ = Ok _ |- _ => apply checkSettlement_ok in Hc
  | Hc : (_ =? _) = true |- _ => apply Z.eqb_eq in Hc
  end.
  eexists _, _. split; [reflexivity|]. split; [eassumption|]. split; [eassumption|].
  match goal with He : _ = VOID_BTC_VOID_V1_MINIMUM_SPREAD_BPS |- _ => rewrite He end.
  unfold lotRequestJson. repeat f_equal. congruence.
Qed.

Lemma normalizeRequest_normal s n : settlement_ok s n -> sale_id_bound s n ->
  normalizeRequest (lotRequestJson s n) =
  Ok (mkNormalizedLotRequest (lotRequestJson s n) n.(btcReceived) n.(voidSold) 100).
Proof.
  intros Hs Hid. unfold normalizeRequest. js_run.
  change ((lotRequestJson s n).@"settlement") with (settlementJson s n).
  rewrite checkSettlement_normal by done. cbn [mbind res_bind].
  change (checkPolicy _) with (Ok 100). cbn [mbind res_bind].
  rewrite settlementJson_idem. js_run; [|reflexivity].
  apply negb_false_iff, strict_eq_str. exact Hid.
Qed.

Lemma derive_lot_inv raw plan : deriveBtcVoidBuybackLotV1 raw = Ok plan ->
  exists s n bid, s = raw.@"settlement" /\ settlement_ok s n /\ sale_id_bound s n /\
    bid = (n.(btcReceived) * 9900) ÷ 10000 /\ 0 < bid < n.(btcReceived) /\
    let body := renderPlan (mkNormalizedLotRequest (lotRequestJson s n)
      n.(btcReceived) n.(voidSold) 100) bid (n.(btcReceived) - bid) in
    plan = extend body "buyback_lot_plan_id" (contentId body).
Proof.
  unfold deriveBtcVoidBuybackLotV1. intros Hp.
  apply bind_Ok in Hp as (r & (s & n & Hraw & Hs & Hid & ->)%normalizeRequest_lot & Hp).
  cbn [lr_btcReceived lr_minimumSpreadBps] in Hp.
  unfold BPS_DENOMINATOR in Hp. change (10000 - 100) with 9900 in Hp. inv_ok. bool_prop.
  eexists _, n, _. do 4 (split; [done|]). split; [|reflexivity].
  destruct Hs. pose proof (quot_floor (n.(btcReceived) * 9900) 10000). lia.
Qed.

Lemma derive_lot_normal s n : settlement_ok s n -> sale_id_bound s n -> 1 < n.(btcReceived) ->
  deriveBtcVoidBuybackLotV1 (lotRequestJson s n) =
  let bid := (n.(btcReceived) * 9900) ÷ 10000 in
  let body := renderPlan (mkNormalizedLotRequest (lotRequestJson s n)
    n.(btcReceived) n.(voidSold) 100) bid (n.(btcReceived) - bid) in
  Ok (extend body "buyback_lot_plan_id" (contentId body)).
Proof.
  intros Hs Hid Hr. unfold deriveBtcVoidBuybackLotV1. rewrite normalizeRequest_normal by done.
  cbn [mbind res_bind lr_btcReceived lr_minimumSpreadBps]. unfold BPS_DENOMINATOR.
  change (10000 - 100) with 9900.
  pose proof (quot_floor (n.(btcReceived) * 9900) 10000).
  js_run; [lia|lia|reflexivity].
Qed.

(** The identity fields of a plan are strings computed from its sale. *)
Lemma derive_lot_ids raw plan : deriveBtcVoidBuybackLotV1 raw = Ok plan ->
  plan.@"source".@"settlement".@"source_sale_id" = raw.@"settlement".@"source_sale_id" /\
  is_sha256_value (raw.@"settlement".@"source_sale_id") = true /\
  plan.@"buyback_lot_id" = JStr (buybackLotId (raw.@"settlement".@"source_sale_id")) /\
  plan.@"buyback_lot_plan_id" = JStr (contentId (omit plan "buyback_lot_plan_id")) /\
  NoDup (object_keys plan).
Proof.
  intros (s & n & bid & <- & Hs & _ & _ & _ & ->)%derive_lot_inv. destruct Hs.
  repeat (split; [done|]). apply (bool_decide_eq_true _). reflexivity.
Qed.

(** The bid budget is nonzero and below the proceeds the plan records. *)
Lemma derive_lot_bid_below raw plan z : deriveBtcVoidBuybackLotV1 raw = Ok plan ->
  plan.@"source".@"settlement".@"btc_received_sats" = JStr (dec z) ->
  0 < BigIntOf (plan.@"reserve_recycling".@"automatic_bid_budget_sats") < BigIntOf (JStr (dec z)).
Proof.
  intros (s & n & bid & _ & Hs & _ & _ & Hr & ->)%derive_lot_inv. destruct Hs.
  cbn -[dec BigInt contentId]. intros [= <-]. rewrite !BigInt_dec by lia. lia.
Qed.

Lemma sha256_value_str v : is_sha256_value v = true -> exists t, v = JStr t /\ is_sha256_id t = true.
Proof. destruct v; try discriminate. eauto. Qed.

Lemma hex64_value_str v : is_hex64_value v = true -> exists t, v = JStr t /\ is_hex64 t = true.
Proof. destruct v; try discriminate. eauto. Qed.

Lemma safe_printable z : Z.abs z <= MAX_SAFE_INTEGER -> printable (jint z) = true.
Proof.
  intros. simpl. apply bool_decide_eq_true. exists z. by apply (as_safe_integer_Some (jint z)).
Qed.

(** Plans are plain JSON: they print canonically and have no array-index keys. *)
Lemma derive_lot_plain raw plan : deriveBtcVoidBuybackLotV1 raw = Ok plan ->
  printable plan = true /\ no_index_keys plan = true.
Proof.
  intros (s & n & bid & _ & Hs & _ & _ & _ & ->)%derive_lot_inv. destruct Hs.
  repeat match goal with
  | Hv : is_sha256_value _ = true |- _ => apply sha256_value_str in Hv as (? & Hv & _)
  | Hv : is_hex64_value _ = true |- _ => apply hex64_value_str in Hv as (? & Hv & _)
  end.
  unfold renderPlan, lotRequestJson, settlementJson. cbn [lr_request lr_btcReceived lr_voidSold].
  rewrite so_sale_id0, so_direction0, so_status0, so_network0, so_txid0, so_block_hash0,
    so_tip_hash0, so_chain0, so_void_network0, so_receipt0.
  unfold MAX_BITCOIN_VOUT, MAX_BITCOIN_BLOCK_HEIGHT, MAX_CONFIRMATIONS in *.
  assert (forall z, 0 <= z <= 4294967295 -> printable (jint z) = true) as Hz
    by (intros; apply safe_printable; unfold MAX_SAFE_INTEGER; lia).
  split; [|reflexivity].
  change (printable (jint 2050)) with true.
  cbn -[printable jint contentId dec buybackLotId].
  cbn [printable forallb snd app lotMarket lotLifecycle lotAuthority andb].
  rewrite !Hz by lia. reflexivity.
Qed.

(** The plan identity binds the plan: two plans with one identity have one normal
    form, or their two texts collide. *)
Lemma plan_identity_binds raw1 raw2 plan1 plan2 :
  deriveBtcVoidBuybackLotV1 raw1 = Ok plan1 -> deriveBtcVoidBuybackLotV1 raw2 = Ok plan2 ->
  plan1.@"buyback_lot_plan_id" = plan2.@"buyback_lot_plan_id" ->
  norm plan1 = norm plan2 \/ collides (canonicalJson (omit plan1 "buyback_lot_plan_id"))
    (canonicalJson (omit plan2 "buyback_lot_plan_id")).
Proof.
  intros H1 H2 Hid.
  destruct (derive_lot_plain _ _ H1) as [Hp1 Hk1], (derive_lot_plain _ _ H2) as [Hp2 Hk2].
  apply derive_lot_inv in H1 as (s1 & n1 & b1 & _ & _ & _ & _ & _ & ->).
  apply derive_lot_inv in H2 as (s2 & n2 & b2 & _ & _ & _ & _ & _ & ->).
  assert (forall a b : string, JStr a = JStr b -> a = b) as inj by congruence.
  apply (inj (contentId _) (contentId _)) in Hid as Hc. destruct (contentId_binds _ _ Hc) as [Htext|Hcol].
  2: { right. unfold renderPlan in *. rewrite !omit_extend by (apply (bool_decide_unpack _); exact I). exact Hcol. }
  left.
  rewrite Hc. apply norm_extend.
  - apply (bool_decide_eq_true _). reflexivity.
  - apply (bool_decide_eq_true _). reflexivity.
  - apply canonicalJson_inj; [..|exact Htext];
      (eapply printable_extend + eapply no_index_keys_extend); eassumption.
Qed.

(** C20: The bid budget of a buyback lot is the largest amount that keeps the one
    percent spread, it is a nonzero amount strictly below the sale's proceeds, bid
    budget and retained spread add up to the proceeds exactly, and the maximum bid
    price of the lot is strictly below the price of the source sale. *)
Theorem lot_conserves_proceeds raw plan : deriveBtcVoidBuybackLotV1 raw = Ok plan ->
  let rr := plan.@"reserve_recycling" in
  let lot := plan.@"buyback_lot" in
  let received := BigIntOf (rr.@"confirmed_btc_added_to_market_reserve_sats") in
  let bid := BigIntOf (rr.@"automatic_bid_budget_sats") in
  let spread := BigIntOf (rr.@"retained_spread_equity_sats") in
  let bidPrice := lot.@"maximum_bid_price" in
  let salePrice := lot.@"source_sale_effective_price" in
  BigIntOf (raw.@"settlement".@"btc_received_sats") = received /\
  bid + spread = received /\ 0 < bid < received /\
  (forall b, 0 <= b -> b <= bid <-> b * 10000 <= received * 9900) /\
  BigIntOf (lot.@"maximum_btc_out_sats") = bid /\
  BigIntOf (bidPrice.@"btc_sats_numerator") * BigIntOf (salePrice.@"void_atomic_denominator") <
  BigIntOf (salePrice.@"btc_sats_numerator") * BigIntOf (bidPrice.@"void_atomic_denominator").
Proof.
  intros (s & n & bid & <- & Hs & _ & Hbid & Hr & ->)%derive_lot_inv. cbn zeta.
  rewrite (so_received_read _ _ Hs).
  destruct Hs. cbn -[dec BigInt contentId]. rewrite !BigInt_dec by lia.
  repeat split; try lia; try nia.
  - intros Hb. pose proof (quot_le_iff (n.(btcReceived) * 9900) 10000 b). lia.
  - intros Hb. pose proof (quot_le_iff (n.(btcReceived) * 9900) 10000 b). lia.
Qed.

(** On a request that passes normalization the plan is derived unless the sale
    brought exactly one satoshi; the only error then is the spread error, and the
    conservation check behind it never fires. *)
Theorem lot_spread_error_iff raw r : normalizeRequest raw = Ok r ->
  (r.(lr_btcReceived) = 1 /\ deriveBtcVoidBuybackLotV1 raw =
     Throw "spread policy did not create a lower nonzero buyback budget") \/
  (1 < r.(lr_btcReceived) /\ exists plan, deriveBtcVoidBuybackLotV1 raw = Ok plan).
Proof.
  intros Hr. unfold deriveBtcVoidBuybackLotV1. rewrite Hr. cbn [mbind res_bind].
  apply normalizeRequest_lot in Hr as (s & n & _ & Hs & _ & ->).
  cbn [lr_btcReceived lr_minimumSpreadBps]. unfold BPS_DENOMINATOR.
  change (10000 - 100) with 9900. destruct Hs.
  destruct (Z.eq_dec n.(btcReceived) 1) as [->|]; [left; done|right].
  pose proof (quot_floor (n.(btcReceived) * 9900) 10000).
  split; [lia|]. eexists. js_run; [lia|lia|reflexivity].
Qed.

(** A buyback plan can be checked from its own [source] field: deriving a plan
    from the recorded request reproduces the plan, content identities included. *)
Theorem lot_plan_replays raw plan : deriveBtcVoidBuybackLotV1 raw = Ok plan ->
  deriveBtcVoidBuybackLotV1 (plan.@"source") = Ok plan.
Proof.
  intros (s & n & bid & _ & Hs & Hid & -> & Hr & ->)%derive_lot_inv.
  etransitivity; [apply (derive_lot_normal s n Hs Hid)|reflexivity].
  destruct Hs. pose proof (quot_floor (n.(btcReceived) * 9900) 10000). lia.
Qed.

(** BTC proceeds become bid-eligible only after settlement: a plan exists only
    for a settled btc_to_void sale on Bitcoin mainnet and Chain-2050 mainnet0 whose
    confirmations, counted from its block and the observed tip, reach the required
    number, and whose sale identity is the content identity of the sale. *)
Theorem lot_requires_final_settlement raw plan : deriveBtcVoidBuybackLotV1 raw = Ok plan ->
  let s := raw.@"settlement" in
  exists confirmed tip required,
    s.@"status" = JStr "settled" /\ s.@"direction" = JStr "btc_to_void" /\
    s.@"bitcoin_network" = JStr "bitcoin_mainnet" /\
    s.@"void_chain_id" = jint 2050 /\ s.@"void_network_identity" = JStr "mainnet0" /\
    s.@"bitcoin_confirmed_block_height" = jint confirmed /\
    s.@"bitcoin_observed_tip_height" = jint tip /\
    s.@"required_bitcoin_confirmations" = jint required /\
    1 <= required <= tip - confirmed + 1 /\
    s.@"source_sale_id" = JStr (contentId (sourceSaleIdentityPayload s)).
Proof.
  intros (s & n & bid & <- & Hs & Hid & _ & _ & _)%derive_lot_inv. cbn zeta.
  unfold sale_id_bound in Hid. rewrite (sale_payload_read s n Hs) in Hid. destruct Hs.
  exists n.(bitcoinConfirmedBlockHeight), n.(bitcoinObservedTipHeight), n.(requiredConfirmations).
  repeat (split; [done || lia|]). exact Hid.
Qed.
End plan_properties.

(** ** A settled sale *)

Definition sale_settlement {H : Digest} (btc void : string) : json :=
  let hash := "00000000000000000000000000000000000000000000000000000000000000aa"%string in
  let base := JObj [
    "direction" ~> "btc_to_void";
    "status" ~> "settled";
    "bitcoin_network" ~> "bitcoin_mainnet";
    "bitcoin_funding_txid" ~> hash;
    "bitcoin_funding_vout" ~> jint 1;
    "bitcoin_confirmed_block_hash" ~> hash;
    "bitcoin_confirmed_block_height" ~> jint 900000;
    "bitcoin_observed_tip_hash" ~> hash;
    "bitcoin_observed_tip_height" ~> jint 900005;
    "void_chain_id" ~> jint 2050;
    "void_network_identity" ~> "mainnet0";
    "void_settlement_receipt_id" ~> ("sha256:" +:+ hash);
    "btc_received_sats" ~> btc;
    "void_sold_atomic" ~> void;
    "observed_bitcoin_confirmations" ~> jint 6;
    "required_bitcoin_confirmations" ~> jint 6] in
  extend base "source_sale_id" (contentId (sourceSaleIdentityPayload base)).

Definition sample_settlement {H : Digest} : json := sale_settlement "100001" "5000000".

Definition lot_request (settlement : json) : json :=
  JObj [
    "schema" ~> "void.btc_void.reserve_recycling_request.v1";
    "settlement" ~> settlement;
    "policy" ~> JObj [
      "minimum_spread_bps" ~> jint 100;
      "bitcoin_network_fee_reserve_sats" ~> "0"]].

Definition sample_lot_request {H : Digest} : json := lot_request sample_settlement.

Lemma lot_conserves_proceeds_witness :
  match deriveBtcVoidBuybackLotV1 sample_lot_request with
  | Ok plan =>
      BigIntOf (plan.@"reserve_recycling".@"automatic_bid_budget_sats") +
      BigIntOf (plan.@"reserve_recycling".@"retained_spread_equity_sats") = 100001
  | Throw _ => False
  end.
Proof.
  run_ok (deriveBtcVoidBuybackLotV1 sample_lot_request) E.
  destruct (lot_conserves_proceeds sample_lot_request _ E) as (Hr & -> & _).
  rewrite <- Hr. vm_compute. reflexivity.
Defined.

Lemma lot_spread_error_iff_witness :
  match normalizeRequest sample_lot_request with
  | Ok r => 1 < r.(lr_btcReceived) /\
      exists plan, deriveBtcVoidBuybackLotV1 sample_lot_request = Ok plan
  | Throw _ => False
  end.
Proof.
  run_ok (normalizeRequest sample_lot_request) E.
  destruct (lot_spread_error_iff sample_lot_request _ E) as [[Hone _]|Hok]; [|exact Hok].
  exfalso. assert (100001 = lr_btcReceived out) as Hv by run_field E lr_btcReceived. lia.
Defined.

Lemma lot_plan_replays_witness :
  match deriveBtcVoidBuybackLotV1 sample_lot_request with
  | Ok plan => deriveBtcVoidBuybackLotV1 (plan.@"source") = Ok plan
  | Throw _ => False
  end.
Proof.
  run_ok (deriveBtcVoidBuybackLotV1 sample_lot_request) E.
  exact (lot_plan_replays sample_lot_request _ E).
Defined.

Lemma lot_requires_final_settlement_witness :
  match deriveBtcVoidBuybackLotV1 sample_lot_request with
  | Ok _ => sample_settlement.@"source_sale_id" =
      JStr (contentId (sourceSaleIdentityPayload sample_settlement))
  | Throw _ => False
  end.
Proof.
  run_ok (deriveBtcVoidBuybackLotV1 sample_lot_request) E.
  destruct (lot_requires_final_settlement sample_lot_request _ E)
    as (? & ? & ? & _ & _ & _ & _ & _ & _ & _ & _ & _ & Hid).
  exact Hid.
Defined.
