(* ===== verification/BuybackJournal.v ===== *)
(** * The buyback-lot journal transition

    Model of [tools/void-btc-void-buyback-lot-journal-transition-v1.mjs]: the
    append-only journal of accepted buyback plans.  A request carries the whole
    journal and one candidate plan; the decision creates an entry, recognises the
    plan as already accepted, or holds because the lot is bound to another plan.
    The theorems follow a journal through any sequence of decisions. *)

From S2P Require Import Prelude Js CanonicalJson Sha256 ReservePolicy.

Definition VOID_BTC_VOID_BUYBACK_LOT_JOURNAL_TRANSITION_V1 : string :=
  "VOID_BTC_VOID_BUYBACK_LOT_JOURNAL_TRANSITION_V1".
Definition JOURNAL_ENTRY_SCHEMA : string := "void.btc_void.buyback_lot_journal_entry.v1".
Definition TRANSITION_REQUEST_SCHEMA : string :=
  "void.btc_void.buyback_lot_journal_transition_request.v1".
Definition TRANSITION_DECISION_SCHEMA : string :=
  "void.btc_void.buyback_lot_journal_transition_decision.v1".
Definition JOURNAL_SNAPSHOT_SCHEMA : string := "void.btc_void.buyback_lot_journal_snapshot.v1".
Definition MAX_JOURNAL_ENTRIES : Z := 10000.

Definition sha256Id (value : json) (label : string) : res json :=
  throw_if (negb (is_sha256_value value)) (label +:+ " must be a canonical sha256 identity");;
  Ok value.

(** The text of an identity that [sha256Id] accepted. *)
Definition id_text (v : json) : string := match v with JStr s => s | _ => EmptyString end.

Definition ENTRY_KEYS : list string := [
  "schema"; "marker"; "reserve_policy_marker"; "buyback_lot_id"; "buyback_lot_plan_id";
  "source_sale_id"; "accepted_plan_source"; "journal_entry_id"]%string.

(** The locals of the loop of [normalizedJournal]. *)
Record JournalIndex := mkJournalIndex {
  lots : gset string;
  sources : gmap string string
}.

Definition indexEntry (ix : JournalIndex) (entry : json) : res JournalIndex :=
  let lot := id_text (entry.@"buyback_lot_id") in
  let source := id_text (entry.@"source_sale_id") in
  throw_if (bool_decide (lot ∈ ix.(lots))) "journal contains a duplicate buyback_lot_id";;
  let priorLot := default EmptyString (ix.(sources) !! source) in
  throw_if (negb (String.eqb priorLot EmptyString) && negb (String.eqb priorLot lot))
    "journal maps one source_sale_id to multiple lot IDs";;
  Ok (mkJournalIndex ({[ lot ]} ∪ ix.(lots)) (<[ source := lot ]> ix.(sources))).

Section journal.
Context {H : Digest}.

Definition validatedCandidatePlan (raw : json) : res json :=
  candidate ← plainObject raw "candidate_plan";
  derived ← deriveBtcVoidBuybackLotV1 (candidate.@"source");
  throw_if (negb (String.eqb (canonicalJson candidate) (canonicalJson derived)))
    "candidate_plan does not match the canonical reserve-policy derivation";;
  Ok candidate.

Definition entryPayload (plan : json) : json :=
  JObj [
    "schema" ~> JOURNAL_ENTRY_SCHEMA;
    "marker" ~> VOID_BTC_VOID_BUYBACK_LOT_JOURNAL_TRANSITION_V1;
    "reserve_policy_marker" ~> VOID_BTC_VOID_MARKET_MAKER_RESERVE_POLICY_V1;
    "buyback_lot_id" ~> plan.@"buyback_lot_id";
    "buyback_lot_plan_id" ~> plan.@"buyback_lot_plan_id";
    "source_sale_id" ~> plan.@"source".@"settlement".@"source_sale_id";
    "accepted_plan_source" ~> plan.@"source"].

Definition createEntry (plan : json) : json :=
  let payload := entryPayload plan in
  extend payload "journal_entry_id" (contentId payload).

Definition buybackLotIdForSourceSale (sourceSaleId : json) : string :=
  contentId (JObj [
    "schema" ~> "void.btc_void.buyback_lot_identity.v1";
    "source_sale_id" ~> sourceSaleId]).

Definition validateEntry (index : nat) (raw : json) : res json :=
  let label := "journal_entries[" +:+ dec (Z.of_nat index) +:+ "]" in
  entry ← exactKeys raw ENTRY_KEYS label;
  throw_if (entry.@"schema" !== JOURNAL_ENTRY_SCHEMA) (label +:+ ".schema mismatch");;
  throw_if (entry.@"marker" !== VOID_BTC_VOID_BUYBACK_LOT_JOURNAL_TRANSITION_V1)
    (label +:+ ".marker mismatch");;
  throw_if (entry.@"reserve_policy_marker" !== VOID_BTC_VOID_MARKET_MAKER_RESERVE_POLICY_V1)
    (label +:+ ".reserve_policy_marker mismatch");;
  map_res (fun key => sha256Id (entry.@key) (label +:+ "." +:+ key))
    ["buyback_lot_id"; "buyback_lot_plan_id"; "source_sale_id"; "journal_entry_id"]%string;;
  throw_if (entry.@"buyback_lot_id" !== buybackLotIdForSourceSale (entry.@"source_sale_id"))
    (label +:+ ".buyback_lot_id does not match source_sale_id");;
  acceptedPlan ← deriveBtcVoidBuybackLotV1 (entry.@"accepted_plan_source");
  throw_if (negb (strict_eq (acceptedPlan.@"source".@"settlement".@"source_sale_id")
      (entry.@"source_sale_id")))
    (label +:+ ".accepted_plan_source does not match source_sale_id");;
  throw_if (acceptedPlan.@"buyback_lot_id" !== entry.@"buyback_lot_id")
    (label +:+ ".accepted_plan_source does not match buyback_lot_id");;
  throw_if (acceptedPlan.@"buyback_lot_plan_id" !== entry.@"buyback_lot_plan_id")
    (label +:+ ".buyback_lot_plan_id does not match accepted_plan_source");;
  let suppliedId := entry.@"journal_entry_id" in
  let payload := omit entry "journal_entry_id" in
  throw_if (suppliedId !== contentId payload) (label +:+ ".journal_entry_id content mismatch");;
  Ok entry.

Definition normalizedJournal (raw : json) : res (list json) :=
  match raw with
  | JArr items =>
      throw_if (Z.of_nat (length items) >? MAX_JOURNAL_ENTRIES)
        "journal_entries exceeds the v1 entry limit";;
      entries ← mapi_res validateEntry 0 items;
      foldM indexEntry (mkJournalIndex ∅ ∅) entries;;
      Ok entries
  | _ => Throw "journal_entries must be an array"
  end.

Definition journalSnapshotId (entries : list json) : string :=
  contentId (JObj [
    "schema" ~> JOURNAL_SNAPSHOT_SCHEMA;
    "journal_entry_ids" ~> JArr (map (fun entry => entry.@"journal_entry_id") entries)]).

Definition transitionInvariants : json :=
  JObj [
    "candidate_plan_rederived_from_source" ~> true;
    "accepted_plan_rederived_from_source" ~> true;
    "create_once_by_buyback_lot_id" ~> true;
    "duplicate_append_forbidden" ~> true;
    "conflicting_plan_requires_hold" ~> true;
    "source_sale_maps_to_one_lot" ~> true;
    "decision_bound_to_exact_ordered_journal_snapshot" ~> true;
    "expected_post_transition_snapshot_bound" ~> true].

Definition transitionAuthority : json :=
  JObj [
    "source_only_decision" ~> true;
    "journal_persisted" ~> false;
    "reserve_state_mutated" ~> false;
    "inventory_reserved" ~> false;
    "wallet_or_signer_accessed" ~> false;
    "transaction_constructed" ~> false;
    "transaction_broadcast" ~> false;
    "funds_moved" ~> false].

(** [entries.find((entry) => entry.buyback_lot_id === candidate.buyback_lot_id)] *)
Definition findLot (entries : list json) (lot : json) : option json :=
  List.find (fun entry => entry.@"buyback_lot_id" === lot) entries.

(** Status, reason and the entry to append. *)
Definition transitionOf (existing : option json) (candidate : json) : string * string * json :=
  match existing with
  | None => ("CREATE", "new_verified_lot_plan", createEntry candidate)
  | Some entry =>
      if entry.@"buyback_lot_plan_id" === candidate.@"buyback_lot_plan_id"
      then ("IDEMPOTENT", "exact_lot_plan_already_accepted", JNull)
      else ("HOLD", "buyback_lot_id_already_bound_to_different_plan", JNull)
  end%string.

Definition appended (entries : list json) (appendEntry : json) : list json :=
  match appendEntry with JNull => entries | _ => entries ++ [appendEntry] end.

Definition renderDecision (entries : list json) (candidate : json) : json :=
  let existing := findLot entries (candidate.@"buyback_lot_id") in
  let '(status, reason, appendEntry) := transitionOf existing candidate in
  let decision := JObj [
    "schema" ~> TRANSITION_DECISION_SCHEMA;
    "marker" ~> VOID_BTC_VOID_BUYBACK_LOT_JOURNAL_TRANSITION_V1;
    "status" ~> status;
    "reason" ~> reason;
    "journal_entry_count_before" ~> jint (Z.of_nat (length entries));
    "journal_snapshot_id_before" ~> journalSnapshotId entries;
    "journal_snapshot_id_after" ~> journalSnapshotId (appended entries appendEntry);
    "buyback_lot_id" ~> candidate.@"buyback_lot_id";
    "candidate_buyback_lot_plan_id" ~> candidate.@"buyback_lot_plan_id";
    "accepted_buyback_lot_plan_id" ~>
      match existing with Some entry => entry.@"buyback_lot_plan_id" | None => JNull end;
    "append_entry" ~> appendEntry;
    "invariants" ~> transitionInvariants;
    "authority" ~> transitionAuthority] in
  extend decision "decision_id" (contentId decision).

Definition evaluateBtcVoidBuybackLotJournalTransitionV1 (raw : json) : res json :=
  request ← exactKeys raw ["schema"; "journal_entries"; "candidate_plan"]%string
    "journal-transition request";
  throw_if (request.@"schema" !== TRANSITION_REQUEST_SCHEMA)
    "journal-transition request schema mismatch";;
  entries ← normalizedJournal (request.@"journal_entries");
  candidate ← validatedCandidatePlan (request.@"candidate_plan");
  Ok (renderDecision entries candidate).
End journal.

(** ** Accepted entries and journals *)

Section journal_facts.
Context {H : Digest}.

Definition lot_of (entry : json) : string := id_text (entry.@"buyback_lot_id").
Definition plan_of (entry : json) : string := id_text (entry.@"buyback_lot_plan_id").
Definition sale_of (entry : json) : string := id_text (entry.@"source_sale_id").

(** What [validateEntry] establishes, whatever the index. *)
Record entry_ok (e : json) : Prop := {
  eo_object : exists fs, e = JObj fs;
  eo_keys : same_keys e ENTRY_KEYS = true;
  eo_schema : e.@"schema" = JStr JOURNAL_ENTRY_SCHEMA;
  eo_marker : e.@"marker" = JStr VOID_BTC_VOID_BUYBACK_LOT_JOURNAL_TRANSITION_V1;
  eo_policy : e.@"reserve_policy_marker" = JStr VOID_BTC_VOID_MARKET_MAKER_RESERVE_POLICY_V1;
  eo_ids : Forall (fun key => is_sha256_value (e.@key) = true)
    ["buyback_lot_id"; "buyback_lot_plan_id"; "source_sale_id"; "journal_entry_id"]%string;
  eo_lot : e.@"buyback_lot_id" = JStr (buybackLotIdForSourceSale (e.@"source_sale_id"));
  eo_plan : exists plan, deriveBtcVoidBuybackLotV1 (e.@"accepted_plan_source") = Ok plan /\
    plan.@"source".@"settlement".@"source_sale_id" = e.@"source_sale_id" /\
    plan.@"buyback_lot_id" = e.@"buyback_lot_id" /\
    plan.@"buyback_lot_plan_id" = e.@"buyback_lot_plan_id";
  eo_entry_id : e.@"journal_entry_id" = JStr (contentId (omit e "journal_entry_id"))
}.

Lemma sha256Id_Ok v label w : sha256Id v label = Ok w <-> w = v /\ is_sha256_value v = true.
Proof.
  unfold sha256Id. destruct (is_sha256_value v); simpl; split; naive_solver.
Qed.

(** Strict equality with an identity is equality. *)
Lemma strict_eq_id v w : is_sha256_value w = true -> (v === w) = true <-> v = w.
Proof. intros (t & -> & _)%sha256_value_str. apply strict_eq_str. Qed.

Lemma strict_eq_id_refl w : is_sha256_value w = true -> (w === w) = true.
Proof. intros Hw. by apply strict_eq_id. Qed.

Lemma validateEntry_Ok i e v : validateEntry i e = Ok v <-> v = e /\ entry_ok e.
Proof.
  unfold validateEntry. split.
  - intros Hv. apply bind_Ok in Hv as (x & (-> & Hfs & Hk)%exactKeys_Ok & Hv).
    unfold map_res in Hv. cbn [mapi_res] in Hv. inv_ok. js_eqs.
    repeat match goal with Hi : sha256Id _ _ = Ok _ |- _ => apply sha256Id_Ok in Hi as [-> Hi] end.
    repeat match goal with
    | He : (_ === v.@_) = true |- _ => apply strict_eq_id in He; [|assumption]
    end.
    split; [done|]. constructor; eauto 8.
  - intros (-> & []). inversion eo_ids0 as [|? ? H1 Hr1]; subst.
    inversion Hr1 as [|? ? H2 Hr2]; subst. inversion Hr2 as [|? ? H3 Hr3]; subst.
    inversion Hr3 as [|? ? H4 _]; subst. destruct eo_plan0 as (plan & Hplan & Hs & Hl & Hp).
    rewrite (proj2 (exactKeys_Ok _ _ _ e)) by done. cbn [mbind res_bind].
    rewrite eo_schema0, eo_marker0, eo_policy0. rewrite !strict_eq_str_refl.
    unfold map_res, sha256Id. cbn [mapi_res]. rewrite H1, H2, H3, H4. cbn.
    rewrite eo_lot0, strict_eq_str_refl, Hplan. cbn.
    rewrite Hs, Hp, <- eo_lot0, Hl, !strict_eq_id_refl by done.
    by rewrite eo_entry_id0, strict_eq_str_refl.
Qed.

Lemma validateEntries_Ok i l l' : mapi_res validateEntry i l = Ok l' <-> l' = l /\ Forall entry_ok l.
Proof.
  revert i l'. induction l as [|e l IH]; intros i l'; simpl.
  { split; [intros [= <-]; auto|intros [-> _]; done]. }
  split.
  - intros Hl. inv_ok.
    repeat match goal with
    | Hv : validateEntry _ _ = Ok _ |- _ => apply validateEntry_Ok in Hv as [-> Hv]
    | Hv : mapi_res _ _ _ = Ok _ |- _ => apply IH in Hv as [-> Hv]
    end. auto.
  - intros [-> [He Hl]%Forall_cons]. rewrite (proj2 (validateEntry_Ok i e e)) by done. cbn.
    by rewrite (proj2 (IH (S i) l)).
Qed.
Lemma entry_ids e : entry_ok e ->
  e.@"buyback_lot_id" = JStr (lot_of e) /\ e.@"buyback_lot_plan_id" = JStr (plan_of e) /\
  e.@"source_sale_id" = JStr (sale_of e) /\ lot_of e <> EmptyString.
Proof.
  intros []. apply Forall_cons in eo_ids0 as [(? & Hl & Hne)%sha256_value_str Hr].
  apply Forall_cons in Hr as [(? & Hp & _)%sha256_value_str Hr].
  apply Forall_cons in Hr as [(? & Hs & _)%sha256_value_str _].
  unfold lot_of, plan_of, sale_of. rewrite Hl, Hp, Hs. simpl.
  repeat split. by intros ->.
Qed.

Lemma entry_lot_of_sale e : entry_ok e -> lot_of e = buybackLotIdForSourceSale (sale_of e).
Proof.
  intros He. destruct (entry_ids e He) as (Hl & _ & Hs & _). destruct He.
  rewrite <- Hs. congruence.
Qed.

(** ** The duplicate check *)

(** What the loop locals record of the entries read so far. *)
Record index_ok (ix : JournalIndex) (seen : list json) : Prop := {
  io_lots : forall l, l ∈ ix.(lots) <-> l ∈ map lot_of seen;
  io_sources : forall s l, ix.(sources) !! s = Some l -> l = buybackLotIdForSourceSale (JStr s)
}.

Lemma indexEntry_Ok ix seen e : index_ok ix seen -> entry_ok e ->
  (lot_of e ∈ map lot_of seen ->
     indexEntry ix e = Throw "journal contains a duplicate buyback_lot_id") /\
  (lot_of e ∉ map lot_of seen -> exists ix', indexEntry ix e = Ok ix' /\ index_ok ix' (seen ++ [e])).
Proof.
  intros [Hl Hs] He. unfold indexEntry.
  change (id_text (e.@"buyback_lot_id")) with (lot_of e).
  change (id_text (e.@"source_sale_id")) with (sale_of e). split; intros Hin.
  - by rewrite bool_decide_eq_true_2 by (by apply Hl).
  - rewrite bool_decide_eq_false_2 by (by rewrite Hl). cbn [mbind res_bind throw_if].
    destruct (sources ix !! sale_of e) as [l|] eqn:E; simpl.
    + rewrite (Hs _ _ E), <- entry_lot_of_sale, String.eqb_refl, andb_false_r by done. simpl.
      eexists. split; [done|]. split; simpl.
      * intros l'. rewrite map_app. simpl. set_solver.
      * intros s l'. rewrite lookup_insert_Some. intros [[<- <-]|[_ ?]]; [|auto].
        by apply entry_lot_of_sale.
    + eexists. split; [done|]. split; simpl.
      * intros l'. rewrite map_app. simpl. set_solver.
      * intros s l'. rewrite lookup_insert_Some. intros [[<- <-]|[_ ?]]; [|auto].
        by apply entry_lot_of_sale.
Qed.

Lemma indexEntries_Ok ix seen l : index_ok ix seen -> Forall entry_ok l -> NoDup (map lot_of seen) ->
  (exists ix', foldM indexEntry ix l = Ok ix' /\ NoDup (map lot_of (seen ++ l))) \/
  (foldM indexEntry ix l = Throw "journal contains a duplicate buyback_lot_id" /\
   ~ NoDup (map lot_of (seen ++ l))).
Proof.
  intros Hix Hl. revert ix seen Hix. induction Hl as [|e l He Hl IH]; intros ix seen Hix Hnd; simpl.
  { left. exists ix. by rewrite app_nil_r. }
  destruct (indexEntry_Ok ix seen e Hix He) as [Hdup Hnew].
  destruct (decide (lot_of e ∈ map lot_of seen)) as [Hin|Hin].
  - right. rewrite (Hdup Hin). split; [done|]. rewrite map_app. simpl.
    rewrite NoDup_app. set_solver.
  - destruct (Hnew Hin) as (ix' & -> & Hix'). cbn [mbind res_bind].
    assert (NoDup (map lot_of (seen ++ [e]))) as Hnd'.
    { rewrite map_app. by apply NoDup_snoc. }
    specialize (IH ix' (seen ++ [e]) Hix' Hnd'). by rewrite <- app_assoc in IH.
Qed.

Lemma derive_lot_avoids raw :
  deriveBtcVoidBuybackLotV1 raw <> Throw "journal maps one source_sale_id to multiple lot IDs".
Proof.
  unfold deriveBtcVoidBuybackLotV1, normalizeRequest, checkSettlement, checkPolicy. avoid_throw.
Qed.

Lemma validateEntries_avoid i l :
  mapi_res validateEntry i l <> Throw "journal maps one source_sale_id to multiple lot IDs".
Proof.
  revert i. induction l as [|e l IH]; intros i; cbn [mapi_res]; [discriminate|].
  apply bind_avoids; [|intros ? _; apply bind_avoids; [apply IH|discriminate]].
  unfold validateEntry, map_res, sha256Id. cbn [mapi_res]. avoid_throw.
  apply derive_lot_avoids.
Qed.

Definition journal_ok (l : list json) : Prop :=
  Z.of_nat (length l) <= MAX_JOURNAL_ENTRIES /\ Forall entry_ok l /\ NoDup (map lot_of l).

Lemma index_ok_nil : index_ok (mkJournalIndex ∅ ∅) [].
Proof. split; simpl; [set_solver|]. intros s l. by rewrite lookup_empty. Qed.

Lemma normalizedJournal_Ok raw l : normalizedJournal raw = Ok l <-> raw = JArr l /\ journal_ok l.
Proof.
  unfold normalizedJournal. split.
  - destruct raw; try discriminate. intros Hn. inv_ok.
    match goal with Hv : mapi_res _ _ _ = Ok _ |- _ => apply validateEntries_Ok in Hv as [-> Hv];
      destruct (indexEntries_Ok _ [] items index_ok_nil Hv (NoDup_nil_2)) as [(? & _ & ?)|[? _]] end;
      [|congruence].
    split; [done|]. split; [lia|done].
  - intros (-> & Hlen & Hl & Hnd).
    assert ((Z.of_nat (length l) >? MAX_JOURNAL_ENTRIES) = false) as -> by lia. cbn [mbind res_bind throw_if].
    rewrite (proj2 (validateEntries_Ok 0 l l)) by done. cbn [mbind res_bind].
    destruct (indexEntries_Ok _ [] l index_ok_nil Hl (NoDup_nil_2)) as [(? & -> & _)|[_ Hd]]; done.
Qed.

(** ** Candidates *)

(** A value as [JSON.parse] produces it with safe integers. *)
Definition plain (v : json) : Prop := printable v = true /\ no_index_keys v = true.

(** What [validatedCandidatePlan] establishes for a plain candidate. *)
Record candidate_ok (c : json) : Prop := {
  co_plain : plain c;
  co_object : exists fs, c = JObj fs;
  co_plan : exists plan, deriveBtcVoidBuybackLotV1 (c.@"source") = Ok plan /\ norm c = norm plan
}.

Lemma validatedCandidatePlan_Ok raw c : plain raw ->
  validatedCandidatePlan raw = Ok c <-> c = raw /\ candidate_ok raw.
Proof.
  intros Hp. unfold validatedCandidatePlan, plainObject. split.
  - intros Hv. destruct raw; try discriminate. inv_ok. bool_prop.
    match goal with He : String.eqb _ _ = true |- _ => apply String.eqb_eq in He end.
    split; [done|]. split; [done|by eexists|]. eexists. split; [done|].
    match goal with Hd : _ = Ok _ |- _ => destruct (derive_lot_plain _ _ Hd), Hp end. by apply canonicalJson_inj.
  - intros (-> & [_ [fs ->] (plan & Hplan & Hn)]). cbn [mbind res_bind].
    rewrite Hplan. cbn [mbind res_bind]. destruct (derive_lot_plain _ _ Hplan), Hp.
    by rewrite !canonicalJson_print, Hn, String.eqb_refl by done.
Qed.

(** The identities of a candidate are those of the plan it stands for. *)
Lemma candidate_ids c : candidate_ok c -> exists plan sale,
  deriveBtcVoidBuybackLotV1 (c.@"source") = Ok plan /\ norm c = norm plan /\
  c.@"source".@"settlement".@"source_sale_id" = JStr sale /\ is_sha256_id sale = true /\
  plan.@"source".@"settlement".@"source_sale_id" = JStr sale /\
  c.@"buyback_lot_id" = JStr (buybackLotIdForSourceSale (JStr sale)) /\
  plan.@"buyback_lot_id" = c.@"buyback_lot_id" /\
  c.@"buyback_lot_plan_id" = JStr (contentId (omit plan "buyback_lot_plan_id")) /\
  plan.@"buyback_lot_plan_id" = c.@"buyback_lot_plan_id".
Proof.
  intros [_ _ (plan & Hd & Hn)].
  destruct (derive_lot_ids _ _ Hd) as (Hs & (t & Ht & Hok)%sha256_value_str & Hl & Hp & Hnd).
  pose proof (norm_prop _ _ "buyback_lot_id" Hn Hnd) as Hnl.
  pose proof (norm_prop _ _ "buyback_lot_plan_id" Hn Hnd) as Hnp.
  rewrite Hl in Hnl. rewrite Hp in Hnp. apply norm_str in Hnl, Hnp.
  rewrite Ht in *. exists plan, t. repeat split; try congruence; done.
Qed.
(** ** New entries *)

Context `{!DigestShape H}.

Definition candidate_lot (c : json) : string := id_text (c.@"buyback_lot_id").
Definition candidate_plan_id (c : json) : string := id_text (c.@"buyback_lot_plan_id").

Lemma createEntry_ok c : candidate_ok c ->
  entry_ok (createEntry c) /\ lot_of (createEntry c) = candidate_lot c /\
  plan_of (createEntry c) = candidate_plan_id c.
Proof.
  intros (plan & sale & Hd & _ & Hs & Hok & Hps & Hl & Hpl & Hp & Hpp)%candidate_ids.
  split; [|by rewrite ?Hl, ?Hp].
  constructor; try reflexivity.
  - by eexists.
  - repeat apply Forall_cons_2; try apply Forall_nil_2; cbn;
      rewrite ?Hl, ?Hp, ?Hs; cbn; try done; apply contentId_shape.
  - cbn. by rewrite Hl, Hs.
  - exists plan. cbn. rewrite Hs. auto.
Qed.

Lemma findLot_None l c : Forall entry_ok l -> candidate_ok c ->
  findLot l (c.@"buyback_lot_id") = None <-> candidate_lot c ∉ map lot_of l.
Proof.
  intros Hl (_ & sale & _ & _ & _ & _ & _ & Hc & _)%candidate_ids. unfold candidate_lot.
  rewrite Hc. simpl. unfold findLot. induction Hl as [|e l He Hl IH]; simpl; [set_solver|].
  destruct (entry_ids e He) as (-> & _). simpl.
  destruct (String.eqb_spec (lot_of e) (buybackLotIdForSourceSale sale)) as [->|Hne]; [set_solver|].
  rewrite IH. set_solver.
Qed.

Lemma findLot_Some l c e : Forall entry_ok l -> candidate_ok c ->
  findLot l (c.@"buyback_lot_id") = Some e -> e ∈ l /\ entry_ok e /\ lot_of e = candidate_lot c.
Proof.
  intros Hl (_ & sale & _ & _ & _ & _ & _ & Hc & _)%candidate_ids. unfold findLot, candidate_lot.
  intros [Hin Heq]%List.find_some. apply list_elem_of_In in Hin. rewrite Forall_forall in Hl.
  split; [done|]. split; [auto|]. rewrite Hc in *. apply strict_eq_str in Heq.
  unfold lot_of. by rewrite Heq.
Qed.

(** With distinct lots the entry of a lot is the one [find] returns. *)
Lemma findLot_unique l c e : journal_ok l -> candidate_ok c -> e ∈ l -> lot_of e = candidate_lot c ->
  findLot l (c.@"buyback_lot_id") = Some e.
Proof.
  intros (_ & Hl & Hnd) Hc Hin Hlot.
  destruct (findLot l _) as [e'|] eqn:E.
  - apply findLot_Some in E as (Hin' & _ & Hlot'); [|done..]. f_equal.
    apply list_elem_of_lookup in Hin as [i Hi], Hin' as [j Hj].
    assert (i = j) as <-; [|congruence].
    apply (NoDup_lookup (map lot_of l) i j (candidate_lot c)); [done|..];
      rewrite list_lookup_fmap, ?Hi, ?Hj; simpl; congruence.
  - apply findLot_None in E; [|done..]. exfalso. apply E. rewrite <- Hlot.
    by apply list_elem_of_fmap_2.
Qed.

Lemma plan_match e c : entry_ok e -> candidate_ok c ->
  (e.@"buyback_lot_plan_id" === c.@"buyback_lot_plan_id") =
  String.eqb (plan_of e) (candidate_plan_id c).
Proof.
  intros He (plan & sale & _ & _ & _ & _ & _ & _ & _ & Hc & _)%candidate_ids.
  destruct (entry_ids e He) as (_ & -> & _). unfold candidate_plan_id. by rewrite Hc.
Qed.

(** ** Decisions *)

Definition transitionRequest (journal : list json) (candidate : json) : json :=
  JObj [
    "schema" ~> TRANSITION_REQUEST_SCHEMA;
    "journal_entries" ~> JArr journal;
    "candidate_plan" ~> candidate].

Lemma evaluate_request l c d : plain c ->
  evaluateBtcVoidBuybackLotJournalTransitionV1 (transitionRequest l c) = Ok d <->
  journal_ok l /\ candidate_ok c /\ d = renderDecision l c.
Proof.
  intros Hp. unfold evaluateBtcVoidBuybackLotJournalTransitionV1. split.
  - intros Hd. inv_ok. js_facts. subst.
    repeat match goal with
    | Hn : normalizedJournal _ = Ok _ |- _ => apply normalizedJournal_Ok in Hn as [[= <-] ?]
    | Hc : validatedCandidatePlan ?r = Ok _ |- _ =>
        change r with c in Hc; apply validatedCandidatePlan_Ok in Hc as [? ?]; [|done]
    end. subst. auto.
  - intros (Hl & Hc & ->). js_run.
    change ((transitionRequest l c).@"journal_entries") with (JArr l).
    change ((transitionRequest l c).@"candidate_plan") with c.
    rewrite (proj2 (normalizedJournal_Ok (JArr l) l)) by done. cbn [mbind res_bind].
    rewrite (proj2 (validatedCandidatePlan_Ok c c Hp)) by done. done.
Qed.

(** The fields of a decision, per branch. *)
Lemma renderDecision_create l c : findLot l (c.@"buyback_lot_id") = None ->
  let d := renderDecision l c in
  d.@"status" = JStr "CREATE" /\ d.@"append_entry" = createEntry c /\
  d.@"journal_snapshot_id_before" = JStr (journalSnapshotId l) /\
  d.@"journal_snapshot_id_after" = JStr (journalSnapshotId (l ++ [createEntry c])).
Proof. intros Hf. cbn zeta. unfold renderDecision. rewrite Hf. repeat split; reflexivity. Qed.

Lemma renderDecision_existing l c e : findLot l (c.@"buyback_lot_id") = Some e ->
  let d := renderDecision l c in
  d.@"status" = JStr (if e.@"buyback_lot_plan_id" === c.@"buyback_lot_plan_id"
                      then "IDEMPOTENT" else "HOLD") /\
  d.@"append_entry" = JNull /\
  d.@"accepted_buyback_lot_plan_id" = e.@"buyback_lot_plan_id" /\
  d.@"journal_snapshot_id_before" = JStr (journalSnapshotId l) /\
  d.@"journal_snapshot_id_after" = JStr (journalSnapshotId l).
Proof.
  intros Hf. cbn zeta. unfold renderDecision. rewrite Hf. unfold transitionOf.
  destruct (e.@"buyback_lot_plan_id" === c.@"buyback_lot_plan_id"); repeat split; reflexivity.
Qed.

(** Appending an entry for a new lot keeps a journal with room acceptable. *)
Lemma journal_append l c : journal_ok l -> candidate_ok c ->
  findLot l (c.@"buyback_lot_id") = None -> Z.of_nat (length l) < MAX_JOURNAL_ENTRIES ->
  journal_ok (l ++ [createEntry c]).
Proof.
  intros (_ & Hl & Hnd) Hc Hf Hlen. destruct (createEntry_ok c Hc) as (He & Hlot & _).
  apply findLot_None in Hf; [|done..]. split; [rewrite length_app; simpl; lia|]. split.
  - apply Forall_app. auto.
  - rewrite map_app. simpl. rewrite Hlot. by apply NoDup_snoc.
Qed.

(** A journal is accepted exactly when it is an array of at most 10,000
    individually valid entries with pairwise distinct lots, and it is then used
    unchanged.  The check that one source sale is not mapped to two lots never
    fires, because a valid entry's lot is computed from its sale. *)
Theorem journal_accepted_iff raw l :
  (normalizedJournal raw = Ok l <->
    raw = JArr l /\ Z.of_nat (length l) <= 10000 /\
    Forall (fun e => validateEntry 0 e = Ok e) l /\ NoDup (map lot_of l)) /\
  normalizedJournal raw <> Throw "journal maps one source_sale_id to multiple lot IDs".
Proof.
  split.
  - rewrite normalizedJournal_Ok. unfold journal_ok.
    rewrite (Forall_iff entry_ok l (fun e => validateEntry 0 e = Ok e)); [done|].
    intros e. rewrite validateEntry_Ok. naive_solver.
  - unfold normalizedJournal. destruct raw; try discriminate.
    apply bind_avoids; [by apply throw_if_avoids|intros ? _].
    apply bind_avoids.
    + apply validateEntries_avoid.
    + intros l' [-> Hl]%validateEntries_Ok. apply bind_avoids; [|discriminate].
      destruct (indexEntries_Ok _ [] _ index_ok_nil Hl NoDup_nil_2) as [(? & -> & _)|[-> _]];
        discriminate.
Qed.

(** Creating an entry and repeating the request is idempotent.  A CREATE
    decision's entry extends the journal to one that the next evaluation accepts
    while it has room, and for which the same plan is reported IDEMPOTENT with the
    predicted snapshot; a journal that already holds 10,000 entries is instead
    extended beyond the limit, and every later evaluation of it is refused. *)
Theorem journal_create_then_idempotent l c c' d : plain c ->
  evaluateBtcVoidBuybackLotJournalTransitionV1 (transitionRequest l c) = Ok d ->
  d.@"status" = JStr "CREATE" ->
  let l' := l ++ [d.@"append_entry"] in
  (Z.of_nat (length l) < 10000 -> exists d',
     evaluateBtcVoidBuybackLotJournalTransitionV1 (transitionRequest l' c) = Ok d' /\
     d'.@"status" = JStr "IDEMPOTENT" /\ d'.@"append_entry" = JNull /\
     d'.@"journal_snapshot_id_before" = d.@"journal_snapshot_id_after" /\
     d'.@"journal_snapshot_id_after" = d.@"journal_snapshot_id_after") /\
  (Z.of_nat (length l) = 10000 ->
     evaluateBtcVoidBuybackLotJournalTransitionV1 (transitionRequest l' c') =
     Throw "journal_entries exceeds the v1 entry limit").
Proof.
  intros Hp (Hl & Hc & ->)%(evaluate_request _ _ _ Hp) Hst. cbn zeta.
  destruct (findLot l (c.@"buyback_lot_id")) as [e|] eqn:E.
  { destruct (renderDecision_existing l c e E) as (Hs & _). rewrite Hs in Hst.
    by destruct (e.@"buyback_lot_plan_id" === c.@"buyback_lot_plan_id"). }
  destruct (renderDecision_create l c E) as (_ & -> & _ & ->). split; intros Hlen.
  - pose proof (journal_append l c Hl Hc E Hlen) as Hl'.
    destruct (createEntry_ok c Hc) as (He & Hlot & Hplan).
    assert (findLot (l ++ [createEntry c]) (c.@"buyback_lot_id") = Some (createEntry c)) as Hf.
    { apply findLot_unique; [done|done| |done]. apply elem_of_app. right. by left. }
    destruct (renderDecision_existing _ _ _ Hf) as (Hs & Ha & _ & Hb & Haf).
    exists (renderDecision (l ++ [createEntry c]) c). rewrite evaluate_request by done.
    rewrite plan_match, Hplan, String.eqb_refl in Hs by done. auto 10.
  - unfold evaluateBtcVoidBuybackLotJournalTransitionV1. js_run.
    change ((transitionRequest (l ++ [createEntry c]) c').@"journal_entries")
      with (JArr (l ++ [createEntry c])).
    unfold normalizedJournal. rewrite length_app. simpl length.
    assert ((Z.of_nat (length l + 1) >? MAX_JOURNAL_ENTRIES) = true) as ->.
    { apply Z.gtb_lt. unfold MAX_JOURNAL_ENTRIES. rewrite Nat2Z.inj_add. lia. }
    done.
Qed.
Lemma sales_distinct l : Forall entry_ok l -> NoDup (map lot_of l) -> NoDup (map sale_of l).
Proof.
  intros Hl Hnd. assert (map lot_of l = map (fun s => buybackLotIdForSourceSale (JStr s)) (map sale_of l)) as Hm.
  { rewrite List.map_map. apply List.map_ext_in. intros e He%list_elem_of_In.
    rewrite Forall_forall in Hl. by apply entry_lot_of_sale, Hl. }
  rewrite Hm in Hnd. by apply NoDup_fmap_1 in Hnd.
Qed.

(** ** Journals over time *)

(** One evaluated request, its entry appended by the caller. *)
Inductive journal_step : list json -> list json -> Prop :=
| journal_decide l c d :
    plain c ->
    evaluateBtcVoidBuybackLotJournalTransitionV1 (transitionRequest l c) = Ok d ->
    journal_step l (appended l (d.@"append_entry")).

Lemma journal_step_inv l l' : journal_step l l' ->
  journal_ok l /\ (l' = l \/ exists c, candidate_ok c /\
    findLot l (c.@"buyback_lot_id") = None /\ l' = l ++ [createEntry c]).
Proof.
  intros [l0 c d Hp (Hl & Hc & ->)%evaluate_request]; [|done]. split; [done|].
  destruct (findLot l0 (c.@"buyback_lot_id")) as [e|] eqn:E.
  - left. by destruct (renderDecision_existing _ _ _ E) as (_ & -> & _).
  - right. exists c. by destruct (renderDecision_create _ _ E) as (_ & -> & _).
Qed.

Lemma journal_step_prefix l l' : rtc journal_step l l' -> l `prefix_of` l'.
Proof.
  induction 1 as [|l l1 l2 Hs _ IH]; [done|].
  apply journal_step_inv in Hs as (_ & [->|(c & _ & _ & ->)]); [done|].
  etransitivity; [|exact IH]. by apply prefix_app_r.
Qed.

(** C21: Through any sequence of decisions a journal only grows at its end, never
    gets two entries for one lot or one source sale, and stays acceptable up to
    its limit of 10,000 entries; it never gets past 10,001. *)
Theorem journal_history_sound l l' :
  normalizedJournal (JArr l) = Ok l -> rtc journal_step l l' ->
  l `prefix_of` l' /\ NoDup (map lot_of l') /\ NoDup (map sale_of l') /\
  Z.of_nat (length l') <= 10001 /\
  (Z.of_nat (length l') <= 10000 -> normalizedJournal (JArr l') = Ok l').
Proof.
  intros [_ Hl]%normalizedJournal_Ok Hs. split; [by apply journal_step_prefix|].
  assert (Forall entry_ok l' /\ NoDup (map lot_of l') /\ Z.of_nat (length l') <= 10001) as (He & Hnd & Hlen).
  { destruct Hl as (Hlen & Hl & Hnd). unfold MAX_JOURNAL_ENTRIES in Hlen.
    assert (Z.of_nat (length l) <= 10001) as Hlen' by lia. clear Hlen.
    induction Hs as [|l l1 l2 Hs _ IH]; [done|].
    apply journal_step_inv in Hs as (Hok & [->|(c & Hc & Hf & ->)]); [auto|].
    destruct Hok as (Hlen & _). unfold MAX_JOURNAL_ENTRIES in Hlen.
    destruct (createEntry_ok c Hc) as (He & Hlot & _). apply findLot_None in Hf; [|done..].
    apply IH.
    - apply Forall_app. auto.
    - rewrite map_app. simpl. rewrite Hlot. by apply NoDup_snoc.
    - rewrite length_app. simpl. lia. }
  split; [done|]. split; [by apply sales_distinct|]. split; [done|].
  intros. rewrite normalizedJournal_Ok. split; [done|]. done.
Qed.

(** An accepted lot stays bound to its plan: after any further decisions, a
    candidate for that lot is reported IDEMPOTENT if it has the accepted plan
    identity and HOLD otherwise; neither appends an entry. *)
Theorem journal_binding_permanent l l' e c d :
  rtc journal_step l l' -> e ∈ l -> plain c -> c.@"buyback_lot_id" = e.@"buyback_lot_id" ->
  evaluateBtcVoidBuybackLotJournalTransitionV1 (transitionRequest l' c) = Ok d ->
  d.@"status" = JStr (if String.eqb (plan_of e) (candidate_plan_id c)
                      then "IDEMPOTENT" else "HOLD") /\
  d.@"accepted_buyback_lot_plan_id" = e.@"buyback_lot_plan_id" /\
  d.@"append_entry" = JNull /\
  d.@"journal_snapshot_id_after" = d.@"journal_snapshot_id_before".
Proof.
  intros Hs Hin Hp Hlot (Hl & Hc & ->)%evaluate_request; [|done].
  assert (e ∈ l') as Hin' by (eapply elem_of_prefix; [done|by apply journal_step_prefix]).
  assert (entry_ok e) as He by (destruct Hl as (_ & Hl & _); rewrite Forall_forall in Hl; auto).
  assert (findLot l' (c.@"buyback_lot_id") = Some e) as Hf.
  { apply findLot_unique; [done|done|done|]. unfold lot_of, candidate_lot. by rewrite Hlot. }
  destruct (renderDecision_existing l' c e Hf) as (Hst & Ha & Hacc & Hb & Haf).
  rewrite plan_match in Hst by done. rewrite Haf, Hb. auto.
Qed.

(** The plan identity stands for the plan: when a candidate is reported
    IDEMPOTENT, the candidate is the plan derived from its own source, and the plan
    derived again from the source recorded in the journal is the candidate's plan (with its plan identity), key order apart, unless the texts of
    the two plans are different texts with one SHA-256 digest. *)
Theorem journal_idempotent_same_plan l c d : plain c ->
  evaluateBtcVoidBuybackLotJournalTransitionV1 (transitionRequest l c) = Ok d ->
  d.@"status" = JStr "IDEMPOTENT" ->
  exists e plan cplan, e ∈ l /\ deriveBtcVoidBuybackLotV1 (e.@"accepted_plan_source") = Ok plan /\
    deriveBtcVoidBuybackLotV1 (c.@"source") = Ok cplan /\ norm c = norm cplan /\
    (norm c = norm plan \/ collides (canonicalJson (omit cplan "buyback_lot_plan_id"))
      (canonicalJson (omit plan "buyback_lot_plan_id"))).
Proof.
  intros Hp (Hl & Hc & ->)%evaluate_request Hst; [|done].
  destruct (findLot l (c.@"buyback_lot_id")) as [e|] eqn:E.
  2:{ destruct (renderDecision_create l c E) as (Hs & _). rewrite Hs in Hst. discriminate. }
  destruct (renderDecision_existing l c e E) as (Hs & _). rewrite Hs in Hst.
  apply findLot_Some in E as (Hin & He & _); [|by destruct Hl as (_ & ? & _)|done].
  rewrite plan_match in Hst by done.
  destruct (String.eqb_spec (plan_of e) (candidate_plan_id c)) as [Heq|]; [|discriminate].
  destruct (eo_plan e He) as (plan & Hd & _ & _ & Hpe).
  destruct (candidate_ids c Hc) as (cplan & sale & Hcd & -> & _ & _ & _ & _ & _ & Hcp & Hcpp).
  exists e, plan, cplan. do 4 (split; [done|]).
  apply (plan_identity_binds _ _ _ _ Hcd Hd).
  rewrite Hpe, Hcpp. destruct (entry_ids e He) as (_ & -> & _).
  unfold candidate_plan_id in Heq. rewrite Heq, Hcp. done.
Qed.
End journal_facts.

(** ** A journal with one lot *)

#[local] Existing Instance poly256 | 0.


Definition sample_plan : json :=
  match deriveBtcVoidBuybackLotV1 sample_lot_request with Ok plan => plan | Throw _ => JNull end.

Definition sample_journal : list json := [createEntry sample_plan].

Lemma sample_plan_plain : plain sample_plan.
Proof. split; vm_compute; reflexivity. Qed.

Lemma journal_create_then_idempotent_witness :
  match evaluateBtcVoidBuybackLotJournalTransitionV1 (transitionRequest [] sample_plan) with
  | Ok d => exists d', evaluateBtcVoidBuybackLotJournalTransitionV1
      (transitionRequest [d.@"append_entry"] sample_plan) = Ok d' /\
      d'.@"status" = JStr "IDEMPOTENT"
  | Throw _ => False
  end.
Proof.
  run_ok (evaluateBtcVoidBuybackLotJournalTransitionV1 (transitionRequest [] sample_plan)) E.
  assert (JStr "CREATE" = out.@"status") as Hst by run_field E (fun d => d.@"status").
  destruct (journal_create_then_idempotent [] sample_plan sample_plan out sample_plan_plain E
    (eq_sym Hst)) as [Hroom _].
  destruct Hroom as (d' & Hd & Hs & _); [vm_compute; reflexivity|].
  exists d'. split; [exact Hd|exact Hs].
Defined.

Lemma journal_history_sound_witness :
  rtc journal_step [] sample_journal /\ NoDup (map sale_of sample_journal).
Proof.
  assert (rtc journal_step [] sample_journal) as Hs.
  { apply rtc_once.
    run_ok (evaluateBtcVoidBuybackLotJournalTransitionV1 (transitionRequest [] sample_plan)) E.
    assert (sample_journal = appended [] (out.@"append_entry")) as ->
      by run_field E (fun d => appended [] (d.@"append_entry")).
    exact (journal_decide [] sample_plan out sample_plan_plain E). }
  split; [exact Hs|].
  destruct (journal_history_sound [] sample_journal eq_refl Hs) as (_ & _ & Hnd & _).
  exact Hnd.
Defined.

Lemma journal_binding_permanent_witness :
  match evaluateBtcVoidBuybackLotJournalTransitionV1 (transitionRequest sample_journal sample_plan) with
  | Ok d => d.@"append_entry" = JNull
  | Throw _ => False
  end.
Proof.
  run_ok (evaluateBtcVoidBuybackLotJournalTransitionV1
    (transitionRequest sample_journal sample_plan)) E.
  destruct (journal_binding_permanent sample_journal sample_journal (createEntry sample_plan)
    sample_plan out (rtc_refl _ _)) as (_ & _ & Ha & _);
    [by left|exact sample_plan_plain|vm_compute; reflexivity|exact E|exact Ha].
Defined.

Lemma journal_idempotent_same_plan_witness :
  match evaluateBtcVoidBuybackLotJournalTransitionV1 (transitionRequest sample_journal sample_plan) with
  | Ok d => exists e plan, e ∈ sample_journal /\
      deriveBtcVoidBuybackLotV1 (e.@"accepted_plan_source") = Ok plan
  | Throw _ => False
  end.
Proof.
  run_ok (evaluateBtcVoidBuybackLotJournalTransitionV1
    (transitionRequest sample_journal sample_plan)) E.
  assert (JStr "IDEMPOTENT" = out.@"status") as Hst by run_field E (fun d => d.@"status").
  destruct (journal_idempotent_same_plan sample_journal sample_plan out sample_plan_plain E
    (eq_sym Hst)) as (e & plan & cplan & Hin & Hd & _).
  exists e, plan. split; [exact Hin|exact Hd].
Defined.
