(* ===== verification/AtomicSettlement.v ===== *)
(** * Atomic settlement traces of the BTC/VOID market

    Model of [tools/void-btc-void-atomic-settlement-state-invariants-v1.mjs]: the
    settlement contract (an indicative quote, its amounts, a hashlock and the two
    refund horizons), the phase machine that a trace of evidence-backed events
    drives, the binding of a settled sale to the buyback plan and journal, and the
    evaluation that reports the result.

    The module checks at load time that it runs from reviewed git objects; what
    that leaves behind ([REVIEWED_SOURCE_GENERATION]: commit, tree and blob
    identities and the bytes of the reviewed files), the SHA-1 blob name and the
    UTF-8 [JSON.parse] of those bytes are parameters here. *)

From S2P Require Import Prelude Js CanonicalJson Sha256 QuoteMath ReservePolicy BuybackJournal.

Definition VOID_BTC_VOID_ATOMIC_SETTLEMENT_STATE_INVARIANTS_V1 : string :=
  "VOID_BTC_VOID_ATOMIC_SETTLEMENT_STATE_INVARIANTS_V1".
Definition BITCOIN_MAX_MONEY_SATOSHIS_V1 : Z := 2100000000000000.
Definition VOID_BTC_VOID_MAX_ATOMIC_VALUE_V1 : Z := Z.shiftl 1 128 - 1.
Definition MAX_HORIZON_SECONDS : Z := Z.shiftl 1 63 - 1.
Definition TRACE_SCHEMA : string :=
  "void.btc_void.atomic_settlement_trace.current_stack.v1".
Definition CONTRACT_SCHEMA : string :=
  "void.btc_void.atomic_settlement_contract.current_stack.v1".
Definition EVENT_SCHEMA : string :=
  "void.btc_void.atomic_settlement_event.current_stack.v1".
Definition TERMINAL_BINDING_SCHEMA : string :=
  "void.btc_void.atomic_settlement_terminal_binding.current_stack.v1".
Definition EVALUATION_SCHEMA : string :=
  "void.btc_void.atomic_settlement_evaluation.current_stack.v1".
Definition MARKET_POLICY_SCHEMA : string :=
  "void.btc_void.current_market_policy_binding.v1".
Definition COUPLED_CANDIDATE_REL : string :=
  "ops/mainnet0/coupled-economic-successor-gate-candidate-v1.json".
Definition SHARED_MARKET_V2_REL : string :=
  "tools/void-shared-market-post-discovery-state-v2.mjs".
Definition EXPECTED_COUPLED_CANDIDATE_GIT_BLOB_SHA1 : string :=
  "fbbc3174406f76077c8cb2fc11df9545938c0c8f".
Definition EXPECTED_SHARED_MARKET_V2_GIT_BLOB_SHA1 : string :=
  "bcfff9c2981e713a7053ff51a39145eb06b7238b".
Definition EXPECTED_SHARED_MARKET_V2_MARKER : string :=
  "VOID_SHARED_MARKET_POST_DISCOVERY_STATE_V2".
Definition EXPECTED_SHARED_MARKET_V2_SCHEMA : string :=
  "void.shared-market-post-discovery-state.v2".
Definition EXPECTED_SHARED_MARKET_V2_PROFILE : string :=
  "canonical_source_model_fixture_v2".
Definition EXPECTED_SHARED_MARKET_V2_RECONCILIATION_ID : string :=
  "sha256:9b74e695f3988b4bcaa7abcdbdb767ea927fc294440a1ff2ecfbcd4db9bf7f04".
Definition CANONICAL_VOID_TOKEN : string :=
  "0x470075b85352eb86f7d089fb9ba88945f12aad94".
Definition TEN_MILLION_VOID_ATOMS : string :=
  "10000000000000000000000000".
Definition TWENTY_MILLION_VOID_ATOMS : string :=
  "20000000000000000000000000".
Definition TWENTY_FIVE_MILLION_VOID_ATOMS : string :=
  "25000000000000000000000000".
Definition THIRTY_MILLION_VOID_ATOMS : string :=
  "30000000000000000000000000".
Definition MAX_EVENTS : Z := 64.
Definition MAX_CANONICAL_CANDIDATE_BYTES : Z := 2 * 1024 * 1024.

(** ** Phases and events *)

Inductive Phase :=
| RESERVED | HASH_BOUND | SOURCE_FUNDED | SOURCE_CONFIRMED | COUNTERPARTY_LOCKED
| REFUND_PENDING_SOURCE | PREIMAGE_REVEALED | BOTH_CLAIMS_OBSERVED
| SETTLED | EXPIRED | REFUNDED | HELD | CANCELLED_BEFORE_FUNDING.

Inductive EventType :=
| BIND_HASHLOCK | EXPIRE_RESERVATION | CANCEL_BEFORE_FUNDING | HOLD
| OBSERVE_SOURCE_FUNDING | CONFIRM_SOURCE_FUNDING | OBSERVE_SOURCE_REFUND
| OBSERVE_COUNTERPARTY_LOCK | OBSERVE_COUNTERPARTY_REFUND | OBSERVE_PREIMAGE_REVEAL
| OBSERVE_BOTH_CLAIMS | FINALIZE_SETTLEMENT.

#[export] Instance Phase_eq_dec : EqDecision Phase.
Proof. solve_decision. Defined.
#[export] Instance EventType_eq_dec : EqDecision EventType.
Proof. solve_decision. Defined.

Definition phase_name (p : Phase) : string :=
  match p with
  | RESERVED => "RESERVED"
  | HASH_BOUND => "HASH_BOUND"
  | SOURCE_FUNDED => "SOURCE_FUNDED"
  | SOURCE_CONFIRMED => "SOURCE_CONFIRMED"
  | COUNTERPARTY_LOCKED => "COUNTERPARTY_LOCKED"
  | REFUND_PENDING_SOURCE => "REFUND_PENDING_SOURCE"
  | PREIMAGE_REVEALED => "PREIMAGE_REVEALED"
  | BOTH_CLAIMS_OBSERVED => "BOTH_CLAIMS_OBSERVED"
  | SETTLED => "SETTLED"
  | EXPIRED => "EXPIRED"
  | REFUNDED => "REFUNDED"
  | HELD => "HELD"
  | CANCELLED_BEFORE_FUNDING => "CANCELLED_BEFORE_FUNDING"
  end.

Definition event_name (e : EventType) : string :=
  match e with
  | BIND_HASHLOCK => "BIND_HASHLOCK"
  | EXPIRE_RESERVATION => "EXPIRE_RESERVATION"
  | CANCEL_BEFORE_FUNDING => "CANCEL_BEFORE_FUNDING"
  | HOLD => "HOLD"
  | OBSERVE_SOURCE_FUNDING => "OBSERVE_SOURCE_FUNDING"
  | CONFIRM_SOURCE_FUNDING => "CONFIRM_SOURCE_FUNDING"
  | OBSERVE_SOURCE_REFUND => "OBSERVE_SOURCE_REFUND"
  | OBSERVE_COUNTERPARTY_LOCK => "OBSERVE_COUNTERPARTY_LOCK"
  | OBSERVE_COUNTERPARTY_REFUND => "OBSERVE_COUNTERPARTY_REFUND"
  | OBSERVE_PREIMAGE_REVEAL => "OBSERVE_PREIMAGE_REVEAL"
  | OBSERVE_BOTH_CLAIMS => "OBSERVE_BOTH_CLAIMS"
  | FINALIZE_SETTLEMENT => "FINALIZE_SETTLEMENT"
  end.

Definition EVENT_TYPES : list EventType :=
  [BIND_HASHLOCK;
   EXPIRE_RESERVATION;
   CANCEL_BEFORE_FUNDING;
   HOLD;
   OBSERVE_SOURCE_FUNDING;
   CONFIRM_SOURCE_FUNDING;
   OBSERVE_SOURCE_REFUND;
   OBSERVE_COUNTERPARTY_LOCK;
   OBSERVE_COUNTERPARTY_REFUND;
   OBSERVE_PREIMAGE_REVEAL;
   OBSERVE_BOTH_CLAIMS;
   FINALIZE_SETTLEMENT].

(** [EVENT_TYPES.has(value)], naming the event. *)
Definition event_of (v : json) : option EventType :=
  List.find (fun e => v === event_name e) EVENT_TYPES.

Definition TERMINAL_PHASES (p : Phase) : bool :=
  match p with
  | SETTLED | EXPIRED | REFUNDED | HELD | CANCELLED_BEFORE_FUNDING => true
  | _ => false
  end.

Definition TRANSITIONS (p : Phase) (e : EventType) : option Phase :=
  match p, e with
  | RESERVED, BIND_HASHLOCK => Some HASH_BOUND
  | RESERVED, EXPIRE_RESERVATION => Some EXPIRED
  | RESERVED, CANCEL_BEFORE_FUNDING => Some CANCELLED_BEFORE_FUNDING
  | RESERVED, HOLD => Some HELD
  | HASH_BOUND, OBSERVE_SOURCE_FUNDING => Some SOURCE_FUNDED
  | HASH_BOUND, EXPIRE_RESERVATION => Some EXPIRED
  | HASH_BOUND, CANCEL_BEFORE_FUNDING => Some CANCELLED_BEFORE_FUNDING
  | HASH_BOUND, HOLD => Some HELD
  | SOURCE_FUNDED, CONFIRM_SOURCE_FUNDING => Some SOURCE_CONFIRMED
  | SOURCE_FUNDED, OBSERVE_SOURCE_REFUND => Some REFUNDED
  | SOURCE_FUNDED, HOLD => Some HELD
  | SOURCE_CONFIRMED, OBSERVE_COUNTERPARTY_LOCK => Some COUNTERPARTY_LOCKED
  | SOURCE_CONFIRMED, OBSERVE_SOURCE_REFUND => Some REFUNDED
  | SOURCE_CONFIRMED, HOLD => Some HELD
  | COUNTERPARTY_LOCKED, OBSERVE_PREIMAGE_REVEAL => Some PREIMAGE_REVEALED
  | COUNTERPARTY_LOCKED, OBSERVE_COUNTERPARTY_REFUND => Some REFUND_PENDING_SOURCE
  | COUNTERPARTY_LOCKED, HOLD => Some HELD
  | REFUND_PENDING_SOURCE, OBSERVE_SOURCE_REFUND => Some REFUNDED
  | REFUND_PENDING_SOURCE, HOLD => Some HELD
  | PREIMAGE_REVEALED, OBSERVE_BOTH_CLAIMS => Some BOTH_CLAIMS_OBSERVED
  | PREIMAGE_REVEALED, HOLD => Some HELD
  | BOTH_CLAIMS_OBSERVED, FINALIZE_SETTLEMENT => Some SETTLED
  | BOTH_CLAIMS_OBSERVED, HOLD => Some HELD
  | _, _ => None
  end.

(** ** The current market policy *)

(** What the module knows of the reviewed sources it runs from. *)
Record SourceGeneration := mkSourceGeneration {
  sg_head : string;
  sg_tree : string;
  sg_tool_blob_sha1 : string;
  sg_git_executable_sha256 : string;
  sg_source_blobs : list (string * json);
  sg_source_bytes : string -> option string
}.

(** SHA-1 names of git blobs, and [JSON.parse] of fatally decoded UTF-8. *)
Class SourceTools := {
  gitBlobSha1 : string -> string;
  parse_utf8_json : string -> option json
}.

Definition canonicalTextV1 : json -> res string :=
  canonical_text "canonical JSON requires safe integers" "canonical JSON value is unsupported".

Definition positiveDecimal (value : json) (label : string) (maximum : Z) : res Z :=
  match value with
  | JStr s =>
      if is_canonical_decimal s && negb (String.eqb s "0") then
        let parsed := BigInt s in
        throw_if (parsed >? maximum) (label +:+ " exceeds the v1 maximum");;
        Ok parsed
      else Throw (label +:+ " must be a positive canonical decimal string")
  | _ => Throw (label +:+ " must be a positive canonical decimal string")
  end.

(** [c1 || c2 || ...] of conditions [value !== expected]. *)
Definition any_mismatch (checks : list (json * json)) : bool :=
  existsb (fun c => c.1 !== c.2) checks.

Definition sharedMarketChecks (candidate shared : json) : list (json * json) := [
    (candidate.@"marker", JStr "VOID_COUPLED_ECONOMIC_SUCCESSOR_GATE_V1");
    (candidate.@"version", jint 1);
    (shared.@"profile", JStr "canonical_source_model_fixture_v2");
    (shared.@"source_model_fixture", JBool true);
    (shared.@"runtime_or_launch_evidence", JBool false);
    (shared.@"marker", JStr EXPECTED_SHARED_MARKET_V2_MARKER);
    (shared.@"schema", JStr EXPECTED_SHARED_MARKET_V2_SCHEMA);
    (shared.@"profile", JStr EXPECTED_SHARED_MARKET_V2_PROFILE);
    (shared.@"reconciliation_id", JStr EXPECTED_SHARED_MARKET_V2_RECONCILIATION_ID);
    (shared.@"chain_id", jint 2050);
    (shared.@"network_identity", JStr "mainnet0");
    (shared.@"execution_epoch", jint 2);
    (shared.@"void_token", JStr CANONICAL_VOID_TOKEN);
    (shared.@"void_token_decimals", jint 18);
    (shared.@"btc_void_phase", JStr "post_presale_unopened");
    (shared.@"btc_void_remains_post_presale", JBool true);
    (shared.@"shared_post_discovery_model_reconciled", JBool true);
    (shared.@"legacy_v1_six_decimal_void_atoms_authoritative", JBool false);
    (shared.@"all_markets_share_one_presale_closeout", JBool false);
    (shared.@"total_planned_void_inventory_atoms", JStr THIRTY_MILLION_VOID_ATOMS);
    (shared.@"unopened_post_presale_planned_void_inventory_atoms", JStr TWENTY_MILLION_VOID_ATOMS);
    (shared.@"modeled_protocol_side_void_after_wc_opening_before_post_presale_markets_atoms", JStr TWENTY_FIVE_MILLION_VOID_ATOMS);
    (shared.@"quote_reserve_custody_verified", JBool false);
    (shared.@"void_reserve_custody_verified", JBool false);
    (shared.@"market_activation_authority", JBool false);
    (shared.@"public_presale_activation_authority", JBool false);
    (shared.@"inventory_funding_authority", JBool false);
    (shared.@"funds_movement_authority", JBool false)].

Definition sharedMarketBinding (shared : json) : json :=
  JObj [
    "source_path" ~> COUPLED_CANDIDATE_REL;
    "source_git_blob_sha1" ~> EXPECTED_COUPLED_CANDIDATE_GIT_BLOB_SHA1;
    "profile" ~> shared.@"profile";
    "reconciliation_id" ~> shared.@"reconciliation_id";
    "marker" ~> shared.@"marker";
    "schema" ~> shared.@"schema";
    "chain_id" ~> shared.@"chain_id";
    "network_identity" ~> shared.@"network_identity";
    "execution_epoch" ~> shared.@"execution_epoch";
    "void_token" ~> shared.@"void_token";
    "void_token_decimals" ~> shared.@"void_token_decimals";
    "btc_void_phase" ~> shared.@"btc_void_phase";
    "btc_void_remains_post_presale" ~> shared.@"btc_void_remains_post_presale";
    "total_planned_void_inventory_atoms" ~> shared.@"total_planned_void_inventory_atoms";
    "unopened_post_presale_planned_void_inventory_atoms" ~> shared.@"unopened_post_presale_planned_void_inventory_atoms";
    "modeled_protocol_side_void_after_wc_opening_before_post_presale_markets_atoms" ~> shared.@"modeled_protocol_side_void_after_wc_opening_before_post_presale_markets_atoms";
    "quote_reserve_custody_verified" ~> shared.@"quote_reserve_custody_verified";
    "void_reserve_custody_verified" ~> shared.@"void_reserve_custody_verified";
    "inventory_funding_authority" ~> shared.@"inventory_funding_authority";
    "market_activation_authority" ~> shared.@"market_activation_authority";
    "public_presale_activation_authority" ~> shared.@"public_presale_activation_authority";
    "funds_movement_authority" ~> shared.@"funds_movement_authority"].

Definition marketPolicyPayload (shared : json) : json :=
  JObj [
    "schema" ~> MARKET_POLICY_SCHEMA;
    "pair" ~> "BTC_VOID";
    "shared_market_marker" ~> shared.@"marker";
    "shared_market_schema" ~> shared.@"schema";
    "shared_market_profile" ~> shared.@"profile";
    "shared_market_source_path" ~> shared.@"source_path";
    "shared_market_source_git_blob_sha1" ~> shared.@"source_git_blob_sha1";
    "shared_market_v2_source_path" ~> SHARED_MARKET_V2_REL;
    "shared_market_v2_source_git_blob_sha1" ~> EXPECTED_SHARED_MARKET_V2_GIT_BLOB_SHA1;
    "shared_market_reconciliation_id" ~> shared.@"reconciliation_id";
    "chain_id" ~> shared.@"chain_id";
    "network_identity" ~> shared.@"network_identity";
    "execution_epoch" ~> shared.@"execution_epoch";
    "void_token" ~> shared.@"void_token";
    "void_token_decimals" ~> shared.@"void_token_decimals";
    "btc_void_phase" ~> shared.@"btc_void_phase";
    "btc_void_remains_post_presale" ~> shared.@"btc_void_remains_post_presale";
    "quote_asset" ~> "BTC";
    "base_asset" ~> "VOID";
    "settlement_source_domain" ~> "bitcoin-mainnet";
    "quote_asset_form" ~> "native";
    "quote_unit" ~> "satoshi";
    "quote_decimals" ~> jint 8;
    "protocol_quote_seed_units" ~> "0";
    "planned_btc_void_inventory_atoms" ~> TEN_MILLION_VOID_ATOMS;
    "unopened_post_presale_planned_void_inventory_atoms" ~> shared.@"unopened_post_presale_planned_void_inventory_atoms";
    "quote_reserve_custody_verified" ~> shared.@"quote_reserve_custody_verified";
    "void_reserve_custody_verified" ~> shared.@"void_reserve_custody_verified";
    "inventory_funding_authority" ~> shared.@"inventory_funding_authority";
    "market_activation_authority" ~> shared.@"market_activation_authority";
    "public_presale_activation_authority" ~> shared.@"public_presale_activation_authority";
    "funds_movement_authority" ~> shared.@"funds_movement_authority";
    "legacy_v1_shared_market_production_authority" ~> false;
    "wc_void_fixed_redemption_claim_created" ~> false;
    "wc_void_pricing_remains_market_determined" ~> true].

Section settlement.
Context {H : Digest} {T : SourceTools}.
Context (generation : SourceGeneration).

Definition contentId : json -> res string := contentIdOf canonicalTextV1.

Definition readCanonicalSharedMarketV2Binding : res json :=
  sharedSource ← match generation.(sg_source_bytes) SHARED_MARKET_V2_REL with
    | Some b => Ok b
    | None => Throw "shared-market v2 source generation mismatch"
    end;
  throw_if (negb (String.eqb (gitBlobSha1 sharedSource) EXPECTED_SHARED_MARKET_V2_GIT_BLOB_SHA1))
    "shared-market v2 source generation mismatch";;
  bytes ← match generation.(sg_source_bytes) COUPLED_CANDIDATE_REL with
    | Some b => Ok b
    | None => Throw "canonical coupled candidate source generation mismatch"
    end;
  throw_if ((Z.of_nat (String.length bytes) <? 2) ||
      (Z.of_nat (String.length bytes) >? MAX_CANONICAL_CANDIDATE_BYTES) ||
      negb (String.eqb (gitBlobSha1 bytes) EXPECTED_COUPLED_CANDIDATE_GIT_BLOB_SHA1))
    "canonical coupled candidate source generation mismatch";;
  candidate ← match parse_utf8_json bytes with
    | Some v => Ok v
    | None => Throw "canonical coupled candidate JSON invalid"
    end;
  let shared := candidate.@"shared_post_discovery_reconciliation" in
  throw_if (any_mismatch (sharedMarketChecks candidate shared))
    "canonical shared-market v2 BTC_VOID policy mismatch";;
  sha256Id (shared.@"reconciliation_id") "shared reconciliation_id";;
  Ok (sharedMarketBinding shared).

Definition currentBtcVoidMarketPolicyBindingV1 : res json :=
  shared ← readCanonicalSharedMarketV2Binding;
  let payload := marketPolicyPayload shared in
  market_policy_id ← contentId payload;
  Ok (extend payload "market_policy_id" (JStr market_policy_id)).

(** ** The settlement contract *)

Record ValidContract := mkValidContract {
  vc_contract : json;
  vc_quote : json;
  vc_marketPolicy : json
}.

Definition CONTRACT_KEYS : list string := [
  "schema"; "pair"; "direction"; "market_policy_id"; "quote_request"; "indicative_quote_id";
  "bitcoin_amount_satoshis"; "void_amount_atomic"; "hashlock_sha256";
  "bitcoin_refund_horizon_seconds"; "void_refund_horizon_seconds";
  "minimum_refund_safety_margin_seconds"; "contract_id"]%string.

(** The amounts of the contract are those of the quote. *)
Definition checkAmounts (contract quote : json) : res unit :=
  bitcoinAmount ← positiveDecimal (contract.@"bitcoin_amount_satoshis")
    "contract.bitcoin_amount_satoshis" BITCOIN_MAX_MONEY_SATOSHIS_V1;
  voidAmount ← positiveDecimal (contract.@"void_amount_atomic")
    "contract.void_amount_atomic" VOID_BTC_VOID_MAX_ATOMIC_VALUE_V1;
  let btcIn := contract.@"direction" === "btc_to_void" in
  let expectedBitcoin :=
    if btcIn then quote.@"request".@"amount_in" else quote.@"result".@"amount_out" in
  let expectedVoid :=
    if btcIn then quote.@"result".@"amount_out" else quote.@"request".@"amount_in" in
  throw_if (JStr (dec bitcoinAmount) !== expectedBitcoin)
    "contract Bitcoin amount does not match current quote";;
  throw_if (JStr (dec voidAmount) !== expectedVoid)
    "contract VOID amount does not match current quote";;
  Ok tt.

(** The leg that is funded first must be refundable last. *)
Definition checkHorizons (contract : json) : res unit :=
  btcHorizon ← positiveDecimal (contract.@"bitcoin_refund_horizon_seconds")
    "contract.bitcoin_refund_horizon_seconds" MAX_HORIZON_SECONDS;
  voidHorizon ← positiveDecimal (contract.@"void_refund_horizon_seconds")
    "contract.void_refund_horizon_seconds" MAX_HORIZON_SECONDS;
  margin ← positiveDecimal (contract.@"minimum_refund_safety_margin_seconds")
    "contract.minimum_refund_safety_margin_seconds" MAX_HORIZON_SECONDS;
  throw_if ((contract.@"direction" === "btc_to_void") && (btcHorizon <? voidHorizon + margin))
    "btc_to_void requires the Bitcoin refund horizon to be safely longer";;
  throw_if ((contract.@"direction" === "void_to_btc") && (voidHorizon <? btcHorizon + margin))
    "void_to_btc requires the VOID refund horizon to be safely longer";;
  Ok tt.

Definition validateContract (raw : json) : res ValidContract :=
  contract ← exactKeys raw CONTRACT_KEYS "contract";
  throw_if (contract.@"schema" !== CONTRACT_SCHEMA) "contract schema mismatch";;
  throw_if (contract.@"pair" !== "BTC_VOID") "official pair must be BTC_VOID";;
  throw_if (negb (includes DIRECTIONS (contract.@"direction"))) "contract direction mismatch";;
  marketPolicy ← currentBtcVoidMarketPolicyBindingV1;
  throw_if (contract.@"market_policy_id" !== marketPolicy.@"market_policy_id")
    "contract market_policy_id does not match current shared market policy";;
  quote ← quoteBtcVoidV1 (contract.@"quote_request");
  throw_if (contract.@"indicative_quote_id" !== quote.@"indicative_quote_id")
    "contract indicative_quote_id does not match current quote derivation";;
  throw_if (negb (strict_eq (quote.@"request".@"direction") (contract.@"direction")))
    "contract direction does not match current quote direction";;
  throw_if (any_mismatch [
      (quote.@"authority".@"indicative_only", JBool true);
      (quote.@"authority".@"execution_authorized", JBool false);
      (quote.@"authority".@"transaction_broadcast", JBool false)])
    "current quote authority boundary mismatch";;
  checkAmounts contract quote;;
  throw_if (negb (is_hex64_value (contract.@"hashlock_sha256")))
    "contract.hashlock_sha256 must be lowercase hex64";;
  checkHorizons contract;;
  expectedId ← contentId (omit contract "contract_id");
  throw_if (contract.@"contract_id" !== JStr expectedId) "contract_id content mismatch";;
  Ok (mkValidContract contract quote marketPolicy).

(** ** Events *)

Definition EVENT_KEYS : list string := [
  "schema"; "contract_id"; "event_type"; "from_phase"; "to_phase"; "refund_asset_role";
  "evidence_id"; "event_id"]%string.

Definition expectedRefundRole (contract : json) (event_type : EventType) : string :=
  let btcIn := contract.@"direction" === "btc_to_void" in
  match event_type with
  | OBSERVE_SOURCE_REFUND => if btcIn then "SOURCE_NATIVE_BTC" else "SOURCE_NATIVE_VOID"
  | OBSERVE_COUNTERPARTY_REFUND =>
      if btcIn then "COUNTERPARTY_NATIVE_VOID" else "COUNTERPARTY_NATIVE_BTC"
  | _ => "NOT_A_REFUND"
  end.

(** An event that passed [validateEvent], with its type. *)
Record Event := mkEvent {
  ev_json : json;
  ev_type : EventType
}.

Definition event_label (index : nat) : string := "events[" +:+ dec (Z.of_nat index) +:+ "]".

Definition validateEvent (contract : json) (index : nat) (raw : json) : res Event :=
  let label := event_label index in
  event ← exactKeys raw EVENT_KEYS label;
  throw_if (event.@"schema" !== EVENT_SCHEMA) (label +:+ ".schema mismatch");;
  throw_if (event.@"contract_id" !== contract.@"contract_id") (label +:+ ".contract_id mismatch");;
  event_type ← match event_of (event.@"event_type") with
    | Some t => Ok t
    | None => Throw (label +:+ ".event_type must be a supported v1 event name")
    end;
  throw_if (event.@"refund_asset_role" !== expectedRefundRole contract event_type)
    (label +:+ ".refund_asset_role mismatch");;
  sha256Id (event.@"evidence_id") (label +:+ ".evidence_id");;
  expectedId ← contentId (omit event "event_id");
  throw_if (event.@"event_id" !== JStr expectedId) (label +:+ ".event_id content mismatch");;
  Ok (mkEvent event event_type).

(** ** The event loop *)

Record TraceState := mkTraceState {
  phase : Phase;
  appliedEventIds : list string;
  seenEvents : gmap string json;
  evidenceOwners : gmap string string;
  lastAppliedEvent : option Event
}.

Definition initialState : TraceState := mkTraceState RESERVED [] ∅ ∅ None.

Definition stepEvent (index : nat) (st : TraceState) (e : Event) : res TraceState :=
  let event := e.(ev_json) in
  let event_id := id_text (event.@"event_id") in
  let evidence_id := id_text (event.@"evidence_id") in
  match st.(seenEvents) !! event_id with
  | Some prior =>
      priorText ← canonicalTextV1 prior;
      eventText ← canonicalTextV1 event;
      throw_if (negb (String.eqb priorText eventText))
        (event_label index +:+ " reuses an event_id with changed content");;
      Ok st
  | None =>
      throw_if (bool_decide (is_Some (st.(evidenceOwners) !! evidence_id)))
        (event_label index +:+ " reuses evidence_id from a different event");;
      throw_if (TERMINAL_PHASES st.(phase))
        (event_label index +:+ " attempts to reopen terminal phase " +:+ phase_name st.(phase));;
      throw_if (event.@"from_phase" !== phase_name st.(phase))
        (event_label index +:+ ".from_phase does not match current phase");;
      match TRANSITIONS st.(phase) e.(ev_type) with
      | Some expected =>
          throw_if (JStr (phase_name expected) !== event.@"to_phase")
            (event_label index +:+ " transition is not allowed");;
          Ok (mkTraceState expected (st.(appliedEventIds) ++ [event_id])
            (<[event_id := event]> st.(seenEvents))
            (<[evidence_id := event_id]> st.(evidenceOwners)) (Some e))
      | None => Throw (event_label index +:+ " transition is not allowed")
      end
  end.

Fixpoint runEvents (index : nat) (st : TraceState) (events : list Event) : res TraceState :=
  match events with
  | [] => Ok st
  | e :: events' => st' ← stepEvent index st e; runEvents (S index) st' events'
  end.

(** ** The terminal binding *)

Record TerminalBinding := mkTerminalBinding {
  tb_plan : json;
  tb_journalDecision : json
}.

Definition validateTerminalBinding (raw contract : json) : res (option TerminalBinding) :=
  match raw with
  | JNull => Ok None
  | _ =>
      binding ← exactKeys raw ["schema"; "reserve_recycling_request"; "journal_entries";
        "expected_buyback_lot_plan_id"; "expected_journal_decision_id"; "binding_id"]%string
        "terminal_binding";
      throw_if (binding.@"schema" !== TERMINAL_BINDING_SCHEMA) "terminal_binding schema mismatch";;
      sha256Id (binding.@"expected_buyback_lot_plan_id")
        "terminal_binding.expected_buyback_lot_plan_id";;
      sha256Id (binding.@"expected_journal_decision_id")
        "terminal_binding.expected_journal_decision_id";;
      throw_if (match binding.@"journal_entries" with JArr _ => false | _ => true end)
        "terminal_binding.journal_entries must be an array";;
      plan ← deriveBtcVoidBuybackLotV1 (binding.@"reserve_recycling_request");
      throw_if (plan.@"buyback_lot_plan_id" !== binding.@"expected_buyback_lot_plan_id")
        "terminal_binding buyback lot plan identity mismatch";;
      let settlement := plan.@"source".@"settlement" in
      throw_if ((settlement.@"direction" !== "btc_to_void") || (settlement.@"status" !== "settled"))
        "terminal_binding must describe a settled BTC-to-VOID sale";;
      throw_if (settlement.@"btc_received_sats" !== contract.@"bitcoin_amount_satoshis")
        "terminal_binding BTC amount does not match settlement contract";;
      throw_if (settlement.@"void_sold_atomic" !== contract.@"void_amount_atomic")
        "terminal_binding VOID amount does not match settlement contract";;
      journalDecision ← evaluateBtcVoidBuybackLotJournalTransitionV1 (JObj [
        "schema" ~> "void.btc_void.buyback_lot_journal_transition_request.v1";
        "journal_entries" ~> binding.@"journal_entries";
        "candidate_plan" ~> plan]);
      throw_if (journalDecision.@"decision_id" !== binding.@"expected_journal_decision_id")
        "terminal_binding journal decision identity mismatch";;
      throw_if (negb (includes ["CREATE"; "IDEMPOTENT"]%string (journalDecision.@"status")))
        "terminal_binding current buyback journal requires HOLD";;
      expectedId ← contentId (omit binding "binding_id");
      throw_if (binding.@"binding_id" !== JStr expectedId)
        "terminal_binding binding_id content mismatch";;
      Ok (Some (mkTerminalBinding plan journalDecision))
  end.

(** What the end of the trace requires of [terminal_binding]. *)
Definition resolveTerminal (st : TraceState) (contract terminal_binding : json)
  : res (option TerminalBinding) :=
  if bool_decide (st.(phase) = SETTLED) && (contract.@"direction" === "btc_to_void") then
    terminal ← validateTerminalBinding terminal_binding contract;
    match terminal with
    | None => Throw "settled btc_to_void trace requires terminal_binding"
    | Some t =>
        throw_if (match st.(lastAppliedEvent) with
          | Some e => negb (bool_decide (e.(ev_type) = FINALIZE_SETTLEMENT)) ||
              negb (strict_eq (e.(ev_json).@"evidence_id")
                (t.(tb_plan).@"source".@"settlement".@"source_sale_id"))
          | None => true
          end) "FINALIZE_SETTLEMENT evidence must bind the current source_sale_id";;
        Ok (Some t)
    end
  else
    throw_if (terminal_binding !== JNull)
      "terminal_binding is allowed only for settled btc_to_void traces";;
    Ok None.

(** ** The evaluation *)

Definition executionSourceBinding : json :=
  JObj [
    "source_head_sha" ~> generation.(sg_head);
    "source_tree_sha" ~> generation.(sg_tree);
    "settlement_tool_git_blob_sha1" ~> generation.(sg_tool_blob_sha1);
    "git_executable_sha256" ~> generation.(sg_git_executable_sha256);
    "dependency_git_blobs" ~> JObj generation.(sg_source_blobs);
    "exact_reviewed_git_object_execution" ~> true;
    "private_readonly_execution_bundle" ~> true;
    "git_replacement_objects_disabled" ~> true].

Definition currentMarketBinding (marketPolicy : json) : json :=
  JObj [
    "pair" ~> marketPolicy.@"pair";
    "shared_market_marker" ~> marketPolicy.@"shared_market_marker";
    "shared_market_schema" ~> marketPolicy.@"shared_market_schema";
    "shared_market_source_git_blob_sha1" ~> marketPolicy.@"shared_market_source_git_blob_sha1";
    "shared_market_v2_source_git_blob_sha1" ~> marketPolicy.@"shared_market_v2_source_git_blob_sha1";
    "shared_market_reconciliation_id" ~> marketPolicy.@"shared_market_reconciliation_id";
    "chain_id" ~> marketPolicy.@"chain_id";
    "network_identity" ~> marketPolicy.@"network_identity";
    "execution_epoch" ~> marketPolicy.@"execution_epoch";
    "void_token" ~> marketPolicy.@"void_token";
    "void_token_decimals" ~> marketPolicy.@"void_token_decimals";
    "btc_void_phase" ~> marketPolicy.@"btc_void_phase";
    "btc_void_remains_post_presale" ~> marketPolicy.@"btc_void_remains_post_presale";
    "settlement_source_domain" ~> marketPolicy.@"settlement_source_domain";
    "quote_asset_form" ~> marketPolicy.@"quote_asset_form";
    "quote_unit" ~> marketPolicy.@"quote_unit";
    "quote_decimals" ~> marketPolicy.@"quote_decimals";
    "protocol_quote_seed_units" ~> marketPolicy.@"protocol_quote_seed_units";
    "planned_btc_void_inventory_atoms" ~> marketPolicy.@"planned_btc_void_inventory_atoms";
    "quote_reserve_custody_verified" ~> marketPolicy.@"quote_reserve_custody_verified";
    "void_reserve_custody_verified" ~> marketPolicy.@"void_reserve_custody_verified";
    "inventory_funding_authority" ~> marketPolicy.@"inventory_funding_authority";
    "market_activation_authority" ~> marketPolicy.@"market_activation_authority";
    "public_presale_activation_authority" ~> marketPolicy.@"public_presale_activation_authority";
    "funds_movement_authority" ~> marketPolicy.@"funds_movement_authority";
    "legacy_v1_shared_market_production_authority" ~> false;
    "wc_void_fixed_redemption_claim_created" ~> false;
    "wc_void_pricing_remains_market_determined" ~> true].

Definition terminalFollowOn (terminal : option TerminalBinding) : json :=
  match terminal with
  | None => JNull
  | Some t =>
      JObj [
        "source_sale_id" ~> t.(tb_plan).@"source".@"settlement".@"source_sale_id";
        "buyback_lot_id" ~> t.(tb_plan).@"buyback_lot_id";
        "buyback_lot_plan_id" ~> t.(tb_plan).@"buyback_lot_plan_id";
        "journal_decision_id" ~> t.(tb_journalDecision).@"decision_id";
        "journal_status" ~> t.(tb_journalDecision).@"status"]
  end.

Definition settlementInvariants (bound : bool) : json :=
  JObj [
    "official_pair_btc_void_only" ~> true;
    "current_quote_rederived_and_bound" ~> true;
    "exact_reviewed_execution_git_objects_bound" ~> true;
    "reviewed_execution_loaded_before_authority_evaluation" ~> true;
    "native_integer_amounts_bound" ~> true;
    "bitcoin_amount_within_max_money" ~> true;
    "current_shared_market_policy_bound" ~> true;
    "current_shared_market_v2_canonical_source_bound" ~> true;
    "historical_v1_shared_market_authority_rejected" ~> true;
    "btc_void_post_presale_unopened_required" ~> true;
    "btc_void_inventory_funding_and_activation_authority_false" ~> true;
    "current_reserve_policy_rederived_on_btc_sale_settlement" ~> bound;
    "current_buyback_journal_decision_rederived_on_btc_sale_settlement" ~> bound;
    "asymmetric_refund_safety_margin_proven" ~> true;
    "transitions_fail_closed" ~> true;
    "exact_event_replay_idempotent" ~> true;
    "terminal_states_cannot_reopen" ~> true;
    "every_transition_evidence_backed" ~> true;
    "distinct_transitions_require_distinct_evidence" ~> true;
    "refund_evidence_binds_explicit_native_asset_roles" ~> true;
    "both_locked_refund_requires_both_asset_resolutions" ~> true;
    "no_automatic_retry" ~> true;
    "fixed_wc_void_redemption_introduced" ~> false].

Definition settlementAuthority : json :=
  JObj [
    "source_only_evaluation" ~> true;
    "bitcoin_regtest_executed" ~> false;
    "chain2050_execution_performed" ~> false;
    "live_market_observed" ~> false;
    "executable_inventory_reserved" ~> false;
    "liquidity_seeded" ~> false;
    "wallet_or_signer_accessed" ~> false;
    "transaction_constructed" ~> false;
    "transaction_broadcast" ~> false;
    "treasury_action_authorized" ~> false;
    "market_activation_authorized" ~> false;
    "funds_moved" ~> false].

Definition renderEvaluation (vc : ValidContract) (st : TraceState) (terminal : option TerminalBinding)
  : json :=
  let contract := vc.(vc_contract) in
  let bound := (contract.@"direction" !== "btc_to_void") || negb (bool_decide (st.(phase) = SETTLED)) ||
    bool_decide (is_Some terminal) in
  JObj [
    "schema" ~> EVALUATION_SCHEMA;
    "marker" ~> VOID_BTC_VOID_ATOMIC_SETTLEMENT_STATE_INVARIANTS_V1;
    "contract_id" ~> contract.@"contract_id";
    "direction" ~> contract.@"direction";
    "indicative_quote_id" ~> vc.(vc_quote).@"indicative_quote_id";
    "market_policy_id" ~> vc.(vc_marketPolicy).@"market_policy_id";
    "final_phase" ~> phase_name st.(phase);
    "terminal" ~> TERMINAL_PHASES st.(phase);
    "applied_event_ids" ~> JArr (map JStr st.(appliedEventIds));
    "execution_source_binding" ~> executionSourceBinding;
    "current_market_binding" ~> currentMarketBinding vc.(vc_marketPolicy);
    "terminal_market_follow_on" ~> terminalFollowOn terminal;
    "invariants" ~> settlementInvariants bound;
    "authority" ~> settlementAuthority].

Definition evaluateBtcVoidAtomicSettlementTraceV1 (raw : json) : res json :=
  request ← exactKeys raw ["schema"; "contract"; "initial_phase"; "events"; "terminal_binding"]%string
    "trace";
  throw_if (request.@"schema" !== TRACE_SCHEMA) "trace schema mismatch";;
  throw_if (request.@"initial_phase" !== "RESERVED") "trace must start at RESERVED";;
  rawEvents ← match request.@"events" with
    | JArr l => Ok l
    | _ => Throw "events must be an array"
    end;
  throw_if (Z.of_nat (length rawEvents) >? MAX_EVENTS) "events exceeds the v1 limit";;
  vc ← validateContract (request.@"contract");
  events ← mapi_res (validateEvent vc.(vc_contract)) 0 rawEvents;
  st ← runEvents 0 initialState events;
  terminal ← resolveTerminal st vc.(vc_contract) (request.@"terminal_binding");
  let evaluation := renderEvaluation vc st terminal in
  evaluation_id ← contentId evaluation;
  Ok (extend evaluation "evaluation_id" (JStr evaluation_id)).
End settlement.

(** ** The phase machine *)

(** The transitions a trace may take, and the paths they form. *)
Inductive phase_path : Phase -> list EventType -> Phase -> Prop :=
| path_here p : phase_path p [] p
| path_step p t q ts r : TRANSITIONS p t = Some q -> phase_path q ts r -> phase_path p (t :: ts) r.

#[export] Hint Constructors phase_path : voidnet.

(** The number of steps left before a terminal phase, at most. *)
Definition phase_rank (p : Phase) : nat :=
  match p with
  | RESERVED => 7 | HASH_BOUND => 6 | SOURCE_FUNDED => 5 | SOURCE_CONFIRMED => 4
  | COUNTERPARTY_LOCKED => 3 | PREIMAGE_REVEALED => 2 | REFUND_PENDING_SOURCE => 1
  | BOTH_CLAIMS_OBSERVED => 1
  | SETTLED | EXPIRED | REFUNDED | HELD | CANCELLED_BEFORE_FUNDING => 0
  end.

Lemma transition_rank p t q : TRANSITIONS p t = Some q -> (phase_rank q < phase_rank p)%nat.
Proof. destruct p, t; simpl; intros; simplify_eq; simpl; lia. Qed.

Lemma path_length p ts q : phase_path p ts q -> (length ts + phase_rank q <= phase_rank p)%nat.
Proof. induction 1 as [|p t q ts r Ht _ IH]; simpl; [lia|]. apply transition_rank in Ht. lia. Qed.

Lemma path_snoc p ts q t r : phase_path p ts q -> TRANSITIONS q t = Some r -> phase_path p (ts ++ [t]) r.
Proof. induction 1; simpl; eauto with voidnet. Qed.

Lemma terminal_no_transition p t : TERMINAL_PHASES p = true -> TRANSITIONS p t = None.
Proof. destruct p; simpl; try discriminate; done. Qed.

(** Takes a path apart by the table. *)
Ltac walk_path :=
  repeat match goal with
  | Ht : TRANSITIONS _ ?t = Some _ |- _ =>
      destruct t; try discriminate Ht; injection Ht as Ht; subst
  | Hp : phase_path _ _ _ |- _ => inversion Hp; subst; clear Hp
  end.

Definition settlement_path : list EventType :=
  [BIND_HASHLOCK; OBSERVE_SOURCE_FUNDING; CONFIRM_SOURCE_FUNDING; OBSERVE_COUNTERPARTY_LOCK;
   OBSERVE_PREIMAGE_REVEAL; OBSERVE_BOTH_CLAIMS; FINALIZE_SETTLEMENT].

Lemma settled_path ts : phase_path RESERVED ts SETTLED -> ts = settlement_path.
Proof. intros Hp. by walk_path. Qed.

(** A refund after both legs were locked resolves the counterparty leg first; a
    revealed preimage rules a refund out. *)
Lemma refunded_path ts : phase_path RESERVED ts REFUNDED ->
  (OBSERVE_PREIMAGE_REVEAL ∉ ts) /\
  (OBSERVE_COUNTERPARTY_LOCK ∈ ts ->
   exists before, ts = before ++ [OBSERVE_COUNTERPARTY_REFUND; OBSERVE_SOURCE_REFUND]).
Proof.
  intros Hp. walk_path; (split; [set_solver|intros Hl; try (exfalso; set_solver)]).
  by exists [BIND_HASHLOCK; OBSERVE_SOURCE_FUNDING; CONFIRM_SOURCE_FUNDING; OBSERVE_COUNTERPARTY_LOCK].
Qed.

(** Expiry and cancellation are possible only before the source leg is funded. *)
Lemma unfunded_path ts p : phase_path RESERVED ts p -> p = EXPIRED \/ p = CANCELLED_BEFORE_FUNDING ->
  OBSERVE_SOURCE_FUNDING ∉ ts.
Proof. intros Hp [->| ->]; walk_path; set_solver. Qed.

(** ** Amounts *)

Lemma positiveDecimal_Ok v label m z :
  positiveDecimal v label m = Ok z <-> v = JStr (dec z) /\ 0 < z <= m.
Proof.
  unfold positiveDecimal. split.
  - destruct v as [| | | |t| |]; try discriminate.
    destruct (is_canonical_decimal t) eqn:Ec; [|discriminate].
    destruct (String.eqb_spec t "0") as [|Hne]; [discriminate|]. simpl. intros Hz. inv_ok.
    rewrite dec_BigInt by done. split; [done|]. pose proof (BigInt_nonneg t).
    assert (BigInt t <> 0); [|lia].
    intros Hz. apply Hne. rewrite <- (dec_BigInt t), Hz by done. reflexivity.
  - intros (-> & Hz). rewrite dec_canonical, BigInt_dec by lia.
    destruct (String.eqb_spec (dec z) "0") as [He|_].
    + assert (dec z = dec 0) as Hd by exact He. apply dec_inj in Hd; lia.
    + simpl. assert ((z >? m) = false) as -> by lia. done.
Qed.

(** ** Accepted events *)

Section settlement_facts.
Context {H : Digest}.

Definition event_id_of (e : Event) : string := id_text (e.(ev_json).@"event_id").
Definition evidence_of (e : Event) : string := id_text (e.(ev_json).@"evidence_id").

(** What [validateEvent] establishes, whatever the index. *)
Record event_ok (contract : json) (e : Event) : Prop := {
  eok_object : exists fs, e.(ev_json) = JObj fs;
  eok_keys : same_keys e.(ev_json) EVENT_KEYS = true;
  eok_schema : e.(ev_json).@"schema" = JStr EVENT_SCHEMA;
  eok_contract : (e.(ev_json).@"contract_id" === contract.@"contract_id") = true;
  eok_type : event_of (e.(ev_json).@"event_type") = Some e.(ev_type);
  eok_role : e.(ev_json).@"refund_asset_role" = JStr (expectedRefundRole contract e.(ev_type));
  eok_evidence : is_sha256_value (e.(ev_json).@"evidence_id") = true;
  eok_id : contentId (omit e.(ev_json) "event_id") = Ok (event_id_of e) /\
    e.(ev_json).@"event_id" = JStr (event_id_of e)
}.

Lemma validateEvent_Ok contract i raw e :
  validateEvent contract i raw = Ok e <-> e.(ev_json) = raw /\ event_ok contract e.
Proof.
  unfold validateEvent. split.
  - intros Hv. inv_ok. js_facts. subst. js_eqs.
    destruct (event_of _) as [t|] eqn:Et; [|discriminate]. inv_ok.
    match goal with Hs : sha256Id _ _ = Ok _ |- _ => apply sha256Id_Ok in Hs as [_ Hs] end.
    split; [done|]. constructor; simpl; try done. unfold event_id_of. simpl.
    match goal with He : raw.@"event_id" = _ |- _ => rewrite He end. done.
  - intros (<- & []). destruct e as [j t]. simpl in *. destruct eok_id0 as [Hid Hj].
    rewrite (proj2 (exactKeys_Ok _ _ _ j)) by done. cbn [mbind res_bind].
    rewrite eok_schema0, strict_eq_str_refl, eok_contract0. cbn [mbind res_bind throw_if negb].
    rewrite eok_type0. cbn [mbind res_bind]. rewrite eok_role0, strict_eq_str_refl.
    cbn [mbind res_bind throw_if negb]. unfold sha256Id. rewrite eok_evidence0.
    cbn [mbind res_bind throw_if negb]. rewrite Hid. cbn [mbind res_bind].
    by rewrite Hj, strict_eq_str_refl.
Qed.

Lemma validateEvents_Ok contract i raws es :
  mapi_res (validateEvent contract) i raws = Ok es <->
  map ev_json es = raws /\ Forall (event_ok contract) es.
Proof.
  revert i es. induction raws as [|r raws IH]; intros i es; simpl.
  { split; [intros [= <-]; auto|]. intros [Hm _]. by destruct es. }
  split.
  - intros Hl. apply bind_Ok in Hl as (e & (He & Hok)%validateEvent_Ok & Hl).
    apply bind_Ok in Hl as (es' & (Hes & Hoks)%IH & [= <-]). simpl. subst. auto.
  - destruct es as [|e es]; [by intros []|]. simpl.
    intros [[= He Hes] [Hok Hoks]%Forall_cons].
    rewrite (proj2 (validateEvent_Ok contract i r e)) by done. cbn [mbind res_bind].
    by rewrite (proj2 (IH (S i) es)).
Qed.

Lemma evidence_str contract e : event_ok contract e -> e.(ev_json).@"evidence_id" = JStr (evidence_of e).
Proof. intros []. apply sha256_value_str in eok_evidence0 as (t & Ht & _). unfold evidence_of. by rewrite Ht. Qed.

(** ** The event loop *)

(** The state after the events [applied] took effect. *)
Record trace_ok (contract : json) (st : TraceState) (applied : list Event) : Prop := {
  to_events : Forall (event_ok contract) applied;
  to_path : phase_path RESERVED (map ev_type applied) st.(phase);
  to_ids : st.(appliedEventIds) = map event_id_of applied;
  to_seen : forall id j, st.(seenEvents) !! id = Some j <->
    exists e, e ∈ applied /\ event_id_of e = id /\ e.(ev_json) = j;
  to_owners : forall ev, is_Some (st.(evidenceOwners) !! ev) <-> ev ∈ map evidence_of applied;
  to_ids_nodup : NoDup (map event_id_of applied);
  to_evidence_nodup : NoDup (map evidence_of applied);
  to_last : st.(lastAppliedEvent) = last applied
}.

Lemma trace_ok_initial contract : trace_ok contract initialState [].
Proof.
  constructor; simpl; try done; try constructor.
  - by rewrite lookup_empty.
  - intros (e & He & _). set_solver.
  - rewrite lookup_empty. by intros [].
  - set_solver.
Qed.

Lemma seen_None contract st applied e : trace_ok contract st applied ->
  st.(seenEvents) !! event_id_of e = None <-> event_id_of e ∉ map event_id_of applied.
Proof.
  intros Hst. rewrite eq_None_not_Some. apply not_iff_compat. split.
  - intros [j Hj]. apply (to_seen _ _ _ Hst) in Hj as (e' & Hin & <- & _).
    by apply list_elem_of_fmap_2.
  - intros (e' & Heq & Hin)%list_elem_of_fmap. exists (ev_json e').
    apply (to_seen _ _ _ Hst). eauto.
Qed.

(** The state after one more event. *)
Definition applyEvent (st : TraceState) (q : Phase) (e : Event) : TraceState :=
  mkTraceState q (st.(appliedEventIds) ++ [event_id_of e])
    (<[event_id_of e := e.(ev_json)]> st.(seenEvents))
    (<[evidence_of e := event_id_of e]> st.(evidenceOwners)) (Some e).

Lemma applyEvent_ok contract st applied e q : trace_ok contract st applied -> event_ok contract e ->
  event_id_of e ∉ map event_id_of applied -> evidence_of e ∉ map evidence_of applied ->
  TRANSITIONS st.(phase) e.(ev_type) = Some q -> trace_ok contract (applyEvent st q e) (applied ++ [e]).
Proof.
  intros [] He Hid Hev Ht. constructor; simpl; rewrite ?map_app; simpl.
  - by apply Forall_app_2; [|constructor].
  - by eapply path_snoc.
  - by rewrite to_ids0.
  - intros id j. rewrite lookup_insert_Some, to_seen0. split.
    + intros [[<- <-]|[Hne (e' & Hin & <- & <-)]]; [exists e|exists e']; set_solver.
    + intros (e' & [Hin| ->%list_elem_of_singleton]%elem_of_app & <- & <-); [right|left; done].
      split; [|eauto]. intros Heq. apply Hid. rewrite Heq. by apply list_elem_of_fmap_2.
  - intros ev. rewrite lookup_insert_is_Some, to_owners0. set_solver.
  - by apply NoDup_snoc.
  - by apply NoDup_snoc.
  - by rewrite last_snoc.
Qed.

(** One iteration of the loop: a replay leaves the state, a new event follows
    the table, anything else throws. *)
Lemma stepEvent_Ok contract i st applied e st' : trace_ok contract st applied -> event_ok contract e ->
  stepEvent i st e = Ok st' <->
  (exists e', e' ∈ applied /\ event_id_of e' = event_id_of e /\
     canonicalTextV1 e'.(ev_json) = canonicalTextV1 e.(ev_json) /\
     is_ok (canonicalTextV1 e.(ev_json)) = true /\ st' = st) \/
  ((event_id_of e ∉ map event_id_of applied) /\ (evidence_of e ∉ map evidence_of applied) /\
   e.(ev_json).@"from_phase" = JStr (phase_name st.(phase)) /\ exists q,
     TRANSITIONS st.(phase) e.(ev_type) = Some q /\ e.(ev_json).@"to_phase" = JStr (phase_name q) /\
     st' = applyEvent st q e).
Proof.
  intros Hst He. unfold stepEvent.
  change (id_text (e.(ev_json).@"event_id")) with (event_id_of e).
  change (id_text (e.(ev_json).@"evidence_id")) with (evidence_of e).
  destruct (seenEvents st !! event_id_of e) as [prior|] eqn:E.
  - assert (event_id_of e ∈ map event_id_of applied) as Hold.
    { destruct (decide (event_id_of e ∈ map event_id_of applied)) as [|Hn]; [done|].
      apply (seen_None _ _ _ _ Hst) in Hn. congruence. }
    apply (to_seen _ _ _ Hst) in E as (e' & Hin & Hid & <-). split.
    + intros Hs. left. exists e'. inv_ok. bool_prop.
      match goal with Hb : String.eqb _ _ = true |- _ => apply String.eqb_eq in Hb; subst end.
      repeat split; try done; try congruence.
      match goal with Hb : canonicalTextV1 (ev_json e) = _ |- _ => by rewrite Hb end.
    + intros [(e2 & Hin2 & Hid2 & Htext & Hok & ->)|(Hnew & _)]; [|done].
      assert (ev_json e2 = ev_json e') as Hj.
      { assert (seenEvents st !! event_id_of e = Some (ev_json e2)) as H2 by (apply (to_seen _ _ _ Hst); eauto).
        assert (seenEvents st !! event_id_of e = Some (ev_json e')) as H3 by (apply (to_seen _ _ _ Hst); eauto).
        congruence. }
      rewrite <- Hj, Htext. destruct (canonicalTextV1 (ev_json e)); [|done].
      cbn [mbind res_bind]. by rewrite String.eqb_refl.
  - apply (seen_None _ _ _ _ Hst) in E. split.
    + intros Hs. right. inv_ok. js_eqs. split; [done|].
      destruct (TRANSITIONS _ _) as [q|] eqn:Et; [|discriminate]. inv_ok. bool_prop.
      rewrite bool_decide_eq_false, (to_owners _ _ _ Hst) in *.
      repeat split; try done. exists q. split; [done|]. split; [|done].
      by apply strict_eq_str_l.
    + intros [(e2 & Hin2 & Hid2 & _)|(_ & Hev & Hf & q & Hq & Htp & ->)].
      { exfalso. apply E. rewrite <- Hid2. by apply list_elem_of_fmap_2. }
      rewrite bool_decide_eq_false_2 by (by rewrite (to_owners _ _ _ Hst)).
      assert (TERMINAL_PHASES (phase st) = false) as ->.
      { destruct (TERMINAL_PHASES (phase st)) eqn:Et; [|done].
        by rewrite (terminal_no_transition _ _ Et) in Hq. }
      cbn [mbind res_bind throw_if]. rewrite Hf, strict_eq_str_refl. cbn [mbind res_bind throw_if negb].
      rewrite Hq, Htp, strict_eq_str_refl. done.
Qed.

Lemma runEvents_app i st l1 l2 :
  runEvents i st (l1 ++ l2) = (st' ← runEvents i st l1; runEvents (i + length l1)%nat st' l2).
Proof.
  revert i st. induction l1 as [|e l1 IH]; intros i st; simpl; [by rewrite Nat.add_0_r|].
  destruct (stepEvent i st e); simpl; [|done]. rewrite IH. by rewrite Nat.add_succ_r.
Qed.

(** A run of the loop applies some of the events, in order, and accounts for all. *)
Lemma runEvents_Ok contract i st applied es st' :
  trace_ok contract st applied -> Forall (event_ok contract) es -> runEvents i st es = Ok st' ->
  exists new, new `sublist_of` es /\ trace_ok contract st' (applied ++ new) /\
    Forall (fun e => exists e', e' ∈ applied ++ new /\ event_id_of e' = event_id_of e /\
      canonicalTextV1 e'.(ev_json) = canonicalTextV1 e.(ev_json)) es.
Proof.
  intros Hst Hes. revert i st applied Hst. induction Hes as [|e es He Hes IH]; intros i st applied Hst Hr.
  { injection Hr as <-. exists []. by rewrite app_nil_r. }
  simpl in Hr. apply bind_Ok in Hr as (st1 & Hs & Hr).
  apply (stepEvent_Ok contract i st applied) in Hs; [|done..].
  destruct Hs as [(e' & Hin & Hid & Htext & _ & ->)|(Hid & Hev & _ & q & Hq & _ & ->)].
  - destruct (IH _ _ _ Hst Hr) as (new & Hsub & Hok & Hall). exists new.
    split; [by apply sublist_cons|]. split; [done|]. constructor; [|done].
    exists e'. split; [set_solver|done].
  - pose proof (applyEvent_ok _ _ _ _ _ Hst He Hid Hev Hq) as Hst1.
    destruct (IH _ _ _ Hst1 Hr) as (new & Hsub & Hok & Hall). exists (e :: new).
    rewrite <- app_assoc in Hok, Hall. split; [by apply sublist_skip|]. split; [done|].
    constructor; [|done]. exists e. split; [set_solver|done].
Qed.

(** The index only appears in error messages. *)
Lemma runEvents_index contract i j st applied es st' :
  trace_ok contract st applied -> Forall (event_ok contract) es ->
  runEvents i st es = Ok st' -> runEvents j st es = Ok st'.
Proof.
  intros Hst Hes. revert i j st applied Hst.
  induction Hes as [|e es He Hes IH]; intros i j st applied Hst Hr; [done|].
  simpl in *. apply bind_Ok in Hr as (st1 & Hs & Hr).
  apply (stepEvent_Ok contract i st applied) in Hs; [|done..].
  assert (stepEvent j st e = Ok st1) as -> by (by apply (stepEvent_Ok contract j st applied)).
  cbn [mbind res_bind].
  destruct Hs as [(e' & Hin & Hid & _ & _ & ->)|(Hid & Hev & _ & q & Hq & _ & ->)]; [by eapply IH|].
  eapply IH; [|done]. by apply applyEvent_ok.
Qed.

(** Canonical texts of accepted events exist. *)
Lemma event_printable contract e : event_ok contract e -> is_ok (canonicalTextV1 e.(ev_json)) = true.
Proof.
  intros He. destruct He. destruct eok_id0 as [Hid Hj], eok_object0 as [fs Hfs].
  unfold contentId, contentIdOf in Hid. apply bind_Ok in Hid as (s & Hs & _).
  apply canonical_text_Ok in Hs as [Hp _]. unfold canonicalTextV1.
  rewrite canonical_text_print; [done|]. rewrite Hfs in *. simpl in *.
  rewrite forallb_forall in *. intros [k v] Hin. simpl.
  destruct (String.eqb_spec k "event_id") as [->|Hne].
  - apply list_elem_of_In in Hin.
    assert (NoDup fs.*1) as Hnd.
    { apply same_keys_perm in eok_keys0. simpl in eok_keys0. rewrite eok_keys0.
      apply (bool_decide_eq_true _). reflexivity. }
    rewrite (assoc_elem _ _ _ Hnd Hin) in Hj. by rewrite Hj.
  - apply (Hp (k, v)). apply filter_In. split; [done|]. simpl.
    by rewrite (proj2 (String.eqb_neq k "event_id")).
Qed.

Lemma stepEvent_replay contract i st applied e e' : trace_ok contract st applied ->
  event_ok contract e -> e' ∈ applied -> event_id_of e' = event_id_of e ->
  canonicalTextV1 e'.(ev_json) = canonicalTextV1 e.(ev_json) -> stepEvent i st e = Ok st.
Proof.
  intros Hst He Hin Hid Ht. apply (stepEvent_Ok contract i st applied); [done..|]. left. exists e'.
  by rewrite (event_printable contract) by done.
Qed.

(** ** Evaluations *)

Context {T : SourceTools} (generation : SourceGeneration).

Lemma validateContract_raw raw vc : validateContract generation raw = Ok vc -> vc.(vc_contract) = raw.
Proof. unfold validateContract. intros Hv. inv_ok. js_facts. by subst. Qed.

Definition traceRequest (contract : json) (events : list json) (terminal_binding : json) : json :=
  JObj [
    "schema" ~> TRACE_SCHEMA;
    "contract" ~> contract;
    "initial_phase" ~> "RESERVED";
    "events" ~> JArr events;
    "terminal_binding" ~> terminal_binding].

(** What an evaluated trace went through. *)
Record evaluated (contract : json) (raws : list json) (binding v : json)
    (vc : ValidContract) (es : list Event) (st : TraceState) (t : option TerminalBinding) : Prop := {
  evd_limit : Z.of_nat (length raws) <= MAX_EVENTS;
  evd_contract : validateContract generation contract = Ok vc;
  evd_raw : vc.(vc_contract) = contract;
  evd_events : map ev_json es = raws;
  evd_ok : Forall (event_ok contract) es;
  evd_run : runEvents 0 initialState es = Ok st;
  evd_terminal : resolveTerminal st contract binding = Ok t;
  evd_value : exists i, contentId (renderEvaluation generation vc st t) = Ok i /\
    v = extend (renderEvaluation generation vc st t) "evaluation_id" (JStr i)
}.

Lemma evaluate_inv raw v : evaluateBtcVoidAtomicSettlementTraceV1 generation raw = Ok v ->
  exists raws vc es st t, raw.@"events" = JArr raws /\
    evaluated (raw.@"contract") raws (raw.@"terminal_binding") v vc es st t.
Proof.
  unfold evaluateBtcVoidAtomicSettlementTraceV1. intros Hv.
  apply bind_Ok in Hv as (x & (-> & _)%exactKeys_Ok & Hv). inv_ok.
  destruct (raw.@"events") as [| | | | |raws|]; try discriminate. inv_ok.
  match goal with Hc : validateContract _ _ = Ok _ |- _ => pose proof (validateContract_raw _ _ Hc) as Hraw end.
  rewrite Hraw in *.
  match goal with He : mapi_res _ _ _ = Ok _ |- _ => apply validateEvents_Ok in He as [Hm He] end.
  eexists _, _, _, _, _. split; [reflexivity|]. econstructor; eauto; [lia|].
  eexists. split; [eassumption|]. unfold renderEvaluation. by rewrite Hraw.
Qed.

Lemma evaluate_run contract raws binding v vc es st t :
  evaluated contract raws binding v vc es st t ->
  evaluateBtcVoidAtomicSettlementTraceV1 generation (traceRequest contract raws binding) = Ok v.
Proof.
  intros [Hlen Hc Hraw Hm Hok Hrun Ht (i & Hi & ->)].
  unfold evaluateBtcVoidAtomicSettlementTraceV1. js_run.
  change ((traceRequest contract raws binding).@"events") with (JArr raws).
  change ((traceRequest contract raws binding).@"contract") with contract.
  change ((traceRequest contract raws binding).@"terminal_binding") with binding.
  cbn [mbind res_bind]. js_run; [lia|]. rewrite Hc. cbn [mbind res_bind]. rewrite Hraw.
  rewrite (proj2 (validateEvents_Ok contract 0 raws es)) by done. cbn [mbind res_bind].
  rewrite Hrun. cbn [mbind res_bind]. rewrite Ht. cbn [mbind res_bind]. by rewrite Hi.
Qed.

(** The events an evaluation applied. *)
Lemma evaluated_trace contract raws binding v vc es st t :
  evaluated contract raws binding v vc es st t ->
  exists applied, applied `sublist_of` es /\ trace_ok contract st applied /\
    Forall (fun e => exists e', e' ∈ applied /\ event_id_of e' = event_id_of e /\
      canonicalTextV1 e'.(ev_json) = canonicalTextV1 e.(ev_json)) es.
Proof.
  intros []. by eapply (runEvents_Ok contract 0 initialState []); [apply trace_ok_initial|..].
Qed.

Lemma evaluated_fields contract raws binding v vc es st t :
  evaluated contract raws binding v vc es st t ->
  v.@"final_phase" = JStr (phase_name st.(phase)) /\
  v.@"terminal" = JBool (TERMINAL_PHASES st.(phase)) /\
  v.@"applied_event_ids" = JArr (map JStr st.(appliedEventIds)) /\
  v.@"terminal_market_follow_on" = terminalFollowOn t.
Proof. intros [_ _ _ _ _ _ _ (i & _ & ->)]. repeat split; reflexivity. Qed.

(** An evaluated trace, its applied events in order, their types and the final phase. *)
Definition trace_history (raw v : json) (applied : list json) (types : list EventType) (p : Phase) : Prop :=
  (exists raws, raw.@"events" = JArr raws /\ applied `sublist_of` raws /\
     Forall (fun e => e.@"event_id" ∈ map (fun a => a.@"event_id") applied) raws) /\
  map (fun a => a.@"event_type") applied = map (fun t => JStr (event_name t)) types /\
  v.@"applied_event_ids" = JArr (map (fun a => a.@"event_id") applied) /\
  v.@"final_phase" = JStr (phase_name p) /\
  NoDup (map (fun a => id_text (a.@"event_id")) applied) /\
  NoDup (map (fun a => id_text (a.@"evidence_id")) applied).

Lemma event_of_name v t : event_of v = Some t -> v = JStr (event_name t).
Proof. intros [_ Hv]%List.find_some. by apply strict_eq_str. Qed.

Lemma applied_json (f : json -> json) (g : Event -> json) contract applied :
  (forall e, event_ok contract e -> f e.(ev_json) = g e) -> Forall (event_ok contract) applied ->
  map f (map ev_json applied) = map g applied.
Proof.
  intros Hfg Hok. rewrite List.map_map. apply List.map_ext_in. intros e He%list_elem_of_In.
  rewrite Forall_forall in Hok. auto.
Qed.

Lemma evaluate_history raw v : evaluateBtcVoidAtomicSettlementTraceV1 generation raw = Ok v ->
  exists applied types p, trace_history raw v applied types p /\ phase_path RESERVED types p.
Proof.
  intros (raws & vc & es & st & t & Hr & He)%evaluate_inv.
  destruct (evaluated_trace _ _ _ _ _ _ _ _ He) as (applied & Hsub & Htr & Hall).
  destruct (evaluated_fields _ _ _ _ _ _ _ _ He) as (Hp & _ & Hids & _).
  exists (map ev_json applied), (map ev_type applied), st.(phase).
  destruct He, Htr. split; [|done]. split.
  - exists raws. split; [done|]. subst raws. split; [by apply sublist_map|].
    rewrite Forall_map. rewrite Forall_forall in *. intros e Hin. simpl.
    destruct (Hall e Hin) as (e' & Hin' & Hid & _).
    rewrite (proj2 (eok_id _ _ (evd_ok0 e Hin))), <- Hid, <- (proj2 (eok_id _ _ (to_events0 e' Hin'))).
    rewrite List.map_map. by apply (list_elem_of_fmap_2 (fun x => (ev_json x).@"event_id")).
  - rewrite (applied_json _ (fun e => JStr (event_name e.(ev_type))) (raw.@"contract")), List.map_map;
      [|intros e []; by apply event_of_name|done].
    rewrite (applied_json _ (fun e => JStr (event_id_of e)) (raw.@"contract"));
      [|intros e []; tauto|done].
    rewrite !List.map_map. rewrite Hids, to_ids0, List.map_map. auto.
Qed.

(** C22: Every accepted trace is a path of the phase machine.  Its applied events are
    a subsequence of the submitted ones with distinct identities and distinct
    evidence, every submitted event is one of them or a replay of one, their types
    lead from RESERVED to the reported final phase by the transition table, and
    there are at most seven of them. *)
Theorem trace_follows_phase_machine raw v :
  evaluateBtcVoidAtomicSettlementTraceV1 generation raw = Ok v ->
  exists applied types p, trace_history raw v applied types p /\
    phase_path RESERVED types p /\ (length applied <= 7)%nat.
Proof.
  intros (applied & types & p & Hh & Hp)%evaluate_history. exists applied, types, p.
  split; [done|]. split; [done|]. apply path_length in Hp. simpl in Hp.
  destruct Hh as (_ & Ht & _). apply (f_equal length) in Ht. rewrite !length_map in Ht. lia.
Qed.

(** What the final phases mean.  A settled trace applied exactly the seven
    events of the settlement path in order; a refunded one never saw the preimage
    and, if the counterparty leg had been locked, ended with the counterparty refund
    followed by the source refund; an expired or cancelled one never saw the source
    leg funded. *)
Theorem trace_outcomes raw v : evaluateBtcVoidAtomicSettlementTraceV1 generation raw = Ok v ->
  exists applied types p, trace_history raw v applied types p /\
    (p = SETTLED -> types = settlement_path) /\
    (p = REFUNDED -> (OBSERVE_PREIMAGE_REVEAL ∉ types) /\
       (OBSERVE_COUNTERPARTY_LOCK ∈ types -> exists before,
          types = before ++ [OBSERVE_COUNTERPARTY_REFUND; OBSERVE_SOURCE_REFUND])) /\
    (p = EXPIRED \/ p = CANCELLED_BEFORE_FUNDING -> OBSERVE_SOURCE_FUNDING ∉ types).
Proof.
  intros (applied & types & p & Hh & Hp)%evaluate_history. exists applied, types, p.
  split; [done|]. split; [intros ->; by apply settled_path|].
  split; [intros ->; by apply refunded_path|]. by apply unfunded_path.
Qed.

(** Submitting an event again changes nothing: inserting a copy of an earlier
    event anywhere after it gives the same evaluation, identity included. *)
Theorem trace_replay_idempotent contract l1 e l2 binding v :
  evaluateBtcVoidAtomicSettlementTraceV1 generation (traceRequest contract (l1 ++ l2) binding) = Ok v ->
  e ∈ l1 -> Z.of_nat (length (l1 ++ l2)) < 64 ->
  evaluateBtcVoidAtomicSettlementTraceV1 generation
    (traceRequest contract (l1 ++ e :: l2) binding) = Ok v.
Proof.
  intros (raws & vc & es & st & t & Hr & He)%evaluate_inv Hin Hlen.
  injection Hr as <-. change ((traceRequest contract (l1 ++ l2) binding).@"contract") with contract in He.
  change ((traceRequest contract (l1 ++ l2) binding).@"terminal_binding") with binding in He.
  destruct He. apply map_eq_app in evd_events0 as (es1 & es2 & -> & <- & <-).
  apply list_elem_of_fmap in Hin as (ee & -> & Hee). apply Forall_app in evd_ok0 as [Hok1 Hok2].
  assert (event_ok contract ee) as Hok by (rewrite Forall_forall in Hok1; auto).
  apply (evaluate_run _ _ _ _ vc (es1 ++ ee :: es2) st t). constructor; try done.
  - rewrite length_app in *. simpl. unfold MAX_EVENTS. lia.
  - by rewrite map_app.
  - apply Forall_app. auto.
  - rewrite runEvents_app in evd_run0 |- *. apply bind_Ok in evd_run0 as (st1 & Hr1 & Hr2).
    rewrite Hr1. cbn [mbind res_bind runEvents].
    destruct (runEvents_Ok contract 0 initialState [] es1 st1) as (new & _ & Htr & Hall);
      [apply trace_ok_initial|done|done|]. simpl in *.
    rewrite Forall_forall in Hall. destruct (Hall ee Hee) as (e' & Hin' & Hid & Htext).
    rewrite (stepEvent_replay contract _ st1 new ee e') by done. cbn [mbind res_bind].
    by eapply runEvents_index.
Qed.


(** An event that fails in the state a trace ended in fails the longer trace. *)
Lemma evaluate_next_throws contract l binding binding' v vc es st t e m :
  evaluated contract l binding v vc es st t -> event_ok contract e -> Z.of_nat (length l) < 64 ->
  stepEvent (length l) st e = Throw m ->
  evaluateBtcVoidAtomicSettlementTraceV1 generation
    (traceRequest contract (l ++ [e.(ev_json)]) binding') = Throw m.
Proof.
  intros [] Hok Hlen Hm. set (l' := l ++ [e.(ev_json)]).
  assert ((Z.of_nat (length l') >? MAX_EVENTS) = false) as Hlim.
  { unfold l', MAX_EVENTS. rewrite length_app, Nat2Z.inj_add. simpl length. rewrite Z.gtb_ltb.
    apply Z.ltb_ge. lia. }
  assert (mapi_res (validateEvent contract) 0 l' = Ok (es ++ [e])) as Hes.
  { apply validateEvents_Ok. rewrite map_app, evd_events0. split; [done|]. apply Forall_app. auto. }
  unfold evaluateBtcVoidAtomicSettlementTraceV1. js_run.
  change ((traceRequest contract l' binding').@"events") with (JArr l').
  change ((traceRequest contract l' binding').@"contract") with contract.
  cbn [mbind res_bind]. rewrite Hlim. cbn [mbind res_bind throw_if]. rewrite evd_contract0.
  cbn [mbind res_bind]. rewrite evd_raw0, Hes. cbn [mbind res_bind].
  rewrite runEvents_app, evd_run0. cbn [mbind res_bind runEvents].
  rewrite <- evd_events0, length_map in Hm. simpl. by rewrite Hm.
Qed.

Lemma stepEvent_terminal contract i st applied e : trace_ok contract st applied ->
  TERMINAL_PHASES st.(phase) = true -> event_id_of e ∉ map event_id_of applied ->
  stepEvent i st e = Throw (event_label i +:+ " reuses evidence_id from a different event") \/
  stepEvent i st e =
    Throw (event_label i +:+ " attempts to reopen terminal phase " +:+ phase_name st.(phase)).
Proof.
  intros Hst Hterm Hnew%(seen_None _ _ _ _ Hst). unfold stepEvent.
  change (id_text (e.(ev_json).@"event_id")) with (event_id_of e). rewrite Hnew.
  destruct (bool_decide _); cbn [mbind res_bind throw_if]; [by left|right]. by rewrite Hterm.
Qed.

(** Terminal phases are final: once a trace has ended in a terminal phase,
    appending a valid event that was not applied before is refused, either because
    its evidence already backs another event or because it would reopen the phase. *)
Theorem trace_terminal_absorbing contract l e ee binding binding' v :
  evaluateBtcVoidAtomicSettlementTraceV1 generation (traceRequest contract l binding) = Ok v ->
  v.@"terminal" = JBool true -> validateEvent contract 0 e = Ok ee ->
  Forall (fun a => a.@"event_id" <> e.@"event_id") l -> Z.of_nat (length l) < 64 ->
  let result := evaluateBtcVoidAtomicSettlementTraceV1 generation
    (traceRequest contract (l ++ [e]) binding') in
  result = Throw (event_label (length l) +:+ " reuses evidence_id from a different event") \/
  exists p, TERMINAL_PHASES p = true /\ v.@"final_phase" = JStr (phase_name p) /\
    result = Throw (event_label (length l) +:+ " attempts to reopen terminal phase " +:+ phase_name p).
Proof.
  intros (raws & vc & es & st & t & Hr & He)%evaluate_inv Hterm [<- Hok]%validateEvent_Ok Hnew Hlen.
  injection Hr as <-. change ((traceRequest contract l binding).@"contract") with contract in He.
  destruct (evaluated_fields _ _ _ _ _ _ _ _ He) as (Hphase & Ht & _).
  destruct (evaluated_trace _ _ _ _ _ _ _ _ He) as (applied & Hsub & Htr & _).
  rewrite Ht in Hterm. injection Hterm as Hterm. cbn zeta.
  destruct (stepEvent_terminal contract (length l) st applied ee Htr Hterm) as [Hs|Hs].
  - intros (a & Heq & Ha)%list_elem_of_fmap. destruct He. subst l.
    assert (a ∈ es) as Hin by (by eapply elem_of_sublist).
    rewrite Forall_map, Forall_forall in Hnew. rewrite Forall_forall in evd_ok0. apply (Hnew a Hin).
    rewrite (proj2 (eok_id _ _ (evd_ok0 a Hin))), (proj2 (eok_id _ _ Hok)). by rewrite Heq.
  - left. by eapply evaluate_next_throws.
  - right. exists (phase st). split; [done|]. split; [done|]. by eapply evaluate_next_throws.
Qed.

(** The terms of a contract that passed validation. *)
Record contract_terms (c q : json) (btc void btcHorizon voidHorizon margin : Z) : Prop := {
  ct_quote : quoteBtcVoidV1 (c.@"quote_request") = Ok q;
  ct_btc : c.@"bitcoin_amount_satoshis" = JStr (dec btc) /\ 0 < btc <= BITCOIN_MAX_MONEY_SATOSHIS_V1;
  ct_void : c.@"void_amount_atomic" = JStr (dec void) /\ 0 < void <= VOID_BTC_VOID_MAX_ATOMIC_VALUE_V1;
  ct_btc_horizon : c.@"bitcoin_refund_horizon_seconds" = JStr (dec btcHorizon) /\ 0 < btcHorizon;
  ct_void_horizon : c.@"void_refund_horizon_seconds" = JStr (dec voidHorizon) /\ 0 < voidHorizon;
  ct_margin : c.@"minimum_refund_safety_margin_seconds" = JStr (dec margin) /\ 0 < margin;
  ct_hashlock : is_hex64_value (c.@"hashlock_sha256") = true
}.

Lemma validateContract_terms c vc : validateContract generation c = Ok vc ->
  exists q btc void bh vh m, contract_terms c q btc void bh vh m /\
    ((c.@"direction" = JStr "btc_to_void" /\ q.@"request".@"amount_in" = JStr (dec btc) /\
      q.@"result".@"amount_out" = JStr (dec void) /\ vh + m <= bh) \/
     (c.@"direction" = JStr "void_to_btc" /\ q.@"request".@"amount_in" = JStr (dec void) /\
      q.@"result".@"amount_out" = JStr (dec btc) /\ bh + m <= vh)).
Proof.
  intros Hc. unfold validateContract, checkAmounts, checkHorizons in Hc. inv_ok. js_eqs. js_facts. subst.
  repeat match goal with
  | Hp : positiveDecimal _ _ _ = Ok _ |- _ => apply positiveDecimal_Ok in Hp as [? ?]
  | Hs : (JStr _ === _) = true |- _ => apply strict_eq_str_l in Hs
  end.
  eexists _, _, _, _, _, _. split; [split; first [eassumption|split; [eassumption|lia]]|].
  match goal with Hd : _ ∈ DIRECTIONS |- _ =>
    apply elem_of_cons in Hd as [->|Hd]; [left|apply list_elem_of_singleton in Hd as ->; right] end;
    repeat match goal with
    | Hd : c.@"direction" = _, Hx : context [c.@"direction" === _] |- _ => rewrite Hd in Hx; simpl in Hx
    end; repeat split; try done; lia.
Qed.

(** The contract of an accepted trace binds the amounts of the quote re-derived
    from its own request, in the quote's direction and within the Bitcoin money
    supply, and keeps the leg that is funded first refundable later: the source
    leg's refund horizon exceeds the counterparty's by at least the safety margin. *)
Theorem trace_contract_safe raw v : evaluateBtcVoidAtomicSettlementTraceV1 generation raw = Ok v ->
  let c := raw.@"contract" in
  exists q btc void bh vh m, contract_terms c q btc void bh vh m /\
    ((c.@"direction" = JStr "btc_to_void" /\ q.@"request".@"amount_in" = JStr (dec btc) /\
      q.@"result".@"amount_out" = JStr (dec void) /\ vh + m <= bh) \/
     (c.@"direction" = JStr "void_to_btc" /\ q.@"request".@"amount_in" = JStr (dec void) /\
      q.@"result".@"amount_out" = JStr (dec btc) /\ bh + m <= vh)).
Proof.
  intros (raws & vc & es & st & t & _ & He)%evaluate_inv. destruct He as [_ Hc _ _ _ _ _ _].
  cbn zeta. by eapply validateContract_terms.
Qed.


Lemma validateTerminalBinding_Some raw c t : validateTerminalBinding raw c = Ok (Some t) ->
  deriveBtcVoidBuybackLotV1 (raw.@"reserve_recycling_request") = Ok t.(tb_plan) /\
  (t.(tb_plan).@"source".@"settlement".@"btc_received_sats" === c.@"bitcoin_amount_satoshis") = true /\
  (t.(tb_plan).@"source".@"settlement".@"void_sold_atomic" === c.@"void_amount_atomic") = true /\
  includes ["CREATE"; "IDEMPOTENT"]%string (t.(tb_journalDecision).@"status") = true /\
  exists l, raw.@"journal_entries" = JArr l /\
    evaluateBtcVoidBuybackLotJournalTransitionV1 (transitionRequest l t.(tb_plan)) =
    Ok t.(tb_journalDecision).
Proof.
  unfold validateTerminalBinding. intros Hv.
  destruct raw; try discriminate; apply bind_Ok in Hv as (x & (-> & _)%exactKeys_Ok & Hv);
    try (by inv_ok). inv_ok. bool_prop. do 4 (split; [done|]).
  destruct ((JObj fields).@"journal_entries") as [| | | | |l|]; try discriminate.
  exists l. split; [done|]. assumption.
Qed.

(** A settled BTC-to-VOID trace is bound to its buyback: the plan re-derived from
    the terminal binding sells exactly the contract's amounts, the last applied
    event finalizes with that sale's identity as evidence, the journal creates or
    already holds the lot, and the bid budget the plan recycles is nonzero and
    strictly below the Bitcoin received.  No other trace carries a binding. *)
Theorem settled_sale_bound raw v : evaluateBtcVoidAtomicSettlementTraceV1 generation raw = Ok v ->
  let c := raw.@"contract" in
  let follow := v.@"terminal_market_follow_on" in
  (v.@"final_phase" = JStr "SETTLED" /\ c.@"direction" = JStr "btc_to_void" /\
   exists plan e l, deriveBtcVoidBuybackLotV1 (raw.@"terminal_binding".@"reserve_recycling_request") = Ok plan /\
     plan.@"source".@"settlement".@"btc_received_sats" = c.@"bitcoin_amount_satoshis" /\
     plan.@"source".@"settlement".@"void_sold_atomic" = c.@"void_amount_atomic" /\
     raw.@"events" = JArr l /\ e ∈ l /\ e.@"event_type" = JStr "FINALIZE_SETTLEMENT" /\
     e.@"evidence_id" = plan.@"source".@"settlement".@"source_sale_id" /\
     follow.@"source_sale_id" = e.@"evidence_id" /\
     includes ["CREATE"; "IDEMPOTENT"]%string (follow.@"journal_status") = true /\
     0 < BigIntOf (plan.@"reserve_recycling".@"automatic_bid_budget_sats") <
       BigIntOf (c.@"bitcoin_amount_satoshis")) \/
  (~ (v.@"final_phase" = JStr "SETTLED" /\ c.@"direction" = JStr "btc_to_void") /\
   raw.@"terminal_binding" = JNull /\ follow = JNull).
Proof.
  intros Hv. apply evaluate_inv in Hv as (raws & vc & es & st & t & Hr & He). cbn zeta.
  destruct (validateContract_terms _ _ (evd_contract _ _ _ _ _ _ _ _ He)) as (q & btc & vd & bh & vh & m & Hct & _).
  destruct (evaluated_fields _ _ _ _ _ _ _ _ He) as (-> & _ & _ & ->).
  destruct (evaluated_trace _ _ _ _ _ _ _ _ He) as (applied & Hsub & Htr & _).
  destruct He as [_ _ _ Hm _ _ Hterm _]. unfold resolveTerminal in Hterm.
  destruct (bool_decide_reflect (phase st = SETTLED)) as [Hph|Hph]; simpl in Hterm.
  2:{ right. inv_ok. js_eqs. split; [|done]. intros [Hf _]. by destruct (phase st). }
  destruct (raw.@"contract".@"direction" === "btc_to_void") eqn:Ed.
  2:{ right. inv_ok. js_eqs. split; [|done]. intros [_ Hd]. by rewrite Hd in Ed. }
  left. apply strict_eq_str in Ed. rewrite Hph. split; [done|]. split; [done|].
  apply bind_Ok in Hterm as ([tb|] & Htb & Hterm); [|discriminate].
  apply validateTerminalBinding_Some in Htb as (Hd & Hb & Hvd & Hst & _).
  apply bind_Ok in Hterm as ([] & Hguard%throw_if_Ok & [= <-]).
  rewrite (to_last _ _ _ Htr) in Hguard.
  destruct (last applied) as [e|] eqn:El; [|discriminate]. bool_prop.
  destruct Hct as [_ [Hbtc ?] [Hvoid ?] _ _ _ _]. rewrite Hbtc in Hb. rewrite Hvoid in Hvd. js_eqs.
  assert (e ∈ applied) as Hin by (by apply last_Some_elem_of).
  assert (event_ok (raw.@"contract") e) as Hok by (destruct Htr; rewrite Forall_forall in to_events0; auto).
  exists tb.(tb_plan), e.(ev_json), raws. rewrite Hbtc, Hvoid.
  assert ((ev_json e).@"evidence_id" = tb.(tb_plan).@"source".@"settlement".@"source_sale_id") as Hev.
  { rewrite (evidence_str _ _ Hok) in *. symmetry. by apply strict_eq_str_l. }
  do 4 (split; [done|]). split; [subst raws; apply list_elem_of_fmap_2; by eapply elem_of_sublist|].
  split. { destruct Hok. apply event_of_name in eok_type0. rewrite eok_type0.
    match goal with Ht : bool_decide _ = true |- _ => apply bool_decide_eq_true in Ht; by rewrite Ht end. }
  split; [done|]. split; [simpl; by rewrite Hev|]. split; [done|].
  by apply (derive_lot_bid_below _ _ _ Hd Hb).
Qed.

(** An event identity stands for the whole event, its contract included: two
    valid events with one identity carry the same content, key order apart, unless
    their two texts are different texts with one digest.  So the check against a reused
    identity with changed content fires only on a collision of these texts. *)
Theorem event_id_binds_content c1 c2 i j r1 r2 e1 e2 :
  validateEvent c1 i r1 = Ok e1 -> validateEvent c2 j r2 = Ok e2 ->
  r1.@"event_id" = r2.@"event_id" ->
  norm (omit r1 "event_id") = norm (omit r2 "event_id") \/
  collide_as canonicalTextV1 (omit r1 "event_id") (omit r2 "event_id").
Proof.
  intros [<- H1]%validateEvent_Ok [<- H2]%validateEvent_Ok Heq.
  destruct (eok_id _ _ H1) as [Hid1 Hj1], (eok_id _ _ H2) as [Hid2 Hj2].
  rewrite Hj1, Hj2 in Heq. injection Heq as Heq. rewrite Heq in Hid1.
  exact (contentIdOf_binds _ _ _ _ _ Hid1 Hid2).
Qed.
End settlement_facts.

(** ** A settled sale, from reservation to buyback *)

#[local] Existing Instance poly256 | 0.

(** The part of the repository's candidate that the module reads. *)
Definition sample_candidate : json :=
  JObj [
    "marker" ~> "VOID_COUPLED_ECONOMIC_SUCCESSOR_GATE_V1";
    "version" ~> jint 1;
    "shared_post_discovery_reconciliation" ~> JObj [
      "profile" ~> "canonical_source_model_fixture_v2";
      "source_model_fixture" ~> true;
      "runtime_or_launch_evidence" ~> false;
      "marker" ~> "VOID_SHARED_MARKET_POST_DISCOVERY_STATE_V2";
      "schema" ~> "void.shared-market-post-discovery-state.v2";
      "reconciliation_id" ~> EXPECTED_SHARED_MARKET_V2_RECONCILIATION_ID;
      "chain_id" ~> jint 2050;
      "network_identity" ~> "mainnet0";
      "execution_epoch" ~> jint 2;
      "void_token" ~> CANONICAL_VOID_TOKEN;
      "void_token_decimals" ~> jint 18;
      "btc_void_phase" ~> "post_presale_unopened";
      "total_planned_void_inventory_atoms" ~> THIRTY_MILLION_VOID_ATOMS;
      "unopened_post_presale_planned_void_inventory_atoms" ~> TWENTY_MILLION_VOID_ATOMS;
      "modeled_protocol_side_void_after_wc_opening_before_post_presale_markets_atoms" ~>
        TWENTY_FIVE_MILLION_VOID_ATOMS;
      "shared_post_discovery_model_reconciled" ~> true;
      "legacy_v1_six_decimal_void_atoms_authoritative" ~> false;
      "all_markets_share_one_presale_closeout" ~> false;
      "btc_void_remains_post_presale" ~> true;
      "quote_reserve_custody_verified" ~> false;
      "void_reserve_custody_verified" ~> false;
      "market_activation_authority" ~> false;
      "public_presale_activation_authority" ~> false;
      "inventory_funding_authority" ~> false;
      "funds_movement_authority" ~> false]].

(** Stand-ins for the git blob names and the parser, right on the two sample files. *)
#[local] Instance sample_tools : SourceTools := {|
  gitBlobSha1 := fun b => if String.eqb b "{}" then EXPECTED_COUPLED_CANDIDATE_GIT_BLOB_SHA1
    else EXPECTED_SHARED_MARKET_V2_GIT_BLOB_SHA1;
  parse_utf8_json := fun b => if String.eqb b "{}" then Some sample_candidate else None
|}.

Definition sample_generation : SourceGeneration := {|
  sg_head := "head"; sg_tree := "tree"; sg_tool_blob_sha1 := "tool"; sg_git_executable_sha256 := "git";
  sg_source_blobs := [];
  sg_source_bytes := fun rel => Some (if String.eqb rel COUPLED_CANDIDATE_REL then "{}" else "//")%string
|}.

Definition ok_or_null {A} (f : A -> json) (r : res A) : json :=
  match r with Ok a => f a | Throw _ => JNull end.

(** [{ ...value, key: contentId(value) }] *)
Definition sealed (v : json) (k : string) : json := extend v k (ok_or_null JStr (contentId v)).

Definition sample_contract : json := Eval vm_compute in
  sealed (JObj [
    "schema" ~> CONTRACT_SCHEMA;
    "pair" ~> "BTC_VOID";
    "direction" ~> "btc_to_void";
    "market_policy_id" ~> ok_or_null (fun p => p.@"market_policy_id")
      (currentBtcVoidMarketPolicyBindingV1 sample_generation);
    "quote_request" ~> sample_request;
    "indicative_quote_id" ~> ok_or_null (fun q => q.@"indicative_quote_id") (quoteBtcVoidV1 sample_request);
    "bitcoin_amount_satoshis" ~> "1000000";
    "void_amount_atomic" ~> "49259864349";
    "hashlock_sha256" ~> "00000000000000000000000000000000000000000000000000000000000000aa";
    "bitcoin_refund_horizon_seconds" ~> "86400";
    "void_refund_horizon_seconds" ~> "43200";
    "minimum_refund_safety_margin_seconds" ~> "21600"]) "contract_id".

Definition sample_sale : json := Eval vm_compute in sale_settlement "1000000" "49259864349".

Definition sample_event (t : EventType) (p q : Phase) (evidence : json) : json :=
  sealed (JObj [
    "schema" ~> EVENT_SCHEMA;
    "contract_id" ~> sample_contract.@"contract_id";
    "event_type" ~> event_name t;
    "from_phase" ~> phase_name p;
    "to_phase" ~> phase_name q;
    "refund_asset_role" ~> "NOT_A_REFUND";
    "evidence_id" ~> evidence]) "event_id".

Definition sample_evidence (digit : string) : json :=
  "sha256:00000000000000000000000000000000000000000000000000000000000000b" +:+ digit.

Definition sample_events : list json := Eval vm_compute in [
  sample_event BIND_HASHLOCK RESERVED HASH_BOUND (sample_evidence "1");
  sample_event OBSERVE_SOURCE_FUNDING HASH_BOUND SOURCE_FUNDED (sample_evidence "2");
  sample_event CONFIRM_SOURCE_FUNDING SOURCE_FUNDED SOURCE_CONFIRMED (sample_evidence "3");
  sample_event OBSERVE_COUNTERPARTY_LOCK SOURCE_CONFIRMED COUNTERPARTY_LOCKED (sample_evidence "4");
  sample_event OBSERVE_PREIMAGE_REVEAL COUNTERPARTY_LOCKED PREIMAGE_REVEALED (sample_evidence "5");
  sample_event OBSERVE_BOTH_CLAIMS PREIMAGE_REVEALED BOTH_CLAIMS_OBSERVED (sample_evidence "6");
  sample_event FINALIZE_SETTLEMENT BOTH_CLAIMS_OBSERVED SETTLED (sample_sale.@"source_sale_id")].

Definition sample_binding : json := Eval vm_compute in
  let plan := ok_or_null id (deriveBtcVoidBuybackLotV1 (lot_request sample_sale)) in
  sealed (JObj [
    "schema" ~> TERMINAL_BINDING_SCHEMA;
    "reserve_recycling_request" ~> lot_request sample_sale;
    "journal_entries" ~> JArr [];
    "expected_buyback_lot_plan_id" ~> plan.@"buyback_lot_plan_id";
    "expected_journal_decision_id" ~> ok_or_null (fun d => d.@"decision_id")
      (evaluateBtcVoidBuybackLotJournalTransitionV1 (transitionRequest [] plan))]) "binding_id".

Definition sample_trace : json := traceRequest sample_contract sample_events sample_binding.

Example sample_trace_settles :
  (fun v => (v.@"final_phase", v.@"terminal_market_follow_on".@"journal_status")) <$>
    evaluateBtcVoidAtomicSettlementTraceV1 sample_generation sample_trace =
  Ok (JStr "SETTLED", JStr "CREATE").
Proof. vm_compute. reflexivity. Qed.

Lemma trace_follows_phase_machine_witness :
  match evaluateBtcVoidAtomicSettlementTraceV1 sample_generation sample_trace with
  | Ok v => exists applied types p, trace_history sample_trace v applied types p /\
      phase_path RESERVED types p /\ (length applied <= 7)%nat
  | Throw _ => False
  end.
Proof.
  run_ok (evaluateBtcVoidAtomicSettlementTraceV1 sample_generation sample_trace) E.
  exact (trace_follows_phase_machine sample_generation sample_trace _ E).
Defined.

Lemma trace_outcomes_witness :
  match evaluateBtcVoidAtomicSettlementTraceV1 sample_generation sample_trace with
  | Ok v => exists applied, trace_history sample_trace v applied settlement_path SETTLED
  | Throw _ => False
  end.
Proof.
  run_ok (evaluateBtcVoidAtomicSettlementTraceV1 sample_generation sample_trace) E.
  assert (JStr "SETTLED" = out.@"final_phase") as Hp by run_field E (fun v => v.@"final_phase").
  destruct (trace_outcomes sample_generation sample_trace _ E) as (applied & types & p & Hh & Hs & _).
  assert (p = SETTLED) as ->.
  { destruct Hh as (_ & _ & _ & Hf & _). rewrite <- Hp in Hf. destruct p; (discriminate Hf || reflexivity). }
  exists applied. rewrite (Hs eq_refl) in Hh. exact Hh.
Defined.

Lemma trace_replay_idempotent_witness :
  match evaluateBtcVoidAtomicSettlementTraceV1 sample_generation sample_trace with
  | Ok v => evaluateBtcVoidAtomicSettlementTraceV1 sample_generation
      (traceRequest sample_contract
        (take 2 sample_events ++ nth 0 sample_events JNull :: drop 2 sample_events) sample_binding) = Ok v
  | Throw _ => False
  end.
Proof.
  run_ok (evaluateBtcVoidAtomicSettlementTraceV1 sample_generation sample_trace) E.
  apply (trace_replay_idempotent sample_generation sample_contract (take 2 sample_events)
    (nth 0 sample_events JNull) (drop 2 sample_events) sample_binding);
    [exact E|by left|vm_compute; reflexivity].
Defined.

Definition sample_reopen : json := Eval vm_compute in
  sample_event HOLD SETTLED HELD (sample_evidence "7").

Lemma trace_terminal_absorbing_witness :
  match evaluateBtcVoidAtomicSettlementTraceV1 sample_generation sample_trace with
  | Ok v => is_ok (evaluateBtcVoidAtomicSettlementTraceV1 sample_generation
      (traceRequest sample_contract (sample_events ++ [sample_reopen]) sample_binding)) = false
  | Throw _ => False
  end.
Proof.
  run_ok (evaluateBtcVoidAtomicSettlementTraceV1 sample_generation sample_trace) E.
  assert (JBool true = out.@"terminal") as Ht by run_field E (fun v => v.@"terminal").
  run_ok (validateEvent sample_contract 0 sample_reopen) Ee.
  destruct (trace_terminal_absorbing sample_generation sample_contract sample_events sample_reopen
    out0 sample_binding sample_binding out E (eq_sym Ht) Ee) as [Hr|(p & _ & _ & Hr)];
    [|vm_compute; reflexivity|rewrite Hr; reflexivity|rewrite Hr; reflexivity].
  repeat constructor; discriminate.
Defined.

Lemma trace_contract_safe_witness :
  match evaluateBtcVoidAtomicSettlementTraceV1 sample_generation sample_trace with
  | Ok v => exists q btc void bh vh m, contract_terms sample_contract q btc void bh vh m /\ vh + m <= bh
  | Throw _ => False
  end.
Proof.
  run_ok (evaluateBtcVoidAtomicSettlementTraceV1 sample_generation sample_trace) E.
  destruct (trace_contract_safe sample_generation sample_trace _ E)
    as (q & btc & void & bh & vh & m & Hct & [(_ & _ & _ & Hm)|(Hd & _)]); [|discriminate Hd].
  exists q, btc, void, bh, vh, m. split; [exact Hct|exact Hm].
Defined.

Lemma settled_sale_bound_witness :
  match evaluateBtcVoidAtomicSettlementTraceV1 sample_generation sample_trace with
  | Ok v => v.@"terminal_market_follow_on".@"source_sale_id" = sample_sale.@"source_sale_id"
  | Throw _ => False
  end.
Proof.
  run_ok (evaluateBtcVoidAtomicSettlementTraceV1 sample_generation sample_trace) E.
  destruct (settled_sale_bound sample_generation sample_trace _ E) as [(_ & _ & Hs)|(_ & Hb & _)];
    [|discriminate Hb].
  destruct Hs as (plan & e & l & Hd & _ & _ & _ & _ & _ & He & Hf & _).
  rewrite Hf, He. destruct (derive_lot_ids _ _ Hd) as (Hsale & _). exact Hsale.
Defined.

Lemma event_id_binds_content_witness :
  match validateEvent sample_contract 0 sample_reopen with
  | Ok _ => norm (omit sample_reopen "event_id") = norm (omit sample_reopen "event_id") \/
      collide_as canonicalTextV1 (omit sample_reopen "event_id") (omit sample_reopen "event_id")
  | Throw _ => False
  end.
Proof.
  run_ok (validateEvent sample_contract 0 sample_reopen) E.
  exact (event_id_binds_content sample_contract sample_contract 0 0 sample_reopen sample_reopen
    _ _ E E eq_refl).
Defined.
