(* ===== verification/IntentCaps.v ===== *)
(** * Time to live and caps of economic intents

    Model of [tools/void-economic-intent-ttl-caps-policy-v1.mjs]: the launch policy
    that bounds how long an intent reservation lives and how many may be
    outstanding per identity and overall, the verification of a whole reservation
    set against it, the admission check for one more intent, and the treatment of
    payments that arrive after expiry.

    Times and counts are integers; [issuedAt + ttl * 1000] is below 2^53 + 2^19, and
    a sum outside the safe range is refused, so exact integers model the source's
    numbers. *)

From S2P Require Import Prelude Js CanonicalJson Sha256.

Definition VOID_ECONOMIC_INTENT_TTL_CAPS_POLICY_V1 : string := "VOID_ECONOMIC_INTENT_TTL_CAPS_POLICY_V1".
Definition VOID_ECONOMIC_INTENT_TTL_CAPS_POLICY_SCHEMA_V1 : string :=
  "void.economic-intent-ttl-caps-policy.v1".
Definition VOID_ECONOMIC_INTENT_RESERVATION_SCHEMA_V1 : string := "void.economic-intent-reservation.v1".

Definition VOID_ECONOMIC_INTENT_TTL_CAPS_AUTHORITY_V1 : json :=
  JObj [
    "source_only" ~> true;
    "explicit_input_only" ~> true;
    "wall_clock_read" ~> false;
    "runtime_enforcement" ~> false;
    "reservation_mutation" ~> false;
    "payment_observation" ~> false;
    "wallet_or_signer_access" ~> false;
    "private_key_access" ~> false;
    "transaction_construction" ~> false;
    "transaction_signing" ~> false;
    "transaction_submission" ~> false;
    "transaction_broadcast" ~> false;
    "authoritative_chain2050_write" ~> false;
    "inventory_funding" ~> false;
    "liquidity_movement" ~> false;
    "market_activation" ~> false;
    "public_presale_activation" ~> false;
    "funds_movement" ~> false].

Definition POLICY_CONTRACT_PAYLOAD : json :=
  JObj [
    "schema" ~> "void.economic-intent-ttl-caps-policy-contract.v1";
    "version" ~> jint 1;
    "chain_id" ~> jint 2050;
    "execution_epoch" ~> jint 2;
    "max_ttl_seconds" ~> "300";
    "exact_launch_policy_values_required" ~> true;
    "policy_committed_before_admission_required" ~> true;
    "positive_per_identity_cap_required" ~> true;
    "positive_global_cap_required" ~> true;
    "global_cap_not_less_than_identity_cap_required" ~> true;
    "content_addressed_policy_required" ~> true;
    "content_addressed_intent_required" ~> true;
    "expired_intents_not_counted_as_outstanding" ~> true;
    "expired_reservation_release_required" ~> true;
    "late_payment_action" ~> "reconcile_without_automatic_execution";
    "late_payment_automatic_execution" ~> false;
    "production_ttl_value_hardcoded" ~> false;
    "production_cap_values_hardcoded" ~> false;
    "source_only" ~> true;
    "runtime_enforcement_verified" ~> false].

Definition MAX_TTL_SECONDS : Z := 300.
Definition LATE_PAYMENT_ACTION : string := "reconcile_without_automatic_execution".
Definition MAX_TRACKED_INTENTS : Z := 1000000.

Definition POLICY_KEYS : list string := ["schema"; "policy_id"; "coupled_launch_id"; "policy_generation"; "policy_committed_at_ms"; "intent_ttl_seconds"; "per_identity_max_outstanding"; "global_max_outstanding"; "late_payment_action"]%string.

Definition INTENT_KEYS : list string := ["schema"; "intent_id"; "policy_id"; "coupled_launch_id"; "identity_id"; "reservation_id"; "issued_at_ms"; "expires_at_ms"; "state"]%string.

Definition snapshotArray (value : json) (code : string) : res (list json) :=
  match value with
  | JArr l => throw_if (Z.of_nat (length l) >? MAX_TRACKED_INTENTS) code;; Ok l
  | _ => Throw code
  end.

(** [positiveSafeInteger] and [canonicalMs] *)
Definition positiveSafeInteger (value : json) (code : string) : res Z :=
  match as_safe_integer value with
  | Some z => throw_if (z <=? 0) code;; Ok z
  | None => Throw code
  end.
Definition canonicalMs : json -> string -> res Z := positiveSafeInteger.

Definition canonicalGeneration (value : json) : res string :=
  match value with
  | JStr s =>
      throw_if (negb (is_canonical_decimal s) || (BigInt s <=? 0))
        "INVALID_ECONOMIC_INTENT_POLICY_GENERATION";;
      Ok s
  | _ => Throw "INVALID_ECONOMIC_INTENT_POLICY_GENERATION"
  end.

Definition policyPayload (value : json) : json :=
  JObj (map (fun key => (key, value.@key))
    ["schema"; "coupled_launch_id"; "policy_generation"; "policy_committed_at_ms";
     "intent_ttl_seconds"; "per_identity_max_outstanding"; "global_max_outstanding";
     "late_payment_action"]%string).

Definition intentPayload (value : json) : json :=
  JObj (map (fun key => (key, value.@key))
    ["schema"; "policy_id"; "coupled_launch_id"; "identity_id"; "reservation_id"; "issued_at_ms";
     "expires_at_ms"; "state"]%string).

(** A verified policy and a verified intent. *)
Record Policy := mkPolicy {
  po_json : json;
  po_id : string;
  po_launch : string;
  po_generation : string;
  po_committed : Z;
  po_ttl : Z;
  po_perIdentity : Z;
  po_global : Z
}.

Record Intent := mkIntent {
  in_id : string;
  in_reservation : string;
  in_identity : string;
  in_issued : Z;
  in_expires : Z
}.

Section intent_caps.
Context {H : Digest}.

Definition digest : json -> res string :=
  contentIdOf (canonical_text "INVALID_CANONICAL_VALUE" "INVALID_CANONICAL_VALUE").

(** [VOID_ECONOMIC_INTENT_TTL_CAPS_POLICY_CONTRACT_V1.policy_contract_id] *)
Definition policy_contract_id : json :=
  match digest POLICY_CONTRACT_PAYLOAD with Ok i => JStr i | Throw _ => JUndefined end.

Definition economicIntentTtlCapsPolicyIdV1 (value : json) : res string :=
  policy ← snapshotExact value POLICY_KEYS "INVALID_ECONOMIC_INTENT_TTL_CAPS_POLICY_SHAPE";
  digest (policyPayload policy).

Definition economicIntentReservationIdV1 (value : json) : res string :=
  intent ← snapshotExact value INTENT_KEYS "INVALID_ECONOMIC_INTENT_RESERVATION_SHAPE";
  digest (intentPayload intent).

Definition verifyPolicy (raw : json) : res Policy :=
  policy ← snapshotExact raw POLICY_KEYS "INVALID_ECONOMIC_INTENT_TTL_CAPS_POLICY_SHAPE";
  throw_if (policy.@"schema" !== VOID_ECONOMIC_INTENT_TTL_CAPS_POLICY_SCHEMA_V1)
    "INVALID_ECONOMIC_INTENT_TTL_CAPS_POLICY_SCHEMA";;
  policy_id ← canonicalSha (policy.@"policy_id") "INVALID_ECONOMIC_INTENT_TTL_CAPS_POLICY_ID";
  coupled_launch_id ← canonicalSha (policy.@"coupled_launch_id") "INVALID_COUPLED_LAUNCH_ID";
  policy_generation ← canonicalGeneration (policy.@"policy_generation");
  committedAt ← canonicalMs (policy.@"policy_committed_at_ms")
    "INVALID_ECONOMIC_INTENT_POLICY_COMMITTED_AT_MS";
  ttl ← positiveSafeInteger (policy.@"intent_ttl_seconds") "INVALID_ECONOMIC_INTENT_TTL_SECONDS";
  throw_if (ttl >? MAX_TTL_SECONDS) "ECONOMIC_INTENT_TTL_ABOVE_SIGNED_SUBMISSION_MAXIMUM";;
  perIdentity ← positiveSafeInteger (policy.@"per_identity_max_outstanding")
    "INVALID_ECONOMIC_INTENT_PER_IDENTITY_CAP";
  global ← positiveSafeInteger (policy.@"global_max_outstanding") "INVALID_ECONOMIC_INTENT_GLOBAL_CAP";
  throw_if (global <? perIdentity) "ECONOMIC_INTENT_GLOBAL_CAP_BELOW_IDENTITY_CAP";;
  throw_if (global >? MAX_TRACKED_INTENTS) "ECONOMIC_INTENT_GLOBAL_CAP_ABOVE_TECHNICAL_BOUND";;
  throw_if (policy.@"late_payment_action" !== LATE_PAYMENT_ACTION)
    "ECONOMIC_INTENT_LATE_PAYMENT_ACTION_MISMATCH";;
  expectedId ← economicIntentTtlCapsPolicyIdV1 policy;
  throw_if (negb (String.eqb expectedId policy_id)) "ECONOMIC_INTENT_TTL_CAPS_POLICY_DIGEST_MISMATCH";;
  Ok (mkPolicy policy policy_id coupled_launch_id policy_generation committedAt ttl perIdentity global).

Definition verifyIntent (policy : Policy) (raw : json) : res Intent :=
  intent ← snapshotExact raw INTENT_KEYS "INVALID_ECONOMIC_INTENT_RESERVATION_SHAPE";
  throw_if (intent.@"schema" !== VOID_ECONOMIC_INTENT_RESERVATION_SCHEMA_V1)
    "INVALID_ECONOMIC_INTENT_RESERVATION_SCHEMA";;
  intent_id ← canonicalSha (intent.@"intent_id") "INVALID_ECONOMIC_INTENT_ID";
  policy_id ← canonicalSha (intent.@"policy_id") "INVALID_ECONOMIC_INTENT_POLICY_ID";
  coupled_launch_id ← canonicalSha (intent.@"coupled_launch_id") "INVALID_COUPLED_LAUNCH_ID";
  identity_id ← canonicalSha (intent.@"identity_id") "INVALID_ECONOMIC_INTENT_IDENTITY_ID";
  reservation_id ← canonicalSha (intent.@"reservation_id") "INVALID_ECONOMIC_INTENT_RESERVATION_ID";
  throw_if (negb (String.eqb policy_id policy.(po_id))) "ECONOMIC_INTENT_POLICY_ID_MISMATCH";;
  throw_if (negb (String.eqb coupled_launch_id policy.(po_launch))) "ECONOMIC_INTENT_LAUNCH_ID_MISMATCH";;
  throw_if (intent.@"state" !== "pending_unpaid") "ECONOMIC_INTENT_STATE_INVALID";;
  issuedAt ← canonicalMs (intent.@"issued_at_ms") "INVALID_ECONOMIC_INTENT_ISSUED_AT_MS";
  expiresAt ← canonicalMs (intent.@"expires_at_ms") "INVALID_ECONOMIC_INTENT_EXPIRES_AT_MS";
  throw_if (policy.(po_committed) >=? issuedAt) "ECONOMIC_INTENT_POLICY_NOT_COMMITTED_BEFORE_ADMISSION";;
  let expectedExpires := issuedAt + policy.(po_ttl) * 1000 in
  throw_if (negb (Z.abs expectedExpires <=? MAX_SAFE_INTEGER) || negb (expiresAt =? expectedExpires))
    "ECONOMIC_INTENT_EXPIRY_NOT_POLICY_BOUND";;
  expectedId ← economicIntentReservationIdV1 intent;
  throw_if (negb (String.eqb expectedId intent_id)) "ECONOMIC_INTENT_DIGEST_MISMATCH";;
  Ok (mkIntent intent_id reservation_id identity_id issuedAt expiresAt).

(** ** The reservation set *)

(** The locals of the loop over the reservations. *)
Record CapsState := mkCapsState {
  seenIntentIds : gset string;
  seenReservationIds : gset string;
  countsByIdentity : gmap string Z;
  active : Z;
  expired : Z;
  rows : list (string * json)
}.

Definition emptyCaps : CapsState := mkCapsState ∅ ∅ ∅ 0 0 [].

Definition isOutstanding (observedAt : Z) (intent : Intent) : bool := observedAt <? intent.(in_expires).

Definition intentRow (observedAt : Z) (intent : Intent) : string * json :=
  let outstanding := isOutstanding observedAt intent in
  (intent.(in_id), JObj [
    "intent_id" ~> intent.(in_id);
    "reservation_id" ~> intent.(in_reservation);
    "identity_id" ~> intent.(in_identity);
    "issued_at_ms" ~> jint intent.(in_issued);
    "expires_at_ms" ~> jint intent.(in_expires);
    "outstanding" ~> outstanding;
    "reservation_counted" ~> outstanding;
    "reservation_release_required" ~> negb outstanding]).

Definition trackIntent (policy : Policy) (observedAt : Z) (st : CapsState) (intent : Intent)
  : res CapsState :=
  throw_if (bool_decide (intent.(in_id) ∈ st.(seenIntentIds))) "DUPLICATE_ECONOMIC_INTENT_ID";;
  throw_if (bool_decide (intent.(in_reservation) ∈ st.(seenReservationIds)))
    "DUPLICATE_ECONOMIC_INTENT_RESERVATION_ID";;
  let ids := {[ intent.(in_id) ]} ∪ st.(seenIntentIds) in
  let reservations := {[ intent.(in_reservation) ]} ∪ st.(seenReservationIds) in
  let rows' := st.(rows) ++ [intentRow observedAt intent] in
  if isOutstanding observedAt intent then
    let active' := st.(active) + 1 in
    let next := default 0 (st.(countsByIdentity) !! intent.(in_identity)) + 1 in
    throw_if (next >? policy.(po_perIdentity))
      "ECONOMIC_INTENT_PER_IDENTITY_OUTSTANDING_CAP_EXCEEDED";;
    throw_if (active' >? policy.(po_global)) "ECONOMIC_INTENT_GLOBAL_OUTSTANDING_CAP_EXCEEDED";;
    Ok (mkCapsState ids reservations (<[intent.(in_identity) := next]> st.(countsByIdentity))
      active' st.(expired) rows')
  else
    Ok (mkCapsState ids reservations st.(countsByIdentity) st.(active) (st.(expired) + 1) rows').

(** One iteration of the [map]: verify the intent, then track it. *)
Definition trackRaw (policy : Policy) (observedAt : Z) (st : CapsState) (raw : json) : res CapsState :=
  intent ← verifyIntent policy raw;
  trackIntent policy observedAt st intent.

Definition fst_leb {A} (l r : string * A) : bool := str_leb l.1 r.1.

Definition countRow (entry : string * Z) : json :=
  JObj ["identity_id" ~> entry.1; "count" ~> jint entry.2].

Definition renderState (policy : Policy) (observedAt : Z) (st : CapsState) : json :=
  JObj [
    "marker" ~> VOID_ECONOMIC_INTENT_TTL_CAPS_POLICY_V1;
    "policy_contract_id" ~> policy_contract_id;
    "policy_id" ~> policy.(po_id);
    "coupled_launch_id" ~> policy.(po_launch);
    "policy_generation" ~> policy.(po_generation);
    "observed_at_ms" ~> jint observedAt;
    "intent_ttl_seconds" ~> jint policy.(po_ttl);
    "per_identity_max_outstanding" ~> jint policy.(po_perIdentity);
    "global_max_outstanding" ~> jint policy.(po_global);
    "tracked_intent_count" ~> jint (Z.of_nat (length st.(rows)));
    "outstanding_intent_count" ~> jint st.(active);
    "expired_intent_count" ~> jint st.(expired);
    "per_identity_outstanding_counts" ~>
      JArr (map countRow (isort fst_leb (map_to_list st.(countsByIdentity))));
    "intents" ~> JArr (map snd (isort fst_leb st.(rows)));
    "ttl_bounded_by_signed_submission_maximum" ~> true;
    "outstanding_caps_explicit_and_bounded" ~> true;
    "expired_intents_not_counted_as_outstanding" ~> true;
    "expired_reservation_release_required" ~> true;
    "economic_intent_ttl_and_caps_source_ready" ~> true;
    "production_cap_values_hardcoded" ~> false;
    "wall_clock_read_performed" ~> false;
    "runtime_enforcement_verified" ~> false;
    "reservation_mutation_performed" ~> false;
    "authority" ~> VOID_ECONOMIC_INTENT_TTL_CAPS_AUTHORITY_V1].

Definition verifyEconomicIntentTtlCapsStateV1 (rawPolicy rawIntents rawObservedAt : json) : res json :=
  policy ← verifyPolicy rawPolicy;
  observedAt ← canonicalMs rawObservedAt "INVALID_ECONOMIC_INTENT_OBSERVED_AT_MS";
  values ← snapshotArray rawIntents "INVALID_ECONOMIC_INTENT_RESERVATION_SET";
  st ← foldM (trackRaw policy observedAt) emptyCaps values;
  Ok (renderState policy observedAt st).

(** ** Admission and late payments *)

Definition int_of (v : json) : Z := match v with JNum (NInt z) => z | _ => 0 end.
Definition items_of (v : json) : list json := match v with JArr l => l | _ => [] end.

Definition classifyEconomicIntentAdmissionV1 (rawPolicy rawIntents rawObservedAt rawIdentityId : json)
  : res json :=
  policy ← verifyPolicy rawPolicy;
  identityId ← canonicalSha rawIdentityId "INVALID_ECONOMIC_INTENT_IDENTITY_ID";
  state ← verifyEconomicIntentTtlCapsStateV1 policy.(po_json) rawIntents rawObservedAt;
  let identityEntry := List.find (fun entry => entry.@"identity_id" === JStr identityId)
    (items_of (state.@"per_identity_outstanding_counts")) in
  let identityOutstanding := match identityEntry with Some entry => int_of (entry.@"count") | None => 0 end in
  let globalOutstanding := int_of (state.@"outstanding_intent_count") in
  let identityCapReached := identityOutstanding >=? policy.(po_perIdentity) in
  let globalCapReached := globalOutstanding >=? policy.(po_global) in
  let allowed := negb identityCapReached && negb globalCapReached in
  Ok (JObj [
    "marker" ~> VOID_ECONOMIC_INTENT_TTL_CAPS_POLICY_V1;
    "policy_contract_id" ~> policy_contract_id;
    "policy_id" ~> policy.(po_id);
    "coupled_launch_id" ~> policy.(po_launch);
    "identity_id" ~> JStr identityId;
    "observed_at_ms" ~> state.@"observed_at_ms";
    "identity_outstanding_count" ~> jint identityOutstanding;
    "global_outstanding_count" ~> jint globalOutstanding;
    "per_identity_max_outstanding" ~> jint policy.(po_perIdentity);
    "global_max_outstanding" ~> jint policy.(po_global);
    "per_identity_cap_reached" ~> identityCapReached;
    "global_cap_reached" ~> globalCapReached;
    "admission_allowed" ~> allowed;
    "reservation_created" ~> false;
    "reservation_mutation_performed" ~> false;
    "wall_clock_read_performed" ~> false;
    "transaction_submission" ~> false;
    "funds_movement" ~> false;
    "authority" ~> VOID_ECONOMIC_INTENT_TTL_CAPS_AUTHORITY_V1]).

Definition classifyEconomicIntentLatePaymentV1 (rawPolicy rawIntent rawPaymentObservedAt : json) : res json :=
  policy ← verifyPolicy rawPolicy;
  intent ← verifyIntent policy rawIntent;
  paymentObservedAt ← canonicalMs rawPaymentObservedAt "INVALID_ECONOMIC_INTENT_PAYMENT_OBSERVED_AT_MS";
  let expired := paymentObservedAt >=? intent.(in_expires) in
  Ok (JObj [
    "marker" ~> VOID_ECONOMIC_INTENT_TTL_CAPS_POLICY_V1;
    "policy_id" ~> policy.(po_id);
    "intent_id" ~> intent.(in_id);
    "payment_observed_at_ms" ~> jint paymentObservedAt;
    "intent_expires_at_ms" ~> jint intent.(in_expires);
    "payment_after_expiry" ~> expired;
    "action" ~> (if expired then LATE_PAYMENT_ACTION else "continue_normal_settlement_path");
    "normal_settlement_path_eligible" ~> negb expired;
    "automatic_execution_allowed" ~> false;
    "expired_reservation_release_required" ~> expired;
    "new_reservation_required_for_late_execution" ~> expired;
    "wall_clock_read_performed" ~> false;
    "payment_observation_performed" ~> false;
    "transaction_submission" ~> false;
    "funds_movement" ~> false;
    "authority" ~> VOID_ECONOMIC_INTENT_TTL_CAPS_AUTHORITY_V1]).
End intent_caps.

(** ** What the loop computes *)

(** The intents outstanding at a time, overall and for one identity. *)
Definition outstanding (t : Z) (vs : list Intent) : Z :=
  sumZ (fun v => if isOutstanding t v then 1 else 0) vs.
Definition outstandingOf (t : Z) (identity : string) (vs : list Intent) : Z :=
  sumZ (fun v => if isOutstanding t v && String.eqb v.(in_identity) identity then 1 else 0) vs.

(** The specification of an admissible reservation set. *)
Record within_caps (p : Policy) (t : Z) (vs : list Intent) : Prop := {
  wc_ids : NoDup (map in_id vs);
  wc_reservations : NoDup (map in_reservation vs);
  wc_identity : forall i, outstandingOf t i vs <= p.(po_perIdentity);
  wc_global : outstanding t vs <= p.(po_global)
}.

(** What the loop locals record of the intents read so far. *)
Record caps_ok (t : Z) (st : CapsState) (vs : list Intent) : Prop := {
  cs_ids : forall x, x ∈ st.(seenIntentIds) <-> x ∈ map in_id vs;
  cs_reservations : forall x, x ∈ st.(seenReservationIds) <-> x ∈ map in_reservation vs;
  cs_counts : forall i, st.(countsByIdentity) !! i =
    if outstandingOf t i vs =? 0 then None else Some (outstandingOf t i vs);
  cs_active : st.(active) = outstanding t vs;
  cs_expired : st.(expired) = Z.of_nat (length vs) - outstanding t vs;
  cs_rows : st.(rows) = map (intentRow t) vs
}.

Lemma caps_ok_empty t : caps_ok t emptyCaps [].
Proof. constructor; simpl; try done; set_solver. Qed.

Lemma outstandingOf_nonneg t i vs : 0 <= outstandingOf t i vs.
Proof. apply sumZ_nonneg, Forall_forall. intros v _. by destruct (_ && _). Qed.

Lemma outstanding_nonneg t vs : 0 <= outstanding t vs.
Proof. apply sumZ_nonneg, Forall_forall. intros v _. by destruct (isOutstanding t v). Qed.

Lemma outstandingOf_le t i vs : outstandingOf t i vs <= outstanding t vs.
Proof.
  unfold outstandingOf, outstanding. induction vs as [|v vs IH]; simpl; [lia|].
  destruct (isOutstanding t v), (String.eqb (in_identity v) i); simpl; lia.
Qed.

Lemma outstandingOf_snoc t i vs x : outstandingOf t i (vs ++ [x]) =
  outstandingOf t i vs + if isOutstanding t x && String.eqb x.(in_identity) i then 1 else 0.
Proof. unfold outstandingOf. rewrite sumZ_app. simpl. lia. Qed.

Lemma outstanding_snoc t vs x :
  outstanding t (vs ++ [x]) = outstanding t vs + if isOutstanding t x then 1 else 0.
Proof. unfold outstanding. rewrite sumZ_app. simpl. lia. Qed.

Lemma outstanding_antitone t t' vs : t <= t' ->
  outstanding t' vs <= outstanding t vs /\ forall i, outstandingOf t' i vs <= outstandingOf t i vs.
Proof.
  intros Ht. unfold outstanding, outstandingOf, isOutstanding.
  induction vs as [|v vs [IH1 IH2]]; simpl; [split; [lia|intros; lia]|].
  destruct (Z.ltb_spec t' (in_expires v)), (Z.ltb_spec t (in_expires v)); try lia; split; try lia;
    intros i; specialize (IH2 i); destruct (String.eqb (in_identity v) i); simpl; lia.
Qed.

Lemma counts_default t st vs i : caps_ok t st vs ->
  default 0 (st.(countsByIdentity) !! i) = outstandingOf t i vs.
Proof.
  intros Hst. rewrite (cs_counts _ _ _ Hst).
  destruct (Z.eqb_spec (outstandingOf t i vs) 0) as [->|]; done.
Qed.

(** One more intent: it is tracked exactly when the larger set is admissible. *)
Lemma trackIntent_spec p t st vs x : caps_ok t st vs -> within_caps p t vs ->
  match trackIntent p t st x with
  | Ok st' => within_caps p t (vs ++ [x]) /\ caps_ok t st' (vs ++ [x])
  | Throw _ => ~ within_caps p t (vs ++ [x])
  end.
Proof.
  intros Hst Hw. unfold trackIntent. rewrite (counts_default _ _ _ _ Hst), (cs_active _ _ _ Hst).
  destruct Hst, Hw.
  destruct (bool_decide_reflect (in_id x ∈ seenIntentIds st)) as [Hd|Hd]; cbn [mbind res_bind throw_if].
  { intros []. rewrite map_app in wc_ids1. apply NoDup_snoc in wc_ids1 as [_ Hn]. apply Hn. by apply cs_ids0. }
  destruct (bool_decide_reflect (in_reservation x ∈ seenReservationIds st)) as [Hr|Hr]; cbn [mbind res_bind throw_if].
  { intros []. rewrite map_app in wc_reservations1.
    apply NoDup_snoc in wc_reservations1 as [_ Hn]. apply Hn. by apply cs_reservations0. }
  rewrite cs_ids0 in Hd. rewrite cs_reservations0 in Hr.
  assert (NoDup (map in_id vs ++ [in_id x])) by (by apply NoDup_snoc).
  assert (NoDup (map in_reservation vs ++ [in_reservation x])) by (by apply NoDup_snoc).
  destruct (isOutstanding t x) eqn:Ex.
  - destruct (Z.gtb_spec (outstandingOf t (in_identity x) vs + 1) (po_perIdentity p)); cbn [mbind res_bind throw_if].
    { intros []. specialize (wc_identity1 (in_identity x)).
      rewrite outstandingOf_snoc, Ex, String.eqb_refl in wc_identity1. simpl in *. lia. }
    destruct (Z.gtb_spec (outstanding t vs + 1) (po_global p)); cbn [mbind res_bind throw_if].
    { intros []. rewrite outstanding_snoc, Ex in wc_global1. lia. }
    split; constructor; simpl; rewrite ?map_app, ?outstanding_snoc, ?Ex, ?length_app; simpl; try done; try lia.
    + intros i. rewrite outstandingOf_snoc, Ex. specialize (wc_identity0 i).
      destruct (String.eqb_spec (in_identity x) i) as [<-|]; simpl; lia.
    + set_solver.
    + set_solver.
    + intros i. rewrite outstandingOf_snoc, Ex. pose proof (outstandingOf_nonneg t i vs). simpl.
      destruct (String.eqb_spec (in_identity x) i) as [<-|Hne].
      * rewrite lookup_insert_eq. destruct (Z.eqb_spec (outstandingOf t (in_identity x) vs + 1) 0); [lia|done].
      * by rewrite lookup_insert_ne, Z.add_0_r by done.
    + by rewrite cs_rows0.
  - split; constructor; simpl; rewrite ?map_app, ?outstanding_snoc, ?Ex, ?length_app; simpl; try done; try lia.
    + intros i. rewrite outstandingOf_snoc, Ex. simpl. rewrite Z.add_0_r. apply wc_identity0.
    + set_solver.
    + set_solver.
    + intros i. by rewrite outstandingOf_snoc, Ex, Z.add_0_r.
    + by rewrite cs_rows0.
Qed.

Section caps_facts.
Context {H : Digest}.

Definition verified (p : Policy) : list json -> list Intent -> Prop :=
  Forall2 (fun raw v => verifyIntent p raw = Ok v).

Lemma within_caps_prefix p t vs ws : within_caps p t (vs ++ ws) -> within_caps p t vs.
Proof.
  intros []. rewrite map_app in *. apply NoDup_app in wc_ids0 as [? _], wc_reservations0 as [? _].
  unfold outstanding in *. rewrite sumZ_app in *. pose proof (outstanding_nonneg t ws).
  unfold outstanding in *. constructor; try done; [|unfold outstanding; lia].
  intros i. specialize (wc_identity0 i). unfold outstandingOf in *. rewrite sumZ_app in wc_identity0.
  pose proof (outstandingOf_nonneg t i ws). unfold outstandingOf in *. lia.
Qed.

Lemma trackAll_spec p t raws vs : verified p raws vs -> forall st seen,
  caps_ok t st seen -> within_caps p t seen ->
  match foldM (trackRaw p t) st raws with
  | Ok st' => within_caps p t (seen ++ vs) /\ caps_ok t st' (seen ++ vs)
  | Throw _ => ~ within_caps p t (seen ++ vs)
  end.
Proof.
  induction 1 as [|r v raws vs Hv _ IH]; intros st seen Hst Hw; simpl.
  { by rewrite app_nil_r. }
  assert (trackRaw p t st r = trackIntent p t st v) as -> by (unfold trackRaw; by rewrite Hv).
  pose proof (trackIntent_spec p t st seen v Hst Hw) as Hs.
  destruct (trackIntent p t st v) as [st'|e]; cbn [mbind res_bind].
  - destruct Hs as [Hw' Hst']. specialize (IH st' (seen ++ [v]) Hst' Hw').
    by rewrite <- app_assoc in IH.
  - intros Hall. apply Hs. apply (within_caps_prefix p t _ vs). by rewrite <- app_assoc.
Qed.

Lemma within_caps_nil p t : 0 <= p.(po_perIdentity) -> 0 <= p.(po_global) -> within_caps p t [].
Proof. intros. constructor; simpl; try done; constructor. Qed.

Lemma trackAll_verified p t raws st st' : foldM (trackRaw p t) st raws = Ok st' ->
  exists vs, verified p raws vs.
Proof.
  revert st. induction raws as [|r raws IH]; intros st Hf; simpl in Hf; [by exists []; constructor|].
  apply bind_Ok in Hf as (st1 & Ht & Hf). unfold trackRaw in Ht. apply bind_Ok in Ht as (v & Hv & _).
  destruct (IH _ Hf) as [vs Hvs]. exists (v :: vs). by constructor.
Qed.

(** ** Accepted policies *)

Lemma positiveSafeInteger_Ok v code z :
  positiveSafeInteger v code = Ok z <-> v = jint z /\ 0 < z <= MAX_SAFE_INTEGER.
Proof.
  unfold positiveSafeInteger. split.
  - destruct (as_safe_integer v) eqn:E; [|discriminate]. apply as_safe_integer_Some in E as [-> ?].
    intros. inv_ok. split; [done|]. lia.
  - intros [-> Hz]. rewrite (proj2 (as_safe_integer_Some (jint z) z)) by (split; [done|lia]).
    assert ((z <=? 0) = false) as -> by lia. done.
Qed.

(** Verifying the verified policy object again gives the same policy. *)
Lemma verifyPolicy_again raw p : verifyPolicy raw = Ok p -> verifyPolicy p.(po_json) = Ok p.
Proof.
  unfold verifyPolicy at 1. intros Hp. apply bind_Ok in Hp as (w & Hw & Hp).
  pose proof (snapshot_again _ _ _ _ Hw) as Hw'.
  assert (po_json p = w) as -> by (by inv_ok).
  unfold verifyPolicy. rewrite Hw'. exact Hp.
Qed.

Record policy_ok (p : Policy) : Prop := {
  pk_ttl : 0 < p.(po_ttl) <= MAX_TTL_SECONDS;
  pk_perIdentity : 0 < p.(po_perIdentity) <= p.(po_global);
  pk_global : p.(po_global) <= MAX_TRACKED_INTENTS;
  pk_committed : 0 < p.(po_committed)
}.

Lemma verifyPolicy_ok raw p : verifyPolicy raw = Ok p -> policy_ok p.
Proof.
  unfold verifyPolicy, canonicalMs. intros Hp. inv_ok.
  repeat match goal with
  | Hz : positiveSafeInteger _ _ = Ok _ |- _ => apply positiveSafeInteger_Ok in Hz as [_ ?]
  end. constructor; simpl; lia.
Qed.

Lemma verifyIntent_expiry p raw v : verifyIntent p raw = Ok v ->
  v.(in_expires) = v.(in_issued) + p.(po_ttl) * 1000 /\ p.(po_committed) < v.(in_issued) /\
  v.(in_expires) <= MAX_SAFE_INTEGER.
Proof.
  unfold verifyIntent, canonicalMs. intros Hv. inv_ok.
  repeat match goal with
  | Hz : positiveSafeInteger _ _ = Ok _ |- _ => apply positiveSafeInteger_Ok in Hz as [_ ?]
  end. bool_prop. simpl. lia.
Qed.

(** ** Accepted states *)

Definition stateArgs (rp ri rt : json) (p : Policy) (t : Z) (raws : list json) : Prop :=
  verifyPolicy rp = Ok p /\ ri = JArr raws /\ Z.of_nat (length raws) <= MAX_TRACKED_INTENTS /\
  rt = jint t /\ 0 < t <= MAX_SAFE_INTEGER.

Lemma verifyState_Ok rp ri rt s :
  verifyEconomicIntentTtlCapsStateV1 rp ri rt = Ok s <->
  exists p t raws vs st, stateArgs rp ri rt p t raws /\ verified p raws vs /\ within_caps p t vs /\
    caps_ok t st vs /\ foldM (trackRaw p t) emptyCaps raws = Ok st /\ s = renderState p t st.
Proof.
  unfold verifyEconomicIntentTtlCapsStateV1, canonicalMs. split.
  - intros Hs. apply bind_Ok in Hs as (p & Hp & Hs). apply bind_Ok in Hs as (t & Ht & Hs).
    apply bind_Ok in Hs as (raws & Hraws & Hs). apply bind_Ok in Hs as (st & Hf & [= <-]).
    apply positiveSafeInteger_Ok in Ht as [-> Ht].
    destruct ri as [| | | | |l|]; try discriminate. simpl in Hraws. inv_ok.
    destruct (trackAll_verified _ _ _ _ _ Hf) as [vs Hvs].
    destruct (verifyPolicy_ok _ _ Hp). unfold MAX_TTL_SECONDS, MAX_TRACKED_INTENTS in *.
    pose proof (trackAll_spec p t _ vs Hvs emptyCaps [] (caps_ok_empty t)
      (within_caps_nil p t ltac:(lia) ltac:(lia))) as Hspec.
    rewrite Hf in Hspec. destruct Hspec as [Hw Hst].
    exists p, t, raws, vs, st. split; [|auto]. repeat split; try done; unfold MAX_TRACKED_INTENTS; lia.
  - intros (p & t & raws & vs & st & (Hp & -> & Hlen & -> & Ht) & Hvs & Hw & Hst & Hf & ->).
    rewrite Hp. cbn [mbind res_bind].
    rewrite (proj2 (positiveSafeInteger_Ok (jint t) _ t)) by done. cbn [mbind res_bind]. simpl.
    assert ((Z.of_nat (length raws) >? MAX_TRACKED_INTENTS) = false) as -> by lia.
    cbn [mbind res_bind throw_if]. by rewrite Hf.
Qed.

(** An admissible set is accepted. *)
Lemma verifyState_run rp p t raws vs : stateArgs rp (JArr raws) (jint t) p t raws ->
  verified p raws vs -> within_caps p t vs -> exists st, caps_ok t st vs /\
  verifyEconomicIntentTtlCapsStateV1 rp (JArr raws) (jint t) = Ok (renderState p t st).
Proof.
  intros Ha Hvs Hw. pose proof (verifyPolicy_ok _ _ (proj1 Ha)) as [? ? ? ?].
  pose proof (trackAll_spec p t _ vs Hvs emptyCaps [] (caps_ok_empty t)
    (within_caps_nil p t ltac:(lia) ltac:(lia))) as Hspec. simpl in Hspec.
  destruct (foldM (trackRaw p t) emptyCaps raws) as [st|] eqn:Hf; [|done].
  destruct Hspec as [_ Hst]. exists st. split; [done|]. apply verifyState_Ok.
  exists p, t, raws, vs, st. auto 10.
Qed.

(** ** Reading a state *)

Lemma find_sorted (l : list (string * Z)) i : NoDup l.*1 ->
  List.find (fun entry => entry.@"identity_id" === JStr i) (map countRow (isort fst_leb l)) =
  countRow <$> List.find (fun e => String.eqb e.1 i) l.
Proof.
  intros Hnd. assert (forall k : list (string * Z), List.find (fun entry => entry.@"identity_id" === JStr i) (map countRow k) =
    countRow <$> List.find (fun e => String.eqb e.1 i) k) as Hm.
  { intros k. induction k as [|[j c] k IH]; [done|]. simpl. by destruct (String.eqb j i). }
  rewrite Hm. f_equal.
  assert (forall a (k : list (string * Z)), a.1 = i -> a ∈ k -> NoDup k.*1 ->
    List.find (fun e => String.eqb e.1 i) k = Some a) as Hf.
  { intros a k Ha. induction k as [|b k IH]; intros Hin Hk; [set_solver|]. simpl.
    apply NoDup_cons in Hk as [Hb Hk]. destruct (String.eqb_spec b.1 i) as [He|Hne].
    - apply elem_of_cons in Hin as [->|Hin]; [done|]. exfalso. apply Hb. rewrite He, <- Ha.
      by apply list_elem_of_fmap_2.
    - apply IH; [|done]. apply elem_of_cons in Hin as [->|]; [|done]. by destruct Hne. }
  destruct (List.find (fun e => String.eqb e.1 i) l) as [a|] eqn:E.
  - apply List.find_some in E as [Hin He]. apply String.eqb_eq in He. apply Hf; [done| |].
    + rewrite isort_perm. by apply list_elem_of_In.
    + by rewrite isort_perm.
  - destruct (List.find _ (isort fst_leb l)) as [b|] eqn:Eb; [|done].
    apply List.find_some in Eb as [Hin He]. apply list_elem_of_In in Hin. rewrite isort_perm in Hin.
    apply list_elem_of_In in Hin. by rewrite (List.find_none _ _ E _ Hin) in He.
Qed.

(** The count [classifyEconomicIntentAdmissionV1] reads for an identity. *)
Lemma read_count (m : gmap string Z) i :
  match List.find (fun entry => entry.@"identity_id" === JStr i)
      (map countRow (isort fst_leb (map_to_list m))) with
  | Some entry => int_of (entry.@"count")
  | None => 0
  end = default 0 (m !! i).
Proof.
  rewrite find_sorted by apply NoDup_fst_map_to_list.
  destruct (List.find _ (map_to_list m)) as [[j c]|] eqn:E; simpl.
  - apply List.find_some in E as [Hin He]. apply list_elem_of_In, elem_of_map_to_list in Hin.
    apply String.eqb_eq in He. simpl in He. subst j. by rewrite Hin.
  - destruct (m !! i) as [c|] eqn:Em; [|done]. apply elem_of_map_to_list, list_elem_of_In in Em.
    pose proof (List.find_none _ _ E _ Em) as Hn. simpl in Hn. by rewrite String.eqb_refl in Hn.
Qed.

(** What admission computes on an accepted state. *)
Lemma classifyAdmission_Ok rp ri rt identity d :
  classifyEconomicIntentAdmissionV1 rp ri rt (JStr identity) = Ok d ->
  exists p t raws vs, stateArgs rp ri rt p t raws /\ verified p raws vs /\ within_caps p t vs /\
    d.@"identity_outstanding_count" = jint (outstandingOf t identity vs) /\
    d.@"global_outstanding_count" = jint (outstanding t vs) /\
    d.@"admission_allowed" = JBool ((outstandingOf t identity vs <? p.(po_perIdentity)) &&
      (outstanding t vs <? p.(po_global))).
Proof.
  unfold classifyEconomicIntentAdmissionV1. intros Hd.
  apply bind_Ok in Hd as (p & Hp & Hd). apply bind_Ok in Hd as (i & Hi & Hd).
  apply bind_Ok in Hd as (s & Hs & Hd).
  assert (i = identity) as -> by (simpl in Hi; by inv_ok).
  apply verifyState_Ok in Hs as (p' & t & raws & vs & st & Ha & Hvs & Hw & Hst & _ & ->).
  pose proof (verifyPolicy_again _ _ Hp) as Hp2. destruct Ha as (Hp' & -> & Ha).
  assert (p' = p) as -> by congruence.
  exists p, t, raws, vs. split; [done|]. do 2 (split; [done|]).
  injection Hd as <-.
  change (items_of ((renderState p t st).@"per_identity_outstanding_counts")) with
    (map countRow (isort fst_leb (map_to_list st.(countsByIdentity)))).
  change (int_of ((renderState p t st).@"outstanding_intent_count")) with st.(active).
  rewrite read_count, (counts_default _ _ _ _ Hst), (cs_active _ _ _ Hst).
  split; [reflexivity|]. split; [reflexivity|].
  cbn [prop assoc String.eqb Ascii.eqb eqb]. f_equal. rewrite !Z.geb_leb, !Z.leb_antisym, !negb_involutive.
  reflexivity.
Qed.

(** C23: An accepted state reports the truth about the reservation set it was given:
    it tracks every intent, counts as outstanding exactly those that expire after
    the observation time, and keeps within the policy, for every identity and
    overall, with no intent or reservation identity used twice. *)
Theorem caps_state_sound rp ri rt s : verifyEconomicIntentTtlCapsStateV1 rp ri rt = Ok s ->
  exists p t raws vs, stateArgs rp ri rt p t raws /\ verified p raws vs /\
    NoDup (map in_id vs) /\ NoDup (map in_reservation vs) /\
    s.@"tracked_intent_count" = jint (Z.of_nat (length raws)) /\
    s.@"outstanding_intent_count" = jint (outstanding t vs) /\
    s.@"expired_intent_count" = jint (Z.of_nat (length raws) - outstanding t vs) /\
    outstanding t vs <= p.(po_global) <= 1000000 /\
    (forall i, outstandingOf t i vs <= p.(po_perIdentity)) /\
    (forall i c, countRow (i, c) ∈ items_of (s.@"per_identity_outstanding_counts") <->
       0 < c /\ c = outstandingOf t i vs).
Proof.
  intros (p & t & raws & vs & st & Ha & Hvs & Hw & Hst & _ & ->)%verifyState_Ok.
  exists p, t, raws, vs. pose proof (verifyPolicy_ok _ _ (proj1 Ha)) as [_ _ Hg _].
  pose proof (Forall2_length _ _ _ Hvs) as Hlen. destruct Hw.
  split; [done|]. split; [done|]. split; [done|]. split; [done|].
  split. { simpl. by rewrite (cs_rows _ _ _ Hst), length_map, Hlen. }
  split. { simpl. by rewrite (cs_active _ _ _ Hst). }
  split. { simpl. by rewrite (cs_expired _ _ _ Hst), Hlen. }
  split; [done|]. split; [done|]. intros i c.
  change (items_of ((renderState p t st).@"per_identity_outstanding_counts")) with
    (map countRow (isort fst_leb (map_to_list st.(countsByIdentity)))).
  assert (countRow (i, c) ∈ map countRow (isort fst_leb (map_to_list (countsByIdentity st))) <->
    countsByIdentity st !! i = Some c) as ->.
  { rewrite <- elem_of_map_to_list, list_elem_of_fmap. setoid_rewrite isort_perm. split; [|eauto].
    intros ([j d] & [= -> ->] & Hin). done. }
  rewrite (cs_counts _ _ _ Hst). pose proof (outstandingOf_nonneg t i vs).
  destruct (Z.eqb_spec (outstandingOf t i vs) 0); [split; [done|lia]|].
  split; [intros [= <-]; lia|]. intros [_ ->]. done.
Qed.

(** The identities a verified intent carries. *)
Lemma verifyIntent_raw p raw v : verifyIntent p raw = Ok v ->
  raw.@"intent_id" = JStr v.(in_id) /\ raw.@"reservation_id" = JStr v.(in_reservation) /\
  raw.@"identity_id" = JStr v.(in_identity).
Proof.
  unfold verifyIntent. intros Hv. apply bind_Ok in Hv as (w & Hw & Hv).
  apply snapshotExact_Ok in Hw as (_ & _ & ->). inv_ok.
  repeat match goal with Hs : canonicalSha _ _ = Ok _ |- _ => apply canonicalSha_Ok in Hs as [Hs _] end.
  simpl in *. auto.
Qed.

Lemma verified_field p l vs (g : Intent -> string) k : verified p l vs ->
  (forall raw v, verifyIntent p raw = Ok v -> raw.@k = JStr (g v)) ->
  map (fun r => r.@k) l = map (fun v => JStr (g v)) vs.
Proof. intros Hvs Hk. induction Hvs as [|r v l vs Hv _ IH]; simpl; [done|]. f_equal; auto. Qed.

Lemma fresh_field p l vs (g : Intent -> string) k raw v : verified p l vs ->
  (forall raw v, verifyIntent p raw = Ok v -> raw.@k = JStr (g v)) ->
  verifyIntent p raw = Ok v -> raw.@k ∉ map (fun r => r.@k) l -> g v ∉ map g vs.
Proof.
  intros Hvs Hk Hv Hfresh Hin. apply Hfresh. rewrite (Hk _ _ Hv), (verified_field _ _ _ _ _ Hvs Hk).
  apply list_elem_of_fmap in Hin as (w & -> & Hw). by apply (list_elem_of_fmap_2 (fun v => JStr (g v))).
Qed.

Lemma verifyState_is_ok rp p t l vs : stateArgs rp (JArr l) (jint t) p t l -> verified p l vs ->
  is_ok (verifyEconomicIntentTtlCapsStateV1 rp (JArr l) (jint t)) = true <-> within_caps p t vs.
Proof.
  intros Ha Hvs. split.
  - destruct (verifyEconomicIntentTtlCapsStateV1 rp (JArr l) (jint t)) as [s|] eqn:E; [|discriminate].
    intros _. apply verifyState_Ok in E as (p' & t' & l' & vs' & st & Ha' & Hvs' & Hw & _).
    destruct Ha as (Hp & _), Ha' as (Hp' & [= <-] & _ & [= <-] & _).
    assert (p' = p) as -> by congruence. replace vs with vs'; [done|].
    clear -Hvs Hvs'. revert vs' Hvs'. induction Hvs as [|r v l vs Hv _ IH]; intros vs' Hvs'.
    { by inversion Hvs'. }
    inversion Hvs' as [|? v' ? vs'' Hv' Hvs'']; subst. f_equal; [congruence|auto].
  - intros Hw. by destruct (verifyState_run rp p t l vs Ha Hvs Hw) as (st & _ & ->).
Qed.

Lemma verified_perm p l l' vs : verified p l vs -> l ≡ₚ l' ->
  exists vs', verified p l' vs' /\ vs ≡ₚ vs'.
Proof.
  intros Hvs Hp. destruct (Forall2_perm_l _ _ l' _ Hvs) as (vs' & ? & ?); [done|]. by exists vs'.
Qed.

Lemma outstandingOf_perm t i vs vs' : vs ≡ₚ vs' -> outstandingOf t i vs = outstandingOf t i vs'.
Proof. apply sumZ_perm. Qed.

(** The reported state is a function of the set, not of its order. *)
Lemma renderState_perm p t st st' vs vs' : caps_ok t st vs -> caps_ok t st' vs' -> vs ≡ₚ vs' ->
  NoDup (map in_id vs) -> renderState p t st = renderState p t st'.
Proof.
  intros Hst Hst' Hp Hnd.
  assert (countsByIdentity st = countsByIdentity st') as Hc.
  { apply map_eq. intros i. rewrite (cs_counts _ _ _ Hst), (cs_counts _ _ _ Hst').
    by rewrite (outstandingOf_perm t i vs vs' Hp). }
  assert (isort fst_leb st.(rows) = isort fst_leb st'.(rows)) as Hr.
  { rewrite (cs_rows _ _ _ Hst), (cs_rows _ _ _ Hst').
    apply (isort_key_perm (fun r : string * json => r.1)); [|by apply Permutation_map].
    by rewrite List.map_map. }
  unfold renderState. rewrite Hc, Hr.
  rewrite (cs_active _ _ _ Hst), (cs_active _ _ _ Hst'), (cs_expired _ _ _ Hst), (cs_expired _ _ _ Hst').
  rewrite (cs_rows _ _ _ Hst), (cs_rows _ _ _ Hst'), !length_map.
  assert (outstanding t vs = outstanding t vs') as -> by (by apply sumZ_perm).
  by rewrite (Permutation_length Hp).
Qed.

(** The admission check is exact: for an identity and a fresh, valid, unexpired
    intent of that identity, admission is allowed if and only if the reservation set
    with this intent added is accepted.  So an admitted intent never breaks a cap and
    no intent is turned away while both caps have room. *)
Theorem admission_exact rp l t identity d p raw v :
  classifyEconomicIntentAdmissionV1 rp (JArr l) (jint t) (JStr identity) = Ok d ->
  verifyPolicy rp = Ok p -> verifyIntent p raw = Ok v ->
  v.(in_identity) = identity -> t < v.(in_expires) ->
  raw.@"intent_id" ∉ map (fun r => r.@"intent_id") l ->
  raw.@"reservation_id" ∉ map (fun r => r.@"reservation_id") l ->
  Z.of_nat (length l) < 1000000 ->
  d.@"admission_allowed" =
    JBool (is_ok (verifyEconomicIntentTtlCapsStateV1 rp (JArr (l ++ [raw])) (jint t))).
Proof.
  intros (p' & t' & l' & vs & Ha & Hvs & Hw & _ & _ & ->)%classifyAdmission_Ok Hp Hv Hid Ht Hi Hr Hlen.
  destruct Ha as (Hp' & [= <-] & Hl & [= <-] & Htr). assert (p' = p) as -> by congruence.
  assert (stateArgs rp (JArr (l ++ [raw])) (jint t) p t (l ++ [raw])) as Ha.
  { repeat split; try done; try lia. rewrite length_app, Nat2Z.inj_add. simpl.
    unfold MAX_TRACKED_INTENTS. lia. }
  assert (verified p (l ++ [raw]) (vs ++ [v])) as Hvs' by (apply Forall2_app; [done|by repeat constructor]).
  pose proof (verifyState_is_ok rp p t _ _ Ha Hvs') as Hiff. f_equal. apply eq_true_iff_eq. rewrite Hiff.
  rewrite andb_true_iff, !Z.ltb_lt.
  assert (isOutstanding t v = true) as Hout by (by apply Z.ltb_lt).
  apply (fresh_field _ _ _ in_id _ _ v Hvs) in Hi; [|intros; by eapply verifyIntent_raw|done].
  apply (fresh_field _ _ _ in_reservation _ _ v Hvs) in Hr; [|intros; by eapply verifyIntent_raw|done].
  destruct Hw. split.
  - intros [Hid' Hgl]. constructor; rewrite ?map_app; simpl; try (by apply NoDup_snoc).
    + intros i. rewrite outstandingOf_snoc, Hout. specialize (wc_identity0 i). simpl.
      destruct (String.eqb_spec (in_identity v) i) as [<-|]; [rewrite Hid in *|]; lia.
    + rewrite outstanding_snoc, Hout. lia.
  - intros [_ _ Hall Hgl]. specialize (Hall identity).
    rewrite outstandingOf_snoc, Hout, Hid, String.eqb_refl in Hall.
    rewrite outstanding_snoc, Hout in Hgl. simpl in *. lia.
Qed.

(** Time only frees capacity: a reservation set that is accepted at one time is
    accepted at every later time, with at most as many intents outstanding. *)
Theorem caps_time_monotone rp ri t t' s :
  verifyEconomicIntentTtlCapsStateV1 rp ri (jint t) = Ok s -> t <= t' <= MAX_SAFE_INTEGER ->
  exists s' n n', verifyEconomicIntentTtlCapsStateV1 rp ri (jint t') = Ok s' /\
    s.@"outstanding_intent_count" = jint n /\ s'.@"outstanding_intent_count" = jint n' /\ n' <= n.
Proof.
  intros (p & t0 & raws & vs & st & (Hp & -> & Hl & [= <-] & Ht) & Hvs & Hw & Hst & _ & ->)%verifyState_Ok Hle.
  destruct (outstanding_antitone t t' vs (proj1 Hle)) as [Hout Hof].
  assert (within_caps p t' vs) as Hw'.
  { destruct Hw. constructor; try done; [|lia]. intros i. specialize (wc_identity0 i). specialize (Hof i). lia. }
  destruct (verifyState_run rp p t' raws vs) as (st' & Hst' & Hs'); [|done..|].
  { repeat split; try done; lia. }
  eexists _, _, _. split; [exact Hs'|]. split; [reflexivity|]. split; [reflexivity|].
  rewrite (cs_active _ _ _ Hst), (cs_active _ _ _ Hst'). exact Hout.
Qed.

(** Expiry is fixed by the policy at issue time and payments respect it: the
    intent expires [ttl] seconds, at most 300, after it was issued, strictly after
    the policy was committed; a payment observed at or after that instant is
    reconciled without execution and one before it continues normally, in agreement
    with what the reservation set counts as outstanding at the same time, and no
    payment is ever executed automatically. *)
Theorem late_payment_boundary rp raw t d :
  classifyEconomicIntentLatePaymentV1 rp raw (jint t) = Ok d ->
  exists p v, verifyPolicy rp = Ok p /\ verifyIntent p raw = Ok v /\
    v.(in_expires) = v.(in_issued) + p.(po_ttl) * 1000 /\
    v.(in_expires) <= v.(in_issued) + 300000 /\
    p.(po_committed) < v.(in_issued) /\
    d.@"payment_after_expiry" = JBool (negb (isOutstanding t v)) /\
    d.@"normal_settlement_path_eligible" = JBool (t <? v.(in_expires)) /\
    d.@"action" = JStr (if t <? v.(in_expires) then "continue_normal_settlement_path"
                        else "reconcile_without_automatic_execution") /\
    d.@"automatic_execution_allowed" = JBool false.
Proof.
  unfold classifyEconomicIntentLatePaymentV1. intros Hd.
  apply bind_Ok in Hd as (p & Hp & Hd). apply bind_Ok in Hd as (v & Hv & Hd).
  apply bind_Ok in Hd as (t' & ([= <-] & _)%positiveSafeInteger_Ok & [= <-]).
  destruct (verifyPolicy_ok _ _ Hp). destruct (verifyIntent_expiry _ _ _ Hv) as (He & Hc & _).
  unfold MAX_TTL_SECONDS in *. exists p, v. unfold isOutstanding.
  split; [done|]. split; [done|]. split; [lia|]. split; [lia|]. split; [done|].
  cbn -[Z.geb Z.ltb]. rewrite Z.geb_leb, Z.leb_antisym.
  by destruct (t <? in_expires v).
Qed.

(** The order of the reservations does not matter: a permutation of an accepted
    set is accepted and produces the same state, field by field. *)
Theorem caps_order_independent rp l l' rt s :
  verifyEconomicIntentTtlCapsStateV1 rp (JArr l) rt = Ok s -> l ≡ₚ l' ->
  verifyEconomicIntentTtlCapsStateV1 rp (JArr l') rt = Ok s.
Proof.
  intros (p & t & raws & vs & st & (Hp & [= <-] & Hl & -> & Ht) & Hvs & Hw & Hst & _ & ->)%verifyState_Ok Hperm.
  destruct (verified_perm _ _ _ _ Hvs Hperm) as (vs' & Hvs' & Hperm').
  assert (within_caps p t vs') as Hw'.
  { destruct Hw. unfold outstanding in wc_global0. constructor.
    - by rewrite <- Hperm'.
    - by rewrite <- Hperm'.
    - intros i. unfold outstandingOf. rewrite <- Hperm'. apply wc_identity0.
    - unfold outstanding. by rewrite <- Hperm'. }
  destruct (verifyState_run rp p t l' vs') as (st' & Hst' & ->); [|done..|].
  { repeat split; try done; try lia. by rewrite <- Hperm. }
  f_equal. symmetry. eapply renderState_perm; try done. by destruct Hw.
Qed.
End caps_facts.

(** The policy contract identity that the coupled gate candidate records, recomputed
    with SHA-256. *)
Example policy_contract_id_recorded :
  @digest sha256 POLICY_CONTRACT_PAYLOAD =
  Ok "sha256:71bb72b19dec6b24cb864eca8716991b0cec2665e6537584c1a0ff55a06047c0"%string.
Proof. vm_compute. reflexivity. Qed.

(** ** A policy with two reservations *)

#[local] Existing Instance poly256 | 0.

Definition sample_id (tag : string) : string :=
  "sha256:00000000000000000000000000000000000000000000000000000000000000" +:+ tag.

Definition with_id (key : string) (payload : json -> json) (v : json) : json :=
  match digest (payload v) with Ok i => extend v key (JStr i) | Throw _ => JNull end.

Definition sample_policy : json := Eval vm_compute in
  with_id "policy_id" policyPayload (JObj [
    "schema" ~> VOID_ECONOMIC_INTENT_TTL_CAPS_POLICY_SCHEMA_V1;
    "coupled_launch_id" ~> sample_id "11";
    "policy_generation" ~> "1";
    "policy_committed_at_ms" ~> jint 1000;
    "intent_ttl_seconds" ~> jint 60;
    "per_identity_max_outstanding" ~> jint 2;
    "global_max_outstanding" ~> jint 5;
    "late_payment_action" ~> LATE_PAYMENT_ACTION]).

Definition intent_of (identity reservation : string) (issued : Z) : json :=
  with_id "intent_id" intentPayload (JObj [
    "schema" ~> VOID_ECONOMIC_INTENT_RESERVATION_SCHEMA_V1;
    "policy_id" ~> sample_policy.@"policy_id";
    "coupled_launch_id" ~> sample_id "11";
    "identity_id" ~> sample_id identity;
    "reservation_id" ~> sample_id reservation;
    "issued_at_ms" ~> jint issued;
    "expires_at_ms" ~> jint (issued + 60000);
    "state" ~> "pending_unpaid"]).

Definition sample_intents : list json := Eval vm_compute in
  [intent_of "a1" "c1" 2000; intent_of "a1" "c2" 50000].
Definition sample_fresh_intent : json := Eval vm_compute in intent_of "a1" "c3" 60000.

Lemma caps_state_sound_witness :
  match verifyEconomicIntentTtlCapsStateV1 sample_policy (JArr sample_intents) (jint 61000) with
  | Ok s => exists p t raws vs, verified p raws vs /\
      s.@"outstanding_intent_count" = jint (outstanding t vs) /\ outstanding t vs <= p.(po_global)
  | Throw _ => False
  end.
Proof.
  run_ok (verifyEconomicIntentTtlCapsStateV1 sample_policy (JArr sample_intents) (jint 61000)) E.
  destruct (caps_state_sound sample_policy _ _ _ E)
    as (p & t & raws & vs & _ & Hv & _ & _ & _ & Ho & _ & [Hg _] & _).
  exists p, t, raws, vs. split; [exact Hv|split; [exact Ho|exact Hg]].
Defined.

Lemma caps_order_independent_witness :
  match verifyEconomicIntentTtlCapsStateV1 sample_policy (JArr sample_intents) (jint 61000) with
  | Ok s => verifyEconomicIntentTtlCapsStateV1 sample_policy (JArr (reverse sample_intents)) (jint 61000) = Ok s
  | Throw _ => False
  end.
Proof.
  run_ok (verifyEconomicIntentTtlCapsStateV1 sample_policy (JArr sample_intents) (jint 61000)) E.
  apply (caps_order_independent sample_policy sample_intents _ _ _ E).
  symmetry. apply reverse_Permutation.
Defined.

(** At 61,000 ms the identity has two outstanding intents and is refused; at
    62,000 ms the first has expired and the fresh one is admitted. *)
Lemma admission_exact_witness :
  match classifyEconomicIntentAdmissionV1 sample_policy (JArr sample_intents) (jint 62000)
      (JStr (sample_id "a1")) with
  | Ok d => d.@"admission_allowed" = JBool (is_ok (verifyEconomicIntentTtlCapsStateV1 sample_policy
      (JArr (sample_intents ++ [sample_fresh_intent])) (jint 62000)))
  | Throw _ => False
  end.
Proof.
  run_ok (classifyEconomicIntentAdmissionV1 sample_policy (JArr sample_intents) (jint 62000)
    (JStr (sample_id "a1"))) E.
  run_ok (verifyPolicy sample_policy) Ep.
  assert (Ok (sample_id "a1", 120000) = ((fun v => (v.(in_identity), v.(in_expires))) <$>
    (p ← verifyPolicy sample_policy; verifyIntent p sample_fresh_intent))) as Hv
    by (vm_compute; reflexivity).
  rewrite Ep in Hv. cbn [mbind res_bind] in Hv.
  destruct (verifyIntent out0 sample_fresh_intent) as [v|] eqn:Ev; [|discriminate Hv].
  injection Hv as Hid Hex.
  apply (admission_exact sample_policy sample_intents 62000 (sample_id "a1") out out0
    sample_fresh_intent v E Ep Ev); [symmetry; exact Hid|rewrite <- Hex; reflexivity| | |reflexivity].
  - rewrite list_elem_of_In. cbn. intros [Hc|[Hc|[]]]; discriminate Hc.
  - rewrite list_elem_of_In. cbn. intros [Hc|[Hc|[]]]; discriminate Hc.
Defined.

Lemma caps_time_monotone_witness :
  match verifyEconomicIntentTtlCapsStateV1 sample_policy (JArr sample_intents) (jint 61000) with
  | Ok s => exists s', verifyEconomicIntentTtlCapsStateV1 sample_policy (JArr sample_intents)
      (jint 500000) = Ok s'
  | Throw _ => False
  end.
Proof.
  run_ok (verifyEconomicIntentTtlCapsStateV1 sample_policy (JArr sample_intents) (jint 61000)) E.
  destruct (caps_time_monotone sample_policy _ 61000 500000 _ E) as (s' & _ & _ & Hs & _);
    [unfold MAX_SAFE_INTEGER; lia|].
  exists s'. exact Hs.
Defined.

Lemma late_payment_boundary_witness :
  match classifyEconomicIntentLatePaymentV1 sample_policy sample_fresh_intent (jint 120000) with
  | Ok d => d.@"automatic_execution_allowed" = JBool false
  | Throw _ => False
  end.
Proof.
  run_ok (classifyEconomicIntentLatePaymentV1 sample_policy sample_fresh_intent (jint 120000)) E.
  destruct (late_payment_boundary sample_policy _ _ _ E) as (p & v & _ & _ & _ & _ & _ & _ & _ & _ & Ha).
  exact Ha.
Defined.

(** A payment at the expiry instant itself is late. *)
Example late_at_expiry :
  (fun d => d.@"action") <$> classifyEconomicIntentLatePaymentV1 sample_policy sample_fresh_intent (jint 120000)
  = Ok (JStr "reconcile_without_automatic_execution").
Proof. vm_compute. reflexivity. Qed.
