(* ===== verification/CoupledOpening.v ===== *)
(** * The coupled opening of the WC/VOID market

    Model of [tools/void-wc-void-coupled-opening-v1.mjs]: the participants' work-credit
    commitments, their one-to-one settlement by ledger debits, the pro-rata
    allocation of the opening tranche by largest remainders, and the opening price as
    a reduced fraction.

    The allocation loop increments entries of [ranked], which holds references to the
    entries of [working]; the model keeps [working] as the store and [ranked] as
    positions in it. *)

From Stdlib Require Import Ascii.
From S2P Require Import Prelude Js CanonicalJson Sha256.

Definition VOID_WC_VOID_OPENING_SETTLEMENT_ADAPTER_ID_V1 : string := "void-wc-ledger-opening-settlement-v1".
Definition VOID_WC_VOID_OPENING_COMMITMENT_SCHEMA_V1 : string := "void.wc-void-opening-commitment.v1".
Definition VOID_WC_VOID_OPENING_LEDGER_DEBIT_SCHEMA_V1 : string := "void.wc-ledger-market-debit.v1".
Definition VOID_WC_VOID_OPENING_STATE_SCHEMA_V1 : string := "void.wc-void-coupled-opening-state.v1".

Definition VOID_WC_VOID_COUPLED_OPENING_AUTHORITY_V1 : json :=
  JObj [
    "source_only" ~> true;
    "explicit_input_only" ~> true;
    "canonical_wc_ledger_event_shape_required" ~> true;
    "ledger_write" ~> false;
    "wc_issuance" ~> false;
    "wc_balance_mutation" ~> false;
    "wallet_or_signer_access" ~> false;
    "transaction_signing" ~> false;
    "transaction_broadcast" ~> false;
    "chain2050_write" ~> false;
    "inventory_funding" ~> false;
    "liquidity_movement" ~> false;
    "market_activation" ~> false;
    "public_presale_activation" ~> false;
    "funds_movement" ~> false].

(** [VOID_WC_VOID_OPENING_POLICY_V1] *)
Definition OPENING_POLICY : json :=
  JObj [
    "chain_id" ~> jint 2050;
    "pair" ~> "WC_VOID";
    "quote_asset" ~> "WC";
    "base_asset" ~> "VOID";
    "source_domain" ~> "void-work-credit-ledger";
    "quote_asset_form" ~> "ledger-credit";
    "quote_unit" ~> "wc";
    "quote_decimals" ~> jint 0;
    "protocol_void_inventory_atoms" ~> "10000000000000000000000000";
    "protocol_void_inventory_whole" ~> "10000000";
    "opening_sale_tranche_void_atoms" ~> "5000000000000000000000000";
    "opening_sale_tranche_void_whole" ~> "5000000";
    "post_opening_void_reserve_atoms" ~> "5000000000000000000000000";
    "post_opening_void_reserve_whole" ~> "5000000";
    "opening_allocation_policy" ~> "pro_rata_largest_remainder_v1";
    "protocol_wc_seed_units" ~> "0";
    "fixed_conversion" ~> false;
    "fixed_opening_price" ~> false;
    "opening_price_source" ~> "settled_wc_over_opening_sale_tranche";
    "settlement_adapter_id" ~> VOID_WC_VOID_OPENING_SETTLEMENT_ADAPTER_ID_V1].

(** The policy's tranche, in atoms and in whole VOID. *)
Definition opening_sale_tranche_void_atoms : Z := 5000000000000000000000000.
Definition opening_sale_tranche_void_whole : Z := 5000000.
Definition MAX_SET_SIZE : Z := 1000000.

Definition COMMITMENT_KEYS : list string :=
  ["schema"; "commitment_id"; "coupled_launch_id"; "participant_id"; "account"; "wc_units"]%string.
Definition DEBIT_KEYS : list string :=
  ["schema"; "kind"; "account"; "amount"; "delta"; "ts_ms"; "reason"; "settlement_id";
  "commitment_id"; "coupled_launch_id"; "pair"; "source_domain"; "quote_asset_form";
  "quote_unit"; "quote_decimals"; "market_meta"]%string.
Definition META_KEYS : list string :=
  ["adapter_id"; "opening_only"; "fixed_price"; "protocol_wc_seed_units"]%string.
Definition REQUEST_KEYS : list string :=
  ["coupled_launch_id"; "commitments"; "ledger_debits"]%string.

Definition exactArray (value : json) (code : string) : res (list json) :=
  match value with
  | JArr l =>
      throw_if ((Z.of_nat (length l) <? 1) || (Z.of_nat (length l) >? MAX_SET_SIZE)) code;;
      Ok l
  | _ => Throw code
  end.

Definition positiveWholeWc (value : json) (code : string) : res Z :=
  match value with
  | JStr s =>
      throw_if (negb (is_canonical_decimal s)) code;;
      let amount := BigInt s in
      throw_if ((amount <=? 0) || (amount >? MAX_SAFE_INTEGER)) code;;
      Ok amount
  | _ => Throw code
  end.

(** The account expression: 3 to 128 letters, digits, dots, underscores, colons,
    at-signs or hyphens. *)
Definition is_account_char (c : ascii) : bool :=
  in_range 65 90 c || in_range 97 122 c || is_digit c ||
  existsb (Ascii.eqb c) ["."; "_"; ":"; "@"; "-"]%char.

Definition is_safe_account (s : string) : bool :=
  (3 <=? String.length s)%nat && (String.length s <=? 128)%nat && string_forallb is_account_char s.

Definition canonicalAccount (value : json) (code : string) : res string :=
  match value with
  | JStr s => throw_if (negb (is_safe_account s)) code;; Ok s
  | _ => Throw code
  end.

(** The loop of [gcd], with the number of iterations bounded. *)
Fixpoint gcdLoop (fuel : nat) (a b : Z) : Z :=
  match fuel with
  | O => a
  | S fuel' => if b =? 0 then a else gcdLoop fuel' b (Z.rem a b)
  end.

(** Every second remainder is below half its dividend, so the iterations grow with
    the logarithm of the operands ([gcdLoop_gcd] below). *)
Definition gcd (left right : Z) : Z := gcdLoop (Z.to_nat (Z.log2 (left * right)) + 3) left right.

(** ** Commitments *)

Record Commitment := mkCommitment {
  cm_id : string;
  cm_participant : string;
  cm_account : string;
  cm_wc : Z
}.

Definition commitmentRow (launch : string) (c : Commitment) : json :=
  JObj [
    "commitment_id" ~> c.(cm_id);
    "coupled_launch_id" ~> launch;
    "participant_id" ~> c.(cm_participant);
    "account" ~> c.(cm_account);
    "wc_units" ~> dec c.(cm_wc)].

Record CommitmentSet := mkCommitmentSet {
  cset_root : string;
  cset_total : Z;
  cset_commitments : list Commitment
}.

(** The object [verifyWcVoidOpeningCommitmentsV1] returns for a commitment set. *)
Definition renderCommitmentSet (launch : string) (set : CommitmentSet) : json :=
  JObj [
    "commitment_count" ~> jint (Z.of_nat (length set.(cset_commitments)));
    "commitment_set_root" ~> set.(cset_root);
    "total_committed_wc_units" ~> dec set.(cset_total);
    "commitments" ~> JArr (map (commitmentRow launch) set.(cset_commitments));
    "participant_provenance_verified" ~> false;
    "ledger_settlement_verified" ~> false].

(** The locals of the loop over the commitments. *)
Record CommitmentLoop := mkCommitmentLoop {
  seenCommitmentIds : gset string;
  seenParticipantIds : gset string;
  totalWc : Z;
  canonicalCommitments : list Commitment
}.

Definition trackCommitment (st : CommitmentLoop) (c : Commitment) : res CommitmentLoop :=
  throw_if (bool_decide (c.(cm_id) ∈ st.(seenCommitmentIds))) "DUPLICATE_WC_VOID_OPENING_COMMITMENT_ID";;
  throw_if (bool_decide (c.(cm_participant) ∈ st.(seenParticipantIds)))
    "DUPLICATE_WC_VOID_OPENING_PARTICIPANT_ID";;
  Ok (mkCommitmentLoop ({[ c.(cm_id) ]} ∪ st.(seenCommitmentIds))
    ({[ c.(cm_participant) ]} ∪ st.(seenParticipantIds)) (st.(totalWc) + c.(cm_wc))
    (st.(canonicalCommitments) ++ [c])).

Definition cm_leb (l r : Commitment) : bool := str_leb l.(cm_id) r.(cm_id).

Definition commitmentPayload (value : json) : json :=
  JObj (map (fun key => (key, value.@key))
    ["schema"; "coupled_launch_id"; "participant_id"; "account"; "wc_units"]%string).

Definition debitPayload (value : json) : json :=
  JObj (map (fun key => (key, value.@key))
    ["schema"; "kind"; "account"; "amount"; "delta"; "ts_ms"; "reason"; "commitment_id";
     "coupled_launch_id"; "pair"; "source_domain"; "quote_asset_form"; "quote_unit";
     "quote_decimals"; "market_meta"]%string).

(** ** Settlements *)

Record Settlement := mkSettlement {
  sm_id : string;
  sm_commitment : string;
  sm_account : string;
  sm_amount : Z;
  sm_ts : Z
}.

Definition settlementRow (s : Settlement) : json :=
  JObj [
    "settlement_id" ~> s.(sm_id);
    "commitment_id" ~> s.(sm_commitment);
    "account" ~> s.(sm_account);
    "amount_wc" ~> int_text s.(sm_amount);
    "ts_ms" ~> jint s.(sm_ts)].

Record SettlementSet := mkSettlementSet {
  sset_root : string;
  sset_total : Z;
  sset_settlements : list Settlement
}.

(** The object [verifyWcVoidOpeningLedgerSettlementsV1] returns for a settlement set. *)
Definition renderSettlementSet (set : SettlementSet) : json :=
  JObj [
    "adapter_id" ~> VOID_WC_VOID_OPENING_SETTLEMENT_ADAPTER_ID_V1;
    "source_domain" ~> OPENING_POLICY.@"source_domain";
    "quote_asset_form" ~> OPENING_POLICY.@"quote_asset_form";
    "quote_unit" ~> OPENING_POLICY.@"quote_unit";
    "quote_decimals" ~> OPENING_POLICY.@"quote_decimals";
    "settlement_count" ~> jint (Z.of_nat (length set.(sset_settlements)));
    "settlement_set_root" ~> set.(sset_root);
    "total_settled_wc_units" ~> dec set.(sset_total);
    "exact_commitment_settlement_bijection" ~> true;
    "duplicate_settlement_rejected" ~> true;
    "duplicate_commitment_settlement_rejected" ~> true;
    "ledger_event_shape_verified" ~> true;
    "canonical_balance_debit_compatible" ~> true;
    "ledger_persistence_verified" ~> false;
    "ledger_write_performed" ~> false;
    "wc_balance_mutation_performed" ~> false;
    "settlements" ~> JArr (map settlementRow set.(sset_settlements))].

(** The locals of the loop over the debits. *)
Record SettlementLoop := mkSettlementLoop {
  seenSettlements : gset string;
  seenCommitments : gset string;
  totalSettledWc : Z;
  canonicalSettlements : list Settlement
}.

Definition trackSettlement (st : SettlementLoop) (s : Settlement) : res SettlementLoop :=
  throw_if (bool_decide (s.(sm_id) ∈ st.(seenSettlements))) "DUPLICATE_WC_VOID_OPENING_SETTLEMENT_ID";;
  throw_if (bool_decide (s.(sm_commitment) ∈ st.(seenCommitments)))
    "DUPLICATE_WC_VOID_OPENING_SETTLED_COMMITMENT";;
  Ok (mkSettlementLoop ({[ s.(sm_id) ]} ∪ st.(seenSettlements))
    ({[ s.(sm_commitment) ]} ∪ st.(seenCommitments)) (st.(totalSettledWc) + s.(sm_amount))
    (st.(canonicalSettlements) ++ [s])).

Definition sm_leb (l r : Settlement) : bool := str_leb l.(sm_id) r.(sm_id).

(** ** Allocations *)

(** An entry of [working]. *)
Record WorkEntry := mkWorkEntry {
  we_commitment : Commitment;
  we_remainder : Z;
  we_allocated : Z
}.

Definition workEntry (totalWc tranche : Z) (c : Commitment) : WorkEntry :=
  let numerator := c.(cm_wc) * tranche in
  mkWorkEntry c (Z.rem numerator totalWc) (numerator ÷ totalWc).

(** The comparison of the ranking: larger remainders first, then smaller identities. *)
Definition rank_leb (l r : WorkEntry) : bool :=
  (l.(we_remainder) >? r.(we_remainder)) ||
  ((l.(we_remainder) =? r.(we_remainder)) && cm_leb l.(we_commitment) r.(we_commitment)).

(** [ranked]: the positions of [working] in rank order. *)
Definition ranking (working : list WorkEntry) : list nat :=
  map fst (isort (fun x y => rank_leb x.2 y.2) (imap pair working)).

Definition addAtom (e : WorkEntry) : WorkEntry :=
  mkWorkEntry e.(we_commitment) e.(we_remainder) (e.(we_allocated) + 1).

(** [ranked[index].allocated_atoms += 1n] for the first [leftover] positions. *)
Definition giveLeftover (leftover : Z) (working : list WorkEntry) : list WorkEntry :=
  foldl (fun store i => alter addAtom i store) working (take (Z.to_nat leftover) (ranking working)).

Definition allocationRow (e : WorkEntry) : json :=
  JObj [
    "commitment_id" ~> e.(we_commitment).(cm_id);
    "participant_id" ~> e.(we_commitment).(cm_participant);
    "account" ~> e.(we_commitment).(cm_account);
    "wc_units" ~> dec e.(we_commitment).(cm_wc);
    "void_atoms" ~> dec e.(we_allocated)].

Record AllocationSet := mkAllocationSet {
  aset_root : string;
  aset_total : Z;
  aset_allocations : list WorkEntry
}.

(** The object [deriveOpeningAllocations] returns for an allocation set. *)
Definition renderAllocationSet (set : AllocationSet) : json :=
  JObj [
    "allocation_policy" ~> OPENING_POLICY.@"opening_allocation_policy";
    "allocation_count" ~> jint (Z.of_nat (length set.(aset_allocations)));
    "allocated_void_atoms" ~> dec set.(aset_total);
    "retained_void_atoms" ~> OPENING_POLICY.@"post_opening_void_reserve_atoms";
    "allocation_root" ~> set.(aset_root);
    "allocations" ~> JArr (map allocationRow set.(aset_allocations));
    "exact_tranche_conservation" ~> true].

Definition we_leb (l r : WorkEntry) : bool := cm_leb l.(we_commitment) r.(we_commitment).

Section coupled_opening.
Context {H : Digest}.

Definition digest : json -> res string :=
  contentIdOf (canonical_text "INVALID_CANONICAL_VALUE" "INVALID_CANONICAL_VALUE").

Definition wcVoidOpeningCommitmentIdV1 (value : json) : res string :=
  commitment ← snapshotExact value COMMITMENT_KEYS "INVALID_WC_VOID_OPENING_COMMITMENT_SHAPE";
  digest (commitmentPayload commitment).

Definition wcVoidOpeningSettlementIdV1 (value : json) : res string :=
  debit ← snapshotExact value DEBIT_KEYS "INVALID_WC_VOID_OPENING_LEDGER_DEBIT_SHAPE";
  digest (debitPayload debit).

Definition verifyCommitment (launch : string) (raw : json) : res Commitment :=
  value ← snapshotExact raw COMMITMENT_KEYS "INVALID_WC_VOID_OPENING_COMMITMENT_SHAPE";
  throw_if (value.@"schema" !== VOID_WC_VOID_OPENING_COMMITMENT_SCHEMA_V1)
    "INVALID_WC_VOID_OPENING_COMMITMENT_SCHEMA";;
  throw_if (value.@"coupled_launch_id" !== JStr launch) "WC_VOID_OPENING_COMMITMENT_LAUNCH_MISMATCH";;
  commitment_id ← canonicalSha (value.@"commitment_id") "INVALID_WC_VOID_OPENING_COMMITMENT_ID";
  participant_id ← canonicalSha (value.@"participant_id") "INVALID_WC_VOID_OPENING_PARTICIPANT_ID";
  account ← canonicalAccount (value.@"account") "INVALID_WC_VOID_OPENING_ACCOUNT";
  wc ← positiveWholeWc (value.@"wc_units") "INVALID_WC_VOID_OPENING_WC_UNITS";
  expectedId ← wcVoidOpeningCommitmentIdV1 value;
  throw_if (negb (String.eqb expectedId commitment_id)) "WC_VOID_OPENING_COMMITMENT_DIGEST_MISMATCH";;
  Ok (mkCommitment commitment_id participant_id account wc).

Definition verifyWcVoidOpeningCommitmentsV1 (coupledLaunchId commitments : json) : res CommitmentSet :=
  launch ← canonicalSha coupledLaunchId "INVALID_COUPLED_LAUNCH_ID";
  values ← exactArray commitments "INVALID_WC_VOID_OPENING_COMMITMENT_SET";
  st ← foldM (fun st raw => c ← verifyCommitment launch raw; trackCommitment st c)
    (mkCommitmentLoop ∅ ∅ 0 []) values;
  let canonical := isort cm_leb st.(canonicalCommitments) in
  root ← digest (JObj [
    "schema" ~> VOID_WC_VOID_OPENING_COMMITMENT_SCHEMA_V1;
    "coupled_launch_id" ~> JStr launch;
    "commitments" ~> JArr (map (commitmentRow launch) canonical)]);
  Ok (mkCommitmentSet root st.(totalWc) canonical).

(** [commitmentsById.get(id)] *)
Definition commitmentById (set : CommitmentSet) (id : string) : option Commitment :=
  List.find (fun c => String.eqb c.(cm_id) id) set.(cset_commitments).

Definition any_mismatch (checks : list (json * json)) : bool :=
  existsb (fun c => c.1 !== c.2) checks.

Definition verifyDebit (launch : string) (set : CommitmentSet) (raw : json) : res Settlement :=
  value ← snapshotExact raw DEBIT_KEYS "INVALID_WC_VOID_OPENING_LEDGER_DEBIT_SHAPE";
  meta ← snapshotExact (value.@"market_meta") META_KEYS "INVALID_WC_VOID_OPENING_LEDGER_DEBIT_META_SHAPE";
  throw_if (value.@"schema" !== VOID_WC_VOID_OPENING_LEDGER_DEBIT_SCHEMA_V1)
    "INVALID_WC_VOID_OPENING_LEDGER_DEBIT_SCHEMA";;
  throw_if (any_mismatch [
      (value.@"kind", JStr "debit");
      (value.@"reason", JStr "wc_void_opening_settlement_v1");
      (value.@"pair", OPENING_POLICY.@"pair");
      (value.@"source_domain", OPENING_POLICY.@"source_domain");
      (value.@"quote_asset_form", OPENING_POLICY.@"quote_asset_form");
      (value.@"quote_unit", OPENING_POLICY.@"quote_unit");
      (value.@"quote_decimals", OPENING_POLICY.@"quote_decimals")])
    "WC_VOID_OPENING_LEDGER_DEBIT_POLICY_MISMATCH";;
  throw_if (any_mismatch [
      (meta.@"adapter_id", JStr VOID_WC_VOID_OPENING_SETTLEMENT_ADAPTER_ID_V1);
      (meta.@"opening_only", JBool true);
      (meta.@"fixed_price", JBool false);
      (meta.@"protocol_wc_seed_units", JStr "0")])
    "WC_VOID_OPENING_LEDGER_DEBIT_META_MISMATCH";;
  settlement_id ← canonicalSha (value.@"settlement_id") "INVALID_WC_VOID_OPENING_SETTLEMENT_ID";
  commitment_id ← canonicalSha (value.@"commitment_id") "INVALID_WC_VOID_OPENING_COMMITMENT_ID";
  launch_id ← canonicalSha (value.@"coupled_launch_id") "INVALID_COUPLED_LAUNCH_ID";
  account ← canonicalAccount (value.@"account") "INVALID_WC_VOID_OPENING_ACCOUNT";
  throw_if (negb (String.eqb launch_id launch)) "WC_VOID_OPENING_SETTLEMENT_LAUNCH_MISMATCH";;
  numbers ← match as_safe_integer (value.@"amount"), as_safe_integer (value.@"delta"),
      as_safe_integer (value.@"ts_ms") with
    | Some amount, Some delta, Some ts =>
        throw_if ((amount <=? 0) || negb (delta =? - amount) || (ts <=? 0))
          "WC_VOID_OPENING_LEDGER_DEBIT_NUMERIC_INVALID";;
        Ok (amount, ts)
    | _, _, _ => Throw "WC_VOID_OPENING_LEDGER_DEBIT_NUMERIC_INVALID"
    end;
  let '(amount, ts) := numbers in
  commitment ← match commitmentById set commitment_id with
    | Some c => Ok c
    | None => Throw "UNKNOWN_WC_VOID_OPENING_SETTLED_COMMITMENT"
    end;
  throw_if (negb (String.eqb commitment.(cm_account) account) || negb (commitment.(cm_wc) =? amount))
    "WC_VOID_OPENING_SETTLEMENT_COMMITMENT_MISMATCH";;
  expectedId ← wcVoidOpeningSettlementIdV1 value;
  throw_if (negb (String.eqb expectedId settlement_id)) "WC_VOID_OPENING_SETTLEMENT_DIGEST_MISMATCH";;
  Ok (mkSettlement settlement_id commitment_id account amount ts).

Definition verifyWcVoidOpeningLedgerSettlementsV1 (coupledLaunchId commitments ledgerDebits : json)
  : res SettlementSet :=
  launch ← canonicalSha coupledLaunchId "INVALID_COUPLED_LAUNCH_ID";
  commitmentSet ← verifyWcVoidOpeningCommitmentsV1 coupledLaunchId commitments;
  debitValues ← exactArray ledgerDebits "INVALID_WC_VOID_OPENING_LEDGER_DEBIT_SET";
  throw_if (negb (length debitValues =? length commitmentSet.(cset_commitments))%nat)
    "WC_VOID_OPENING_SETTLEMENT_COUNT_MISMATCH";;
  st ← foldM (fun st raw => s ← verifyDebit launch commitmentSet raw; trackSettlement st s)
    (mkSettlementLoop ∅ ∅ 0 []) debitValues;
  throw_if (negb (size st.(seenCommitments) =? size (list_to_set (C := gset string)
      (map cm_id commitmentSet.(cset_commitments))))%nat)
    "MISSING_WC_VOID_OPENING_SETTLEMENT";;
  throw_if (negb (st.(totalSettledWc) =? commitmentSet.(cset_total)))
    "WC_VOID_OPENING_SETTLED_WC_TOTAL_MISMATCH";;
  let canonical := isort sm_leb st.(canonicalSettlements) in
  root ← digest (JObj [
    "schema" ~> VOID_WC_VOID_OPENING_LEDGER_DEBIT_SCHEMA_V1;
    "coupled_launch_id" ~> JStr launch;
    "settlements" ~> JArr (map settlementRow canonical)]);
  Ok (mkSettlementSet root st.(totalSettledWc) canonical).

Definition deriveOpeningAllocations (commitmentSet : CommitmentSet) : res AllocationSet :=
  let totalWc := commitmentSet.(cset_total) in
  let tranche := opening_sale_tranche_void_atoms in
  throw_if ((totalWc <=? 0) || (tranche <=? 0)) "WC_VOID_OPENING_ALLOCATION_POLICY_INVALID";;
  let working := map (workEntry totalWc tranche) commitmentSet.(cset_commitments) in
  let allocatedFloor := sumZ we_allocated working in
  let leftover := tranche - allocatedFloor in
  throw_if ((leftover <? 0) || (leftover >? Z.of_nat (length working)))
    "WC_VOID_OPENING_ALLOCATION_REMAINDER_INVALID";;
  let allocations := isort we_leb (giveLeftover leftover working) in
  let allocatedTotal := sumZ we_allocated allocations in
  throw_if (negb (allocatedTotal =? tranche)) "WC_VOID_OPENING_ALLOCATION_CONSERVATION_FAILURE";;
  root ← digest (JObj [
    "schema" ~> "void.wc-void-opening-allocation-set.v1";
    "allocation_policy" ~> OPENING_POLICY.@"opening_allocation_policy";
    "allocations" ~> JArr (map allocationRow allocations)]);
  Ok (mkAllocationSet root allocatedTotal allocations).

(** ** The opening state *)

Definition openingPayload (launchId : string) (commitmentSet settlementSet allocationSet : json)
    (settledWc priceNumerator priceDenominator : Z) : json :=
  JObj [
    "schema" ~> VOID_WC_VOID_OPENING_STATE_SCHEMA_V1;
    "coupled_launch_id" ~> launchId;
    "chain_id" ~> OPENING_POLICY.@"chain_id";
    "pair" ~> OPENING_POLICY.@"pair";
    "settlement_adapter_id" ~> VOID_WC_VOID_OPENING_SETTLEMENT_ADAPTER_ID_V1;
    "commitment_set_root" ~> commitmentSet.@"commitment_set_root";
    "settlement_set_root" ~> settlementSet.@"settlement_set_root";
    "participant_commitment_count" ~> commitmentSet.@"commitment_count";
    "settled_wc_reserve_units" ~> dec settledWc;
    "protocol_wc_seed_units" ~> OPENING_POLICY.@"protocol_wc_seed_units";
    "protocol_void_inventory_atoms" ~> OPENING_POLICY.@"protocol_void_inventory_atoms";
    "opening_sale_tranche_void_atoms" ~> OPENING_POLICY.@"opening_sale_tranche_void_atoms";
    "post_opening_void_reserve_atoms" ~> OPENING_POLICY.@"post_opening_void_reserve_atoms";
    "opening_allocation_policy" ~> OPENING_POLICY.@"opening_allocation_policy";
    "opening_allocation_root" ~> allocationSet.@"allocation_root";
    "opening_allocated_void_atoms" ~> allocationSet.@"allocated_void_atoms";
    "opening_price_wc_per_void_numerator" ~> dec priceNumerator;
    "opening_price_wc_per_void_denominator" ~> dec priceDenominator;
    "opening_price_source" ~> OPENING_POLICY.@"opening_price_source"].

Definition openingFlags (allocationSet : json) (settledWc : Z) : list (string * json) := [
    "exact_opening_tranche_conservation" ~> allocationSet.@"exact_tranche_conservation";
    "post_opening_wc_reserve_units" ~> dec settledWc;
    "post_opening_reserve_ratio_matches_clearing_price" ~> true;
    "opening_allocation_math_source_ready" ~> true;
    "opening_allocation_transfer_or_claim_runtime_ready" ~> false;
    "fixed_conversion" ~> false;
    "fixed_opening_price" ~> false;
    "real_participant_wc_required" ~> true;
    "zero_protocol_wc_seed_required" ~> true;
    "commitment_settlement_bijection_verified" ~> true;
    "settlement_event_shape_verified" ~> true;
    "ledger_persistence_verified" ~> false;
    "quote_reserve_custody_verified" ~> false;
    "void_market_vault_custody_verified" ~> false;
    "participant_opening_claim_policy_ready" ~> false;
    "opening_commitment_window_policy_ready" ~> false;
    "participant_provenance_and_eligibility_verified" ~> false;
    "opening_concentration_and_sybil_limits_ready" ~> false;
    "opening_minimum_quote_depth_policy_ready" ~> false;
    "nonproduction_wc_exclusion_verified" ~> false;
    "opening_price_manipulation_protection_ready" ~> false;
    "opening_price_is_production_authority" ~> false;
    "market_activation_authority" ~> false;
    "inventory_funding_authority" ~> false;
    "liquidity_movement_authority" ~> false;
    "ledger_write_authority" ~> false;
    "wc_issuance_authority" ~> false;
    "funds_movement_authority" ~> false].

Definition deriveWcVoidCoupledOpeningStateV1 (input : json) : res json :=
  request ← snapshotExact input REQUEST_KEYS "INVALID_WC_VOID_COUPLED_OPENING_REQUEST_SHAPE";
  launchId ← canonicalSha (request.@"coupled_launch_id") "INVALID_COUPLED_LAUNCH_ID";
  commitmentSet ← verifyWcVoidOpeningCommitmentsV1 (JStr launchId) (request.@"commitments");
  settlementSet ← verifyWcVoidOpeningLedgerSettlementsV1 (JStr launchId) (request.@"commitments")
    (request.@"ledger_debits");
  let settledWc := settlementSet.(sset_total) in
  allocationSet ← deriveOpeningAllocations commitmentSet;
  let openingSaleWhole := opening_sale_tranche_void_whole in
  let divisor := gcd settledWc openingSaleWhole in
  let priceNumerator := settledWc ÷ divisor in
  let priceDenominator := openingSaleWhole ÷ divisor in
  let payload := openingPayload launchId (renderCommitmentSet launchId commitmentSet)
    (renderSettlementSet settlementSet) (renderAllocationSet allocationSet) settledWc priceNumerator priceDenominator in
  opening_state_id ← digest payload;
  Ok (JObj (match payload with JObj fs => fs | _ => [] end ++
    ["opening_state_id" ~> JStr opening_state_id;
     "participant_allocations" ~> (renderAllocationSet allocationSet).@"allocations"] ++
    openingFlags (renderAllocationSet allocationSet) settledWc ++
    ["authority" ~> VOID_WC_VOID_COUPLED_OPENING_AUTHORITY_V1])).
End coupled_opening.

(** ** The greatest common divisor *)

(** Once the operands are ordered their product halves in every iteration. *)
Lemma gcdLoop_bound n a b fuel : 0 <= b <= a -> a * b < 2 ^ Z.of_nat n -> (n < fuel)%nat ->
  gcdLoop fuel a b = Z.gcd a b.
Proof.
  revert a b fuel. induction n as [|n IH]; intros a b [|fuel] Hab Hp Hf; try lia; simpl.
  - assert (b = 0) as -> by nia. simpl. rewrite Z.gcd_0_r, Z.abs_eq by lia. done.
  - destruct (Z.eqb_spec b 0) as [->|Hb]; [rewrite Z.gcd_0_r, Z.abs_eq by lia; done|].
    pose proof (Z.quot_rem' a b). pose proof (Z.rem_bound_pos a b ltac:(lia) ltac:(lia)).
    pose proof (Z.quot_le_mono b a b ltac:(lia) ltac:(lia)) as Hq. rewrite Z.quot_same in Hq by lia.
    rewrite IH; [|lia| |lia].
    + rewrite (Z.gcd_comm b). rewrite Z.rem_mod_nonneg by lia. by rewrite Z.gcd_mod, Z.gcd_comm by lia.
    + rewrite Nat2Z.inj_succ, Z.pow_succ_r in Hp by lia. nia.
Qed.

Lemma gcdLoop_gcd a b fuel : 0 < a -> 0 < b -> (Z.to_nat (Z.log2 (a * b)) + 3 <= fuel)%nat ->
  gcdLoop fuel a b = Z.gcd a b.
Proof.
  intros Ha Hb Hf. pose proof (Z.log2_spec (a * b) ltac:(nia)) as [_ Hlog].
  pose proof (Z.log2_nonneg (a * b)).
  set (n := S (Z.to_nat (Z.log2 (a * b)))). assert (Z.of_nat n = Z.succ (Z.log2 (a * b))) as Hn by lia.
  destruct (Z_le_gt_dec b a).
  - apply (gcdLoop_bound n); [lia|by rewrite Hn|lia].
  - destruct fuel as [|fuel]; [lia|]. simpl. destruct (Z.eqb_spec b 0); [lia|].
    rewrite Z.rem_small by lia. rewrite (gcdLoop_bound n); [apply Z.gcd_comm|lia| |lia].
    rewrite Hn. by rewrite Z.mul_comm.
Qed.

Lemma gcd_gcd a b : 0 < a -> 0 < b -> gcd a b = Z.gcd a b.
Proof. intros. by apply gcdLoop_gcd. Qed.

(** One iteration of the [while] loop. *)
Definition gcdStep (st : Z * Z) : Z * Z := (st.2, Z.rem st.1 st.2).

Lemma gcdStep_bound n a b : 0 <= b <= a -> a * b < 2 ^ Z.of_nat n ->
  exists k, (k <= n)%nat /\ Nat.iter k gcdStep (a, b) = (Z.gcd a b, 0).
Proof.
  revert a b. induction n as [|n IH]; intros a b Hab Hp.
  - exists 0%nat. assert (b = 0) as -> by nia. simpl. rewrite Z.gcd_0_r, Z.abs_eq by lia. done.
  - destruct (Z.eqb_spec b 0) as [->|Hb].
    { exists 0%nat. simpl. rewrite Z.gcd_0_r, Z.abs_eq by lia. split; [lia|done]. }
    pose proof (Z.quot_rem' a b). pose proof (Z.rem_bound_pos a b ltac:(lia) ltac:(lia)).
    pose proof (Z.quot_le_mono b a b ltac:(lia) ltac:(lia)) as Hq. rewrite Z.quot_same in Hq by lia.
    destruct (IH b (Z.rem a b)) as (k & Hk & Hiter); [lia| |].
    { rewrite Nat2Z.inj_succ, Z.pow_succ_r in Hp by lia. nia. }
    exists (S k). split; [lia|]. rewrite Nat.iter_succ_r. unfold gcdStep at 2. simpl. rewrite Hiter.
    rewrite Z.rem_mod_nonneg by lia. by rewrite (Z.gcd_comm b), Z.gcd_mod, Z.gcd_comm by lia.
Qed.

(** C40: The divisor loop terminates: from positive operands its second variable is zero
    after at most log2(a * b) + 2 iterations, with the greatest common divisor in the first,
    which is what [gcd] returns. *)
Theorem gcd_loop_terminates (a b : Z) : 0 < a -> 0 < b ->
  exists n, (n <= Z.to_nat (Z.log2 (a * b)) + 2)%nat /\
    Nat.iter n gcdStep (a, b) = (Z.gcd a b, 0) /\ gcd a b = Z.gcd a b.
Proof.
  intros Ha Hb. pose proof (Z.log2_spec (a * b) ltac:(nia)) as [_ Hlog]. pose proof (Z.log2_nonneg (a * b)).
  set (n := S (Z.to_nat (Z.log2 (a * b)))). assert (Z.of_nat n = Z.succ (Z.log2 (a * b))) as Hn by lia.
  destruct (Z_le_gt_dec b a).
  - destruct (gcdStep_bound n a b) as (k & Hk & Hiter); [lia|by rewrite Hn|].
    exists k. split; [lia|]. split; [done|by apply gcd_gcd].
  - destruct (gcdStep_bound n b a) as (k & Hk & Hiter); [lia|by rewrite Hn, Z.mul_comm|].
    exists (S k). split; [lia|]. rewrite Nat.iter_succ_r. unfold gcdStep at 2. simpl.
    rewrite Z.rem_small by lia. rewrite Hiter, Z.gcd_comm. split; [done|by apply gcd_gcd].
Qed.

Lemma gcd_loop_terminates_witness :
  exists n, (n <= Z.to_nat (Z.log2 (84 * 36)) + 2)%nat /\
    Nat.iter n gcdStep (84, 36) = (Z.gcd 84 36, 0) /\ gcd 84 36 = Z.gcd 84 36.
Proof. apply (gcd_loop_terminates 84 36); lia. Defined.

(** ** Giving out the leftover atoms *)

Lemma alter_sum i store : (i < length store)%nat ->
  sumZ we_allocated (alter addAtom i store) = sumZ we_allocated store + 1.
Proof.
  revert i. induction store as [|e store IH]; intros [|i] Hi; simpl in *; try lia.
  change (list_alter addAtom i store) with (alter addAtom i store). rewrite IH; lia.
Qed.

Lemma give_sum idx store : Forall (fun i => i < length store)%nat idx ->
  sumZ we_allocated (foldl (fun s i => alter addAtom i s) store idx) =
  sumZ we_allocated store + Z.of_nat (length idx).
Proof.
  revert store. induction idx as [|i idx IH]; intros store Hi; simpl; [lia|].
  apply Forall_cons in Hi as [Hi Hidx]. rewrite IH, alter_sum by (try done; by rewrite length_alter). lia.
Qed.

Lemma give_lookup (idx : list nat) (store : list WorkEntry) (i : nat) : NoDup idx ->
  foldl (fun s i => alter addAtom i s) store idx !! i =
  (if bool_decide (i ∈ idx) then addAtom else id) <$> store !! i.
Proof.
  revert store. induction idx as [|j idx IH]; intros store Hnd; simpl.
  { by destruct (store !! i). }
  apply NoDup_cons in Hnd as [Hj Hnd]. rewrite IH by done.
  destruct (decide (i = j)) as [->|Hne].
  - rewrite list_lookup_alter_eq. rewrite (bool_decide_eq_false_2 (j ∈ idx)) by done.
    rewrite bool_decide_eq_true_2 by set_solver. by destruct (store !! j).
  - rewrite list_lookup_alter_ne by done.
    destruct (bool_decide_reflect (i ∈ idx)), (bool_decide_reflect (i ∈ j :: idx)); set_solver.
Qed.

(** ** The ranking *)

Lemma rank_leb_total a b : rank_leb a b = true \/ rank_leb b a = true.
Proof.
  unfold rank_leb, cm_leb. destruct (str_leb_total (cm_id (we_commitment a)) (cm_id (we_commitment b))) as [Hs|Hs];
    rewrite Hs; destruct (Z.compare_spec (we_remainder a) (we_remainder b)); rewrite !orb_true_iff, !andb_true_iff; lia.
Qed.

Lemma rank_leb_trans a b c : rank_leb a b = true -> rank_leb b c = true -> rank_leb a c = true.
Proof.
  unfold rank_leb, cm_leb. rewrite !orb_true_iff, !andb_true_iff.
  intros [?|[? H1]] [?|[? H2]]; try lia. right. split; [lia|]. by eapply str_leb_trans.
Qed.

Lemma imap_pair_fst {A} (l : list A) : map fst (imap pair l) = seq 0 (length l).
Proof.
  change (map fst (imap pair l)) with (fst <$> imap pair l). rewrite fmap_imap.
  change (fst ∘ pair 0%nat) with (fun _ : A => 0%nat).
  apply list_eq. intros i. rewrite list_lookup_imap.
  destruct (l !! i) as [a|] eqn:E; simpl.
  - symmetry. apply lookup_seq. apply lookup_lt_Some in E. lia.
  - symmetry. apply lookup_ge_None in E. apply lookup_seq_ge. lia.
Qed.

Lemma ranking_perm working : ranking working ≡ₚ seq 0 (length working).
Proof. unfold ranking. rewrite isort_perm. by rewrite imap_pair_fst. Qed.

(** Ranked positions come in rank order. *)
Lemma ranking_order working k i j a b :
  i ∈ take k (ranking working) -> j ∈ drop k (ranking working) ->
  working !! i = Some a -> working !! j = Some b -> rank_leb a b = true.
Proof.
  unfold ranking. rewrite firstn_map, skipn_map.
  set (l := isort _ _). intros ([i' a'] & -> & Hi)%list_elem_of_fmap ([j' b'] & -> & Hj)%list_elem_of_fmap.
  simpl. intros Ha Hb.
  assert (forall i e, (i, e) ∈ l -> working !! i = Some e) as Hl.
  { intros i e. unfold l. rewrite isort_perm. rewrite elem_of_lookup_imap. naive_solver. }
  rewrite <- (take_drop k l) in Hl. assert (a' = a) as -> by (specialize (Hl i' a'); set_solver).
  assert (b' = b) as -> by (specialize (Hl j' b'); set_solver).
  apply (sorted_split (fun x y => rank_leb x.2 y.2) l k (i', a) (j', b)); [|done..].
  apply isort_Sorted; eauto using rank_leb_total, rank_leb_trans.
Qed.

(** ** The largest-remainder allocation *)

Section allocation.
Context (cs : list Commitment) (total : Z).
Context (Htotal : total = sumZ cm_wc cs) (Hwc : Forall (fun c => 0 < c.(cm_wc)) cs).
Context (Hnonempty : 0 < total).

Abbreviation tranche := opening_sale_tranche_void_atoms.
Abbreviation working := (map (workEntry total tranche) cs).
Abbreviation leftover := (tranche - sumZ we_allocated working).
Abbreviation lucky := (take (Z.to_nat leftover) (ranking working)).

(** A share is its floor and a remainder below the total. *)
Lemma workEntry_share c : 0 < c.(cm_wc) ->
  c.(cm_wc) * tranche = total * (workEntry total tranche c).(we_allocated) +
    (workEntry total tranche c).(we_remainder) /\
  0 <= (workEntry total tranche c).(we_remainder) < total.
Proof.
  intros Hc. simpl. pose proof (Z.quot_rem' (c.(cm_wc) * tranche) total).
  pose proof (Z.rem_bound_pos (c.(cm_wc) * tranche) total). unfold tranche in *. lia.
Qed.

Lemma shares_sum l : Forall (fun c => 0 < c.(cm_wc)) l ->
  sumZ cm_wc l * tranche = total * sumZ we_allocated (map (workEntry total tranche) l) +
    sumZ we_remainder (map (workEntry total tranche) l) /\
  0 <= sumZ we_remainder (map (workEntry total tranche) l) <= Z.of_nat (length l) * (total - 1).
Proof.
  induction 1 as [|c l Hc _ IH]; [simpl; lia|]. pose proof (workEntry_share c Hc).
  cbn [map length]. unfold sumZ in *. cbn [foldr]. lia.
Qed.

Lemma floors_sum : total * leftover = sumZ we_remainder working /\
  0 <= sumZ we_remainder working <= Z.of_nat (length cs) * (total - 1).
Proof. destruct (shares_sum cs Hwc) as [Hs Hr]. rewrite <- Htotal in Hs. lia. Qed.

(** At most as many atoms are left over as there are participants. *)
Lemma leftover_range : 0 <= leftover <= Z.of_nat (length cs).
Proof. destruct floors_sum. nia. Qed.

Lemma lucky_facts : NoDup lucky /\ Forall (fun i => (i < length working)%nat) lucky /\
  Z.of_nat (length lucky) = leftover.
Proof.
  pose proof leftover_range. pose proof (ranking_perm working) as Hp. rewrite length_map in *.
  split; [|split].
  - apply (NoDup_app _ (drop (Z.to_nat leftover) (ranking working))). rewrite take_drop, Hp.
    apply NoDup_seq.
  - apply Forall_take. rewrite Hp. apply Forall_seq. intros. lia.
  - rewrite length_take, (Permutation_length Hp), length_seq. lia.
Qed.

Lemma giveLeftover_sum : sumZ we_allocated (giveLeftover leftover working) = tranche.
Proof.
  destruct lucky_facts as (_ & Hr & Hl). unfold giveLeftover. rewrite give_sum by done. lia.
Qed.

Lemma giveLeftover_entry i e : giveLeftover leftover working !! i = Some e <->
  exists c, cs !! i = Some c /\
    e = (if bool_decide (i ∈ lucky) then addAtom else id) (workEntry total tranche c).
Proof.
  destruct lucky_facts as (Hnd & _). unfold giveLeftover. rewrite give_lookup by done.
  rewrite list_lookup_fmap. destruct (cs !! i) as [c|]; simpl; naive_solver.
Qed.

Lemma giveLeftover_elem e : e ∈ giveLeftover leftover working -> exists i c, cs !! i = Some c /\
  e = (if bool_decide (i ∈ lucky) then addAtom else id) (workEntry total tranche c).
Proof. intros [i Hi]%list_elem_of_lookup. exists i. by apply giveLeftover_entry. Qed.

Lemma giveLeftover_commitments : map we_commitment (giveLeftover leftover working) = cs.
Proof.
  apply list_eq. intros i. rewrite list_lookup_fmap.
  destruct (giveLeftover leftover working !! i) as [e|] eqn:E; simpl.
  - apply giveLeftover_entry in E as (c & -> & ->). by destruct (bool_decide _).
  - destruct (cs !! i) as [c|] eqn:Ec; [|done]. exfalso.
    assert (giveLeftover leftover working !! i = Some ((if bool_decide (i ∈ lucky) then addAtom else id)
      (workEntry total tranche c))) as Hs by (apply giveLeftover_entry; eauto). congruence.
Qed.

(** A leftover atom goes only to a share that was rounded down: were a lucky
    remainder zero, so would be every remainder ranked after it, and the others could
    not add up to the leftover. *)
Lemma lucky_remainder i c : cs !! i = Some c -> i ∈ lucky ->
  0 < (workEntry total tranche c).(we_remainder).
Proof.
  intros Hi Hl. set (ranked := isort (fun x y => rank_leb x.2 y.2) (imap pair working)).
  set (k := Z.to_nat leftover) in *. set (rem := fun x : nat * WorkEntry => we_remainder x.2).
  assert (forall j e, (j, e) ∈ ranked -> working !! j = Some e) as Hr.
  { intros j e. unfold ranked. rewrite isort_perm. rewrite elem_of_lookup_imap. naive_solver. }
  assert (sumZ rem ranked = sumZ we_remainder working) as Hsum.
  { unfold ranked. rewrite isort_perm. unfold rem. rewrite <- (sumZ_map we_remainder snd).
    change (map snd (imap pair working)) with (snd <$> imap pair working). rewrite fmap_imap.
    f_equal. apply list_eq. intros j. rewrite list_lookup_imap. by destruct (working !! j). }
  assert (Forall (fun x => 0 <= rem x <= total - 1) ranked) as Hb.
  { apply Forall_forall. intros [j e] Hj%Hr. rewrite list_lookup_fmap in Hj.
    destruct (cs !! j) as [d|] eqn:Ed; [|done]. injection Hj as <-. unfold rem.
    assert (0 < cm_wc d) as Hd by (rewrite Forall_forall in Hwc; apply Hwc; by eapply list_elem_of_lookup_2).
    destruct (workEntry_share d Hd). simpl in *. lia. }
  unfold ranking in Hl. rewrite firstn_map in Hl. fold ranked in Hl.
  apply list_elem_of_fmap in Hl as ([i' e] & -> & Hin). simpl in Hi.
  assert (e = workEntry total tranche c) as <-.
  { specialize (Hr i' e). rewrite list_lookup_fmap, Hi in Hr. simpl in Hr.
    rewrite <- (take_drop k ranked) in Hr. assert (Some (workEntry total tranche c) = Some e) by (apply Hr; set_solver).
    congruence. }
  destruct (Z_lt_le_dec 0 (we_remainder e)) as [|Hz]; [done|]. exfalso.
  assert (sumZ rem (drop k ranked) <= 0) as Hdrop.
  { rewrite <- (Z.mul_0_r (Z.of_nat (length (drop k ranked)))). apply sumZ_bound, Forall_forall.
    intros x Hx. assert (rank_leb e x.2 = true) as Hrank.
    { apply (sorted_split (fun x y => rank_leb x.2 y.2) ranked k (i', e) x); [|done..].
      apply isort_Sorted; eauto using rank_leb_total, rank_leb_trans. }
    unfold rank_leb in Hrank. rewrite orb_true_iff, andb_true_iff in Hrank. unfold rem. lia. }
  assert (sumZ rem (take k ranked) <= (Z.of_nat k - 1) * (total - 1)) as Htake.
  { pose proof (length_take_le ranked k) as Hlen. pose proof (firstn_le_length k ranked) as Hlk.
    apply elem_of_Permutation in Hin as [rest Hp]. rewrite Hp. cbn [sumZ foldr].
    assert (Forall (fun x => rem x <= total - 1) rest) as Hrest.
    { apply (Forall_take _ k) in Hb. rewrite Hp in Hb. apply Forall_cons in Hb as [_ Hb].
      eapply Forall_impl; [exact Hb|]. simpl. lia. }
    apply sumZ_bound in Hrest. apply Permutation_length in Hp. simpl in Hp. fold (sumZ rem rest).
    unfold rem at 1. simpl. nia. }
  rewrite <- (take_drop k ranked), sumZ_app in Hsum. destruct floors_sum as [Hs _].
  pose proof leftover_range. assert (Z.of_nat k = leftover) as Hk by (unfold k; lia).
  assert (k <> 0%nat) by (intros Hk0; rewrite Hk0 in Hin; set_solver). rewrite Hk in Htake. nia.
Qed.

(** Every allocation is the share rounded down or up. *)
Lemma allocation_near e : e ∈ giveLeftover leftover working ->
  e.(we_commitment).(cm_wc) * tranche < total * (e.(we_allocated) + 1) /\
  total * (e.(we_allocated) - 1) < e.(we_commitment).(cm_wc) * tranche.
Proof.
  intros (i & c & Hc & ->)%giveLeftover_elem.
  assert (0 < cm_wc c) as Hpos by (rewrite Forall_forall in Hwc; apply Hwc; by eapply list_elem_of_lookup_2).
  destruct (workEntry_share c Hpos). pose proof (lucky_remainder i c Hc) as Hrem.
  destruct (bool_decide_reflect (i ∈ lucky)) as [Hl|]; [specialize (Hrem Hl)|]; simpl in *; lia.
Qed.

(** A position that ranks strictly before a lucky one is lucky. *)
Lemma lucky_upward i j ci cj : cs !! i = Some ci -> cs !! j = Some cj -> i ∈ lucky ->
  rank_leb (workEntry total tranche ci) (workEntry total tranche cj) = false -> j ∈ lucky.
Proof.
  intros Hi Hj Hin Hr. destruct (decide (j ∈ lucky)) as [|Hn]; [done|]. exfalso.
  assert (j ∈ drop (Z.to_nat leftover) (ranking working)) as Hd.
  { assert (j ∈ ranking working) as Ha.
    { rewrite ranking_perm, length_map. apply elem_of_seq. apply lookup_lt_Some in Hj. lia. }
    rewrite <- (take_drop (Z.to_nat leftover)) in Ha. set_solver. }
  rewrite (ranking_order working (Z.to_nat leftover) i j (workEntry total tranche ci)
    (workEntry total tranche cj)) in Hr; [done|done|done|..]; by rewrite list_lookup_fmap, ?Hi, ?Hj.
Qed.

(** More work credits never get fewer atoms; equal commitments differ by at most one
    atom, in favour of the smaller identity. *)
Lemma allocation_monotone e1 e2 : e1 ∈ giveLeftover leftover working -> e2 ∈ giveLeftover leftover working ->
  e1.(we_commitment).(cm_wc) < e2.(we_commitment).(cm_wc) \/
  (e1.(we_commitment).(cm_wc) = e2.(we_commitment).(cm_wc) /\
   cm_leb e1.(we_commitment) e2.(we_commitment) = false) ->
  e1.(we_allocated) <= e2.(we_allocated).
Proof.
  intros (i & ci & Hi & ->)%giveLeftover_elem (j & cj & Hj & ->)%giveLeftover_elem Hcmp.
  assert (0 < cm_wc ci /\ 0 < cm_wc cj) as [Hpi Hpj].
  { rewrite Forall_forall in Hwc. split; apply Hwc; by eapply list_elem_of_lookup_2. }
  destruct (workEntry_share ci Hpi) as [Hei Hri], (workEntry_share cj Hpj) as [Hej Hrj].
  pose proof (lucky_upward i j ci cj Hi Hj) as Hup.
  assert (cm_wc ci < cm_wc cj \/ (cm_wc ci = cm_wc cj /\ cm_leb ci cj = false)) as Hwcs
    by (by destruct (bool_decide (i ∈ lucky)), (bool_decide (j ∈ lucky))).
  clear Hcmp. revert Hei Hri Hej Hrj Hup. unfold rank_leb.
  change (we_commitment (workEntry total tranche ci)) with ci.
  change (we_commitment (workEntry total tranche cj)) with cj.
  set (wi := workEntry total tranche ci). set (wj := workEntry total tranche cj). intros Hei Hri Hej Hrj Hup.
  assert (0 < tranche) as Htr by done. assert (cm_wc ci * tranche <= cm_wc cj * tranche) as Hle by nia.
  assert (we_allocated wi <= we_allocated wj) as Hfloor by nia.
  destruct (bool_decide_reflect (i ∈ lucky)) as [Hli|], (bool_decide_reflect (j ∈ lucky)) as [|Hlj];
    unfold id; cbn [addAtom we_allocated]; try lia.
  destruct (Z_lt_le_dec (we_allocated wi) (we_allocated wj)) as [|Hge]; [lia|]. exfalso. apply Hlj, Hup; [done|].
  assert (we_allocated wi = we_allocated wj) as Heq by lia.
  destruct Hwcs as [Hlt|[Hw Hid]].
  - assert (cm_wc ci * tranche < cm_wc cj * tranche) by (by apply Z.mul_lt_mono_pos_r).
    rewrite Heq in Hei. assert (we_remainder wi < we_remainder wj) by lia. rewrite orb_false_iff, andb_false_iff. lia.
  - rewrite Heq, Hw in Hei. assert (we_remainder wi = we_remainder wj) as Hrr by lia. rewrite Hid, andb_false_r, orb_false_r. lia.
Qed.
End allocation.

(** ** The two loops *)

(** The state of the commitment loop after the commitments [cs]. *)
Definition commitmentLoop (cs : list Commitment) : CommitmentLoop :=
  mkCommitmentLoop (list_to_set (map cm_id cs)) (list_to_set (map cm_participant cs)) (sumZ cm_wc cs) cs.

Definition settlementLoop (ss : list Settlement) : SettlementLoop :=
  mkSettlementLoop (list_to_set (map sm_id ss)) (list_to_set (map sm_commitment ss)) (sumZ sm_amount ss) ss.

Lemma list_to_set_snoc (l : list string) x : {[ x ]} ∪ list_to_set l = list_to_set (C := gset string) (l ++ [x]).
Proof. apply set_eq. set_solver. Qed.

Lemma trackCommitment_Ok cs c st : trackCommitment (commitmentLoop cs) c = Ok st <->
  (c.(cm_id) ∉ map cm_id cs) /\ (c.(cm_participant) ∉ map cm_participant cs) /\
  st = commitmentLoop (cs ++ [c]).
Proof.
  unfold trackCommitment. cbn [commitmentLoop seenCommitmentIds seenParticipantIds totalWc canonicalCommitments].
  rewrite !list_to_set_snoc. unfold commitmentLoop at 1. rewrite !map_app, sumZ_app. cbn [map sumZ foldr].
  rewrite Z.add_0_r. split.
  - intros Hs. inv_ok. rewrite bool_decide_eq_false, elem_of_list_to_set in *. auto.
  - intros (Hi & Hp & ->). by rewrite !bool_decide_eq_false_2 by (by rewrite elem_of_list_to_set).
Qed.

Lemma trackSettlement_Ok ss s st : trackSettlement (settlementLoop ss) s = Ok st <->
  (s.(sm_id) ∉ map sm_id ss) /\ (s.(sm_commitment) ∉ map sm_commitment ss) /\
  st = settlementLoop (ss ++ [s]).
Proof.
  unfold trackSettlement. cbn [settlementLoop seenSettlements seenCommitments totalSettledWc canonicalSettlements].
  rewrite !list_to_set_snoc. unfold settlementLoop at 1. rewrite !map_app, sumZ_app. cbn [map sumZ foldr].
  rewrite Z.add_0_r. split.
  - intros Hs. inv_ok. rewrite bool_decide_eq_false, elem_of_list_to_set in *. auto.
  - intros (Hi & Hp & ->). by rewrite !bool_decide_eq_false_2 by (by rewrite elem_of_list_to_set).
Qed.

(** A loop that verifies each element and tracks two identities of it. *)
Lemma track_loop {A S} (verify : json -> res A) (track : S -> A -> res S) (at_ : list A -> S)
    (id1 id2 : A -> string) :
  (forall l a st, track (at_ l) a = Ok st <->
     (id1 a ∉ map id1 l) /\ (id2 a ∉ map id2 l) /\ st = at_ (l ++ [a])) ->
  forall raws seen st, NoDup (map id1 seen) -> NoDup (map id2 seen) ->
  foldM (fun st raw => a ← verify raw; track st a) (at_ seen) raws = Ok st <->
  exists l, Forall2 (fun raw a => verify raw = Ok a) raws l /\
    NoDup (map id1 (seen ++ l)) /\ NoDup (map id2 (seen ++ l)) /\ st = at_ (seen ++ l).
Proof.
  intros Htrack raws. induction raws as [|raw raws IH]; intros seen st H1 H2; simpl.
  { split.
    - intros [= <-]. exists []. rewrite app_nil_r. by repeat split.
    - intros (l & Hl & _ & _ & ->). inversion Hl. by rewrite app_nil_r. }
  rewrite bind_Ok. setoid_rewrite bind_Ok. split.
  - intros (st1 & (a & Hv & Ht) & Hf). apply Htrack in Ht as (Hn1 & Hn2 & ->).
    apply IH in Hf as (l & Hl & HN1 & HN2 & ->);
      [|rewrite map_app; by apply NoDup_snoc|rewrite map_app; by apply NoDup_snoc].
    exists (a :: l). rewrite <- app_assoc in HN1, HN2 |- *. split; [by constructor|]. done.
  - intros (l & Hl & HN1 & HN2 & ->). inversion Hl as [|? a ? l' Hv Hl']; subst.
    assert ((id1 a ∉ map id1 seen) /\ (id2 a ∉ map id2 seen)) as [Hn1 Hn2].
    { rewrite map_app in HN1, HN2. apply NoDup_app in HN1 as (_ & HN1 & _), HN2 as (_ & HN2 & _).
      simpl in *. split; intros Hin; [apply HN1 in Hin|apply HN2 in Hin]; set_solver. }
    exists (at_ (seen ++ [a])). split; [exists a; split; [done|by apply Htrack]|].
    apply IH; [rewrite map_app; by apply NoDup_snoc|rewrite map_app; by apply NoDup_snoc|].
    exists l'. rewrite <- app_assoc. done.
Qed.

(** ** Verified sets *)

Section opening_facts.
Context {H : Digest}.

Lemma digest_printable v : printable v = true -> exists i, digest v = Ok i.
Proof.
  intros Hp. unfold digest, contentIdOf. rewrite canonical_text_print by done. cbn [mbind res_bind]. eauto.
Qed.

Lemma printable_row {A} (row : A -> json) l : (forall a, printable (row a) = true) ->
  forallb printable (map row l) = true.
Proof. intros Hr. induction l; simpl; [done|]. by rewrite Hr. Qed.

Lemma verifyCommitment_wc launch raw c : verifyCommitment launch raw = Ok c ->
  0 < c.(cm_wc) <= MAX_SAFE_INTEGER.
Proof.
  unfold verifyCommitment. intros Hc. inv_ok. simpl.
  match goal with Hw : positiveWholeWc ?v _ = Ok _ |- _ => destruct v; try discriminate; simpl in Hw end.
  inv_ok. bool_prop. lia.
Qed.

Lemma verifyDebit_matches launch set raw s : verifyDebit launch set raw = Ok s ->
  exists c, commitmentById set s.(sm_commitment) = Some c /\ c.(cm_account) = s.(sm_account) /\
    c.(cm_wc) = s.(sm_amount) /\ 0 < s.(sm_amount) <= MAX_SAFE_INTEGER /\
    0 < s.(sm_ts) <= MAX_SAFE_INTEGER.
Proof.
  unfold verifyDebit. intros Hs. inv_ok.
  destruct (as_safe_integer _) as [amount|] eqn:Ea; [|discriminate].
  destruct (as_safe_integer (_.@"delta")) as [delta|] eqn:Ed; [|discriminate].
  destruct (as_safe_integer (_.@"ts_ms")) as [ts|] eqn:Et; [|discriminate].
  apply as_safe_integer_Some in Ea as [_ ?], Et as [_ ?]. inv_ok.
  destruct (commitmentById set _) as [c|] eqn:Ec; [|discriminate]. inv_ok. bool_prop. simpl.
  eexists. split; [reflexivity|]. rewrite String.eqb_eq in *. repeat split; try done; lia.
Qed.

Lemma exactArray_Ok v code l : exactArray v code = Ok l <->
  v = JArr l /\ 1 <= Z.of_nat (length l) <= MAX_SET_SIZE.
Proof.
  unfold exactArray. split.
  - destruct v; try discriminate. intros. inv_ok. bool_prop. split; [done|]. lia.
  - intros [-> Hl]. assert (((Z.of_nat (length l) <? 1) || (Z.of_nat (length l) >? MAX_SET_SIZE)) = false) as ->
      by (apply orb_false_iff; lia). done.
Qed.

(** The commitments of a set, in submission order. *)
Definition commitments_of (launch : string) (raws : list json) (cs : list Commitment) : Prop :=
  is_sha256_id launch = true /\ 1 <= Z.of_nat (length raws) <= MAX_SET_SIZE /\
  Forall2 (fun raw c => verifyCommitment launch raw = Ok c) raws cs /\
  NoDup (map cm_id cs) /\ NoDup (map cm_participant cs).

Lemma verifyCommitments_Ok l v set : verifyWcVoidOpeningCommitmentsV1 l v = Ok set <->
  exists launch raws cs, l = JStr launch /\ v = JArr raws /\ commitments_of launch raws cs /\
    set.(cset_total) = sumZ cm_wc cs /\ set.(cset_commitments) = isort cm_leb cs /\
    digest (JObj [
      "schema" ~> VOID_WC_VOID_OPENING_COMMITMENT_SCHEMA_V1;
      "coupled_launch_id" ~> JStr launch;
      "commitments" ~> JArr (map (commitmentRow launch) (isort cm_leb cs))]) = Ok set.(cset_root).
Proof.
  unfold verifyWcVoidOpeningCommitmentsV1, commitments_of. split.
  - intros Hs. apply bind_Ok in Hs as (launch & [-> Hl]%canonicalSha_Ok & Hs).
    apply bind_Ok in Hs as (raws & [-> Hr]%exactArray_Ok & Hs). apply bind_Ok in Hs as (st & Hf & Hs).
    apply (track_loop _ _ commitmentLoop cm_id cm_participant trackCommitment_Ok raws [] st) in Hf
      as (cs & Hcs & H1 & H2 & ->); [|constructor..].
    apply bind_Ok in Hs as (root & Hroot & [= <-]). exists launch, raws, cs. auto 10.
  - intros (launch & raws & cs & -> & -> & (Hl & Hr & Hcs & H1 & H2) & Ht & Hc & Hroot).
    rewrite (proj2 (canonicalSha_Ok (JStr launch) _ launch)) by done. cbn [mbind res_bind].
    rewrite (proj2 (exactArray_Ok (JArr raws) _ raws)) by done. cbn [mbind res_bind].
    rewrite (proj2 (track_loop _ _ commitmentLoop cm_id cm_participant trackCommitment_Ok raws []
      (commitmentLoop cs) (NoDup_nil_2) (NoDup_nil_2))) by (exists cs; auto).
    cbn [mbind res_bind commitmentLoop canonicalCommitments totalWc]. rewrite Hroot. cbn [mbind res_bind].
    rewrite <- Ht, <- Hc. by destruct set.
Qed.

(** The facts about a verified commitment set. *)
Lemma commitment_set_facts l v set : verifyWcVoidOpeningCommitmentsV1 l v = Ok set ->
  Forall (fun c => 0 < c.(cm_wc)) set.(cset_commitments) /\ NoDup (map cm_id set.(cset_commitments)) /\
  set.(cset_total) = sumZ cm_wc set.(cset_commitments) /\ 0 < set.(cset_total) /\
  NoDup (map cm_participant set.(cset_commitments)).
Proof.
  intros (launch & raws & cs & _ & _ & (_ & Hr & Hcs & H1 & H2) & Ht & Hc & _)%verifyCommitments_Ok.
  rewrite Hc, Ht. pose proof (isort_perm cm_leb cs) as Hp.
  assert (Forall (fun c => 0 < c.(cm_wc)) cs) as Hpos.
  { eapply Forall2_Forall_r; [exact Hcs|]. apply Forall_forall. intros raw _ c Hv.
    apply verifyCommitment_wc in Hv. lia. }
  split; [by rewrite Hp|]. split; [by rewrite Hp|]. split; [by rewrite Hp|]. split; [|by rewrite Hp].
  apply Forall2_length in Hcs. destruct Hpos as [|c cs' Hc0 Hpos]; [simpl in *; lia|]. simpl.
  pose proof (sumZ_nonneg cm_wc cs') as Hn. assert (Forall (fun a => 0 <= cm_wc a) cs') as Hnn
    by (eapply Forall_impl; [exact Hpos|]; simpl; lia). apply Hn in Hnn. unfold sumZ in *. lia.
Qed.

(** C24: The opening tranche is allocated exactly and fairly.  For every verified
    commitment set the allocation succeeds (its remainder and conservation checks
    never fire); it gives every commitment one allocation, the allocations add up to
    the tranche to the last atom, each is the participant's pro-rata share rounded
    down or up (and equals it when it is whole), a larger commitment never gets less,
    and equal commitments differ by at most one atom, in favour of the smaller
    identity. *)
Theorem opening_allocation_exact l v set : verifyWcVoidOpeningCommitmentsV1 l v = Ok set ->
  exists a, deriveOpeningAllocations set = Ok a /\
    map we_commitment a.(aset_allocations) ≡ₚ set.(cset_commitments) /\
    sumZ we_allocated a.(aset_allocations) = opening_sale_tranche_void_atoms /\
    a.(aset_total) = opening_sale_tranche_void_atoms /\
    (forall e, e ∈ a.(aset_allocations) ->
       e.(we_commitment).(cm_wc) * opening_sale_tranche_void_atoms <
         set.(cset_total) * (e.(we_allocated) + 1) /\
       set.(cset_total) * (e.(we_allocated) - 1) <
         e.(we_commitment).(cm_wc) * opening_sale_tranche_void_atoms) /\
    (forall e1 e2, e1 ∈ a.(aset_allocations) -> e2 ∈ a.(aset_allocations) ->
       e1.(we_commitment).(cm_wc) < e2.(we_commitment).(cm_wc) \/
       (e1.(we_commitment).(cm_wc) = e2.(we_commitment).(cm_wc) /\
        cm_leb e1.(we_commitment) e2.(we_commitment) = false) ->
       e1.(we_allocated) <= e2.(we_allocated)).
Proof.
  intros (Hpos & _ & Ht & Hgt & _)%commitment_set_facts.
  set (cs := set.(cset_commitments)) in *. set (total := set.(cset_total)) in *.
  set (final := giveLeftover (opening_sale_tranche_void_atoms -
    sumZ we_allocated (map (workEntry total opening_sale_tranche_void_atoms) cs))
    (map (workEntry total opening_sale_tranche_void_atoms) cs)).
  pose proof (giveLeftover_sum cs total Ht Hpos Hgt) as Hsum. fold final in Hsum.
  pose proof (leftover_range cs total Ht Hpos Hgt) as Hlr.
  pose proof (isort_perm we_leb final) as Hp.
  assert (sumZ we_allocated (isort we_leb final) = opening_sale_tranche_void_atoms) as Hs by (by rewrite Hp).
  destruct (digest_printable (JObj [
    "schema" ~> "void.wc-void-opening-allocation-set.v1";
    "allocation_policy" ~> OPENING_POLICY.@"opening_allocation_policy";
    "allocations" ~> JArr (map allocationRow (isort we_leb final))])) as [root Hroot].
  { simpl. by rewrite printable_row. }
  exists (mkAllocationSet root opening_sale_tranche_void_atoms (isort we_leb final)). split.
  - unfold deriveOpeningAllocations. fold cs total. js_run; [unfold opening_sale_tranche_void_atoms; lia| | |].
    + rewrite length_map. lia.
    + fold final. rewrite Hs. by rewrite Z.eqb_refl.
    + fold final. rewrite Hs, Hroot. done.
  - cbn [aset_allocations aset_total]. setoid_rewrite Hp.
    split; [unfold final; by rewrite (giveLeftover_commitments cs total Ht Hpos Hgt)|]. split; [done|]. split; [done|].
    split; [intros e; by apply allocation_near|].
    intros e1 e2 H1 H2. by apply (allocation_monotone cs total Ht Hpos Hgt).
Qed.

(** ** Settlements *)

Lemma commitmentById_Some set id c : commitmentById set id = Some c ->
  c ∈ set.(cset_commitments) /\ c.(cm_id) = id.
Proof.
  unfold commitmentById. intros [Hin Hid]%List.find_some. apply String.eqb_eq in Hid.
  split; [by apply list_elem_of_In|done].
Qed.

(** The debits of a set, in submission order. *)
Definition settlements_of (launch : string) (set : CommitmentSet) (raws : list json) (ss : list Settlement)
  : Prop :=
  length raws = length set.(cset_commitments) /\ 1 <= Z.of_nat (length raws) <= MAX_SET_SIZE /\
  Forall2 (fun raw s => verifyDebit launch set raw = Ok s) raws ss /\
  NoDup (map sm_id ss) /\ NoDup (map sm_commitment ss).

(** The settled commitments are all the commitments. *)
Lemma settlements_cover launch set raws ss : NoDup (map cm_id set.(cset_commitments)) ->
  settlements_of launch set raws ss ->
  exists cs, cs ≡ₚ set.(cset_commitments) /\
    Forall2 (fun s c => s.(sm_commitment) = c.(cm_id) /\ s.(sm_account) = c.(cm_account) /\
      s.(sm_amount) = c.(cm_wc)) ss cs.
Proof.
  intros Hnd (Hlen & _ & Hss & _ & Hndc).
  assert (exists cs, Forall2 (fun s c => c ∈ set.(cset_commitments) /\ s.(sm_commitment) = c.(cm_id) /\
    s.(sm_account) = c.(cm_account) /\ s.(sm_amount) = c.(cm_wc)) ss cs) as [cs Hcs].
  { clear -Hss. induction Hss as [|raw s raws ss Hs _ [cs IH]]; [by exists []; constructor|].
    apply verifyDebit_matches in Hs as (c & Hc & Ha & Hw & _). apply commitmentById_Some in Hc as [Hin Hid].
    exists (c :: cs). by constructor. }
  exists cs. split; [|eapply Forall2_impl; [exact Hcs|]; by intros s c (_ & ?)].
  assert (map cm_id cs = map sm_commitment ss) as Hids.
  { clear -Hcs. induction Hcs as [|s c ss cs (_ & Hid & _) _ IH]; simpl; congruence. }
  apply submseteq_length_Permutation.
  - apply NoDup_submseteq; [rewrite <- Hids in Hndc; by eapply NoDup_fmap_1|].
    intros c Hin. apply list_elem_of_lookup in Hin as [k Hk].
    by destruct (Forall2_lookup_r _ _ _ _ _ Hcs Hk) as (s & _ & ? & _).
  - apply Forall2_length in Hcs, Hss. lia.
Qed.

Lemma settled_total ss cs : Forall2 (fun s c => s.(sm_commitment) = c.(cm_id) /\
    s.(sm_account) = c.(cm_account) /\ s.(sm_amount) = c.(cm_wc)) ss cs ->
  sumZ sm_amount ss = sumZ cm_wc cs.
Proof. induction 1 as [|s c ss cs (_ & _ & Hw) _ IH]; simpl in *; lia. Qed.

(** The ledger check accepts exactly the one-to-one settlements. *)
Lemma verifySettlements_Ok l v d s : verifyWcVoidOpeningLedgerSettlementsV1 l v d = Ok s <->
  exists launch set raws ss, l = JStr launch /\ verifyWcVoidOpeningCommitmentsV1 l v = Ok set /\
    d = JArr raws /\ settlements_of launch set raws ss /\
    s.(sset_total) = sumZ sm_amount ss /\ s.(sset_settlements) = isort sm_leb ss /\
    digest (JObj [
      "schema" ~> VOID_WC_VOID_OPENING_LEDGER_DEBIT_SCHEMA_V1;
      "coupled_launch_id" ~> JStr launch;
      "settlements" ~> JArr (map settlementRow (isort sm_leb ss))]) = Ok s.(sset_root).
Proof.
  unfold verifyWcVoidOpeningLedgerSettlementsV1. split.
  - intros Hs. apply bind_Ok in Hs as (launch & [-> Hl]%canonicalSha_Ok & Hs).
    apply bind_Ok in Hs as (set & Hset & Hs). apply bind_Ok in Hs as (raws & [-> Hr]%exactArray_Ok & Hs).
    apply bind_Ok in Hs as ([] & Hlen%throw_if_Ok & Hs). apply bind_Ok in Hs as (st & Hf & Hs).
    apply (track_loop _ _ settlementLoop sm_id sm_commitment trackSettlement_Ok raws [] st) in Hf
      as (ss & Hss & H1 & H2 & ->); [|constructor..].
    inv_ok. bool_prop. apply Nat.eqb_eq in Hlen. exists launch, set, raws, ss. unfold settlements_of. auto 12.
  - intros (launch & set & raws & ss & -> & Hset & -> & Hss & Ht & Hc & Hroot).
    destruct (commitment_set_facts _ _ _ Hset) as (_ & Hnd & Htot & _ & _).
    destruct (settlements_cover launch set raws ss Hnd Hss) as (cs & Hcs & Hpair).
    destruct Hss as (Hlen & Hr & Hss & H1 & H2).
    assert (is_sha256_id launch = true) as Hl.
    { apply verifyCommitments_Ok in Hset as (? & ? & ? & [= ->] & _ & (Hl & _) & _). done. }
    rewrite (proj2 (canonicalSha_Ok (JStr launch) _ launch)) by done. cbn [mbind res_bind].
    rewrite Hset. cbn [mbind res_bind].
    rewrite (proj2 (exactArray_Ok (JArr raws) _ raws)) by done. cbn [mbind res_bind].
    rewrite Hlen, Nat.eqb_refl. cbn [mbind res_bind throw_if negb].
    rewrite (proj2 (track_loop _ _ settlementLoop sm_id sm_commitment trackSettlement_Ok raws []
      (settlementLoop ss) (NoDup_nil_2) (NoDup_nil_2))) by (exists ss; auto).
    cbn [mbind res_bind settlementLoop seenCommitments totalSettledWc canonicalSettlements].
    rewrite !size_list_to_set, !length_map by done.
    assert (length ss = length set.(cset_commitments)) as -> by (apply Forall2_length in Hss; lia).
    rewrite Nat.eqb_refl. cbn [mbind res_bind throw_if negb].
    rewrite (settled_total _ _ Hpair), (sumZ_perm _ _ _ Hcs), <- Htot, Z.eqb_refl.
    cbn [mbind res_bind throw_if negb]. rewrite Hroot. cbn [mbind res_bind].
    rewrite Htot, <- (sumZ_perm _ _ _ Hcs), <- (settled_total _ _ Hpair), <- Ht, <- Hc. by destruct s.
Qed.

Lemma settlement_set_total l v d s set : verifyWcVoidOpeningLedgerSettlementsV1 l v d = Ok s ->
  verifyWcVoidOpeningCommitmentsV1 l v = Ok set -> s.(sset_total) = set.(cset_total).
Proof.
  intros (launch & set' & raws & ss & _ & Hset' & _ & Hss & Ht & _)%verifySettlements_Ok Hset.
  assert (set' = set) as -> by congruence.
  destruct (commitment_set_facts _ _ _ Hset) as (_ & Hnd & Htot & _ & _).
  destruct (settlements_cover launch set raws ss Hnd Hss) as (cs & Hcs & Hpair).
  rewrite Ht, Htot, (settled_total _ _ Hpair). by apply sumZ_perm.
Qed.

(** The ledger debits settle the commitments one to one.  The check accepts a set
    of debits exactly when there are as many debits as commitments, each is a valid
    debit of a committed account for the committed amount, and no settlement or
    commitment identity repeats; then every commitment is settled, by one debit of
    exactly its amount, and the settled total is the committed total, so the final
    completeness and total checks never fire. *)
Theorem opening_settlement_bijection l v d :
  (is_ok (verifyWcVoidOpeningLedgerSettlementsV1 l v d) = true <->
   exists launch set raws ss, l = JStr launch /\ verifyWcVoidOpeningCommitmentsV1 l v = Ok set /\
     d = JArr raws /\ settlements_of launch set raws ss) /\
  (forall s, verifyWcVoidOpeningLedgerSettlementsV1 l v d = Ok s ->
   exists set, verifyWcVoidOpeningCommitmentsV1 l v = Ok set /\
     s.(sset_total) = set.(cset_total) /\
     exists cs, cs ≡ₚ set.(cset_commitments) /\
       Forall2 (fun s c => s.(sm_commitment) = c.(cm_id) /\ s.(sm_account) = c.(cm_account) /\
         s.(sm_amount) = c.(cm_wc)) s.(sset_settlements) cs).
Proof.
  split; [split|].
  - destruct (verifyWcVoidOpeningLedgerSettlementsV1 l v d) as [s|] eqn:E; [|discriminate].
    apply verifySettlements_Ok in E as (launch & set & raws & ss & ? & ? & ? & ? & _). intros _.
    exists launch, set, raws, ss. auto.
  - intros (launch & set & raws & ss & Hl & Hset & Hd & Hss).
    destruct (digest_printable (JObj [
      "schema" ~> VOID_WC_VOID_OPENING_LEDGER_DEBIT_SCHEMA_V1;
      "coupled_launch_id" ~> JStr launch;
      "settlements" ~> JArr (map settlementRow (isort sm_leb ss))])) as [root Hroot].
    { simpl. rewrite andb_true_r, forallb_forall. intros x (s & <- & Hs)%in_map_iff.
      apply list_elem_of_In in Hs. rewrite isort_perm in Hs. destruct Hss as (_ & _ & Hss & _).
      apply list_elem_of_lookup in Hs as [k Hk]. destruct (Forall2_lookup_r _ _ _ _ _ Hss Hk) as (raw & _ & Hv).
      apply verifyDebit_matches in Hv as (c & _ & _ & _ & _ & Hts).
      simpl. rewrite andb_true_r. apply bool_decide_eq_true. exists (sm_ts s).
      apply (as_safe_integer_Some (jint (sm_ts s))). split; [done|]. lia. }
    assert (verifyWcVoidOpeningLedgerSettlementsV1 l v d =
      Ok (mkSettlementSet root (sumZ sm_amount ss) (isort sm_leb ss))) as ->; [|done].
    apply verifySettlements_Ok. exists launch, set, raws, ss. auto 10.
  - intros s (launch & set & raws & ss & -> & Hset & -> & Hss & Ht & Hc & _)%verifySettlements_Ok.
    exists set. split; [done|]. destruct (commitment_set_facts _ _ _ Hset) as (_ & Hnd & Htot & _ & _).
    destruct (settlements_cover launch set raws ss Hnd Hss) as (cs & Hcs & Hpair).
    split. { rewrite Ht, Htot, (settled_total _ _ Hpair). by apply sumZ_perm. }
    destruct (Forall2_perm_l _ _ _ _ Hpair (isort_perm sm_leb ss)) as (cs' & Hcs' & Hpair').
    exists cs'. rewrite Hc. split; [by rewrite Hcs'|done].
Qed.

(** ** The opening state *)

(** What a derived opening state is made of. *)
Lemma derive_opening_inv input s : deriveWcVoidCoupledOpeningStateV1 input = Ok s ->
  exists launch set sset aset,
    verifyWcVoidOpeningCommitmentsV1 (JStr launch) (input.@"commitments") = Ok set /\
    verifyWcVoidOpeningLedgerSettlementsV1 (JStr launch) (input.@"commitments")
      (input.@"ledger_debits") = Ok sset /\
    deriveOpeningAllocations set = Ok aset /\
    let d := gcd sset.(sset_total) opening_sale_tranche_void_whole in
    s.@"settled_wc_reserve_units" = JStr (dec sset.(sset_total)) /\
    s.@"opening_allocated_void_atoms" = JStr (dec aset.(aset_total)) /\
    s.@"opening_price_wc_per_void_numerator" = JStr (dec (sset.(sset_total) ÷ d)) /\
    s.@"opening_price_wc_per_void_denominator" = JStr (dec (opening_sale_tranche_void_whole ÷ d)) /\
    s.@"participant_allocations" = JArr (map allocationRow aset.(aset_allocations)) /\
    s.@"protocol_wc_seed_units" = JStr "0".
Proof.
  unfold deriveWcVoidCoupledOpeningStateV1. intros Hs.
  apply bind_Ok in Hs as (w & (_ & _ & ->)%snapshotExact_Ok & Hs).
  apply bind_Ok in Hs as (launch & _ & Hs). apply bind_Ok in Hs as (set & Hset & Hs).
  apply bind_Ok in Hs as (sset & Hsset & Hs). apply bind_Ok in Hs as (aset & Haset & Hs).
  apply bind_Ok in Hs as (i & _ & [= <-]). exists launch, set, sset, aset.
  do 3 (split; [done|]). cbn zeta. repeat split; reflexivity.
Qed.

Lemma allocations_total set a : deriveOpeningAllocations set = Ok a ->
  a.(aset_total) = opening_sale_tranche_void_atoms.
Proof. unfold deriveOpeningAllocations. intros Ha. inv_ok. bool_prop. simpl. lia. Qed.

(** Both sets depend only on what was submitted, not on the order. *)
Lemma verifyCommitments_perm l cs cs' set : verifyWcVoidOpeningCommitmentsV1 l (JArr cs) = Ok set ->
  cs ≡ₚ cs' -> verifyWcVoidOpeningCommitmentsV1 l (JArr cs') = Ok set.
Proof.
  intros (launch & raws & vs & -> & [= <-] & (Hl & Hr & Hvs & H1 & H2) & Ht & Hc & Hroot)%verifyCommitments_Ok Hp.
  destruct (Forall2_perm_l _ _ cs' _ Hvs) as (vs' & Hp' & Hvs'); [done|].
  assert (isort cm_leb vs' = isort cm_leb vs) as Hsort by (symmetry; by apply (isort_key_perm cm_id)).
  apply verifyCommitments_Ok. exists launch, cs', vs'. rewrite Hsort. split; [done|]. split; [done|].
  split; [|split; [rewrite Ht; symmetry; by apply sumZ_perm|done]].
  unfold commitments_of. rewrite <- (Permutation_length Hp).
  repeat (split; [done|]). split; by rewrite Hp'.
Qed.

Lemma verifySettlements_perm l cs cs' ds ds' s :
  verifyWcVoidOpeningLedgerSettlementsV1 l (JArr cs) (JArr ds) = Ok s -> cs ≡ₚ cs' -> ds ≡ₚ ds' ->
  verifyWcVoidOpeningLedgerSettlementsV1 l (JArr cs') (JArr ds') = Ok s.
Proof.
  intros (launch & set & raws & ss & -> & Hset & [= <-] & Hss & Ht & Hc & Hroot)%verifySettlements_Ok Hpc Hpd.
  destruct Hss as (Hlen & Hr & Hss & H1 & H2).
  destruct (Forall2_perm_l _ _ ds' _ Hss) as (ss' & Hp' & Hss'); [done|].
  assert (isort sm_leb ss' = isort sm_leb ss) as Hsort by (symmetry; by apply (isort_key_perm sm_id)).
  apply verifySettlements_Ok. exists launch, set, ds', ss'. rewrite Hsort. split; [done|].
  split; [by eapply verifyCommitments_perm|]. split; [done|].
  split; [|split; [rewrite Ht; symmetry; by apply sumZ_perm|done]].
  unfold settlements_of. rewrite <- (Permutation_length Hpd).
  repeat (split; [done|]). split; by rewrite Hp'.
Qed.

(** The opening price is market-determined and exact: numerator and denominator
    are positive, without a common divisor (the divisor loop terminates with the
    greatest one), and denote settled work credits per whole VOID of the tranche.
    The WC that backs it is exactly what participants committed, with no protocol
    seed, and the VOID handed out is exactly the tranche. *)
Theorem opening_price_exact input s : deriveWcVoidCoupledOpeningStateV1 input = Ok s ->
  exists launch set num den,
    verifyWcVoidOpeningCommitmentsV1 (JStr launch) (input.@"commitments") = Ok set /\
    s.@"settled_wc_reserve_units" = JStr (dec set.(cset_total)) /\
    s.@"opening_price_wc_per_void_numerator" = JStr (dec num) /\
    s.@"opening_price_wc_per_void_denominator" = JStr (dec den) /\
    0 < num /\ 0 < den /\ Z.gcd num den = 1 /\
    num * opening_sale_tranche_void_whole = set.(cset_total) * den /\
    s.@"opening_allocated_void_atoms" = JStr (dec opening_sale_tranche_void_atoms) /\
    s.@"protocol_wc_seed_units" = JStr "0".
Proof.
  intros (launch & set & sset & aset & Hset & Hsset & Ha & Hwc & Hal & Hn & Hd & _ & Hseed)%derive_opening_inv.
  destruct (commitment_set_facts _ _ _ Hset) as (Hpos & _ & _ & Hgt & _).
  pose proof (settlement_set_total _ _ _ _ _ Hsset Hset) as Htot.
  rewrite Htot in *. set (total := set.(cset_total)) in *.
  assert (0 < opening_sale_tranche_void_whole) as Hwhole by done.
  rewrite gcd_gcd in Hn, Hd by lia. set (g := Z.gcd total opening_sale_tranche_void_whole) in *.
  assert (0 < g) as Hg.
  { pose proof (Z.gcd_nonneg total opening_sale_tranche_void_whole) as Hg0. fold g in Hg0.
    assert (g <> 0) by (intros Hz; apply Z.gcd_eq_0 in Hz; lia). lia. }
  destruct (Z.gcd_divide_l total opening_sale_tranche_void_whole) as [x Hx].
  destruct (Z.gcd_divide_r total opening_sale_tranche_void_whole) as [y Hy]. fold g in Hx, Hy.
  assert (total ÷ g = x) as Hqx by (rewrite Hx; by apply Z.quot_mul; lia).
  assert (opening_sale_tranche_void_whole ÷ g = y) as Hqy by (rewrite Hy; by apply Z.quot_mul; lia).
  rewrite Hqx in Hn. rewrite Hqy in Hd.
  rewrite (allocations_total _ _ Ha) in Hal.
  exists launch, set, x, y. repeat split; try done; try nia.
  assert (g * Z.gcd x y = g * 1) as Hgg; [|nia].
  rewrite <- Z.gcd_mul_mono_l_nonneg by lia. rewrite (Z.mul_comm g x), (Z.mul_comm g y), <- Hx, <- Hy.
  unfold g. lia.
Qed.

(** The opening does not depend on the order in which commitments and debits are
    submitted: permuting either list gives the same opening state, roots, price and
    identity included. *)
Theorem opening_order_independent launch cs cs' ds ds' s :
  deriveWcVoidCoupledOpeningStateV1 (JObj ["coupled_launch_id" ~> launch;
    "commitments" ~> JArr cs; "ledger_debits" ~> JArr ds]) = Ok s ->
  cs ≡ₚ cs' -> ds ≡ₚ ds' ->
  deriveWcVoidCoupledOpeningStateV1 (JObj ["coupled_launch_id" ~> launch;
    "commitments" ~> JArr cs'; "ledger_debits" ~> JArr ds']) = Ok s.
Proof.
  intros Hs Hc Hd. unfold deriveWcVoidCoupledOpeningStateV1 in Hs |- *.
  apply bind_Ok in Hs as (w & (_ & _ & ->)%snapshotExact_Ok & Hs).
  rewrite (proj2 (snapshotExact_Ok _ REQUEST_KEYS _ _)) by (split; [by eexists|by split]).
  cbn [mbind res_bind]. cbn [prop assoc map REQUEST_KEYS String.eqb Ascii.eqb Bool.eqb] in Hs |- *.
  apply bind_Ok in Hs as (launchId & Hl & Hs). rewrite Hl. cbn [mbind res_bind].
  apply bind_Ok in Hs as (set & Hset & Hs). rewrite (verifyCommitments_perm _ _ _ _ Hset Hc). cbn [mbind res_bind].
  apply bind_Ok in Hs as (sset & Hsset & Hs).
  by rewrite (verifySettlements_perm _ _ _ _ _ _ Hsset Hc Hd).
Qed.
End opening_facts.

(** ** An opening with three participants *)

#[local] Existing Instance poly256 | 0.

Definition sample_sha (tag : string) : string :=
  "sha256:0000000000000000000000000000000000000000000000000000000000000" +:+ tag.

Definition with_digest (key : string) (payload : json -> json) (v : json) : json :=
  match digest (payload v) with Ok i => extend v key (JStr i) | Throw _ => JNull end.

Definition sample_commitment (participant account units : string) : json :=
  with_digest "commitment_id" commitmentPayload (JObj [
    "schema" ~> VOID_WC_VOID_OPENING_COMMITMENT_SCHEMA_V1;
    "coupled_launch_id" ~> sample_sha "001";
    "participant_id" ~> sample_sha participant;
    "account" ~> account;
    "wc_units" ~> units]).

Definition sample_commitments : list json := Eval vm_compute in
  [sample_commitment "a01" "alice" "3"; sample_commitment "a02" "bob" "1";
   sample_commitment "a03" "carol" "3"].

Definition sample_debit (commitment : json) (amount : Z) : json :=
  with_digest "settlement_id" debitPayload (JObj [
    "schema" ~> VOID_WC_VOID_OPENING_LEDGER_DEBIT_SCHEMA_V1;
    "kind" ~> "debit";
    "account" ~> commitment.@"account";
    "amount" ~> jint amount;
    "delta" ~> jint (- amount);
    "ts_ms" ~> jint 1000;
    "reason" ~> "wc_void_opening_settlement_v1";
    "commitment_id" ~> commitment.@"commitment_id";
    "coupled_launch_id" ~> sample_sha "001";
    "pair" ~> "WC_VOID";
    "source_domain" ~> "void-work-credit-ledger";
    "quote_asset_form" ~> "ledger-credit";
    "quote_unit" ~> "wc";
    "quote_decimals" ~> jint 0;
    "market_meta" ~> JObj [
      "adapter_id" ~> VOID_WC_VOID_OPENING_SETTLEMENT_ADAPTER_ID_V1;
      "opening_only" ~> true;
      "fixed_price" ~> false;
      "protocol_wc_seed_units" ~> "0"]]).

Definition sample_debits : list json := Eval vm_compute in
  map (fun c => sample_debit c (BigInt match c.@"wc_units" with JStr s => s | _ => "0" end)) sample_commitments.

Definition sample_opening (cs ds : list json) : json :=
  JObj ["coupled_launch_id" ~> sample_sha "001"; "commitments" ~> JArr cs; "ledger_debits" ~> JArr ds].

(** 5,000,000 VOID for 7 WC: the remainders are 1, 5 and 1 sevenths of an atom, and the
    one atom left over goes to the largest. *)
Example sample_opening_allocations :
  (fun s => (s.@"opening_price_wc_per_void_numerator", s.@"opening_price_wc_per_void_denominator",
     map (fun a => (a.@"account", a.@"void_atoms"))
       match s.@"participant_allocations" with JArr l => l | _ => [] end)) <$>
    deriveWcVoidCoupledOpeningStateV1 (sample_opening sample_commitments sample_debits) =
  Ok (JStr "7", JStr "5000000",
    [(JStr "alice", JStr "2142857142857142857142857"); (JStr "carol", JStr "2142857142857142857142857");
     (JStr "bob", JStr "714285714285714285714286")]).
Proof. vm_compute. reflexivity. Qed.

Lemma opening_allocation_exact_witness :
  match verifyWcVoidOpeningCommitmentsV1 (JStr (sample_sha "001")) (JArr sample_commitments) with
  | Ok set => exists a, deriveOpeningAllocations set = Ok a /\
      sumZ we_allocated a.(aset_allocations) = opening_sale_tranche_void_atoms
  | Throw _ => False
  end.
Proof.
  run_ok (verifyWcVoidOpeningCommitmentsV1 (JStr (sample_sha "001")) (JArr sample_commitments)) E.
  destruct (opening_allocation_exact _ _ _ E) as (a & Ha & _ & Hs & _).
  exists a. split; [exact Ha|exact Hs].
Defined.

Lemma opening_price_exact_witness :
  match deriveWcVoidCoupledOpeningStateV1 (sample_opening sample_commitments sample_debits) with
  | Ok s => exists num den, s.@"opening_price_wc_per_void_numerator" = JStr (dec num) /\
      s.@"opening_price_wc_per_void_denominator" = JStr (dec den) /\ Z.gcd num den = 1
  | Throw _ => False
  end.
Proof.
  run_ok (deriveWcVoidCoupledOpeningStateV1 (sample_opening sample_commitments sample_debits)) E.
  destruct (opening_price_exact _ _ E) as (_ & _ & num & den & _ & _ & Hn & Hd & _ & _ & Hg & _).
  exists num, den. split; [exact Hn|split; [exact Hd|exact Hg]].
Defined.

Lemma opening_order_independent_witness :
  match deriveWcVoidCoupledOpeningStateV1 (sample_opening sample_commitments sample_debits) with
  | Ok s => deriveWcVoidCoupledOpeningStateV1
      (sample_opening (reverse sample_commitments) (reverse sample_debits)) = Ok s
  | Throw _ => False
  end.
Proof.
  run_ok (deriveWcVoidCoupledOpeningStateV1 (sample_opening sample_commitments sample_debits)) E.
  apply (opening_order_independent _ _ _ _ _ _ E); symmetry; apply reverse_Permutation.
Defined.
