(* ===== verification/PublicQuote.v ===== *)
(** * Public quote disclosures of the WC/VOID market

    Model of [tools/void-wc-void-public-quote-disclosure-v1.mjs]: the quote a
    participant sees before trading work credits against VOID, with every fee
    component, the gross and net amounts on both sides, the slippage bound and the
    expiry.  [normalizeQuote] checks and canonicalizes it,
    [verifyWcVoidPublicQuoteDisclosureV1] also checks that its identity is the digest
    of its canonical content.

    [normalizeQuote] is split at its seams: the constant fields ([checkBinding]), the
    seven amounts ([quoteAmounts]), the fee components ([normalizeFeeComponents]), the
    accounting and slippage checks ([checkAccounting], [checkSlippage]) and the
    rendered object. *)

From Stdlib Require Import Ascii.
From S2P Require Import Prelude Js CanonicalJson Sha256.

Definition VOID_WC_VOID_PUBLIC_QUOTE_DISCLOSURE_V1 : string := "VOID_WC_VOID_PUBLIC_QUOTE_DISCLOSURE_V1".
Definition VOID_WC_VOID_PUBLIC_QUOTE_SCHEMA_V1 : string := "void.wc-void-public-quote.v1".

(** [VOID_WC_VOID_PUBLIC_QUOTE_EXECUTION_BINDING_V1] *)
Definition EXECUTION_BINDING : json :=
  JObj [
    "chain_id" ~> jint 2050;
    "network_identity" ~> "mainnet0";
    "execution_epoch" ~> jint 2;
    "void_token" ~> "0x470075b85352eb86f7d089fb9ba88945f12aad94";
    "native_gas_model" ~> "epoch2_metered_zero_gas_price_v1";
    "gas_metering_required" ~> true;
    "participant_native_gas_balance_required" ~> false;
    "native_gas_economic_charge_atoms" ~> "0"].

Definition VOID_WC_VOID_PUBLIC_QUOTE_AUTHORITY_V1 : json :=
  JObj [
    "source_only" ~> true;
    "disclosure_only" ~> true;
    "quote_execution" ~> false;
    "pricing_authority" ~> false;
    "reserve_custody_authority" ~> false;
    "wallet_or_signer_access" ~> false;
    "private_key_access" ~> false;
    "transaction_construction" ~> false;
    "transaction_signing" ~> false;
    "transaction_broadcast" ~> false;
    "chain2050_write" ~> false;
    "wc_ledger_write" ~> false;
    "inventory_funding" ~> false;
    "liquidity_movement" ~> false;
    "market_activation" ~> false;
    "public_presale_activation" ~> false;
    "funds_movement" ~> false].

(** The fee-code expression: a lower-case letter, then up to 63 lower-case letters,
    digits, dots, underscores or hyphens. *)
Definition is_code_char (c : ascii) : bool :=
  in_range 97 122 c || is_digit c || existsb (Ascii.eqb c) ["."; "_"; "-"]%char.

Definition is_safe_code (s : string) : bool :=
  match s with
  | EmptyString => false
  | String c s' =>
      in_range 97 122 c && (String.length s' <=? 63)%nat && string_forallb is_code_char s'
  end.

Definition MAX_FEE_COMPONENTS : Z := 64.
Definition MAX_WC_UNITS : Z := MAX_SAFE_INTEGER.
Definition MAX_VOID_ATOMS : Z := 666666666 * 10 ^ 18.

(** [ASSET_AMOUNT_LIMITS[asset].max], if the table has the asset. *)
Definition ASSET_AMOUNT_LIMITS (asset : json) : option Z :=
  match asset with
  | JStr a => if String.eqb a "WC" then Some MAX_WC_UNITS
              else if String.eqb a "VOID" then Some MAX_VOID_ATOMS else None
  | _ => None
  end.

Definition QUOTE_KEYS : list string :=
  ["schema"; "quote_id"; "coupled_launch_id"; "market_state_id"; "pair"; "direction"; "chain_id";
   "network_identity"; "execution_epoch"; "void_token"; "pricing_source"; "presale_price_authority";
   "fixed_conversion"; "input_asset"; "input_unit"; "output_asset"; "output_unit";
   "gross_input_amount"; "trade_input_amount"; "input_fee_amount"; "gross_output_amount";
   "output_fee_amount"; "net_output_amount"; "minimum_output_amount"; "slippage_bps"; "issued_at_ms";
   "expires_at_ms"; "native_gas_model"; "gas_metering_required";
   "participant_native_gas_balance_required"; "native_gas_economic_charge_atoms";
   "fee_components"]%string.

Definition FEE_KEYS : list string := ["code"; "side"; "asset"; "amount"]%string.

(** [exactArray(value, min, max, code)] *)
Definition exactArray (value : json) (min max : Z) (code : string) : res (list json) :=
  match value with
  | JArr l =>
      throw_if ((Z.of_nat (length l) <? min) || (Z.of_nat (length l) >? max)) code;;
      Ok l
  | _ => Throw code
  end.

Definition assetAmount (value asset : json) (code : string) (positive : bool) : res Z :=
  match ASSET_AMOUNT_LIMITS asset with
  | None => Throw "WC_VOID_PUBLIC_QUOTE_ASSET_UNIT_MISMATCH"
  | Some limit =>
      match value with
      | JStr s =>
          throw_if ((String.length (dec limit) <? String.length s)%nat || negb (is_canonical_decimal s)) code;;
          let parsed := BigInt s in
          throw_if (positive && (parsed <=? 0)) code;;
          throw_if (parsed >? limit) code;;
          Ok parsed
      | _ => Throw code
      end
  end.

Definition safeMs (value : json) (code : string) : res Z :=
  match as_safe_integer value with
  | Some z => throw_if (z <=? 0) code;; Ok z
  | None => Throw code
  end.

(** ** Fee components *)

Record FeeComponent := mkFeeComponent {
  fee_code : string;
  fee_input : bool;
  fee_asset : json;
  fee_amount : Z
}.

Definition feeRow (f : FeeComponent) : json :=
  JObj [
    "code" ~> f.(fee_code);
    "side" ~> (if f.(fee_input) then "input" else "output");
    "asset" ~> f.(fee_asset);
    "amount" ~> dec f.(fee_amount)].

(** The locals of the loop over the components. *)
Record FeeLoop := mkFeeLoop {
  seenCodes : gset string;
  inputFees : Z;
  outputFees : Z;
  canonicalFees : list FeeComponent
}.

Definition addFee (st : FeeLoop) (f : FeeComponent) : FeeLoop :=
  mkFeeLoop ({[ f.(fee_code) ]} ∪ st.(seenCodes))
    (if f.(fee_input) then st.(inputFees) + f.(fee_amount) else st.(inputFees))
    (if f.(fee_input) then st.(outputFees) else st.(outputFees) + f.(fee_amount))
    (st.(canonicalFees) ++ [f]).

(** One iteration of the [map]. *)
Definition feeComponent (inputAsset outputAsset : json) (st : FeeLoop) (raw : json) : res FeeLoop :=
  fee ← snapshotExact raw FEE_KEYS "INVALID_WC_VOID_PUBLIC_QUOTE_FEE_COMPONENT_SHAPE";
  code ← match fee.@"code" with
    | JStr s => throw_if (negb (is_safe_code s)) "INVALID_WC_VOID_PUBLIC_QUOTE_FEE_CODE";; Ok s
    | _ => Throw "INVALID_WC_VOID_PUBLIC_QUOTE_FEE_CODE"
    end;
  throw_if (bool_decide (code ∈ st.(seenCodes))) "DUPLICATE_WC_VOID_PUBLIC_QUOTE_FEE_CODE";;
  throw_if ((fee.@"side" !== "input") && (fee.@"side" !== "output"))
    "INVALID_WC_VOID_PUBLIC_QUOTE_FEE_SIDE";;
  let onInput := fee.@"side" === "input" in
  let expectedAsset := if onInput then inputAsset else outputAsset in
  throw_if (fee.@"asset" !== expectedAsset) "WC_VOID_PUBLIC_QUOTE_FEE_ASSET_MISMATCH";;
  amount ← assetAmount (fee.@"amount") (fee.@"asset") "INVALID_WC_VOID_PUBLIC_QUOTE_FEE_AMOUNT" true;
  Ok (addFee st (mkFeeComponent code onInput (fee.@"asset") amount)).

Definition code_leb (l r : FeeComponent) : bool := str_leb l.(fee_code) r.(fee_code).

Record Fees := mkFees {
  fs_components : list FeeComponent;
  fs_input : Z;
  fs_output : Z
}.

Definition normalizeFeeComponents (value inputAsset outputAsset : json) : res Fees :=
  values ← exactArray value 0 MAX_FEE_COMPONENTS "INVALID_WC_VOID_PUBLIC_QUOTE_FEE_COMPONENT_SET";
  st ← foldM (feeComponent inputAsset outputAsset) (mkFeeLoop ∅ 0 0 []) values;
  Ok (mkFees (isort code_leb st.(canonicalFees)) st.(inputFees) st.(outputFees)).

(** ** Quotes *)

(** The assets and units of the quote's direction. *)
Definition expectedUnits (quote : json) : list (string * json) :=
  if quote.@"direction" === "wc_to_void" then
    ["input_asset" ~> "WC"; "input_unit" ~> "wc"; "output_asset" ~> "VOID";
     "output_unit" ~> "void_token_atom"]
  else
    ["input_asset" ~> "VOID"; "input_unit" ~> "void_token_atom"; "output_asset" ~> "WC";
     "output_unit" ~> "wc"].

(** The identities and the fields with one permitted value. *)
Definition checkBinding (quote : json) : res unit :=
  throw_if (quote.@"schema" !== VOID_WC_VOID_PUBLIC_QUOTE_SCHEMA_V1) "INVALID_WC_VOID_PUBLIC_QUOTE_SCHEMA";;
  _ ← canonicalSha (quote.@"quote_id") "INVALID_WC_VOID_PUBLIC_QUOTE_ID";
  _ ← canonicalSha (quote.@"coupled_launch_id") "INVALID_COUPLED_LAUNCH_ID";
  _ ← canonicalSha (quote.@"market_state_id") "INVALID_WC_VOID_MARKET_STATE_ID";
  throw_if (quote.@"pair" !== "WC_VOID") "INVALID_WC_VOID_PUBLIC_QUOTE_PAIR";;
  throw_if ((quote.@"direction" !== "wc_to_void") && (quote.@"direction" !== "void_to_wc"))
    "INVALID_WC_VOID_PUBLIC_QUOTE_DIRECTION";;
  throw_if (existsb (fun key => quote.@key !== EXECUTION_BINDING.@key)
      ["chain_id"; "network_identity"; "execution_epoch"; "void_token"]%string)
    "WC_VOID_PUBLIC_QUOTE_EXECUTION_BINDING_MISMATCH";;
  throw_if (existsb (fun key => quote.@key !== EXECUTION_BINDING.@key)
      ["native_gas_model"; "gas_metering_required"; "participant_native_gas_balance_required";
       "native_gas_economic_charge_atoms"]%string)
    "WC_VOID_PUBLIC_QUOTE_GAS_DISCLOSURE_MISMATCH";;
  throw_if ((quote.@"pricing_source" !== "wc_void_market_state") ||
      (quote.@"presale_price_authority" !== false) || (quote.@"fixed_conversion" !== false))
    "WC_VOID_PUBLIC_QUOTE_PRICING_AUTHORITY_MISMATCH";;
  throw_if (existsb (fun expected => quote.@(expected.1) !== expected.2) (expectedUnits quote))
    "WC_VOID_PUBLIC_QUOTE_ASSET_UNIT_MISMATCH".

Record Amounts := mkAmounts {
  grossInput : Z;
  tradeInput : Z;
  inputFee : Z;
  grossOutput : Z;
  outputFee : Z;
  netOutput : Z;
  minimumOutput : Z
}.

Definition quoteAmounts (quote : json) : res Amounts :=
  let input := quote.@"input_asset" in
  let output := quote.@"output_asset" in
  grossInput ← assetAmount (quote.@"gross_input_amount") input "INVALID_WC_VOID_PUBLIC_QUOTE_GROSS_INPUT" true;
  tradeInput ← assetAmount (quote.@"trade_input_amount") input "INVALID_WC_VOID_PUBLIC_QUOTE_TRADE_INPUT" true;
  inputFee ← assetAmount (quote.@"input_fee_amount") input "INVALID_WC_VOID_PUBLIC_QUOTE_INPUT_FEE" false;
  grossOutput ← assetAmount (quote.@"gross_output_amount") output "INVALID_WC_VOID_PUBLIC_QUOTE_GROSS_OUTPUT" true;
  outputFee ← assetAmount (quote.@"output_fee_amount") output "INVALID_WC_VOID_PUBLIC_QUOTE_OUTPUT_FEE" false;
  netOutput ← assetAmount (quote.@"net_output_amount") output "INVALID_WC_VOID_PUBLIC_QUOTE_NET_OUTPUT" true;
  minimumOutput ← assetAmount (quote.@"minimum_output_amount") output
    "INVALID_WC_VOID_PUBLIC_QUOTE_MINIMUM_OUTPUT" true;
  Ok (mkAmounts grossInput tradeInput inputFee grossOutput outputFee netOutput minimumOutput).

Definition checkAccounting (a : Amounts) (fees : Fees) : res unit :=
  throw_if (negb (String.eqb (dec fees.(fs_input)) (dec a.(inputFee))) ||
      negb (String.eqb (dec fees.(fs_output)) (dec a.(outputFee))))
    "WC_VOID_PUBLIC_QUOTE_FEE_COMPONENT_SUM_MISMATCH";;
  throw_if (negb (a.(grossInput) =? a.(tradeInput) + a.(inputFee)))
    "WC_VOID_PUBLIC_QUOTE_INPUT_ACCOUNTING_MISMATCH";;
  throw_if (negb (a.(grossOutput) =? a.(netOutput) + a.(outputFee)))
    "WC_VOID_PUBLIC_QUOTE_OUTPUT_ACCOUNTING_MISMATCH".

(** The slippage bound: the minimum output is the net output less the tolerated
    fraction, rounded up. *)
Definition checkSlippage (slippage : json) (a : Amounts) : res Z :=
  slippage_bps ← match as_safe_integer slippage with
    | Some z =>
        throw_if ((z <? 0) || (z >=? 10000)) "INVALID_WC_VOID_PUBLIC_QUOTE_SLIPPAGE_BPS";;
        Ok z
    | None => Throw "INVALID_WC_VOID_PUBLIC_QUOTE_SLIPPAGE_BPS"
    end;
  let slippageNumerator := a.(netOutput) * (10000 - slippage_bps) in
  let expectedMinimum := (slippageNumerator + 9999) ÷ 10000 in
  throw_if ((expectedMinimum <=? 0) || negb (a.(minimumOutput) =? expectedMinimum))
    "WC_VOID_PUBLIC_QUOTE_MINIMUM_OUTPUT_MISMATCH";;
  Ok slippage_bps.

Definition renderNormalized (quote : json) (a : Amounts) (slippage issuedAt expiresAt : Z) (fees : Fees)
  : json :=
  JObj [
    "schema" ~> quote.@"schema";
    "quote_id" ~> quote.@"quote_id";
    "coupled_launch_id" ~> quote.@"coupled_launch_id";
    "market_state_id" ~> quote.@"market_state_id";
    "pair" ~> quote.@"pair";
    "direction" ~> quote.@"direction";
    "chain_id" ~> quote.@"chain_id";
    "network_identity" ~> quote.@"network_identity";
    "execution_epoch" ~> quote.@"execution_epoch";
    "void_token" ~> quote.@"void_token";
    "pricing_source" ~> quote.@"pricing_source";
    "presale_price_authority" ~> quote.@"presale_price_authority";
    "fixed_conversion" ~> quote.@"fixed_conversion";
    "input_asset" ~> quote.@"input_asset";
    "input_unit" ~> quote.@"input_unit";
    "output_asset" ~> quote.@"output_asset";
    "output_unit" ~> quote.@"output_unit";
    "gross_input_amount" ~> dec a.(grossInput);
    "trade_input_amount" ~> dec a.(tradeInput);
    "input_fee_amount" ~> dec a.(inputFee);
    "gross_output_amount" ~> dec a.(grossOutput);
    "output_fee_amount" ~> dec a.(outputFee);
    "net_output_amount" ~> dec a.(netOutput);
    "minimum_output_amount" ~> dec a.(minimumOutput);
    "slippage_bps" ~> jint slippage;
    "issued_at_ms" ~> jint issuedAt;
    "expires_at_ms" ~> jint expiresAt;
    "native_gas_model" ~> quote.@"native_gas_model";
    "gas_metering_required" ~> quote.@"gas_metering_required";
    "participant_native_gas_balance_required" ~> quote.@"participant_native_gas_balance_required";
    "native_gas_economic_charge_atoms" ~> quote.@"native_gas_economic_charge_atoms";
    "fee_components" ~> JArr (map feeRow fees.(fs_components))].

Definition normalizeQuote (raw : json) : res json :=
  quote ← snapshotExact raw QUOTE_KEYS "INVALID_WC_VOID_PUBLIC_QUOTE_SHAPE";
  checkBinding quote;;
  amounts ← quoteAmounts quote;
  fees ← normalizeFeeComponents (quote.@"fee_components") (quote.@"input_asset") (quote.@"output_asset");
  checkAccounting amounts fees;;
  slippage ← checkSlippage (quote.@"slippage_bps") amounts;
  issuedAt ← safeMs (quote.@"issued_at_ms") "INVALID_WC_VOID_PUBLIC_QUOTE_ISSUED_AT_MS";
  expiresAt ← safeMs (quote.@"expires_at_ms") "INVALID_WC_VOID_PUBLIC_QUOTE_EXPIRES_AT_MS";
  throw_if (expiresAt <=? issuedAt) "WC_VOID_PUBLIC_QUOTE_EXPIRY_INVALID";;
  Ok (renderNormalized quote amounts slippage issuedAt expiresAt fees).

Definition quotePayload (normalized : json) : json := omit normalized "quote_id".

Definition disclosureFlags : list (string * json) := [
    "public_quote_disclosure_ready" ~> true;
    "quote_id_content_digest_verified" ~> true;
    "quote_id_is_authentication" ~> false;
    "publisher_authenticity_verified" ~> false;
    "signature_verified" ~> false;
    "authenticated_quote_envelope_required" ~> true;
    "every_fee_component_disclosed" ~> true;
    "gross_net_accounting_verified" ~> true;
    "gas_model_disclosed" ~> true;
    "slippage_and_minimum_output_disclosed" ~> true;
    "expiry_disclosed" ~> true;
    "presale_price_authority_rejected" ~> true;
    "fixed_conversion_rejected" ~> true;
    "pricing_math_verified" ~> false;
    "reserve_custody_verified" ~> false;
    "runtime_publication_verified" ~> false;
    "quote_execution_authority" ~> false;
    "market_activation_authority" ~> false;
    "public_presale_activation_authority" ~> false;
    "funds_movement_authority" ~> false;
    "authority" ~> VOID_WC_VOID_PUBLIC_QUOTE_AUTHORITY_V1].

Definition renderDisclosure (normalized : json) : json :=
  JObj (["marker" ~> VOID_WC_VOID_PUBLIC_QUOTE_DISCLOSURE_V1] ++
    match normalized with JObj fs => fs | _ => [] end ++ disclosureFlags).

Section public_quote.
Context {H : Digest}.

Definition digest : json -> res string :=
  contentIdOf (canonical_text "INVALID_CANONICAL_VALUE" "INVALID_CANONICAL_VALUE").

Definition wcVoidPublicQuoteDisclosureIdV1 (value : json) : res string :=
  normalized ← normalizeQuote value;
  digest (quotePayload normalized).

Definition verifyWcVoidPublicQuoteDisclosureV1 (value : json) : res json :=
  normalized ← normalizeQuote value;
  expectedId ← digest (quotePayload normalized);
  throw_if (normalized.@"quote_id" !== JStr expectedId) "WC_VOID_PUBLIC_QUOTE_DIGEST_MISMATCH";;
  Ok (renderDisclosure normalized).
End public_quote.

(** ** Amounts and fee components *)

Lemma assetAmount_Ok v asset code pos z : assetAmount v asset code pos = Ok z ->
  exists limit, ASSET_AMOUNT_LIMITS asset = Some limit /\ v = JStr (dec z) /\ 0 <= z <= limit /\
    (pos = true -> 0 < z).
Proof.
  unfold assetAmount. destruct (ASSET_AMOUNT_LIMITS asset) as [limit|]; [|discriminate].
  destruct v; try discriminate. intros Hz. inv_ok. bool_prop. pose proof (BigInt_nonneg s).
  exists limit. rewrite dec_BigInt by done. split; [done|]. split; [done|]. split; [lia|].
  intros ->. simpl in *. lia.
Qed.

(** What the loop accepts as the component [f], whatever came before. *)
Definition fee_of (ia oa raw : json) (f : FeeComponent) : Prop :=
  (exists fs, raw = JObj fs) /\ same_keys raw FEE_KEYS = true /\
  raw.@"code" = JStr f.(fee_code) /\ is_safe_code f.(fee_code) = true /\
  raw.@"side" = JStr (if f.(fee_input) then "input" else "output") /\
  ((raw.@"asset" === (if f.(fee_input) then ia else oa)) = true) /\ f.(fee_asset) = raw.@"asset" /\
  assetAmount (raw.@"amount") (raw.@"asset") "INVALID_WC_VOID_PUBLIC_QUOTE_FEE_AMOUNT" true = Ok f.(fee_amount).

Lemma feeComponent_Ok ia oa st raw st' : feeComponent ia oa st raw = Ok st' <->
  exists f, fee_of ia oa raw f /\ (f.(fee_code) ∉ st.(seenCodes)) /\ st' = addFee st f.
Proof.
  unfold feeComponent. split.
  - intros Hs. apply bind_Ok in Hs as (fee & (Ho & Hk & ->)%snapshotExact_Ok & Hs).
    cbn [prop assoc map FEE_KEYS String.eqb Ascii.eqb Bool.eqb] in Hs.
    apply bind_Ok in Hs as (code & Hc & Hs).
    destruct (prop raw "code") as [| | | |c| |] eqn:Ec; try discriminate. inv_ok. bool_prop.
    match goal with Hb : bool_decide _ = false |- _ => apply bool_decide_eq_false in Hb end.
    eexists. split; [|split; [|reflexivity]]; [|done]. unfold fee_of; cbn [fee_code fee_input fee_asset fee_amount].
    split; [done|]. split; [done|]. split; [done|]. split; [done|]. split; [|done].
    match goal with Hd : _ && _ = false |- _ => apply andb_false_iff in Hd as [Hd|Hd] end;
      bool_prop; js_eqs; match goal with Hd : raw.@"side" = _ |- _ => rewrite Hd end; done.
  - intros (f & (Ho & Hk & Hc & Hsafe & Hside & Ha & Hfa & Hz) & Hn & ->).
    erewrite (proj2 (snapshotExact_Ok _ _ _ _)) by eauto. cbn [mbind res_bind].
    cbn [prop assoc map FEE_KEYS String.eqb Ascii.eqb Bool.eqb].
    rewrite Hc, Hsafe. cbn [mbind res_bind throw_if negb]. rewrite bool_decide_eq_false_2 by done.
    cbn [mbind res_bind throw_if negb]. rewrite Hside.
    destruct f as [code [] asset amount]; simpl in *; rewrite Ha; simpl; rewrite Hz; simpl; by rewrite Hfa.
Qed.

(** The fees on one side. *)
Definition side_sum (input : bool) (l : list FeeComponent) : Z :=
  sumZ (fun f => if eqb f.(fee_input) input then f.(fee_amount) else 0) l.

Lemma feeLoop_Ok ia oa raws st st' : foldM (feeComponent ia oa) st raws = Ok st' <->
  exists fs, Forall2 (fee_of ia oa) raws fs /\ NoDup (map fee_code fs) /\
    Forall (fun f => f.(fee_code) ∉ st.(seenCodes)) fs /\ st' = foldl addFee st fs.
Proof.
  revert st. induction raws as [|raw raws IH]; intros st; simpl.
  { split; [intros [= <-]; exists []; repeat split; constructor|]. intros (fs & H2 & _ & _ & ->). by inversion H2. }
  rewrite bind_Ok. setoid_rewrite feeComponent_Ok. setoid_rewrite IH. split.
  - intros (st1 & (f & Hf & Hn & ->) & fs & H2 & Hnd & Hseen & ->). exists (f :: fs). simpl.
    split; [by constructor|]. rewrite Forall_forall in Hseen. simpl in Hseen.
    split; [constructor; [|done]|split; [constructor; [done|]|done]].
    + rewrite list_elem_of_fmap. intros (g & Hg & Hin). apply (Hseen g Hin). set_solver.
    + apply Forall_forall. intros g Hin. specialize (Hseen g Hin). set_solver.
  - intros (fs & H2 & Hnd & Hseen & ->). inversion H2 as [|? f ? fs' Hf H2']; subst. simpl in *.
    inversion Hnd as [|? ? Hnin Hnd']; subst. inversion Hseen as [|? ? Hn Hseen']; subst.
    eexists. split; [by eauto|]. exists fs'. split; [done|]. split; [done|]. split; [|done].
    rewrite Forall_forall in Hseen' |- *. intros g Hin. simpl. specialize (Hseen' g Hin).
    assert (fee_code g <> fee_code f); [|set_solver]. intros Heq. apply Hnin.
    rewrite <- Heq. apply list_elem_of_fmap. eauto.
Qed.

Lemma addFees_sums fs st :
  let st' := foldl addFee st fs in
  st'.(inputFees) = st.(inputFees) + side_sum true fs /\
  st'.(outputFees) = st.(outputFees) + side_sum false fs /\
  st'.(canonicalFees) = st.(canonicalFees) ++ fs.
Proof.
  unfold side_sum. revert st. induction fs as [|f fs IH]; intros st; simpl.
  - rewrite app_nil_r. split; [lia|]. split; [lia|done].
  - destruct (IH (addFee st f)) as (-> & -> & ->). simpl.
    destruct (fee_input f); simpl; rewrite <- app_assoc; (split; [lia|]; split; [lia|done]).
Qed.

Lemma normalizeFeeComponents_Ok value ia oa fees : normalizeFeeComponents value ia oa = Ok fees <->
  exists raws fs, value = JArr raws /\ Z.of_nat (length raws) <= MAX_FEE_COMPONENTS /\
    Forall2 (fee_of ia oa) raws fs /\ NoDup (map fee_code fs) /\
    fees = mkFees (isort code_leb fs) (side_sum true fs) (side_sum false fs).
Proof.
  unfold normalizeFeeComponents, exactArray. split.
  - destruct value as [| | | | |raws|]; try discriminate. intros Hs.
    apply bind_Ok in Hs as (l & Hl & Hs). inv_ok. bool_prop.
    match goal with Hf : foldM _ _ _ = Ok _ |- _ => apply feeLoop_Ok in Hf as (fs & H2 & Hnd & _ & ->) end.
    exists l, fs. destruct (addFees_sums fs (mkFeeLoop ∅ 0 0 [])) as (-> & -> & ->).
    split; [done|]. split; [rewrite Z.gtb_ltb in *; lia|done].
  - intros (raws & fs & -> & Hlen & H2 & Hnd & ->).
    assert (((Z.of_nat (length raws) <? 0) || (Z.of_nat (length raws) >? MAX_FEE_COMPONENTS)) = false) as ->.
    { rewrite Z.gtb_ltb. lia. }
    cbn [mbind res_bind throw_if].
    erewrite (proj2 (feeLoop_Ok _ _ _ _ _)).
    2: { exists fs. split; [done|]. split; [done|]. split; [|done]. apply Forall_forall. set_solver. }
    cbn [mbind res_bind]. by destruct (addFees_sums fs (mkFeeLoop ∅ 0 0 [])) as (-> & -> & ->).
Qed.

Lemma normalizeFeeComponents_perm raws raws' ia oa fees : raws ≡ₚ raws' ->
  normalizeFeeComponents (JArr raws) ia oa = Ok fees ->
  normalizeFeeComponents (JArr raws') ia oa = Ok fees.
Proof.
  intros Hp. rewrite !normalizeFeeComponents_Ok. intros (l & fs & [= <-] & Hlen & H2 & Hnd & ->).
  destruct (Forall2_perm_l _ _ raws' _ H2) as (fs' & Hp' & H2'); [by symmetry|].
  exists raws', fs'. split; [done|]. split; [by rewrite <- Hp|]. split; [done|].
  split; [by rewrite Hp'|]. f_equal.
  - apply (isort_key_perm fee_code); [done|by symmetry].
  - apply sumZ_perm. by symmetry.
  - apply sumZ_perm. by symmetry.
Qed.

(** ** Disclosed terms *)

(** The economic terms a disclosure publishes. *)
Record disclosed (q : json) (a : Amounts) (fees : list FeeComponent) (slippage issued expires : Z) : Prop := {
  di_gross_input : q.@"gross_input_amount" = JStr (dec a.(grossInput));
  di_trade_input : q.@"trade_input_amount" = JStr (dec a.(tradeInput));
  di_input_fee : q.@"input_fee_amount" = JStr (dec a.(inputFee));
  di_gross_output : q.@"gross_output_amount" = JStr (dec a.(grossOutput));
  di_output_fee : q.@"output_fee_amount" = JStr (dec a.(outputFee));
  di_net_output : q.@"net_output_amount" = JStr (dec a.(netOutput));
  di_minimum : q.@"minimum_output_amount" = JStr (dec a.(minimumOutput));
  di_slippage : q.@"slippage_bps" = jint slippage;
  di_issued : q.@"issued_at_ms" = jint issued;
  di_expires : q.@"expires_at_ms" = jint expires;
  di_fees : q.@"fee_components" = JArr (map feeRow fees)
}.

(** The fee-inclusive accounting of the two sides. *)
Record accounted (a : Amounts) (fees : list FeeComponent) : Prop := {
  ac_input : a.(grossInput) = a.(tradeInput) + a.(inputFee);
  ac_output : a.(grossOutput) = a.(netOutput) + a.(outputFee);
  ac_input_fees : a.(inputFee) = side_sum true fees;
  ac_output_fees : a.(outputFee) = side_sum false fees;
  ac_positive : 0 < a.(tradeInput) /\ 0 < a.(netOutput);
  ac_fees : Forall (fun f => 0 < f.(fee_amount)) fees /\ NoDup (map fee_code fees)
}.

Lemma side_sum_nonneg b fs : Forall (fun f => 0 < f.(fee_amount)) fs -> 0 <= side_sum b fs.
Proof.
  intros Hf. apply sumZ_nonneg. eapply Forall_impl; [exact Hf|]. simpl. intros f ?.
  destruct (eqb _ _); lia.
Qed.

Lemma fees_positive ia oa raws fs : Forall2 (fee_of ia oa) raws fs ->
  Forall (fun f => 0 < f.(fee_amount)) fs.
Proof.
  induction 1 as [|raw f raws fs Hf _ IH]; constructor; [|done].
  destruct Hf as (_ & _ & _ & _ & _ & _ & _ & Hz). apply assetAmount_Ok in Hz as (? & _ & _ & _ & Hp). auto.
Qed.

Lemma checkAccounting_Ok value ia oa a fees u : normalizeFeeComponents value ia oa = Ok fees ->
  checkAccounting a fees = Ok u -> 0 <= a.(inputFee) -> 0 <= a.(outputFee) ->
  0 < a.(tradeInput) -> 0 < a.(netOutput) -> accounted a fees.(fs_components).
Proof.
  intros (raws & fs & _ & _ & H2 & Hnd & ->)%normalizeFeeComponents_Ok Hc Hi Ho Ht Hn.
  unfold checkAccounting in Hc. inv_ok. bool_prop. simpl in *.
  pose proof (fees_positive _ _ _ _ H2) as Hpos.
  pose proof (side_sum_nonneg true fs Hpos). pose proof (side_sum_nonneg false fs Hpos).
  repeat match goal with He : String.eqb _ _ = true |- _ => apply String.eqb_eq, dec_inj in He; [|done..] end.
  assert (forall b, side_sum b (isort code_leb fs) = side_sum b fs) as Hs
    by (intros b; apply sumZ_perm, isort_perm).
  constructor; rewrite ?Hs; try lia.
  split; [by rewrite isort_perm|]. by rewrite isort_perm.
Qed.

(** The minimum output is the smallest amount within the tolerated slippage. *)
Lemma checkSlippage_Ok v a slip : checkSlippage v a = Ok slip -> 0 < a.(netOutput) ->
  v = jint slip /\ 0 <= slip < 10000 /\ 0 < a.(minimumOutput) <= a.(netOutput) /\
  forall m, a.(minimumOutput) <= m <-> a.(netOutput) * (10000 - slip) <= m * 10000.
Proof.
  unfold checkSlippage. intros Hs Hn. destruct (as_safe_integer v) as [z|] eqn:Ev; [|discriminate].
  apply as_safe_integer_Some in Ev as [-> _]. inv_ok. bool_prop.
  split; [done|]. split; [lia|].
  pose proof (quot_floor (netOutput a * (10000 - slip) + 9999) 10000 ltac:(nia) ltac:(lia)) as (Hq1 & Hq2 & _).
  match goal with He : (minimumOutput a =? _) = true |- _ => apply Z.eqb_eq in He; rewrite He in * end.
  split; [split; [lia|nia]|]. intros m. split; nia.
Qed.

Lemma normalizeQuote_terms raw n : normalizeQuote raw = Ok n ->
  exists a fees slip issued expires, disclosed n a fees slip issued expires /\ accounted a fees /\
    0 <= slip < 10000 /\ 0 < issued < expires /\ 0 < a.(minimumOutput) <= a.(netOutput) /\
    (forall m, a.(minimumOutput) <= m <-> a.(netOutput) * (10000 - slip) <= m * 10000) /\
    exists li lo, ASSET_AMOUNT_LIMITS (n.@"input_asset") = Some li /\
      ASSET_AMOUNT_LIMITS (n.@"output_asset") = Some lo /\
      a.(grossInput) <= li /\ a.(grossOutput) <= lo.
Proof.
  unfold normalizeQuote. intros Hs. apply bind_Ok in Hs as (quote & _ & Hs).
  apply bind_Ok in Hs as (u & _ & Hs). apply bind_Ok in Hs as (a & Ha & Hs).
  apply bind_Ok in Hs as (fees & Hf & Hs). apply bind_Ok in Hs as (u' & Hac & Hs).
  apply bind_Ok in Hs as (slip & Hsl & Hs). apply bind_Ok in Hs as (iss & Hi & Hs).
  apply bind_Ok in Hs as (ex & He & Hs). unfold safeMs in Hi, He.
  destruct (as_safe_integer (quote.@"issued_at_ms")) as [zi|]; [|discriminate].
  destruct (as_safe_integer (quote.@"expires_at_ms")) as [ze|]; [|discriminate].
  unfold quoteAmounts in Ha. inv_ok.
  repeat match goal with Hz : assetAmount _ _ _ _ = Ok _ |- _ =>
    apply assetAmount_Ok in Hz as (? & ? & ? & ? & ?) end.
  simplify_eq. eapply checkAccounting_Ok in Hf; [|exact Hac|simpl in *; auto with lia..].
  apply checkSlippage_Ok in Hsl as (_ & Hsl & Hmin & Hm); [|simpl in *; auto].
  eexists _, _, slip, iss, ex. split; [by constructor|]. split; [exact Hf|]. split; [done|].
  split; [lia|]. split; [done|]. split; [exact Hm|]. simpl.
  eexists _, _. split; [eassumption|]. split; [eassumption|]. lia.
Qed.

Lemma disclosure_field n k : In k QUOTE_KEYS -> n.@k <> JUndefined -> (renderDisclosure n).@k = n.@k.
Proof.
  intros Hk Hn. destruct n as [| | | | | |fs]; try done. unfold renderDisclosure. cbn [prop assoc app] in *.
  destruct (String.eqb_spec "marker" k) as [<-|_].
  { simpl in Hk. repeat (destruct Hk as [Hk|Hk]; [discriminate|]). done. }
  induction fs as [|[k' v] fs IH]; cbn [assoc app] in *; [done|]. destruct (String.eqb k' k); [done|by apply IH].
Qed.

(** ** The order of keys and fee components *)

(** Two submissions of one quote: the keys in any order, the fee components in any
    order, every other field the same. *)
Definition same_quote (raw raw' : json) : Prop :=
  (exists fs, raw' = JObj fs) /\ same_keys raw' QUOTE_KEYS = true /\
  (forall k, k ∈ removelast QUOTE_KEYS -> raw'.@k = raw.@k) /\
  exists comps comps', raw.@"fee_components" = JArr comps /\ raw'.@"fee_components" = JArr comps' /\
    comps ≡ₚ comps'.

(** A snapshot of a quote with given fee components. *)
Definition quote_with (raw : json) (comps : list json) : json :=
  JObj (map (fun k => (k, raw.@k)) (removelast QUOTE_KEYS) ++ ["fee_components" ~> JArr comps]).

Lemma quote_snapshot raw comps : raw.@"fee_components" = JArr comps ->
  JObj (map (fun k => (k, raw.@k)) QUOTE_KEYS) = quote_with raw comps.
Proof. intros Hc. unfold quote_with. by rewrite <- Hc. Qed.

Lemma quote_with_prop raw comps k : existsb (String.eqb k) (removelast QUOTE_KEYS) = true ->
  (quote_with raw comps).@k = raw.@k.
Proof.
  intros (k' & Hin & <-%String.eqb_eq)%existsb_exists. unfold quote_with. cbn [prop].
  induction (removelast QUOTE_KEYS) as [|k' ks IH]; [done|]. cbn [map app assoc].
  destruct (String.eqb_spec k' k) as [->|Hne]; [done|]. apply IH. by destruct Hin.
Qed.

Ltac quote_with_fields := rewrite !quote_with_prop by reflexivity.

Lemma checkBinding_with raw comps comps' :
  checkBinding (quote_with raw comps) = checkBinding (quote_with raw comps').
Proof. unfold checkBinding, expectedUnits. cbn [existsb]. quote_with_fields.
  destruct (raw.@"direction" === "wc_to_void"); cbn [existsb fst]; by quote_with_fields.
Qed.

Lemma quoteAmounts_with raw comps comps' :
  quoteAmounts (quote_with raw comps) = quoteAmounts (quote_with raw comps').
Proof. unfold quoteAmounts. by quote_with_fields. Qed.

Lemma renderNormalized_with raw comps comps' a slip iss ex fees :
  renderNormalized (quote_with raw comps) a slip iss ex fees =
  renderNormalized (quote_with raw comps') a slip iss ex fees.
Proof. unfold renderNormalized. by quote_with_fields. Qed.

Lemma normalizeQuote_same raw raw' n : same_quote raw raw' -> normalizeQuote raw = Ok n ->
  normalizeQuote raw' = Ok n.
Proof.
  intros (Ho & Hk & Hf & comps & comps' & Hc & Hc' & Hp). unfold normalizeQuote. intros Hs.
  apply bind_Ok in Hs as (quote & (_ & _ & ->)%snapshotExact_Ok & Hs).
  rewrite (proj2 (snapshotExact_Ok raw' _ _ _) (conj Ho (conj Hk eq_refl))). cbn [mbind res_bind].
  rewrite (quote_snapshot _ _ Hc) in Hs. rewrite (quote_snapshot _ _ Hc').
  assert (quote_with raw' comps' = quote_with raw comps') as ->.
  { unfold quote_with. do 2 f_equal. apply List.map_ext_in. intros k Hin%list_elem_of_In. by rewrite Hf. }
  rewrite (checkBinding_with raw comps' comps), (quoteAmounts_with raw comps' comps).
  destruct (checkBinding (quote_with raw comps)); [|discriminate]. cbn [mbind res_bind] in Hs |- *.
  destruct (quoteAmounts (quote_with raw comps)) as [amounts|]; [|discriminate]. cbn [mbind res_bind] in Hs |- *.
  apply bind_Ok in Hs as (fees & Hfees & Hs).
  change ((quote_with raw comps).@"fee_components") with (JArr comps) in Hfees.
  change ((quote_with raw comps').@"fee_components") with (JArr comps').
  apply (normalizeFeeComponents_perm _ _ _ _ _ Hp) in Hfees.
  rewrite !quote_with_prop in * by reflexivity. rewrite Hfees. cbn [mbind res_bind].
  repeat (apply bind_Ok in Hs as (? & Hx & Hs); rewrite Hx; cbn [mbind res_bind]; clear Hx).
  by rewrite (renderNormalized_with raw comps' comps).
Qed.

Section public_quote_facts.
Context {H : Digest}.

Lemma verifyDisclosure_Ok raw q : verifyWcVoidPublicQuoteDisclosureV1 raw = Ok q <->
  exists n i, normalizeQuote raw = Ok n /\ digest (quotePayload n) = Ok i /\
    n.@"quote_id" = JStr i /\ q = renderDisclosure n.
Proof.
  unfold verifyWcVoidPublicQuoteDisclosureV1. split.
  - intros Hs. inv_ok. js_eqs. eauto 6.
  - intros (n & i & Hn & Hi & Hq & ->). rewrite Hn; simpl. rewrite Hi; simpl. by rewrite Hq, strict_eq_str_refl.
Qed.

(** The terms of a verified disclosure, and its identity. *)
Lemma disclosure_terms raw q : verifyWcVoidPublicQuoteDisclosureV1 raw = Ok q ->
  exists a fees slip issued expires, disclosed q a fees slip issued expires /\ accounted a fees /\
    0 <= slip < 10000 /\ 0 < issued < expires /\ 0 < a.(minimumOutput) <= a.(netOutput) /\
    (forall m, a.(minimumOutput) <= m <-> a.(netOutput) * (10000 - slip) <= m * 10000) /\
    exists li lo, ASSET_AMOUNT_LIMITS (q.@"input_asset") = Some li /\
      ASSET_AMOUNT_LIMITS (q.@"output_asset") = Some lo /\
      a.(grossInput) <= li /\ a.(grossOutput) <= lo.
Proof.
  intros (n & i & Hn & _ & _ & ->)%verifyDisclosure_Ok.
  destruct (normalizeQuote_terms _ _ Hn) as (a & fees & slip & iss & ex & [] & Hr).
  exists a, fees, slip, iss, ex. split.
  - constructor; (rewrite disclosure_field; [done|simpl; tauto|unfold jint in *; congruence]).
  - destruct Hr as (Hac & Hsl & Hd & Hmin & Hm & li & lo & Hli & Hlo & Hb).
    do 5 (split; [done|]). exists li, lo.
    rewrite !disclosure_field; [done|simpl; tauto| |simpl; tauto|];
      intros E; rewrite E in *; discriminate.
Qed.

Lemma disclosure_id raw q : verifyWcVoidPublicQuoteDisclosureV1 raw = Ok q ->
  exists i, q.@"quote_id" = JStr i.
Proof.
  intros (n & i & _ & _ & Hq & ->)%verifyDisclosure_Ok. exists i.
  rewrite disclosure_field; [done|simpl; tauto|congruence].
Qed.

(** A disclosure hides nothing: on each side the gross amount is the traded
    amount plus all disclosed fees of that side, every fee is positive and named
    once, amounts stay within the supply of their asset, the promised minimum output
    is the smallest amount within the disclosed slippage (and at most the net
    output), and the quote expires after it was issued. *)
Theorem public_quote_accounting raw q : verifyWcVoidPublicQuoteDisclosureV1 raw = Ok q ->
  exists a fees slip issued expires, disclosed q a fees slip issued expires /\ accounted a fees /\
    0 <= slip < 10000 /\ 0 < issued < expires /\ 0 < a.(minimumOutput) <= a.(netOutput) /\
    (forall m, a.(minimumOutput) <= m <-> a.(netOutput) * (10000 - slip) <= m * 10000) /\
    exists li lo, ASSET_AMOUNT_LIMITS (q.@"input_asset") = Some li /\
      ASSET_AMOUNT_LIMITS (q.@"output_asset") = Some lo /\
      a.(grossInput) <= li /\ a.(grossOutput) <= lo.
Proof. apply disclosure_terms. Qed.

(** The identity of a quote is canonical: neither the order of its keys nor the
    order in which its fee components are listed changes the verdict or the verified
    disclosure. *)
Theorem public_quote_order_independent raw raw' q : same_quote raw raw' ->
  verifyWcVoidPublicQuoteDisclosureV1 raw = Ok q -> verifyWcVoidPublicQuoteDisclosureV1 raw' = Ok q.
Proof.
  rewrite !verifyDisclosure_Ok. intros Hsame (n & i & Hn & Hi & Hq & ->).
  exists n, i. split; [by apply (normalizeQuote_same raw)|done].
Qed.
End public_quote_facts.

(** ** A quote with two fees *)

#[local] Existing Instance poly256 | 0.

Definition sample_sha (tag : string) : string :=
  "sha256:0000000000000000000000000000000000000000000000000000000000000" +:+ tag.

Definition sample_fee (code side asset amount : string) : json :=
  JObj ["code" ~> code; "side" ~> side; "asset" ~> asset; "amount" ~> amount].

(** 1,000,000 VOID atoms against 500 WC gross, 490 WC net. *)
Definition sample_quote (id : string) (fees : list json) : json :=
  JObj [
    "schema" ~> VOID_WC_VOID_PUBLIC_QUOTE_SCHEMA_V1;
    "quote_id" ~> id;
    "coupled_launch_id" ~> sample_sha "001";
    "market_state_id" ~> sample_sha "002";
    "pair" ~> "WC_VOID";
    "direction" ~> "void_to_wc";
    "chain_id" ~> jint 2050;
    "network_identity" ~> "mainnet0";
    "execution_epoch" ~> jint 2;
    "void_token" ~> "0x470075b85352eb86f7d089fb9ba88945f12aad94";
    "pricing_source" ~> "wc_void_market_state";
    "presale_price_authority" ~> false;
    "fixed_conversion" ~> false;
    "input_asset" ~> "VOID";
    "input_unit" ~> "void_token_atom";
    "output_asset" ~> "WC";
    "output_unit" ~> "wc";
    "gross_input_amount" ~> "1000000";
    "trade_input_amount" ~> "995000";
    "input_fee_amount" ~> "5000";
    "gross_output_amount" ~> "500";
    "output_fee_amount" ~> "10";
    "net_output_amount" ~> "490";
    "minimum_output_amount" ~> "486";
    "slippage_bps" ~> jint 100;
    "issued_at_ms" ~> jint 1000;
    "expires_at_ms" ~> jint 2000;
    "native_gas_model" ~> "epoch2_metered_zero_gas_price_v1";
    "gas_metering_required" ~> true;
    "participant_native_gas_balance_required" ~> false;
    "native_gas_economic_charge_atoms" ~> "0";
    "fee_components" ~> JArr fees].

Definition sample_fees : list json :=
  [sample_fee "protocol" "input" "VOID" "5000"; sample_fee "maker" "output" "WC" "10"].

Definition sample_quote_id : string := Eval vm_compute in
  match wcVoidPublicQuoteDisclosureIdV1 (sample_quote (sample_sha "000") sample_fees) with
  | Ok i => i | Throw e => e end.

Definition sample_public_quote : json := sample_quote sample_quote_id sample_fees.

Lemma public_quote_accounting_witness :
  match verifyWcVoidPublicQuoteDisclosureV1 sample_public_quote with
  | Ok q => exists a fees, q.@"minimum_output_amount" = JStr (dec a.(minimumOutput)) /\ accounted a fees
  | Throw _ => False
  end.
Proof.
  run_ok (verifyWcVoidPublicQuoteDisclosureV1 sample_public_quote) E.
  destruct (public_quote_accounting _ _ E) as (a & fees & slip & iss & ex & Hd & Ha & _).
  exists a, fees. split; [exact (di_minimum _ _ _ _ _ _ Hd)|exact Ha].
Defined.

Lemma public_quote_order_independent_witness :
  match verifyWcVoidPublicQuoteDisclosureV1 sample_public_quote with
  | Ok q => verifyWcVoidPublicQuoteDisclosureV1 (sample_quote sample_quote_id (reverse sample_fees)) = Ok q
  | Throw _ => False
  end.
Proof.
  run_ok (verifyWcVoidPublicQuoteDisclosureV1 sample_public_quote) E.
  refine (public_quote_order_independent _ _ _ _ E).
  split; [eexists; reflexivity|]. split; [vm_compute; reflexivity|]. split.
  - intros k Hk. apply list_elem_of_In in Hk. simpl in Hk.
    repeat (destruct Hk as [<-|Hk]; [reflexivity|]). destruct Hk.
  - exists sample_fees, (reverse sample_fees). split; [reflexivity|]. split; [reflexivity|].
    symmetry. apply reverse_Permutation.
Defined.
