(* ===== verification/ReverseSettlement.v ===== *)
(** * Reverse settlement of the WC/VOID market

    Model of [tools/void-wc-void-reverse-settlement-v1.mjs]: the check that lets a
    participant who sold VOID be credited work credits.  It ties together a public
    quote, the ERC-20 transfer transaction (decoded from its calldata), the receipt
    with exactly one transfer log of the token, and the ledger credit that names them
    all. *)

From Stdlib Require Import Ascii.
From S2P Require Import Prelude Js JsText CanonicalJson Sha256 PublicQuote.

Definition VOID_WC_VOID_REVERSE_SETTLEMENT_V1 : string := "VOID_WC_VOID_REVERSE_SETTLEMENT_V1".
Definition VOID_WC_VOID_REVERSE_SETTLEMENT_ADAPTER_ID_V1 : string := "void-wc-ledger-reverse-settlement-v1".
Definition VOID_WC_VOID_REVERSE_SETTLEMENT_POLICY_SCHEMA_V1 : string :=
  "void.wc-void-reverse-settlement-policy.v1".

Definition REVERSE_SETTLEMENT_POLICY_PAYLOAD : json :=
  JObj [
    "schema" ~> VOID_WC_VOID_REVERSE_SETTLEMENT_POLICY_SCHEMA_V1;
    "version" ~> jint 1;
    "adapter_id" ~> VOID_WC_VOID_REVERSE_SETTLEMENT_ADAPTER_ID_V1;
    "pair" ~> "WC_VOID";
    "direction" ~> "void_to_wc";
    "canonical_void_token_required" ~> true;
    "participant_transfer_method" ~> "erc20_transfer";
    "transfer_recipient" ~> "market_vault";
    "transfer_amount_basis" ~> "gross_void_input";
    "exact_one_transfer_log_required" ~> true;
    "credit_kind" ~> "credit";
    "credit_reason" ~> "wc_void_reverse_settlement_v1";
    "credit_amount_basis" ~> "net_wc_output";
    "source_domain" ~> "void-work-credit-ledger";
    "quote_asset_form" ~> "ledger-credit";
    "quote_unit" ~> "wc";
    "quote_decimals" ~> jint 0;
    "native_gas_model" ~> "epoch2_metered_zero_gas_price_v1";
    "participant_native_gas_balance_required" ~> false;
    "native_gas_economic_charge_atoms" ~> "0";
    "fixed_conversion" ~> false;
    "presale_price_authority" ~> false;
    "authenticated_quote_envelope_required" ~> true;
    "pricing_math_verified" ~> false;
    "quote_publisher_authenticity_verified" ~> false;
    "receipt_provenance_verified" ~> false;
    "market_vault_custody_verified" ~> false;
    "runtime_or_launch_evidence" ~> false;
    "source_only" ~> true].

Definition VOID_WC_VOID_REVERSE_SETTLEMENT_AUTHORITY_V1 : json :=
  JObj [
    "source_only" ~> true;
    "explicit_input_only" ~> true;
    "receipt_rpc_access" ~> false;
    "runtime_or_launch_evidence" ~> false;
    "receipt_provenance_verified" ~> false;
    "pricing_authority" ~> false;
    "quote_execution" ~> false;
    "ledger_write" ~> false;
    "wc_issuance" ~> false;
    "wc_balance_mutation" ~> false;
    "wallet_or_signer_access" ~> false;
    "private_key_access" ~> false;
    "transaction_construction" ~> false;
    "transaction_signing" ~> false;
    "transaction_broadcast" ~> false;
    "chain2050_write" ~> false;
    "inventory_funding" ~> false;
    "liquidity_movement" ~> false;
    "market_activation" ~> false;
    "public_presale_activation" ~> false;
    "funds_movement" ~> false].

Definition TOP_KEYS : list string :=
  ["quote"; "market_vault"; "wc_account"; "transaction"; "receipt"; "credit"]%string.
Definition TRANSACTION_KEYS : list string := ["hash"; "from"; "to"; "input"; "chainId"]%string.
Definition RECEIPT_KEYS : list string :=
  ["transactionHash"; "status"; "blockNumber"; "blockHash"; "logs"]%string.
Definition LOG_KEYS : list string := ["address"; "topics"; "data"; "logIndex"; "transactionHash"]%string.
Definition CREDIT_KEYS : list string :=
  ["kind"; "account"; "delta"; "ts_ms"; "reason"; "settlement_id"; "quote_id"; "coupled_launch_id";
   "market_state_id"; "participant_address"; "market_vault"; "void_transfer_tx_hash";
   "void_transfer_log_index"; "void_amount_atoms"; "wc_amount"; "market_meta"]%string.
Definition CREDIT_META_KEYS : list string :=
  ["adapter_id"; "pair"; "direction"; "source_domain"; "quote_asset_form"; "quote_unit";
   "quote_decimals"; "fixed_price"; "presale_price_authority"; "native_gas_model";
   "native_gas_economic_charge_atoms"]%string.

Definition MAX_RECEIPT_LOGS : Z := 1024.
Definition MAX_SAFE_WC : Z := MAX_SAFE_INTEGER.
Definition TRANSFER_SELECTOR : string := "a9059cbb".
Definition TRANSFER_TOPIC : string :=
  "0xddf252ad1be2c89b69c2b068fc378daa952ba7f163c4a11628f55a4df523b3ef".

(** ** Text *)

Definition ADDRESS : string -> bool := is_0x_hex 40.
Definition HASH : string -> bool := is_0x_hex 64.
Definition ABI_WORD : string -> bool := is_hex_digits 64.
Definition TRANSFER_CALLDATA : string -> bool := is_0x_hex 136.

(** 24 zeros and 40 hexadecimal digits. *)
Definition ABI_ADDRESS_WORD (s : string) : bool :=
  is_hex_digits 64 s && string_forallb (Ascii.eqb "0") (slice 0 24 s).

(** The hexadecimal quantity expression, in either case. *)
Definition HEX_QUANTITY (s : string) : bool :=
  (has_0x s || String.prefix "0X" s) &&
  match slice_from 2 s with
  | EmptyString => false
  | String c r =>
      (Ascii.eqb c "0" && String.eqb r EmptyString) ||
      (is_any_hex c && negb (Ascii.eqb c "0") && string_forallb is_any_hex r)
  end.

(** [BigInt("0x" + digits)] *)
Definition hex_digit_value (c : ascii) : Z :=
  let n := Z.of_N (N_of_ascii c) in
  if is_digit c then n - 48 else if in_range 97 102 c then n - 87 else n - 55.
Fixpoint hex_value_from (acc : Z) (s : string) : Z :=
  match s with
  | EmptyString => acc
  | String c s' => hex_value_from (acc * 16 + hex_digit_value c) s'
  end.
Definition BigIntHex (digits : string) : Z := hex_value_from 0 digits.

(** The safe account expression of the ledger. *)
Definition is_account_char (c : ascii) : bool :=
  in_range 65 90 c || in_range 97 122 c || is_digit c ||
  existsb (Ascii.eqb c) ["."; "_"; ":"; "@"; "-"]%char.
Definition SAFE_ACCOUNT (s : string) : bool :=
  (3 <=? String.length s)%nat && (String.length s <=? 128)%nat && string_forallb is_account_char s.

Definition ZERO_ADDRESS : string := "0x0000000000000000000000000000000000000000".

(** ** Checked fields *)

Definition snapshotArray (value : json) (max : Z) (code : string) : res (list json) :=
  match value with
  | JArr l => throw_if (Z.of_nat (length l) >? max) code;; Ok l
  | _ => Throw code
  end.

Definition normalizeAddress (value : json) (code : string) : res string :=
  match value with
  | JStr s =>
      throw_if (negb (is_0x_any_hex 40 s)) code;;
      let normalized := toLowerCase s in
      throw_if (negb (ADDRESS normalized) || String.eqb normalized ZERO_ADDRESS) code;;
      Ok normalized
  | _ => Throw code
  end.

Definition decodeAbiAddressWord (word code : string) : res string :=
  throw_if (negb (ABI_ADDRESS_WORD word)) code;;
  normalizeAddress (JStr ("0x" +:+ slice_from 24 word)) code.

Definition decodeAbiUintWord (word code : string) : res Z :=
  throw_if (negb (ABI_WORD word)) code;;
  Ok (BigIntHex word).

Definition decodeTransferCalldata (value : json) : res (string * Z) :=
  match value with
  | JStr s =>
      let input := toLowerCase s in
      throw_if (negb (TRANSFER_CALLDATA input) || negb (String.eqb (slice 2 10 input) TRANSFER_SELECTOR))
        "WC_VOID_REVERSE_TRANSACTION_NOT_TRANSFER";;
      let payload := slice_from 10 input in
      to ← decodeAbiAddressWord (slice 0 64 payload) "INVALID_WC_VOID_REVERSE_TRANSFER_TO";
      amount ← decodeAbiUintWord (slice 64 128 payload) "INVALID_WC_VOID_REVERSE_TRANSFER_AMOUNT";
      Ok (to, amount)
  | _ => Throw "INVALID_WC_VOID_REVERSE_TRANSACTION_INPUT"
  end.

Definition decodeTransferTopicAddress (value : json) (code : string) : res string :=
  match value with
  | JStr s =>
      let topic := toLowerCase s in
      throw_if (negb (is_0x_hex 64 topic)) code;;
      decodeAbiAddressWord (slice_from 2 topic) code
  | _ => Throw code
  end.

Definition decodeTransferData (value : json) : res Z :=
  match value with
  | JStr s =>
      let data := toLowerCase s in
      throw_if (negb (is_0x_hex 64 data)) "WC_VOID_REVERSE_TRANSFER_LOG_DECODE_FAILED";;
      decodeAbiUintWord (slice_from 2 data) "WC_VOID_REVERSE_TRANSFER_LOG_DECODE_FAILED"
  | _ => Throw "WC_VOID_REVERSE_TRANSFER_LOG_DECODE_FAILED"
  end.

Definition normalizeHash (value : json) (code : string) : res string :=
  match value with
  | JStr s =>
      let normalized := toLowerCase s in
      throw_if (negb (HASH normalized)) code;;
      Ok normalized
  | _ => Throw code
  end.

Definition canonicalUint (value : json) (code : string) (positive : bool) : res Z :=
  match value with
  | JStr s =>
      throw_if (negb (is_canonical_decimal s)) code;;
      let parsed := BigInt s in
      throw_if (positive && (parsed <=? 0)) code;;
      Ok parsed
  | _ => Throw code
  end.

Definition quantity (value : json) (code : string) (positive : bool) : res Z :=
  parsed ← match value with
    | JNum _ =>
        match as_safe_integer value with
        | Some z => throw_if (z <? 0) code;; Ok z
        | None => Throw code
        end
    | JStr s =>
        if HEX_QUANTITY s then Ok (BigIntHex (slice_from 2 s))
        else if is_canonical_decimal s then Ok (BigInt s)
        else Throw code
    | _ => Throw code
    end;
  throw_if (positive && (parsed <=? 0)) code;;
  Ok parsed.

Definition normalizeWcAccount (value : json) : res string :=
  match value with
  | JStr s => throw_if (negb (SAFE_ACCOUNT s)) "INVALID_WC_VOID_REVERSE_WC_ACCOUNT";; Ok s
  | _ => Throw "INVALID_WC_VOID_REVERSE_WC_ACCOUNT"
  end.

(** Fields of a verified quote. *)
Definition text_of (v : json) : string := match v with JStr s => s | _ => EmptyString end.
Definition int_of (v : json) : Z := match v with JNum (NInt z) => z | _ => 0 end.

(** ** The transaction *)

Record TransferTx := mkTransferTx {
  tx_hash : string;
  tx_participant : string;
  tx_token : string;
  tx_vault : string;
  tx_amount : Z
}.

Definition parseTransferTransaction (raw quote : json) (marketVault : string) : res TransferTx :=
  tx ← snapshotExact raw TRANSACTION_KEYS "INVALID_WC_VOID_REVERSE_TRANSACTION_SHAPE";
  transactionHash ← normalizeHash (tx.@"hash") "INVALID_WC_VOID_REVERSE_TRANSACTION_HASH";
  participant ← normalizeAddress (tx.@"from") "INVALID_WC_VOID_REVERSE_PARTICIPANT_ADDRESS";
  token ← normalizeAddress (tx.@"to") "INVALID_WC_VOID_REVERSE_TRANSACTION_TO";
  throw_if (negb (String.eqb token (toLowerCase (text_of (quote.@"void_token")))))
    "WC_VOID_REVERSE_TRANSACTION_TOKEN_MISMATCH";;
  chainId ← quantity (tx.@"chainId") "INVALID_WC_VOID_REVERSE_TRANSACTION_CHAIN_ID" false;
  throw_if (negb (chainId =? int_of (quote.@"chain_id"))) "WC_VOID_REVERSE_TRANSACTION_CHAIN_ID_MISMATCH";;
  decoded ← decodeTransferCalldata (tx.@"input");
  let '(transferTo, transferAmount) := decoded in
  throw_if (negb (String.eqb transferTo marketVault)) "WC_VOID_REVERSE_TRANSFER_VAULT_MISMATCH";;
  throw_if (negb (transferAmount =? BigInt (text_of (quote.@"gross_input_amount"))))
    "WC_VOID_REVERSE_TRANSFER_AMOUNT_MISMATCH";;
  Ok (mkTransferTx transactionHash participant token marketVault transferAmount).

(** ** The receipt *)

Record TransferLog := mkTransferLog {
  lg_from : string;
  lg_to : string;
  lg_value : Z;
  lg_index : Z
}.

(** One iteration over the logs: a decoded transfer of the token, or [None] for a log
    that the loop skips. *)
Definition parseLog (tx : TransferTx) (quote rawLog : json) : res (option TransferLog) :=
  log ← snapshotExact rawLog LOG_KEYS "INVALID_WC_VOID_REVERSE_RECEIPT_LOG_SHAPE";
  logAddress ← normalizeAddress (log.@"address") "INVALID_WC_VOID_REVERSE_RECEIPT_LOG_ADDRESS";
  if negb (String.eqb logAddress (toLowerCase (text_of (quote.@"void_token")))) then Ok None else
  topics ← snapshotArray (log.@"topics") 3 "INVALID_WC_VOID_REVERSE_RECEIPT_TOPIC_SET";
  match topics with
  | JStr topic0 :: rest =>
      if negb (String.eqb (toLowerCase topic0) TRANSFER_TOPIC) then Ok None else
      match rest with
      | [topic1; topic2] =>
          logHash ← normalizeHash (log.@"transactionHash")
            "INVALID_WC_VOID_REVERSE_RECEIPT_LOG_TRANSACTION_HASH";
          throw_if (negb (String.eqb logHash tx.(tx_hash)))
            "WC_VOID_REVERSE_RECEIPT_LOG_TRANSACTION_MISMATCH";;
          from ← decodeTransferTopicAddress topic1 "INVALID_WC_VOID_REVERSE_TRANSFER_LOG_FROM";
          to ← decodeTransferTopicAddress topic2 "INVALID_WC_VOID_REVERSE_TRANSFER_LOG_TO";
          value ← decodeTransferData (log.@"data");
          log_index ← quantity (log.@"logIndex") "INVALID_WC_VOID_REVERSE_TRANSFER_LOG_INDEX" false;
          Ok (Some (mkTransferLog from to value log_index))
      | _ => Throw "WC_VOID_REVERSE_TRANSFER_LOG_DECODE_FAILED"
      end
  | _ => Ok None
  end.

Record TransferReceipt := mkTransferReceipt {
  rc_block_number : Z;
  rc_block_hash : string;
  rc_log_index : Z
}.

Definition parseTransferReceipt (raw : json) (tx : TransferTx) (quote : json) : res TransferReceipt :=
  receipt ← snapshotExact raw RECEIPT_KEYS "INVALID_WC_VOID_REVERSE_RECEIPT_SHAPE";
  receiptHash ← normalizeHash (receipt.@"transactionHash") "INVALID_WC_VOID_REVERSE_RECEIPT_TRANSACTION_HASH";
  throw_if (negb (String.eqb receiptHash tx.(tx_hash))) "WC_VOID_REVERSE_RECEIPT_TRANSACTION_MISMATCH";;
  status ← quantity (receipt.@"status") "INVALID_WC_VOID_REVERSE_RECEIPT_STATUS" false;
  throw_if (negb (status =? 1)) "WC_VOID_REVERSE_RECEIPT_NOT_SUCCESS";;
  blockNumber ← quantity (receipt.@"blockNumber") "INVALID_WC_VOID_REVERSE_RECEIPT_BLOCK_NUMBER" true;
  blockHash ← normalizeHash (receipt.@"blockHash") "INVALID_WC_VOID_REVERSE_RECEIPT_BLOCK_HASH";
  logs ← snapshotArray (receipt.@"logs") MAX_RECEIPT_LOGS "INVALID_WC_VOID_REVERSE_RECEIPT_LOG_SET";
  parsed ← map_res (parseLog tx quote) logs;
  match omap id parsed with
  | [transfer] =>
      throw_if (negb (String.eqb transfer.(lg_from) tx.(tx_participant)))
        "WC_VOID_REVERSE_TRANSFER_LOG_FROM_MISMATCH";;
      throw_if (negb (String.eqb transfer.(lg_to) tx.(tx_vault))) "WC_VOID_REVERSE_TRANSFER_LOG_TO_MISMATCH";;
      throw_if (negb (String.eqb (dec transfer.(lg_value)) (text_of (quote.@"gross_input_amount"))))
        "WC_VOID_REVERSE_TRANSFER_LOG_VALUE_MISMATCH";;
      Ok (mkTransferReceipt blockNumber blockHash transfer.(lg_index))
  | _ => Throw "WC_VOID_REVERSE_EXACT_ONE_TRANSFER_LOG_REQUIRED"
  end.

(** ** The settlement *)

Record Core := mkCore {
  co_credit : json;
  co_quote : json;
  co_account : string;
  co_tx : TransferTx;
  co_receipt : TransferReceipt
}.

Definition settlementPayload (core : Core) : json :=
  let quote := core.(co_quote) in
  JObj [
    "schema" ~> "void.wc-void-reverse-settlement.v1";
    "quote_id" ~> quote.@"quote_id";
    "coupled_launch_id" ~> quote.@"coupled_launch_id";
    "market_state_id" ~> quote.@"market_state_id";
    "chain_id" ~> quote.@"chain_id";
    "execution_epoch" ~> quote.@"execution_epoch";
    "void_token" ~> quote.@"void_token";
    "participant_address" ~> core.(co_tx).(tx_participant);
    "market_vault" ~> core.(co_tx).(tx_vault);
    "void_transfer_tx_hash" ~> core.(co_tx).(tx_hash);
    "void_transfer_log_index" ~> dec core.(co_receipt).(rc_log_index);
    "void_transfer_block_number" ~> dec core.(co_receipt).(rc_block_number);
    "void_transfer_block_hash" ~> core.(co_receipt).(rc_block_hash);
    "gross_void_input_atoms" ~> quote.@"gross_input_amount";
    "trade_void_input_atoms" ~> quote.@"trade_input_amount";
    "input_fee_void_atoms" ~> quote.@"input_fee_amount";
    "gross_wc_output_units" ~> quote.@"gross_output_amount";
    "output_fee_wc_units" ~> quote.@"output_fee_amount";
    "net_wc_credit_units" ~> quote.@"net_output_amount";
    "native_gas_model" ~> quote.@"native_gas_model";
    "native_gas_economic_charge_atoms" ~> quote.@"native_gas_economic_charge_atoms"].

(** [for (const [key, expected] of pairs) if (value[key] !== expected) fail(prefix + key)] *)
Fixpoint requireFields (prefix : string) (value : json) (pairs : list (string * json)) : res unit :=
  match pairs with
  | [] => Ok tt
  | (key, expected) :: pairs' =>
      throw_if (value.@key !== expected) (prefix +:+ key);;
      requireFields prefix value pairs'
  end.

Definition creditPairs (core : Core) : list (string * json) :=
  let quote := core.(co_quote) in
  ["quote_id" ~> quote.@"quote_id";
   "coupled_launch_id" ~> quote.@"coupled_launch_id";
   "market_state_id" ~> quote.@"market_state_id";
   "participant_address" ~> core.(co_tx).(tx_participant);
   "market_vault" ~> core.(co_tx).(tx_vault);
   "void_transfer_tx_hash" ~> core.(co_tx).(tx_hash);
   "void_transfer_log_index" ~> dec core.(co_receipt).(rc_log_index);
   "void_amount_atoms" ~> quote.@"gross_input_amount";
   "wc_amount" ~> quote.@"net_output_amount"].

Definition expectedMeta : list (string * json) :=
  ["adapter_id" ~> VOID_WC_VOID_REVERSE_SETTLEMENT_ADAPTER_ID_V1;
   "pair" ~> "WC_VOID";
   "direction" ~> "void_to_wc";
   "source_domain" ~> "void-work-credit-ledger";
   "quote_asset_form" ~> "ledger-credit";
   "quote_unit" ~> "wc";
   "quote_decimals" ~> jint 0;
   "fixed_price" ~> false;
   "presale_price_authority" ~> false;
   "native_gas_model" ~> EXECUTION_BINDING.@"native_gas_model";
   "native_gas_economic_charge_atoms" ~> "0"].

Definition verifyCredit (core : Core) (settlementId : string) : res json :=
  credit ← snapshotExact core.(co_credit) CREDIT_KEYS "INVALID_WC_VOID_REVERSE_CREDIT_SHAPE";
  meta ← snapshotExact (credit.@"market_meta") CREDIT_META_KEYS "INVALID_WC_VOID_REVERSE_CREDIT_META_SHAPE";
  throw_if (credit.@"kind" !== "credit") "WC_VOID_REVERSE_CREDIT_KIND_MISMATCH";;
  throw_if (credit.@"account" !== JStr core.(co_account)) "WC_VOID_REVERSE_CREDIT_ACCOUNT_MISMATCH";;
  wc ← canonicalUint (core.(co_quote).@"net_output_amount") "INVALID_WC_VOID_REVERSE_NET_WC" true;
  throw_if (wc >? MAX_SAFE_WC) "WC_VOID_REVERSE_NET_WC_EXCEEDS_SAFE_LEDGER_DELTA";;
  delta ← match as_safe_integer (credit.@"delta") with
    | Some delta =>
        throw_if ((delta <=? 0) || negb (delta =? wc)) "WC_VOID_REVERSE_CREDIT_DELTA_MISMATCH";;
        Ok delta
    | None => Throw "WC_VOID_REVERSE_CREDIT_DELTA_MISMATCH"
    end;
  _ ← safeMs (credit.@"ts_ms") "INVALID_WC_VOID_REVERSE_CREDIT_TS_MS";
  throw_if (credit.@"reason" !== "wc_void_reverse_settlement_v1") "WC_VOID_REVERSE_CREDIT_REASON_MISMATCH";;
  _ ← canonicalSha (credit.@"settlement_id") "INVALID_WC_VOID_REVERSE_SETTLEMENT_ID";
  throw_if (credit.@"settlement_id" !== JStr settlementId) "WC_VOID_REVERSE_SETTLEMENT_ID_MISMATCH";;
  requireFields "WC_VOID_REVERSE_CREDIT_BINDING_MISMATCH:" credit (creditPairs core);;
  requireFields "WC_VOID_REVERSE_CREDIT_META_MISMATCH:" meta expectedMeta;;
  Ok (JObj (["kind" ~> "credit"] ++
    map (fun key => (key, credit.@key))
      ["account"; "delta"; "ts_ms"; "reason"; "settlement_id"; "quote_id"; "coupled_launch_id";
       "market_state_id"; "participant_address"; "market_vault"; "void_transfer_tx_hash";
       "void_transfer_log_index"; "void_amount_atoms"; "wc_amount"]%string ++
    ["market_meta" ~> meta])).

Definition renderSettlement (core : Core) (settlementId : string) (credit : json) : json :=
  let quote := core.(co_quote) in
  JObj [
    "marker" ~> VOID_WC_VOID_REVERSE_SETTLEMENT_V1;
    "settlement_id" ~> settlementId;
    "quote_id" ~> quote.@"quote_id";
    "coupled_launch_id" ~> quote.@"coupled_launch_id";
    "market_state_id" ~> quote.@"market_state_id";
    "participant_address" ~> core.(co_tx).(tx_participant);
    "market_vault" ~> core.(co_tx).(tx_vault);
    "void_token" ~> quote.@"void_token";
    "void_transfer_tx_hash" ~> core.(co_tx).(tx_hash);
    "void_transfer_log_index" ~> dec core.(co_receipt).(rc_log_index);
    "void_transfer_block_number" ~> dec core.(co_receipt).(rc_block_number);
    "gross_void_input_atoms" ~> quote.@"gross_input_amount";
    "trade_void_input_atoms" ~> quote.@"trade_input_amount";
    "input_fee_void_atoms" ~> quote.@"input_fee_amount";
    "gross_wc_output_units" ~> quote.@"gross_output_amount";
    "output_fee_wc_units" ~> quote.@"output_fee_amount";
    "net_wc_credit_units" ~> quote.@"net_output_amount";
    "wc_account" ~> core.(co_account);
    "credit" ~> credit;
    "reverse_void_to_wc_settlement_source_ready" ~> true;
    "exact_quote_transfer_credit_binding" ~> true;
    "transaction_transfer_calldata_verified" ~> true;
    "transaction_receipt_semantics_verified" ~> true;
    "exact_one_canonical_voidtoken_transfer_verified" ~> true;
    "canonical_wc_balance_credit_compatible" ~> true;
    "zero_native_gas_economic_charge_bound" ~> true;
    "pricing_math_verified" ~> quote.@"pricing_math_verified";
    "quote_publisher_authenticity_verified" ~> quote.@"publisher_authenticity_verified";
    "authenticated_quote_envelope_required" ~> quote.@"authenticated_quote_envelope_required";
    "market_vault_custody_verified" ~> false;
    "receipt_provenance_verified" ~> false;
    "runtime_or_launch_evidence" ~> false;
    "ledger_write_performed" ~> false;
    "wc_balance_mutation_performed" ~> false;
    "transaction_constructed" ~> false;
    "transaction_signed" ~> false;
    "transaction_broadcast" ~> false;
    "token_transfer_performed_by_this_verifier" ~> false;
    "market_activation_authority" ~> false;
    "public_presale_activation_authority" ~> false;
    "funds_movement_authority" ~> false;
    "authority" ~> VOID_WC_VOID_REVERSE_SETTLEMENT_AUTHORITY_V1].

Section reverse_settlement.
Context {H : Digest}.

(** [VOID_WC_VOID_REVERSE_SETTLEMENT_POLICY_V1] *)
Definition REVERSE_SETTLEMENT_POLICY : res json :=
  policy_id ← digest REVERSE_SETTLEMENT_POLICY_PAYLOAD;
  Ok (extend REVERSE_SETTLEMENT_POLICY_PAYLOAD "policy_id" (JStr policy_id)).

Definition normalizeCore (raw : json) : res Core :=
  input ← snapshotExact raw TOP_KEYS "INVALID_WC_VOID_REVERSE_SETTLEMENT_SHAPE";
  quote ← verifyWcVoidPublicQuoteDisclosureV1 (input.@"quote");
  throw_if ((quote.@"direction" !== "void_to_wc") || (quote.@"input_asset" !== "VOID") ||
      (quote.@"input_unit" !== "void_token_atom") || (quote.@"output_asset" !== "WC") ||
      (quote.@"output_unit" !== "wc"))
    "WC_VOID_REVERSE_SETTLEMENT_DIRECTION_MISMATCH";;
  throw_if ((quote.@"native_gas_model" !== EXECUTION_BINDING.@"native_gas_model") ||
      (quote.@"gas_metering_required" !== true) ||
      (quote.@"participant_native_gas_balance_required" !== false) ||
      (quote.@"native_gas_economic_charge_atoms" !== "0"))
    "WC_VOID_REVERSE_SETTLEMENT_GAS_MODEL_MISMATCH";;
  wcAccount ← normalizeWcAccount (input.@"wc_account");
  marketVault ← normalizeAddress (input.@"market_vault") "INVALID_WC_VOID_REVERSE_MARKET_VAULT";
  tx ← parseTransferTransaction (input.@"transaction") quote marketVault;
  receipt ← parseTransferReceipt (input.@"receipt") tx quote;
  Ok (mkCore (input.@"credit") quote wcAccount tx receipt).

Definition wcVoidReverseSettlementIdV1 (value : json) : res string :=
  core ← normalizeCore value;
  digest (settlementPayload core).

Definition verifyWcVoidReverseSettlementV1 (value : json) : res json :=
  core ← normalizeCore value;
  settlementId ← digest (settlementPayload core);
  credit ← verifyCredit core settlementId;
  Ok (renderSettlement core settlementId credit).
End reverse_settlement.

(** ** Hexadecimal words *)

(** The [n] low hexadecimal digits of a number, most significant first. *)
Fixpoint hexN (n : nat) (z : Z) : string :=
  match n with
  | O => EmptyString
  | S n' => String (hex_digit (Z.to_N (z / 16 ^ Z.of_nat n' mod 16))) (hexN n' z)
  end.

Lemma pow16_succ n : 16 ^ Z.of_nat (S n) = 16 ^ Z.of_nat n * 16 /\ 0 < 16 ^ Z.of_nat n.
Proof. rewrite Nat2Z.inj_succ, Z.pow_succ_r by lia. split; [lia|]. apply Z.pow_pos_nonneg; lia. Qed.

Lemma hex_digit_sixteen d : 0 <= d < 16 ->
  hex_digit_value (hex_digit (Z.to_N d)) = d /\ is_lower_hex (hex_digit (Z.to_N d)) = true.
Proof.
  intros Hd. assert (d ∈ seqZ 0 16) as Hin by (apply elem_of_seqZ; lia).
  apply list_elem_of_In in Hin. change (seqZ 0 16) with [0;1;2;3;4;5;6;7;8;9;10;11;12;13;14;15] in Hin.
  repeat (destruct Hin as [<-|Hin]; [done|]). done.
Qed.

Lemma lower_hex_digit c : is_lower_hex c = true ->
  hex_digit (Z.to_N (hex_digit_value c)) = c /\ 0 <= hex_digit_value c < 16 /\ lower_char c = c.
Proof. destruct c as [[][][][][][][][]]; intros Hc; try discriminate Hc; vm_compute; repeat split; congruence. Qed.

Lemma hexN_length n z : String.length (hexN n z) = n.
Proof. induction n; simpl; congruence. Qed.

Lemma hexN_lower n z : string_forallb is_lower_hex (hexN n z) = true.
Proof.
  induction n; simpl; [done|]. rewrite IHn.
  by rewrite (proj2 (hex_digit_sixteen _ (Z.mod_pos_bound _ 16 ltac:(lia)))).
Qed.

Lemma hexN_value n z acc :
  hex_value_from acc (hexN n z) = acc * 16 ^ Z.of_nat n + z mod 16 ^ Z.of_nat n.
Proof.
  revert acc. induction n as [|n IH]; intros acc; [simpl; rewrite Z.mod_1_r; lia|].
  simpl hexN. simpl hex_value_from. rewrite IH.
  rewrite (proj1 (hex_digit_sixteen _ (Z.mod_pos_bound _ 16 ltac:(lia)))).
  destruct (pow16_succ n) as [-> ?]. rewrite (Z.rem_mul_r z) by lia. lia.
Qed.

Lemma hexN_shift n k v : hexN n (k * 16 ^ Z.of_nat n + v) = hexN n v.
Proof.
  revert k. induction n as [|n IH]; intros k; [done|]. simpl hexN.
  destruct (pow16_succ n) as [-> ?].
  replace (k * (16 ^ Z.of_nat n * 16) + v) with (k * 16 * 16 ^ Z.of_nat n + v) by lia.
  rewrite IH. f_equal. do 2 f_equal.
  rewrite Z.div_add_l by lia. rewrite (Z.add_comm (k * 16)). by rewrite Z_mod_plus_full.
Qed.

Lemma hex_value_bound w acc : string_forallb is_lower_hex w = true ->
  exists v, 0 <= v < 16 ^ Z.of_nat (String.length w) /\
    hex_value_from acc w = acc * 16 ^ Z.of_nat (String.length w) + v /\ hexN (String.length w) v = w.
Proof.
  revert acc. induction w as [|c w IH]; intros acc Hw; simpl in Hw.
  { exists 0. simpl. split; [lia|]. split; [lia|done]. }
  bool_prop. destruct (lower_hex_digit c) as (Hc & Hb & _); [done|].
  destruct (IH (acc * 16 + hex_digit_value c)) as (v & Hv & Hval & Hhex); [done|].
  exists (hex_digit_value c * 16 ^ Z.of_nat (String.length w) + v).
  cbn [String.length]. destruct (pow16_succ (String.length w)) as [-> Hp].
  split; [nia|]. split; [simpl; rewrite Hval; ring|]. simpl hexN. rewrite hexN_shift, Hhex.
  rewrite Z.div_add_l, (Z.div_small v), Z.add_0_r, Z.mod_small, Hc by lia. done.
Qed.

(** Reading and writing a word are inverse. *)
Lemma hex_word_iff n w z : 0 <= z < 16 ^ Z.of_nat n ->
  is_hex_digits n w = true /\ BigIntHex w = z <-> w = hexN n z.
Proof.
  intros Hz. unfold is_hex_digits, BigIntHex. split.
  - intros [[Hl%Nat.eqb_eq Hh]%andb_true_iff Hv].
    destruct (hex_value_bound w 0 Hh) as (v & _ & Hv' & Hw). subst n.
    assert (v = z) as <- by lia. by rewrite Hw.
  - intros ->. rewrite hexN_length, hexN_lower, Nat.eqb_refl, hexN_value. split; [done|].
    rewrite Z.mod_small by done. lia.
Qed.

(** ** Transfer calldata *)

Fixpoint zeros (n : nat) : string :=
  match n with O => EmptyString | S n' => String "0" (zeros n') end.

Lemma zeros_iff s : string_forallb (Ascii.eqb "0") s = true <-> s = zeros (String.length s).
Proof.
  induction s as [|c s IH]; cbn [string_forallb zeros String.length]; [done|]. rewrite andb_true_iff, IH, Ascii.eqb_eq.
  split; [intros [<- ->]; f_equal|intros [= <- ?]; done].
  clear. induction (String.length s); simpl; congruence.
Qed.

Definition is_address (a : string) : Prop := ADDRESS a = true /\ a <> ZERO_ADDRESS.

(** The ABI encodings of an address and of a call of [transfer(to, amount)]. *)
Definition abiAddress (a : string) : string := zeros 24 +:+ slice_from 2 a.
Definition encodeTransfer (to : string) (amount : Z) : string :=
  "0x" +:+ TRANSFER_SELECTOR +:+ abiAddress to +:+ hexN 64 amount.

Lemma decodeAbiUintWord_Ok w code z :
  decodeAbiUintWord w code = Ok z <-> w = hexN 64 z /\ 0 <= z < 2 ^ 256.
Proof.
  change (2 ^ 256) with (16 ^ Z.of_nat 64). unfold decodeAbiUintWord, ABI_WORD. split.
  - intros Hz. inv_ok. bool_prop. rename H into Hw.
    assert (0 <= BigIntHex w < 16 ^ Z.of_nat 64) as Hb.
    { unfold is_hex_digits in Hw. apply andb_true_iff in Hw as [Hl%Nat.eqb_eq Hs].
      destruct (hex_value_bound w 0 Hs) as (v & Hv & Hval & _). rewrite Hl in *. unfold BigIntHex. lia. }
    split; [|done]. by apply hex_word_iff.
  - intros [Hw Hz]. apply (hex_word_iff 64 w z Hz) in Hw as [-> <-]. done.
Qed.

Lemma normalizeAddress_hex h code a : is_hex_digits 40 h = true ->
  normalizeAddress (JStr ("0x" +:+ h)) code = Ok a <-> a = "0x" +:+ h /\ a <> ZERO_ADDRESS.
Proof.
  intros Hh. pose proof Hh as [Hl%Nat.eqb_eq Hs]%andb_true_iff.
  unfold normalizeAddress, is_0x_any_hex, ADDRESS.
  change (slice_from 2 ("0x" +:+ h)) with (slice_from 0 h).
  assert (slice_from 0 h = h) as -> by (by destruct h).
  rewrite Hl, lower_any_hex by done.
  change (toLowerCase ("0x" +:+ h)) with ("0x" +:+ toLowerCase h). rewrite toLowerCase_hex by done.
  rewrite (proj2 (is_0x_hex_iff 40 ("0x" +:+ h))) by eauto.
  assert (has_0x ("0x" +:+ h) = true) as -> by (by destruct h).
  cbn [mbind res_bind throw_if andb orb negb Nat.eqb].
  destruct (String.eqb_spec ("0x" +:+ h) ZERO_ADDRESS) as [He|Hne]; cbn [mbind res_bind throw_if];
    split; try (intros [= <-]; done); try (intros [-> ?]; done).
Qed.

Lemma decodeAbiAddressWord_Ok w code a :
  decodeAbiAddressWord w code = Ok a <-> w = abiAddress a /\ is_address a.
Proof.
  unfold decodeAbiAddressWord, ABI_ADDRESS_WORD, abiAddress, is_address, ADDRESS. split.
  - intros Hs. apply bind_Ok in Hs as (u & Hw%throw_if_Ok & Hs). bool_prop.
    match goal with Hd : is_hex_digits 64 w = true |- _ =>
      apply (is_hex_digits_split 24 40) in Hd as (z & h & -> & Hz & Hh) end.
    apply hex_digits_length in Hz.
    rewrite (slice_0_app 24) in * by done. rewrite (slice_from_app_n 24) in Hs by done.
    apply (normalizeAddress_hex _ _ _ Hh) in Hs as [-> Hne].
    match goal with Hq : string_forallb _ z = true |- _ => apply zeros_iff in Hq; rewrite Hq, Hz end.
    split; [by destruct h|]. split; [|done]. apply is_0x_hex_iff. eauto.
  - intros (-> & (h & -> & Hh)%is_0x_hex_iff & Hne).
    assert (slice_from 2 ("0x" +:+ h) = h) as -> by (by destruct h).
    assert (is_hex_digits 64 (zeros 24 +:+ h) = true) as ->.
    { apply (is_hex_digits_split 24 40). exists (zeros 24), h. done. }
    change (slice 0 24 (zeros 24 +:+ h)) with (zeros 24). cbn [negb andb].
    change (slice_from 24 (zeros 24 +:+ h)) with (slice_from (String.length (zeros 24)) (zeros 24 +:+ h)).
    rewrite slice_from_app. change (string_forallb (Ascii.eqb "0") (zeros 24)) with true.
    cbn [negb andb throw_if mbind res_bind]. by apply normalizeAddress_hex.
Qed.

Lemma slice_second n m a b : String.length a = n -> String.length b = m -> slice n (n + m) (a +:+ b) = b.
Proof.
  intros Ha Hb. unfold slice. rewrite (slice_from_app_n n) by done.
  replace (n + m - n)%nat with (String.length b) by lia. rewrite <- (sapp_nil_r b) at 2. apply prefix_app.
Qed.

Lemma transfer_layout sel w1 w2 : is_hex_digits 8 sel = true -> is_hex_digits 64 w1 = true ->
  is_hex_digits 64 w2 = true ->
  let input := "0x" +:+ (sel +:+ (w1 +:+ w2)) in
  TRANSFER_CALLDATA input = true /\ slice 2 10 input = sel /\
  slice 0 64 (slice_from 10 input) = w1 /\ slice 64 128 (slice_from 10 input) = w2.
Proof.
  intros Hs H1 H2 input.
  assert (slice_from 10 input = w1 +:+ w2) as ->.
  { change (slice_from 10 input) with (slice_from 8 (sel +:+ (w1 +:+ w2))).
    apply slice_from_app_n. by apply hex_digits_length. }
  split; [|split; [|split]].
  - apply is_0x_hex_iff. eexists. split; [reflexivity|]. apply (is_hex_digits_split 8 128).
    exists sel, (w1 +:+ w2). split; [done|]. split; [done|]. apply (is_hex_digits_split 64 64). eauto.
  - change (slice 2 10 input) with (slice 0 8 (sel +:+ (w1 +:+ w2))).
    apply slice_0_app. by apply hex_digits_length.
  - apply slice_0_app. by apply hex_digits_length.
  - apply (slice_second 64 64); by apply hex_digits_length.
Qed.

Lemma transfer_layout_inv input : TRANSFER_CALLDATA input = true ->
  exists sel w1 w2, input = "0x" +:+ (sel +:+ (w1 +:+ w2)) /\ is_hex_digits 8 sel = true /\
    is_hex_digits 64 w1 = true /\ is_hex_digits 64 w2 = true.
Proof.
  intros (r & -> & Hr)%is_0x_hex_iff.
  apply (is_hex_digits_split 8 128) in Hr as (sel & p & -> & Hs & Hp).
  apply (is_hex_digits_split 64 64) in Hp as (w1 & w2 & -> & H1 & H2).
  exists sel, w1, w2. done.
Qed.

Lemma abiAddress_hex a : is_address a -> is_hex_digits 64 (abiAddress a) = true.
Proof.
  intros [(h & -> & Hh)%is_0x_hex_iff _]. apply (is_hex_digits_split 24 40).
  exists (zeros 24), h. split; [done|]. done.
Qed.

Lemma decodeTransferCalldata_Ok s to amount :
  decodeTransferCalldata (JStr s) = Ok (to, amount) <->
  toLowerCase s = encodeTransfer to amount /\ is_address to /\ 0 <= amount < 2 ^ 256.
Proof.
  unfold decodeTransferCalldata, encodeTransfer. split.
  - intros Hs. apply bind_Ok in Hs as (u & Hg%throw_if_Ok & Hs). bool_prop.
    match goal with Ht : TRANSFER_CALLDATA _ = true |- _ =>
      apply transfer_layout_inv in Ht as (sel & w1 & w2 & E & Hsel & H1 & H2) end.
    destruct (transfer_layout sel w1 w2 Hsel H1 H2) as (_ & E1 & E2 & E3). rewrite E, ?E1, ?E2, ?E3 in *.
    match goal with Hq : String.eqb _ _ = true |- _ => apply String.eqb_eq in Hq as -> end.
    apply bind_Ok in Hs as (a & [Ha Hadr]%decodeAbiAddressWord_Ok & Hs).
    apply bind_Ok in Hs as (z & [Hz Hb]%decodeAbiUintWord_Ok & Hs). injection Hs as -> ->.
    rewrite Ha, Hz. done.
  - intros (-> & Ha & Hz).
    destruct (transfer_layout TRANSFER_SELECTOR (abiAddress to) (hexN 64 amount)) as (-> & -> & -> & ->).
    { done. } { by apply abiAddress_hex. }
    { unfold is_hex_digits. by rewrite hexN_length, hexN_lower. }
    rewrite String.eqb_refl. cbn [negb orb throw_if mbind res_bind].
    rewrite (proj2 (decodeAbiAddressWord_Ok _ _ _)) by done. cbn [mbind res_bind].
    by rewrite (proj2 (decodeAbiUintWord_Ok _ _ amount)) by done.
Qed.

(** The calldata decoder is exact: it accepts an input as a transfer of [amount] to
    [to] if and only if the input, in lower case, is the ABI encoding of
    [transfer(to, amount)] for a nonzero address and a 256-bit amount; in particular
    decoding inverts encoding and nothing else decodes. *)
Theorem transfer_calldata_exact s to amount :
  decodeTransferCalldata (JStr s) = Ok (to, amount) <->
  toLowerCase s = encodeTransfer to amount /\ is_address to /\ 0 <= amount < 2 ^ 256.
Proof. apply decodeTransferCalldata_Ok. Qed.

(** ** Logs *)

Lemma normalizeAddress_Ok v code a : normalizeAddress v code = Ok a -> exists s, v = JStr s /\ a = toLowerCase s.
Proof. unfold normalizeAddress. destruct v; try discriminate. intros. inv_ok. eauto. Qed.

Lemma normalizeHash_Ok v code a : normalizeHash v code = Ok a -> exists s, v = JStr s /\ a = toLowerCase s.
Proof. unfold normalizeHash. destruct v; try discriminate. intros. inv_ok. eauto. Qed.

(** The token's transfer event, recognised by emitter and first topic. *)
Definition transfer_event (token : string) (log : json) : bool :=
  match log.@"address" with JStr a => String.eqb (toLowerCase a) token | _ => false end &&
  match log.@"topics" with JArr (JStr t :: _) => String.eqb (toLowerCase t) TRANSFER_TOPIC | _ => false end.

(** The log encodes the transfer [t] in the transaction [hash]. *)
Definition encodes_transfer (hash : string) (log : json) (t : TransferLog) : Prop :=
  exists t0 t1 t2 data h,
    log.@"topics" = JArr [JStr t0; JStr t1; JStr t2] /\ log.@"data" = JStr data /\
    log.@"transactionHash" = JStr h /\ toLowerCase h = hash /\
    toLowerCase t1 = "0x" +:+ abiAddress t.(lg_from) /\ toLowerCase t2 = "0x" +:+ abiAddress t.(lg_to) /\
    toLowerCase data = "0x" +:+ hexN 64 t.(lg_value) /\ 0 <= t.(lg_value) < 2 ^ 256.

Lemma decodeTopic_Ok v code a : decodeTransferTopicAddress v code = Ok a ->
  exists s, v = JStr s /\ toLowerCase s = "0x" +:+ abiAddress a.
Proof.
  unfold decodeTransferTopicAddress. destruct v; try discriminate. intros Hs.
  apply bind_Ok in Hs as (u & Hg%throw_if_Ok & [Hw _]%decodeAbiAddressWord_Ok). bool_prop.
  match goal with Hx : is_0x_hex _ _ = true |- _ => apply is_0x_hex_iff in Hx as (r & Er & _) end.
  exists s. split; [done|]. rewrite Er in *. rewrite <- Hw. by destruct r.
Qed.

Lemma decodeData_Ok v z : decodeTransferData v = Ok z -> exists s, v = JStr s /\ toLowerCase s = "0x" +:+ hexN 64 z /\ 0 <= z < 2 ^ 256.
Proof.
  unfold decodeTransferData. destruct v; try discriminate. intros Hs.
  apply bind_Ok in Hs as (u & Hg%throw_if_Ok & [Hw Hz]%decodeAbiUintWord_Ok). bool_prop.
  match goal with Hx : is_0x_hex _ _ = true |- _ => apply is_0x_hex_iff in Hx as (r & Er & _) end.
  exists s. split; [done|]. split; [|done]. rewrite Er in *. rewrite <- Hw. by destruct r.
Qed.

Lemma parseLog_Ok tx quote log o : parseLog tx quote log = Ok o ->
  let event := transfer_event (toLowerCase (text_of (quote.@"void_token"))) log in
  match o with
  | Some t => event = true /\ encodes_transfer tx.(tx_hash) log t
  | None => event = false
  end.
Proof.
  unfold parseLog, transfer_event. intros Hs.
  apply bind_Ok in Hs as (w & (_ & _ & ->)%snapshotExact_Ok & Hs).
  cbn [prop assoc map LOG_KEYS String.eqb Ascii.eqb Bool.eqb] in Hs.
  apply bind_Ok in Hs as (a & (s & Ha & ->)%normalizeAddress_Ok & Hs). rewrite Ha.
  destruct (String.eqb (toLowerCase s) _); simpl in Hs |- *; [|by inv_ok].
  apply bind_Ok in Hs as (topics & Ht & Hs). unfold snapshotArray in Ht.
  destruct (log.@"topics") as [| | | | |l|] eqn:El; try discriminate. inv_ok.
  destruct topics as [|[| | | |t0| |] rest]; try by inv_ok.
  destruct (String.eqb (toLowerCase t0) TRANSFER_TOPIC); simpl in Hs |- *; [|by inv_ok].
  destruct rest as [|t1 [|t2 []]]; try discriminate.
  apply bind_Ok in Hs as (h & (hs & Hh & ->)%normalizeHash_Ok & Hs).
  apply bind_Ok in Hs as (u & Heq%throw_if_Ok & Hs). bool_prop. apply String.eqb_eq in Heq.
  apply bind_Ok in Hs as (from & (s1 & -> & E1)%decodeTopic_Ok & Hs).
  apply bind_Ok in Hs as (to & (s2 & -> & E2)%decodeTopic_Ok & Hs).
  apply bind_Ok in Hs as (value & (d & Hd & E3 & Hb)%decodeData_Ok & Hs). inv_ok.
  split; [done|]. exists t0, s1, s2, d, hs. done.
Qed.

Lemma omap_filter {A B} (ev : A -> bool) (R : A -> option B -> Prop) l o :
  (forall a b, R a (Some b) -> ev a = true) -> (forall a, R a None -> ev a = false) ->
  Forall2 R l o -> Forall2 (fun a b => R a (Some b)) (List.filter ev l) (omap id o).
Proof.
  intros H1 H2. induction 1 as [|a [b|] l o Hab _ IH]; simpl; [constructor| |].
  - rewrite (H1 _ _ Hab). by constructor.
  - by rewrite (H2 _ Hab).
Qed.

(** ** Verified settlements *)

Lemma requireFields_Ok prefix v pairs u : requireFields prefix v pairs = Ok u ->
  Forall (fun p => (v.@(p.1) === p.2) = true) pairs.
Proof.
  revert u. induction pairs as [|[k e] pairs IH]; intros u Hs; [constructor|]. cbn [requireFields] in Hs.
  apply bind_Ok in Hs as (u' & Hg%throw_if_Ok & Hs). bool_prop. constructor; eauto.
Qed.

Lemma parseReceipt_Ok raw tx quote rc : parseTransferReceipt raw tx quote = Ok rc ->
  exists logs log t, raw.@"logs" = JArr logs /\
    List.filter (transfer_event (toLowerCase (text_of (quote.@"void_token")))) logs = [log] /\
    encodes_transfer tx.(tx_hash) log t /\ t.(lg_from) = tx.(tx_participant) /\ t.(lg_to) = tx.(tx_vault) /\
    dec t.(lg_value) = text_of (quote.@"gross_input_amount") /\ rc.(rc_log_index) = t.(lg_index).
Proof.
  unfold parseTransferReceipt. intros Hs.
  apply bind_Ok in Hs as (w & (_ & _ & ->)%snapshotExact_Ok & Hs).
  cbn [prop assoc map RECEIPT_KEYS String.eqb Ascii.eqb Bool.eqb] in Hs.
  do 6 (apply bind_Ok in Hs as (? & _ & Hs)). apply bind_Ok in Hs as (logs & Hl & Hs).
  unfold snapshotArray in Hl. destruct (raw.@"logs") as [| | | | |l|]; try discriminate.
  apply bind_Ok in Hl as (u & _ & [= ->]).
  apply bind_Ok in Hs as (parsed & Hp & Hs). unfold map_res in Hp. apply mapi_res_Forall2 in Hp.
  apply (omap_filter (transfer_event (toLowerCase (text_of (quote.@"void_token"))))) in Hp.
  2: { intros a b [_ Ha]. apply parseLog_Ok in Ha as [-> _]. done. }
  2: { intros a [_ Ha]. by apply parseLog_Ok in Ha. }
  destruct (omap id parsed) as [|t [|]]; try discriminate.
  destruct (List.filter _ logs) as [|log [|]] eqn:E; try by inversion Hp.
  2: { inversion Hp as [|? ? ? ? _ Hnil]. inversion Hnil. }
  inversion Hp as [|? ? ? ? [_ Hlog] _]; subst.
  apply parseLog_Ok in Hlog as [_ Henc]. inv_ok. bool_prop.
  repeat match goal with He : String.eqb _ _ = true |- _ => apply String.eqb_eq in He end.
  exists logs, log, t. done.
Qed.

Section reverse_facts.
Context {H : Digest}.

(** What a verified core is made of. *)
Record core_parts (raw : json) (core : Core) : Prop := {
  cp_quote : verifyWcVoidPublicQuoteDisclosureV1 (raw.@"quote") = Ok core.(co_quote);
  cp_direction : core.(co_quote).@"direction" = JStr "void_to_wc";
  cp_account : raw.@"wc_account" = JStr core.(co_account);
  cp_tx : parseTransferTransaction (raw.@"transaction") core.(co_quote) core.(co_tx).(tx_vault) = Ok core.(co_tx);
  cp_receipt : parseTransferReceipt (raw.@"receipt") core.(co_tx) core.(co_quote) = Ok core.(co_receipt)
}.

Lemma parseTransaction_vault raw q vault tx : parseTransferTransaction raw q vault = Ok tx -> tx.(tx_vault) = vault.
Proof.
  unfold parseTransferTransaction. intros. inv_ok.
  match goal with Hm : (let '(_, _) := ?p in _) = _ |- _ => destruct p end. by inv_ok.
Qed.

Lemma normalizeCore_Ok raw core : normalizeCore raw = Ok core -> core_parts raw core.
Proof.
  unfold normalizeCore. intros Hs. apply bind_Ok in Hs as (w & (_ & _ & ->)%snapshotExact_Ok & Hs).
  cbn [prop assoc map TOP_KEYS String.eqb Ascii.eqb Bool.eqb] in Hs.
  apply bind_Ok in Hs as (q & Hq & Hs). apply bind_Ok in Hs as (u & Hd%throw_if_Ok & Hs).
  apply bind_Ok in Hs as (u' & _ & Hs). apply bind_Ok in Hs as (acc & Ha & Hs).
  apply bind_Ok in Hs as (vault & _ & Hs). apply bind_Ok in Hs as (tx & Htx & Hs).
  apply bind_Ok in Hs as (rc & Hrc & Hs). injection Hs as <-. bool_prop. js_eqs.
  constructor; cbn [co_quote co_account co_tx co_receipt]; try done.
  - unfold normalizeWcAccount in Ha. destruct (raw.@"wc_account"); try discriminate. by inv_ok.
  - by rewrite (parseTransaction_vault _ _ _ _ Htx).
Qed.

Lemma parseTransaction_Ok raw q vault tx : parseTransferTransaction raw q vault = Ok tx ->
  exists calldata, raw.@"input" = JStr calldata /\
    decodeTransferCalldata (JStr calldata) = Ok (vault, BigInt (text_of (q.@"gross_input_amount"))).
Proof.
  unfold parseTransferTransaction. intros Hs.
  apply bind_Ok in Hs as (w & (_ & _ & ->)%snapshotExact_Ok & Hs).
  cbn [prop assoc map TRANSACTION_KEYS String.eqb Ascii.eqb Bool.eqb] in Hs.
  do 6 (apply bind_Ok in Hs as (? & _ & Hs)). apply bind_Ok in Hs as ([to amount] & Hd & Hs).
  destruct (raw.@"input") as [| | | |calldata| |] eqn:Ei; try discriminate Hd. inv_ok. bool_prop.
  match goal with He : String.eqb _ _ = true |- _ => apply String.eqb_eq in He end.
  match goal with He : (amount =? _) = true |- _ => apply Z.eqb_eq in He end.
  exists calldata. split; [done|]. rewrite Hd. congruence.
Qed.

Lemma verifySettlement_Ok raw s : verifyWcVoidReverseSettlementV1 raw = Ok s ->
  exists core i credit, core_parts raw core /\ digest (settlementPayload core) = Ok i /\
    verifyCredit core i = Ok credit /\ s = renderSettlement core i credit.
Proof.
  unfold verifyWcVoidReverseSettlementV1. intros Hs.
  apply bind_Ok in Hs as (core & Hc%normalizeCore_Ok & Hs). apply bind_Ok in Hs as (i & Hi & Hs).
  apply bind_Ok in Hs as (credit & Hcr & Hs). injection Hs as <-. eauto 7.
Qed.

(** The amounts of the quote that is settled. *)
Lemma core_amounts raw core : core_parts raw core ->
  exists a, core.(co_quote).@"gross_input_amount" = JStr (dec a.(grossInput)) /\
    core.(co_quote).@"trade_input_amount" = JStr (dec a.(tradeInput)) /\
    core.(co_quote).@"input_fee_amount" = JStr (dec a.(inputFee)) /\
    core.(co_quote).@"gross_output_amount" = JStr (dec a.(grossOutput)) /\
    core.(co_quote).@"output_fee_amount" = JStr (dec a.(outputFee)) /\
    core.(co_quote).@"net_output_amount" = JStr (dec a.(netOutput)) /\
    0 < a.(grossInput) /\ 0 < a.(netOutput).
Proof.
  intros [Hq _ _ _ _]. destruct (disclosure_terms _ _ Hq) as (a & fees & slip & iss & ex & [] & Hac & _).
  exists a. do 6 (split; [done|]). destruct (ac_positive _ _ Hac) as [? ?]. split; [|done].
  pose proof (side_sum_nonneg true fees (proj1 (ac_fees _ _ Hac))).
  rewrite (ac_input _ _ Hac), (ac_input_fees _ _ Hac). lia.
Qed.

(** The delta, account and identity of a verified credit. *)
Lemma verifyCredit_Ok core i credit : verifyCredit core i = Ok credit -> exists net,
  core.(co_quote).@"net_output_amount" = JStr (dec net) /\ 0 < net <= MAX_SAFE_INTEGER /\
  credit.@"delta" = jint net /\ credit.@"account" = JStr core.(co_account) /\
  credit.@"settlement_id" = JStr i /\ credit.@"void_transfer_tx_hash" = JStr core.(co_tx).(tx_hash) /\
  credit.@"void_transfer_log_index" = JStr (dec core.(co_receipt).(rc_log_index)) /\
  credit.@"participant_address" = JStr core.(co_tx).(tx_participant).
Proof.
  unfold verifyCredit. intros Hs. apply bind_Ok in Hs as (w & (_ & _ & ->)%snapshotExact_Ok & Hs).
  set (raw := core.(co_credit)) in *.
  apply bind_Ok in Hs as (meta & _ & Hs). apply bind_Ok in Hs as (u1 & _ & Hs).
  apply bind_Ok in Hs as (u2 & Hacc%throw_if_Ok & Hs). apply bind_Ok in Hs as (wc & Hwc & Hs).
  apply bind_Ok in Hs as (u3 & Hmax%throw_if_Ok & Hs). apply bind_Ok in Hs as (delta & Hdelta & Hs).
  do 3 (apply bind_Ok in Hs as (? & _ & Hs)). apply bind_Ok in Hs as (u4 & Hid%throw_if_Ok & Hs).
  apply bind_Ok in Hs as (u5 & Hpairs%requireFields_Ok & Hs). apply bind_Ok in Hs as (u6 & _ & Hs).
  injection Hs as <-. unfold canonicalUint in Hwc.
  destruct (core.(co_quote).@"net_output_amount") as [| | | |net| |] eqn:En; try discriminate.
  destruct (as_safe_integer _) as [d|] eqn:Ed in Hdelta; [|discriminate].
  apply as_safe_integer_Some in Ed as [Ed _]. inv_ok. bool_prop. js_eqs.
  unfold creditPairs in Hpairs. rewrite !Forall_cons in Hpairs. cbn [fst snd] in Hpairs.
  destruct Hpairs as (_ & _ & _ & Hp & _ & Hh & Hl & _). js_eqs.
  exists (BigInt net). rewrite dec_BigInt by done. unfold MAX_SAFE_WC in *.
  match goal with He : (delta =? BigInt net) = true |- _ => apply Z.eqb_eq in He as -> end.
  split; [done|]. split; [lia|]. by repeat split.
Qed.

(** A verified reverse settlement ties quote, payment and credit together exactly:
    the quote is a verified disclosure of a VOID sale, the transaction's calldata is
    the encoded transfer of the quote's gross input to the market vault, and the
    ledger credit gives the named account exactly the quote's net output, a positive
    amount within the ledger's integer range, under the settlement's identity. *)
Theorem reverse_settlement_exact raw s : verifyWcVoidReverseSettlementV1 raw = Ok s ->
  exists q gross net vault calldata,
    verifyWcVoidPublicQuoteDisclosureV1 (raw.@"quote") = Ok q /\
    q.@"direction" = JStr "void_to_wc" /\
    q.@"gross_input_amount" = JStr (dec gross) /\ q.@"net_output_amount" = JStr (dec net) /\
    0 < gross /\ 0 < net <= MAX_SAFE_INTEGER /\
    raw.@"transaction".@"input" = JStr calldata /\ s.@"market_vault" = JStr vault /\
    toLowerCase calldata = encodeTransfer vault gross /\ is_address vault /\
    s.@"credit".@"delta" = jint net /\ s.@"credit".@"account" = raw.@"wc_account" /\
    s.@"credit".@"settlement_id" = s.@"settlement_id" /\
    s.@"credit".@"void_transfer_tx_hash" = s.@"void_transfer_tx_hash".
Proof.
  intros (core & i & credit & Hc & _ & Hcr & ->)%verifySettlement_Ok.
  destruct (core_amounts _ _ Hc) as (a & Hg & _ & _ & _ & _ & _ & Hpos & _).
  destruct (verifyCredit_Ok _ _ _ Hcr) as (net & Hn & Hr & Hd & Ha & Hi & Ht & _).
  destruct (parseTransaction_Ok _ _ _ _ (cp_tx _ _ Hc)) as (cd & Hcd & Hdec).
  rewrite Hg in Hdec. cbn [text_of] in Hdec. rewrite BigInt_dec in Hdec by lia.
  apply decodeTransferCalldata_Ok in Hdec as (Henc & Hadr & _).
  exists core.(co_quote), a.(grossInput), net, core.(co_tx).(tx_vault), cd.
  split; [apply Hc|]. split; [apply Hc|]. do 5 (split; [done|]). split; [reflexivity|].
  split; [done|]. split; [done|]. change ((renderSettlement core i credit).@"credit") with credit.
  split; [done|]. split; [by rewrite (cp_account _ _ Hc)|]. split; [by rewrite Hi|by rewrite Ht].
Qed.

(** The receipt of a verified settlement contains exactly one transfer event of the
    token, however many other logs there are, and that event is the payment: it
    belongs to the transaction and encodes a transfer of the quote's gross input from
    the participant to the market vault. *)
Theorem reverse_settlement_single_transfer raw s : verifyWcVoidReverseSettlementV1 raw = Ok s ->
  exists q logs log t hash gross,
    verifyWcVoidPublicQuoteDisclosureV1 (raw.@"quote") = Ok q /\
    q.@"gross_input_amount" = JStr (dec gross) /\ s.@"void_transfer_tx_hash" = JStr hash /\
    raw.@"receipt".@"logs" = JArr logs /\
    List.filter (transfer_event (toLowerCase (text_of (q.@"void_token")))) logs = [log] /\
    encodes_transfer hash log t /\ t.(lg_value) = gross /\
    s.@"participant_address" = JStr t.(lg_from) /\ s.@"market_vault" = JStr t.(lg_to) /\
    s.@"void_transfer_log_index" = JStr (dec t.(lg_index)).
Proof.
  intros (core & i & credit & Hc & _ & _ & ->)%verifySettlement_Ok.
  destruct (parseReceipt_Ok _ _ _ _ (cp_receipt _ _ Hc)) as (logs & log & t & Hl & Hf & He & Hfrom & Hto & Hv & Hi).
  destruct (core_amounts _ _ Hc) as (a & Hg & _ & _ & _ & _ & _ & Hpos & _).
  assert (lg_value t = grossInput a).
  { destruct He as (? & ? & ? & ? & ? & He). rewrite Hg in Hv. apply dec_inj; [tauto|lia|done]. }
  exists core.(co_quote), logs, log, t, core.(co_tx).(tx_hash), a.(grossInput).
  split; [apply Hc|]. split; [done|]. split; [reflexivity|]. do 4 (split; [done|]).
  rewrite Hfrom, Hto, <- Hi. split; [reflexivity|]. split; reflexivity.
Qed.

(** The fields that a settlement identity stands for. *)
Definition settled_keys : list string :=
  ["quote_id"; "participant_address"; "market_vault"; "void_transfer_tx_hash";
   "void_transfer_log_index"; "void_transfer_block_number"; "gross_void_input_atoms";
   "trade_void_input_atoms"; "input_fee_void_atoms"; "gross_wc_output_units"; "output_fee_wc_units";
   "net_wc_credit_units"]%string.

Lemma settled_fields_text raw core i credit k : core_parts raw core -> k ∈ settled_keys ->
  (renderSettlement core i credit).@k = (settlementPayload core).@k /\
  exists t, (settlementPayload core).@k = JStr t.
Proof.
  intros Hc Hk. destruct (core_amounts _ _ Hc) as (a & H1 & H2 & H3 & H4 & H5 & H6 & _).
  destruct (disclosure_id _ _ (cp_quote _ _ Hc)) as [q Hq].
  apply list_elem_of_In in Hk. simpl in Hk.
  repeat (destruct Hk as [<-|Hk]; [split; [reflexivity|]; eexists; first [reflexivity|eassumption]|]).
  destruct Hk.
Qed.

(** The identities of two settlements come from texts that collide. *)
Definition identities_collide (s1 s2 : json) : Prop :=
  exists p1 p2, Forall (fun k => p1.@k = s1.@k) settled_keys /\ Forall (fun k => p2.@k = s2.@k) settled_keys /\
    JStr <$> digest p1 = Ok (s1.@"settlement_id") /\ JStr <$> digest p2 = Ok (s2.@"settlement_id") /\
    collide_as (canonical_text "INVALID_CANONICAL_VALUE" "INVALID_CANONICAL_VALUE") p1 p2.

(** A settlement identity stands for one payment: two verified settlements with one
    identity settle the same quote by the same transfer log of the same transaction
    with the same amounts, and credit the same number of work credits, unless the texts
    that the identity was computed from, which hold these fields of the two settlements,
    are different texts with one digest.  So a ledger that accepts every identity once
    cannot credit a payment twice. *)
Theorem reverse_settlement_id_binds raw1 raw2 s1 s2 :
  verifyWcVoidReverseSettlementV1 raw1 = Ok s1 -> verifyWcVoidReverseSettlementV1 raw2 = Ok s2 ->
  s1.@"settlement_id" = s2.@"settlement_id" ->
  (Forall (fun k => s1.@k = s2.@k) settled_keys /\
   s1.@"credit".@"delta" = s2.@"credit".@"delta") \/ identities_collide s1 s2.
Proof.
  intros (core1 & i1 & cr1 & Hc1 & Hi1 & Hcr1 & ->)%verifySettlement_Ok.
  intros (core2 & i2 & cr2 & Hc2 & Hi2 & Hcr2 & ->)%verifySettlement_Ok.
  intros Hid. change (JStr i1 = JStr i2) in Hid. injection Hid as ->.
  destruct (contentIdOf_binds _ _ _ _ _ Hi1 Hi2) as [Hn|Hcol]; [left|right].
  2: { exists (settlementPayload core1), (settlementPayload core2). rewrite Hi1, Hi2.
    split; [|split; [|by repeat split]]; apply Forall_forall; intros k Hk; symmetry;
      eapply settled_fields_text; eassumption. }
  assert (NoDup (object_keys (settlementPayload core2))) as Hnd
    by (apply (bool_decide_unpack _); vm_compute; exact I).
  assert (Forall (fun k => (renderSettlement core1 i2 cr1).@k = (renderSettlement core2 i2 cr2).@k) settled_keys)
    as Hall.
  { apply Forall_forall. intros k Hk.
    destruct (settled_fields_text _ _ i2 cr1 _ Hc1 Hk) as [-> [t1 E1]].
    destruct (settled_fields_text _ _ i2 cr2 _ Hc2 Hk) as [-> [t2 E2]].
    pose proof (norm_prop _ _ k Hn Hnd) as Heq. rewrite E1, E2 in *. simpl in Heq. congruence. }
  split; [done|]. rewrite Forall_forall in Hall. specialize (Hall "net_wc_credit_units"%string ltac:(set_solver)).
  destruct (verifyCredit_Ok _ _ _ Hcr1) as (n1 & Hn1 & Hb1 & Hd1 & _).
  destruct (verifyCredit_Ok _ _ _ Hcr2) as (n2 & Hn2 & Hb2 & Hd2 & _).
  change (core1.(co_quote).@"net_output_amount" = core2.(co_quote).@"net_output_amount") in Hall.
  rewrite Hn1, Hn2 in Hall. injection Hall as Hall%dec_inj; [|lia..].
  change (cr1.@"delta" = cr2.@"delta"). congruence.
Qed.
End reverse_facts.

(** The policy identity that the operator documentation of the module and the coupled
    gate record, recomputed with SHA-256. *)
Example reverse_policy_id :
  @digest sha256 REVERSE_SETTLEMENT_POLICY_PAYLOAD =
  Ok "sha256:073d3754f5bcd2b91558c5c8abd00bf721c545a3cd045edcc690ed17bbab31df"%string.
Proof. vm_compute. reflexivity. Qed.

(** ** A settled sale *)

#[local] Existing Instance poly256 | 0.

Definition sample_vault : string := "0x00000000000000000000000000000000000000aa".
Definition sample_participant : string := "0x00000000000000000000000000000000000000BB".
Definition sample_hash (c : string) : string :=
  "0x000000000000000000000000000000000000000000000000000000000000000" +:+ c.
Definition sample_token : string := "0x470075b85352eb86f7d089fb9ba88945f12aad94".

Definition sample_log (address topic0 : string) : json :=
  JObj [
    "address" ~> address;
    "topics" ~> JArr [JStr topic0; JStr ("0x" +:+ abiAddress sample_participant);
      JStr ("0x" +:+ abiAddress sample_vault)];
    "data" ~> ("0x" +:+ hexN 64 1000000);
    "logIndex" ~> "0x1";
    "transactionHash" ~> sample_hash "1"].

(** The payment among logs of another token and another event. *)
Definition sample_receipt : json :=
  JObj [
    "transactionHash" ~> sample_hash "1";
    "status" ~> "0x1";
    "blockNumber" ~> "0x1F";
    "blockHash" ~> sample_hash "2";
    "logs" ~> JArr [sample_log sample_vault TRANSFER_TOPIC; sample_log sample_token TRANSFER_TOPIC;
      sample_log sample_token (sample_hash "3")]].

Definition sample_settlement (account id : string) : json :=
  JObj [
    "quote" ~> sample_public_quote;
    "market_vault" ~> sample_vault;
    "wc_account" ~> account;
    "transaction" ~> JObj [
      "hash" ~> sample_hash "1";
      "from" ~> sample_participant;
      "to" ~> sample_token;
      "input" ~> encodeTransfer sample_vault 1000000;
      "chainId" ~> "0x802"];
    "receipt" ~> sample_receipt;
    "credit" ~> JObj [
      "kind" ~> "credit";
      "account" ~> account;
      "delta" ~> jint 490;
      "ts_ms" ~> jint 1500;
      "reason" ~> "wc_void_reverse_settlement_v1";
      "settlement_id" ~> id;
      "quote_id" ~> sample_quote_id;
      "coupled_launch_id" ~> PublicQuote.sample_sha "001";
      "market_state_id" ~> PublicQuote.sample_sha "002";
      "participant_address" ~> toLowerCase sample_participant;
      "market_vault" ~> sample_vault;
      "void_transfer_tx_hash" ~> sample_hash "1";
      "void_transfer_log_index" ~> "1";
      "void_amount_atoms" ~> "1000000";
      "wc_amount" ~> "490";
      "market_meta" ~> JObj expectedMeta]].

Definition sample_settlement_id : string := Eval vm_compute in
  match wcVoidReverseSettlementIdV1 (sample_settlement "alice" "") with Ok i => i | Throw e => e end.

Definition sample_settled (account : string) : json := sample_settlement account sample_settlement_id.

(** The credited account is not part of the identity: one payment can be presented for
    either account, and only the ledger's use of the identity decides. *)
Example settlement_id_leaves_account_open :
  is_ok (verifyWcVoidReverseSettlementV1 (sample_settled "alice")) = true /\
  is_ok (verifyWcVoidReverseSettlementV1 (sample_settled "bob")) = true.
Proof. split; vm_compute; reflexivity. Qed.

Lemma reverse_settlement_exact_witness :
  match verifyWcVoidReverseSettlementV1 (sample_settled "alice") with
  | Ok s => exists gross net calldata,
      (sample_settled "alice").@"transaction".@"input" = JStr calldata /\
      (exists vault, toLowerCase calldata = encodeTransfer vault gross) /\
      s.@"credit".@"delta" = jint net
  | Throw _ => False
  end.
Proof.
  run_ok (verifyWcVoidReverseSettlementV1 (sample_settled "alice")) E.
  destruct (reverse_settlement_exact _ _ E)
    as (q & gross & net & vault & cd & _ & _ & _ & _ & _ & _ & Hi & _ & He & _ & Hd & _).
  exists gross, net, cd. split; [exact Hi|]. split; [exists vault; exact He|exact Hd].
Defined.

Lemma reverse_settlement_single_transfer_witness :
  match verifyWcVoidReverseSettlementV1 (sample_settled "alice") with
  | Ok s => exists log t hash, s.@"void_transfer_tx_hash" = JStr hash /\ encodes_transfer hash log t
  | Throw _ => False
  end.
Proof.
  run_ok (verifyWcVoidReverseSettlementV1 (sample_settled "alice")) E.
  destruct (reverse_settlement_single_transfer _ _ E)
    as (q & logs & log & t & hash & gross & _ & _ & Hh & _ & _ & He & _).
  exists log, t, hash. split; [exact Hh|exact He].
Defined.

Lemma reverse_settlement_id_binds_witness :
  match verifyWcVoidReverseSettlementV1 (sample_settled "alice"),
        verifyWcVoidReverseSettlementV1 (sample_settled "bob") with
  | Ok s1, Ok s2 => (Forall (fun k => s1.@k = s2.@k) settled_keys /\
      s1.@"credit".@"delta" = s2.@"credit".@"delta") \/ identities_collide s1 s2
  | _, _ => False
  end.
Proof.
  run_ok (verifyWcVoidReverseSettlementV1 (sample_settled "alice")) E1.
  run_ok (verifyWcVoidReverseSettlementV1 (sample_settled "bob")) E2.
  apply (reverse_settlement_id_binds _ _ _ _ E1 E2).
  transitivity (JStr sample_settlement_id).
  - symmetry. run_field E1 (fun s => s.@"settlement_id").
  - run_field E2 (fun s => s.@"settlement_id").
Defined.
