(* ===== verification/Ledger.v ===== *)
(** * The abstract ledger

    What the chain modules promise, without strings, snapshots or digests: accounts with
    a balance and a nonce, transfers that debit a sender, credit a recipient and the fee
    collectors, and burn the rest of the fee. *)

From S2P Require Import Prelude.

Abbreviation Ledger := (gmap string (Z * Z)).

Record Transfer := mkTransfer {
  t_sender : string;
  t_recipient : string;
  t_value : Z;
  t_fee : Z;
  t_credits : list (string * Z);
  t_nonce : Z
}.

Definition only (x : string) (v : Z) (a : string) : Z := if decide (a = x) then v else 0.

Definition credit_to (credits : list (string * Z)) (a : string) : Z :=
  sumZ (fun c => only c.1 c.2 a) credits.

(** What a transfer adds to the balance of an account; the same account may play several
    parts. *)
Definition delta (t : Transfer) (a : string) : Z :=
  - only (t_sender t) (t_value t + t_fee t) a + only (t_recipient t) (t_value t) a
  + credit_to (t_credits t) a.

Definition burned (t : Transfer) : Z := t_fee t - sumZ snd (t_credits t).

(** The accounts a transfer names. *)
Definition touched (t : Transfer) : list string := t_sender t :: t_recipient t :: map fst (t_credits t).

Definition move (t : Transfer) (l : Ledger) : Ledger :=
  map_imap (fun a bn => Some (bn.1 + delta t a, bn.2 + only (t_sender t) 1 a)) l.

Definition total (f : Z * Z -> Z) (l : Ledger) : Z := sumZ (fun e => f e.2) (map_to_list l).
Definition supply : Ledger -> Z := total fst.
Definition nonces : Ledger -> Z := total snd.

(** A transfer the ledger allows: it names known accounts, carries the next nonce of its
    sender, who can pay for value and fee, and credits no more than the fee. *)
Record legal (l : Ledger) (t : Transfer) : Prop := mkLegal {
  legal_touched : forall a, a ∈ touched t -> is_Some (l !! a);
  legal_sender : exists b, l !! t_sender t = Some (b, t_nonce t) /\ t_value t + t_fee t <= b;
  legal_value : 0 < t_value t;
  legal_credits : Forall (fun c => 0 < c.2) (t_credits t);
  legal_fee : sumZ snd (t_credits t) <= t_fee t
}.

(** A sequence of transfers, each allowed where it executes. *)
Inductive executes : Ledger -> list Transfer -> Ledger -> Prop :=
| executes_nil l : executes l [] l
| executes_cons l t ts l' : legal l t -> executes (move t l) ts l' -> executes l (t :: ts) l'.

(** ** Facts *)

Lemma lookup_move t l a :
  move t l !! a = (fun bn => (bn.1 + delta t a, bn.2 + only (t_sender t) 1 a)) <$> l !! a.
Proof. unfold move. rewrite map_lookup_imap. by destruct (l !! a). Qed.

Lemma sum_only (l : list string) x v : NoDup l -> x ∈ l -> sumZ (only x v) l = v.
Proof.
  induction 1 as [|a l Ha _ IH]; [set_solver|]. intros Hx. rewrite sumZ_cons. unfold only at 1. destruct (decide (a = x)) as [->|Hne]; [|apply IH; set_solver].
  enough (sumZ (only x v) l = 0) as -> by lia. clear -Ha.
  induction l as [|b l IH]; [done|]. rewrite sumZ_cons. unfold only at 1.
  rewrite decide_False by set_solver. apply IH. set_solver.
Qed.

Lemma sum_credit_to l cs : NoDup l -> (forall c, c ∈ cs -> c.1 ∈ l) -> sumZ (credit_to cs) l = sumZ snd cs.
Proof.
  intros Hl. induction cs as [|[x v] cs IH]; intros Hin.
  - clear. induction l; simpl in *; lia.
  - transitivity (sumZ (fun a => only x v a + credit_to cs a) l); [by apply sumZ_ext|].
    rewrite <- sumZ_add, (sum_only l x v), IH; [done|..].
    + intros. apply Hin. by right.
    + done.
    + apply (Hin (x, v)). left.
Qed.

(** Over the accounts it names, a transfer only loses what it burns. *)
Lemma sum_delta l t : NoDup l -> (forall a, a ∈ touched t -> a ∈ l) -> sumZ (delta t) l = - burned t.
Proof.
  intros Hl Hin. unfold delta, burned.
  rewrite (sumZ_ext _ (fun a => only (t_sender t) (- (t_value t + t_fee t)) a
    + (only (t_recipient t) (t_value t) a + credit_to (t_credits t) a))).
  2: { intros a _. unfold only. repeat case_decide; lia. }
  rewrite <- sumZ_add, <- (sumZ_add (only _ _)), !sum_only, sum_credit_to; [lia|..]; try done.
  - intros c Hc. apply Hin. right. right. by apply list_elem_of_fmap_2.
  - apply Hin. right. left.
  - apply Hin. left.
Qed.

Lemma total_insert f l a bn : l !! a = None -> total f (<[a := bn]> l) = f bn + total f l.
Proof. intros Ha. unfold total. by rewrite map_to_list_insert. Qed.

Lemma total_replace f l a old bn : l !! a = Some old -> total f (<[a := bn]> l) = total f l - f old + f bn.
Proof.
  intros Ha. rewrite <- (insert_delete_id l a old Ha) at 2. rewrite <- insert_delete_eq.
  rewrite !total_insert by apply lookup_delete_eq. lia.
Qed.

Lemma total_imap f (g : string -> Z * Z -> Z * Z) (d : string -> Z) l :
  (forall a bn, f (g a bn) = f bn + d a) ->
  total f (map_imap (fun a bn => Some (g a bn)) l) = total f l + sumZ d (map_to_list l).*1.
Proof.
  intros Hg. induction l as [|a bn l Ha IH] using map_ind.
  { by rewrite map_imap_empty, map_to_list_empty. }
  rewrite (map_imap_insert_Some _ _ _ _ (g a bn)) by done.
  rewrite !total_insert; [|done|by rewrite map_lookup_imap, Ha].
  rewrite IH, map_to_list_insert, Hg by done. rewrite fmap_cons, sumZ_cons. simpl. lia.
Qed.

Lemma keys_NoDup (l : Ledger) : NoDup (map_to_list l).*1.
Proof. apply NoDup_fst_map_to_list. Qed.

Lemma elem_of_keys (l : Ledger) a : a ∈ (map_to_list l).*1 <-> is_Some (l !! a).
Proof.
  rewrite list_elem_of_fmap. split.
  - intros ([k v] & -> & Hv). apply elem_of_map_to_list in Hv. by exists v.
  - intros [v Hv]. exists (a, v). split; [done|]. by apply elem_of_map_to_list.
Qed.

(** A legal transfer reduces the supply by exactly what it burns. *)
Lemma supply_move l t : legal l t -> supply (move t l) = supply l - burned t.
Proof.
  intros Hl. unfold supply, move. rewrite (total_imap fst _ (delta t)) by done.
  rewrite sum_delta; [lia|apply keys_NoDup|].
  intros a Ha. apply elem_of_keys, (legal_touched _ _ Hl), Ha.
Qed.

(** Every transfer takes one nonce. *)
Lemma nonces_move l t : legal l t -> nonces (move t l) = nonces l + 1.
Proof.
  intros Hl. unfold nonces, move. rewrite (total_imap snd _ (only (t_sender t) 1)) by done.
  rewrite sum_only; [done|apply keys_NoDup|].
  apply elem_of_keys, (legal_touched _ _ Hl). left.
Qed.

Lemma burned_nonneg l t : legal l t -> 0 <= burned t.
Proof. intros Hl. unfold burned. pose proof (legal_fee _ _ Hl). lia. Qed.

Lemma executes_app l ts1 l1 ts2 l2 :
  executes l ts1 l1 -> executes l1 ts2 l2 -> executes l (ts1 ++ ts2) l2.
Proof. induction 1; [done|]. intros. simpl. econstructor; eauto. Qed.

Lemma executes_supply l ts l' : executes l ts l' -> supply l' = supply l - sumZ burned ts.
Proof. induction 1 as [|l t ts l' Hl _ IH]; [simpl; lia|]. rewrite IH, supply_move, sumZ_cons by done. lia. Qed.

Lemma executes_nonces l ts l' : executes l ts l' -> nonces l' = nonces l + Z.of_nat (length ts).
Proof. induction 1 as [|l t ts l' Hl _ IH]; cbn [length]; [lia|]. rewrite IH, nonces_move by done. lia. Qed.

Lemma executes_keys l ts l' a : executes l ts l' -> is_Some (l' !! a) <-> is_Some (l !! a).
Proof. induction 1 as [|l t ts l' Hl _ IH]; [done|]. rewrite IH, lookup_move, fmap_is_Some. done. Qed.

(** Nonces only grow, by the number of transfers an account sent. *)
Lemma executes_nonce l ts l' a bn : executes l ts l' -> l !! a = Some bn ->
  exists b, l' !! a = Some (b, bn.2 + sumZ (fun t => only (t_sender t) 1 a) ts).
Proof.
  intros He. revert bn. induction He as [|l t ts l' Hl _ IH]; intros bn Ha.
  - exists bn.1. rewrite Ha. simpl. by rewrite Z.add_0_r, <- surjective_pairing.
  - destruct (IH (bn.1 + delta t a, bn.2 + only (t_sender t) 1 a)) as [b Hb].
    { by rewrite lookup_move, Ha. }
    exists b. rewrite Hb, sumZ_cons. do 2 f_equal. simpl. lia.
Qed.

(** ** Transfers on a part of the ledger *)

Lemma delta_untouched t a : a ∉ touched t -> delta t a = 0 /\ only (t_sender t) 1 a = 0.
Proof.
  intros Ha. unfold delta. assert (credit_to (t_credits t) a = 0) as ->.
  { assert (a ∉ map fst (t_credits t)) as Hc by (intros Hin; apply Ha; right; by right). revert Hc. clear.
    unfold credit_to. induction (t_credits t) as [|c cs IH]; [done|]. cbn [map]. intros Hc. rewrite sumZ_cons.
    unfold only at 1. rewrite decide_False by set_solver. rewrite IH; [done|]. set_solver. }
  unfold touched, only in *. rewrite !decide_False by set_solver. done.
Qed.

(** Moving the accounts a transfer touches moves the whole ledger. *)
Lemma move_part (part l : Ledger) t : part ⊆ l -> (forall a, a ∈ touched t -> is_Some (part !! a)) ->
  move t part ∪ l = move t l.
Proof.
  intros Hsub Hin. apply map_eq. intros a. rewrite lookup_union, !lookup_move.
  destruct (part !! a) as [bn|] eqn:Ha; simpl.
  - rewrite (lookup_weaken _ _ _ _ Ha Hsub). simpl. by destruct (l !! a).
  - destruct (delta_untouched t a) as [-> ->].
    { intros Ht. destruct (Hin a Ht). congruence. }
    destruct (l !! a) as [[b n]|]; simpl; [|done]. by rewrite !Z.add_0_r.
Qed.

Lemma legal_part (part l : Ledger) t : part ⊆ l -> legal part t -> legal l t.
Proof.
  intros Hsub [Ht (b & Hb & Hpay) Hv Hc Hf]. split; [|exists b|done..].
  - intros a Ha. destruct (Ht a Ha) as [x Hx]. exists x. by eapply lookup_weaken.
  - split; [by eapply lookup_weaken|done].
Qed.
