(* ===== verification/ChainBase.v ===== *)
(** * What the native chain modules share

    The three modules of [src/chain/] for native value transfers (state transition, block
    executor, account store) repeat a few helpers word for word: [stableValue]/[sha256],
    [parseUint], [parseBoundedNumber], [normalizeAddress] and [held].  They are modelled
    once here.  Amounts and heights arrive as a decimal string, a number or a BigInt
    ([uint_input]).

    The [ethers] package is the interface [Ethers]: [getAddress] and the decoder of signed
    transactions, with the documented behaviour that proofs rely on in [EthersLaws].
    [localeCompare] depends on the locale of the host; the interface [Locale] only promises
    that canonical addresses compare as their code units do. *)

From Stdlib Require Import Ascii Sorted.
From S2P Require Import Prelude Js JsText Flow CanonicalJson Sha256.

(** ** Interfaces to code outside the repository *)

(** The fields of an [ethers] [Transaction] that the modules read.  Of the access list
    only the length matters, of the signature only whether there is one. *)
Record Tx := mkTx {
  tx_hash : option string;
  tx_from : option string;
  tx_to : option string;
  tx_signature : bool;
  tx_type : option Z;
  tx_chainId : Z;
  tx_gasLimit : Z;
  tx_data : string;
  tx_accessList : option nat;
  tx_value : Z;
  tx_maxFeePerGas : option Z;
  tx_maxPriorityFeePerGas : option Z;
  tx_nonce : Z
}.

(** [getAddress(text)] and [Transaction.from(raw)]; the message of a failed decoding
    stands for the class of the error. *)
Class Ethers : Type := {
  getAddress : string -> res string;
  Transaction_from : string -> res Tx
}.

Definition is_address : string -> bool := is_0x_hex 40.

Class EthersLaws (E : Ethers) : Prop := {
  (** a checksummed address is 20 bytes of hexadecimal text *)
  getAddress_shape : forall s a, getAddress s = Ok a -> is_address (toLowerCase a) = true;
  (** a lower-case address is accepted and only its case changes *)
  getAddress_canonical : forall s, is_address s = true ->
    exists a, getAddress s = Ok a /\ toLowerCase a = s
}.

(** [a.localeCompare(b) <= 0] *)
Class Locale : Type := localeLe : string -> string -> bool.

Class LocaleLaws (L : Locale) : Prop :=
  localeLe_address : forall a b, is_address a = true -> is_address b = true ->
    localeLe a b = str_leb a b.

(** ** Hashing *)

(** [createHash("sha256").update(JSON.stringify(stableValue(value))).digest("hex")] *)
Definition sha256 `{Digest} (value : json) : string := sha256_hex (canonicalJson value).

Lemma sha256_hex64 `{D : Digest} `{!DigestShape D} v : is_hex64 (sha256 v) = true.
Proof. apply digest_is_hex64. Qed.

(** Equal digests of values that print mean equal values up to key order, or texts that collide. *)
Lemma sha256_binds `{D : Digest} v w : printable v = true -> no_index_keys v = true ->
  printable w = true -> no_index_keys w = true -> sha256 v = sha256 w ->
  norm v = norm w \/ collides (canonicalJson v) (canonicalJson w).
Proof.
  intros Hv Hv' Hw Hw' Heq.
  destruct (decide (canonicalJson v = canonicalJson w)) as [Hc|Hne]; [left; by apply canonicalJson_inj|].
  by right.
Qed.

Lemma norm_array_inj {A} (render : A -> json) l k : (forall a b, norm (render a) = norm (render b) -> a = b) ->
  norm (JArr (map render l)) = norm (JArr (map render k)) -> l = k.
Proof.
  intros Hinj Heq. cbn [norm] in Heq. injection Heq as Heq. revert k Heq.
  induction l as [|a l IH]; intros [|b k] Heq; cbn [map] in Heq; try discriminate Heq; [done|].
  injection Heq as Ha Hl. f_equal; [by apply Hinj|by apply IH].
Qed.

(** Objects whose keys are no array indices and whose values print. *)
Definition prints (v : json) : Prop := printable v = true /\ no_index_keys v = true.

Lemma prints_object fs : forallb (fun k => negb (is_array_index k)) fs.*1 = true ->
  Forall prints fs.*2 -> prints (JObj fs).
Proof.
  intros Hk Hv. unfold prints. cbn [printable no_index_keys].
  induction fs as [|[k v] fs IH]; [done|]. rewrite fmap_cons in Hk. cbn [forallb fst snd] in *.
  rewrite fmap_cons in Hv. apply Forall_cons in Hv as [[Hp Hn] Hv]. apply andb_true_iff in Hk as [Hk Hks].
  destruct (IH Hks Hv) as [IHp IHn]. cbn [snd] in *. by rewrite Hp, Hn, Hk, IHp, IHn.
Qed.

Lemma prints_array l : Forall prints l -> prints (JArr l).
Proof.
  unfold prints. cbn [printable no_index_keys]. induction 1 as [|v l [Hp Hn] _ [IHp IHn]]; [done|].
  cbn [forallb]. by rewrite Hp, Hn, IHp, IHn.
Qed.

Lemma prints_rendered {A} (render : A -> json) l : (forall a, prints (render a)) -> prints (JArr (map render l)).
Proof. intros Hr. apply prints_array, Forall_map, Forall_forall. auto. Qed.

(** Proves [prints] of a rendered record. *)
Ltac prints_record :=
  apply prints_object; [vm_compute; reflexivity|];
  repeat (apply Forall_cons; split); try apply Forall_nil; try done.

Lemma sha256_binds_prints `{D : Digest} v w : prints v -> prints w -> sha256 v = sha256 w ->
  norm v = norm w \/ collides (canonicalJson v) (canonicalJson w).
Proof. intros [? ?] [? ?]. by apply sha256_binds. Qed.

(** Reads the fields [keys] out of [H : norm v = norm w] between two rendered records. *)
Ltac norm_fields H Hnd keys :=
  lazymatch keys with
  | [] => idtac
  | ?k :: ?rest =>
      let F := fresh "F" in
      pose proof (norm_prop _ _ k H Hnd) as F;
      cbn [prop assoc String.eqb Ascii.eqb Bool.eqb] in F;
      norm_fields H Hnd rest
  end.

(** Turns equal rendered fields of two destructed records into equal records. *)
Ltac equal_fields :=
  unfold jint in *; cbn [norm] in *; simpl in *;
  repeat match goal with
  | F : JStr _ = JStr _ |- _ => injection F as F
  | F : JNum _ = JNum _ |- _ => injection F as F
  end; subst; reflexivity.

(** Distinct literal keys. *)
Ltac distinct_keys := apply (bool_decide_unpack _); exact I.

(** ** Regular expressions *)

Definition SHA256 : string -> bool := is_hex64.
Definition TRANSACTION_HASH : string -> bool := is_0x_hex 64.
Definition SAFE_ID : string -> bool := is_safe_id.

Definition RAW_SIGNED_TRANSACTION (s : string) : bool :=
  has_0x s && (1 <=? String.length (slice_from 2 s))%nat && string_forallb is_any_hex (slice_from 2 s).

Definition ZERO_ADDRESS : string := "0x0000000000000000000000000000000000000000".

(** ** Numbers in requests *)

Inductive uint_input : Type :=
| UStr (s : string)
| UNum (n : jsnum)
| UBig (z : Z).

Definition parseUint (value : uint_input) (label : string) : res Z :=
  parsed ← match value with
    | UBig z => Ok z
    | UNum n =>
        match as_safe_integer (JNum n) with
        | Some z => Ok z
        | None => Throw (label +:+ "_not_safe_integer")
        end
    | UStr s => if is_canonical_decimal s then Ok (BigInt s) else Throw (label +:+ "_invalid")
    end;
  throw_if (parsed <? 0) (label +:+ "_negative");;
  Ok parsed.

(** [Number(parsed)]: the bounds in use are far below the safe-integer limit. *)
Definition parseBoundedNumber (value : uint_input) (label : string) (min max : Z) : res Z :=
  parsed ← parseUint value label;
  throw_if (parsed <? min) (label +:+ "_too_small");;
  throw_if (parsed >? max) (label +:+ "_too_large");;
  Ok parsed.

Lemma parseUint_nonneg v label z : parseUint v label = Ok z -> 0 <= z.
Proof. unfold parseUint. intros. inv_ok. lia. Qed.

Lemma parseUint_dec z label : 0 <= z -> parseUint (UStr (dec z)) label = Ok z.
Proof.
  intros Hz. unfold parseUint. rewrite dec_canonical, BigInt_dec by done. simpl.
  assert ((z <? 0) = false) as -> by lia. done.
Qed.

Lemma parseUint_UBig z label : 0 <= z -> parseUint (UBig z) label = Ok z.
Proof. intros Hz. unfold parseUint. simpl. assert ((z <? 0) = false) as -> by lia. done. Qed.

Lemma parseUint_UStr s label z : parseUint (UStr s) label = Ok z <-> s = dec z /\ 0 <= z.
Proof.
  split; [|by intros [-> ?]; apply parseUint_dec].
  unfold parseUint. destruct (is_canonical_decimal s) eqn:E; intros; inv_ok.
  rewrite dec_BigInt by done. split; [done|lia].
Qed.

(** ** Addresses *)

Section addresses.
Context `{E : Ethers} `{!EthersLaws E}.

Definition normalizeAddress (value label : string) : res string :=
  address ← getAddress value;
  let normalized := toLowerCase address in
  throw_if (String.eqb normalized ZERO_ADDRESS) (label +:+ "_zero");;
  Ok normalized.

Definition is_account (a : string) : bool := is_address a && negb (String.eqb a ZERO_ADDRESS).

Lemma normalizeAddress_account v label a : normalizeAddress v label = Ok a -> is_account a = true.
Proof using All.
  unfold normalizeAddress. intros. inv_ok. unfold is_account.
  rewrite (getAddress_shape v x) by done. by apply negb_true_iff.
Qed.

Lemma normalizeAddress_canonical a label : is_account a = true -> normalizeAddress a label = Ok a.
Proof using All.
  intros [Ha Hz%negb_true_iff]%andb_true_iff. destruct (getAddress_canonical a Ha) as (b & Hb & Hl).
  unfold normalizeAddress. rewrite Hb. simpl. by rewrite Hl, Hz.
Qed.
End addresses.

Lemma is_account_address a : is_account a = true -> is_address a = true.
Proof. by intros [? _]%andb_true_iff. Qed.

#[export] Hint Resolve is_account_address parseUint_nonneg : voidnet.

(** ** Sorting by address

    [accounts.sort((a, b) => a.address.localeCompare(b.address))] *)

Lemma StronglySorted_sublist {A} (R : A -> A -> Prop) l k :
  l `sublist_of` k -> StronglySorted R k -> StronglySorted R l.
Proof.
  induction 1 as [|a l k Hl IH|a l k Hl IH]; intros Hs; [constructor|..]; inversion Hs as [|? ? Hs' Ha]; subst.
  - constructor; [by apply IH|]. rewrite Forall_forall in *. intros x Hx. apply Ha. by eapply sublist_subseteq.
  - by apply IH.
Qed.

Section sort_by_address.
Context `{L : Locale} `{!LocaleLaws L} {A : Type} (address : A -> string).

Definition sort_by_address : list A -> list A := isort (fun a b => localeLe (address a) (address b)).

Definition sorted_addresses (l : list A) : Prop :=
  StronglySorted (fun a b => str_leb a b = true) (map address l).

Lemma insert_ext (le1 le2 : A -> A -> bool) a l : (forall b, b ∈ l -> le1 a b = le2 a b) ->
  insert_sorted le1 a l = insert_sorted le2 a l.
Proof using Type.
  clear. induction l as [|b l IH]; simpl; intros Heq; [done|]. rewrite Heq by left.
  destruct (le2 a b); [done|]. f_equal. apply IH. intros; apply Heq. by right.
Qed.

Lemma isort_ext (le1 le2 : A -> A -> bool) l : (forall a b, a ∈ l -> b ∈ l -> le1 a b = le2 a b) ->
  isort le1 l = isort le2 l.
Proof using Type.
  clear. induction l as [|a l IH]; simpl; intros Heq; [done|].
  rewrite IH by (intros; apply Heq; by right). apply insert_ext.
  intros b Hb. apply Heq; [left|right]. by rewrite isort_perm in Hb.
Qed.

(** On canonical addresses the locale does not matter. *)
Lemma sort_by_address_codes l : Forall (fun a => is_address (address a) = true) l ->
  sort_by_address l = isort (fun a b => str_leb (address a) (address b)) l.
Proof using All.
  rewrite Forall_forall. intros Hl. apply isort_ext. intros a b Ha Hb. apply localeLe_address; eauto.
Qed.

(** Sorting a sorted array changes nothing. *)
Lemma isort_sorted_id (le : A -> A -> bool) l : Sorted_by le l -> isort le l = l.
Proof using Type.
  clear. induction 1 as [|a l _ IH Ha]; simpl; [done|]. rewrite IH.
  destruct l as [|b l]; simpl; [done|]. inversion Ha as [|? ? Hb]; subst. by rewrite Hb.
Qed.

Lemma sort_by_address_sorted l : Forall (fun a => is_address (address a) = true) l ->
  sorted_addresses l -> sort_by_address l = l.
Proof using All.
  intros Hl Hs. rewrite sort_by_address_codes by done. apply isort_sorted_id.
  unfold sorted_addresses in Hs. clear Hl. induction l as [|a l IH]; simpl in *; [constructor|].
  inversion Hs as [|? ? Hs' Ha]; subst. constructor; [by apply IH|].
  rewrite Forall_map in Ha. done.
Qed.

Lemma sort_by_address_perm l : sort_by_address l ≡ₚ l.
Proof using Type. apply isort_perm. Qed.

Lemma sort_by_address_sorts l : Forall (fun a => is_address (address a) = true) l ->
  sorted_addresses (sort_by_address l).
Proof using All.
  intros Hl. rewrite sort_by_address_codes by done. unfold sorted_addresses.
  rewrite <- (isort_map (fun a b => str_leb (address a) (address b)) str_leb address) by done.
  apply isort_Sorted; eauto with voidnet.
Qed.
End sort_by_address.

(** ** JavaScript sets of strings: insertion order, no duplicates *)

Definition set_add (l : list string) (x : string) : list string :=
  if bool_decide (x ∈ l) then l else l ++ [x].
Definition js_set (l : list string) : list string := foldl set_add [] l.

Lemma set_add_spec l x : NoDup l -> NoDup (set_add l x) /\ (forall y, y ∈ set_add l x <-> y ∈ l \/ y = x).
Proof.
  intros Hl. unfold set_add. case_bool_decide as Hx.
  - split; [done|]. intros y. split; [by left|]. intros [?| ->]; done.
  - split; [by apply NoDup_snoc|]. set_solver.
Qed.

Lemma foldl_set_add_spec l k : NoDup k ->
  NoDup (foldl set_add k l) /\ (forall y, y ∈ foldl set_add k l <-> y ∈ k \/ y ∈ l).
Proof.
  revert k. induction l as [|x l IH]; simpl; intros k Hk; [set_solver|].
  destruct (set_add_spec k x Hk) as [Hnd Hin]. destruct (IH _ Hnd) as [Hnd' Hin'].
  split; [done|]. intros y. rewrite Hin', Hin. set_solver.
Qed.

Lemma js_set_NoDup l : NoDup (js_set l).
Proof. apply foldl_set_add_spec. constructor. Qed.

Lemma elem_of_js_set l y : y ∈ js_set l <-> y ∈ l.
Proof. unfold js_set. rewrite (proj2 (foldl_set_add_spec l [] (NoDup_nil_2))). set_solver. Qed.

(** ** JavaScript maps with string keys: insertion order, [set] keeps the place of a key *)

Section js_map.
Context {V : Type}.
Implicit Types (m : list (string * V)).

Definition map_get m (k : string) : option V :=
  match List.find (fun e => String.eqb e.1 k) m with Some e => Some e.2 | None => None end.

Definition map_set m (k : string) (v : V) : list (string * V) :=
  if bool_decide (k ∈ m.*1) then map (fun e => if String.eqb e.1 k then (k, v) else e) m
  else m ++ [(k, v)].

(** [new Map(entries)] *)
Definition new_Map (entries : list (string * V)) : list (string * V) :=
  foldl (fun m e => map_set m e.1 e.2) [] entries.

(** The finite map that an insertion-ordered map stands for. *)
Definition as_map m : gmap string V := list_to_map m.

Lemma map_get_lookup m k : map_get m k = as_map m !! k.
Proof.
  unfold map_get, as_map. induction m as [|[k' v] m IH]; simpl; [done|].
  destruct (String.eqb_spec k' k) as [->|Hne]; simpl; [by rewrite lookup_insert_eq|].
  by rewrite lookup_insert_ne.
Qed.

Lemma map_set_present m k v : k ∈ m.*1 ->
  as_map (map (fun e => if String.eqb e.1 k then (k, v) else e) m) = <[k := v]> (as_map m).
Proof.
  unfold as_map. induction m as [|[k' v'] m IH]; intros Hk; [set_solver|]. rewrite fmap_cons in Hk. simpl.
  destruct (String.eqb_spec k' k) as [->|Hne]; simpl.
  - destruct (decide (k ∈ m.*1)) as [Hm|Hm].
    + rewrite IH by done. by rewrite !insert_insert_eq.
    + rewrite insert_insert_eq. f_equal. clear -Hm. induction m as [|[k2 v2] m IH]; [done|].
      simpl. rewrite fmap_cons in Hm. destruct (String.eqb_spec k2 k) as [->|]; [set_solver|]. simpl.
      rewrite IH; set_solver.
  - rewrite IH by set_solver. by rewrite insert_insert_ne.
Qed.

Lemma as_map_set m k v : as_map (map_set m k v) = <[k := v]> (as_map m).
Proof.
  unfold map_set. case_bool_decide as Hk; [by apply map_set_present|].
  unfold as_map. by rewrite list_to_map_snoc.
Qed.

Lemma map_set_keys m k v : k ∈ m.*1 -> (map_set m k v).*1 = m.*1.
Proof.
  intros Hk. unfold map_set. rewrite bool_decide_eq_true_2 by done. clear Hk.
  induction m as [|[k' v'] m IH]; [done|]. cbn [map]. rewrite !fmap_cons, IH.
  simpl. by destruct (String.eqb_spec k' k) as [->|].
Qed.

(** A map built from distinct keys keeps the entries as they are. *)
Lemma new_Map_distinct entries : NoDup entries.*1 -> new_Map entries = entries.
Proof.
  unfold new_Map. enough (forall m, NoDup (m ++ entries).*1 ->
    foldl (fun m e => map_set m e.1 e.2) m entries = m ++ entries) as H by apply (H []).
  induction entries as [|[k v] entries IH]; intros m Hnd; simpl; [by rewrite app_nil_r|].
  assert (map_set m k v = m ++ [(k, v)]) as ->.
  { unfold map_set. rewrite bool_decide_eq_false_2; [done|].
    rewrite fmap_app in Hnd. apply NoDup_app in Hnd as (_ & Hd & _). intros Hk. apply (Hd k Hk). left. }
  rewrite IH; by rewrite <- app_assoc.
Qed.

Lemma as_map_is_Some m k : is_Some (as_map m !! k) <-> k ∈ m.*1.
Proof.
  unfold as_map. rewrite <- not_eq_None_Some, <- not_elem_of_list_to_map.
  split; [apply dec_stable|tauto].
Qed.

Lemma as_map_elem m k v : NoDup m.*1 -> as_map m !! k = Some v <-> (k, v) ∈ m.
Proof. intros Hnd. unfold as_map. symmetry. by apply elem_of_list_to_map. Qed.
End js_map.

(** ** Refusals *)

Record Held := mkHeld {
  reason : string;
  retry_allowed : bool;
  submission_may_have_occurred : bool;
  detail : option json
}.

(** [held(reason)] and [held(reason, { detail })] *)
Definition held (why : string) : Held := mkHeld why false false None.
Definition held_detail (why : string) (d : list (string * json)) : Held :=
  mkHeld why false false (Some (JObj d)).

(** The two kinds of answer of a [prepare] function. *)
Inductive PrepareDecision (P : Type) : Type :=
| Prepared (plan : P)
| IsHeld (h : Held).
Arguments Prepared {_} _.
Arguments IsHeld {_} _.

(** [if (b) return held(reason);] *)
Definition held_if (b : bool) (why : string) : flow Held unit := return_if b (held why).

Lemma held_if_Next b why u : held_if b why = Next u <-> b = false.
Proof. apply return_if_Next. Qed.

Lemma held_if_false {B} b why (f : unit -> flow Held B) : b = false -> (held_if b why ≫= f) = f tt.
Proof. by intros ->. Qed.

(** The body of a [prepare] function inside its [try]: refusals returned on the way, the
    plan at the end, anything thrown turned into a refusal. *)
Definition decide_body {P} (body : flow Held P) (handler : string -> Held) : PrepareDecision P :=
  match body with
  | Next plan => Prepared plan
  | Return h => IsHeld h
  | Raise message => IsHeld (handler message)
  end.

Lemma decide_body_Prepared {P} (body : flow Held P) handler plan :
  decide_body body handler = Prepared plan <-> body = Next plan.
Proof. destruct body; simpl; split; naive_solver. Qed.

(** [held_flow] inverts the guards of a body that went on. *)
Ltac held_flow := repeat (first [inv_flow_step
  | match goal with H : held_if _ _ = Next _ |- _ => apply held_if_Next in H end]; simplify_eq).

(** ** A concrete instance

    Addresses without checksum letters and a table of decoded transactions: enough to run
    the modules on concrete requests. *)

Definition table_ethers (table : list (string * Tx)) : Ethers := {|
  getAddress := fun s =>
    if is_address (toLowerCase s) then Ok (toLowerCase s) else Throw "invalid address";
  Transaction_from := fun raw =>
    match List.find (fun entry => String.eqb entry.1 raw) table with
    | Some entry => Ok entry.2
    | None => Throw "TypeError"
    end
|}.

#[export] Instance table_ethers_laws table : EthersLaws (table_ethers table).
Proof.
  split; simpl.
  - intros s a. destruct (is_address (toLowerCase s)) eqn:Hs; [|discriminate].
    intros [= <-]. by rewrite (toLowerCase_0x_hex 40 (toLowerCase s)).
  - intros s Hs. exists s. by rewrite (toLowerCase_0x_hex 40 s Hs), Hs.
Qed.

Definition code_unit_locale : Locale := str_leb.

#[export] Instance code_unit_locale_laws : LocaleLaws code_unit_locale.
Proof. done. Qed.
