(* ===== verification/NativeTransfer.v ===== *)
(** * Native value transfers: the state transition of one transaction

    Model of [src/chain/native_value_transfer_state_transition_v1.ts].  A signed
    transaction is checked against a policy, a snapshot of exactly the accounts it touches
    and the block it executes in; the result is a plan that lists every account before and
    after, bound by digests.  Applying a plan re-validates it and hands a request to the
    account store, here an argument. *)

From Stdlib Require Import Ascii Sorted.
From S2P Require Import Prelude Js JsText Flow CanonicalJson Sha256 Ledger ChainBase.

Definition VOID_NATIVE_VALUE_TRANSFER_STATE_TRANSITION_V1 : string :=
  "VOID_NATIVE_VALUE_TRANSFER_STATE_TRANSITION_V1".
Definition VOID_NATIVE_VALUE_TRANSFER_CONFIRMATION_V1 : string :=
  "applyNativeValueTransferStateTransitionV1".

Definition EXPECTED_CHAIN_ID : Z := 2050.
Definition REQUIRED_TX_TYPE : Z := 2.
Definition REQUIRED_GAS_LIMIT : Z := 21000.
Definition MAX_RAW_TRANSACTION_BYTES_HARD : Z := 131072.

(** ** Requests *)

Record AccountState := mkAccountState {
  as_address : string;
  as_balance_wei : uint_input;
  as_nonce : uint_input
}.

Record StateSnapshot := mkStateSnapshot {
  ss_state_version : string;
  ss_accounts : list AccountState
}.

Record FeeCredit := mkFeeCredit {
  fc_address : string;
  fc_amount_wei : uint_input
}.

Record ExecutionContext := mkExecutionContext {
  ec_block_hash : string;
  ec_block_number : uint_input;
  ec_transaction_index : uint_input;
  ec_gas_used : uint_input;
  ec_effective_gas_price_wei : uint_input;
  ec_fee_credits : list FeeCredit;
  ec_fee_policy_fingerprint_sha256 : string
}.

Record TransferPolicy := mkTransferPolicy {
  tp_expected_chain_id : uint_input;
  tp_required_transaction_type : uint_input;
  tp_required_gas_limit : uint_input;
  tp_max_raw_transaction_bytes : uint_input;
  tp_max_value_wei : uint_input;
  tp_max_fee_debit_wei : uint_input;
  tp_max_fee_credit_count : uint_input;
  tp_sender_allowlist : list string;
  tp_fee_credit_allowlist : list string
}.

Record TransferInput := mkTransferInput {
  in_raw_signed_transaction : string;
  in_policy : TransferPolicy;
  in_snapshot : StateSnapshot;
  in_execution_context : ExecutionContext
}.

(** ** Plans *)

Record AccountChange := mkAccountChange {
  ch_address : string;
  ch_balance_before_wei : string;
  ch_balance_after_wei : string;
  ch_nonce_before : string;
  ch_nonce_after : string
}.

Record NormalizedFeeCredit := mkNormalizedFeeCredit {
  nfc_address : string;
  nfc_amount_wei : string
}.

Record PreparedPlan := mkPreparedPlan {
  pl_schema : string;
  pl_marker : string;
  pl_version : Z;
  pl_chain_id : string;
  pl_transaction_type : Z;
  pl_transaction_hash : string;
  pl_sender : string;
  pl_recipient : string;
  pl_value_wei : string;
  pl_transaction_nonce : string;
  pl_gas_limit : string;
  pl_max_fee_per_gas_wei : string;
  pl_max_priority_fee_per_gas_wei : string;
  pl_block_hash : string;
  pl_block_number : string;
  pl_transaction_index : string;
  pl_gas_used : string;
  pl_effective_gas_price_wei : string;
  pl_fee_debit_wei : string;
  pl_fee_credits : list NormalizedFeeCredit;
  pl_fee_credit_total_wei : string;
  pl_fee_burned_wei : string;
  pl_fee_policy_fingerprint_sha256 : string;
  pl_state_version : string;
  pl_prestate_fingerprint_sha256 : string;
  pl_poststate_fingerprint_sha256 : string;
  pl_account_changes : list AccountChange;
  pl_idempotency_key_sha256 : string;
  pl_plan_binding_sha256 : string
}.

Definition change_json (c : AccountChange) : json :=
  JObj ["address" ~> ch_address c;
        "balance_before_wei" ~> ch_balance_before_wei c;
        "balance_after_wei" ~> ch_balance_after_wei c;
        "nonce_before" ~> ch_nonce_before c;
        "nonce_after" ~> ch_nonce_after c].

Definition fee_credit_json (c : NormalizedFeeCredit) : json :=
  JObj ["address" ~> nfc_address c; "amount_wei" ~> nfc_amount_wei c].

(** The plan without its binding; the last six fields have one-element types. *)
Definition planBindingMaterial (p : PreparedPlan) : json :=
  JObj ["schema" ~> pl_schema p;
        "marker" ~> pl_marker p;
        "version" ~> jint (pl_version p);
        "chain_id" ~> pl_chain_id p;
        "transaction_type" ~> jint (pl_transaction_type p);
        "transaction_hash" ~> pl_transaction_hash p;
        "sender" ~> pl_sender p;
        "recipient" ~> pl_recipient p;
        "value_wei" ~> pl_value_wei p;
        "transaction_nonce" ~> pl_transaction_nonce p;
        "gas_limit" ~> pl_gas_limit p;
        "max_fee_per_gas_wei" ~> pl_max_fee_per_gas_wei p;
        "max_priority_fee_per_gas_wei" ~> pl_max_priority_fee_per_gas_wei p;
        "block_hash" ~> pl_block_hash p;
        "block_number" ~> pl_block_number p;
        "transaction_index" ~> pl_transaction_index p;
        "gas_used" ~> pl_gas_used p;
        "effective_gas_price_wei" ~> pl_effective_gas_price_wei p;
        "fee_debit_wei" ~> pl_fee_debit_wei p;
        "fee_credits" ~> JArr (map fee_credit_json (pl_fee_credits p));
        "fee_credit_total_wei" ~> pl_fee_credit_total_wei p;
        "fee_burned_wei" ~> pl_fee_burned_wei p;
        "fee_policy_fingerprint_sha256" ~> pl_fee_policy_fingerprint_sha256 p;
        "state_version" ~> pl_state_version p;
        "prestate_fingerprint_sha256" ~> pl_prestate_fingerprint_sha256 p;
        "poststate_fingerprint_sha256" ~> pl_poststate_fingerprint_sha256 p;
        "account_changes" ~> JArr (map change_json (pl_account_changes p));
        "idempotency_key_sha256" ~> pl_idempotency_key_sha256 p;
        "raw_signed_transaction_persisted" ~> false;
        "raw_signed_transaction_returned" ~> false;
        "signing_performed" ~> false;
        "rpc_call_performed" ~> false;
        "state_mutation_performed" ~> false;
        "money_movement_performed" ~> false].

(** ** Normalization *)

Record NormalizedAccount := mkNormalizedAccount {
  na_address : string;
  na_balance_wei : Z;
  na_nonce : Z
}.

Record NormalizedPolicy := mkNormalizedPolicy {
  np_max_raw_transaction_bytes : Z;
  np_max_value_wei : Z;
  np_max_fee_debit_wei : Z;
  np_max_fee_credit_count : Z;
  np_sender_allowlist : list string;
  np_fee_credit_allowlist : list string
}.

Definition parseBoundedNumber (value : uint_input) (label : string) (max : Z) : res Z :=
  parsed ← parseUint value label;
  throw_if (parsed >? max) (label +:+ "_too_large");;
  Ok parsed.

Section transfer.
Context `{D : Digest} `{E : Ethers} `{L : Locale}.

Definition normalizeAddressSet (values : list string) (label : string) : res (list string) :=
  throw_if (bool_decide (values = [])) (label +:+ "_empty");;
  foldM (fun normalized value =>
    address ← normalizeAddress value label;
    throw_if (bool_decide (address ∈ normalized)) (label +:+ "_duplicate");;
    Ok (normalized ++ [address])) [] values.

Definition normalizePolicy (policy : TransferPolicy) : res NormalizedPolicy :=
  chain ← parseUint (tp_expected_chain_id policy) "expected_chain_id";
  throw_if (negb (chain =? EXPECTED_CHAIN_ID)) "policy_chain_id_mismatch";;
  type ← parseUint (tp_required_transaction_type policy) "required_transaction_type";
  throw_if (negb (type =? REQUIRED_TX_TYPE)) "policy_transaction_type_mismatch";;
  gas ← parseUint (tp_required_gas_limit policy) "required_gas_limit";
  throw_if (negb (gas =? REQUIRED_GAS_LIMIT)) "policy_gas_limit_mismatch";;
  maxRaw ← parseBoundedNumber (tp_max_raw_transaction_bytes policy) "max_raw_transaction_bytes"
    MAX_RAW_TRANSACTION_BYTES_HARD;
  throw_if (maxRaw <? 100) "max_raw_transaction_bytes_too_small";;
  maxValue ← parseUint (tp_max_value_wei policy) "max_value_wei";
  throw_if (maxValue <=? 0) "max_value_wei_zero";;
  maxFee ← parseUint (tp_max_fee_debit_wei policy) "max_fee_debit_wei";
  maxFeeCredits ← parseBoundedNumber (tp_max_fee_credit_count policy) "max_fee_credit_count" 16;
  senders ← normalizeAddressSet (tp_sender_allowlist policy) "sender_allowlist";
  feeCreditors ← normalizeAddressSet (tp_fee_credit_allowlist policy) "fee_credit_allowlist";
  Ok (mkNormalizedPolicy maxRaw maxValue maxFee maxFeeCredits senders feeCreditors).

(** One account of the snapshot. *)
Definition snapshotStep (accounts : gmap string NormalizedAccount) (item : AccountState)
    : res (gmap string NormalizedAccount) :=
  address ← normalizeAddress (as_address item) "account_address";
  throw_if (bool_decide (is_Some (accounts !! address))) "duplicate_account_state";;
  balance ← parseUint (as_balance_wei item) "account_balance_wei";
  nonce ← parseUint (as_nonce item) "account_nonce";
  Ok (<[address := mkNormalizedAccount address balance nonce]> accounts).

Definition normalizeSnapshot (snapshot : StateSnapshot)
    : res (string * gmap string NormalizedAccount) :=
  let stateVersion := trim (ss_state_version snapshot) in
  throw_if (negb (SAFE_ID stateVersion)) "state_version_invalid";;
  throw_if (bool_decide (ss_accounts snapshot = [])) "state_accounts_empty";;
  accounts ← foldM snapshotStep ∅ (ss_accounts snapshot);
  Ok (stateVersion, accounts).

(** ** Fingerprints and plan validation *)

Inductive Side : Set := Before | After.

Definition side_balance (side : Side) (c : AccountChange) : string :=
  match side with Before => ch_balance_before_wei c | After => ch_balance_after_wei c end.
Definition side_nonce (side : Side) (c : AccountChange) : string :=
  match side with Before => ch_nonce_before c | After => ch_nonce_after c end.

(** An address with a balance and a nonce in decimal, in the key order of the sources. *)
Definition account_json (address balance nonce : string) : json :=
  JObj ["address" ~> address; "balance_wei" ~> balance; "nonce" ~> nonce].

Definition accountFingerprint (stateVersion : string) (accounts : list AccountChange) (side : Side)
    : string :=
  sha256 (JObj ["state_version" ~> stateVersion;
    "accounts" ~> JArr (map (fun item =>
      account_json item.1.1 item.1.2 item.2)
      (sort_by_address (fun item : string * string * string => item.1.1)
        (map (fun item => (ch_address item, side_balance side item, side_nonce side item)) accounts)))]).

Definition text_neq (a b : string) : bool := negb (String.eqb a b).

(** [None] stands for [null]: the plan is valid. *)
Definition validatePlan (plan : PreparedPlan) : option string :=
  if text_neq (pl_schema plan) "void_native_value_transfer_prepared_plan_v1"
    || text_neq (pl_marker plan) VOID_NATIVE_VALUE_TRANSFER_STATE_TRANSITION_V1
    || negb (pl_version plan =? 1)
    || text_neq (pl_chain_id plan) "2050"
    || negb (pl_transaction_type plan =? 2)
    || text_neq (pl_gas_limit plan) "21000"
    || text_neq (pl_gas_used plan) "21000"
  then Some "prepared_plan_identity_mismatch"%string
  else if negb (TRANSACTION_HASH (pl_transaction_hash plan))
  then Some "prepared_plan_transaction_hash_invalid"%string
  else if negb (SHA256 (pl_prestate_fingerprint_sha256 plan))
    || negb (SHA256 (pl_poststate_fingerprint_sha256 plan))
    || negb (SHA256 (pl_idempotency_key_sha256 plan))
    || negb (SHA256 (pl_plan_binding_sha256 plan))
    || negb (SHA256 (pl_fee_policy_fingerprint_sha256 plan))
  then Some "prepared_plan_fingerprint_invalid"%string
  else if bool_decide (pl_account_changes plan = [])
  then Some "prepared_plan_account_changes_empty"%string
  else if text_neq (accountFingerprint (pl_state_version plan) (pl_account_changes plan) Before)
    (pl_prestate_fingerprint_sha256 plan)
  then Some "prepared_plan_prestate_fingerprint_mismatch"%string
  else if text_neq (accountFingerprint (pl_state_version plan) (pl_account_changes plan) After)
    (pl_poststate_fingerprint_sha256 plan)
  then Some "prepared_plan_poststate_fingerprint_mismatch"%string
  else if text_neq (sha256 (planBindingMaterial plan)) (pl_plan_binding_sha256 plan)
  then Some "prepared_plan_binding_mismatch"%string
  else None.

(** ** Preparing a transfer *)

Abbreviation step A := (flow Held A).

(** What the checks of the signed transaction establish. *)
Record CheckedTx := mkCheckedTx {
  ct_hash : string;
  ct_sender : string;
  ct_recipient : string;
  ct_value : Z;
  ct_maxFeePerGas : Z;
  ct_maxPriorityFeePerGas : Z;
  ct_nonce : Z
}.

(** [address ? normalizeAddress(address, label) : ""] *)
Definition optionalAddress (address : option string) (label : string) : res string :=
  match address with
  | None | Some EmptyString => Ok EmptyString
  | Some a => normalizeAddress a label
  end.

Definition decodeTransaction (raw : string) : step Tx :=
  match Transaction_from raw with
  | Ok transaction => Next transaction
  | Throw error =>
      Return (held_detail "signed_transaction_decode_failed" ["error_class" ~> error])
  end.

Definition checkTransaction (policy : NormalizedPolicy) (raw : string) : step CheckedTx :=
  held_if (negb (RAW_SIGNED_TRANSACTION raw)
    || negb (Nat.even (String.length raw))
    || ((Z.of_nat (String.length raw) - 2) / 2 >? np_max_raw_transaction_bytes policy))
    "raw_signed_transaction_invalid";;
  transaction ← decodeTransaction raw;
  let transactionHash := toLowerCase (default EmptyString (tx_hash transaction)) in
  sender ← call (optionalAddress (tx_from transaction) "transaction_sender");
  recipient ← call (optionalAddress (tx_to transaction) "transaction_recipient");
  held_if (negb (TRANSACTION_HASH transactionHash)) "signed_transaction_hash_invalid";;
  held_if (negb (tx_signature transaction) || String.eqb sender EmptyString)
    "signed_transaction_signature_missing";;
  held_if (String.eqb recipient EmptyString) "contract_creation_forbidden";;
  held_if (negb (bool_decide (tx_type transaction = Some REQUIRED_TX_TYPE))) "transaction_type_mismatch";;
  held_if (negb (tx_chainId transaction =? EXPECTED_CHAIN_ID)) "transaction_chain_id_mismatch";;
  held_if (negb (tx_gasLimit transaction =? REQUIRED_GAS_LIMIT)) "transaction_gas_limit_mismatch";;
  held_if (text_neq (tx_data transaction) "0x") "transaction_data_forbidden";;
  held_if (match tx_accessList transaction with Some n => (0 <? n)%nat | None => false end)
    "transaction_access_list_forbidden";;
  held_if (negb (bool_decide (sender ∈ np_sender_allowlist policy))) "transaction_sender_not_allowed";;
  let value := tx_value transaction in
  held_if (value <=? 0) "transaction_value_zero";;
  held_if (value >? np_max_value_wei policy) "transaction_value_exceeds_policy";;
  match tx_maxFeePerGas transaction, tx_maxPriorityFeePerGas transaction with
  | Some maxFeePerGas, Some maxPriorityFeePerGas =>
      held_if (maxPriorityFeePerGas >? maxFeePerGas) "transaction_priority_fee_exceeds_max_fee";;
      Next (mkCheckedTx transactionHash sender recipient value maxFeePerGas maxPriorityFeePerGas
        (tx_nonce transaction))
  | _, _ => Return (held "transaction_fee_fields_missing")
  end.

(** What the checks of the execution context establish. *)
Record CheckedContext := mkCheckedContext {
  cc_blockHash : string;
  cc_blockNumber : Z;
  cc_transactionIndex : Z;
  cc_effectiveGasPrice : Z;
  cc_feeDebit : Z;
  cc_feePolicyFingerprint : string
}.

Definition checkContext (policy : NormalizedPolicy) (tx : CheckedTx) (context : ExecutionContext)
    : step CheckedContext :=
  let blockHash := toLowerCase (ec_block_hash context) in
  held_if (negb (TRANSACTION_HASH blockHash)) "execution_block_hash_invalid";;
  blockNumber ← call (parseUint (ec_block_number context) "execution_block_number");
  transactionIndex ← call (parseUint (ec_transaction_index context) "execution_transaction_index");
  gasUsed ← call (parseUint (ec_gas_used context) "execution_gas_used");
  held_if (negb (gasUsed =? REQUIRED_GAS_LIMIT)) "execution_gas_used_mismatch";;
  effectiveGasPrice ← call (parseUint (ec_effective_gas_price_wei context) "effective_gas_price_wei");
  held_if (effectiveGasPrice >? ct_maxFeePerGas tx) "effective_gas_price_exceeds_transaction_max";;
  let feeDebit := gasUsed * effectiveGasPrice in
  held_if (feeDebit >? np_max_fee_debit_wei policy) "fee_debit_exceeds_policy";;
  let feePolicyFingerprint := toLowerCase (ec_fee_policy_fingerprint_sha256 context) in
  held_if (negb (SHA256 feePolicyFingerprint)) "fee_policy_fingerprint_invalid";;
  held_if (Z.of_nat (length (ec_fee_credits context)) >? np_max_fee_credit_count policy)
    "fee_credit_count_exceeds_policy";;
  Next (mkCheckedContext blockHash blockNumber transactionIndex effectiveGasPrice feeDebit
    feePolicyFingerprint).

(** The loop over the fee credits: the credits in order and their total. *)
Definition feeCreditStep (policy : NormalizedPolicy) (st : list NormalizedFeeCredit * Z) (item : FeeCredit)
    : step (list NormalizedFeeCredit * Z) :=
  let '(feeCredits, feeCreditTotal) := st in
  address ← call (normalizeAddress (fc_address item) "fee_credit_address");
  held_if (negb (bool_decide (address ∈ np_fee_credit_allowlist policy))) "fee_credit_address_not_allowed";;
  held_if (bool_decide (address ∈ map nfc_address feeCredits)) "fee_credit_address_duplicate";;
  amount ← call (parseUint (fc_amount_wei item) "fee_credit_amount_wei");
  held_if (amount <=? 0) "fee_credit_amount_zero";;
  Next (feeCredits ++ [mkNormalizedFeeCredit address (dec amount)], feeCreditTotal + amount).

Definition checkFeeCredits (policy : NormalizedPolicy) (feeDebit : Z) (items : list FeeCredit)
    : step (list NormalizedFeeCredit * Z) :=
  credited ← for_each (feeCreditStep policy) ([], 0) items;
  let '(feeCredits, feeCreditTotal) := credited in
  held_if (feeCreditTotal >? feeDebit) "fee_credit_total_exceeds_fee_debit";;
  Next (sort_by_address nfc_address feeCredits, feeCreditTotal).

(** [balanceDeltas] and [addDelta] *)
Definition addDelta (deltas : gmap string Z) (address : string) (delta : Z) : gmap string Z :=
  <[address := default 0 (deltas !! address) + delta]> deltas.

Definition balanceDeltas (tx : CheckedTx) (totalDebit : Z) (feeCredits : list NormalizedFeeCredit)
    : gmap string Z :=
  foldl (fun deltas credit => addDelta deltas (nfc_address credit) (BigInt (nfc_amount_wei credit)))
    (addDelta (addDelta ∅ (ct_sender tx) (- totalDebit)) (ct_recipient tx) (ct_value tx)) feeCredits.

Definition requireAccount (accounts : gmap string NormalizedAccount) (_ : unit) (address : string)
    : step unit :=
  return_if (negb (bool_decide (is_Some (accounts !! address))))
    (held_detail "state_snapshot_required_account_missing"
      ["missing_address_sha256" ~> sha256 (JStr address)]).

Definition changeStep (accounts : gmap string NormalizedAccount) (deltas : gmap string Z)
    (sender : string) (changes : list AccountChange) (address : string) : step (list AccountChange) :=
  match accounts !! address with
  | None => Return (held "state_snapshot_required_account_missing")
  | Some before =>
      let afterBalance := na_balance_wei before + default 0 (deltas !! address) in
      held_if (afterBalance <? 0) "poststate_balance_negative";;
      let afterNonce := if String.eqb address sender then na_nonce before + 1 else na_nonce before in
      Next (changes ++ [mkAccountChange address (dec (na_balance_wei before)) (dec afterBalance)
        (dec (na_nonce before)) (dec afterNonce)])
  end.

(** From the normalized snapshot to the account changes. *)
Definition computeChanges (accounts : gmap string NormalizedAccount) (tx : CheckedTx) (feeDebit : Z)
    (feeCredits : list NormalizedFeeCredit) : step (list AccountChange) :=
  let requiredAddresses := js_set (ct_sender tx :: ct_recipient tx :: map nfc_address feeCredits) in
  held_if (negb (size accounts =? length requiredAddresses)%nat) "state_snapshot_address_set_mismatch";;
  for_each (requireAccount accounts) tt requiredAddresses;;
  match accounts !! ct_sender tx with
  | None => Return (held "sender_state_missing")
  | Some senderState =>
      held_if (negb (na_nonce senderState =? ct_nonce tx)) "transaction_nonce_mismatch";;
      let totalDebit := ct_value tx + feeDebit in
      held_if (na_balance_wei senderState <? totalDebit) "sender_balance_insufficient";;
      for_each (changeStep accounts (balanceDeltas tx totalDebit feeCredits) (ct_sender tx)) []
        (isort str_leb requiredAddresses)
  end.

Definition transferIdempotencyKey (transactionHash : string) : string :=
  sha256 (JObj ["marker" ~> VOID_NATIVE_VALUE_TRANSFER_STATE_TRANSITION_V1;
                "chain_id" ~> "2050";
                "transaction_hash" ~> transactionHash]).

(** [{ ...withoutBinding, plan_binding_sha256 }] *)
Definition bindPlan (plan : PreparedPlan) : PreparedPlan :=
  mkPreparedPlan (pl_schema plan) (pl_marker plan) (pl_version plan) (pl_chain_id plan)
    (pl_transaction_type plan) (pl_transaction_hash plan) (pl_sender plan) (pl_recipient plan)
    (pl_value_wei plan) (pl_transaction_nonce plan) (pl_gas_limit plan) (pl_max_fee_per_gas_wei plan)
    (pl_max_priority_fee_per_gas_wei plan) (pl_block_hash plan) (pl_block_number plan)
    (pl_transaction_index plan) (pl_gas_used plan) (pl_effective_gas_price_wei plan)
    (pl_fee_debit_wei plan) (pl_fee_credits plan) (pl_fee_credit_total_wei plan) (pl_fee_burned_wei plan)
    (pl_fee_policy_fingerprint_sha256 plan) (pl_state_version plan) (pl_prestate_fingerprint_sha256 plan)
    (pl_poststate_fingerprint_sha256 plan) (pl_account_changes plan) (pl_idempotency_key_sha256 plan)
    (sha256 (planBindingMaterial plan)).

Definition buildPlan (stateVersion : string) (tx : CheckedTx) (context : CheckedContext)
    (feeCredits : list NormalizedFeeCredit) (feeCreditTotal : Z) (changes : list AccountChange)
    : PreparedPlan :=
  let feeBurned := cc_feeDebit context - feeCreditTotal in
  bindPlan {|
    pl_schema := "void_native_value_transfer_prepared_plan_v1";
    pl_marker := VOID_NATIVE_VALUE_TRANSFER_STATE_TRANSITION_V1;
    pl_version := 1;
    pl_chain_id := "2050";
    pl_transaction_type := 2;
    pl_transaction_hash := ct_hash tx;
    pl_sender := ct_sender tx;
    pl_recipient := ct_recipient tx;
    pl_value_wei := dec (ct_value tx);
    pl_transaction_nonce := dec (ct_nonce tx);
    pl_gas_limit := "21000";
    pl_max_fee_per_gas_wei := dec (ct_maxFeePerGas tx);
    pl_max_priority_fee_per_gas_wei := int_text (ct_maxPriorityFeePerGas tx);
    pl_block_hash := cc_blockHash context;
    pl_block_number := dec (cc_blockNumber context);
    pl_transaction_index := dec (cc_transactionIndex context);
    pl_gas_used := "21000";
    pl_effective_gas_price_wei := dec (cc_effectiveGasPrice context);
    pl_fee_debit_wei := dec (cc_feeDebit context);
    pl_fee_credits := feeCredits;
    pl_fee_credit_total_wei := dec feeCreditTotal;
    pl_fee_burned_wei := dec feeBurned;
    pl_fee_policy_fingerprint_sha256 := cc_feePolicyFingerprint context;
    pl_state_version := stateVersion;
    pl_prestate_fingerprint_sha256 := accountFingerprint stateVersion changes Before;
    pl_poststate_fingerprint_sha256 := accountFingerprint stateVersion changes After;
    pl_account_changes := changes;
    pl_idempotency_key_sha256 := transferIdempotencyKey (ct_hash tx);
    pl_plan_binding_sha256 := EmptyString
  |}.

Definition prepareBody (input : TransferInput) : step PreparedPlan :=
  policy ← call (normalizePolicy (in_policy input));
  snapshot ← call (normalizeSnapshot (in_snapshot input));
  let '(stateVersion, accounts) := snapshot in
  let raw := trim (in_raw_signed_transaction input) in
  tx ← checkTransaction policy raw;
  context ← checkContext policy tx (in_execution_context input);
  credited ← checkFeeCredits policy (cc_feeDebit context) (ec_fee_credits (in_execution_context input));
  let '(feeCredits, feeCreditTotal) := credited in
  changes ← computeChanges accounts tx (cc_feeDebit context) feeCredits;
  Next (buildPlan stateVersion tx context feeCredits feeCreditTotal changes).

Definition prepareVoidNativeValueTransferStateTransitionV1 (input : TransferInput)
    : PrepareDecision PreparedPlan :=
  decide_body (prepareBody input) (fun message =>
    held_detail "native_value_transfer_prepare_error" ["error_code" ~> message]).

(** ** Applying a plan *)

Record StoreApplyRequest := mkStoreApplyRequest {
  sr_marker : string;
  sr_version : Z;
  sr_confirmation : string;
  sr_idempotency_key_sha256 : string;
  sr_transaction_hash : string;
  sr_state_version : string;
  sr_prestate_fingerprint_sha256 : string;
  sr_poststate_fingerprint_sha256 : string;
  sr_plan_binding_sha256 : string;
  sr_account_changes : list AccountChange;
  sr_fee_burned_wei : string;
  sr_raw_signed_transaction_included : bool
}.

Inductive StoreApplyResult : Type :=
| StoreApplied (commit_id state_version transaction_hash : string)
| StoreNotApplied (why existing_transaction_hash : option string) (submitted : option bool).

Inductive ApplyDecision : Type :=
| TransferApplied (transaction_hash idempotency_key_sha256 commit_id state_version : string)
| TransferHeld (h : Held).

Definition storeRequest (plan : PreparedPlan) : StoreApplyRequest := {|
  sr_marker := VOID_NATIVE_VALUE_TRANSFER_STATE_TRANSITION_V1;
  sr_version := 1;
  sr_confirmation := VOID_NATIVE_VALUE_TRANSFER_CONFIRMATION_V1;
  sr_idempotency_key_sha256 := pl_idempotency_key_sha256 plan;
  sr_transaction_hash := pl_transaction_hash plan;
  sr_state_version := pl_state_version plan;
  sr_prestate_fingerprint_sha256 := pl_prestate_fingerprint_sha256 plan;
  sr_poststate_fingerprint_sha256 := pl_poststate_fingerprint_sha256 plan;
  sr_plan_binding_sha256 := pl_plan_binding_sha256 plan;
  sr_account_changes := pl_account_changes plan;
  sr_fee_burned_wei := pl_fee_burned_wei plan;
  sr_raw_signed_transaction_included := false
|}.

(** [text || fallback] *)
Definition or_text (text : option string) (fallback : string) : string :=
  match text with None | Some EmptyString => fallback | Some s => s end.

Definition null_or_text (text : option string) : json :=
  match text with Some s => JStr s | None => JNull end.

(** What the answer of the store becomes. *)
Definition storeReceipt (plan : PreparedPlan) (result : res StoreApplyResult) : ApplyDecision :=
  match result with
  | Throw error =>
      TransferHeld (mkHeld "native_value_transfer_store_error" false true
        (Some (JObj ["error_class" ~> error])))
  | Ok (StoreNotApplied why existing submitted) =>
      TransferHeld (mkHeld (or_text why "native_value_transfer_not_applied") false
        (default false submitted) (Some (JObj ["existing_transaction_hash" ~> null_or_text existing])))
  | Ok (StoreApplied commit_id state_version transaction_hash) =>
      let commitId := trim commit_id in
      let stateVersion := trim state_version in
      let transactionHash := toLowerCase transaction_hash in
      if negb (SAFE_ID commitId) || negb (SAFE_ID stateVersion)
      then TransferHeld (mkHeld "native_value_transfer_store_receipt_invalid" false true None)
      else if text_neq transactionHash (pl_transaction_hash plan)
      then TransferHeld (mkHeld "native_value_transfer_store_hash_mismatch" false true None)
      else TransferApplied transactionHash (pl_idempotency_key_sha256 plan) commitId stateVersion
  end.

(** The store is a method that may change a state [S]; [None] when it is not configured. *)
Definition applyVoidNativeValueTransferStateTransitionV1 {S : Type} (plan : PreparedPlan)
    (confirmation : string) (store : option (S -> StoreApplyRequest -> S * res StoreApplyResult)) (s : S)
    : S * ApplyDecision :=
  if text_neq confirmation VOID_NATIVE_VALUE_TRANSFER_CONFIRMATION_V1
  then (s, TransferHeld (held "exact_confirmation_required"))
  else match store with
  | None => (s, TransferHeld (held "native_value_transfer_store_not_configured"))
  | Some apply_native_value_transfer_once =>
      match validatePlan plan with
      | Some planFailure => (s, TransferHeld (held planFailure))
      | None =>
          let '(s', result) := apply_native_value_transfer_once s (storeRequest plan) in
          (s', storeReceipt plan result)
      end
  end.
End transfer.

(** ** From records to the abstract ledger *)

Definition ledger_of (m : gmap string NormalizedAccount) : Ledger :=
  (fun x => (na_balance_wei x, na_nonce x)) <$> m.

Definition change_entry (side : Side) (c : AccountChange) : string * (Z * Z) :=
  (ch_address c, (BigInt (side_balance side c), BigInt (side_nonce side c))).

Definition changes_ledger (side : Side) (cs : list AccountChange) : Ledger :=
  list_to_map (map (change_entry side) cs).

Definition credit_entry (c : NormalizedFeeCredit) : string * Z := (nfc_address c, BigInt (nfc_amount_wei c)).

Definition plan_transfer (p : PreparedPlan) : Transfer :=
  mkTransfer (pl_sender p) (pl_recipient p) (BigInt (pl_value_wei p)) (BigInt (pl_fee_debit_wei p))
    (map credit_entry (pl_fee_credits p)) (BigInt (pl_transaction_nonce p)).

Definition tx_transfer (tx : CheckedTx) (fee : Z) (credits : list NormalizedFeeCredit) : Transfer :=
  mkTransfer (ct_sender tx) (ct_recipient tx) (ct_value tx) fee (map credit_entry credits) (ct_nonce tx).

(** The change of one account under a transfer. *)
Definition changed (m : gmap string NormalizedAccount) (t : Transfer) (a : string) (c : AccountChange)
    : Prop :=
  exists before, m !! a = Some before /\ 0 <= na_balance_wei before + delta t a /\
    c = mkAccountChange a (dec (na_balance_wei before)) (dec (na_balance_wei before + delta t a))
      (dec (na_nonce before)) (dec (na_nonce before + only (t_sender t) 1 a)).

(** Amounts and nonces of a normalized snapshot are not negative; keys are the canonical
    addresses of their accounts. *)
Definition snapshot_wf (m : gmap string NormalizedAccount) : Prop :=
  forall a x, m !! a = Some x ->
    na_address x = a /\ is_account a = true /\ 0 <= na_balance_wei x /\ 0 <= na_nonce x.

(** ** The snapshot *)

Section snapshot_lemmas.
Context `{E : Ethers}.

Definition normalized (item : AccountState) (n : NormalizedAccount) : Prop :=
  normalizeAddress (as_address item) "account_address" = Ok (na_address n) /\
  parseUint (as_balance_wei item) "account_balance_wei" = Ok (na_balance_wei n) /\
  parseUint (as_nonce item) "account_nonce" = Ok (na_nonce n).

Definition by_address (ns : list NormalizedAccount) : gmap string NormalizedAccount :=
  list_to_map (map (fun n => (na_address n, n)) ns).

Lemma by_address_keys ns : (map (fun n => (na_address n, n)) ns).*1 = map na_address ns.
Proof. clear. induction ns; [done|]. cbn [map]. by rewrite fmap_cons, IHns. Qed.

Lemma by_address_None ns a : by_address ns !! a = None <-> a ∉ map na_address ns.
Proof. unfold by_address. by rewrite <- not_elem_of_list_to_map, by_address_keys. Qed.

Lemma snapshotStep_Ok acc item m : snapshotStep acc item = Ok m <->
  exists n, normalized item n /\ acc !! na_address n = None /\ m = <[na_address n := n]> acc.
Proof.
  unfold snapshotStep, normalized. split.
  - intros H. inv_ok. case_bool_decide as Hn; [discriminate|]. apply eq_None_not_Some in Hn.
    by exists (mkNormalizedAccount x x1 x2).
  - intros ([a b n] & (-> & -> & ->) & Hn & ->). simpl in *. rewrite Hn. done.
Qed.

Lemma snapshotLoop_Ok l acc m : foldM snapshotStep acc l = Ok m <->
  exists ns, Forall2 normalized l ns /\ NoDup (map na_address ns) /\
    (forall n, n ∈ ns -> acc !! na_address n = None) /\ m = by_address ns ∪ acc.
Proof.
  revert acc. induction l as [|item l IH]; intros acc; simpl.
  - split.
    + intros [= ->]. exists []. split; [constructor|]. split; [constructor|].
      split; [set_solver|]. unfold by_address; simpl. by rewrite map_empty_union.
    + intros (ns & Hns & _ & _ & ->). inversion Hns; subst.
      unfold by_address; simpl. by rewrite map_empty_union.
  - rewrite bind_Ok. setoid_rewrite snapshotStep_Ok. split.
    + intros (m1 & (n & Hn & Hacc & ->) & (ns & Hns & Hnd & Hnone & ->)%IH). exists (n :: ns).
      assert (na_address n ∉ map na_address ns) as Hni.
      { intros (n' & Heq & Hn')%list_elem_of_fmap. specialize (Hnone n' Hn').
        rewrite <- Heq, lookup_insert_eq in Hnone. discriminate. }
      split; [by constructor|]. split; [by constructor|]. split.
      * intros n' [->|Hn']%elem_of_cons; [done|]. specialize (Hnone n' Hn').
        rewrite lookup_insert_ne in Hnone; [done|]. intros Heq. apply Hni. rewrite Heq.
        by apply list_elem_of_fmap_2.
      * unfold by_address in *. simpl. rewrite <- insert_union_l.
        by rewrite insert_union_r by (by apply by_address_None).
    + intros (ns & Hns & Hnd & Hnone & ->). inversion Hns as [|? n ? ns' Hn Hns']; subst.
      cbn [map] in Hnd. apply NoDup_cons in Hnd as [Hni Hnd].
      exists (<[na_address n := n]> acc). split.
      { exists n. split; [done|]. split; [|done]. apply Hnone. left. }
      apply IH. exists ns'. split; [done|]. split; [done|]. split.
      * intros n' Hn'. rewrite lookup_insert_ne; [apply Hnone; by right|]. intros Heq. apply Hni.
        rewrite Heq. by apply list_elem_of_fmap_2.
      * unfold by_address. simpl. rewrite <- insert_union_l.
        by rewrite insert_union_r by (by apply by_address_None).
Qed.

Lemma normalizeSnapshot_Ok s v m : normalizeSnapshot s = Ok (v, m) <->
  v = trim (ss_state_version s) /\ SAFE_ID v = true /\ ss_accounts s <> [] /\
  exists ns, Forall2 normalized (ss_accounts s) ns /\ NoDup (map na_address ns) /\ m = by_address ns.
Proof.
  unfold normalizeSnapshot. split.
  - intros H. inv_ok. bool_prop. apply snapshotLoop_Ok in H2 as (ns & ? & ? & _ & ->).
    apply bool_decide_eq_false in H1. rewrite map_union_empty. eauto 10.
  - intros (-> & -> & Hne & ns & Hns & Hnd & ->). rewrite bool_decide_eq_false_2 by done. simpl.
    rewrite (proj2 (snapshotLoop_Ok (ss_accounts s) ∅ (by_address ns))); [done|].
    exists ns. split; [done|]. split; [done|]. split; [done|]. by rewrite map_union_empty.
Qed.

Lemma by_address_Some ns a x : NoDup (map na_address ns) ->
  by_address ns !! a = Some x <-> x ∈ ns /\ na_address x = a.
Proof.
  intros Hnd. unfold by_address. rewrite <- elem_of_list_to_map by (by rewrite by_address_keys).
  rewrite list_elem_of_fmap. split; [by intros (y & [= -> ->] & ?)|]. intros [? <-]. eauto.
Qed.

Lemma normalizeSnapshot_wf `{!EthersLaws E} s v m : normalizeSnapshot s = Ok (v, m) -> snapshot_wf m.
Proof.
  intros (_ & _ & _ & ns & Hns & Hnd & ->)%normalizeSnapshot_Ok a x.
  intros [Hx <-]%by_address_Some; [|done].
  apply list_elem_of_lookup in Hx as [i Hi].
  destruct (Forall2_lookup_r _ _ _ _ _ Hns Hi) as (item & _ & Ha & Hb & Hn).
  split; [done|]. split; [by eapply normalizeAddress_account|]. split; by eapply parseUint_nonneg.
Qed.
End snapshot_lemmas.

(** ** Balance changes *)

Lemma default_addDelta d x v a : default 0 (addDelta d x v !! a) = default 0 (d !! a) + only x v a.
Proof.
  unfold addDelta, only. destruct (decide (a = x)) as [->|Hne].
  - by rewrite lookup_insert_eq.
  - rewrite lookup_insert_ne by done. lia.
Qed.

Lemma foldl_addDelta credits d a :
  default 0 (foldl (fun d c => addDelta d (nfc_address c) (BigInt (nfc_amount_wei c))) d credits !! a) =
    default 0 (d !! a) + credit_to (map credit_entry credits) a.
Proof.
  revert d. induction credits as [|c credits IH]; intros d; simpl; [lia|].
  rewrite IH, default_addDelta. lia.
Qed.

Lemma balanceDeltas_delta tx fee credits a :
  default 0 (balanceDeltas tx (ct_value tx + fee) credits !! a) = delta (tx_transfer tx fee credits) a.
Proof.
  unfold balanceDeltas. rewrite foldl_addDelta, !default_addDelta, lookup_empty.
  unfold delta, only; simpl. repeat case_decide; lia.
Qed.

Lemma after_nonce (sender a : string) n :
  (if String.eqb a sender then n + 1 else n) = n + only sender 1 a.
Proof.
  unfold only. destruct (String.eqb_spec a sender) as [->|Hne].
  - by rewrite decide_True.
  - rewrite decide_False by done. lia.
Qed.

Section change_lemmas.
Context `{D : Digest}.

Lemma changeLoop_Next m tx fee credits l acc cs :
  for_each (changeStep m (balanceDeltas tx (ct_value tx + fee) credits) (ct_sender tx)) acc l = Next cs <->
  exists cs', cs = acc ++ cs' /\ Forall2 (changed m (tx_transfer tx fee credits)) l cs'.
Proof.
  revert acc. induction l as [|a l IH]; intros acc; simpl.
  { split; [intros [= ->]; exists []; by rewrite app_nil_r|].
    intros (cs' & -> & H). inversion H. by rewrite app_nil_r. }
  rewrite bind_Next. unfold changeStep at 1. unfold changed in IH |- *.
  rewrite balanceDeltas_delta. split.
  - intros (c & Hc & (cs' & -> & Hcs)%IH). destruct (m !! a) as [before|] eqn:Ha; [|discriminate].
    held_flow. eexists (_ :: cs'). rewrite <- app_assoc. split; [done|]. constructor; [|done].
    exists before. split; [done|]. split; [lia|]. by rewrite after_nonce.
  - intros (cs0 & -> & Hcs). inversion Hcs as [|? c ? cs' (before & Ha & Hpos & ->) Hcs']; subst.
    eexists. rewrite Ha. split.
    + rewrite held_if_false by lia. reflexivity.
    + apply IH. exists cs'. rewrite <- app_assoc. split; [|done]. by rewrite after_nonce.
Qed.

Lemma requireLoop_Next m l u : for_each (requireAccount m) tt l = Next u <-> forall a, a ∈ l -> is_Some (m !! a).
Proof.
  destruct u. induction l as [|a l IH]; simpl; [split; [set_solver|done]|].
  rewrite bind_Next. unfold requireAccount at 1. setoid_rewrite return_if_Next. split.
  - intros ([] & Hb%negb_false_iff%bool_decide_eq_true & Hl) x [->|Hx]%elem_of_cons; [done|].
    exact (proj1 IH Hl x Hx).
  - intros Hl. exists tt. rewrite bool_decide_eq_true_2 by (apply Hl; left). split; [done|].
    apply IH. intros; apply Hl. by right.
Qed.

(** As many known accounts as required ones, all required ones known: the same set. *)
Lemma same_accounts {A} (m : gmap string A) l : NoDup l -> size m = length l ->
  (forall a, a ∈ l -> is_Some (m !! a)) -> forall a, is_Some (m !! a) <-> a ∈ l.
Proof.
  intros Hnd Hsize Hin.
  assert ((list_to_set l : gset string) = dom m) as Heq.
  { apply set_subseteq_size_eq.
    - intros a Ha%elem_of_list_to_set. by apply elem_of_dom, Hin.
    - rewrite size_dom, size_list_to_set by done. lia. }
  intros a. rewrite <- elem_of_dom, <- Heq. apply elem_of_list_to_set.
Qed.

Definition required (t : Transfer) : list string := isort str_leb (js_set (touched t)).

Lemma required_NoDup t : NoDup (required t).
Proof. unfold required. rewrite isort_perm. apply js_set_NoDup. Qed.

Lemma elem_of_required t a : a ∈ required t <-> a ∈ touched t.
Proof. unfold required. rewrite isort_perm. apply elem_of_js_set. Qed.

Lemma map_fst_credits credits : map fst (map credit_entry credits) = map nfc_address credits.
Proof. by rewrite map_map. Qed.

Lemma size_accounts {A} (m : gmap string A) l : NoDup l -> (forall a, is_Some (m !! a) <-> a ∈ l) ->
  size m = length l.
Proof.
  intros Hnd Heq. rewrite <- size_dom, <- (size_list_to_set (C := gset string) l) by done.
  f_equal. apply set_eq. intros a. rewrite elem_of_dom, elem_of_list_to_set. apply Heq.
Qed.

(** The account changes of a transfer, and when there are any. *)
Lemma computeChanges_Next m tx fee credits cs :
  let t := tx_transfer tx fee credits in
  computeChanges m tx fee credits = Next cs <->
  (forall a, is_Some (m !! a) <-> a ∈ touched t) /\
  (exists st, m !! t_sender t = Some st /\ na_nonce st = t_nonce t /\ t_value t + t_fee t <= na_balance_wei st) /\
  Forall2 (changed m t) (required t) cs.
Proof.
  intros t. unfold computeChanges, required.
  assert (js_set (touched t) = js_set (ct_sender tx :: ct_recipient tx :: map nfc_address credits)) as Htouch
    by (unfold touched; simpl; by rewrite map_fst_credits).
  rewrite <- Htouch. pose proof (js_set_NoDup (touched t)) as Hnd. split.
  - intros H. held_flow. bool_prop. destruct (m !! ct_sender tx) as [st|] eqn:Hst; [|discriminate].
    held_flow. bool_prop. apply changeLoop_Next in H as (cs' & -> & Hcs).
    assert (forall a, is_Some (m !! a) <-> a ∈ js_set (touched t)) as Hsame.
    { apply same_accounts; [done|by apply Nat.eqb_eq|by eapply requireLoop_Next]. }
    split; [intros a; by rewrite Hsame, elem_of_js_set|]. split; [|done]. exists st. simpl.
    split; [done|]. lia.
  - intros (Hsame & (st & Hst & Hnonce & Hpay) & Hcs).
    assert (forall a, is_Some (m !! a) <-> a ∈ js_set (touched t)) as Hset
      by (intros a; by rewrite elem_of_js_set, Hsame).
    simpl in *. rewrite held_if_false.
    2: { rewrite (size_accounts m (js_set (touched t))) by done. by rewrite Nat.eqb_refl. }
    rewrite (proj2 (requireLoop_Next m (js_set (touched t)) tt)) by (intros; by apply Hset). cbn.
    rewrite Hst, held_if_false by (apply negb_false_iff; lia). rewrite held_if_false by lia.
    apply changeLoop_Next. by exists cs.
Qed.

Lemma changed_addresses m t l cs : Forall2 (changed m t) l cs -> map ch_address cs = l.
Proof. induction 1 as [|a c l cs (b & _ & _ & ->) _ IH]; simpl; [done|]. by rewrite IH. Qed.

Lemma change_entry_keys side cs : (map (change_entry side) cs).*1 = map ch_address cs.
Proof. induction cs as [|c cs IH]; [done|]. cbn [map]. by rewrite fmap_cons, IH. Qed.

Section changes.
Context (m : gmap string NormalizedAccount) (t : Transfer) (cs : list AccountChange).
Context (Hwf : snapshot_wf m) (Hcs : Forall2 (changed m t) (required t) cs).
Context (Hdom : forall a, is_Some (m !! a) <-> a ∈ touched t).

Lemma changes_lookup side a : changes_ledger side cs !! a =
  (fun x => match side with
    | Before => (na_balance_wei x, na_nonce x)
    | After => (na_balance_wei x + delta t a, na_nonce x + only (t_sender t) 1 a)
    end) <$> m !! a.
Proof.
  unfold changes_ledger. pose proof (changed_addresses _ _ _ _ Hcs) as Haddr.
  assert (NoDup (map (change_entry side) cs).*1) as Hnd
    by (rewrite change_entry_keys, Haddr; apply required_NoDup).
  destruct (m !! a) as [x|] eqn:Ha; simpl.
  - assert (a ∈ required t) as Hin by (apply elem_of_required, Hdom; by eexists).
    apply list_elem_of_lookup in Hin as [i Hi].
    destruct (Forall2_lookup_l _ _ _ _ _ Hcs Hi) as (c & Hc & before & Hb & Hge & ->).
    apply elem_of_list_to_map_1; [done|]. apply list_elem_of_lookup. exists i.
    rewrite list_lookup_fmap, Hc. simpl. assert (before = x) as -> by congruence.
    destruct (Hwf a x Ha) as (_ & _ & ? & ?). unfold change_entry. simpl.
    assert (0 <= only (t_sender t) 1 a) by (unfold only; case_decide; lia).
    destruct side; simpl; rewrite !BigInt_dec by lia; done.
  - apply not_elem_of_list_to_map_1. rewrite change_entry_keys, Haddr, elem_of_required, <- Hdom, Ha.
    apply is_Some_None.
Qed.

Lemma changes_before : changes_ledger Before cs = ledger_of m.
Proof. apply map_eq. intros a. unfold ledger_of. by rewrite changes_lookup, lookup_fmap. Qed.

Lemma changes_after : changes_ledger After cs = move t (ledger_of m).
Proof.
  apply map_eq. intros a. unfold ledger_of. rewrite changes_lookup, lookup_move, lookup_fmap.
  by destruct (m !! a).
Qed.
End changes.
End change_lemmas.

(** ** The checks of a request *)

(** Fee credits that went through: positive amounts for distinct accounts. *)
Record credits_wf (cs : list NormalizedFeeCredit) : Prop := mkCreditsWf {
  credits_amounts : Forall (fun c => exists z, 0 < z /\ nfc_amount_wei c = dec z) cs;
  credits_accounts : Forall (fun c => is_account (nfc_address c) = true) cs;
  credits_distinct : NoDup (map nfc_address cs)
}.

Lemma credits_wf_perm cs cs' : cs ≡ₚ cs' -> credits_wf cs -> credits_wf cs'.
Proof. intros Hp [? ? ?]. split; by rewrite <- Hp. Qed.

Lemma credits_positive cs : credits_wf cs -> Forall (fun c => 0 < c.2) (map credit_entry cs).
Proof.
  intros [Ha _ _]. rewrite Forall_map. eapply Forall_impl; [done|]. intros c (z & Hz & Hc). simpl.
  rewrite Hc, BigInt_dec; lia.
Qed.

Section check_lemmas.
Context `{D : Digest} `{E : Ethers} `{!EthersLaws E} `{L : Locale}.

Lemma feeCreditLoop_Next policy items cs total :
  for_each (feeCreditStep policy) ([], 0) items = Next (cs, total) ->
  credits_wf cs /\ total = sumZ snd (map credit_entry cs).
Proof.
  intros H. apply (for_each_inv (fun st => credits_wf st.1 /\ st.2 = sumZ snd (map credit_entry st.1))) in H;
    [done| |by split; [split; constructor|]].
  clear H cs total. intros [cs total] item [cs' total'] _ [[Ha Hacc Hd] Htot] Hs. simpl in *. held_flow. bool_prop.
  rename x into address, x2 into amount.
  split; [split|].
  - apply Forall_app. split; [done|]. constructor; [|done]. exists amount. split; [lia|done].
  - apply Forall_app. split; [done|]. constructor; [|done]. by eapply normalizeAddress_account.
  - rewrite map_app. apply NoDup_snoc. split; [done|]. by eapply bool_decide_eq_false_1.
  - rewrite map_app, sumZ_app. cbn. rewrite BigInt_dec by lia. lia.
Qed.

Lemma checkFeeCredits_Next policy fee items cs total :
  checkFeeCredits policy fee items = Next (cs, total) ->
  credits_wf cs /\ total = sumZ snd (map credit_entry cs) /\ 0 <= total <= fee.
Proof.
  unfold checkFeeCredits. intros H. held_flow. destruct x as [cs0 total0]. held_flow.
  apply feeCreditLoop_Next in H0 as [Hwf ->].
  pose proof (credits_wf_perm _ _ (symmetry (sort_by_address_perm nfc_address cs0)) Hwf) as Hwf'.
  split; [done|]. rewrite (sort_by_address_perm nfc_address cs0). split; [done|]. split; [|lia].
  apply sumZ_nonneg. eapply Forall_impl; [by apply credits_positive|]. simpl. lia.
Qed.

Lemma checkContext_Next policy tx c cc : checkContext policy tx c = Next cc ->
  TRANSACTION_HASH (cc_blockHash cc) = true /\ SHA256 (cc_feePolicyFingerprint cc) = true /\
  0 <= cc_blockNumber cc /\ 0 <= cc_transactionIndex cc /\
  cc_feeDebit cc = 21000 * cc_effectiveGasPrice cc /\ 0 <= cc_effectiveGasPrice cc <= ct_maxFeePerGas tx /\
  cc_feeDebit cc <= np_max_fee_debit_wei policy.
Proof.
  unfold checkContext. intros H. held_flow. bool_prop. simpl.
  repeat match goal with H : parseUint _ _ = Ok _ |- _ => apply parseUint_nonneg in H end.
  unfold REQUIRED_GAS_LIMIT in *. repeat split; try done; lia.
Qed.

Lemma optionalAddress_account o label a : optionalAddress o label = Ok a -> a <> EmptyString ->
  is_account a = true.
Proof.
  unfold optionalAddress. destruct o as [[|c s]|]; [congruence| |congruence].
  intros H _. by eapply normalizeAddress_account.
Qed.

Lemma checkTransaction_Next policy raw ct : checkTransaction policy raw = Next ct ->
  TRANSACTION_HASH (ct_hash ct) = true /\ is_account (ct_sender ct) = true /\
  is_account (ct_recipient ct) = true /\ ct_sender ct ∈ np_sender_allowlist policy /\
  0 < ct_value ct <= np_max_value_wei policy /\ ct_maxPriorityFeePerGas ct <= ct_maxFeePerGas ct.
Proof.
  unfold checkTransaction. intros H. held_flow. rename x0 into tx, x1 into sender, x2 into recipient.
  destruct (tx_maxFeePerGas tx), (tx_maxPriorityFeePerGas tx); try discriminate. held_flow. bool_prop. simpl.
  repeat match goal with H : String.eqb _ _ = false |- _ => apply String.eqb_neq in H end.
  split; [done|]. split; [by eapply optionalAddress_account|].
  split; [by eapply optionalAddress_account|]. split; [by eapply bool_decide_eq_true_1|]. lia.
Qed.
End check_lemmas.

(** ** The binding of a plan *)

Lemma change_json_inj a b : norm (change_json a) = norm (change_json b) -> a = b.
Proof. destruct a, b. intros H. vm_compute in H. congruence. Qed.

Lemma fee_credit_json_inj a b : norm (fee_credit_json a) = norm (fee_credit_json b) -> a = b.
Proof. destruct a, b. intros H. vm_compute in H. congruence. Qed.

Lemma planBindingMaterial_inj p q : norm (planBindingMaterial p) = norm (planBindingMaterial q) ->
  pl_plan_binding_sha256 p = pl_plan_binding_sha256 q -> p = q.
Proof.
  intros H Hb. unfold planBindingMaterial in H.
  assert (NoDup (object_keys (planBindingMaterial q))) as Hnd by distinct_keys.
  pose proof (norm_array_inj _ _ _ fee_credit_json_inj (norm_prop _ _ "fee_credits" H Hnd)) as Hc.
  pose proof (norm_array_inj _ _ _ change_json_inj (norm_prop _ _ "account_changes" H Hnd)) as Ha.
  norm_fields H Hnd ["schema"; "marker"; "version"; "chain_id"; "transaction_type"; "transaction_hash";
    "sender"; "recipient"; "value_wei"; "transaction_nonce"; "gas_limit"; "max_fee_per_gas_wei";
    "max_priority_fee_per_gas_wei"; "block_hash"; "block_number"; "transaction_index"; "gas_used";
    "effective_gas_price_wei"; "fee_debit_wei"; "fee_credit_total_wei"; "fee_burned_wei";
    "fee_policy_fingerprint_sha256"; "state_version"; "prestate_fingerprint_sha256";
    "poststate_fingerprint_sha256"; "idempotency_key_sha256"]%string.
  clear H Hnd. destruct p, q. equal_fields.
Qed.

Lemma change_json_prints c : prints (change_json c).
Proof. prints_record. Qed.

Lemma fee_credit_json_prints c : prints (fee_credit_json c).
Proof. prints_record. Qed.

Lemma planBindingMaterial_prints p : pl_version p = 1 -> pl_transaction_type p = 2 ->
  prints (planBindingMaterial p).
Proof. intros Hv Ht. unfold planBindingMaterial. rewrite Hv, Ht. prints_record; apply prints_rendered; auto using change_json_prints, fee_credit_json_prints. Qed.

(** ** Prepared plans *)

Section prepared.
Context `{D : Digest} `{!DigestShape D} `{E : Ethers} `{!EthersLaws E} `{L : Locale}.

(** The parts a prepared plan is made of. *)
Lemma prepare_parts input plan : prepareVoidNativeValueTransferStateTransitionV1 input = Prepared plan <->
  exists policy version m tx context credits total cs,
    normalizePolicy (in_policy input) = Ok policy /\
    normalizeSnapshot (in_snapshot input) = Ok (version, m) /\
    checkTransaction policy (trim (in_raw_signed_transaction input)) = Next tx /\
    checkContext policy tx (in_execution_context input) = Next context /\
    checkFeeCredits policy (cc_feeDebit context) (ec_fee_credits (in_execution_context input)) =
      Next (credits, total) /\
    computeChanges m tx (cc_feeDebit context) credits = Next cs /\
    plan = buildPlan version tx context credits total cs.
Proof.
  unfold prepareVoidNativeValueTransferStateTransitionV1, prepareBody.
  rewrite decide_body_Prepared. split.
  - intros H. held_flow. destruct x0 as [version m]. held_flow. destruct x2 as [credits total]. held_flow.
    eauto 20.
  - intros (policy & version & m & tx & context & credits & total & cs & Hp & Hs & Ht & Hc & Hf & Hch & ->).
    rewrite (call_Ok _ policy) by done. rewrite (call_Ok _ (version, m)) by done.
    rewrite Ht. simpl. rewrite Hc. simpl. rewrite Hf. simpl. by rewrite Hch.
Qed.

(** What the ledger sees of a prepared plan. *)
Lemma prepared_ledger input plan : prepareVoidNativeValueTransferStateTransitionV1 input = Prepared plan ->
  exists version m, normalizeSnapshot (in_snapshot input) = Ok (version, m) /\ pl_state_version plan = version /\
    let t := plan_transfer plan in
    changes_ledger Before (pl_account_changes plan) = ledger_of m /\
    changes_ledger After (pl_account_changes plan) = move t (ledger_of m) /\
    legal (ledger_of m) t /\ BigInt (pl_fee_burned_wei plan) = burned t /\
    BigInt (pl_fee_credit_total_wei plan) = sumZ snd (t_credits t) /\
    Forall2 (changed m t) (required t) (pl_account_changes plan) /\
    (forall a, is_Some (m !! a) <-> a ∈ touched t) /\
    0 <= t_fee t /\ credits_wf (pl_fee_credits plan).
Proof.
  intros (policy & version & m & tx & context & credits & total & cs & _ & Hs & Ht & Hc & Hf & Hch & ->)%prepare_parts.
  exists version, m. split; [done|]. split; [done|].
  pose proof (normalizeSnapshot_wf _ _ _ Hs) as Hwf.
  apply checkTransaction_Next in Ht as (_ & _ & _ & _ & Hvalue & _).
  apply checkContext_Next in Hc as (_ & _ & _ & _ & Hfee & Hprice & _).
  apply checkFeeCredits_Next in Hf as (Hcwf & -> & Htotal).
  apply computeChanges_Next in Hch as (Hdom & (st & Hst & Hnonce & Hpay) & Hcs).
  assert (plan_transfer (buildPlan version tx context credits (sumZ snd (map credit_entry credits)) cs)
    = tx_transfer tx (cc_feeDebit context) credits) as ->.
  { unfold plan_transfer, tx_transfer. simpl. destruct (Hwf _ _ Hst) as (_ & _ & _ & ?).
    simpl in *. rewrite !BigInt_dec by lia. done. }
  simpl. rewrite (changes_before m _ cs Hwf Hcs Hdom), (changes_after m _ cs Hwf Hcs Hdom).
  simpl in *. unfold burned. simpl. rewrite !BigInt_dec by lia.
  repeat split; try done; try lia; try (by eapply credits_positive); try apply Hcwf; try apply Hdom.
  - intros a Ha. unfold ledger_of. rewrite lookup_fmap, fmap_is_Some. by apply Hdom.
  - exists (na_balance_wei st). unfold ledger_of. simpl. by rewrite lookup_fmap, Hst, <- Hnonce.
  - simpl. lia.
  - simpl. lia.
Qed.

Lemma if_None {A} (b : bool) (x : A) (y : option A) :
  (if b then Some x else y) = None <-> b = false /\ y = None.
Proof. destruct b; naive_solver. Qed.

(** What [validatePlan] accepts. *)
Lemma validatePlan_None (p : PreparedPlan) : validatePlan p = None <->
  (pl_schema p = "void_native_value_transfer_prepared_plan_v1"%string /\
   pl_marker p = VOID_NATIVE_VALUE_TRANSFER_STATE_TRANSITION_V1 /\ pl_version p = 1 /\
   pl_chain_id p = "2050"%string /\ pl_transaction_type p = 2 /\ pl_gas_limit p = "21000"%string /\
   pl_gas_used p = "21000"%string) /\
  TRANSACTION_HASH (pl_transaction_hash p) = true /\
  (SHA256 (pl_prestate_fingerprint_sha256 p) = true /\ SHA256 (pl_poststate_fingerprint_sha256 p) = true /\
   SHA256 (pl_idempotency_key_sha256 p) = true /\ SHA256 (pl_plan_binding_sha256 p) = true /\
   SHA256 (pl_fee_policy_fingerprint_sha256 p) = true) /\
  pl_account_changes p <> [] /\
  accountFingerprint (pl_state_version p) (pl_account_changes p) Before = pl_prestate_fingerprint_sha256 p /\
  accountFingerprint (pl_state_version p) (pl_account_changes p) After = pl_poststate_fingerprint_sha256 p /\
  sha256 (planBindingMaterial p) = pl_plan_binding_sha256 p.
Proof.
  unfold validatePlan, text_neq. rewrite !if_None, !orb_false_iff, !negb_false_iff, !String.eqb_eq, !Z.eqb_eq.
  rewrite bool_decide_eq_false. tauto.
Qed.

(** A prepared plan is what its validation recomputes. *)
Lemma prepared_valid (input : TransferInput) (plan : PreparedPlan) :
  prepareVoidNativeValueTransferStateTransitionV1 input = Prepared plan -> validatePlan plan = None.
Proof.
  intros (policy & version & m & tx & context & credits & total & cs & _ & _ & Ht & Hc & _ & Hch & ->)%prepare_parts.
  apply checkTransaction_Next in Ht as (Hhash & _). apply checkContext_Next in Hc as (_ & Hfp & _).
  apply computeChanges_Next in Hch as (_ & _ & Hcs).
  apply validatePlan_None. simpl. unfold accountFingerprint, transferIdempotencyKey.
  repeat split; try done; try apply sha256_hex64.
  intros ->. inversion Hcs as [Hnil|]. assert (ct_sender tx ∈ required (tx_transfer tx (cc_feeDebit context) credits)) as Hin
    by (apply elem_of_required; left). rewrite <- Hnil in Hin. set_solver.
Qed.

(** ** The theorems *)

(** C3: Applying a prepared transfer is the abstract transfer of its plan.  The accounts
    listed in the plan before the transfer are exactly the accounts of the normalized
    snapshot; the transfer is legal there (known accounts, next nonce, enough balance, fee
    credits within the fee); the accounts listed after it are the snapshot moved by the
    transfer, whatever roles sender, recipient and fee collectors share; and the total
    balance drops by exactly the burned fee of the plan. *)
Theorem transfer_refines_ledger (input : TransferInput) (plan : PreparedPlan) :
  prepareVoidNativeValueTransferStateTransitionV1 input = Prepared plan ->
  exists version m, normalizeSnapshot (in_snapshot input) = Ok (version, m) /\
    let before := changes_ledger Before (pl_account_changes plan) in
    let after := changes_ledger After (pl_account_changes plan) in
    let t := plan_transfer plan in
    before = ledger_of m /\ legal before t /\ after = move t before /\
    supply after = supply before - BigInt (pl_fee_burned_wei plan) /\
    map ch_address (pl_account_changes plan) = isort str_leb (js_set (touched t)).
Proof.
  intros (version & m & Hs & _ & Hb & Ha & Hl & Hburn & _ & Hcs & _)%prepared_ledger.
  exists version, m. split; [done|]. simpl in *. rewrite Hb, Ha, Hburn. split; [done|].
  split; [done|]. split; [done|]. split; [by apply supply_move|].
  by rewrite (changed_addresses _ _ _ _ Hcs).
Qed.

(** A plan that was prepared passes the validation that guards its application: the
    digests, the binding and the constants are those [validatePlan] recomputes, for every
    request that was not held. *)
Theorem prepared_plan_validates (input : TransferInput) (plan : PreparedPlan) :
  prepareVoidNativeValueTransferStateTransitionV1 input = Prepared plan -> validatePlan plan = None.
Proof. apply prepared_valid. Qed.

(** The binding digest commits to the whole plan: two plans that pass validation with
    one binding are equal in every field, or their two texts are different texts with one
    digest. *)
Theorem plan_binding_commits (p q : PreparedPlan) :
  validatePlan p = None -> validatePlan q = None ->
  pl_plan_binding_sha256 p = pl_plan_binding_sha256 q ->
  p = q \/ collides (canonicalJson (planBindingMaterial p)) (canonicalJson (planBindingMaterial q)).
Proof.
  intros Hp%validatePlan_None Hq%validatePlan_None Hb.
  destruct Hp as ((_ & _ & ? & _ & ? & _) & _ & _ & _ & _ & _ & Hp).
  destruct Hq as ((_ & _ & ? & _ & ? & _) & _ & _ & _ & _ & _ & Hq).
  destruct (sha256_binds_prints (planBindingMaterial p) (planBindingMaterial q)) as [Hn|Hc];
    try (by apply planBindingMaterial_prints); [congruence| |by right].
  left. by apply planBindingMaterial_inj.
Qed.

(** ** Replays *)

(** The snapshot that lists the accounts of a plan after it. *)
Definition after_state (c : AccountChange) : AccountState :=
  mkAccountState (ch_address c) (UStr (ch_balance_after_wei c)) (UStr (ch_nonce_after c)).

Definition after_account (c : AccountChange) : NormalizedAccount :=
  mkNormalizedAccount (ch_address c) (BigInt (ch_balance_after_wei c)) (BigInt (ch_nonce_after c)).

Lemma after_normalized m t l cs : snapshot_wf m -> Forall2 (changed m t) l cs ->
  Forall2 normalized (map after_state cs) (map after_account cs).
Proof.
  intros Hwf Hcs. induction Hcs as [|a c l cs (x & Hx & Hge & ->) _ IH]; simpl; [constructor|].
  constructor; [|done]. destruct (Hwf a x Hx) as (_ & Ha & Hb & Hn).
  assert (0 <= only (t_sender t) 1 a) by (unfold only; case_decide; lia).
  unfold normalized; simpl. rewrite !BigInt_dec by lia. split; [by apply normalizeAddress_canonical|].
  split; apply parseUint_dec; lia.
Qed.

Lemma after_addresses cs : map na_address (map after_account cs) = map ch_address cs.
Proof. by rewrite map_map. Qed.

(** The accounts after a transfer are again a snapshot of the accounts it touches, with
    the nonce of the sender advanced. *)
Lemma after_snapshot m t cs version : snapshot_wf m -> Forall2 (changed m t) (required t) cs ->
  (forall a, is_Some (m !! a) <-> a ∈ touched t) -> SAFE_ID version = true ->
  exists m', normalizeSnapshot (mkStateSnapshot version (map after_state cs)) = Ok (version, m') /\
    (forall a, is_Some (m' !! a) <-> a ∈ touched t) /\
    (forall x, m !! t_sender t = Some x -> exists y, m' !! t_sender t = Some y /\ na_nonce y = na_nonce x + 1).
Proof.
  intros Hwf Hcs Hdom Hv. exists (by_address (map after_account cs)).
  pose proof (changed_addresses _ _ _ _ Hcs) as Haddr.
  assert (NoDup (map na_address (map after_account cs))) as Hnd
    by (rewrite after_addresses, Haddr; apply required_NoDup).
  split; [|split].
  - apply normalizeSnapshot_Ok. simpl. pose proof Hv as (Hlen & Hs)%andb_true_iff.
    rewrite (trim_safe version Hs). split; [done|]. split; [done|]. split.
    + intros Hnil%map_eq_nil. subst cs. simpl in Haddr.
      assert (t_sender t ∈ required t) as Hin by (apply elem_of_required; left). rewrite <- Haddr in Hin. set_solver.
    + exists (map after_account cs). split; [by eapply after_normalized|done].
  - intros a. rewrite <- elem_of_required, <- Haddr, <- after_addresses.
    rewrite <- not_eq_None_Some, by_address_None. split; [apply dec_stable|tauto].
  - intros x Hx. assert (t_sender t ∈ required t) as Hin by (apply elem_of_required; left).
    apply list_elem_of_lookup in Hin as [i Hi].
    destruct (Forall2_lookup_l _ _ _ _ _ Hcs Hi) as (c & Hc & before & Hb & _ & ->).
    assert (before = x) as -> by congruence. eexists. split.
    + apply by_address_Some; [done|]. split; [apply list_elem_of_fmap_2, list_elem_of_lookup; eauto|done].
    + simpl. destruct (Hwf _ _ Hx) as (_ & _ & _ & ?). unfold only. rewrite decide_True by done.
      rewrite BigInt_dec; lia.
Qed.

(** A transfer cannot be replayed: preparing the same signed transaction again, under
    the same policy and execution context, on the accounts its plan leaves (under any
    state version) is held with [transaction_nonce_mismatch]. *)
Theorem transfer_not_replayable (input : TransferInput) (plan : PreparedPlan) (version : string) :
  prepareVoidNativeValueTransferStateTransitionV1 input = Prepared plan -> SAFE_ID version = true ->
  prepareVoidNativeValueTransferStateTransitionV1
    (mkTransferInput (in_raw_signed_transaction input) (in_policy input)
      (mkStateSnapshot version (map after_state (pl_account_changes plan)))
      (in_execution_context input)) = IsHeld (held "transaction_nonce_mismatch").
Proof.
  intros (policy & v & m & tx & context & credits & total & cs & Hp & Hs & Ht & Hc & Hf & Hch & ->)%prepare_parts Hv.
  pose proof (normalizeSnapshot_wf _ _ _ Hs) as Hwf.
  apply computeChanges_Next in Hch as (Hdom & (st & Hst & Hnonce & _) & Hcs).
  destruct (after_snapshot m _ cs version Hwf Hcs Hdom Hv) as (m' & Hs' & Hdom' & Hnext).
  destruct (Hnext st Hst) as (st' & Hst' & Hn').
  unfold prepareVoidNativeValueTransferStateTransitionV1, prepareBody. simpl in_policy. simpl in_snapshot.
  rewrite (call_Ok _ policy) by done. rewrite (call_Ok _ (version, m')) by done.
  simpl in_raw_signed_transaction. simpl in_execution_context. rewrite Ht. cbn [mbind flow_bind].
  rewrite Hc. cbn [mbind flow_bind]. rewrite Hf. cbn [mbind flow_bind].
  set (t := tx_transfer tx (cc_feeDebit context) credits) in *.
  assert (js_set (ct_sender tx :: ct_recipient tx :: map nfc_address credits) = js_set (touched t)) as Htouch
    by (unfold touched, t; simpl; by rewrite map_fst_credits).
  assert (forall a, is_Some (m' !! a) <-> a ∈ js_set (touched t)) as Hset
    by (intros a; by rewrite elem_of_js_set, Hdom').
  unfold computeChanges. rewrite Htouch. rewrite held_if_false.
  2: { rewrite (size_accounts m' (js_set (touched t)) (js_set_NoDup _) Hset). by rewrite Nat.eqb_refl. }
  rewrite (proj2 (requireLoop_Next m' (js_set (touched t)) tt)) by (intros; by apply Hset).
  cbn [mbind flow_bind]. change (ct_sender tx) with (t_sender t). rewrite Hst'.
  assert ((na_nonce st' =? ct_nonce tx) = false) as ->; [|done].
  change (t_nonce t) with (ct_nonce tx) in Hnonce. lia.
Qed.
End prepared.

(** ** A transfer whose recipient also collects a part of the fee *)

Module TransferSample.

#[local] Existing Instance poly256 | 0.
#[local] Existing Instance code_unit_locale | 0.

Definition alice : string := "0x1111111111111111111111111111111111111111".
Definition bob : string := "0x2222222222222222222222222222222222222222".
Definition carol : string := "0x33333333333333333333333333333333333333aa".
Definition digest_a : string := "aaaaaaaaaaaaaaaaaaaaaaaaaaaaaaaaaaaaaaaaaaaaaaaaaaaaaaaaaaaaaaaa".

Definition signed (hash from to : string) (value nonce : Z) : Tx :=
  mkTx (Some hash) (Some from) (Some to) true (Some 2) 2050 21000 "0x" (Some 0%nat) value
    (Some 3) (Some 1) nonce.

Definition hash1 : string := "0x1aaaaaaaaaaaaaaaaaaaaaaaaaaaaaaaaaaaaaaaaaaaaaaaaaaaaaaaaaaaaaaa".
Definition hash2 : string := "0x2aaaaaaaaaaaaaaaaaaaaaaaaaaaaaaaaaaaaaaaaaaaaaaaaaaaaaaaaaaaaaaa".
Definition hash3 : string := "0x3aaaaaaaaaaaaaaaaaaaaaaaaaaaaaaaaaaaaaaaaaaaaaaaaaaaaaaaaaaaaaaa".
Definition block_hash : string := "0xbaaaaaaaaaaaaaaaaaaaaaaaaaaaaaaaaaaaaaaaaaaaaaaaaaaaaaaaaaaaaaaa".

Definition sample_table : list (string * Tx) :=
  [("0xa1"%string, signed hash1 alice bob 5 0); ("0xa2"%string, signed hash2 bob carol 40 7);
   ("0xa3"%string, signed hash3 alice alice 1 1)].

#[local] Instance sample_ethers : Ethers := table_ethers sample_table.
#[local] Instance sample_ethers_laws : EthersLaws sample_ethers := table_ethers_laws sample_table.

Definition sample_policy : TransferPolicy :=
  mkTransferPolicy (UBig 2050) (UStr "2") (UNum (NInt 21000)) (UBig 1000) (UBig 100) (UBig 100000) (UBig 4)
    [alice; bob] [bob; carol].

Definition sample_input : TransferInput :=
  mkTransferInput "0xa1 " sample_policy
    (mkStateSnapshot "v0" [mkAccountState alice (UBig 100000) (UStr "0"); mkAccountState bob (UStr "10") (UBig 7)])
    (mkExecutionContext block_hash (UBig 1) (UBig 0) (UBig 21000) (UBig 2) [mkFeeCredit bob (UBig 1000)] digest_a).

Definition sample_plan : PreparedPlan :=
  ltac:(let r := eval vm_compute in (prepareVoidNativeValueTransferStateTransitionV1 sample_input) in
        lazymatch r with Prepared ?p => exact p end).

Lemma sample_prepared : prepareVoidNativeValueTransferStateTransitionV1 sample_input = Prepared sample_plan.
Proof. vm_compute. reflexivity. Qed.

Lemma transfer_refines_ledger_witness :
  plan_transfer sample_plan = mkTransfer alice bob 5 42000 [(bob, 1000)] 0 /\
  changes_ledger After (pl_account_changes sample_plan) =
    move (plan_transfer sample_plan) (changes_ledger Before (pl_account_changes sample_plan)).
Proof.
  destruct (transfer_refines_ledger sample_input sample_plan sample_prepared) as (v & m & _ & _ & _ & Ha & _).
  split; [vm_compute; reflexivity|exact Ha].
Defined.

Lemma prepared_plan_validates_witness : validatePlan sample_plan = None.
Proof. exact (prepared_plan_validates sample_input sample_plan sample_prepared). Defined.

Lemma plan_binding_commits_witness :
  let forged := mkPreparedPlan (pl_schema sample_plan) (pl_marker sample_plan) 1 "2050" 2
    (pl_transaction_hash sample_plan) (pl_sender sample_plan) (pl_recipient sample_plan) "5" "0" "21000" "3" "1"
    block_hash "1" "0" "21000" "2" "42000" (pl_fee_credits sample_plan) "1000" "41000" digest_a "v0"
    (pl_prestate_fingerprint_sha256 sample_plan) (pl_poststate_fingerprint_sha256 sample_plan)
    (pl_account_changes sample_plan) (pl_idempotency_key_sha256 sample_plan)
    (pl_plan_binding_sha256 sample_plan) in
  validatePlan forged = None /\ (sample_plan = forged \/
    collides (canonicalJson (planBindingMaterial sample_plan)) (canonicalJson (planBindingMaterial forged))).
Proof.
  intros forged. assert (validatePlan forged = None) as Hf by (vm_compute; reflexivity). split; [exact Hf|].
  apply (plan_binding_commits sample_plan forged); [vm_compute; reflexivity|exact Hf|reflexivity].
Defined.

Lemma transfer_not_replayable_witness :
  prepareVoidNativeValueTransferStateTransitionV1
    (mkTransferInput "0xa1 " sample_policy
      (mkStateSnapshot "v1" (map after_state (pl_account_changes sample_plan)))
      (in_execution_context sample_input)) = IsHeld (held "transaction_nonce_mismatch").
Proof. exact (transfer_not_replayable sample_input sample_plan "v1" sample_prepared eq_refl). Defined.
End TransferSample.
