(* ===== verification/AccountSnapshot.v ===== *)
(** * Snapshots of the native account store

    The data of [src/chain/native_account_state_store_v1.ts] and the functions that create
    and validate a snapshot: accounts sorted by canonical address with decimal amounts,
    the transactions applied one by one, and a digest over all of it.  What the store reads
    from a file is a value of the declared type. *)

From Stdlib Require Import Ascii Sorted.
From S2P Require Import Prelude Js JsText Flow CanonicalJson Sha256 Ledger ChainBase NativeTransfer.

Definition VOID_NATIVE_ACCOUNT_STATE_STORE_V1 : string := "VOID_NATIVE_ACCOUNT_STATE_STORE_V1".

Record StorePolicy := mkStorePolicy {
  sp_max_accounts : uint_input;
  sp_max_applied_transactions : uint_input;
  sp_max_snapshot_bytes : uint_input;
  sp_max_journal_bytes : uint_input;
  sp_stale_lock_min_age_ms : uint_input
}.

Record StoreAccount := mkStoreAccount {
  sa_address : string;
  sa_balance_wei : string;
  sa_nonce : string
}.

Record AppliedTransaction := mkAppliedTransaction {
  at_idempotency_key_sha256 : string;
  at_transaction_hash : string;
  at_commit_id : string;
  at_state_version : string
}.

Record Snapshot := mkSnapshot {
  sn_schema : string;
  sn_marker : string;
  sn_version : Z;
  sn_state_version : string;
  sn_accounts : list StoreAccount;
  sn_applied_transactions : list AppliedTransaction;
  sn_last_commit_id : option string;
  sn_snapshot_fingerprint_sha256 : string
}.

#[export] Instance StoreAccount_eq_dec : EqDecision StoreAccount.
Proof. solve_decision. Defined.

#[export] Instance AppliedTransaction_eq_dec : EqDecision AppliedTransaction.
Proof. solve_decision. Defined.

#[export] Instance Snapshot_eq_dec : EqDecision Snapshot.
Proof. solve_decision. Defined.

Record NormalizedStorePolicy := mkNormalizedStorePolicy {
  nsp_max_accounts : Z;
  nsp_max_applied_transactions : Z;
  nsp_max_snapshot_bytes : Z;
  nsp_max_journal_bytes : Z;
  nsp_stale_lock_min_age_ms : Z
}.

(** ** Rendering *)

Definition store_account_json (a : StoreAccount) : json :=
  account_json (sa_address a) (sa_balance_wei a) (sa_nonce a).

Definition applied_json (t : AppliedTransaction) : json :=
  JObj ["idempotency_key_sha256" ~> at_idempotency_key_sha256 t;
        "transaction_hash" ~> at_transaction_hash t;
        "commit_id" ~> at_commit_id t;
        "state_version" ~> at_state_version t].

Definition snapshot_fields (s : Snapshot) : list (string * json) :=
  ["schema" ~> sn_schema s;
   "marker" ~> sn_marker s;
   "version" ~> jint (sn_version s);
   "state_version" ~> sn_state_version s;
   "accounts" ~> JArr (map store_account_json (sn_accounts s));
   "applied_transactions" ~> JArr (map applied_json (sn_applied_transactions s));
   "last_commit_id" ~> null_or_text (sn_last_commit_id s)].

(** The snapshot without its fingerprint. *)
Definition snapshotFingerprintMaterial (s : Snapshot) : json := JObj (snapshot_fields s).

Definition snapshot_json (s : Snapshot) : json :=
  JObj (snapshot_fields s ++ ["snapshot_fingerprint_sha256" ~> sn_snapshot_fingerprint_sha256 s]).

Section snapshot.
Context `{D : Digest} `{E : Ethers} `{L : Locale}.

Definition normalizePolicy (policy : StorePolicy) : res NormalizedStorePolicy :=
  max_accounts ← ChainBase.parseBoundedNumber (sp_max_accounts policy) "max_accounts" 1 1000000;
  max_applied ← ChainBase.parseBoundedNumber (sp_max_applied_transactions policy) "max_applied_transactions" 1 10000000;
  max_snapshot ← ChainBase.parseBoundedNumber (sp_max_snapshot_bytes policy) "max_snapshot_bytes" 1024 1073741824;
  max_journal ← ChainBase.parseBoundedNumber (sp_max_journal_bytes policy) "max_journal_bytes" 1024 4294967296;
  stale ← ChainBase.parseBoundedNumber (sp_stale_lock_min_age_ms policy) "stale_lock_min_age_ms" 1000 604800000;
  Ok (mkNormalizedStorePolicy max_accounts max_applied max_snapshot max_journal stale).

Definition normalizeAccount (value : AccountState) : res StoreAccount :=
  address ← normalizeAddress (as_address value) "account_address";
  balance ← parseUint (as_balance_wei value) "account_balance_wei";
  nonce ← parseUint (as_nonce value) "account_nonce";
  Ok (mkStoreAccount address (dec balance) (dec nonce)).

(** A stored account as the argument of [normalizeAccount]. *)
Definition account_state (a : StoreAccount) : AccountState :=
  mkAccountState (sa_address a) (UStr (sa_balance_wei a)) (UStr (sa_nonce a)).

Definition sort_accounts : list StoreAccount -> list StoreAccount := sort_by_address sa_address.

Definition createSnapshot (state_version : string) (accounts : list StoreAccount)
    (applied_transactions : list AppliedTransaction) (last_commit_id : option string) : Snapshot :=
  let without_fingerprint :=
    mkSnapshot "void_native_account_state_snapshot_v1" VOID_NATIVE_ACCOUNT_STATE_STORE_V1 1 state_version
      (sort_accounts accounts) applied_transactions last_commit_id EmptyString in
  mkSnapshot (sn_schema without_fingerprint) (sn_marker without_fingerprint) (sn_version without_fingerprint)
    (sn_state_version without_fingerprint) (sn_accounts without_fingerprint)
    (sn_applied_transactions without_fingerprint) (sn_last_commit_id without_fingerprint)
    (sha256 (snapshotFingerprintMaterial without_fingerprint)).

(** The loop over the accounts of a snapshot. *)
Definition snapshotAccountStep (acc : list StoreAccount) (account : StoreAccount) : res (list StoreAccount) :=
  normalized ← normalizeAccount (account_state account);
  throw_if (bool_decide (sa_address normalized ∈ map sa_address acc)) "snapshot_duplicate_account";;
  Ok (acc ++ [normalized]).

(** The loop over the applied transactions. *)
Definition snapshotAppliedStep (acc : list AppliedTransaction) (item : AppliedTransaction)
    : res (list AppliedTransaction) :=
  let idempotency := toLowerCase (at_idempotency_key_sha256 item) in
  let transactionHash := toLowerCase (at_transaction_hash item) in
  throw_if (negb (SHA256 idempotency) || negb (TRANSACTION_HASH transactionHash)
    || negb (SAFE_ID (at_commit_id item)) || negb (SAFE_ID (at_state_version item)))
    "snapshot_applied_entry_invalid";;
  throw_if (bool_decide (idempotency ∈ map at_idempotency_key_sha256 acc)) "snapshot_duplicate_idempotency";;
  Ok (acc ++ [mkAppliedTransaction idempotency transactionHash (at_commit_id item) (at_state_version item)]).

(** Two arrays of accounts have one JSON text exactly when they are equal. *)
Definition validateSnapshot (snapshot : Snapshot) (policy : NormalizedStorePolicy) : res Snapshot :=
  throw_if (text_neq (sn_schema snapshot) "void_native_account_state_snapshot_v1"
    || text_neq (sn_marker snapshot) VOID_NATIVE_ACCOUNT_STATE_STORE_V1
    || negb (sn_version snapshot =? 1)
    || negb (SAFE_ID (sn_state_version snapshot))
    || negb (SHA256 (sn_snapshot_fingerprint_sha256 snapshot)))
    "snapshot_identity_invalid";;
  throw_if (bool_decide (sn_accounts snapshot = [])
    || (Z.of_nat (length (sn_accounts snapshot)) >? nsp_max_accounts policy))
    "snapshot_account_count_invalid";;
  throw_if (Z.of_nat (length (sn_applied_transactions snapshot)) >? nsp_max_applied_transactions policy)
    "snapshot_applied_count_invalid";;
  normalizedAccounts ← foldM snapshotAccountStep [] (sn_accounts snapshot);
  let sortedAccounts := sort_accounts normalizedAccounts in
  throw_if (negb (bool_decide (sortedAccounts = normalizedAccounts))) "snapshot_accounts_not_sorted";;
  normalizedApplied ← foldM snapshotAppliedStep [] (sn_applied_transactions snapshot);
  let normalized := createSnapshot (sn_state_version snapshot) sortedAccounts normalizedApplied
    (sn_last_commit_id snapshot) in
  throw_if (text_neq (sn_snapshot_fingerprint_sha256 normalized) (sn_snapshot_fingerprint_sha256 snapshot))
    "snapshot_fingerprint_mismatch";;
  Ok normalized.
End snapshot.

(** ** Well-formed snapshots *)

Record account_ok (a : StoreAccount) : Prop := mkAccountOk {
  ok_address : is_account (sa_address a) = true;
  ok_balance : exists z, 0 <= z /\ sa_balance_wei a = dec z;
  ok_nonce : exists z, 0 <= z /\ sa_nonce a = dec z
}.

Record applied_ok (t : AppliedTransaction) : Prop := mkAppliedOk {
  ok_idempotency : SHA256 (at_idempotency_key_sha256 t) = true;
  ok_hash : TRANSACTION_HASH (at_transaction_hash t) = true;
  ok_commit : SAFE_ID (at_commit_id t) = true;
  ok_version : SAFE_ID (at_state_version t) = true
}.

Definition accounts_ok (l : list StoreAccount) : Prop :=
  Forall account_ok l /\ NoDup (map sa_address l) /\ sorted_addresses sa_address l.

(** The type invariant of a snapshot under a policy. *)
Record snapshot_ok `{Digest} (policy : NormalizedStorePolicy) (s : Snapshot) : Prop := mkSnapshotOk {
  ok_schema : sn_schema s = "void_native_account_state_snapshot_v1"%string;
  ok_marker : sn_marker s = VOID_NATIVE_ACCOUNT_STATE_STORE_V1;
  ok_sn_version : sn_version s = 1;
  ok_state_version : SAFE_ID (sn_state_version s) = true;
  ok_nonempty : sn_accounts s <> [];
  ok_account_count : Z.of_nat (length (sn_accounts s)) <= nsp_max_accounts policy;
  ok_applied_count : Z.of_nat (length (sn_applied_transactions s)) <= nsp_max_applied_transactions policy;
  ok_accounts : accounts_ok (sn_accounts s);
  ok_applied : Forall applied_ok (sn_applied_transactions s);
  ok_distinct : NoDup (map at_idempotency_key_sha256 (sn_applied_transactions s));
  ok_fingerprint : sn_snapshot_fingerprint_sha256 s = sha256 (snapshotFingerprintMaterial s)
}.

Section snapshot_lemmas.
Context `{D : Digest} `{E : Ethers} `{!EthersLaws E}.

Lemma normalizeAccount_account_ok v n : normalizeAccount v = Ok n -> account_ok n.
Proof.
  unfold normalizeAccount. intros H. inv_ok. split; simpl.
  - by eapply normalizeAddress_account.
  - exists x0. split; [by eapply parseUint_nonneg|done].
  - exists x1. split; [by eapply parseUint_nonneg|done].
Qed.

Lemma normalizeAccount_ok a : account_ok a -> normalizeAccount (account_state a) = Ok a.
Proof.
  destruct a as [a b n]. intros [Ha (y & Hy & Hb) (z & Hz & Hn)]. simpl in *. subst.
  unfold normalizeAccount; simpl. rewrite normalizeAddress_canonical, !parseUint_dec by done. done.
Qed.

Lemma accountLoop_Ok l acc l' : foldM snapshotAccountStep acc l = Ok l' ->
  Forall account_ok acc -> NoDup (map sa_address acc) ->
  Forall account_ok l' /\ NoDup (map sa_address l') /\ length l' = (length acc + length l)%nat.
Proof.
  revert acc. induction l as [|a l IH]; simpl; intros acc H Hacc Hnd.
  { injection H as <-. split; [done|]. split; [done|lia]. }
  inv_ok. apply bind_Ok in H0 as (n & Hn & H0). inv_ok. apply bool_decide_eq_false in H1.
  destruct (IH (acc ++ [n]) H) as (H2 & H3 & H4).
  - apply Forall_app. split; [done|]. constructor; [by eapply normalizeAccount_account_ok|done].
  - rewrite map_app. by apply NoDup_snoc.
  - split; [done|]. split; [done|]. rewrite H4, length_app. simpl. lia.
Qed.

Lemma snapshotAccountStep_id acc a : account_ok a -> sa_address a ∉ map sa_address acc ->
  snapshotAccountStep acc a = Ok (acc ++ [a]).
Proof.
  intros Ha Hni. unfold snapshotAccountStep. rewrite normalizeAccount_ok by done. simpl.
  by rewrite bool_decide_eq_false_2.
Qed.

Lemma accountLoop_id l acc : Forall account_ok l -> NoDup (map sa_address (acc ++ l)) ->
  foldM snapshotAccountStep acc l = Ok (acc ++ l).
Proof.
  revert acc. induction l as [|a l IH]; simpl; intros acc Hl Hnd; [by rewrite app_nil_r|].
  apply Forall_cons in Hl as [Ha Hl]. rewrite snapshotAccountStep_id; [|done|].
  2: { rewrite map_app in Hnd. apply NoDup_app in Hnd as (_ & Hd & _). intros Hin. apply (Hd _ Hin). left. }
  simpl. rewrite IH; [by rewrite <- app_assoc|done|by rewrite <- app_assoc].
Qed.

Lemma snapshotAppliedStep_Ok acc t acc' : snapshotAppliedStep acc t = Ok acc' ->
  exists t', acc' = acc ++ [t'] /\ applied_ok t' /\
    at_idempotency_key_sha256 t' ∉ map at_idempotency_key_sha256 acc.
Proof.
  unfold snapshotAppliedStep. intros H. inv_ok. bool_prop. apply bool_decide_eq_false in H1.
  eexists. split; [done|]. split; [by split|done].
Qed.

Lemma appliedLoop_Ok l acc l' : foldM snapshotAppliedStep acc l = Ok l' ->
  Forall applied_ok acc -> NoDup (map at_idempotency_key_sha256 acc) ->
  Forall applied_ok l' /\ NoDup (map at_idempotency_key_sha256 l') /\ length l' = (length acc + length l)%nat.
Proof.
  revert acc. induction l as [|a l IH]; simpl; intros acc H Hacc Hnd.
  { injection H as <-. split; [done|]. split; [done|lia]. }
  apply bind_Ok in H as (acc' & (t & -> & Ht & Hni)%snapshotAppliedStep_Ok & H).
  destruct (IH _ H) as (H2 & H3 & H4).
  - apply Forall_app. split; [done|]. by constructor.
  - rewrite map_app. by apply NoDup_snoc.
  - split; [done|]. split; [done|]. rewrite H4, length_app. simpl. lia.
Qed.

Lemma SHA256_lower s : SHA256 s = true -> toLowerCase s = s.
Proof. intros [_ Hs]%andb_true_iff. by apply toLowerCase_hex. Qed.

Lemma TRANSACTION_HASH_lower s : TRANSACTION_HASH s = true -> toLowerCase s = s.
Proof. apply toLowerCase_0x_hex. Qed.

Lemma snapshotAppliedStep_id acc t : applied_ok t ->
  at_idempotency_key_sha256 t ∉ map at_idempotency_key_sha256 acc -> snapshotAppliedStep acc t = Ok (acc ++ [t]).
Proof.
  intros [Hi Hh Hc Hv] Hni. unfold snapshotAppliedStep.
  rewrite (SHA256_lower _ Hi), (TRANSACTION_HASH_lower _ Hh), Hi, Hh, Hc, Hv. simpl.
  rewrite bool_decide_eq_false_2 by done. by destruct t.
Qed.

Lemma appliedLoop_id l acc : Forall applied_ok l -> NoDup (map at_idempotency_key_sha256 (acc ++ l)) ->
  foldM snapshotAppliedStep acc l = Ok (acc ++ l).
Proof.
  revert acc. induction l as [|t l IH]; simpl; intros acc Hl Hnd; [by rewrite app_nil_r|].
  apply Forall_cons in Hl as [Ht Hl]. rewrite snapshotAppliedStep_id; [|done|].
  2: { rewrite map_app in Hnd. apply NoDup_app in Hnd as (_ & Hd & _). intros Hin. apply (Hd _ Hin). left. }
  simpl. rewrite IH; [by rewrite <- app_assoc|done|by rewrite <- app_assoc].
Qed.
End snapshot_lemmas.

Lemma Forall_account_address l : Forall account_ok l -> Forall (fun a => is_address (sa_address a) = true) l.
Proof. intros H. eapply Forall_impl; [done|]. intros a Ha. apply is_account_address, Ha. Qed.

Section snapshot_theorems.
Context `{D : Digest} `{!DigestShape D} `{E : Ethers} `{!EthersLaws E} `{L : Locale} `{!LocaleLaws L}.

Lemma sort_accounts_ok l : accounts_ok l -> sort_accounts l = l.
Proof. intros (Hl & _ & Hs). apply sort_by_address_sorted; [by apply Forall_account_address|done]. Qed.

Lemma sort_accounts_makes_ok l : Forall account_ok l -> NoDup (map sa_address l) -> accounts_ok (sort_accounts l).
Proof.
  intros Hl Hnd. assert (sort_accounts l ≡ₚ l) as Hp by apply sort_by_address_perm.
  split; [by rewrite Hp|]. split; [by rewrite Hp|].
  apply sort_by_address_sorts. by apply Forall_account_address.
Qed.

(** A snapshot created from sound parts is well formed. *)
Lemma createSnapshot_ok policy version accounts applied last :
  SAFE_ID version = true -> accounts <> [] -> Z.of_nat (length accounts) <= nsp_max_accounts policy ->
  Z.of_nat (length applied) <= nsp_max_applied_transactions policy ->
  Forall account_ok accounts -> NoDup (map sa_address accounts) ->
  Forall applied_ok applied -> NoDup (map at_idempotency_key_sha256 applied) ->
  snapshot_ok policy (createSnapshot version accounts applied last).
Proof.
  intros Hv Hne Hlen Happ Hacc Hnd Hap Hapd.
  assert (sort_accounts accounts ≡ₚ accounts) as Hp by apply sort_by_address_perm.
  split; simpl; try done.
  - intros Hnil. rewrite Hnil in Hp. by apply Permutation_nil_l in Hp.
  - by rewrite Hp.
  - by apply sort_accounts_makes_ok.
Qed.

(** A well-formed snapshot is what [createSnapshot] makes of its own fields. *)
Lemma snapshot_ok_created policy s : snapshot_ok policy s ->
  createSnapshot (sn_state_version s) (sn_accounts s) (sn_applied_transactions s) (sn_last_commit_id s) = s.
Proof.
  intros H. unfold createSnapshot. rewrite (sort_accounts_ok _ (ok_accounts _ _ H)). simpl.
  destruct s as [sch mk v sv acc app lst fp]. destruct H as [? ? ? _ _ _ _ _ _ _ Hf]; simpl in *. subst.
  f_equal. symmetry. exact Hf.
Qed.

Lemma validateSnapshot_id policy s : snapshot_ok policy s -> validateSnapshot s policy = Ok s.
Proof.
  intros H. pose proof (snapshot_ok_created _ _ H) as Hc. destruct H as [Hsch Hmk Hver Hv Hne Hn Ha (Hacc & Hnd & Hs) Hap Hapd Hf].
  unfold validateSnapshot. rewrite Hsch, Hmk, Hver, Hv.
  replace (SHA256 (sn_snapshot_fingerprint_sha256 s)) with true by (rewrite Hf; symmetry; apply sha256_hex64).
  rewrite (bool_decide_eq_false_2 _ Hne). unfold text_neq. rewrite !String.eqb_refl. cbn [mbind res_bind throw_if negb orb app Z.eqb Pos.eqb].
  replace (Z.of_nat (length (sn_accounts s)) >? nsp_max_accounts policy) with false by lia.
  replace (Z.of_nat (length (sn_applied_transactions s)) >? nsp_max_applied_transactions policy)
    with false by lia. cbn [mbind res_bind throw_if negb orb app Z.eqb Pos.eqb].
  rewrite (accountLoop_id (sn_accounts s) []) by done. cbn [mbind res_bind throw_if negb orb app Z.eqb Pos.eqb].
  rewrite (sort_accounts_ok (sn_accounts s)) by done. rewrite bool_decide_eq_true_2 by done. cbn [mbind res_bind throw_if negb orb app Z.eqb Pos.eqb].
  rewrite (appliedLoop_id (sn_applied_transactions s) []) by done. cbn [mbind res_bind throw_if negb orb app].
  by rewrite Hc, String.eqb_refl.
Qed.

Lemma validateSnapshot_Ok policy s s' : validateSnapshot s policy = Ok s' ->
  snapshot_ok policy s' /\ sn_state_version s' = sn_state_version s /\
  sn_snapshot_fingerprint_sha256 s' = sn_snapshot_fingerprint_sha256 s.
Proof.
  unfold validateSnapshot. intros H. inv_ok. bool_prop.
  apply bool_decide_eq_false in H. apply bool_decide_eq_true in H4.
  apply negb_false_iff, String.eqb_eq in H6.
  destruct (accountLoop_Ok _ _ _ H3) as (Ha & Hnd & Hlen); [constructor..|].
  destruct (appliedLoop_Ok _ _ _ H5) as (Hap & Hapd & Haplen); [constructor..|].
  simpl in Hlen, Haplen. split; [|by split]. rewrite H4. apply createSnapshot_ok; try done; try lia.
  intros ->. simpl in Hlen. destruct (sn_accounts s); [done|discriminate Hlen].
Qed.

(** C38: Validating a snapshot is checking the type invariant: exactly the well-formed
    snapshots validate to themselves, and whatever validation returns is well formed, so
    that validating it again changes nothing. *)
Theorem snapshot_validation_typed (policy : NormalizedStorePolicy) (s : Snapshot) :
  (validateSnapshot s policy = Ok s <-> snapshot_ok policy s) /\
  (forall s', validateSnapshot s policy = Ok s' ->
    snapshot_ok policy s' /\ validateSnapshot s' policy = Ok s').
Proof.
  split; [split; [by intros [? _]%validateSnapshot_Ok|apply validateSnapshot_id]|].
  intros s' [Hs' _]%validateSnapshot_Ok. split; [done|by apply validateSnapshot_id].
Qed.
End snapshot_theorems.

(** ** Snapshots as ledgers *)

Definition account_entry (a : StoreAccount) : string * (Z * Z) :=
  (sa_address a, (BigInt (sa_balance_wei a), BigInt (sa_nonce a))).

Definition accounts_ledger (l : list StoreAccount) : Ledger := list_to_map (map account_entry l).

Lemma account_entry_keys l : (map account_entry l).*1 = map sa_address l.
Proof. induction l as [|a l IH]; [done|]. cbn [map]. by rewrite fmap_cons, IH. Qed.

(** The order of the accounts does not matter to the ledger. *)
Lemma accounts_ledger_perm l k : NoDup (map sa_address l) -> l ≡ₚ k -> accounts_ledger l = accounts_ledger k.
Proof.
  intros Hnd Hp. unfold accounts_ledger. apply list_to_map_proper; [by rewrite account_entry_keys|].
  by rewrite Hp.
Qed.

Lemma supply_accounts l : NoDup (map sa_address l) ->
  supply (accounts_ledger l) = sumZ (fun a => BigInt (sa_balance_wei a)) l.
Proof.
  intros Hnd. unfold supply, total, accounts_ledger. rewrite map_to_list_to_map by (by rewrite account_entry_keys).
  by rewrite sumZ_map.
Qed.
