(* ===== verification/BlockExecutor.v ===== *)
(** * Blocks of native value transfers

    Model of [src/chain/native_value_transfer_block_executor_v1.ts].  A block is prepared
    by running its transactions in order on a projected copy of the snapshot, each on the
    minimal set of accounts it names; the plan lists the accounts that changed over the
    whole block.  Applying the plan hands one request for the block to the store. *)

From Stdlib Require Import Ascii Sorted.
From S2P Require Import Prelude Js JsText Flow CanonicalJson Sha256 Ledger NativeTransfer ChainBase.
From S2P Require Import AccountSnapshot.

Definition VOID_NATIVE_VALUE_TRANSFER_BLOCK_EXECUTOR_V1 : string :=
  "VOID_NATIVE_VALUE_TRANSFER_BLOCK_EXECUTOR_V1".
Definition VOID_NATIVE_VALUE_TRANSFER_BLOCK_CONFIRMATION_V1 : string := "applyNativeValueTransferBlockV1".
Definition EXPECTED_ACCOUNT_STORE_MARKER : string := "VOID_NATIVE_ACCOUNT_STATE_STORE_V1".

(** ** Requests and plans *)

Record BlockPolicy := mkBlockPolicy {
  bp_max_transactions_per_block : uint_input;
  bp_max_total_raw_transaction_bytes : uint_input;
  bp_max_total_value_wei : uint_input;
  bp_max_total_fee_debit_wei : uint_input;
  bp_max_total_fee_burned_wei : uint_input
}.

Record BlockTransaction := mkBlockTransaction {
  bt_raw_signed_transaction : string;
  bt_transfer_policy : TransferPolicy;
  bt_effective_gas_price_wei : uint_input;
  bt_fee_credits : list FeeCredit;
  bt_fee_policy_fingerprint_sha256 : string
}.

Record BlockInput := mkBlockInput {
  bi_block_hash : string;
  bi_block_number : uint_input;
  bi_snapshot : Snapshot;
  bi_block_policy : BlockPolicy;
  bi_transactions : list BlockTransaction
}.

Record NormalizedBlockPolicy := mkNormalizedBlockPolicy {
  nbp_max_transactions_per_block : Z;
  nbp_max_total_raw_transaction_bytes : Z;
  nbp_max_total_value_wei : Z;
  nbp_max_total_fee_debit_wei : Z;
  nbp_max_total_fee_burned_wei : Z
}.

(** The account changes of a block have the fields of those of a transfer. *)
Record BlockPlan := mkBlockPlan {
  bl_schema : string;
  bl_marker : string;
  bl_version : Z;
  bl_block_hash : string;
  bl_block_number : string;
  bl_transaction_count : Z;
  bl_parent_state_version : string;
  bl_parent_snapshot_fingerprint_sha256 : string;
  bl_final_state_version : string;
  bl_final_accounts_fingerprint_sha256 : string;
  bl_ordered_transaction_hashes : list string;
  bl_transaction_plans : list PreparedPlan;
  bl_aggregate_account_changes : list AccountChange;
  bl_total_value_wei : string;
  bl_total_fee_debit_wei : string;
  bl_total_fee_credit_wei : string;
  bl_total_fee_burned_wei : string;
  bl_block_idempotency_key_sha256 : string;
  bl_block_binding_sha256 : string
}.

Definition plan_json (p : PreparedPlan) : json :=
  extend (planBindingMaterial p) "plan_binding_sha256" (JStr (pl_plan_binding_sha256 p)).

(** The block plan without its binding. *)
Definition blockPlanBindingMaterial (p : BlockPlan) : json :=
  JObj ["schema" ~> bl_schema p;
        "marker" ~> bl_marker p;
        "version" ~> jint (bl_version p);
        "block_hash" ~> bl_block_hash p;
        "block_number" ~> bl_block_number p;
        "transaction_count" ~> jint (bl_transaction_count p);
        "parent_state_version" ~> bl_parent_state_version p;
        "parent_snapshot_fingerprint_sha256" ~> bl_parent_snapshot_fingerprint_sha256 p;
        "final_state_version" ~> bl_final_state_version p;
        "final_accounts_fingerprint_sha256" ~> bl_final_accounts_fingerprint_sha256 p;
        "ordered_transaction_hashes" ~> JArr (map JStr (bl_ordered_transaction_hashes p));
        "transaction_plans" ~> JArr (map plan_json (bl_transaction_plans p));
        "aggregate_account_changes" ~> JArr (map change_json (bl_aggregate_account_changes p));
        "total_value_wei" ~> bl_total_value_wei p;
        "total_fee_debit_wei" ~> bl_total_fee_debit_wei p;
        "total_fee_credit_wei" ~> bl_total_fee_credit_wei p;
        "total_fee_burned_wei" ~> bl_total_fee_burned_wei p;
        "block_idempotency_key_sha256" ~> bl_block_idempotency_key_sha256 p;
        "raw_signed_transaction_persisted" ~> false;
        "raw_signed_transaction_returned" ~> false;
        "per_transaction_store_apply_performed" ~> false;
        "block_store_apply_performed" ~> false;
        "state_mutation_performed" ~> false;
        "money_movement_performed" ~> false].

Section block.
Context `{D : Digest} `{E : Ethers} `{L : Locale}.

Definition normalizeBlockPolicy (policy : BlockPolicy) : res NormalizedBlockPolicy :=
  max_transactions ← ChainBase.parseBoundedNumber (bp_max_transactions_per_block policy)
    "max_transactions_per_block" 1 100000;
  max_bytes ← ChainBase.parseBoundedNumber (bp_max_total_raw_transaction_bytes policy)
    "max_total_raw_transaction_bytes" 100 (MAX_RAW_TRANSACTION_BYTES_HARD * 100000);
  max_value ← parseUint (bp_max_total_value_wei policy) "max_total_value_wei";
  max_fee ← parseUint (bp_max_total_fee_debit_wei policy) "max_total_fee_debit_wei";
  max_burned ← parseUint (bp_max_total_fee_burned_wei policy) "max_total_fee_burned_wei";
  Ok (mkNormalizedBlockPolicy max_transactions max_bytes max_value max_fee max_burned).

(** The loop over the accounts: the addresses seen and the previous one. *)
Definition snapshotAddressStep (st : list string * string) (account : StoreAccount)
    : res (list string * string) :=
  let '(addresses, previous) := st in
  let address := toLowerCase (sa_address account) in
  throw_if (negb (is_address address)) "account_snapshot_address_invalid";;
  throw_if (bool_decide (address ∈ addresses)) "account_snapshot_duplicate_address";;
  throw_if (negb (String.eqb previous EmptyString) && localeLe address previous)
    "account_snapshot_accounts_not_sorted";;
  parseUint (UStr (sa_balance_wei account)) "account_snapshot_balance_wei";;
  parseUint (UStr (sa_nonce account)) "account_snapshot_nonce";;
  Ok (addresses ++ [address], address).

Definition validateSnapshot (snapshot : Snapshot) : res Snapshot :=
  throw_if (text_neq (sn_schema snapshot) "void_native_account_state_snapshot_v1"
    || text_neq (sn_marker snapshot) EXPECTED_ACCOUNT_STORE_MARKER
    || negb (sn_version snapshot =? 1)
    || negb (SAFE_ID (sn_state_version snapshot))
    || negb (SHA256 (sn_snapshot_fingerprint_sha256 snapshot))
    || bool_decide (sn_accounts snapshot = []))
    "account_snapshot_identity_invalid";;
  throw_if (text_neq (sha256 (snapshotFingerprintMaterial snapshot)) (sn_snapshot_fingerprint_sha256 snapshot))
    "account_snapshot_fingerprint_mismatch";;
  foldM snapshotAddressStep ([], EmptyString) (sn_accounts snapshot);;
  Ok snapshot.

Definition projectedAccountsFingerprint (stateVersion : string) (accounts : list StoreAccount) : string :=
  sha256 (JObj ["state_version" ~> stateVersion;
                "accounts" ~> JArr (map store_account_json (sort_accounts accounts))]).

Definition blockIdempotencyKey (block_hash block_number : string) : string :=
  sha256 (JObj ["marker" ~> VOID_NATIVE_VALUE_TRANSFER_BLOCK_EXECUTOR_V1;
                "block_hash" ~> block_hash;
                "block_number" ~> block_number]).

(** The loop over the transactions of a plan, from index [i] on. *)
Fixpoint transactionBindingsOk (plan : BlockPlan) (i : Z) (seen : list string)
    (plans : list PreparedPlan) (hashes : list string) : bool :=
  match plans, hashes with
  | transactionPlan :: plans', transactionHash :: hashes' =>
      String.eqb (pl_marker transactionPlan) VOID_NATIVE_VALUE_TRANSFER_STATE_TRANSITION_V1
      && String.eqb (pl_transaction_hash transactionPlan) transactionHash
      && String.eqb (pl_block_hash transactionPlan) (bl_block_hash plan)
      && String.eqb (pl_block_number transactionPlan) (bl_block_number plan)
      && String.eqb (pl_transaction_index transactionPlan) (dec i)
      && SHA256 (pl_plan_binding_sha256 transactionPlan)
      && negb (bool_decide (transactionHash ∈ seen))
      && transactionBindingsOk plan (i + 1) (seen ++ [transactionHash]) plans' hashes'
  | _, _ => true
  end.

Definition validateBlockPlan (plan : BlockPlan) : option string :=
  if text_neq (bl_schema plan) "void_native_value_transfer_block_prepared_plan_v1"
    || text_neq (bl_marker plan) VOID_NATIVE_VALUE_TRANSFER_BLOCK_EXECUTOR_V1
    || negb (bl_version plan =? 1)
    || negb (TRANSACTION_HASH (bl_block_hash plan))
    || negb (is_canonical_decimal (bl_block_number plan))
    || negb (SAFE_ID (bl_parent_state_version plan))
    || negb (SAFE_ID (bl_final_state_version plan))
    || negb (SHA256 (bl_parent_snapshot_fingerprint_sha256 plan))
    || negb (SHA256 (bl_final_accounts_fingerprint_sha256 plan))
    || negb (SHA256 (bl_block_idempotency_key_sha256 plan))
    || negb (SHA256 (bl_block_binding_sha256 plan))
  then Some "block_plan_identity_invalid"%string
  else if (bl_transaction_count plan <=? 0)
    || negb (bl_transaction_count plan =? Z.of_nat (length (bl_transaction_plans plan)))
    || negb (bl_transaction_count plan =? Z.of_nat (length (bl_ordered_transaction_hashes plan)))
  then Some "block_plan_transaction_count_mismatch"%string
  else if negb (transactionBindingsOk plan 0 [] (bl_transaction_plans plan) (bl_ordered_transaction_hashes plan))
  then Some "block_plan_transaction_binding_invalid"%string
  else if text_neq (blockIdempotencyKey (bl_block_hash plan) (bl_block_number plan))
    (bl_block_idempotency_key_sha256 plan)
  then Some "block_plan_idempotency_key_mismatch"%string
  else if text_neq (sha256 (blockPlanBindingMaterial plan)) (bl_block_binding_sha256 plan)
  then Some "block_plan_binding_mismatch"%string
  else None.

(** ** Preparing a block *)

(** The locals of the loop over the transactions.  [seenTransactionHashes] holds the same
    hashes as [orderedTransactionHashes]. *)
Record BlockState := mkBlockState {
  bs_totalRawBytes : Z;
  bs_projected : list (string * StoreAccount);
  bs_transactionPlans : list PreparedPlan;
  bs_orderedTransactionHashes : list string;
  bs_projectedStateVersion : string;
  bs_totalValue : Z;
  bs_totalFeeDebit : Z;
  bs_totalFeeCredit : Z;
  bs_totalFeeBurned : Z
}.

(** [held(reason, { detail: { transaction_index } })] *)
Definition held_at (why : string) (i : nat) : Held :=
  held_detail why ["transaction_index" ~> jint (Z.of_nat i)].
Definition held_transaction (i : nat) (why : string) : Held :=
  held_detail "block_transaction_prepare_failed"
    ["transaction_index" ~> jint (Z.of_nat i); "transaction_reason" ~> why].

(** The addresses a transaction and its fee credits name, for the selection of accounts. *)
Definition requiredProjectedAddresses (transaction : Tx) (feeCredits : list FeeCredit) : list string :=
  let from := match tx_from transaction with
    | Some (String _ _ as a) => [toLowerCase a] | _ => [] end in
  let to := match tx_to transaction with
    | Some (String _ _ as a) => [toLowerCase a] | _ => [] end in
  let candidates := List.filter is_address (map (fun c => toLowerCase (trim (fc_address c))) feeCredits) in
  js_set (from ++ to ++ candidates).

Definition selectAccounts (projected : list (string * StoreAccount)) (addresses : list string)
    : list StoreAccount :=
  omap (map_get projected) (isort str_leb addresses).

Definition transactionInput (st : BlockState) (blockHash : string) (blockNumber : Z) (i : nat)
    (transaction : BlockTransaction) (raw : string) (accounts : list StoreAccount) : TransferInput :=
  mkTransferInput raw (bt_transfer_policy transaction)
    (mkStateSnapshot (bs_projectedStateVersion st) (map account_state accounts))
    (mkExecutionContext blockHash (UBig blockNumber) (UNum (NInt (Z.of_nat i))) (UNum (NInt 21000))
      (bt_effective_gas_price_wei transaction) (bt_fee_credits transaction)
      (bt_fee_policy_fingerprint_sha256 transaction)).

(** The prestate of a change against the projected accounts. *)
Definition prestateStep (projected : list (string * StoreAccount)) (i : nat) (_ : unit)
    (change : AccountChange) : flow Held unit :=
  let matches := match map_get projected (ch_address change) with
    | Some current =>
        String.eqb (sa_balance_wei current) (ch_balance_before_wei change)
        && String.eqb (sa_nonce current) (ch_nonce_before change)
    | None => false
    end in
  return_if (negb matches)
    (held_detail "block_projected_prestate_mismatch"
      ["transaction_index" ~> jint (Z.of_nat i); "address_sha256" ~> sha256 (JStr (ch_address change))]).

Definition projectChange (projected : list (string * StoreAccount)) (change : AccountChange)
    : list (string * StoreAccount) :=
  map_set projected (ch_address change)
    (mkStoreAccount (ch_address change) (ch_balance_after_wei change) (ch_nonce_after change)).

Definition nextStateVersion (previous : string) (i : nat) (plan : PreparedPlan) : string :=
  "bsv1-" +:+ sha256 (JObj ["previous_state_version" ~> previous;
    "transaction_index" ~> jint (Z.of_nat i);
    "transaction_hash" ~> pl_transaction_hash plan;
    "poststate_fingerprint_sha256" ~> pl_poststate_fingerprint_sha256 plan]).

(** The part of the loop body that follows a prepared plan. *)
Definition acceptPlan (policy : NormalizedBlockPolicy) (blockHash : string) (blockNumber : Z)
    (st : BlockState) (totalRawBytes : Z) (i : nat) (plan : PreparedPlan) : flow Held BlockState :=
  return_if (text_neq (pl_block_hash plan) blockHash
    || text_neq (pl_block_number plan) (dec blockNumber)
    || text_neq (pl_transaction_index plan) (dec (Z.of_nat i)))
    (held_at "block_transaction_execution_context_mismatch" i);;
  return_if (bool_decide (pl_transaction_hash plan ∈ bs_orderedTransactionHashes st))
    (held_at "block_duplicate_transaction_hash" i);;
  for_each (prestateStep (bs_projected st) i) tt (pl_account_changes plan);;
  let projected := foldl projectChange (bs_projected st) (pl_account_changes plan) in
  let totalValue := bs_totalValue st + BigInt (pl_value_wei plan) in
  let totalFeeDebit := bs_totalFeeDebit st + BigInt (pl_fee_debit_wei plan) in
  let totalFeeCredit := bs_totalFeeCredit st + BigInt (pl_fee_credit_total_wei plan) in
  let totalFeeBurned := bs_totalFeeBurned st + BigInt (pl_fee_burned_wei plan) in
  held_if (totalValue >? nbp_max_total_value_wei policy) "block_total_value_exceeds_policy";;
  held_if (totalFeeDebit >? nbp_max_total_fee_debit_wei policy) "block_total_fee_debit_exceeds_policy";;
  held_if (totalFeeBurned >? nbp_max_total_fee_burned_wei policy) "block_total_fee_burned_exceeds_policy";;
  Next (mkBlockState totalRawBytes projected (bs_transactionPlans st ++ [plan])
    (bs_orderedTransactionHashes st ++ [pl_transaction_hash plan])
    (nextStateVersion (bs_projectedStateVersion st) i plan)
    totalValue totalFeeDebit totalFeeCredit totalFeeBurned).

Definition transactionStep (policy : NormalizedBlockPolicy) (blockHash : string) (blockNumber : Z)
    (st : BlockState) (i : nat) (transaction : BlockTransaction) : flow Held BlockState :=
  let raw := trim (bt_raw_signed_transaction transaction) in
  return_if (negb (RAW_SIGNED_TRANSACTION raw) || negb (Nat.even (String.length raw)))
    (held_at "block_raw_signed_transaction_invalid" i);;
  let totalRawBytes := bs_totalRawBytes st + (Z.of_nat (String.length raw) - 2) / 2 in
  held_if (totalRawBytes >? nbp_max_total_raw_transaction_bytes policy)
    "block_raw_transaction_bytes_exceed_policy";;
  selection ← match Transaction_from raw with
    | Ok tx => Next tx
    | Throw _ => Return (held_transaction i "signed_transaction_decode_failed")
    end;
  let accounts := selectAccounts (bs_projected st)
    (requiredProjectedAddresses selection (bt_fee_credits transaction)) in
  match prepareVoidNativeValueTransferStateTransitionV1
    (transactionInput st blockHash blockNumber i transaction raw accounts) with
  | IsHeld h => Return (held_transaction i (reason h))
  | Prepared plan => acceptPlan policy blockHash blockNumber st totalRawBytes i plan
  end.

(** One address of the aggregation loop. *)
Definition aggregateStep (initial projected : list (string * StoreAccount)) (changes : list AccountChange)
    (address : string) : flow Held (list AccountChange) :=
  match map_get initial address, map_get projected address with
  | Some before, Some after =>
      if text_neq (sa_balance_wei before) (sa_balance_wei after) || text_neq (sa_nonce before) (sa_nonce after)
      then Next (changes ++ [mkAccountChange address (sa_balance_wei before) (sa_balance_wei after)
        (sa_nonce before) (sa_nonce after)])
      else Next changes
  | _, _ => Return (held "block_projected_account_missing")
  end.

(** [{ ...withoutBinding, block_binding_sha256 }] *)
Definition bindBlockPlan (plan : BlockPlan) : BlockPlan :=
  mkBlockPlan (bl_schema plan) (bl_marker plan) (bl_version plan) (bl_block_hash plan) (bl_block_number plan)
    (bl_transaction_count plan) (bl_parent_state_version plan) (bl_parent_snapshot_fingerprint_sha256 plan)
    (bl_final_state_version plan) (bl_final_accounts_fingerprint_sha256 plan)
    (bl_ordered_transaction_hashes plan) (bl_transaction_plans plan) (bl_aggregate_account_changes plan)
    (bl_total_value_wei plan) (bl_total_fee_debit_wei plan) (bl_total_fee_credit_wei plan)
    (bl_total_fee_burned_wei plan) (bl_block_idempotency_key_sha256 plan)
    (sha256 (blockPlanBindingMaterial plan)).

Definition buildBlockPlan (snapshot : Snapshot) (blockHash : string) (blockNumber : Z) (st : BlockState)
    (aggregateChanges : list AccountChange) : BlockPlan :=
  let finalAccounts := sort_accounts (bs_projected st).*2 in
  bindBlockPlan {|
    bl_schema := "void_native_value_transfer_block_prepared_plan_v1";
    bl_marker := VOID_NATIVE_VALUE_TRANSFER_BLOCK_EXECUTOR_V1;
    bl_version := 1;
    bl_block_hash := blockHash;
    bl_block_number := dec blockNumber;
    bl_transaction_count := Z.of_nat (length (bs_transactionPlans st));
    bl_parent_state_version := sn_state_version snapshot;
    bl_parent_snapshot_fingerprint_sha256 := sn_snapshot_fingerprint_sha256 snapshot;
    bl_final_state_version := bs_projectedStateVersion st;
    bl_final_accounts_fingerprint_sha256 :=
      projectedAccountsFingerprint (bs_projectedStateVersion st) finalAccounts;
    bl_ordered_transaction_hashes := bs_orderedTransactionHashes st;
    bl_transaction_plans := bs_transactionPlans st;
    bl_aggregate_account_changes := aggregateChanges;
    bl_total_value_wei := dec (bs_totalValue st);
    bl_total_fee_debit_wei := dec (bs_totalFeeDebit st);
    bl_total_fee_credit_wei := dec (bs_totalFeeCredit st);
    bl_total_fee_burned_wei := dec (bs_totalFeeBurned st);
    bl_block_idempotency_key_sha256 := blockIdempotencyKey blockHash (dec blockNumber);
    bl_block_binding_sha256 := EmptyString
  |}.

Definition initialProjection (snapshot : Snapshot) : list (string * StoreAccount) :=
  new_Map (map (fun account => (sa_address account, account)) (sn_accounts snapshot)).

Definition initialState (snapshot : Snapshot) : BlockState :=
  mkBlockState 0 (initialProjection snapshot) [] [] (sn_state_version snapshot) 0 0 0 0.

Definition prepareBlockBody (input : BlockInput) : flow Held BlockPlan :=
  let blockHash := toLowerCase (bi_block_hash input) in
  held_if (negb (TRANSACTION_HASH blockHash)) "block_hash_invalid";;
  blockNumber ← call (parseUint (bi_block_number input) "block_number");
  snapshot ← call (validateSnapshot (bi_snapshot input));
  policy ← call (normalizeBlockPolicy (bi_block_policy input));
  held_if (bool_decide (bi_transactions input = [])
    || (Z.of_nat (length (bi_transactions input)) >? nbp_max_transactions_per_block policy))
    "block_transaction_count_invalid";;
  let initial := initialProjection snapshot in
  st ← for_indexed (transactionStep policy blockHash blockNumber) 0 (initialState snapshot)
    (bi_transactions input);
  aggregateChanges ← for_each (aggregateStep initial (bs_projected st)) []
    (isort str_leb (bs_projected st).*1);
  held_if (bool_decide (aggregateChanges = [])) "block_aggregate_changes_empty";;
  Next (buildBlockPlan snapshot blockHash blockNumber st aggregateChanges).

Definition prepareVoidNativeValueTransferBlockExecutionV1 (input : BlockInput) : PrepareDecision BlockPlan :=
  decide_body (prepareBlockBody input) (fun message =>
    held_detail "native_value_transfer_block_prepare_error" ["error_code" ~> message]).

(** ** Applying a block plan *)

Record BlockStoreRequest := mkBlockStoreRequest {
  br_marker : string;
  br_version : Z;
  br_confirmation : string;
  br_block_idempotency_key_sha256 : string;
  br_block_hash : string;
  br_block_number : string;
  br_transaction_count : Z;
  br_parent_state_version : string;
  br_parent_snapshot_fingerprint_sha256 : string;
  br_final_state_version : string;
  br_final_accounts_fingerprint_sha256 : string;
  br_ordered_transaction_hashes : list string;
  br_transaction_plan_bindings_sha256 : list string;
  br_aggregate_account_changes : list AccountChange;
  br_total_fee_burned_wei : string;
  br_block_binding_sha256 : string;
  br_raw_signed_transactions_included : bool
}.

Inductive BlockStoreResult : Type :=
| BlockStoreApplied (commit_id block_hash block_number state_version : string) (transaction_count : Z)
| BlockStoreNotApplied (why existing_block_hash : option string) (submitted : option bool).

Inductive BlockApplyDecision : Type :=
| BlockApplied (block_hash block_number : string) (transaction_count : Z)
    (final_state_version block_idempotency_key_sha256 commit_id : string)
| BlockHeld (h : Held).

Definition blockStoreRequest (plan : BlockPlan) : BlockStoreRequest := {|
  br_marker := VOID_NATIVE_VALUE_TRANSFER_BLOCK_EXECUTOR_V1;
  br_version := 1;
  br_confirmation := VOID_NATIVE_VALUE_TRANSFER_BLOCK_CONFIRMATION_V1;
  br_block_idempotency_key_sha256 := bl_block_idempotency_key_sha256 plan;
  br_block_hash := bl_block_hash plan;
  br_block_number := bl_block_number plan;
  br_transaction_count := bl_transaction_count plan;
  br_parent_state_version := bl_parent_state_version plan;
  br_parent_snapshot_fingerprint_sha256 := bl_parent_snapshot_fingerprint_sha256 plan;
  br_final_state_version := bl_final_state_version plan;
  br_final_accounts_fingerprint_sha256 := bl_final_accounts_fingerprint_sha256 plan;
  br_ordered_transaction_hashes := bl_ordered_transaction_hashes plan;
  br_transaction_plan_bindings_sha256 := map pl_plan_binding_sha256 (bl_transaction_plans plan);
  br_aggregate_account_changes := bl_aggregate_account_changes plan;
  br_total_fee_burned_wei := bl_total_fee_burned_wei plan;
  br_block_binding_sha256 := bl_block_binding_sha256 plan;
  br_raw_signed_transactions_included := false
|}.

Definition blockStoreReceipt (plan : BlockPlan) (result : res BlockStoreResult) : BlockApplyDecision :=
  match result with
  | Throw error =>
      BlockHeld (mkHeld "native_value_transfer_block_store_error" false true
        (Some (JObj ["error_class" ~> error])))
  | Ok (BlockStoreNotApplied why existing submitted) =>
      BlockHeld (mkHeld (or_text why "native_value_transfer_block_not_applied") false
        (default false submitted) (Some (JObj ["existing_block_hash" ~> null_or_text existing])))
  | Ok (BlockStoreApplied commit_id block_hash block_number state_version transaction_count) =>
      let commitId := trim commit_id in
      let stateVersion := trim state_version in
      let blockHash := toLowerCase block_hash in
      if negb (SAFE_ID commitId)
        || text_neq stateVersion (bl_final_state_version plan)
        || text_neq blockHash (bl_block_hash plan)
        || text_neq block_number (bl_block_number plan)
        || negb (transaction_count =? bl_transaction_count plan)
      then BlockHeld (mkHeld "native_value_transfer_block_store_receipt_invalid" false true None)
      else BlockApplied blockHash block_number transaction_count stateVersion
        (bl_block_idempotency_key_sha256 plan) commitId
  end.

(** The store is a method that may change a state [S]; [None] when it is not configured. *)
Definition applyVoidNativeValueTransferBlockExecutionV1 {S : Type} (plan : BlockPlan)
    (confirmation : string) (store : option (S -> BlockStoreRequest -> S * res BlockStoreResult)) (s : S)
    : S * BlockApplyDecision :=
  if text_neq confirmation VOID_NATIVE_VALUE_TRANSFER_BLOCK_CONFIRMATION_V1
  then (s, BlockHeld (held "exact_block_confirmation_required"))
  else match store with
  | None => (s, BlockHeld (held "native_value_transfer_block_store_not_configured"))
  | Some apply_native_value_transfer_block_once =>
      match validateBlockPlan plan with
      | Some planFailure => (s, BlockHeld (held planFailure))
      | None =>
          let '(s', result) := apply_native_value_transfer_block_once s (blockStoreRequest plan) in
          (s', blockStoreReceipt plan result)
      end
  end.
End block.

(** ** The projected accounts as a ledger *)

Definition amounts (a : StoreAccount) : Z * Z := (BigInt (sa_balance_wei a), BigInt (sa_nonce a)).

Definition projected_ledger (p : list (string * StoreAccount)) : Ledger := amounts <$> as_map p.

Definition changed_account (c : AccountChange) : StoreAccount :=
  mkStoreAccount (ch_address c) (ch_balance_after_wei c) (ch_nonce_after c).

Definition changed_accounts (cs : list AccountChange) : gmap string StoreAccount :=
  list_to_map (map (fun c => (ch_address c, changed_account c)) cs).

Lemma changed_accounts_keys cs : (map (fun c => (ch_address c, changed_account c)) cs).*1 = map ch_address cs.
Proof. induction cs as [|c cs IH]; [done|]. cbn [map]. by rewrite fmap_cons, IH. Qed.

Lemma changed_accounts_cons c cs :
  changed_accounts (c :: cs) = <[ch_address c := changed_account c]> (changed_accounts cs).
Proof. done. Qed.

Lemma projectChanges_map cs p : NoDup (map ch_address cs) ->
  as_map (foldl projectChange p cs) = changed_accounts cs ∪ as_map p.
Proof.
  revert p. induction cs as [|c cs IH]; intros p Hnd; simpl.
  { unfold changed_accounts. simpl. by rewrite map_empty_union. }
  cbn [map] in Hnd. apply NoDup_cons in Hnd as [Hni Hnd]. rewrite IH by done.
  unfold projectChange. rewrite as_map_set, changed_accounts_cons.
  rewrite <- insert_union_l, insert_union_r; [done|].
  apply not_elem_of_list_to_map. by rewrite changed_accounts_keys.
Qed.

Lemma changed_accounts_ledger cs : amounts <$> changed_accounts cs = changes_ledger After cs.
Proof.
  unfold changed_accounts, changes_ledger. induction cs as [|c cs IH]; simpl; [by rewrite fmap_empty|].
  by rewrite fmap_insert, IH.
Qed.

Lemma projectChanges_ledger cs p : NoDup (map ch_address cs) ->
  projected_ledger (foldl projectChange p cs) = changes_ledger After cs ∪ projected_ledger p.
Proof.
  intros Hnd. unfold projected_ledger. by rewrite projectChanges_map, map_fmap_union, changed_accounts_ledger.
Qed.

Lemma projectChanges_keys cs p : (forall c, c ∈ cs -> ch_address c ∈ p.*1) ->
  (foldl projectChange p cs).*1 = p.*1.
Proof.
  revert p. induction cs as [|c cs IH]; intros p Hin; simpl; [done|].
  assert ((projectChange p c).*1 = p.*1) as Hk by (apply map_set_keys, Hin; left).
  rewrite IH; rewrite Hk; [done|]. intros; apply Hin. by right.
Qed.

(** A change whose prestate is that of the projected account. *)
Definition prestate_matches (p : list (string * StoreAccount)) (c : AccountChange) : Prop :=
  exists cur, as_map p !! ch_address c = Some cur /\
    sa_balance_wei cur = ch_balance_before_wei c /\ sa_nonce cur = ch_nonce_before c.

Lemma prestate_ledger p cs : Forall (prestate_matches p) cs -> changes_ledger Before cs ⊆ projected_ledger p.
Proof.
  intros Hcs. apply map_subseteq_spec. intros a x Hx.
  apply elem_of_list_to_map_2, list_elem_of_fmap in Hx as (c & [= -> ->] & Hc).
  rewrite Forall_forall in Hcs. destruct (Hcs c Hc) as (cur & Hcur & Hb & Hn).
  unfold projected_ledger. rewrite lookup_fmap, Hcur. simpl. unfold amounts. by rewrite Hb, Hn.
Qed.

Section block_lemmas.
Context `{D : Digest}.

Lemma prestateLoop_Next p i cs u : for_each (prestateStep p i) tt cs = Next u -> Forall (prestate_matches p) cs.
Proof.
  destruct u. induction cs as [|c cs IH]; simpl; intros H; [constructor|].
  apply bind_Next in H as ([] & Hc & H). constructor; [|by apply IH].
  unfold prestateStep in Hc. apply return_if_Next, negb_false_iff in Hc.
  rewrite map_get_lookup in Hc. destruct (as_map p !! ch_address c) as [cur|] eqn:Hcur; [|discriminate].
  apply andb_true_iff in Hc as [Hb%String.eqb_eq Hn%String.eqb_eq]. by exists cur.
Qed.
End block_lemmas.

(** What the loop keeps: the projected accounts are the snapshot after the transfers of
    the plans so far, and the totals are those of the plans. *)
Record block_inv (initial : list (string * StoreAccount)) (blockHash : string) (blockNumber : Z)
    (st : BlockState) : Prop := mkBlockInv {
  bi_keys : (bs_projected st).*1 = initial.*1;
  bi_addresses : forall a x, as_map (bs_projected st) !! a = Some x -> sa_address x = a;
  bi_executes : executes (projected_ledger initial) (map plan_transfer (bs_transactionPlans st))
    (projected_ledger (bs_projected st));
  bi_hashes : bs_orderedTransactionHashes st = map pl_transaction_hash (bs_transactionPlans st);
  bi_distinct : NoDup (bs_orderedTransactionHashes st);
  bi_value : bs_totalValue st = sumZ t_value (map plan_transfer (bs_transactionPlans st));
  bi_fee : bs_totalFeeDebit st = sumZ t_fee (map plan_transfer (bs_transactionPlans st));
  bi_credit : bs_totalFeeCredit st =
    sumZ (fun t => sumZ snd (t_credits t)) (map plan_transfer (bs_transactionPlans st));
  bi_burned : bs_totalFeeBurned st = sumZ burned (map plan_transfer (bs_transactionPlans st));
  bi_version : SAFE_ID (bs_projectedStateVersion st) = true;
  bi_plans : forall i p, bs_transactionPlans st !! i = Some p ->
    pl_block_hash p = blockHash /\ pl_block_number p = dec blockNumber /\
    pl_transaction_index p = dec (Z.of_nat i) /\
    pl_marker p = VOID_NATIVE_VALUE_TRANSFER_STATE_TRANSITION_V1 /\ SHA256 (pl_plan_binding_sha256 p) = true /\
    TRANSACTION_HASH (pl_transaction_hash p) = true
}.

Section block_loop.
Context `{D : Digest} `{!DigestShape D} `{E : Ethers} `{!EthersLaws E} `{L : Locale}.

Lemma nextStateVersion_safe v i p : SAFE_ID (nextStateVersion v i p) = true.
Proof. unfold nextStateVersion. apply safe_id_digest; [apply sha256_hex64|done|simpl; lia]. Qed.

(** Projecting a prepared plan whose prestate matches is the transfer of the plan. *)
Lemma project_plan input plan p : prepareVoidNativeValueTransferStateTransitionV1 input = Prepared plan ->
  Forall (prestate_matches p) (pl_account_changes plan) ->
  NoDup (map ch_address (pl_account_changes plan)) /\
  legal (projected_ledger p) (plan_transfer plan) /\
  projected_ledger (foldl projectChange p (pl_account_changes plan)) = move (plan_transfer plan) (projected_ledger p).
Proof.
  intros Hprep Hpre.
  destruct (prepared_ledger _ _ Hprep) as (v & m & _ & _ & Hb & Ha & Hl & _ & _ & Hcs & Hdom & _ & _).
  assert (NoDup (map ch_address (pl_account_changes plan))) as Hnd
    by (rewrite (changed_addresses _ _ _ _ Hcs); apply required_NoDup).
  pose proof (prestate_ledger _ _ Hpre) as Hsub. rewrite Hb in Hsub.
  split; [done|]. split; [by eapply legal_part|].
  rewrite projectChanges_ledger, Ha by done. apply move_part; [done|].
  intros a Hin. unfold ledger_of. rewrite lookup_fmap, fmap_is_Some. by apply Hdom.
Qed.

Lemma prestate_keys p cs : Forall (prestate_matches p) cs -> forall c, c ∈ cs -> ch_address c ∈ p.*1.
Proof.
  rewrite Forall_forall. intros Hcs c Hc. destruct (Hcs c Hc) as (cur & Hcur & _).
  apply as_map_is_Some. by exists cur.
Qed.

Lemma project_addresses p cs : NoDup (map ch_address cs) ->
  (forall a x, as_map p !! a = Some x -> sa_address x = a) ->
  forall a x, as_map (foldl projectChange p cs) !! a = Some x -> sa_address x = a.
Proof.
  intros Hnd Hp a x. rewrite projectChanges_map by done.
  intros [Hx|[_ Hx]]%lookup_union_Some_raw; [|by apply Hp].
  apply elem_of_list_to_map_2, list_elem_of_fmap in Hx as (c & [= -> ->] & _). done.
Qed.

Lemma acceptPlan_inv initial policy blockHash blockNumber st bytes i input plan st' :
  block_inv initial blockHash blockNumber st -> length (bs_transactionPlans st) = i ->
  prepareVoidNativeValueTransferStateTransitionV1 input = Prepared plan ->
  acceptPlan policy blockHash blockNumber st bytes i plan = Next st' ->
  block_inv initial blockHash blockNumber st' /\ bs_transactionPlans st' = bs_transactionPlans st ++ [plan].
Proof.
  intros [Hk Had Hex Hh Hd Hv Hf Hc Hbu Hsv Hpl] Hlen Hprep Hacc.
  pose proof (prepared_valid _ _ Hprep) as Hval.
  apply validatePlan_None in Hval as ((_ & Hmk & _) & Hth & (_ & _ & _ & Hpb & _) & _).
  destruct (prepared_ledger _ _ Hprep) as (v & m & _ & _ & _ & _ & _ & Hburn & Hcred & _).
  unfold acceptPlan in Hacc. held_flow. unfold text_neq in *. bool_prop.
  repeat match goal with H : String.eqb _ _ = true |- _ => apply String.eqb_eq in H end.
  apply bool_decide_eq_false in H0. apply prestateLoop_Next in H1.
  destruct (project_plan _ _ _ Hprep H1) as (Hnd & Hlegal & Hmove).
  split; [|done]. split; simpl; rewrite ?map_app, ?sumZ_app; cbn [map sumZ foldr]; try (simpl; lia).
  - rewrite projectChanges_keys; [done|]. by apply prestate_keys.
  - by apply project_addresses.
  - eapply executes_app; [done|]. rewrite Hmove. econstructor; [done|constructor].
  - by rewrite Hh.
  - by apply NoDup_snoc.
  - rewrite Hcred. lia.
  - apply nextStateVersion_safe.
  - intros i p. rewrite lookup_app_Some. intros [Hi|[Hge Hi]]; [by apply Hpl|].
    apply list_lookup_singleton_Some in Hi as [Hi <-].
    replace i with (length (bs_transactionPlans st)) by lia. done.
Qed.

Lemma transactionStep_inv initial policy blockHash blockNumber st i transaction st' :
  block_inv initial blockHash blockNumber st -> length (bs_transactionPlans st) = i ->
  transactionStep policy blockHash blockNumber st i transaction = Next st' ->
  block_inv initial blockHash blockNumber st' /\ length (bs_transactionPlans st') = S i.
Proof.
  intros Hinv Hlen Hs. unfold transactionStep in Hs. held_flow.
  destruct (prepareVoidNativeValueTransferStateTransitionV1 _) as [plan|h] eqn:Hp; [|discriminate].
  destruct (acceptPlan_inv _ _ _ _ _ _ _ _ _ _ Hinv eq_refl Hp Hs) as [Hinv' Hplans].
  split; [done|]. rewrite Hplans, length_app. simpl. lia.
Qed.

Lemma blockLoop_inv initial policy blockHash blockNumber st i l st' :
  block_inv initial blockHash blockNumber st -> length (bs_transactionPlans st) = i ->
  for_indexed (transactionStep policy blockHash blockNumber) i st l = Next st' ->
  block_inv initial blockHash blockNumber st' /\ length (bs_transactionPlans st') = (i + length l)%nat.
Proof.
  revert st i. induction l as [|t l IH]; simpl; intros st i Hinv Hlen Hl.
  { injection Hl as <-. split; [done|lia]. }
  apply bind_Next in Hl as (st1 & H1 & Hl).
  destruct (transactionStep_inv _ _ _ _ _ _ _ _ Hinv Hlen H1) as [Hinv1 Hlen1].
  destruct (IH st1 (S i) Hinv1 Hlen1 Hl) as [? ->]. split; [done|lia].
Qed.

(** *** The parent snapshot *)

Definition amounts_canonical (a : StoreAccount) : Prop :=
  is_canonical_decimal (sa_balance_wei a) = true /\ is_canonical_decimal (sa_nonce a) = true.

Lemma snapshotAddressStep_Ok seen prev a st : snapshotAddressStep (seen, prev) a = Ok st ->
  st = (seen ++ [toLowerCase (sa_address a)], toLowerCase (sa_address a)) /\
  (toLowerCase (sa_address a) ∉ seen) /\ amounts_canonical a.
Proof.
  unfold snapshotAddressStep. intros H. inv_ok. apply bool_decide_eq_false in H1.
  apply parseUint_UStr in H3 as [Hb _], H4 as [Hn _].
  split; [done|]. split; [done|]. split; [rewrite Hb|rewrite Hn]; apply dec_canonical.
Qed.

Lemma addressLoop_Ok l seen prev st : foldM snapshotAddressStep (seen, prev) l = Ok st -> NoDup seen ->
  NoDup (seen ++ map (fun a => toLowerCase (sa_address a)) l) /\ Forall amounts_canonical l.
Proof.
  revert seen prev. induction l as [|a l IH]; simpl; intros seen prev H Hnd; [by rewrite app_nil_r|].
  apply bind_Ok in H as (st1 & (-> & Hni & Ha)%snapshotAddressStep_Ok & H).
  destruct (IH _ _ H) as [Hnd' Hl]; [by apply NoDup_snoc|].
  rewrite <- app_assoc in Hnd'. split; [done|by constructor].
Qed.

Lemma validateSnapshot_facts s s' : validateSnapshot s = Ok s' ->
  s' = s /\ SAFE_ID (sn_state_version s) = true /\ SHA256 (sn_snapshot_fingerprint_sha256 s) = true /\
  NoDup (map sa_address (sn_accounts s)) /\ Forall amounts_canonical (sn_accounts s).
Proof.
  unfold validateSnapshot. intros H. inv_ok. bool_prop. destruct x1 as [seen prev].
  apply addressLoop_Ok in H2 as [Hnd Hl]; [|constructor]. simpl in Hnd.
  repeat split; try done. rewrite <- (map_map sa_address toLowerCase) in Hnd. by eapply NoDup_fmap_1.
Qed.

Definition keyed (l : list StoreAccount) : list (string * StoreAccount) :=
  map (fun account => (sa_address account, account)) l.

Lemma keyed_keys l : (keyed l).*1 = map sa_address l.
Proof. induction l as [|a l IH]; [done|]. unfold keyed. cbn [map]. rewrite fmap_cons. by f_equal. Qed.

Lemma keyed_values l : (keyed l).*2 = l.
Proof. induction l as [|a l IH]; [done|]. unfold keyed. cbn [map]. rewrite fmap_cons. by f_equal. Qed.

Lemma keyed_address l a x : NoDup (map sa_address l) -> as_map (keyed l) !! a = Some x -> sa_address x = a /\ x ∈ l.
Proof.
  intros Hnd Hx. apply as_map_elem, list_elem_of_fmap in Hx as (y & [= -> ->] & Hy); [done|].
  by rewrite keyed_keys.
Qed.

Lemma initialProjection_keyed s : NoDup (map sa_address (sn_accounts s)) ->
  initialProjection s = keyed (sn_accounts s).
Proof. intros Hnd. unfold initialProjection. apply new_Map_distinct. by rewrite keyed_keys. Qed.

Lemma projected_ledger_keyed l : projected_ledger (keyed l) = accounts_ledger l.
Proof.
  unfold projected_ledger, as_map, keyed, accounts_ledger. induction l as [|a l IH]; simpl; [by rewrite fmap_empty|].
  by rewrite fmap_insert, IH.
Qed.

Lemma initial_inv s h n : NoDup (map sa_address (sn_accounts s)) -> SAFE_ID (sn_state_version s) = true ->
  block_inv (initialProjection s) h n (initialState s).
Proof.
  intros Hnd Hv. split; try done; simpl; try by constructor.
  intros a x. rewrite initialProjection_keyed by done. intros Hx. by apply keyed_address in Hx as [-> _].
Qed.

(** *** The aggregated changes *)

Definition aggregate_change (initial projected : list (string * StoreAccount)) (a : string) : option AccountChange :=
  before ← as_map initial !! a; after ← as_map projected !! a;
  if bool_decide (sa_balance_wei before = sa_balance_wei after /\ sa_nonce before = sa_nonce after) then None
  else Some (mkAccountChange a (sa_balance_wei before) (sa_balance_wei after) (sa_nonce before) (sa_nonce after)).

Lemma aggregateStep_Next initial projected acc a cs :
  aggregateStep initial projected acc a = Next cs <->
  is_Some (as_map initial !! a) /\ is_Some (as_map projected !! a) /\
  cs = acc ++ option_list (aggregate_change initial projected a).
Proof.
  unfold aggregateStep, aggregate_change, text_neq. rewrite !map_get_lookup.
  destruct (as_map initial !! a) as [b|]; [|split; [done|by intros [[? [=]] _]]].
  destruct (as_map projected !! a) as [c|]; [|split; [done|by intros (_ & [? [=]] & _)]]. simpl.
  destruct (String.eqb_spec (sa_balance_wei b) (sa_balance_wei c)) as [E1|E1],
    (String.eqb_spec (sa_nonce b) (sa_nonce c)) as [E2|E2]; simpl;
  (case_bool_decide as Hd; [|]; try (exfalso; naive_solver)); simpl; rewrite ?app_nil_r; split; try naive_solver.
Qed.

Lemma aggregateLoop_Next initial projected acc l cs :
  for_each (aggregateStep initial projected) acc l = Next cs ->
  cs = acc ++ omap (aggregate_change initial projected) l.
Proof.
  revert acc. induction l as [|a l IH]; simpl; intros acc H; [injection H as <-; by rewrite app_nil_r|].
  apply bind_Next in H as (acc1 & (_ & _ & ->)%aggregateStep_Next & ->%IH).
  rewrite <- app_assoc. f_equal. by destruct (aggregate_change initial projected a).
Qed.

Lemma aggregate_addresses initial projected l :
  map ch_address (omap (aggregate_change initial projected) l) `sublist_of` l.
Proof.
  induction l as [|a l IH]; [constructor|]. simpl.
  destruct (aggregate_change initial projected a) as [c|] eqn:Hc; [|by apply sublist_cons].
  cbn [map]. unfold aggregate_change in Hc. apply bind_Some in Hc as (x & _ & (y & _ & Hc)%bind_Some).
  case_bool_decide; [discriminate|]. injection Hc as <-. by apply sublist_skip.
Qed.

Lemma elem_of_aggregate initial projected (l : list string) c : c ∈ omap (aggregate_change initial projected) l <->
  ch_address c ∈ l /\ aggregate_change initial projected (ch_address c) = Some c.
Proof.
  rewrite list_elem_of_omap. split; [|eauto].
  intros (a & Ha & Hc). assert (ch_address c = a) as ->; [|done].
  unfold aggregate_change in Hc. apply bind_Some in Hc as (x & _ & (y & _ & Hc)%bind_Some).
  case_bool_decide; [discriminate|]. by injection Hc as <-.
Qed.

Lemma aggregate_change_Some initial projected a c : aggregate_change initial projected a = Some c ->
  exists x y, as_map initial !! a = Some x /\ as_map projected !! a = Some y /\
    c = mkAccountChange a (sa_balance_wei x) (sa_balance_wei y) (sa_nonce x) (sa_nonce y).
Proof.
  unfold aggregate_change. intros (x & Hx & (y & Hy & Hc)%bind_Some)%bind_Some.
  case_bool_decide; [discriminate|]. injection Hc as <-. eauto.
Qed.

(** An address without a change keeps its account. *)
Lemma aggregate_unchanged (initial projected : list (string * StoreAccount)) a :
  projected.*1 = initial.*1 ->
  (forall a x, as_map initial !! a = Some x -> sa_address x = a) ->
  (forall a x, as_map projected !! a = Some x -> sa_address x = a) ->
  (forall c, ch_address c = a -> c ∉ omap (aggregate_change initial projected) (isort str_leb projected.*1)) ->
  as_map initial !! a = as_map projected !! a.
Proof.
  intros Hkeys Hi Hp Hno. destruct (as_map initial !! a) as [x|] eqn:Hx, (as_map projected !! a) as [y|] eqn:Hy.
  - destruct (aggregate_change initial projected a) as [c|] eqn:Hc.
    + pose proof Hc as (x' & y' & _ & _ & Heq)%aggregate_change_Some.
      assert (ch_address c = a) as Hca by (by rewrite Heq). exfalso. apply (Hno c Hca).
      apply elem_of_aggregate. rewrite Hca, isort_perm. split; [|done]. apply as_map_is_Some. by rewrite Hy.
    + unfold aggregate_change in Hc. rewrite Hx, Hy in Hc. simpl in Hc.
      case_bool_decide as Heq; [|discriminate]. pose proof (Hi _ _ Hx) as H1. pose proof (Hp _ _ Hy) as H2.
      destruct x, y; simpl in *. destruct Heq as [-> ->]. congruence.
  - assert (a ∈ projected.*1) as Hin by (rewrite Hkeys; apply as_map_is_Some; by rewrite Hx).
    apply as_map_is_Some in Hin as [? Hin]. congruence.
  - assert (a ∈ initial.*1) as Hin by (rewrite <- Hkeys; apply as_map_is_Some; by rewrite Hy).
    apply as_map_is_Some in Hin as [? Hin]. congruence.
  - done.
Qed.

(** The aggregated changes start at the snapshot and lead to the projected accounts. *)
Lemma aggregate_projects (initial projected : list (string * StoreAccount)) :
  projected.*1 = initial.*1 -> NoDup initial.*1 ->
  (forall a x, as_map initial !! a = Some x -> sa_address x = a) ->
  (forall a x, as_map projected !! a = Some x -> sa_address x = a) ->
  let cs := omap (aggregate_change initial projected) (isort str_leb projected.*1) in
  NoDup (map ch_address cs) /\ Forall (prestate_matches initial) cs /\
  StronglySorted (fun a b => str_leb a b = true) (map ch_address cs) /\
  as_map (foldl projectChange initial cs) = as_map projected.
Proof.
  intros Hkeys Hnd Hi Hp cs.
  pose proof (aggregate_addresses initial projected (isort str_leb projected.*1)) as Hsub.
  assert (NoDup (map ch_address cs)) as Hndc.
  { eapply sublist_NoDup; [|exact Hsub]. by rewrite isort_perm, Hkeys. }
  split; [done|]. split; [|split].
  - apply Forall_forall. intros c (_ & (x & y & Hx & _ & Hc)%aggregate_change_Some)%elem_of_aggregate.
    exists x. rewrite Hc. done.
  - eapply StronglySorted_sublist; [exact Hsub|]. apply isort_Sorted; eauto with voidnet.
  - rewrite projectChanges_map by done. apply map_eq. intros a. rewrite lookup_union.
    destruct (changed_accounts cs !! a) as [z|] eqn:Hz.
    + apply elem_of_list_to_map_2, list_elem_of_fmap in Hz as (c & [= -> ->] & Hc).
      apply elem_of_aggregate in Hc as (_ & (x & y & Hx & Hy & Hc)%aggregate_change_Some).
      rewrite Hy, Hx. simpl. f_equal. rewrite Hc. unfold changed_account. simpl.
      pose proof (Hp _ _ Hy) as Ha. destruct y; simpl in *. by rewrite Ha.
    + assert (as_map initial !! a = as_map projected !! a) as ->; [|by destruct (as_map projected !! a)].
      apply not_elem_of_list_to_map in Hz. rewrite changed_accounts_keys in Hz.
      by apply aggregate_unchanged; [| | |intros c Hc Hin; apply Hz; rewrite <- Hc; apply list_elem_of_fmap_2].
Qed.

(** *** Prepared blocks *)

(** The parts a prepared block is made of. *)
Record prepared_block (input : BlockInput) (plan : BlockPlan) : Prop := mkPreparedBlock {
  pb_hash : TRANSACTION_HASH (toLowerCase (bi_block_hash input)) = true;
  pb_snapshot : validateSnapshot (bi_snapshot input) = Ok (bi_snapshot input);
  pb_nonempty : bi_transactions input <> [];
  pb_count : Z.of_nat (length (bi_transactions input)) <= 100000;
  pb_parts : exists policy blockNumber st,
    let snapshot := bi_snapshot input in
    let initial := initialProjection snapshot in
    let cs := omap (aggregate_change initial (bs_projected st)) (isort str_leb (bs_projected st).*1) in
    for_indexed (transactionStep policy (toLowerCase (bi_block_hash input)) blockNumber) 0 (initialState snapshot)
      (bi_transactions input) = Next st /\
    0 <= blockNumber /\ block_inv initial (toLowerCase (bi_block_hash input)) blockNumber st /\
    length (bs_transactionPlans st) = length (bi_transactions input) /\ cs <> [] /\
    plan = buildBlockPlan snapshot (toLowerCase (bi_block_hash input)) blockNumber st cs
}.

Lemma normalizeBlockPolicy_count p n : normalizeBlockPolicy p = Ok n -> nbp_max_transactions_per_block n <= 100000.
Proof. unfold normalizeBlockPolicy, ChainBase.parseBoundedNumber. intros H. inv_ok. simpl. lia. Qed.

Lemma prepareBlock_parts input plan :
  prepareVoidNativeValueTransferBlockExecutionV1 input = Prepared plan -> prepared_block input plan.
Proof.
  unfold prepareVoidNativeValueTransferBlockExecutionV1. rewrite decide_body_Prepared.
  unfold prepareBlockBody. intros H. held_flow. bool_prop.
  match goal with H : validateSnapshot _ = Ok _ |- _ =>
    pose proof (validateSnapshot_facts _ _ H) as (-> & Hv & _ & Hnd & _) end.
  match goal with H : parseUint _ _ = Ok _ |- _ => apply parseUint_nonneg in H end.
  match goal with H : for_each (aggregateStep _ _) _ _ = Next _ |- _ => apply aggregateLoop_Next in H end.
  match goal with H : for_indexed _ _ _ _ = Next _ |- _ => pose proof H as Hloop;
    apply blockLoop_inv with (initial := initialProjection (bi_snapshot input)) in H as [Hinv Hlen];
    [|by apply initial_inv|done] end.
  repeat match goal with H : bool_decide _ = false |- _ => apply bool_decide_eq_false in H end.
  simpl in *. subst. split; [done|done|done| |eauto 12].
  match goal with H : normalizeBlockPolicy _ = Ok _ |- _ => apply normalizeBlockPolicy_count in H end. lia.
Qed.

Lemma prepared_block_ledger input plan : prepared_block input plan ->
  let l0 := accounts_ledger (sn_accounts (bi_snapshot input)) in
  let ts := map plan_transfer (bl_transaction_plans plan) in
  let cs := bl_aggregate_account_changes plan in
  exists l1, executes l0 ts l1 /\ length ts = length (bi_transactions input) /\
    changes_ledger Before cs ⊆ l0 /\ changes_ledger After cs ∪ l0 = l1 /\
    BigInt (bl_total_fee_burned_wei plan) = sumZ burned ts /\
    bl_transaction_count plan = Z.of_nat (length ts) /\
    NoDup (bl_ordered_transaction_hashes plan) /\ NoDup (map ch_address cs).
Proof.
  intros [_ Hs _ _ (policy & blockNumber & st & _ & _ & [Hk Had Hex Hh Hd _ _ _ Hbu _ _] & Hlen & _ & ->)].
  simpl in *. destruct (validateSnapshot_facts _ _ Hs) as (_ & _ & _ & Hnd & _).
  rewrite initialProjection_keyed in * by done. rewrite projected_ledger_keyed in Hex.
  destruct (aggregate_projects (keyed (sn_accounts (bi_snapshot input))) (bs_projected st)) as (Hndc & Hpre & _ & Hmap);
    [done|by rewrite keyed_keys|intros a x Hx; by apply keyed_address in Hx as [-> _]|done|].
  exists (projected_ledger (bs_projected st)). split; [done|]. rewrite length_map.
  split; [done|]. split; [rewrite <- projected_ledger_keyed; by apply prestate_ledger|]. split.
  - rewrite <- projected_ledger_keyed, <- projectChanges_ledger by done. unfold projected_ledger.
    by rewrite Hmap.
  - rewrite Hbu. split; [|done]. apply BigInt_dec. apply sumZ_nonneg.
    clear -Hex. induction Hex; constructor; [by eapply burned_nonneg|done].
Qed.

(** The loop of [validateBlockPlan] accepts plans numbered in order with distinct hashes. *)
Lemma transactionBindings_ok plan i seen plans :
  (forall k p, plans !! k = Some p ->
    pl_block_hash p = bl_block_hash plan /\ pl_block_number p = bl_block_number plan /\
    pl_transaction_index p = dec (i + Z.of_nat k) /\
    pl_marker p = VOID_NATIVE_VALUE_TRANSFER_STATE_TRANSITION_V1 /\ SHA256 (pl_plan_binding_sha256 p) = true) ->
  NoDup (seen ++ map pl_transaction_hash plans) ->
  transactionBindingsOk plan i seen plans (map pl_transaction_hash plans) = true.
Proof.
  revert i seen. induction plans as [|p plans IH]; intros i seen Hp Hnd; [done|]. cbn [map transactionBindingsOk].
  destruct (Hp 0%nat p eq_refl) as (-> & -> & -> & -> & ->). rewrite Z.add_0_r, !String.eqb_refl.
  cbn [map] in Hnd. rewrite bool_decide_eq_false_2.
  2: { apply NoDup_app in Hnd as (_ & Hd & _). intros Hin. apply (Hd _ Hin). left. }
  cbn [andb negb]. apply IH; [|by rewrite <- app_assoc].
  intros k q Hq. specialize (Hp (S k) q Hq). by replace (i + 1 + Z.of_nat k) with (i + Z.of_nat (S k)) by lia.
Qed.

Lemma validateBlockPlan_None (p : BlockPlan) : validateBlockPlan p = None <->
  (bl_schema p = "void_native_value_transfer_block_prepared_plan_v1"%string /\
   bl_marker p = VOID_NATIVE_VALUE_TRANSFER_BLOCK_EXECUTOR_V1 /\ bl_version p = 1 /\
   TRANSACTION_HASH (bl_block_hash p) = true /\ is_canonical_decimal (bl_block_number p) = true /\
   SAFE_ID (bl_parent_state_version p) = true /\ SAFE_ID (bl_final_state_version p) = true /\
   SHA256 (bl_parent_snapshot_fingerprint_sha256 p) = true /\
   SHA256 (bl_final_accounts_fingerprint_sha256 p) = true /\
   SHA256 (bl_block_idempotency_key_sha256 p) = true /\ SHA256 (bl_block_binding_sha256 p) = true) /\
  ((bl_transaction_count p <=? 0) = false /\
   bl_transaction_count p = Z.of_nat (length (bl_transaction_plans p)) /\
   bl_transaction_count p = Z.of_nat (length (bl_ordered_transaction_hashes p))) /\
  transactionBindingsOk p 0 [] (bl_transaction_plans p) (bl_ordered_transaction_hashes p) = true /\
  blockIdempotencyKey (bl_block_hash p) (bl_block_number p) = bl_block_idempotency_key_sha256 p /\
  sha256 (blockPlanBindingMaterial p) = bl_block_binding_sha256 p.
Proof.
  unfold validateBlockPlan, text_neq.
  rewrite !if_None, !orb_false_iff, !negb_false_iff, !String.eqb_eq, !Z.eqb_eq. tauto.
Qed.

Lemma prepared_block_valid input plan : prepared_block input plan -> validateBlockPlan plan = None.
Proof.
  intros [Hh Hs Hne _ (policy & blockNumber & st & _ & _ & [Hk Had Hex Hhs Hd _ _ _ Hbu Hsv Hpl] & Hlen & _ & ->)].
  destruct (validateSnapshot_facts _ _ Hs) as (_ & Hv & Hfp & _). apply validateBlockPlan_None. simpl.
  unfold projectedAccountsFingerprint, blockIdempotencyKey.
  repeat split; try done; try apply sha256_hex64; try apply dec_canonical.
  - destruct (bi_transactions input) as [|? ?]; [done|]. simpl in Hlen. lia.
  - by rewrite Hhs, length_map.
  - rewrite Hhs. apply transactionBindings_ok; [|by rewrite <- Hhs].
    intros k p Hp. destruct (Hpl k p Hp) as (? & ? & ? & ? & ? & _). done.
Qed.

(** ** The theorems *)

(** C25: A prepared block is the sequential execution of its transfers: from the accounts
    of the parent snapshot, every transfer of the plan in order is legal where it executes
    and the ledger reached is the parent with the aggregated changes applied (each starting
    from the parent's own balance and nonce).  One transfer per transaction of the request,
    no transaction twice; the total balance drops by exactly the burned fees the plan
    reports, and the nonces grow by exactly the transaction count. *)
Theorem block_refines_ledger (input : BlockInput) (plan : BlockPlan) :
  prepareVoidNativeValueTransferBlockExecutionV1 input = Prepared plan ->
  let l0 := accounts_ledger (sn_accounts (bi_snapshot input)) in
  let ts := map plan_transfer (bl_transaction_plans plan) in
  let cs := bl_aggregate_account_changes plan in
  exists l1, executes l0 ts l1 /\ length ts = length (bi_transactions input) /\
    changes_ledger Before cs ⊆ l0 /\ l1 = changes_ledger After cs ∪ l0 /\
    supply l1 = supply l0 - BigInt (bl_total_fee_burned_wei plan) /\
    nonces l1 = nonces l0 + bl_transaction_count plan /\
    NoDup (bl_ordered_transaction_hashes plan).
Proof.
  intros (l1 & Hex & Hlen & Hb & Ha & Hburn & Hcount & Hd & _)%prepareBlock_parts%prepared_block_ledger.
  exists l1. rewrite Hburn, Hcount. repeat split; try done.
  - by apply executes_supply.
  - by apply executes_nonces.
Qed.

(** A prepared block passes the validation that guards its application, and its
    request reaches the store: with the exact confirmation and a configured store, applying
    the plan is the store's answer to the request of the plan, translated. *)
Theorem prepared_block_reaches_store {S : Type} (input : BlockInput) (plan : BlockPlan)
    (store : S -> BlockStoreRequest -> S * res BlockStoreResult) (s : S) :
  prepareVoidNativeValueTransferBlockExecutionV1 input = Prepared plan ->
  validateBlockPlan plan = None /\
  applyVoidNativeValueTransferBlockExecutionV1 plan VOID_NATIVE_VALUE_TRANSFER_BLOCK_CONFIRMATION_V1
    (Some store) s =
    ((store s (blockStoreRequest plan)).1, blockStoreReceipt plan (store s (blockStoreRequest plan)).2).
Proof.
  intros Hv%prepareBlock_parts%prepared_block_valid. split; [done|].
  unfold applyVoidNativeValueTransferBlockExecutionV1. rewrite Hv. simpl.
  by destruct (store s (blockStoreRequest plan)).
Qed.
End block_loop.

(** ** A block of two dependent transfers *)

Module BlockSample.
Import TransferSample.

#[local] Existing Instance poly256 | 0.
#[local] Existing Instance code_unit_locale | 0.
#[local] Existing Instance sample_ethers | 0.
#[local] Existing Instance sample_ethers_laws | 0.

Definition sample_snapshot : Snapshot := Eval vm_compute in
  createSnapshot "genesis" [mkStoreAccount carol "0" "0"; mkStoreAccount alice "100000" "0";
    mkStoreAccount bob "50000" "7"] [] None.

Definition sample_transaction (raw : string) (credits : list FeeCredit) : BlockTransaction :=
  mkBlockTransaction raw sample_policy (UBig 2) credits digest_a.

Definition sample_block : BlockInput :=
  mkBlockInput block_hash (UNum (NInt 1)) sample_snapshot
    (mkBlockPolicy (UBig 10) (UBig 1000) (UBig 1000) (UBig 1000000) (UBig 1000000))
    [sample_transaction "0xa1" [mkFeeCredit bob (UBig 1000)]; sample_transaction "0xa2" [];
     sample_transaction "0xa3" [mkFeeCredit carol (UStr "1"); mkFeeCredit bob (UBig 2)]].

Definition sample_block_plan : BlockPlan :=
  ltac:(let r := eval vm_compute in (prepareVoidNativeValueTransferBlockExecutionV1 sample_block) in
        lazymatch r with Prepared ?p => exact p end).

Lemma sample_block_prepared :
  prepareVoidNativeValueTransferBlockExecutionV1 sample_block = Prepared sample_block_plan.
Proof. vm_compute. reflexivity. Qed.

Lemma block_refines_ledger_witness :
  exists l1, executes (accounts_ledger (sn_accounts sample_snapshot))
      (map plan_transfer (bl_transaction_plans sample_block_plan)) l1 /\
    supply l1 = supply (accounts_ledger (sn_accounts sample_snapshot)) - 124997.
Proof.
  destruct (block_refines_ledger sample_block sample_block_plan sample_block_prepared)
    as (l1 & Hex & _ & _ & _ & Hsup & _).
  exists l1. split; [exact Hex|]. exact Hsup.
Defined.

Lemma prepared_block_reaches_store_witness :
  let refusing := fun (n : nat) (_ : BlockStoreRequest) => (S n, Ok (BlockStoreNotApplied None None None)) in
  (applyVoidNativeValueTransferBlockExecutionV1 sample_block_plan
    VOID_NATIVE_VALUE_TRANSFER_BLOCK_CONFIRMATION_V1 (Some refusing) 0%nat).1 = 1%nat.
Proof.
  intros refusing.
  destruct (prepared_block_reaches_store sample_block sample_block_plan refusing 0%nat sample_block_prepared)
    as [_ Happ]. rewrite Happ. reflexivity.
Defined.
End BlockSample.
