(* ===== verification/AccountStore.v ===== *)
(** * The native account store

    Model of the stateful part of [src/chain/native_account_state_store_v1.ts]: the files
    of one store, and the operations that initialize it, apply a transfer or a block
    exactly once, and recover it after a crash.

    The file system is a record of the five files of a store.  A file holds a value of the
    declared type and the size of its text; the journal is its entries in order.  Every
    operation is a program that records the file system after each system call that
    changes it, so that the states in which a killed process can leave the store are the
    recorded ones.  [Date.now()], [process.pid] and the liveness of a process are
    arguments. *)

From Stdlib Require Import Ascii Sorted.
From S2P Require Import Prelude Js JsText Flow CanonicalJson Sha256 Ledger NativeTransfer ChainBase.
From S2P Require Import AccountSnapshot BlockExecutor.

(** ** Sizes of texts *)

Definition byteLength (s : string) : Z := Z.of_nat (length (utf8_bytes s)).

Fixpoint spaces (n : nat) : string := match n with O => EmptyString | S n' => String " " (spaces n') end.
Definition newline : string := String (ascii_of_N 10) EmptyString.

Fixpoint join_lines (l : list string) : string :=
  match l with
  | [] => EmptyString
  | [s] => s
  | s :: l' => s +:+ "," +:+ newline +:+ join_lines l'
  end.

(** [JSON.stringify(value, null, 2)] at an indentation; keys print in insertion order. *)
Fixpoint pretty (indent : nat) (v : json) : string :=
  match v with
  | JArr [] => "[]"
  | JArr l =>
      "[" +:+ newline +:+ join_lines (map (fun x => spaces (indent + 2) +:+ pretty (indent + 2) x) l)
      +:+ newline +:+ spaces indent +:+ "]"
  | JObj [] => "{}"
  | JObj fs =>
      "{" +:+ newline
      +:+ join_lines (map (fun f => spaces (indent + 2) +:+ json_quote f.1 +:+ ": " +:+ pretty (indent + 2) f.2) fs)
      +:+ newline +:+ spaces indent +:+ "}"
  | _ => default EmptyString (stringify v)
  end.

(** The size of a file written by [atomicWriteJson], and of a line of the journal. *)
Definition file_bytes (v : json) : Z := byteLength (pretty 0 v) + 1.
Definition line_bytes (v : json) : Z := byteLength (default EmptyString (stringify v)) + 1.

(** ** The data of the files *)

Record LockRecord := mkLockRecord {
  lk_schema : string;
  lk_marker : string;
  lk_version : Z;
  lk_pid : Z;
  lk_created_at_ms : Z
}.

Record TransactionJournalEntry := mkTransactionJournalEntry {
  te_marker : string;
  te_version : Z;
  te_commit_id : string;
  te_idempotency_key_sha256 : string;
  te_transaction_hash : string;
  te_prior_state_version : string;
  te_state_version : string;
  te_prestate_fingerprint_sha256 : string;
  te_poststate_fingerprint_sha256 : string;
  te_plan_binding_sha256 : string;
  te_fee_burned_wei : string;
  te_account_changes : list AccountChange;
  te_snapshot_fingerprint_sha256 : string;
  te_raw_signed_transaction_included : bool
}.

Record BlockJournalEntry := mkBlockJournalEntry {
  be_marker : string;
  be_version : Z;
  be_commit_id : string;
  be_block_idempotency_key_sha256 : string;
  be_block_hash : string;
  be_block_number : string;
  be_transaction_count : Z;
  be_prior_state_version : string;
  be_state_version : string;
  be_parent_snapshot_fingerprint_sha256 : string;
  be_final_accounts_fingerprint_sha256 : string;
  be_ordered_transaction_hashes : list string;
  be_transaction_plan_bindings_sha256 : list string;
  be_aggregate_account_changes : list AccountChange;
  be_total_fee_burned_wei : string;
  be_block_binding_sha256 : string;
  be_snapshot_fingerprint_sha256 : string;
  be_raw_signed_transactions_included : bool
}.

(** The two values of the [schema] field. *)
Inductive JournalEntry : Type :=
| TransactionEntry (e : TransactionJournalEntry)
| BlockEntry (e : BlockJournalEntry).

Definition entry_commit_id (e : JournalEntry) : string :=
  match e with TransactionEntry t => te_commit_id t | BlockEntry b => be_commit_id b end.

Record Intent := mkIntent {
  it_schema : string;
  it_marker : string;
  it_version : Z;
  it_created_at_ms : Z;
  it_pre_snapshot_fingerprint_sha256 : string;
  it_post_snapshot_fingerprint_sha256 : string;
  it_post_snapshot : Snapshot;
  it_journal_entry : JournalEntry;
  it_raw_signed_transaction_included : bool
}.

(** ** Rendering *)

Definition entry_json (e : JournalEntry) : json :=
  match e with
  | TransactionEntry t =>
      JObj ["schema" ~> "void_native_account_state_store_journal_entry_v1";
            "marker" ~> te_marker t;
            "version" ~> jint (te_version t);
            "commit_id" ~> te_commit_id t;
            "idempotency_key_sha256" ~> te_idempotency_key_sha256 t;
            "transaction_hash" ~> te_transaction_hash t;
            "prior_state_version" ~> te_prior_state_version t;
            "state_version" ~> te_state_version t;
            "prestate_fingerprint_sha256" ~> te_prestate_fingerprint_sha256 t;
            "poststate_fingerprint_sha256" ~> te_poststate_fingerprint_sha256 t;
            "plan_binding_sha256" ~> te_plan_binding_sha256 t;
            "fee_burned_wei" ~> te_fee_burned_wei t;
            "account_changes" ~> JArr (map change_json (te_account_changes t));
            "snapshot_fingerprint_sha256" ~> te_snapshot_fingerprint_sha256 t;
            "raw_signed_transaction_included" ~> te_raw_signed_transaction_included t]
  | BlockEntry b =>
      JObj ["schema" ~> "void_native_account_state_store_block_journal_entry_v1";
            "marker" ~> be_marker b;
            "version" ~> jint (be_version b);
            "commit_id" ~> be_commit_id b;
            "block_idempotency_key_sha256" ~> be_block_idempotency_key_sha256 b;
            "block_hash" ~> be_block_hash b;
            "block_number" ~> be_block_number b;
            "transaction_count" ~> jint (be_transaction_count b);
            "prior_state_version" ~> be_prior_state_version b;
            "state_version" ~> be_state_version b;
            "parent_snapshot_fingerprint_sha256" ~> be_parent_snapshot_fingerprint_sha256 b;
            "final_accounts_fingerprint_sha256" ~> be_final_accounts_fingerprint_sha256 b;
            "ordered_transaction_hashes" ~> JArr (map JStr (be_ordered_transaction_hashes b));
            "transaction_plan_bindings_sha256" ~> JArr (map JStr (be_transaction_plan_bindings_sha256 b));
            "aggregate_account_changes" ~> JArr (map change_json (be_aggregate_account_changes b));
            "total_fee_burned_wei" ~> be_total_fee_burned_wei b;
            "block_binding_sha256" ~> be_block_binding_sha256 b;
            "snapshot_fingerprint_sha256" ~> be_snapshot_fingerprint_sha256 b;
            "raw_signed_transactions_included" ~> be_raw_signed_transactions_included b]
  end.

Definition intent_json (i : Intent) : json :=
  JObj ["schema" ~> it_schema i;
        "marker" ~> it_marker i;
        "version" ~> jint (it_version i);
        "created_at_ms" ~> jint (it_created_at_ms i);
        "pre_snapshot_fingerprint_sha256" ~> it_pre_snapshot_fingerprint_sha256 i;
        "post_snapshot_fingerprint_sha256" ~> it_post_snapshot_fingerprint_sha256 i;
        "post_snapshot" ~> snapshot_json (it_post_snapshot i);
        "journal_entry" ~> entry_json (it_journal_entry i);
        "raw_signed_transaction_included" ~> it_raw_signed_transaction_included i].

(** ** The file system of one store *)

Record file (A : Type) := mkFile { file_value : A; file_size : Z }.
Arguments mkFile {_} _ _.
Arguments file_value {_} _.
Arguments file_size {_} _.

Record journal_file := mkJournal { jr_entries : list JournalEntry; jr_size : Z }.

(** The lock file is empty ([None]) between its creation and the write of its record. *)
Record fs := mkFs {
  fs_snapshot : option (file Snapshot);
  fs_snapshot_next : option (file Snapshot);
  fs_intent : option (file Intent);
  fs_journal : option journal_file;
  fs_lock : option (option LockRecord)
}.

Definition set_snapshot (x : option (file Snapshot)) (s : fs) : fs :=
  mkFs x (fs_snapshot_next s) (fs_intent s) (fs_journal s) (fs_lock s).
Definition set_next (x : option (file Snapshot)) (s : fs) : fs :=
  mkFs (fs_snapshot s) x (fs_intent s) (fs_journal s) (fs_lock s).
Definition set_intent (x : option (file Intent)) (s : fs) : fs :=
  mkFs (fs_snapshot s) (fs_snapshot_next s) x (fs_journal s) (fs_lock s).
Definition set_journal (x : option journal_file) (s : fs) : fs :=
  mkFs (fs_snapshot s) (fs_snapshot_next s) (fs_intent s) x (fs_lock s).
Definition set_lock (x : option (option LockRecord)) (s : fs) : fs :=
  mkFs (fs_snapshot s) (fs_snapshot_next s) (fs_intent s) (fs_journal s) x.

Definition exists_file {A} (f : option A) : bool := match f with Some _ => true | None => false end.

(** ** Programs over the file system *)

(** The states after each changing system call, the result, and the final state. *)
Definition io (A : Type) : Type := fs -> list fs * res A * fs.

#[export] Instance io_ret : MRet io := fun _ a s => ([], Ok a, s).
#[export] Instance io_bind : MBind io := fun _ _ f m s =>
  match m s with
  | (tr, Ok a, s') => let '(tr', r, s'') := f a s' in (tr ++ tr', r, s'')
  | (tr, Throw e, s') => (tr, Throw e, s')
  end.

Definition io_throw {A} (e : string) : io A := fun s => ([], Throw e, s).
Definition io_call {A} (m : res A) : io A := fun s => ([], m, s).
Definition io_get : io fs := fun s => ([], Ok s, s).

(** A system call that changes the file system. *)
Definition io_effect (f : fs -> fs) : io unit := fun s => ([f s], Ok tt, f s).

(** [try { m } catch (error) { ... }]: the result of [m] as a value. *)
Definition io_try {A} (m : io A) : io (res A) := fun s =>
  match m s with (tr, r, s') => (tr, Ok r, s') end.

(** [try { m } finally { f }] *)
Definition io_finally {A} (m : io A) (f : io unit) : io A := fun s =>
  match m s with
  | (tr, r, s') =>
      match f s' with
      | (tr', Ok _, s'') => (tr ++ tr', r, s'')
      | (tr', Throw e, s'') => (tr ++ tr', Throw e, s'')
      end
  end.

Definition io_trace {A} (m : io A) (s : fs) : list fs := (m s).1.1.
Definition io_result {A} (m : io A) (s : fs) : res A := (m s).1.2.
Definition io_final {A} (m : io A) (s : fs) : fs := (m s).2.

#[export] Instance AccountChange_eq_dec : EqDecision AccountChange.
Proof. solve_decision. Defined.

(** ** Reading and writing files *)

(** [process.pid] and [Date.now()] when the lock and the intent are written. *)
Record Env := mkEnv { env_pid : Z; env_lock_ms : Z; env_intent_ms : Z }.

Section store.
Context `{D : Digest} `{E : Ethers} `{L : Locale}.

Definition readJsonFile {A} (f : file A) (maxBytes : Z) : res A :=
  throw_if (file_size f >? maxBytes) "file_size_limit_exceeded";;
  Ok (file_value f).

Definition atomicWriteJson {A} (write : option (file A) -> fs -> fs) (render : A -> json) (value : A)
    (maxBytes : Z) : io unit :=
  let size := file_bytes (render value) in
  if size >? maxBytes then io_throw "snapshot_size_limit_exceeded"
  else io_effect (write (Some (mkFile value size))).

(** The journal is created empty if it is missing, then the line is appended. *)
Definition appendJournal (entry : JournalEntry) (maxBytes : Z) : io unit :=
  s ← io_get;
  let line := line_bytes (entry_json entry) in
  let existing := match fs_journal s with Some j => j | None => mkJournal [] 0 end in
  if jr_size existing + line >? maxBytes then io_throw "journal_size_limit_exceeded"
  else
    match fs_journal s with
    | Some _ => mret tt
    | None => io_effect (set_journal (Some (mkJournal [] 0)))
    end;;
    io_effect (set_journal (Some (mkJournal (jr_entries existing ++ [entry]) (jr_size existing + line)))).

Definition validTransactionEntry (t : TransactionJournalEntry) : bool :=
  SHA256 (te_idempotency_key_sha256 t)
  && TRANSACTION_HASH (te_transaction_hash t)
  && SAFE_ID (te_prior_state_version t)
  && SAFE_ID (te_state_version t)
  && SHA256 (te_prestate_fingerprint_sha256 t)
  && SHA256 (te_poststate_fingerprint_sha256 t)
  && SHA256 (te_plan_binding_sha256 t)
  && SHA256 (te_snapshot_fingerprint_sha256 t)
  && negb (te_raw_signed_transaction_included t).

Definition is_safe_integer (z : Z) : bool := Z.abs z <=? MAX_SAFE_INTEGER.

Definition validBlockEntry (b : BlockJournalEntry) : bool :=
  SHA256 (be_block_idempotency_key_sha256 b)
  && TRANSACTION_HASH (be_block_hash b)
  && is_canonical_decimal (be_block_number b)
  && is_safe_integer (be_transaction_count b)
  && (0 <? be_transaction_count b)
  && SAFE_ID (be_prior_state_version b)
  && SAFE_ID (be_state_version b)
  && SHA256 (be_parent_snapshot_fingerprint_sha256 b)
  && SHA256 (be_final_accounts_fingerprint_sha256 b)
  && (Z.of_nat (length (be_ordered_transaction_hashes b)) =? be_transaction_count b)
  && forallb TRANSACTION_HASH (be_ordered_transaction_hashes b)
  && (Z.of_nat (length (be_transaction_plan_bindings_sha256 b)) =? be_transaction_count b)
  && forallb SHA256 (be_transaction_plan_bindings_sha256 b)
  && negb (bool_decide (be_aggregate_account_changes b = []))
  && SHA256 (be_block_binding_sha256 b)
  && SHA256 (be_snapshot_fingerprint_sha256 b)
  && negb (be_raw_signed_transactions_included b).

Definition entry_identity (marker : string) (version : Z) (commit_id : string) : bool :=
  String.eqb marker VOID_NATIVE_ACCOUNT_STATE_STORE_V1 && (version =? 1) && SAFE_ID commit_id.

Definition validateJournalEntry (entry : JournalEntry) : res JournalEntry :=
  match entry with
  | TransactionEntry t =>
      throw_if (negb (entry_identity (te_marker t) (te_version t) (te_commit_id t))) "journal_entry_invalid";;
      throw_if (negb (validTransactionEntry t)) "transaction_journal_entry_invalid";;
      Ok entry
  | BlockEntry b =>
      throw_if (negb (entry_identity (be_marker b) (be_version b) (be_commit_id b))) "journal_entry_invalid";;
      throw_if (negb (validBlockEntry b)) "block_journal_entry_invalid";;
      parseUint (UStr (be_total_fee_burned_wei b)) "block_journal_total_fee_burned_wei";;
      Ok entry
  end.

Definition readJournal (s : fs) (maxBytes : Z) : res (list JournalEntry) :=
  match fs_journal s with
  | None => Ok []
  | Some j =>
      throw_if (jr_size j >? maxBytes) "journal_size_limit_exceeded";;
      map_res validateJournalEntry (jr_entries j)
  end.

Definition readSnapshot (s : fs) (policy : NormalizedStorePolicy) : res Snapshot :=
  match fs_snapshot s with
  | None => Throw "native_account_store_not_initialized"
  | Some f =>
      snapshot ← readJsonFile f (nsp_max_snapshot_bytes policy);
      AccountSnapshot.validateSnapshot snapshot policy
  end.

Definition lockRecord (env : Env) : LockRecord :=
  mkLockRecord "void_native_account_state_store_lock_v1" VOID_NATIVE_ACCOUNT_STATE_STORE_V1 1
    (env_pid env) (env_lock_ms env).

(** Creation with [O_EXCL], then the write of the record. *)
Definition writeLock (env : Env) : io unit :=
  s ← io_get;
  if exists_file (fs_lock s) then io_throw "EEXIST"
  else
    io_effect (set_lock (Some None));;
    io_effect (set_lock (Some (Some (lockRecord env)))).

Definition releaseLock : io unit :=
  s ← io_get;
  if exists_file (fs_lock s) then io_effect (set_lock None) else mret tt.

(** An empty file is no JSON text.  The text of a record is far below 16,384 bytes. *)
Definition readLock (lock : option LockRecord) : res LockRecord :=
  match lock with
  | None => Throw "Unexpected end of JSON input"
  | Some value =>
      throw_if (text_neq (lk_schema value) "void_native_account_state_store_lock_v1"
        || text_neq (lk_marker value) VOID_NATIVE_ACCOUNT_STATE_STORE_V1
        || negb (lk_version value =? 1)
        || negb (is_safe_integer (lk_pid value))
        || (lk_pid value <=? 0)
        || negb (is_safe_integer (lk_created_at_ms value))
        || (lk_created_at_ms value <=? 0))
        "lock_record_invalid";;
      Ok value
  end.

(** ** Applying one transfer *)

Definition fingerprintItem (side : Side) (item : AccountChange) : res StoreAccount :=
  address ← normalizeAddress (ch_address item) "change_address";
  balance ← parseUint (UStr (side_balance side item))
    (match side with Before => "change_balance_before_wei" | After => "change_balance_after_wei" end);
  nonce ← parseUint (UStr (side_nonce side item))
    (match side with Before => "change_nonce_before" | After => "change_nonce_after" end);
  Ok (mkStoreAccount address (dec balance) (dec nonce)).

Definition prestateFingerprint (stateVersion : string) (changes : list AccountChange) (side : Side)
    : res string :=
  accounts ← map_res (fingerprintItem side) changes;
  Ok (sha256 (JObj ["state_version" ~> stateVersion;
    "accounts" ~> JArr (map store_account_json (sort_accounts accounts))])).

(** The four numbers of a change, in the order of the source. *)
Definition parseChange (labels : string) (item : AccountChange) : res (Z * Z * Z * Z) :=
  balanceBefore ← parseUint (UStr (ch_balance_before_wei item)) (labels +:+ "_balance_before_wei");
  balanceAfter ← parseUint (UStr (ch_balance_after_wei item)) (labels +:+ "_balance_after_wei");
  nonceBefore ← parseUint (UStr (ch_nonce_before item)) (labels +:+ "_nonce_before");
  nonceAfter ← parseUint (UStr (ch_nonce_after item)) (labels +:+ "_nonce_after");
  Ok (balanceBefore, balanceAfter, nonceBefore, nonceAfter).

Record ChangeTotals := mkChangeTotals {
  ct_changes : list AccountChange;
  ct_nonces : Z;
  ct_before : Z;
  ct_after : Z
}.

Definition applyChangeStep (st : ChangeTotals) (item : AccountChange) : res ChangeTotals :=
  address ← normalizeAddress (ch_address item) "change_address";
  throw_if (bool_decide (address ∈ map ch_address (ct_changes st))) "store_apply_request_duplicate_address";;
  numbers ← parseChange "change" item;
  let '(balanceBefore, balanceAfter, nonceBefore, nonceAfter) := numbers in
  throw_if (negb (nonceAfter =? nonceBefore + 1) && negb (nonceAfter =? nonceBefore))
    "store_apply_request_nonce_delta_invalid";;
  Ok (mkChangeTotals
    (ct_changes st ++ [mkAccountChange address (dec balanceBefore) (dec balanceAfter) (dec nonceBefore)
      (dec nonceAfter)])
    (if nonceAfter =? nonceBefore + 1 then ct_nonces st + 1 else ct_nonces st)
    (ct_before st + balanceBefore) (ct_after st + balanceAfter)).

(** What validation makes of a request. *)
Record ApplyRequest := mkApplyRequest {
  ar_idempotency_key_sha256 : string;
  ar_transaction_hash : string;
  ar_state_version : string;
  ar_prestate_fingerprint_sha256 : string;
  ar_poststate_fingerprint_sha256 : string;
  ar_plan_binding_sha256 : string;
  ar_account_changes : list AccountChange;
  ar_fee_burned_wei : Z
}.

Definition validateApplyRequest (input : StoreApplyRequest) : res ApplyRequest :=
  let idempotency := toLowerCase (sr_idempotency_key_sha256 input) in
  let transactionHash := toLowerCase (sr_transaction_hash input) in
  let stateVersion := sr_state_version input in
  let prestate := toLowerCase (sr_prestate_fingerprint_sha256 input) in
  let poststate := toLowerCase (sr_poststate_fingerprint_sha256 input) in
  let planBinding := toLowerCase (sr_plan_binding_sha256 input) in
  throw_if (text_neq (sr_marker input) "VOID_NATIVE_VALUE_TRANSFER_STATE_TRANSITION_V1"
    || negb (sr_version input =? 1)
    || text_neq (sr_confirmation input) "applyNativeValueTransferStateTransitionV1"
    || sr_raw_signed_transaction_included input)
    "store_apply_request_identity_invalid";;
  throw_if (negb (SHA256 idempotency) || negb (TRANSACTION_HASH transactionHash) || negb (SAFE_ID stateVersion)
    || negb (SHA256 prestate) || negb (SHA256 poststate) || negb (SHA256 planBinding))
    "store_apply_request_fingerprint_invalid";;
  throw_if (bool_decide (sr_account_changes input = [])) "store_apply_request_changes_empty";;
  totals ← foldM applyChangeStep (mkChangeTotals [] 0 0 0) (sr_account_changes input);
  let normalizedChanges := ct_changes totals in
  let sorted := sort_by_address ch_address normalizedChanges in
  throw_if (negb (bool_decide (sorted = normalizedChanges))) "store_apply_request_changes_not_sorted";;
  throw_if (negb (ct_nonces totals =? 1)) "store_apply_request_sender_nonce_increment_invalid";;
  feeBurned ← parseUint (UStr (sr_fee_burned_wei input)) "fee_burned_wei";
  throw_if (ct_before totals <? ct_after totals) "store_apply_request_value_conservation_invalid";;
  throw_if (negb (ct_before totals - ct_after totals =? feeBurned)) "store_apply_request_fee_burn_mismatch";;
  before ← prestateFingerprint stateVersion sorted Before;
  after ← (if text_neq before prestate then Ok EmptyString else prestateFingerprint stateVersion sorted After);
  throw_if (text_neq before prestate || text_neq after poststate)
    "store_apply_request_prepost_fingerprint_mismatch";;
  Ok (mkApplyRequest idempotency transactionHash stateVersion prestate poststate planBinding sorted feeBurned).

Definition refuse (why : string) (submitted : bool) : StoreApplyResult :=
  StoreNotApplied (Some why) None (Some submitted).

(** One change against the accounts of the snapshot. *)
Definition matchAccount {R} (missing mismatch : R) (accountMap : list (string * StoreAccount)) (_ : unit)
    (change : AccountChange) : flow R unit :=
  match map_get accountMap (ch_address change) with
  | None => Return missing
  | Some current =>
      return_if (text_neq (sa_balance_wei current) (ch_balance_before_wei change)
        || text_neq (sa_nonce current) (ch_nonce_before change)) mismatch
  end.

Definition accountMapOf (snapshot : Snapshot) : list (string * StoreAccount) :=
  new_Map (map (fun account => (sa_address account, account)) (sn_accounts snapshot)).

(** [accountMap.set(...)] for every change *)
Definition applyChanges : list (string * StoreAccount) -> list AccountChange -> list (string * StoreAccount) :=
  foldl (fun accountMap change => map_set accountMap (ch_address change)
    (mkStoreAccount (ch_address change) (ch_balance_after_wei change) (ch_nonce_after change))).

Definition transactionCommitId (snapshot : Snapshot) (request : ApplyRequest) : string :=
  "c1-" +:+ sha256 (JObj ["prior_state_version" ~> sn_state_version snapshot;
    "idempotency_key_sha256" ~> ar_idempotency_key_sha256 request;
    "transaction_hash" ~> ar_transaction_hash request;
    "prestate_fingerprint_sha256" ~> ar_prestate_fingerprint_sha256 request;
    "poststate_fingerprint_sha256" ~> ar_poststate_fingerprint_sha256 request;
    "plan_binding_sha256" ~> ar_plan_binding_sha256 request]).

Definition transactionStateVersion (snapshot : Snapshot) (commitId : string) (request : ApplyRequest) : string :=
  "sv1-" +:+ sha256 (JObj ["prior_state_version" ~> sn_state_version snapshot;
    "commit_id" ~> commitId;
    "poststate_fingerprint_sha256" ~> ar_poststate_fingerprint_sha256 request]).

Definition makeIntent (now_ms : Z) (pre post : Snapshot) (entry : JournalEntry) : Intent :=
  mkIntent "void_native_account_state_store_intent_v1" VOID_NATIVE_ACCOUNT_STATE_STORE_V1 1 now_ms
    (sn_snapshot_fingerprint_sha256 pre) (sn_snapshot_fingerprint_sha256 post) post entry false.

(** The snapshot and the journal entry that a request leads to. *)
Definition transactionCommit (snapshot : Snapshot) (request : ApplyRequest) : Snapshot * TransactionJournalEntry :=
  let commitId := transactionCommitId snapshot request in
  let nextVersion := transactionStateVersion snapshot commitId request in
  let postSnapshot := createSnapshot nextVersion
    (applyChanges (accountMapOf snapshot) (ar_account_changes request)).*2
    (sn_applied_transactions snapshot ++
      [mkAppliedTransaction (ar_idempotency_key_sha256 request) (ar_transaction_hash request) commitId nextVersion])
    (Some commitId) in
  (postSnapshot,
   mkTransactionJournalEntry VOID_NATIVE_ACCOUNT_STATE_STORE_V1 1 commitId
    (ar_idempotency_key_sha256 request) (ar_transaction_hash request) (sn_state_version snapshot) nextVersion
    (ar_prestate_fingerprint_sha256 request) (ar_poststate_fingerprint_sha256 request)
    (ar_plan_binding_sha256 request) (dec (ar_fee_burned_wei request)) (ar_account_changes request)
    (sn_snapshot_fingerprint_sha256 postSnapshot) false).

(** Everything between taking the lock and writing the intent: an early answer, a throw, or
    the intent to commit and the answer when it is. *)
Definition planTransaction (policy : NormalizedStorePolicy) (input : StoreApplyRequest) (now_ms : Z) (s : fs)
    : flow StoreApplyResult (Intent * StoreApplyResult) :=
  request ← call (validateApplyRequest input);
  snapshot ← call (readSnapshot s policy);
  match List.find (fun item => String.eqb (at_idempotency_key_sha256 item) (ar_idempotency_key_sha256 request))
    (sn_applied_transactions snapshot) with
  | Some existing =>
      Return (StoreNotApplied
        (Some (if String.eqb (at_transaction_hash existing) (ar_transaction_hash request)
          then "native_value_transfer_already_applied" else "native_account_store_idempotency_collision"))
        (Some (at_transaction_hash existing)) (Some false))
  | None =>
      return_if (text_neq (sn_state_version snapshot) (ar_state_version request))
        (refuse "native_account_store_state_version_mismatch" false);;
      return_if (Z.of_nat (length (sn_applied_transactions snapshot)) >=? nsp_max_applied_transactions policy)
        (refuse "native_account_store_applied_capacity_reached" false);;
      for_each (matchAccount (refuse "native_account_store_account_missing" false)
        (refuse "native_account_store_prestate_mismatch" false) (accountMapOf snapshot)) tt
        (ar_account_changes request);;
      fingerprint ← call (prestateFingerprint (sn_state_version snapshot) (ar_account_changes request) Before);
      return_if (text_neq fingerprint (ar_prestate_fingerprint_sha256 request))
        (refuse "native_account_store_prestate_fingerprint_mismatch" false);;
      let '(postSnapshot, entry) := transactionCommit snapshot request in
      Next (makeIntent now_ms snapshot postSnapshot (TransactionEntry entry),
        StoreApplied (te_commit_id entry) (te_state_version entry) (ar_transaction_hash request))
  end.

(** ** Applying a block *)

Definition blockAccountsFingerprint (stateVersion : string) (accounts : list StoreAccount) : string :=
  sha256 (JObj ["state_version" ~> stateVersion;
                "accounts" ~> JArr (map store_account_json (sort_accounts accounts))]).

(** The loop over the aggregated changes also keeps the previous address. *)
Definition blockChangeStep (st : ChangeTotals * string) (item : AccountChange) : res (ChangeTotals * string) :=
  let '(totals, previousAddress) := st in
  address ← normalizeAddress (ch_address item) "block_change_address";
  throw_if (bool_decide (address ∈ map ch_address (ct_changes totals))) "block_store_duplicate_account_change";;
  throw_if (negb (String.eqb previousAddress EmptyString) && localeLe address previousAddress)
    "block_store_changes_not_sorted";;
  numbers ← parseChange "block_change" item;
  let '(balanceBefore, balanceAfter, nonceBefore, nonceAfter) := numbers in
  throw_if (nonceAfter <? nonceBefore) "block_store_nonce_regression";;
  Ok (mkChangeTotals
    (ct_changes totals ++ [mkAccountChange address (dec balanceBefore) (dec balanceAfter) (dec nonceBefore)
      (dec nonceAfter)])
    (ct_nonces totals + (nonceAfter - nonceBefore)) (ct_before totals + balanceBefore)
    (ct_after totals + balanceAfter), address).

Record BlockRequest := mkBlockRequest {
  bq_block_idempotency_key_sha256 : string;
  bq_block_hash : string;
  bq_block_number : string;
  bq_transaction_count : Z;
  bq_parent_state_version : string;
  bq_parent_snapshot_fingerprint_sha256 : string;
  bq_final_state_version : string;
  bq_final_accounts_fingerprint_sha256 : string;
  bq_ordered_transaction_hashes : list string;
  bq_transaction_plan_bindings_sha256 : list string;
  bq_aggregate_account_changes : list AccountChange;
  bq_total_fee_burned_wei : Z;
  bq_block_binding_sha256 : string
}.

Definition validateBlockApplyRequest (input : BlockStoreRequest) : res BlockRequest :=
  let blockIdempotency := toLowerCase (br_block_idempotency_key_sha256 input) in
  let blockHash := toLowerCase (br_block_hash input) in
  number ← parseUint (UStr (br_block_number input)) "block_number";
  let blockNumber := dec number in
  let parentStateVersion := br_parent_state_version input in
  let parentSnapshotFingerprint := toLowerCase (br_parent_snapshot_fingerprint_sha256 input) in
  let finalStateVersion := br_final_state_version input in
  let finalAccountsFingerprint := toLowerCase (br_final_accounts_fingerprint_sha256 input) in
  let blockBinding := toLowerCase (br_block_binding_sha256 input) in
  let count := br_transaction_count input in
  throw_if (text_neq (br_marker input) "VOID_NATIVE_VALUE_TRANSFER_BLOCK_EXECUTOR_V1"
    || negb (br_version input =? 1)
    || text_neq (br_confirmation input) "applyNativeValueTransferBlockV1"
    || br_raw_signed_transactions_included input)
    "block_store_apply_request_identity_invalid";;
  throw_if (negb (SHA256 blockIdempotency) || negb (TRANSACTION_HASH blockHash)
    || negb (SAFE_ID parentStateVersion) || negb (SHA256 parentSnapshotFingerprint)
    || negb (SAFE_ID finalStateVersion) || negb (SHA256 finalAccountsFingerprint)
    || negb (SHA256 blockBinding) || negb (is_safe_integer count) || (count <=? 0))
    "block_store_apply_request_binding_invalid";;
  throw_if (text_neq (blockIdempotencyKey blockHash blockNumber) blockIdempotency)
    "block_store_idempotency_key_mismatch";;
  throw_if (negb (Z.of_nat (length (br_ordered_transaction_hashes input)) =? count)
    || negb (Z.of_nat (length (br_transaction_plan_bindings_sha256 input)) =? count))
    "block_store_transaction_binding_count_mismatch";;
  let transactionHashes := map toLowerCase (br_ordered_transaction_hashes input) in
  throw_if (existsb (fun hash => negb (TRANSACTION_HASH hash)) transactionHashes
    || negb (length (js_set transactionHashes) =? length transactionHashes)%nat)
    "block_store_transaction_hashes_invalid";;
  let planBindings := map toLowerCase (br_transaction_plan_bindings_sha256 input) in
  throw_if (existsb (fun binding => negb (SHA256 binding)) planBindings)
    "block_store_transaction_bindings_invalid";;
  throw_if (bool_decide (br_aggregate_account_changes input = [])) "block_store_aggregate_changes_empty";;
  looped ← foldM blockChangeStep (mkChangeTotals [] 0 0 0, EmptyString) (br_aggregate_account_changes input);
  let totals := looped.1 in
  throw_if (negb (ct_nonces totals =? count)) "block_store_nonce_delta_count_mismatch";;
  totalFeeBurned ← parseUint (UStr (br_total_fee_burned_wei input)) "block_total_fee_burned_wei";
  throw_if ((ct_before totals <? ct_after totals) || negb (ct_before totals - ct_after totals =? totalFeeBurned))
    "block_store_fee_burn_mismatch";;
  Ok (mkBlockRequest blockIdempotency blockHash blockNumber count parentStateVersion parentSnapshotFingerprint
    finalStateVersion finalAccountsFingerprint transactionHashes planBindings (ct_changes totals) totalFeeBurned
    blockBinding).

Definition refuseBlock (why : string) (submitted : bool) : BlockStoreResult :=
  BlockStoreNotApplied (Some why) None (Some submitted).

(** The first entry of this block in the journal. *)
Definition findBlock (journal : list JournalEntry) (key : string) : option BlockJournalEntry :=
  match List.find (fun entry => match entry with
    | BlockEntry b => String.eqb (be_block_idempotency_key_sha256 b) key
    | TransactionEntry _ => false end) journal with
  | Some (BlockEntry b) => Some b
  | _ => None
  end.

Definition blockCommitId (snapshot : Snapshot) (request : BlockRequest) : string :=
  "bc1-" +:+ sha256 (JObj ["prior_state_version" ~> sn_state_version snapshot;
    "parent_snapshot_fingerprint_sha256" ~> sn_snapshot_fingerprint_sha256 snapshot;
    "block_idempotency_key_sha256" ~> bq_block_idempotency_key_sha256 request;
    "block_hash" ~> bq_block_hash request;
    "block_number" ~> bq_block_number request;
    "transaction_plan_bindings_sha256" ~> JArr (map JStr (bq_transaction_plan_bindings_sha256 request));
    "final_state_version" ~> bq_final_state_version request;
    "final_accounts_fingerprint_sha256" ~> bq_final_accounts_fingerprint_sha256 request;
    "block_binding_sha256" ~> bq_block_binding_sha256 request]).

(** The accounts after a block, sorted. *)
Definition blockPostAccounts (snapshot : Snapshot) (request : BlockRequest) : list StoreAccount :=
  sort_accounts (applyChanges (accountMapOf snapshot) (bq_aggregate_account_changes request)).*2.

Definition blockCommit (snapshot : Snapshot) (request : BlockRequest) : Snapshot * BlockJournalEntry :=
  let commitId := blockCommitId snapshot request in
  let postSnapshot := createSnapshot (bq_final_state_version request) (blockPostAccounts snapshot request)
    (sn_applied_transactions snapshot) (Some commitId) in
  (postSnapshot,
   mkBlockJournalEntry VOID_NATIVE_ACCOUNT_STATE_STORE_V1 1 commitId
    (bq_block_idempotency_key_sha256 request) (bq_block_hash request) (bq_block_number request)
    (bq_transaction_count request) (sn_state_version snapshot) (bq_final_state_version request)
    (bq_parent_snapshot_fingerprint_sha256 request) (bq_final_accounts_fingerprint_sha256 request)
    (bq_ordered_transaction_hashes request) (bq_transaction_plan_bindings_sha256 request)
    (bq_aggregate_account_changes request) (dec (bq_total_fee_burned_wei request))
    (bq_block_binding_sha256 request) (sn_snapshot_fingerprint_sha256 postSnapshot) false).

Definition planBlock (policy : NormalizedStorePolicy) (input : BlockStoreRequest) (now_ms : Z) (s : fs)
    : flow BlockStoreResult (Intent * BlockStoreResult) :=
  request ← call (validateBlockApplyRequest input);
  snapshot ← call (readSnapshot s policy);
  journal ← call (readJournal s (nsp_max_journal_bytes policy));
  match findBlock journal (bq_block_idempotency_key_sha256 request) with
  | Some existing =>
      Return (BlockStoreNotApplied
        (Some (if String.eqb (be_block_hash existing) (bq_block_hash request)
          then "native_value_transfer_block_already_applied"
          else "native_account_store_block_idempotency_collision"))
        (Some (be_block_hash existing)) (Some false))
  | None =>
      return_if (text_neq (sn_state_version snapshot) (bq_parent_state_version request))
        (refuseBlock "native_account_store_block_state_version_mismatch" false);;
      return_if (text_neq (sn_snapshot_fingerprint_sha256 snapshot) (bq_parent_snapshot_fingerprint_sha256 request))
        (refuseBlock "native_account_store_block_parent_snapshot_mismatch" false);;
      for_each (matchAccount (refuseBlock "native_account_store_block_account_missing" false)
        (refuseBlock "native_account_store_block_prestate_mismatch" false) (accountMapOf snapshot)) tt
        (bq_aggregate_account_changes request);;
      return_if (text_neq (blockAccountsFingerprint (bq_final_state_version request)
          (blockPostAccounts snapshot request)) (bq_final_accounts_fingerprint_sha256 request))
        (refuseBlock "native_account_store_block_final_accounts_fingerprint_mismatch" false);;
      let '(postSnapshot, entry) := blockCommit snapshot request in
      Next (makeIntent now_ms snapshot postSnapshot (BlockEntry entry),
        BlockStoreApplied (be_commit_id entry) (bq_block_hash request) (bq_block_number request)
          (bq_final_state_version request) (bq_transaction_count request))
  end.

(** ** The commit protocol, the same for transfers and blocks *)

(** After the intent is written: the next snapshot, its rename, the journal, the intent. *)
Definition publishCommit (policy : NormalizedStorePolicy) (intent : Intent) : io unit :=
  atomicWriteJson set_next snapshot_json (it_post_snapshot intent) (nsp_max_snapshot_bytes policy);;
  io_effect (fun s => set_next None (set_snapshot (fs_snapshot_next s) s));;
  appendJournal (it_journal_entry intent) (nsp_max_journal_bytes policy);;
  io_effect (set_intent None).

(** The answer is the third argument, or [failed submitted] with the flag [intentWritten]. *)
Definition runCommit {R} (policy : NormalizedStorePolicy) (intent : Intent) (applied : R) (failed : bool -> R)
    : io R :=
  written ← io_try (atomicWriteJson set_intent intent_json intent (nsp_max_snapshot_bytes policy));
  match written with
  | Throw _ => mret (failed false)
  | Ok _ =>
      published ← io_try (publishCommit policy intent);
      match published with
      | Throw _ => mret (failed true)
      | Ok _ => mret applied
      end
  end.

(** The frame of [applyOnce] and [applyBlockOnce]. *)
Definition applyFramed {R} (policy : NormalizedStorePolicy) (env : Env) (recovery busy : R) (failed : bool -> R)
    (plan : fs -> flow R (Intent * R)) : io R :=
  s ← io_get;
  if exists_file (fs_intent s) then mret recovery
  else if exists_file (fs_lock s) then mret busy
  else
    locked ← io_try (writeLock env);
    match locked with
    | Throw _ => mret (failed false)
    | Ok _ =>
        io_finally
          (s' ← io_get;
           match plan s' with
           | Return r => mret r
           | Raise _ => mret (failed false)
           | Next (intent, applied) => runCommit policy intent applied failed
           end)
          releaseLock
    end.

Definition applyOnce (policy : NormalizedStorePolicy) (env : Env) (input : StoreApplyRequest)
    : io StoreApplyResult :=
  applyFramed policy env (refuse "native_account_store_recovery_required" true)
    (refuse "native_account_store_busy" false) (refuse "native_account_store_apply_failed")
    (planTransaction policy input (env_intent_ms env)).

Definition applyBlockOnce (policy : NormalizedStorePolicy) (env : Env) (input : BlockStoreRequest)
    : io BlockStoreResult :=
  applyFramed policy env (refuseBlock "native_account_store_recovery_required" true)
    (refuseBlock "native_account_store_busy" false) (refuseBlock "native_account_store_block_apply_failed")
    (planBlock policy input (env_intent_ms env)).

(** ** Recovery *)

Definition validateIntent (intent : Intent) (policy : NormalizedStorePolicy) : res Intent :=
  throw_if (text_neq (it_schema intent) "void_native_account_state_store_intent_v1"
    || text_neq (it_marker intent) VOID_NATIVE_ACCOUNT_STATE_STORE_V1
    || negb (it_version intent =? 1)
    || negb (is_safe_integer (it_created_at_ms intent))
    || (it_created_at_ms intent <=? 0)
    || negb (SHA256 (it_pre_snapshot_fingerprint_sha256 intent))
    || negb (SHA256 (it_post_snapshot_fingerprint_sha256 intent))
    || it_raw_signed_transaction_included intent)
    "intent_identity_invalid";;
  postSnapshot ← AccountSnapshot.validateSnapshot (it_post_snapshot intent) policy;
  journalEntry ← validateJournalEntry (it_journal_entry intent);
  throw_if (text_neq (sn_snapshot_fingerprint_sha256 postSnapshot) (it_post_snapshot_fingerprint_sha256 intent))
    "intent_post_snapshot_fingerprint_mismatch";;
  Ok (mkIntent (it_schema intent) (it_marker intent) (it_version intent) (it_created_at_ms intent)
    (it_pre_snapshot_fingerprint_sha256 intent) (it_post_snapshot_fingerprint_sha256 intent)
    postSnapshot journalEntry (it_raw_signed_transaction_included intent)).

Definition journalHasCommit (entries : list JournalEntry) (commitId : string) : bool :=
  existsb (fun entry => String.eqb (entry_commit_id entry) commitId) entries.

Inductive RecoveryResult : Type :=
| Recovered (status : string) (stale_lock_removed intent_recovered journal_entry_appended
    state_mutation_performed : bool)
| RecoveryHeld (why : string).

(** [if (existsSync(paths.snapshot_next)) unlinkSync(paths.snapshot_next)], then the intent. *)
Definition discardIntent : io unit :=
  s ← io_get;
  (if exists_file (fs_snapshot_next s) then io_effect (set_next None) else mret tt);;
  io_effect (set_intent None).

(** A valid intent against the snapshot in place: rolled back, completed, or neither. *)
Definition settleIntent (policy : NormalizedStorePolicy) (staleLockRemoved : bool) (intent : Intent)
    (snapshot : Snapshot) : io RecoveryResult :=
  if String.eqb (sn_snapshot_fingerprint_sha256 snapshot) (it_pre_snapshot_fingerprint_sha256 intent) then
    discardIntent;;
    mret (Recovered "uncommitted_intent_rolled_back" staleLockRemoved true false true)
  else if String.eqb (sn_snapshot_fingerprint_sha256 snapshot) (it_post_snapshot_fingerprint_sha256 intent) then
    s ← io_get;
    journal ← io_call (readJournal s (nsp_max_journal_bytes policy));
    appended ← (if journalHasCommit journal (entry_commit_id (it_journal_entry intent)) then mret false
      else appendJournal (it_journal_entry intent) (nsp_max_journal_bytes policy);; mret true);
    discardIntent;;
    mret (Recovered "committed_intent_completed" staleLockRemoved true appended true)
  else mret (RecoveryHeld "native_account_store_intent_snapshot_divergence").

(** The part of recovery that runs under the lock. *)
Definition recoverLocked (policy : NormalizedStorePolicy) (staleLockRemoved : bool) : io RecoveryResult :=
  s ← io_get;
  match fs_intent s with
  | None =>
      mret (Recovered (if staleLockRemoved then "stale_lock_removed" else "clean") staleLockRemoved false false
        staleLockRemoved)
  | Some f =>
      raw ← io_call (readJsonFile f (nsp_max_snapshot_bytes policy));
      intent ← io_call (validateIntent raw policy);
      snapshot ← io_call (readSnapshot s policy);
      settleIntent policy staleLockRemoved intent snapshot
  end.

(** [process.kill(pid, 0)] succeeds or is not permitted: the argument [alive]. *)
Definition isProcessAlive (alive : Z -> bool) (pid : Z) : bool :=
  if negb (is_safe_integer pid) || (pid <=? 0) then false else alive pid.

Inductive lock_check : Type :=
| LockFree (staleLockRemoved : bool)
| LockHeld (why : string).

(** A lock left by an owner that is gone is removed. *)
Definition removeStaleLock (policy : NormalizedStorePolicy) (alive : Z -> bool) (now : Z) : io lock_check :=
  s ← io_get;
  match fs_lock s with
  | None => mret (LockFree false)
  | Some content =>
      lock ← io_call (readLock content);
      if now - lk_created_at_ms lock <? nsp_stale_lock_min_age_ms policy
      then mret (LockHeld "native_account_store_lock_not_stale")
      else if isProcessAlive alive (lk_pid lock)
      then mret (LockHeld "native_account_store_lock_owner_alive")
      else io_effect (set_lock None);; mret (LockFree true)
  end.

Definition VOID_NATIVE_ACCOUNT_STATE_STORE_RECOVER_CONFIRMATION_V1 : string :=
  "recoverNativeAccountStateStoreV1".
Definition VOID_NATIVE_ACCOUNT_STATE_STORE_INITIALIZE_CONFIRMATION_V1 : string :=
  "initializeNativeAccountStateStoreV1".

Definition recoverBody (policy : StorePolicy) (now_ms : option jsnum) (date_now : Z) (alive : Z -> bool)
    (env : Env) : io RecoveryResult :=
  policy ← io_call (normalizePolicy policy);
  let now := match now_ms with
    | Some n => as_safe_integer (JNum n)
    | None => Some date_now
    end in
  match now with
  | Some now =>
      if negb (is_safe_integer now) || (now <=? 0) then io_throw "recovery_now_ms_invalid" else
      s ← io_get;
      if negb (exists_file (fs_snapshot s)) then io_throw "native_account_store_not_initialized" else
      checked ← removeStaleLock policy alive now;
      match checked with
      | LockHeld why => mret (RecoveryHeld why)
      | LockFree staleLockRemoved =>
          writeLock env;;
          io_finally (recoverLocked policy staleLockRemoved) releaseLock
      end
  | None => io_throw "recovery_now_ms_invalid"
  end.

Definition recoverVoidNativeAccountStateStoreV1 (policy : StorePolicy) (confirmation : string)
    (now_ms : option jsnum) (date_now : Z) (alive : Z -> bool) (env : Env) : io RecoveryResult :=
  if text_neq confirmation VOID_NATIVE_ACCOUNT_STATE_STORE_RECOVER_CONFIRMATION_V1
  then mret (RecoveryHeld "exact_recovery_confirmation_required")
  else
    result ← io_try (recoverBody policy now_ms date_now alive env);
    mret (match result with Ok r => r | Throw message => RecoveryHeld message end).

(** ** Initialization *)

Inductive InitializeResult : Type :=
| Initialized (state_version snapshot_fingerprint_sha256 : string) (account_count : Z)
| InitializeHeld (why : string).

Definition genesisEntry (genesisId stateVersion : string) (snapshot : Snapshot) : TransactionJournalEntry :=
  mkTransactionJournalEntry VOID_NATIVE_ACCOUNT_STATE_STORE_V1 1
    ("genesis-" +:+ sha256 (JObj ["genesis_id" ~> genesisId;
      "snapshot" ~> sn_snapshot_fingerprint_sha256 snapshot]))
    (sha256 (JObj ["genesis_id" ~> genesisId]))
    ("0x" +:+ sha256 (JObj ["genesis_id" ~> genesisId; "marker" ~> VOID_NATIVE_ACCOUNT_STATE_STORE_V1]))
    "none" stateVersion
    (sha256 (JArr []))
    (sn_snapshot_fingerprint_sha256 snapshot)
    (sha256 (JObj ["genesis_id" ~> genesisId; "state_version" ~> stateVersion]))
    "0" [] (sn_snapshot_fingerprint_sha256 snapshot) false.

Definition genesisDuplicateStep (addresses : list string) (account : StoreAccount) : res (list string) :=
  throw_if (bool_decide (sa_address account ∈ addresses)) "genesis_duplicate_account";;
  Ok (addresses ++ [sa_address account]).

(** The snapshot of a new store. *)
Definition genesisSnapshot (genesisId : string) (values : list AccountState) : res Snapshot :=
  normalized ← map_res normalizeAccount values;
  foldM genesisDuplicateStep [] normalized;;
  let accounts := sort_accounts normalized in
  let stateVersion := "genesis-v1-" +:+ sha256 (JObj ["genesis_id" ~> genesisId;
    "accounts" ~> JArr (map store_account_json accounts)]) in
  Ok (createSnapshot stateVersion accounts [] None).

Definition initializeBody (policy : StorePolicy) (genesis_id : string) (accounts : list AccountState)
    : io InitializeResult :=
  policy ← io_call (normalizePolicy policy);
  let genesisId := trim genesis_id in
  if negb (SAFE_ID genesisId) then io_throw "genesis_id_invalid" else
  if bool_decide (accounts = []) || (Z.of_nat (length accounts) >? nsp_max_accounts policy)
  then io_throw "genesis_account_count_invalid" else
  s ← io_get;
  if exists_file (fs_snapshot s) || exists_file (fs_snapshot_next s) || exists_file (fs_intent s)
    || exists_file (fs_journal s) || exists_file (fs_lock s)
  then mret (InitializeHeld "native_account_store_already_initialized_or_dirty") else
  snapshot ← io_call (genesisSnapshot genesisId accounts);
  atomicWriteJson set_snapshot snapshot_json snapshot (nsp_max_snapshot_bytes policy);;
  appendJournal (TransactionEntry (genesisEntry genesisId (sn_state_version snapshot) snapshot))
    (nsp_max_journal_bytes policy);;
  mret (Initialized (sn_state_version snapshot) (sn_snapshot_fingerprint_sha256 snapshot)
    (Z.of_nat (length accounts))).

Definition initializeVoidNativeAccountStateStoreV1 (policy : StorePolicy) (confirmation genesis_id : string)
    (accounts : list AccountState) : io InitializeResult :=
  if text_neq confirmation VOID_NATIVE_ACCOUNT_STATE_STORE_INITIALIZE_CONFIRMATION_V1
  then mret (InitializeHeld "exact_initialize_confirmation_required")
  else
    result ← io_try (initializeBody policy genesis_id accounts);
    mret (match result with Ok r => r | Throw message => InitializeHeld message end).

(** ** The store object *)

Record StoreStatus := mkStoreStatus {
  st_initialized : bool;
  st_recovery_required : bool;
  st_lock_present : bool;
  st_snapshot_present : bool;
  st_journal_present : bool;
  st_state_version : option string;
  st_account_count : Z;
  st_applied_transaction_count : Z;
  st_last_commit_id : option string
}.

Definition status (policy : NormalizedStorePolicy) (s : fs) : res StoreStatus :=
  let present := exists_file (fs_snapshot s) in
  snapshot ← (if present then Some <$> readSnapshot s policy else Ok None);
  Ok (mkStoreStatus present (exists_file (fs_intent s)) (exists_file (fs_lock s)) present
    (exists_file (fs_journal s)) (sn_state_version <$> snapshot)
    (match snapshot with Some x => Z.of_nat (length (sn_accounts x)) | None => 0 end)
    (match snapshot with Some x => Z.of_nat (length (sn_applied_transactions x)) | None => 0 end)
    (snapshot ≫= sn_last_commit_id)).

(** The methods [createVoidNativeAccountStateStoreV1] returns, as functions of the files:
    the two apply methods never throw, since every failure is answered. *)
Record AccountStore := mkAccountStore {
  apply_native_value_transfer_once : Env -> fs -> StoreApplyRequest -> fs * res StoreApplyResult;
  apply_native_value_transfer_block_once : Env -> fs -> BlockStoreRequest -> fs * res BlockStoreResult;
  read_state_snapshot : fs -> res Snapshot;
  store_status : fs -> res StoreStatus
}.

Definition createVoidNativeAccountStateStoreV1 (policy : StorePolicy) : res AccountStore :=
  policy ← normalizePolicy policy;
  Ok (mkAccountStore
    (fun env s request => let m := applyOnce policy env request in (io_final m s, io_result m s))
    (fun env s request => let m := applyBlockOnce policy env request in (io_final m s, io_result m s))
    (fun s => readSnapshot s policy)
    (status policy)).
End store.
