(* ===== verification/StoreProtocol.v ===== *)
(** * Crash safety of the native account store

    The commit protocol of the account store against a process that is killed after any of
    its system calls: every state it can leave is a stage of one commit, and recovery takes
    every stage to the store before the call or to the store after it, with the journal
    entry of whatever the snapshot holds. *)

From Stdlib Require Import Ascii Sorted.
From S2P Require Import Prelude Js JsText Flow CanonicalJson Sha256 Ledger NativeTransfer ChainBase.
From S2P Require Import AccountSnapshot BlockExecutor AccountStore.

(** ** Stores at rest *)

Definition journal_of (s : fs) : journal_file :=
  match fs_journal s with Some j => j | None => mkJournal [] 0 end.

Definition entry_ok (e : JournalEntry) : Prop := validateJournalEntry e = Ok e.

(** The text a commit identity is the digest of, from the fields of the journal entry. *)
Definition commit_material (e : JournalEntry) : json :=
  match e with
  | TransactionEntry t =>
      JObj ["prior_state_version" ~> te_prior_state_version t;
            "idempotency_key_sha256" ~> te_idempotency_key_sha256 t;
            "transaction_hash" ~> te_transaction_hash t;
            "prestate_fingerprint_sha256" ~> te_prestate_fingerprint_sha256 t;
            "poststate_fingerprint_sha256" ~> te_poststate_fingerprint_sha256 t;
            "plan_binding_sha256" ~> te_plan_binding_sha256 t]
  | BlockEntry b =>
      JObj ["prior_state_version" ~> be_prior_state_version b;
            "parent_snapshot_fingerprint_sha256" ~> be_parent_snapshot_fingerprint_sha256 b;
            "block_idempotency_key_sha256" ~> be_block_idempotency_key_sha256 b;
            "block_hash" ~> be_block_hash b;
            "block_number" ~> be_block_number b;
            "transaction_plan_bindings_sha256" ~> JArr (map JStr (be_transaction_plan_bindings_sha256 b));
            "final_state_version" ~> be_state_version b;
            "final_accounts_fingerprint_sha256" ~> be_final_accounts_fingerprint_sha256 b;
            "block_binding_sha256" ~> be_block_binding_sha256 b]
  end.

(** An entry whose commit identity is the digest of its own fields. *)
Definition identified `{Digest} (e : JournalEntry) : Prop :=
  entry_commit_id e = (match e with TransactionEntry _ => "c1-" | BlockEntry _ => "bc1-" end)
    +:+ sha256 (commit_material e).

Definition applied_keys (x : Snapshot) : list string := map at_idempotency_key_sha256 (sn_applied_transactions x).

(** An entry of the journal of a store: a genesis entry, or the entry of a commit, where a
    transfer is among the applied transactions of the snapshot. *)
Definition recorded `{Digest} (x : Snapshot) (e : JournalEntry) : Prop :=
  (exists t id, e = TransactionEntry t /\ te_commit_id t = "genesis-" +:+ id) \/
  (identified e /\ match e with
    | TransactionEntry t => te_idempotency_key_sha256 t ∈ applied_keys x
    | BlockEntry _ => True
    end).

(** A store that no call is working on: a well-formed snapshot and journal within the
    limits, the last commit of the snapshot in the journal, every commit once, nothing left
    over. *)
Record at_rest `{Digest} (policy : NormalizedStorePolicy) (s : fs) : Prop := mkAtRest {
  rest_snapshot : exists f, fs_snapshot s = Some f /\ snapshot_ok policy (file_value f) /\
    file_size f <= nsp_max_snapshot_bytes policy;
  rest_next : fs_snapshot_next s = None;
  rest_intent : fs_intent s = None;
  rest_lock : fs_lock s = None;
  rest_journal_size : jr_size (journal_of s) <= nsp_max_journal_bytes policy;
  rest_journal : Forall entry_ok (jr_entries (journal_of s));
  rest_logged : forall f c, fs_snapshot s = Some f -> sn_last_commit_id (file_value f) = Some c ->
    journalHasCommit (jr_entries (journal_of s)) c = true;
  rest_recorded : forall f, fs_snapshot s = Some f ->
    Forall (recorded (file_value f)) (jr_entries (journal_of s));
  rest_once : NoDup (map entry_commit_id (jr_entries (journal_of s)))
}.

(** An intent that recovery accepts and that leads from the snapshot [pre] of the store to
    another one. *)
Record intent_ok `{Digest} (policy : NormalizedStorePolicy) (s : fs) (pre : Snapshot) (i : Intent) : Prop := mkIntentOk {
  iok_schema : it_schema i = "void_native_account_state_store_intent_v1"%string;
  iok_marker : it_marker i = VOID_NATIVE_ACCOUNT_STATE_STORE_V1;
  iok_version : it_version i = 1;
  iok_created : 0 < it_created_at_ms i <= MAX_SAFE_INTEGER;
  iok_raw : it_raw_signed_transaction_included i = false;
  iok_pre : it_pre_snapshot_fingerprint_sha256 i = sn_snapshot_fingerprint_sha256 pre;
  iok_post : it_post_snapshot_fingerprint_sha256 i = sn_snapshot_fingerprint_sha256 (it_post_snapshot i);
  iok_snapshot : snapshot_ok policy (it_post_snapshot i);
  iok_entry : entry_ok (it_journal_entry i);
  iok_commit : sn_last_commit_id (it_post_snapshot i) = Some (entry_commit_id (it_journal_entry i));
  iok_recorded : recorded (it_post_snapshot i) (it_journal_entry i);
  iok_applied : forall key, key ∈ applied_keys pre -> key ∈ applied_keys (it_post_snapshot i);
  iok_fresh : journalHasCommit (jr_entries (journal_of s)) (entry_commit_id (it_journal_entry i)) = false;
  iok_moves : it_pre_snapshot_fingerprint_sha256 i <> it_post_snapshot_fingerprint_sha256 i
}.

(** ** The stages of a commit *)

Definition snapshot_file (x : Snapshot) : file Snapshot := mkFile x (file_bytes (snapshot_json x)).
Definition intent_file (i : Intent) : file Intent := mkFile i (file_bytes (intent_json i)).

Definition appended (s : fs) (i : Intent) : journal_file :=
  mkJournal (jr_entries (journal_of s) ++ [it_journal_entry i])
    (jr_size (journal_of s) + line_bytes (entry_json (it_journal_entry i))).

(** The files of the store [s] during the commit of [i], with the lock file [lk]. *)
Inductive stage (s : fs) (i : Intent) (lk : option (option LockRecord)) : fs -> Prop :=
| stage_before :
    stage s i lk (mkFs (fs_snapshot s) None None (fs_journal s) lk)
| stage_intent next : next = None \/ next = Some (snapshot_file (it_post_snapshot i)) ->
    stage s i lk (mkFs (fs_snapshot s) next (Some (intent_file i)) (fs_journal s) lk)
| stage_renamed journal : journal = fs_journal s \/ journal = Some (journal_of s) ->
    stage s i lk (mkFs (Some (snapshot_file (it_post_snapshot i))) None (Some (intent_file i)) journal lk)
| stage_journaled :
    stage s i lk (mkFs (Some (snapshot_file (it_post_snapshot i))) None (Some (intent_file i))
      (Some (appended s i)) lk)
| stage_done :
    stage s i lk (mkFs (Some (snapshot_file (it_post_snapshot i))) None None (Some (appended s i)) lk).

(** The store that a completed commit leaves. *)
Definition committed (s : fs) (i : Intent) : fs :=
  mkFs (Some (snapshot_file (it_post_snapshot i))) None None (Some (appended s i)) None.

(** The limits of the policy on the files a commit writes. *)
Record within_limits (policy : NormalizedStorePolicy) (s : fs) (i : Intent) : Prop := mkWithinLimits {
  lim_intent : file_bytes (intent_json i) <= nsp_max_snapshot_bytes policy;
  lim_snapshot : file_bytes (snapshot_json (it_post_snapshot i)) <= nsp_max_snapshot_bytes policy;
  lim_journal : jr_size (appended s i) <= nsp_max_journal_bytes policy
}.

(** The files that are there are within the limits. *)
Record fits (policy : NormalizedStorePolicy) (s : fs) : Prop := mkFits {
  fit_snapshot : forall f, fs_snapshot s = Some f -> file_size f <= nsp_max_snapshot_bytes policy;
  fit_intent : forall f, fs_intent s = Some f -> file_size f <= nsp_max_snapshot_bytes policy;
  fit_journal : jr_size (journal_of s) <= nsp_max_journal_bytes policy
}.

Lemma stage_lock s i lk lk' s' : stage s i lk s' -> stage s i lk' (set_lock lk' s').
Proof. destruct 1; unfold set_lock; simpl; by constructor. Qed.

Lemma fits_lock policy s lk : fits policy s -> fits policy (set_lock lk s).
Proof. by intros [? ? ?]. Qed.

Lemma at_rest_fits `{Digest} policy s : at_rest policy s -> fits policy s.
Proof.
  intros [(f & Hf & _ & Hsz) _ Hi _ Hj _ _ _ _]. split; [|by rewrite Hi|done]. intros f' Hf'. congruence.
Qed.

(** A store at rest is its own first stage, whatever the lock. *)
Lemma at_rest_stage `{Digest} policy s i lk : at_rest policy s -> stage s i lk (set_lock lk s).
Proof.
  intros [_ Hn Hi _ _ _ _ _ _]. destruct s. simpl in *. subst. apply stage_before.
Qed.

(** ** A crash logic for programs

    [wp m P Q s]: run from [s], the program [m] passes only through states that satisfy the
    crash condition [P], and its result and final state satisfy [Q]. *)

Definition wp {A} (m : io A) (P : fs -> Prop) (Q : res A -> fs -> Prop) (s : fs) : Prop :=
  Forall P (io_trace m s) /\ Q (io_result m s) (io_final m s).

Section wp_rules.
Context {A B : Type} (P : fs -> Prop).

Lemma wp_ret (a : A) (Q : res A -> fs -> Prop) s : Q (Ok a) s -> wp (mret a) P Q s.
Proof. by split; [constructor|]. Qed.

Lemma wp_throw e (Q : res A -> fs -> Prop) s : Q (Throw e) s -> wp (io_throw e) P Q s.
Proof. by split; [constructor|]. Qed.

Lemma wp_call (m : res A) (Q : res A -> fs -> Prop) s : Q m s -> wp (io_call m) P Q s.
Proof. by split; [constructor|]. Qed.

Lemma wp_get (Q : res fs -> fs -> Prop) s : Q (Ok s) s -> wp io_get P Q s.
Proof. by split; [constructor|]. Qed.

Lemma wp_effect f (Q : res unit -> fs -> Prop) s : P (f s) -> Q (Ok tt) (f s) -> wp (io_effect f) P Q s.
Proof. intros. split; [by repeat constructor|done]. Qed.

Lemma wp_bind (m : io A) (f : A -> io B) (Q : res B -> fs -> Prop) s :
  wp m P (fun r s' => match r with Ok a => wp (f a) P Q s' | Throw e => Q (Throw e) s' end) s ->
  wp (m ≫= f) P Q s.
Proof.
  unfold wp, io_trace, io_result, io_final, mbind, io_bind. destruct (m s) as [[tr [a|e]] s']; simpl; [|done].
  destruct (f a s') as [[tr' r] s'']. simpl. rewrite Forall_app. tauto.
Qed.

Lemma wp_try (m : io A) (Q : res (res A) -> fs -> Prop) s :
  wp m P (fun r s' => Q (Ok r) s') s -> wp (io_try m) P Q s.
Proof. unfold wp, io_trace, io_result, io_final, io_try. by destruct (m s) as [[tr r] s']. Qed.

Lemma wp_finally (m : io A) (f : io unit) (Q : res A -> fs -> Prop) s :
  wp m P (fun r s' => wp f P (fun r' s'' => Q (match r' with Ok _ => r | Throw e => Throw e end) s'') s') s ->
  wp (io_finally m f) P Q s.
Proof.
  unfold wp, io_trace, io_result, io_final, io_finally. destruct (m s) as [[tr r] s']; simpl.
  destruct (f s') as [[tr' [u|e]] s'']; simpl; rewrite Forall_app; tauto.
Qed.

Lemma wp_mono (m : io A) (P' : fs -> Prop) (Q Q' : res A -> fs -> Prop) s :
  (forall s, P s -> P' s) -> (forall r s, Q r s -> Q' r s) -> wp m P Q s -> wp m P' Q' s.
Proof. intros HP HQ [H1 H2]. split; [by eapply Forall_impl|by apply HQ]. Qed.
End wp_rules.

(** [wp] of a sequence: the rule of its head; updates of known stores are evaluated. *)
Ltac wp_simpl :=
  unfold set_snapshot, set_next, set_intent, set_journal, set_lock;
  cbn [fs_snapshot fs_snapshot_next fs_intent fs_journal fs_lock exists_file].
Ltac wp_step :=
  lazymatch goal with
  | |- wp (_ ≫= _) _ _ _ => apply wp_bind
  | |- wp (mret _) _ _ _ => apply wp_ret
  | |- wp (io_throw _) _ _ _ => apply wp_throw
  | |- wp (io_call _) _ _ _ => apply wp_call
  | |- wp io_get _ _ _ => apply wp_get
  | |- wp (io_effect _) _ _ _ => apply wp_effect
  | |- wp (io_try _) _ _ _ => apply wp_try
  | |- wp (io_finally _ _) _ _ _ => apply wp_finally
  end; wp_simpl.

(** *** Files *)

Lemma wp_atomicWrite {A} (write : option (file A) -> fs -> fs) (render : A -> json) v max
    (P : fs -> Prop) (Q : res unit -> fs -> Prop) s :
  (max < file_bytes (render v) -> Q (Throw "snapshot_size_limit_exceeded") s) ->
  (file_bytes (render v) <= max -> P (write (Some (mkFile v (file_bytes (render v)))) s) /\
    Q (Ok tt) (write (Some (mkFile v (file_bytes (render v)))) s)) ->
  wp (atomicWriteJson write render v max) P Q s.
Proof.
  intros H1 H2. unfold atomicWriteJson. destruct (file_bytes (render v) >? max) eqn:Hsz.
  - apply wp_throw, H1. lia.
  - apply wp_effect; apply H2; lia.
Qed.

Lemma wp_appendJournal e max (P : fs -> Prop) (Q : res unit -> fs -> Prop) s :
  let size := jr_size (journal_of s) + line_bytes (entry_json e) in
  let done := set_journal (Some (mkJournal (jr_entries (journal_of s) ++ [e]) size)) s in
  (max < size -> Q (Throw "journal_size_limit_exceeded") s) ->
  (size <= max -> P (set_journal (Some (journal_of s)) s) /\ P done /\ Q (Ok tt) done) ->
  wp (appendJournal e max) P Q s.
Proof.
  intros size done H1 H2. unfold appendJournal. do 2 wp_step. fold (journal_of s). fold size.
  destruct (size >? max) eqn:Hsz; [apply wp_throw, H1; lia|].
  destruct H2 as (HP & HP' & HQ); [lia|]. wp_step. unfold journal_of in *.
  destruct (fs_journal s) as [j|] eqn:Hj.
  - wp_step. by apply wp_effect.
  - apply wp_effect; [done|]. by apply wp_effect.
Qed.

Lemma wp_writeLock env (P : fs -> Prop) (Q : res unit -> fs -> Prop) s :
  fs_lock s = None -> P (set_lock (Some None) s) -> P (set_lock (Some (Some (lockRecord env))) s) ->
  Q (Ok tt) (set_lock (Some (Some (lockRecord env))) s) -> wp (writeLock env) P Q s.
Proof.
  intros Hl H1 H2 H3. unfold writeLock. do 2 wp_step. rewrite Hl. wp_simpl. wp_step.
  apply wp_effect; [done|]. by apply wp_effect.
Qed.

Lemma wp_releaseLock (P : fs -> Prop) (Q : res unit -> fs -> Prop) s :
  P (set_lock None s) -> Q (Ok tt) (set_lock None s) -> wp releaseLock P Q s.
Proof.
  intros HP HQ. unfold releaseLock. do 2 wp_step. destruct (fs_lock s) eqn:Hl; wp_simpl.
  - by apply wp_effect.
  - apply wp_ret. replace s with (set_lock None s) by (destruct s; simpl in *; by subst). done.
Qed.

(** ** The commit *)

Section commit.
Context (policy : NormalizedStorePolicy) (s : fs) (i : Intent) (lk : option (option LockRecord)).

(** Writing the intent of a commit and publishing it only passes through its stages, with
    files within the limits; it completes when all of them fit. *)
Lemma runCommit_wp {R} (applied : R) (failed : bool -> R) :
  fs_snapshot_next s = None -> fs_intent s = None -> fits policy s ->
  wp (runCommit policy i applied failed) (fun s' => stage s i lk s' /\ fits policy s')
    (fun r s' => (stage s i lk s' /\ fits policy s') /\
      (r = Ok applied /\ s' = set_lock lk (committed s i) \/
       (exists b, r = Ok (failed b)) /\ ~ within_limits policy s i)) (set_lock lk s).
Proof.
  intros Hn Hi [Hfs _ Hfj]. destruct s as [snap nx it j lk0]. simpl in Hn, Hi, Hfs. subst nx it. wp_simpl.
  unfold runCommit. wp_step. wp_step. apply wp_atomicWrite.
  { intros Hbig. wp_step. split; [split; [constructor|by split]|]. right. split; [by eexists|].
    intros [H _ _]. lia. }
  intros Hfit. wp_simpl.
  assert (forall nx, fits policy (mkFs snap nx (Some (intent_file i)) j lk)) as Hf1
    by (intros nx; split; [done|by intros ? [= <-]|done]).
  split; [split; [apply stage_intent; by left|apply Hf1]|]. wp_step. wp_step. unfold publishCommit.
  wp_step. apply wp_atomicWrite.
  { intros Hbig. wp_step. split; [split; [apply stage_intent; by left|apply Hf1]|]. right.
    split; [by eexists|]. intros [_ H _]. lia. }
  intros Hfit2. wp_simpl. split; [split; [apply stage_intent; by right|apply Hf1]|].
  assert (forall j' it, jr_size (match j' with Some x => x | None => mkJournal [] 0 end) <= nsp_max_journal_bytes policy ->
    it = None \/ it = Some (intent_file i) ->
    fits policy (mkFs (Some (snapshot_file (it_post_snapshot i))) None it j' lk)) as Hf2.
  { intros j' it Hj' [-> | ->]; (split; [by intros ? [= <-]| |done]); [done|by intros ? [= <-]]. }
  wp_step. wp_step.
  { split; [apply stage_renamed; by left|apply Hf2; [done|by right]]. }
  wp_step. apply wp_appendJournal; unfold journal_of in *; simpl in *.
  { intros Hbig. wp_step. split; [split; [apply stage_renamed; by left|apply Hf2; [done|by right]]|]. right.
    split; [by eexists|]. intros [_ _ H]. simpl in H. unfold journal_of in H. simpl in H. lia. }
  intros Hfit3. split; [split; [apply stage_renamed; by right|apply Hf2; [done|by right]]|].
  split; [split; [apply stage_journaled|apply Hf2; [done|by right]]|].
  wp_step; [split; [apply stage_done|apply Hf2; [done|by left]]|]. wp_step.
  split; [split; [apply stage_done|apply Hf2; [done|by left]]|]. by left.
Qed.
End commit.

(** ** A whole call *)

(** The lock file of a process: none, just created, or with its record. *)
Definition lock_by (env : Env) (lk : option (option LockRecord)) : Prop :=
  lk = None \/ lk = Some None \/ lk = Some (Some (lockRecord env)).

Lemma stage_fs_lock s i lk s' : stage s i lk s' -> fs_lock s' = lk.
Proof. by destruct 1. Qed.

(** The store with the lock of a call. *)
Definition under_lock (env : Env) (s : fs) : fs := set_lock (Some (Some (lockRecord env))) s.

Section framed.
Context `{D : Digest} {R : Type} (policy : NormalizedStorePolicy) (env : Env).
Context (recovery busy : R) (failed : bool -> R) (plan : fs -> flow R (Intent * R)) (s : fs).

(** Where a call killed at some point leaves a store that was at rest. *)
Definition call_crash (s' : fs) : Prop :=
  lock_by env (fs_lock s') /\
  (s' = set_lock (fs_lock s') s \/
   exists i r, plan (under_lock env s) = Next (i, r) /\ stage s i (fs_lock s') s' /\ fits policy s').

Definition call_post (r : res R) (s' : fs) : Prop :=
  match plan (under_lock env s) with
  | Return answer => r = Ok answer /\ s' = s
  | Raise _ => r = Ok (failed false) /\ s' = s
  | Next (i, applied) => (stage s i None s' /\ fits policy s') /\
      (r = Ok applied /\ s' = committed s i \/ (exists b, r = Ok (failed b)) /\ ~ within_limits policy s i)
  end.

Lemma applyFramed_wp : at_rest policy s ->
  wp (applyFramed policy env recovery busy failed plan) call_crash call_post s.
Proof.
  intros Hrest. pose proof Hrest as [_ Hn Hi Hl _ _ _ _ _]. unfold applyFramed. do 2 wp_step.
  rewrite Hi, Hl. wp_simpl. wp_step. wp_step.
  apply wp_writeLock; [done|split; [right; by left|by left]|split; [right; by right|by left]|].
  wp_step. wp_step. wp_step.
  change (mkFs (fs_snapshot s) (fs_snapshot_next s) (fs_intent s) (fs_journal s) (Some (Some (lockRecord env))))
    with (under_lock env s).
  assert (set_lock None (under_lock env s) = s) as Hback by (destruct s; simpl in *; by subst).
  unfold call_post. destruct (plan (under_lock env s)) as [[i applied]|r|e] eqn:Hp.
  - eapply wp_mono; [| |apply (runCommit_wp policy s i (Some (Some (lockRecord env))))]; try done.
    3: by eapply at_rest_fits.
    { intros s' [Hst ?]. unfold call_crash. rewrite (stage_fs_lock _ _ _ _ Hst).
      split; [right; by right|right]. eauto. }
    intros r s' [[Hst Hfit] Hres]. apply wp_releaseLock.
    + split; [by left|]. right. exists i, applied. split; [done|]. split; [by eapply stage_lock|by apply fits_lock].
    + split; [split; [by eapply stage_lock|by apply fits_lock]|].
      destruct Hres as [[-> ->]|[[b ->] Hlim]]; [by left|right; split; [by eexists|done]].
  - apply wp_ret, wp_releaseLock; [split; [by left|by left]|by rewrite Hback].
  - apply wp_ret, wp_releaseLock; [split; [by left|by left]|by rewrite Hback].
Qed.
End framed.

(** ** Recovery *)

Section recovery.
Context `{D : Digest} `{!DigestShape D} `{E : Ethers} `{!EthersLaws E} `{L : Locale} `{!LocaleLaws L}.
Context (policy : NormalizedStorePolicy).

Lemma validateIntent_id s pre i : SHA256 (sn_snapshot_fingerprint_sha256 pre) = true -> intent_ok policy s pre i ->
  validateIntent i policy = Ok i.
Proof.
  intros Hpre [Hs Hm Hv Hc Hr Hp Hq Hsn He _ _ _ _ _]. unfold validateIntent.
  rewrite Hs, Hm, Hv, Hr, Hp, Hq, Hpre. unfold text_neq. rewrite !String.eqb_refl.
  assert (SHA256 (sn_snapshot_fingerprint_sha256 (it_post_snapshot i)) = true) as ->
    by (rewrite (ok_fingerprint _ _ Hsn); apply sha256_hex64).
  assert (is_safe_integer (it_created_at_ms i) = true) as -> by (unfold is_safe_integer; lia).
  assert ((it_created_at_ms i <=? 0) = false) as -> by lia. cbn [negb orb throw_if mbind res_bind Z.eqb Pos.eqb].
  rewrite (validateSnapshot_id policy (it_post_snapshot i)) by done. cbn [mbind res_bind]. rewrite He.
  cbn [mbind res_bind]. rewrite String.eqb_refl. cbn [negb throw_if mbind res_bind].
  destruct i; simpl in *. by subst.
Qed.

Lemma readSnapshot_ok s f : fs_snapshot s = Some f -> snapshot_ok policy (file_value f) ->
  file_size f <= nsp_max_snapshot_bytes policy -> readSnapshot s policy = Ok (file_value f).
Proof.
  intros Hf Hok Hsz. unfold readSnapshot, readJsonFile. rewrite Hf.
  assert ((file_size f >? nsp_max_snapshot_bytes policy) = false) as -> by lia. simpl.
  by apply validateSnapshot_id.
Qed.

Lemma map_res_id {A} (f : A -> res A) l : Forall (fun a => f a = Ok a) l -> map_res f l = Ok l.
Proof. intros Hl. rewrite (map_res_pure f id l) by done. by rewrite List.map_id. Qed.

Lemma readJournal_ok s : Forall entry_ok (jr_entries (journal_of s)) ->
  jr_size (journal_of s) <= nsp_max_journal_bytes policy ->
  readJournal s (nsp_max_journal_bytes policy) = Ok (jr_entries (journal_of s)).
Proof.
  unfold readJournal, journal_of. destruct (fs_journal s) as [j|]; [|done]. intros Hj Hsz.
  assert ((jr_size j >? nsp_max_journal_bytes policy) = false) as -> by lia. by apply map_res_id.
Qed.

Lemma journalHasCommit_app j e : journalHasCommit (j ++ [e]) (entry_commit_id e) = true.
Proof. unfold journalHasCommit. rewrite existsb_app. simpl. by rewrite String.eqb_refl, orb_true_r. Qed.

Lemma wp_discardIntent (P : fs -> Prop) (Q : res unit -> fs -> Prop) snap nx it j lk :
  P (mkFs snap None it j lk) -> P (mkFs snap None None j lk) -> Q (Ok tt) (mkFs snap None None j lk) ->
  wp discardIntent P Q (mkFs snap nx it j lk).
Proof.
  intros H1 H2 H3. unfold discardIntent. do 2 wp_step. destruct nx as [nx|]; wp_simpl.
  - wp_step. by apply wp_effect; [|apply wp_effect].
  - wp_step. wp_step. by apply wp_effect.
Qed.

Section one_commit.
Context (s : fs) (f : file Snapshot) (i : Intent).
Context (Hrest : at_rest policy s) (Hf : fs_snapshot s = Some f) (Hi : intent_ok policy s (file_value f) i).

Lemma pre_SHA256 : SHA256 (sn_snapshot_fingerprint_sha256 (file_value f)) = true.
Proof using Hrest Hf DigestShape0.
  destruct Hrest as [(f' & Hf' & Hok & _) _ _ _ _ _ _ _ _]. assert (f' = f) as -> by congruence.
  rewrite (ok_fingerprint _ _ Hok). apply sha256_hex64.
Qed.

(** An intent in place is read back and settled against the snapshot in place. *)
Lemma wp_settle stale g nx j lk (P : fs -> Prop) (Q : res RecoveryResult -> fs -> Prop) :
  let s' := mkFs (Some g) nx (Some (intent_file i)) j lk in
  snapshot_ok policy (file_value g) -> fits policy s' ->
  wp (settleIntent policy stale i (file_value g)) P Q s' -> wp (recoverLocked policy stale) P Q s'.
Proof using All.
  intros s' Hok [Hfs Hfi _] Hw. subst s'. unfold recoverLocked. do 2 wp_step. wp_step. wp_step.
  unfold readJsonFile. pose proof (Hfi _ eq_refl) as Hsz.
  assert ((file_size (intent_file i) >? nsp_max_snapshot_bytes policy) = false) as -> by lia. simpl.
  wp_step. wp_step. rewrite (validateIntent_id s (file_value f)) by (done || apply pre_SHA256).
  wp_step. wp_step. rewrite (readSnapshot_ok _ g) by (done || by apply Hfs). done.
Qed.

Lemma rollback_wp stale nx lk : let s' := mkFs (fs_snapshot s) nx (Some (intent_file i)) (fs_journal s) lk in
  nx = None \/ nx = Some (snapshot_file (it_post_snapshot i)) -> fits policy s' ->
  wp (recoverLocked policy stale) (fun s'' => stage s i lk s'' /\ fits policy s'')
    (fun r s'' => (exists status a b c, r = Ok (Recovered status stale a b c)) /\
      s'' = mkFs (fs_snapshot s) None None (fs_journal s) lk) s'.
Proof using All.
  intros s' Hnx Hfit. subst s'. rewrite Hf in *.
  assert (snapshot_ok policy (file_value f)) as Hok.
  { destruct Hrest as [(f' & Hf' & Hok & _) _ _ _ _ _ _ _ _]. by assert (f' = f) as <- by congruence. }
  apply wp_settle; [done..|]. unfold settleIntent. rewrite (iok_pre _ _ _ _ Hi), String.eqb_refl.
  destruct Hfit as [H1 H2 H3].
  assert (fits policy (mkFs (Some f) None None (fs_journal s) lk)) as Hfit0 by (by split).
  assert (stage s i lk (mkFs (Some f) None None (fs_journal s) lk)) as Hst0 by (rewrite <- Hf; constructor).
  wp_step. apply wp_discardIntent; [|done|].
  - split; [rewrite <- Hf; apply stage_intent; by left|by split].
  - wp_step. split; [eauto 10|done].
Qed.

(** The snapshot of the commit is in place: the rest of the completion. *)
Let renamed (it : option (file Intent)) (j : option journal_file) (lk : option (option LockRecord)) : fs :=
  mkFs (Some (snapshot_file (it_post_snapshot i))) None it j lk.

Lemma renamed_fits it j lk j' it' : fits policy (renamed it j lk) ->
  jr_size (match j' with Some x => x | None => mkJournal [] 0 end) <= nsp_max_journal_bytes policy ->
  it' = None \/ it' = it -> fits policy (renamed it' j' lk).
Proof using Type. intros [H1 H2 _] Hj [-> | ->]; by split. Qed.

Lemma settle_completes stale j lk (P : fs -> Prop) (Q : res RecoveryResult -> fs -> Prop) entries :
  readJournal (renamed (Some (intent_file i)) j lk) (nsp_max_journal_bytes policy) = Ok entries ->
  fits policy (renamed (Some (intent_file i)) j lk) ->
  wp (appended ← (if journalHasCommit entries (entry_commit_id (it_journal_entry i)) then mret false
      else appendJournal (it_journal_entry i) (nsp_max_journal_bytes policy);; mret true);
    discardIntent;;
    mret (Recovered "committed_intent_completed" stale true appended true)) P Q (renamed (Some (intent_file i)) j lk) ->
  wp (recoverLocked policy stale) P Q (renamed (Some (intent_file i)) j lk).
Proof using All.
  intros Hread Hfit Hw. apply wp_settle; [apply Hi|done|]. unfold settleIntent. simpl file_value.
  assert (String.eqb (sn_snapshot_fingerprint_sha256 (it_post_snapshot i)) (it_pre_snapshot_fingerprint_sha256 i) = false) as ->.
  { apply String.eqb_neq. rewrite <- (iok_post _ _ _ _ Hi). intros Heq. by apply (iok_moves _ _ _ _ Hi). }
  rewrite (iok_post _ _ _ _ Hi), String.eqb_refl. apply wp_bind, wp_get, wp_bind, wp_call.
  change (mkFs _ _ _ _ _) with (renamed (Some (intent_file i)) j lk). by rewrite Hread.
Qed.

Lemma complete_renamed_wp stale j lk : j = fs_journal s \/ j = Some (journal_of s) ->
  fits policy (renamed (Some (intent_file i)) j lk) ->
  wp (recoverLocked policy stale) (fun s'' => stage s i lk s'' /\ fits policy s'')
    (fun r s'' => stage s i lk s'' /\ fits policy s'' /\
      (jr_size (appended s i) <= nsp_max_journal_bytes policy ->
        (exists status a b c, r = Ok (Recovered status stale a b c)) /\ fs_intent s'' = None))
    (renamed (Some (intent_file i)) j lk).
Proof using All.
  intros Hj Hfit. assert (journal_of (renamed (Some (intent_file i)) j lk) = journal_of s) as Hjo
    by (destruct Hj as [-> | ->]; done).
  apply (settle_completes stale j lk _ _ (jr_entries (journal_of s))); [|done|].
  { rewrite <- Hjo. apply readJournal_ok; rewrite Hjo; [apply (rest_journal _ _ Hrest)|apply (rest_journal_size _ _ Hrest)]. }
  pose proof (rest_journal_size _ _ Hrest) as Hsz.
  apply wp_bind. rewrite (iok_fresh _ _ _ _ Hi).
  apply wp_bind, wp_appendJournal; rewrite Hjo.
  - intros Hbig. split; [by apply stage_renamed|]. split; [done|]. intros Hroom. simpl in Hroom. lia.
  - intros Hroom. change (set_journal ?x _) with (renamed (Some (intent_file i)) x lk).
    assert (forall it, it = None \/ it = Some (intent_file i) -> fits policy (renamed it (Some (appended s i)) lk)) as Hfa
      by (intros; by eapply renamed_fits).
    split; [split; [apply stage_renamed; by right|eapply renamed_fits; eauto]|].
    split; [split; [apply stage_journaled|apply Hfa; by right]|].
    apply wp_ret, wp_bind, wp_discardIntent.
    + split; [apply stage_journaled|apply Hfa; by right].
    + split; [apply stage_done|apply Hfa; by left].
    + apply wp_ret. split; [apply stage_done|]. split; [apply Hfa; by left|]. eauto 10.
Qed.

Lemma complete_journaled_wp stale lk : fits policy (renamed (Some (intent_file i)) (Some (appended s i)) lk) ->
  wp (recoverLocked policy stale) (fun s'' => stage s i lk s'' /\ fits policy s'')
    (fun r s'' => stage s i lk s'' /\ fits policy s'' /\
      (jr_size (appended s i) <= nsp_max_journal_bytes policy ->
        (exists status a b c, r = Ok (Recovered status stale a b c)) /\ fs_intent s'' = None))
    (renamed (Some (intent_file i)) (Some (appended s i)) lk).
Proof using All.
  intros Hfit. apply (settle_completes stale _ lk _ _ (jr_entries (appended s i))); [|done|].
  { apply (readJournal_ok (renamed (Some (intent_file i)) (Some (appended s i)) lk)); [|apply Hfit]. simpl.
    apply Forall_app. split; [apply (rest_journal _ _ Hrest)|]. constructor; [apply Hi|done]. }
  simpl jr_entries. rewrite journalHasCommit_app. apply wp_bind, wp_ret, wp_bind, wp_discardIntent.
  - split; [apply stage_journaled|done].
  - split; [apply stage_done|]. eapply renamed_fits; [done|apply Hfit|by left].
  - apply wp_ret. split; [apply stage_done|]. split; [|eauto 10]. eapply renamed_fits; [done|apply Hfit|by left].
Qed.

(** Recovery under the lock: it stays in the stages, and when the journal has room for the
    entry it ends without an intent. *)
Lemma recoverLocked_wp stale lk s' : stage s i lk s' -> fits policy s' ->
  wp (recoverLocked policy stale) (fun s'' => stage s i lk s'' /\ fits policy s'')
    (fun r s'' => stage s i lk s'' /\ fits policy s'' /\
      (jr_size (appended s i) <= nsp_max_journal_bytes policy ->
        (exists status a b c, r = Ok (Recovered status stale a b c)) /\ fs_intent s'' = None)) s'.
Proof using All.
  intros Hst Hfit. pose proof Hst as Hst'. destruct Hst' as [|nx Hnx|j Hj| |].
  - unfold recoverLocked. do 2 wp_step. wp_step. eauto 10.
  - eapply wp_mono; [| |by apply rollback_wp]; [done|]. intros r s'' [Hr ->].
    split; [constructor|]. split; [|done]. destruct Hfit as [H1 _ H3]. by split.
  - by apply complete_renamed_wp.
  - by apply complete_journaled_wp.
  - unfold recoverLocked. do 2 wp_step. wp_step. eauto 10.
Qed.
(** *** The ends of a commit *)

Lemma committed_at_rest : fits policy (committed s i) -> at_rest policy (committed s i).
Proof using Hrest Hf Hi.
  intros [Hfs _ Hfj]. pose proof Hrest as [_ _ _ _ _ He _ Hrec Honce]. specialize (Hrec f Hf). split; try done.
  - eexists. split; [done|]. split; [apply Hi|by apply Hfs].
  - simpl. apply Forall_app. split; [done|]. constructor; [apply Hi|done].
  - intros f' c [= <-]. simpl. rewrite (iok_commit _ _ _ _ Hi). intros [= <-]. apply journalHasCommit_app.
  - intros f' [= <-]. simpl. apply Forall_app. split; [|constructor; [apply Hi|done]].
    eapply Forall_impl; [exact Hrec|]. intros e [Hg|[Hid Hk]]; [by left|right]. split; [done|].
    destruct e; [by apply (iok_applied _ _ _ _ Hi)|done].
  - simpl. rewrite map_app. apply NoDup_snoc. split; [done|]. intros Hin.
    pose proof (iok_fresh _ _ _ _ Hi) as Hnot. apply not_true_iff_false in Hnot. apply Hnot.
    apply existsb_exists. apply list_elem_of_In, in_map_iff in Hin as (e & Heq & Hin).
    exists e. split; [done|]. by rewrite Heq, String.eqb_refl.
Qed.

(** A stage without an intent is the store before the commit or the store after it. *)
Lemma stage_settled lk s' : stage s i lk s' -> fits policy s' -> fs_intent s' = None ->
  (set_lock None s' = s \/ set_lock None s' = committed s i) /\ at_rest policy (set_lock None s').
Proof using Hrest Hf Hi.
  intros Hst Hfit Hnone. destruct Hst; try discriminate Hnone; unfold set_lock; simpl.
  - assert (mkFs (fs_snapshot s) None None (fs_journal s) None = s) as ->; [|by split; [left|]].
    pose proof Hrest as [_ Hn Hin Hl _ _ _ _ _]. destruct s. simpl in *. by subst.
  - change (mkFs _ _ _ _ _) with (committed s i). split; [by right|]. apply committed_at_rest.
    destruct Hfit as [H1 _ H3]. by split.
Qed.

(** Every stage holds a well-formed snapshot: the one before the commit or the one after. *)
Lemma stage_snapshot lk s' : stage s i lk s' -> fits policy s' ->
  exists g, fs_snapshot s' = Some g /\ snapshot_ok policy (file_value g) /\
    readSnapshot s' policy = Ok (file_value g) /\
    (file_value g = file_value f \/ file_value g = it_post_snapshot i).
Proof using All.
  intros Hst [Hfs _ _]. destruct Hrest as [(f' & Hf' & Hok & _) _ _ _ _ _ _ _ _].
  assert (f' = f) as -> by congruence.
  assert (exists g, fs_snapshot s' = Some g /\ (g = f \/ g = snapshot_file (it_post_snapshot i))) as (g & Hg & Hcase)
    by (destruct Hst; simpl; eauto).
  exists g. split; [done|]. assert (snapshot_ok policy (file_value g)) as Hgok
    by (destruct Hcase as [-> | ->]; [done|apply Hi]).
  split; [done|]. split; [by apply readSnapshot_ok; auto|]. destruct Hcase as [-> | ->]; auto.
Qed.
End one_commit.
End recovery.

(** ** Recovery as it is called *)

Definition recovery_now (now_ms : option jsnum) (date_now : Z) : option Z :=
  match now_ms with Some n => as_safe_integer (JNum n) | None => Some date_now end.

(** The lock file does not stand in the way of a recovery at the time [now]. *)
Definition lock_gone (policy : NormalizedStorePolicy) (alive : Z -> bool) (now : Z) (lk : option (option LockRecord))
    : bool :=
  match lk with
  | None => true
  | Some None => false
  | Some (Some l) => is_ok (readLock (Some l)) && (nsp_stale_lock_min_age_ms policy <=? now - lk_created_at_ms l)
      && negb (isProcessAlive alive (lk_pid l))
  end.

(** The arguments of a recovery that runs: the confirmation, a time, and no lock or a stale
    one. *)
Definition may_recover (policy : NormalizedStorePolicy) (confirmation : string) (now_ms : option jsnum)
    (date_now : Z) (alive : Z -> bool) (lk : option (option LockRecord)) : bool :=
  String.eqb confirmation VOID_NATIVE_ACCOUNT_STATE_STORE_RECOVER_CONFIRMATION_V1 &&
  match recovery_now now_ms date_now with
  | Some now => is_safe_integer now && (0 <? now) && lock_gone policy alive now lk
  | None => false
  end.

Definition recovered (r : res RecoveryResult) : Prop :=
  exists status a b c d, r = Ok (Recovered status a b c d).

(** The part of recovery around the lock, for any condition [J] on the other files that
    [recoverLocked] keeps; [good] is when it can settle what it finds. *)
Section recovery_frame.
Context `{D : Digest} `{E : Ethers} `{L : Locale} (policy : NormalizedStorePolicy) (J : fs -> Prop) (good : Prop).
Context (Jlock : forall lk s, J s -> J (set_lock lk s)).
Context (Jsnapshot : forall s, J s -> is_Some (fs_snapshot s)).
Context (Jlocked : forall stale s, J s ->
  wp (recoverLocked policy stale) (fun s' => J s' /\ fs_lock s' = fs_lock s)
    (fun r s' => J s' /\ fs_lock s' = fs_lock s /\ (good -> recovered r /\ fs_intent s' = None)) s).

Definition recovery_crash (env : Env) (lk : option (option LockRecord)) (s : fs) : Prop :=
  J s /\ (fs_lock s = lk \/ lock_by env (fs_lock s)).

Definition recovery_post (lk : option (option LockRecord)) (clear : bool) (r : res RecoveryResult) (s : fs) : Prop :=
  J s /\ (fs_lock s = lk \/ fs_lock s = None) /\
  (clear = true -> good -> recovered r /\ fs_lock s = None /\ fs_intent s = None).

(** Recovery once no lock is there: it takes the lock, settles, and releases it. *)
Lemma recoverFramed_wp stale env lk s : J s -> fs_lock s = None ->
  wp (writeLock env;; io_finally (recoverLocked policy stale) releaseLock) (recovery_crash env lk)
    (recovery_post lk true) s.
Proof using All.
  intros HJ Hl. assert (forall lk', lock_by env lk' -> recovery_crash env lk (set_lock lk' s)) as Hlock.
  { intros lk' Hlk. split; [by apply Jlock|by right]. }
  apply wp_bind, wp_writeLock; [done|apply Hlock; right; by left|apply Hlock; right; by right|].
  apply wp_finally. eapply wp_mono; [| |by apply (Jlocked stale), (Jlock (Some (Some (lockRecord env))))].
  - intros s2 [HJ2 Hl2]. split; [done|]. right. rewrite Hl2. right. by right.
  - intros r s2 (HJ2 & Hl2 & Hgood). apply wp_releaseLock.
    + split; [by apply Jlock|]. right. by left.
    + split; [by apply Jlock|]. split; [by right|]. intros _ Hg. by destruct (Hgood Hg).
Qed.

Lemma removeStaleLock_wp alive now env s : J s ->
  wp (removeStaleLock policy alive now) (recovery_crash env (fs_lock s))
    (fun r s' => match r with
      | Ok (LockFree _) => J s' /\ fs_lock s' = None
      | _ => s' = s /\ lock_gone policy alive now (fs_lock s) = false
      end) s.
Proof using Jlock.
  intros HJ. unfold removeStaleLock. do 2 wp_step.
  destruct (fs_lock s) as [content|] eqn:Hl; [|by wp_step]. apply wp_bind, wp_call.
  destruct content as [l|]; [|done]. unfold lock_gone.
  destruct (readLock (Some l)) as [l'|e] eqn:Hread; [|done]. cbn [is_ok andb].
  assert (l' = l) as -> by (unfold readLock in Hread; by inv_ok).
  destruct (now - lk_created_at_ms l <? nsp_stale_lock_min_age_ms policy) eqn:Hage.
  { apply wp_ret. split; [done|]. assert ((nsp_stale_lock_min_age_ms policy <=? now - lk_created_at_ms l) = false) as -> by lia.
    done. }
  destruct (isProcessAlive alive (lk_pid l)) eqn:Halive.
  { apply wp_ret. split; [done|]. by rewrite andb_false_r. }
  apply wp_bind, wp_effect.
  - split; [by apply Jlock|]. right. by left.
  - apply wp_ret. split; [by apply Jlock|done].
Qed.

Lemma recoverBody_wp praw now_ms date_now alive env s : normalizePolicy praw = Ok policy -> J s ->
  wp (recoverBody praw now_ms date_now alive env) (recovery_crash env (fs_lock s))
    (recovery_post (fs_lock s) (may_recover policy VOID_NATIVE_ACCOUNT_STATE_STORE_RECOVER_CONFIRMATION_V1
      now_ms date_now alive (fs_lock s))) s.
Proof using All.
  intros Hpol HJ. assert (forall r, recovery_post (fs_lock s) false r s) as Hsame.
  { intros r. split; [done|]. by split; [left|]. }
  unfold recoverBody, may_recover, recovery_now. rewrite String.eqb_refl, Hpol. apply wp_bind, wp_call.
  destruct (match now_ms with Some n => _ | None => _ end) as [now|]; [|by apply wp_throw, Hsame].
  cbn [andb]. destruct (is_safe_integer now) eqn:Hsafe; cbn [negb orb andb]; [|by apply wp_throw, Hsame].
  assert ((0 <? now) = negb (now <=? 0)) as -> by lia.
  destruct (now <=? 0); [apply wp_throw, Hsame|]. cbn [negb andb]. do 2 wp_step.
  destruct (Jsnapshot s HJ) as [g ->]. wp_simpl. cbn [negb].
  apply wp_bind. eapply wp_mono; [| |by apply (removeStaleLock_wp alive now env)]; [done|].
  intros [[stale|why]|e] s''.
  - intros [HJ2 Hl2]. eapply wp_mono; [| |by apply (recoverFramed_wp stale env (fs_lock s))]; [done|].
    intros r s3 (H1 & H2 & H3). split; [done|]. split; [done|]. intros _. by apply H3.
  - intros [-> ->]. apply wp_ret, Hsame.
  - intros [-> ->]. apply Hsame.
Qed.

(** A recovery with any arguments, killed or not. *)
Lemma recover_wp praw confirmation now_ms date_now alive env s : normalizePolicy praw = Ok policy -> J s ->
  wp (recoverVoidNativeAccountStateStoreV1 praw confirmation now_ms date_now alive env)
    (recovery_crash env (fs_lock s))
    (recovery_post (fs_lock s) (may_recover policy confirmation now_ms date_now alive (fs_lock s))) s.
Proof using All.
  intros Hpol HJ. unfold recoverVoidNativeAccountStateStoreV1, text_neq.
  destruct (String.eqb_spec confirmation VOID_NATIVE_ACCOUNT_STATE_STORE_RECOVER_CONFIRMATION_V1) as [->|Hne].
  - apply wp_bind, wp_try. eapply wp_mono; [| |by apply (recoverBody_wp praw now_ms date_now alive env)]; [done|].
    intros r s'' (H1 & H2 & H3). apply wp_ret. split; [done|]. split; [done|].
    intros Hc Hg. destruct (H3 Hc Hg) as [(st & a & b & c & d & ->) Hend]. split; [by repeat eexists|done].
  - apply wp_ret. unfold may_recover. rewrite (proj2 (String.eqb_neq _ _) Hne).
    split; [done|]. by split; [left|].
Qed.
End recovery_frame.

(** ** Recovery of the stages of a commit, and of a store at rest *)

Section recoveries.
Context `{D : Digest} `{!DigestShape D} `{E : Ethers} `{!EthersLaws E} `{L : Locale} `{!LocaleLaws L}.
Context (policy : NormalizedStorePolicy).

(** A stage of the commit of [i], under any lock. *)
Definition commit_stage (s : fs) (i : Intent) (s' : fs) : Prop := stage s i (fs_lock s') s' /\ fits policy s'.

Definition room (s : fs) (i : Intent) : Prop := jr_size (appended s i) <= nsp_max_journal_bytes policy.

(** The store at rest [s], under any lock. *)
Definition locked_rest (s s' : fs) : Prop := s' = set_lock (fs_lock s') s.

Lemma commit_stage_lock s i lk s' : commit_stage s i s' -> commit_stage s i (set_lock lk s').
Proof using Type. intros [Hst Hfit]. split; [by eapply stage_lock|by apply fits_lock]. Qed.

Lemma locked_rest_lock s lk s' : locked_rest s s' -> locked_rest s (set_lock lk s').
Proof using Type. unfold locked_rest. intros ->. done. Qed.

Lemma stage_recover_wp s f i praw confirmation now_ms date_now alive env s' :
  at_rest policy s -> fs_snapshot s = Some f -> intent_ok policy s (file_value f) i ->
  normalizePolicy praw = Ok policy -> commit_stage s i s' ->
  wp (recoverVoidNativeAccountStateStoreV1 praw confirmation now_ms date_now alive env)
    (recovery_crash (commit_stage s i) env (fs_lock s'))
    (recovery_post (commit_stage s i) (room s i) (fs_lock s')
      (may_recover policy confirmation now_ms date_now alive (fs_lock s'))) s'.
Proof using All.
  intros Hrest Hf Hi Hpol Hst. apply recover_wp; [apply commit_stage_lock| | |done|done].
  - intros s1 [H1 H2]. destruct (stage_snapshot policy s f i Hrest Hf Hi _ _ H1 H2) as (g & Hg & _). by eexists.
  - intros stale s1 [H1 H2]. eapply wp_mono; [| |by apply (recoverLocked_wp policy s f i Hrest Hf Hi stale (fs_lock s1))].
    + intros s2 [Hst2 Hfit2]. pose proof (stage_fs_lock _ _ _ _ Hst2) as Hl. rewrite <- Hl in Hst2. by split; [split|].
    + intros r s2 (Hst2 & Hfit2 & Hroom). pose proof (stage_fs_lock _ _ _ _ Hst2) as Hl. rewrite <- Hl in Hst2.
      split; [done|]. split; [done|]. intros Hg. destruct (Hroom Hg) as [(st & a & b & c & ->) Hnone].
      split; [by repeat eexists|done].
Qed.

Lemma rest_recover_wp s praw confirmation now_ms date_now alive env s' : at_rest policy s ->
  normalizePolicy praw = Ok policy -> locked_rest s s' ->
  wp (recoverVoidNativeAccountStateStoreV1 praw confirmation now_ms date_now alive env)
    (recovery_crash (locked_rest s) env (fs_lock s'))
    (recovery_post (locked_rest s) True (fs_lock s')
      (may_recover policy confirmation now_ms date_now alive (fs_lock s'))) s'.
Proof using Type.
  intros Hrest Hpol Hst. apply recover_wp; [apply locked_rest_lock| | |done|done].
  - intros s1 ->. destruct (rest_snapshot _ _ Hrest) as (f & Hf & _). by exists f.
  - intros stale s1 H1. unfold recoverLocked. do 2 wp_step.
    assert (fs_intent s1 = None) as -> by (rewrite H1; apply (rest_intent _ _ Hrest)).
    apply wp_ret. split; [done|]. split; [done|]. intros _. split; [by repeat eexists|].
    rewrite H1. apply (rest_intent _ _ Hrest).
Qed.
End recoveries.
