(* ===== verification/StorePlans.v ===== *)
(** * The commits that the account store plans

    Between taking the lock and writing the intent, [applyOnce] and [applyBlockOnce] check a
    request against the snapshot and the journal.  Whatever they go on to commit is an intent
    that recovery accepts and that moves the store: its snapshot and entry are well formed,
    its commit identity is new to the journal and its snapshot has another fingerprint,
    unless the texts of two of these digests collide. *)

From Stdlib Require Import Ascii Sorted.
From S2P Require Import Prelude Js JsText Flow CanonicalJson Sha256 Ledger NativeTransfer ChainBase.
From S2P Require Import AccountSnapshot BlockExecutor AccountStore StoreProtocol.

(** The snapshots before and after a commit, or its entry and one of the journal, are
    different and share a digest. *)
Definition digests_clash `{Digest} (s : fs) (pre : Snapshot) (i : Intent) : Prop :=
  collides (canonicalJson (snapshotFingerprintMaterial pre))
    (canonicalJson (snapshotFingerprintMaterial (it_post_snapshot i))) \/
  exists e, e ∈ jr_entries (journal_of s) /\
    collides (canonicalJson (commit_material e)) (canonicalJson (commit_material (it_journal_entry i))).

(** ** Changes of accounts *)

(** A change as validation leaves it: the account it leads to is well formed. *)
Definition change_ok (c : AccountChange) : Prop := account_ok (changed_account c).

(** A map of accounts under their own addresses. *)
Definition keyed_map (m : list (string * StoreAccount)) : Prop := Forall (fun e => sa_address e.2 = e.1) m.

Lemma keyed_map_addresses m : keyed_map m -> map sa_address m.*2 = m.*1.
Proof. induction 1 as [|[k a] m Hk _ IH]; [done|]. simpl in *. rewrite Hk. f_equal. exact IH. Qed.

Lemma Forall_map_set {V} (P : string * V -> Prop) m k v : Forall P m -> P (k, v) -> Forall P (map_set m k v).
Proof.
  intros Hm Hv. unfold map_set. case_bool_decide; [|apply Forall_app; by repeat constructor].
  apply Forall_map. eapply Forall_impl; [exact Hm|]. intros e He. simpl. by destruct (String.eqb _ _).
Qed.

Lemma applyChanges_projects m cs : applyChanges m cs = foldl projectChange m cs.
Proof. done. Qed.

Lemma applyChanges_inv (P : string * StoreAccount -> Prop) m cs : Forall P m ->
  Forall (fun c => P (ch_address c, changed_account c)) cs -> Forall P (applyChanges m cs).
Proof.
  intros Hm Hcs. revert m Hm. induction Hcs as [|c cs Hc _ IH]; intros m Hm; [done|]. simpl. apply IH.
  by apply Forall_map_set.
Qed.

(** The accounts after changes that name accounts of the snapshot. *)
Lemma applyChanges_ok m cs : keyed_map m -> NoDup m.*1 -> Forall (fun e => account_ok e.2) m ->
  Forall change_ok cs -> (forall c, c ∈ cs -> ch_address c ∈ m.*1) ->
  let accounts := (applyChanges m cs).*2 in
  Forall account_ok accounts /\ NoDup (map sa_address accounts) /\ length accounts = length m.
Proof.
  intros Hk Hnd Hok Hcs Hin accounts. assert ((applyChanges m cs).*1 = m.*1) as Hkeys by (by apply projectChanges_keys).
  split; [|split].
  - apply Forall_fmap. by apply applyChanges_inv.
  - unfold accounts. rewrite keyed_map_addresses, Hkeys; [done|]. apply applyChanges_inv; [done|].
    apply Forall_forall. done.
  - unfold accounts. by rewrite length_fmap, <- (length_fmap fst), Hkeys, length_fmap.
Qed.

Lemma accountMapOf_keyed snapshot : NoDup (map sa_address (sn_accounts snapshot)) ->
  accountMapOf snapshot = keyed (sn_accounts snapshot).
Proof. apply initialProjection_keyed. Qed.

Lemma keyed_keyed_map l : keyed_map (keyed l).
Proof. apply Forall_map, Forall_forall. done. Qed.

Lemma matchLoop_Next {R} (missing mismatch : R) m cs u :
  for_each (matchAccount missing mismatch m) tt cs = Next u -> Forall (prestate_matches m) cs.
Proof.
  destruct u. induction cs as [|c cs IH]; simpl; intros H; [constructor|].
  apply bind_Next in H as ([] & Hc & H). constructor; [|by apply IH].
  unfold matchAccount in Hc. rewrite map_get_lookup in Hc.
  destruct (as_map m !! ch_address c) as [cur|] eqn:Hcur; [|discriminate].
  apply return_if_Next in Hc. unfold text_neq in Hc. bool_prop.
  exists cur. split; [done|]. split; by apply String.eqb_eq.
Qed.

(** The accounts of a well-formed snapshot after matching changes. *)
Lemma snapshot_changes_ok `{D : Digest} policy x cs : snapshot_ok policy x -> Forall change_ok cs ->
  Forall (prestate_matches (accountMapOf x)) cs ->
  let accounts := (applyChanges (accountMapOf x) cs).*2 in
  Forall account_ok accounts /\ NoDup (map sa_address accounts) /\ length accounts = length (sn_accounts x).
Proof.
  intros Hx Hcs Hpre. destruct (ok_accounts _ _ Hx) as (Hacc & Hnd & _). rewrite accountMapOf_keyed in * by done.
  rewrite <- (length_map (fun a => (sa_address a, a)) (sn_accounts x)). apply applyChanges_ok.
  - apply keyed_keyed_map.
  - by rewrite keyed_keys.
  - apply Forall_map. by eapply Forall_impl.
  - done.
  - by apply prestate_keys.
Qed.

(** ** Requests *)

Section requests.
Context `{D : Digest} `{E : Ethers} `{!EthersLaws E} `{L : Locale}.

Lemma parseChange_change_ok labels item address bb ba nb na : is_account address = true ->
  parseChange labels item = Ok (bb, ba, nb, na) ->
  change_ok (mkAccountChange address (dec bb) (dec ba) (dec nb) (dec na)).
Proof using Type.
  unfold parseChange. intros Ha H. inv_ok.
  repeat match goal with H : parseUint _ _ = Ok _ |- _ => apply parseUint_nonneg in H end.
  split; simpl; eauto.
Qed.

Definition changes_ok (cs : list AccountChange) : Prop := Forall change_ok cs /\ NoDup (map ch_address cs).

Lemma changes_ok_snoc cs c : changes_ok cs -> change_ok c -> ch_address c ∉ map ch_address cs ->
  changes_ok (cs ++ [c]).
Proof using Type.
  intros [Hcs Hnd] Hc Hni. split; [apply Forall_app; split; [done|by constructor]|].
  rewrite map_app. by apply NoDup_snoc.
Qed.

Lemma applyLoop_ok l st st' : foldM applyChangeStep st l = Ok st' -> changes_ok (ct_changes st) ->
  changes_ok (ct_changes st').
Proof using EthersLaws0.
  revert st. induction l as [|c l IH]; intros st; simpl; [by intros [= <-]|].
  intros (st1 & H1 & H2)%bind_Ok Hst. apply (IH _ H2). unfold applyChangeStep in H1. inv_ok.
  destruct x1 as [[[bb ba] nb] na]. inv_ok. apply bool_decide_eq_false in H0.
  apply changes_ok_snoc; [done| |done]. eapply parseChange_change_ok; [by eapply normalizeAddress_account|done].
Qed.

Lemma blockLoop_ok l st st' : foldM blockChangeStep st l = Ok st' -> changes_ok (ct_changes st.1) ->
  changes_ok (ct_changes st'.1) /\ (length (ct_changes st'.1) = length (ct_changes st.1) + length l)%nat.
Proof using EthersLaws0.
  revert st. induction l as [|c l IH]; intros st; simpl; [by intros [= <-]|].
  intros (st1 & H1 & H2)%bind_Ok Hst. destruct st as [totals previous].
  unfold blockChangeStep in H1. inv_ok. destruct x2 as [[[bb ba] nb] na]. inv_ok.
  apply bool_decide_eq_false in H0. destruct (IH _ H2) as [Hok Hlen].
  - apply changes_ok_snoc; [done| |done]. eapply parseChange_change_ok; [by eapply normalizeAddress_account|done].
  - split; [done|]. rewrite Hlen. simpl. rewrite length_app. simpl. lia.
Qed.

(** What validation promises of a transfer request. *)
Record apply_request_ok (r : ApplyRequest) : Prop := mkApplyRequestOk {
  aro_key : SHA256 (ar_idempotency_key_sha256 r) = true;
  aro_hash : TRANSACTION_HASH (ar_transaction_hash r) = true;
  aro_version : SAFE_ID (ar_state_version r) = true;
  aro_prestate : SHA256 (ar_prestate_fingerprint_sha256 r) = true;
  aro_poststate : SHA256 (ar_poststate_fingerprint_sha256 r) = true;
  aro_binding : SHA256 (ar_plan_binding_sha256 r) = true;
  aro_changes : changes_ok (ar_account_changes r);
  aro_fee : 0 <= ar_fee_burned_wei r
}.

Lemma validateApplyRequest_ok input r : validateApplyRequest input = Ok r -> apply_request_ok r.
Proof using EthersLaws0.
  unfold validateApplyRequest. intros H. inv_ok. bool_prop.
  match goal with H : bool_decide (sort_by_address _ _ = _) = true |- _ => apply bool_decide_eq_true in H; rename H into Hs end.
  match goal with H : foldM _ _ _ = Ok _ |- _ => apply applyLoop_ok in H; [|by split; constructor]; rename H into Hc end.
  split; simpl; try done; [by rewrite Hs|by eapply parseUint_nonneg].
Qed.

(** What validation promises of a block request. *)
Record block_request_ok (r : BlockRequest) : Prop := mkBlockRequestOk {
  bro_key : SHA256 (bq_block_idempotency_key_sha256 r) = true;
  bro_hash : TRANSACTION_HASH (bq_block_hash r) = true;
  bro_number : is_canonical_decimal (bq_block_number r) = true;
  bro_count : is_safe_integer (bq_transaction_count r) = true /\ (0 <? bq_transaction_count r) = true;
  bro_parent : SAFE_ID (bq_parent_state_version r) = true;
  bro_parent_fingerprint : SHA256 (bq_parent_snapshot_fingerprint_sha256 r) = true;
  bro_final : SAFE_ID (bq_final_state_version r) = true;
  bro_final_fingerprint : SHA256 (bq_final_accounts_fingerprint_sha256 r) = true;
  bro_hashes : forallb TRANSACTION_HASH (bq_ordered_transaction_hashes r) = true /\
    Z.of_nat (length (bq_ordered_transaction_hashes r)) = bq_transaction_count r;
  bro_bindings : forallb SHA256 (bq_transaction_plan_bindings_sha256 r) = true /\
    Z.of_nat (length (bq_transaction_plan_bindings_sha256 r)) = bq_transaction_count r;
  bro_binding : SHA256 (bq_block_binding_sha256 r) = true;
  bro_changes : changes_ok (bq_aggregate_account_changes r);
  bro_nonempty : bq_aggregate_account_changes r <> [];
  bro_fee : 0 <= bq_total_fee_burned_wei r
}.

Lemma existsb_negb {A} (p : A -> bool) l : existsb (fun a => negb (p a)) l = false -> forallb p l = true.
Proof using Type. induction l as [|a l IH]; [done|]. simpl. destruct (p a); [done|discriminate]. Qed.

Lemma validateBlockApplyRequest_ok input r : validateBlockApplyRequest input = Ok r -> block_request_ok r.
Proof using EthersLaws0.
  unfold validateBlockApplyRequest. intros H. inv_ok. bool_prop.
  repeat match goal with H : existsb _ _ = false |- _ => apply existsb_negb in H end.
  match goal with H : foldM _ _ _ = Ok _ |- _ => apply blockLoop_ok in H as [Hc Hlen]; [|by split; constructor] end.
  match goal with H : bool_decide (br_aggregate_account_changes _ = []) = false |- _ =>
    apply bool_decide_eq_false in H; rename H into Hne end.
  split; simpl; rewrite ?length_map; try done; try lia.
  - match goal with H : parseUint _ _ = Ok x |- _ => apply parseUint_nonneg in H end. by apply dec_canonical.
  - split; [done|lia].
  - split; [done|lia].
  - split; [done|lia].
  - intros Hnil. rewrite Hnil in Hlen. by destruct (br_aggregate_account_changes input).
Qed.
End requests.

(** ** Digests *)

Lemma prints_string s : prints (JStr s).
Proof. done. Qed.

Lemma commit_material_prints e : prints (commit_material e).
Proof. destruct e; prints_record. apply prints_rendered. intros. apply prints_string. Qed.

(** The entry of a transfer and of a block is found by its key. *)
Definition same_key (e e' : JournalEntry) : Prop :=
  match e, e' with
  | TransactionEntry t, TransactionEntry t' => te_idempotency_key_sha256 t = te_idempotency_key_sha256 t'
  | BlockEntry b, BlockEntry b' => be_block_idempotency_key_sha256 b = be_block_idempotency_key_sha256 b'
  | _, _ => False
  end.

Lemma commit_prefix_kind e e' h h' :
  (match e with TransactionEntry _ => "c1-" | BlockEntry _ => "bc1-" end) +:+ h =
  (match e' with TransactionEntry _ => "c1-" | BlockEntry _ => "bc1-" end) +:+ h' ->
  h = h' /\ match e, e' with
    | TransactionEntry _, TransactionEntry _ | BlockEntry _, BlockEntry _ => True
    | _, _ => False end.
Proof. destruct e, e'; cbn; intros Heq; try discriminate Heq; (split; [|done]); by injection Heq. Qed.

Lemma commit_material_key e e' : norm (commit_material e) = norm (commit_material e') ->
  match e, e' with
  | TransactionEntry _, TransactionEntry _ | BlockEntry _, BlockEntry _ => True
  | _, _ => False end -> same_key e e'.
Proof.
  assert (NoDup (object_keys (commit_material e'))) as Hnd by (destruct e'; distinct_keys).
  intros H Hk. destruct e as [t|b], e' as [t'|b']; try done.
  - pose proof (norm_prop _ _ "idempotency_key_sha256" H Hnd) as F. by injection F.
  - pose proof (norm_prop _ _ "block_idempotency_key_sha256" H Hnd) as F. by injection F.
Qed.

Lemma genesis_prefix e id h : (match e with TransactionEntry _ => "c1-" | BlockEntry _ => "bc1-" end) +:+ h <>
  ("genesis-" +:+ id)%string.
Proof. destruct e; cbn; discriminate. Qed.

(** Two identified entries with one commit identity have one key, or their texts collide. *)
Lemma identified_key `{D : Digest} e e' : identified e -> identified e' -> entry_commit_id e = entry_commit_id e' ->
  same_key e e' \/ collides (canonicalJson (commit_material e)) (canonicalJson (commit_material e')).
Proof.
  unfold identified. intros -> -> [Heq Hkind]%commit_prefix_kind.
  destruct (sha256_binds_prints (commit_material e) (commit_material e')) as [Hn|];
    [apply commit_material_prints..|done|left|by right]. by apply commit_material_key.
Qed.

Lemma snapshotFingerprintMaterial_prints x : sn_version x = 1 -> prints (snapshotFingerprintMaterial x).
Proof.
  intros Hv. unfold snapshotFingerprintMaterial, snapshot_fields. rewrite Hv. prints_record.
  - apply prints_rendered. intros a. prints_record.
  - apply prints_rendered. intros a. prints_record.
  - by destruct (sn_last_commit_id x).
Qed.

Lemma snapshotFingerprintMaterial_commit x y :
  norm (snapshotFingerprintMaterial x) = norm (snapshotFingerprintMaterial y) -> sn_last_commit_id x = sn_last_commit_id y.
Proof.
  intros H. assert (NoDup (object_keys (snapshotFingerprintMaterial y))) as Hnd by distinct_keys.
  pose proof (norm_prop _ _ "last_commit_id" H Hnd) as F. cbn in F.
  destruct (sn_last_commit_id x), (sn_last_commit_id y); try discriminate F; [|done]. by injection F as ->.
Qed.

Section fresh.
Context `{D : Digest} (policy : NormalizedStorePolicy) (s : fs) (f : file Snapshot).
Context (Hrest : at_rest policy s) (Hf : fs_snapshot s = Some f).

Lemma journalHasCommit_true entries c :
  journalHasCommit entries c = true <-> exists e, e ∈ entries /\ entry_commit_id e = c.
Proof using Type.
  unfold journalHasCommit. rewrite existsb_exists. split; intros (e & He & Hc); exists e.
  - split; [by apply list_elem_of_In|by apply String.eqb_eq].
  - split; [by apply list_elem_of_In|by apply String.eqb_eq].
Qed.

(** A commit of a key that no entry carries is new to the journal. *)
Lemma commit_fresh i : identified (it_journal_entry i) ->
  (forall e, e ∈ jr_entries (journal_of s) -> recorded (file_value f) e -> identified e ->
    ~ same_key e (it_journal_entry i)) ->
  journalHasCommit (jr_entries (journal_of s)) (entry_commit_id (it_journal_entry i)) = false \/
  digests_clash s (file_value f) i.
Proof using Hrest Hf.
  intros Hid Hkeys. destruct (journalHasCommit _ _) eqn:Hhas; [right|by left].
  apply journalHasCommit_true in Hhas as (e & He & Heq).
  pose proof (rest_recorded _ _ Hrest f Hf) as Hrec. rewrite Forall_forall in Hrec.
  pose proof (Hrec e He) as Hr. destruct Hr as [(t & id & -> & Hg)|[Hide _]].
  - exfalso. simpl in Heq. rewrite Hg in Heq. unfold identified in Hid. rewrite Hid in Heq.
    symmetry in Heq. by apply genesis_prefix in Heq.
  - destruct (identified_key e _ Hide Hid Heq) as [Hk|Hc]; [|by right; exists e].
    by destruct (Hkeys e He (Hrec e He) Hide).
Qed.

(** A new commit changes the fingerprint of the snapshot. *)
Lemma commit_moves i : snapshot_ok policy (file_value f) -> snapshot_ok policy (it_post_snapshot i) ->
  sn_last_commit_id (it_post_snapshot i) = Some (entry_commit_id (it_journal_entry i)) ->
  journalHasCommit (jr_entries (journal_of s)) (entry_commit_id (it_journal_entry i)) = false ->
  sn_snapshot_fingerprint_sha256 (file_value f) <> sn_snapshot_fingerprint_sha256 (it_post_snapshot i) \/
  digests_clash s (file_value f) i.
Proof using Hrest Hf.
  intros Hpre Hpost Hlast Hfresh.
  destruct (decide (sn_snapshot_fingerprint_sha256 (file_value f) = sn_snapshot_fingerprint_sha256 (it_post_snapshot i)))
    as [Heq|]; [right|by left].
  rewrite (ok_fingerprint _ _ Hpre), (ok_fingerprint _ _ Hpost) in Heq.
  destruct (sha256_binds_prints (snapshotFingerprintMaterial (file_value f))
    (snapshotFingerprintMaterial (it_post_snapshot i))) as [Hn|]; [..|by left].
  - apply snapshotFingerprintMaterial_prints, Hpre.
  - apply snapshotFingerprintMaterial_prints, Hpost.
  - done.
  - apply snapshotFingerprintMaterial_commit in Hn. rewrite Hlast in Hn.
    rewrite (rest_logged _ _ Hrest f _ Hf Hn) in Hfresh. discriminate Hfresh.
Qed.

(** An intent between well-formed snapshots whose key no entry carries. *)
Lemma makeIntent_ok now post entry : 0 < now <= MAX_SAFE_INTEGER -> snapshot_ok policy (file_value f) ->
  snapshot_ok policy post -> entry_ok entry -> sn_last_commit_id post = Some (entry_commit_id entry) ->
  identified entry -> recorded post entry ->
  (forall key, key ∈ applied_keys (file_value f) -> key ∈ applied_keys post) ->
  (forall e, e ∈ jr_entries (journal_of s) -> recorded (file_value f) e -> identified e -> ~ same_key e entry) ->
  let i := makeIntent now (file_value f) post entry in
  intent_ok policy s (file_value f) i \/ digests_clash s (file_value f) i.
Proof using Hrest Hf.
  intros Hnow Hpre Hpost He Hlast Hid Hrec Hap Hkeys i.
  destruct (commit_fresh i Hid Hkeys) as [Hfresh|]; [|by right].
  destruct (commit_moves i Hpre Hpost Hlast Hfresh) as [Hmoves|]; [left|by right]. by split.
Qed.
End fresh.

(** ** Planned commits *)

Section planned.
Context `{D : Digest} `{!DigestShape D} `{E : Ethers} `{!EthersLaws E} `{L : Locale} `{!LocaleLaws L}.
Context (policy : NormalizedStorePolicy) (s : fs) (f : file Snapshot).
Context (Hrest : at_rest policy s) (Hf : fs_snapshot s = Some f).

Lemma rest_snapshot_ok : snapshot_ok policy (file_value f).
Proof using Hrest Hf.
  destruct Hrest as [(f' & Hf' & Hok & _) _ _ _ _ _ _ _ _]. by assert (f' = f) as <- by congruence.
Qed.

Lemma read_locked env : readSnapshot (under_lock env s) policy = Ok (file_value f).
Proof using All.
  apply readSnapshot_ok; [done|apply rest_snapshot_ok|]. by eapply fit_snapshot; [eapply at_rest_fits|].
Qed.

Lemma journal_locked env : readJournal (under_lock env s) (nsp_max_journal_bytes policy) = Ok (jr_entries (journal_of s)).
Proof using Hrest.
  apply (readJournal_ok policy (under_lock env s)); [apply (rest_journal _ _ Hrest)|apply (rest_journal_size _ _ Hrest)].
Qed.

(** What a transfer request has passed when its commit begins. *)
Record transaction_planned (request : ApplyRequest) : Prop := mkTransactionPlanned {
  tp_request : apply_request_ok request;
  tp_new : ar_idempotency_key_sha256 request ∉ applied_keys (file_value f);
  tp_version : sn_state_version (file_value f) = ar_state_version request;
  tp_capacity : Z.of_nat (length (sn_applied_transactions (file_value f))) < nsp_max_applied_transactions policy;
  tp_prestate : Forall (prestate_matches (accountMapOf (file_value f))) (ar_account_changes request)
}.

Lemma find_applied_None key : List.find (fun item => String.eqb (at_idempotency_key_sha256 item) key)
    (sn_applied_transactions (file_value f)) = None <-> key ∉ applied_keys (file_value f).
Proof using Type.
  clear. unfold applied_keys. induction (sn_applied_transactions (file_value f)) as [|t l IH]; simpl; [set_solver|].
  destruct (String.eqb_spec (at_idempotency_key_sha256 t) key) as [->|Hne]; [set_solver|]. rewrite IH. set_solver.
Qed.

Lemma planTransaction_Next env input now i r :
  planTransaction policy input now (under_lock env s) = Next (i, r) ->
  exists request, validateApplyRequest input = Ok request /\ transaction_planned request /\
    let '(post, entry) := transactionCommit (file_value f) request in
    i = makeIntent now (file_value f) post (TransactionEntry entry) /\
    r = StoreApplied (te_commit_id entry) (te_state_version entry) (ar_transaction_hash request).
Proof using All.
  unfold planTransaction. rewrite read_locked. intros H. apply bind_Next in H as (request & Hv%call_Next & H).
  cbn [call mbind flow_bind] in H. destruct (List.find _ _) eqn:Hfind; [discriminate|].
  destruct (transactionCommit (file_value f) request) as [post entry] eqn:Hcommit.
  apply bind_Next in H as ([] & Hver%return_if_Next & H). apply bind_Next in H as ([] & Hcap%return_if_Next & H).
  apply bind_Next in H as ([] & Hpre%matchLoop_Next & H). inv_flow. apply find_applied_None in Hfind.
  unfold text_neq in Hver. apply negb_false_iff, String.eqb_eq in Hver.
  exists request. split; [done|]. rewrite Hcommit. split; [|done].
  split; [by eapply validateApplyRequest_ok|done|done|lia|done].
Qed.

Lemma SAFE_ID_digest prefix v : string_forallb is_safe_char prefix = true -> (String.length prefix <= 136)%nat ->
  SAFE_ID (prefix +:+ sha256 v) = true.
Proof using DigestShape0. intros. apply safe_id_digest; [apply sha256_hex64|done|done]. Qed.

Lemma transactionCommit_snapshot_ok request : transaction_planned request ->
  snapshot_ok policy (transactionCommit (file_value f) request).1.
Proof using All.
  intros [[Hk Hh Hv Hp Hq Hb [Hcs _] Hfee] Hnew _ Hcap Hpre]. pose proof rest_snapshot_ok as Hok.
  destruct (snapshot_changes_ok policy _ _ Hok Hcs Hpre) as (Hacc & Hnd & Hlen).
  apply createSnapshot_ok; try done.
  - apply SAFE_ID_digest; [done|simpl; lia].
  - intros Hnil. rewrite Hnil in Hlen. apply (ok_nonempty _ _ Hok). by apply nil_length_inv.
  - rewrite Hlen. apply Hok.
  - rewrite length_app. simpl. lia.
  - apply Forall_app. split; [apply Hok|]. constructor; [|done].
    split; simpl; [done|done|apply SAFE_ID_digest; [done|simpl; lia]..].
  - rewrite map_app. apply NoDup_snoc. split; [apply Hok|done].
Qed.

Lemma transactionCommit_entry_ok request : transaction_planned request ->
  entry_ok (TransactionEntry (transactionCommit (file_value f) request).2).
Proof using All.
  intros [[Hk Hh Hv Hp Hq Hb _ Hfee] _ Hver _ _]. pose proof rest_snapshot_ok as Hok.
  unfold entry_ok, validateJournalEntry, entry_identity, validTransactionEntry. simpl.
  rewrite Hk, Hh, Hp, Hq, Hb, (ok_state_version _ _ Hok).
  unfold transactionStateVersion, transactionCommitId. rewrite !SAFE_ID_digest by (done || simpl; lia).
  rewrite (sha256_hex64 _ : SHA256 _ = true). done.
Qed.

(** A planned transfer is an intent that recovery can settle. *)
Lemma planTransaction_intent_ok env input now i r : 0 < now <= MAX_SAFE_INTEGER ->
  planTransaction policy input now (under_lock env s) = Next (i, r) ->
  intent_ok policy s (file_value f) i \/ digests_clash s (file_value f) i.
Proof using All.
  intros Hnow (request & _ & Hp & Hi)%planTransaction_Next.
  pose proof (transactionCommit_snapshot_ok request Hp) as Hpost. pose proof (transactionCommit_entry_ok request Hp) as He.
  destruct (transactionCommit (file_value f) request) as [post entry] eqn:Hc. destruct Hi as [-> _].
  assert (identified (TransactionEntry entry)) as Hid by (by injection Hc as <- <-).
  assert (te_idempotency_key_sha256 entry = ar_idempotency_key_sha256 request) as Hkey by (by injection Hc as <- <-).
  assert (forall k, k ∈ applied_keys post <-> k ∈ applied_keys (file_value f) \/ k = te_idempotency_key_sha256 entry) as Hap.
  { intros k. injection Hc as <- <-. unfold applied_keys. simpl. rewrite map_app. set_solver. }
  assert (sn_last_commit_id post = Some (te_commit_id entry)) as Hlast by (by injection Hc as <- <-). clear Hc.
  apply makeIntent_ok; try done.
  - apply rest_snapshot_ok.
  - right. split; [done|]. apply Hap. by right.
  - intros k Hk. apply Hap. by left.
  - intros [t|b] Hin Hrec Hidt Hsame; [|done]. simpl in Hsame.
    destruct Hrec as [(t' & id & [= <-] & Hg)|[_ Hkn]].
    + unfold identified in Hidt. simpl in Hidt. rewrite Hg in Hidt. discriminate Hidt.
    + apply (tp_new _ Hp). by rewrite <- Hkey, <- Hsame.
Qed.

(** What a block request has passed when its commit begins. *)
Record block_planned (request : BlockRequest) : Prop := mkBlockPlanned {
  bpl_request : block_request_ok request;
  bpl_new : findBlock (jr_entries (journal_of s)) (bq_block_idempotency_key_sha256 request) = None;
  bpl_version : sn_state_version (file_value f) = bq_parent_state_version request;
  bpl_parent : sn_snapshot_fingerprint_sha256 (file_value f) = bq_parent_snapshot_fingerprint_sha256 request;
  bpl_prestate : Forall (prestate_matches (accountMapOf (file_value f))) (bq_aggregate_account_changes request)
}.

Lemma findBlock_None entries key b : findBlock entries key = None -> BlockEntry b ∈ entries ->
  be_block_idempotency_key_sha256 b <> key.
Proof using Type.
  clear. unfold findBlock. induction entries as [|e l IH]; [set_solver|]. simpl.
  destruct e as [t|b']; [intros H Hin; apply IH; [done|set_solver]|].
  destruct (String.eqb_spec (be_block_idempotency_key_sha256 b') key) as [|Hne]; [discriminate|].
  intros H [[= ->]|Hin]%elem_of_cons; [done|by apply IH].
Qed.

Lemma planBlock_Next env input now i r :
  planBlock policy input now (under_lock env s) = Next (i, r) ->
  exists request, validateBlockApplyRequest input = Ok request /\ block_planned request /\
    let '(post, entry) := blockCommit (file_value f) request in
    i = makeIntent now (file_value f) post (BlockEntry entry) /\
    r = BlockStoreApplied (be_commit_id entry) (bq_block_hash request) (bq_block_number request)
          (bq_final_state_version request) (bq_transaction_count request).
Proof using All.
  unfold planBlock. rewrite read_locked, journal_locked. intros H.
  apply bind_Next in H as (request & Hv%call_Next & H). cbn [call mbind flow_bind] in H.
  destruct (findBlock _ _) eqn:Hfind; [discriminate|].
  destruct (blockCommit (file_value f) request) as [post entry] eqn:Hcommit.
  apply bind_Next in H as ([] & Hver%return_if_Next & H). apply bind_Next in H as ([] & Hpar%return_if_Next & H).
  apply bind_Next in H as ([] & Hpre%matchLoop_Next & H). inv_flow.
  unfold text_neq in Hver, Hpar. apply negb_false_iff, String.eqb_eq in Hver, Hpar.
  exists request. split; [done|]. rewrite Hcommit. split; [|done].
  split; [by eapply validateBlockApplyRequest_ok|done..].
Qed.

Lemma blockCommit_snapshot_ok request : block_planned request -> snapshot_ok policy (blockCommit (file_value f) request).1.
Proof using All.
  intros [Hr _ _ _ Hpre]. pose proof rest_snapshot_ok as Hok. destruct (bro_changes _ Hr) as [Hcs _].
  destruct (snapshot_changes_ok policy _ _ Hok Hcs Hpre) as (Hacc & Hnd & Hlen).
  assert (blockPostAccounts (file_value f) request ≡ₚ
    (applyChanges (accountMapOf (file_value f)) (bq_aggregate_account_changes request)).*2) as Hp
    by apply sort_by_address_perm.
  apply createSnapshot_ok; try rewrite Hp; try done; try apply Hok; [apply Hr| |].
  - intros Hnil. rewrite Hnil in Hp. apply Permutation_nil_l in Hp. rewrite <- Hp in Hlen.
    apply (ok_nonempty _ _ Hok). by apply nil_length_inv.
  - rewrite Hlen. apply Hok.
Qed.

Lemma blockCommit_entry_ok request : block_planned request ->
  entry_ok (BlockEntry (blockCommit (file_value f) request).2).
Proof using All.
  intros [[Hk Hh Hn [Hc1 Hc2] Hp Hpf Hfi Hff [Hhs1 Hhs2] [Hbs1 Hbs2] Hb _ Hne Hfee] _ Hver _ _].
  unfold entry_ok, validateJournalEntry, entry_identity, validBlockEntry. simpl.
  rewrite Hk, Hh, Hn, Hc1, Hc2, Hver, Hp, Hpf, Hfi, Hff, Hhs1, Hhs2, Hbs1, Hbs2, Hb, Z.eqb_refl.
  rewrite (bool_decide_eq_false_2 _ Hne). unfold blockCommitId. rewrite SAFE_ID_digest by (done || simpl; lia).
  rewrite (sha256_hex64 _ : SHA256 _ = true), parseUint_dec by done. done.
Qed.

Lemma planBlock_intent_ok env input now i r : 0 < now <= MAX_SAFE_INTEGER ->
  planBlock policy input now (under_lock env s) = Next (i, r) ->
  intent_ok policy s (file_value f) i \/ digests_clash s (file_value f) i.
Proof using All.
  intros Hnow (request & _ & Hp & Hi)%planBlock_Next.
  pose proof (blockCommit_snapshot_ok request Hp) as Hpost. pose proof (blockCommit_entry_ok request Hp) as He.
  destruct (blockCommit (file_value f) request) as [post entry] eqn:Hc. destruct Hi as [-> _].
  assert (identified (BlockEntry entry)) as Hid.
  { injection Hc as <- <-. unfold identified. simpl. unfold blockCommitId. by rewrite (bpl_parent _ Hp). }
  assert (be_block_idempotency_key_sha256 entry = bq_block_idempotency_key_sha256 request) as Hkey by (by injection Hc as <- <-).
  assert (sn_applied_transactions post = sn_applied_transactions (file_value f)) as Hap by (by injection Hc as <- <-).
  assert (sn_last_commit_id post = Some (be_commit_id entry)) as Hlast by (by injection Hc as <- <-). clear Hc.
  apply makeIntent_ok; try done.
  - apply rest_snapshot_ok.
  - by right.
  - unfold applied_keys. by rewrite Hap.
  - intros [t|b] Hin _ _ Hsame; [done|]. simpl in Hsame.
    apply (findBlock_None _ _ _ (bpl_new _ Hp) Hin). by rewrite Hsame.
Qed.
End planned.
