(* ===== verification/StoreSafety.v ===== *)
(** * Safety of the account store over its whole life

    Calls of the store, completed or killed after any of their system calls, one after the
    other.  Every store they can leave is recoverable; a call that was killed has happened
    entirely or not at all once recovery has run, however often the recovery is killed too;
    a request that was applied is never applied again.  Two theorems show where the store
    gets stuck: a lock file without its record, and a journal without room. *)

From Stdlib Require Import Ascii Sorted.
From S2P Require Import Prelude Js JsText Flow CanonicalJson Sha256 Ledger NativeTransfer ChainBase.
From S2P Require Import AccountSnapshot BlockExecutor AccountStore StoreProtocol StorePlans.

(** ** Calls *)

(** The two methods that commit, with the process that calls them. *)
Inductive apply_call : Type :=
| ApplyTransfer (env : Env) (input : StoreApplyRequest)
| ApplyBlock (env : Env) (input : BlockStoreRequest).

Record recover_call := mkRecoverCall {
  rc_policy : StorePolicy;
  rc_confirmation : string;
  rc_now_ms : option jsnum;
  rc_date_now : Z;
  rc_alive : Z -> bool;
  rc_env : Env
}.

Inductive store_call : Type :=
| Apply (c : apply_call)
| Recover (r : recover_call).

Definition call_env (c : apply_call) : Env := match c with ApplyTransfer env _ | ApplyBlock env _ => env end.

(** [process.pid] and [Date.now()] are positive safe integers. *)
Definition env_ok (env : Env) : Prop :=
  0 < env_pid env <= MAX_SAFE_INTEGER /\ 0 < env_lock_ms env <= MAX_SAFE_INTEGER /\
  0 < env_intent_ms env <= MAX_SAFE_INTEGER.

Section store_calls.
Context `{D : Digest} `{E : Ethers} `{L : Locale} (policy : NormalizedStorePolicy).

(** The states of a call after each of its system calls, and the last one. *)
Definition apply_trace (c : apply_call) (s : fs) : list fs :=
  match c with
  | ApplyTransfer env input => io_trace (applyOnce policy env input) s
  | ApplyBlock env input => io_trace (applyBlockOnce policy env input) s
  end.

Definition apply_final (c : apply_call) (s : fs) : fs :=
  match c with
  | ApplyTransfer env input => io_final (applyOnce policy env input) s
  | ApplyBlock env input => io_final (applyBlockOnce policy env input) s
  end.

(** Whether the call answers that it has applied the request. *)
Definition applied (c : apply_call) (s : fs) : bool :=
  match c with
  | ApplyTransfer env input =>
      match io_result (applyOnce policy env input) s with Ok (StoreApplied _ _ _) => true | _ => false end
  | ApplyBlock env input =>
      match io_result (applyBlockOnce policy env input) s with Ok (BlockStoreApplied _ _ _ _ _) => true | _ => false end
  end.

Definition recovery (r : recover_call) : io RecoveryResult :=
  recoverVoidNativeAccountStateStoreV1 (rc_policy r) (rc_confirmation r) (rc_now_ms r) (rc_date_now r)
    (rc_alive r) (rc_env r).

Definition call_trace (c : store_call) : fs -> list fs :=
  match c with Apply a => apply_trace a | Recover r => io_trace (recovery r) end.
Definition call_final (c : store_call) : fs -> fs :=
  match c with Apply a => apply_final a | Recover r => io_final (recovery r) end.

Definition call_ok (c : store_call) : Prop :=
  match c with
  | Apply a => env_ok (call_env a)
  | Recover r => env_ok (rc_env r) /\ normalizePolicy (rc_policy r) = Ok policy
  end.

(** A call that returns, or that is killed after one of its system calls. *)
Inductive store_step (s : fs) : fs -> Prop :=
| step_returns c : call_ok c -> store_step s (call_final c s)
| step_killed c s' : call_ok c -> s' ∈ call_trace c s -> store_step s s'.

(** The commit that a call on a store without lock and intent goes on to make. *)
Definition planned (c : apply_call) (s : fs) : option Intent :=
  match c with
  | ApplyTransfer env input =>
      match planTransaction policy input (env_intent_ms env) (under_lock env s) with
      | Next (i, _) => Some i | _ => None end
  | ApplyBlock env input =>
      match planBlock policy input (env_intent_ms env) (under_lock env s) with
      | Next (i, _) => Some i | _ => None end
  end.

(** Two different texts with one digest *)
Definition collides_b (x y : string) : bool := negb (String.eqb x y) && String.eqb (sha256_hex x) (sha256_hex y).

(** The commit that this call is about to make on this store, if any, has digests of its own:
    the new snapshot does not share its fingerprint with the present one, nor the new entry
    its commit identity with an entry of the journal, unless the texts are the same. *)
Definition clash_free (c : apply_call) (s : fs) : bool :=
  match planned c s, fs_snapshot s with
  | Some i, Some f =>
      negb (collides_b (canonicalJson (snapshotFingerprintMaterial (file_value f)))
        (canonicalJson (snapshotFingerprintMaterial (it_post_snapshot i)))) &&
      forallb (fun e => negb (collides_b (canonicalJson (commit_material e))
        (canonicalJson (commit_material (it_journal_entry i))))) (jr_entries (journal_of s))
  | _, _ => true
  end.

Definition call_clash_free (c : store_call) (s : fs) : bool :=
  match c with Apply a => clash_free a s | Recover _ => true end.

(** A step whose call has digests of its own on the store it is made on *)
Inductive clean_step (s : fs) : fs -> Prop :=
| clean_returns c : call_ok c -> call_clash_free c s = true -> clean_step s (call_final c s)
| clean_killed c s' : call_ok c -> call_clash_free c s = true -> s' ∈ call_trace c s -> clean_step s s'.

(** ** Recoverable stores *)

Definition lock_wf (lk : option (option LockRecord)) : Prop :=
  match lk with Some (Some l) => readLock (Some l) = Ok l | _ => True end.

(** A store at rest up to its lock, or a stage of a commit that starts from a store at
    rest. *)
Definition recoverable (s' : fs) : Prop :=
  lock_wf (fs_lock s') /\
  exists s, at_rest policy s /\
    (locked_rest s s' \/
     exists f i, fs_snapshot s = Some f /\ intent_ok policy s (file_value f) i /\ commit_stage policy s i s').
End store_calls.

Section safety.
Context `{D : Digest} `{!DigestShape D} `{E : Ethers} `{!EthersLaws E} `{L : Locale} `{!LocaleLaws L}.
Context (policy : NormalizedStorePolicy).

Lemma lock_by_wf env lk : env_ok env -> lock_by env lk -> lock_wf lk.
Proof using Type.
  intros (Hpid & Hms & _) [->|[-> | ->]]; [done|done|].
  assert (forall z, 0 < z <= MAX_SAFE_INTEGER -> is_safe_integer z = true /\ (z <=? 0) = false) as Hz
    by (unfold is_safe_integer; lia).
  destruct (Hz _ Hpid) as [H1 H2], (Hz _ Hms) as [H3 H4]. simpl. by rewrite H1, H2, H3, H4.
Qed.

Lemma planned_ok c s i f : at_rest policy s -> fs_snapshot s = Some f -> env_ok (call_env c) ->
  planned policy c s = Some i -> intent_ok policy s (file_value f) i \/ digests_clash s (file_value f) i.
Proof using All.
  intros Hrest Hf (_ & _ & Hms). destruct c as [env input|env input]; simpl in *.
  - destruct (planTransaction _ _ _ _) as [[i' r]|r|e] eqn:Hp; [intros [= ->]|discriminate..].
    by eapply planTransaction_intent_ok.
  - destruct (planBlock _ _ _ _) as [[i' r]|r|e] eqn:Hp; [intros [= ->]|discriminate..].
    by eapply planBlock_intent_ok.
Qed.

Lemma collides_b_iff x y : collides_b x y = true <-> collides x y.
Proof using Type.
  unfold collides_b, collides. rewrite andb_true_iff, negb_true_iff, String.eqb_neq, String.eqb_eq. done.
Qed.

Lemma clash_free_sound c s i f : planned policy c s = Some i -> fs_snapshot s = Some f ->
  clash_free policy c s = true -> ~ digests_clash s (file_value f) i.
Proof using Type.
  unfold clash_free. intros -> ->. rewrite andb_true_iff, negb_true_iff, forallb_forall.
  intros [Hs Hj] [Hc|(e & He & Hc)]; apply collides_b_iff in Hc; [congruence|].
  apply list_elem_of_In in He. apply Hj, negb_true_iff in He. congruence.
Qed.

(** A clean call plans a commit that recovery accepts. *)
Lemma planned_clean c s i f : at_rest policy s -> fs_snapshot s = Some f -> env_ok (call_env c) ->
  planned policy c s = Some i -> clash_free policy c s = true -> intent_ok policy s (file_value f) i.
Proof using All.
  intros Hrest Hf Henv Hp Hfree. destruct (planned_ok c s i f Hrest Hf Henv Hp) as [?|Hc]; [done|].
  by destruct (clash_free_sound c s i f Hp Hf Hfree).
Qed.

Lemma framed_trace {R} env (answers : R * R * (bool -> R)) (plan : fs -> flow R (Intent * R)) s s' :
  at_rest policy s -> s' ∈ io_trace (applyFramed policy env answers.1.1 answers.1.2 answers.2 plan) s ->
  call_crash policy env plan s s'.
Proof using Type.
  intros Hrest Hin. destruct (applyFramed_wp policy env answers.1.1 answers.1.2 answers.2 plan s Hrest) as [Htr _].
  rewrite Forall_forall in Htr. by apply Htr.
Qed.

(** Where a killed call leaves a store at rest. *)
Lemma apply_trace_crash c s s' : at_rest policy s -> s' ∈ apply_trace policy c s ->
  lock_by (call_env c) (fs_lock s') /\
  (locked_rest s s' \/ exists i, planned policy c s = Some i /\ commit_stage policy s i s').
Proof using Type.
  intros Hrest Hin. destruct c as [env input|env input]; simpl in *;
    apply (framed_trace env (_, _, _)) in Hin as [Hl [Hs|(i & r & Hp & Hst)]]; try done;
    (split; [done|]); [by left| |by left|]; right; exists i; by rewrite Hp.
Qed.

Definition is_applied (r : StoreApplyResult) : bool := match r with StoreApplied _ _ _ => true | _ => false end.
Definition is_block_applied (r : BlockStoreResult) : bool :=
  match r with BlockStoreApplied _ _ _ _ _ => true | _ => false end.

(** Only a plan that goes on answers that the request was applied. *)
Lemma planTransaction_answer input now s :
  flow_post (fun ir => is_applied ir.2 = true) (fun r => is_applied r = false) (planTransaction policy input now s).
Proof using Type.
  unfold planTransaction. apply flow_post_bind, flow_post_call. intros request _.
  apply flow_post_bind, flow_post_call. intros snapshot _. destruct (List.find _ _); [done|].
  apply flow_post_bind, flow_post_return_if; [done|intros _]. apply flow_post_bind, flow_post_return_if; [done|intros _].
  apply flow_post_bind, flow_post_for_each.
  { intros u c. unfold matchAccount. destruct (map_get _ _); [|done]. by apply flow_post_return_if. }
  intros [] _. apply flow_post_bind, flow_post_call. intros fp _.
  apply flow_post_bind, flow_post_return_if; [done|intros _]. done.
Qed.

Lemma planBlock_answer input now s :
  flow_post (fun ir => is_block_applied ir.2 = true) (fun r => is_block_applied r = false) (planBlock policy input now s).
Proof using Type.
  unfold planBlock. apply flow_post_bind, flow_post_call. intros request _.
  apply flow_post_bind, flow_post_call. intros snapshot _. apply flow_post_bind, flow_post_call. intros journal _.
  destruct (findBlock _ _); [done|].
  apply flow_post_bind, flow_post_return_if; [done|intros _]. apply flow_post_bind, flow_post_return_if; [done|intros _].
  apply flow_post_bind, flow_post_for_each.
  { intros u c. unfold matchAccount. destruct (map_get _ _); [|done]. by apply flow_post_return_if. }
  intros [] _. apply flow_post_bind, flow_post_return_if; [done|intros _]. done.
Qed.

Lemma framed_post {R} (is_yes : R -> bool) env (answers : R * R * (bool -> R)) (plan : fs -> flow R (Intent * R)) s :
  at_rest policy s -> (forall b, is_yes (answers.2 b) = false) ->
  flow_post (fun ir => is_yes ir.2 = true) (fun r => is_yes r = false) (plan (under_lock env s)) ->
  let m := applyFramed policy env answers.1.1 answers.1.2 answers.2 plan in
  exists r, io_result m s = Ok r /\
  match plan (under_lock env s) with
  | Next (i, _) => stage s i None (io_final m s) /\ fits policy (io_final m s) /\
      (is_yes r = true /\ io_final m s = committed s i \/ is_yes r = false /\ ~ within_limits policy s i)
  | _ => io_final m s = s /\ is_yes r = false
  end.
Proof using Type.
  intros Hrest Hfailed Hplan m.
  destruct (applyFramed_wp policy env answers.1.1 answers.1.2 answers.2 plan s Hrest) as [_ Hpost].
  fold m in Hpost. unfold call_post in Hpost. destruct (plan (under_lock env s)) as [[i r]|r|e].
  - destruct Hpost as [[Hst Hfit] [[Hr Hs]|[[b Hr] Hlim]]]; eexists; (split; [done|]); (split; [done|]); (split; [done|]).
    + left. by rewrite Hs.
    + by right.
  - destruct Hpost as [Hr Hs]. exists r. by rewrite Hs.
  - destruct Hpost as [Hr Hs]. exists (answers.2 false). by rewrite Hs.
Qed.

(** What a call that returns does to a store at rest. *)
Lemma apply_final_post c s : at_rest policy s ->
  match planned policy c s with
  | None => apply_final policy c s = s /\ applied policy c s = false
  | Some i => stage s i None (apply_final policy c s) /\ fits policy (apply_final policy c s) /\
      (applied policy c s = true /\ apply_final policy c s = committed s i \/
       applied policy c s = false /\ ~ within_limits policy s i)
  end.
Proof using Type.
  intros Hrest. destruct c as [env input|env input]; simpl; unfold applyOnce, applyBlockOnce.
  - destruct (framed_post is_applied env (refuse "native_account_store_recovery_required" true,
      refuse "native_account_store_busy" false, refuse "native_account_store_apply_failed")
      (planTransaction policy input (env_intent_ms env)) s Hrest) as (r & Hr & Hpost);
      [done|apply planTransaction_answer|]. simpl in Hr. rewrite Hr. change (match r with StoreApplied _ _ _ => true | _ => false end) with (is_applied r).
    by destruct (planTransaction _ _ _ _) as [[i r']|r'|e].
  - destruct (framed_post is_block_applied env (refuseBlock "native_account_store_recovery_required" true,
      refuseBlock "native_account_store_busy" false, refuseBlock "native_account_store_block_apply_failed")
      (planBlock policy input (env_intent_ms env)) s Hrest) as (r & Hr & Hpost);
      [done|apply planBlock_answer|]. simpl in Hr. rewrite Hr. change (match r with BlockStoreApplied _ _ _ _ _ => true | _ => false end) with (is_block_applied r).
    by destruct (planBlock _ _ _ _) as [[i r']|r'|e].
Qed.

Lemma framed_blocked {R} env (recovery busy : R) failed plan s :
  exists_file (fs_intent s) || exists_file (fs_lock s) = true ->
  exists r, applyFramed policy env recovery busy failed plan s = ([], Ok r, s) /\ (r = recovery \/ r = busy).
Proof using Type.
  intros Hb. unfold applyFramed, mbind at 1, io_bind at 1, io_get at 1.
  destruct (exists_file (fs_intent s)); [eexists; split; [done|by left]|]. cbn [orb] in Hb. rewrite Hb.
  eexists. split; [done|by right].
Qed.

(** Under a lock or an intent a call does nothing. *)
Lemma apply_blocked c s : exists_file (fs_intent s) || exists_file (fs_lock s) = true ->
  apply_trace policy c s = [] /\ apply_final policy c s = s /\ applied policy c s = false.
Proof using Type.
  intros Hb. destruct c as [env input|env input];
    unfold apply_trace, apply_final, applied, applyOnce, applyBlockOnce, io_trace, io_final, io_result.
  - destruct (framed_blocked env (refuse "native_account_store_recovery_required" true)
      (refuse "native_account_store_busy" false) (refuse "native_account_store_apply_failed")
      (planTransaction policy input (env_intent_ms env)) s Hb) as (r & -> & [-> | ->]); done.
  - destruct (framed_blocked env (refuseBlock "native_account_store_recovery_required" true)
      (refuseBlock "native_account_store_busy" false) (refuseBlock "native_account_store_block_apply_failed")
      (planBlock policy input (env_intent_ms env)) s Hb) as (r & -> & [-> | ->]); done.
Qed.

Lemma locked_rest_idle s s' : at_rest policy s -> locked_rest s s' -> fs_lock s' = None -> s' = s.
Proof using Type.
  intros Hrest Hlr Hl. unfold locked_rest in Hlr. rewrite Hl in Hlr. rewrite Hlr.
  pose proof (rest_lock _ _ Hrest) as Hl'. destruct s. simpl in *. by subst.
Qed.

Lemma recoverable_idle s : recoverable policy s -> exists_file (fs_intent s) || exists_file (fs_lock s) = false ->
  at_rest policy s.
Proof using Type.
  intros (_ & s0 & Hrest & Hcase) Hidle. apply orb_false_iff in Hidle as [Hi Hl].
  assert (fs_lock s = None) as Hl' by (by destruct (fs_lock s)).
  assert (fs_intent s = None) as Hi' by (by destruct (fs_intent s)).
  destruct Hcase as [Hlr|(f & i & Hf & Hok & Hst & Hfit)].
  - by rewrite (locked_rest_idle _ _ Hrest Hlr Hl').
  - destruct (stage_settled policy s0 f i Hrest Hf Hok _ _ Hst Hfit Hi') as [_ Hr].
    by replace s with (set_lock None s) by (destruct s; simpl in *; by subst).
Qed.

Lemma recoverable_rest s : at_rest policy s -> recoverable policy s.
Proof using Type.
  intros Hrest. split; [by rewrite (rest_lock _ _ Hrest)|]. exists s. split; [done|left].
  unfold locked_rest. by destruct s.
Qed.

(** A commit that a call begins leads through recoverable stores. *)
Lemma commit_stage_recoverable c s i s' : at_rest policy s -> env_ok (call_env c) -> clash_free policy c s = true ->
  planned policy c s = Some i -> commit_stage policy s i s' -> lock_wf (fs_lock s') -> recoverable policy s'.
Proof using All.
  intros Hrest Henv Hfree Hp Hst Hlk. destruct (rest_snapshot _ _ Hrest) as (f & Hf & _).
  split; [done|]. exists s. split; [done|]. right. exists f, i. by split; [|split; [apply (planned_clean c)|]].
Qed.

Lemma apply_step_recoverable c s s' : recoverable policy s -> env_ok (call_env c) -> clash_free policy c s = true ->
  s' = apply_final policy c s \/ s' ∈ apply_trace policy c s -> recoverable policy s'.
Proof using All.
  intros Hr Henv Hfree Hs'. destruct (exists_file (fs_intent s) || exists_file (fs_lock s)) eqn:Hidle.
  { destruct (apply_blocked c s Hidle) as (Ht & Hf & _). rewrite Ht, Hf in Hs'. destruct Hs' as [->|Hin]; [done|].
    by apply not_elem_of_nil in Hin. }
  pose proof (recoverable_idle s Hr Hidle) as Hrest. destruct Hs' as [->|Hin].
  - pose proof (apply_final_post c s Hrest) as Hpost. destruct (planned policy c s) as [i|] eqn:Hp.
    + destruct Hpost as (Hst & Hfit & _). pose proof (stage_fs_lock _ _ _ _ Hst) as Hl.
      eapply commit_stage_recoverable; [done..| |by rewrite Hl]. split; [by rewrite Hl|done].
    + by destruct Hpost as [-> _].
  - apply apply_trace_crash in Hin as [Hlk [Hlr|(i & Hp & Hst)]]; [| |done].
    + split; [by eapply lock_by_wf|]. exists s. by split; [|left].
    + eapply commit_stage_recoverable; [done..|]. by eapply lock_by_wf.
Qed.

Lemma recovery_step_recoverable r s s' : recoverable policy s -> call_ok policy (Recover r) ->
  s' = io_final (recovery r) s \/ s' ∈ io_trace (recovery r) s -> recoverable policy s'.
Proof using All.
  intros (Hlk & s0 & Hrest & Hcase) [Henv Hpol] Hs'.
  assert (forall J good clear, wp (recovery r) (recovery_crash J (rc_env r) (fs_lock s))
    (recovery_post J good (fs_lock s) clear) s -> J s' /\ lock_wf (fs_lock s')) as Hwp.
  { intros J good clear [Htr Hpost]. rewrite Forall_forall in Htr. destruct Hs' as [->|Hin].
    - destruct Hpost as (HJ & Hl & _). split; [done|]. by destruct Hl as [-> | ->].
    - destruct (Htr s' Hin) as [HJ Hl]. split; [done|]. destruct Hl as [->|Hl]; [done|by eapply lock_by_wf]. }
  destruct Hcase as [Hlr|(f & i & Hf & Hok & Hst)].
  - destruct (Hwp _ _ _ (rest_recover_wp policy s0 (rc_policy r) (rc_confirmation r) (rc_now_ms r) (rc_date_now r)
      (rc_alive r) (rc_env r) s Hrest Hpol Hlr)) as [HJ Hl]. split; [done|]. exists s0. by split; [|left].
  - destruct (Hwp _ _ _ (stage_recover_wp policy s0 f i (rc_policy r) (rc_confirmation r) (rc_now_ms r) (rc_date_now r)
      (rc_alive r) (rc_env r) s Hrest Hf Hok Hpol Hst)) as [HJ Hl]. split; [done|]. exists s0.
    split; [done|]. right. eauto.
Qed.

Lemma step_recoverable s s' : recoverable policy s -> clean_step policy s s' -> recoverable policy s'.
Proof using All.
  intros Hr [[c|r] Hc Hfree|[c|r] s2 Hc Hfree Hin]; simpl in *.
  - eapply apply_step_recoverable; eauto.
  - eapply recovery_step_recoverable; eauto.
  - eapply apply_step_recoverable; eauto.
  - eapply recovery_step_recoverable; eauto.
Qed.

Lemma steps_recoverable s s' : recoverable policy s -> rtc (clean_step policy) s s' -> recoverable policy s'.
Proof using All. intros Hr Hs. induction Hs as [s|s s1 s' H1 _ IH]; [done|]. apply IH. by eapply step_recoverable. Qed.

(** ** A killed call *)

(** The stores that a call on [s] leaves when it is killed, and recoveries of them that are
    killed in turn. *)
Inductive crashed (c : apply_call) (s : fs) : fs -> Prop :=
| crashed_call s' : s' ∈ apply_trace policy c s -> crashed c s s'
| crashed_recovery r s1 s' : crashed c s s1 -> call_ok policy (Recover r) -> s' ∈ io_trace (recovery r) s1 ->
    crashed c s s'.

Definition may_run (r : recover_call) (s : fs) : bool :=
  may_recover policy (rc_confirmation r) (rc_now_ms r) (rc_date_now r) (rc_alive r) (fs_lock s).

Lemma crashed_stage c s s' : at_rest policy s -> env_ok (call_env c) -> clash_free policy c s = true -> crashed c s s' ->
  locked_rest s s' \/
  (exists f i, fs_snapshot s = Some f /\ planned policy c s = Some i /\ intent_ok policy s (file_value f) i /\
    commit_stage policy s i s').
Proof using All.
  intros Hrest Henv Hfree Hc. induction Hc as [s' Hin|r s1 s' _ IH [Henvr Hpol] Hin].
  - apply apply_trace_crash in Hin as [_ [Hlr|(i & Hp & Hst)]]; [by left| |done].
    destruct (rest_snapshot _ _ Hrest) as (f & Hf & _). right. exists f, i.
    by split; [|split; [|split; [apply (planned_clean c)|]]].
  - destruct IH as [Hlr|(f & i & Hf & Hp & Hok & Hst)]; [left|right].
    + destruct (rest_recover_wp policy s (rc_policy r) (rc_confirmation r) (rc_now_ms r) (rc_date_now r)
        (rc_alive r) (rc_env r) s1 Hrest Hpol Hlr) as [Htr _]. rewrite Forall_forall in Htr. by apply Htr.
    + exists f, i. split; [done|]. split; [done|]. split; [done|].
      destruct (stage_recover_wp policy s f i (rc_policy r) (rc_confirmation r) (rc_now_ms r) (rc_date_now r)
        (rc_alive r) (rc_env r) s1 Hrest Hf Hok Hpol Hst) as [Htr _]. rewrite Forall_forall in Htr. by apply Htr.
Qed.

(** C2: A call of the store is atomic under crashes.  Take a store at rest and a call that
    applies a transfer or a block and is killed after any of its system calls, followed by
    any number of recoveries that are killed the same way.  The digests of the commit that
    the call makes do not collide with those of the present snapshot and journal
    ([clash_free], a check on this call and this store), and the journal has room for the
    entry of that commit.  Then a recovery that is allowed to run (exact confirmation, no
    lock or the stale lock of a dead process) succeeds; it leaves a store at rest again, and
    that store is either the one before the call, byte for byte, or the one after the
    complete commit with its journal entry. *)
Theorem crash_atomic (c : apply_call) (s s' : fs) (r : recover_call) :
  at_rest policy s -> env_ok (call_env c) -> clash_free policy c s = true -> crashed c s s' ->
  call_ok policy (Recover r) -> may_run r s' = true ->
  (forall i, planned policy c s = Some i -> room policy s i) ->
  recovered (io_result (recovery r) s') /\ at_rest policy (io_final (recovery r) s') /\
  (io_final (recovery r) s' = s \/
   exists i, planned policy c s = Some i /\ io_final (recovery r) s' = committed s i).
Proof using All.
  intros Hrest Henv Hfree Hc [Henvr Hpol] Hmay Hroom.
  assert (forall x, fs_lock x = None -> set_lock None x = x) as Hid by (by intros [] [= ->]).
  destruct (crashed_stage c s s' Hrest Henv Hfree Hc) as [Hlr|(f & i & Hf & Hp & Hok & Hst)].
  - destruct (rest_recover_wp policy s (rc_policy r) (rc_confirmation r) (rc_now_ms r) (rc_date_now r)
      (rc_alive r) (rc_env r) s' Hrest Hpol Hlr) as [_ (Hlr' & _ & Hend)].
    destruct (Hend Hmay I) as (Hrec & Hl & _). fold (recovery r) in *.
    rewrite (locked_rest_idle _ _ Hrest Hlr' Hl). by split; [|split; [|left]].
  - destruct (stage_recover_wp policy s f i (rc_policy r) (rc_confirmation r) (rc_now_ms r) (rc_date_now r)
      (rc_alive r) (rc_env r) s' Hrest Hf Hok Hpol Hst) as [_ ([Hst' Hfit'] & _ & Hend)].
    destruct (Hend Hmay (Hroom i Hp)) as (Hrec & Hl & Hnone). fold (recovery r) in *.
    destruct (stage_settled policy s f i Hrest Hf Hok _ _ Hst' Hfit' Hnone) as [Hcase Hr].
    rewrite (Hid _ Hl) in *. split; [done|]. split; [done|]. destruct Hcase as [?|?]; [by left|right; eauto].
Qed.

(** C26: Nothing that calls of the store do breaks it: from a store at rest, after any
    sequence of transfers, blocks and recoveries with arbitrary arguments, each of them
    completed or killed after any of its system calls, the store is at rest up to its lock
    file or a stage of one commit from a store at rest, with a lock file that is absent,
    empty or a valid record; its snapshot is well formed and readable.  The calls of the
    sequence are those whose own commit, on the store they find, does not collide with the
    digests of that store's snapshot and journal ([clean_step]). *)
Theorem store_always_recoverable (s0 s : fs) :
  at_rest policy s0 -> rtc (clean_step policy) s0 s ->
  recoverable policy s /\ exists x, readSnapshot s policy = Ok x /\ snapshot_ok policy x.
Proof using All.
  intros Hrest Hs. pose proof (steps_recoverable s0 s (recoverable_rest s0 Hrest) Hs) as Hr.
  split; [done|]. destruct Hr as (_ & s1 & Hrest1 & [Hlr|(f & i & Hf & Hok & Hst & Hfit)]).
  - pose proof (at_rest_fits _ _ Hrest1) as [Hfs _ _]. destruct (rest_snapshot _ _ Hrest1) as (f & Hf & Hok & _).
    exists (file_value f). split; [|done]. rewrite Hlr. apply readSnapshot_ok; auto.
  - destruct (stage_snapshot policy s1 f i Hrest1 Hf Hok _ _ Hst Hfit) as (g & _ & Hg & Hread & _). eauto.
Qed.

(** ** Requests that were applied *)

Definition snapshot_keys (s : fs) : list string :=
  match fs_snapshot s with Some f => applied_keys (file_value f) | None => [] end.

(** The key of the request is among the applied transactions, or a block entry carries it. *)
Definition spent (c : apply_call) (s : fs) : Prop :=
  match c with
  | ApplyTransfer _ input =>
      exists request, validateApplyRequest input = Ok request /\
        ar_idempotency_key_sha256 request ∈ snapshot_keys s
  | ApplyBlock _ input =>
      exists request b, validateBlockApplyRequest input = Ok request /\
        BlockEntry b ∈ jr_entries (journal_of s) /\
        be_block_idempotency_key_sha256 b = bq_block_idempotency_key_sha256 request
  end.

(** What every step keeps: the applied keys and the entries only grow. *)
Definition extends (s s' : fs) : Prop :=
  snapshot_keys s ⊆ snapshot_keys s' /\ jr_entries (journal_of s) `prefix_of` jr_entries (journal_of s').

Lemma extends_refl s lk : extends s (set_lock lk s).
Proof using Type. by split. Qed.

Lemma extends_trans s1 s2 s3 : extends s1 s2 -> extends s2 s3 -> extends s1 s3.
Proof using Type. clear. intros [H1 H2] [H3 H4]. split; by etransitivity. Qed.

Lemma spent_extends c s s' : spent c s -> extends s s' -> spent c s'.
Proof using Type.
  clear DigestShape0 EthersLaws0 LocaleLaws0. intros Hs [Hk Hj]. destruct c; [destruct Hs as (r & Hv & Hin)|destruct Hs as (r & b & Hv & Hin & Hb)].
  - exists r. split; [done|by apply Hk].
  - exists r, b. split; [done|]. split; [by eapply elem_of_prefix|done].
Qed.

(** The stages of a commit extend the store it starts from. *)
Lemma stage_extends s f i lk s' : fs_snapshot s = Some f -> intent_ok policy s (file_value f) i ->
  stage s i lk s' -> extends s s'.
Proof using Type.
  intros Hf Hok Hst. assert (snapshot_keys s ⊆ applied_keys (it_post_snapshot i)) as Hkeys.
  { unfold snapshot_keys. rewrite Hf. intros k. apply (iok_applied _ _ _ _ Hok). }
  destruct Hst as [|nx Hnx|j Hj| |]; (split; [done|]); unfold journal_of at 2; simpl; try done.
  - by destruct Hj as [-> | ->].
  - by exists [it_journal_entry i].
  - by exists [it_journal_entry i].
Qed.

(** Recovery never writes the snapshot and only appends to the journal. *)
Lemma recoverLocked_extends s0 stale s : fs_snapshot s = fs_snapshot s0 /\ extends s0 s ->
  wp (recoverLocked policy stale) (fun s' => (fs_snapshot s' = fs_snapshot s0 /\ extends s0 s') /\ fs_lock s' = fs_lock s)
    (fun r s' => (fs_snapshot s' = fs_snapshot s0 /\ extends s0 s') /\ fs_lock s' = fs_lock s /\ (False -> recovered r /\ fs_intent s' = None)) s.
Proof using Type.
  intros [Hs [Hk Hj]]. assert (forall nx it j, jr_entries (journal_of s0) `prefix_of`
      jr_entries (match j with Some x => x | None => mkJournal [] 0 end) ->
    (fs_snapshot (mkFs (fs_snapshot s) nx it j (fs_lock s)) = fs_snapshot s0 /\
     extends s0 (mkFs (fs_snapshot s) nx it j (fs_lock s)))) as Hext by (intros; by split; [|split]).
  destruct s as [snap nx it j lk]. simpl in *. unfold recoverLocked. do 2 wp_step.
  destruct it as [it|]; [|apply wp_ret; split; [by apply Hext|done]].
  apply wp_bind, wp_call. destruct (readJsonFile _ _); [|by split; [apply Hext|]].
  apply wp_bind, wp_call. destruct (validateIntent _ _) as [i|]; [|by split; [apply Hext|]].
  apply wp_bind, wp_call. destruct (readSnapshot _ _) as [x|]; [|by split; [apply Hext|]].
  unfold settleIntent. destruct (String.eqb _ _); [|destruct (String.eqb _ _); [|apply wp_ret; by split; [apply Hext|]]].
  - apply wp_bind, wp_discardIntent; [by split; [apply Hext|]..|]. apply wp_ret. by split; [apply Hext|].
  - do 2 wp_step. apply wp_bind, wp_call. destruct (readJournal _ _) as [entries|]; [|by split; [apply Hext|]].
    apply wp_bind. destruct (journalHasCommit _ _).
    + apply wp_ret, wp_bind, wp_discardIntent; [by split; [apply Hext|]..|]. apply wp_ret. by split; [apply Hext|].
    + apply wp_bind, wp_appendJournal; [by split; [apply Hext|]|]. intros _. unfold set_journal, journal_of in *. simpl in *.
      assert (jr_entries (match fs_journal s0 with Some x => x | None => mkJournal [] 0 end) `prefix_of`
        jr_entries (match j with Some x => x | None => mkJournal [] 0 end) ++ [it_journal_entry i]) as Hj'
        by (by apply prefix_app_r).
      split; [by split; [apply Hext|]|]. split; [by split; [apply Hext|]|].
      apply wp_ret, wp_bind, wp_discardIntent; [by split; [apply Hext|]..|]. apply wp_ret. by split; [apply Hext|].
Qed.

Lemma recovery_extends r s s' : call_ok policy (Recover r) -> is_Some (fs_snapshot s) ->
  s' = io_final (recovery r) s \/ s' ∈ io_trace (recovery r) s -> extends s s'.
Proof using Type.
  intros [_ Hpol] Hsnap Hs'.
  destruct (recover_wp policy (fun s' => fs_snapshot s' = fs_snapshot s /\ extends s s') False) with
    (praw := rc_policy r) (confirmation := rc_confirmation r) (now_ms := rc_now_ms r) (date_now := rc_date_now r)
    (alive := rc_alive r) (env := rc_env r) (s := s) as [Htr Hpost]; try done.
  - intros s1 [-> _]. done.
  - intros stale s1. apply recoverLocked_extends.
  - rewrite Forall_forall in Htr. destruct Hs' as [->|Hin]; [by destruct Hpost as [[_ ?] _]|].
    by destruct (Htr s' Hin) as [[_ ?] _].
Qed.

Lemma recoverable_snapshot s : recoverable policy s -> is_Some (fs_snapshot s).
Proof using All.
  intros (_ & s0 & Hrest & [->|(f & i & Hf & Hok & Hst & Hfit)]).
  - destruct (rest_snapshot _ _ Hrest) as (f & Hf & _). by exists f.
  - destruct (stage_snapshot policy s0 f i Hrest Hf Hok _ _ Hst Hfit) as (g & Hg & _). by exists g.
Qed.

Lemma apply_extends c s s' : recoverable policy s -> env_ok (call_env c) -> clash_free policy c s = true ->
  s' = apply_final policy c s \/ s' ∈ apply_trace policy c s -> extends s s'.
Proof using All.
  intros Hr Henv Hfree Hs'. destruct (exists_file (fs_intent s) || exists_file (fs_lock s)) eqn:Hidle.
  { destruct (apply_blocked c s Hidle) as (Ht & Hf & _). rewrite Ht, Hf in Hs'. destruct Hs' as [->|Hin]; [done|].
    by apply not_elem_of_nil in Hin. }
  pose proof (recoverable_idle s Hr Hidle) as Hrest. destruct (rest_snapshot _ _ Hrest) as (f & Hf & _).
  assert (forall i lk, planned policy c s = Some i -> stage s i lk s' -> extends s s') as Hstage.
  { intros i lk Hp Hst. pose proof (planned_clean c s i f Hrest Hf Henv Hp Hfree). by eapply stage_extends. }
  destruct Hs' as [->|Hin].
  - pose proof (apply_final_post c s Hrest) as Hpost. destruct (planned policy c s) as [i|] eqn:Hp.
    + destruct Hpost as (Hst & _). by eapply Hstage.
    + by destruct Hpost as [-> _].
  - apply apply_trace_crash in Hin as [_ [->|(i & Hp & Hst & _)]]; [by apply extends_refl|by eapply Hstage|done].
Qed.

Lemma clean_extends s s' : recoverable policy s -> clean_step policy s s' -> extends s s'.
Proof using All.
  intros Hr [[a|r] Hc Hfree|[a|r] s2 Hc Hfree Hin]; simpl in *; [by eapply apply_extends; eauto| |by eapply apply_extends; eauto|];
    eapply recovery_extends; eauto; by apply recoverable_snapshot.
Qed.

Lemma steps_spent c s s' : recoverable policy s -> rtc (clean_step policy) s s' -> spent c s ->
  recoverable policy s' /\ spent c s'.
Proof using All.
  intros Hr Hs. induction Hs as [s|s s1 s' H1 _ IH]; intros Hsp; [done|]. apply IH; [by eapply step_recoverable|].
  eapply spent_extends; [done|]. by apply clean_extends.
Qed.

Definition same_request (c c' : apply_call) : Prop :=
  match c, c' with
  | ApplyTransfer _ i, ApplyTransfer _ i' => i = i'
  | ApplyBlock _ i, ApplyBlock _ i' => i = i'
  | _, _ => False
  end.

(** A spent request plans nothing. *)
Lemma spent_not_planned c c' s : at_rest policy s -> same_request c c' -> spent c s -> planned policy c' s = None.
Proof using All.
  intros Hrest Hsame Hsp. destruct (rest_snapshot _ _ Hrest) as (f & Hf & _).
  destruct c as [env input|env input], c' as [env' input'|env' input']; simpl in Hsame; try done; subst input'; simpl.
  - destruct (planTransaction _ _ _ _) as [[i r]|r|e] eqn:Hp; [exfalso|done..].
    apply (planTransaction_Next policy s f Hrest Hf) in Hp as (q & Hv & Hq & _).
    destruct Hsp as (q' & Hv' & Hin). assert (q' = q) as -> by congruence. apply (tp_new _ _ _ Hq).
    unfold snapshot_keys in Hin. by rewrite Hf in Hin.
  - destruct (planBlock _ _ _ _) as [[i r]|r|e] eqn:Hp; [exfalso|done..].
    apply (planBlock_Next policy s f Hrest Hf) in Hp as (q & Hv & Hq & _).
    destruct Hsp as (q' & b & Hv' & Hin & Hb). assert (q' = q) as -> by congruence.
    by apply (findBlock_None _ _ _ (bpl_new _ _ _ Hq) Hin).
Qed.

(** A complete commit spends its request. *)
Lemma committed_spent c s i : at_rest policy s -> planned policy c s = Some i -> spent c (committed s i).
Proof using All.
  intros Hrest. destruct (rest_snapshot _ _ Hrest) as (f & Hf & _). destruct c as [env input|env input]; simpl.
  - destruct (planTransaction _ _ _ _) as [[i' r]|r|e] eqn:Hp; [intros [= ->]|discriminate..].
    apply (planTransaction_Next policy s f Hrest Hf) in Hp as (q & Hv & Hq & Hi & _). exists q. split; [done|].
    rewrite Hi. unfold snapshot_keys, applied_keys. simpl. rewrite map_app. set_solver.
  - destruct (planBlock _ _ _ _) as [[i' r]|r|e] eqn:Hp; [intros [= ->]|discriminate..].
    apply (planBlock_Next policy s f Hrest Hf) in Hp as (q & Hv & Hq & Hi & _).
    exists q, (blockCommit (file_value f) q).2. split; [done|]. split; [|done]. rewrite Hi. simpl. set_solver.
Qed.

(** C4: A request is applied at most once in the life of a store.  When a call has answered
    that it applied its transfer or block, then on every store reached by any further calls,
    completed or killed, the same request from any process is not applied again: it leaves
    the files as they are and does not answer that it was applied.  The call and those that
    follow are ones whose own commit, on the store they find, does not collide with the
    digests of that store's snapshot and journal ([clash_free], [clean_step]); the repeated
    request needs no such condition. *)
Theorem applied_at_most_once (c c' : apply_call) (s s' : fs) :
  at_rest policy s -> env_ok (call_env c) -> clash_free policy c s = true -> applied policy c s = true ->
  rtc (clean_step policy) (apply_final policy c s) s' -> same_request c c' ->
  apply_final policy c' s' = s' /\ applied policy c' s' = false.
Proof using All.
  intros Hrest Henv Hfree Happ Hs Hsame. pose proof (apply_final_post c s Hrest) as Hpost.
  destruct (planned policy c s) as [i|] eqn:Hp; [|destruct Hpost; congruence].
  destruct Hpost as (_ & _ & [[_ Hfin]|[? _]]); [|congruence].
  pose proof (apply_step_recoverable c s (apply_final policy c s) (recoverable_rest s Hrest) Henv Hfree (or_introl eq_refl)) as Hr.
  assert (spent c (apply_final policy c s)) as Hsp by (rewrite Hfin; by apply committed_spent).
  destruct (steps_spent c _ _ Hr Hs Hsp) as [Hr' Hsp'].
  destruct (exists_file (fs_intent s') || exists_file (fs_lock s')) eqn:Hidle; [by destruct (apply_blocked c' s' Hidle) as (_ & ? & ?)|].
  pose proof (recoverable_idle s' Hr' Hidle) as Hrest'. pose proof (apply_final_post c' s' Hrest') as Hpost'.
  by rewrite (spent_not_planned c c' s' Hrest' Hsame Hsp') in Hpost'.
Qed.

(** ** Where a store gets stuck *)

(** The trace of a sequence begins with that of its head. *)
Lemma trace_bind {A B} (m : io A) (f : A -> io B) s x : x ∈ io_trace m s -> x ∈ io_trace (m ≫= f) s.
Proof using Type.
  unfold io_trace, mbind, io_bind. destruct (m s) as [[tr [a|e]] s']; simpl; [|done].
  destruct (f a s') as [[tr' r] s'']. simpl. intros Hx. apply elem_of_app. by left.
Qed.

Lemma trace_get {B} (f : fs -> io B) s : io_trace (io_get ≫= f) s = io_trace (f s) s.
Proof using Type. unfold io_trace, mbind, io_bind, io_get. by destruct (f s s) as [[tr r] s']. Qed.

Lemma trace_try {A} (m : io A) s : io_trace (io_try m) s = io_trace m s.
Proof using Type. unfold io_trace, io_try. by destruct (m s) as [[tr r] s']. Qed.

(** Every call on a store at rest first creates the lock file, still empty. *)
Lemma lock_created c s : at_rest policy s -> set_lock (Some None) s ∈ apply_trace policy c s.
Proof using Type.
  intros Hrest. pose proof (rest_intent _ _ Hrest) as Hi. pose proof (rest_lock _ _ Hrest) as Hl.
  assert (forall R env (recovery busy : R) failed plan,
    set_lock (Some None) s ∈ io_trace (applyFramed policy env recovery busy failed plan) s) as Hany; [|by destruct c; apply Hany].
  intros R env rec busy failed plan. unfold applyFramed. rewrite trace_get, Hi, Hl. cbn [exists_file].
  apply trace_bind. rewrite trace_try. unfold writeLock. rewrite trace_get, Hl. cbn [exists_file].
  apply trace_bind. left.
Qed.

Lemma empty_lock_recovery r s : fs_lock s = Some None ->
  wp (recovery r) (fun _ => False) (fun _ s' => s' = s) s.
Proof using Type.
  intros Hl. unfold recovery, recoverVoidNativeAccountStateStoreV1. destruct (text_neq _ _); [by apply wp_ret|].
  apply wp_bind, wp_try. unfold recoverBody. apply wp_bind, wp_call. destruct (normalizePolicy _); [|by apply wp_ret].
  destruct (match rc_now_ms r with Some n => _ | None => _ end) as [now|]; [|by apply wp_throw, wp_ret].
  destruct (negb (is_safe_integer now) || (now <=? 0)); [by apply wp_throw, wp_ret|].
  do 2 wp_step. destruct (exists_file (fs_snapshot s)); cbn [negb]; [|by apply wp_throw, wp_ret].
  apply wp_bind. unfold removeStaleLock. do 2 wp_step. rewrite Hl. apply wp_bind, wp_call. by apply wp_ret.
Qed.

Lemma empty_lock_step s s' : fs_lock s = Some None -> store_step policy s s' -> s' = s.
Proof using Type.
  intros Hl [c _|c s2 _ Hin]; destruct c as [a|r]; simpl in *.
  - apply apply_blocked. by rewrite Hl, orb_true_r.
  - apply (empty_lock_recovery r s Hl).
  - destruct (apply_blocked a s) as (Ht & _); [by rewrite Hl, orb_true_r|]. rewrite Ht in Hin. by apply not_elem_of_nil in Hin.
  - destruct (empty_lock_recovery r s Hl) as [Htr _]. rewrite Forall_forall in Htr. by destruct (Htr s2 Hin).
Qed.

(** C39: A call that is killed between the creation of the lock file and the write of its
    record stops the store for good: that state exists for every call on a store at rest,
    and no sequence of calls and recoveries, whatever their arguments and however much later,
    ever changes a file of the store again. *)
Theorem empty_lock_is_permanent (c : apply_call) (s s' : fs) :
  at_rest policy s ->
  set_lock (Some None) s ∈ apply_trace policy c s /\
  (rtc (store_step policy) (set_lock (Some None) s) s' -> s' = set_lock (Some None) s).
Proof using Type.
  intros Hrest. split; [by apply lock_created|]. intros Hs.
  remember (set_lock (Some None) s) as x eqn:Hx. assert (fs_lock x = Some None) as Hl by (by rewrite Hx). clear Hx.
  induction Hs as [|x y z Hxy _ IH]; [done|]. apply empty_lock_step in Hxy as ->; [|done]. by apply IH.
Qed.

(** The store after a commit whose journal entry did not fit. *)
Definition unjournaled (s : fs) (i : Intent) (s' : fs) : Prop :=
  fs_snapshot s' = Some (snapshot_file (it_post_snapshot i)) /\ fs_snapshot_next s' = None /\
  fs_intent s' = Some (intent_file i) /\ journal_of s' = journal_of s.

Lemma runCommit_full {R} (answer : R) failed s i lk : fs_snapshot_next s = None ->
  file_bytes (intent_json i) <= nsp_max_snapshot_bytes policy ->
  file_bytes (snapshot_json (it_post_snapshot i)) <= nsp_max_snapshot_bytes policy -> ~ room policy s i ->
  wp (runCommit policy i answer failed) (fun _ => True)
    (fun r s' => r = Ok (failed true) /\ unjournaled s i s' /\ fs_lock s' = lk) (set_lock lk s).
Proof using Type.
  intros Hn Hli Hls Hroom. destruct s as [snap nx it j lk0]. simpl in Hn. subst nx. wp_simpl. unfold runCommit.
  do 2 wp_step. apply wp_atomicWrite; [lia|]. intros _. split; [done|]. wp_step. wp_step. unfold publishCommit.
  wp_step. apply wp_atomicWrite; [lia|]. intros _. split; [done|]. wp_simpl. do 2 wp_step; [done|]. wp_step.
  apply wp_appendJournal; [|intros Hok; exfalso; by apply Hroom]. intros _. apply wp_ret. by repeat split.
Qed.

Lemma framed_full {R} env (answers : R * R * (bool -> R)) (plan : fs -> flow R (Intent * R)) s i r :
  at_rest policy s -> plan (under_lock env s) = Next (i, r) ->
  file_bytes (intent_json i) <= nsp_max_snapshot_bytes policy ->
  file_bytes (snapshot_json (it_post_snapshot i)) <= nsp_max_snapshot_bytes policy -> ~ room policy s i ->
  wp (applyFramed policy env answers.1.1 answers.1.2 answers.2 plan) (fun _ => True)
    (fun r s' => r = Ok (answers.2 true) /\ unjournaled s i s') s.
Proof using Type.
  intros Hrest Hp Hli Hls Hroom. pose proof Hrest as [_ Hn Hi Hl _ _ _ _ _]. unfold applyFramed. do 2 wp_step.
  rewrite Hi, Hl. wp_simpl. wp_step. wp_step. apply wp_writeLock; try done. do 3 wp_step.
  change (mkFs _ _ _ _ _) with (under_lock env s). rewrite Hp.
  eapply wp_mono; [| |by apply (runCommit_full r answers.2 s i (Some (Some (lockRecord env))))]; [done|].
  intros r' s' (-> & (H1 & H2 & H3 & H4) & _). apply wp_releaseLock; [done|]. by repeat split.
Qed.

Lemma apply_full c s i : at_rest policy s -> planned policy c s = Some i ->
  file_bytes (intent_json i) <= nsp_max_snapshot_bytes policy ->
  file_bytes (snapshot_json (it_post_snapshot i)) <= nsp_max_snapshot_bytes policy -> ~ room policy s i ->
  applied policy c s = false /\ unjournaled s i (apply_final policy c s).
Proof using Type.
  intros Hrest Hp Hli Hls Hroom. destruct c as [env input|env input]; simpl in *.
  - destruct (planTransaction _ _ _ _) as [[i' r]|r|e] eqn:Hplan; [injection Hp as ->|discriminate..].
    destruct (framed_full env (refuse "native_account_store_recovery_required" true,
      refuse "native_account_store_busy" false, refuse "native_account_store_apply_failed") _ s i r Hrest Hplan Hli Hls Hroom)
      as [_ [Hr Hu]]. split; [|exact Hu]. unfold applyOnce. simpl in Hr. by rewrite Hr.
  - destruct (planBlock _ _ _ _) as [[i' r]|r|e] eqn:Hplan; [injection Hp as ->|discriminate..].
    destruct (framed_full env (refuseBlock "native_account_store_recovery_required" true,
      refuseBlock "native_account_store_busy" false, refuseBlock "native_account_store_block_apply_failed") _ s i r Hrest Hplan Hli Hls Hroom)
      as [_ [Hr Hu]]. split; [|exact Hu]. unfold applyBlockOnce. simpl in Hr. by rewrite Hr.
Qed.

Section full_journal.
Context (s : fs) (f : file Snapshot) (i : Intent).
Context (Hrest : at_rest policy s) (Hf : fs_snapshot s = Some f) (Hi : intent_ok policy s (file_value f) i).
Context (Hli : file_bytes (intent_json i) <= nsp_max_snapshot_bytes policy).
Context (Hls : file_bytes (snapshot_json (it_post_snapshot i)) <= nsp_max_snapshot_bytes policy).
Context (Hfull : ~ room policy s i).

(** Recovery finds the commit, cannot append its entry, and leaves everything as it is. *)
Lemma recoverLocked_full stale s' : unjournaled s i s' ->
  wp (recoverLocked policy stale) (fun s'' => unjournaled s i s'' /\ fs_lock s'' = fs_lock s')
    (fun r s'' => unjournaled s i s'' /\ fs_lock s'' = fs_lock s' /\ (False -> recovered r /\ fs_intent s'' = None)) s'.
Proof using All.
  intros Hu. pose proof Hu as (Hs & Hn & Hit & Hj). destruct s' as [snap nx it j lk]. simpl in Hs, Hn, Hit. subst.
  apply (settle_completes policy s f i Hrest Hf Hi stale j lk _ _ (jr_entries (journal_of s))).
  - pose proof (readJournal_ok policy (mkFs (Some (snapshot_file (it_post_snapshot i))) None (Some (intent_file i)) j lk)) as Hread.
    rewrite Hj in Hread. apply Hread; [apply (rest_journal _ _ Hrest)|apply (rest_journal_size _ _ Hrest)].
  - split; simpl; [by intros ? [= <-]|by intros ? [= <-]|]. rewrite Hj. apply (rest_journal_size _ _ Hrest).
  - rewrite (iok_fresh _ _ _ _ Hi). apply wp_bind, wp_bind, wp_appendJournal; rewrite Hj.
    + intros _. by split.
    + intros Hroom. by destruct (Hfull Hroom).
Qed.

Lemma unjournaled_step s1 s2 : unjournaled s i s1 -> store_step policy s1 s2 -> unjournaled s i s2.
Proof using All.
  intros Hu Hstep. pose proof Hu as (Hs & _ & Hit & _).
  assert (exists_file (fs_intent s1) || exists_file (fs_lock s1) = true) as Hb by (by rewrite Hit).
  assert (forall r, call_ok policy (Recover r) -> wp (recovery r) (unjournaled s i) (fun _ => unjournaled s i) s1) as Hrec.
  { intros r [_ Hpol]. eapply wp_mono; [| |apply (recover_wp policy (unjournaled s i) False)]; try done.
    - by intros ? [? _].
    - by intros ? ? [? _].
    - by intros s3 (-> & _).
    - apply recoverLocked_full. }
  destruct Hstep as [[c|r] Hc|[c|r] s2 Hc Hin]; simpl in *.
  - by destruct (apply_blocked c s1 Hb) as (_ & -> & _).
  - apply (Hrec r Hc).
  - destruct (apply_blocked c s1 Hb) as (Ht & _). rewrite Ht in Hin. by apply not_elem_of_nil in Hin.
  - destruct (Hrec r Hc) as [Htr _]. rewrite Forall_forall in Htr. by apply Htr.
Qed.
End full_journal.

(** The journal limit is checked too late.  When the intent and the snapshot of a commit
    fit and its journal entry does not, the call fails after it has put the new snapshot in
    place.  From then on the store is stuck: after any calls and recoveries the snapshot with
    the changes is still in place, the journal still lacks the entry, and the intent still
    asks for a recovery, so that no call can apply anything.  The digests of the commit do not
    collide with those of the store ([clash_free]). *)
Theorem full_journal_is_permanent (c : apply_call) (s : fs) (i : Intent) :
  at_rest policy s -> env_ok (call_env c) -> clash_free policy c s = true -> planned policy c s = Some i ->
  file_bytes (intent_json i) <= nsp_max_snapshot_bytes policy ->
  file_bytes (snapshot_json (it_post_snapshot i)) <= nsp_max_snapshot_bytes policy -> ~ room policy s i ->
  applied policy c s = false /\
  forall s', rtc (store_step policy) (apply_final policy c s) s' ->
    unjournaled s i s' /\ (forall c', applied policy c' s' = false).
Proof using All.
  intros Hrest Henv Hfree Hp Hli Hls Hroom. destruct (rest_snapshot _ _ Hrest) as (f & Hf & _).
  pose proof (planned_clean c s i f Hrest Hf Henv Hp Hfree) as Hok.
  destruct (apply_full c s i Hrest Hp Hli Hls Hroom) as [Happ Hu]. split; [done|]. intros s' Hs.
  assert (unjournaled s i s') as Hu'.
  { clear -Hu Hs Hrest Hf Hok Hli Hls Hroom DigestShape0 EthersLaws0 LocaleLaws0.
    induction Hs as [|x y z Hxy _ IH]; [done|]. apply IH. by eapply unjournaled_step. }
  split; [done|]. intros c'. destruct Hu' as (_ & _ & Hit & _). apply apply_blocked. by rewrite Hit.
Qed.
End safety.
