(* ===== verification/StoreGenesis.v ===== *)
(** * New account stores

    Initialization of the account store on empty files: it ends with a store at rest, and so
    does every point at which it can be killed once the snapshot is there. *)

From Stdlib Require Import Ascii Sorted.
From S2P Require Import Prelude Js JsText Flow CanonicalJson Sha256 Ledger NativeTransfer ChainBase.
From S2P Require Import AccountSnapshot BlockExecutor AccountStore StoreProtocol StorePlans.

Definition empty_fs : fs := mkFs None None None None None.

Lemma map_res_Forall2 {A B} (f : A -> res B) l l' : map_res f l = Ok l' -> Forall2 (fun a b => f a = Ok b) l l'.
Proof.
  unfold map_res. generalize 0%nat. revert l'. induction l as [|a l IH]; simpl; intros l' n H; [by injection H as <-|].
  inv_ok. constructor; [done|]. by eapply IH.
Qed.

Section genesis.
Context `{D : Digest} `{!DigestShape D} `{E : Ethers} `{!EthersLaws E} `{L : Locale} `{!LocaleLaws L}.
Context (policy : NormalizedStorePolicy).

Lemma genesisLoop_Ok l seen seen' : foldM genesisDuplicateStep seen l = Ok seen' -> NoDup seen ->
  NoDup (seen ++ map sa_address l).
Proof using Type.
  revert seen. induction l as [|a l IH]; simpl; intros seen; [by rewrite app_nil_r|].
  intros (seen1 & H1 & H2)%bind_Ok Hnd. unfold genesisDuplicateStep in H1. inv_ok. apply bool_decide_eq_false in H.
  specialize (IH _ H2). rewrite <- app_assoc in IH. apply IH. by apply NoDup_snoc.
Qed.

Lemma normalizeAccounts_Ok l l' : map_res normalizeAccount l = Ok l' ->
  Forall account_ok l' /\ length l' = length l.
Proof using EthersLaws0.
  intros H%map_res_Forall2. split; [|by apply Forall2_length in H].
  apply Forall_forall. intros a Ha. apply list_elem_of_lookup in Ha as [k Hk].
  destruct (Forall2_lookup_r _ _ _ _ _ H Hk) as (v & _ & Hv). by eapply normalizeAccount_account_ok.
Qed.

Lemma genesisSnapshot_ok genesisId accounts x : 1 <= nsp_max_applied_transactions policy ->
  accounts <> [] -> Z.of_nat (length accounts) <= nsp_max_accounts policy ->
  genesisSnapshot genesisId accounts = Ok x -> snapshot_ok policy x /\ sn_last_commit_id x = None.
Proof using All.
  unfold genesisSnapshot. intros Hmax Hne Hlen Hx. apply bind_Ok in Hx as (x0 & Hn & Hx).
  apply bind_Ok in Hx as (seen & Hd & [= <-]). destruct (normalizeAccounts_Ok _ _ Hn) as [Hok Hl].
  apply genesisLoop_Ok in Hd; [|constructor]. simpl in Hd.
  assert (sort_accounts x0 ≡ₚ x0) as Hp by apply sort_by_address_perm. split; [|done].
  apply createSnapshot_ok; try rewrite Hp; try done; try constructor; try (simpl; lia).
  - apply safe_id_digest; [apply sha256_hex64|done|simpl; lia].
  - intros Hnil. rewrite Hnil in Hp. apply Permutation_nil_l in Hp. subst x0. simpl in Hl.
    by destruct accounts.
Qed.

Lemma TRANSACTION_HASH_digest v : TRANSACTION_HASH ("0x" +:+ sha256 v) = true.
Proof using DigestShape0. apply is_0x_hex_iff. eexists. split; [done|]. apply sha256_hex64. Qed.

Lemma genesisEntry_ok genesisId x : snapshot_ok policy x ->
  entry_ok (TransactionEntry (genesisEntry genesisId (sn_state_version x) x)).
Proof using DigestShape0.
  intros Hx. unfold entry_ok, validateJournalEntry, entry_identity, validTransactionEntry.
  cbn [genesisEntry te_marker te_version te_commit_id te_idempotency_key_sha256 te_transaction_hash
    te_prior_state_version te_state_version te_prestate_fingerprint_sha256 te_poststate_fingerprint_sha256
    te_plan_binding_sha256 te_snapshot_fingerprint_sha256 te_raw_signed_transaction_included].
  rewrite TRANSACTION_HASH_digest, (ok_state_version _ _ Hx), (ok_fingerprint _ _ Hx).
  rewrite !(sha256_hex64 _ : SHA256 _ = true). rewrite SAFE_ID_digest by (done || simpl; lia). done.
Qed.

(** A new store up to its journal. *)
Lemma genesis_at_rest x j : snapshot_ok policy x -> sn_last_commit_id x = None ->
  file_bytes (snapshot_json x) <= nsp_max_snapshot_bytes policy ->
  jr_size (match j with Some y => y | None => mkJournal [] 0 end) <= nsp_max_journal_bytes policy ->
  (forall y, j = Some y -> jr_entries y = [] \/
    exists e id, jr_entries y = [TransactionEntry e] /\ entry_ok (TransactionEntry e) /\ te_commit_id e = "genesis-" +:+ id) ->
  at_rest policy (mkFs (Some (snapshot_file x)) None None j None).
Proof using Type.
  intros Hx Hlast Hsize Hj Hentries.
  assert (jr_entries (match j with Some y => y | None => mkJournal [] 0 end) = [] \/ exists e id,
    jr_entries (match j with Some y => y | None => mkJournal [] 0 end) = [TransactionEntry e] /\
    entry_ok (TransactionEntry e) /\ te_commit_id e = "genesis-" +:+ id) as Hcase
    by (destruct j as [y|]; [by apply Hentries|by left]).
  split; unfold journal_of; simpl; try done.
  - by exists (snapshot_file x).
  - by destruct Hcase as [->|(e & id & -> & He & _)]; repeat constructor.
  - intros f c [= <-]. simpl. by rewrite Hlast.
  - intros f _. destruct Hcase as [->|(e & id & -> & _ & Hid)]; [constructor|constructor; [|constructor]].
    left. by exists e, id.
  - destruct Hcase as [->|(e & id & -> & _ & _)]; [constructor|apply NoDup_singleton].
Qed.

Definition genesis_post (r : res InitializeResult) (s : fs) : Prop :=
  match r with
  | Ok (Initialized version fingerprint count) => at_rest policy s /\
      exists e, jr_entries (journal_of s) = [TransactionEntry e] /\ te_state_version e = version /\
        te_snapshot_fingerprint_sha256 e = fingerprint
  | _ => s = empty_fs \/ at_rest policy s
  end.

Lemma initialize_wp praw confirmation genesis_id accounts : normalizePolicy praw = Ok policy ->
  wp (initializeVoidNativeAccountStateStoreV1 praw confirmation genesis_id accounts) (at_rest policy) genesis_post empty_fs.
Proof using All.
  intros Hpol. unfold initializeVoidNativeAccountStateStoreV1. destruct (text_neq _ _); [apply wp_ret; by left|].
  apply wp_bind, wp_try. unfold initializeBody. rewrite Hpol. apply wp_bind, wp_call.
  destruct (SAFE_ID (trim genesis_id)) eqn:Hid; [|apply wp_throw, wp_ret; by left].
  destruct (bool_decide (accounts = []) || _) eqn:Hcount; cbn [negb]; [apply wp_throw, wp_ret; by left|].
  apply orb_false_iff in Hcount as [Hne%bool_decide_eq_false Hlen]. do 2 wp_step. apply wp_bind, wp_call.
  destruct (genesisSnapshot _ _) as [x|e] eqn:Hx; [|apply wp_ret; by left].
  assert (1 <= nsp_max_applied_transactions policy /\ 1024 <= nsp_max_journal_bytes policy) as [Hmax Hmaxj].
  { unfold normalizePolicy, ChainBase.parseBoundedNumber in Hpol. inv_ok. simpl. lia. }
  destruct (genesisSnapshot_ok _ _ _ Hmax Hne ltac:(lia) Hx) as [Hok Hlast].
  apply wp_bind, wp_atomicWrite; [intros _; apply wp_ret; by left|]. intros Hsize. unfold empty_fs. wp_simpl.
  change (mkFile x _) with (snapshot_file x).
  assert (at_rest policy (mkFs (Some (snapshot_file x)) None None None None)) as H0
    by (apply genesis_at_rest; simpl; done || lia). split; [done|].
  apply wp_bind, wp_appendJournal; simpl.
  - intros _. apply wp_ret. by right.
  - intros Hfit. wp_simpl. split; [apply genesis_at_rest; simpl; try done; [lia|intros y [= <-]; by left]|].
    assert (at_rest policy (mkFs (Some (snapshot_file x)) None None (Some (mkJournal
      [TransactionEntry (genesisEntry (trim genesis_id) (sn_state_version x) x)]
      (line_bytes (entry_json (TransactionEntry (genesisEntry (trim genesis_id) (sn_state_version x) x)))))) None)) as Hfin.
    { apply genesis_at_rest; try done. intros y [= <-]. right. do 2 eexists. split; [done|].
      split; [by apply genesisEntry_ok|done]. }
    split; [done|]. apply wp_ret, wp_ret. split; [done|]. eexists. by repeat split.
Qed.

(** Initialization creates a store at rest.  On empty files it either changes nothing or
    puts a well-formed snapshot in place; from then on, whether it completes, fails at the
    journal or is killed after any system call, the store is at rest, and when it answers
    that it is initialized the genesis entry is in the journal. *)
Theorem initialization_at_rest (praw : StorePolicy) (confirmation genesis_id : string) (accounts : list AccountState) :
  normalizePolicy praw = Ok policy ->
  let m := initializeVoidNativeAccountStateStoreV1 praw confirmation genesis_id accounts in
  Forall (at_rest policy) (io_trace m empty_fs) /\ genesis_post (io_result m empty_fs) (io_final m empty_fs).
Proof using All. apply initialize_wp. Qed.
End genesis.
