(* ===== verification/ChainComposition.v ===== *)
(** * From a prepared block to the committed ledger

    The executor and the store together: a block that was prepared on the snapshot of a store
    passes every check of the store, and committing it makes the accounts of the store the
    ledger that the transfers of the block lead to. *)

From Stdlib Require Import Ascii Sorted.
From S2P Require Import Prelude Js JsText Flow CanonicalJson Sha256 Ledger NativeTransfer ChainBase.
From S2P Require Import AccountSnapshot BlockExecutor AccountStore StoreProtocol StorePlans StoreSafety.
From S2P Require Import StoreGenesis.

(** ** Totals of changes *)

Lemma changes_ledger_cons side c cs :
  changes_ledger side (c :: cs) = <[ch_address c := (change_entry side c).2]> (changes_ledger side cs).
Proof. by destruct side. Qed.

Lemma changes_ledger_None side cs a : a ∉ map ch_address cs -> changes_ledger side cs !! a = None.
Proof. intros Ha. apply not_elem_of_list_to_map. by rewrite change_entry_keys. Qed.

Definition amount_sum (g : Z * Z -> Z) (side : Side) (cs : list AccountChange) : Z :=
  sumZ (fun c => g (change_entry side c).2) cs.

Lemma amount_sum_snoc g side cs c : amount_sum g side (cs ++ [c]) = amount_sum g side cs + g (change_entry side c).2.
Proof. unfold amount_sum. rewrite sumZ_app. simpl. lia. Qed.

(** Changes move the totals of a ledger by the difference of their sums. *)
Lemma total_changes g cs (l : Ledger) : NoDup (map ch_address cs) -> changes_ledger Before cs ⊆ l ->
  total g (changes_ledger After cs ∪ l) =
  total g l + amount_sum g After cs - amount_sum g Before cs.
Proof.
  induction cs as [|c cs IH]; cbn [map]; intros Hnd Hsub.
  { unfold changes_ledger. simpl. rewrite map_empty_union. unfold amount_sum. simpl. lia. }
  apply NoDup_cons in Hnd as [Hni Hnd]. unfold amount_sum in *. rewrite !sumZ_cons, changes_ledger_cons, <- insert_union_l.
  rewrite changes_ledger_cons in Hsub.
  assert (changes_ledger Before cs ⊆ l) as Hsub'.
  { etransitivity; [|exact Hsub]. apply insert_subseteq. by apply changes_ledger_None. }
  rewrite (total_replace g _ _ (change_entry Before c).2).
  - rewrite IH by done. lia.
  - rewrite lookup_union_r by (by apply changes_ledger_None). eapply lookup_weaken; [|exact Hsub].
    by rewrite lookup_insert_eq.
Qed.

(** ** The loop of the store over the changes of a block *)

(** A change in the form in which the store keeps it, with a nonce that does not fall. *)
Record change_wf (c : AccountChange) : Prop := mkChangeWf {
  wf_address : is_account (ch_address c) = true;
  wf_numbers : exists bb ba nb na, 0 <= bb /\ 0 <= ba /\ 0 <= nb /\ nb <= na /\
    c = mkAccountChange (ch_address c) (dec bb) (dec ba) (dec nb) (dec na)
}.

(** The totals of the loop after the changes [cs]. *)
Definition totals_of (cs : list AccountChange) : ChangeTotals :=
  mkChangeTotals cs (amount_sum snd After cs - amount_sum snd Before cs) (amount_sum fst Before cs)
    (amount_sum fst After cs).

Section store_loop.
Context `{D : Digest} `{E : Ethers} `{!EthersLaws E} `{L : Locale} `{!LocaleLaws L}.

Lemma blockChangeStep_ok acc c previous : change_wf c -> ch_address c ∉ map ch_address acc ->
  previous = EmptyString \/ (is_address previous = true /\ str_leb (ch_address c) previous = false) ->
  blockChangeStep (totals_of acc, previous) c = Ok (totals_of (acc ++ [c]), ch_address c).
Proof using All.
  intros [Ha (bb & ba & nb & na & H1 & H2 & H3 & H4 & Hc)] Hni Hprev. unfold blockChangeStep.
  rewrite normalizeAddress_canonical by done. cbn [mbind res_bind ct_changes totals_of].
  rewrite bool_decide_eq_false_2 by done.
  assert (negb (String.eqb previous EmptyString) && localeLe (ch_address c) previous = false) as ->.
  { destruct Hprev as [->|[Hp Hlt]]; [done|]. by rewrite localeLe_address, Hlt, andb_false_r by (done || by apply is_account_address). }
  cbn [throw_if mbind res_bind]. unfold parseChange. rewrite Hc. simpl.
  rewrite !parseUint_dec by lia. cbn [mbind res_bind].
  assert ((na <? nb) = false) as -> by lia. cbn [throw_if mbind res_bind]. do 2 f_equal.
  unfold totals_of. rewrite !amount_sum_snoc. simpl. rewrite !BigInt_dec by lia. f_equal. lia.
Qed.

Lemma blockLoop_total acc cs previous : Forall change_wf cs -> NoDup (map ch_address (acc ++ cs)) ->
  StronglySorted (fun a b => str_leb a b = true) (map ch_address cs) ->
  previous = EmptyString \/
    (is_address previous = true /\ forall c, c ∈ cs -> str_leb (ch_address c) previous = false) ->
  exists last, foldM blockChangeStep (totals_of acc, previous) cs = Ok (totals_of (acc ++ cs), last).
Proof using All.
  revert acc previous. induction cs as [|c cs IH]; intros acc previous Hwf Hnd Hs Hprev.
  { rewrite app_nil_r. by exists previous. }
  apply Forall_cons in Hwf as [Hc Hwf]. cbn [map] in Hs. inversion Hs as [|? ? Hs' Hle]; subst. cbn [foldM].
  rewrite blockChangeStep_ok; [|done| |].
  - cbn [mbind res_bind]. replace (acc ++ c :: cs) with ((acc ++ [c]) ++ cs) in * by (by rewrite <- app_assoc).
    apply IH; [done|done|done|]. right. split; [apply is_account_address, Hc|].
    intros d Hd. destruct (str_leb (ch_address d) (ch_address c)) eqn:Hdc; [exfalso|done].
    rewrite Forall_map, Forall_forall in Hle. pose proof (str_leb_antisym _ _ (Hle d Hd) Hdc) as Heq.
    rewrite !map_app in Hnd. apply NoDup_app in Hnd as (_ & Hdis & _). apply (Hdis (ch_address c)); [set_solver|].
    rewrite Heq. by apply list_elem_of_fmap_2.
  - rewrite map_app in Hnd. apply NoDup_app in Hnd as (_ & Hdis & _). intros Hin. apply (Hdis _ Hin). left.
  - destruct Hprev as [?|[? Hlt]]; [by left|right]. split; [done|]. apply Hlt. left.
Qed.
End store_loop.

(** ** The request of a prepared block *)

(** What the store makes of the request of a block plan. *)
Definition block_request (plan : BlockPlan) : BlockRequest :=
  mkBlockRequest (bl_block_idempotency_key_sha256 plan) (bl_block_hash plan) (bl_block_number plan)
    (bl_transaction_count plan) (bl_parent_state_version plan) (bl_parent_snapshot_fingerprint_sha256 plan)
    (bl_final_state_version plan) (bl_final_accounts_fingerprint_sha256 plan)
    (bl_ordered_transaction_hashes plan) (map pl_plan_binding_sha256 (bl_transaction_plans plan))
    (bl_aggregate_account_changes plan) (BigInt (bl_total_fee_burned_wei plan)) (bl_block_binding_sha256 plan).

Lemma map_lower l (p : string -> bool) : (forall t, p t = true -> toLowerCase t = t) -> Forall (fun t => p t = true) l ->
  map toLowerCase l = l.
Proof. intros Hp. induction 1 as [|t l Ht _ IH]; [done|]. cbn [map]. by rewrite Hp, IH. Qed.

Lemma existsb_none {A} (p : A -> bool) l : Forall (fun a => p a = true) l -> existsb (fun a => negb (p a)) l = false.
Proof. induction 1 as [|a l Ha _ IH]; [done|]. simpl. by rewrite Ha, IH. Qed.

Lemma js_set_distinct l : NoDup l -> js_set l = l.
Proof.
  unfold js_set. enough (forall k, NoDup (k ++ l) -> foldl set_add k l = k ++ l) as H by apply (H []).
  induction l as [|x l IH]; intros k Hnd; simpl; [by rewrite app_nil_r|]. unfold set_add at 2.
  rewrite bool_decide_eq_false_2.
  - rewrite IH; by rewrite <- app_assoc.
  - apply NoDup_app in Hnd as (_ & Hd & _). intros Hin. apply (Hd x Hin). left.
Qed.

Section requests.
Context `{D : Digest} `{!DigestShape D} `{E : Ethers} `{!EthersLaws E} `{L : Locale} `{!LocaleLaws L}.

(** A plan that passes validation, with well-formed changes that account for its nonces and
    fees, is accepted by the store as it is. *)
Lemma blockStoreRequest_valid plan number burned : validateBlockPlan plan = None ->
  0 <= number -> bl_block_number plan = dec number -> 0 <= burned -> bl_total_fee_burned_wei plan = dec burned ->
  bl_transaction_count plan <= MAX_SAFE_INTEGER ->
  Forall (fun h => TRANSACTION_HASH h = true) (bl_ordered_transaction_hashes plan) ->
  NoDup (bl_ordered_transaction_hashes plan) ->
  Forall (fun p => SHA256 (pl_plan_binding_sha256 p) = true) (bl_transaction_plans plan) ->
  let cs := bl_aggregate_account_changes plan in
  cs <> [] -> Forall change_wf cs -> NoDup (map ch_address cs) ->
  StronglySorted (fun a b => str_leb a b = true) (map ch_address cs) ->
  amount_sum snd After cs - amount_sum snd Before cs = bl_transaction_count plan ->
  amount_sum fst Before cs - amount_sum fst After cs = burned ->
  validateBlockApplyRequest (blockStoreRequest plan) = Ok (block_request plan).
Proof using All.
  intros Hval Hn Hnum Hb Hburn Hmax Hhs Hnd Hpl cs Hne Hwf Hndc Hs Hnonces Hfees.
  apply validateBlockPlan_None in Hval as ((_ & _ & _ & Hbh & _ & Hps & Hfs & Hpf & Hff & Hk & Hbb) & (Hpos & Hl1 & Hl2) & _ & Hkey & _).
  unfold validateBlockApplyRequest, block_request. cbn [blockStoreRequest br_block_idempotency_key_sha256 br_block_hash
    br_block_number br_parent_state_version br_parent_snapshot_fingerprint_sha256 br_final_state_version
    br_final_accounts_fingerprint_sha256 br_block_binding_sha256 br_transaction_count br_marker br_version
    br_confirmation br_raw_signed_transactions_included br_ordered_transaction_hashes
    br_transaction_plan_bindings_sha256 br_aggregate_account_changes br_total_fee_burned_wei].
  rewrite (SHA256_lower _ Hk), (TRANSACTION_HASH_lower _ Hbh), (SHA256_lower _ Hpf), (SHA256_lower _ Hff), (SHA256_lower _ Hbb).
  rewrite Hnum, parseUint_dec by done. cbn [mbind res_bind].
  rewrite <- Hnum, Hk, Hbh, Hps, Hpf, Hfs, Hff, Hbb, Hkey.
  assert (is_safe_integer (bl_transaction_count plan) = true) as -> by (unfold is_safe_integer; lia). rewrite Hpos.
  unfold text_neq. rewrite !String.eqb_refl, !length_map, <- Hl1, <- Hl2, Z.eqb_refl.
  rewrite (map_lower _ TRANSACTION_HASH) by (done || apply TRANSACTION_HASH_lower).
  rewrite (map_lower _ SHA256) by (apply SHA256_lower || by apply Forall_map).
  rewrite (existsb_none TRANSACTION_HASH), (existsb_none SHA256) by (done || by apply Forall_map).
  rewrite js_set_distinct, Nat.eqb_refl, (bool_decide_eq_false_2 _ Hne) by done.
  cbn [negb orb throw_if mbind res_bind Z.eqb Pos.eqb String.eqb Ascii.eqb Bool.eqb].
  destruct (blockLoop_total [] cs EmptyString) as [last Hloop]; [done..|by left|].
  change (mkChangeTotals [] 0 0 0) with (totals_of []). fold cs. rewrite Hloop. cbn [mbind res_bind fst app totals_of ct_nonces ct_before ct_after ct_changes].
  rewrite Hnonces, Z.eqb_refl, Hburn, parseUint_dec by done. cbn [negb throw_if mbind res_bind].
  assert (((amount_sum fst Before cs <? amount_sum fst After cs) || negb (amount_sum fst Before cs - amount_sum fst After cs =? burned)) = false) as -> by lia.
  cbn [throw_if mbind res_bind]. by rewrite BigInt_dec.
Qed.
End requests.

(** ** The projected accounts of a prepared block *)

(** Insertion-ordered maps with the same keys in the same order and the same entries. *)
Lemma as_map_list_eq {V} (m n : list (string * V)) : m.*1 = n.*1 -> NoDup m.*1 -> as_map m = as_map n -> m = n.
Proof.
  revert n. induction m as [|[k v] m IH]; intros [|[k' v'] n] Hk Hnd Hm; try discriminate Hk; [done|].
  rewrite !fmap_cons in *. cbn [fst] in *. injection Hk as -> Hk. apply NoDup_cons in Hnd as [Hni Hnd].
  assert (v = v') as ->.
  { pose proof (f_equal (lookup k') Hm) as Hl. unfold as_map in Hl. simpl in Hl. rewrite !lookup_insert_eq in Hl. congruence. }
  f_equal. apply IH; [done|done|]. unfold as_map in *. simpl in Hm.
  apply (f_equal (delete k')) in Hm. rewrite !delete_insert_id in Hm; [done|..];
    apply not_elem_of_list_to_map; [by rewrite <- Hk|done].
Qed.

Lemma account_ok_numbers a : account_ok a ->
  exists b n, 0 <= b /\ 0 <= n /\ amounts a = (b, n) /\ sa_balance_wei a = dec b /\ sa_nonce a = dec n.
Proof.
  intros [_ (b & Hb & Hbe) (n & Hn & Hne)]. exists b, n. unfold amounts. rewrite Hbe, Hne, !BigInt_dec by done. done.
Qed.

(** A change from one sound account to another with no smaller nonce is well formed. *)
Lemma account_change_wf x y : account_ok x -> account_ok y -> sa_address x = sa_address y ->
  (amounts x).2 <= (amounts y).2 ->
  change_wf (mkAccountChange (sa_address x) (sa_balance_wei x) (sa_balance_wei y) (sa_nonce x) (sa_nonce y)).
Proof.
  intros Hx Hy Ha Hle. destruct (account_ok_numbers x Hx) as (bx & nx & ? & ? & Hax & -> & ->).
  destruct (account_ok_numbers y Hy) as (by_ & ny & ? & ? & Hay & -> & ->). rewrite Hax, Hay in Hle. simpl in Hle.
  split; [apply Hx|]. simpl. by exists bx, by_, nx, ny.
Qed.

Lemma keyed_map_ledger p : keyed_map p -> projected_ledger p = accounts_ledger p.*2.
Proof.
  unfold projected_ledger, as_map, accounts_ledger. induction 1 as [|[k a] p Hk _ IH]; simpl; [by rewrite fmap_empty|].
  simpl in Hk. rewrite fmap_insert, IH. unfold account_entry. by rewrite Hk.
Qed.

Section prepared_blocks.
Context `{D : Digest} `{!DigestShape D} `{E : Ethers} `{!EthersLaws E} `{L : Locale} `{!LocaleLaws L}.

Lemma prepared_changes_ok input plan : prepareVoidNativeValueTransferStateTransitionV1 input = Prepared plan ->
  Forall change_ok (pl_account_changes plan).
Proof using EthersLaws0.
  intros (version & m & Hs & _ & _ & _ & _ & _ & _ & Hcs & _)%prepared_ledger.
  pose proof (normalizeSnapshot_wf _ _ _ Hs) as Hwf. clear -Hcs Hwf.
  induction Hcs as [|a c l cs (x & Hx & Hge & ->) _ IH]; constructor; [|done].
  destruct (Hwf a x Hx) as (Ha & Hacc & Hb & Hn). assert (0 <= only (t_sender (plan_transfer plan)) 1 a) by (unfold only; case_decide; lia).
  split; simpl; [done|exists (na_balance_wei x + delta (plan_transfer plan) a)|
    exists (na_nonce x + only (t_sender (plan_transfer plan)) 1 a)]; (split; [lia|done]).
Qed.

Definition accounts_sound (p : list (string * StoreAccount)) : Prop := Forall (fun e => account_ok e.2) p.

Lemma transactionStep_sound policy h n st i t st' : accounts_sound (bs_projected st) ->
  transactionStep policy h n st i t = Next st' -> accounts_sound (bs_projected st').
Proof using EthersLaws0.
  intros Hok Hs. unfold transactionStep in Hs. held_flow.
  destruct (prepareVoidNativeValueTransferStateTransitionV1 _) as [plan|hd] eqn:Hp; [|discriminate].
  unfold acceptPlan in Hs. held_flow. simpl. apply (applyChanges_inv (fun e => account_ok e.2)); [done|].
  by apply (prepared_changes_ok _ _ Hp).
Qed.

Context (spolicy : NormalizedStorePolicy) (input : BlockInput) (plan : BlockPlan).
Context (Hprep : prepareVoidNativeValueTransferBlockExecutionV1 input = Prepared plan).
Context (Hok : snapshot_ok spolicy (bi_snapshot input)).

Let initial : list (string * StoreAccount) := accountMapOf (bi_snapshot input).

Lemma initial_sound : initial = keyed (sn_accounts (bi_snapshot input)) /\ accounts_sound initial /\ NoDup initial.*1 /\
  (forall a x, as_map initial !! a = Some x -> sa_address x = a).
Proof using Hok.
  destruct (ok_accounts _ _ Hok) as (Hacc & Hnd & _). unfold initial. rewrite accountMapOf_keyed by done.
  split; [done|]. split; [apply Forall_map; by eapply Forall_impl|]. split; [by rewrite keyed_keys|].
  intros a x Hx. by apply keyed_address in Hx as [? _].
Qed.

(** The accounts that the executor ends with are those the store computes from the changes. *)
Lemma block_accounts : exists st,
  applyChanges initial (bl_aggregate_account_changes plan) = bs_projected st /\
  accounts_sound (bs_projected st) /\ Forall change_wf (bl_aggregate_account_changes plan) /\
  Forall (prestate_matches initial) (bl_aggregate_account_changes plan) /\
  NoDup (map ch_address (bl_aggregate_account_changes plan)) /\
  StronglySorted (fun a b => str_leb a b = true) (map ch_address (bl_aggregate_account_changes plan)) /\
  bl_final_accounts_fingerprint_sha256 plan =
    projectedAccountsFingerprint (bl_final_state_version plan) (sort_accounts (bs_projected st).*2).
Proof using All.
  destruct (prepareBlock_parts _ _ Hprep) as [_ _ _ _ (bpolicy & number & st & Hloop & _ & Hinv & _ & _ & Hplan)].
  destruct initial_sound as (_ & Hsound & Hnd & Hadr). destruct Hinv as [Hk Had Hex _ _ _ _ _ _ _ _].
  change (initialProjection (bi_snapshot input)) with initial in *. exists st.
  assert (accounts_sound (bs_projected st)) as Hsp.
  { eapply (for_indexed_inv (fun st => accounts_sound (bs_projected st)) _ 0 (initialState (bi_snapshot input)));
      [|exact Hsound|exact Hloop].
    intros. by eapply transactionStep_sound. }
  destruct (aggregate_projects initial (bs_projected st) Hk Hnd Hadr Had) as (Hndc & Hpre & Hs & Hmap).
  rewrite Hplan. simpl. set (cs := omap _ _) in *. split; [|split; [done|split; [|done]]].
  - rewrite applyChanges_projects. assert ((foldl projectChange initial cs).*1 = initial.*1) as Hkeys
      by (apply projectChanges_keys; by apply prestate_keys).
    apply as_map_list_eq; [by rewrite Hkeys, Hk|by rewrite Hkeys|done].
  - apply Forall_forall. intros c (_ & (x & y & Hx & Hy & Hc)%aggregate_change_Some)%elem_of_aggregate.
    assert (account_ok x /\ account_ok y) as [Hxo Hyo].
    { unfold accounts_sound in *. rewrite Forall_forall in Hsound, Hsp. split; [apply (Hsound (ch_address c, x))|apply (Hsp (ch_address c, y))].
      - by apply as_map_elem in Hx. - apply as_map_elem in Hy; [done|by rewrite Hk]. }
    rewrite Hc. rewrite <- (Hadr _ _ Hx) at 1. apply account_change_wf; [done|done|by rewrite (Hadr _ _ Hx), (Had _ _ Hy)|].
    destruct (executes_nonce _ _ _ (ch_address c) (amounts x) Hex) as [b Hb].
    { unfold projected_ledger. by rewrite lookup_fmap, Hx. }
    unfold projected_ledger in Hb. rewrite lookup_fmap, Hy in Hb. simpl in Hb. injection Hb as _ Hb. simpl. rewrite Hb.
    match goal with |- _ <= _ + ?n => assert (0 <= n) by (apply sumZ_nonneg, Forall_forall; intros; unfold only; case_decide; lia) end. lia.
Qed.

(** The changes account for the nonces and the burned fees of the block. *)
Lemma block_totals : let cs := bl_aggregate_account_changes plan in
  let ts := map plan_transfer (bl_transaction_plans plan) in
  amount_sum snd After cs - amount_sum snd Before cs = bl_transaction_count plan /\
  amount_sum fst Before cs - amount_sum fst After cs = sumZ burned ts.
Proof using Hprep DigestShape0 EthersLaws0.
  destruct (prepared_block_ledger _ _ (prepareBlock_parts _ _ Hprep))
    as (l1 & Hex & _ & Hb & Ha & _ & Hcount & _ & Hnd). simpl. rewrite Hcount.
  pose proof (executes_nonces _ _ _ Hex) as Hn. pose proof (executes_supply _ _ _ Hex) as Hsup.
  unfold nonces, supply in *. rewrite <- Ha, !total_changes in Hn, Hsup by done. lia.
Qed.

Lemma block_request_valid : validateBlockApplyRequest (blockStoreRequest plan) = Ok (block_request plan).
Proof using All.
  pose proof (prepareBlock_parts _ _ Hprep) as Hparts. pose proof (prepared_block_valid _ _ Hparts) as Hval.
  destruct block_totals as [Hnonces Hfees]. destruct block_accounts as (st' & _ & _ & Hwf & _ & Hnd & Hs & _).
  destruct Hparts as [_ _ _ Hcount (bpolicy & number & st & _ & Hnum & [_ _ Hex Hh Hd _ _ _ Hbu _ Hpl] & Hlen & Hne & Hplan)].
  assert (forall p, p ∈ bs_transactionPlans st ->
    SHA256 (pl_plan_binding_sha256 p) = true /\ TRANSACTION_HASH (pl_transaction_hash p) = true) as Hp.
  { intros p [k Hk]%list_elem_of_lookup. destruct (Hpl k p Hk) as (_ & _ & _ & _ & ? & ?). done. }
  assert (0 <= sumZ burned (map plan_transfer (bs_transactionPlans st))) as Hb.
  { apply sumZ_nonneg. clear -Hex. induction Hex; constructor; [by eapply burned_nonneg|done]. }
  apply (blockStoreRequest_valid plan number (sumZ burned (map plan_transfer (bl_transaction_plans plan))));
    try done; rewrite Hplan; simpl; try done.
  - by rewrite Hbu.
  - rewrite Hlen. unfold MAX_SAFE_INTEGER. lia.
  - rewrite Hh. apply Forall_map, Forall_forall. intros p Hin. by apply Hp.
  - apply Forall_forall. intros p Hin. by apply Hp.
Qed.

Lemma matchLoop_total {R} (missing mismatch : R) m cs : Forall (prestate_matches m) cs ->
  for_each (matchAccount missing mismatch m) tt cs = Next tt.
Proof using Type.
  induction 1 as [|c cs (cur & Hcur & Hb & Hn) _ IH]; [done|]. cbn [for_each].
  assert (matchAccount missing mismatch m tt c = Next tt) as ->; [|done].
  unfold matchAccount, text_neq. by rewrite map_get_lookup, Hcur, Hb, Hn, !String.eqb_refl.
Qed.

(** The store accepts the request of the block. *)
Lemma block_plans s f env now : at_rest spolicy s -> fs_snapshot s = Some f -> bi_snapshot input = file_value f ->
  findBlock (jr_entries (journal_of s)) (bl_block_idempotency_key_sha256 plan) = None ->
  let '(post, entry) := blockCommit (file_value f) (block_request plan) in
  planBlock spolicy (blockStoreRequest plan) now (under_lock env s) =
    Next (makeIntent now (file_value f) post (BlockEntry entry),
      BlockStoreApplied (be_commit_id entry) (bl_block_hash plan) (bl_block_number plan)
        (bl_final_state_version plan) (bl_transaction_count plan)).
Proof using All.
  intros Hrest Hf Hsnap Hnew. destruct (blockCommit (file_value f) (block_request plan)) as [post entry] eqn:Hc.
  destruct block_accounts as (st & Hacc & _ & _ & Hpre & _ & _ & Hfp). unfold initial in Hacc, Hpre. rewrite Hsnap in Hacc, Hpre.
  unfold planBlock. rewrite block_request_valid, (read_locked spolicy s f Hrest Hf env), (journal_locked spolicy s Hrest env).
  cbn [call mbind flow_bind]. change (bq_block_idempotency_key_sha256 (block_request plan)) with (bl_block_idempotency_key_sha256 plan).
  rewrite Hnew, Hc. destruct (prepareBlock_parts _ _ Hprep) as [_ _ _ _ (bpolicy & number & st' & _ & _ & _ & _ & _ & Hplan)].
  rewrite return_if_false.
  2: { rewrite Hplan. simpl. rewrite Hsnap. unfold text_neq. by rewrite String.eqb_refl. }
  rewrite return_if_false.
  2: { rewrite Hplan. simpl. rewrite Hsnap. unfold text_neq. by rewrite String.eqb_refl. }
  change (bq_aggregate_account_changes (block_request plan)) with (bl_aggregate_account_changes plan).
  rewrite matchLoop_total by done. cbn [mbind flow_bind]. rewrite return_if_false; [done|].
  unfold blockPostAccounts, text_neq. cbn [block_request bq_final_state_version bq_aggregate_account_changes
    bq_final_accounts_fingerprint_sha256]. rewrite Hacc, Hfp. unfold blockAccountsFingerprint, projectedAccountsFingerprint.
  by rewrite String.eqb_refl.
Qed.

(** The accounts of the committed snapshot are the ledger after the transfers. *)
Lemma block_post_ledger f : bi_snapshot input = file_value f ->
  let post := (blockCommit (file_value f) (block_request plan)).1 in
  executes (accounts_ledger (sn_accounts (file_value f))) (map plan_transfer (bl_transaction_plans plan))
    (accounts_ledger (sn_accounts post)).
Proof using All.
  intros Hsnap post. destruct (prepared_block_ledger _ _ (prepareBlock_parts _ _ Hprep))
    as (l1 & Hex & _ & _ & Hl1 & _ & _ & _ & Hnd). rewrite Hsnap in Hex, Hl1.
  destruct initial_sound as (Hinit & Hsound & Hndi & Hadr). destruct block_accounts as (st & Hacc & Hsp & _ & Hpre & _ & _ & _).
  replace (accounts_ledger (sn_accounts post)) with l1; [done|]. rewrite <- Hl1.
  assert (sn_accounts post ≡ₚ (applyChanges initial (bl_aggregate_account_changes plan)).*2) as Hp.
  { unfold post, initial. rewrite Hsnap. simpl. etransitivity; apply sort_by_address_perm. }
  assert (keyed_map (applyChanges initial (bl_aggregate_account_changes plan))) as Hkm.
  { apply applyChanges_inv; [rewrite Hinit; apply keyed_keyed_map|by apply Forall_forall]. }
  assert (NoDup (map sa_address (applyChanges initial (bl_aggregate_account_changes plan)).*2)) as Hnda.
  { rewrite keyed_map_addresses by done. rewrite applyChanges_projects, (projectChanges_keys (bl_aggregate_account_changes plan) initial); [done|].
    by apply prestate_keys. }
  rewrite (accounts_ledger_perm (sn_accounts post) (applyChanges initial (bl_aggregate_account_changes plan)).*2)
    by (by rewrite ?Hp).
  rewrite <- (keyed_map_ledger _ Hkm), applyChanges_projects, projectChanges_ledger, Hinit, projected_ledger_keyed by done. by rewrite Hsnap.
Qed.
End prepared_blocks.

(** ** The theorem *)

Section end_to_end.
Context `{D : Digest} `{!DigestShape D} `{E : Ethers} `{!EthersLaws E} `{L : Locale} `{!LocaleLaws L}.

Lemma SAFE_ID_trim t : SAFE_ID t = true -> trim t = t.
Proof using Type. intros [_ Ht]%andb_true_iff. by apply trim_safe. Qed.

(** The receipt of a store that committed the block. *)
Lemma blockStoreReceipt_ok plan commit : validateBlockPlan plan = None -> SAFE_ID commit = true ->
  blockStoreReceipt plan (Ok (BlockStoreApplied commit (bl_block_hash plan) (bl_block_number plan)
    (bl_final_state_version plan) (bl_transaction_count plan))) =
  BlockApplied (bl_block_hash plan) (bl_block_number plan) (bl_transaction_count plan) (bl_final_state_version plan)
    (bl_block_idempotency_key_sha256 plan) commit.
Proof using Type.
  intros Hval Hc. apply validateBlockPlan_None in Hval as ((_ & _ & _ & Hbh & _ & _ & Hfs & _) & _).
  unfold blockStoreReceipt, text_neq. rewrite (SAFE_ID_trim _ Hc), (SAFE_ID_trim _ Hfs), (TRANSACTION_HASH_lower _ Hbh), Hc.
  by rewrite !String.eqb_refl, Z.eqb_refl.
Qed.

(** C1: From a request to the committed ledger.  Take a store at rest and a block that the
    executor prepared on its snapshot, whose key no journal entry carries.  Then the store
    plans the commit of the block, and the accounts of the snapshot to commit are the ledger
    that the transfers of the block lead to, each of them legal where it executes.  When the
    files of the commit are within the limits of the store, applying the plan through the
    store object answers that the block was applied, with the hash, number, count and state
    version of the plan, and leaves exactly the committed files. *)
Theorem prepared_block_commits (praw : StorePolicy) (policy : NormalizedStorePolicy) (store : AccountStore)
    (env : Env) (s : fs) (f : file Snapshot) (input : BlockInput) (plan : BlockPlan) :
  normalizePolicy praw = Ok policy -> createVoidNativeAccountStateStoreV1 praw = Ok store ->
  at_rest policy s -> fs_snapshot s = Some f -> bi_snapshot input = file_value f ->
  prepareVoidNativeValueTransferBlockExecutionV1 input = Prepared plan ->
  findBlock (jr_entries (journal_of s)) (bl_block_idempotency_key_sha256 plan) = None ->
  exists i, planned policy (ApplyBlock env (blockStoreRequest plan)) s = Some i /\
    executes (accounts_ledger (sn_accounts (file_value f))) (map plan_transfer (bl_transaction_plans plan))
      (accounts_ledger (sn_accounts (it_post_snapshot i))) /\
    (within_limits policy s i ->
     applyVoidNativeValueTransferBlockExecutionV1 plan VOID_NATIVE_VALUE_TRANSFER_BLOCK_CONFIRMATION_V1
       (Some (apply_native_value_transfer_block_once store env)) s =
     (committed s i, BlockApplied (bl_block_hash plan) (bl_block_number plan) (bl_transaction_count plan)
       (bl_final_state_version plan) (bl_block_idempotency_key_sha256 plan) (entry_commit_id (it_journal_entry i)))).
Proof using All.
  intros Hpol Hstore Hrest Hf Hsnap Hprep Hnew.
  assert (snapshot_ok policy (bi_snapshot input)) as Hok by (rewrite Hsnap; by eapply rest_snapshot_ok).
  pose proof (block_plans policy input plan Hprep Hok s f env (env_intent_ms env) Hrest Hf Hsnap Hnew) as Hplan.
  pose proof (block_post_ledger policy input plan Hprep Hok f Hsnap) as Hledger.
  assert (SAFE_ID (be_commit_id (blockCommit (file_value f) (block_request plan)).2) = true) as Hid
    by (apply safe_id_digest; [apply sha256_hex64|done|simpl; lia]).
  destruct (blockCommit (file_value f) (block_request plan)) as [post entry]. simpl in Hledger, Hid.
  eexists. split; [simpl; by rewrite Hplan|]. split; [done|]. intros Hlim.
  unfold createVoidNativeAccountStateStoreV1 in Hstore. rewrite Hpol in Hstore. injection Hstore as <-.
  pose proof (prepared_block_valid _ _ (prepareBlock_parts _ _ Hprep)) as Hval.
  unfold applyVoidNativeValueTransferBlockExecutionV1. rewrite Hval. simpl. unfold applyBlockOnce.
  destruct (applyFramed_wp policy env (refuseBlock "native_account_store_recovery_required" true)
    (refuseBlock "native_account_store_busy" false) (refuseBlock "native_account_store_block_apply_failed")
    (planBlock policy (blockStoreRequest plan) (env_intent_ms env)) s Hrest) as [_ Hpost].
  unfold call_post in Hpost. rewrite Hplan in Hpost. destruct Hpost as [_ [[-> ->]|[_ Hno]]]; [|by destruct (Hno Hlim)].
  f_equal. by apply blockStoreReceipt_ok.
Qed.
End end_to_end.
