(* ===== verification/StoreSamples.v ===== *)
(** * A concrete account store

    A store is initialized with three accounts, a transfer is prepared on its snapshot and
    applied, killed and recovered: the instances that show that the hypotheses of the store
    theorems hold together. *)

From Stdlib Require Import Ascii Sorted.
From S2P Require Import Prelude Js JsText Flow CanonicalJson Sha256 Ledger NativeTransfer ChainBase.
From S2P Require Import AccountSnapshot BlockExecutor AccountStore StoreProtocol StorePlans StoreSafety.
From S2P Require Import StoreGenesis ChainComposition.

Module StoreSample.
Import TransferSample.

#[local] Existing Instance poly256 | 0.
#[local] Existing Instance code_unit_locale | 0.
#[local] Existing Instance sample_ethers | 0.
#[local] Existing Instance sample_ethers_laws | 0.

Definition raw_policy (journal : Z) : StorePolicy :=
  mkStorePolicy (UBig 10) (UBig 10) (UBig 100000) (UBig journal) (UBig 1000).

Definition store_policy (journal : Z) : NormalizedStorePolicy := mkNormalizedStorePolicy 10 10 100000 journal 1000.

Definition genesis_accounts : list AccountState :=
  [mkAccountState carol (UStr "0") (UBig 0); mkAccountState alice (UBig 100000) (UStr "0");
   mkAccountState bob (UStr "50000") (UBig 7)].

(** The store after initialization, with a limit on its journal. *)
Definition new_store (journal : Z) : fs :=
  io_final (initializeVoidNativeAccountStateStoreV1 (raw_policy journal)
    VOID_NATIVE_ACCOUNT_STATE_STORE_INITIALIZE_CONFIRMATION_V1 " genesis-1 " genesis_accounts) empty_fs.

Definition large : fs := Eval vm_compute in new_store 100000.
Definition small : fs := Eval vm_compute in new_store 1400.

Lemma new_store_at_rest journal : normalizePolicy (raw_policy journal) = Ok (store_policy journal) ->
  match io_result (initializeVoidNativeAccountStateStoreV1 (raw_policy journal)
    VOID_NATIVE_ACCOUNT_STATE_STORE_INITIALIZE_CONFIRMATION_V1 " genesis-1 " genesis_accounts) empty_fs with
  | Ok (Initialized _ _ _) => True | _ => False end -> at_rest (store_policy journal) (new_store journal).
Proof.
  intros Hp Hr. destruct (initialize_wp (store_policy journal) (raw_policy journal)
    VOID_NATIVE_ACCOUNT_STATE_STORE_INITIALIZE_CONFIRMATION_V1 " genesis-1 " genesis_accounts Hp) as [_ Hpost].
  unfold genesis_post in Hpost. destruct (io_result _ _) as [[v fp n|why]|e]; [|done|done]. apply Hpost.
Qed.

Lemma large_at_rest : at_rest (store_policy 100000) large.
Proof.
  change large with (new_store 100000). apply new_store_at_rest; [vm_compute; reflexivity|vm_compute; exact I].
Qed.

Lemma small_at_rest : at_rest (store_policy 1400) small.
Proof.
  change small with (new_store 1400). apply new_store_at_rest; [vm_compute; reflexivity|vm_compute; exact I].
Qed.

Definition store_version (s : fs) : string :=
  match fs_snapshot s with Some f => sn_state_version (file_value f) | None => EmptyString end.

(** A transfer of alice to bob, prepared on the accounts of the store. *)
Definition transfer_input : TransferInput :=
  mkTransferInput "0xa1" sample_policy
    (mkStateSnapshot (store_version large)
      [mkAccountState alice (UBig 100000) (UStr "0"); mkAccountState bob (UStr "50000") (UBig 7)])
    (mkExecutionContext block_hash (UBig 1) (UBig 0) (UBig 21000) (UBig 2) [mkFeeCredit bob (UBig 1000)] digest_a).

Definition transfer_request : StoreApplyRequest :=
  ltac:(let r := eval vm_compute in (prepareVoidNativeValueTransferStateTransitionV1 transfer_input) in
        lazymatch r with Prepared ?p => let q := eval vm_compute in (storeRequest p) in exact q end).

Definition process (pid now : Z) : Env := mkEnv pid now now.

Definition transfer_call : apply_call := ApplyTransfer (process 41 1000) transfer_request.
Definition retry_call : apply_call := ApplyTransfer (process 43 9000) transfer_request.

Definition recover_later (journal : Z) : recover_call :=
  mkRecoverCall (raw_policy journal) VOID_NATIVE_ACCOUNT_STATE_STORE_RECOVER_CONFIRMATION_V1 (Some (NInt 5000)) 0
    (fun _ => false) (process 42 5000).

Example transfer_is_applied : applied (store_policy 100000) transfer_call large = true.
Proof. vm_compute. reflexivity. Qed.

(** The store of a process killed right after the rename of the snapshot. *)
Definition killed : fs := Eval vm_compute in
  nth 4 (apply_trace (store_policy 100000) transfer_call large) large.

Lemma killed_in_trace : killed ∈ apply_trace (store_policy 100000) transfer_call large.
Proof. apply (list_elem_of_lookup_2 _ 4). vm_compute. reflexivity. Qed.

Lemma process_ok pid now : 0 < pid <= MAX_SAFE_INTEGER -> 0 < now <= MAX_SAFE_INTEGER -> env_ok (process pid now).
Proof. done. Qed.

Lemma transfer_room i : planned (store_policy 100000) transfer_call large = Some i ->
  room (store_policy 100000) large i.
Proof.
  assert (match planned (store_policy 100000) transfer_call large with
    | Some i => jr_size (appended large i) <=? 100000 | None => false end = true) as H by (vm_compute; reflexivity).
  intros Hi. rewrite Hi in H. unfold room. simpl nsp_max_journal_bytes. lia.
Qed.

Lemma crash_atomic_witness :
  recovered (io_result (recovery (recover_later 100000)) killed) /\
  at_rest (store_policy 100000) (io_final (recovery (recover_later 100000)) killed) /\
  (io_final (recovery (recover_later 100000)) killed = large \/
   exists i, planned (store_policy 100000) transfer_call large = Some i /\
     io_final (recovery (recover_later 100000)) killed = committed large i).
Proof.
  apply (crash_atomic (store_policy 100000) transfer_call large killed (recover_later 100000)).
  - exact large_at_rest.
  - apply process_ok; unfold MAX_SAFE_INTEGER; lia.
  - vm_compute. reflexivity.
  - apply crashed_call. exact killed_in_trace.
  - split; [apply process_ok; unfold MAX_SAFE_INTEGER; lia|vm_compute; reflexivity].
  - vm_compute. reflexivity.
  - exact transfer_room.
Defined.

Lemma store_always_recoverable_witness :
  recoverable (store_policy 100000) killed /\
  exists x, readSnapshot killed (store_policy 100000) = Ok x /\ snapshot_ok (store_policy 100000) x.
Proof.
  apply (store_always_recoverable (store_policy 100000) large killed); [exact large_at_rest|].
  apply rtc_once. apply (clean_killed _ _ (Apply transfer_call)); [|vm_compute; reflexivity|exact killed_in_trace].
  apply process_ok; unfold MAX_SAFE_INTEGER; lia.
Defined.

Lemma applied_at_most_once_witness :
  let s' := apply_final (store_policy 100000) transfer_call large in
  apply_final (store_policy 100000) retry_call s' = s' /\ applied (store_policy 100000) retry_call s' = false.
Proof.
  apply (applied_at_most_once (store_policy 100000) transfer_call retry_call large).
  - exact large_at_rest.
  - apply process_ok; unfold MAX_SAFE_INTEGER; lia.
  - vm_compute. reflexivity.
  - exact transfer_is_applied.
  - constructor.
  - reflexivity.
Defined.

Lemma empty_lock_is_permanent_witness :
  set_lock (Some None) large ∈ apply_trace (store_policy 100000) transfer_call large /\
  (rtc (store_step (store_policy 100000)) (set_lock (Some None) large) large -> large = set_lock (Some None) large).
Proof. exact (empty_lock_is_permanent (store_policy 100000) transfer_call large large large_at_rest). Defined.

Definition small_intent : Intent :=
  ltac:(let r := eval vm_compute in (planned (store_policy 1400) transfer_call small) in
        lazymatch r with Some ?i => exact i end).

Lemma full_journal_is_permanent_witness :
  applied (store_policy 1400) transfer_call small = false /\
  forall s', rtc (store_step (store_policy 1400)) (apply_final (store_policy 1400) transfer_call small) s' ->
    unjournaled small small_intent s' /\ (forall c', applied (store_policy 1400) c' s' = false).
Proof.
  apply (full_journal_is_permanent (store_policy 1400) transfer_call small small_intent).
  - exact small_at_rest.
  - apply process_ok; unfold MAX_SAFE_INTEGER; lia.
  - vm_compute. reflexivity.
  - vm_compute. reflexivity.
  - apply Z.leb_le. vm_compute. reflexivity.
  - apply Z.leb_le. vm_compute. reflexivity.
  - intros H. apply Z.leb_le in H. revert H. vm_compute. discriminate.
Defined.

Lemma initialization_at_rest_witness :
  Forall (at_rest (store_policy 100000)) (io_trace (initializeVoidNativeAccountStateStoreV1 (raw_policy 100000)
    VOID_NATIVE_ACCOUNT_STATE_STORE_INITIALIZE_CONFIRMATION_V1 "genesis-1" genesis_accounts) empty_fs).
Proof.
  apply (initialization_at_rest (store_policy 100000) (raw_policy 100000)
    VOID_NATIVE_ACCOUNT_STATE_STORE_INITIALIZE_CONFIRMATION_V1 "genesis-1" genesis_accounts).
  vm_compute. reflexivity.
Defined.

Lemma snapshot_validation_typed_witness :
  match fs_snapshot large with
  | Some f => snapshot_ok (store_policy 100000) (file_value f)
  | None => False
  end.
Proof.
  destruct (snapshot_validation_typed (store_policy 100000)
    (match fs_snapshot large with Some f => file_value f | None => BlockSample.sample_snapshot end)) as [[H _] _].
  apply H. vm_compute. reflexivity.
Defined.

(** Recovery of the killed transfer completes it. *)
Example killed_completes :
  io_final (recovery (recover_later 100000)) killed = apply_final (store_policy 100000) transfer_call large.
Proof. vm_compute. reflexivity. Qed.

(** A block of three transfers, prepared on the snapshot of the store. *)
Definition large_file : file Snapshot :=
  match fs_snapshot large with Some f => f | None => mkFile BlockSample.sample_snapshot 0 end.

Definition store_block : BlockInput :=
  mkBlockInput block_hash (UNum (NInt 1)) (file_value large_file) (bi_block_policy BlockSample.sample_block)
    (bi_transactions BlockSample.sample_block).

Definition store_block_plan : BlockPlan :=
  ltac:(let r := eval vm_compute in (prepareVoidNativeValueTransferBlockExecutionV1 store_block) in
        lazymatch r with Prepared ?p => exact p end).

Definition sample_store : AccountStore :=
  mkAccountStore
    (fun env s request => let m := applyOnce (store_policy 100000) env request in (io_final m s, io_result m s))
    (fun env s request => let m := applyBlockOnce (store_policy 100000) env request in (io_final m s, io_result m s))
    (fun s => readSnapshot s (store_policy 100000)) (status (store_policy 100000)).

Lemma sample_store_created : createVoidNativeAccountStateStoreV1 (raw_policy 100000) = Ok sample_store.
Proof.
  unfold createVoidNativeAccountStateStoreV1, sample_store.
  assert (normalizePolicy (raw_policy 100000) = Ok (store_policy 100000)) as -> by (vm_compute; reflexivity).
  reflexivity.
Qed.

Lemma prepared_block_commits_witness :
  exists i, planned (store_policy 100000) (ApplyBlock (process 41 1000) (blockStoreRequest store_block_plan)) large = Some i /\
    executes (accounts_ledger (sn_accounts (file_value large_file)))
      (map plan_transfer (bl_transaction_plans store_block_plan)) (accounts_ledger (sn_accounts (it_post_snapshot i))) /\
    within_limits (store_policy 100000) large i.
Proof.
  destruct (prepared_block_commits (raw_policy 100000) (store_policy 100000) sample_store (process 41 1000) large
    large_file store_block store_block_plan) as (i & Hi & Hex & _);
    [vm_compute; reflexivity|exact sample_store_created|exact large_at_rest|reflexivity|reflexivity|vm_compute; reflexivity|
     vm_compute; reflexivity|].
  exists i. split; [exact Hi|]. split; [exact Hex|].
  assert (match planned (store_policy 100000) (ApplyBlock (process 41 1000) (blockStoreRequest store_block_plan)) large with
    | Some i => (file_bytes (intent_json i) <=? 100000) && (file_bytes (snapshot_json (it_post_snapshot i)) <=? 100000)
        && (jr_size (appended large i) <=? 100000)
    | None => false end = true) as H by (vm_compute; reflexivity).
  rewrite Hi in H. apply andb_true_iff in H as [[H1 H2]%andb_true_iff H3].
  split; apply Z.leb_le; [exact H1|exact H2|exact H3].
Defined.
End StoreSample.
