(* ===== verification/JsConvert.v ===== *)
(** * Conversions of JavaScript

    [String(value)] and [Number(value)] of parsed JSON values, truth values, and the numbers
    that arrive where an integer is expected.  Reading a number from text is the interface
    [StringNumber]: the grammar of numeric literals and the rounding to doubles. *)

From S2P Require Import Prelude Js JsText CanonicalJson.

(** ** Numbers *)

(** A double: an integer, a number strictly between [floor] and [floor + 1], or not finite. *)
Inductive number : Type :=
| Integer (z : Z)
| Between (floor : Z)
| Infinite (positive : bool)
| NotANumber.

Definition isFinite (n : number) : bool :=
  match n with Integer _ | Between _ => true | _ => false end.

(** [Math.trunc] and [Math.floor] of a finite number *)
Definition trunc (n : number) : Z :=
  match n with Integer z => z | Between f => if f <? 0 then f + 1 else f | _ => 0 end.
Definition floor (n : number) : Z :=
  match n with Integer z => z | Between f => f | _ => 0 end.

(** [n >= z] for an integer [z] *)
Definition number_geb (n : number) (z : Z) : bool :=
  match n with
  | Integer x | Between x => z <=? x
  | Infinite positive => positive
  | NotANumber => false
  end.

(** ** Text and truth *)

(** [String(value)]; a [toString] of its own makes an object inconvertible. *)
Fixpoint js_String (v : json) : res string :=
  match v with
  | JUndefined => Ok "undefined"
  | JNull => Ok "null"
  | JBool b => Ok (if b then "true" else "false")
  | JNum (NInt z) => Ok (int_text z)
  | JNum (NOther text) => Ok text
  | JStr s => Ok s
  | JArr items =>
      (fix join (first : bool) (l : list json) : res string :=
        match l with
        | [] => Ok EmptyString
        | x :: l' =>
            text ← match x with JUndefined | JNull => Ok EmptyString | _ => js_String x end;
            rest ← join false l';
            Ok ((if first then EmptyString else ",") +:+ text +:+ rest)
        end) true items
  | JObj fs =>
      if bool_decide ("toString" ∈ fs.*1) then Throw "Cannot convert object to primitive value"
      else Ok "[object Object]"
  end.

(** [!value] *)
Definition falsy (v : json) : bool :=
  match v with
  | JUndefined | JNull | JBool false => true
  | JNum (NInt z) => z =? 0
  | JNum (NOther text) => String.eqb text "NaN"
  | JStr s => String.eqb s EmptyString
  | _ => false
  end.

(** [!!value && typeof value === "object"] *)
Definition is_object (v : json) : bool := match v with JArr _ | JObj _ => true | _ => false end.

(** ** Numbers from values *)

(** [Number(text)] *)
Class StringNumber : Type := Number_text : string -> number.

(** [Number(value)]; the text of an object without a [toString] of its own is no number. *)
Definition js_Number `{StringNumber} (v : json) : res number :=
  match v with
  | JUndefined => Ok NotANumber
  | JNull => Ok (Integer 0)
  | JBool b => Ok (Integer (if b then 1 else 0))
  | JNum (NInt z) => Ok (Integer z)
  | JNum (NOther text) => Ok (Number_text text)
  | JStr s => Ok (Number_text s)
  | JArr _ => text ← js_String v; Ok (Number_text text)
  | JObj _ => js_String v;; Ok NotANumber
  end.
