(* ===== verification/Mempool.v ===== *)
(** * The pending transactions of a node

    Model of [src/chain/mempool.ts]: one queue of pending transactions with an index of
    their canonical identities.  Producers select transactions without removing them; a
    selection is committed after the block is durable or rolled back.  The array that
    clients see is a proxy whose mutators ([push], [splice], [sort], ...) keep the index.

    Values that enter the queue are parsed JSON.  An object that enters is copied: the queue
    holds a new object, here [Owned] with a fresh reference, which is equal under [===] only
    to itself, and whose [hash] never changes; the deep copy of a parsed value is the value.
    Every operation is a state transformer that may throw and keeps what it had changed. *)

From Stdlib Require Import Ascii.
From S2P Require Import Prelude Js JsText CanonicalJson JsConvert.

Definition VOID_MEMPOOL_SELECTION_IN_PROGRESS : string := "mempool_selection_in_progress".
Definition VOID_MEMPOOL_SELECTED_MUTATION_FORBIDDEN : string := "mempool_selected_mutation_forbidden".
Definition VOID_MEMPOOL_RAW_INDEX_MUTATION_FORBIDDEN : string := "mempool_raw_index_mutation_forbidden".
Definition VOID_MEMPOOL_LENGTH_GROWTH_FORBIDDEN : string := "mempool_length_growth_forbidden".
Definition VOID_MEMPOOL_REENTRANT_MUTATION_FORBIDDEN : string := "mempool_reentrant_mutation_forbidden".

(** ** Identities *)

(** [text.replace(/^0x/, EMPTY)] *)
Definition strip_0x (s : string) : string := if has_0x s then slice_from 2 s else s.

(** The identity of an observed hash, which is a string, null or undefined. *)
Definition hash_id (hash : json) : string :=
  let text := match hash with JStr s => s | _ => EmptyString end in
  let h := strip_0x (toLowerCase (trim text)) in
  if is_hex64 h then h else EmptyString.

Definition observed_hash (raw : json) : res json :=
  match raw with
  | JUndefined | JNull => Ok raw
  | _ => text ← js_String raw; Ok (JStr text)
  end.

Definition canonicalHashObservationOf (tx : json) : res (string * json) :=
  hash ← observed_hash (tx.@"hash");
  Ok (hash_id hash, hash).

Definition strictCanonicalHashOf (tx : json) : res string :=
  text ← (if falsy (tx.@"hash") then Ok EmptyString else js_String (tx.@"hash"));
  let h := toLowerCase (trim text) in
  Ok (if is_hex64 h then h else EmptyString).

(** ** The queue *)

Inductive item : Type :=
| Primitive (v : json)
| Owned (ref : nat) (v : json).

Definition item_value (i : item) : json := match i with Primitive v | Owned _ v => v end.

(** [a === b] *)
Definition same (a b : item) : bool :=
  match a, b with
  | Primitive x, Primitive y => x === y
  | Owned r _, Owned r' _ => (r =? r')%nat
  | _, _ => false
  end.

(** The hash of an item is a string, null or undefined. *)
Definition comparableCanonicalHashOf (i : item) : string := hash_id ((item_value i).@"hash").

Record Mempool := mkMempool {
  queueTarget : list item;
  canonicalIdentities : gset string;
  selected : list item;
  mutationLocked : bool;
  next_ref : nat
}.

Definition new_Mempool : Mempool := mkMempool [] ∅ [] false 0.

(** ** Operations on the pool *)

Definition pool (A : Type) : Type := Mempool -> res A * Mempool.

#[export] Instance pool_ret : MRet pool := fun _ a m => (Ok a, m).
#[export] Instance pool_bind : MBind pool := fun _ _ f x m =>
  match x m with
  | (Ok a, m') => f a m'
  | (Throw e, m') => (Throw e, m')
  end.

Definition pool_throw {A} (e : string) : pool A := fun m => (Throw e, m).
Definition pool_call {A} (r : res A) : pool A := fun m => (r, m).
Definition pool_get : pool Mempool := fun m => (Ok m, m).
Definition pool_set (f : Mempool -> Mempool) : pool unit := fun m => (Ok tt, f m).

Definition with_queue (q : list item) (m : Mempool) : Mempool :=
  mkMempool q (canonicalIdentities m) (selected m) (mutationLocked m) (next_ref m).
Definition with_identities (ids : gset string) (m : Mempool) : Mempool :=
  mkMempool (queueTarget m) ids (selected m) (mutationLocked m) (next_ref m).
Definition with_selected (s : list item) (m : Mempool) : Mempool :=
  mkMempool (queueTarget m) (canonicalIdentities m) s (mutationLocked m) (next_ref m).
Definition with_lock (b : bool) (m : Mempool) : Mempool :=
  mkMempool (queueTarget m) (canonicalIdentities m) (selected m) b (next_ref m).
Definition with_ref (n : nat) (m : Mempool) : Mempool :=
  mkMempool (queueTarget m) (canonicalIdentities m) (selected m) (mutationLocked m) n.

(** [assertMutationUnlocked], then the body with the lock, released in any case *)
Definition withMutationEpoch {A} (body : pool A) : pool A := fun m =>
  if mutationLocked m then (Throw VOID_MEMPOOL_REENTRANT_MUTATION_FORBIDDEN, m)
  else let '(r, m') := body (with_lock true m) in (r, with_lock false m').

Fixpoint pool_map {A B} (f : A -> pool B) (l : list A) : pool (list B) :=
  match l with
  | [] => mret []
  | a :: l' => b ← f a; bs ← pool_map f l'; mret (b :: bs)
  end.

(** A reference that no object had before *)
Definition fresh_ref : pool nat :=
  m ← pool_get; pool_set (with_ref (S (next_ref m)));; mret (next_ref m).

(** The copy of an object: its own [hash] is redefined as the observed text. *)
Definition owned_value (tx : json) (hash : json) : json :=
  match tx with
  | JObj fs => if bool_decide ("hash" ∈ fs.*1) then extend (omit tx "hash") "hash" hash else tx
  | _ => tx
  end.

Definition ownCanonicalCompatItem (tx : json) : pool item :=
  match tx with
  | JArr _ | JObj _ =>
      observation ← pool_call (canonicalHashObservationOf tx);
      ref ← fresh_ref;
      mret (Owned ref (owned_value tx observation.2))
  | _ => mret (Primitive tx)
  end.

(** The identities of items, without the empty ones. *)
Definition identities (items : list item) : list string :=
  List.filter (fun id => negb (String.eqb id EmptyString)) (map comparableCanonicalHashOf items).

Definition addableStep (known removedIds : gset string) (batch : gset string) (id : string)
    : res (gset string) :=
  throw_if ((bool_decide (id ∈ known) && negb (bool_decide (id ∈ removedIds))) || bool_decide (id ∈ batch))
    "duplicate_transaction";;
  Ok (batch ∪ {[id]}).

Definition assertAddable (items : list item) (removedIds : gset string) : pool unit :=
  m ← pool_get;
  pool_call (foldM (addableStep (canonicalIdentities m) removedIds) ∅ (identities items));;
  mret tt.

Definition addIdentities (items : list item) : pool unit :=
  pool_set (fun m => with_identities (canonicalIdentities m ∪ list_to_set (identities items)) m).

Definition removeIdentities (items : list item) : pool unit :=
  pool_set (fun m => with_identities (canonicalIdentities m ∖ list_to_set (identities items)) m).

Definition selectedContainsAny (m : Mempool) (items : list item) : bool :=
  existsb (fun i => existsb (same i) (selected m)) items.

Definition compatPushLocked (items : list json) : pool nat :=
  ownedItems ← pool_map ownCanonicalCompatItem items;
  assertAddable ownedItems ∅;;
  pool_set (fun m => with_queue (queueTarget m ++ ownedItems) m);;
  addIdentities ownedItems;;
  m ← pool_get; mret (length (queueTarget m)).

Definition compatPush (items : list json) : pool nat := withMutationEpoch (compatPushLocked items).

Definition compatUnshiftLocked (items : list json) : pool nat :=
  ownedItems ← pool_map ownCanonicalCompatItem items;
  assertAddable ownedItems ∅;;
  pool_set (fun m => with_queue (ownedItems ++ queueTarget m) m);;
  addIdentities ownedItems;;
  m ← pool_get; mret (length (queueTarget m)).

Definition compatUnshift (items : list json) : pool nat := withMutationEpoch (compatUnshiftLocked items).

(** The arguments of [splice]: the first if it is given, the second if there are two, the rest. *)
Record splice_args := mkSpliceArgs {
  arg_start : option number;
  arg_delete : option number;
  arg_items : list json
}.

Definition spliceStart (len : Z) (a : splice_args) : Z :=
  let rawStart := default (Integer 0) (arg_start a) in
  let start0 := if isFinite rawStart then trunc rawStart else 0 in
  if start0 <? 0 then Z.max (len + start0) 0 else Z.min start0 len.

Definition spliceDelete (len start : Z) (a : splice_args) : Z :=
  match arg_delete a with
  | None => len - start
  | Some rawDelete => Z.min (Z.max (if isFinite rawDelete then trunc rawDelete else 0) 0) (len - start)
  end.

(** [array.slice(start, start + count)], and the array after [splice] *)
Definition slice_items (start count : Z) (q : list item) : list item :=
  take (Z.to_nat count) (drop (Z.to_nat start) q).
Definition spliced (start count : Z) (items q : list item) : list item :=
  take (Z.to_nat start) q ++ items ++ drop (Z.to_nat (start + count)) q.

(** The part of [splice] after the range is known. *)
Definition spliceRange (start deleteCount : Z) (txs : list json) : pool (list item) :=
  m ← pool_get;
  items ← pool_map ownCanonicalCompatItem txs;
  let removed := slice_items start deleteCount (queueTarget m) in
  if selectedContainsAny m removed then pool_throw VOID_MEMPOOL_SELECTED_MUTATION_FORBIDDEN else
  assertAddable items (list_to_set (identities removed));;
  pool_set (fun m => with_queue (spliced start deleteCount items (queueTarget m)) m);;
  removeIdentities removed;;
  addIdentities items;;
  mret removed.

Definition compatSpliceLocked (a : splice_args) : pool (list item) :=
  m ← pool_get;
  let len := Z.of_nat (length (queueTarget m)) in
  let start := spliceStart len a in
  spliceRange start (spliceDelete len start a) (arg_items a).

Definition compatSplice (a : splice_args) : pool (list item) := withMutationEpoch (compatSpliceLocked a).

(** [this.compatSpliceLocked([start, count])] *)
Definition removeRange (start count : Z) : pool (list item) :=
  compatSpliceLocked (mkSpliceArgs (Some (Integer start)) (Some (Integer count)) []).

Definition compatPop : pool (option item) := withMutationEpoch (
  m ← pool_get;
  match queueTarget m with
  | [] => mret None
  | q => removed ← removeRange (Z.of_nat (length q) - 1) 1; mret (head removed)
  end).

Definition compatShift : pool (option item) := withMutationEpoch (
  m ← pool_get;
  match queueTarget m with
  | [] => mret None
  | _ => removed ← removeRange 0 1; mret (head removed)
  end).

(** Without a comparison [sort] compares the texts of the elements. *)
Definition sorted_items (compareFn : option (item -> item -> Z)) (q : list item) : res (list item) :=
  match compareFn, q with
  | Some f, _ => Ok (isort (fun a b => f a b <=? 0) q)
  | None, [] | None, [_] => Ok q
  | None, _ =>
      texts ← map_res (fun i => text ← js_String (item_value i); Ok (text, i)) q;
      Ok (isort (fun a b => str_leb a.1 b.1) texts).*2
  end.

Definition compatSort (compareFn : option (item -> item -> Z)) : pool unit := withMutationEpoch (
  m ← pool_get;
  q ← pool_call (sorted_items compareFn (queueTarget m));
  pool_set (with_queue q)).

Definition compatReverse : pool unit := withMutationEpoch (
  pool_set (fun m => with_queue (reverse (queueTarget m)) m)).

Definition setCompatLength (value : number) : pool unit := withMutationEpoch (
  m ← pool_get;
  let len := Z.of_nat (length (queueTarget m)) in
  match value with
  | Integer next =>
      if (next <? 0) || (next >? 4294967295) then pool_throw "Invalid array length"
      else if next >? len then pool_throw VOID_MEMPOOL_LENGTH_GROWTH_FORBIDDEN
      else if next <? len then removeRange next (len - next);; mret tt
      else mret tt
  | _ => pool_throw "Invalid array length"
  end).

(** Setting, defining or deleting a property of the array by name. *)
Definition numericArrayIndex (prop : string) : bool :=
  is_canonical_decimal prop && (BigInt prop <? 4294967295).

Definition proxySet (prop : string) (value : number) : pool unit :=
  if String.eqb prop "length" then setCompatLength value
  else if numericArrayIndex prop then pool_throw VOID_MEMPOOL_RAW_INDEX_MUTATION_FORBIDDEN
  else mret tt.

Definition proxyDelete (prop : string) : pool unit :=
  if numericArrayIndex prop then pool_throw VOID_MEMPOOL_RAW_INDEX_MUTATION_FORBIDDEN else mret tt.

Definition proxyDefine (prop : string) : pool unit :=
  if String.eqb prop "length" || numericArrayIndex prop
  then pool_throw VOID_MEMPOOL_RAW_INDEX_MUTATION_FORBIDDEN else mret tt.

(** [fill] and [copyWithin] *)
Definition compatFill : pool unit := pool_throw VOID_MEMPOOL_RAW_INDEX_MUTATION_FORBIDDEN.

(** What is assigned to [txs]: the queue itself, an array, or anything else. *)
Inductive txs_value : Type := TheQueue | AnArray (items : list json) | NoArray.

Definition seenStep (seen : gset string) (id : string) : res (gset string) :=
  throw_if (bool_decide (id ∈ seen)) "duplicate_transaction";;
  Ok (seen ∪ {[id]}).

Definition set_txs (value : txs_value) : pool unit :=
  match value with
  | TheQueue => mret tt
  | NoArray => withMutationEpoch (pool_throw "mempool_txs_must_be_array")
  | AnArray items => withMutationEpoch (
      m ← pool_get;
      if negb (bool_decide (length (selected m) = 0%nat))
      then pool_throw VOID_MEMPOOL_SELECTED_MUTATION_FORBIDDEN else
      candidate ← pool_map ownCanonicalCompatItem items;
      seen ← pool_call (foldM seenStep ∅ (identities candidate));
      pool_set (with_queue candidate);;
      pool_set (with_identities seen))
  end.

Definition push (tx : json) : pool unit :=
  if negb (is_object tx) then mret tt
  else withMutationEpoch (
    hash ← pool_call (strictCanonicalHashOf tx);
    if String.eqb hash EmptyString then mret tt
    else
      let body := match tx.@"body" with JUndefined | JNull => JObj [] | b => b end in
      compatPushLocked [JObj ["hash" ~> hash; "body" ~> body]];; mret tt).

Definition peekAll (m : Mempool) : list item := queueTarget m.

Definition clear : pool unit := withMutationEpoch (
  m ← pool_get;
  match queueTarget m with
  | [] => mret tt
  | q => removeRange 0 (Z.of_nat (length q));; mret tt
  end).

Definition drain (max : option number) : pool (list item) := withMutationEpoch (
  m ← pool_get;
  let len := Z.of_nat (length (queueTarget m)) in
  let take := match max with
    | None | Some (Integer 0) | Some NotANumber => len
    | Some raw => if number_geb raw len then len else Z.max 0 (floor raw)
    end in
  removeRange 0 take).

(** [popMany] and [take], whose default is 1000 *)
Definition popMany (max : option number) : pool (list item) := drain (Some (default (Integer 1000) max)).

Definition beginSelection (max : option number) : pool (list item) := withMutationEpoch (
  m ← pool_get;
  if negb (bool_decide (length (selected m) = 0%nat)) then pool_throw VOID_MEMPOOL_SELECTION_IN_PROGRESS
  else
    let raw := default (Integer 1000) max in
    let count := Z.max 0 (Z.min (Z.of_nat (length (queueTarget m))) (if isFinite raw then floor raw else 0)) in
    let chosen := take (Z.to_nat count) (queueTarget m) in
    pool_set (with_selected chosen);; mret chosen).

(** The first index that is not used yet and holds the transaction. *)
Fixpoint findUnused (used : list nat) (tx : item) (i : nat) (q : list item) : option nat :=
  match q with
  | [] => None
  | x :: q' => if negb (bool_decide (i ∈ used)) && same x tx then Some i else findUnused used tx (S i) q'
  end.

Definition locateStep (q : list item) (indexes : list nat) (tx : item) : res (list nat) :=
  match findUnused indexes tx 0 q with
  | None => Throw "mempool_selected_entry_missing"
  | Some found => Ok (indexes ++ [found])
  end.

(** [splice(index, 1)] for every index, with what it removed *)
Definition removeAt (st : list item * list item) (index : nat) : list item * list item :=
  (delete index st.1, st.2 ++ option_list (st.1 !! index)).

Definition commitSelection : pool (list item) := withMutationEpoch (
  m ← pool_get;
  if bool_decide (length (selected m) = 0%nat) then mret [] else
  indexes ← pool_call (foldM (locateStep (queueTarget m)) [] (selected m));
  pool_set (with_selected []);;
  let descending := isort (fun a b => (b <=? a)%nat) indexes in
  let '(q, removed) := foldl removeAt (queueTarget m, []) descending in
  pool_set (with_queue q);;
  removeIdentities removed;;
  mret (selected m)).

Definition rollbackSelection : pool (list item) := withMutationEpoch (
  m ← pool_get;
  pool_set (with_selected []);;
  mret (selected m)).

Definition selectionSize (m : Mempool) : nat := length (selected m).
