(* ===== verification/MempoolSafety.v ===== *)
(** * Safety of the mempool

    The index of identities is exact, identities are unique, and selected transactions stay
    pending through any sequence of calls until their selection is committed or rolled
    back; a call that throws changes nothing. *)

From Stdlib Require Import Ascii.
From S2P Require Import Prelude Js JsText CanonicalJson JsConvert Mempool.

(** ** The invariant *)

Definition item_ref (i : item) : option nat := match i with Owned r _ => Some r | Primitive _ => None end.
Definition refs (items : list item) : list nat := omap item_ref items.

(** Parsed JSON has no [NaN]; a primitive is no object. *)
Definition parsed (v : json) : Prop := v <> JNum (NOther "NaN").
Definition plain (i : item) : Prop :=
  match i with Primitive v => is_object v = false /\ parsed v | Owned _ _ => True end.

(** Items with references of their own, from [lo] on and below [hi]. *)
Record fresh_items (lo hi : nat) (items : list item) : Prop := {
  fresh_distinct : NoDup (refs items);
  fresh_range : Forall (fun r => lo <= r < hi)%nat (refs items);
  fresh_plain : Forall plain items
}.

Record pool_inv (m : Mempool) : Prop := {
  inv_index : forall id, id ∈ canonicalIdentities m <-> id ∈ identities (queueTarget m);
  inv_unique : NoDup (identities (queueTarget m));
  inv_fresh : fresh_items 0 (next_ref m) (queueTarget m);
  inv_selected : selected m ⊆+ queueTarget m
}.

Record pool_ok (m : Mempool) : Prop := {
  ok_inv : pool_inv m;
  ok_unlocked : mutationLocked m = false
}.

(** ** Lists of items *)

Lemma identities_app l k : identities (l ++ k) = identities l ++ identities k.
Proof. unfold identities. by rewrite map_app, List.filter_app. Qed.

Lemma refs_app l k : refs (l ++ k) = refs l ++ refs k.
Proof. apply omap_app. Qed.

#[export] Instance identities_Proper : Proper ((≡ₚ) ==> (≡ₚ)) identities.
Proof. intros l k H. apply filter_perm. by apply Permutation_map. Qed.

#[export] Instance refs_Proper : Proper ((≡ₚ) ==> (≡ₚ)) refs.
Proof. intros l k H. unfold refs. by rewrite H. Qed.

#[export] Instance fresh_items_Proper lo hi : Proper ((≡ₚ) ==> iff) (fresh_items lo hi).
Proof.
  assert (forall l k, l ≡ₚ k -> fresh_items lo hi l -> fresh_items lo hi k) as Himp.
  { intros l k H [? ? ?]. split; by rewrite <- H. }
  intros l k H. split; apply Himp; [done|by symmetry].
Qed.

Lemma fresh_items_app lo mid hi l k : (lo <= mid <= hi)%nat ->
  fresh_items lo mid l -> fresh_items mid hi k -> fresh_items lo hi (l ++ k).
Proof.
  intros ? [Hnl Hrl Hpl] [Hnk Hrk Hpk]. rewrite Forall_forall in Hrl, Hrk.
  split; rewrite ?refs_app.
  - apply NoDup_app. split_and!; try done. intros r ? ?.
    specialize (Hrl r ltac:(done)). specialize (Hrk r ltac:(done)). lia.
  - apply Forall_app. split; apply Forall_forall; intros r Hr; [apply Hrl in Hr|apply Hrk in Hr]; lia.
  - by apply Forall_app.
Qed.

Lemma fresh_items_part lo hi l k : fresh_items lo hi (l ++ k) -> fresh_items lo hi l.
Proof.
  intros [Hn Hr Hp]. rewrite refs_app in Hn, Hr. apply NoDup_app in Hn as (? & _).
  apply Forall_app in Hr as [? _], Hp as [? _]. by split.
Qed.

Lemma fresh_items_weaken lo hi hi' l : (hi <= hi')%nat -> fresh_items lo hi l -> fresh_items lo hi' l.
Proof. intros ? [? Hr ?]. split; [done| |done]. eapply Forall_impl; [done|]. simpl. lia. Qed.

(** Items with references of their own are equal where [===] says so. *)
Lemma same_refl i : plain i -> same i i = true.
Proof.
  destruct i as [v|r v]; simpl; [|intros; apply Nat.eqb_refl]. intros [Hobj Hnan].
  destruct v as [| |b|[z|t]|s|l|fs]; simpl in *; try done.
  - by destruct b.
  - apply Z.eqb_refl.
  - rewrite String.eqb_refl. simpl. apply negb_true_iff, String.eqb_neq. intros ->. by apply Hnan.
  - apply String.eqb_refl.
Qed.

Lemma refs_inj l : NoDup (refs l) -> forall r v w, Owned r v ∈ l -> Owned r w ∈ l -> v = w.
Proof.
  induction l as [|i l IH]; [set_solver|]. intros Hnd r v w Hv Hw.
  assert (forall u, Owned r u ∈ l -> r ∈ refs l) as Href.
  { intros u Hu. apply list_elem_of_omap. by exists (Owned r u). }
  destruct i as [x|r' x]; cbn in Hnd.
  - apply elem_of_cons in Hv as [|Hv]; [done|]. apply elem_of_cons in Hw as [|Hw]; [done|]. by eapply IH.
  - apply NoDup_cons in Hnd as [Hni Hnd].
    apply elem_of_cons in Hv as [Hv|Hv]; apply elem_of_cons in Hw as [Hw|Hw].
    + congruence.
    + injection Hv as -> ->. by apply Href in Hw.
    + injection Hw as -> ->. by apply Href in Hv.
    + by eapply IH.
Qed.

Lemma same_eq l a b : NoDup (refs l) -> a ∈ l -> b ∈ l -> same a b = true -> a = b.
Proof.
  intros Hnd Ha Hb. destruct a as [x|r x], b as [y|r' y]; simpl; try done.
  - destruct x as [| |[]|[]| | |], y as [| |[]|[]| | |]; simpl; intros; try done; f_equal.
    + f_equal. by f_equal; apply Z.eqb_eq.
    + bool_prop. by do 2 f_equal; apply String.eqb_eq.
    + by f_equal; apply String.eqb_eq.
  - intros ->%Nat.eqb_eq. f_equal. by eapply refs_inj.
Qed.

(** ** Taking copies *)

Definition owns {A} (items : A -> list item) (m : Mempool) (x : res A * Mempool) : Prop :=
  exists n, x.2 = with_ref n m /\ (next_ref m <= n)%nat /\
    forall a, x.1 = Ok a -> fresh_items (next_ref m) n (items a).

Lemma own_spec tx m : parsed tx -> owns (fun i => [i]) m (ownCanonicalCompatItem tx m).
Proof.
  intros Hp. assert (forall o : json, owns (fun i => [i]) m (Ok (Owned (next_ref m) o), with_ref (S (next_ref m)) m))
    as Hnew.
  { intros o. exists (S (next_ref m)). split_and!; [done|simpl; lia|]. intros i [= <-]. simpl.
    split; [apply NoDup_singleton|repeat constructor; lia|by repeat constructor]. }
  assert (is_object tx = false -> owns (fun i => [i]) m (Ok (Primitive tx), m)) as Hprim.
  { intros Hobj. exists (next_ref m). split_and!; [by destruct m|done|]. intros i [= <-].
    split; [apply NoDup_nil_2|constructor|by repeat constructor]. }
  unfold ownCanonicalCompatItem. destruct tx; try by apply Hprim.
  all: unfold mbind, pool_bind, pool_call; destruct (canonicalHashObservationOf _); [apply Hnew|].
  all: exists (next_ref m); split_and!; [by destruct m|done|done].
Qed.

Lemma own_all_spec txs m : Forall parsed txs -> owns id m (pool_map ownCanonicalCompatItem txs m).
Proof.
  intros Hp. revert m. induction Hp as [|tx txs Htx _ IH]; intros m.
  { exists (next_ref m). split_and!; [by destruct m|done|]. intros a [= <-].
    split; [apply NoDup_nil_2|constructor|constructor]. }
  cbn [pool_map]. unfold mbind, pool_bind. destruct (own_spec tx m Htx) as (n & Hm & Hn & Hi).
  destruct (ownCanonicalCompatItem tx m) as [[i|e] m1]; simpl in Hm; subst m1; [|by exists n].
  destruct (IH (with_ref n m)) as (n' & Hm' & Hn' & Hl). unfold mbind, pool_bind.
  destruct (pool_map ownCanonicalCompatItem txs (with_ref n m)) as [[l|e] m2]; simpl in Hm', Hn'; subst m2;
    (exists n'; split_and!; [done|lia|]); [|done].
  intros a [= <-]. apply (fresh_items_app _ n _ [i] l); [lia|by apply Hi|by apply Hl].
Qed.

(** The copy of a value that enters the queue. *)
Definition copy_of (tx : json) (i : item) : Prop :=
  match i with
  | Primitive v => v = tx /\ is_object tx = false
  | Owned _ v => is_object tx = true /\ exists hash, observed_hash (tx.@"hash") = Ok hash /\ v = owned_value tx hash
  end.

Lemma own_copy tx m i m' : ownCanonicalCompatItem tx m = (Ok i, m') -> copy_of tx i.
Proof.
  unfold ownCanonicalCompatItem. destruct tx; try by intros [= <- <-].
  all: unfold mbind, pool_bind, pool_call; destruct (canonicalHashObservationOf _) as [o|e] eqn:Ho;
    [|discriminate]; intros [= <- <-]; split; [done|]; unfold canonicalHashObservationOf in Ho; inv_ok; by eexists.
Qed.

Lemma own_all_copies txs m l m' : pool_map ownCanonicalCompatItem txs m = (Ok l, m') -> Forall2 copy_of txs l.
Proof.
  revert m l. induction txs as [|tx txs IH]; intros m l; cbn [pool_map]; [by intros [= <- <-]|].
  unfold mbind, pool_bind. destruct (ownCanonicalCompatItem tx m) as [[i|e] m1] eqn:Hi; [|discriminate].
  unfold mbind, pool_bind. destruct (pool_map _ txs m1) as [[k|e] m2] eqn:Hk; [|discriminate]. intros [= <- <-].
  constructor; [by eapply own_copy|by eapply IH].
Qed.

(** ** The identities of a batch *)

(** A batch of distinct identities, each new or freed by the removal. *)
Definition addable (known removed : gset string) (ids : list string) : Prop :=
  NoDup ids /\ (forall id, id ∈ ids -> id ∈ known -> id ∈ removed).

Lemma addable_spec known removed ids batch :
  let admitted := addable known removed ids /\ (forall id, id ∈ ids -> (id ∉ batch)) in
  match foldM (addableStep known removed) batch ids with
  | Ok _ => admitted
  | Throw e => e = "duplicate_transaction"%string /\ ~ admitted
  end.
Proof.
  revert batch. induction ids as [|id ids IH]; intros batch.
  { split; [split; [constructor|]|]; set_solver. }
  cbn [foldM]. destruct (addableStep known removed batch id) as [b|e] eqn:Hstep; unfold addableStep in Hstep;
    cbn [mbind res_bind]; cycle 1; revert Hstep;
    match goal with |- context [throw_if ?b _] => destruct b eqn:Hdup end; intros [= <-].
  - split; [done|]. intros [[Hnd Hk] Hb].
    apply orb_true_iff in Hdup as [[Hin%bool_decide_eq_true Hout]%andb_true_iff|Hin%bool_decide_eq_true].
    + apply negb_true_iff, bool_decide_eq_false in Hout. apply Hout, Hk; [left|done].
    + apply (Hb id); [left|done].
  - apply orb_false_iff in Hdup as [Hk Hb%bool_decide_eq_false].
    assert (id ∈ known -> id ∈ removed) as Hid.
    { intros Hin. rewrite (bool_decide_eq_true_2 _ Hin) in Hk. simpl in Hk.
      by apply negb_false_iff, bool_decide_eq_true in Hk. }
    specialize (IH (batch ∪ {[id]})). simpl in IH. destruct (foldM _ _ ids).
    + destruct IH as [[Hnd Hall] Hbatch]. split; [split; [constructor; [|done]|]|]; set_solver.
    + destruct IH as [-> Hno]. split; [done|]. intros [[Hnd Hall] Hbatch]. apply Hno.
      apply NoDup_cons in Hnd as [Hni ?]. split; [split; [done|]|]; set_solver.
Qed.

Lemma assertAddable_spec items removed m :
  (assertAddable items removed m).2 = m /\
  ((assertAddable items removed m).1 = Ok tt <-> addable (canonicalIdentities m) removed (identities items)) /\
  (forall e, (assertAddable items removed m).1 = Throw e -> e = "duplicate_transaction"%string).
Proof.
  unfold assertAddable, mbind, pool_bind, pool_call, pool_get. simpl.
  pose proof (addable_spec (canonicalIdentities m) removed (identities items) ∅) as Hs. simpl in Hs.
  destruct (foldM _ _ _) as [b|e]; simpl; (split; [done|]).
  - destruct Hs as [Hs _]. by split.
  - destruct Hs as [-> Hno]. split; [split; [done|]|by intros e [= <-]]. intros Hadd. exfalso. apply Hno.
    split; [done|set_solver].
Qed.

(** ** Replacing a range *)

Definition replaced (m : Mempool) (a items removed c : list item) (n : nat) : Mempool :=
  mkMempool (a ++ items ++ c)
    ((canonicalIdentities m ∖ list_to_set (identities removed)) ∪ list_to_set (identities items))
    (selected m) (mutationLocked m) n.

Lemma submseteq_avoid {A} (l a b : list A) : l ⊆+ a ++ b -> (forall x, x ∈ b -> x ∉ l) -> l ⊆+ a.
Proof.
  intros (k1 & k2 & Hp & H1 & H2)%submseteq_app_r Hb. destruct k2 as [|x k2].
  - rewrite app_nil_r in Hp. by rewrite Hp.
  - exfalso. apply (Hb x); [apply (elem_of_submseteq (x :: k2)); [left|done]|]. rewrite Hp. set_solver.
Qed.

Lemma replaced_inv m a items removed c n :
  pool_inv m -> queueTarget m = a ++ removed ++ c ->
  (forall x, x ∈ removed -> x ∉ selected m) ->
  (next_ref m <= n)%nat -> fresh_items (next_ref m) n items ->
  addable (canonicalIdentities m) (list_to_set (identities removed)) (identities items) ->
  pool_inv (replaced m a items removed c n).
Proof.
  intros [Hindex Huniq Hfresh Hsel] Hq Hfree Hn Hitems [Hnd Hadd].
  assert (queueTarget m ≡ₚ (a ++ c) ++ removed) as Hp by (rewrite Hq; solve_Permutation).
  assert (a ++ items ++ c ≡ₚ (a ++ c) ++ items) as Hp' by solve_Permutation.
  pose proof (identities_Proper _ _ Hp) as Hids. rewrite identities_app in Hids.
  rewrite Hids in Huniq. apply NoDup_app in Huniq as (Hac & Hdisj & _).
  assert (forall id, id ∈ canonicalIdentities m <-> id ∈ identities (a ++ c) \/ id ∈ identities removed) as Hmem.
  { intros id. rewrite Hindex, Hids. apply elem_of_app. }
  split; simpl.
  - intros id. rewrite (identities_Proper _ _ Hp'), identities_app, elem_of_app, elem_of_union, elem_of_difference,
      !elem_of_list_to_set, Hmem. split; [naive_solver|]. intros [?|?]; [|by right]. left. split; [by left|].
    by apply Hdisj.
  - rewrite (identities_Proper _ _ Hp'), identities_app. apply NoDup_app. split_and!; try done.
    intros id Hid Hit. apply (Hdisj id Hid), (elem_of_list_to_set (C := gset string)), Hadd; [done|]. apply Hmem. by left.
  - rewrite Hp'. apply (fresh_items_app _ (next_ref m)); [lia| |done].
    rewrite Hp in Hfresh. by apply fresh_items_part in Hfresh.
  - rewrite Hp'. transitivity (a ++ c); [|apply submseteq_inserts_r; done].
    rewrite Hp in Hsel. by eapply submseteq_avoid.
Qed.

(** ** What a mutator may do to the pool *)

(** The invariant is kept, the selection too where it is [frozen], and nothing changed
    where the mutator threw. *)
Record edited (frozen : bool) (m : Mempool) (ok : bool) (m' : Mempool) : Prop := {
  ed_inv : pool_inv m';
  ed_selected : frozen = true -> selected m' = selected m;
  ed_lock : mutationLocked m' = mutationLocked m;
  ed_threw : ok = false -> exists n, m' = with_ref n m
}.

Definition edits (frozen : bool) {A} (x : pool A) : Prop :=
  forall m, pool_inv m -> edited frozen m (is_ok (x m).1) (x m).2.

Lemma pool_inv_ref m n : (next_ref m <= n)%nat -> pool_inv m -> pool_inv (with_ref n m).
Proof. intros ? [? ? ? ?]. split; try done. by eapply fresh_items_weaken. Qed.

Lemma edited_ref z m n ok : (next_ref m <= n)%nat -> pool_inv m -> edited z m ok (with_ref n m).
Proof. intros. split; [by apply pool_inv_ref|done|done|by exists n]. Qed.

Lemma edited_refl z m ok : pool_inv m -> edited z m ok m.
Proof. intros. split; [done|done|done|]. exists (next_ref m). by destruct m. Qed.

Lemma edits_discard z {A B} (x : pool A) (f : A -> B) : edits z x -> edits z (a ← x; mret (f a)).
Proof.
  intros Hx m Hm. specialize (Hx m Hm). unfold mbind, pool_bind. by destruct (x m) as [[a|e] m'].
Qed.

Lemma edits_throw z {A} e : edits z (@pool_throw A e).
Proof. intros m Hm. by apply edited_refl. Qed.

Lemma edits_ret z {A} (a : A) : edits z (mret a).
Proof. intros m Hm. by apply edited_refl. Qed.

Lemma edits_get z {A} (f : Mempool -> pool A) : (forall m, edits z (f m)) -> edits z (m ← pool_get; f m).
Proof. intros Hf m Hm. by apply Hf. Qed.

Lemma edits_call z {A B} (r : res B) (f : B -> pool A) : (forall b, edits z (f b)) -> edits z (b ← pool_call r; f b).
Proof. intros Hf m Hm. destruct r as [b|e]; [by apply (Hf b)|by apply edited_refl]. Qed.

(** Copying new items and putting them in place of a range. *)
Lemma edits_replace z {A} (txs : list json) (a removed c : list item) (install : list item -> pool A) m :
  pool_inv m -> Forall parsed txs -> queueTarget m = a ++ removed ++ c ->
  (forall x, x ∈ removed -> x ∉ selected m) ->
  (forall l n, exists r, install l (with_ref n m) = (Ok r, replaced m a l removed c n)) ->
  let x := (ownedItems ← pool_map ownCanonicalCompatItem txs;
            assertAddable ownedItems (list_to_set (identities removed));;
            install ownedItems) m in
  edited z m (is_ok x.1) x.2.
Proof.
  intros Hinv Htxs Hq Hfree Hinst. destruct (own_all_spec txs m Htxs) as (n & Hm & Hn & Hown).
  unfold mbind, pool_bind. destruct (pool_map ownCanonicalCompatItem txs m) as [[l|e] m1]; simpl in *; subst m1;
    [|by apply edited_ref].
  destruct (assertAddable_spec l (list_to_set (identities removed)) (with_ref n m)) as (Hsame & Hadd & _).
  destruct (assertAddable _ _ (with_ref n m)) as [[[]|e] m2]; simpl in *; subst m2; [|by apply edited_ref].
  destruct (Hinst l n) as [r ->]. split; try done.
  apply (replaced_inv m a l removed c n); try done; [by apply Hown|by apply Hadd].
Qed.

Lemma replaced_nothing m a l c n : mkMempool (a ++ l ++ c) (canonicalIdentities m ∪ list_to_set (identities l))
  (selected m) (mutationLocked m) n = replaced m a l [] c n.
Proof. unfold replaced. f_equal. set_solver. Qed.

Lemma compatPushLocked_edits z txs : Forall parsed txs -> edits z (compatPushLocked txs).
Proof.
  intros Htxs m Hm. apply (edits_replace _ txs (queueTarget m) [] []); try done.
  - by rewrite !app_nil_r.
  - set_solver.
  - intros l n. eexists. rewrite <- replaced_nothing, app_nil_r. reflexivity.
Qed.

Lemma compatUnshiftLocked_edits z txs : Forall parsed txs -> edits z (compatUnshiftLocked txs).
Proof.
  intros Htxs m Hm. apply (edits_replace _ txs [] [] (queueTarget m)); try done.
  - set_solver.
  - intros l n. eexists. rewrite <- replaced_nothing. reflexivity.
Qed.

Lemma splice_range len a : 0 <= len ->
  let start := spliceStart len a in
  let count := spliceDelete len start a in
  0 <= start <= len /\ 0 <= count <= len - start.
Proof.
  intros Hlen. unfold spliceStart, spliceDelete. case_match; destruct (arg_delete a); lia.
Qed.

Lemma spliced_split start count (q : list item) : 0 <= start -> 0 <= count ->
  q = take (Z.to_nat start) q ++ slice_items start count q ++ drop (Z.to_nat (start + count)) q.
Proof.
  intros. unfold slice_items. rewrite Z2Nat.inj_add by lia. rewrite <- drop_drop.
  by rewrite (take_drop (Z.to_nat count)), take_drop.
Qed.

Lemma not_selected m removed : Forall plain removed -> selectedContainsAny m removed = false ->
  forall x, x ∈ removed -> x ∉ selected m.
Proof.
  intros Hplain Hno x Hx Hsel. rewrite Forall_forall in Hplain. apply not_true_iff_false in Hno. apply Hno.
  apply existsb_exists. exists x. split; [by apply list_elem_of_In|].
  apply existsb_exists. exists x. split; [by apply list_elem_of_In|]. by apply same_refl, Hplain.
Qed.

Lemma spliceRange_edits z start count txs : 0 <= start -> 0 <= count -> Forall parsed txs ->
  edits z (spliceRange start count txs).
Proof.
  intros Hs Hc Htxs m Hm. pose proof (spliced_split start count (queueTarget m) Hs Hc) as Hq.
  unfold spliceRange. set (removed := slice_items start count (queueTarget m)) in *.
  destruct (selectedContainsAny m removed) eqn:Hsel.
  - destruct (own_all_spec txs m Htxs) as (n & Hm1 & Hn & _).
    unfold mbind, pool_bind. simpl. fold removed. rewrite Hsel.
    destruct (pool_map _ _ m) as [[l|e] m1]; simpl in *; subst m1; by apply edited_ref.
  - assert (Forall plain removed) as Hplain.
    { pose proof (fresh_plain _ _ _ (inv_fresh _ Hm)) as Hp. rewrite Hq in Hp.
      by apply Forall_app in Hp as [_ [Hp _]%Forall_app]. }
    pose proof (not_selected m removed Hplain Hsel) as Hfree.
    pose proof (edits_replace z txs _ removed _ (fun items =>
      pool_set (fun m => with_queue (spliced start count items (queueTarget m)) m);;
      removeIdentities removed;; addIdentities items;; mret removed) m Hm Htxs Hq Hfree) as Hed.
    unfold mbind, pool_bind in *. simpl in *. fold removed. rewrite Hsel. apply Hed. intros l n. by exists removed.
Qed.

Lemma compatSpliceLocked_edits z a : Forall parsed (arg_items a) -> edits z (compatSpliceLocked a).
Proof.
  intros Htxs m Hm. destruct (splice_range (Z.of_nat (length (queueTarget m))) a) as [? ?]; [lia|].
  apply spliceRange_edits; [lia|lia|done|done].
Qed.

Lemma removeRange_edits z start count : edits z (removeRange start count).
Proof. apply compatSpliceLocked_edits. constructor. Qed.

(** ** Reordering *)

Lemma inv_reorder m q : pool_inv m -> q ≡ₚ queueTarget m -> pool_inv (with_queue q m).
Proof.
  intros [Hindex Huniq Hfresh Hsel] Hp. split; simpl.
  - intros id. by rewrite Hindex, (identities_Proper _ _ Hp).
  - by rewrite (identities_Proper _ _ Hp).
  - by rewrite Hp.
  - by rewrite Hp.
Qed.

Lemma sorted_items_perm f q q' : sorted_items f q = Ok q' -> q' ≡ₚ q.
Proof.
  unfold sorted_items. destruct f as [f|]; [intros [= <-]; apply isort_perm|].
  destruct q as [|i [|j q]]; [by intros [= <-]..|]. intros ?. inv_ok.
  match goal with H : map_res _ _ = Ok ?t |- _ => rename H into Hmap; assert (t.*2 = i :: j :: q) as Ht end.
  { apply mapi_res_Forall2 in Hmap. clear -Hmap. induction Hmap as [|a b l k [n Hn] _ IH]; [done|].
    inv_ok. rewrite fmap_cons. simpl. by f_equal. }
  rewrite <- Ht. apply (fmap_Permutation snd), isort_perm.
Qed.

Lemma edits_sort z f : edits z (m ← pool_get; q ← pool_call (sorted_items f (queueTarget m)); pool_set (with_queue q)).
Proof.
  intros m Hm. unfold mbind, pool_bind, pool_call. simpl.
  destruct (sorted_items f (queueTarget m)) as [q|e] eqn:Hq; [|by apply edited_refl].
  split; try done. by eapply inv_reorder, sorted_items_perm.
Qed.

Lemma edits_reverse z : edits z (pool_set (fun m => with_queue (reverse (queueTarget m)) m)).
Proof. intros m Hm. split; try done. apply inv_reorder; [done|apply reverse_Permutation]. Qed.

(** ** The mutation lock *)

Lemma pool_inv_lock b m : pool_inv m -> pool_inv (with_lock b m).
Proof. by intros [? ? ? ?]. Qed.

Lemma epoch_edits z {A} (x : pool A) : edits z x -> edits z (withMutationEpoch x).
Proof.
  intros Hx m Hm. unfold withMutationEpoch. destruct (mutationLocked m) eqn:Hlock; [by apply edited_refl|].
  specialize (Hx (with_lock true m) (pool_inv_lock _ _ Hm)).
  destruct (x (with_lock true m)) as [r m']. destruct Hx as [Hi Hs Hl Ht]. simpl in *.
  split; simpl; [by apply pool_inv_lock|done|done|]. intros [n ->]%Ht. exists n.
  destruct m. simpl in *. by subst.
Qed.

(** ** Assigning the whole array *)

Lemma seen_spec ids seen :
  match foldM seenStep seen ids with
  | Ok seen' => seen' = seen ∪ list_to_set ids /\ NoDup ids
  | Throw e => e = "duplicate_transaction"%string
  end.
Proof.
  revert seen. assert (forall seen, match foldM seenStep seen ids with
    | Ok seen' => seen' = seen ∪ list_to_set ids /\ NoDup ids /\ (forall id, id ∈ ids -> id ∉ seen)
    | Throw e => e = "duplicate_transaction"%string end) as Hs.
  { induction ids as [|id ids IH]; intros seen; [split_and!; [set_solver|constructor|set_solver]|].
    cbn [foldM]. destruct (seenStep seen id) as [s|e] eqn:Hstep; unfold seenStep in Hstep; cbn [mbind res_bind].
    - inv_ok. match goal with H : bool_decide _ = false |- _ => apply bool_decide_eq_false in H end.
      specialize (IH (seen ∪ {[id]})). destruct (foldM _ _ ids); [|done]. destruct IH as (-> & Hnd & Hno).
      split_and!; [set_solver|constructor; [set_solver|done]|set_solver].
    - by apply bind_Throw in Hstep as [[_ ->]%throw_if_Throw|(? & _ & [=])]. }
  intros seen. specialize (Hs seen). destruct (foldM _ _ _); [|done]. naive_solver.
Qed.

Lemma edits_set_txs z v : (forall items, v = AnArray items -> Forall parsed items) -> edits z (set_txs v).
Proof.
  intros Hv. destruct v as [|items|]; [apply edits_ret| |apply epoch_edits, edits_throw].
  specialize (Hv items eq_refl). apply epoch_edits. intros m Hm. unfold mbind, pool_bind, pool_call. simpl.
  destruct (negb _) eqn:Hsel; [by apply edited_refl|]. apply negb_false_iff, bool_decide_eq_true in Hsel.
  apply length_zero_iff_nil in Hsel. destruct (own_all_spec items m Hv) as (n & Hm1 & Hn & Hown).
  destruct (pool_map _ _ m) as [[l|e] m1]; simpl in *; subst m1; [|by apply edited_ref].
  pose proof (seen_spec (identities l) ∅) as Hseen. destruct (foldM seenStep ∅ _); [|by apply edited_ref].
  destruct Hseen as [-> Hnd]. specialize (Hown l eq_refl) as Hl. split; try done. split; simpl; [set_solver|done| |].
  - destruct Hl as [? Hr ?]. split; try done. eapply Forall_impl; [done|]. simpl. lia.
  - rewrite Hsel. apply submseteq_nil_l.
Qed.

(** ** Committing a selection *)

(** The items at the indices that are not used, counted from [i]. *)
Fixpoint rest_of (used : list nat) (i : nat) (q : list item) : list item :=
  match q with
  | [] => []
  | x :: q' => if bool_decide (i ∈ used) then rest_of used (S i) q' else x :: rest_of used (S i) q'
  end.

Lemma rest_of_sublist used i q : rest_of used i q `sublist_of` q.
Proof.
  revert i. induction q as [|x q IH]; intros i; simpl; [constructor|].
  case_bool_decide; [by apply sublist_cons|by apply sublist_skip].
Qed.

Lemma rest_of_perm used used' i q : used ≡ₚ used' -> rest_of used i q = rest_of used' i q.
Proof.
  intros Hp. revert i. induction q as [|x q IH]; intros i; simpl; [done|].
  rewrite (bool_decide_ext (i ∈ used) (i ∈ used')) by by rewrite Hp. by rewrite IH.
Qed.

Lemma rest_of_below used i q : Forall (fun j => j < i)%nat used -> rest_of used i q = q.
Proof.
  revert i. induction q as [|x q IH]; intros i Hu; simpl; [done|]. rewrite Forall_forall in Hu.
  case_bool_decide as Hin; [apply Hu in Hin; lia|]. f_equal. apply IH, Forall_forall.
  intros j Hj. apply Hu in Hj. lia.
Qed.

Lemma rest_of_cons used i j q x : (i <= j)%nat -> (j ∉ used) -> q !! (j - i)%nat = Some x ->
  rest_of used i q ≡ₚ x :: rest_of (j :: used) i q.
Proof.
  revert i. induction q as [|y q IH]; intros i Hij Hu Hx; [by rewrite lookup_nil in Hx|]. cbn [rest_of].
  destruct (decide (i = j)) as [->|Hne].
  - rewrite Nat.sub_diag in Hx. injection Hx as ->. rewrite bool_decide_eq_false_2 by done.
    rewrite bool_decide_eq_true_2 by left. f_equiv. clear -Hu. generalize (le_n (S j)). generalize (S j) at 2 3 4.
    induction q as [|y q IH]; intros k Hk; simpl; [done|].
    rewrite (bool_decide_ext (k ∈ j :: used) (k ∈ used)).
    + case_bool_decide; [by apply IH; lia|]. f_equiv. apply IH. lia.
    + rewrite elem_of_cons. split; [intros [?|?]; [lia|done]|by right].
  - replace (j - i)%nat with (S (j - S i)) in Hx by lia.
    rewrite (bool_decide_ext (i ∈ j :: used) (i ∈ used)) by (rewrite elem_of_cons; naive_solver).
    specialize (IH (S i) ltac:(lia) Hu Hx). case_bool_decide; [done|]. rewrite IH. constructor.
Qed.

Lemma findUnused_Some used tx i q j : findUnused used tx i q = Some j ->
  (i <= j)%nat /\ (j ∉ used) /\ exists x, q !! (j - i)%nat = Some x /\ same x tx = true.
Proof.
  revert i. induction q as [|x q IH]; intros i; simpl; [done|]. destruct (negb _ && _) eqn:Hb.
  - intros [= <-]. apply andb_true_iff in Hb as [Hu ?].
    apply negb_true_iff, bool_decide_eq_false in Hu. split; [lia|]. split; [done|].
    rewrite Nat.sub_diag. by exists x.
  - intros (? & ? & y & Hy & ?)%IH. split; [lia|]. split; [done|]. exists y. split; [|done].
    by replace (j - i)%nat with (S (j - S i)) by lia.
Qed.

Lemma findUnused_total used tx i q : tx ∈ rest_of used i q -> plain tx ->
  exists j, findUnused used tx i q = Some j.
Proof.
  revert i. induction q as [|x q IH]; intros i Hin Hp; simpl in *; [set_solver|].
  case_bool_decide as Hu; cbn [negb andb]; [by apply IH|].
  destruct (same x tx) eqn:Hs; [by eexists|]. apply IH; [|done].
  apply elem_of_cons in Hin as [->|?]; [|done]. by rewrite same_refl in Hs.
Qed.

(** The indices found for the transactions [l] of the queue. *)
Record located (q l : list item) (indexes : list nat) : Prop := {
  loc_distinct : NoDup indexes;
  loc_items : Forall2 (fun j x => q !! j = Some x) indexes l;
  loc_rest : q ≡ₚ l ++ rest_of indexes 0 q
}.

Lemma located_snoc q l indexes j x : located q l indexes -> (j ∉ indexes) -> q !! j = Some x ->
  located q (l ++ [x]) (indexes ++ [j]).
Proof.
  intros [Hnd Hall Hrest] Hj Hx. split.
  - by apply NoDup_snoc.
  - apply Forall2_app; [done|]. by constructor.
  - rewrite (rest_of_perm (indexes ++ [j]) (j :: indexes)) by (symmetry; apply Permutation_cons_append).
    rewrite <- app_assoc. simpl. rewrite <- (rest_of_cons indexes 0 j); [done|lia|done|by rewrite Nat.sub_0_r].
Qed.

Lemma locate_all q l k indexes : NoDup (refs q) -> Forall plain q -> located q l indexes -> l ++ k ⊆+ q ->
  exists indexes', foldM (locateStep q) indexes k = Ok indexes' /\ located q (l ++ k) indexes'.
Proof.
  intros Hrefs Hplain. revert l indexes. induction k as [|tx k IH]; intros l indexes Hloc Hsub.
  { exists indexes. by rewrite app_nil_r. }
  assert (tx ∈ rest_of indexes 0 q) as Hin.
  { apply singleton_submseteq_l, (submseteq_app_inv_l _ _ l). rewrite <- (loc_rest _ _ _ Hloc).
    transitivity (l ++ tx :: k); [|done]. apply submseteq_skips_l, submseteq_skip, submseteq_nil_l. }
  assert (tx ∈ q) as Htx by (eapply elem_of_submseteq; [|done]; set_solver).
  destruct (findUnused_total indexes tx 0 q Hin) as [j Hj]; [by eapply Forall_forall in Hplain|].
  destruct (findUnused_Some _ _ _ _ _ Hj) as (_ & Hju & x & Hx & Hsame). rewrite Nat.sub_0_r in Hx.
  apply (same_eq q) in Hsame as ->; [|done|by eapply list_elem_of_lookup_2|done].
  assert (locateStep q indexes tx = Ok (indexes ++ [j])) as Hstep by (unfold locateStep; by rewrite Hj).
  cbn [foldM]. rewrite Hstep. cbn [mbind res_bind].
  destruct (IH (l ++ [tx]) (indexes ++ [j])) as (idx & ? & ?); [by apply located_snoc|by rewrite <- app_assoc|].
  exists idx. by rewrite <- app_assoc in *.
Qed.

Lemma rest_of_delete used i j q : (i <= j)%nat -> Forall (fun u => u < j)%nat used ->
  rest_of used i (delete (j - i)%nat q) = rest_of (j :: used) i q.
Proof.
  revert i. induction q as [|x q IH]; intros i Hij Hu; [by destruct (j - i)%nat|].
  destruct (decide (i = j)) as [->|Hne].
  - rewrite Nat.sub_diag. cbn. rewrite bool_decide_eq_true_2 by left.
    rewrite !rest_of_below; [done| |].
    + constructor; [lia|]. eapply Forall_impl; [done|]. simpl. lia.
    + done.
  - replace (j - i)%nat with (S (j - S i)) by lia. cbn.
    rewrite (bool_decide_ext (i ∈ j :: used) (i ∈ used)) by (rewrite elem_of_cons; naive_solver).
    change (base.delete (j - S i)%nat q) with (delete (j - S i)%nat q). rewrite IH by (lia || done). done.
Qed.

Lemma omap_lookups (q q' : list item) ds : Forall (fun i => q !! i = q' !! i) ds ->
  omap (fun i => q !! i) ds = omap (fun i => q' !! i) ds.
Proof. induction 1 as [|i ds Hi _ IH]; [done|]. cbn. by rewrite Hi, <- IH. Qed.

Lemma removeAt_all q acc ds : Sorted.StronglySorted (fun a b => b < a)%nat ds ->
  foldl removeAt (q, acc) ds = (rest_of ds 0 q, acc ++ omap (fun i => q !! i) ds).
Proof.
  intros Hs. revert q acc. induction Hs as [|i ds Hs IH Hi]; intros q acc.
  { cbn. by rewrite app_nil_r, rest_of_below. }
  cbn [foldl]. unfold removeAt at 2. cbn [fst snd]. rewrite IH. f_equal.
  - rewrite <- (rest_of_delete ds 0 i) by (lia || done). by rewrite Nat.sub_0_r.
  - rewrite <- app_assoc. f_equal. rewrite (omap_lookups (delete i q) q).
    + cbn. by destruct (q !! i).
    + eapply Forall_impl; [exact Hi|]. intros u Hu. by apply list_lookup_delete_lt.
Qed.

Lemma located_items q l indexes : located q l indexes -> omap (fun i => q !! i) indexes = l.
Proof.
  intros [_ Hall _]. induction Hall as [|i x indexes l Hx _ IH]; [done|]. cbn. rewrite Hx. by f_equal.
Qed.

(** The indices in descending order. *)
Lemma descending_sorted indexes : NoDup indexes ->
  Sorted.StronglySorted (fun a b => b < a)%nat (isort (fun a b => (b <=? a)%nat) indexes).
Proof.
  intros Hnd. set (ds := isort _ indexes).
  assert (NoDup ds) as Hds by (unfold ds; by rewrite (isort_perm _ indexes)).
  assert (Sorted.StronglySorted (fun a b => (b <=? a)%nat = true) ds) as Hs.
  { apply isort_Sorted.
    - intros a b. destruct (Nat.leb_spec b a); [by left|]. right. apply Nat.leb_le. lia.
    - intros a b c. rewrite !Nat.leb_le. lia. }
  clearbody ds. induction Hs as [|i ds Hs IH Hi]; [constructor|]. apply NoDup_cons in Hds as [Hni Hds].
  constructor; [by apply IH|]. rewrite Forall_forall in *. intros j Hj.
  specialize (Hi j Hj). apply Nat.leb_le in Hi. assert (j <> i) by congruence. lia.
Qed.

(** What committing does: it never throws, and takes out the selected entries alone. *)
Record committed (m m' : Mempool) : Prop := {
  com_perm : queueTarget m ≡ₚ selected m ++ queueTarget m';
  com_order : queueTarget m' `sublist_of` queueTarget m;
  com_selected : selected m' = [];
  com_ids : canonicalIdentities m' = canonicalIdentities m ∖ list_to_set (identities (selected m));
  com_lock : mutationLocked m' = mutationLocked m;
  com_ref : next_ref m' = next_ref m
}.

Lemma commitSelection_spec m : pool_ok m ->
  exists m', commitSelection m = (Ok (selected m), m') /\ committed m m'.
Proof.
  intros [Hinv Hlock]. unfold commitSelection, withMutationEpoch. rewrite Hlock.
  unfold mbind, pool_bind, pool_call. simpl. case_bool_decide as Hlen.
  { apply length_zero_iff_nil in Hlen. eexists. rewrite Hlen. split; [done|].
    split; simpl; rewrite ?Hlen; try done; set_solver. }
  destruct (inv_fresh _ Hinv) as [Hrefs _ Hplain].
  destruct (locate_all (queueTarget m) [] (selected m) []) as (indexes & -> & Hloc); [done|done| | |].
  - split; [constructor|constructor|]. simpl. by rewrite rest_of_below.
  - apply Hinv.
  - simpl in Hloc. pose proof (descending_sorted indexes (loc_distinct _ _ _ Hloc)) as Hs.
    set (ds := isort _ indexes) in *. assert (ds ≡ₚ indexes) as Hp by apply isort_perm. clearbody ds.
    rewrite (removeAt_all _ [] ds Hs). simpl. rewrite (rest_of_perm ds indexes) by done.
    assert (omap (fun i => queueTarget m !! i) ds ≡ₚ selected m) as Hrem.
    { rewrite Hp. by rewrite (located_items _ _ _ Hloc). }
    eexists. split; [done|]. split; simpl; try done; [apply Hloc|apply rest_of_sublist|].
    assert (identities (omap (fun i => queueTarget m !! i) ds) ≡ₚ identities (selected m)) as Hids by by rewrite Hrem.
    by rewrite Hids.
Qed.

Lemma committed_inv m m' : pool_inv m -> committed m m' -> pool_inv m'.
Proof.
  intros [Hindex Huniq Hfresh Hsel] [Hp Ho Hs Hi _ Hr].
  pose proof (identities_Proper _ _ Hp) as Hids. rewrite identities_app in Hids.
  rewrite Hids in Huniq. apply NoDup_app in Huniq as (_ & Hdisj & Hnd). split.
  - intros id. rewrite Hi, elem_of_difference, elem_of_list_to_set, Hindex, Hids, elem_of_app.
    split; [naive_solver|]. intros Hin. split; [by right|]. intros Hno. by apply (Hdisj id).
  - done.
  - rewrite Hr. rewrite Hp in Hfresh.
    rewrite (Permutation_app_comm (selected m)) in Hfresh. by apply fresh_items_part in Hfresh.
  - rewrite Hs. apply submseteq_nil_l.
Qed.

(** ** Sequences of calls *)

Inductive call : Type :=
| ArrayPush (txs : list json)
| ArrayUnshift (txs : list json)
| ArraySplice (a : splice_args)
| ArrayPop
| ArrayShift
| ArraySort (compareFn : option (item -> item -> Z))
| ArrayReverse
| ArrayFill
| SetProperty (prop : string) (value : number)
| DeleteProperty (prop : string)
| DefineProperty (prop : string)
| SetTxs (v : txs_value)
| Push (tx : json)
| Clear
| Drain (max : option number)
| PopMany (max : option number)
| BeginSelection (max : option number)
| CommitSelection
| RollbackSelection.

Definition ignore {A} (x : pool A) : pool unit := a ← x; mret tt.

Definition perform (c : call) : pool unit :=
  match c with
  | ArrayPush txs => ignore (compatPush txs)
  | ArrayUnshift txs => ignore (compatUnshift txs)
  | ArraySplice a => ignore (compatSplice a)
  | ArrayPop => ignore compatPop
  | ArrayShift => ignore compatShift
  | ArraySort f => compatSort f
  | ArrayReverse => compatReverse
  | ArrayFill => compatFill
  | SetProperty prop value => proxySet prop value
  | DeleteProperty prop => proxyDelete prop
  | DefineProperty prop => proxyDefine prop
  | SetTxs v => set_txs v
  | Push tx => push tx
  | Clear => clear
  | Drain max => ignore (drain max)
  | PopMany max => ignore (popMany max)
  | BeginSelection max => ignore (beginSelection max)
  | CommitSelection => ignore commitSelection
  | RollbackSelection => ignore rollbackSelection
  end.

Definition run (calls : list call) (m : Mempool) : Mempool := foldl (fun m c => (perform c m).2) m calls.

(** The values that a call brings in are parsed JSON. *)
Definition call_parsed (c : call) : Prop :=
  match c with
  | ArrayPush txs | ArrayUnshift txs | SetTxs (AnArray txs) => Forall parsed txs
  | ArraySplice a => Forall parsed (arg_items a)
  | _ => True
  end.

(** The calls that change the selection. *)
Definition selects (c : call) : bool :=
  match c with BeginSelection _ | CommitSelection | RollbackSelection => true | _ => false end.

Lemma edits_ignore z {A} (x : pool A) : edits z x -> edits z (ignore x).
Proof. apply edits_discard. Qed.

Lemma setCompatLength_edits z value : edits z (setCompatLength value).
Proof.
  apply epoch_edits, edits_get. intros m. destruct value as [next| | |]; try apply edits_throw.
  repeat case_match; try apply edits_throw; [|apply edits_ret]. apply edits_discard, removeRange_edits.
Qed.

Lemma proxySet_edits z prop value : edits z (proxySet prop value).
Proof.
  unfold proxySet. repeat case_match; [apply setCompatLength_edits|apply edits_throw|apply edits_ret].
Qed.

Lemma push_edits z tx : edits z (push tx).
Proof.
  unfold push. case_match; [apply edits_ret|]. apply epoch_edits, edits_call. intros hash.
  case_match; [apply edits_ret|]. apply edits_discard, compatPushLocked_edits. by repeat constructor.
Qed.

Lemma drain_edits z max : edits z (drain max).
Proof. apply epoch_edits, edits_get. intros m. apply removeRange_edits. Qed.

Lemma perform_edits c : call_parsed c -> selects c = false -> edits true (perform c).
Proof.
  destruct c; simpl; intros Hp Hs; try discriminate Hs.
  - by apply edits_ignore, epoch_edits, compatPushLocked_edits.
  - by apply edits_ignore, epoch_edits, compatUnshiftLocked_edits.
  - by apply edits_ignore, epoch_edits, compatSpliceLocked_edits.
  - apply edits_ignore, epoch_edits, edits_get. intros m. case_match; [apply edits_ret|].
    apply edits_discard, removeRange_edits.
  - apply edits_ignore, epoch_edits, edits_get. intros m. case_match; [apply edits_ret|].
    apply edits_discard, removeRange_edits.
  - apply epoch_edits, edits_sort.
  - apply epoch_edits, edits_reverse.
  - apply edits_throw.
  - apply proxySet_edits.
  - unfold proxyDelete. case_match; [apply edits_throw|apply edits_ret].
  - unfold proxyDefine. case_match; [apply edits_throw|apply edits_ret].
  - apply edits_set_txs. by intros items ->.
  - apply push_edits.
  - apply epoch_edits, edits_get. intros m. case_match; [apply edits_ret|]. apply edits_discard, removeRange_edits.
  - apply edits_ignore, drain_edits.
  - apply edits_ignore, drain_edits.
Qed.

Lemma edits_false {A} (x : pool A) : edits true x -> edits false x.
Proof. intros Hx m Hm. destruct (Hx m Hm). by split. Qed.

Lemma inv_select m l : pool_inv m -> l ⊆+ queueTarget m -> pool_inv (with_selected l m).
Proof. intros [? ? ? ?] ?. by split. Qed.

Lemma selection_edits c : selects c = true -> edits false (perform c).
Proof.
  destruct c; simpl; intros Hs; try discriminate Hs; apply edits_ignore.
  - apply epoch_edits. intros m Hm. unfold mbind, pool_bind. simpl. destruct (negb _); [by apply edited_refl|].
    split; try done. apply inv_select; [done|]. apply sublist_submseteq, sublist_take.
  - intros m Hm. destruct (mutationLocked m) eqn:Hlock.
    + unfold commitSelection, withMutationEpoch. rewrite Hlock. by apply edited_refl.
    + destruct (commitSelection_spec m) as (m' & -> & Hc); [by split|].
      split; [by eapply committed_inv|done|by apply Hc|done].
  - apply epoch_edits. intros m Hm. split; try done. apply inv_select; [done|]. apply submseteq_nil_l.
Qed.

Lemma call_edits c : call_parsed c -> edits false (perform c).
Proof.
  intros Hp. destruct (selects c) eqn:Hs; [by apply selection_edits|by apply edits_false, perform_edits].
Qed.

Lemma perform_ok c m : call_parsed c -> pool_ok m -> pool_ok (perform c m).2.
Proof.
  intros Hp [Hm Hl]. destruct (call_edits c Hp m Hm) as [Hi _ Hl' _]. split; [done|]. by rewrite Hl'.
Qed.

Lemma run_ok calls m : Forall call_parsed calls -> pool_ok m -> pool_ok (run calls m).
Proof.
  intros Hp. revert m. induction Hp as [|c calls Hc _ IH]; intros m Hm; [done|]. by apply IH, perform_ok.
Qed.

Lemma new_ok : pool_ok new_Mempool.
Proof.
  split; [|done]. split; simpl; [set_solver|constructor|split; constructor|done].
Qed.

Lemma run_selected calls m : Forall call_parsed calls -> Forall (fun c => selects c = false) calls -> pool_ok m ->
  selected (run calls m) = selected m.
Proof.
  intros Hp Hs. revert m. induction Hp as [|c calls Hc _ IH]; intros m Hm; [done|].
  apply Forall_cons in Hs as [Hs Hs']. change (run (c :: calls) m) with (run calls (perform c m).2).
  rewrite IH; [|done|by apply perform_ok].
  destruct Hm as [Hm _]. destruct (perform_edits c Hc Hs m Hm) as [_ Hsel _ _]. by apply Hsel.
Qed.

(** ** Properties *)

(** C15: Whatever calls the pool has seen, completed or thrown, no identity is pending twice,
    the identity index holds exactly the identities of the queue, every selected entry is
    pending, and the pool is unlocked. *)
Theorem mempool_index_exact (calls : list call) : Forall call_parsed calls ->
  let m := run calls new_Mempool in
  NoDup (identities (queueTarget m)) /\
  canonicalIdentities m = list_to_set (identities (queueTarget m)) /\
  selected m ⊆+ queueTarget m /\
  mutationLocked m = false.
Proof.
  intros Hp m. destruct (run_ok calls _ Hp new_ok) as [[Hi Hu _ Hs] Hl]. split_and!; try done.
  apply set_eq. intros id. by rewrite elem_of_list_to_set.
Qed.

(** C17: A selection survives whatever clients do to the queue in between: the selected
    entries stay selected and pending, committing then succeeds, returns them and takes
    out exactly them, in the order of the rest; rolling back instead leaves the queue as
    it is. *)
Theorem selection_survives (before between : list call) (max : option number) (chosen : list item)
    (m : Mempool) :
  Forall call_parsed before -> Forall call_parsed between ->
  Forall (fun c => selects c = false) between ->
  beginSelection max (run before new_Mempool) = (Ok chosen, m) ->
  let m' := run between m in
  selected m' = chosen /\ chosen ⊆+ queueTarget m' /\
  (exists m'', commitSelection m' = (Ok chosen, m'') /\ committed m' m'') /\
  rollbackSelection m' = (Ok chosen, with_selected [] m').
Proof.
  intros Hb Hc Hs Hbegin m'. pose proof (run_ok before _ Hb new_ok) as Hok.
  assert (pool_ok m /\ selected m = chosen) as [Hm Hsel].
  { pose proof (perform_ok (BeginSelection max) _ I Hok) as Hm. cbn [perform] in Hm. unfold ignore in Hm.
    unfold mbind, pool_bind in Hm. rewrite Hbegin in Hm. split; [done|]. clear Hm. revert Hbegin.
    unfold beginSelection, withMutationEpoch. rewrite (ok_unlocked _ Hok). unfold mbind, pool_bind. simpl.
    destruct (negb _); intros [= <- <-]. done. }
  pose proof (run_ok between _ Hc Hm) as Hm'. fold m' in Hm'.
  assert (selected m' = chosen) as Hsel' by (unfold m'; by rewrite run_selected).
  split; [done|]. split; [rewrite <- Hsel'; apply Hm'|]. split.
  - destruct (commitSelection_spec m' Hm') as (m'' & Heq & ?). exists m''. by rewrite <- Hsel'.
  - unfold rollbackSelection, withMutationEpoch. rewrite (ok_unlocked _ Hm'). simpl. rewrite Hsel'.
    destruct Hm' as [_ Hl]. by destruct m'; simpl in *; subst.
Qed.

(** A call that throws leaves the queue, the index, the selection and the lock as they
    were. *)
Theorem failed_call_changes_nothing (before : list call) (c : call) (e : string) (m' : Mempool) :
  let m := run before new_Mempool in
  Forall call_parsed before -> call_parsed c -> perform c m = (Throw e, m') ->
  exists n, m' = with_ref n m.
Proof.
  intros m Hb Hc He. destruct (run_ok before _ Hb new_ok) as [Hm _].
  destruct (call_edits c Hc m Hm) as [_ _ _ Ht]. rewrite He in Ht. by apply Ht.
Qed.

(** ** Admission *)

Lemma hash_id_hex h : is_hex64 h = true -> hash_id (JStr h) = h.
Proof.
  intros Hh. unfold hash_id. pose proof Hh as Hh'. unfold is_hex64 in Hh'.
  apply andb_true_iff in Hh' as [Hlen Hall].
  rewrite (trim_safe h), toLowerCase_hex by (done || by apply lower_hex_safe).
  assert (has_0x h = false) as Hx.
  { unfold has_0x. destruct h as [|c1 [|c2 h]]; [done|done|]. simpl in Hall. cbn [String.prefix].
    destruct (Ascii.ascii_dec "0" c1) as [<-|]; [|done]. destruct (Ascii.ascii_dec "x" c2) as [<-|]; [|done].
    discriminate Hall. }
  unfold strip_0x. by rewrite Hx, Hh.
Qed.

(** Admission of a transaction with a canonical hash is exact: a hash that is pending is
    refused and nothing changes; any other is appended once, with its hash and body, to a
    queue that is otherwise the same. *)
Theorem push_admits_once (before : list call) (fs : list (string * json)) (h : string) :
  let m := run before new_Mempool in
  let tx := JObj fs in
  let body := match tx.@"body" with JUndefined | JNull => JObj [] | b => b end in
  Forall call_parsed before -> strictCanonicalHashOf tx = Ok h -> h <> EmptyString ->
  push tx m =
    if bool_decide (h ∈ identities (queueTarget m))
    then (Throw "duplicate_transaction", with_ref (S (next_ref m)) m)
    else (Ok tt, mkMempool (queueTarget m ++ [Owned (next_ref m) (JObj ["body" ~> body; "hash" ~> h])])
      (canonicalIdentities m ∪ {[h]}) (selected m) false (S (next_ref m))).
Proof.
  intros m tx body Hb Hh Hne. assert (pool_ok m) as [[Hindex _ _ _] Hlock] by by apply run_ok, new_ok.
  clearbody m.
  assert (is_hex64 h = true) as Hhex.
  { unfold strictCanonicalHashOf in Hh. inv_ok. by case_match. }
  apply String.eqb_neq in Hne. unfold push. change (is_object tx) with true. cbn [negb].
  unfold withMutationEpoch. rewrite Hlock.
  unfold mbind, pool_bind, pool_call. fold tx. rewrite Hh, Hne. fold body. clearbody body.
  assert (forall r, identities [Owned r (JObj ["body" ~> body; "hash" ~> h])] = [h]) as Hids.
  { intros r. unfold identities. cbn [map]. unfold comparableCanonicalHashOf. cbn. rewrite hash_id_hex by done.
    by rewrite Hne. }
  unfold compatPushLocked, mbind, pool_bind. set (new := Owned (next_ref m) _) in *.
  change (pool_map ownCanonicalCompatItem _ _) with (@Ok (list item) [new], with_ref (S (next_ref m)) (with_lock true m)).
  set (m1 := with_ref _ _). destruct (assertAddable_spec [new] ∅ m1) as (Hsame & Hadd & Herr).
  specialize (Hids (next_ref m)). fold new in Hids. rewrite Hids in Hadd. unfold addable in Hadd. simpl in Hadd.
  destruct (assertAddable [new] ∅ m1) as [[[]|e] m2]; simpl in Hsame, Hadd, Herr; subst m2.
  - destruct Hadd as [[_ Hnew] _]; [done|]. rewrite bool_decide_eq_false_2.
    + unfold m1, with_queue, with_identities. simpl. rewrite Hids. unfold with_lock. simpl.
      do 2 f_equal. set_solver.
    + intros Hin%Hindex. by apply (Hnew h) in Hin; [|left].
  - rewrite (Herr e eq_refl). rewrite bool_decide_eq_true_2; [by destruct m; simpl in *; subst|].
    apply dec_stable. intros Hni. enough (Throw e = Ok ()) by done. apply Hadd.
    split; [apply NoDup_singleton|]. intros id ->%list_elem_of_singleton Hin%Hindex. done.
Qed.

(** ** [Array.prototype.splice] *)

(** The range of the built-in [splice] for two arguments, on an array of [len] elements. *)
Definition array_start (len : Z) (start : number) : Z :=
  match start with
  | Infinite positive => if positive then len else 0
  | NotANumber => 0
  | _ => if trunc start <? 0 then Z.max (len + trunc start) 0 else Z.min (trunc start) len
  end.
Definition array_count (len start : Z) (count : number) : Z :=
  match count with
  | Infinite positive => if positive then len - start else 0
  | NotANumber => 0
  | _ => Z.min (Z.max (trunc count) 0) (len - start)
  end.

(** What the built-in returns and what it leaves. *)
Definition array_splice (start count : number) (items q : list item) : list item * list item :=
  let len := Z.of_nat (length q) in
  let s := array_start len start in
  let c := array_count len s count in
  (slice_items s c q, spliced s c items q).

Lemma spliceRange_Ok start count txs m removed m' : Forall parsed txs ->
  spliceRange start count txs m = (Ok removed, m') ->
  exists items, Forall2 copy_of txs items /\
    removed = slice_items start count (queueTarget m) /\
    queueTarget m' = spliced start count items (queueTarget m).
Proof.
  intros Hp. unfold spliceRange. unfold mbind, pool_bind. simpl.
  destruct (own_all_spec txs m Hp) as (n & Hm & _). destruct (pool_map _ txs m) as [[l|e] m1] eqn:Hl; [|discriminate].
  simpl in Hm. subst m1. destruct (selectedContainsAny m _); [discriminate|].
  match goal with |- context [assertAddable l ?r (with_ref n m)] =>
    pose proof (proj1 (assertAddable_spec l r (with_ref n m))) as Ha;
    destruct (assertAddable l r (with_ref n m)) as [[[]|e] m2]; [|discriminate] end.
  simpl in Ha. subst m2. intros [= <- <-]. exists l. split; [by eapply own_all_copies|done].
Qed.

Lemma splice_range_agrees len s d txs : 0 <= len -> s <> Infinite true -> d <> Infinite true ->
  let a := mkSpliceArgs (Some s) (Some d) txs in
  spliceStart len a = array_start len s /\
  spliceDelete len (array_start len s) a = array_count len (array_start len s) d.
Proof.
  intros Hlen Hs Hd a. assert (0 <= array_start len s <= len) as Hrange.
  { unfold array_start. destruct s as [z|f|[]|]; try lia; case_match; lia. }
  split.
  - unfold spliceStart, array_start. simpl. destruct s as [z|f|[]|]; simpl; try done; lia.
  - unfold spliceDelete, array_count. simpl. destruct d as [z|f|[]|]; simpl; try done; lia.
Qed.

(** On arguments that are not infinite, a [splice] that succeeds is the [splice] of an
    array: it returns the same range and leaves the same queue, with copies of the new
    values in place of the range. *)
Theorem splice_is_array_splice (before : list call) (s d : number) (txs : list json)
    (removed : list item) (m' : Mempool) :
  let m := run before new_Mempool in
  Forall call_parsed before -> Forall parsed txs -> s <> Infinite true -> d <> Infinite true ->
  compatSplice (mkSpliceArgs (Some s) (Some d) txs) m = (Ok removed, m') ->
  exists items, Forall2 copy_of txs items /\
    (removed, queueTarget m') = array_splice s d items (queueTarget m).
Proof.
  intros m Hb Hp Hs Hd. assert (pool_ok m) as [_ Hlock] by by apply run_ok, new_ok. clearbody m.
  unfold compatSplice, withMutationEpoch. rewrite Hlock. unfold compatSpliceLocked, mbind at 1, pool_bind at 1.
  cbn [pool_get]. set (len := Z.of_nat _).
  destruct (splice_range_agrees len s d txs ltac:(lia) Hs Hd) as [-> ->]. simpl arg_items.
  destruct (spliceRange _ _ txs (with_lock true m)) as [[r|e] m1] eqn:Hr; [|discriminate]. intros [= <- <-].
  apply spliceRange_Ok in Hr as (items & Hc & -> & Hq); [|done]. exists items. split; [done|].
  unfold array_splice. fold len. simpl in Hq. simpl. by rewrite Hq.
Qed.

(** Where the two differ: an infinite count removes nothing, although the array method
    removes everything from the start on. *)
Theorem splice_infinite_count (before : list call) :
  let m := run before new_Mempool in
  Forall call_parsed before ->
  compatSplice (mkSpliceArgs (Some (Integer 0)) (Some (Infinite true)) []) m = (Ok [], m) /\
  array_splice (Integer 0) (Infinite true) [] (queueTarget m) = (queueTarget m, []).
Proof.
  intros m Hb. assert (pool_ok m) as [_ Hlock] by by apply run_ok, new_ok. clearbody m. split.
  - unfold compatSplice, withMutationEpoch. rewrite Hlock. unfold compatSpliceLocked, mbind at 1, pool_bind at 1.
    cbn [pool_get]. set (len := Z.of_nat _).
    set (a := mkSpliceArgs _ _ _). assert (spliceStart len a = 0 /\ spliceDelete len 0 a = 0) as [-> ->].
    { unfold spliceStart, spliceDelete. simpl. lia. }
    unfold spliceRange, removeIdentities, addIdentities, mbind, pool_bind, slice_items, spliced. simpl.
    unfold with_queue, with_identities, with_lock. simpl. destruct m. simpl in *. subst. f_equal. f_equal. set_solver.
  - unfold array_splice. set (len := Z.of_nat _). assert (array_start len (Integer 0) = 0) as ->.
    { unfold array_start. simpl. lia. }
    unfold array_count, slice_items, spliced. rewrite Z.sub_0_r, Z.add_0_l. unfold len. rewrite Nat2Z.id.
    by rewrite drop_0, firstn_all, drop_all.
Qed.

(** ** A concrete pool *)

Module MempoolSample.

Definition hash_a : string := "aaaaaaaaaaaaaaaaaaaaaaaaaaaaaaaaaaaaaaaaaaaaaaaaaaaaaaaaaaaaaaaa".
Definition hash_b : string := "bbbbbbbbbbbbbbbbbbbbbbbbbbbbbbbbbbbbbbbbbbbbbbbbbbbbbbbbbbbbbbbb".
Definition fields_a : list (string * json) := ["hash" ~> hash_a; "body" ~> JObj ["kind" ~> "transfer"]].
Definition fields_b : list (string * json) := ["hash" ~> ("0x" +:+ hash_b)].

(** A transfer, a legacy entry that spells its hash with a prefix, and a plain note. *)
Definition filled : list call := [Push (JObj fields_a); ArrayPush [JObj fields_b; JStr "note"]].

(** Clients reorder the queue, try to drain it and add a transaction again. *)
Definition meddling : list call :=
  [ArrayReverse; Drain None; Push (JObj fields_a); ArrayUnshift [JNull]].

Lemma filled_parsed : Forall call_parsed filled.
Proof. by repeat constructor. Qed.

Lemma meddling_parsed : Forall call_parsed meddling.
Proof. by repeat constructor. Qed.

Lemma filled_identities : identities (queueTarget (run filled new_Mempool)) = [hash_a; hash_b].
Proof. vm_compute. reflexivity. Qed.

Lemma mempool_index_exact_witness :
  let m := run filled new_Mempool in
  NoDup (identities (queueTarget m)) /\
  canonicalIdentities m = list_to_set (identities (queueTarget m)) /\
  selected m ⊆+ queueTarget m /\ mutationLocked m = false.
Proof. exact (mempool_index_exact filled filled_parsed). Defined.

Definition chosen : list item := take 2 (queueTarget (run filled new_Mempool)).

Lemma selection_survives_witness :
  let m := run filled new_Mempool in
  let m' := run meddling (with_selected chosen m) in
  selected m' = chosen /\ chosen ⊆+ queueTarget m' /\
  (exists m'', commitSelection m' = (Ok chosen, m'') /\ committed m' m'') /\
  rollbackSelection m' = (Ok chosen, with_selected [] m').
Proof.
  apply (selection_survives filled meddling (Some (Integer 2)));
    [exact filled_parsed|exact meddling_parsed|by repeat constructor|vm_compute; reflexivity].
Defined.

Lemma failed_call_changes_nothing_witness :
  exists n, (perform (Push (JObj fields_a)) (run filled new_Mempool)).2 = with_ref n (run filled new_Mempool).
Proof.
  apply (failed_call_changes_nothing filled (Push (JObj fields_a)) "duplicate_transaction");
    [exact filled_parsed|exact I|vm_compute; reflexivity].
Defined.

Lemma push_admits_once_witness :
  (push (JObj fields_a) (run filled new_Mempool)).1 = Throw "duplicate_transaction".
Proof.
  rewrite (push_admits_once filled fields_a hash_a); [vm_compute; reflexivity|exact filled_parsed|..];
    vm_compute; [reflexivity|discriminate].
Defined.

(** The second entry is replaced by a memo; a fractional count is truncated. *)
Definition replacing : splice_args := mkSpliceArgs (Some (Integer (-2))) (Some (Between 1)) [JStr "memo"].
Definition replaced_pool : res (list item) * Mempool := compatSplice replacing (run filled new_Mempool).

Lemma splice_is_array_splice_witness :
  exists items, Forall2 copy_of [JStr "memo"] items /\
    (drop 1 chosen, queueTarget replaced_pool.2) =
      array_splice (Integer (-2)) (Between 1) items (queueTarget (run filled new_Mempool)).
Proof.
  apply (splice_is_array_splice filled (Integer (-2)) (Between 1) [JStr "memo"] _ replaced_pool.2);
    [exact filled_parsed|by repeat constructor|discriminate|discriminate|vm_compute; reflexivity].
Defined.

End MempoolSample.
