(* ===== verification/JsonParse.v ===== *)
(** * JSON.parse and UTF-8

    [JSON.parse(text)] on texts of code units below 256, with the grammar of JSON: white
    space, literals, numbers, strings with their escapes, arrays and objects.  A number that
    is not a safe integer in plain digits is read by the interface [JsonNumber], which stands
    for the rounding to doubles.  A text the model cannot hold (a code unit of 256 or more) is
    refused like a malformed one.

    [parse_stringify] is the round trip on which every file of records relies. *)

From Stdlib Require Import Ascii.
From S2P Require Import Prelude Js JsText CanonicalJson Sha256.

(** ** Tokens *)

Definition is_json_space (c : ascii) : bool :=
  let n := N_of_ascii c in (n =? 32)%N || (n =? 9)%N || (n =? 10)%N || (n =? 13)%N.

Fixpoint skip_space (s : string) : string :=
  match s with
  | EmptyString => EmptyString
  | String c s' => if is_json_space c then skip_space s' else s
  end.

(** [text] at the start of [s]: what follows it. *)
Fixpoint expect (text s : string) : option string :=
  match text, s with
  | EmptyString, _ => Some s
  | String c text', String d s' => if Ascii.eqb c d then expect text' s' else None
  | _, EmptyString => None
  end.

Definition hex_code (c : ascii) : option N :=
  let n := N_of_ascii c in
  if in_range 48 57 c then Some (n - 48)%N
  else if in_range 97 102 c then Some (n - 87)%N
  else if in_range 65 70 c then Some (n - 55)%N
  else None.

Definition simple_escape (k : ascii) : option ascii :=
  match N_of_ascii k with
  | 34%N | 92%N | 47%N => Some k
  | 98%N => Some (chr 8)
  | 102%N => Some (chr 12)
  | 110%N => Some (chr 10)
  | 114%N => Some (chr 13)
  | 116%N => Some (chr 9)
  | _ => None
  end.

Definition cons_char (c : ascii) (r : option (string * string)) : option (string * string) :=
  match r with Some (s, rest) => Some (String c s, rest) | None => None end.

(** The characters of a string literal up to the closing quote. *)
Fixpoint parse_chars (s : string) : option (string * string) :=
  match s with
  | EmptyString => None
  | String c s' =>
      if (N_of_ascii c =? 34)%N then Some (EmptyString, s')
      else if (N_of_ascii c =? 92)%N then
        match s' with
        | String k t =>
            if (N_of_ascii k =? 117)%N then
              match t with
              | String a (String b (String x (String y t'))) =>
                  match hex_code a, hex_code b, hex_code x, hex_code y with
                  | Some 0%N, Some 0%N, Some hi, Some lo => cons_char (chr (16 * hi + lo)) (parse_chars t')
                  | _, _, _, _ => None
                  end
              | _ => None
              end
            else match simple_escape k with
              | Some e => cons_char e (parse_chars t)
              | None => None
              end
        | EmptyString => None
        end
      else if (N_of_ascii c <? 32)%N then None
      else cons_char c (parse_chars s')
  end.

(** ** Numbers *)

(** The number that a literal which is no safe integer in plain digits stands for. *)
Class JsonNumber : Type := other_number : string -> jsnum.

Fixpoint take_digits (s : string) : string * string :=
  match s with
  | String c s' => if is_digit c then let '(d, r) := take_digits s' in (String c d, r) else (EmptyString, s)
  | EmptyString => (EmptyString, EmptyString)
  end.

(** A dot and digits, or nothing. *)
Definition parse_fraction (s : string) : option (string * string) :=
  match expect "." s with
  | Some t => let '(d, r) := take_digits t in if String.eqb d EmptyString then None else Some ("." +:+ d, r)
  | None => Some (EmptyString, s)
  end.

Definition exponent_sign (s : string) : string * string :=
  match s with
  | String c s' => if (N_of_ascii c =? 43)%N || (N_of_ascii c =? 45)%N then (String c EmptyString, s') else (EmptyString, s)
  | EmptyString => (EmptyString, s)
  end.

Definition parse_exponent (s : string) : option (string * string) :=
  match s with
  | String c t =>
      if (N_of_ascii c =? 101)%N || (N_of_ascii c =? 69)%N then
        let '(sign, u) := exponent_sign t in
        let '(d, r) := take_digits u in
        if String.eqb d EmptyString then None else Some (String c (sign +:+ d), r)
      else Some (EmptyString, s)
  | EmptyString => Some (EmptyString, s)
  end.

Section parser.
Context `{JsonNumber}.

Definition number_value (negative : bool) (digits rest : string) : jsnum :=
  let z := if negative then - BigInt digits else BigInt digits in
  if String.eqb rest EmptyString && (Z.abs z <=? MAX_SAFE_INTEGER) && negb (negative && (z =? 0)) then NInt z
  else other_number ((if negative then "-" else EmptyString) +:+ digits +:+ rest).

Definition parse_number (s : string) : option (json * string) :=
  let '(negative, t) := match expect "-" s with Some t => (true, t) | None => (false, s) end in
  let '(digits, r) := take_digits t in
  if negb (is_canonical_decimal digits) then None else
  match parse_fraction r with
  | None => None
  | Some (fraction, r1) =>
      match parse_exponent r1 with
      | None => None
      | Some (exponent, r2) => Some (JNum (number_value negative digits (fraction +:+ exponent)), r2)
      end
  end.

(** ** Values *)

(** The own properties after the members are set one after the other. *)
Fixpoint put (k : string) (v : json) (fs : list (string * json)) : list (string * json) :=
  match fs with
  | [] => [(k, v)]
  | (k', v') :: fs' => if String.eqb k' k then (k, v) :: fs' else (k', v') :: put k v fs'
  end.

Definition object_of (members : list (string * json)) : json :=
  JObj (own_order (foldl (fun fs m => put m.1 m.2 fs) [] members)).

(** Items separated by commas, up to [close]. *)
Fixpoint parse_items {A} (item : string -> option (A * string)) (close : ascii) (fuel : nat) (s : string)
    : option (list A * string) :=
  match fuel with
  | O => None
  | S f =>
      match item s with
      | None => None
      | Some (a, r) =>
          match skip_space r with
          | EmptyString => None
          | String c r' =>
              if Ascii.eqb c close then Some ([a], r')
              else if Ascii.eqb c "," then
                match parse_items item close f r' with
                | Some (l, r'') => Some (a :: l, r'')
                | None => None
                end
              else None
          end
      end
  end.

Definition parse_list {A} (item : string -> option (A * string)) (close : ascii) (fuel : nat) (s : string)
    : option (list A * string) :=
  match skip_space s with
  | String c r => if Ascii.eqb c close then Some ([], r) else parse_items item close fuel s
  | EmptyString => None
  end.

(** A name, a colon and a value. *)
Definition parse_member (value : string -> option (json * string)) (s : string)
    : option ((string * json) * string) :=
  match expect (char_text 34) (skip_space s) with
  | None => None
  | Some t =>
      match parse_chars t with
      | None => None
      | Some (k, r) =>
          match expect ":" (skip_space r) with
          | None => None
          | Some u => match value u with Some (v, r') => Some ((k, v), r') | None => None end
          end
      end
  end.

Definition literal (text : string) (v : json) (s : string) : option (json * string) :=
  match expect text s with Some r => Some (v, r) | None => None end.

Fixpoint parse_value (fuel : nat) (s : string) : option (json * string) :=
  match fuel with
  | O => None
  | S f =>
      let s := skip_space s in
      match s with
      | EmptyString => None
      | String c t =>
          match N_of_ascii c with
          | 110%N => literal "null" JNull s
          | 116%N => literal "true" (JBool true) s
          | 102%N => literal "false" (JBool false) s
          | 34%N => match parse_chars t with Some (x, r) => Some (JStr x, r) | None => None end
          | 91%N => match parse_list (parse_value f) "]" f t with Some (l, r) => Some (JArr l, r) | None => None end
          | 123%N =>
              match parse_list (parse_member (parse_value f)) "}" f t with
              | Some (fs, r) => Some (object_of fs, r)
              | None => None
              end
          | _ => parse_number s
          end
      end
  end.

(** [JSON.parse(text)]; the length of the text bounds its depth and the number of its items. *)
Definition JSON_parse (s : string) : option json :=
  match parse_value (S (String.length s)) s with
  | Some (v, r) => if String.eqb (skip_space r) EmptyString then Some v else None
  | None => None
  end.

End parser.

(** ** UTF-8 *)

(** The text of bytes that encode code units below 256. *)
Fixpoint from_utf8 (b : list Z) : option string :=
  match b with
  | [] => Some EmptyString
  | x :: b' =>
      if x <? 128 then String (chr (Z.to_N x)) <$> from_utf8 b'
      else match b' with
        | y :: b'' =>
            if ((x =? 194) || (x =? 195)) && (128 <=? y) && (y <? 192)
            then String (chr (Z.to_N ((x - 192) * 64 + (y - 128)))) <$> from_utf8 b''
            else None
        | [] => None
        end
  end.

Lemma from_to_utf8 s : from_utf8 (utf8_bytes s) = Some s.
Proof.
  induction s as [|c s IH]; [done|].
  assert (forall r, from_utf8 (utf8_bytes (String c EmptyString) ++ r) = String c <$> from_utf8 r) as Hc.
  { intros r. destruct c as [[][][][][][][][]]; reflexivity. }
  replace (utf8_bytes (String c s)) with (utf8_bytes (String c EmptyString) ++ utf8_bytes s).
  - by rewrite Hc, IH.
  - simpl. by destruct (_ <? 128).
Qed.

(** ** The round trip *)

(** Own properties of an object as JavaScript keeps them: no name twice, array indices
    first and ascending. *)
Fixpoint own_form (v : json) : bool :=
  match v with
  | JArr l => forallb own_form l
  | JObj fs =>
      bool_decide (NoDup fs.*1) && bool_decide ((own_order (map (fun f => (f.1, tt)) fs)).*1 = fs.*1) &&
      forallb (fun f => own_form f.2) fs
  | _ => true
  end.

(** The values that a text gives back. *)
Definition textual (v : json) : bool := printable v && own_form v.

(** What follows a value: nothing or a structural character. *)
Definition closes (r : string) : bool :=
  match r with
  | EmptyString => true
  | String c _ => let n := N_of_ascii c in (n =? 44)%N || (n =? 93)%N || (n =? 125)%N
  end.

Lemma parse_chars_escape s r : parse_chars (escape s +:+ String (chr 34) r) = Some (s, r).
Proof.
  induction s as [|c s IH]; [done|]. cbn [escape]. rewrite sapp_assoc.
  assert (forall t, parse_chars (escape_char c +:+ t) = cons_char c (parse_chars t)) as ->.
  { intros t. destruct c as [[][][][][][][][]]; reflexivity. }
  by rewrite IH.
Qed.

Lemma parse_quoted s r : exists t, json_quote s +:+ r = String (chr 34) t /\ parse_chars t = Some (s, r).
Proof.
  exists (escape s +:+ String (chr 34) r). split; [|apply parse_chars_escape]. 
  change (json_quote s +:+ r) with (String (chr 34) ((escape s +:+ char_text 34) +:+ r)). by rewrite sapp_assoc.
Qed.

Lemma take_digits_app d r : string_forallb is_digit d = true -> delimited r = true -> take_digits (d +:+ r) = (d, r).
Proof.
  intros Hd Hr. induction d as [|c d IH]; simpl in *.
  - destruct r as [|c r]; [done|]. simpl in *. by apply negb_true_iff in Hr as ->.
  - apply andb_true_iff in Hd as [Hc Hd]. change ((String c d) +:+ r) with (String c (d +:+ r)). simpl. by rewrite Hc, IH.
Qed.

Lemma closes_delimited r : closes r = true -> delimited r = true.
Proof. destruct r as [|[[][][][][][][][]] r]; done. Qed.

Lemma closes_tail r : closes r = true ->
  parse_fraction r = Some (EmptyString, r) /\ parse_exponent r = Some (EmptyString, r).
Proof. destruct r as [|[[][][][][][][][]] r]; done. Qed.

Section round_trip.
Context `{JsonNumber}.

Lemma parse_number_int z r : Z.abs z <= MAX_SAFE_INTEGER -> closes r = true ->
  parse_number (int_text z +:+ r) = Some (jint z, r).
Proof.
  intros Hz Hr. unfold parse_number, int_text. destruct (closes_tail r Hr) as [Hf He].
  assert (forall n, take_digits (dec n +:+ r) = (dec n, r)) as Ht.
  { intros n. apply take_digits_app; [apply dec_digits|by apply closes_delimited]. }
  destruct (Z.ltb_spec z 0) as [Hneg|Hpos].
  - change (expect "-" (("-" +:+ dec (- z)) +:+ r)) with (Some (dec (- z) +:+ r)). cbn iota beta.
    rewrite Ht, dec_canonical. cbn [negb]. rewrite Hf, He. unfold number_value. rewrite BigInt_dec by lia.
    rewrite Z.opp_involutive, (proj2 (Z.leb_le _ _) Hz), (proj2 (Z.eqb_neq z 0)) by lia. done.
  - destruct (dec_first z) as (c & s & E & D).
    assert (expect "-" (dec z +:+ r) = None) as ->.
    { rewrite E. change (String c s +:+ r) with (String c (s +:+ r)). cbn [expect]. destruct (Ascii.eqb_spec "-" c) as [<-|]; [discriminate D|done]. }
    rewrite Ht, dec_canonical. cbn [negb]. rewrite Hf, He. unfold number_value. rewrite BigInt_dec by lia.
    by rewrite (proj2 (Z.leb_le _ _) Hz).
Qed.

(** *** Lists *)

Section items.
Context {A : Type} (pr : A -> string) (good : A -> bool) (item : string -> option (A * string)).
Context (close : ascii) (Hclose : closes (String close EmptyString) = true) (Hcomma : Ascii.eqb "," close = false).

Lemma parse_items_join l x fuel r :
  (forall a t, a ∈ x :: l -> closes t = true -> item (pr a +:+ t) = Some (a, t)) ->
  (length l < fuel)%nat ->
  parse_items item close fuel (pr x +:+ join_tail (map pr l) +:+ String close r) = Some (x :: l, r).
Proof using Hclose Hcomma.
  revert x fuel. induction l as [|y l IH]; intros x [|fuel] Hi Hf; [lia|..]; cbn [parse_items map join_tail].
  - change (EmptyString +:+ String close r) with (String close r). rewrite Hi; [|by left|done].
    assert (is_json_space close = false) as Hs by (revert Hclose; by destruct close as [[][][][][][][][]]).
    cbn [skip_space]. rewrite Hs. by rewrite Ascii.eqb_refl.
  - simpl in Hf. lia.
  - rewrite (sapp_assoc ","), (sapp_assoc (pr y)). rewrite Hi; [|by left|done].
    change (skip_space ("," +:+ pr y +:+ join_tail (map pr l) +:+ String close r))
      with (String "," (pr y +:+ join_tail (map pr l) +:+ String close r)).
    cbn iota. rewrite Hcomma. change (Ascii.eqb "," ",") with true. cbn iota. rewrite IH; [done| |simpl in Hf; lia].
    intros a t Ha. apply Hi. by right.
Qed.

Lemma parse_list_join l fuel r :
  (forall a t, a ∈ l -> closes t = true -> item (pr a +:+ t) = Some (a, t)) ->
  (forall a t, a ∈ l -> exists c u, pr a +:+ t = String c u /\ is_json_space c = false /\ Ascii.eqb c close = false) ->
  (length l <= fuel)%nat ->
  parse_list item close fuel (join_comma (map pr l) +:+ String close r) = Some (l, r).
Proof using Hclose Hcomma.
  assert (is_json_space close = false) as Hs by (revert Hclose; by destruct close as [[][][][][][][][]]).
  destruct l as [|x l]; intros Hi Hp Hf; unfold parse_list; cbn [map join_comma].
  - change (EmptyString +:+ String close r) with (String close r). cbn [skip_space]. by rewrite Hs, Ascii.eqb_refl.
  - rewrite sapp_assoc. destruct (Hp x (join_tail (map pr l) +:+ String close r)) as (c & u & E & Hc & Hn); [by left|].
    rewrite E. cbn [skip_space]. rewrite Hc, Hn, <- E. apply parse_items_join; [done|simpl in Hf; lia].
Qed.
End items.

(** *** Objects *)

Lemma put_absent k v fs : k ∉ fs.*1 -> put k v fs = fs ++ [(k, v)].
Proof using.
  clear H. induction fs as [|[k' v'] fs IH]; simpl; intros Hk; [done|].
  rewrite (proj2 (String.eqb_neq k' k)) by set_solver. rewrite IH by set_solver. done.
Qed.

Lemma put_all fs acc : NoDup (acc ++ fs).*1 -> foldl (fun fs m => put m.1 m.2 fs) acc fs = acc ++ fs.
Proof using.
  clear H. revert acc. induction fs as [|[k v] fs IH]; intros acc Hnd; simpl; [by rewrite app_nil_r|].
  rewrite put_absent.
  - rewrite IH; [by rewrite <- app_assoc|]. by rewrite <- app_assoc.
  - rewrite fmap_app in Hnd. apply NoDup_app in Hnd as (_ & Hd & _). intros Hk. apply (Hd k Hk). by left.
Qed.

Lemma own_order_map {A B} (g : A -> B) (fs : list (string * A)) :
  own_order (map (fun f => (f.1, g f.2)) fs) = map (fun f => (f.1, g f.2)) (own_order fs).
Proof using.
  clear H. unfold own_order. rewrite map_app, <- !(isort_map index_leb index_leb (fun f => (f.1, g f.2))) by done.
  f_equal; [f_equal|]; (induction fs as [|f fs IH]; simpl; [done|]; rewrite IH; by case_match).
Qed.

Lemma own_order_perm {A} (fs : list (string * A)) : own_order fs ≡ₚ fs.
Proof using.
  clear H. unfold own_order. rewrite isort_perm. induction fs as [|f fs IH]; simpl; [done|].
  destruct (is_array_index f.1); simpl; rewrite <- IH at 3; [done|]. by rewrite Permutation_middle.
Qed.

Lemma same_keys_perm_eq {A} (l k : list (string * A)) : NoDup l.*1 -> l ≡ₚ k -> l.*1 = k.*1 -> l = k.
Proof using.
  clear H. revert k. induction l as [|[a x] l IH]; intros [|[b y] k] Hnd Hp Hk; try done.
  simpl in *. injection Hk as -> Hk. apply NoDup_cons in Hnd as [Hb Hnd].
  assert ((b, x) ∈ (b, y) :: k) as [[= ->]|Hin]%elem_of_cons by (rewrite <- Hp; by left).
  - f_equal. apply IH; [done| |done]. by eapply Permutation.Permutation_cons_inv.
  - exfalso. apply Hb. rewrite Hk. apply list_elem_of_fmap. by exists (b, x).
Qed.

Lemma own_form_order fs : own_form (JObj fs) = true -> NoDup fs.*1 /\ own_order fs = fs.
Proof using.
  clear H. intros Hf. cbn [own_form] in Hf. bool_prop.
  repeat match goal with H : bool_decide _ = true |- _ => apply bool_decide_eq_true in H end.
  match goal with H : NoDup _ |- _ => rename H into Hnd end.
  match goal with H : _ = fs.*1 |- _ => rename H into Hk end. split; [done|]. symmetry.
  apply same_keys_perm_eq; [done|by rewrite own_order_perm|]. rewrite <- Hk.
  rewrite (own_order_map (fun _ => tt)). by rewrite <- list_fmap_compose.
Qed.

Lemma object_of_own fs : own_form (JObj fs) = true -> object_of fs = JObj fs.
Proof using.
  clear H. intros [Hnd Ho]%own_form_order. unfold object_of.
  rewrite (put_all fs []) by done. change ([] ++ fs) with fs. by rewrite Ho.
Qed.

(** *** Values *)

Lemma print_starts v r : printable v = true ->
  exists c u, print v +:+ r = String c u /\ is_json_space c = false /\ Ascii.eqb c "]" = false /\ Ascii.eqb c "}" = false.
Proof using.
  clear H. intros Hp. pose proof (print_kind v r Hp) as Hk. destruct (print v +:+ r) as [|c u]; [done|].
  exists c, u. split; [done|]. cbn [head_kind] in Hk. injection Hk as Hk.
  destruct v as [| |[]|[]| | |], c as [[][][][][][][][]]; by vm_compute in Hk.
Qed.

Lemma member_starts (f : string * json) r :
  exists c u, field_text (f.1, print f.2) +:+ r = String c u /\ is_json_space c = false /\ Ascii.eqb c "}" = false.
Proof using. clear H. by eexists (chr 34), _. Qed.

Lemma parse_member_print value k v r : value (print v +:+ r) = Some (v, r) ->
  parse_member value (field_text (k, print v) +:+ r) = Some ((k, v), r).
Proof using.
  clear H. intros Hv. unfold field_text, parse_member. cbn [fst snd]. rewrite !sapp_assoc.
  destruct (parse_quoted k (":" +:+ print v +:+ r)) as (t & -> & Ht).
  change (expect (char_text 34) (skip_space (String (chr 34) t))) with (Some t). cbn iota. rewrite Ht.
  change (expect ":" (skip_space (":" +:+ print v +:+ r))) with (Some (print v +:+ r)). cbn iota. by rewrite Hv.
Qed.

Lemma join_length {A} (pr : A -> string) (l : list A) : (forall a, a ∈ l -> (1 <= String.length (pr a))%nat) ->
  (length l <= String.length (join_comma (map pr l)))%nat /\
  (forall a, a ∈ l -> (String.length (pr a) <= String.length (join_comma (map pr l)))%nat).
Proof using.
  clear H. intros Hl.
  assert (forall k, (forall a, a ∈ k -> (1 <= String.length (pr a))%nat) ->
    (length k <= String.length (join_tail (map pr k)))%nat /\
    (forall a, a ∈ k -> (String.length (pr a) <= String.length (join_tail (map pr k)))%nat)) as Ht.
  { intros k. induction k as [|x k IH]; intros Hk; cbn [map join_tail]; [split; [simpl; lia|set_solver]|].
    rewrite !length_sapp. destruct IH as [IH1 IH2]; [set_solver|]. pose proof (Hk x ltac:(by left)).
    split; [simpl; lia|]. intros a [->|Ha]%elem_of_cons; [lia|]. specialize (IH2 a Ha). lia. }
  destruct l as [|x l]; cbn [map join_comma]; [split; [simpl; lia|set_solver]|].
  rewrite length_sapp. destruct (Ht l) as [H1 H2]; [set_solver|]. pose proof (Hl x ltac:(by left)).
  split; [simpl; lia|]. intros a [->|Ha]%elem_of_cons; [lia|]. specialize (H2 a Ha). lia.
Qed.

Lemma print_nonempty v : printable v = true -> (1 <= String.length (print v))%nat.
Proof using.
  clear H. intros Hp. destruct (print_starts v EmptyString Hp) as (c & u & E & _). rewrite sapp_nil_r in E.
  rewrite E. simpl. lia.
Qed.

Lemma parse_value_number fuel c u : is_digit c || Ascii.eqb c "-" = true ->
  parse_value (S fuel) (String c u) = parse_number (String c u).
Proof. destruct c as [[][][][][][][][]]; done. Qed.

Lemma int_text_starts z r : exists c u, int_text z +:+ r = String c u /\ is_digit c || Ascii.eqb c "-" = true.
Proof using.
  clear H. unfold int_text. destruct (z <? 0); [by eexists _, _|].
  destruct (dec_first z) as (c & u & -> & Hc). exists c, (u +:+ r). by rewrite Hc.
Qed.

Lemma print_fields_length k v : (String.length (print v) < String.length (field_text (k, print v)))%nat.
Proof using. clear H. unfold field_text, json_quote. rewrite !length_sapp. simpl. rewrite length_sapp. simpl. lia. Qed.

(** Only a number needs to know what follows it. *)
Definition ends_at (v : json) (r : string) : Prop := match v with JNum _ => closes r = true | _ => True end.

Lemma parse_print v fuel r : textual v = true -> ends_at v r -> (String.length (print v) < fuel)%nat ->
  parse_value fuel (print v +:+ r) = Some (v, r).
Proof.
  revert fuel r. induction v as [| |b|n|s|l IH|fs IH] using json_nested_ind; intros [|fuel] r Hv Hr Hf; try lia;
    unfold textual in *; apply andb_true_iff in Hv as [Hv Ho].
  - discriminate Hv.
  - done.
  - by destruct b.
  - destruct n as [z|t]; [|discriminate Hv]. cbn [printable] in Hv.
    apply bool_decide_eq_true in Hv as [z' Hz]. apply as_safe_integer_Some in Hz as [[= <-] Hz].
    cbn [print] in *. destruct (int_text_starts z r) as (c & u & E & Hc).
    rewrite E, parse_value_number, <- E by done. apply parse_number_int; [lia|done].
  - cbn [print]. destruct (parse_quoted s r) as (t & -> & Ht).
    change (parse_value (S fuel) (String (chr 34) t))
      with (match parse_chars t with Some (x, r) => Some (JStr x, r) | None => None end). by rewrite Ht.
  - cbn [print printable own_form] in *. rewrite forallb_forall in Hv, Ho. rewrite Forall_forall in IH.
    destruct (join_length print l) as [Hn Hl].
    { intros a Ha. apply print_nonempty, Hv. by apply list_elem_of_In. }
    rewrite !length_sapp in Hf. simpl in Hf. rewrite !sapp_assoc.
    change (parse_value (S fuel) ("[" +:+ join_comma (map print l) +:+ "]" +:+ r))
      with (match parse_list (parse_value fuel) "]" fuel (join_comma (map print l) +:+ String "]" r) with
        Some (l, r) => Some (JArr l, r) | None => None end).
    rewrite (parse_list_join print); [done|done|done| | |lia].
    + intros a t Ha Ht. apply IH; [done| |by destruct a|specialize (Hl a Ha); lia].
      apply andb_true_iff. split; [apply Hv|apply Ho]; by apply list_elem_of_In.
    + intros a t Ha. destruct (print_starts a t) as (c & u & E & Hs & Hc & _); [|by exists c, u].
      apply Hv. by apply list_elem_of_In.
  - cbn [print printable] in *. rewrite <- (object_of_own fs Ho). cbn [own_form] in Ho. apply andb_true_iff in Ho as [_ Ho].
    rewrite forallb_forall in Hv, Ho. rewrite Forall_forall in IH.
    set (pr := fun f : string * json => field_text (f.1, print f.2)) in *.
    assert (forall f, f ∈ fs -> (String.length (print f.2) < String.length (pr f))%nat) as Hpr.
    { intros f _. apply print_fields_length. }
    destruct (join_length pr fs) as [Hn Hl]; [intros f Hin; specialize (Hpr f Hin); lia|].
    rewrite !length_sapp in Hf. simpl in Hf. rewrite !sapp_assoc.
    change (parse_value (S fuel) ("{" +:+ join_comma (map pr fs) +:+ "}" +:+ r))
      with (match parse_list (parse_member (parse_value fuel)) "}" fuel (join_comma (map pr fs) +:+ String "}" r) with
        Some (fs, r) => Some (object_of fs, r) | None => None end).
    rewrite (parse_list_join pr); [done|done|done| | |lia].
    + intros [k x] t Ha Ht. apply parse_member_print. specialize (Hpr _ Ha). specialize (Hl _ Ha). cbn [snd] in *.
      apply (IH (k, x)); [done| |by destruct x|simpl; lia].
      apply andb_true_iff. split; [apply (Hv (k, x))|apply (Ho (k, x))]; by apply list_elem_of_In.
    + intros f t Ha. apply member_starts.
Qed.

(** [JSON.parse(JSON.stringify(value))] is the value. *)
Lemma parse_stringify v : textual v = true -> JSON_parse (default EmptyString (stringify v)) = Some v.
Proof.
  intros Hv. unfold JSON_parse. rewrite stringify_print; [|by apply andb_true_iff in Hv as [? _]]. cbn [default].
  pose proof (parse_print v (S (String.length (print v))) EmptyString Hv ltac:(by destruct v) ltac:(lia)) as Hp.
  rewrite sapp_nil_r in Hp. unfold default, id. cbn [from_option]. by rewrite Hp.
Qed.

(** A value that is not a number, followed by a line feed *)
Lemma parse_stringify_line v : textual v = true -> (forall n, v <> JNum n) ->
  JSON_parse (default EmptyString (stringify v) +:+ char_text 10) = Some v.
Proof.
  intros Hv Hn. unfold JSON_parse. rewrite stringify_print; [|by apply andb_true_iff in Hv as [? _]].
  change (default EmptyString (Some (print v))) with (print v). rewrite (parse_print v); [done|done| |rewrite length_sapp; simpl; lia].
  destruct v; try done. by destruct (Hn n).
Qed.

End round_trip.
