(* ===== verification/TextLines.v ===== *)
(** * Lines and padded numbers

    Text files of lines and numbers in fixed width, as the indexes and the receipt shards
    of the chain have them: [padStart], [Number] of digits, [split("\n")]. *)

From Stdlib Require Import Ascii DecimalString DecimalN.
From S2P Require Import Prelude Js JsText CanonicalJson JsonParse.

(** ** Numbers in fixed width *)

(** [text.padStart(8, "0")] *)
Fixpoint pad_zeros (k : nat) (s : string) : string := match k with O => s | S k' => String "0" (pad_zeros k' s) end.
Definition padStart8 (s : string) : string := pad_zeros (8 - String.length s) s.

(** [Number(digits)] *)
Definition digit_value (c : ascii) : Z := Z.of_N (N_of_ascii c) - 48.

Fixpoint digits_from (acc : Z) (s : string) : Z :=
  match s with EmptyString => acc | String c s' => digits_from (acc * 10 + digit_value c) s' end.

Definition digits_value (s : string) : Z := digits_from 0 s.

Lemma digits_from_split acc s : digits_from acc s = acc * 10 ^ Z.of_nat (String.length s) + digits_value s.
Proof.
  unfold digits_value. revert acc. induction s as [|c s IH]; intros acc; cbn [digits_from String.length]; [simpl; lia|].
  rewrite IH, (IH (0 * 10 + _)), Nat2Z.inj_succ, Z.pow_succ_r by lia. lia.
Qed.

Lemma digits_cons c s : digits_value (String c s) = digit_value c * 10 ^ Z.of_nat (String.length s) + digits_value s.
Proof. unfold digits_value at 1. cbn [digits_from]. by rewrite digits_from_split. Qed.

Lemma digit_bound c : is_digit c = true -> 0 <= digit_value c <= 9.
Proof. unfold is_digit, in_range, digit_value. rewrite andb_true_iff, !N.leb_le. lia. Qed.

Lemma digits_bound s : string_forallb is_digit s = true -> 0 <= digits_value s < 10 ^ Z.of_nat (String.length s).
Proof.
  induction s as [|c s IH]; [by vm_compute|]. cbn [string_forallb String.length]. intros [Hc Hs]%andb_true_iff.
  rewrite digits_cons, Nat2Z.inj_succ, Z.pow_succ_r by lia. pose proof (digit_bound c Hc). pose proof (IH Hs). nia.
Qed.

(** Texts of digits of one length are ordered as their numbers. *)
Lemma digits_order a b : string_forallb is_digit a = true -> string_forallb is_digit b = true ->
  String.length a = String.length b -> str_leb a b = true -> digits_value a <= digits_value b.
Proof.
  revert b. induction a as [|c a IH]; intros [|d b]; try done. cbn [string_forallb String.length].
  intros [Hc Ha]%andb_true_iff [Hd Hb]%andb_true_iff [= Hl]. unfold str_leb, String.leb. cbn [String.compare].
  rewrite !digits_cons, Hl. pose proof (digits_bound a Ha). pose proof (digits_bound b Hb). specialize (IH b Ha Hb Hl). rewrite Hl in *.
  pose proof (digit_bound c Hc). pose proof (digit_bound d Hd).
  unfold Ascii.compare. destruct (N.compare_spec (N_of_ascii c) (N_of_ascii d)) as [E|E|E]; intros Hle.
  - pose proof (IH Hle). unfold digit_value. rewrite E. lia.
  - unfold digit_value in *. nia.
  - done.
Qed.

Lemma digits_from_uint d acc : digits_from (Z.pos acc) (NilEmpty.string_of_uint d) = Z.pos (Pos.of_uint_acc d acc).
Proof.
  revert acc. induction d; intros acc; cbn [NilEmpty.string_of_uint digits_from Pos.of_uint_acc]; [done|..];
    rewrite <- IHd; f_equal; unfold digit_value; cbn; lia.
Qed.

Lemma digits_uint d : digits_value (NilEmpty.string_of_uint d) = Z.of_N (N.of_uint d).
Proof.
  unfold digits_value. induction d; cbn [NilEmpty.string_of_uint digits_from]; [done|exact IHd|..];
    exact (digits_from_uint d _).
Qed.

Lemma digits_dec z : 0 <= z -> digits_value (dec z) = z.
Proof.
  intros Hz. unfold dec, NilZero.string_of_uint. pose proof (to_uint_nonnil (Z.to_N z)) as Hn.
  destruct (N.to_uint (Z.to_N z)) eqn:E; [done|..]; rewrite <- E, digits_uint, DecimalN.Unsigned.of_to; lia.
Qed.

Lemma digits_pad k s : digits_value (pad_zeros k s) = digits_value s.
Proof. induction k as [|k IH]; [done|]. cbn [pad_zeros]. rewrite digits_cons, IH. unfold digit_value. simpl. lia. Qed.

Lemma pad_digits k s : string_forallb is_digit (pad_zeros k s) = string_forallb is_digit s.
Proof. induction k as [|k IH]; [done|]. exact IH. Qed.

Lemma pad_length k s : String.length (pad_zeros k s) = (k + String.length s)%nat.
Proof. induction k as [|k IH]; [done|]. simpl. by rewrite IH. Qed.

(** The length of a number. *)
Lemma dec_length z k : 0 <= z < 10 ^ Z.of_nat k -> (0 < k)%nat -> (String.length (dec z) <= k)%nat.
Proof.
  intros Hz Hk. pose proof (dec_canonical z) as Hc. pose proof (digits_dec z ltac:(lia)) as Hv. revert Hc Hv.
  destruct (dec z) as [|c s]; [done|]. unfold is_canonical_decimal.
  destruct (bool_decide_reflect (String c s = "0"%string)) as [[= -> ->]|_]; [simpl; lia|]. simpl orb.
  intros [Hc Hs]%andb_true_iff Hv. cbn [String.length]. rewrite digits_cons in Hv. pose proof (digits_bound s Hs).
  assert (1 <= digit_value c) as H1.
  { unfold is_nonzero_digit, in_range, digit_value in *. rewrite andb_true_iff, !N.leb_le in Hc. lia. }
  assert (10 ^ Z.of_nat (String.length s) < 10 ^ Z.of_nat k) as Hp by nia.
  apply Z.pow_lt_mono_r_iff in Hp; lia.
Qed.

(** ** Lines *)

Definition newline : ascii := chr 10.

Fixpoint split_lines (s : string) : list string :=
  match s with
  | EmptyString => [EmptyString]
  | String c s' =>
      if Ascii.eqb c newline then EmptyString :: split_lines s'
      else match split_lines s' with x :: l => String c x :: l | [] => [String c EmptyString] end
  end.

(** Lines, each with its end. *)
Fixpoint lines_text (l : list string) : string :=
  match l with [] => EmptyString | x :: l' => x +:+ String newline (lines_text l') end.

Definition one_line (s : string) : bool := string_forallb (fun c => negb (Ascii.eqb c newline)) s.

Lemma split_line x r : one_line x = true -> split_lines (x +:+ String newline r) = x :: split_lines r.
Proof.
  induction x as [|c x IH]; [done|]. unfold one_line. cbn [string_forallb]. intros [Hc Hx]%andb_true_iff.
  change ((String c x) +:+ String newline r) with (String c (x +:+ String newline r)). cbn [split_lines].
  apply negb_true_iff in Hc. by rewrite Hc, IH.
Qed.

Lemma split_lines_text l : Forall (fun x => one_line x = true) l -> split_lines (lines_text l) = l ++ [EmptyString].
Proof. induction 1 as [|x l Hx _ IH]; [done|]. cbn [lines_text]. by rewrite split_line, IH. Qed.

Lemma lines_text_app a b : lines_text (a ++ b) = lines_text a +:+ lines_text b.
Proof.
  induction a as [|x a IH]; [done|]. cbn [app lines_text]. rewrite IH, sapp_assoc. done.
Qed.

(** [text.endsWith("\n")] *)
Fixpoint ends_line (s : string) : bool :=
  match s with EmptyString => false | String c EmptyString => Ascii.eqb c newline | String _ s' => ends_line s' end.

Lemma ends_line_app a b : b <> EmptyString -> ends_line (a +:+ b) = ends_line b.
Proof.
  intros Hb. induction a as [|c a IH]; [done|]. change ((String c a) +:+ b) with (String c (a +:+ b)). cbn [ends_line].
  destruct (a +:+ b) eqn:E; [|by rewrite IH]. destruct a; [|done]. by simpl in E.
Qed.

Lemma ends_lines_text l : l <> [] -> ends_line (lines_text l) = true.
Proof.
  induction l as [|x l IH]; [done|]. intros _. cbn [lines_text]. rewrite ends_line_app by done.
  destruct l as [|y l]; [done|]. cbn [ends_line]. destruct (lines_text (y :: l)) eqn:E; [|by apply IH].
  cbn [lines_text] in E. by destruct y.
Qed.

(** ** JSON on one line *)

Lemma one_line_app a b : one_line (a +:+ b) = one_line a && one_line b.
Proof. apply forallb_sapp. Qed.

Lemma one_line_quote s : one_line (json_quote s) = true.
Proof.
  unfold json_quote. change (String (chr 34) (escape s +:+ char_text 34)) with (char_text 34 +:+ (escape s +:+ char_text 34)).
  rewrite !one_line_app. change (one_line (char_text 34)) with true. rewrite andb_true_r. cbn [andb].
  induction s as [|c s IH]; [done|]. cbn [escape]. rewrite one_line_app, IH, andb_true_r.
  destruct c as [[][][][][][][][]]; reflexivity.
Qed.

Lemma one_line_digits s : string_forallb is_digit s = true -> one_line s = true.
Proof.
  unfold one_line. induction s as [|c s IH]; [done|]. cbn [string_forallb]. intros [Hc Hs]%andb_true_iff. rewrite IH by done.
  rewrite andb_true_r. by destruct c as [[][][][][][][][]].
Qed.

Lemma one_line_int z : one_line (int_text z) = true.
Proof.
  assert (forall x, one_line (dec x) = true) as Hd by (intros x; apply one_line_digits, dec_digits).
  unfold int_text. destruct (z <? 0); [|apply Hd]. rewrite one_line_app, Hd. done.
Qed.

Lemma one_line_join l : Forall (fun x => one_line x = true) l -> one_line (join_comma l) = true.
Proof.
  intros Hl. assert (forall l, Forall (fun x => one_line x = true) l -> one_line (join_tail l) = true) as Ht.
  { clear. induction 1 as [|x l Hx _ IH]; [done|]. cbn [join_tail]. by rewrite !one_line_app, Hx, IH. }
  destruct Hl as [|x l Hx Hl]; [done|]. cbn [join_comma]. by rewrite one_line_app, Hx, Ht.
Qed.

Lemma one_line_print v : one_line (print v) = true.
Proof.
  induction v as [| |b|n|s|l IH|fs IH] using json_nested_ind; try done.
  - by destruct b.
  - destruct n; [apply one_line_int|done].
  - apply one_line_quote.
  - cbn [print]. rewrite !one_line_app, one_line_join; [done|]. by apply Forall_map.
  - cbn [print]. rewrite !one_line_app, one_line_join; [done|]. apply Forall_map. eapply Forall_impl; [exact IH|].
    intros [k x] Hx. unfold field_text. cbn [fst snd] in Hx |- *. by rewrite !one_line_app, one_line_quote, Hx.
Qed.
