(* ===== verification/MerkleRoots.v ===== *)
(** * Merkle roots of blocks

    Model of [src/util/merkle.ts] and of [computeRoots] of [src/chain/block.ts]: the roots
    that a block header holds for the hashes of its transactions and the identifiers of its
    blobs.  A [Buffer] is the list of its bytes. *)

From Stdlib Require Import Ascii.
From S2P Require Import Prelude Js JsText CanonicalJson Sha256 JsConvert.

(** ** Buffers *)

(** [crypto.createHash("sha256").update(buffer).digest()] *)
Class BufferDigest : Type := sha256_buffer : list Z -> list Z.

Definition is_bytes (n : nat) (b : list Z) : Prop := length b = n /\ Forall (fun z => 0 <= z < 256) b.

(** A digest has 32 bytes. *)
Class BufferDigestShape (d : BufferDigest) : Prop :=
  buffer_digest_bytes : forall b, is_bytes 32 (sha256_buffer b).

Definition hex_value (c : ascii) : option Z :=
  let n := Z.of_N (N_of_ascii c) in
  if is_digit c then Some (n - 48)
  else if in_range 97 102 c then Some (n - 87)
  else if in_range 65 70 c then Some (n - 55)
  else None.

(** [Buffer.from(text, "hex")] stops where the text is no longer hexadecimal. *)
Fixpoint from_hex (s : string) : list Z :=
  match s with
  | String a (String b s') =>
      match hex_value a, hex_value b with
      | Some x, Some y => (16 * x + y) :: from_hex s'
      | _, _ => []
      end
  | _ => []
  end.

(** [buffer.toString("hex")] *)
Fixpoint to_hex (b : list Z) : string :=
  match b with
  | [] => EmptyString
  | z :: b' => String (hex_digit (Z.to_N (z / 16))) (String (hex_digit (Z.to_N (z mod 16))) (to_hex b'))
  end.

Fixpoint repeat_char (c : ascii) (n : nat) : string :=
  match n with O => EmptyString | S n' => String c (repeat_char c n') end.

(** 64 zeros *)
Definition ZERO_HASH_64 : string := repeat_char "0" 64.

Section merkle.
Context `{D : BufferDigest}.

Definition h (b : list Z) : list Z := sha256_buffer b.

(** One pass of the outer loop: pairs are hashed, the last one with itself if it is alone. *)
Fixpoint next_level (level : list (list Z)) : list (list Z) :=
  match level with
  | a :: b :: rest => h (a ++ b) :: next_level rest
  | [a] => [h (a ++ a)]
  | [] => []
  end.

(** [while (level.length > 1)] *)
Fixpoint merkle_loop (fuel : nat) (level : list (list Z)) : list (list Z) :=
  match fuel, level with
  | S fuel', _ :: _ :: _ => merkle_loop fuel' (next_level level)
  | _, _ => level
  end.

Definition merkleRootHex (leavesHex : list string) : string :=
  match leavesHex with
  | [] => ZERO_HASH_64
  | _ => to_hex (default [] (head (merkle_loop (length leavesHex) (map from_hex leavesHex))))
  end.

Definition hashToLeafHex (s : string) : string := to_hex (h (from_hex s)).

(** [(t?.key || EMPTY).toLowerCase()] *)
Definition lower_member (key : string) (t : json) : res string :=
  let v := t.@key in
  if falsy v then Ok EmptyString
  else match v with JStr s => Ok (toLowerCase s) | _ => Throw "toLowerCase is not a function" end.

Definition leaf_hashes (key : string) (items : list json) : res (list string) :=
  texts ← map_res (lower_member key) items;
  Ok (List.filter is_hex64 texts).

Definition root_of (leaves : list string) : string :=
  match leaves with [] => ZERO_HASH_64 | _ => merkleRootHex (map hashToLeafHex leaves) end.

Definition computeRoots (txs blobs : list json) : res (string * string) :=
  txLeaves ← leaf_hashes "hash" txs;
  blobLeaves ← leaf_hashes "cid" blobs;
  Ok (root_of txLeaves, root_of blobLeaves).

(** ** What the roots hash *)

(** The buffers that one level hashes, those of all levels, and those of a root. *)
Fixpoint level_inputs (level : list (list Z)) : list (list Z) :=
  match level with
  | a :: b :: rest => (a ++ b) :: level_inputs rest
  | [a] => [a ++ a]
  | [] => []
  end.

Fixpoint loop_inputs (fuel : nat) (level : list (list Z)) : list (list Z) :=
  match fuel, level with
  | S fuel', _ :: _ :: _ => level_inputs level ++ loop_inputs fuel' (next_level level)
  | _, _ => []
  end.

Definition root_inputs (leaves : list string) : list (list Z) :=
  map from_hex leaves ++ loop_inputs (length leaves) (map (fun s => h (from_hex s)) leaves).

(** Two of the buffers that the computations of two roots hash collide. *)
Definition clash (xs ys : list (list Z)) : Prop :=
  exists x y, x ∈ xs /\ y ∈ ys /\ x <> y /\ sha256_buffer x = sha256_buffer y.

End merkle.

(** ** The executable digest on buffers *)

Definition word_bytes (x : Z) : list Z := map (byte_at x) [3; 2; 1; 0].

#[export] Instance sha256_of_buffer : BufferDigest := fun b =>
  let ws := words (pad b) in
  concat (map word_bytes (hash_words (blocks (length ws) ws initial_hash))).

#[export] Instance sha256_of_buffer_shape : BufferDigestShape sha256_of_buffer.
Proof.
  intros b. unfold sha256_buffer, sha256_of_buffer. set (s := blocks _ _ _). split; [done|].
  apply Forall_concat, Forall_map, Forall_forall. intros x _. unfold word_bytes.
  apply Forall_map, Forall_forall. intros i _. unfold byte_at.
  change 255 with (Z.ones 8). rewrite Z.land_ones by lia. apply Z.mod_pos_bound. lia.
Qed.

(** ** Hexadecimal text *)

Lemma hex_value_digit n : 0 <= n < 16 -> hex_value (hex_digit (Z.to_N n)) = Some n.
Proof.
  intros Hn. rewrite <- (Z2Nat.id n) by lia. assert (Z.to_nat n < 16)%nat as Hk by lia. revert Hk.
  generalize (Z.to_nat n). intros k Hk. do 16 (destruct k as [|k]; [reflexivity|]). lia.
Qed.

Lemma hex_value_lower c : is_lower_hex c = true ->
  exists n, 0 <= n < 16 /\ hex_value c = Some n /\ hex_digit (Z.to_N n) = c.
Proof.
  intros Hc. destruct c as [[][][][][][][][]]; try discriminate Hc;
    (eexists; split; [|split; [reflexivity|reflexivity]]; split; reflexivity || discriminate).
Qed.

Lemma from_hex_to_hex n b : is_bytes n b -> from_hex (to_hex b) = b.
Proof.
  intros [_ Hb]. induction Hb as [|z b Hz _ IH]; [done|]. cbn [to_hex from_hex].
  rewrite (hex_value_digit (z / 16)) by (split; [apply Z.div_pos; lia|apply Z.div_lt_upper_bound; lia]).
  rewrite (hex_value_digit (z mod 16)) by (apply Z.mod_pos_bound; lia).
  rewrite IH. f_equal. pose proof (Z.div_mod z 16 ltac:(lia)). lia.
Qed.

Lemma from_hex_bytes n s : is_hex_digits (2 * n) s = true -> is_bytes n (from_hex s) /\ to_hex (from_hex s) = s.
Proof.
  revert s. induction n as [|n IH]; intros s Hs.
  { unfold is_hex_digits in Hs. apply andb_true_iff in Hs as [Hl _]. destruct s; [|done]. done. }
  unfold is_hex_digits in Hs. apply andb_true_iff in Hs as [Hl Hall].
  destruct s as [|a [|b s]]; [apply Nat.eqb_eq in Hl; simpl in Hl; lia..|].
  apply Nat.eqb_eq in Hl. simpl in Hl, Hall.
  apply andb_true_iff in Hall as [Ha [Hb Hall]%andb_true_iff].
  destruct (hex_value_lower a Ha) as (x & Hx & Hxa & Hxd), (hex_value_lower b Hb) as (y & Hy & Hyb & Hyd).
  destruct (IH s) as [[Hlen Hbytes] Hto].
  { unfold is_hex_digits. rewrite Hall, andb_true_r. apply Nat.eqb_eq. lia. }
  cbn [from_hex]. rewrite Hxa, Hyb. split; [split; [simpl; by rewrite Hlen|constructor; [lia|done]]|].
  cbn [to_hex]. rewrite Hto.
  replace ((16 * x + y) / 16) with x by (rewrite Z.mul_comm, Z.div_add_l, Z.div_small by lia; lia).
  replace ((16 * x + y) mod 16) with y by (rewrite Z.add_comm, Z.mul_comm, Z.mod_add, Z.mod_small by lia; lia).
  by rewrite Hxd, Hyd.
Qed.

Lemma from_hex64 s : is_hex64 s = true -> is_bytes 32 (from_hex s) /\ to_hex (from_hex s) = s.
Proof. apply (from_hex_bytes 32). Qed.

Lemma from_hex64_inj s t : is_hex64 s = true -> is_hex64 t = true -> from_hex s = from_hex t -> s = t.
Proof. intros [_ Hs]%from_hex64 [_ Ht]%from_hex64 Heq. by rewrite <- Hs, <- Ht, Heq. Qed.

Lemma to_hex_inj n b c : is_bytes n b -> is_bytes n c -> to_hex b = to_hex c -> b = c.
Proof. intros Hb%from_hex_to_hex Hc%from_hex_to_hex Heq. by rewrite <- Hb, <- Hc, Heq. Qed.

(** ** The levels of a tree *)

Section levels.
Context `{D : BufferDigest} `{!BufferDigestShape D}.

(** Induction on a list two elements at a time. *)
Lemma pairs_ind {A} (P : list A -> Prop) : P [] -> (forall a, P [a]) ->
  (forall a b l, P l -> P (a :: b :: l)) -> forall l, P l.
Proof.
  intros H0 H1 H2. assert (forall l, P l /\ forall a, P (a :: l)) as Hl; [|apply Hl].
  induction l as [|a l [IH IH']]; [done|]. split; [apply IH'|]. intros b. apply H2, IH.
Qed.

Lemma next_level_length l : length (next_level l) = Nat.div2 (S (length l)).
Proof. induction l as [|a|a b l IH] using pairs_ind; [done|done|]. cbn [next_level length]. rewrite IH. done. Qed.

Lemma next_level_bytes l : Forall (is_bytes 32) (next_level l).
Proof. induction l using pairs_ind; repeat constructor; try apply buffer_digest_bytes; done. Qed.

Lemma next_level_shorter l : (1 < length l)%nat -> (1 <= length (next_level l) < length l)%nat.
Proof.
  rewrite next_level_length. intros Hl. pose proof (Nat.div2_odd (S (length l))) as Hd.
  destruct (Nat.odd (S (length l))); simpl Nat.b2n in Hd; lia.
Qed.

(** Enough passes leave one node. *)
Lemma merkle_loop_one fuel l : (1 <= length l <= fuel)%nat -> exists r, merkle_loop fuel l = [r].
Proof.
  revert l. induction fuel as [|fuel IH]; intros l Hl; [lia|].
  destruct l as [|a [|b l]]; [simpl in Hl; lia|by exists a|]. cbn [merkle_loop].
  pose proof (next_level_shorter (a :: b :: l) ltac:(simpl; lia)). apply IH. lia.
Qed.

Lemma merkle_loop_bytes fuel l : Forall (is_bytes 32) l -> Forall (is_bytes 32) (merkle_loop fuel l).
Proof.
  revert l. induction fuel as [|fuel IH]; intros l Hl; [done|].
  destruct l as [|a [|b l]]; [done|done|]. apply IH, next_level_bytes.
Qed.

Lemma clash_app_l xs ys xs' ys' : clash xs ys -> clash (xs ++ xs') (ys ++ ys').
Proof. intros (x & y & Hx & Hy & ?). exists x, y. set_solver. Qed.

Lemma clash_app_r xs ys xs' ys' : clash xs' ys' -> clash (xs ++ xs') (ys ++ ys').
Proof. intros (x & y & Hx & Hy & ?). exists x, y. set_solver. Qed.

Lemma app_bytes_inj (a b c d : list Z) : is_bytes 32 a -> is_bytes 32 c -> a ++ b = c ++ d -> a = c /\ b = d.
Proof. intros [Ha _] [Hc _]. apply app_inj_1. congruence. Qed.

(** A level with as many nodes determines the level below, or two of its inputs collide. *)
Lemma next_level_binds l k : length l = length k -> Forall (is_bytes 32) l -> Forall (is_bytes 32) k ->
  next_level l = next_level k -> l = k \/ clash (level_inputs l) (level_inputs k).
Proof.
  revert k. induction l as [|a|a b l IH] using pairs_ind; intros k Hlen Hl Hk Heq.
  - destruct k; [by left|done].
  - destruct k as [|c [|d k]]; [done| |done]. cbn in Heq. injection Heq as Heq.
    apply Forall_cons in Hl as [Ha _], Hk as [Hc _].
    destruct (decide (a ++ a = c ++ c)) as [Hac|Hne]; [left|right; exists (a ++ a), (c ++ c); set_solver].
    apply app_bytes_inj in Hac as [-> _]; done.
  - destruct k as [|c [|d k]]; [done|done|]. cbn in Heq. injection Heq as Hh Heq.
    apply Forall_cons in Hl as [Ha [Hb Hl]%Forall_cons], Hk as [Hc [Hd Hk]%Forall_cons].
    destruct (IH k) as [->|Hcl]; [simpl in Hlen; lia|done|done|done| |right; by apply (clash_app_r [a ++ b] [c ++ d])].
    destruct (decide (a ++ b = c ++ d)) as [Hac|Hne]; [left|right; exists (a ++ b), (c ++ d); set_solver].
    apply app_bytes_inj in Hac as [-> ->]; done.
Qed.

Lemma merkle_loop_binds fuel l k : length l = length k -> Forall (is_bytes 32) l -> Forall (is_bytes 32) k ->
  merkle_loop fuel l = merkle_loop fuel k -> l = k \/ clash (loop_inputs fuel l) (loop_inputs fuel k).
Proof.
  revert l k. induction fuel as [|fuel IH]; intros l k Hlen Hl Hk Heq; [by left|].
  destruct l as [|a [|b l]], k as [|c [|d k]]; try done; [by left|by left|]. cbn [merkle_loop loop_inputs] in *.
  destruct (IH (next_level (a :: b :: l)) (next_level (c :: d :: k))) as [Hn|Hcl];
    [by rewrite !next_level_length, Hlen|apply next_level_bytes|apply next_level_bytes|done| |];
    [|right; by apply clash_app_r].
  destruct (next_level_binds (a :: b :: l) (c :: d :: k)) as [|Hcl]; [done|done|done|done|by left|].
  right. by apply clash_app_l.
Qed.

Lemma leaves_bytes leaves : Forall (is_bytes 32) (map (fun s => h (from_hex s)) leaves).
Proof. apply Forall_map, Forall_forall. intros s _. apply buffer_digest_bytes. Qed.

(** The root as text is the single node that the passes leave. *)
Lemma root_of_node leaves : leaves <> [] ->
  exists r, merkle_loop (length leaves) (map (fun s => h (from_hex s)) leaves) = [r] /\
    is_bytes 32 r /\ root_of leaves = to_hex r.
Proof.
  intros Hne. destruct (merkle_loop_one (length leaves) (map (fun s => h (from_hex s)) leaves)) as [r Hr].
  { rewrite length_map. destruct leaves; [done|simpl; lia]. }
  exists r. split; [done|]. split.
  - pose proof (merkle_loop_bytes (length leaves) _ (leaves_bytes leaves)) as Hb. rewrite Hr in Hb.
    by apply Forall_cons in Hb as [? _].
  - assert (map from_hex (map hashToLeafHex leaves) = map (fun s => h (from_hex s)) leaves) as Hmap.
    { rewrite map_map. apply map_ext. intros s. apply (from_hex_to_hex 32), buffer_digest_bytes. }
    unfold root_of. destruct leaves as [|s leaves]; [done|]. unfold merkleRootHex. rewrite Hmap, length_map, Hr.
    cbn [map]. done.
Qed.

Lemma leaves_bind l k : Forall (fun s => is_hex64 s = true) l -> Forall (fun s => is_hex64 s = true) k ->
  map (fun s => h (from_hex s)) l = map (fun s => h (from_hex s)) k ->
  l = k \/ clash (map from_hex l) (map from_hex k).
Proof.
  intros Hl. revert k. induction Hl as [|s l Hs _ IH]; intros k Hk Heq; [destruct k; [by left|done]|].
  destruct k as [|t k]; [done|]. cbn in Heq. injection Heq as Hst Heq. apply Forall_cons in Hk as [Ht Hk].
  destruct (IH k Hk Heq) as [->|Hcl]; [|right; by apply (clash_app_r [from_hex s] [from_hex t])].
  destruct (decide (from_hex s = from_hex t)) as [Hst'|Hne].
  - left. f_equal. by apply from_hex64_inj.
  - right. exists (from_hex s), (from_hex t). set_solver.
Qed.

Lemma root_binds l k : Forall (fun s => is_hex64 s = true) l -> Forall (fun s => is_hex64 s = true) k ->
  length l = length k -> root_of l = root_of k -> l = k \/ clash (root_inputs l) (root_inputs k).
Proof.
  intros Hl Hk Hlen Heq. destruct (decide (l = [])) as [->|Hne]; [destruct k; [by left|done]|].
  assert (k <> []) as Hne' by (intros ->; by destruct l).
  destruct (root_of_node l Hne) as (r & Hr & Hrb & Hrl), (root_of_node k Hne') as (r' & Hr' & Hrb' & Hrk).
  rewrite Hrl, Hrk in Heq. apply (to_hex_inj 32) in Heq as <-; [|done|done].
  destruct (merkle_loop_binds (length l) (map (fun s => h (from_hex s)) l) (map (fun s => h (from_hex s)) k))
    as [Hlv|Hcl]; [by rewrite !length_map|apply leaves_bytes|apply leaves_bytes|congruence| |].
  - destruct (leaves_bind l k Hl Hk Hlv) as [->|Hcl]; [by left|]. right. by apply clash_app_l.
  - right. unfold root_inputs. rewrite <- Hlen. by apply clash_app_r.
Qed.

(** One more pass changes nothing where there were enough. *)
Lemma merkle_loop_more fuel l : (length l <= fuel)%nat -> merkle_loop (S fuel) l = merkle_loop fuel l.
Proof.
  revert l. induction fuel as [|fuel IH]; intros l Hl; destruct l as [|a [|b l]]; try done; [simpl in Hl; lia|].
  change (merkle_loop (S fuel) (next_level (a :: b :: l)) = merkle_loop fuel (next_level (a :: b :: l))).
  pose proof (next_level_shorter (a :: b :: l) ltac:(simpl; lia)). apply IH. lia.
Qed.

Lemma next_level_repeat l x : Nat.even (length l) = true -> next_level (l ++ [x; x]) = next_level (l ++ [x]).
Proof.
  induction l as [|a|a b l IH] using pairs_ind; intros He; [done|discriminate He|]. cbn. by rewrite IH.
Qed.

Lemma root_repeats leaves s : Nat.even (length leaves) = true -> leaves <> [] ->
  root_of (leaves ++ [s; s]) = root_of (leaves ++ [s]).
Proof.
  intros He Hne.
  destruct (root_of_node (leaves ++ [s; s])) as (r & Hr & _ & ->); [by destruct leaves|].
  destruct (root_of_node (leaves ++ [s])) as (r' & Hr' & _ & ->); [by destruct leaves|].
  enough ([r] = [r']) as [= ->] by done. rewrite <- Hr, <- Hr', !map_app, !length_app. cbn [length map].
  set (f := fun t => h (from_hex t)). change (h (from_hex s)) with (f s). set (n := length leaves). assert (2 <= n)%nat as Hn.
  { unfold n. destruct leaves as [|a [|b l]]; [done|discriminate He|simpl; lia]. }
  replace (n + 2)%nat with (S (S n)) by lia. replace (n + 1)%nat with (S n) by lia.
  pose proof (next_level_repeat (map f leaves) (f s)) as Hrep. rewrite length_map in Hrep. specialize (Hrep He).
  assert (forall m k, (2 <= length k)%nat -> merkle_loop (S m) k = merkle_loop m (next_level k)) as Hpass.
  { intros m k Hk. destruct k as [|a [|b k]]; simpl in Hk; [lia|lia|done]. }
  rewrite (Hpass (S n) (map f leaves ++ [f s; f s])), (Hpass n (map f leaves ++ [f s]))
    by (rewrite length_app, length_map; simpl; lia).
  rewrite Hrep. apply merkle_loop_more.
  pose proof (next_level_shorter (map f leaves ++ [f s])) as Hshort.
  rewrite length_app, length_map in Hshort. simpl in Hshort. fold n in Hshort. lia.
Qed.

End levels.

Lemma leaf_hashes_hex key items l : leaf_hashes key items = Ok l -> Forall (fun s => is_hex64 s = true) l.
Proof.
  intros ?. unfold leaf_hashes in *. inv_ok. apply List.Forall_forall. intros s [_ Hs]%filter_In. done.
Qed.

Lemma map_res_app {A B} (f : A -> res B) l k :
  map_res f (l ++ k) = (a ← map_res f l; b ← map_res f k; Ok (a ++ b)).
Proof.
  unfold map_res. rewrite mapi_res_app. destruct (mapi_res _ 0 l); [|done]. cbn [mbind res_bind].
  assert (forall i, mapi_res (fun _ => f) i k = mapi_res (fun _ => f) 0 k) as ->; [|done].
  assert (forall i j, mapi_res (fun _ => f) i k = mapi_res (fun _ => f) j k) as Hij; [|done].
  induction k as [|x k IH]; intros i j; [done|]. cbn. destruct (f x); [|done]. cbn. by rewrite (IH (S i) (S j)).
Qed.

Lemma leaf_hashes_app key l k :
  leaf_hashes key (l ++ k) = (a ← leaf_hashes key l; b ← leaf_hashes key k; Ok (a ++ b)).
Proof.
  unfold leaf_hashes. rewrite map_res_app. destruct (map_res _ l); [|done]. cbn. destruct (map_res _ k); [|done]. cbn.
  by rewrite List.filter_app.
Qed.

(** The transaction root of a block commits to the hashes of its transactions: two
    lists of transactions with as many hashes and the same root have the same hashes in the
    same order, unless two of the buffers hashed on the way collide. *)
Theorem tx_root_binds `{D : BufferDigest} `{!BufferDigestShape D} (txs txs' blobs blobs' : list json)
    (hashes hashes' : list string) (root blobRoot blobRoot' : string) :
  leaf_hashes "hash" txs = Ok hashes -> leaf_hashes "hash" txs' = Ok hashes' ->
  length hashes = length hashes' ->
  computeRoots txs blobs = Ok (root, blobRoot) -> computeRoots txs' blobs' = Ok (root, blobRoot') ->
  hashes = hashes' \/ clash (root_inputs hashes) (root_inputs hashes').
Proof.
  intros Hl Hl' Hlen Hr Hr'. unfold computeRoots in Hr, Hr'. rewrite Hl in Hr. rewrite Hl' in Hr'. inv_ok.
  apply root_binds; [by eapply leaf_hashes_hex|by eapply leaf_hashes_hex|done|done].
Qed.

(** A root does not commit to the number of transactions: after an even number of others,
    the last one may be repeated. *)
Lemma computeRoots_repeat `{D : BufferDigest} `{!BufferDigestShape D} txs tx blobs hashes hash :
  leaf_hashes "hash" txs = Ok hashes -> hashes <> [] -> Nat.even (length hashes) = true ->
  leaf_hashes "hash" [tx] = Ok [hash] ->
  computeRoots (txs ++ [tx; tx]) blobs = computeRoots (txs ++ [tx]) blobs.
Proof.
  intros Hl Hne He Ht. unfold computeRoots. change [tx; tx] with ([tx] ++ [tx]).
  rewrite !leaf_hashes_app, Hl, Ht. cbn [mbind res_bind]. destruct (leaf_hashes "cid" blobs); [|done].
  cbn. by rewrite root_repeats.
Qed.
