(* ===== verification/NodeBuffer.v ===== *)
(** * Buffers of Node

    The parts of [Buffer] that the segment store uses: 32-bit big-endian lengths, base64
    text, and the bytes of a JSON text. *)

From Stdlib Require Import Ascii.
From S2P Require Import Prelude Js JsText CanonicalJson Sha256 MerkleRoots JsonParse.

Definition is_byte (z : Z) : Prop := 0 <= z < 256.

(** ** Big-endian lengths *)

(** [buffer.writeUInt32BE(n, 0)] *)
Definition writeUInt32BE (n : Z) : res (list Z) :=
  throw_if (2 ^ 32 <=? n) "ERR_OUT_OF_RANGE";; Ok (word_bytes n).

(** [buffer.readUInt32BE(0)] *)
Definition readUInt32BE (b : list Z) : Z := foldl (fun acc x => acc * 256 + x) 0 (take 4 b).

Lemma word_bytes_length n : length (word_bytes n) = 4%nat.
Proof. done. Qed.

Lemma read_word_bytes n r : 0 <= n < 2 ^ 32 -> readUInt32BE (word_bytes n ++ r) = n.
Proof.
  intros Hn. unfold readUInt32BE, word_bytes, byte_at. cbn [map app take foldl].
  rewrite !(Z.land_ones _ 8) by lia. rewrite !Z.shiftr_div_pow2 by lia. change (2 ^ 8) with 256.
  change (2 ^ (8 * 3)) with 16777216. change (2 ^ (8 * 2)) with 65536. change (2 ^ (8 * 1)) with 256.
  change (2 ^ (8 * 0)) with 1. change (2 ^ 32) with 4294967296 in Hn. rewrite Z.div_1_r.
  change 16777216 with (256 * 256 * 256). change 65536 with (256 * 256). rewrite <- !Z.div_div by lia.
  rewrite take_0. cbn [foldl].
  pose proof (Z.div_mod n 256 ltac:(lia)) as E1. pose proof (Z.div_mod (n / 256) 256 ltac:(lia)) as E2.
  pose proof (Z.div_mod (n / 256 / 256) 256 ltac:(lia)) as E3.
  rewrite (Z.mod_small (n / 256 / 256 / 256)); [lia|]. rewrite !Z.div_div by lia. change (256 * 256 * 256) with 16777216.
  split; [by apply Z.div_pos; lia|apply Z.div_lt_upper_bound; lia].
Qed.

(** ** Base64 *)

Definition base64_char (n : Z) : ascii :=
  let n := Z.to_N n in
  if (n <? 26)%N then chr (65 + n) else if (n <? 52)%N then chr (71 + n)
  else if (n <? 62)%N then chr (n - 4) else if (n =? 62)%N then "+" else "/".

(** The value of a character; the alphabet of URLs is accepted too. *)
Definition base64_value (c : ascii) : option Z :=
  let n := Z.of_N (N_of_ascii c) in
  if in_range 65 90 c then Some (n - 65)
  else if in_range 97 122 c then Some (n - 71)
  else if in_range 48 57 c then Some (n + 4)
  else if Ascii.eqb c "+" || Ascii.eqb c "-" then Some 62
  else if Ascii.eqb c "/" || Ascii.eqb c "_" then Some 63
  else None.

(** [buffer.toString("base64")] *)
Fixpoint to_base64 (b : list Z) : string :=
  match b with
  | [] => EmptyString
  | [x] => String (base64_char (x / 4)) (String (base64_char (x mod 4 * 16)) "==")
  | [x; y] =>
      String (base64_char (x / 4)) (String (base64_char (x mod 4 * 16 + y / 16))
        (String (base64_char (y mod 16 * 4)) "="))
  | x :: y :: z :: b' =>
      String (base64_char (x / 4)) (String (base64_char (x mod 4 * 16 + y / 16))
        (String (base64_char (y mod 16 * 4 + z / 64)) (String (base64_char (z mod 64)) (to_base64 b'))))
  end.

(** The values up to the first padding; other characters are skipped. *)
Fixpoint base64_values (s : string) : list Z :=
  match s with
  | EmptyString => []
  | String c s' =>
      if Ascii.eqb c "=" then []
      else match base64_value c with Some v => v :: base64_values s' | None => base64_values s' end
  end.

Fixpoint base64_bytes (v : list Z) : list Z :=
  match v with
  | a :: b :: c :: d :: v' => a * 4 + b / 16 :: b mod 16 * 16 + c / 4 :: c mod 4 * 64 + d :: base64_bytes v'
  | [a; b; c] => [a * 4 + b / 16; b mod 16 * 16 + c / 4]
  | [a; b] => [a * 4 + b / 16]
  | _ => []
  end.

(** [Buffer.from(text, "base64")] *)
Definition from_base64 (s : string) : list Z := base64_bytes (base64_values s).

Lemma base64_value_char n : 0 <= n < 64 ->
  Ascii.eqb (base64_char n) "=" = false /\ base64_value (base64_char n) = Some n.
Proof.
  intros Hn. rewrite <- (Z2Nat.id n) by lia. assert (Z.to_nat n < 64)%nat as Hk by lia. revert Hk.
  generalize (Z.to_nat n). intros k Hk. do 64 (destruct k as [|k]; [split; reflexivity|]). lia.
Qed.

Lemma base64_values_cons n s : 0 <= n < 64 -> base64_values (String (base64_char n) s) = n :: base64_values s.
Proof. intros [Hc Hv]%base64_value_char. cbn [base64_values]. by rewrite Hc, Hv. Qed.

Lemma sextets x : is_byte x ->
  0 <= x / 4 < 64 /\ 0 <= x mod 4 < 4 /\ 0 <= x / 16 < 16 /\ 0 <= x mod 16 < 16 /\ 0 <= x / 64 < 4 /\ 0 <= x mod 64 < 64.
Proof. unfold is_byte. intros. repeat split; Z.div_mod_to_equations; lia. Qed.

Lemma base64_group x y z : is_byte x -> is_byte y -> is_byte z ->
  x / 4 * 4 + (x mod 4 * 16 + y / 16) / 16 = x /\
  (x mod 4 * 16 + y / 16) mod 16 * 16 + (y mod 16 * 4 + z / 64) / 4 = y /\
  (y mod 16 * 4 + z / 64) mod 4 * 64 + z mod 64 = z.
Proof. unfold is_byte. intros. repeat split; Z.div_mod_to_equations; lia. Qed.

Lemma from_to_base64 b : Forall is_byte b -> from_base64 (to_base64 b) = b.
Proof.
  unfold from_base64. induction b as [b IH] using (induction_ltof1 _ (@length Z)). intros Hb. unfold ltof in IH.
  assert (is_byte 0) as H0 by (unfold is_byte; lia).
  destruct b as [|x [|y [|z b]]]; [done|..]; rewrite ?Forall_cons in Hb; destruct_and? Hb; cbn [to_base64];
    repeat match goal with H : is_byte ?v |- _ => lazymatch goal with
      | _ : 0 <= v / 4 < 64 |- _ => fail | _ => destruct (sextets v H) as (? & ? & ? & ? & ? & ?) end end.
  - destruct (base64_group x 0 0) as (E & _); [done..|].
    rewrite !base64_values_cons by lia. cbn [base64_values base64_bytes].
    change (Ascii.eqb "=" "=") with true. cbn iota. cbn [base64_bytes]. f_equal.
    rewrite <- E at 3. f_equal. Z.div_mod_to_equations. lia.
  - destruct (base64_group x y 0) as (E1 & E2 & _); [done..|].
    rewrite !base64_values_cons by lia. cbn [base64_values]. change (Ascii.eqb "=" "=") with true. cbn iota.
    cbn [base64_bytes]. rewrite E1. do 2 f_equal. rewrite <- E2 at 3. f_equal. Z.div_mod_to_equations. lia.
  - destruct (base64_group x y z) as (E1 & E2 & E3); [done..|].
    rewrite !base64_values_cons by lia. cbn [base64_bytes]. rewrite E1, E2, E3, IH; [done|simpl; lia|done].
Qed.

(** ** JSON in buffers *)

(** [Buffer.from(JSON.stringify(value))] *)
Definition json_bytes (v : json) : list Z := utf8_bytes (default EmptyString (stringify v)).

(** [JSON.parse(buffer.toString("utf8"))] *)
Definition parse_bytes `{JsonNumber} (b : list Z) : option json :=
  match from_utf8 b with Some s => JSON_parse s | None => None end.

Lemma parse_json_bytes `{JsonNumber} v : textual v = true -> parse_bytes (json_bytes v) = Some v.
Proof. intros Hv. unfold parse_bytes, json_bytes. by rewrite from_to_utf8, parse_stringify. Qed.

Lemma utf8_is_bytes s : Forall is_byte (utf8_bytes s).
Proof.
  induction s as [|c s IH]; [constructor|].
  assert (Forall is_byte (utf8_bytes (String c EmptyString))) as Hc.
  { destruct c as [[][][][][][][][]]; repeat constructor; vm_compute; intuition discriminate. }
  simpl in *. destruct (_ <? 128); rewrite ?Forall_cons in *; naive_solver.
Qed.
