(* ===== verification/BlockFormat.v ===== *)
(** * Blocks: headers, signatures and validation before an append

    Model of the block part of [src/chain/block.ts] (lines 9 to 182 and 1255 to 1387): the
    header and its hash, the signature of the proposer, the authority of proposers from the
    environment, and [validateBlockForAppend].  A candidate is a parsed JSON value, the
    environment a function of the variable name.

    [node:crypto]'s keys and signatures are the interface [NodeCrypto].  The proposer that
    the signed validator files of the other authority sources name is the argument
    [runtimeTruth]: the theorems hold whatever it answers. *)

From Stdlib Require Import Ascii.
From S2P Require Import Prelude Js JsText Flow CanonicalJson Sha256 JsConvert MerkleRoots.

(** [createPublicKey(pem)] succeeds; [verify(null, message, key, signature)], where a throw
    counts as a failure. *)
Class NodeCrypto : Type := {
  createPublicKey : string -> bool;
  verify : string -> string -> list Z -> bool
}.

(** [{ ok: true }] or [{ ok: false, reason }] *)
Inductive BlockValidationResult : Type :=
| Valid
| Invalid (reason : string).

Inductive ExpectedProposer : Type :=
| Proposer (id : string)
| NoProposer (reason : string).

Definition process_env : Type := string -> option string.

(** [env.A || env.B || ... || EMPTY] *)
Fixpoint env_or (env : process_env) (names : list string) : string :=
  match names with
  | [] => EmptyString
  | name :: names' =>
      match env name with
      | Some value => if String.eqb value EmptyString then env_or env names' else value
      | None => env_or env names'
      end
  end.

Definition one_of (l : list string) (s : string) : bool := existsb (String.eqb s) l.

(** [String(value || EMPTY)] *)
Definition text_or_empty (v : json) : res string := if falsy v then Ok EmptyString else js_String v.

Definition is_hex_any (n : nat) (s : string) : bool := (String.length s =? n)%nat && string_forallb is_any_hex s.
Definition isHex64 (s : string) : bool := is_hex_any 64 s.
Definition isHex128 (s : string) : bool := is_hex_any 128 s.

(** [!text] for a string *)
Definition blank (s : string) : bool := String.eqb s EmptyString.

(** ** Headers *)

Definition header_json (b : json) : json :=
  JObj ["number" ~> b.@"number"; "parentHash" ~> b.@"parentHash"; "timestamp" ~> b.@"timestamp";
        "txRoot" ~> b.@"txRoot"; "blobRoot" ~> b.@"blobRoot"; "proposer" ~> b.@"proposer"].

(** The text whose UTF-8 bytes are hashed and signed. *)
Definition blockHeaderBytes (b : json) : string := default EmptyString (stringify (header_json b)).

Definition blockHash `{Digest} (b : json) : string := sha256_hex (blockHeaderBytes b).

Definition nodeIdFromPubPEM `{Digest} (pubPEM : string) : string := slice 0 32 (sha256_hex pubPEM).

(** ** Authority of proposers *)

Definition blockProposerAuthorityRequiredFromEnv (env : process_env) : bool :=
  let raw := toLowerCase (trim (env_or env
    ["VOID_BLOCK_PROPOSER_AUTHORITY_REQUIRED"; "VOID_REQUIRE_TRUSTED_BLOCK_PROPOSER"])) in
  one_of ["1"; "true"; "yes"; "on"] raw.

(** [text.split(/[,\s]+/).map(trim).filter(Boolean)]: the words between separators *)
Definition is_separator (c : ascii) : bool := Ascii.eqb c "," || is_js_space c.

Fixpoint split_words (word : string) (s : string) : list string :=
  let emit := if blank word then [] else [word] in
  match s with
  | EmptyString => emit
  | String c s' => if is_separator c then emit ++ split_words EmptyString s' else split_words (word +:+ String c EmptyString) s'
  end.

Definition parseTrustedBlockProposerIds (raw : string) : list string := split_words EmptyString raw.

Definition trustedBlockProposerIdsFromEnv (env : process_env) : list string :=
  parseTrustedBlockProposerIds (env_or env
    ["VOID_BLOCK_TRUSTED_PROPOSERS"; "VOID_TRUSTED_BLOCK_PROPOSERS"; "VOID_BLOCK_PROPOSER_ALLOWLIST"]).

(** The names of an authority source and its aliases. *)
Definition authority_sources : list (string * list string) :=
  [("env", ["env"; "allowlist"; "operator_env"]);
   ("runtime_truth", ["runtime_truth"; "validator_runtime_truth"; "runtime-truth"; "validator-runtime-truth"]);
   ("signed_runtime_truth", ["signed_runtime_truth"; "signed-validator-runtime-truth"; "signed_runtime-truth";
     "signed-runtime-truth"]);
   ("signed_runtime_truth_epoch_root", ["signed_runtime_truth_epoch_root"; "signed-runtime-truth-epoch-root";
     "signed_validator_runtime_truth_epoch_root"; "signed-validator-runtime-truth-epoch-root"; "epoch_root";
     "epoch-root"]);
   ("signed_runtime_truth_chain_epoch_root", ["signed_runtime_truth_chain_epoch_root";
     "signed-runtime-truth-chain-epoch-root"; "chain_epoch_root"; "chain-epoch-root"; "chain_derived_epoch_root";
     "chain-derived-epoch-root"]);
   ("signed_runtime_truth_canonical_chain_epoch_root", ["signed_runtime_truth_canonical_chain_epoch_root";
     "signed-runtime-truth-canonical-chain-epoch-root"; "canonical_chain_epoch_root"; "canonical-chain-epoch-root";
     "canonical_chain"; "canonical-chain"]);
   ("signed_runtime_truth_live_chain_epoch_root", ["signed_runtime_truth_live_chain_epoch_root";
     "signed-runtime-truth-live-chain-epoch-root"; "live_chain_epoch_root"; "live-chain-epoch-root"; "live_chain";
     "live-chain"]);
   ("signed_runtime_truth_live_chain_api_epoch_root", ["signed_runtime_truth_live_chain_api_epoch_root";
     "signed-runtime-truth-live-chain-api-epoch-root"; "live_chain_api_epoch_root"; "live-chain-api-epoch-root";
     "live_chain_api"; "live-chain-api"; "finality_api"; "finality-api"])]%string.

Definition blockProposerAuthoritySourceFromEnv (env : process_env) : string :=
  let value := env_or env ["VOID_BLOCK_PROPOSER_AUTHORITY_SOURCE"] in
  let raw := toLowerCase (trim (if blank value then "env" else value)) in
  if blank raw then "env"
  else match List.find (fun source => one_of source.2 raw) authority_sources with
       | Some (name, _) => name
       | None => raw
       end.

Section validation.
Context `{Digest} `{BufferDigest} `{NodeCrypto} `{StringNumber}.
Context (runtimeTruth : json -> res ExpectedProposer).

Definition reject_if (b : bool) (reason : string) : flow BlockValidationResult unit :=
  return_if b (Invalid reason).

(** The answer of a body that goes on to its end. *)
Definition verdict (body : flow BlockValidationResult unit) : res BlockValidationResult :=
  match body with Next _ => Ok Valid | Return r => Ok r | Raise e => Throw e end.

Definition verifyBlockSignatureWithPubkey (candidate : json) (pubPEM : string) : res BlockValidationResult :=
  verdict (
    reject_if (blank (trim pubPEM)) "missing_proposer_pubkey";;
    proposer ← call (text_or_empty (candidate.@"proposer"));
    reject_if (blank (trim proposer)) "missing_proposer";;
    sig ← call (text_or_empty (candidate.@"sig"));
    reject_if (negb (isHex128 (trim sig))) "invalid_block_signature_shape";;
    reject_if (negb (createPublicKey pubPEM)) "invalid_proposer_pubkey";;
    reject_if (negb (String.eqb (nodeIdFromPubPEM pubPEM) (trim proposer))) "proposer_pubkey_mismatch";;
    reject_if (negb (verify (blockHeaderBytes candidate) pubPEM (from_hex (trim sig)))) "block_signature_invalid").

(** A call whose rejection is the caller's. *)
Definition require_valid (m : res BlockValidationResult) : flow BlockValidationResult unit :=
  r ← call m;
  match r with Valid => Next tt | Invalid reason => Return (Invalid reason) end.

Definition checkAuthority (env : process_env) (candidate : json) (proposer : string)
    : flow BlockValidationResult unit :=
  let source := blockProposerAuthoritySourceFromEnv env in
  if one_of (tail authority_sources.*1) source then
    expected ← call (runtimeTruth candidate);
    match expected with
    | NoProposer reason => Return (Invalid reason)
    | Proposer id => reject_if (negb (String.eqb id proposer)) "runtime_truth_proposer_mismatch"
    end
  else if String.eqb source "env" then
    reject_if (negb (one_of (trustedBlockProposerIdsFromEnv env) proposer)) "unauthorized_proposer"
  else Return (Invalid "unsupported_proposer_authority_source").

(** Who proposed the block and with what authority. *)
Definition checkProposer (env : process_env) (candidate : json) : flow BlockValidationResult unit :=
  proposer ← call (text_or_empty (candidate.@"proposer"));
  let proposer := trim proposer in
  reject_if (blank proposer) "missing_proposer";;
  sig ← call (text_or_empty (candidate.@"sig"));
  reject_if (negb (isHex128 (trim sig))) "invalid_block_signature_shape";;
  let authorityRequired := blockProposerAuthorityRequiredFromEnv env in
  proposerPubkey ← call (text_or_empty (candidate.@"proposerPubkey"));
  reject_if (authorityRequired && blank (trim proposerPubkey)) "missing_proposer_pubkey";;
  (if blank (trim proposerPubkey) then Next tt
   else require_valid (verifyBlockSignatureWithPubkey candidate proposerPubkey));;
  if authorityRequired then checkAuthority env candidate proposer else Next tt.

Definition is_plain_object (v : json) : bool := match v with JObj _ => true | _ => false end.

Definition isTxShape (t : json) : res bool :=
  if negb (is_object t) then Ok false
  else
    hash ← text_or_empty (t.@"hash");
    Ok (isHex64 hash && is_plain_object (t.@"body")).

(** [Number.isFinite(n) && n >= 0], and [n <= 0] for a finite number *)
Definition finite_nonneg (n : number) : bool := isFinite n && number_geb n 0.
Definition finite_nonpos (n : number) : bool :=
  match n with Integer z => z <=? 0 | Between f => f <? 0 | _ => false end.

Definition isBlobRefShape (b : json) : res bool :=
  if negb (is_object b) then Ok false
  else
    cid ← text_or_empty (b.@"cid");
    if isHex64 cid then size ← js_Number (b.@"size"); Ok (finite_nonneg size) else Ok false.

Definition shapes (shape : json -> res bool) (reason : string) (items : list json)
    : flow BlockValidationResult unit :=
  for_each (fun _ item => ok ← call (shape item); reject_if (negb ok) reason) tt items.

(** The hashes of the header in lower case, as [String(value).toLowerCase()] *)
Definition header_hash (candidate : json) (key reason : string) : flow BlockValidationResult string :=
  text ← call (text_or_empty (candidate.@key));
  reject_if (negb (isHex64 text)) reason;;
  Next (toLowerCase text).

Definition array_of (v : json) (reason : string) : flow BlockValidationResult (list json) :=
  match v with JArr items => Next items | _ => Return (Invalid reason) end.

(** The roots of the header against the transactions and blobs; returns the parent hash. *)
Definition checkRoots (candidate : json) : flow BlockValidationResult string :=
  parentHash ← header_hash candidate "parentHash" "invalid_parent_hash";
  txRoot ← header_hash candidate "txRoot" "invalid_tx_root";
  blobRoot ← header_hash candidate "blobRoot" "invalid_blob_root";
  txs ← array_of (candidate.@"txs") "txs_must_be_array";
  blobs ← array_of (candidate.@"blobs") "blobs_must_be_array";
  shapes isTxShape "invalid_tx_shape" txs;;
  shapes isBlobRefShape "invalid_blob_ref_shape" blobs;;
  roots ← call (computeRoots txs blobs);
  reject_if (negb (String.eqb txRoot roots.1)) "tx_root_mismatch";;
  reject_if (negb (String.eqb blobRoot roots.2)) "blob_root_mismatch";;
  Next parentHash.

Definition checkParent (number : Z) (parentHash : string) (parent : json) : flow BlockValidationResult unit :=
  if number =? 0 then reject_if (negb (String.eqb parentHash ZERO_HASH_64)) "genesis_parent_hash_must_be_zero"
  else
    reject_if (falsy parent) "missing_parent_block";;
    reject_if (negb (String.eqb parentHash (toLowerCase (blockHash parent)))) "parent_hash_mismatch".

Definition validateBlockForAppend (env : process_env) (candidate parent : json) : res BlockValidationResult :=
  verdict (
    reject_if (negb (is_object candidate)) "block_must_be_object";;
    n ← call (js_Number (candidate.@"number"));
    number ← match n with
      | Integer z => reject_if (z <? 0) "invalid_block_number";; Next z
      | _ => Return (Invalid "invalid_block_number")
      end;
    timestamp ← call (js_Number (candidate.@"timestamp"));
    reject_if (negb (isFinite timestamp) || finite_nonpos timestamp) "invalid_timestamp";;
    checkProposer env candidate;;
    parentHash ← checkRoots candidate;
    checkParent number parentHash parent).

End validation.
