(* ===== verification/BlockSafety.v ===== *)
(** * What accepted blocks guarantee

    A block that [validateBlockForAppend] accepts has the roots of its transactions and
    blobs, a proposer whose signature and authority were checked where they are required,
    and the hash of its parent: the hash of the head of a chain fixes every header below
    it.  One theorem shows what it does not fix. *)

From Stdlib Require Import Ascii.
From S2P Require Import Prelude Js JsText Flow CanonicalJson Sha256 JsConvert MerkleRoots BlockFormat.

Lemma length_toLowerCase s : String.length (toLowerCase s) = String.length s.
Proof. induction s; simpl; congruence. Qed.

Lemma toLowerCase_any_hex s : string_forallb is_any_hex s = true -> string_forallb is_lower_hex (toLowerCase s) = true.
Proof.
  induction s as [|c s IH]; simpl; [done|]. intros [Hc Hs]%andb_true_iff. rewrite IH by done.
  rewrite andb_true_r. clear -Hc. destruct c as [[][][][][][][][]]; done.
Qed.

(** ** Early acceptance *)

Lemma verdict_Valid body : verdict body = Ok Valid <-> body = Next tt \/ body = Return Valid.
Proof. destruct body as [[]|r|e]; simpl; naive_solver. Qed.

(** No step of a validation returns early with an acceptance. *)
Definition honest {A} (m : flow BlockValidationResult A) : Prop := m <> Return Valid.

Lemma honest_bind {A B} (m : flow BlockValidationResult A) (f : A -> flow BlockValidationResult B) :
  honest m -> (forall a, honest (f a)) -> honest (m ≫= f).
Proof. destruct m; unfold honest; simpl; naive_solver. Qed.

Lemma honest_reject b reason : honest (reject_if b reason).
Proof. by destruct b. Qed.

Lemma honest_call {A} (m : res A) : honest (call m).
Proof. by destruct m. Qed.

Lemma honest_next {A} (a : A) : honest (Next a).
Proof. done. Qed.

Lemma honest_shapes shape reason items : honest (shapes shape reason items).
Proof.
  unfold shapes. generalize tt. induction items as [|i items IH]; intros []; [done|]. simpl.
  apply honest_bind; [|done]. apply honest_bind; [apply honest_call|intros; apply honest_reject].
Qed.

Lemma honest_require m : honest (require_valid m).
Proof. apply honest_bind; [apply honest_call|]. by intros []. Qed.

Ltac honest_step :=
  first
    [ apply honest_bind | apply honest_reject | apply honest_call | apply honest_shapes | apply honest_require
    | apply honest_next | match goal with |- forall _, _ => intros ? end | progress case_match | done ].
Ltac honest := repeat honest_step.

Section safety.
Context `{D : Digest} `{BD : BufferDigest} `{C : NodeCrypto} `{SN : StringNumber}.
Context (runtimeTruth : json -> res ExpectedProposer).

Lemma honest_proposer env c : honest (checkProposer runtimeTruth env c).
Proof. unfold checkProposer, checkAuthority. honest. Qed.

Lemma honest_roots c : honest (checkRoots c).
Proof. unfold checkRoots, header_hash, array_of. honest. Qed.

Lemma honest_parent n ph p : honest (checkParent n ph p).
Proof. unfold checkParent. honest. Qed.

(** The parts of an acceptance. *)
Record accepted (env : process_env) (c p : json) (number : Z) (parentHash : string) : Prop := {
  acc_object : is_object c = true;
  acc_number : js_Number (c.@"number") = Ok (Integer number);
  acc_height : 0 <= number;
  acc_time : exists ts, js_Number (c.@"timestamp") = Ok ts /\ isFinite ts = true /\ finite_nonpos ts = false;
  acc_proposer : checkProposer runtimeTruth env c = Next tt;
  acc_roots : checkRoots c = Next parentHash;
  acc_parent : checkParent number parentHash p = Next tt
}.

Lemma validate_iff env c p : validateBlockForAppend runtimeTruth env c p = Ok Valid <->
  exists number parentHash, accepted env c p number parentHash.
Proof.
  unfold validateBlockForAppend. rewrite verdict_Valid. split.
  - intros [Hn|Hr].
    + inv_flow. match goal with H : match ?n with _ => _ end = Next _ |- _ => destruct n as [z| | |]; try discriminate H end.
      unfold reject_if in *. inv_flow. bool_prop. do 2 eexists. split; eauto; by apply Z.ltb_ge.
    + exfalso. match type of Hr with ?body = _ => assert (honest body) as Hh; [|by apply Hh] end.
      repeat first [apply honest_proposer | apply honest_roots | apply honest_parent | honest_step].
  - intros (n & ph & [Ho Hn Hh (ts & Ht & Hf & Hp) Hpr Hr Hpa]). left.
    apply Z.ltb_ge in Hh. unfold reject_if. rewrite return_if_false by by rewrite Ho.
    rewrite (call_Ok _ _ _ Hn). cbn match. rewrite return_if_false by done. cbn [mbind flow_bind].
    rewrite (call_Ok _ _ _ Ht), return_if_false by by rewrite Hf, Hp.
    rewrite Hpr. cbn [mbind flow_bind]. by rewrite Hr.
Qed.

(** ** Roots *)

Lemma shapes_Next shape reason items : shapes shape reason items = Next tt <-> Forall (fun i => shape i = Ok true) items.
Proof.
  unfold shapes. induction items as [|i items IH]; [done|]. simpl. rewrite Forall_cons. split.
  - intros ?. unfold reject_if in *. inv_flow. bool_prop. subst. split; [done|by apply IH].
  - intros [-> ?]. simpl. by apply IH.
Qed.

(** A member that has the shape of a hash and a lower case is a string of that hash. *)
Lemma lower_member_shape key t text s : text_or_empty (t.@key) = Ok text -> isHex64 text = true ->
  lower_member key t = Ok s -> is_hex64 s = true /\ s = toLowerCase text.
Proof.
  unfold text_or_empty, lower_member. destruct (falsy (t.@key)); [by intros [= <-]|].
  destruct (t.@key); try discriminate. intros [= <-] Hhex [= <-]. split; [|done].
  unfold isHex64, is_hex_any in Hhex. apply andb_true_iff in Hhex as [Hl Ha].
  unfold is_hex64. rewrite length_toLowerCase, Hl. by apply toLowerCase_any_hex.
Qed.

Lemma leaves_complete key shape items l :
  (forall t, shape t = Ok true -> exists text, text_or_empty (t.@key) = Ok text /\ isHex64 text = true) ->
  Forall (fun t => shape t = Ok true) items -> leaf_hashes key items = Ok l -> length l = length items.
Proof.
  intros Hshape Hall Hl. unfold leaf_hashes, map_res in Hl. inv_ok.
  match goal with H : mapi_res _ _ _ = Ok ?x |- _ => rename H into Hm, x into texts end.
  apply mapi_res_Forall2 in Hm. induction Hm as [|t s items texts [j Hs] _ IH]; [done|].
  apply Forall_cons in Hall as [Ht Hall]. destruct (Hshape t Ht) as (text & Htext & Hhex).
  destruct (lower_member_shape key t text s Htext Hhex Hs) as [Hs' _]. cbn [List.filter]. rewrite Hs'. simpl.
  by rewrite IH.
Qed.

Lemma isTxShape_hash t : isTxShape t = Ok true -> exists text, text_or_empty (t.@"hash") = Ok text /\ isHex64 text = true.
Proof. unfold isTxShape. case_match; [done|]. intros ?. inv_ok. bool_prop. eauto. Qed.

Lemma isBlobRefShape_cid b : isBlobRefShape b = Ok true ->
  exists text, text_or_empty (b.@"cid") = Ok text /\ isHex64 text = true.
Proof.
  unfold isBlobRefShape. case_match; [done|]. intros ?. inv_ok. destruct (isHex64 _) eqn:?; [eauto|done].
Qed.

Record roots_ok (c : json) (parentHash : string) (txs blobs : list json) (hashes cids : list string) : Prop := {
  ro_txs : c.@"txs" = JArr txs;
  ro_blobs : c.@"blobs" = JArr blobs;
  ro_hashes : leaf_hashes "hash" txs = Ok hashes;
  ro_cids : leaf_hashes "cid" blobs = Ok cids;
  ro_all_txs : length hashes = length txs;
  ro_all_blobs : length cids = length blobs;
  ro_txRoot : exists text, text_or_empty (c.@"txRoot") = Ok text /\ toLowerCase text = root_of hashes;
  ro_blobRoot : exists text, text_or_empty (c.@"blobRoot") = Ok text /\ toLowerCase text = root_of cids;
  ro_parent : exists text, text_or_empty (c.@"parentHash") = Ok text /\ toLowerCase text = parentHash
}.

Lemma checkRoots_Next c ph : checkRoots c = Next ph -> exists txs blobs hashes cids, roots_ok c ph txs blobs hashes cids.
Proof.
  unfold checkRoots, header_hash, array_of, reject_if. intros ?. inv_flow. bool_prop.
  destruct (c.@"txs") as [| | | | |txs|] eqn:Htxs; try discriminate.
  destruct (c.@"blobs") as [| | | | |blobs|] eqn:Hblobs; try discriminate. inv_flow.
  match goal with H : computeRoots _ _ = Ok _ |- _ => rename H into Hroots end.
  unfold computeRoots in Hroots. inv_ok. simpl in *.
  repeat match goal with H : String.eqb _ _ = true |- _ => apply String.eqb_eq in H end.
  repeat match goal with H : shapes _ _ _ = Next _ |- _ => apply shapes_Next in H end.
  do 4 eexists. split; [done|done|eassumption|eassumption| | |eauto|eauto|eauto].
  - eapply (leaves_complete "hash" isTxShape); [apply isTxShape_hash|done|done].
  - eapply (leaves_complete "cid" isBlobRefShape); [apply isBlobRefShape_cid|done|done].
Qed.

(** ** Chains *)

(** A chain, newest block first: every block was accepted on the one below it. *)
Inductive chain (env : process_env) : list json -> Prop :=
| chain_genesis g : validateBlockForAppend runtimeTruth env g JNull = Ok Valid ->
    js_Number (g.@"number") = Ok (Integer 0) -> chain env [g]
| chain_append b p l n : chain env (p :: l) -> validateBlockForAppend runtimeTruth env b p = Ok Valid ->
    js_Number (b.@"number") = Ok (Integer n) -> n <> 0 -> chain env (b :: p :: l).

Lemma blockHeaderBytes_inj b c : printable (header_json b) = true -> printable (header_json c) = true ->
  blockHeaderBytes b = blockHeaderBytes c -> header_json b = header_json c.
Proof.
  intros Hb Hc. unfold blockHeaderBytes. rewrite !stringify_print by done. cbn [default].
  intros Heq. apply (print_prefix_inj _ _ EmptyString EmptyString Hb Hc eq_refl eq_refl). by rewrite (Heq : print _ = print _).
Qed.

Lemma header_field b c k : header_json b = header_json c -> k ∈ ["number"; "parentHash"; "proposer"]%string ->
  b.@k = c.@k.
Proof.
  unfold header_json. generalize (b.@"timestamp") (c.@"timestamp"). intros t t' Heq Hk. injection Heq as Hn Hp _ _ _ Hpr.
  repeat (apply elem_of_cons in Hk as [->|Hk]; [done|]). by apply elem_of_nil in Hk.
Qed.

(** The hash of the parent is in the header of an accepted block. *)
Lemma accepted_parent `{!DigestShape D} env b p n : validateBlockForAppend runtimeTruth env b p = Ok Valid ->
  js_Number (b.@"number") = Ok (Integer n) -> n <> 0 ->
  exists text, text_or_empty (b.@"parentHash") = Ok text /\ toLowerCase text = blockHash p.
Proof.
  intros (n' & ph & [_ Hn' _ _ _ Hr Hp])%validate_iff Hn Hne. assert (n' = n) as -> by congruence.
  apply checkRoots_Next in Hr as (txs & blobs & hs & cs & Hr). destruct (ro_parent _ _ _ _ _ _ Hr) as (text & Ht & Hl).
  exists text. split; [done|]. subst ph. unfold checkParent in Hp. rewrite (proj2 (Z.eqb_neq n 0) Hne) in Hp.
  unfold reject_if in Hp. inv_flow. bool_prop.
  match goal with H : String.eqb _ _ = true |- _ => apply String.eqb_eq in H; rename H into Heq end.
  rewrite Heq. apply toLowerCase_hex. pose proof (digest_is_hex64 (blockHeaderBytes p)) as Hx.
  by apply andb_true_iff in Hx as [_ ?].
Qed.

Lemma chain_number env b l : chain env (b :: l) ->
  exists n, js_Number (b.@"number") = Ok (Integer n) /\ (n = 0 <-> l = []).
Proof. inversion 1; subst; eexists; (split; [done|]); by split. Qed.

(** Blocks of two chains at the same depth whose header texts collide. *)
Definition headers_collide (l k : list json) : Prop :=
  exists i b c, l !! i = Some b /\ k !! i = Some c /\ collides (blockHeaderBytes b) (blockHeaderBytes c).

Lemma headers_collide_cons b c l k : headers_collide l k -> headers_collide (b :: l) (c :: k).
Proof. intros (i & x & y & ? & ? & ?). by exists (S i), x, y. Qed.

Lemma chain_binds `{!DigestShape D} env env' l k b c :
  chain env (b :: l) -> chain env' (c :: k) ->
  Forall (fun b => printable (header_json b) = true) (b :: l) ->
  Forall (fun b => printable (header_json b) = true) (c :: k) ->
  blockHash b = blockHash c ->
  map header_json (b :: l) = map header_json (c :: k) \/ headers_collide (b :: l) (c :: k).
Proof.
  revert b c k. induction l as [|p l IH]; intros b c k Hb Hc Hpb Hpc Heq;
    (destruct (decide (blockHeaderBytes b = blockHeaderBytes c)) as [Ht|Hne];
      [|right; by exists 0%nat, b, c]);
    pose proof (proj1 (Forall_cons _ _ _) Hpb) as [Hb1 Hpb']; pose proof (proj1 (Forall_cons _ _ _) Hpc) as [Hc1 Hpc'];
    pose proof (blockHeaderBytes_inj b c Hb1 Hc1 Ht) as Hh;
    destruct (chain_number _ _ _ Hb) as (n & Hn & Hnl), (chain_number _ _ _ Hc) as (m & Hm & Hmk);
    pose proof (header_field b c "number" Hh ltac:(set_solver)) as Hnum;
    assert (n = m) as <- by congruence.
  - left. rewrite (proj1 Hmk) by by apply Hnl. by simpl; rewrite Hh.
  - destruct k as [|q k]; [discriminate (proj1 Hnl (proj2 Hmk eq_refl))|].
    inversion Hb as [|? ? ? n1 Hcb Hvb Hn1 Hne1]; subst. inversion Hc as [|? ? ? n2 Hcc Hvc Hn2 Hne2]; subst.
    destruct (accepted_parent _ _ _ _ Hvb Hn1 Hne1) as (t & Hpt & Htl).
    destruct (accepted_parent _ _ _ _ Hvc Hn2 Hne2) as (t' & Hpt' & Htl').
    rewrite (header_field b c "parentHash" Hh ltac:(set_solver)) in Hpt.
    assert (blockHash p = blockHash q) as Hpq by congruence.
    destruct (IH p q k Hcb Hcc Hpb' Hpc' Hpq) as [Hl|Hcol]; [left|right; by apply headers_collide_cons].
    cbn [map] in *. by rewrite Hh, Hl.
Qed.

(** ** Proposers *)

(** The header is signed with a key that names the proposer. *)
Definition signed_by (c : json) (pem id : string) : Prop :=
  nodeIdFromPubPEM pem = id /\
  exists sig, text_or_empty (c.@"sig") = Ok sig /\ verify (blockHeaderBytes c) pem (from_hex (trim sig)) = true.

Lemma signature_Valid c pem : verifyBlockSignatureWithPubkey c pem = Ok Valid ->
  exists id, text_or_empty (c.@"proposer") = Ok id /\ signed_by c pem (trim id).
Proof.
  unfold verifyBlockSignatureWithPubkey. rewrite verdict_Valid. intros [Hn|Hr].
  - unfold reject_if in Hn. inv_flow. bool_prop.
    repeat match goal with H : String.eqb _ _ = true |- _ => apply String.eqb_eq in H end.
    eexists. split; [eassumption|]. split; [done|]. eauto.
  - exfalso. match type of Hr with ?body = _ => assert (honest body) as Hh; [|by apply Hh] end. honest.
Qed.

Record proposer_ok (env : process_env) (c : json) (id pem : string) : Prop := {
  po_id : text_or_empty (c.@"proposer") = Ok id;
  po_key : text_or_empty (c.@"proposerPubkey") = Ok pem;
  po_signed : trim pem <> EmptyString -> signed_by c pem (trim id);
  po_required : blockProposerAuthorityRequiredFromEnv env = true ->
    trim pem <> EmptyString /\ checkAuthority runtimeTruth env c (trim id) = Next tt
}.

Lemma checkProposer_Next env c : checkProposer runtimeTruth env c = Next tt -> exists id pem, proposer_ok env c id pem.
Proof.
  unfold checkProposer, reject_if. intros ?. inv_flow.
  match goal with H : text_or_empty (c.@"proposer") = Ok ?x |- _ => rename H into Hid, x into id end.
  match goal with H : text_or_empty (c.@"proposerPubkey") = Ok ?x |- _ => rename H into Hpem, x into pem end.
  match goal with H : (if blank (trim pem) then _ else _) = Next _ |- _ => rename H into Hsig end.
  match goal with H : (if blockProposerAuthorityRequiredFromEnv env then _ else _) = Next _ |- _ => rename H into Hauth end.
  match goal with H : _ && blank (trim pem) = false |- _ => rename H into Hreq end.
  exists id, pem. split; [done|done| |].
  - intros Hne%String.eqb_neq. unfold blank in Hsig. rewrite Hne in Hsig.
    apply bind_Next in Hsig as ([|reason] & Hv%call_Next & Hk); [|discriminate].
    apply signature_Valid in Hv as (id' & Hid' & Hs). by assert (id' = id) as -> by congruence.
  - intros Ht. rewrite Ht in Hauth, Hreq. split; [|done]. by apply String.eqb_neq in Hreq.
Qed.

(** ** Properties *)

(** C27: A block that is accepted for an append carries the Merkle roots of all its
    transactions and blobs; if it names a key, the key's identity is the proposer and its
    signature of the header verifies; if proposers need authority, it names a key and the
    configured allowlist, where that is the source, holds the proposer. *)
Theorem accepted_block_sound (env : process_env) (c p : json) :
  validateBlockForAppend runtimeTruth env c p = Ok Valid ->
  exists txs blobs hashes cids parentHash id pem,
    roots_ok c parentHash txs blobs hashes cids /\
    text_or_empty (c.@"proposer") = Ok id /\ text_or_empty (c.@"proposerPubkey") = Ok pem /\
    (trim pem <> EmptyString -> signed_by c pem (trim id)) /\
    (blockProposerAuthorityRequiredFromEnv env = true -> trim pem <> EmptyString /\
      (blockProposerAuthoritySourceFromEnv env = "env" ->
        trim id ∈ trustedBlockProposerIdsFromEnv env)).
Proof.
  intros (n & ph & [_ _ _ _ Hp Hr _])%validate_iff.
  apply checkRoots_Next in Hr as (txs & blobs & hashes & cids & Hr).
  apply checkProposer_Next in Hp as (id & pem & [Hid Hpem Hs Hq]).
  exists txs, blobs, hashes, cids, ph, id, pem. split_and!; try done. intros Hreq. destruct (Hq Hreq) as [Hne Ha].
  split; [done|]. intros Hsrc. unfold checkAuthority in Ha. rewrite Hsrc in Ha.
  change (one_of (tail authority_sources.*1) "env") with false in Ha. cbn in Ha. unfold reject_if in Ha.
  apply return_if_Next, negb_false_iff, existsb_exists in Ha as (x & Hx & ->%String.eqb_eq).
  by apply list_elem_of_In.
Qed.

(** C16: The hash of the newest block of a chain fixes the whole chain: two chains of
    accepted blocks with the same head hash have the same headers at every height, and so
    the same length, unless the header texts of two blocks at the same depth collide. *)
Theorem head_hash_fixes_chain `{!DigestShape D} (env env' : process_env) (b c : json) (l k : list json) :
  chain env (b :: l) -> chain env' (c :: k) ->
  Forall (fun x => printable (header_json x) = true) (b :: l) ->
  Forall (fun x => printable (header_json x) = true) (c :: k) ->
  blockHash b = blockHash c ->
  map header_json (b :: l) = map header_json (c :: k) \/ headers_collide (b :: l) (c :: k).
Proof. apply chain_binds. Qed.

(** Two candidates that differ in their transactions only. *)
Definition same_but_txs (c c' : json) : Prop := is_object c' = is_object c /\ forall key, key <> "txs"%string -> c'.@key = c.@key.

Lemma checkProposer_same env c c' : same_but_txs c c' -> runtimeTruth c' = runtimeTruth c ->
  checkProposer runtimeTruth env c' = checkProposer runtimeTruth env c.
Proof.
  intros [_ Hk] Ht. unfold checkProposer, checkAuthority, verifyBlockSignatureWithPubkey, blockHeaderBytes, header_json.
  by rewrite !Hk, Ht by done.
Qed.

(** The two lists of transactions have the same shapes and the same root. *)
Lemma repeated_txs `{!BufferDigestShape BD} txs tx blobs r : txs <> [] -> Nat.even (length txs) = true ->
  Forall (fun t => isTxShape t = Ok true) (txs ++ [tx]) -> computeRoots (txs ++ [tx]) blobs = Ok r ->
  Forall (fun t => isTxShape t = Ok true) (txs ++ [tx; tx]) /\ computeRoots (txs ++ [tx; tx]) blobs = Ok r.
Proof.
  intros Hne He [Htxs [Htx _]%Forall_cons]%Forall_app Hr. split; [apply Forall_app; by repeat constructor|].
  pose proof Hr as Hl. unfold computeRoots in Hl. apply bind_Ok in Hl as (l & Hl & _).
  rewrite leaf_hashes_app in Hl. apply bind_Ok in Hl as (hs & Hhs & Hl). apply bind_Ok in Hl as (hs' & Hhs' & _).
  pose proof (leaves_complete _ _ _ _ isTxShape_hash Htxs Hhs) as Hlen.
  pose proof (leaves_complete "hash" isTxShape [tx] hs' isTxShape_hash ltac:(by repeat constructor) Hhs') as Hlen'.
  destruct hs' as [|s [|]]; try discriminate Hlen'.
  rewrite (computeRoots_repeat txs tx blobs hs s); [done|done| |by rewrite Hlen|done].
  intros ->. by destruct txs.
Qed.

Lemma checkRoots_repeat `{!BufferDigestShape BD} c c' ph txs tx : checkRoots c = Next ph ->
  c.@"txs" = JArr (txs ++ [tx]) -> txs <> [] -> Nat.even (length txs) = true ->
  c'.@"txs" = JArr (txs ++ [tx; tx]) -> same_but_txs c c' -> checkRoots c' = Next ph.
Proof.
  intros Hr Htxs Hne He Htxs' [_ Hk]. unfold checkRoots, header_hash in *.
  rewrite (Hk "parentHash"), (Hk "txRoot"), (Hk "blobRoot"), (Hk "blobs"), Htxs' by done. rewrite Htxs in Hr.
  repeat match type of Hr with (?m ≫= _) = Next _ =>
    lazymatch m with
    | shapes isTxShape _ _ => fail
    | _ => destruct m eqn:?; cbn [mbind flow_bind] in Hr |- *; try discriminate Hr
    end end.
  match goal with H : array_of (JArr _) _ = Next _ |- _ => injection H as <- end. cbn [array_of mbind flow_bind].
  apply bind_Next in Hr as ([] & Hs%shapes_Next & Hr).
  destruct (shapes isBlobRefShape _ _) as [[]| |]; cbn [mbind flow_bind] in *; try discriminate Hr.
  match type of Hr with (call ?m ≫= _) = _ => destruct m as [r|] eqn:Hc; [|discriminate Hr] end.
  destruct (repeated_txs txs tx _ r Hne He Hs Hc) as [Hs' Hc']. rewrite (proj2 (shapes_Next _ _ _) Hs'). cbn.
  by rewrite Hc'.
Qed.

(** C28: A root does not say how many transactions there are: where an accepted block has an
    odd number of them, at least three, the block with the last one repeated is accepted
    too, and has the same hash. *)
Theorem repeated_transaction_accepted `{!BufferDigestShape BD} (env : process_env) (c c' p : json)
    (txs : list json) (tx : json) :
  validateBlockForAppend runtimeTruth env c p = Ok Valid ->
  c.@"txs" = JArr (txs ++ [tx]) -> txs <> [] -> Nat.even (length txs) = true ->
  c'.@"txs" = JArr (txs ++ [tx; tx]) -> same_but_txs c c' -> runtimeTruth c' = runtimeTruth c ->
  validateBlockForAppend runtimeTruth env c' p = Ok Valid /\ blockHash c' = blockHash c.
Proof.
  intros Hv Htxs Hne He Htxs' Hsame Ht. apply validate_iff in Hv as (n & ph & [Ho Hn Hh Hts Hp Hr Hpa]).
  pose proof Hsame as [Hobj Hk]. split.
  - apply validate_iff. exists n, ph. split; try done.
    + by rewrite Hobj.
    + by rewrite Hk.
    + by rewrite Hk.
    + by rewrite (checkProposer_same env c c').
    + by apply (checkRoots_repeat c c' ph txs tx).
  - unfold blockHash, blockHeaderBytes, header_json. by rewrite !Hk by done.
Qed.

End safety.

(** ** A concrete chain *)

Module BlockSample.

(** A cheap digest of buffers. *)
Definition poly_buffer : BufferDigest := fun b =>
  let n := foldl (fun acc z => (acc * 33 + z) mod 65536) 7 b in
  map (fun i => (n + Z.of_nat i * (n / 256)) mod 256) (seq 0 32).

Lemma poly_buffer_shape : BufferDigestShape poly_buffer.
Proof.
  intros b. split; [done|]. apply Forall_map, Forall_forall. intros i _. apply Z.mod_pos_bound. lia.
Qed.

Definition plain_numbers : StringNumber := fun s =>
  if is_canonical_decimal s then Integer (BigInt s) else NotANumber.

(** Keys and signatures that are always good. *)
Definition trusting : NodeCrypto := {| createPublicKey := fun _ => true; verify := fun _ _ _ => true |}.

Definition no_truth (candidate : json) : res ExpectedProposer := Ok (NoProposer "runtime_truth_unavailable").

Definition sample_env : process_env := fun name =>
  if String.eqb name "VOID_BLOCK_PROPOSER_AUTHORITY_REQUIRED" then Some "1"%string
  else if String.eqb name "VOID_BLOCK_TRUSTED_PROPOSERS" then Some ("none, " +:+ @nodeIdFromPubPEM poly256 "PEM")
  else None.

Definition tx (digit : ascii) : json := JObj ["hash" ~> repeat_char digit 64; "body" ~> JObj []].

(** A block with these transactions on a parent with this hash. *)
Definition block (number : Z) (parentHash : string) (txs : list json) : json :=
  let root := match @computeRoots poly_buffer txs [] with Ok r => r.1 | Throw _ => EmptyString end in
  JObj ["number" ~> jint number; "parentHash" ~> parentHash; "timestamp" ~> jint 1776366022468;
        "txRoot" ~> root; "blobRoot" ~> ZERO_HASH_64; "txs" ~> JArr txs; "blobs" ~> JArr [];
        "proposer" ~> @nodeIdFromPubPEM poly256 "PEM"; "proposerPubkey" ~> "PEM"; "sig" ~> repeat_char "a" 128].

Definition genesis : json := Eval vm_compute in block 0 ZERO_HASH_64 [].
Definition second : json := Eval vm_compute in block 1 (@blockHash poly256 genesis) [tx "1"; tx "2"; tx "3"].
Definition swollen : json := Eval vm_compute in block 1 (@blockHash poly256 genesis) [tx "1"; tx "2"; tx "3"; tx "3"].

Abbreviation validate := (@validateBlockForAppend poly256 poly_buffer trusting plain_numbers no_truth sample_env).

Lemma genesis_accepted : validate genesis JNull = Ok Valid.
Proof. vm_compute. reflexivity. Qed.

Lemma second_accepted : validate second genesis = Ok Valid.
Proof. vm_compute. reflexivity. Qed.

(** The number of a block is not compared with the number of its parent. *)
Example number_gap_accepted :
  validate (block 7 (@blockHash poly256 genesis) []) genesis = Ok Valid /\ genesis.@"number" = jint 0.
Proof. vm_compute. done. Qed.

Lemma accepted_block_sound_witness :
  exists txs blobs hashes cids parentHash id pem,
    @roots_ok poly_buffer second parentHash txs blobs hashes cids /\
    text_or_empty (second.@"proposer") = Ok id /\ text_or_empty (second.@"proposerPubkey") = Ok pem /\
    (trim pem <> EmptyString -> @signed_by poly256 trusting second pem (trim id)) /\
    (blockProposerAuthorityRequiredFromEnv sample_env = true -> trim pem <> EmptyString /\
      (blockProposerAuthoritySourceFromEnv sample_env = "env" ->
        trim id ∈ trustedBlockProposerIdsFromEnv sample_env)).
Proof.
  apply (@accepted_block_sound poly256 poly_buffer trusting plain_numbers no_truth sample_env second genesis).
  vm_compute. reflexivity.
Defined.

Lemma sample_chain b : validate b genesis = Ok Valid -> js_Number (H := plain_numbers) (b.@"number") = Ok (Integer 1) ->
  @chain poly256 poly_buffer trusting plain_numbers no_truth sample_env [b; genesis].
Proof.
  intros Hb Hn. apply (chain_append no_truth sample_env b genesis [] 1); [|done|done|lia].
  apply chain_genesis; [exact genesis_accepted|reflexivity].
Qed.

Lemma head_hash_fixes_chain_witness :
  map header_json [second; genesis] = map header_json [swollen; genesis] \/
  @headers_collide poly256 [second; genesis] [swollen; genesis].
Proof.
  apply (@head_hash_fixes_chain poly256 poly_buffer trusting plain_numbers no_truth poly256_shape sample_env sample_env
    second swollen [genesis] [genesis]); [apply sample_chain; vm_compute; reflexivity|
    apply sample_chain; vm_compute; reflexivity|by repeat constructor|by repeat constructor|reflexivity].
Defined.

Lemma repeated_transaction_accepted_witness :
  validate swollen genesis = Ok Valid /\ @blockHash poly256 swollen = @blockHash poly256 second.
Proof.
  apply (@repeated_transaction_accepted poly256 poly_buffer trusting plain_numbers no_truth poly_buffer_shape sample_env
    second swollen genesis [tx "1"; tx "2"] (tx "3"));
    [vm_compute; reflexivity|reflexivity|discriminate|reflexivity|reflexivity| |reflexivity].
  split; [reflexivity|]. intros key Hkey. unfold swollen, second. cbn [prop assoc].
  repeat match goal with |- context [String.eqb ?a key] => destruct (String.eqb_spec a key); [try reflexivity|] end;
    [|reflexivity]. congruence.
Defined.

End BlockSample.
