(* ===== verification/ChainHistory.v ===== *)
(** * Eras of the canonical chain

    Model of [src/chain/legacy_commit_direct_v2fs_v1.ts],
    [src/chain/mainnet0_historical_cartography_projection_v1.ts],
    [src/chain/mainnet0_historical_compat_v1.ts] and of the checks with which
    [src/chain/seg_store.ts] admits a block ([saveCanonicalBlockByModeV1]).

    The chain of Mainnet-0 has blocks of three eras: minimal blocks, blocks that the legacy
    producer committed directly, and modern signed blocks.  The history of a
    store is the list of its blocks, the block of height n at index n; the files that hold
    it are in [SegStore], and [SegGuarantees] shows that they behave as this list. *)

From Stdlib Require Import Ascii.
From S2P Require Import Prelude Js JsText Flow CanonicalJson Sha256 JsConvert MerkleRoots BlockFormat.
From S2P Require Import BlockSafety.

(** ** Shapes *)

Definition exactObjectKeysV1 (value : json) (expected : list string) : bool :=
  match value with
  | JObj fs => bool_decide (isort str_leb fs.*1 = isort str_leb expected)
  | _ => false
  end.

(** [typeof v === "number" && Number.isSafeInteger(v) && v >= least] *)
Definition safe_from (least : Z) (v : json) : option Z :=
  match as_safe_integer v with
  | Some z => if least <=? z then Some z else None
  | None => None
  end.

(** [value == null] *)
Definition nullish (v : json) : bool := match v with JUndefined | JNull => true | _ => false end.

(** The elements of an array. *)
Definition elements (v : json) : option (list json) := match v with JArr items => Some items | _ => None end.

(** [Array.isArray(v) && v.length === 0] *)
Definition is_empty_array (v : json) : bool := match v with JArr [] => true | _ => false end.

(** A body that goes on with a value or answers with a reason. *)
Definition some_or {A} (o : option A) (reason : string) : flow BlockValidationResult A :=
  match o with Some a => Next a | None => Return (Invalid reason) end.

Definition hex64_text (v : json) : option string :=
  match v with JStr s => if is_hex64 s then Some s else None | _ => None end.

(** ** Blocks of the legacy producer *)

Definition VOID_LEGACY_COMMIT_DIRECT_V2FS_MARKER_V1 : string := "proposer.commit-direct.v2fs".
Definition VOID_LEGACY_EMPTY_TX_ROOT_V1 : string :=
  "e3b0c44298fc1c149afbf4c8996fb92427ae41e4649b934ca495991b7852b855".
Definition LEGACY_TOP_LEVEL_KEYS_V1 : list string := ["_commit"; "header"; "number"; "ts"; "txRoot"; "txs"].
Definition LEGACY_HEADER_KEYS_V1 : list string := ["txRoot"].
Definition LEGACY_HISTORICAL_HEADER_TX_ROOT_OBJECT_KEYS_V1 : list string := ["leaves"; "root"].

Definition isLegacyCommitDirectV2fsMarkerV1 (candidate : json) : bool :=
  is_plain_object candidate && (candidate.@"_commit" === VOID_LEGACY_COMMIT_DIRECT_V2FS_MARKER_V1).

(** One transaction of a legacy block. *)
Definition checkLegacyTx (_ : unit) (tx : json) : flow BlockValidationResult unit :=
  reject_if (negb (is_plain_object tx)) "legacy_v2fs_invalid_transaction";;
  match tx.@"hash" with
  | JStr rawHash => reject_if (negb (is_hex64 (toLowerCase rawHash))) "legacy_v2fs_invalid_transaction_hash"
  | _ => Return (Invalid "legacy_v2fs_invalid_transaction_hash")
  end.

(** The root inside the header: a string or, in historical empty blocks, an object. *)
Definition headerTxRoot (allowHistoricalHeaderTxRootObject : bool) (txs : list json) (raw : json)
    : flow BlockValidationResult string :=
  let invalid := "legacy_v2fs_invalid_header_tx_root" in
  match raw with
  | JStr _ => some_or (hex64_text raw) invalid
  | _ =>
      if allowHistoricalHeaderTxRootObject && (length txs =? 0)%nat
        && exactObjectKeysV1 raw LEGACY_HISTORICAL_HEADER_TX_ROOT_OBJECT_KEYS_V1
        && is_empty_array (raw.@"leaves")
      then some_or (hex64_text (raw.@"root")) invalid
      else Return (Invalid invalid)
  end.

(** The number of the parent is one less. *)
Definition checkParentNumber (prefix : string) (number : Z) (parent : json) : flow BlockValidationResult unit :=
  if number =? 0 then
    reject_if (negb (nullish parent)) (prefix +:+ "_genesis_parent_must_be_null")
  else
    reject_if (negb (is_plain_object parent)) (prefix +:+ "_missing_parent_block");;
    parentNumber ← some_or (safe_from 0 (parent.@"number")) (prefix +:+ "_invalid_parent_number");
    reject_if (negb (parentNumber =? number - 1)) (prefix +:+ "_parent_number_mismatch").

Definition validateLegacyCommitDirectV2fsForAppendInternalV1 `{BufferDigest} (candidate parent : json)
    (allowHistoricalHeaderTxRootObject : bool) : res BlockValidationResult :=
  verdict (
    reject_if (negb (exactObjectKeysV1 candidate LEGACY_TOP_LEVEL_KEYS_V1)) "legacy_v2fs_exact_envelope_required";;
    reject_if (candidate.@"_commit" !== VOID_LEGACY_COMMIT_DIRECT_V2FS_MARKER_V1) "legacy_v2fs_marker_mismatch";;
    number ← some_or (safe_from 0 (candidate.@"number")) "legacy_v2fs_invalid_block_number";
    some_or (safe_from 1 (candidate.@"ts")) "legacy_v2fs_invalid_timestamp";;
    txs ← some_or (elements (candidate.@"txs")) "legacy_v2fs_txs_must_be_array";
    for_each checkLegacyTx tt txs;;
    txRoot ← some_or (hex64_text (candidate.@"txRoot")) "legacy_v2fs_invalid_tx_root";
    reject_if (negb (exactObjectKeysV1 (candidate.@"header") LEGACY_HEADER_KEYS_V1)) "legacy_v2fs_exact_header_required";;
    headerRoot ← headerTxRoot allowHistoricalHeaderTxRootObject txs ((candidate.@"header").@"txRoot");
    reject_if (negb (String.eqb headerRoot txRoot)) "legacy_v2fs_header_tx_root_mismatch";;
    expectedTxRoot ← call (match txs with
      | [] => Ok VOID_LEGACY_EMPTY_TX_ROOT_V1
      | _ => roots ← computeRoots txs []; Ok roots.1
      end);
    reject_if (negb (String.eqb expectedTxRoot txRoot)) "legacy_v2fs_tx_root_mismatch";;
    checkParentNumber "legacy_v2fs" number parent).

Definition validateLegacyCommitDirectV2fsForAppendV1 `{BufferDigest} (candidate parent : json)
    : res BlockValidationResult :=
  validateLegacyCommitDirectV2fsForAppendInternalV1 candidate parent false.

Definition validateMainnet0HistoricalLegacyCommitDirectV2fsForAppendV1 `{BufferDigest} (candidate parent : json)
    : res BlockValidationResult :=
  validateLegacyCommitDirectV2fsForAppendInternalV1 candidate parent true.

(** ** The accepted cartography *)

Definition frozen_head : Z := 1951058.
Definition block_count : Z := 1951059.

(** The classes of the accepted scan and how many blocks it counted in each. *)
Inductive block_class : Type :=
| MINIMAL_V1
| LEGACY_V2FS_V1
| LEGACY_V2FS_EMPTY_HEADER_ROOT_OBJECT_V1
| MODERN_SIGNED_LEGACY_EMPTY_HEADER_ROOT_V1
| MODERN_SIGNED_V1.

Definition class_counts (c : block_class) : Z :=
  match c with
  | MINIMAL_V1 => 196019
  | LEGACY_V2FS_V1 => 1754646
  | LEGACY_V2FS_EMPTY_HEADER_ROOT_OBJECT_V1 => 387
  | MODERN_SIGNED_LEGACY_EMPTY_HEADER_ROOT_V1 => 7
  | MODERN_SIGNED_V1 => 0
  end.

Inductive append_mode : Type := GenesisMinimal | LegacyV2fs | Modern.

#[export] Instance append_mode_eq_dec : EqDecision append_mode.
Proof. solve_decision. Defined.

Definition MODERN_EXCEPTION_HEIGHTS_V1 : list Z :=
  [196019; 196020; 1833994; 1834071; 1834125; 1834145; 1834324].

Definition acceptedMainnet0HistoricalModeAtHeightV1 (height : json) : option append_mode :=
  match safe_from 0 height with
  | Some h =>
      if h >? frozen_head then None
      else if h <=? 196018 then Some GenesisMinimal
      else if bool_decide (h ∈ MODERN_EXCEPTION_HEIGHTS_V1) then Some Modern
      else Some LegacyV2fs
  | None => None
  end.

(** ** Eras and transitions *)

Inductive era : Type := EraMinimal | EraLegacyV2fs | EraModern.

#[export] Instance era_eq_dec : EqDecision era.
Proof. solve_decision. Defined.

Definition MAINNET0_MINIMAL_KEYS_V1 : list string := ["number"; "timestamp"].

Definition isMainnet0GenesisMinimalV1 (candidate : json) : bool :=
  exactObjectKeysV1 candidate MAINNET0_MINIMAL_KEYS_V1.

Definition classifyMainnet0CanonicalEraV1 (candidate : json) : era :=
  if isMainnet0GenesisMinimalV1 candidate then EraMinimal
  else if isLegacyCommitDirectV2fsMarkerV1 candidate then EraLegacyV2fs
  else EraModern.

Definition BRIDGE_PARENT_KEYS_V1 : list string :=
  ["blobRoot"; "blobs"; "header"; "number"; "parentHash"; "proposer"; "sig"; "timestamp"; "txRoot"; "txs"].
Definition BRIDGE_PARENT_NUMBER_V1 : Z := 196020.
Definition BRIDGE_PARENT_TIMESTAMP_V1 : Z := 1776366022468.
Definition BRIDGE_PARENT_PARENT_HASH_V1 : string := "65db20b28569ba90f76d0ae54e5a2c4082e8512ba5bc68d325f4ff4304a43e16".
Definition BRIDGE_PARENT_PROPOSER_V1 : string := "9d89483769e469e0473b489dc50dba96".
Definition BRIDGE_PARENT_SIG_V1 : string :=
  "5be9d1fa7206a835f9a4c751037ea7dbf791c5d92800a2de4b80f39addc5911274a14db2351ceb040391fc8594aadf184c1b05ba400f1bc9db406e9002aef204".
Definition BRIDGE_CANDIDATE_NUMBER_V1 : Z := 196021.
Definition BRIDGE_CANDIDATE_TS_V1 : Z := 1776473091835.

Definition mainnet0Canonical196020HeaderRootAcceptedV1 (value : json) : bool :=
  (value === VOID_LEGACY_EMPTY_TX_ROOT_V1)
  || (exactObjectKeysV1 value LEGACY_HISTORICAL_HEADER_TX_ROOT_OBJECT_KEYS_V1
      && (value.@"root" === VOID_LEGACY_EMPTY_TX_ROOT_V1)
      && is_empty_array (value.@"leaves")).

Definition isMainnet0CanonicalModernToLegacyV2fsBridgeV1 (parent candidate : json) : bool :=
  exactObjectKeysV1 parent BRIDGE_PARENT_KEYS_V1
  && exactObjectKeysV1 candidate LEGACY_TOP_LEVEL_KEYS_V1
  && ((parent.@"number" === jint BRIDGE_PARENT_NUMBER_V1)
    && (parent.@"timestamp" === jint BRIDGE_PARENT_TIMESTAMP_V1)
    && (parent.@"txRoot" === ZERO_HASH_64)
    && (parent.@"blobRoot" === ZERO_HASH_64)
    && is_empty_array (parent.@"txs")
    && is_empty_array (parent.@"blobs")
    && (parent.@"parentHash" === BRIDGE_PARENT_PARENT_HASH_V1)
    && (parent.@"proposer" === BRIDGE_PARENT_PROPOSER_V1)
    && (parent.@"sig" === BRIDGE_PARENT_SIG_V1)
    && is_plain_object (parent.@"header")
    && mainnet0Canonical196020HeaderRootAcceptedV1 ((parent.@"header").@"txRoot"))
  && ((candidate.@"number" === jint BRIDGE_CANDIDATE_NUMBER_V1)
    && (candidate.@"ts" === jint BRIDGE_CANDIDATE_TS_V1)
    && (candidate.@"_commit" === VOID_LEGACY_COMMIT_DIRECT_V2FS_MARKER_V1)
    && (candidate.@"txRoot" === VOID_LEGACY_EMPTY_TX_ROOT_V1)
    && is_empty_array (candidate.@"txs")
    && exactObjectKeysV1 (candidate.@"header") LEGACY_HEADER_KEYS_V1
    && ((candidate.@"header").@"txRoot" === VOID_LEGACY_EMPTY_TX_ROOT_V1)).

Definition isAcceptedMainnet0HistoricalModernSingletonReturnV1 (parent candidate : json) : bool :=
  is_plain_object parent && is_plain_object candidate &&
  match safe_from 0 (parent.@"number"), as_safe_integer (candidate.@"number") with
  | Some parentNumber, Some candidateNumber =>
      (candidateNumber =? parentNumber + 1)
      && negb (parentNumber =? BRIDGE_PARENT_NUMBER_V1)
      && bool_decide (parentNumber ∈ MODERN_EXCEPTION_HEIGHTS_V1)
      && bool_decide (acceptedMainnet0HistoricalModeAtHeightV1 (jint parentNumber) = Some Modern)
      && bool_decide (acceptedMainnet0HistoricalModeAtHeightV1 (jint candidateNumber) = Some LegacyV2fs)
  | _, _ => false
  end.

Definition validateMainnet0GenesisMinimalForAppendV1 (candidate parent : json) : res BlockValidationResult :=
  verdict (
    reject_if (negb (exactObjectKeysV1 candidate MAINNET0_MINIMAL_KEYS_V1)) "mainnet0_minimal_exact_envelope_required";;
    number ← some_or (safe_from 0 (candidate.@"number")) "mainnet0_minimal_invalid_block_number";
    some_or (safe_from 1 (candidate.@"timestamp")) "mainnet0_minimal_invalid_timestamp";;
    checkParentNumber "mainnet0_minimal" number parent).

(** The mode is minimal or legacy; the source's type excludes the modern one. *)
Definition validateMainnet0HistoricalTransitionV1 (parent : json) (mode : append_mode) (candidate : json)
    : BlockValidationResult :=
  if bool_decide (mode = GenesisMinimal) then
    if nullish parent then Valid
    else if bool_decide (classifyMainnet0CanonicalEraV1 parent = EraMinimal) then Valid
    else Invalid "mainnet0_historical_minimal_parent_era_invalid"
  else if nullish parent then Invalid "mainnet0_historical_v2fs_genesis_forbidden"
  else match classifyMainnet0CanonicalEraV1 parent with
  | EraMinimal | EraLegacyV2fs => Valid
  | EraModern =>
      if isMainnet0CanonicalModernToLegacyV2fsBridgeV1 parent candidate
        || isAcceptedMainnet0HistoricalModernSingletonReturnV1 parent candidate
      then Valid else Invalid "mainnet0_historical_v2fs_parent_era_invalid"
  end.

(** ** Admission of a block *)

Section admission.
Context `{Digest} `{BufferDigest} `{NodeCrypto} `{StringNumber}.
Context (runtimeTruth : json -> res ExpectedProposer) (env : process_env).

Definition validateCanonicalBlockByModeV1 (b parent : json) (mode : append_mode) (mainnet0HistoricalRatchet : bool)
    : res BlockValidationResult :=
  match mode with
  | GenesisMinimal => validateMainnet0GenesisMinimalForAppendV1 b parent
  | LegacyV2fs =>
      if mainnet0HistoricalRatchet then validateMainnet0HistoricalLegacyCommitDirectV2fsForAppendV1 b parent
      else validateLegacyCommitDirectV2fsForAppendV1 b parent
  | Modern => validateBlockForAppend runtimeTruth env b parent
  end.

(** [JSON.stringify(a) === JSON.stringify(b)] *)
Definition same_text (a b : json) : bool := bool_decide (stringify a = stringify b).

Definition canonicalBlockMatchesExistingV1 (existing candidate : json) (mode : append_mode) : bool :=
  if bool_decide (mode = Modern) then String.eqb (blockHash existing) (blockHash candidate)
  else same_text existing candidate.

Definition replayBlockMatchesStoredBlock (existing replayed : json) (mode : append_mode) : bool :=
  canonicalBlockMatchesExistingV1 existing replayed mode && same_text existing replayed.

(** The method that the caller used. *)
Definition operation_name (mode : append_mode) (mainnet0HistoricalRatchet : bool) : string :=
  match mode with
  | GenesisMinimal => "saveAuthorizedMainnet0GenesisMinimalV1"
  | LegacyV2fs => if mainnet0HistoricalRatchet then "saveAuthorizedMainnet0HistoricalLegacyV2fs"
      else "saveAuthorizedLegacyCommitDirectV2fs"
  | Modern => "saveBlock"
  end.

(** The checks of a block on its parent, before anything is written. *)
Definition admitBlock (b parent : json) (mode : append_mode) (mainnet0HistoricalRatchet : bool) : res unit :=
  let op := operation_name mode mainnet0HistoricalRatchet in
  (if mainnet0HistoricalRatchet then
     throw_if (bool_decide (mode = Modern)) "SegStore.saveBlock: modern mode cannot request historical ratchet";;
     match validateMainnet0HistoricalTransitionV1 parent mode b with
     | Valid => Ok tt
     | Invalid reason => Throw ("SegStore." +:+ op +:+ ": invalid historical transition: " +:+ reason)
     end
   else Ok tt);;
  valid ← validateCanonicalBlockByModeV1 b parent mode mainnet0HistoricalRatchet;
  match valid with
  | Invalid reason => Throw ("SegStore." +:+ op +:+ ": invalid block: " +:+ reason)
  | Valid => Ok tt
  end.

(** [Number(b?.number)], if it can be a height *)
Definition blockHeight (b : json) : res Z :=
  number ← js_Number (b.@"number");
  match number with
  | Integer z => if (Z.abs z <=? MAX_SAFE_INTEGER) && (0 <=? z) then Ok z
      else Throw "SegStore.saveBlock: invalid block.number"
  | _ => Throw "SegStore.saveBlock: invalid block.number"
  end.

Definition nonContiguous {A} (head n : Z) : res A :=
  Throw ("SegStore.saveBlock: non-contiguous canonical append head=" +:+ int_text head +:+ " block=" +:+ int_text n).

(** ** The history

    What the store promises, on the list of its blocks: the block of height [n] is at index
    [n], and a save keeps the list or puts one admitted block on top. *)

(** The block at a height, or null. *)
Definition block_at (blocks : list json) (n : Z) : json :=
  if n <? 0 then JNull else default JNull (blocks !! Z.to_nat n).

Definition save_history (b : json) (mode : append_mode) (mainnet0HistoricalRatchet : bool)
    (blocks : list json) : res (list json) :=
  n ← blockHeight b;
  let head := Z.of_nat (length blocks) - 1 in
  if head >=? n then
    if replayBlockMatchesStoredBlock (block_at blocks n) b mode then Ok blocks
    else Throw "SegStore.saveBlock: conflicting existing block"
  else
    admitBlock b (block_at blocks (n - 1)) mode mainnet0HistoricalRatchet;;
    if n =? head + 1 then Ok (blocks ++ [b]) else nonContiguous head n.

(** The methods that save a block. *)
Inductive method : Type :=
| saveBlock
| saveAuthorizedLegacyCommitDirectV2fs
| saveAuthorizedMainnet0GenesisMinimalV1
| saveAuthorizedMainnet0HistoricalLegacyV2fs.

Definition mode_of (m : method) : append_mode :=
  match m with
  | saveBlock => Modern
  | saveAuthorizedMainnet0GenesisMinimalV1 => GenesisMinimal
  | _ => LegacyV2fs
  end.

Definition ratchet_of (m : method) : bool :=
  match m with
  | saveBlock | saveAuthorizedLegacyCommitDirectV2fs => false
  | _ => true
  end.

Definition save (m : method) (b : json) : list json -> res (list json) :=
  save_history b (mode_of m) (ratchet_of m).

(** The stores that saves through some of the methods can reach. *)
Inductive stored (allowed : method -> Prop) : list json -> Prop :=
| stored_new : stored allowed []
| stored_save m b l l' : stored allowed l -> allowed m -> save m b l = Ok l' -> stored allowed l'.

(** ** What admission checks *)

Definition last_block (blocks : list json) : json := block_at blocks (Z.of_nat (length blocks) - 1).

Record admitted (blocks : list json) (b : json) (mode : append_mode) (ratchet : bool) : Prop := {
  ad_number : js_Number (b.@"number") = Ok (Integer (Z.of_nat (length blocks)));
  ad_transition : ratchet = true -> validateMainnet0HistoricalTransitionV1 (last_block blocks) mode b = Valid;
  ad_valid : validateCanonicalBlockByModeV1 b (last_block blocks) mode ratchet = Ok Valid
}.

Lemma blockHeight_Ok b n : blockHeight b = Ok n ->
  js_Number (b.@"number") = Ok (Integer n) /\ 0 <= n <= MAX_SAFE_INTEGER.
Proof.
  unfold blockHeight. intros ?. inv_ok. match goal with H : js_Number _ = Ok ?x |- _ => rename H into Hnum; destruct x end;
    try discriminate. destruct (_ && _) eqn:Hz; [|discriminate]. inv_ok. bool_prop. split; [done|lia].
Qed.

Lemma admitBlock_Ok b parent mode ratchet : admitBlock b parent mode ratchet = Ok tt ->
  (ratchet = true -> validateMainnet0HistoricalTransitionV1 parent mode b = Valid) /\
  validateCanonicalBlockByModeV1 b parent mode ratchet = Ok Valid.
Proof.
  unfold admitBlock. intros ?. inv_ok. case_match; [|discriminate]. split; [intros ->|done]. inv_ok. by case_match.
Qed.

Lemma save_history_Ok b mode ratchet blocks blocks' :
  save_history b mode ratchet blocks = Ok blocks' ->
  blocks' = blocks \/ (blocks' = blocks ++ [b] /\ admitted blocks b mode ratchet).
Proof.
  unfold save_history. intros ?. inv_ok. match goal with H : blockHeight b = _ |- _ => apply blockHeight_Ok in H as [Hnum Hz] end.
  destruct (_ >=? _) eqn:Hhead; [case_match; inv_ok; by left|]. right. inv_ok.
  match goal with H : admitBlock _ _ _ _ = Ok ?u |- _ => destruct u; apply admitBlock_Ok in H as [Ht Hv] end.
  destruct (Z.eqb_spec x (Z.of_nat (length blocks) - 1 + 1)) as [->|]; [|discriminate]. inv_ok.
  replace (Z.of_nat (length blocks) - 1 + 1 - 1) with (Z.of_nat (length blocks) - 1) in * by lia.
  split; [done|]. split; [|done|done]. by rewrite Hnum, Z.sub_add.
Qed.

(** ** Envelopes *)

Lemma exact_keys_only value expected k : exactObjectKeysV1 value expected = true -> (k ∉ expected) ->
  value.@k = JUndefined.
Proof.
  destruct value as [| | | | | |fs]; try done. cbn [exactObjectKeysV1]. intros Hk%bool_decide_eq_true Hni.
  apply assoc_absent. intros Hin. apply Hni. rewrite <- (isort_perm str_leb expected), <- Hk. by rewrite isort_perm.
Qed.

Lemma exact_keys_object value expected : exactObjectKeysV1 value expected = true -> is_plain_object value = true.
Proof. by destruct value. Qed.

Lemma some_or_Next {A} (o : option A) reason a : some_or o reason = Next a <-> o = Some a.
Proof. destruct o; simpl; split; congruence. Qed.

Lemma honest_some_or {A} (o : option A) reason : honest (some_or o reason).
Proof. by destruct o. Qed.

Lemma honest_checkLegacyTx u tx : honest (checkLegacyTx u tx).
Proof. unfold checkLegacyTx. honest. Qed.

Lemma honest_legacy_txs txs : honest (for_each checkLegacyTx tt txs).
Proof.
  generalize tt. induction txs as [|t txs IH]; intros []; [done|]. simpl.
  apply honest_bind; [apply honest_checkLegacyTx|done].
Qed.

Lemma honest_headerTxRoot allow txs raw : honest (headerTxRoot allow txs raw).
Proof. unfold headerTxRoot. honest; apply honest_some_or. Qed.

Lemma honest_parent_number prefix n p : honest (checkParentNumber prefix n p).
Proof. unfold checkParentNumber. repeat first [apply honest_some_or | honest_step]. Qed.

Lemma verdict_Next body : honest body -> verdict body = Ok Valid -> body = Next tt.
Proof. intros Hh [?|Hr]%verdict_Valid; [done|by destruct (Hh Hr)]. Qed.

Ltac honest_envelope :=
  repeat first
    [ apply honest_some_or | apply honest_legacy_txs | apply honest_headerTxRoot | apply honest_parent_number
    | honest_step ].

(** A block of the minimal era has the keys of one. *)
Lemma minimal_valid b p : validateMainnet0GenesisMinimalForAppendV1 b p = Ok Valid -> isMainnet0GenesisMinimalV1 b = true.
Proof.
  intros Hv%verdict_Next; [|honest_envelope]. unfold reject_if in Hv. inv_flow. by bool_prop.
Qed.

Lemma legacy_valid b p allow : validateLegacyCommitDirectV2fsForAppendInternalV1 b p allow = Ok Valid ->
  exactObjectKeysV1 b LEGACY_TOP_LEVEL_KEYS_V1 = true.
Proof.
  intros Hv%verdict_Next; [|honest_envelope]. unfold reject_if in Hv. inv_flow. by bool_prop.
Qed.

(** A modern block names a proposer. *)
Lemma modern_valid b p : validateBlockForAppend runtimeTruth env b p = Ok Valid -> b.@"proposer" <> JUndefined.
Proof.
  intros (n & ph & [_ _ _ _ Hp _ _])%validate_iff Hu. unfold checkProposer in Hp. rewrite Hu in Hp. cbn in Hp. discriminate.
Qed.

(** ** The shape of the stored chain *)

Definition minimal_at (blocks : list json) (i : nat) : Prop :=
  exists b, blocks !! i = Some b /\ isMainnet0GenesisMinimalV1 b = true.

Record history_ok (blocks : list json) : Prop := {
  hi_heights : forall i b, blocks !! i = Some b -> js_Number (b.@"number") = Ok (Integer (Z.of_nat i));
  hi_minimal : forall i j, (i < j)%nat -> minimal_at blocks j -> minimal_at blocks i
}.

Lemma last_block_snoc l p : last_block (l ++ [p]) = p.
Proof.
  unfold last_block, block_at. rewrite length_app. simpl.
  rewrite (proj2 (Z.ltb_ge _ 0)) by lia. replace (Z.to_nat _) with (length l) by lia.
  by rewrite lookup_app_r, Nat.sub_diag by lia.
Qed.

(** A block on top of others sees the one below it. *)
Lemma last_block_below blocks i p : history_ok blocks -> blocks !! i = Some p ->
  length blocks = S i -> last_block blocks = p /\ nullish p = false.
Proof.
  intros [Hh _] Hp Hlen. split.
  - destruct blocks as [|q l _] using rev_ind; [done|]. rewrite last_block_snoc.
    rewrite length_app in Hlen. simpl in Hlen. rewrite lookup_app_r in Hp by lia.
    replace (i - length l)%nat with 0%nat in Hp by lia. by injection Hp.
  - specialize (Hh i p Hp). destruct p; [discriminate Hh|discriminate Hh|done..].
Qed.

Lemma modes_disjoint b : isMainnet0GenesisMinimalV1 b = true -> exactObjectKeysV1 b LEGACY_TOP_LEVEL_KEYS_V1 = false.
Proof.
  unfold isMainnet0GenesisMinimalV1. destruct b as [| | | | | |fs]; try done. cbn [exactObjectKeysV1].
  intros Hm%bool_decide_eq_true. apply bool_decide_eq_false. rewrite Hm. vm_compute. discriminate.
Qed.

(** Only the minimal mode admits a minimal block, and only above minimal blocks. *)
Lemma admitted_minimal blocks b m : admitted blocks b (mode_of m) (ratchet_of m) ->
  isMainnet0GenesisMinimalV1 b = true ->
  nullish (last_block blocks) = true \/ isMainnet0GenesisMinimalV1 (last_block blocks) = true.
Proof.
  intros [_ Ht Hv] Hm. destruct m; simpl in Ht, Hv.
  - exfalso. apply modern_valid in Hv. apply Hv. by eapply exact_keys_only; [exact Hm|set_solver].
  - apply modes_disjoint in Hm. apply legacy_valid in Hv. congruence.
  - specialize (Ht eq_refl). unfold validateMainnet0HistoricalTransitionV1 in Ht. simpl in Ht.
    destruct (nullish _); [by left|]. right. revert Ht. case_bool_decide as Hera; [|done]. intros _.
    unfold classifyMainnet0CanonicalEraV1 in Hera. by repeat case_match.
  - apply modes_disjoint in Hm. apply legacy_valid in Hv. congruence.
Qed.

Lemma snoc_lookup (blocks : list json) b i c : (blocks ++ [b]) !! i = Some c ->
  blocks !! i = Some c \/ (i = length blocks /\ c = b).
Proof.
  intros [?|[Hi Hc]]%lookup_app_Some; [by left|]. right. apply list_lookup_singleton_Some in Hc as [? ->]. split; [lia|done].
Qed.

Lemma history_append blocks b m : history_ok blocks -> admitted blocks b (mode_of m) (ratchet_of m) ->
  history_ok (blocks ++ [b]).
Proof.
  intros Hok Had. pose proof Hok as [Hh Hm]. split.
  - intros i c [Hc|[-> ->]]%snoc_lookup; [by apply Hh|apply Had].
  - assert (forall i, minimal_at blocks i -> minimal_at (blocks ++ [b]) i) as Hup.
    { intros i (c & Hc & Hmin). exists c. split; [by apply lookup_app_l_Some|done]. }
    intros i j Hij (c & Hc & Hmin). apply Hup. apply snoc_lookup in Hc as [Hc|[-> ->]].
    + apply (Hm i j Hij). by exists c.
    + destruct (lookup_lt_is_Some_2 blocks (length blocks - 1)) as [p Hp]; [lia|].
      destruct (last_block_below blocks (length blocks - 1) p Hok Hp) as [Hl Hn]; [lia|].
      destruct (admitted_minimal _ _ _ Had Hmin) as [Hnull|Hpm]; rewrite Hl in *; [congruence|].
      assert (minimal_at blocks (length blocks - 1)) as Hlast by by exists p.
      destruct (decide (i = (length blocks - 1)%nat)) as [->|Hne]; [done|]. apply (Hm i (length blocks - 1)%nat); [lia|done].
Qed.

Lemma stored_history allowed blocks : stored allowed blocks -> history_ok blocks.
Proof.
  induction 1 as [|m b l l' _ IH _ Hs]; [split; [done|]; by intros i j _ (b & Hb & _)|].
  apply save_history_Ok in Hs as [->|[-> Had]]; [done|by eapply history_append].
Qed.

(** ** Returns from the modern era *)

(** The heights at which the legacy producer resumed after modern blocks. *)
Definition RETURN_HEIGHTS : list Z := [196021; 1833995; 1834072; 1834126; 1834146; 1834325].

Lemma number_is v z n : v = jint z -> js_Number v = Ok (Integer n) -> z = n.
Proof. intros -> [= <-]. done. Qed.

Lemma bridge_height p c n : isMainnet0CanonicalModernToLegacyV2fsBridgeV1 p c = true ->
  js_Number (p.@"number") = Ok (Integer n) -> n + 1 ∈ RETURN_HEIGHTS.
Proof.
  unfold isMainnet0CanonicalModernToLegacyV2fsBridgeV1. intros Hb Hn. bool_prop.
  match goal with H : (p.@"number" === jint _) = true |- _ => apply strict_eq_int in H; rename H into Hp end.
  apply (number_is _ _ _ Hp) in Hn as <-. left.
Qed.

Lemma singleton_height p c n : isAcceptedMainnet0HistoricalModernSingletonReturnV1 p c = true ->
  js_Number (p.@"number") = Ok (Integer n) -> n + 1 ∈ RETURN_HEIGHTS.
Proof.
  unfold isAcceptedMainnet0HistoricalModernSingletonReturnV1, safe_from. intros Hs Hn. bool_prop.
  destruct (as_safe_integer (p.@"number")) as [pn|] eqn:Hpn; [|done].
  destruct (0 <=? pn); [|done]. destruct (as_safe_integer (c.@"number")) as [cn|]; [|done]. bool_prop.
  apply as_safe_integer_Some in Hpn as [Hpn _]. apply (number_is _ _ _ Hpn) in Hn as <-.
  repeat match goal with H : bool_decide _ = true |- _ => apply bool_decide_eq_true in H end.
  match goal with H : (cn =? _) = true |- _ => apply Z.eqb_eq in H; subst cn end.
  match goal with H : pn ∈ _ |- _ => rename H into Hin end. unfold MODERN_EXCEPTION_HEIGHTS_V1 in Hin.
  repeat (apply elem_of_cons in Hin as [->|Hin]; [try discriminate; by repeat (left || right)|]).
  by apply elem_of_nil in Hin.
Qed.

(** The methods with the historical ratchet, and the modern one. *)
Definition ratcheted (m : method) : Prop := m <> saveAuthorizedLegacyCommitDirectV2fs.

Lemma admitted_return blocks b p m : ratcheted m -> history_ok blocks ->
  admitted blocks b (mode_of m) (ratchet_of m) ->
  blocks !! (length blocks - 1)%nat = Some p -> blocks <> [] ->
  exactObjectKeysV1 b LEGACY_TOP_LEVEL_KEYS_V1 = true -> classifyMainnet0CanonicalEraV1 p = EraModern ->
  Z.of_nat (length blocks) ∈ RETURN_HEIGHTS.
Proof.
  intros Hm Hok [_ Ht Hv] Hp Hne Hkeys Hera. assert (length blocks <> 0%nat) by by destruct blocks.
  destruct (last_block_below blocks (length blocks - 1) p Hok Hp) as [Hl Hn]; [lia|].
  rewrite Hl in *. destruct m; simpl in Ht, Hv; [| |apply minimal_valid, modes_disjoint in Hv; congruence|].
  - exfalso. apply modern_valid in Hv. apply Hv. by eapply exact_keys_only; [exact Hkeys|set_solver].
  - by destruct Hm.
  - specialize (Ht eq_refl). unfold validateMainnet0HistoricalTransitionV1 in Ht. simpl in Ht.
    rewrite Hn, Hera in Ht. pose proof (hi_heights _ Hok _ _ Hp) as Hnum.
    replace (Z.of_nat (length blocks)) with (Z.of_nat (length blocks - 1) + 1) by lia.
    destruct (_ || _) eqn:Hor in Ht; [|discriminate]. apply orb_true_iff in Hor as [Hb|Hs];
      [by eapply bridge_height|by eapply singleton_height].
Qed.

(** ** Properties *)

(** Whatever the methods that save blocks were given, in any order: the block at every
    height of the store carries that height as its number, and minimal blocks are an
    initial segment, never above a block of another era. *)
Theorem stored_chain_shape (blocks : list json) : stored (fun _ => True) blocks ->
  (forall i b, blocks !! i = Some b -> js_Number (b.@"number") = Ok (Integer (Z.of_nat i))) /\
  (forall i j, (i < j)%nat -> minimal_at blocks j -> minimal_at blocks i).
Proof. intros [Hh Hm]%stored_history. done. Qed.

(** The historical methods give no general way back from the modern era: in a store that
    they and the modern method built, a block with the legacy envelope stands on a block of
    the modern era only at the six heights at which the accepted history of Mainnet-0
    returns to the legacy producer. *)
Theorem no_general_downgrade (blocks : list json) (i : nat) (p b : json) :
  stored ratcheted blocks -> blocks !! i = Some p -> blocks !! S i = Some b ->
  classifyMainnet0CanonicalEraV1 p = EraModern -> exactObjectKeysV1 b LEGACY_TOP_LEVEL_KEYS_V1 = true ->
  Z.of_nat (S i) ∈ RETURN_HEIGHTS.
Proof.
  intros Hst. induction Hst as [|m c l l' Hst IH Hm Hs]; intros Hp Hb Hera Hkeys; [done|].
  apply save_history_Ok in Hs as [->|[-> Had]]; [by apply IH|].
  apply snoc_lookup in Hb as [Hb|[Hi ->]].
  - apply IH; try done. apply lookup_lt_Some in Hb. by rewrite lookup_app_l in Hp by lia.
  - rewrite lookup_app_l in Hp by lia. rewrite Hi.
    apply (admitted_return l c p m); try done; [by eapply stored_history| |by intros ->].
    by replace (length l - 1)%nat with i by lia.
Qed.

End admission.

(** ** The counts of the cartography *)

Definition mode_at (h : Z) : option append_mode := acceptedMainnet0HistoricalModeAtHeightV1 (jint h).

Definition heights : list Z := seqZ 0 block_count.

Definition count_mode (m : append_mode) : Z := Z.of_nat (length (filter (fun h => mode_at h = Some m) heights)).

Lemma mode_at_spec h : 0 <= h < block_count ->
  mode_at h = Some (if h <=? 196018 then GenesisMinimal
    else if bool_decide (h ∈ MODERN_EXCEPTION_HEIGHTS_V1) then Modern else LegacyV2fs).
Proof.
  intros Hh. unfold mode_at, acceptedMainnet0HistoricalModeAtHeightV1, safe_from.
  assert (as_safe_integer (jint h) = Some h) as ->.
  { apply as_safe_integer_Some. split; [done|]. unfold MAX_SAFE_INTEGER, block_count in *. lia. }
  rewrite (proj2 (Z.leb_le 0 h)) by lia. destruct (Z.gtb_spec h frozen_head) as [Hgt|_].
  { unfold frozen_head, block_count in *. lia. }
  by repeat case_match.
Qed.

Lemma elem_of_heights h : h ∈ heights <-> 0 <= h < block_count.
Proof. unfold heights. rewrite elem_of_seqZ. lia. Qed.

Lemma count_partition (l : list Z) : Forall (fun h => 0 <= h < block_count) l ->
  (length (filter (fun h => mode_at h = Some GenesisMinimal) l) +
   length (filter (fun h => mode_at h = Some LegacyV2fs) l) +
   length (filter (fun h => mode_at h = Some Modern) l) = length l)%nat.
Proof.
  induction 1 as [|h l Hh _ IH]; [done|]. rewrite !filter_cons, (mode_at_spec h Hh).
  repeat case_decide; simplify_eq/=; try lia; repeat case_match; simplify_eq/=.
Qed.

(** Heights of a mode are the heights of a list without repetitions. *)
Lemma count_mode_list m l : NoDup l -> (forall h, h ∈ l <-> 0 <= h < block_count /\ mode_at h = Some m) ->
  count_mode m = Z.of_nat (length l).
Proof.
  intros Hl Hmem. unfold count_mode. f_equal. apply Permutation_length, NoDup_Permutation; [|done|].
  - apply NoDup_filter, NoDup_seqZ.
  - intros h. rewrite list_elem_of_filter, elem_of_heights, Hmem. tauto.
Qed.

Lemma count_minimal : count_mode GenesisMinimal = class_counts MINIMAL_V1.
Proof.
  rewrite (count_mode_list _ (seqZ 0 196019)).
  - rewrite length_seqZ, Z2Nat.id by lia. done.
  - apply NoDup_seqZ.
  - intros h. rewrite elem_of_seqZ. split.
    + intros Hh. assert (0 <= h < block_count) as Hr by (unfold block_count; lia).
      split; [done|]. rewrite mode_at_spec by done. by rewrite (proj2 (Z.leb_le h 196018)) by lia.
    + intros [Hr Hm]. rewrite mode_at_spec in Hm by done. destruct (Z.leb_spec h 196018); [lia|]. by case_bool_decide.
Qed.

Lemma count_modern : count_mode Modern = class_counts MODERN_SIGNED_LEGACY_EMPTY_HEADER_ROOT_V1.
Proof.
  rewrite (count_mode_list _ MODERN_EXCEPTION_HEIGHTS_V1); [done| |].
  - apply (bool_decide_unpack _). by vm_compute.
  - intros h. split.
    + intros Hin. assert (196018 < h < block_count) as Hr.
      { unfold MODERN_EXCEPTION_HEIGHTS_V1 in Hin. unfold block_count.
        repeat (apply elem_of_cons in Hin as [->|Hin]; [lia|]). by apply elem_of_nil in Hin. }
      split; [lia|]. rewrite mode_at_spec by lia. rewrite (proj2 (Z.leb_gt h 196018)) by lia.
      by rewrite bool_decide_eq_true_2.
    + intros [Hr Hm]. rewrite mode_at_spec in Hm by done. case_match; [done|]. by case_bool_decide.
Qed.

(** The projection of heights to modes agrees with the counts of the accepted scan: over
    all its heights there are as many minimal, legacy (of both kinds) and modern blocks as
    the scan counted, and they are all its blocks. *)
Theorem cartography_counts_agree :
  count_mode GenesisMinimal = class_counts MINIMAL_V1 /\
  count_mode LegacyV2fs = class_counts LEGACY_V2FS_V1 + class_counts LEGACY_V2FS_EMPTY_HEADER_ROOT_OBJECT_V1 /\
  count_mode Modern = class_counts MODERN_SIGNED_LEGACY_EMPTY_HEADER_ROOT_V1 + class_counts MODERN_SIGNED_V1 /\
  count_mode GenesisMinimal + count_mode LegacyV2fs + count_mode Modern = block_count /\
  block_count = frozen_head + 1.
Proof.
  assert (count_mode GenesisMinimal + count_mode LegacyV2fs + count_mode Modern = block_count) as Htotal.
  { unfold count_mode. rewrite <- !Nat2Z.inj_add, count_partition.
    - unfold heights. rewrite length_seqZ. apply Z2Nat.id. unfold block_count. lia.
    - apply Forall_forall. intros h. apply elem_of_heights. }
  pose proof count_minimal as Hmin. pose proof count_modern as Hmod.
  unfold class_counts, block_count, frozen_head in *. lia.
Qed.

(** ** A concrete history *)

Module HistorySample.
Import BlockSample.

(** A digest that gives every header the hash that the recorded bridge block names. *)
Definition flat : Digest := fun _ => BRIDGE_PARENT_PARENT_HASH_V1.

Abbreviation saves := (@save flat poly_buffer trusting plain_numbers no_truth (fun _ => None)).
Abbreviation stores := (@stored flat poly_buffer trusting plain_numbers no_truth (fun _ => None)).

Definition minimal (n : Z) : json := JObj ["number" ~> jint n; "timestamp" ~> jint 1].
Definition minimals (n : nat) : list json := map (fun i => minimal (Z.of_nat i)) (seq 0 n).

Definition modern (n : Z) : json :=
  JObj ["number" ~> jint n; "parentHash" ~> BRIDGE_PARENT_PARENT_HASH_V1; "timestamp" ~> jint BRIDGE_PARENT_TIMESTAMP_V1;
        "txRoot" ~> ZERO_HASH_64; "blobRoot" ~> ZERO_HASH_64; "txs" ~> JArr []; "blobs" ~> JArr [];
        "proposer" ~> BRIDGE_PARENT_PROPOSER_V1; "sig" ~> BRIDGE_PARENT_SIG_V1;
        "header" ~> JObj ["txRoot" ~> VOID_LEGACY_EMPTY_TX_ROOT_V1]].

Definition legacy : json :=
  JObj ["number" ~> jint BRIDGE_CANDIDATE_NUMBER_V1; "ts" ~> jint BRIDGE_CANDIDATE_TS_V1;
        "_commit" ~> VOID_LEGACY_COMMIT_DIRECT_V2FS_MARKER_V1; "txRoot" ~> VOID_LEGACY_EMPTY_TX_ROOT_V1; "txs" ~> JArr [];
        "header" ~> JObj ["txRoot" ~> VOID_LEGACY_EMPTY_TX_ROOT_V1]].

(** The recorded history up to the first return: minimal blocks, two modern ones, a legacy one. *)
Definition first_return : list json := minimals (Z.to_nat 196019) ++ [modern 196019; modern 196020; legacy].

(** Saving on top of a nonempty store, once the checks of the block are computed. *)
Lemma save_on l p b m n : Z.of_nat (length l) + 1 = n -> n <= MAX_SAFE_INTEGER ->
  b.@"number" = jint n ->
  (ratchet_of m = true -> bool_decide (mode_of m = Modern) = false /\
    validateMainnet0HistoricalTransitionV1 p (mode_of m) b = Valid) ->
  @validateCanonicalBlockByModeV1 flat poly_buffer trusting plain_numbers no_truth (fun _ => None) b p
    (mode_of m) (ratchet_of m) = Ok Valid ->
  saves m b (l ++ [p]) = Ok ((l ++ [p]) ++ [b]).
Proof.
  intros Hn Hmax Hb Ht Hv. unfold save, save_history, blockHeight, admitBlock. rewrite Hb. cbn [js_Number jint mbind res_bind].
  rewrite (proj2 (Z.leb_le (Z.abs n) _)), (proj2 (Z.leb_le 0 n)) by lia. cbn [andb mbind res_bind].
  pose proof (last_block_snoc l p) as Hl. unfold last_block in Hl. rewrite length_app in *. cbn [length] in *.
  replace (Z.of_nat (length l + 1)) with n in * by lia. destruct (Z.geb_spec (n - 1) n); [lia|]. rewrite Hl, Hv.
  rewrite Z.sub_add, Z.eqb_refl. destruct (ratchet_of m); [|done]. destruct (Ht eq_refl) as [-> ->]. done.
Qed.

Lemma minimals_snoc n : minimals (S n) = minimals n ++ [minimal (Z.of_nat n)].
Proof. unfold minimals. by rewrite seq_S, map_app. Qed.

(** A minimal block is valid on the one before it. *)
Lemma minimal_on n : 0 <= n -> n + 1 <= MAX_SAFE_INTEGER ->
  validateMainnet0HistoricalTransitionV1 (minimal n) GenesisMinimal (minimal (n + 1)) = Valid /\
  validateMainnet0GenesisMinimalForAppendV1 (minimal (n + 1)) (minimal n) = Ok Valid.
Proof.
  intros H0 Hmax. split; [done|]. unfold validateMainnet0GenesisMinimalForAppendV1.
  change (exactObjectKeysV1 (minimal (n + 1)) MAINNET0_MINIMAL_KEYS_V1) with true.
  assert (forall z, 0 <= z <= MAX_SAFE_INTEGER -> safe_from 0 ((minimal z).@"number") = Some z) as Hs.
  { intros z Hz. unfold safe_from. change ((minimal z).@"number") with (jint z).
    rewrite (proj2 (as_safe_integer_Some (jint z) z)) by (split; [done|lia]). by rewrite (proj2 (Z.leb_le 0 z)) by lia. }
  rewrite Hs by lia. change (safe_from 1 ((minimal (n + 1)).@"timestamp")) with (Some 1).
  cbn [negb reject_if return_if some_or mbind flow_bind]. unfold checkParentNumber.
  rewrite (proj2 (Z.eqb_neq (n + 1) 0)) by lia. change (is_plain_object (minimal n)) with true.
  cbn [negb reject_if return_if mbind flow_bind]. rewrite Hs by lia. cbn [some_or mbind flow_bind].
  by rewrite Z.add_simpl_r, Z.eqb_refl.
Qed.

Lemma minimals_stored allowed n : allowed saveAuthorizedMainnet0GenesisMinimalV1 -> Z.of_nat n <= MAX_SAFE_INTEGER ->
  stores allowed (minimals n).
Proof.
  intros Ha. induction n as [|n IH]; intros Hn; [apply stored_new|].
  apply (stored_save _ _ _ saveAuthorizedMainnet0GenesisMinimalV1 (minimal (Z.of_nat n)) (minimals n));
    [apply IH; lia|done|].
  destruct n as [|n]; [reflexivity|]. rewrite (minimals_snoc (S n)), (minimals_snoc n).
  destruct (minimal_on (Z.of_nat n)) as [Ht Hv]; [lia|lia|]. replace (Z.of_nat n + 1) with (Z.of_nat (S n)) in * by lia.
  apply (save_on _ _ _ _ (Z.of_nat (S n))); [|lia|done|by intros _|done].
  unfold minimals. rewrite length_map, length_seq. lia.
Qed.

Lemma minimals_length n : length (minimals n) = n.
Proof. unfold minimals. by rewrite length_map, length_seq. Qed.

Lemma first_return_stored : stores ratcheted first_return.
Proof.
  unfold first_return. set (n := Z.to_nat 196018). assert (Z.of_nat n = 196018) as Hn by by apply Z2Nat.id.
  replace (Z.to_nat 196019) with (S n) by (unfold n; lia). rewrite minimals_snoc, Hn. clearbody n.
  assert (stores ratcheted (minimals (S n))) as Hs.
  { apply minimals_stored; [done|]. unfold MAX_SAFE_INTEGER. lia. }
  rewrite minimals_snoc, Hn in Hs.
  assert (saves saveBlock (modern 196019) (minimals n ++ [minimal 196018]) =
    Ok ((minimals n ++ [minimal 196018]) ++ [modern 196019])) as H1.
  { apply (save_on _ _ _ _ 196019); [rewrite minimals_length; lia|done|done|done|vm_compute; reflexivity]. }
  assert (saves saveBlock (modern 196020) ((minimals n ++ [minimal 196018]) ++ [modern 196019]) =
    Ok (((minimals n ++ [minimal 196018]) ++ [modern 196019]) ++ [modern 196020])) as H2.
  { apply (save_on _ _ _ _ 196020); [rewrite length_app, minimals_length; simpl; lia|done|done|done|vm_compute; reflexivity]. }
  assert (saves saveAuthorizedMainnet0HistoricalLegacyV2fs legacy
      (((minimals n ++ [minimal 196018]) ++ [modern 196019]) ++ [modern 196020]) =
    Ok ((((minimals n ++ [minimal 196018]) ++ [modern 196019]) ++ [modern 196020]) ++ [legacy])) as H3.
  { apply (save_on _ _ _ _ 196021); [rewrite !length_app, minimals_length; simpl; lia|done|done| |vm_compute; reflexivity].
    intros _. split; vm_compute; reflexivity. }
  eapply stored_save in H1; [|done|done]. eapply stored_save in H2; [|done|done]. eapply stored_save in H3; [|done|done].
  by rewrite <- !app_assoc in *.
Qed.

Lemma stored_chain_shape_witness :
  (forall i b, minimals 3 !! i = Some b -> js_Number (H := plain_numbers) (b.@"number") = Ok (Integer (Z.of_nat i))) /\
  (forall i j, (i < j)%nat -> minimal_at (minimals 3) j -> minimal_at (minimals 3) i).
Proof.
  apply (@stored_chain_shape flat poly_buffer trusting plain_numbers no_truth (fun _ => None)).
  apply minimals_stored; [exact I|unfold MAX_SAFE_INTEGER; lia].
Defined.

Lemma no_general_downgrade_witness : Z.of_nat (S (Z.to_nat 196020)) ∈ RETURN_HEIGHTS.
Proof.
  apply (@no_general_downgrade flat poly_buffer trusting plain_numbers no_truth (fun _ => None) first_return
    (Z.to_nat 196020) (modern 196020) legacy).
  - exact first_return_stored.
  - unfold first_return. rewrite lookup_app_r by (rewrite minimals_length; lia). rewrite minimals_length.
    by replace (Z.to_nat 196020 - Z.to_nat 196019)%nat with 1%nat by lia.
  - unfold first_return. rewrite lookup_app_r by (rewrite minimals_length; lia). rewrite minimals_length.
    by replace (S (Z.to_nat 196020) - Z.to_nat 196019)%nat with 2%nat by lia.
  - reflexivity.
  - reflexivity.
Defined.

(** The era of a block is read from one member: a modern block that also carries the legacy
    marker is accepted, and counts as a legacy block for what is saved above it. *)
Definition marked (n : Z) : json := extend (modern n) "_commit" VOID_LEGACY_COMMIT_DIRECT_V2FS_MARKER_V1.

Example marked_modern_counts_as_legacy :
  saves saveBlock (marked 1) [minimal 0] = Ok [minimal 0; marked 1] /\
  classifyMainnet0CanonicalEraV1 (marked 1) = EraLegacyV2fs /\
  validateMainnet0HistoricalTransitionV1 (marked 1) LegacyV2fs legacy = Valid.
Proof. vm_compute. done. Qed.

End HistorySample.
