(* ===== verification/SegFrames.v ===== *)
(** * Frames of the segment store

    Model of how [src/chain/seg_store.ts] and [src/chain/auto_repair.ts] lay blocks out in
    the files [blocks.bin]: a 32-bit length and the JSON text of the block, one block after
    the other, ten thousand heights per segment; of the scan with which [loadBlock] finds a
    block, from the start or from an anchor of the sparse index; and of the scan of the
    repair tool.

    A segment is named by its first height.  Paths, descriptors and short reads are not
    modelled: a read returns the bytes of the file. *)

From Stdlib Require Import Ascii.
From S2P Require Import Prelude Js JsText Flow CanonicalJson Sha256 JsConvert MerkleRoots JsonParse TextLines NodeBuffer.

Definition SEG_SPAN : Z := 10000.

(** [Math.floor(n / SEG_SPAN) * SEG_SPAN] and its name *)
Definition segBase (n : Z) : Z := n / SEG_SPAN * SEG_SPAN.

Definition segName (n : Z) : string := padStart8 (int_text (segBase n)).

Definition SEGSTORE_CANONICAL_READ_CORRUPTION_V1 : string := "VOID_SEGSTORE_CANONICAL_READ_CORRUPTION_V1".

Definition corruption_prefix : string := SEGSTORE_CANONICAL_READ_CORRUPTION_V1 +:+ ": ".

Definition canonicalReadCorruptionV1 {A} (message : string) : res A :=
  Throw (corruption_prefix +:+ message).

(** ** One frame *)

(** The frame of a block. *)
Definition frame (b : json) : res (list Z) :=
  let body := json_bytes b in
  len ← writeUInt32BE (Z.of_nat (length body));
  Ok (len ++ body).

Inductive frame_read : Type :=
| EndOfFile
| TornPrefix
| TornFrame (frame_end : Z)
| CompleteFrame (body rest : list Z).

(** What is at the start of the rest of a file. *)
Definition readFrame (off : Z) (rest : list Z) : frame_read :=
  match rest with
  | [] => EndOfFile
  | _ =>
      if (length rest <? 4)%nat then TornPrefix
      else
        let len := Z.to_nat (readUInt32BE rest) in
        let after := drop 4 rest in
        if (length after <? len)%nat then TornFrame (off + 4 + Z.of_nat len)
        else CompleteFrame (take len after) (drop len after)
  end.

(** [Number.isSafeInteger(v) && v >= 0] *)
Definition block_number (v : json) : option Z :=
  match as_safe_integer v with
  | Some z => if 0 <=? z then Some z else None
  | None => None
  end.

Section scan.
Context `{JsonNumber}.

(** The checks of one complete frame: its block and number.  The two modules throw the same
    messages after a different prefix. *)
Definition checkFrame (prefix : string) (base off : Z) (previousN : option Z) (body : list Z) : res (json * Z) :=
  let fail {A} message : res A := Throw (prefix +:+ message) in
  match parse_bytes body with
  | None => fail ("complete frame JSON invalid in " +:+ segName base +:+ " at offset " +:+ int_text off)
  | Some blk =>
      match block_number (blk.@"number") with
      | None => fail ("complete frame block number invalid in " +:+ segName base +:+ " at offset " +:+ int_text off)
      | Some k =>
          if negb (segBase k =? base)
          then fail ("complete frame segment mismatch in " +:+ segName base +:+ ": block " +:+ int_text k)
          else match previousN with
            | Some p =>
                if negb (k =? p + 1)
                then fail ("complete frame order invalid in " +:+ segName base +:+ ": previous " +:+ int_text p
                  +:+ ", block " +:+ int_text k)
                else Ok (blk, k)
            | None => Ok (blk, k)
            end
      end
  end.

(** The loop of [loadBlock]; the bytes that are left bound the number of frames. *)
Fixpoint scanBlock (fuel : nat) (base n off : Z) (previousN : option Z) (rest : list Z) : res json :=
  match fuel with
  | O => Ok JNull
  | S fuel' =>
      match readFrame off rest with
      | EndOfFile => Ok JNull
      | TornPrefix => canonicalReadCorruptionV1
          ("torn length prefix in " +:+ segName base +:+ " at offset " +:+ int_text off)
      | TornFrame frame_end => canonicalReadCorruptionV1
          ("torn frame in " +:+ segName base +:+ " at offset " +:+ int_text off +:+ ": end " +:+ int_text frame_end
           +:+ ", file " +:+ int_text (off + Z.of_nat (length rest)))
      | CompleteFrame body rest' =>
          '(blk, k) ← checkFrame corruption_prefix base off previousN body;
          if k =? n then Ok blk
          else if n <? k then
            match previousN with
            | None => Ok JNull
            | Some _ => canonicalReadCorruptionV1
                ("canonical frame sequence skipped requested block " +:+ int_text n +:+ " in " +:+ segName base)
            end
          else scanBlock fuel' base n (off + Z.of_nat (length rest - length rest')) (Some k) rest'
      end
  end.

(** ** The sparse index *)

(** An entry of the index, if it can be one of this segment. *)
Definition sparseEntry (base size : Z) (ent : json) : res (Z * Z) :=
  match as_safe_integer (ent.@"n"), as_safe_integer (ent.@"off") with
  | Some k, Some off =>
      throw_if ((k <? base) || (off <? 0) || (size <? off + 4) || negb (segBase k =? base))
        "invalid sparse index entry";;
      Ok (k, off)
  | _, _ => Throw "invalid sparse index entry"
  end.

(** The entry with the greatest number up to [n]. *)
Definition bestStep (base size n : Z) (best : option (Z * Z)) (line : string) : res (option (Z * Z)) :=
  if String.eqb line EmptyString then Ok best else
  ent ← match JSON_parse line with Some v => Ok v | None => Throw "SyntaxError" end;
  '(k, off) ← sparseEntry base size ent;
  Ok (if (k <=? n) && match best with None => true | Some b => b.1 <? k end then Some (k, off) else best).

(** The anchor points at a complete frame with the number of the entry. *)
Definition checkAnchor (bytes : list Z) (best : Z * Z) : res Z :=
  match readFrame best.2 (drop (Z.to_nat best.2) bytes) with
  | CompleteFrame body _ =>
      match parse_bytes body with
      | None => Throw "SyntaxError"
      | Some parsed => throw_if (parsed.@"number" !== jint best.1) "sparse anchor block mismatch";; Ok best.2
      end
  | TornFrame _ => Throw "sparse anchor points at torn frame"
  | _ => Throw "short sparse-anchor length read"
  end.

(** Where the scan starts; whatever is wrong with the index, it starts at zero. *)
Definition scanOffset (base n : Z) (bytes : list Z) (idx : option (list string)) : Z :=
  match idx with
  | None => 0
  | Some lines =>
      match (best ← foldM (bestStep base (Z.of_nat (length bytes)) n) None lines;
             match best with Some b => checkAnchor bytes b | None => Ok 0 end) with
      | Ok off => off
      | Throw _ => 0
      end
  end.

(** [loadBlock] on the files of the segment of [n]. *)
Definition loadFrom (n : Z) (bin : option (list Z)) (idx : option (list string)) : res json :=
  match bin with
  | None | Some [] => Ok JNull
  | Some bytes =>
      let base := segBase n in
      let off := scanOffset base n bytes idx in
      let rest := drop (Z.to_nat off) bytes in
      scanBlock (S (length rest)) base n off None rest
  end.

(** ** The scans of a whole segment *)

(** [loadHistoricalWalReplayCanonicalBlocksV1]: every block of the segment, in order. *)
Fixpoint scanAll (fuel : nat) (base off : Z) (previousN : option Z) (rest : list Z) : res (list (Z * json)) :=
  match fuel with
  | O => Ok []
  | S fuel' =>
      match readFrame off rest with
      | EndOfFile => Ok []
      | TornPrefix => canonicalReadCorruptionV1
          ("torn length prefix in " +:+ segName base +:+ " at offset " +:+ int_text off)
      | TornFrame frame_end => canonicalReadCorruptionV1
          ("torn frame in " +:+ segName base +:+ " at offset " +:+ int_text off +:+ ": end " +:+ int_text frame_end
           +:+ ", file " +:+ int_text (off + Z.of_nat (length rest)))
      | CompleteFrame body rest' =>
          '(blk, k) ← checkFrame corruption_prefix base off previousN body;
          found ← scanAll fuel' base (off + Z.of_nat (length rest - length rest')) (Some k) rest';
          Ok ((k, blk) :: found)
      end
  end.

Record ScannedFrame := mkScannedFrame { sf_off : Z; sf_end : Z; sf_n : Z }.

(** [readFrames] of the repair tool: the complete frames and the bytes they take; what
    follows them is a torn tail. *)
Fixpoint readFrames (fuel : nat) (base off : Z) (previousN : option Z) (rest : list Z)
    : res (list ScannedFrame * Z) :=
  match fuel with
  | O => Ok ([], off)
  | S fuel' =>
      match readFrame off rest with
      | EndOfFile | TornPrefix | TornFrame _ => Ok ([], off)
      | CompleteFrame body rest' =>
          let frame_end := off + Z.of_nat (length rest - length rest') in
          '(_, k) ← checkFrame EmptyString base off previousN body;
          '(frames, complete) ← readFrames fuel' base frame_end (Some k) rest';
          Ok (mkScannedFrame off frame_end k :: frames, complete)
      end
  end.

End scan.

(** ** Files of well-formed frames *)

(** A block that a frame gives back. *)
Record storable (b : json) : Prop := {
  st_text : textual b = true;
  st_size : Z.of_nat (length (json_bytes b)) < 2 ^ 32
}.

Definition frame_bytes (b : json) : list Z := word_bytes (Z.of_nat (length (json_bytes b))) ++ json_bytes b.
Definition frames_bytes (bs : list json) : list Z := concat (map frame_bytes bs).

(** The blocks of one segment, from height [k] on. *)
Definition run (base k : Z) (bs : list json) : Prop :=
  forall i b, bs !! i = Some b ->
    storable b /\ b.@"number" = jint (k + Z.of_nat i) /\ segBase (k + Z.of_nat i) = base /\
    0 <= k + Z.of_nat i <= MAX_SAFE_INTEGER.

Definition offset_of (bs : list json) (i : nat) : Z := Z.of_nat (length (frames_bytes (take i bs))).

Lemma frame_Ok b : storable b -> frame b = Ok (frame_bytes b).
Proof.
  intros [_ Hs]. unfold frame, writeUInt32BE. rewrite (proj2 (Z.leb_gt _ _) Hs). done.
Qed.

Lemma frames_app a b : frames_bytes (a ++ b) = frames_bytes a ++ frames_bytes b.
Proof. unfold frames_bytes. by rewrite map_app, concat_app. Qed.

Lemma frame_bytes_length b : length (frame_bytes b) = (4 + length (json_bytes b))%nat.
Proof. unfold frame_bytes. by rewrite length_app, word_bytes_length. Qed.

Lemma read_frame off b r : storable b -> readFrame off (frame_bytes b ++ r) = CompleteFrame (json_bytes b) r.
Proof.
  intros [_ Hs]. unfold frame_bytes. rewrite <- app_assoc. set (body := json_bytes b) in *.
  set (len := Z.of_nat (length body)) in *.
  assert (exists x l, word_bytes len ++ body ++ r = x :: l) as (x & l & E) by by eexists _, _.
  unfold readFrame. rewrite E, <- E, (read_word_bytes len) by (unfold len; lia).
  assert (drop 4 (word_bytes len ++ body ++ r) = body ++ r) as -> by done.
  rewrite (proj2 (Nat.ltb_ge _ 4)); [|rewrite length_app, word_bytes_length; lia].
  unfold len. rewrite Nat2Z.id, (proj2 (Nat.ltb_ge _ _)) by (rewrite length_app; lia).
  by rewrite take_app_length, drop_app_length.
Qed.

Lemma run_cons base k b bs : run base k (b :: bs) ->
  storable b /\ block_number (b.@"number") = Some k /\ segBase k = base /\ run base (k + 1) bs.
Proof.
  intros Hr. destruct (Hr 0%nat b eq_refl) as (Hb & Hn & Hs & Hk). rewrite Z.add_0_r in *.
  split; [done|]. split; [|split; [done|]].
  - unfold block_number. rewrite Hn, (proj2 (as_safe_integer_Some (jint k) k)) by (split; [done|lia]).
    by rewrite (proj2 (Z.leb_le 0 k)) by lia.
  - intros i c Hi. replace (k + 1 + Z.of_nat i) with (k + Z.of_nat (S i)) by lia. by apply Hr.
Qed.

Section scan_lemmas.
Context `{JsonNumber}.

(** A frame passes the checks where its number is the expected one. *)
Lemma check_frame prefix base k off previousN b : storable b -> block_number (b.@"number") = Some k ->
  segBase k = base -> match previousN with Some p => p + 1 = k | None => True end ->
  checkFrame prefix base off previousN (json_bytes b) = Ok (b, k).
Proof.
  intros [Ht _] Hn Hb Hp. unfold checkFrame. rewrite parse_json_bytes, Hn, Hb, Z.eqb_refl by done. cbn [negb].
  destruct previousN as [p|]; [|done]. by rewrite <- Hp, Z.eqb_refl.
Qed.

Definition follows (previousN : option Z) (k : Z) : Prop := match previousN with Some p => p + 1 = k | None => True end.

Lemma consumed b r : (length (frame_bytes b ++ r) - length r)%nat = length (frame_bytes b).
Proof. rewrite length_app. lia. Qed.

(** The scan finds a block of the run. *)
Lemma scan_hit base n off bs k previousN tail fuel b : run base k bs -> follows previousN k ->
  k <= n -> bs !! Z.to_nat (n - k) = Some b -> (length bs < fuel)%nat ->
  scanBlock fuel base n off previousN (frames_bytes bs ++ tail) = Ok b.
Proof.
  revert off k previousN fuel. induction bs as [|c bs IH]; intros off k previousN [|fuel] Hr Hf Hk Hb Hl;
    [done|done|simpl in Hl; lia|].
  destruct (run_cons _ _ _ _ Hr) as (Hc & Hn & Hs & Hr'). cbn [scanBlock]. unfold frames_bytes. cbn [map concat].
  rewrite <- app_assoc, read_frame by done. rewrite (check_frame _ base k) by done. cbn [mbind res_bind].
  destruct (Z.eqb_spec k n) as [->|Hne].
  - rewrite Z.sub_diag in Hb. simpl in Hb. congruence.
  - rewrite (proj2 (Z.ltb_ge n k)) by lia. apply (IH _ (k + 1)); [done|done|lia| |simpl in Hl; lia].
    replace (Z.to_nat (n - k)) with (S (Z.to_nat (n - (k + 1)))) in Hb by lia. done.
Qed.

(** The scan of a height after the run goes on behind it. *)
Lemma scan_past base n off bs k previousN tail fuel : run base k bs -> follows previousN k ->
  k + Z.of_nat (length bs) <= n -> (length bs <= fuel)%nat ->
  scanBlock fuel base n off previousN (frames_bytes bs ++ tail) =
  scanBlock (fuel - length bs) base n (off + Z.of_nat (length (frames_bytes bs)))
    (match bs with [] => previousN | _ => Some (k + Z.of_nat (length bs) - 1) end) tail.
Proof.
  revert off k previousN fuel. induction bs as [|c bs IH]; intros off k previousN fuel Hr Hf Hk Hl.
  - cbn. by rewrite Z.add_0_r, Nat.sub_0_r.
  - destruct fuel as [|fuel]; [simpl in Hl; lia|]. destruct (run_cons _ _ _ _ Hr) as (Hc & Hn & Hs & Hr').
    change (frames_bytes (c :: bs)) with (frame_bytes c ++ frames_bytes bs).
    cbn [scanBlock]. rewrite <- app_assoc, read_frame by done.
    rewrite (check_frame _ base k) by done. cbn [mbind res_bind]. cbn [length] in *.
    rewrite (proj2 (Z.eqb_neq k n)), (proj2 (Z.ltb_ge n k)) by lia.
    rewrite (IH _ (k + 1)); [|done|done|lia|lia]. rewrite consumed, length_app.
    replace (off + Z.of_nat (length (frame_bytes c)) + Z.of_nat (length (frames_bytes bs)))
      with (off + Z.of_nat (length (frame_bytes c) + length (frames_bytes bs))) by lia.
    destruct bs as [|d bs]; cbn [length] in *; f_equal; f_equal; lia.
Qed.

(** The scan of the repair tool stops at the end of the run. *)
Lemma readFrames_run base off bs k previousN tail fuel : run base k bs -> follows previousN k ->
  (length bs < fuel)%nat -> (forall o, match readFrame o tail with CompleteFrame _ _ => False | _ => True end) ->
  exists frames, readFrames fuel base off previousN (frames_bytes bs ++ tail) =
    Ok (frames, off + Z.of_nat (length (frames_bytes bs))) /\ length frames = length bs /\
  (forall i f, frames !! i = Some f -> sf_off f = off + offset_of bs i /\ sf_n f = k + Z.of_nat i).
Proof.
  revert off k previousN fuel. induction bs as [|c bs IH]; intros off k previousN [|fuel] Hr Hf Hl Ht;
    [simpl in Hl; lia| |simpl in Hl; lia|].
  - exists []. cbn. rewrite Z.add_0_r. specialize (Ht off). destruct (readFrame off tail); by destruct Ht.
  - destruct (run_cons _ _ _ _ Hr) as (Hc & Hn & Hs & Hr'). 
    change (frames_bytes (c :: bs)) with (frame_bytes c ++ frames_bytes bs). cbn [readFrames].
    rewrite <- app_assoc, read_frame by done. rewrite (check_frame _ base k) by done. cbn [mbind res_bind].
    rewrite consumed. set (e := off + Z.of_nat (length (frame_bytes c))).
    destruct (IH e (k + 1) (Some k) fuel) as (fs & E & Hlen & Hi); [done|done|simpl in Hl; lia|done|].
    rewrite E. cbn [mbind res_bind]. exists (mkScannedFrame off e k :: fs).
    rewrite length_app. split; [f_equal; f_equal; unfold e; lia|]. split; [simpl; lia|].
    intros [|i] f Hf'; simpl in Hf'.
    + injection Hf' as <-. unfold offset_of. simpl. lia.
    + destruct (Hi i f Hf') as [-> ->]. unfold e, offset_of. cbn [take].
      change (frames_bytes (c :: take i bs)) with (frame_bytes c ++ frames_bytes (take i bs)). rewrite length_app. lia.
Qed.

End scan_lemmas.

(** ** Loading a block *)

Definition index_line (n : json) (off : Z) : string :=
  default EmptyString (stringify (JObj ["n" ~> n; "off" ~> jint off])).

Section load_lemmas.
Context `{JsonNumber}.

(** The entry a line of the index stands for, in a file of any size. *)
Definition line_entry (base size : Z) (line : string) : res (Z * Z) :=
  ent ← match JSON_parse line with Some v => Ok v | None => Throw "SyntaxError" end; sparseEntry base size ent.

(** Whatever a line of the index says of this segment is so. *)
Definition honest (base : Z) (bs : list json) (lines : list string) : Prop :=
  Forall (fun line => forall size k off, line_entry base size line = Ok (k, off) ->
    exists i, (i < length bs)%nat /\ k = base + Z.of_nat i /\ off = offset_of bs i) lines.

Lemma honest_app base bs bs' lines : honest base bs lines -> honest base (bs ++ bs') lines.
Proof.
  intros Hh. eapply Forall_impl; [exact Hh|]. intros line Hl size k off He. destruct (Hl size k off He) as (i & Hi & -> & ->). exists i.
  split; [rewrite length_app; lia|]. split; [done|]. unfold offset_of. by rewrite take_app_le by lia.
Qed.

Lemma best_honest base bs n lines size best : honest base bs lines ->
  foldM (bestStep base size n) None lines = Ok best ->
  match best with
  | Some (k, off) => exists i, (i < length bs)%nat /\ k = base + Z.of_nat i /\ off = offset_of bs i /\ k <= n
  | None => True
  end.
Proof.
  intros Hh. assert (match @None (Z * Z) with Some (k, off) => exists i, (i < length bs)%nat /\ k = base + Z.of_nat i /\
    off = offset_of bs i /\ k <= n | None => True end) as H0 by done. revert H0. generalize (@None (Z * Z)).
  induction Hh as [|line lines Hl Hh IH]; intros b Hb He; simpl in He; [by injection He as <-|].
  destruct (bestStep base size n b line) as [b'|] eqn:Hs; [|discriminate]. apply (IH b'); [|done].
  unfold bestStep in Hs. destruct (String.eqb line EmptyString); [by injection Hs as <-|].
  specialize (Hl size). unfold line_entry in Hl. destruct (JSON_parse line) as [ent|]; [|discriminate Hs].
  cbn [mbind res_bind] in *. destruct (sparseEntry base size ent) as [[k off]|]; [|discriminate Hs]. cbn [mbind res_bind] in Hs.
  injection Hs as <-. destruct (Hl k off eq_refl) as (i & Hi & -> & ->).
  destruct ((base + Z.of_nat i <=? n) && _) eqn:Hc; [|done]. apply andb_true_iff in Hc as [Hc _]. apply Z.leb_le in Hc. eauto.
Qed.

(** The scan starts at a frame whose number is at most the one looked for. *)
Lemma scan_offset base bs n bytes idx :
  match idx with Some lines => honest base bs lines | None => True end ->
  exists i, (i <= length bs)%nat /\ scanOffset base n bytes idx = offset_of bs i /\ (i = 0%nat \/ base + Z.of_nat i <= n).
Proof.
  intros Hh. assert (exists i, (i <= length bs)%nat /\ 0 = offset_of bs i /\ (i = 0%nat \/ base + Z.of_nat i <= n)) as H0.
  { exists 0%nat. split; [lia|]. split; [done|by left]. }
  unfold scanOffset. destruct idx as [lines|]; [|done].
  destruct (foldM _ None lines) as [best|] eqn:Hf; [|done]. cbn [mbind res_bind].
  apply (best_honest base bs) in Hf; [|done]. destruct best as [[k off]|]; [|done].
  destruct Hf as (i & Hi & -> & -> & Hn). destruct (checkAnchor bytes _) as [z|] eqn:Hc; [|done].
  exists i. split; [lia|]. split; [|by right]. unfold checkAnchor in Hc. cbn [fst snd] in Hc.
  destruct (readFrame _ _); try discriminate Hc. destruct (parse_bytes body); [|discriminate Hc]. by inv_ok.
Qed.

Lemma drop_frames bs i tail : (i <= length bs)%nat ->
  drop (Z.to_nat (offset_of bs i)) (frames_bytes bs ++ tail) = frames_bytes (drop i bs) ++ tail.
Proof.
  intros Hi. unfold offset_of. rewrite Nat2Z.id. rewrite <- (take_drop i bs) at 2. rewrite frames_app, <- app_assoc.
  by rewrite drop_app_length.
Qed.

Lemma run_drop base k bs i : run base k bs -> run base (k + Z.of_nat i) (drop i bs).
Proof.
  intros Hr j b Hb. rewrite lookup_drop in Hb. replace (k + Z.of_nat i + Z.of_nat j) with (k + Z.of_nat (i + j)) by lia.
  by apply Hr.
Qed.

Lemma frames_count bs tail : (length bs <= length (frames_bytes bs ++ tail))%nat.
Proof.
  rewrite length_app. induction bs as [|b bs IH]; [simpl; lia|].
  change (frames_bytes (b :: bs)) with (frame_bytes b ++ frames_bytes bs). rewrite length_app, frame_bytes_length. simpl. lia.
Qed.

(** The files of the segment hold the blocks from its first height on. *)
Definition segment_ok (base : Z) (bs : list json) (tail : list Z) (bin : option (list Z)) (idx : option (list string)) : Prop :=
  default [] bin = frames_bytes bs ++ tail /\ match idx with Some lines => honest base bs lines | None => True end.

Lemma load_scan base n bs tail bin idx : segment_ok base bs tail bin idx -> segBase n = base -> frames_bytes bs ++ tail <> [] ->
  exists i, (i <= length bs)%nat /\ (i = 0%nat \/ base + Z.of_nat i <= n) /\
    loadFrom n bin idx = scanBlock (S (length (frames_bytes (drop i bs) ++ tail))) base n (offset_of bs i) None
      (frames_bytes (drop i bs) ++ tail).
Proof.
  intros [Hb Hi] Hn Hne. destruct bin as [bytes|]; simpl in Hb; [subst bytes|by rewrite <- Hb in Hne].
  destruct (scan_offset base bs n (frames_bytes bs ++ tail) idx Hi) as (i & Hil & Hoff & Hin). exists i. split; [done|].
  split; [done|]. unfold loadFrom. destruct (frames_bytes bs ++ tail) as [|x l] eqn:E; [done|].
  rewrite Hn, Hoff. rewrite <- E, drop_frames by done. done.
Qed.

(** A stored height loads its block. *)
Lemma load_hit base n bs tail bin idx b : segment_ok base bs tail bin idx -> run base base bs -> segBase n = base ->
  base <= n -> bs !! Z.to_nat (n - base) = Some b -> loadFrom n bin idx = Ok b.
Proof.
  intros Hs Hr Hn Hle Hb. destruct (load_scan base n bs tail bin idx Hs Hn) as (i & Hi & Hin & ->).
  { intros Hnil. apply lookup_lt_Some in Hb. pose proof (frames_count bs tail). rewrite Hnil in *. simpl in *. lia. }
  apply (scan_hit _ _ _ _ (base + Z.of_nat i)); [by apply run_drop|done| | |].
  - destruct Hin as [->|]; lia.
  - rewrite lookup_drop. rewrite <- Hb. f_equal. destruct Hin as [->|]; lia.
  - pose proof (frames_count (drop i bs) tail). lia.
Qed.

(** A height behind the run gives what follows it. *)
Lemma load_past base n bs tail bin idx : segment_ok base bs tail bin idx -> run base base bs -> segBase n = base ->
  base + Z.of_nat (length bs) <= n ->
  match tail with
  | [] => loadFrom n bin idx = Ok JNull
  | _ => (forall o, match readFrame o tail with TornPrefix | TornFrame _ => True | _ => False end) ->
      exists e, loadFrom n bin idx = Throw e
  end.
Proof.
  intros Hs Hr Hn Hle.
  assert (frames_bytes bs ++ tail <> [] -> exists prev fuel off, (0 < fuel)%nat /\
    loadFrom n bin idx = scanBlock fuel base n off prev tail) as Hgo.
  { intros Hne. destruct (load_scan base n bs tail bin idx Hs Hn Hne) as (i & Hi & Hin & ->).
    rewrite (scan_past _ _ _ _ (base + Z.of_nat i)).
    - eexists _, _, _. split; [|reflexivity]. pose proof (frames_count (drop i bs) tail). lia.
    - by apply run_drop.
    - done.
    - rewrite length_drop. lia.
    - pose proof (frames_count (drop i bs) tail). lia. }
  destruct tail as [|x tail].
  - destruct (decide (frames_bytes bs ++ [] = [])) as [Hnil|Hne].
    + destruct Hs as [Hb _]. rewrite Hnil in Hb. destruct bin as [bytes|]; simpl in Hb; [by subst|done].
    + destruct (Hgo Hne) as (prev & [|fuel] & off & Hf & ->); [lia|done].
  - intros Ht. destruct (Hgo ltac:(by intros [_ ?]%app_eq_nil)) as (prev & [|fuel] & off & Hf & ->); [lia|].
    cbn [scanBlock]. specialize (Ht off). destruct (readFrame off (x :: tail)); try done; by eexists.
Qed.

End load_lemmas.
