(* ===== verification/SegStore.v ===== *)
(** * The segment store

    Model of the class [SegStore] of [src/chain/seg_store.ts] and of [autoRepairDataDir] of
    [src/chain/auto_repair.ts]: the files of a data directory, the methods that save and load
    blocks, the write-ahead log and its replay when a store is opened, and the repair.

    Every method is a program that records the files after each system call that changes
    them; an append to [blocks.bin] also records the files with every shorter part of the
    frame, so that the recorded states are those in which a killed process can leave the
    directory.  The files [heads.json], [head.txt] and [meta.json] are replaced by a rename,
    and a line is appended to a log or an index entirely or not at all.  System calls do not
    fail.  The content seals of an inherited checkpoint and the confinement of paths are not
    modelled.  A head marker is an integer or no number; [Date.now()] is an argument. *)

From Stdlib Require Import Ascii.
From S2P Require Import Prelude Js JsText Flow CanonicalJson Sha256 JsConvert MerkleRoots JsonParse NodeBuffer.
From S2P Require Import BlockFormat ChainHistory SegFrames.

(** ** Files and memory *)

Record Meta := mkMeta { m_from : Z; m_to : Z; m_bytes : Z; m_createdAt : Z; m_updatedAt : Z }.

(** The files of one segment; logs and indexes are their lines. *)
Record segment := mkSegment { seg_bin : option (list Z); seg_idx : option (list string); seg_meta : option Meta }.

Definition no_files : segment := mkSegment None None None.
Definition with_bin (x : list Z) (s : segment) : segment := mkSegment (Some x) (seg_idx s) (seg_meta s).
Definition with_idx (x : list string) (s : segment) : segment := mkSegment (seg_bin s) (Some x) (seg_meta s).
Definition with_meta (x : Meta) (s : segment) : segment := mkSegment (seg_bin s) (seg_idx s) (Some x).

Record disk := mkDisk {
  d_heads : option json;
  d_head_txt : option string;
  d_segs : gmap Z segment;
  d_wal : gmap Z (list string)
}.

Definition empty_disk : disk := mkDisk None None ∅ ∅.

Definition segment_of (d : disk) (base : Z) : segment := default no_files (d_segs d !! base).
Definition set_heads (x : json) (d : disk) : disk := mkDisk (Some x) (d_head_txt d) (d_segs d) (d_wal d).
Definition set_head_txt (x : string) (d : disk) : disk := mkDisk (d_heads d) (Some x) (d_segs d) (d_wal d).
Definition set_wal (w : gmap Z (list string)) (d : disk) : disk := mkDisk (d_heads d) (d_head_txt d) (d_segs d) w.
Definition edit_segment (base : Z) (f : segment -> segment) (d : disk) : disk :=
  mkDisk (d_heads d) (d_head_txt d) (<[base := f (segment_of d base)]> (d_segs d)) (d_wal d).

(** A process with the store open. *)
Record store := mkStore { s_disk : disk; s_metaCache : gmap Z Meta }.

(** The files after each changing system call, the result, and the store after it. *)
Definition prog (A : Type) : Type := store -> list disk * res A * store.

#[export] Instance prog_ret : MRet prog := fun _ a s => ([], Ok a, s).
#[export] Instance prog_bind : MBind prog := fun _ _ f m s =>
  match m s with
  | (tr, Ok a, s') => let '(tr', r, s'') := f a s' in (tr ++ tr', r, s'')
  | (tr, Throw e, s') => (tr, Throw e, s')
  end.

Definition prog_throw {A} (e : string) : prog A := fun s => ([], Throw e, s).
Definition prog_call {A} (m : res A) : prog A := fun s => ([], m, s).
Definition prog_read {A} (f : disk -> res A) : prog A := fun s => ([], f (s_disk s), s).
Definition prog_effect (f : disk -> disk) : prog unit := fun s =>
  let d := f (s_disk s) in ([d], Ok tt, mkStore d (s_metaCache s)).

(** [try { m } catch (err) { ... }]: the result of [m] as a value. *)
Definition prog_try {A} (m : prog A) : prog (res A) := fun s =>
  let '(tr, r, s') := m s in (tr, Ok r, s').

(** [fs.appendFileSync] of bytes: every shorter part may be what is left of it. *)
Definition prog_append (base : Z) (bytes : list Z) : prog unit := fun s =>
  let grow k d := edit_segment base (fun g => with_bin (default [] (seg_bin g) ++ take k bytes) g) d in
  let d := s_disk s in
  (map (fun k => grow k d) (seq 1 (length bytes)), Ok tt, mkStore (grow (length bytes) d) (s_metaCache s)).

(** [if (missing) ...] *)
Definition prog_when (b : bool) (m : prog unit) : prog unit := if b then m else mret tt.

Definition missing {A} (o : option A) : bool := match o with Some _ => false | None => true end.

(** [object.key = value] on a parsed value *)
Definition assign (k : string) (v : json) (j : json) : res json :=
  match j with
  | JObj fs => Ok (JObj (put k v fs))
  | JArr _ => Ok j
  | _ => Throw "TypeError"
  end.

Section store.
Context `{Digest} `{BufferDigest} `{NodeCrypto} `{StringNumber} `{JsonNumber}.
Context (runtimeTruth : json -> res ExpectedProposer) (env : process_env) (sparseEvery now : Z).

(** ** Head markers *)

(** A value as a finite number *)
Definition finite (n : number) : option Z := match n with Integer z => Some z | _ => None end.

Fixpoint first_word (s : string) : string :=
  match s with
  | EmptyString => EmptyString
  | String c s' => if is_js_space c then EmptyString else String c (first_word s')
  end.

(** [readJsonUseCoupledV1(this.headsFile) || fallback] *)
Definition readHeads (fallback : json) (d : disk) : json :=
  match d_heads d with Some j => if falsy j then fallback else j | None => fallback end.

(** The marker in [head.txt], or -1 *)
Definition txtHead (d : disk) : Z :=
  match d_head_txt d with
  | Some t => default (-1) (finite (Number_text (first_word (trim t))))
  | None => -1
  end.

Definition jsonHeads (d : disk) : res (list Z) :=
  let j := readHeads (JObj []) d in
  jHead ← js_Number (j.@"head");
  jNum ← js_Number (j.@"number");
  Ok (omap finite [jHead; jNum]).

Definition loadHeadNumber (d : disk) : res Z :=
  cand ← jsonHeads d; Ok (foldl Z.max (txtHead d) cand).

Definition newHeads : json := JObj ["head" ~> jint (-1); "hash" ~> "0x0"].
Definition headLine (n : Z) : string := int_text n +:+ String (chr 10) EmptyString.

Definition persistHeadAtomic (n : Z) : prog unit :=
  j ← prog_read (fun d => j ← assign "head" (jint n) (readHeads newHeads d); assign "number" (jint n) j);
  prog_effect (set_heads j);;
  prog_effect (set_head_txt (headLine n)).

(** ** Segments *)

Definition loadBlock (n : Z) (d : disk) : res json :=
  throw_if ((MAX_SAFE_INTEGER <? Z.abs n) || (n <? 0)) "SegStore.loadBlock: invalid block number";;
  let g := segment_of d (segBase n) in loadFrom n (seg_bin g) (seg_idx g).

Definition freshMeta (base : Z) : Meta := mkMeta base (base - 1) 0 now now.

Definition cacheMeta (base : Z) (m : Meta) : prog unit := fun s =>
  ([], Ok tt, mkStore (s_disk s) (<[base := m]> (s_metaCache s))).

Definition ensureSeg (base : Z) : prog unit :=
  d ← prog_read Ok;
  prog_when (missing (d_segs d !! base)) (prog_effect (edit_segment base id));;
  prog_when (missing (seg_bin (segment_of d base))) (prog_effect (edit_segment base (with_bin [])));;
  prog_when (missing (seg_idx (segment_of d base))) (prog_effect (edit_segment base (with_idx [])));;
  prog_when (missing (seg_meta (segment_of d base)))
    (prog_effect (edit_segment base (with_meta (freshMeta base)));; cacheMeta base (freshMeta base)).

Definition meta (base : Z) : prog Meta := fun s =>
  match s_metaCache s !! base with
  | Some m => ([], Ok m, s)
  | None => (m ← mret (default (freshMeta base) (seg_meta (segment_of (s_disk s) base))); cacheMeta base m;; mret m) s
  end.

Definition putMeta (base : Z) (m : Meta) : prog unit :=
  let m := mkMeta (m_from m) (m_to m) (m_bytes m) (m_createdAt m) now in
  prog_effect (edit_segment base (with_meta m));; cacheMeta base m.

(** ** Committing a block *)

(** The mode and version of a record of the log. *)
Definition walVersion (mode : append_mode) (mainnet0HistoricalRatchet : bool) : Z * option string :=
  match mode with
  | GenesisMinimal => (3, Some "genesis-minimal-v1"%string)
  | LegacyV2fs => if mainnet0HistoricalRatchet then (4, Some "legacy-v2fs-historical-v1"%string) else (2, Some "legacy-v2fs"%string)
  | Modern => (1, None)
  end.

Definition walRecord (b : json) (n : Z) (mode : append_mode) (mainnet0HistoricalRatchet : bool) : json :=
  let '(v, text) := walVersion mode mainnet0HistoricalRatchet in
  JObj (("v" ~> jint v) :: match text with Some t => ["mode" ~> t] | None => [] end ++
    ["n" ~> jint n; "b64" ~> to_base64 (json_bytes b); "ts" ~> jint now]).

Definition wal_lines (d : disk) (base : Z) : list string := default [] (d_wal d !! base).

Definition walAppendDurable (base n : Z) (b : json) (mode : append_mode) (mainnet0HistoricalRatchet : bool) : prog unit :=
  let line := default EmptyString (stringify (walRecord b n mode mainnet0HistoricalRatchet)) in
  prog_effect (fun d => set_wal (<[base := wal_lines d base ++ [line]]> (d_wal d)) d).

Definition saveBlockCommit (b : json) (n : Z) : prog unit :=
  let base := segBase n in
  ensureSeg base;;
  m ← meta base;
  bytes ← prog_call (frame b);
  off ← prog_read (fun d => Ok (Z.of_nat (length (default [] (seg_bin (segment_of d base))))));
  prog_append base bytes;;
  prog_when (n mod sparseEvery =? 0) (prog_effect (fun d =>
    edit_segment base (fun g => with_idx (default [] (seg_idx g) ++ [index_line (b.@"number") off]) g) d));;
  putMeta base (mkMeta (m_from m) (Z.max (m_to m) n) (m_bytes m + Z.of_nat (length bytes)) (m_createdAt m) (m_updatedAt m)).

(** ** Saving a block *)

Definition saveCanonicalBlockByModeV1 (b : json) (mode : append_mode) (mainnet0HistoricalRatchet : bool) : prog unit :=
  n ← prog_call (blockHeight b);
  head ← prog_read loadHeadNumber;
  existing ← prog_read (loadBlock n);
  if (head >=? n) && negb (falsy existing) then
    if replayBlockMatchesStoredBlock existing b mode then mret tt
    else prog_throw "SegStore.saveBlock: conflicting existing block"
  else
    parent ← if n =? 0 then mret JNull else prog_read (loadBlock (n - 1));
    prog_call (admitBlock runtimeTruth env b parent mode mainnet0HistoricalRatchet);;
    if (n =? head + 1) && negb (falsy existing) then
      if replayBlockMatchesStoredBlock existing b mode then persistHeadAtomic n
      else prog_throw "SegStore.saveBlock: conflicting durable block ahead of head"
    else if negb (n =? head + 1) then prog_call (nonContiguous head n)
    else
      let base := segBase n in
      ensureSeg base;;
      walAppendDurable base n b mode mainnet0HistoricalRatchet;;
      saveBlockCommit b n;;
      persistHeadAtomic n.

Definition saveBy (m : method) (b : json) : prog unit := saveCanonicalBlockByModeV1 b (mode_of m) (ratchet_of m).

(** ** Replay of the log *)

(** A line of the log with its record, null where it is not JSON. *)
Record candidate := mkCandidate { c_index : nat; c_rec : json; c_n : number }.

Definition parseCandidate (index : nat) (line : string) : res candidate :=
  let rec := default JNull (JSON_parse line) in
  n ← if is_object rec then js_Number (rec.@"n") else Ok NotANumber;
  Ok (mkCandidate index rec n).

Definition valid_n (n : number) : option Z :=
  match n with Integer z => if 0 <=? z then Some z else None | _ => None end.

(** Records in the order of their numbers, then of their lines; others last. *)
Definition candidate_leb (a b : candidate) : bool :=
  match valid_n (c_n a), valid_n (c_n b) with
  | Some x, Some y => if x =? y then (c_index a <=? c_index b)%nat else x <=? y
  | Some _, None => true
  | None, Some _ => false
  | None, None => (c_index a <=? c_index b)%nat
  end.

(** [typeof rec.n === "number" && Number.isInteger(rec.n) && rec.n >= 0] *)
Definition record_number (rec : json) : option Z :=
  match rec.@"n", js_Number (rec.@"n") with
  | JNum _, Ok n => valid_n n
  | _, _ => None
  end.

Definition is_version (rec : json) (v : Z) : bool := rec.@"v" === jint v.

Definition historicalReplayNumbers (base : Z) (cs : list candidate) : list Z :=
  omap (fun c =>
    let rec := c_rec c in
    if is_object rec && (is_version rec 3 || is_version rec 4) then
      match record_number rec with Some n => if segBase n =? base then Some n else None | None => None end
    else None) cs.

(** The blocks of the segment that historical records name. *)
Definition loadHistoricalWalReplayCanonicalBlocksV1 (base : Z) (wantedNumbers : list Z) (d : disk)
    : res (list (Z * json)) :=
  match wantedNumbers, seg_bin (segment_of d base) with
  | [], _ | _, None => Ok []
  | _, Some bytes =>
      found ← scanAll (S (length bytes)) base 0 None bytes;
      Ok (List.filter (fun kb => bool_decide (kb.1 ∈ wantedNumbers)) found)
  end.

(** What becomes of a record: it stays in the log, it is dropped, or it was applied. *)
Inductive replayed : Type := Kept (reason : string) | Dropped | Applied.

(** The mode in which a record is replayed, and whether it is historical. *)
Definition replayMode (rec : json) : option (append_mode * bool) :=
  if is_version rec 2 then if rec.@"mode" === "legacy-v2fs" then Some (LegacyV2fs, false) else None
  else if is_version rec 3 then if rec.@"mode" === "genesis-minimal-v1" then Some (GenesisMinimal, true) else None
  else if is_version rec 4 then if rec.@"mode" === "legacy-v2fs-historical-v1" then Some (LegacyV2fs, true) else None
  else Some (Modern, false).

Definition known_version (rec : json) : bool :=
  is_object rec && (is_version rec 1 || is_version rec 2 || is_version rec 3 || is_version rec 4).

(** The block of a record, null where it cannot be read. *)
Definition recordBlock (rec : json) : option json :=
  match rec.@"b64" with
  | JStr text => if String.eqb text EmptyString then None else Some (default JNull (parse_bytes (from_base64 text)))
  | _ => None
  end.

Definition replayHistorical (n head : Z) (existing blk : json) (mode : append_mode) : replayed :=
  if n <=? head then
    if falsy existing then Kept ("head_ahead_of_missing_block:" +:+ int_text n)
    else if replayBlockMatchesStoredBlock existing blk mode then Dropped
    else Kept ("existing_block_conflict:" +:+ int_text n)
  else Kept ("historical_replay_requires_fresh_authority:" +:+ int_text n).

(** [try { ... } catch (err) { keep(...) }] *)
Definition applied_or (m : prog unit) (reason : string) : prog replayed :=
  r ← prog_try m; mret (match r with Ok _ => Applied | Throw _ => Kept reason end).

Definition replayCommit (n head : Z) (blk : json) (mode : append_mode) : prog replayed :=
  parent ← if n =? 0 then mret JNull else prog_read (loadBlock (n - 1));
  valid ← prog_call (validateCanonicalBlockByModeV1 runtimeTruth env blk parent mode false);
  match valid with
  | Invalid reason => mret (Kept ("invalid_block:" +:+ int_text n +:+ ":" +:+ reason))
  | Valid =>
      existing ← prog_read (loadBlock n);
      if n <=? head then
        mret (if falsy existing then Kept ("head_ahead_of_missing_block:" +:+ int_text n)
          else if replayBlockMatchesStoredBlock existing blk mode then Dropped
          else Kept ("existing_block_conflict:" +:+ int_text n))
      else if negb (falsy existing) then
        if replayBlockMatchesStoredBlock existing blk mode
        then applied_or (persistHeadAtomic n) ("head_heal_failed:" +:+ int_text n)
        else mret (Kept ("existing_block_conflict:" +:+ int_text n))
      else applied_or (saveBlockCommit blk n;; persistHeadAtomic n) ("commit_failed:" +:+ int_text n)
  end.

(** One record. *)
Definition replayRecord (base : Z) (historical : list (Z * json)) (c : candidate) : prog replayed :=
  let rec := c_rec c in
  if negb (known_version rec) then mret (Kept "malformed_record") else
  match replayMode rec with
  | None => mret (Kept "invalid_record_mode")
  | Some (mode, ratchet) =>
      match record_number rec with
      | None => mret (Kept "invalid_record_number")
      | Some n =>
          if negb (segBase n =? base) then mret (Kept "segment_mismatch") else
          match recordBlock rec with
          | None => mret (Kept "invalid_record_payload")
          | Some blk =>
              number ← prog_call (if falsy blk then Ok NotANumber else js_Number (blk.@"number"));
              if negb (bool_decide (finite number = Some n)) then mret (Kept "record_block_number_mismatch") else
              head ← prog_read loadHeadNumber;
              if head + 1 <? n then mret (Kept "canonical_gap")
              else if ratchet then
                mret (replayHistorical n head (default JNull (snd <$> List.find (fun kb => kb.1 =? n) historical)) blk mode)
              else replayCommit n head blk mode
          end
      end
  end.

Definition replayStep (base : Z) (historical : list (Z * json)) (keepIndexes : list nat) (c : candidate)
    : prog (list nat) :=
  r ← replayRecord base historical c;
  mret (match r with Kept _ => c_index c :: keepIndexes | _ => keepIndexes end).

Fixpoint prog_fold {A B} (f : B -> A -> prog B) (b : B) (l : list A) : prog B :=
  match l with [] => mret b | a :: l' => b' ← f b a; prog_fold f b' l' end.

(** The lines at the indexes, in their order. *)
Definition lines_at (keepIndexes : list nat) (lines : list string) : list string :=
  (List.filter (fun p => bool_decide (p.1 ∈ keepIndexes)) (zip (seq 0 (length lines)) lines)).*2.

Definition replayWalSegBestEffort (base : Z) : prog unit :=
  lines ← prog_read (fun d => Ok (List.filter (fun l => negb (String.eqb l EmptyString)) (wal_lines d base)));
  candidates ← prog_call (mapi_res parseCandidate 0 lines);
  let ordered := isort candidate_leb candidates in
  historical ← prog_read (loadHistoricalWalReplayCanonicalBlocksV1 base (historicalReplayNumbers base ordered));
  keepIndexes ← prog_fold (replayStep base historical) [] ordered;
  match lines_at keepIndexes lines with
  | [] => prog_effect (fun d => set_wal (delete base (d_wal d)) d)
  | kept => prog_effect (fun d => set_wal (<[base := kept]> (d_wal d)) d)
  end.

(** Segments in ascending order *)
Definition bases {A} (m : gmap Z A) : list Z := isort Z.leb (map_to_list m).*1.

Definition replayWalAllBestEffort : prog unit :=
  files ← prog_read (fun d => Ok (bases (d_wal d)));
  prog_fold (fun _ base => prog_try (replayWalSegBestEffort base);; mret tt) tt files.

(** ** Opening a store *)

Definition VOID_AL_SEGSTORE_STARTUP_HEAD_RECONCILIATION_HOLD_V1 : string :=
  "VOID_AL_SEGSTORE_STARTUP_HEAD_RECONCILIATION_HOLD_V1".

Definition startupHeadReconciliationHoldV1 {A} (reason : string) : prog A :=
  prog_throw (VOID_AL_SEGSTORE_STARTUP_HEAD_RECONCILIATION_HOLD_V1 +:+ ": " +:+ reason).

Definition alBlockCommitRuntimeRequestedV1 : bool :=
  String.eqb (trim (default EmptyString (env "VOID_AL_BLOCK_COMMIT_RUNTIME_V1"))) "1".

(** [head.txt] wins over [heads.json]; only a directory without [head.txt] takes its head
    from [heads.json]. *)
Definition reconcileHeads : prog unit :=
  cur ← prog_read jsonHeads;
  txt ← prog_read (fun d => Ok (txtHead d));
  let curHead := match cur with [] => -1 | x :: l => foldl Z.max x l end in
  if (0 <=? txt) && negb (txt =? curHead) then
    if alBlockCommitRuntimeRequestedV1
    then startupHeadReconciliationHoldV1 ("head.txt=" +:+ int_text txt +:+ " disagrees with heads.json=" +:+ int_text curHead)
    else
      j ← prog_read (fun d => j ← assign "head" (jint txt) (readHeads (JObj []) d); assign "number" (jint txt) j);
      prog_effect (set_heads j)
  else if (0 <=? curHead) && negb (txt =? curHead) then
    if alBlockCommitRuntimeRequestedV1
    then startupHeadReconciliationHoldV1 ("heads.json=" +:+ int_text curHead +:+ " disagrees with head.txt=" +:+ int_text txt)
    else prog_effect (set_head_txt (headLine curHead))
  else mret tt.

Definition is_hold (e : string) : bool := String.prefix VOID_AL_SEGSTORE_STARTUP_HEAD_RECONCILIATION_HOLD_V1 e.

(** The constructor *)
Definition openStore : prog unit :=
  d ← prog_read Ok;
  (if missing (d_heads d) then
     if alBlockCommitRuntimeRequestedV1
     then startupHeadReconciliationHoldV1 "heads.json missing while AL runtime requested"
     else prog_effect (set_heads newHeads)
   else mret tt);;
  r ← prog_try reconcileHeads;
  match r with
  | Throw e => if is_hold e then prog_throw e else mret tt
  | Ok _ => mret tt
  end;;
  replayWalAllBestEffort.

(** ** Repair *)

Record FrameScan := mkFrameScan { fsn_frames : list ScannedFrame; fsn_complete : Z; fsn_torn : Z; fsn_lastN : Z }.

Definition scanSegment (d : disk) (base : Z) : res (Z * segment * FrameScan) :=
  let g := segment_of d base in
  let bytes := default [] (seg_bin g) in
  '(frames, complete) ← readFrames (S (length bytes)) base 0 None bytes;
  Ok (base, g, mkFrameScan frames complete (Z.of_nat (length bytes) - complete)
    (match last frames with Some f => sf_n f | None => -1 end)).

Definition sparseIndexText (frames : list ScannedFrame) : list string :=
  map (fun f => index_line (jint (sf_n f)) (sf_off f)) (List.filter (fun f => sf_n f mod sparseEvery =? 0) frames).

Definition rebuiltMeta (base : Z) (g : segment) (scan : FrameScan) : Meta :=
  let createdAt := match seg_meta g with Some m => if 0 <? m_createdAt m then m_createdAt m else now | None => now end in
  mkMeta base (fsn_lastN scan) (fsn_complete scan) createdAt now.

Definition repairSegment (p : Z * segment * FrameScan) : prog unit :=
  let '(base, g, scan) := p in
  prog_when (missing (seg_bin g)) (prog_effect (edit_segment base (with_bin [])));;
  prog_when (0 <? fsn_torn scan) (prog_effect (fun d =>
    edit_segment base (fun g => with_bin (take (Z.to_nat (fsn_complete scan)) (default [] (seg_bin g))) g) d));;
  prog_effect (edit_segment base (with_idx (sparseIndexText (fsn_frames scan))));;
  prog_effect (edit_segment base (with_meta (rebuiltMeta base g scan))).

Definition rebuildHeads (globalHead : Z) : prog unit :=
  j ← prog_read (fun d =>
    let prior := match d_heads d with Some (JObj fs) => JObj fs | _ => JObj [] end in
    j ← assign "head" (jint globalHead) prior;
    j ← assign "number" (jint globalHead) j;
    assign "hash" (match prior.@"hash" with JStr s => JStr s | _ => "0x0" end) j);
  prog_effect (set_heads j);;
  prog_effect (set_head_txt (headLine globalHead)).

(** [autoRepairDataDir(root, { sparseEvery, dryRun })]: the head of the directory. *)
Definition autoRepairDataDir (dryRun : bool) : prog Z :=
  prepared ← prog_read (fun d => map_res (scanSegment d) (bases (d_segs d)));
  let globalHead := foldl (fun h p => Z.max h (fsn_lastN p.2)) (-1) prepared in
  (if dryRun then mret tt
   else prog_fold (fun _ p => repairSegment p) tt prepared;; rebuildHeads globalHead);;
  mret globalHead.

End store.
