(* ===== verification/SegInvariant.v ===== *)
(** * What the files of a segment store hold

    The invariant of the files: the frames of the stored blocks, segment by segment, with a
    sparse index that is right wherever it says something, head markers, and a log of
    records of stored blocks; and a calculus for programs that checks the files after every
    system call. *)

From Stdlib Require Import Ascii.
From S2P Require Import Prelude Js JsText Flow CanonicalJson Sha256 JsConvert MerkleRoots JsonParse NodeBuffer.
From S2P Require Import BlockFormat ChainHistory SegFrames SegStore.

(** ** Programs *)

(** From [s], all recorded files satisfy [I] and the end satisfies [Q]. *)
Definition via {A} (m : prog A) (I : disk -> Prop) (Q : res A -> store -> Prop) (s : store) : Prop :=
  let '(tr, r, s') := m s in Forall I tr /\ Q r s'.

Section calculus.
Context {A B : Type} (I : disk -> Prop).
Implicit Types (Q : res A -> store -> Prop) (s : store).

Lemma via_ret (a : A) Q s : Q (Ok a) s -> via (mret a) I Q s.
Proof. done. Qed.

Lemma via_throw e Q s : Q (Throw e) s -> via (prog_throw e) I Q s.
Proof. done. Qed.

Lemma via_call (r : res A) Q s : Q r s -> via (prog_call r) I Q s.
Proof. done. Qed.

Lemma via_read (f : disk -> res A) Q s : Q (f (s_disk s)) s -> via (prog_read f) I Q s.
Proof. done. Qed.

Lemma via_bind (m : prog A) (f : A -> prog B) (Q : res B -> store -> Prop) s :
  via m I (fun r s' => match r with Ok a => via (f a) I Q s' | Throw e => Q (Throw e) s' end) s ->
  via (m ≫= f) I Q s.
Proof.
  unfold via. cbn [mbind prog_bind]. destruct (m s) as [[tr [a|e]] s'] eqn:E.
  - change (mbind f m s) with (match m s with
      | (tr, Ok a, s') => let '(tr', r, s'') := f a s' in (tr ++ tr', r, s'')
      | (tr, Throw e, s') => (tr, Throw e, s') end). rewrite E.
    destruct (f a s') as [[tr' r] s'']. intros [H1 [H2 H3]]. split; [by apply Forall_app|done].
  - change (mbind f m s) with (match m s with
      | (tr, Ok a, s') => let '(tr', r, s'') := f a s' in (tr ++ tr', r, s'')
      | (tr, Throw e, s') => (tr, Throw e, s') end). by rewrite E.
Qed.

Lemma via_impl (m : prog A) (I' : disk -> Prop) Q Q' s : via m I Q s -> (forall d, I d -> I' d) ->
  (forall r s', Q r s' -> Q' r s') -> via m I' Q' s.
Proof. unfold via. destruct (m s) as [[tr r] s']. intros [Ht Hq] Hi HQ. split; [by eapply Forall_impl|auto]. Qed.

Lemma via_try (m : prog A) (Q : res (res A) -> store -> Prop) s :
  via m I (fun r s' => Q (Ok r) s') s -> via (prog_try m) I Q s.
Proof. unfold via, prog_try. by destruct (m s) as [[tr r] s']. Qed.
End calculus.

Lemma via_effect (I : disk -> Prop) f (Q : res unit -> store -> Prop) s :
  I (f (s_disk s)) -> Q (Ok tt) (mkStore (f (s_disk s)) (s_metaCache s)) -> via (prog_effect f) I Q s.
Proof. intros Hi Hq. split; [by repeat constructor|done]. Qed.

Lemma via_when (I : disk -> Prop) b m (Q : res unit -> store -> Prop) s :
  (b = true -> via m I Q s) -> (b = false -> Q (Ok tt) s) -> via (prog_when b m) I Q s.
Proof. destruct b; simpl; auto. intros _ Hq. by split; [|apply Hq]. Qed.

(** A loop keeps what every step keeps. *)
Lemma via_fold {A B} (I : disk -> Prop) (f : B -> A -> prog B) (K : list A -> B -> store -> Prop) l b s :
  K l b s ->
  (forall a l' b s, K (a :: l') b s ->
    via (f b a) I (fun r s' => match r with Ok b' => K l' b' s' | Throw _ => exists b', K l' b' s' end) s) ->
  via (prog_fold f b l) I (fun r s' => match r with Ok b' => K [] b' s' | Throw _ => exists l' b', K l' b' s' end) s.
Proof.
  intros HK Hstep. revert b s HK. induction l as [|a l IH]; intros b s HK; [by split|]. cbn [prog_fold].
  apply via_bind. eapply via_impl; [by apply Hstep|done|]. intros [b'|e] s' HK'; [by apply IH|]. destruct HK' as [b' HK']. eauto.
Qed.

(** ** Segments of a list of blocks *)

Definition aligned (base : Z) : Prop := 0 <= base /\ segBase base = base.

Lemma segBase_bounds n : 0 <= n -> 0 <= segBase n <= n /\ n < segBase n + SEG_SPAN /\ aligned (segBase n).
Proof.
  intros Hn. unfold aligned, segBase, SEG_SPAN in *. rewrite Z.div_mul by lia. pose proof (Z.div_mod n 10000 ltac:(lia)).
  pose proof (Z.mod_pos_bound n 10000 ltac:(lia)). pose proof (Z.div_pos n 10000 ltac:(lia) ltac:(lia)). lia.
Qed.

Lemma segBase_in base n : aligned base -> base <= n < base + SEG_SPAN -> segBase n = base.
Proof.
  unfold aligned, segBase, SEG_SPAN. intros [H0 Hb] Hn.
  assert (n / 10000 = base / 10000) as ->; [|done].
  pose proof (Z.div_mod base 10000 ltac:(lia)). pose proof (Z.mod_pos_bound base 10000 ltac:(lia)).
  symmetry. apply Z.div_unique with (n - base); lia.
Qed.

Definition slice (blocks : list json) (base : Z) : list json := take (Z.to_nat SEG_SPAN) (drop (Z.to_nat base) blocks).

Lemma slice_lookup blocks base i : aligned base -> (i < Z.to_nat SEG_SPAN)%nat ->
  slice blocks base !! i = blocks !! Z.to_nat (base + Z.of_nat i).
Proof.
  intros [H0 _] Hi. unfold slice. rewrite lookup_take_lt by done. rewrite lookup_drop. f_equal. lia.
Qed.

Lemma slice_lookup_Some blocks base i b : aligned base -> slice blocks base !! i = Some b ->
  (i < Z.to_nat SEG_SPAN)%nat /\ blocks !! Z.to_nat (base + Z.of_nat i) = Some b.
Proof.
  intros Hb Hi. assert (i < Z.to_nat SEG_SPAN)%nat as Hlt.
  { apply lookup_lt_Some in Hi. unfold slice in Hi. rewrite length_take in Hi. lia. }
  by rewrite slice_lookup in Hi.
Qed.

(** A block on top goes to the end of its own segment. *)
Lemma slice_snoc blocks b base : aligned base ->
  slice (blocks ++ [b]) base = slice blocks base ++ if base =? segBase (Z.of_nat (length blocks)) then [b] else [].
Proof.
  intros Hb. pose proof (segBase_bounds (Z.of_nat (length blocks)) ltac:(lia)) as (H1 & H2 & H3). destruct Hb as [H0 Hb'].
  unfold slice. destruct (Z.eqb_spec base (segBase (Z.of_nat (length blocks)))) as [->|Hne].
  - rewrite drop_app_le by lia. unfold SEG_SPAN in *. rewrite take_app_ge; [|rewrite length_drop; lia].
    rewrite (take_ge (drop _ blocks)) by (rewrite length_drop; lia). f_equal. apply take_ge. simpl. rewrite length_drop. lia.
  - rewrite app_nil_r. destruct (Z.lt_ge_cases base (Z.of_nat (length blocks))) as [Hlt|Hge].
    + rewrite drop_app_le by lia. assert (base + SEG_SPAN <= Z.of_nat (length blocks)) as Hfull.
      { apply Z.nlt_ge. intros Hn. apply Hne. symmetry. apply segBase_in; [done|lia]. }
      apply take_app_le. rewrite length_drop. lia.
    + rewrite !drop_ge; [done|..]; rewrite ?length_app; simpl; try lia.
      destruct (Z.eq_dec base (Z.of_nat (length blocks))) as [->|]; [by rewrite Hb' in Hne|lia].
Qed.

Lemma slice_length blocks : Z.of_nat (length (slice blocks (segBase (Z.of_nat (length blocks))))) =
  Z.of_nat (length blocks) - segBase (Z.of_nat (length blocks)).
Proof.
  pose proof (segBase_bounds (Z.of_nat (length blocks)) ltac:(lia)) as (H1 & H2 & _).
  unfold slice, SEG_SPAN in *. rewrite length_take, length_drop. lia.
Qed.

(** ** The files *)

Record stored_block (i : nat) (b : json) : Prop := {
  sb_storable : storable b;
  sb_number : b.@"number" = jint (Z.of_nat i);
  sb_height : Z.of_nat i <= MAX_SAFE_INTEGER
}.

Section files.
Context `{JsonNumber}.

(** The segments hold the frames of [blocks]; [tail] follows the last of them. *)
Record files_ok (blocks : list json) (tail : list Z) (d : disk) : Prop := {
  fo_blocks : forall i b, blocks !! i = Some b -> stored_block i b;
  fo_aligned : forall base g, d_segs d !! base = Some g -> aligned base;
  fo_segment : forall base, aligned base ->
    segment_ok base (slice blocks base) (if base =? segBase (Z.of_nat (length blocks)) then tail else [])
      (seg_bin (segment_of d base)) (seg_idx (segment_of d base))
}.

Lemma slice_run blocks base : (forall i b, blocks !! i = Some b -> stored_block i b) -> aligned base ->
  run base base (slice blocks base).
Proof.
  intros Hb Ha i b [Hi Hlk]%slice_lookup_Some; [|done]. destruct (Hb _ _ Hlk) as [Hs Hn Hh]. pose proof Ha as [H0 _].
  rewrite Z2Nat.id in Hn, Hh by lia. split; [done|]. split; [done|]. split; [|lia].
  apply segBase_in; [done|]. unfold SEG_SPAN in *. lia.
Qed.

(** A stored height loads its block. *)
Lemma load_stored blocks tail d n b : files_ok blocks tail d -> blocks !! n = Some b ->
  loadBlock (Z.of_nat n) d = Ok b.
Proof.
  intros [Hb _ Hs] Hn. pose proof (segBase_bounds (Z.of_nat n) ltac:(lia)) as (H1 & H2 & Ha).
  pose proof (sb_height _ _ (Hb _ _ Hn)). unfold loadBlock.
  rewrite (proj2 (Z.ltb_ge _ (Z.abs _))), (proj2 (Z.ltb_ge _ 0)) by lia. cbn [orb throw_if mbind res_bind].
  eapply load_hit; [by apply Hs|by apply slice_run|done|lia|].
  unfold SEG_SPAN in *. rewrite slice_lookup by (done || unfold SEG_SPAN; lia). rewrite <- Hn. f_equal. lia.
Qed.

(** A height above the stored ones loads nothing. *)
Lemma load_above blocks tail d n : files_ok blocks tail d -> Z.of_nat (length blocks) <= n <= MAX_SAFE_INTEGER ->
  tail = [] \/ segBase n <> segBase (Z.of_nat (length blocks)) -> loadBlock n d = Ok JNull.
Proof.
  intros [Hb _ Hs] Hn Ht. pose proof (segBase_bounds n ltac:(lia)) as (H1 & H2 & Ha). unfold loadBlock.
  rewrite (proj2 (Z.ltb_ge _ (Z.abs n))), (proj2 (Z.ltb_ge n 0)) by lia. cbn [orb throw_if mbind res_bind].
  specialize (Hs _ Ha).
  assert ((if segBase n =? segBase (Z.of_nat (length blocks)) then tail else []) = []) as E.
  { destruct (Z.eqb_spec (segBase n) (segBase (Z.of_nat (length blocks)))); [by destruct Ht|done]. }
  rewrite E in Hs.
  refine (load_past _ n _ [] _ _ Hs (slice_run _ _ Hb Ha) eq_refl _).
  unfold slice, SEG_SPAN in *. rewrite length_take, length_drop. lia.
Qed.

(** What is left of a frame is neither a frame nor nothing. *)
Definition torn (tail : list Z) : Prop :=
  tail <> [] /\ forall o, match readFrame o tail with TornPrefix | TornFrame _ => True | _ => False end.

(** In the segment with a torn frame, no height above the stored ones can be loaded. *)
Lemma load_torn blocks tail d n : files_ok blocks tail d -> torn tail ->
  Z.of_nat (length blocks) <= n <= MAX_SAFE_INTEGER -> segBase n = segBase (Z.of_nat (length blocks)) ->
  exists e, loadBlock n d = Throw e.
Proof.
  intros [Hb _ Hs] [Hne Ht] Hn Hseg. pose proof (segBase_bounds n ltac:(lia)) as (H1 & H2 & Ha). unfold loadBlock.
  rewrite (proj2 (Z.ltb_ge _ (Z.abs n))), (proj2 (Z.ltb_ge n 0)) by lia. cbn [orb throw_if mbind res_bind].
  specialize (Hs _ Ha). rewrite (proj2 (Z.eqb_eq _ _) Hseg) in Hs.
  pose proof (load_past _ n _ tail _ _ Hs (slice_run _ _ Hb Ha) eq_refl) as Hp.
  destruct tail as [|x tail]; [done|]. apply Hp; [|done].
  unfold slice, SEG_SPAN in *. rewrite length_take, length_drop. lia.
Qed.

Lemma torn_prefix b k : storable b -> (0 < k < length (frame_bytes b))%nat -> torn (take k (frame_bytes b)).
Proof.
  intros [_ Hs] Hk. set (f := frame_bytes b) in *. assert (length (take k f) = k) as Hl by (rewrite length_take; lia).
  split; [intros E; rewrite E in Hl; simpl in Hl; lia|]. intros o.
  assert (exists x l, take k f = x :: l) as (x & l & E) by (destruct (take k f); [simpl in Hl; lia|eauto]).
  unfold readFrame. rewrite E, <- E, Hl. destruct (Nat.ltb_spec k 4) as [|H4]; [done|].
  assert (readUInt32BE (take k f) = Z.of_nat (length (json_bytes b))) as ->.
  { unfold readUInt32BE. rewrite take_take, Nat.min_l by lia. unfold f, frame_bytes.
    apply (read_word_bytes (Z.of_nat (length (json_bytes b))) (json_bytes b)). lia. }
  rewrite Nat2Z.id, length_drop, Hl. unfold f in Hk. rewrite frame_bytes_length in Hk.
  by rewrite (proj2 (Nat.ltb_lt _ _)) by lia.
Qed.

(** *** Editing a segment *)

Lemma segment_of_edit d base f base' :
  segment_of (edit_segment base f d) base' = if base' =? base then f (segment_of d base) else segment_of d base'.
Proof.
  unfold segment_of, edit_segment. cbn [d_segs]. destruct (Z.eqb_spec base' base) as [->|Hne].
  - by rewrite lookup_insert_eq.
  - by rewrite lookup_insert_ne by congruence.
Qed.

Lemma files_edit (blocks : list json) tail (blocks' : list json) tail' d base f : files_ok blocks tail d ->
  (forall i b, blocks' !! i = Some b -> stored_block i b) -> aligned base ->
  (forall base', aligned base' -> base' <> base -> slice blocks' base' = slice blocks base' /\
    (if base' =? segBase (Z.of_nat (length blocks')) then tail' else []) =
    (if base' =? segBase (Z.of_nat (length blocks)) then tail else [])) ->
  segment_ok base (slice blocks' base) (if base =? segBase (Z.of_nat (length blocks')) then tail' else [])
    (seg_bin (f (segment_of d base))) (seg_idx (f (segment_of d base))) ->
  files_ok blocks' tail' (edit_segment base f d).
Proof.
  intros [Hb Ha Hs] Hb' Hal Hother Hnew. split; [done| |].
  - intros base' g. unfold edit_segment. cbn [d_segs]. destruct (decide (base = base')) as [<-|Hne]; [done|].
    rewrite lookup_insert_ne by done. apply Ha.
  - intros base' Ha'. rewrite segment_of_edit. destruct (Z.eqb_spec base' base) as [->|Hne]; [done|].
    destruct (Hother base' Ha' Hne) as [-> ->]. by apply Hs.
Qed.

(** Edits that keep what the files say. *)
Lemma files_keep blocks tail d base f : files_ok blocks tail d -> aligned base ->
  let g := segment_of d base in
  default [] (seg_bin (f g)) = default [] (seg_bin g) ->
  (seg_idx (f g) = seg_idx g \/ seg_idx g = None /\ seg_idx (f g) = Some []) ->
  files_ok blocks tail (edit_segment base f d).
Proof.
  intros Hf Ha g Hb Hi. eapply files_edit; [exact Hf|apply Hf|done|done|].
  destruct (fo_segment _ _ _ Hf base Ha) as [Hbin Hidx]. fold g in Hbin, Hidx |- *. split; [by rewrite Hb|].
  destruct Hi as [->|[_ ->]]; [done|constructor].
Qed.

Lemma files_ext blocks tail d d' : d_segs d' = d_segs d -> files_ok blocks tail d -> files_ok blocks tail d'.
Proof.
  intros E [Hb Ha Hs]. assert (forall base, segment_of d' base = segment_of d base) as Eg
    by (intros; unfold segment_of; by rewrite E).
  split; [done|by rewrite E|]. intros base Hal. rewrite Eg. by apply Hs.
Qed.

Lemma tail_irrelevant (blocks : list json) tail base : aligned base -> base <> segBase (Z.of_nat (length blocks)) ->
  (if base =? segBase (Z.of_nat (length blocks)) then tail else @nil Z) = [].
Proof. intros _ Hne. by rewrite (proj2 (Z.eqb_neq _ _) Hne). Qed.

(** A part of a frame at the end of the last segment. *)
Lemma files_append_part blocks d bytes : files_ok blocks [] d ->
  let base := segBase (Z.of_nat (length blocks)) in
  files_ok blocks bytes (edit_segment base (fun g => with_bin (default [] (seg_bin g) ++ bytes) g) d).
Proof.
  intros Hf base. destruct (segBase_bounds (Z.of_nat (length blocks)) ltac:(lia)) as (_ & _ & Ha). fold base in Ha.
  eapply files_edit; [exact Hf|apply Hf|done| |].
  - intros base' Ha' Hne. split; [done|]. rewrite !tail_irrelevant by done. done.
  - destruct (fo_segment _ _ _ Hf base Ha) as [Hbin Hidx]. unfold base in *. rewrite Z.eqb_refl in *.
    split; [|done]. cbn [seg_bin with_bin]. cbn [default]. unfold default, id. cbn [from_option].
    unfold default, id in Hbin. rewrite Hbin. by rewrite app_nil_r.
Qed.

(** A whole frame. *)
Lemma files_append_frame blocks d b : files_ok blocks [] d -> stored_block (length blocks) b ->
  let base := segBase (Z.of_nat (length blocks)) in
  files_ok (blocks ++ [b]) [] (edit_segment base (fun g => with_bin (default [] (seg_bin g) ++ frame_bytes b) g) d).
Proof.
  intros Hf Hst base. destruct (segBase_bounds (Z.of_nat (length blocks)) ltac:(lia)) as (_ & _ & Ha). fold base in Ha.
  assert (forall X, (if X : bool then @nil Z else []) = []) as Eif by by intros [].
  eapply files_edit; [exact Hf| |done| |].
  - intros i c [Hc|[-> ->]]%snoc_lookup; [by apply Hf|done].
  - intros base' Ha' Hne. rewrite !Eif. split; [|done]. rewrite slice_snoc by done.
    rewrite (proj2 (Z.eqb_neq base' _)) by done. by rewrite app_nil_r.
  - rewrite Eif. destruct (fo_segment _ _ _ Hf base Ha) as [Hbin Hidx]. rewrite Eif, app_nil_r in Hbin.
    rewrite slice_snoc by done. unfold base at 3. rewrite Z.eqb_refl. split.
    + cbn [seg_bin with_bin]. unfold default, id in *. cbn [from_option]. rewrite Hbin, frames_app, app_nil_r.
      by rewrite (app_nil_r (frame_bytes b) : frames_bytes [b] = frame_bytes b).
    + cbn [seg_idx with_bin]. destruct (seg_idx _); [by apply honest_app|done].
Qed.

Lemma frames_length_bound bs : Forall storable bs -> Z.of_nat (length (frames_bytes bs)) <= Z.of_nat (length bs) * 2 ^ 33.
Proof.
  induction 1 as [|b bs Hb _ IH]; [done|]. change (frames_bytes (b :: bs)) with (frame_bytes b ++ frames_bytes bs).
  rewrite length_app, frame_bytes_length. destruct Hb as [_ Hs]. cbn [length].
  change (2 ^ 32) with 4294967296 in *. change (2 ^ 33) with 8589934592 in *. lia.
Qed.

Lemma index_line_entry base size n off : Z.abs n <= MAX_SAFE_INTEGER -> Z.abs off <= MAX_SAFE_INTEGER ->
  line_entry base size (index_line (jint n) off) = sparseEntry base size (JObj ["n" ~> jint n; "off" ~> jint off]).
Proof.
  intros Hn Ho. unfold line_entry, index_line. rewrite parse_stringify; [done|].
  assert (forall z, Z.abs z <= MAX_SAFE_INTEGER -> bool_decide (is_Some (as_safe_integer (JNum (NInt z)))) = true) as Hz.
  { intros z Hz. apply bool_decide_eq_true. exists z. apply as_safe_integer_Some. split; [done|lia]. }
  unfold textual. cbn [printable own_form forallb fst snd jint]. rewrite !Hz by done. reflexivity.
Qed.

(** The entry of the last block in the index. *)
Lemma files_index blocks d b : files_ok (blocks ++ [b]) [] d ->
  let n := Z.of_nat (length blocks) in let base := segBase n in
  let off := Z.of_nat (length (frames_bytes (slice blocks base))) in
  files_ok (blocks ++ [b]) [] (edit_segment base (fun g => with_idx (default [] (seg_idx g) ++ [index_line (jint n) off]) g) d).
Proof.
  intros Hf n base off. destruct (segBase_bounds n ltac:(lia)) as (Hb1 & Hb2 & Ha). fold base in Ha, Hb1, Hb2.
  eapply files_edit; [exact Hf|apply Hf|done|done|]. destruct (fo_segment _ _ _ Hf base Ha) as [Hbin Hidx].
  split; [done|]. cbn [seg_idx with_idx]. unfold default, id. apply Forall_app. split; [destruct (seg_idx _); [done|constructor]|].
  apply Forall_singleton. intros size k o He.
  assert (length (slice blocks base) < Z.to_nat SEG_SPAN)%nat as Hlen.
  { pose proof (slice_length blocks). unfold base, n, SEG_SPAN in *. lia. }
  assert (off <= MAX_SAFE_INTEGER) as Hoff.
  { assert (Forall storable (slice blocks base)) as Hall.
    { apply Forall_lookup. intros i c [Hi Hc]%slice_lookup_Some; [|done].
      apply (fo_blocks _ _ _ Hf (Z.to_nat (base + Z.of_nat i)) c). by apply lookup_app_l_Some. }
    apply frames_length_bound in Hall. unfold off, SEG_SPAN, MAX_SAFE_INTEGER in *. change (2 ^ 33) with 8589934592 in Hall. lia. }
  assert (n <= MAX_SAFE_INTEGER) as Hn.
  { apply (sb_height _ b). apply (fo_blocks _ _ _ Hf). by rewrite lookup_app_r, Nat.sub_diag by lia. }
  rewrite index_line_entry in He by (unfold off in *; lia). unfold sparseEntry in He.
  change ((JObj ["n" ~> jint n; "off" ~> jint off]).@"n") with (jint n) in He.
  change ((JObj ["n" ~> jint n; "off" ~> jint off]).@"off") with (jint off) in He.
  rewrite (proj2 (as_safe_integer_Some (jint n) n)), (proj2 (as_safe_integer_Some (jint off) off)) in He
    by (split; [done|unfold off in *; lia]).
  destruct (throw_if _ _) in He; [|discriminate He]. injection He as <- <-.
  exists (length (slice blocks base)). rewrite slice_snoc by done. unfold base at 3. fold n. rewrite Z.eqb_refl.
  split; [rewrite length_app; simpl; lia|]. split.
  - pose proof (slice_length blocks) as Hl. fold n base in Hl. lia.
  - unfold offset_of. by rewrite take_app_length.
Qed.

End files.
