(* ===== verification/SegSafety.v ===== *)
(** * Safety of the segment store

    What the methods of the store do to the files, system call by system call. *)

From Stdlib Require Import Ascii.
From S2P Require Import Prelude Js JsText Flow CanonicalJson Sha256 JsConvert MerkleRoots JsonParse NodeBuffer.
From S2P Require Import BlockFormat ChainHistory SegFrames SegStore SegInvariant.

(** ** Head markers *)

Lemma assoc_put k k' v fs : assoc k' (put k v fs) = if String.eqb k k' then v else assoc k' fs.
Proof.
  induction fs as [|[a x] fs IH]; cbn [put assoc]; [done|].
  destruct (String.eqb_spec a k) as [->|Ha]; cbn [assoc]; [by case_match|]. rewrite IH.
  destruct (String.eqb_spec a k') as [->|]; [|done]. destruct (String.eqb_spec k k'); congruence.
Qed.

(** Numbers in plain digits are read as what they print. *)
Class NumberTextLaws (N : StringNumber) : Prop :=
  number_of_text : forall z, Z.abs z <= MAX_SAFE_INTEGER -> Number_text (int_text z) = Integer z.

Definition heads_at (jh th : Z) (d : disk) : Prop :=
  (exists fs, d_heads d = Some (JObj fs) /\ assoc "head" fs = jint jh /\
    (assoc "number" fs = jint jh \/ assoc "number" fs = JUndefined)) /\
  (d_head_txt d = Some (headLine th) \/ d_head_txt d = None /\ th = -1) /\
  -1 <= th <= MAX_SAFE_INTEGER.

Definition no_space (s : string) : bool := string_forallb (fun c => negb (is_js_space c)) s.

Lemma first_word_line t : no_space t = true -> first_word (trim (t +:+ String (chr 10) EmptyString)) = t.
Proof.
  intros Ht. assert (first_word t = t) as Hw.
  { induction t as [|c t IH]; [done|]. cbn [no_space string_forallb first_word] in *. apply andb_true_iff in Ht as [Hc Ht].
    apply negb_true_iff in Hc. by rewrite Hc, IH. }
  assert (trim_end (t +:+ String (chr 10) EmptyString) = t) as He.
  { clear Hw. induction t as [|c t IH]; [done|]. cbn [no_space string_forallb] in Ht. apply andb_true_iff in Ht as [Hc Ht].
    change (String c t +:+ String (chr 10) EmptyString) with (String c (t +:+ String (chr 10) EmptyString)). cbn [trim_end].
    rewrite IH by done. apply negb_true_iff in Hc. rewrite Hc. by destruct t. }
  unfold trim. destruct t as [|c t]; [done|]. cbn [no_space string_forallb] in Ht. apply andb_true_iff in Ht as [Hc Ht].
  change (String c t +:+ String (chr 10) EmptyString) with (String c (t +:+ String (chr 10) EmptyString)) in He |- *.
  cbn [trim_start]. apply negb_true_iff in Hc. by rewrite Hc, He, Hw.
Qed.

Lemma digit_no_space c : is_digit c || Ascii.eqb c "-" = true -> is_js_space c = false.
Proof. destruct c as [[][][][][][][][]]; done. Qed.

Lemma int_text_no_space z : no_space (int_text z) = true.
Proof.
  assert (forall s, string_forallb is_digit s = true -> no_space s = true) as Hd.
  { induction s as [|c s IH]; intros Hs; [done|]. cbn [no_space string_forallb] in *. apply andb_true_iff in Hs as [Hc Hs].
    rewrite digit_no_space by (by rewrite Hc). by apply IH. }
  unfold int_text. destruct (z <? 0); [|apply Hd, dec_digits].
  change ("-" +:+ dec (- z)) with (String "-" (dec (- z))). exact (Hd _ (dec_digits _)).
Qed.

Section heads.
Context `{N : StringNumber} `{!NumberTextLaws N}.

Lemma txtHead_at jh th d : heads_at jh th d -> txtHead d = th.
Proof.
  intros (_ & [Ht|[Ht ->]] & Hb); unfold txtHead; rewrite Ht; [|done]. unfold headLine.
  rewrite first_word_line by apply int_text_no_space. rewrite number_of_text by (unfold MAX_SAFE_INTEGER in *; lia). done.
Qed.

Lemma jsonHeads_at jh th d : heads_at jh th d -> jsonHeads d = Ok [jh] \/ jsonHeads d = Ok [jh; jh].
Proof using.
  clear. intros ((fs & Hh & Hhead & Hnum) & _). unfold jsonHeads, readHeads. rewrite Hh. cbn [falsy prop].
  rewrite Hhead. destruct Hnum as [-> | ->]; [by right|by left].
Qed.

Lemma loadHeadNumber_at jh th d : heads_at jh th d -> loadHeadNumber d = Ok (Z.max th jh).
Proof.
  intros Hh. unfold loadHeadNumber. rewrite (txtHead_at jh th) by done.
  destruct (jsonHeads_at jh th d Hh) as [-> | ->]; cbn; f_equal; lia.
Qed.

Lemma assign_heads n fs : exists fs', (j ← assign "head" (jint n) (JObj fs); assign "number" (jint n) j) = Ok (JObj fs') /\
  assoc "head" fs' = jint n /\ assoc "number" fs' = jint n.
Proof using.
  clear. eexists. cbn [assign mbind res_bind]. split; [done|]. rewrite !assoc_put. done.
Qed.

(** Persisting a head writes [heads.json] first, then [head.txt]. *)
Lemma via_persistHead (P : disk -> Prop) n jh th s : heads_at jh th (s_disk s) -> 0 <= n <= MAX_SAFE_INTEGER ->
  P (s_disk s) -> (forall d j, P d -> P (set_heads j d)) -> (forall d t, P d -> P (set_head_txt t d)) ->
  via (persistHeadAtomic n) (fun d => P d /\ (heads_at n th d \/ heads_at n n d))
    (fun r s' => r = Ok tt /\ P (s_disk s') /\ heads_at n n (s_disk s')) s.
Proof using.
  clear. intros ((fs & Hh & _) & Ht & Hb) Hn HP Hj Htx. unfold persistHeadAtomic. apply via_bind, via_read.
  unfold readHeads. rewrite Hh. cbn [falsy]. destruct (assign_heads n fs) as (fs' & -> & Hhead & Hnum).
  apply via_bind. apply via_effect.
  - split; [by apply Hj|]. left. split; [exists fs'; auto|done].
  - apply via_effect; cbn [s_disk]; [split; [by apply Htx, Hj|right]|split; [done|split; [by apply Htx, Hj|]]];
      (split; [exists fs'; auto|]; split; [by left|lia]).
Qed.

End heads.

(** ** Committing a block *)

Section commit.
Context `{JsonNumber} (sparseEvery now : Z).

(** What says nothing about segments. *)
Definition beside (P : disk -> Prop) : Prop := forall d base f, P d -> P (edit_segment base f d).

(** One conditional edit that keeps what the files say. *)
Lemma via_edit_keep (P : disk -> Prop) blocks tail base c f (J J' : segment -> Prop) (Q : res unit -> store -> Prop) s :
  beside P -> aligned base -> P (s_disk s) -> files_ok blocks tail (s_disk s) -> J (segment_of (s_disk s) base) ->
  (forall g, J g -> c = true -> default [] (seg_bin (f g)) = default [] (seg_bin g) /\
    (seg_idx (f g) = seg_idx g \/ seg_idx g = None /\ seg_idx (f g) = Some []) /\ J' (f g)) ->
  (forall g, J g -> c = false -> J' g) ->
  (forall s', P (s_disk s') -> files_ok blocks tail (s_disk s') -> J' (segment_of (s_disk s') base) -> Q (Ok tt) s') ->
  via (prog_when c (prog_effect (edit_segment base f))) (fun d => P d /\ files_ok blocks tail d) Q s.
Proof.
  intros HP Ha Hp Hf HJ Ht Hn HQ. apply via_when; intros Hc; [|by apply HQ; auto].
  destruct (Ht _ HJ Hc) as (H1 & H2 & H3).
  assert (files_ok blocks tail (edit_segment base f (s_disk s))) as Hf' by by apply files_keep.
  apply via_effect; [by split; [apply HP|]|]. apply HQ; cbn [s_disk]; [by apply HP|done|].
  by rewrite segment_of_edit, Z.eqb_refl.
Qed.

Lemma via_ensureSeg (P : disk -> Prop) blocks tail base s : beside P -> P (s_disk s) ->
  files_ok blocks tail (s_disk s) -> aligned base ->
  via (ensureSeg now base) (fun d => P d /\ files_ok blocks tail d)
    (fun r s' => r = Ok tt /\ P (s_disk s') /\ files_ok blocks tail (s_disk s')) s.
Proof.
  intros HP Hp Hf Ha. unfold ensureSeg. apply via_bind, via_read. set (g := segment_of (s_disk s) base).
  apply via_bind. apply (via_edit_keep P blocks tail base _ _ (fun g' => g' = g) (fun g' => g' = g)); [done..|by intros ? -> _; auto|done|].
  intros s1 Hp1 Hf1 E1.
  apply via_bind. apply (via_edit_keep P blocks tail base _ _ (fun g' => g' = g) (fun g' => seg_idx g' = seg_idx g)); [done..| | |];
    [intros ? -> Hc; split; [by destruct (seg_bin g)|auto]|by intros ? -> _|]. intros s2 Hp2 Hf2 E2.
  apply via_bind. apply (via_edit_keep P blocks tail base _ _ (fun g' => seg_idx g' = seg_idx g) (fun _ => True)); [done..| |done|];
    [intros g' Eg Hc; split; [done|split; [right|done]]; rewrite Eg; by destruct (seg_idx g)|]. intros s3 Hp3 Hf3 _.
  destruct (missing (seg_meta g)); [|by split]. apply via_bind.
  apply (via_edit_keep P blocks tail base true _ (fun _ => True) (fun _ => True)); [done..|by auto|done|]. intros s4 Hp4 Hf4 _.
  by split.
Qed.

Lemma via_meta (I : disk -> Prop) base s : via (meta now base) I (fun r s' => (exists m, r = Ok m) /\ s_disk s' = s_disk s) s.
Proof using. clear. unfold via, meta. destruct (s_metaCache s !! base); (split; [done|split; [by eexists|done]]). Qed.

Lemma via_putMeta (P : disk -> Prop) blocks tail base m s : beside P -> P (s_disk s) ->
  files_ok blocks tail (s_disk s) -> aligned base ->
  via (putMeta now base m) (fun d => P d /\ files_ok blocks tail d)
    (fun r s' => r = Ok tt /\ P (s_disk s') /\ files_ok blocks tail (s_disk s')) s.
Proof.
  intros HP Hp Hf Ha. unfold putMeta. apply via_bind.
  apply (via_edit_keep P blocks tail base true _ (fun _ => True) (fun _ => True)); [done..|by auto|done|]. by split.
Qed.

(** The files while a block is appended: a part of its frame, or all of it. *)
Definition appending (blocks : list json) (b : json) (d : disk) : Prop :=
  (exists k, (k < length (frame_bytes b))%nat /\ files_ok blocks (take k (frame_bytes b)) d) \/ files_ok (blocks ++ [b]) [] d.

Lemma appending_none blocks b d : files_ok blocks [] d -> appending blocks b d.
Proof. intros Hf. left. exists 0%nat. split; [rewrite frame_bytes_length; lia|done]. Qed.

Lemma via_append (P : disk -> Prop) blocks b s : beside P -> P (s_disk s) -> files_ok blocks [] (s_disk s) ->
  stored_block (length blocks) b ->
  via (prog_append (segBase (Z.of_nat (length blocks))) (frame_bytes b)) (fun d => P d /\ appending blocks b d)
    (fun r s' => r = Ok tt /\ P (s_disk s') /\ files_ok (blocks ++ [b]) [] (s_disk s')) s.
Proof.
  intros HP Hp Hf Hst. split.
  - apply Forall_forall. intros d (k & -> & Hk)%list_elem_of_fmap. apply elem_of_seq in Hk. split; [by apply HP|].
    destruct (decide (k = length (frame_bytes b))) as [->|Hne].
    + right. rewrite take_ge by done. by apply files_append_frame.
    + left. exists k. split; [lia|]. by apply files_append_part.
  - split; [done|]. cbn [s_disk]. split; [by apply HP|]. rewrite take_ge by done. by apply files_append_frame.
Qed.

Lemma via_saveBlockCommit (P : disk -> Prop) blocks b s : beside P -> P (s_disk s) -> files_ok blocks [] (s_disk s) ->
  stored_block (length blocks) b ->
  via (saveBlockCommit sparseEvery now b (Z.of_nat (length blocks))) (fun d => P d /\ appending blocks b d)
    (fun r s' => r = Ok tt /\ P (s_disk s') /\ files_ok (blocks ++ [b]) [] (s_disk s')) s.
Proof.
  intros HP Hp Hf Hst. set (n := Z.of_nat (length blocks)) in *. set (base := segBase n).
  assert (aligned base) as Ha by (apply (segBase_bounds n); lia).
  assert (forall d, P d /\ files_ok blocks [] d -> P d /\ appending blocks b d) as Hnone
    by (intros d [? ?]; split; [done|by apply appending_none]).
  assert (forall d, P d /\ files_ok (blocks ++ [b]) [] d -> P d /\ appending blocks b d) as Hall
    by (intros d [? ?]; split; [done|by right]).
  unfold saveBlockCommit. fold base. apply via_bind. eapply via_impl; [by apply (via_ensureSeg P blocks [])|done|].
  intros r s1 (-> & Hp1 & Hf1). apply via_bind. eapply via_impl; [apply (via_meta (fun _ => False))|done|].
  intros r s2 [[m ->] E2]. rewrite <- E2 in Hp1, Hf1. apply via_bind, via_call. rewrite frame_Ok by apply Hst.
  apply via_bind, via_read. apply via_bind. eapply via_impl; [by apply (via_append P blocks b)|done|].
  intros r s3 (-> & Hp3 & Hf3). apply via_bind.
  assert (Z.of_nat (length (default [] (seg_bin (segment_of (s_disk s2) base)))) =
    Z.of_nat (length (frames_bytes (slice blocks base)))) as ->.
  { destruct (fo_segment _ _ _ Hf1 base Ha) as [-> _]. case_match; by rewrite app_nil_r. }
  rewrite (sb_number _ _ Hst). fold n.
  assert (forall s4, P (s_disk s4) -> files_ok (blocks ++ [b]) [] (s_disk s4) ->
    via (putMeta now base (mkMeta (m_from m) (Z.max (m_to m) n) (m_bytes m + Z.of_nat (length (frame_bytes b)))
      (m_createdAt m) (m_updatedAt m))) (fun d => P d /\ appending blocks b d)
      (fun r s' => r = Ok tt /\ P (s_disk s') /\ files_ok (blocks ++ [b]) [] (s_disk s')) s4) as Hmeta.
  { intros s4 Hp4 Hf4. eapply via_impl; [by apply (via_putMeta P (blocks ++ [b]) [])|done|done]. }
  apply via_when; intros _; [|by apply Hmeta].
  pose proof (files_index blocks _ b Hf3) as Hix. cbn zeta in Hix. fold n base in Hix.
  apply via_effect; [apply Hall; split; [by apply HP|done]|]. by apply Hmeta; [apply HP|].
Qed.

End commit.

(** ** The store at rest *)

Definition record_line (ts : Z) (b : json) (n : Z) (mode : append_mode) (ratchet : bool) : string :=
  default EmptyString (stringify (walRecord ts b n mode ratchet)).

(** A line of the log that records a stored block. *)
Definition settled (blocks : list json) (line : string) : Prop :=
  exists n b mode ratchet ts, blocks !! n = Some b /\ Z.abs ts <= MAX_SAFE_INTEGER /\
    line = record_line ts b (Z.of_nat n) mode ratchet.

Definition wal_settled (blocks : list json) (d : disk) : Prop :=
  forall base lines, d_wal d !! base = Some lines -> Forall (settled blocks) lines.

Lemma settled_app blocks blocks' line : settled blocks line -> settled (blocks ++ blocks') line.
Proof. intros (n & b & mode & ratchet & ts & Hb & Ht & ->). exists n, b, mode, ratchet, ts. split; [by apply lookup_app_l_Some|done]. Qed.

Lemma wal_settled_app blocks blocks' d : wal_settled blocks d -> wal_settled (blocks ++ blocks') d.
Proof. intros Hw base lines Hl. eapply Forall_impl; [by apply (Hw base)|]. intros. by apply settled_app. Qed.

(** A block the store can give back. *)
Record sound_block (b : json) : Prop := {
  so_storable : storable b;
  so_number : exists z, b.@"number" = jint z
}.

Section saving.
Context `{Digest} `{BufferDigest} `{NodeCrypto} `{N : StringNumber} `{!NumberTextLaws N} `{JsonNumber}.
Context (runtimeTruth : json -> res ExpectedProposer) (env : process_env) (sparseEvery now : Z).
Context (Hnow : Z.abs now <= MAX_SAFE_INTEGER).

(** The files hold exactly the blocks, both head markers name the last one, and the log
    records stored blocks only. *)
Record at_rest (blocks : list json) (d : disk) : Prop := {
  ar_files : files_ok blocks [] d;
  ar_heads : heads_at (Z.of_nat (length blocks) - 1) (Z.of_nat (length blocks) - 1) d;
  ar_wal : wal_settled blocks d
}.

(** The files after a process was killed while it saved [b] on top of [blocks]. *)
Definition interrupted (blocks : list json) (b : json) (d : disk) : Prop :=
  let n := Z.of_nat (length blocks) in
  wal_settled (blocks ++ [b]) d /\ stored_block (length blocks) b /\
  ((exists k, (k < length (frame_bytes b))%nat /\ files_ok blocks (take k (frame_bytes b)) d /\ heads_at (n - 1) (n - 1) d) \/
   (files_ok (blocks ++ [b]) [] d /\ exists jh th, heads_at jh th d /\ n - 1 <= th <= jh /\ jh <= n)).

Lemma stored_truthy i b : stored_block i b -> falsy b = false.
Proof using. clear. intros [_ Hn _]. by destruct b. Qed.

(** What the store loads is what the history has. *)
Lemma load_history blocks d n : files_ok blocks [] d -> 0 <= n <= MAX_SAFE_INTEGER ->
  loadBlock n d = Ok (block_at blocks n).
Proof using.
  clear. intros Hf Hn. unfold block_at. rewrite (proj2 (Z.ltb_ge n 0)) by lia.
  destruct (blocks !! Z.to_nat n) as [b|] eqn:Hb.
  - rewrite <- (Z2Nat.id n) at 1 by lia. by eapply load_stored.
  - eapply load_above; [done| |by left]. apply lookup_ge_None in Hb. lia.
Qed.

Lemma files_heads blocks tail j d : files_ok blocks tail d -> files_ok blocks tail (set_heads j d).
Proof using. clear. by apply files_ext. Qed.

Lemma files_txt blocks tail t d : files_ok blocks tail d -> files_ok blocks tail (set_head_txt t d).
Proof using. clear. by apply files_ext. Qed.

Lemma height_of b z : b.@"number" = jint z -> 0 <= z <= MAX_SAFE_INTEGER -> blockHeight b = Ok z.
Proof using.
  clear. intros Hb Hz. unfold blockHeight. rewrite Hb. cbn [js_Number jint mbind res_bind].
  by rewrite (proj2 (Z.leb_le (Z.abs z) _)), (proj2 (Z.leb_le 0 z)) by lia.
Qed.

(** Moving the head to a block that is stored ahead of it. *)
Lemma via_advance blocks b s : wal_settled (blocks ++ [b]) (s_disk s) -> stored_block (length blocks) b ->
  files_ok (blocks ++ [b]) [] (s_disk s) ->
  let n := Z.of_nat (length blocks) in heads_at (n - 1) (n - 1) (s_disk s) ->
  via (persistHeadAtomic n) (interrupted blocks b) (fun r s' => r = Ok tt /\ wal_settled (blocks ++ [b]) (s_disk s') /\
    files_ok (blocks ++ [b]) [] (s_disk s') /\ heads_at n n (s_disk s')) s.
Proof using.
  clear. intros Hw Hst Hf n Hh. eapply via_impl.
  - apply (via_persistHead (fun d => wal_settled (blocks ++ [b]) d /\ files_ok (blocks ++ [b]) [] d) n (n - 1) (n - 1));
      [done|split; [unfold n; lia|apply (sb_height _ _ Hst)]|done|..].
    + intros d j [? ?]. split; [done|by apply files_heads].
    + intros d t [? ?]. split; [done|by apply files_txt].
  - intros d [[Hwd Hfd] [Hhd|Hhd]]; (split; [done|split; [done|right; split; [done|]]]); fold n; eexists _, _;
      (split; [exact Hhd|lia]).
  - intros r s2 (-> & [Hwd Hfd] & Hhd). done.
Qed.

(** The last part of a save: the log, the block, the head. *)
Lemma via_append_block blocks b mode ratchet s : at_rest blocks (s_disk s) -> stored_block (length blocks) b ->
  let n := Z.of_nat (length blocks) in let base := segBase n in
  via (ensureSeg now base;; walAppendDurable now base n b mode ratchet;;
      saveBlockCommit sparseEvery now b n;; persistHeadAtomic n)
    (interrupted blocks b) (fun r s' => r = Ok tt /\ at_rest (blocks ++ [b]) (s_disk s')) s.
Proof using Hnow.
  clear NumberTextLaws0. intros [Hf Hh Hw] Hst n base. assert (aligned base) as Ha by (apply (segBase_bounds n); lia).
  set (P := fun d => wal_settled (blocks ++ [b]) d /\ heads_at (n - 1) (n - 1) d).
  assert (beside P) as HP by (intros d base' f Hd; exact Hd).
  assert (forall d, P d /\ appending blocks b d -> interrupted blocks b d) as HI.
  { intros d [[Hwd Hhd] [(k & Hk & Hfk)|Hfa]]; (split; [done|split; [done|]]); [left; eauto|right].
    split; [done|]. exists (n - 1), (n - 1). split; [done|]. fold n. lia. }
  assert (P (s_disk s)) as Hp by (split; [by apply wal_settled_app|done]).
  apply via_bind. eapply via_impl; [by apply (via_ensureSeg now P blocks [])| |].
  { intros d [? ?]. apply HI. split; [done|by apply appending_none]. }
  intros r s1 (-> & [Hw1 Hh1] & Hf1). apply via_bind. unfold walAppendDurable.
  set (d1 := set_wal (<[base := wal_lines (s_disk s1) base ++ [record_line now b n mode ratchet]]> (d_wal (s_disk s1)))
    (s_disk s1)).
  assert (P d1 /\ files_ok blocks [] d1) as [Hp1 Hf1'].
  { split; [|by eapply files_ext; [|exact Hf1]]. split; [|done]. intros base' lines. unfold d1, set_wal. cbn [d_wal].
    destruct (decide (base = base')) as [<-|Hne]; [rewrite lookup_insert_eq|rewrite lookup_insert_ne by done; by apply Hw1].
    intros [= <-]. apply Forall_app. split.
    - unfold wal_lines. destruct (d_wal (s_disk s1) !! base) eqn:E; [by apply (Hw1 base)|constructor].
    - apply Forall_singleton. exists (length blocks), b, mode, ratchet, now.
      split; [by rewrite lookup_app_r, Nat.sub_diag by lia|done]. }
  apply via_effect; [apply HI; split; [done|by apply appending_none]|]. fold d1.
  apply via_bind. eapply via_impl; [apply (via_saveBlockCommit sparseEvery now P blocks b); done|exact HI|].
  intros r s2 (-> & [Hw2 Hh2] & Hf2). eapply via_impl; [by apply via_advance|done|].
  intros r s3 (-> & Hwd & Hfd & Hhd). split; [done|]. split; [done| |done].
  rewrite length_app. simpl. by replace (Z.of_nat (length blocks + 1) - 1) with n by (unfold n; lia).
Qed.

(** What a save does once it has read the head, the height and the parent. *)
Definition save_after_reads (m : method) (b : json) (n head : Z) (existing parent : json) : prog unit :=
  if (head >=? n) && negb (falsy existing) then
    if replayBlockMatchesStoredBlock existing b (mode_of m) then mret tt
    else prog_throw "SegStore.saveBlock: conflicting existing block"
  else
    prog_call (admitBlock runtimeTruth env b parent (mode_of m) (ratchet_of m));;
    if (n =? head + 1) && negb (falsy existing) then
      if replayBlockMatchesStoredBlock existing b (mode_of m) then persistHeadAtomic n
      else prog_throw "SegStore.saveBlock: conflicting durable block ahead of head"
    else if negb (n =? head + 1) then prog_call (nonContiguous head n)
    else
      ensureSeg now (segBase n);;
      walAppendDurable now (segBase n) n b (mode_of m) (ratchet_of m);;
      saveBlockCommit sparseEvery now b n;;
      persistHeadAtomic n.

Lemma pure_bind {A B} (p : prog A) (f : A -> prog B) a s : p s = ([], Ok a, s) -> (p ≫= f) s = f a s.
Proof using. clear. intros Hp. unfold mbind, prog_bind. rewrite Hp. by destruct (f a s) as [[? ?] ?]. Qed.

Lemma save_reads blocks b m n s : at_rest blocks (s_disk s) -> blockHeight b = Ok n -> 0 <= n <= MAX_SAFE_INTEGER ->
  saveBy runtimeTruth env sparseEvery now m b s =
  save_after_reads m b n (Z.of_nat (length blocks) - 1) (block_at blocks n) (block_at blocks (n - 1)) s.
Proof using NumberTextLaws0.
  intros [Hf Hh Hw] Hn Hb. unfold saveBy, saveCanonicalBlockByModeV1. set (head := Z.of_nat (length blocks) - 1) in *.
  assert (prog_read loadHeadNumber s = ([], Ok head, s)) as E2.
  { unfold prog_read. rewrite (loadHeadNumber_at head head) by done. by rewrite Z.max_id. }
  assert (forall k, 0 <= k <= MAX_SAFE_INTEGER -> prog_read (loadBlock k) s = ([], Ok (block_at blocks k), s)) as E3.
  { intros k Hk. unfold prog_read. by rewrite (load_history blocks). }
  rewrite (pure_bind _ _ n) by (unfold prog_call; by rewrite Hn). rewrite (pure_bind _ _ _ _ E2).
  rewrite (pure_bind _ _ _ _ (E3 n Hb)). unfold save_after_reads. destruct (_ && _); [done|].
  rewrite (pure_bind _ _ (block_at blocks (n - 1))); [done|]. destruct (Z.eqb_spec n 0) as [->|]; [done|]. apply E3. lia.
Qed.

(** A save does to the files what it does to the history. *)
Lemma save_refines blocks b m s : at_rest blocks (s_disk s) -> sound_block b ->
  match save runtimeTruth env m b blocks with
  | Throw e => saveBy runtimeTruth env sparseEvery now m b s = ([], Throw e, s)
  | Ok blocks' =>
      (blocks' = blocks /\ saveBy runtimeTruth env sparseEvery now m b s = ([], Ok tt, s)) \/
      (blocks' = blocks ++ [b] /\ stored_block (length blocks) b /\
       via (saveBy runtimeTruth env sparseEvery now m b) (interrupted blocks b)
         (fun r s' => r = Ok tt /\ at_rest (blocks ++ [b]) (s_disk s')) s)
  end.
Proof.
  intros Har [Hsto [z Hz]]. unfold save, save_history.
  destruct (blockHeight b) as [n|e] eqn:Hn.
  2: { unfold saveBy, saveCanonicalBlockByModeV1, mbind, prog_bind, prog_call. by rewrite Hn. }
  cbn [mbind res_bind]. pose proof (blockHeight_Ok b n Hn) as [Hnum Hb]. rewrite Hz in Hnum. injection Hnum as ->.
  unfold via. rewrite (save_reads blocks b m n s Har Hn) by lia. unfold save_after_reads.
  set (head := Z.of_nat (length blocks) - 1). destruct (Z.geb_spec head n) as [Hle|Hgt].
  - destruct (lookup_lt_is_Some_2 blocks (Z.to_nat n)) as [c Hc]; [unfold head in *; lia|].
    assert (block_at blocks n = c) as -> by (unfold block_at; by rewrite (proj2 (Z.ltb_ge n 0)), Hc by lia).
    rewrite (stored_truthy _ c) by (eapply (fo_blocks _ _ _ (ar_files _ _ Har)); exact Hc). cbn [negb andb].
    destruct (replayBlockMatchesStoredBlock c b (mode_of m)); [by left|done].
  - assert (block_at blocks n = JNull) as ->.
    { unfold block_at. rewrite (proj2 (Z.ltb_ge n 0)) by lia. rewrite lookup_ge_None_2; [done|unfold head in *; lia]. }
    rewrite !andb_false_r. destruct (admitBlock _ _ _ _ _ _) as [[]|e] eqn:Hadm; [|done]. cbn [mbind res_bind].
    rewrite (pure_bind _ _ tt) by done. destruct (Z.eqb_spec n (head + 1)) as [Heq|Hne]; [|done]. cbn [negb].
    right. assert (n = Z.of_nat (length blocks)) as -> by (unfold head in Heq; lia).
    assert (stored_block (length blocks) b) as Hst by by split; [|done|lia].
    split; [done|]. split; [done|]. exact (via_append_block blocks b (mode_of m) (ratchet_of m) s Har Hst).
Qed.

End saving.
