(* ===== verification/SegRepair.v ===== *)
(** * The repair of a data directory

    [autoRepairDataDir] on the files of a store, whole or with a torn frame at the end: it
    keeps every complete block, takes the torn part away and rebuilds what is derived. *)

From Stdlib Require Import Ascii.
From S2P Require Import Prelude Js JsText Flow CanonicalJson Sha256 JsConvert MerkleRoots JsonParse NodeBuffer.
From S2P Require Import BlockFormat ChainHistory SegFrames SegStore SegInvariant SegSafety.

Lemma map_res_each {A B} (f : A -> res B) (R : A -> B -> Prop) l :
  (forall a, a ∈ l -> exists b, f a = Ok b /\ R a b) -> exists bs, map_res f l = Ok bs /\ Forall2 R l bs.
Proof.
  intros Hl. assert (exists bs, Forall2 (fun a b => f a = Ok b /\ R a b) l bs) as [bs Hbs].
  { induction l as [|a l IH]; [by exists []|]. destruct (Hl a) as [b Hb]; [by left|]. destruct IH as [bs Hbs].
    { intros x Hx. apply Hl. by right. } exists (b :: bs). by constructor. }
  exists bs. unfold map_res. generalize 0%nat. revert Hbs. clear. induction 1 as [|a b l bs [Hf HR] _ IH]; intros i; [by split|].
  destruct (IH (S i)) as [E HF]. split; [|by constructor]. cbn [mapi_res]. rewrite Hf. cbn [mbind res_bind]. by rewrite E.
Qed.

Section repair.
Context `{JsonNumber} (sparseEvery now : Z).

(** ** One segment *)

(** What the scan of a segment found, where it holds the blocks [bs] and a tail. *)
Definition scanned (bs : list json) (tail : list Z) (base : Z) (scan : FrameScan) : Prop :=
  length (fsn_frames scan) = length bs /\
  (forall i f, fsn_frames scan !! i = Some f -> sf_off f = offset_of bs i /\ sf_n f = base + Z.of_nat i) /\
  fsn_complete scan = Z.of_nat (length (frames_bytes bs)) /\
  fsn_torn scan = Z.of_nat (length tail) /\
  fsn_lastN scan = (if decide (bs = []) then -1 else base + Z.of_nat (length bs) - 1).

Definition incomplete (tail : list Z) : Prop := forall o, match readFrame o tail with CompleteFrame _ _ => False | _ => True end.

Lemma incomplete_nil : incomplete [].
Proof. done. Qed.

Lemma scan_segment blocks tail d base : files_ok blocks tail d -> incomplete tail -> aligned base ->
  exists scan, scanSegment d base = Ok (base, segment_of d base, scan) /\
    scanned (slice blocks base) (if base =? segBase (Z.of_nat (length blocks)) then tail else []) base scan.
Proof.
  intros Hf Ht Ha. destruct (fo_segment _ _ _ Hf base Ha) as [Hbin _]. set (t := if _ =? _ then tail else []) in *.
  assert (incomplete t) as Ht' by (unfold t; destruct (_ =? _); [exact Ht|exact incomplete_nil]).
  destruct (readFrames_run base 0 (slice blocks base) base None t (S (length (frames_bytes (slice blocks base) ++ t))))
    as (frames & E & Hlen & Hi).
  - apply slice_run; [apply Hf|done].
  - done.
  - pose proof (frames_count (slice blocks base) t). lia.
  - done.
  - unfold scanSegment. rewrite Hbin, E. cbn [mbind res_bind]. eexists. split; [done|]. unfold scanned.
    cbn [fsn_frames fsn_complete fsn_torn fsn_lastN]. split; [done|]. split; [by intros i f Hif; apply Hi|].
    split; [lia|]. split; [rewrite length_app; lia|].
    destruct (decide (slice blocks base = [])) as [En|Hne].
    + rewrite En in Hlen. by destruct frames.
    + assert (length (slice blocks base) <> 0)%nat as H0 by (by destruct (slice blocks base)).
      rewrite last_lookup, Hlen. destruct (frames !! pred (length (slice blocks base))) as [f|] eqn:Ef.
      * destruct (Hi _ _ Ef) as [_ ->]. lia.
      * apply lookup_ge_None in Ef. lia.
Qed.

(** The rebuilt index says where blocks are. *)
Lemma rebuilt_honest blocks t base scan : (forall i b, blocks !! i = Some b -> stored_block i b) -> aligned base ->
  scanned (slice blocks base) t base scan ->
  honest base (slice blocks base) (sparseIndexText sparseEvery (fsn_frames scan)).
Proof.
  intros Hf Ha (Hlen & Hi & _). unfold sparseIndexText. apply Forall_forall.
  intros line (f & -> & Hin)%list_elem_of_fmap. apply list_elem_of_In, filter_In in Hin as [Hin _].
  apply list_elem_of_In, list_elem_of_lookup in Hin as [i Hif]. destruct (Hi i f Hif) as [-> ->].
  assert (i < length (slice blocks base))%nat as Hlt by (rewrite <- Hlen; by eapply lookup_lt_Some).
  destruct (lookup_lt_is_Some_2 _ _ Hlt) as [c Hc]. apply slice_lookup_Some in Hc as [Hspan Hc]; [|done].
  pose proof (sb_height _ _ (Hf _ _ Hc)) as Hh. pose proof Ha as [H0 _].
  assert (Forall storable (take i (slice blocks base))) as Hall.
  { apply Forall_take, Forall_lookup. intros j x [_ Hx]%slice_lookup_Some; [|done]. by apply (Hf _ _ Hx). }
  apply frames_length_bound in Hall. rewrite length_take in Hall. change (2 ^ 33) with 8589934592 in Hall.
  unfold SEG_SPAN in Hspan. intros size k off He.
  rewrite index_line_entry in He by (unfold offset_of, MAX_SAFE_INTEGER in *; lia). unfold sparseEntry in He.
  change ((JObj ["n" ~> jint (base + Z.of_nat i); "off" ~> jint (offset_of (slice blocks base) i)]).@"n")
    with (jint (base + Z.of_nat i)) in He.
  change ((JObj ["n" ~> jint (base + Z.of_nat i); "off" ~> jint (offset_of (slice blocks base) i)]).@"off")
    with (jint (offset_of (slice blocks base) i)) in He.
  rewrite (proj2 (as_safe_integer_Some (jint (base + Z.of_nat i)) (base + Z.of_nat i))) in He by (split; [done|lia]).
  rewrite (proj2 (as_safe_integer_Some (jint (offset_of _ i)) (offset_of (slice blocks base) i))) in He
    by (split; [done|unfold offset_of, MAX_SAFE_INTEGER in *; lia]).
  cbn [mbind res_bind] in He. destruct (throw_if _ _) in He; [|discriminate He]. injection He as <- <-. eauto.
Qed.

Lemma files_index_set blocks tail d base lines : files_ok blocks tail d -> aligned base ->
  honest base (slice blocks base) lines -> files_ok blocks tail (edit_segment base (with_idx lines) d).
Proof.
  intros Hf Ha Hl. eapply files_edit; [exact Hf|apply Hf|done|done|].
  destruct (fo_segment _ _ _ Hf base Ha) as [Hbin _]. by split.
Qed.

(** Taking the torn part away. *)
Lemma files_truncate blocks tail d base complete : files_ok blocks tail d -> aligned base ->
  base = segBase (Z.of_nat (length blocks)) -> complete = Z.of_nat (length (frames_bytes (slice blocks base))) ->
  files_ok blocks [] (edit_segment base (fun g => with_bin (take (Z.to_nat complete) (default [] (seg_bin g))) g) d).
Proof.
  intros Hf Ha -> ->. eapply files_edit; [exact Hf|apply Hf|done| |].
  - intros base' Ha' Hne. split; [done|]. by rewrite !tail_irrelevant.
  - rewrite Z.eqb_refl. destruct (fo_segment _ _ _ Hf _ Ha) as [Hbin Hidx]. split; [|done].
    cbn [seg_bin with_bin]. rewrite Hbin, Nat2Z.id. unfold default, id. cbn [from_option].
    by rewrite take_app_length, app_nil_r.
Qed.

(** The tail after the segments in [l] are still to be repaired. *)
Definition tail_left (blocks : list json) (tail left : list Z) (l : list (Z * segment * FrameScan)) : Prop :=
  left = [] \/ left = tail /\ segBase (Z.of_nat (length blocks)) ∈ map (fun p => p.1.1) l.

(** Files during the repair *)
Definition repairing (P : disk -> Prop) (blocks : list json) (tail : list Z) (d : disk) : Prop :=
  P d /\ (files_ok blocks tail d \/ files_ok blocks [] d).

(** The store [s'] in the middle of the repair of [base], which started in [s]. *)
Definition midway (P : disk -> Prop) (blocks : list json) (left : list Z) (base : Z) (s s' : store) : Prop :=
  P (s_disk s') /\ files_ok blocks left (s_disk s') /\
  forall base', base' <> base -> segment_of (s_disk s') base' = segment_of (s_disk s) base'.

Lemma via_repair_step (P : disk -> Prop) blocks tail left left' base c f s s0 (Q : res unit -> store -> Prop) :
  beside P -> midway P blocks left base s0 s -> left' = tail \/ left' = [] ->
  (c = true -> files_ok blocks left' (edit_segment base f (s_disk s))) -> (c = false -> files_ok blocks left' (s_disk s)) ->
  (forall s', midway P blocks left' base s0 s' -> Q (Ok tt) s') ->
  via (prog_when c (prog_effect (edit_segment base f))) (repairing P blocks tail) Q s.
Proof using.
  intros HP (Hp & _ & Ho) Hl Ht Hf HQ. apply via_when; intros Hc.
  - assert (files_ok blocks left' (edit_segment base f (s_disk s))) as Hf' by auto.
    apply via_effect; [split; [by apply HP|destruct Hl as [-> | ->]; auto]|]. apply HQ. split; [by apply HP|]. split; [done|].
    intros base' Hne. cbn [s_disk]. rewrite segment_of_edit, (proj2 (Z.eqb_neq _ _) Hne). by apply Ho.
  - apply HQ. split; [done|]. split; [by apply Hf|done].
Qed.

Lemma via_repairSegment (P : disk -> Prop) blocks tail left base g scan l s : beside P -> P (s_disk s) ->
  aligned base -> files_ok blocks left (s_disk s) -> tail_left blocks tail left ((base, g, scan) :: l) ->
  segment_of (s_disk s) base = g ->
  scanned (slice blocks base) (if base =? segBase (Z.of_nat (length blocks)) then tail else []) base scan ->
  via (repairSegment sparseEvery now (base, g, scan)) (repairing P blocks tail)
    (fun r s' => r = Ok tt /\ exists left', midway P blocks left' base s s' /\ tail_left blocks tail left' l) s.
Proof using.
  intros HP Hp Ha Hf Hl Hg Hsc. pose proof Hsc as (_ & _ & Hcomp & Htorn & _).
  assert (left = tail \/ left = []) as Hleft by (destruct Hl as [?|[? _]]; auto).
  assert (midway P blocks left base s s) as H0 by done.
  unfold repairSegment. apply via_bind.
  apply (via_repair_step P blocks tail left left base (missing (seg_bin g)) (with_bin []) s s); [done|done|done| |done|].
  { intros Hm. apply files_keep; [done|done| |by left]. rewrite Hg. by destruct (seg_bin g). }
  intros s1 H1. apply via_bind.
  set (left' := if base =? segBase (Z.of_nat (length blocks)) then [] else left).
  assert (left' = tail \/ left' = []) as Hleft' by (unfold left'; destruct (_ =? _); auto).
  assert (tail_left blocks tail left' l) as Hl'.
  { unfold left', tail_left. destruct (Z.eqb_spec base (segBase (Z.of_nat (length blocks)))) as [Eb|Nb]; [by left|].
    destruct Hl as [->|[-> Hin]]; [by left|right; split; [done|]]. cbn [map fst] in Hin.
    apply elem_of_cons in Hin as [Hin|Hin]; [|done]. congruence. }
  eapply (via_repair_step P blocks tail left left' base (0 <? fsn_torn scan)
    (fun g => with_bin (take (Z.to_nat (fsn_complete scan)) (default [] (seg_bin g))) g) s1 s); [done|done|done|..].
  { rewrite Htorn. unfold left'. destruct (Z.eqb_spec base (segBase (Z.of_nat (length blocks)))); [|done]. intros _.
    apply (files_truncate blocks left); [apply H1|done..]. }
  { rewrite Htorn. unfold left'. destruct (Z.eqb_spec base (segBase (Z.of_nat (length blocks)))); [|by intros _; apply H1].
    destruct tail; [|done]. intros _. destruct Hleft as [-> | ->]; apply H1. }
  intros s2 H2. apply via_bind. pose proof H2 as (_ & Hf2 & _).
  apply (via_repair_step P blocks tail left' left' base true (with_idx (sparseIndexText sparseEvery (fsn_frames scan))) s2 s);
    [done|done|done| |done|].
  { intros _. apply files_index_set; [done|done|]. eapply rebuilt_honest; [apply Hf|done|exact Hsc]. }
  intros s3 H3. pose proof H3 as (_ & Hf3 & _).
  apply (via_repair_step P blocks tail left' left' base true (with_meta (rebuiltMeta now base g scan)) s3 s);
    [done|done|done| |done|].
  { intros _. apply files_keep; [done|done|done|by left]. }
  intros s4 H4. split; [done|]. by exists left'.
Qed.

(** ** All segments *)

Definition prepared_ok (blocks : list json) (tail : list Z) (d : disk) (p : Z * segment * FrameScan) : Prop :=
  let '(base, g, scan) := p in
  aligned base /\ segment_of d base = g /\
  scanned (slice blocks base) (if base =? segBase (Z.of_nat (length blocks)) then tail else []) base scan.

Lemma via_repair_all (P : disk -> Prop) blocks tail l s : beside P -> P (s_disk s) -> files_ok blocks tail (s_disk s) ->
  NoDup (map (fun p => p.1.1) l) -> Forall (prepared_ok blocks tail (s_disk s)) l ->
  tail = [] \/ segBase (Z.of_nat (length blocks)) ∈ map (fun p => p.1.1) l ->
  via (prog_fold (fun _ p => repairSegment sparseEvery now p) tt l) (repairing P blocks tail)
    (fun r s' => r = Ok tt /\ P (s_disk s') /\ files_ok blocks [] (s_disk s')) s.
Proof using.
  intros HP Hp Hf Hnd Hall Htail.
  assert (exists left, files_ok blocks left (s_disk s) /\ tail_left blocks tail left l) as (left & Hfl & Hl).
  { exists tail. split; [done|]. destruct Htail as [->|Hin]; [by left|by right]. }
  clear Hf Htail. revert left s Hp Hfl Hl Hnd Hall. induction l as [|[[base g] scan] l IH]; intros left s Hp Hf Hl Hnd Hall.
  - apply via_ret. split; [done|]. split; [done|]. destruct Hl as [->|[_ Hin]]; [done|]. by apply elem_of_nil in Hin.
  - apply NoDup_cons in Hnd as [Hni Hnd]. apply Forall_cons in Hall as [(Ha & Hg & Hsc) Hall]. cbn [prog_fold].
    apply via_bind. eapply via_impl; [by eapply via_repairSegment|done|].
    intros r s' (-> & left' & (Hp' & Hf' & Ho') & Hl'). apply (IH left'); [done..|].
    rewrite Forall_forall in Hall |- *. intros [[base' g'] scan'] Hin. destruct (Hall _ Hin) as (Ha' & Hg' & Hsc').
    split; [done|]. split; [|done]. rewrite <- Hg'. apply Ho'. intros ->. apply Hni.
    apply list_elem_of_fmap. by exists (base, g', scan').
Qed.

Lemma bases_spec {A} (m : gmap Z A) base : base ∈ bases m <-> is_Some (m !! base).
Proof using.
  clear. unfold bases. rewrite isort_perm, list_elem_of_fmap. split.
  - intros ([k x] & -> & Hin). apply elem_of_map_to_list in Hin. by exists x.
  - intros [x Hx]. exists (base, x). split; [done|by apply elem_of_map_to_list].
Qed.

Lemma bases_NoDup {A} (m : gmap Z A) : NoDup (bases m).
Proof using. clear. unfold bases. rewrite isort_perm. apply NoDup_fst_map_to_list. Qed.

(** A segment with bytes has a directory. *)
Lemma segment_listed d base : default [] (seg_bin (segment_of d base)) <> [] -> base ∈ bases (d_segs d).
Proof using. clear. intros Hne. apply bases_spec. unfold segment_of in Hne. destruct (d_segs d !! base); [by eexists|done]. Qed.

Lemma slice_bound blocks base : slice blocks base <> [] -> 0 <= base ->
  base + Z.of_nat (length (slice blocks base)) <= Z.of_nat (length blocks).
Proof using.
  clear. intros Hne H0. assert (length (slice blocks base) <> 0)%nat as Hl by (by destruct (slice blocks base)).
  unfold slice in *. rewrite length_take, length_drop in *. lia.
Qed.

Lemma last_slice blocks : blocks <> [] ->
  let base := segBase (Z.of_nat (length blocks) - 1) in
  aligned base /\ slice blocks base <> [] /\ base + Z.of_nat (length (slice blocks base)) = Z.of_nat (length blocks).
Proof using.
  clear. intros Hne base. assert (length blocks <> 0)%nat as Hl by (by destruct blocks).
  destruct (segBase_bounds (Z.of_nat (length blocks) - 1) ltac:(lia)) as (H1 & H2 & H3). fold base in H1, H2, H3.
  assert (base + Z.of_nat (length (slice blocks base)) = Z.of_nat (length blocks)) as E.
  { unfold slice, SEG_SPAN in *. rewrite length_take, length_drop. lia. }
  split; [done|]. split; [|done]. intros En. rewrite En in E. simpl in E. lia.
Qed.

Lemma frames_nonempty bs : bs <> [] -> frames_bytes bs <> [].
Proof using. clear. destruct bs as [|b bs]; [done|]. intros _. done. Qed.

Lemma foldl_max (l : list Z) a : a <= foldl Z.max a l /\ (forall x, x ∈ l -> x <= foldl Z.max a l) /\
  (forall u, a <= u -> (forall x, x ∈ l -> x <= u) -> foldl Z.max a l <= u).
Proof using.
  clear. revert a. induction l as [|y l IH]; intros a; cbn [foldl].
  - split; [lia|]. split; [by intros x ?%elem_of_nil|done].
  - destruct (IH (Z.max a y)) as (H1 & H2 & H3). split; [lia|]. split.
    + intros x [->|Hx]%elem_of_cons; [lia|by apply H2].
    + intros u Ha Hu. apply H3; [|intros x Hx; apply Hu; by right]. pose proof (Hu y ltac:(by left)). lia.
Qed.

(** The head that the scans give is the last block. *)
Lemma global_head blocks tail d l : files_ok blocks tail d -> Forall (prepared_ok blocks tail d) l ->
  map (fun p => p.1.1) l = bases (d_segs d) ->
  foldl (fun h p => Z.max h (fsn_lastN p.2)) (-1) l = Z.of_nat (length blocks) - 1.
Proof using.
  intros Hf Hall Hb.
  assert (foldl (fun h p => Z.max h (fsn_lastN p.2)) (-1) l = foldl Z.max (-1) (map (fun p => fsn_lastN p.2) l)) as ->.
  { generalize (-1). clear. induction l as [|p l IH]; intros a; [done|]. cbn. apply IH. }
  destruct (foldl_max (map (fun p => fsn_lastN p.2) l) (-1)) as (H1 & H2 & H3). rewrite Forall_forall in Hall.
  apply Z.le_antisymm.
  - apply H3; [lia|]. intros x (p & -> & Hp)%list_elem_of_fmap. destruct p as [[base g] scan].
    destruct (Hall _ Hp) as ([Ha _] & _ & (_ & _ & _ & _ & Hl)). cbn [snd]. rewrite Hl.
    destruct (decide _) as [|Hne]; [lia|]. pose proof (slice_bound blocks base Hne Ha). lia.
  - destruct (decide (blocks = [])) as [->|Hne]; [cbn [length]; lia|].
    destruct (last_slice blocks Hne) as (Ha & Hs & Hlen). set (base := segBase _) in *.
    assert (base ∈ map (fun p => p.1.1) l) as Hin.
    { rewrite Hb. apply segment_listed. destruct (fo_segment _ _ _ Hf base Ha) as [-> _].
      intros [E _]%app_eq_nil. by apply frames_nonempty in E. }
    apply list_elem_of_fmap in Hin as ([[base' g] scan] & Eb & Hin). cbn [fst] in Eb. subst base'.
    destruct (Hall _ Hin) as (_ & _ & (_ & _ & _ & _ & Hl)). rewrite decide_False in Hl by done.
    rewrite <- Hlen, <- Hl. apply H2. apply list_elem_of_fmap. by exists (base, g, scan).
Qed.

(** ** The repair *)

Lemma via_rebuildHeads (P : disk -> Prop) h jh th s : heads_at jh th (s_disk s) -> -1 <= h <= MAX_SAFE_INTEGER ->
  P (s_disk s) -> (forall d j, P d -> P (set_heads j d)) -> (forall d t, P d -> P (set_head_txt t d)) ->
  via (rebuildHeads h) (fun d => P d /\ (heads_at h th d \/ heads_at h h d))
    (fun r s' => r = Ok tt /\ P (s_disk s') /\ heads_at h h (s_disk s')) s.
Proof using.
  clear. intros ((fs & Hh & _) & Ht & Hb) Hn HP Hj Htx. unfold rebuildHeads. apply via_bind, via_read. rewrite Hh.
  cbn [assign mbind res_bind]. apply via_bind. set (fs' := put "hash" _ _).
  assert (assoc "head" fs' = jint h /\ assoc "number" fs' = jint h) as [Hhead Hnum]
    by (unfold fs'; by rewrite !assoc_put).
  apply via_effect.
  - split; [by apply Hj|]. left. split; [exists fs'; auto|done].
  - apply via_effect; cbn [s_disk]; [split; [by apply Htx, Hj|right]|split; [done|split; [by apply Htx, Hj|]]];
      (split; [exists fs'; auto|]; split; [by left|lia]).
Qed.

Lemma blocks_height blocks tail d : files_ok blocks tail d -> -1 <= Z.of_nat (length blocks) - 1 <= MAX_SAFE_INTEGER.
Proof using.
  clear. intros Hf. destruct (decide (blocks = [])) as [->|Hne]; [cbn; unfold MAX_SAFE_INTEGER; lia|].
  assert (length blocks <> 0)%nat as Hl by (by destruct blocks).
  destruct (lookup_lt_is_Some_2 blocks (length blocks - 1)) as [b Hb]; [lia|].
  pose proof (sb_height _ _ (fo_blocks _ _ _ Hf _ _ Hb)). lia.
Qed.

Lemma via_autoRepair (W : disk -> Prop) blocks tail jh th s : beside W ->
  (forall d j, W d -> W (set_heads j d)) -> (forall d t, W d -> W (set_head_txt t d)) ->
  W (s_disk s) -> files_ok blocks tail (s_disk s) -> incomplete tail -> heads_at jh th (s_disk s) ->
  let h := Z.of_nat (length blocks) - 1 in
  via (autoRepairDataDir sparseEvery now false)
    (fun d => W d /\ (heads_at jh th d /\ (files_ok blocks tail d \/ files_ok blocks [] d) \/
      files_ok blocks [] d /\ (heads_at h th d \/ heads_at h h d)))
    (fun r s' => r = Ok h /\ W (s_disk s') /\ files_ok blocks [] (s_disk s') /\ heads_at h h (s_disk s')) s.
Proof using.
  intros HW Hj Htx Hw Hf Ht Hh h.
  destruct (map_res_each (scanSegment (s_disk s)) (fun base p => p.1.1 = base /\ prepared_ok blocks tail (s_disk s) p)
    (bases (d_segs (s_disk s)))) as (prepared & Eprep & Hprep).
  { intros base [g Hg]%bases_spec. pose proof (fo_aligned _ _ _ Hf base g Hg) as Ha.
    destruct (scan_segment blocks tail (s_disk s) base) as (scan & E & Hsc); [done..|]. eexists. split; [exact E|]. done. }
  assert (map (fun p => p.1.1) prepared = bases (d_segs (s_disk s))) as Eb
    by (clear -Hprep; induction Hprep as [|? ? ? ? [? _] _ IH]; [done|cbn; by f_equal]).
  assert (Forall (prepared_ok blocks tail (s_disk s)) prepared) as Hall
    by (clear -Hprep; induction Hprep as [|? ? ? ? [_ ?] _ IH]; by constructor).
  unfold autoRepairDataDir. apply via_bind, via_read. rewrite Eprep. rewrite (global_head blocks tail (s_disk s)) by done. fold h.
  apply via_bind. set (P := fun d => W d /\ heads_at jh th d).
  assert (beside P) as HP by (intros d base f [? ?]; split; [by apply HW|done]).
  apply via_bind. eapply via_impl; [apply (via_repair_all P blocks tail); [done|done|done| |done|]|..].
  - rewrite Eb. apply bases_NoDup.
  - destruct tail as [|x tail]; [by left|right]. rewrite Eb. apply segment_listed.
    destruct (segBase_bounds (Z.of_nat (length blocks)) ltac:(lia)) as (_ & _ & Ha).
    destruct (fo_segment _ _ _ Hf _ Ha) as [-> _]. rewrite Z.eqb_refl. by intros [_ ?]%app_eq_nil.
  - intros d [[Hwd Hhd] Hfd]. auto.
  - intros r s1 (-> & [Hw1 Hh1] & Hf1). eapply via_impl.
    + apply (via_rebuildHeads (fun d => W d /\ files_ok blocks [] d) h jh th); [done|by eapply blocks_height|done|..].
      * intros d j [? ?]. split; [by apply Hj|by apply files_heads].
      * intros d t [? ?]. split; [by apply Htx|by apply files_txt].
    + intros d [[? ?] ?]. auto.
    + intros r s2 (-> & [? ?] & ?). apply via_ret. auto.
Qed.

End repair.
