(* ===== verification/SegRecovery.v ===== *)
(** * Recovery of the segment store

    What opening a store does to the files that a killed process left: the head markers are
    reconciled and the log is replayed. *)

From Stdlib Require Import Ascii.
From S2P Require Import Prelude Js JsText Flow CanonicalJson Sha256 JsConvert MerkleRoots JsonParse NodeBuffer.
From S2P Require Import BlockFormat ChainHistory SegFrames SegStore SegInvariant SegSafety SegRepair.

(** ** Records of the log *)

Lemma walRecord_textual ts b n mode ratchet : Z.abs ts <= MAX_SAFE_INTEGER -> Z.abs n <= MAX_SAFE_INTEGER ->
  textual (walRecord ts b n mode ratchet) = true.
Proof.
  intros Ht Hn.
  assert (forall z, Z.abs z <= MAX_SAFE_INTEGER -> bool_decide (is_Some (as_safe_integer (JNum (NInt z)))) = true) as Hz.
  { intros z Hz. apply bool_decide_eq_true. exists z. apply as_safe_integer_Some. split; [done|lia]. }
  unfold walRecord. destruct mode as [| |]; try destruct ratchet; cbn [walVersion app]; unfold textual;
    cbn [printable own_form forallb fst snd jint]; rewrite !(Hz n), !(Hz ts) by done; reflexivity.
Qed.

Section recovery.
Context `{Digest} `{BufferDigest} `{NodeCrypto} `{N : StringNumber} `{!NumberTextLaws N} `{JsonNumber}.
Context (runtimeTruth : json -> res ExpectedProposer) (env : process_env) (sparseEvery now : Z).

(** What a record of a stored block says. *)
Definition faithful (blocks : list json) (c : candidate) : Prop :=
  forall n blk, record_number (c_rec c) = Some n -> recordBlock (c_rec c) = Some blk ->
    exists k, n = Z.of_nat k /\ blocks !! k = Some blk.

Lemma settled_faithful blocks line i c : (forall k b, blocks !! k = Some b -> stored_block k b) ->
  settled blocks line -> parseCandidate i line = Ok c -> faithful blocks c /\ c_index c = i.
Proof using.
  clear. intros Hb (k & b & mode & ratchet & ts & Hk & Ht & ->) Hc. destruct (Hb k b Hk) as [Hsto Hn Hh].
  unfold parseCandidate, record_line in Hc. rewrite parse_stringify in Hc by (apply walRecord_textual; lia).
  unfold default, id in Hc. cbn [from_option] in Hc. set (rec := walRecord ts b (Z.of_nat k) mode ratchet) in *.
  assert (rec.@"n" = jint (Z.of_nat k)) as En by (unfold rec, walRecord; destruct mode; try destruct ratchet; done).
  assert (rec.@"b64" = JStr (to_base64 (json_bytes b))) as Eb by (unfold rec, walRecord; destruct mode; try destruct ratchet; done).
  destruct (is_object rec); rewrite ?En in Hc; cbn [js_Number jint mbind res_bind] in Hc; injection Hc as <-;
    (split; [|done]; intros n blk; cbn [c_rec]; unfold record_number, recordBlock; rewrite En, Eb;
     cbn [js_Number jint valid_n]; rewrite (proj2 (Z.leb_le 0 _)) by lia; intros [= <-];
     destruct (String.eqb _ _); [done|]; rewrite from_to_base64 by apply utf8_is_bytes;
     rewrite parse_json_bytes by apply Hsto; intros [= <-]; by exists k).
Qed.

(** ** The files while the log is replayed *)

(** Files that hold [blocks] and perhaps [b], as a store opens them: in the strict case the
    head markers name the last block. *)
Definition stage (strict : bool) (blocks : list json) (b : json) (d : disk) : Prop :=
  let n := Z.of_nat (length blocks) in
  wal_settled (blocks ++ [b]) d /\ stored_block (length blocks) b /\
  ((files_ok blocks [] d /\ heads_at (n - 1) (n - 1) d) \/
   (files_ok (blocks ++ [b]) [] d /\ heads_at n n d) \/
   (strict = false /\ files_ok (blocks ++ [b]) [] d /\ heads_at (n - 1) (n - 1) d) \/
   (strict = false /\ exists k, (0 < k < length (frame_bytes b))%nat /\ files_ok blocks (take k (frame_bytes b)) d /\
      heads_at (n - 1) (n - 1) d)).

Lemma stage_interrupted strict blocks b d : stage strict blocks b d -> interrupted blocks b d.
Proof using.
  clear. intros (Hw & Hst & Hc). split; [done|]. split; [done|].
  destruct Hc as [[Hf Hh]|[[Hf Hh]|[(_ & Hf & Hh)|(_ & k & Hk & Hf & Hh)]]].
  - left. exists 0%nat. split; [rewrite frame_bytes_length; lia|done].
  - right. split; [done|]. eexists _, _. split; [exact Hh|lia].
  - right. split; [done|]. eexists _, _. split; [exact Hh|lia].
  - left. exists k. split; [lia|done].
Qed.

Lemma stage_head strict blocks b d : stage strict blocks b d ->
  exists h, loadHeadNumber d = Ok h /\ h <= Z.of_nat (length blocks) /\ heads_at h h d /\
    (h = Z.of_nat (length blocks) -> files_ok (blocks ++ [b]) [] d) /\ Z.of_nat (length blocks) - 1 <= h.
Proof using NumberTextLaws0.
  intros (_ & _ & Hc). set (n := Z.of_nat (length blocks)) in *.
  assert (forall h, heads_at h h d -> loadHeadNumber d = Ok h) as Hl
    by (intros h Hh; rewrite (loadHeadNumber_at h h) by done; by rewrite Z.max_id).
  destruct Hc as [[Hf Hh]|[[Hf Hh]|[(_ & Hf & Hh)|(_ & k & Hk & Hf & Hh)]]];
    [exists (n - 1)|exists n|exists (n - 1)|exists (n - 1)]; (split; [by apply Hl|]); (split; [lia|]); (split; [done|]);
    (split; [try done; lia|lia]).
Qed.

Lemma stage_blocks strict blocks b d : stage strict blocks b d -> forall k c, (blocks ++ [b]) !! k = Some c -> stored_block k c.
Proof using.
  clear. intros (_ & Hst & Hc) k c [Hk|[-> ->]]%snoc_lookup; [|done].
  destruct Hc as [[Hf _]|[[Hf _]|[(_ & Hf & _)|(_ & ? & _ & Hf & _)]]]; apply (fo_blocks _ _ _ Hf); try done;
    by apply lookup_app_l_Some.
Qed.

(** Appending the pending block and moving the head. *)
Lemma via_replay_append strict blocks b s : stage strict blocks b (s_disk s) -> files_ok blocks [] (s_disk s) ->
  heads_at (Z.of_nat (length blocks) - 1) (Z.of_nat (length blocks) - 1) (s_disk s) ->
  let n := Z.of_nat (length blocks) in
  via (saveBlockCommit sparseEvery now b n;; persistHeadAtomic n) (interrupted blocks b)
    (fun r s' => stage strict blocks b (s_disk s')) s.
Proof using.
  clear. intros (Hw & Hst & _) Hf Hh n.
  set (P := fun d => wal_settled (blocks ++ [b]) d /\ heads_at (n - 1) (n - 1) d).
  assert (beside P) as HP by (intros d base' f Hd; exact Hd).
  apply via_bind. eapply via_impl; [by apply (via_saveBlockCommit sparseEvery now P blocks b)| |].
  { intros d [[Hwd Hhd] [(k & Hk & Hfk)|Hfa]]; (split; [done|split; [done|]]); [left; eauto|right].
    split; [done|]. eexists _, _. split; [exact Hhd|]. fold n. lia. }
  intros r s1 (-> & [Hw1 Hh1] & Hf1). eapply via_impl; [by apply via_advance|done|].
  intros r s2 (-> & Hwd & Hfd & Hhd). split; [done|]. split; [done|]. right. left. by split.
Qed.

(** Moving the head to the pending block that is already stored. *)
Lemma via_replay_heal strict blocks b s : stage strict blocks b (s_disk s) -> files_ok (blocks ++ [b]) [] (s_disk s) ->
  heads_at (Z.of_nat (length blocks) - 1) (Z.of_nat (length blocks) - 1) (s_disk s) ->
  let n := Z.of_nat (length blocks) in
  via (persistHeadAtomic n) (interrupted blocks b) (fun r s' => stage strict blocks b (s_disk s')) s.
Proof using.
  clear. intros (Hw & Hst & _) Hf Hh n. eapply via_impl; [by apply via_advance|done|].
  intros r s2 (-> & Hwd & Hfd & Hhd). split; [done|]. split; [done|]. right. left. by split.
Qed.

Lemma via_applied_or (I : disk -> Prop) (J : disk -> Prop) m reason s :
  via m I (fun _ s' => J (s_disk s')) s -> via (applied_or m reason) I (fun _ s' => J (s_disk s')) s.
Proof using. clear. intros Hm. unfold applied_or. apply via_bind, via_try. eapply via_impl; [exact Hm|done|]. done. Qed.

(** Reads that may throw leave the files as they are. *)
Lemma via_read_then {A B} (I : disk -> Prop) (J : disk -> Prop) (f : disk -> res A) (k : A -> prog B) s :
  J (s_disk s) -> (forall a, f (s_disk s) = Ok a -> via (k a) I (fun _ s' => J (s_disk s')) s) ->
  via (prog_read f ≫= k) I (fun _ s' => J (s_disk s')) s.
Proof using. clear. intros HJ Hk. apply via_bind, via_read. destruct (f (s_disk s)) eqn:E; [by apply Hk|done]. Qed.

Lemma via_call_then {A B} (I : disk -> Prop) (J : disk -> Prop) (r : res A) (k : A -> prog B) s :
  J (s_disk s) -> (forall a, r = Ok a -> via (k a) I (fun _ s' => J (s_disk s')) s) ->
  via (prog_call r ≫= k) I (fun _ s' => J (s_disk s')) s.
Proof using. clear. intros HJ Hk. apply via_bind, via_call. destruct r eqn:E; [by apply Hk|done]. Qed.

(** Replaying the record of a stored block, or of the pending one. *)
Lemma via_replayCommit strict blocks b k blk mode h s : stage strict blocks b (s_disk s) ->
  loadHeadNumber (s_disk s) = Ok h -> (blocks ++ [b]) !! k = Some blk ->
  via (replayCommit runtimeTruth env sparseEvery now (Z.of_nat k) h blk mode) (interrupted blocks b)
    (fun _ s' => stage strict blocks b (s_disk s')) s.
Proof.
  intros Hs Hh Hk. destruct (stage_head _ _ _ _ Hs) as (h' & Eh & Hle & Hheads & Hall & Hge).
  rewrite Hh in Eh. injection Eh as <-. set (n := Z.of_nat (length blocks)) in *. unfold replayCommit.
  assert (forall f : json -> prog replayed,
    (forall p, via (f p) (interrupted blocks b) (fun _ s' => stage strict blocks b (s_disk s')) s) ->
    via ((if Z.of_nat k =? 0 then mret JNull else prog_read (loadBlock (Z.of_nat k - 1))) ≫= f) (interrupted blocks b)
      (fun _ s' => stage strict blocks b (s_disk s')) s) as Hparent.
  { intros f Hf. destruct (_ =? 0); [apply via_bind, via_ret, Hf|by apply via_read_then]. }
  apply Hparent. intros p. apply via_call_then; [done|]. intros [|reason] _; [|by apply via_ret].
  apply via_read_then; [done|]. intros existing Hex. destruct (Z.leb_spec (Z.of_nat k) h) as [|Hgt]; [by apply via_ret|].
  assert (k = length blocks) as ->.
  { apply lookup_lt_Some in Hk. rewrite length_app in Hk. simpl in Hk. unfold n in *. lia. }
  assert (blk = b) as -> by (rewrite lookup_app_r, Nat.sub_diag in Hk by lia; by injection Hk).
  fold n in Hex, Hgt |- *. assert (h = n - 1) as -> by lia. pose proof Hs as (Hw & Hst & Hc).
  destruct Hc as [[Hf Hhd]|[[Hf Hhd]|[(_ & Hf & Hhd)|(_ & j & Hj & Hf & Hhd)]]].
  - assert (existing = JNull) as ->.
    { rewrite (load_history blocks) in Hex; [|done|split; [lia|apply (sb_height _ _ Hst)]].
      injection Hex as <-. unfold block_at. rewrite (proj2 (Z.ltb_ge _ 0)) by lia. unfold n. rewrite Nat2Z.id.
      by rewrite lookup_ge_None_2. }
    cbn [falsy negb]. apply via_applied_or. by apply via_replay_append.
  - exfalso. pose proof (loadHeadNumber_at n n _ Hhd) as E. rewrite Hh in E. injection E as E. lia.
  - destruct (falsy existing) eqn:Hfalsy; cbn [negb].
    2: { destruct (replayBlockMatchesStoredBlock _ _ _); [apply via_applied_or; by apply via_replay_heal|by apply via_ret]. }
    exfalso. assert (Ok existing = Ok b) as [= ->] by (rewrite <- Hex; by eapply load_stored).
    by rewrite (stored_truthy _ _ Hst) in Hfalsy.
  - exfalso. destruct (load_torn blocks _ (s_disk s) n Hf (torn_prefix b j (sb_storable _ _ Hst) Hj)) as [e He]; [|done|].
    + split; [unfold n; lia|apply (sb_height _ _ Hst)].
    + by rewrite He in Hex.
Qed.

Lemma via_replayRecord strict blocks b base historical c s : stage strict blocks b (s_disk s) ->
  faithful (blocks ++ [b]) c ->
  via (replayRecord runtimeTruth env sparseEvery now base historical c) (interrupted blocks b)
    (fun _ s' => stage strict blocks b (s_disk s')) s.
Proof.
  intros Hs Hc. unfold replayRecord. destruct (negb (known_version _)); [by apply via_ret|].
  destruct (replayMode _) as [[mode ratchet]|]; [|by apply via_ret].
  destruct (record_number (c_rec c)) as [n|] eqn:En; [|by apply via_ret]. destruct (negb (segBase n =? base)); [by apply via_ret|].
  destruct (recordBlock (c_rec c)) as [blk|] eqn:Eb; [|by apply via_ret]. destruct (Hc n blk En Eb) as (k & -> & Hk).
  apply via_call_then; [done|]. intros number _. destruct (negb (bool_decide _)); [by apply via_ret|].
  apply via_read_then; [done|]. intros head Hh. destruct (head + 1 <? Z.of_nat k); [by apply via_ret|].
  destruct ratchet; [by apply via_ret|]. by apply via_replayCommit.
Qed.

(** ** Replay of the log *)

Lemma candidates_faithful blocks i lines cs : (forall k b, blocks !! k = Some b -> stored_block k b) ->
  Forall (settled blocks) lines -> mapi_res parseCandidate i lines = Ok cs -> Forall (faithful blocks) cs.
Proof using.
  clear. intros Hb Hl Hm. revert i cs Hm. induction Hl as [|line lines Hline _ IH]; intros i cs Hm; cbn [mapi_res] in Hm.
  - by injection Hm as <-.
  - destruct (parseCandidate i line) as [c|] eqn:Hc; [|done]. cbn [mbind res_bind] in Hm.
    destruct (mapi_res parseCandidate (S i) lines) as [cs'|] eqn:Hcs; [|done]. injection Hm as <-.
    constructor; [by eapply settled_faithful|by eapply IH].
Qed.

Lemma lines_at_settled blocks keep lines : Forall (settled blocks) lines -> Forall (settled blocks) (lines_at keep lines).
Proof using.
  clear. intros Hl. apply Forall_forall. unfold lines_at. intros x ([i y] & -> & Hin)%list_elem_of_fmap.
  apply list_elem_of_In, filter_In in Hin as [Hin _]. apply in_combine_r in Hin. eapply Forall_forall; [exact Hl|]. by apply list_elem_of_In.
Qed.

(** The log may be replaced by a part of it. *)
Lemma stage_set_wal strict blocks b d w : stage strict blocks b d ->
  (forall base lines, w !! base = Some lines -> Forall (settled (blocks ++ [b])) lines) ->
  stage strict blocks b (set_wal w d).
Proof using.
  clear. intros (_ & Hst & Hc) Hw. split; [exact Hw|]. split; [done|].
  destruct Hc as [[Hf Hh]|[[Hf Hh]|[(Es & Hf & Hh)|(Es & k & Hk & Hf & Hh)]]].
  - left. split; [by eapply files_ext; [|exact Hf]|exact Hh].
  - right; left. split; [by eapply files_ext; [|exact Hf]|exact Hh].
  - right; right; left. split; [done|]. split; [by eapply files_ext; [|exact Hf]|exact Hh].
  - right; right; right. split; [done|]. exists k. split; [done|]. split; [by eapply files_ext; [|exact Hf]|exact Hh].
Qed.

Lemma via_replayWalSeg strict blocks b base s : stage strict blocks b (s_disk s) ->
  via (replayWalSegBestEffort runtimeTruth env sparseEvery now base) (interrupted blocks b)
    (fun _ s' => stage strict blocks b (s_disk s')) s.
Proof.
  intros Hs. unfold replayWalSegBestEffort. apply via_read_then; [done|]. intros lines [= Hlines].
  assert (Forall (settled (blocks ++ [b])) lines) as Hset.
  { subst lines. apply Forall_forall. intros x [Hin _]%list_elem_of_In%filter_In. unfold wal_lines in Hin.
    destruct (d_wal (s_disk s) !! base) as [l|] eqn:E; [|done]. destruct Hs as [Hw _]. eapply Forall_forall; [by apply (Hw base)|].
    by apply list_elem_of_In. }
  apply via_call_then; [done|]. intros cs Hcs. apply via_read_then; [done|]. intros historical _.
  assert (Forall (faithful (blocks ++ [b])) (isort candidate_leb cs)) as Hf.
  { rewrite isort_perm. eapply candidates_faithful; [by eapply stage_blocks|exact Hset|exact Hcs]. }
  apply via_bind. eapply via_impl; [apply (via_fold _ _ (fun l _ s' => Forall (faithful (blocks ++ [b])) l /\
    stage strict blocks b (s_disk s'))); [by split|]|done|].
  - intros c l keep s1 [Hc Hs1]. apply Forall_cons in Hc as [Hc Hl]. unfold replayStep. apply via_bind.
    eapply via_impl; [by apply via_replayRecord|done|]. intros [r|e] s2 Hs2; [by apply via_ret|by exists keep].
  - intros [keep|e] s1 Hs1; [|by destruct Hs1 as (? & ? & ? & ?)]. destruct Hs1 as [_ Hs1].
    pose proof (lines_at_settled (blocks ++ [b]) keep lines Hset) as Hk.
    destruct (lines_at keep lines) as [|x kept];
      (apply via_effect; [eapply stage_interrupted; apply stage_set_wal; [exact Hs1|]|apply stage_set_wal; [exact Hs1|]];
       intros base' l; rewrite ?lookup_delete_Some, ?lookup_insert_Some; destruct Hs1 as [Hw _]; naive_solver).
Qed.

Lemma via_replayAll strict blocks b s : stage strict blocks b (s_disk s) ->
  via (replayWalAllBestEffort runtimeTruth env sparseEvery now) (interrupted blocks b)
    (fun r s' => r = Ok tt /\ stage strict blocks b (s_disk s')) s.
Proof.
  intros Hs. unfold replayWalAllBestEffort. apply via_bind, via_read. generalize (bases (d_wal (s_disk s))). intros l.
  revert s Hs. induction l as [|base l IH]; intros s Hs; cbn [prog_fold]; [by apply via_ret|].
  apply via_bind, via_bind, via_try. eapply via_impl; [by apply via_replayWalSeg|done|]. intros r s' Hs'.
  apply via_ret. by apply IH.
Qed.

(** ** Opening *)

Lemma reconcile_agree h s : heads_at h h (s_disk s) -> reconcileHeads env s = ([], Ok tt, s).
Proof using NumberTextLaws0.
  intros Hh. unfold reconcileHeads, mbind, prog_bind, prog_read. rewrite (txtHead_at h h) by done.
  destruct (jsonHeads_at h h _ Hh) as [-> | ->]; cbn [foldl]; rewrite ?Z.max_id, Z.eqb_refl, !andb_false_r; done.
Qed.

(** Where the markers differ, the process was killed between the two writes of a head. *)
Lemma interrupted_heads blocks b d : interrupted blocks b d -> let n := Z.of_nat (length blocks) in
  (heads_at n (n - 1) d /\ files_ok (blocks ++ [b]) [] d) \/ exists strict, stage strict blocks b d.
Proof using.
  clear. intros (Hw & Hst & [(k & Hk & Hf & Hh)|(Hf & jh & th & Hh & Hle & Hjh)]) n.
  - right. exists false. split; [done|]. split; [done|]. destruct k as [|k]; [by left|]. right; right; right.
    split; [done|]. exists (S k). split; [lia|done].
  - destruct (Z.eq_dec jh th) as [<-|]; [|left; split; [|done]; by replace n with jh by lia; replace (jh - 1) with th by lia].
    right. exists false. split; [done|]. split; [done|]. right. destruct (Z.eq_dec jh n) as [->|]; [by left|]. right; left.
    subst n. split; [done|]. split; [done|]. by replace (Z.of_nat (length blocks) - 1) with jh by lia.
Qed.

(** Opening settles the markers, or holds with the files untouched. *)
Lemma via_reconcile blocks b s : interrupted blocks b (s_disk s) ->
  via (reconcileHeads env) (interrupted blocks b) (fun r s' => match r with
    | Ok _ => exists strict, stage strict blocks b (s_disk s')
    | Throw e => is_hold e = true /\ s' = s end) s.
Proof using NumberTextLaws0.
  intros Hi. pose proof (interrupted_heads blocks b _ Hi) as [[Hh Hf]|[strict Hs]].
  2: { destruct (stage_head _ _ _ _ Hs) as (h & _ & _ & Hh & _). unfold via. rewrite (reconcile_agree h s Hh). split; [done|]. by exists strict. }
  set (n := Z.of_nat (length blocks)) in *. pose proof Hi as (Hw & Hst & _). unfold reconcileHeads.
  apply via_bind, via_read. assert (exists cur, jsonHeads (s_disk s) = Ok cur /\ match cur with [] => -1 | x :: l => foldl Z.max x l end = n)
    as (cur & -> & Hcur) by (destruct (jsonHeads_at _ _ _ Hh) as [-> | ->]; eexists; (split; [done|]); cbn; lia).
  apply via_bind, via_read. rewrite (txtHead_at _ _ _ Hh), Hcur. rewrite (proj2 (Z.eqb_neq (n - 1) n)) by lia.
  rewrite !andb_true_r. assert (0 <= n <= MAX_SAFE_INTEGER) as Hn by (split; [unfold n; lia|apply (sb_height _ _ Hst)]).
  destruct Hh as ((fs & Hfs & Hhead & Hnum) & Ht & Hb). destruct (Z.leb_spec 0 (n - 1)) as [Hpos|Hneg].
  - destruct (alBlockCommitRuntimeRequestedV1 env); [by apply via_throw|]. apply via_bind, via_read.
    unfold readHeads. rewrite Hfs. cbn [falsy]. destruct (assign_heads (n - 1) fs) as (fs' & -> & Hh' & Hn').
    assert (stage false blocks b (set_heads (JObj fs') (s_disk s))) as Hs'.
    { split; [exact Hw|]. split; [done|]. right; right; left. split; [done|]. split; [by apply files_heads|].
      split; [exists fs'; auto|done]. }
    apply via_effect; [by eapply stage_interrupted|by exists false].
  - rewrite (proj2 (Z.leb_le 0 n)) by lia. destruct (alBlockCommitRuntimeRequestedV1 env); [by apply via_throw|].
    assert (stage true blocks b (set_head_txt (headLine n) (s_disk s))) as Hs'.
    { split; [exact Hw|]. split; [done|]. right; left. split; [by apply files_txt|]. split; [exists fs; auto|]. split; [by left|]. fold n. lia. }
    apply via_effect; [by eapply stage_interrupted|by exists true].
Qed.

Lemma interrupted_opened blocks b d : interrupted blocks b d -> missing (d_heads d) = false.
Proof using. clear. intros (_ & _ & [(k & _ & _ & (fs & -> & _) & _)|(_ & jh & th & ((fs & -> & _) & _) & _)]); done. Qed.

Lemma via_open blocks b s : interrupted blocks b (s_disk s) ->
  via (openStore runtimeTruth env sparseEvery now) (interrupted blocks b) (fun r s' => match r with
    | Ok _ => exists strict, stage strict blocks b (s_disk s')
    | Throw e => is_hold e = true /\ s' = s end) s.
Proof.
  intros Hi. unfold openStore. apply via_bind, via_read. rewrite (interrupted_opened blocks b) by done. apply via_bind, via_ret.
  apply via_bind, via_try. eapply via_impl; [by apply via_reconcile|done|]. intros [[]|e] s1 Hs1.
  - destruct Hs1 as [strict Hs1]. apply via_bind, via_ret. eapply via_impl; [by apply (via_replayAll strict blocks b)|done|].
    intros r s2 [-> Hs2]. by exists strict.
  - destruct Hs1 as [He ->]. rewrite He. by apply via_bind, via_throw.
Qed.

(** A directory whose markers agree opens, and they agree again afterwards. *)
Lemma via_open_strict blocks b s : stage true blocks b (s_disk s) ->
  via (openStore runtimeTruth env sparseEvery now) (interrupted blocks b)
    (fun r s' => r = Ok tt /\ stage true blocks b (s_disk s')) s.
Proof.
  intros Hs. destruct (stage_head _ _ _ _ Hs) as (h & _ & _ & Hh & _). unfold openStore. apply via_bind, via_read.
  rewrite (interrupted_opened blocks b) by (by eapply stage_interrupted). apply via_bind, via_ret.
  apply via_bind, via_try. unfold via at 1. rewrite (reconcile_agree h s Hh). split; [done|]. apply via_bind, via_ret.
  by apply via_replayAll.
Qed.

(** ** Repair *)

Lemma torn_incomplete (blocks : list json) b k : stored_block (length blocks) b -> (k < length (frame_bytes b))%nat -> incomplete (take k (frame_bytes b)).
Proof using.
  clear. intros Hst Hk. destruct k as [|k]; [exact incomplete_nil|]. intros o.
  destruct (torn_prefix b (S k) (sb_storable _ _ Hst) ltac:(lia)) as [_ Ht]. specialize (Ht o). by destruct (readFrame _ _).
Qed.

Lemma via_repair blocks b s : interrupted blocks b (s_disk s) ->
  via (autoRepairDataDir sparseEvery now false) (interrupted blocks b)
    (fun r s' => is_ok r = true /\ stage true blocks b (s_disk s')) s.
Proof using.
  clear. intros (Hw & Hst & [(k & Hk & Hf & Hh)|(Hf & jh & th & Hh & Hle & Hjh)]); set (n := Z.of_nat (length blocks)) in *.
  - eapply via_impl; [apply (via_autoRepair sparseEvery now (wal_settled (blocks ++ [b])) blocks (take k (frame_bytes b)) (n - 1) (n - 1));
      try done; [by intros ??? ?..|by eapply torn_incomplete]| |].
    + intros d (Hwd & Hc). split; [done|]. split; [done|]. fold n in Hc |- *.
      assert ((files_ok blocks (take k (frame_bytes b)) d \/ files_ok blocks [] d) /\ heads_at (n - 1) (n - 1) d)
        as [[Hfd|Hfd] Hhd] by (destruct Hc as [[? ?]|[? [?|?]]]; auto); left; [by exists k|].
      exists 0%nat. split; [lia|done].
    + intros r s' (-> & Hwd & Hfd & Hhd). split; [done|]. split; [done|]. split; [done|]. by left.
  - eapply via_impl; [apply (via_autoRepair sparseEvery now (wal_settled (blocks ++ [b])) (blocks ++ [b]) [] jh th);
      try done; by intros ??? ?| |]; rewrite !length_app, Nat2Z.inj_add; fold n; replace (n + Z.of_nat (length [b]) - 1) with n by (simpl; lia).
    + intros d (Hwd & Hc). split; [done|]. split; [done|]. right. fold n in Hc |- *.
      destruct Hc as [[Hhd [Hfd|Hfd]]|[Hfd [Hhd|Hhd]]]; (split; [done|]); eexists _, _; (split; [exact Hhd|lia]).
    + intros r s' (-> & Hwd & Hfd & Hhd). split; [done|]. split; [done|]. split; [done|]. right. by left.
Qed.

End recovery.
