(* ===== verification/SegGuarantees.v ===== *)
(** * Guarantees of the segment store

    What a client of the store relies on, in terms of what it saves and loads: a run of the
    store on its files is a run on a list of blocks, and a process that is killed between two
    system calls of a save, or within the append of a frame, loses at most the block it was
    saving.  Both hold for blocks with a JSON integer as number and with the AL runtime off. *)

From Stdlib Require Import Ascii.
From S2P Require Import Prelude Js JsText Flow CanonicalJson Sha256 JsConvert MerkleRoots JsonParse NodeBuffer.
From S2P Require Import BlockFormat BlockSafety ChainHistory SegFrames SegStore SegInvariant SegSafety SegRepair SegRecovery.

(** ** Runs *)

(** The files in which a process that runs [m] may be killed, or which it leaves. *)
Definition states {A} (m : prog A) (s : store) : list disk := let '(tr, _, s') := m s in s_disk s :: tr ++ [s_disk s'].

Definition result {A} (m : prog A) (s : store) : res A := (m s).1.2.
Definition after {A} (m : prog A) (s : store) : store := (m s).2.

(** A process that starts on the files. *)
Definition start (d : disk) : store := mkStore d ∅.

Lemma via_states {A} (m : prog A) I Q s : via m I Q s -> I (s_disk s) -> (forall r s', Q r s' -> I (s_disk s')) ->
  Forall I (states m s).
Proof.
  unfold via, states. destruct (m s) as [[tr r] s']. intros [Ht Hq] Hs HQ. constructor; [done|].
  apply Forall_app. split; [done|]. constructor; [by eapply HQ|constructor].
Qed.

Lemma via_result {A} (m : prog A) I Q s : via m I Q s -> Q (result m s) (after m s).
Proof. unfold via, result, after. destruct (m s) as [[tr r] s']. by intros [_ Hq]. Qed.

Section guarantees.
Context `{Digest} `{BufferDigest} `{NodeCrypto} `{N : StringNumber} `{!NumberTextLaws N} `{JsonNumber}.

(** Files after any number of processes that opened the directory or repaired it, each killed
    anywhere or not at all. *)
Inductive restarts (d : disk) : disk -> Prop :=
| restarts_none : restarts d d
| restarts_open d1 d2 runtimeTruth env sparseEvery now : restarts d d1 ->
    d2 ∈ states (openStore runtimeTruth env sparseEvery now) (start d1) -> restarts d d2
| restarts_repair d1 d2 sparseEvery now dryRun : restarts d d1 ->
    d2 ∈ states (autoRepairDataDir sparseEvery now dryRun) (start d1) -> restarts d d2.

Context (runtimeTruth : json -> res ExpectedProposer) (env : process_env) (sparseEvery now : Z).

(** A sequence of saves on a list of blocks: the results and the list. *)
Fixpoint history_run (ops : list (method * json)) (blocks : list json) : list (res unit) * list json :=
  match ops with
  | [] => ([], blocks)
  | (m, b) :: ops' =>
      let '(r, blocks1) := match save runtimeTruth env m b blocks with
        | Ok blocks' => (Ok tt, blocks') | Throw e => (Throw e, blocks) end in
      let '(rs, blocks2) := history_run ops' blocks1 in (r :: rs, blocks2)
  end.

(** The same sequence on the store. *)
Fixpoint store_run (ops : list (method * json)) (s : store) : list (res unit) * store :=
  match ops with
  | [] => ([], s)
  | (m, b) :: ops' =>
      let save := saveBy runtimeTruth env sparseEvery now m b in
      let '(rs, s2) := store_run ops' (after save s) in (result save s :: rs, s2)
  end.

(** A store opened on an empty directory. *)
Definition opened : store := after (openStore runtimeTruth env sparseEvery now) (start empty_disk).

(** What a client sees of the files that hold [blocks]. *)
Definition shows (blocks : list json) (d : disk) : Prop :=
  loadHeadNumber d = Ok (Z.of_nat (length blocks) - 1) /\
  forall n, 0 <= n <= MAX_SAFE_INTEGER -> loadBlock n d = Ok (block_at blocks n).

Lemma files_show blocks h d : files_ok blocks [] d -> heads_at h h d -> h = Z.of_nat (length blocks) - 1 -> shows blocks d.
Proof using NumberTextLaws0.
  intros Hf Hh ->. split; [|intros; by apply load_history].
  rewrite (loadHeadNumber_at _ _ _ Hh). by rewrite Z.max_id.
Qed.

Lemma opened_at_rest : alBlockCommitRuntimeRequestedV1 env = false -> at_rest [] (s_disk opened).
Proof using NumberTextLaws0.
  intros Hal. set (s1 := mkStore (set_heads newHeads empty_disk) ∅).
  assert (at_rest [] (s_disk s1)) as Hr.
  { split.
    - split; [done|intros base g Hg; exfalso; exact (lookup_empty_Some (M := gmap Z) base g Hg)|]. intros base _. unfold slice. rewrite drop_nil, take_nil.
      by case_match.
    - split; [eexists; split; [done|by split; [|right]]|]. split; [by right|]. cbn. unfold MAX_SAFE_INTEGER. lia.
    - intros base lines Hl. exfalso. exact (lookup_empty_Some (M := gmap Z) base lines Hl). }
  refine (via_result _ (fun _ => True) (fun _ s' => at_rest [] (s_disk s')) _ _). unfold openStore.
  apply via_bind, via_read. cbn [start s_disk d_heads empty_disk missing]. rewrite Hal. apply via_bind, via_effect; [done|].
  fold s1. apply via_bind, via_try. unfold via at 1. rewrite (reconcile_agree env (-1) s1) by apply Hr. split; [done|].
  apply via_bind, via_ret. unfold replayWalAllBestEffort. by apply via_bind, via_read, via_ret.
Qed.

Context (Hnow : Z.abs now <= MAX_SAFE_INTEGER).

(** A run of the store is a run on the list. *)
Lemma run_at_rest ops blocks s : Forall (fun op => sound_block op.2) ops -> at_rest blocks (s_disk s) ->
  (store_run ops s).1 = (history_run ops blocks).1 /\ at_rest (history_run ops blocks).2 (s_disk (store_run ops s).2).
Proof.
  intros Hops. revert blocks s. induction Hops as [|[m b] ops Hb _ IH]; intros blocks s Hr; [done|].
  pose proof (save_refines runtimeTruth env sparseEvery now Hnow blocks b m s Hr Hb) as Href.
  cbn [store_run history_run]. unfold result, after.
  destruct (save runtimeTruth env m b blocks) as [blocks'|e].
  - destruct Href as [[-> Href]|(-> & _ & Href)].
    + rewrite Href. cbn [fst snd]. destruct (IH blocks s Hr) as [IH1 IH2].
      destruct (store_run ops s), (history_run ops blocks). simpl in *. by subst.
    + unfold via in Href. destruct (saveBy _ _ _ _ _ _ _) as [[tr r] s']. destruct Href as (_ & -> & Hr'). cbn [fst snd].
      destruct (IH _ s' Hr') as [IH1 IH2]. destruct (store_run ops s'), (history_run ops (blocks ++ [b])). simpl in *. by subst.
  - rewrite Href. cbn [fst snd]. destruct (IH blocks s Hr) as [IH1 IH2].
    destruct (store_run ops s), (history_run ops blocks). simpl in *. by subst.
Qed.

(** ** Killed processes *)

Lemma at_rest_interrupted blocks b d : at_rest blocks d -> stored_block (length blocks) b -> interrupted blocks b d.
Proof using.
  clear. intros [Hf Hh Hw] Hst. split; [by apply wal_settled_app|]. split; [done|]. left. exists 0%nat.
  split; [rewrite frame_bytes_length; lia|done].
Qed.

Lemma at_rest_after blocks b d : at_rest (blocks ++ [b]) d -> stored_block (length blocks) b -> interrupted blocks b d.
Proof using.
  clear. intros [Hf Hh Hw] Hst. split; [done|]. split; [done|]. right. split; [done|]. eexists _, _. split; [exact Hh|].
  rewrite length_app, Nat2Z.inj_add. cbn [length Z.of_nat]. lia.
Qed.

Lemma save_states blocks b m s d : at_rest blocks (s_disk s) -> sound_block b ->
  save runtimeTruth env m b blocks = Ok (blocks ++ [b]) -> d ∈ states (saveBy runtimeTruth env sparseEvery now m b) s ->
  interrupted blocks b d.
Proof.
  intros Hr Hb Hs Hd. pose proof (save_refines runtimeTruth env sparseEvery now Hnow blocks b m s Hr Hb) as Href.
  rewrite Hs in Href. destruct Href as [[Habs _]|(_ & Hst & Hvia)].
  - exfalso. apply (f_equal length) in Habs. rewrite length_app in Habs. simpl in Habs. lia.
  - revert d Hd. apply Forall_forall. eapply via_states; [exact Hvia|by apply at_rest_interrupted|].
    intros r s' [_ Hr']. by apply at_rest_after.
Qed.

Lemma restarts_interrupted blocks b d d' : restarts d d' -> interrupted blocks b d -> interrupted blocks b d'.
Proof using NumberTextLaws0.
  clear runtimeTruth env sparseEvery now Hnow. intros Hre Hi. induction Hre as [|d1 d2 truth env' every now' _ IH Hd|d1 d2 every now' [|] _ IH Hd]; [done|..].
  - revert d2 Hd. apply Forall_forall. eapply via_states; [by apply via_open|exact IH|].
    intros [u|e] s' Hs; [destruct Hs as [? Hs]; by eapply stage_interrupted|by destruct Hs as [_ ->]].
  - unfold states, autoRepairDataDir, mbind, prog_bind, prog_read in Hd. destruct (map_res _ _); cbn in Hd; set_solver.
  - revert d2 Hd. apply Forall_forall. eapply via_states; [by apply via_repair|exact IH|].
    intros r s' [_ Hs]. by eapply stage_interrupted.
Qed.

Lemma interrupted_loads blocks b d k c : interrupted blocks b d -> blocks !! k = Some c -> loadBlock (Z.of_nat k) d = Ok c.
Proof using.
  clear. intros (_ & _ & [(j & _ & Hf & _)|[Hf _]]) Hk; (eapply load_stored; [exact Hf|]); [done|by apply lookup_app_l_Some].
Qed.

Lemma stage_shows blocks b d : stage true blocks b d -> shows blocks d \/ shows (blocks ++ [b]) d.
Proof using NumberTextLaws0.
  clear now Hnow. intros (_ & _ & [[Hf Hh]|[[Hf Hh]|[[? _]|[? _]]]]); [left|right|done|done]; (eapply files_show; [done..|]); [done|].
  rewrite length_app, Nat2Z.inj_add. cbn [length Z.of_nat]. lia.
Qed.

(** ** Properties *)

(** C14: The store on its files behaves as the list of its blocks: for any sequence of saves
    into a new directory, by any of the methods, of blocks that JSON text gives back and whose
    number is a JSON integer ([sound_block]), with the runtime that commits blocks for the AL
    layer not requested, every save returns or throws exactly what the same save on the list
    of blocks does, and afterwards the head number and the block loaded at any height are
    those of the list.  A block whose number is text is accepted by the checks as well and
    breaks this, as [text_number_blocks_store] records. *)
Theorem store_refines_history (ops : list (method * json)) :
  alBlockCommitRuntimeRequestedV1 env = false -> Forall (fun op => sound_block op.2) ops ->
  (store_run ops opened).1 = (history_run ops []).1 /\
  shows (history_run ops []).2 (s_disk (store_run ops opened).2).
Proof.
  intros Hal Hops. destruct (run_at_rest ops [] opened Hops (opened_at_rest Hal)) as [Hres Hr]. split; [done|].
  eapply files_show; [apply Hr|apply Hr|done].
Qed.

(** C13: A killed process loses at most the block it was saving: kill a save between any two
    system calls, or within the append of the frame to [blocks.bin], then open or repair the
    directory any number of times, each killed at points of the same kind.  Every block saved
    before still loads.  A repair and an opening that are not killed succeed, and the store
    then shows exactly the blocks saved before, or those and the new one.  The blocks are ones
    that JSON text gives back, with a number that is a JSON integer ([sound_block]), and the
    runtime that commits blocks for the AL layer is not requested; a line of the log or of an
    index is appended entirely or not at all, so that a kill within such a line is not among
    the points. *)
Theorem killed_save_recovers (ops : list (method * json)) (m : method) (b : json) (d1 d2 : disk)
    (runtimeTruth' : json -> res ExpectedProposer) (env' : process_env) (sparseEvery' now' : Z) :
  let s := (store_run ops opened).2 in
  let blocks := (history_run ops []).2 in
  let repaired := autoRepairDataDir sparseEvery' now' false in
  let reopened := openStore runtimeTruth' env' sparseEvery' now' in
  alBlockCommitRuntimeRequestedV1 env = false -> Forall (fun op => sound_block op.2) ops -> sound_block b ->
  save runtimeTruth env m b blocks = Ok (blocks ++ [b]) ->
  d1 ∈ states (saveBy runtimeTruth env sparseEvery now m b) s -> restarts d1 d2 ->
  (forall k c, blocks !! k = Some c -> loadBlock (Z.of_nat k) d2 = Ok c) /\
  is_ok (result repaired (start d2)) = true /\
  let d3 := s_disk (after repaired (start d2)) in
  result reopened (start d3) = Ok tt /\
  let d4 := s_disk (after reopened (start d3)) in
  shows blocks d4 \/ shows (blocks ++ [b]) d4.
Proof.
  intros s blocks repaired reopened Hal Hops Hb Hs Hd1 Hre.
  destruct (run_at_rest ops [] opened Hops (opened_at_rest Hal)) as [_ Hr]. fold s blocks in Hr.
  pose proof (save_states blocks b m s d1 Hr Hb Hs Hd1) as Hi. apply (restarts_interrupted _ _ _ _ Hre) in Hi.
  split; [intros k c; by eapply interrupted_loads|].
  destruct (via_result _ _ _ _ (via_repair sparseEvery' now' blocks b (start d2) Hi)) as [Hok H3]. split; [done|]. intros d3.
  destruct (via_result _ _ _ _ (via_open_strict runtimeTruth' env' sparseEvery' now' blocks b (start d3) H3)) as [Hopen H4].
  split; [exact Hopen|]. by eapply stage_shows.
Qed.

(** C29: A torn frame fails closed: where a segment ends in a part of a frame, the stored
    blocks still load, no height above them in that segment loads, and no method saves a
    block at the next height or changes a file. *)
Theorem torn_frame_fails_closed (blocks : list json) (b c : json) (k : nat) (m : method) (d : disk) (n : Z) :
  let next := Z.of_nat (length blocks) in
  files_ok blocks (take k (frame_bytes b)) d -> heads_at (next - 1) (next - 1) d -> storable b ->
  (0 < k < length (frame_bytes b))%nat -> next <= n <= MAX_SAFE_INTEGER -> segBase n = segBase next ->
  blockHeight c = Ok n ->
  (forall i old, blocks !! i = Some old -> loadBlock (Z.of_nat i) d = Ok old) /\
  exists e, loadBlock n d = Throw e /\ saveBy runtimeTruth env sparseEvery now m c (start d) = ([], Throw e, start d).
Proof using NumberTextLaws0.
  intros next Hf Hh Hb Hk Hn Hseg Hc. split; [intros; by eapply load_stored|].
  destruct (load_torn blocks _ d n Hf (torn_prefix b k Hb Hk) Hn Hseg) as [e He]. exists e. split; [done|].
  unfold saveBy, saveCanonicalBlockByModeV1, mbind, prog_bind, prog_call, prog_read. rewrite Hc. cbn [start s_disk].
  by rewrite (loadHeadNumber_at _ _ _ Hh), He.
Qed.

End guarantees.

(** ** A concrete store *)

Module SegSample.
Import BlockSample HistorySample.

(** Numbers in plain digits. *)
Definition digits : StringNumber := fun s =>
  match parse_number (H := fun t => NOther t) s with Some (JNum (NInt z), EmptyString) => Integer z | _ => NotANumber end.

#[local] Instance texts : JsonNumber := fun t => NOther t.

#[local] Instance digits_laws : NumberTextLaws digits.
Proof.
  intros z Hz. unfold Number_text, digits. rewrite <- (sapp_nil_r (int_text z)).
  by rewrite parse_number_int.
Qed.

Abbreviation minimal_op n := (saveAuthorizedMainnet0GenesisMinimalV1, minimal n).

Definition no_env : process_env := fun _ => None.

(** A directory with one block, the process that saves a second, and the files after the
    killed save and after a killed opening. *)
Definition one_block : store := Eval vm_compute in
  (@store_run flat poly_buffer trusting digits texts no_truth no_env 2 5 [minimal_op 0]
    (@opened flat poly_buffer trusting digits texts no_truth no_env 2 5)).2.

Definition killed (k : nat) : disk :=
  default empty_disk (states (@saveBy flat poly_buffer trusting digits texts no_truth no_env 2 5
    saveAuthorizedMainnet0GenesisMinimalV1 (minimal 1)) one_block !! k).

Lemma minimal_sound n : (n < 3)%nat -> sound_block (minimal (Z.of_nat n)).
Proof.
  intros Hn. destruct n as [|[|[|n]]]; [..|lia];
    (split; [split; [reflexivity|by vm_compute]|by eexists]).
Qed.

Lemma store_refines_history_witness :
  (@store_run flat poly_buffer trusting digits texts no_truth no_env 2 5 [minimal_op 0; minimal_op 2; minimal_op 1]
    (@opened flat poly_buffer trusting digits texts no_truth no_env 2 5)).1 =
  [Ok tt; Throw ("SegStore.saveAuthorizedMainnet0GenesisMinimalV1: invalid block: mainnet0_minimal_missing_parent_block"); Ok tt].
Proof.
  destruct (@store_refines_history flat poly_buffer trusting digits digits_laws texts no_truth no_env 2 5
    ltac:(unfold MAX_SAFE_INTEGER; lia) [minimal_op 0; minimal_op 2; minimal_op 1]) as [-> _].
  - reflexivity.
  - rewrite !Forall_cons. split_and!; [exact (minimal_sound 0 ltac:(lia))|exact (minimal_sound 2 ltac:(lia))|exact (minimal_sound 1 ltac:(lia))|constructor].
  - vm_compute. reflexivity.
Defined.

(** Killed in the middle of the frame; a process that opened the directory was killed too. *)
Lemma killed_save_recovers_witness :
  @loadBlock texts 0 (killed 12) = Ok (minimal 0) /\
  is_ok (@loadBlock texts 1 (killed 12)) = false /\
  is_ok (result (@autoRepairDataDir texts 4 7 false) (start (killed 12))) = true.
Proof.
  destruct (@killed_save_recovers flat poly_buffer trusting digits digits_laws texts no_truth no_env 2 5
    ltac:(unfold MAX_SAFE_INTEGER; lia) [minimal_op 0] saveAuthorizedMainnet0GenesisMinimalV1 (minimal 1)
    (killed 12) (killed 12) no_truth no_env 4 7) as (Hload & Hrep & _).
  - reflexivity.
  - rewrite !Forall_cons. split; [exact (minimal_sound 0 ltac:(lia))|constructor].
  - exact (minimal_sound 1 ltac:(lia)).
  - vm_compute. reflexivity.
  - change ((store_run _ _ _ _ _ _).2) with one_block. apply list_elem_of_lookup_2 with 12%nat. vm_compute. reflexivity.
  - eapply (restarts_open _ _ _ no_truth no_env 2 6); [constructor|]. apply list_elem_of_lookup_2 with 0%nat. vm_compute. reflexivity.
  - split; [exact (Hload 0%nat (minimal 0) eq_refl)|]. split; [vm_compute; reflexivity|exact Hrep].
Defined.

Lemma one_block_at_rest : @at_rest texts [minimal 0] (s_disk one_block).
Proof.
  refine (proj2 (@run_at_rest flat poly_buffer trusting digits digits_laws texts no_truth no_env 2 5
    ltac:(unfold MAX_SAFE_INTEGER; lia) [minimal_op 0] [] (@opened flat poly_buffer trusting digits texts no_truth no_env 2 5) _ _)).
  - rewrite !Forall_cons. split; [exact (minimal_sound 0 ltac:(lia))|constructor].
  - by apply opened_at_rest.
Qed.

Lemma torn_frame_fails_closed_witness : exists e, @loadBlock texts 1 (killed 12) = Throw e.
Proof.
  destruct (@torn_frame_fails_closed flat poly_buffer trusting digits digits_laws texts no_truth no_env 2 5
    [minimal 0] (minimal 1) (minimal 1) 11 saveAuthorizedMainnet0GenesisMinimalV1
    (edit_segment 0 (fun g => with_bin (default [] (seg_bin g) ++ take 11 (frame_bytes (minimal 1))) g) (s_disk one_block)) 1)
    as (_ & e & He & _).
  - apply (files_append_part [minimal 0]), one_block_at_rest.
  - apply one_block_at_rest.
  - apply (minimal_sound 1). lia.
  - vm_compute. lia.
  - cbn. unfold MAX_SAFE_INTEGER. lia.
  - reflexivity.
  - reflexivity.
  - exists e. rewrite <- He. vm_compute. reflexivity.
Defined.

(** Killed once the record of a modern block is in the log: the next process appends it. *)
Definition pending : disk :=
  default empty_disk (states (@saveBy flat poly_buffer trusting digits texts no_truth no_env 2 5 saveBlock (modern 1)) one_block !! 1%nat).

Example pending_block_replayed :
  let opening := @openStore flat poly_buffer trusting digits texts no_truth no_env 2 9 in
  @loadBlock texts 1 pending = Ok JNull /\ result opening (start pending) = Ok tt /\
  @loadBlock texts 1 (s_disk (after opening (start pending))) = Ok (modern 1) /\
  @loadHeadNumber digits (s_disk (after opening (start pending))) = Ok 1 /\
  d_wal (s_disk (after opening (start pending))) = ∅.
Proof. vm_compute. done. Qed.

(** A block whose number is text. *)
Definition spelled : json := match modern 1 with JObj fs => JObj (put "number" "1" fs) | j => j end.

(** The store does not require the number of a block to be a number: a modern block whose
    number is a text of digits is saved and becomes the head, but its frame is one that no
    reader accepts, so that it cannot be loaded, no block can be saved above it, and the
    repair of the directory throws. *)
Theorem text_number_blocks_store :
  let save b := @saveBy flat poly_buffer trusting digits texts no_truth no_env 2 5 saveBlock b in
  let s := after (save spelled) one_block in
  result (save spelled) one_block = Ok tt /\ @loadHeadNumber digits (s_disk s) = Ok 1 /\
  is_ok (@loadBlock texts 1 (s_disk s)) = false /\
  is_ok (result (save (modern 2)) s) = false /\
  is_ok (result (@autoRepairDataDir texts 2 5 false) (start (s_disk s))) = false.
Proof. vm_compute. done. Qed.

End SegSample.
