(* ===== verification/Receipts.v ===== *)
(** * The receipts store

    Model of the class [ReceiptsStore] of [src/chain/receipts.ts]: receipts of transactions in
    shards of lines of JSON, with a cache in memory.

    The directory is its entries in the order in which it lists them.  An append writes a
    temporary file and renames it over a shard; the directories it leaves on the way are
    recorded, with the temporary file at every length.  What is modelled of an append here is its
    part under the append lock, for one process; [ReceiptLock] models the lock, failing calls
    and abort signals.  The stamps that detect a shard replaced while it is read are not
    modelled.  A file is decoded as UTF-8 of code units below 256.  The faults of [faultAtV1] are modelled.
    [Date.now()] and the name of the temporary file are arguments. *)

From Stdlib Require Import Ascii.
From S2P Require Import Prelude Js JsText Flow CanonicalJson Sha256 JsConvert MerkleRoots JsonParse TextLines NodeBuffer.

(** ** Data *)

Record Receipt := mkReceipt { r_h : string; r_n : Z; r_o : Z; r_ts : Z }.

#[export] Instance Receipt_eq : EqDecision Receipt.
Proof. solve_decision. Defined.

Inductive ReceiptAppendFaultV1 : Type :=
| before_first_byte | after_strict_prefix | after_full_bytes | before_directory_sync | after_publish.

Definition MAX_RECEIPT_SHARD_BYTES_V1 : Z := 16 * 1024 * 1024.
Definition MAX_RECEIPT_HISTORY_SCAN_BYTES_V1 : Z := 128 * 1024 * 1024.
Definition MAX_RECEIPT_SHARD_FILES_V1 : Z := 4096.
Definition MAX_RECEIPT_DIRECTORY_ENTRIES_V1 : Z := 8192.
Definition RECEIPT_READ_CHUNK_BYTES_V1 : Z := 64 * 1024.

Definition directory : Type := list (string * list Z).

Definition size_of (bytes : list Z) : Z := Z.of_nat (length bytes).

Definition file_of (name : string) (d : directory) : option (list Z) :=
  snd <$> List.find (fun f => String.eqb f.1 name) d.

(** A rename over [name] *)
Fixpoint put_file (name : string) (bytes : list Z) (d : directory) : directory :=
  match d with
  | [] => [(name, bytes)]
  | f :: d' => if String.eqb f.1 name then (name, bytes) :: d' else f :: put_file name bytes d'
  end.

(** What the cache knows of a receipt *)
Record hit := mkHit { hit_n : json; hit_o : json; hit_ts : json }.

Definition hit_of (r : Receipt) : hit := mkHit (jint (r_n r)) (jint (r_o r)) (jint (r_ts r)).

Record receipts := mkReceipts { rs_dir : directory; rs_mem : gmap string hit }.

(** ** Names of shards *)

(** [/^receipts-\d{8}\.jsonl$/] *)
Definition shard_digits (name : string) : string := slice 9 17 name.

Definition is_shard_name (name : string) : bool :=
  String.eqb (slice 0 9 name) "receipts-" && (String.length (shard_digits name) =? 8)%nat &&
  string_forallb is_digit (shard_digits name) && String.eqb (slice_from 17 name) ".jsonl".

Definition shard_base (name : string) : Z := digits_value (shard_digits name).

Definition shard_name (base : Z) : string := "receipts-" +:+ padStart8 (int_text base) +:+ ".jsonl".

Definition listStep (acc : Z * list string) (name : string) : res (Z * list string) :=
  let '(entries, files) := acc in
  let entries := entries + 1 in
  throw_if (MAX_RECEIPT_DIRECTORY_ENTRIES_V1 <? entries) "receipt directory exceeds 8192 bounded entries";;
  let files := if is_shard_name name then files ++ [name] else files in
  throw_if (MAX_RECEIPT_SHARD_FILES_V1 <? Z.of_nat (length files)) "receipt history exceeds 4096 bounded shards";;
  Ok (entries, files).

Definition shardFilesV1 (d : directory) : res (list string) :=
  '(_, files) ← foldM listStep (0, []) d.*1; Ok (isort str_leb files).

(** ** Reading shards *)

Section store.
Context `{StringNumber} `{JsonNumber}.

Definition safe_least (least : Z) (v : json) : option Z :=
  match as_safe_integer v with Some z => if least <=? z then Some z else None | None => None end.

Definition parseReceiptLineV1 (line file : string) : res Receipt :=
  match JSON_parse line with
  | None => Throw ("receipt shard contains malformed JSONL: " +:+ file)
  | Some parsed =>
      match parsed with
      | JObj _ =>
          match parsed.@"h", safe_least 0 (parsed.@"n"), safe_least 0 (parsed.@"o"), safe_least 1 (parsed.@"ts") with
          | JStr h, Some n, Some o, Some ts =>
              throw_if (negb (is_hex64 h)) ("receipt shard contains an invalid receipt: " +:+ file);;
              Ok (mkReceipt h n o ts)
          | _, _, _, _ => Throw ("receipt shard contains an invalid receipt: " +:+ file)
          end
      | _ => Throw ("receipt shard contains an invalid receipt: " +:+ file)
      end
  end.

Record scan := mkScan {
  sc_admittedBytes : Z; sc_seenHashes : gset string; sc_hits : gmap string Receipt;
  sc_lineCounts : gmap string Z; sc_activeContent : string
}.

Definition scanLine (wantedHashes : list string) (file : string) (acc : Z * gset string * gmap string Receipt) (line : string)
    : res (Z * gset string * gmap string Receipt) :=
  let '(lines, seenHashes, hits) := acc in
  if String.eqb line EmptyString then Ok acc else
  throw_if (RECEIPT_READ_CHUNK_BYTES_V1 <? size_of (utf8_bytes line)) ("receipt shard contains an oversized line: " +:+ file);;
  receipt ← parseReceiptLineV1 line file;
  throw_if (bool_decide (r_h receipt ∈ seenHashes)) ("receipt shard contains a duplicate receipt: " +:+ r_h receipt);;
  Ok (lines + 1, {[r_h receipt]} ∪ seenHashes,
    if bool_decide (r_h receipt ∈ wantedHashes) then <[r_h receipt := receipt]> hits else hits).

Definition scanFile (wantedHashes : list string) (activeFile : option string) (d : directory) (s : scan) (file : string)
    : res scan :=
  bytes ← match file_of file d with Some bytes => Ok bytes | None => Throw "ENOENT" end;
  throw_if (MAX_RECEIPT_SHARD_BYTES_V1 <? size_of bytes) ("receipt shard is not a bounded regular file: " +:+ file);;
  throw_if (MAX_RECEIPT_HISTORY_SCAN_BYTES_V1 <? sc_admittedBytes s + size_of bytes)
    "receipt history scan exceeds 134217728 bytes";;
  text ← match from_utf8 bytes with
    | Some text => Ok text
    | None => Throw ("receipt shard contains invalid UTF-8: " +:+ file)
    end;
  throw_if (negb (String.eqb text EmptyString) && negb (ends_line text)) ("receipt shard has a torn suffix: " +:+ file);;
  '(lines, seenHashes, hits) ← foldM (scanLine wantedHashes file) (0, sc_seenHashes s, sc_hits s) (split_lines text);
  Ok (mkScan (sc_admittedBytes s + size_of bytes) seenHashes hits (<[file := lines]> (sc_lineCounts s))
    (if bool_decide (activeFile = Some file) then text else sc_activeContent s)).

Definition scanReceiptHistoryV1 (wantedHashes files : list string) (d : directory) : res scan :=
  foldM (scanFile wantedHashes (last files) d) (mkScan 0 ∅ ∅ ∅ EmptyString) (reverse files).

(** ** Appending *)

(** [clock i] is what [Date.now()] says while the item at index [i] of a batch is read. *)
Context (shardSpan : Z) (clock : nat -> Z).

(** [String(value || "").toLowerCase()] *)
Definition hash_text (v : json) : res string :=
  text ← js_String (if falsy v then JStr EmptyString else v); Ok (toLowerCase text).

Definition safe_number (least : Z) (n : number) : option Z :=
  match n with Integer z => if (least <=? z) && (z <=? MAX_SAFE_INTEGER) then Some z else None | _ => None end.

(** One receipt of a batch, [None] where the filter drops it. *)
Definition normalizeReceipt (index : nat) (r : json) : res (option Receipt) :=
  throw_if (match r with JNull | JUndefined => true | _ => false end) "TypeError";;
  h ← hash_text (r.@"h");
  n ← js_Number (r.@"n");
  o ← js_Number (r.@"o");
  ts ← js_Number (r.@"ts");
  let ts := match ts with NotANumber | Integer 0 => Integer (clock index) | _ => ts end in
  Ok (match safe_number 0 n, safe_number 0 o, safe_number 1 ts with
      | Some n, Some o, Some ts => if is_hex64 h then Some (mkReceipt h n o ts) else None
      | _, _, _ => None
      end).

Definition find_receipt (h : string) (l : list Receipt) : option Receipt := List.find (fun r => String.eqb (r_h r) h) l.

(** The map of the batch by hash, in insertion order. *)
Definition batchStep (normalizedByHash : list Receipt) (receipt : Receipt) : res (list Receipt) :=
  match find_receipt (r_h receipt) normalizedByHash with
  | Some prior =>
      throw_if (negb (bool_decide (prior = receipt))) ("receipt batch contains conflicting duplicates: " +:+ r_h receipt);;
      Ok normalizedByHash
  | None => Ok (normalizedByHash ++ [receipt])
  end.

Definition normalizeBatch (arr : list json) : res (list Receipt) :=
  all ← mapi_res normalizeReceipt 0 arr; foldM batchStep [] (omap id all).

Definition pendingStep (durable : gmap string Receipt) (pending : list Receipt) (receipt : Receipt) : res (list Receipt) :=
  match durable !! r_h receipt with
  | Some prior =>
      throw_if (negb (bool_decide (prior = receipt))) ("durable receipt conflicts with retry: " +:+ r_h receipt);;
      Ok pending
  | None => Ok (pending ++ [receipt])
  end.

Definition receipt_json (r : Receipt) : json :=
  JObj ["h" ~> r_h r; "n" ~> jint (r_n r); "o" ~> jint (r_o r); "ts" ~> jint (r_ts r)].

Definition receipt_line (r : Receipt) : string := default EmptyString (stringify (receipt_json r)).

(** The shard that is published and its content. *)
Definition publication (shardFiles : list string) (s : scan) (pending : list Receipt) : res (string * list Z) :=
  let file := default "receipts-00000000.jsonl"%string (last shardFiles) in
  let before := match shardFiles with [] => EmptyString | _ => sc_activeContent s end in
  let suffix := lines_text (map receipt_line pending) in
  let payload := utf8_bytes (before +:+ suffix) in
  let activeLines := default 0 (sc_lineCounts s !! file) in
  '(file, payload) ←
    if negb (bool_decide (shardFiles = [])) &&
       ((shardSpan <? activeLines + Z.of_nat (length pending)) || (MAX_RECEIPT_SHARD_BYTES_V1 <? size_of payload))
    then
      throw_if (MAX_RECEIPT_SHARD_FILES_V1 <=? Z.of_nat (length shardFiles)) "receipt history exceeds 4096 bounded shards";;
      let nextBase := shard_base file + shardSpan in
      throw_if ((MAX_SAFE_INTEGER <? Z.abs nextBase) || (99999999 <? nextBase)) "receipt shard namespace is exhausted";;
      Ok (shard_name nextBase, utf8_bytes suffix)
    else Ok (file, payload);
  throw_if (MAX_RECEIPT_SHARD_BYTES_V1 <? size_of payload) "receipt shard publication exceeds 16777216 bytes";;
  Ok (file, payload).

(** What an append does before it writes: the receipts to publish, or none. *)
Definition planAppend (arr : json) (d : directory) : res (option (list Receipt * (string * list Z))) :=
  match arr with
  | JArr [] => Ok None
  | JArr items =>
      normalizedByHash ← normalizeBatch items;
      if bool_decide (normalizedByHash = []) then Ok None else
      shardFiles ← shardFilesV1 d;
      s ← scanReceiptHistoryV1 (map r_h normalizedByHash) shardFiles d;
      pending ← foldM (pendingStep (sc_hits s)) [] normalizedByHash;
      if bool_decide (pending = []) then Ok None else
      target ← publication shardFiles s pending;
      Ok (Some (pending, target))
  | _ => Ok None
  end.

Definition remember (pending : list Receipt) (mem : gmap string hit) : gmap string hit :=
  foldl (fun mem r => <[r_h r := hit_of r]> mem) mem pending.

(** The write of the temporary file and its rename: the directories on the way, the result
    and the store. *)
Definition publish (temp : string) (fault : option ReceiptAppendFaultV1) (pending : list Receipt) (target : string * list Z)
    (s : receipts) : list directory * res unit * receipts :=
  let '(file, payload) := target in
  let d := rs_dir s in
  let written k := d ++ [(temp, take k payload)] in
  let all := map written (seq 0 (S (length payload))) in
  let d' := put_file file payload d in
  match fault with
  | Some before_first_byte => ([], Throw "VOID_RECEIPT_APPEND_FAULT_BEFORE_FIRST_BYTE_V1", s)
  | Some after_strict_prefix =>
      (map written (seq 0 (S (Nat.max 1 (length payload / 2)))) ++ [d], Throw "VOID_RECEIPT_APPEND_FAULT_AFTER_STRICT_PREFIX_V1", s)
  | Some after_full_bytes => (all ++ [d], Throw "VOID_RECEIPT_APPEND_FAULT_AFTER_FULL_BYTES_V1", s)
  | Some before_directory_sync =>
      (all ++ [d'], Throw "VOID_RECEIPT_APPEND_FAULT_BEFORE_DIRECTORY_SYNC_V1", mkReceipts d' (rs_mem s))
  | Some after_publish => (all ++ [d'], Throw "VOID_RECEIPT_APPEND_FAULT_AFTER_PUBLISH_V1", mkReceipts d' (rs_mem s))
  | None => (all ++ [d'], Ok tt, mkReceipts d' (remember pending (rs_mem s)))
  end.

Definition appendManyExclusive (temp : string) (fault : option ReceiptAppendFaultV1) (arr : json) (s : receipts)
    : list directory * res unit * receipts :=
  match planAppend arr (rs_dir s) with
  | Throw e => ([], Throw e, s)
  | Ok None => ([], Ok tt, s)
  | Ok (Some (pending, target)) => publish temp fault pending target s
  end.

(** ** Looking up *)

Definition add_once (l : list string) (x : string) : list string := if bool_decide (x ∈ l) then l else l ++ [x].

(** The answers of [getMany] in the order of its map: cached ones, then the others. *)
Definition getMany (hashes : list json) (s : receipts) : res (list (string * option hit)) * receipts :=
  match map_res hash_text hashes with
  | Throw e => (Throw e, s)
  | Ok texts =>
      let wanted := foldl add_once [] (List.filter is_hex64 texts) in
      let warm := omap (fun h => (fun v => (h, Some v)) <$> (rs_mem s !! h)) wanted in
      let cold := List.filter (fun h => bool_decide (rs_mem s !! h = None)) wanted in
      if bool_decide (cold = []) then (Ok warm, s) else
      match (files ← shardFilesV1 (rs_dir s); scanReceiptHistoryV1 cold files (rs_dir s)) with
      | Throw e => (Throw e, s)
      | Ok sc =>
          let found := omap (fun h => sc_hits sc !! h) cold in
          (Ok (warm ++ map (fun h => (h, hit_of <$> (sc_hits sc !! h))) cold),
           mkReceipts (rs_dir s) (remember found (rs_mem s)))
      end
  end.

(** The first line of a shard whose receipt has the hash; lines that do not parse are passed over. *)
Definition lineHit (h : string) (line : string) : option hit :=
  if String.eqb line EmptyString then None else
  match JSON_parse line with
  | Some r => if r.@"h" === JStr h then Some (mkHit (r.@"n") (r.@"o") (r.@"ts")) else None
  | None => None
  end.

(** [get(hashHex)]: the shards from the last to the first; a shard that is not UTF-8 of code
    units below 256 counts as empty *)
Definition get (hashHex : json) (s : receipts) : res (option hit) * receipts :=
  match hash_text hashHex with
  | Throw e => (Throw e, s)
  | Ok h =>
      if negb (is_hex64 h) then (Ok None, s) else
      match rs_mem s !! h with
      | Some v => (Ok (Some v), s)
      | None =>
          let files := reverse (isort str_leb (List.filter is_shard_name (rs_dir s).*1)) in
          let text file := default EmptyString (bytes ← file_of file (rs_dir s); from_utf8 bytes) in
          match head (omap (lineHit h) (concat (map (fun f => split_lines (text f)) files))) with
          | Some v => (Ok (Some v), mkReceipts (rs_dir s) (<[h := v]> (rs_mem s)))
          | None => (Ok None, s)
          end
      end
  end.

(** ** Dropping shards *)

Definition remove_files (names : list string) (d : directory) : directory :=
  List.filter (fun f => negb (bool_decide (f.1 ∈ names))) d.

(** [Math.max(1, Number(keepLast) || 1)] as the start of a slice; [None] beyond every list. *)
Definition keepCount (keepLast : number) : option nat :=
  match keepLast with
  | Infinite true => None
  | Integer z | Between z => Some (Z.to_nat (Z.max 1 z))
  | _ => Some 1%nat
  end.

(** [gc(keepLast)]: how many shards were removed and kept. *)
Definition gc (keepLast : number) (s : receipts) : (nat * nat) * receipts :=
  let files := reverse (isort str_leb (List.filter is_shard_name (rs_dir s).*1)) in
  let toDelete := match keepCount keepLast with Some k => drop k files | None => [] end in
  ((length toDelete, length files - length toDelete)%nat, mkReceipts (remove_files toDelete (rs_dir s)) (rs_mem s)).

End store.
