(* ===== verification/ReceiptsSafety.v ===== *)
(** * Safety of the receipts store

    What the shards hold, what the scan of the history reads from them, and what an append
    does to them. *)

From Stdlib Require Import Ascii.
From S2P Require Import Prelude Js JsText Flow CanonicalJson Sha256 JsConvert MerkleRoots JsonParse TextLines NodeBuffer Receipts.

(** ** Lines of receipts *)

Record valid_receipt (r : Receipt) : Prop := {
  vr_hash : is_hex64 (r_h r) = true;
  vr_n : 0 <= r_n r <= MAX_SAFE_INTEGER;
  vr_o : 0 <= r_o r <= MAX_SAFE_INTEGER;
  vr_ts : 1 <= r_ts r <= MAX_SAFE_INTEGER
}.

Lemma receipt_textual r : valid_receipt r -> textual (receipt_json r) = true.
Proof.
  intros [_ Hn Ho Ht].
  assert (forall z, 0 <= z <= MAX_SAFE_INTEGER -> bool_decide (is_Some (as_safe_integer (JNum (NInt z)))) = true) as Hz.
  { intros z Hz. apply bool_decide_eq_true. exists z. apply as_safe_integer_Some. split; [done|lia]. }
  unfold textual, receipt_json. cbn [printable own_form forallb fst snd jint]. rewrite !Hz by lia. reflexivity.
Qed.

Lemma receipt_line_print r : valid_receipt r -> receipt_line r = print (receipt_json r).
Proof.
  intros Hr. unfold receipt_line. rewrite stringify_print; [done|]. pose proof (receipt_textual r Hr) as Ht.
  by apply andb_true_iff in Ht as [? _].
Qed.

Lemma receipt_one_line r : valid_receipt r -> one_line (receipt_line r) = true.
Proof. intros Hr. rewrite receipt_line_print by done. apply one_line_print. Qed.

Lemma safe_least_int least z : least <= z -> 0 <= z <= MAX_SAFE_INTEGER -> safe_least least (jint z) = Some z.
Proof.
  intros Hl Hz. unfold safe_least. rewrite (proj2 (as_safe_integer_Some (jint z) z)) by (split; [done|lia]).
  by rewrite (proj2 (Z.leb_le least z)) by lia.
Qed.

Lemma parse_receipt_line `{JsonNumber} r file : valid_receipt r -> parseReceiptLineV1 (receipt_line r) file = Ok r.
Proof.
  intros Hr. pose proof Hr as [Hh Hn Ho Ht]. unfold parseReceiptLineV1, receipt_line.
  rewrite parse_stringify by (by apply receipt_textual).
  change (receipt_json r).@"h" with (JStr (r_h r)). change (receipt_json r).@"n" with (jint (r_n r)).
  change (receipt_json r).@"o" with (jint (r_o r)). change (receipt_json r).@"ts" with (jint (r_ts r)).
  rewrite !safe_least_int by lia. unfold receipt_json. rewrite Hh. by destruct r.
Qed.

Lemma escape_length s : (String.length (escape s) <= 6 * String.length s)%nat.
Proof.
  induction s as [|c s IH]; [simpl; lia|]. cbn [escape String.length]. rewrite length_sapp.
  assert (String.length (escape_char c) <= 6)%nat by (destruct c as [[][][][][][][][]]; vm_compute; lia). lia.
Qed.

Lemma utf8_length s : (length (utf8_bytes s) <= 2 * String.length s)%nat.
Proof.
  induction s as [|c s IH]; [simpl; lia|]. cbn [utf8_bytes String.length]. destruct (_ <? 128); cbn [length]; lia.
Qed.

Lemma utf8_app a b : utf8_bytes (a +:+ b) = utf8_bytes a ++ utf8_bytes b.
Proof.
  induction a as [|c a IH]; [done|]. change ((String c a) +:+ b) with (String c (a +:+ b)). cbn [utf8_bytes]. rewrite IH.
  by destruct (_ <? 128).
Qed.

Lemma int_length z : 0 <= z <= MAX_SAFE_INTEGER -> (String.length (int_text z) <= 16)%nat.
Proof.
  intros Hz. unfold int_text. rewrite (proj2 (Z.ltb_ge z 0)) by lia. apply dec_length; [|lia].
  change (Z.of_nat 16) with 16. unfold MAX_SAFE_INTEGER in Hz. lia.
Qed.

(** A line of a receipt is far shorter than the longest line that is read. *)
Lemma receipt_line_size r : valid_receipt r -> size_of (utf8_bytes (receipt_line r)) <= RECEIPT_READ_CHUNK_BYTES_V1.
Proof.
  intros Hr. pose proof Hr as [Hh Hn Ho Ht]. pose proof (utf8_length (receipt_line r)) as Hu. unfold size_of.
  assert (String.length (receipt_line r) <= 1000)%nat as Hl; [|unfold RECEIPT_READ_CHUNK_BYTES_V1; lia].
  rewrite receipt_line_print by done. unfold receipt_json. cbn [print map join_comma join_tail fst snd jint].
  unfold field_text, json_quote. cbn [fst snd]. pose proof (escape_length (r_h r)).
  assert (String.length (r_h r) = 64%nat) as Hlen
    by (unfold is_hex64 in Hh; apply andb_true_iff in Hh as [Hh _]; by apply Nat.eqb_eq in Hh).
  pose proof (int_length (r_n r) Hn). pose proof (int_length (r_o r) Ho). pose proof (int_length (r_ts r) ltac:(lia)).
  rewrite !length_sapp. cbn [String.length]. rewrite !length_sapp. cbn [String.length].
  change (String.length (escape "h")) with 1%nat. change (String.length (escape "n")) with 1%nat.
  change (String.length (escape "o")) with 1%nat. change (String.length (escape "ts")) with 2%nat.
  change (String.length (char_text 34)) with 1%nat. lia.
Qed.

Lemma receipt_line_nonempty r : valid_receipt r -> String.eqb (receipt_line r) EmptyString = false.
Proof. intros Hr. by rewrite receipt_line_print. Qed.

(** ** What a shard holds *)

Definition shard_text (rs : list Receipt) : string := lines_text (map receipt_line rs).
Definition shard_bytes (rs : list Receipt) : list Z := utf8_bytes (shard_text rs).

Lemma shard_text_app a b : shard_text (a ++ b) = shard_text a +:+ shard_text b.
Proof. unfold shard_text. by rewrite map_app, lines_text_app. Qed.

Lemma shard_lines rs : Forall valid_receipt rs -> split_lines (shard_text rs) = map receipt_line rs ++ [EmptyString].
Proof.
  intros Hr. unfold shard_text. apply split_lines_text. apply Forall_map. eapply Forall_impl; [exact Hr|].
  intros r Hv. by apply receipt_one_line.
Qed.

(** The receipts a scan is asked for. *)
Definition collect (wanted : list string) (rs : list Receipt) (hits : gmap string Receipt) : gmap string Receipt :=
  foldl (fun m r => if bool_decide (r_h r ∈ wanted) then <[r_h r := r]> m else m) hits rs.

Section scan.
Context `{JsonNumber}.

Lemma scan_line wanted file r k seen hits : valid_receipt r -> r_h r ∉ seen ->
  scanLine wanted file (k, seen, hits) (receipt_line r) =
  Ok (k + 1, {[r_h r]} ∪ seen, if bool_decide (r_h r ∈ wanted) then <[r_h r := r]> hits else hits).
Proof.
  intros Hr Hseen. unfold scanLine. rewrite receipt_line_nonempty by done. pose proof (receipt_line_size r Hr) as Hsz.
  rewrite (proj2 (Z.ltb_ge _ _) Hsz). cbn [throw_if mbind res_bind]. rewrite parse_receipt_line by done.
  cbn [mbind res_bind]. rewrite (bool_decide_eq_false_2 (r_h r ∈ seen)) by done. done.
Qed.

Lemma scan_lines wanted file rs k seen hits : Forall valid_receipt rs -> NoDup (map r_h rs) ->
  (forall r, r ∈ rs -> r_h r ∉ seen) ->
  foldM (scanLine wanted file) (k, seen, hits) (map receipt_line rs ++ [EmptyString]) =
  Ok (k + Z.of_nat (length rs), list_to_set (map r_h rs) ∪ seen, collect wanted rs hits).
Proof.
  intros Hv. revert k seen hits. induction Hv as [|r rs Hr Hv IH]; intros k seen hits Hnd Hseen.
  - cbn. by rewrite Z.add_0_r, union_empty_l_L.
  - apply NoDup_cons in Hnd as [Hnotin Hnd]. cbn [map app foldM]. rewrite scan_line by (try done; apply Hseen; by left).
    cbn [mbind res_bind].
    rewrite IH; [|done|].
    + cbn [map length list_to_set]. rewrite Nat2Z.inj_succ, union_assoc_L, (union_comm_L _ {[r_h r]}).
      by replace (k + 1 + Z.of_nat (length rs)) with (k + Z.succ (Z.of_nat (length rs))) by lia.
    + intros r' Hr'. apply not_elem_of_union. split; [|apply Hseen; by right]. rewrite elem_of_singleton.
      intros Heq. apply Hnotin. rewrite <- Heq. by apply list_elem_of_fmap_2.
Qed.

(** The state of a scan after a shard. *)
Definition after_shard (wanted : list string) (active : option string) (s : scan) (shard : string * list Receipt) : scan :=
  let '(name, rs) := shard in
  mkScan (sc_admittedBytes s + size_of (shard_bytes rs)) (list_to_set (map r_h rs) ∪ sc_seenHashes s)
    (collect wanted rs (sc_hits s)) (<[name := Z.of_nat (length rs)]> (sc_lineCounts s))
    (if bool_decide (active = Some name) then shard_text rs else sc_activeContent s).

(** Shards that a scan accepts after [admitted] bytes. *)
Definition fits (admitted : Z) (shards : list (string * list Receipt)) : Prop :=
  Forall (fun s => size_of (shard_bytes s.2) <= MAX_RECEIPT_SHARD_BYTES_V1) shards /\
  admitted + sumZ (fun s => size_of (shard_bytes s.2)) shards <= MAX_RECEIPT_HISTORY_SCAN_BYTES_V1.

Lemma scan_one wanted active d s name rs : file_of name d = Some (shard_bytes rs) -> Forall valid_receipt rs ->
  NoDup (map r_h rs) -> (forall r, r ∈ rs -> r_h r ∉ sc_seenHashes s) ->
  match scanFile wanted active d s name with
  | Ok s' => size_of (shard_bytes rs) <= MAX_RECEIPT_SHARD_BYTES_V1 /\
      sc_admittedBytes s + size_of (shard_bytes rs) <= MAX_RECEIPT_HISTORY_SCAN_BYTES_V1 /\
      s' = after_shard wanted active s (name, rs)
  | Throw _ => MAX_RECEIPT_SHARD_BYTES_V1 < size_of (shard_bytes rs) \/
      MAX_RECEIPT_HISTORY_SCAN_BYTES_V1 < sc_admittedBytes s + size_of (shard_bytes rs)
  end.
Proof.
  intros Hf Hv Hnd Hseen. unfold scanFile. rewrite Hf. cbn [mbind res_bind].
  destruct (Z.ltb_spec MAX_RECEIPT_SHARD_BYTES_V1 (size_of (shard_bytes rs))); [by left|]. cbn [throw_if mbind res_bind].
  destruct (Z.ltb_spec MAX_RECEIPT_HISTORY_SCAN_BYTES_V1 (sc_admittedBytes s + size_of (shard_bytes rs))); [by right|].
  cbn [throw_if mbind res_bind]. assert (from_utf8 (shard_bytes rs) = Some (shard_text rs)) as -> by apply from_to_utf8.
  cbn [mbind res_bind].
  assert (negb (String.eqb (shard_text rs) EmptyString) && negb (ends_line (shard_text rs)) = false) as ->.
  { destruct rs as [|r rs]; [done|]. unfold shard_text. by rewrite ends_lines_text, andb_false_r. }
  cbn [throw_if mbind res_bind]. rewrite shard_lines, scan_lines by done. cbn [mbind res_bind]. done.
Qed.

Lemma scan_shards wanted active d l s :
  (forall name rs, (name, rs) ∈ l -> file_of name d = Some (shard_bytes rs)) -> Forall valid_receipt (concat l.*2) ->
  NoDup (map r_h (concat l.*2)) -> (forall r, r ∈ concat l.*2 -> r_h r ∉ sc_seenHashes s) ->
  sc_admittedBytes s <= MAX_RECEIPT_HISTORY_SCAN_BYTES_V1 ->
  match foldM (scanFile wanted active d) s l.*1 with
  | Ok s' => fits (sc_admittedBytes s) l /\ s' = foldl (after_shard wanted active) s l
  | Throw _ => ~ fits (sc_admittedBytes s) l
  end.
Proof.
  revert s. induction l as [|[name rs] l IH]; intros s Hf Hv Hnd Hseen Hadm; [by repeat split; [constructor|simpl; lia]|].
  cbn [fmap list_fmap fst snd concat foldM] in *. apply Forall_app in Hv as [Hv Hvl]. rewrite map_app in Hnd.
  apply NoDup_app in Hnd as (Hnd & Hdis & Hndl).
  pose proof (scan_one wanted active d s name rs ltac:(apply Hf; by left) Hv Hnd ltac:(intros r Hr; apply Hseen, elem_of_app; by left)) as H1.
  assert (0 <= sumZ (fun s => size_of (shard_bytes s.2)) l) as Hpos by (apply sumZ_nonneg, Forall_forall; unfold size_of; lia).
  assert (fits (sc_admittedBytes s) ((name, rs) :: l) <-> size_of (shard_bytes rs) <= MAX_RECEIPT_SHARD_BYTES_V1 /\
    fits (sc_admittedBytes s + size_of (shard_bytes rs)) l) as Hfits.
  { unfold fits. rewrite Forall_cons, sumZ_cons, Z.add_assoc. cbn [snd]. tauto. }
  destruct (scanFile wanted active d s name) as [s1|e]; [|cbn; rewrite Hfits; unfold fits; destruct H1; lia].
  destruct H1 as (Hsz & Htot & ->). cbn [mbind res_bind foldl].
  specialize (IH (after_shard wanted active s (name, rs)) ltac:(intros; apply Hf; by right) Hvl Hndl).
  cbn [after_shard sc_admittedBytes sc_seenHashes] in IH.
  assert (forall r, r ∈ concat l.*2 -> r_h r ∉ list_to_set (C := gset string) (map r_h rs) ∪ sc_seenHashes s) as Hs'.
  { intros r Hr. apply not_elem_of_union. split; [|apply Hseen, elem_of_app; by right].
    rewrite elem_of_list_to_set. intros Hin. by eapply Hdis, list_elem_of_fmap_2. }
  specialize (IH Hs' ltac:(lia)). destruct (foldM _ _ _); [|tauto]. destruct IH as [? ->]. tauto.
Qed.

End scan.

Lemma find_receipt_Some h l r : find_receipt h l = Some r -> r ∈ l /\ r_h r = h.
Proof. unfold find_receipt. intros [Hin Heq]%find_some. apply String.eqb_eq in Heq. by rewrite list_elem_of_In. Qed.

Lemma find_receipt_None h l : find_receipt h l = None <-> h ∉ map r_h l.
Proof.
  split.
  - intros Hf Hin. apply list_elem_of_fmap in Hin as (r & -> & Hr). apply list_elem_of_In in Hr.
    pose proof (find_none _ _ Hf r Hr) as Hn. cbv beta in Hn. by rewrite String.eqb_refl in Hn.
  - intros Hn. destruct (find_receipt h l) as [r|] eqn:E; [|done]. apply find_receipt_Some in E as [Hr <-].
    exfalso. by apply Hn, list_elem_of_fmap_2.
Qed.

Lemma find_receipt_in l r : NoDup (map r_h l) -> r ∈ l -> find_receipt (r_h r) l = Some r.
Proof.
  intros Hnd Hr. destruct (find_receipt (r_h r) l) as [r'|] eqn:E.
  - apply find_receipt_Some in E as [Hr' Heq]. apply list_elem_of_lookup in Hr as [i Hi], Hr' as [j Hj]. f_equal.
    assert (i = j) as ->; [|congruence]. eapply NoDup_lookup; [exact Hnd|..]; rewrite list_lookup_fmap; [by rewrite Hi|].
    rewrite Hj. cbn. by rewrite Heq.
  - apply find_receipt_None in E. exfalso. by apply E, list_elem_of_fmap_2.
Qed.

Lemma find_receipt_perm h l l' : NoDup (map r_h l) -> l ≡ₚ l' -> find_receipt h l = find_receipt h l'.
Proof.
  intros Hnd Hp. destruct (find_receipt h l') as [r|] eqn:E.
  - apply find_receipt_Some in E as [Hr <-]. apply find_receipt_in; [done|]. by rewrite Hp.
  - apply find_receipt_None. apply find_receipt_None in E. by rewrite Hp.
Qed.

Lemma find_receipt_app h a b : find_receipt h (a ++ b) = match find_receipt h a with Some r => Some r | None => find_receipt h b end.
Proof. unfold find_receipt. induction a as [|r a IH]; [done|]. cbn. by destruct (String.eqb _ _). Qed.

Lemma collect_lookup wanted rs m h : NoDup (map r_h rs) ->
  collect wanted rs m !! h = if bool_decide (h ∈ wanted) then match find_receipt h rs with Some r => Some r | None => m !! h end
    else m !! h.
Proof.
  unfold collect. revert m. induction rs as [|r rs IH]; intros m Hnd; cbn [foldl].
  - by case_bool_decide.
  - cbn [map] in Hnd. apply NoDup_cons in Hnd as [Hr Hnd]. rewrite IH by done. unfold find_receipt. cbn [List.find].
    fold (find_receipt h rs). destruct (String.eqb_spec (r_h r) h) as [<-|Hne].
    + rewrite (proj2 (find_receipt_None _ _) Hr). case_bool_decide; [by rewrite lookup_insert_eq|done].
    + case_bool_decide; [|by case_bool_decide; rewrite ?lookup_insert_ne by done].
      destruct (find_receipt h rs); [done|]. case_bool_decide; [|done]. by rewrite lookup_insert_ne.
Qed.

Lemma scanned_hits wanted active l s : sc_hits (foldl (after_shard wanted active) s l) = collect wanted (concat l.*2) (sc_hits s).
Proof.
  revert s. induction l as [|[name rs] l IH]; intros s; [done|]. cbn [foldl]. rewrite IH. cbn [after_shard sc_hits fmap list_fmap concat snd].
  unfold collect. by rewrite foldl_app.
Qed.

Lemma scanned_other wanted active l s name : name ∉ l.*1 ->
  sc_lineCounts (foldl (after_shard wanted active) s l) !! name = sc_lineCounts s !! name /\
  (active = Some name -> sc_activeContent (foldl (after_shard wanted active) s l) = sc_activeContent s).
Proof.
  revert s. induction l as [|[name' rs] l IH]; intros s Hn; [done|]. cbn [fmap list_fmap fst] in Hn.
  apply not_elem_of_cons in Hn as [Hne Hn]. destruct (IH (after_shard wanted active s (name', rs)) Hn) as [H1 H2].
  cbn [foldl]. rewrite H1. split; [cbn; by rewrite lookup_insert_ne|]. intros Ha. rewrite H2 by done. cbn.
  rewrite bool_decide_eq_false_2; [done|]. rewrite Ha. congruence.
Qed.

Lemma scanned_active wanted l s name rs : NoDup l.*1 -> (name, rs) ∈ l ->
  sc_lineCounts (foldl (after_shard wanted (Some name)) s l) !! name = Some (Z.of_nat (length rs)) /\
  sc_activeContent (foldl (after_shard wanted (Some name)) s l) = shard_text rs.
Proof.
  revert s. induction l as [|[name' rs'] l IH]; intros s Hnd Hin; [by apply elem_of_nil in Hin|].
  cbn [fmap list_fmap fst] in Hnd. apply NoDup_cons in Hnd as [Hn Hnd]. cbn [foldl].
  apply elem_of_cons in Hin as [[= <- <-]|Hin]; [|by apply IH].
  destruct (scanned_other wanted (Some name) l (after_shard wanted (Some name) s (name, rs)) name Hn) as [-> H2].
  rewrite H2 by done. cbn. by rewrite lookup_insert_eq, bool_decide_eq_true_2.
Qed.

(** ** The directory *)

(** The directory holds [shards], in the order of their names. *)
Record holds (shards : list (string * list Receipt)) (d : directory) : Prop := {
  ho_names : NoDup d.*1;
  ho_shards : isort str_leb (List.filter is_shard_name d.*1) = shards.*1;
  ho_files : forall name rs, (name, rs) ∈ shards -> file_of name d = Some (shard_bytes rs);
  ho_valid : Forall valid_receipt (concat shards.*2);
  ho_distinct : NoDup (map r_h (concat shards.*2))
}.

(** The receipt of a hash *)
Definition recorded (shards : list (string * list Receipt)) (h : string) : option Receipt := find_receipt h (concat shards.*2).

Lemma list_filter_elem {A} (p : A -> bool) l x : x ∈ List.filter p l <-> x ∈ l /\ p x = true.
Proof. by rewrite !list_elem_of_In, filter_In. Qed.

Lemma list_filter_NoDup {A} (p : A -> bool) (l : list A) : NoDup l -> NoDup (List.filter p l).
Proof.
  induction 1 as [|x l Hx _ IH]; [constructor|]. cbn. destruct (p x); [|done]. constructor; [|done].
  rewrite list_filter_elem. by intros [? _].
Qed.

Lemma holds_NoDup shards d : holds shards d -> NoDup shards.*1.
Proof. intros Hd. rewrite <- (ho_shards _ _ Hd), isort_perm. apply list_filter_NoDup, Hd. Qed.

Lemma list_step e fs x e' fs' : listStep (e, fs) x = Ok (e', fs') -> fs' = fs ++ List.filter is_shard_name [x].
Proof.
  unfold listStep. destruct (_ <? e + 1); [done|]. cbn [throw_if mbind res_bind List.filter].
  set (fs1 := if is_shard_name x then fs ++ [x] else fs). destruct (_ <? Z.of_nat (length fs1)); [done|]. intros [= _ <-].
  unfold fs1. destruct (is_shard_name x); [done|by rewrite app_nil_r].
Qed.

(** Listing gives the names of the shards in order, or fails at a bound. *)
Lemma shard_files shards d files : holds shards d -> shardFilesV1 d = Ok files -> files = shards.*1.
Proof.
  intros Hd. unfold shardFilesV1. rewrite <- (ho_shards _ _ Hd).
  assert (forall names e fs e' fs', foldM listStep (e, fs) names = Ok (e', fs') -> fs' = fs ++ List.filter is_shard_name names) as Hfold.
  { clear. induction names as [|x names IH]; intros e fs e' fs'; cbn [foldM]; [intros [= <- <-]; by rewrite app_nil_r|].
    destruct (listStep (e, fs) x) as [[e1 fs1]|] eqn:E; [|done]. cbn [mbind res_bind]. intros ->%IH.
    rewrite (list_step _ _ _ _ _ E), <- app_assoc. f_equal. cbn. by destruct (is_shard_name x). }
  destruct (foldM listStep (0, []) d.*1) as [[e fs]|] eqn:E; [|done]. cbn [mbind res_bind]. intros [= <-].
  by rewrite (Hfold _ _ _ _ _ E).
Qed.

(** A scan of the history succeeds on shards within the bounds, and finds what they hold. *)
Lemma scan_history `{JsonNumber} wanted shards d : holds shards d ->
  match scanReceiptHistoryV1 wanted shards.*1 d with
  | Ok s => fits 0 shards /\ (forall h, h ∈ wanted -> sc_hits s !! h = recorded shards h) /\
      (forall name rs, last shards = Some (name, rs) ->
        sc_lineCounts s !! name = Some (Z.of_nat (length rs)) /\ sc_activeContent s = shard_text rs)
  | Throw _ => ~ fits 0 shards
  end.
Proof.
  intros Hd. unfold scanReceiptHistoryV1. rewrite <- fmap_reverse.
  assert (concat (reverse shards).*2 ≡ₚ concat shards.*2) as Hperm by (by rewrite fmap_reverse, reverse_Permutation).
  assert (NoDup (map r_h (concat (reverse shards).*2))) as Hnd by (rewrite Hperm; apply Hd).
  assert (fits 0 (reverse shards) <-> fits 0 shards) as Hfits by (unfold fits; by rewrite reverse_Permutation).
  pose proof (scan_shards wanted (last shards.*1) d (reverse shards) (mkScan 0 ∅ ∅ ∅ EmptyString)) as Hs.
  cbn [sc_admittedBytes sc_seenHashes] in Hs.
  specialize (Hs ltac:(intros name rs; rewrite elem_of_reverse; apply Hd) ltac:(rewrite Hperm; apply Hd) Hnd
    ltac:(set_solver) ltac:(by vm_compute)).
  destruct (foldM _ _ _) as [s|e]; [|by rewrite <- Hfits]. destruct Hs as [Hf ->]. split; [by apply Hfits|]. split.
  - intros h Hh. rewrite scanned_hits, collect_lookup, bool_decide_eq_true_2 by done. cbn [sc_hits]. unfold recorded.
    rewrite (find_receipt_perm h _ _ Hnd Hperm). destruct (find_receipt _ _); [done|]. by rewrite lookup_empty.
  - intros name rs Hlast. rewrite fmap_last, Hlast. cbn [fmap option_fmap option_map fst]. apply scanned_active.
    + rewrite fmap_reverse, reverse_Permutation. by eapply holds_NoDup.
    + rewrite elem_of_reverse. by apply last_Some_elem_of.
Qed.

(** ** Names *)

Lemma shard_name_form name : is_shard_name name = true ->
  name = "receipts-" +:+ shard_digits name +:+ ".jsonl" /\ String.length (shard_digits name) = 8%nat /\
  string_forallb is_digit (shard_digits name) = true.
Proof.
  unfold is_shard_name. rewrite !andb_true_iff, !String.eqb_eq, Nat.eqb_eq. intros [[[H1 H2] H3] H4]. split; [|done].
  rewrite <- H1, <- H4 at 1. unfold shard_digits, slice. cbn [Nat.sub].
  rewrite <- (prefix_slice 9 name) at 1. f_equal.
  rewrite <- (prefix_slice 8 (slice_from 9 name)) at 1. f_equal.
  clear. do 9 (destruct name as [|? name]; [done|]). done.
Qed.

Lemma str_leb_prefix p a b : str_leb (p +:+ a) (p +:+ b) = str_leb a b.
Proof.
  induction p as [|c p IH]; [done|]. change ((String c p) +:+ a) with (String c (p +:+ a)).
  change ((String c p) +:+ b) with (String c (p +:+ b)). unfold str_leb, String.leb in *. cbn [String.compare].
  assert (Ascii.compare c c = Eq) as -> by apply N.compare_refl. exact IH.
Qed.

Lemma str_leb_suffix a b s : String.length a = String.length b -> str_leb (a +:+ s) (b +:+ s) = true -> str_leb a b = true.
Proof.
  revert b. induction a as [|c a IH]; intros [|d b]; try done. intros [= Hl].
  change ((String c a) +:+ s) with (String c (a +:+ s)). change ((String d b) +:+ s) with (String d (b +:+ s)).
  specialize (IH b Hl). unfold str_leb, String.leb in *. cbn [String.compare]. by destruct (Ascii.compare c d).
Qed.

Lemma shard_order a b : is_shard_name a = true -> is_shard_name b = true -> str_leb a b = true -> shard_base a <= shard_base b.
Proof.
  intros (Ea & La & Da)%shard_name_form (Eb & Lb & Db)%shard_name_form Hle. rewrite Ea, Eb, str_leb_prefix in Hle.
  apply digits_order; [done|done|congruence|]. apply (str_leb_suffix _ _ ".jsonl"); [congruence|done].
Qed.

Lemma shard_name_spec base : 0 <= base <= 99999999 -> is_shard_name (shard_name base) = true /\ shard_base (shard_name base) = base.
Proof.
  intros Hb. set (t := padStart8 (int_text base)).
  assert (int_text base = dec base) as Ei by (unfold int_text; by rewrite (proj2 (Z.ltb_ge base 0)) by lia).
  pose proof (dec_length base 8 ltac:(simpl; lia) ltac:(lia)) as Hlen.
  assert (String.length t = 8%nat) as Hl by (unfold t, padStart8; rewrite pad_length, Ei; lia).
  assert (string_forallb is_digit t = true) as Hd by (unfold t, padStart8; rewrite pad_digits, Ei; apply dec_digits).
  assert (digits_value t = base) as Hv by (unfold t, padStart8; rewrite digits_pad, Ei; apply digits_dec; lia).
  unfold shard_name. fold t. clearbody t.
  do 8 (destruct t as [|? t]; [done|]). destruct t; [|done].
  unfold is_shard_name, shard_base, shard_digits. split; [|exact Hv].
  rewrite !andb_true_iff. split_and!; [reflexivity|reflexivity|exact Hd|reflexivity].
Qed.

(** ** Changes of the directory *)

Lemma put_names name bytes d : (put_file name bytes d).*1 = if bool_decide (name ∈ d.*1) then d.*1 else d.*1 ++ [name].
Proof.
  induction d as [|[k v] d IH]; [done|]. cbn [put_file fst fmap list_fmap]. destruct (String.eqb_spec k name) as [->|Hne].
  - rewrite bool_decide_eq_true_2 by (by left). done.
  - cbn [fmap list_fmap fst]. rewrite IH. repeat case_bool_decide; [done|set_solver..|done].
Qed.

Lemma file_of_cons name k v d : file_of name ((k, v) :: d) = if String.eqb k name then Some v else file_of name d.
Proof. unfold file_of. cbn. by destruct (String.eqb k name). Qed.

Lemma file_put name bytes d name' : file_of name' (put_file name bytes d) =
  if String.eqb name name' then Some bytes else file_of name' d.
Proof.
  induction d as [|[k v] d IH]; cbn [put_file fst]; [by rewrite file_of_cons|].
  destruct (String.eqb_spec k name) as [->|Hne]; rewrite !file_of_cons; [by destruct (String.eqb name name')|].
  rewrite IH. destruct (String.eqb_spec k name') as [->|]; [|done]. destruct (String.eqb_spec name name'); congruence.
Qed.

Lemma file_of_app name d d' : name ∈ d.*1 -> file_of name (d ++ d') = file_of name d.
Proof.
  induction d as [|[k v] d IH]; [by intros ?%elem_of_nil|]. cbn [app fmap list_fmap fst]. intros Hin. rewrite !file_of_cons.
  destruct (String.eqb_spec k name) as [->|Hne]; [done|]. apply IH. set_solver.
Qed.

Lemma shard_listed shards d name : holds shards d -> name ∈ shards.*1 <-> name ∈ d.*1 /\ is_shard_name name = true.
Proof. intros Hd. rewrite <- (ho_shards _ _ Hd), isort_perm. apply list_filter_elem. Qed.

(** A file that is no shard *)
Lemma holds_temp shards d temp bytes : holds shards d -> temp ∉ d.*1 -> is_shard_name temp = false ->
  holds shards (d ++ [(temp, bytes)]).
Proof.
  intros Hd Hn Ht. split.
  - rewrite fmap_app. apply NoDup_snoc. split; [apply Hd|done].
  - rewrite fmap_app, List.filter_app. cbn. rewrite Ht, app_nil_r. apply Hd.
  - intros name rs Hin. rewrite file_of_app; [by apply Hd|]. apply (shard_listed shards d name Hd).
    apply list_elem_of_fmap. by exists (name, rs).
  - apply Hd.
  - apply Hd.
Qed.

(** More receipts in the last shard *)
Lemma holds_grow shards name rs more d : holds (shards ++ [(name, rs)]) d ->
  Forall valid_receipt more -> NoDup (map r_h (concat (shards ++ [(name, rs)]).*2 ++ more)) ->
  holds (shards ++ [(name, rs ++ more)]) (put_file name (shard_bytes (rs ++ more)) d).
Proof.
  intros Hd Hv Hnd. pose proof (holds_NoDup _ _ Hd) as Hns. rewrite fmap_app in Hns. cbn in Hns. apply NoDup_snoc in Hns as [_ Hns].
  assert (name ∈ d.*1) as Hin by (apply (shard_listed _ _ name Hd); rewrite fmap_app; set_solver).
  assert (concat (shards ++ [(name, rs ++ more)]).*2 = concat (shards ++ [(name, rs)]).*2 ++ more) as E.
  { rewrite !fmap_app, !concat_app. cbn. by rewrite !app_nil_r, app_assoc. }
  split.
  - rewrite put_names, bool_decide_eq_true_2 by done. apply Hd.
  - rewrite put_names, bool_decide_eq_true_2 by done. rewrite (ho_shards _ _ Hd), !fmap_app. done.
  - intros name' rs' Hin'. rewrite file_put. apply elem_of_app in Hin' as [Hin'|[= -> ->]%list_elem_of_singleton].
    + destruct (String.eqb_spec name name') as [<-|]; [|apply Hd; by apply elem_of_app; left].
      exfalso. apply Hns, list_elem_of_fmap. by exists (name, rs').
    + by rewrite String.eqb_refl.
  - rewrite E. apply Forall_app. split; [apply Hd|done].
  - by rewrite E.
Qed.

Lemma isort_last (l : list string) x : (forall y, y ∈ l -> str_leb y x = true) -> isort str_leb (l ++ [x]) = isort str_leb l ++ [x].
Proof.
  assert (forall a l, str_leb a x = true -> insert_sorted str_leb a (l ++ [x]) = insert_sorted str_leb a l ++ [x]) as Hins.
  { clear. intros a l Ha. induction l as [|y l IH]; cbn; [by rewrite Ha|]. destruct (str_leb a y); [done|]. by rewrite IH. }
  induction l as [|a l IH]; intros Hl; [done|]. cbn [app isort]. rewrite IH by (intros; apply Hl; by right).
  apply Hins, Hl. by left.
Qed.

(** A new shard after the others *)
Lemma holds_new shards name rs d : holds shards d -> is_shard_name name = true ->
  (forall name', name' ∈ shards.*1 -> shard_base name' < shard_base name) ->
  Forall valid_receipt rs -> NoDup (map r_h (concat shards.*2 ++ rs)) ->
  holds (shards ++ [(name, rs)]) (put_file name (shard_bytes rs) d).
Proof.
  intros Hd Hname Hlt Hv Hnd.
  assert (name ∉ d.*1) as Hn.
  { intros Hin. pose proof (Hlt name (proj2 (shard_listed _ _ name Hd) (conj Hin Hname))). lia. }
  assert (concat (shards ++ [(name, rs)]).*2 = concat shards.*2 ++ rs) as E by (rewrite fmap_app, concat_app; cbn; by rewrite app_nil_r).
  assert (forall y, y ∈ shards.*1 -> str_leb name y = false) as Hafter.
  { intros y Hy. destruct (str_leb name y) eqn:Hle; [|done]. pose proof Hy as [_ Hys]%(shard_listed _ _ y Hd).
    pose proof (shard_order name y Hname Hys Hle). pose proof (Hlt y Hy). lia. }
  split.
  - rewrite put_names, bool_decide_eq_false_2 by done. apply NoDup_snoc. split; [apply Hd|done].
  - rewrite put_names, bool_decide_eq_false_2 by done. rewrite List.filter_app, fmap_app. cbn [List.filter fmap list_fmap fst].
    rewrite Hname, isort_last, (ho_shards _ _ Hd); [done|]. intros y Hy%list_filter_elem.
    destruct (str_leb_total y name) as [|Hle]; [done|]. by rewrite Hafter in Hle by (by apply (shard_listed _ _ y Hd)).
  - intros name' rs' [Hin'|[= -> ->]%list_elem_of_singleton]%elem_of_app; rewrite file_put; [|by rewrite String.eqb_refl].
    destruct (String.eqb_spec name name') as [<-|]; [|by apply Hd]. pose proof (Hlt name ltac:(apply list_elem_of_fmap; by exists (name, rs'))). lia.
  - rewrite E. apply Forall_app. split; [apply Hd|done].
  - by rewrite E.
Qed.


(** ** Appending *)

Lemma shards_below shards name rs d name' : holds (shards ++ [(name, rs)]) d -> name' ∈ (shards ++ [(name, rs)]).*1 ->
  shard_base name' <= shard_base name.
Proof.
  intros Hd Hin. pose proof (isort_Sorted str_leb str_leb_total str_leb_trans (List.filter is_shard_name d.*1)) as Hs.
  rewrite (ho_shards _ _ Hd) in Hs. pose proof (proj1 (shard_listed _ _ name' Hd) Hin) as [_ Hn'].
  assert (is_shard_name name = true) as Hn by (apply (shard_listed _ _ name Hd); rewrite fmap_app; set_solver).
  rewrite fmap_app in Hs, Hin. cbn in Hs, Hin. apply shard_order; [done..|].
  apply elem_of_app in Hin as [Hin| ->%list_elem_of_singleton]; [|apply str_leb_refl].
  apply (sorted_split str_leb _ (length shards.*1) name' name Hs); [by rewrite take_app_length|rewrite drop_app_length; by left].
Qed.

Section append.
Context `{StringNumber} `{JsonNumber} (shardSpan : Z) (now : nat -> Z) (Hspan : 0 < shardSpan).

Lemma safe_number_Some least n z : safe_number least n = Some z -> least <= z <= MAX_SAFE_INTEGER.
Proof using.
  clear. unfold safe_number. destruct n as [x| | |]; try done. destruct (_ && _) eqn:E; [|done].
  apply andb_true_iff in E as [? ?]. intros [= <-]. lia.
Qed.

Lemma normalizeReceipt_valid j r x : normalizeReceipt now j r = Ok (Some x) -> valid_receipt x.
Proof using.
  clear. unfold normalizeReceipt. intros Hx. inv_ok.
  repeat match goal with E : match safe_number ?l ?n with _ => _ end = Some _ |- _ => destruct (safe_number l n) eqn:?; [|done] end.
  repeat match goal with E : safe_number _ _ = Some _ |- _ => apply safe_number_Some in E end.
  match goal with E : (if is_hex64 ?h then _ else _) = Some _ |- _ => destruct (is_hex64 h) eqn:?; [|done]; injection E as <- end.
  by split.
Qed.

Lemma batch_step l r l' : Forall valid_receipt l -> NoDup (map r_h l) -> valid_receipt r -> batchStep l r = Ok l' ->
  Forall valid_receipt l' /\ NoDup (map r_h l').
Proof using.
  clear. intros Hv Hnd Hr. unfold batchStep. destruct (find_receipt (r_h r) l) as [prior|] eqn:E; intros Hl'; inv_ok; [done|].
  rewrite Forall_app, map_app. split; [by split; [|constructor]|]. apply NoDup_snoc. split; [done|]. by apply find_receipt_None.
Qed.

Lemma normalizeBatch_valid arr batch : normalizeBatch now arr = Ok batch -> Forall valid_receipt batch /\ NoDup (map r_h batch).
Proof using.
  clear Hspan. unfold normalizeBatch. destruct (mapi_res (normalizeReceipt now) 0 arr) as [all|] eqn:E; [|done]. cbn [mbind res_bind].
  assert (Forall valid_receipt (omap id all)) as Hall.
  { apply mapi_res_Forall2 in E. clear -E. induction E as [|r o l k [j Hr] _ IH]; [done|]. destruct o as [x|]; cbn; [|done].
    constructor; [|done]. by eapply normalizeReceipt_valid. }
  assert (forall l acc, Forall valid_receipt l -> Forall valid_receipt acc -> NoDup (map r_h acc) ->
    foldM batchStep acc l = Ok batch -> Forall valid_receipt batch /\ NoDup (map r_h batch)) as Hfold; [|apply Hfold; [done|constructor..]].
  clear. induction l as [|r l IH]; intros acc Hl Ha Hnd; cbn [foldM]; [by intros [= ->]|].
  apply Forall_cons in Hl as [Hr Hl]. destruct (batchStep acc r) as [acc'|] eqn:E; [|done]. cbn [mbind res_bind].
  destruct (batch_step _ _ _ Ha Hnd Hr E) as [? ?]. by apply IH.
Qed.

(** The receipts of the batch that are not recorded yet; the others are recorded as they are. *)
Lemma pending_Ok durable batch acc pending : foldM (pendingStep durable) acc batch = Ok pending ->
  pending = acc ++ List.filter (fun r => bool_decide (durable !! r_h r = None)) batch /\
  forall r, r ∈ batch -> durable !! r_h r = None \/ durable !! r_h r = Some r.
Proof using.
  clear. revert acc. induction batch as [|r batch IH]; intros acc; cbn [foldM].
  - intros [= <-]. rewrite app_nil_r. split; [done|]. by intros r ?%elem_of_nil.
  - destruct (pendingStep durable acc r) as [acc'|] eqn:Es; [|done]. cbn [mbind res_bind]. intros [-> Hrest]%IH.
    unfold pendingStep in Es. cbn [List.filter]. destruct (durable !! r_h r) as [prior|] eqn:E.
    + rewrite bool_decide_eq_false_2 by done. case_bool_decide as Hp; [|done]. injection Es as <-. subst prior.
      split; [done|]. intros r' [->|Hr']%elem_of_cons; auto.
    + rewrite bool_decide_eq_true_2 by done. injection Es as <-. rewrite <- app_assoc.
      split; [done|]. intros r' [->|Hr']%elem_of_cons; auto.
Qed.

(** The shards after [pending] is published in [file]: more receipts in the last shard, or a
    new one *)
Definition extended (shards : list (string * list Receipt)) (file : string) (pending : list Receipt)
    (shards' : list (string * list Receipt)) : Prop :=
  (exists before rs, shards = before ++ [(file, rs)] /\ shards' = before ++ [(file, rs ++ pending)]) \/
  (file ∉ shards.*1) /\ shards' = shards ++ [(file, pending)].

Lemma extended_concat shards file pending shards' : extended shards file pending shards' ->
  concat shards'.*2 = concat shards.*2 ++ pending.
Proof using.
  clear. intros [(before & rs & -> & ->)|[_ ->]]; rewrite !fmap_app, !concat_app; cbn; by rewrite ?app_nil_r, ?app_assoc.
Qed.

(** The directory after a publication *)
Lemma publication_holds shards d s pending target : holds shards d ->
  (forall name rs, last shards = Some (name, rs) ->
    sc_lineCounts s !! name = Some (Z.of_nat (length rs)) /\ sc_activeContent s = shard_text rs) ->
  Forall valid_receipt pending -> NoDup (map r_h (concat shards.*2 ++ pending)) ->
  publication shardSpan shards.*1 s pending = Ok target ->
  exists shards', holds shards' (put_file target.1 target.2 d) /\ extended shards target.1 pending shards'.
Proof using Hspan.
  intros Hd Hlast Hv Hnd. unfold publication.
  destruct shards as [|[name rs] shards _] using rev_ind.
  - cbn. destruct (_ <? _); [done|]. intros [= <-]. exists [("receipts-00000000.jsonl"%string, pending)].
    split; [|right; split; [apply not_elem_of_nil|done]]. cbn [fst snd].
    apply (holds_new [] "receipts-00000000.jsonl" pending d Hd); [done|by intros ? ?%elem_of_nil|done|done].
  - destruct (Hlast name rs) as [Hcount Hactive]; [by rewrite last_snoc|].
    rewrite fmap_app. cbn [fmap list_fmap fst]. rewrite last_snoc. unfold default, id. cbn [from_option].
    assert (match shards.*1 ++ [name] with [] => EmptyString | _ => sc_activeContent s end = shard_text rs) as ->
      by (rewrite Hactive; by destruct shards.*1).
    fold (shard_text pending). rewrite <- shard_text_app. fold (shard_bytes (rs ++ pending)). fold (shard_bytes pending).
    rewrite bool_decide_eq_false_2 by (by destruct shards.*1). cbn [negb andb].
    assert (is_shard_name name = true) as Hname by (apply (shard_listed _ _ name Hd); rewrite fmap_app; set_solver).
    assert (0 <= shard_base name) as Hbase.
    { apply shard_name_form in Hname as (_ & _ & Hdig). by apply digits_bound. }
    intros Hpub. destruct (_ || _) in Hpub; inv_ok.
    + set (next := shard_base name + shardSpan) in *.
      repeat match goal with E : _ || _ = false |- _ => apply orb_false_iff in E as [? ?] end.
      assert (0 <= next <= 99999999) as Hnext by (unfold next in *; lia).
      destruct (shard_name_spec next Hnext) as [Hsn Hsb].
      assert (forall name', name' ∈ (shards ++ [(name, rs)]).*1 -> shard_base name' < shard_base (shard_name next)) as Hlt.
      { intros name' Hin. rewrite Hsb. pose proof (shards_below _ _ _ _ _ Hd Hin). unfold next. lia. }
      eexists. cbn [fst snd]. split; [by apply (holds_new _ (shard_name next) pending d Hd)|].
      right. split; [|done]. intros Hin%Hlt. lia.
    + eexists. cbn [fst snd]. split; [by apply holds_grow|]. left. eauto.
Qed.

Lemma new_distinct shards batch : NoDup (map r_h (concat shards.*2)) -> NoDup (map r_h batch) ->
  NoDup (map r_h (concat shards.*2 ++ List.filter (fun r => bool_decide (recorded shards (r_h r) = None)) batch)).
Proof using.
  clear. intros Hs Hb. rewrite map_app. apply NoDup_app. split; [done|]. split.
  - intros h Hin (r & -> & Hr)%list_elem_of_fmap. apply list_filter_elem in Hr as [_ Hr]. apply bool_decide_eq_true in Hr.
    by apply find_receipt_None in Hr.
  - clear Hs. induction batch as [|r l IH]; [constructor|]. cbn [map] in Hb. apply NoDup_cons in Hb as [Hr Hb].
    cbn [List.filter]. case_bool_decide; [|by apply IH]. cbn [map]. apply NoDup_cons. split; [|by apply IH].
    intros (r' & E & Hr')%list_elem_of_fmap. apply Hr. rewrite E. apply list_elem_of_fmap_2. by apply list_filter_elem in Hr' as [? _].
Qed.

(** What an append finds: nothing to publish, or receipts that are new. *)
Lemma planAppend_Ok shards d arr plan : holds shards d -> planAppend shardSpan now arr d = Ok plan ->
  match plan with
  | None => forall items batch, arr = JArr items -> normalizeBatch now items = Ok batch ->
      forall r, r ∈ batch -> recorded shards (r_h r) = Some r
  | Some (pending, target) => exists items batch shards', arr = JArr items /\ normalizeBatch now items = Ok batch /\
      pending = List.filter (fun r => bool_decide (recorded shards (r_h r) = None)) batch /\
      (forall r, r ∈ batch -> recorded shards (r_h r) = None \/ recorded shards (r_h r) = Some r) /\
      fits 0 shards /\ holds shards' (put_file target.1 target.2 d) /\ extended shards target.1 pending shards'
  end.
Proof using Hspan.
  intros Hd. unfold planAppend.
  destruct arr as [| | | | |[|item items]|]; try (intros [= <-]; intros; by simplify_eq/=);
    [intros [= <-] items batch [= <-] [= <-] r ?%elem_of_nil; done|].
  set (all := item :: items). destruct (normalizeBatch now all) as [batch|] eqn:Eb; [|done]. cbn [mbind res_bind].
  destruct (normalizeBatch_valid _ _ Eb) as [Hv Hnd]. case_bool_decide as Hne.
  { intros [= <-] items' batch' [= <-]. rewrite Eb. intros [= <-] r. subst batch. by intros ?%elem_of_nil. }
  destruct (shardFilesV1 d) as [files|] eqn:Ef; [|done]. cbn [mbind res_bind]. apply (shard_files shards) in Ef as ->; [|done].
  pose proof (scan_history (map r_h batch) shards d Hd) as Hscan. destruct (scanReceiptHistoryV1 _ _ _) as [s|]; [|done].
  destruct Hscan as (Hfits & Hhits & Hlast). cbn [mbind res_bind].
  destruct (foldM (pendingStep (sc_hits s)) [] batch) as [pending|] eqn:Ep; [|done]. cbn [mbind res_bind].
  apply pending_Ok in Ep as [Epend Hrec]. cbn [app] in Epend.
  assert (forall r, r ∈ batch -> sc_hits s !! r_h r = recorded shards (r_h r)) as Hr by (intros r Hr; by apply Hhits, list_elem_of_fmap_2).
  assert (pending = List.filter (fun r => bool_decide (recorded shards (r_h r) = None)) batch) as Epend'.
  { rewrite Epend. clear -Hr. induction batch as [|r l IH]; [done|]. cbn. rewrite Hr by (by left).
    rewrite IH by (intros; apply Hr; by right). done. }
  case_bool_decide as Hpe.
  { intros [= <-] items' batch' [= <-]. rewrite Eb. intros [= <-] r Hin. destruct (Hrec r Hin) as [E|E]; rewrite Hr in E by done; [|done].
    exfalso. assert (r ∈ pending) as Hp; [|rewrite Hpe in Hp; by apply elem_of_nil in Hp].
    rewrite Epend', list_filter_elem. split; [done|]. by apply bool_decide_eq_true_2. }
  destruct (publication _ _ _ _) as [target|] eqn:Et; [|done]. cbn [mbind res_bind]. intros [= <-].
  destruct (publication_holds shards d s pending target Hd Hlast) as (shards' & Hh & Hc); [..|done|].
  - apply Forall_forall. intros r Hin. rewrite Epend', list_filter_elem in Hin. by eapply Forall_forall; [|apply Hin].
  - rewrite Epend'. apply new_distinct; [apply Hd|done].
  - exists all, batch, shards'. split_and!; try done. intros r Hin. rewrite <- Hr by done. by apply Hrec.
Qed.

(** What a publication leaves: the shards before, or the published ones. *)
Lemma publish_states shards shards' temp fault pending target s : holds shards (rs_dir s) ->
  holds shards' (put_file target.1 target.2 (rs_dir s)) -> temp ∉ (rs_dir s).*1 -> is_shard_name temp = false ->
  let '(tr, r, s') := publish temp fault pending target s in
  Forall (fun d => holds shards d \/ holds shards' d) tr /\ (rs_dir s' = rs_dir s \/ holds shards' (rs_dir s')) /\
  (fault = None -> r = Ok tt /\ holds shards' (rs_dir s') /\ rs_mem s' = remember pending (rs_mem s)).
Proof using.
  clear. intros Hd Hd' Hn Ht. destruct target as [file payload]. cbn [fst snd] in Hd'. unfold publish.
  assert (forall l, Forall (fun d => holds shards d \/ holds shards' d)
    (map (fun k => rs_dir s ++ [(temp, take k payload)]) l)) as Hw.
  { intros l. apply Forall_map, Forall_forall. intros k _. left. by apply holds_temp. }
  destruct fault as [[]|]; (split; [try (apply Forall_app; split; [apply Hw|apply Forall_singleton; by auto]); constructor|]);
    (split; [by auto|done]).
Qed.

Lemma recorded_app shards shards' batch : NoDup (map r_h batch) ->
  concat shards'.*2 = concat shards.*2 ++ List.filter (fun r => bool_decide (recorded shards (r_h r) = None)) batch ->
  (forall r, r ∈ batch -> recorded shards (r_h r) = None \/ recorded shards (r_h r) = Some r) ->
  (forall r, r ∈ batch -> recorded shards' (r_h r) = Some r) /\
  (forall h, recorded shards' h = match recorded shards h with Some r => Some r | None => find_receipt h batch end).
Proof using.
  clear. intros Hb E Hrec. unfold recorded. rewrite E. assert (forall h, recorded shards h = None ->
    find_receipt h (List.filter (fun r => bool_decide (recorded shards (r_h r) = None)) batch) = find_receipt h batch) as Hf.
  { intros h Hh. clear -Hh. unfold find_receipt. induction batch as [|r l IH]; [done|]. cbn [List.filter List.find].
    destruct (String.eqb_spec (r_h r) h) as [<-|Hne].
    - rewrite bool_decide_eq_true_2 by done. cbn [List.find]. by rewrite String.eqb_refl.
    - case_bool_decide; [|done]. cbn [List.find]. by rewrite (proj2 (String.eqb_neq _ _) Hne). }
  assert (forall h, find_receipt h (concat shards.*2 ++ List.filter (fun r => bool_decide (recorded shards (r_h r) = None)) batch) =
    match recorded shards h with Some r => Some r | None => find_receipt h batch end) as Hall.
  { intros h. rewrite find_receipt_app. fold (recorded shards h). destruct (recorded shards h) eqn:Eh; [done|by apply Hf]. }
  split; [|exact Hall]. intros r Hr. rewrite Hall. destruct (Hrec r Hr) as [-> | ->]; [by apply find_receipt_in|done].
Qed.

End append.

(** ** Looking up *)

(** The cache knows only what is recorded. *)
Definition cache_ok (shards : list (string * list Receipt)) (mem : gmap string hit) : Prop :=
  forall h v, mem !! h = Some v -> exists r, recorded shards h = Some r /\ v = hit_of r.

Lemma cache_mono shards shards' mem : (forall h r, recorded shards h = Some r -> recorded shards' h = Some r) ->
  cache_ok shards mem -> cache_ok shards' mem.
Proof. intros Hk Hc h v Hv. destruct (Hc h v Hv) as (r & Hr & ->). eauto. Qed.

Lemma cache_remember shards rs mem : cache_ok shards mem -> (forall r, r ∈ rs -> recorded shards (r_h r) = Some r) ->
  cache_ok shards (remember rs mem).
Proof.
  unfold remember. revert mem. induction rs as [|r rs IH]; intros mem Hc Hr; [done|]. cbn [foldl]. apply IH; [|intros; apply Hr; by right].
  intros h v. destruct (decide (h = r_h r)) as [->|Hne]; [rewrite lookup_insert_eq|rewrite lookup_insert_ne by done; apply Hc].
  intros [= <-]. exists r. split; [apply Hr; by left|done].
Qed.

Section lookup.
Context `{JsonNumber}.

Lemma line_hit h r : valid_receipt r -> lineHit h (receipt_line r) = if String.eqb (r_h r) h then Some (hit_of r) else None.
Proof.
  intros Hr. unfold lineHit. rewrite receipt_line_nonempty by done. unfold receipt_line.
  rewrite parse_stringify by (by apply receipt_textual). change (receipt_json r).@"h" with (JStr (r_h r)).
  destruct (String.eqb_spec (r_h r) h) as [<-|Hne]; [by rewrite strict_eq_str_refl|].
  destruct (JStr (r_h r) === JStr h) eqn:E; [|done]. apply strict_eq_str in E. congruence.
Qed.

Lemma head_hits h rs : head (omap (fun r => if String.eqb (r_h r) h then Some (hit_of r) else None) rs) = hit_of <$> find_receipt h rs.
Proof. unfold find_receipt. induction rs as [|r rs IH]; [done|]. cbn. by destruct (String.eqb (r_h r) h). Qed.

(** The lines of the shards are the receipts. *)
Lemma shard_hits h d l : (forall name rs, (name, rs) ∈ l -> file_of name d = Some (shard_bytes rs)) ->
  Forall valid_receipt (concat l.*2) ->
  omap (lineHit h) (concat (map (fun f => split_lines (default EmptyString (bytes ← file_of f d; from_utf8 bytes))) l.*1)) =
  omap (fun r => if String.eqb (r_h r) h then Some (hit_of r) else None) (concat l.*2).
Proof.
  induction l as [|[name rs] l IH]; intros Hf Hv; [done|]. cbn [fmap list_fmap fst snd map concat] in *.
  apply Forall_app in Hv as [Hr Hv]. rewrite !omap_app, IH by (try done; intros; apply Hf; by right). f_equal.
  rewrite (Hf name rs) by (by left). cbn [mbind option_bind]. unfold shard_bytes. rewrite from_to_utf8. cbn [default from_option].
  unfold id. rewrite shard_lines, omap_app by done. change (omap (lineHit h) [EmptyString]) with (@nil hit). rewrite app_nil_r. clear -Hr.
  induction Hr as [|r rs Hv _ IH]; [done|]. cbn [map omap list_omap]. by rewrite line_hit, <- IH by done.
Qed.

Context `{StringNumber}.

Lemma hash_text_of text : hash_text (JStr text) = Ok (toLowerCase text).
Proof using. clear. unfold hash_text. cbn [falsy]. by destruct (String.eqb_spec text EmptyString) as [->|]. Qed.

Lemma get_recorded shards s text h : holds shards (rs_dir s) -> cache_ok shards (rs_mem s) ->
  toLowerCase text = h -> is_hex64 h = true -> (get (JStr text) s).1 = Ok (hit_of <$> recorded shards h).
Proof.
  intros Hd Hc Hh Hx. unfold get. rewrite hash_text_of, Hh.
  rewrite Hx. cbn [negb]. destruct (rs_mem s !! h) as [v|] eqn:Ev.
  - destruct (Hc h v Ev) as (r & -> & ->). done.
  - rewrite (ho_shards _ _ Hd), <- fmap_reverse. rewrite shard_hits.
    + rewrite head_hits. unfold recorded.
      rewrite (find_receipt_perm h (concat (reverse shards).*2) (concat shards.*2)).
      * by destruct (hit_of <$> find_receipt h (concat shards.*2)).
      * rewrite fmap_reverse, reverse_Permutation. apply Hd.
      * by rewrite fmap_reverse, reverse_Permutation.
    + intros name rs. rewrite elem_of_reverse. apply Hd.
    + rewrite fmap_reverse, reverse_Permutation. apply Hd.
Qed.
Lemma getMany_recorded shards s text h : holds shards (rs_dir s) -> cache_ok shards (rs_mem s) ->
  toLowerCase text = h -> is_hex64 h = true ->
  match (getMany [JStr text] s).1 with
  | Ok answers => answers = [(h, hit_of <$> recorded shards h)]
  | Throw _ => ~ fits 0 shards \/ is_ok (shardFilesV1 (rs_dir s)) = false
  end.
Proof.
  intros Hd Hc Hh Hx. unfold getMany. unfold map_res. cbn [mapi_res]. rewrite hash_text_of, Hh. cbn [mbind res_bind List.filter].
  rewrite Hx. change (foldl add_once [] [h]) with [h]. destruct (rs_mem s !! h) as [v|] eqn:Ev.
  - assert (List.filter (fun h => bool_decide (rs_mem s !! h = None)) [h] = []) as -> by (cbn; by rewrite Ev).
    destruct (Hc h v Ev) as (r & Hr & ->). cbn. by rewrite Ev, Hr.
  - assert (List.filter (fun h => bool_decide (rs_mem s !! h = None)) [h] = [h]) as -> by (cbn; by rewrite Ev).
    rewrite bool_decide_eq_false_2 by done. destruct (shardFilesV1 (rs_dir s)) as [files|] eqn:Ef; [|by right].
    apply (shard_files shards) in Ef as ->; [|done]. cbn [mbind res_bind]. pose proof (scan_history [h] shards (rs_dir s) Hd) as Hs.
    destruct (scanReceiptHistoryV1 _ _ _) as [sc|]; [|by left]. destruct Hs as (_ & Hhits & _). cbn.
    by rewrite Ev, Hhits by (by left).
Qed.

End lookup.

(** ** Bounds *)

Section bounds.
Context `{JsonNumber} `{StringNumber}.

(** The bytes of the listed files *)
Definition history_bytes (files : list string) (d : directory) : Z :=
  sumZ (fun name => size_of (default [] (file_of name d))) files.

Lemma scan_bytes wanted active d l s s' : foldM (scanFile wanted active d) s l = Ok s' ->
  sc_admittedBytes s <= MAX_RECEIPT_HISTORY_SCAN_BYTES_V1 ->
  sc_admittedBytes s + history_bytes l d <= MAX_RECEIPT_HISTORY_SCAN_BYTES_V1.
Proof.
  unfold history_bytes. revert s. induction l as [|name l IH]; intros s; cbn [foldM]; [intros _; simpl; lia|].
  destruct (scanFile wanted active d s name) as [s1|] eqn:E; [|done]. cbn [mbind res_bind]. intros Hl Hadm. rewrite sumZ_cons.
  unfold scanFile in E. destruct (file_of name d) as [bytes|]; [|done]. inv_ok.
  match goal with E : (MAX_RECEIPT_HISTORY_SCAN_BYTES_V1 <? _) = false |- _ => apply Z.ltb_ge in E as Htot end.
  repeat match goal with x : (_ * _)%type |- _ => destruct x end. inv_ok. specialize (IH _ Hl). cbn in IH |- *. lia.
Qed.

(** A history over the bound cannot be scanned, whatever its shards say. *)
Lemma scan_over wanted files d : MAX_RECEIPT_HISTORY_SCAN_BYTES_V1 < history_bytes files d ->
  exists e, scanReceiptHistoryV1 wanted files d = Throw e.
Proof.
  intros Hover. destruct (scanReceiptHistoryV1 wanted files d) as [s|e] eqn:E; [|by exists e]. exfalso.
  unfold scanReceiptHistoryV1 in E. apply scan_bytes in E; [|by vm_compute]. cbn [sc_admittedBytes] in E.
  unfold history_bytes in *. rewrite reverse_Permutation in E. lia.
Qed.

End bounds.

(** ** Properties *)

Section properties.
Context `{StringNumber} `{JsonNumber} (shardSpan : Z) (now : nat -> Z) (Hspan : 0 < shardSpan).

(** The records after an append: every receipt of the batch as it was given, everything that
    was recorded before, and nothing else; every directory on the way held the records from
    before or these. *)
Definition recorded_exactly (shards : list (string * list Receipt)) (items : list json) (s : receipts)
    (tr : list directory) (s' : receipts) : Prop :=
  exists shards' batch, holds shards' (rs_dir s') /\ normalizeBatch now items = Ok batch /\
    (forall r, r ∈ batch -> recorded shards' (r_h r) = Some r) /\
    (forall h, recorded shards' h = match recorded shards h with Some r => Some r | None => find_receipt h batch end) /\
    (cache_ok shards (rs_mem s) -> cache_ok shards' (rs_mem s')) /\
    Forall (fun d => holds shards d \/ holds shards' d) tr.

(** The faults between the rename and the return *)
Definition after_rename (fault : option ReceiptAppendFaultV1) : Prop :=
  fault = Some before_directory_sync \/ fault = Some after_publish.

Lemma publish_exact shards shards' items batch temp fault pending target s : holds shards (rs_dir s) ->
  holds shards' (put_file target.1 target.2 (rs_dir s)) -> temp ∉ (rs_dir s).*1 -> is_shard_name temp = false ->
  normalizeBatch now items = Ok batch -> (forall r, r ∈ pending -> recorded shards' (r_h r) = Some r) ->
  (forall r, r ∈ batch -> recorded shards' (r_h r) = Some r) ->
  (forall h, recorded shards' h = match recorded shards h with Some r => Some r | None => find_receipt h batch end) ->
  match publish temp fault pending target s with
  | (tr, Ok _, s') => fault = None /\ recorded_exactly shards items s tr s'
  | (tr, Throw _, s') => s' = s /\ Forall (holds shards) tr /\ fault <> None \/
      after_rename fault /\ rs_mem s' = rs_mem s /\ recorded_exactly shards items s tr s'
  end.
Proof using.
  intros Hd Hd' Hn Ht Hb Hp H1 H2. destruct target as [file payload]. cbn [fst snd] in Hd'. unfold publish.
  assert (forall l, Forall (holds shards) (map (fun k => rs_dir s ++ [(temp, take k payload)]) l)) as Hw.
  { intros l. apply Forall_map, Forall_forall. intros k _. by apply holds_temp. }
  assert (cache_ok shards (rs_mem s) -> cache_ok shards' (rs_mem s)) as Hmono.
  { apply cache_mono. intros h x Hx. by rewrite H2, Hx. }
  assert (forall mem, (cache_ok shards (rs_mem s) -> cache_ok shards' mem) -> recorded_exactly shards items s
    (map (fun k => rs_dir s ++ [(temp, take k payload)]) (seq 0 (S (length payload))) ++ [put_file file payload (rs_dir s)])
    (mkReceipts (put_file file payload (rs_dir s)) mem)) as Hend.
  { intros mem Hmem. exists shards', batch. split_and!; try done. apply Forall_app. split; [|apply Forall_singleton; by right].
    eapply Forall_impl; [apply Hw|]. by left. }
  destruct fault as [[]|]; cbn [fst snd].
  - by left.
  - left. split_and!; [done|apply Forall_app; split; [apply Hw|by apply Forall_singleton]|done].
  - left. split_and!; [done|apply Forall_app; split; [apply Hw|by apply Forall_singleton]|done].
  - right. split_and!; [by left|done|by apply Hend].
  - right. split_and!; [by right|done|by apply Hend].
  - split; [done|]. apply Hend. intros Hc. apply cache_remember; auto.
Qed.

(** C30: An append of receipts is exact, with any of the source's fault points.  When it
    returns, every receipt of the batch is recorded as given, everything recorded before
    still is, and nothing else is; the cache still knows only what is recorded.  When it
    throws, it has changed nothing, except that a fault between the rename of the shard and
    the return (a directory sync that does not happen, say) throws after the append has been
    recorded, exactly as if it had returned but for the cache, which it has not touched.
    There is no third case: every directory on the way, in which the process may be killed,
    holds the records from before or all of those from after. *)
Theorem receipts_append_exact (shards : list (string * list Receipt)) (temp : string) (fault : option ReceiptAppendFaultV1)
    (items : list json) (s : receipts) :
  holds shards (rs_dir s) -> temp ∉ (rs_dir s).*1 -> is_shard_name temp = false ->
  match appendManyExclusive shardSpan now temp fault (JArr items) s with
  | (tr, Ok _, s') => recorded_exactly shards items s tr s'
  | (tr, Throw _, s') => s' = s /\ Forall (holds shards) tr /\ (fault = None -> tr = []) \/
      after_rename fault /\ rs_mem s' = rs_mem s /\ recorded_exactly shards items s tr s'
  end.
Proof using Hspan.
  intros Hd Hn Ht. unfold appendManyExclusive.
  destruct (planAppend shardSpan now (JArr items) (rs_dir s)) as [plan|] eqn:Ep; [|by left].
  pose proof (planAppend_Ok shardSpan now Hspan shards (rs_dir s) (JArr items) plan Hd Ep) as Hplan.
  destruct plan as [[pending target]|].
  - destruct Hplan as (items' & batch & shards' & [= <-] & Hb & Epend & Hrec & _ & Hd' & Hc%extended_concat). rewrite Epend in Hc.
    destruct (normalizeBatch_valid now items batch Hb) as [_ Hnd]. destruct (recorded_app shards shards' batch Hnd Hc Hrec) as [H1 H2].
    assert (forall r, r ∈ pending -> recorded shards' (r_h r) = Some r) as Hpend.
    { intros r Hr. apply H1. rewrite Epend, list_filter_elem in Hr. apply Hr. }
    pose proof (publish_exact shards shards' items batch temp fault pending target s Hd Hd' Hn Ht Hb Hpend H1 H2) as Hp.
    destruct (publish temp fault pending target s) as [[tr [r|e]] s']; [apply Hp|].
    destruct Hp as [(? & ? & ?)|?]; [by left|by right].
  - assert (exists batch, normalizeBatch now items = Ok batch) as [batch Hb].
    { destruct items as [|item items]; [by exists []|]. unfold planAppend in Ep. destruct (normalizeBatch _ _); [eauto|done]. }
    exists shards, batch. specialize (Hplan items batch eq_refl Hb). split_and!; [done|done|done| |done|constructor].
    intros h. destruct (recorded shards h) eqn:Eh; [done|]. destruct (find_receipt h batch) as [r|] eqn:Ef; [|done].
    apply find_receipt_Some in Ef as [Hr <-]. by rewrite (Hplan r Hr) in Eh.
Qed.

(** One process that appends at some time, with a fault or killed anywhere, and the directory
    it leaves. *)
Definition leaves (d d' : directory) : Prop := exists time mem temp fault arr,
  (temp ∉ d.*1) /\ is_shard_name temp = false /\
  let '(tr, _, s') := appendManyExclusive shardSpan time temp fault arr (mkReceipts d mem) in d' ∈ rs_dir s' :: tr.

Lemma leaves_intact d d' shards : holds shards d -> leaves d d' ->
  exists shards', holds shards' d' /\ forall h r, recorded shards h = Some r -> recorded shards' h = Some r.
Proof using Hspan.
  intros Hd (time & mem & temp & fault & arr & Hn & Ht & Hin). unfold appendManyExclusive in Hin. cbn [rs_dir] in Hin.
  destruct (planAppend shardSpan time arr d) as [plan|] eqn:Ep; [|exists shards; by apply list_elem_of_singleton in Hin as ->].
  pose proof (planAppend_Ok shardSpan time Hspan shards d arr plan Hd Ep) as Hplan.
  destruct plan as [[pending target]|]; [|exists shards; by apply list_elem_of_singleton in Hin as ->].
  destruct Hplan as (items & batch & shards' & -> & Hb & Epend & Hrec & _ & Hd' & Hc%extended_concat). rewrite Epend in Hc.
  pose proof (publish_states shards shards' temp fault pending target (mkReceipts d mem) Hd Hd' Hn Ht) as Hp.
  destruct (publish temp fault pending target (mkReceipts d mem)) as [[tr r] s']. destruct Hp as (Htr & Hend & _). cbn [rs_dir] in Hend.
  destruct (normalizeBatch_valid time items batch Hb) as [_ Hnd]. destruct (recorded_app shards shards' batch Hnd Hc Hrec) as [_ H2].
  assert (holds shards d' \/ holds shards' d') as [?|?]; [|by exists shards|exists shards'; split; [done|]; intros h x Hx; by rewrite H2, Hx].
  apply elem_of_cons in Hin as [->|Hin]; [destruct Hend as [->|?]; by auto|]. by eapply Forall_forall in Htr.
Qed.

(** No receipt is ever lost or changed by appending: after any number of processes that
    append, each with any batch, failing at any of the fault points or killed anywhere, the
    shards are intact (well-formed lines, no hash twice) and every receipt recorded before
    is recorded with the same values. *)
Theorem receipts_never_lost (d d' : directory) (shards : list (string * list Receipt)) :
  holds shards d -> rtc leaves d d' ->
  exists shards', holds shards' d' /\ forall h r, recorded shards h = Some r -> recorded shards' h = Some r.
Proof using Hspan.
  intros Hd Hsteps. revert shards Hd. induction Hsteps as [d|d d1 d' Hstep _ IH]; intros shards Hd; [by exists shards|].
  destruct (leaves_intact d d1 shards Hd Hstep) as (shards1 & H1 & Hkeep).
  destruct (IH shards1 H1) as (shards' & Hd' & Hk). exists shards'. split; [done|]. intros h r Hr. by apply Hk, Hkeep.
Qed.


(** The wanted hashes of a lookup, each once *)
Lemma add_once_elem l acc x : x ∈ foldl add_once acc l <-> x ∈ acc \/ x ∈ l.
Proof using.
  clear. revert acc. induction l as [|y l IH]; intros acc; cbn [foldl]; [set_solver|]. rewrite IH. unfold add_once.
  case_bool_decide; set_solver.
Qed.

(** C32: A history beyond the bytes that a scan admits is final for appends and validating
    lookups: every append whose batch has a receipt left after normalization throws and
    changes nothing, and so does every [getMany] that asks for a hash which the process has
    not cached; the synchronous [get], which has no such bound, still answers.  Nothing stops
    an append from publishing the shard that takes the history there. *)
Theorem receipt_history_bound_final (files : list string) (items hashes : list json) (batch : list Receipt) (texts : list string)
    (text temp : string) (fault : option ReceiptAppendFaultV1) (s : receipts) :
  shardFilesV1 (rs_dir s) = Ok files -> MAX_RECEIPT_HISTORY_SCAN_BYTES_V1 < history_bytes files (rs_dir s) ->
  normalizeBatch now items = Ok batch -> batch <> [] ->
  map_res hash_text hashes = Ok texts -> text ∈ texts -> is_hex64 text = true -> rs_mem s !! text = None ->
  (exists e, appendManyExclusive shardSpan now temp fault (JArr items) s = ([], Throw e, s)) /\
  (exists e, getMany hashes s = (Throw e, s)) /\ (exists v, (get (JStr text) s).1 = Ok v).
Proof using.
  intros Hf Hover Hb Hne Ht Hin Hx Hm. split_and!.
  - destruct (scan_over (map r_h batch) files (rs_dir s) Hover) as [e He]. exists e.
    unfold appendManyExclusive, planAppend. destruct items as [|item items]; [by injection Hb|]. rewrite Hb. cbn [mbind res_bind].
    rewrite bool_decide_eq_false_2 by done. rewrite Hf. cbn [mbind res_bind]. by rewrite He.
  - unfold getMany. rewrite Ht. set (cold := List.filter _ (foldl add_once [] _)).
    assert (text ∈ cold) as Hc.
    { apply list_filter_elem. split; [|by apply bool_decide_eq_true_2]. apply add_once_elem. right. by apply list_filter_elem. }
    rewrite bool_decide_eq_false_2 by (intros E; rewrite E in Hc; by apply elem_of_nil in Hc).
    destruct (scan_over cold files (rs_dir s) Hover) as [e He]. exists e. rewrite Hf. cbn [mbind res_bind]. by rewrite He.
  - unfold get. rewrite hash_text_of. repeat case_match; eexists; reflexivity.
Qed.

End properties.

(** ** A concrete store *)

Module ReceiptSample.

#[local] Instance no_numbers : StringNumber := fun _ => NotANumber.
#[local] Instance texts : JsonNumber := fun t => NOther t.

Definition hash (c : ascii) : string := String c "123456789abcdef0123456789abcdef0123456789abcdef0123456789abcdef".
Definition item (c : ascii) (n : Z) : json := JObj ["h" ~> hash c; "n" ~> jint n; "o" ~> jint 0; "ts" ~> JNull].
Definition temp : string := ".receipts-00000000.jsonl.append-1-1.tmp".

Definition empty_store : receipts := mkReceipts [] ∅.

Lemma empty_holds : holds [] [].
Proof. split; [constructor|done|by intros ? ? ?%elem_of_nil|constructor|constructor]. Qed.

(** One batch, with the clock at 7. *)
Definition one_batch : list directory * res unit * receipts :=
  appendManyExclusive 10000 (fun _ => 7) temp None (JArr [item "a" 3; item "b" 4]) empty_store.

Lemma receipts_append_exact_witness : exists shards', holds shards' (rs_dir one_batch.2) /\
  recorded shards' (hash "a") = Some (mkReceipt (hash "a") 3 0 7).
Proof.
  pose proof (receipts_append_exact 10000 (fun _ => 7) ltac:(lia) [] temp None [item "a" 3; item "b" 4] empty_store empty_holds
    ltac:(by intros ?%elem_of_nil) eq_refl) as Hx.
  change (appendManyExclusive 10000 (fun _ => 7) temp None (JArr [item "a" 3; item "b" 4]) empty_store) with one_batch in Hx.
  destruct one_batch as [[tr r] s'] eqn:E. assert (r = Ok tt) as -> by (unfold one_batch in E; vm_compute in E; congruence).
  destruct Hx as (shards' & batch & Hh & Hb & Hrec & _). exists shards'. split; [exact Hh|].
  apply (Hrec (mkReceipt (hash "a") 3 0 7)). vm_compute in Hb. injection Hb as <-. by left.
Defined.

(** A directory sync that fails after the rename: the append throws and is recorded. *)
Example sync_fault_recorded :
  let '(_, r, s') := appendManyExclusive 10000 (fun _ => 7) temp (Some before_directory_sync) (JArr [item "a" 3]) empty_store in
  is_ok r = false /\ (get (JStr (hash "a")) s').1 = Ok (Some (mkHit (jint 3) (jint 0) (jint 7))).
Proof. by vm_compute. Qed.

Lemma receipts_never_lost_witness : exists shards', holds shards' (rs_dir one_batch.2).
Proof.
  destruct (receipts_never_lost 10000 ltac:(lia) [] (rs_dir one_batch.2) [] empty_holds) as (shards' & Hh & _).
  - apply rtc_once. exists (fun _ => 7), ∅, temp, None, (JArr [item "a" 3; item "b" 4]). split; [by intros ?%elem_of_nil|]. split; [reflexivity|].
    change (appendManyExclusive 10000 (fun _ => 7) temp None (JArr [item "a" 3; item "b" 4]) (mkReceipts [] ∅)) with one_batch.
    destruct one_batch as [[tr r] s']. by left.
  - by exists shards'.
Defined.

Definition first_shard : list Receipt := [mkReceipt (hash "a") 3 0 7; mkReceipt (hash "b") 4 0 7].

Lemma first_holds : holds [("receipts-00000000.jsonl"%string, first_shard)] [("receipts-00000000.jsonl"%string, shard_bytes first_shard)].
Proof.
  split; [apply NoDup_singleton|reflexivity|by intros ? ? [= -> ->]%list_elem_of_singleton| |].
  - repeat constructor; cbn; unfold MAX_SAFE_INTEGER; lia.
  - apply (bool_decide_unpack _). by vm_compute.
Qed.


(** Nine shards of empty lines, each of the largest size *)
Definition nine_names : list string := Eval vm_compute in map (fun i => shard_name (i * 10000)) (seqZ 0 9).
Definition nine (bytes : list Z) : directory := map (fun name => (name, bytes)) nine_names.

Lemma nine_bytes bytes : history_bytes nine_names (nine bytes) = 9 * size_of bytes.
Proof. unfold history_bytes, nine, nine_names, sumZ. cbn -[Z.add Z.mul size_of]. lia. Qed.

Definition full : list Z := replicate (Z.to_nat MAX_RECEIPT_SHARD_BYTES_V1) 10.

Lemma receipt_history_bound_final_witness :
  let s := mkReceipts (nine full) ∅ in
  (exists e, appendManyExclusive 10000 (fun _ => 7) temp None (JArr [item "a" 3]) s = ([], Throw e, s)) /\
  (exists e, getMany [JStr (hash "A")] s = (Throw e, s)) /\ (exists v, (get (JStr (hash "a")) s).1 = Ok v).
Proof.
  assert (size_of full = MAX_RECEIPT_SHARD_BYTES_V1) as Hsize.
  { unfold size_of, full. rewrite length_replicate. apply Z2Nat.id. unfold MAX_RECEIPT_SHARD_BYTES_V1. lia. }
  generalize dependent full. intros bytes Hsize s.
  apply (receipt_history_bound_final 10000 (fun _ => 7) nine_names [item "a" 3] [JStr (hash "A")] [mkReceipt (hash "a") 3 0 7]
    [hash "a"] (hash "a") temp None).
  - vm_compute. reflexivity.
  - cbn [rs_dir s]. rewrite nine_bytes, Hsize. by vm_compute.
  - vm_compute. reflexivity.
  - discriminate.
  - reflexivity.
  - by left.
  - reflexivity.
  - reflexivity.
Defined.

End ReceiptSample.
