(* ===== verification/Interleave.v ===== *)
(** * Programs that interleave at their system calls

    A function of JavaScript that awaits system calls is a program: it returns, or it makes a
    call and goes on with what the call answered.  Programs of several threads run against one
    world, one call of any thread at a time.  What a program does is specified by [wp]: at
    every call the thread may assume the invariant of the world and of the ghost states of all
    threads, and has to re-establish it with a ghost state of its own; the ghost state of a
    thread changes with its own steps only.  [threads_call] is the soundness of that rule. *)

From S2P Require Import Prelude.

(** ** Programs *)

Inductive prog (call : Type -> Type) (A : Type) : Type :=
| Ret (a : A)
| Vis {R : Type} (c : call R) (k : res R -> prog call A).

Arguments Ret {_ _} _.
Arguments Vis {_ _ _} _ _.

Fixpoint pbind {call A B} (p : prog call A) (f : A -> prog call B) : prog call B :=
  match p with
  | Ret a => f a
  | Vis c k => Vis c (fun r => pbind (k r) f)
  end.

(** A body with the mutable fields [L] of an object, which keep their values when it throws. *)
Definition body (call : Type -> Type) (L A : Type) : Type := L -> prog call (res A * L).

#[export] Instance body_ret {call L} : MRet (body call L) := fun _ a l => Ret (Ok a, l).
#[export] Instance body_bind {call L} : MBind (body call L) := fun _ _ f m l =>
  pbind (m l) (fun rl => match rl with (Ok a, l') => f a l' | (Throw e, l') => Ret (Throw e, l') end).

Definition sys {call L R} (c : call R) : body call L R := fun l => Vis c (fun r => Ret (r, l)).
Definition lift {call L A} (r : res A) : body call L A := fun l => Ret (r, l).
Definition fields {call L} : body call L L := fun l => Ret (Ok l, l).
Definition assign {call L} (f : L -> L) : body call L unit := fun l => Ret (Ok tt, f l).

(** [try { m } catch (e) { h e }] *)
Definition try_catch {call L A} (m : body call L A) (h : string -> body call L A) : body call L A := fun l =>
  pbind (m l) (fun rl => match rl with (Ok a, l') => Ret (Ok a, l') | (Throw e, l') => h e l' end).

(** [try { m } finally { f }]: an error of [f] replaces the outcome of [m]. *)
Definition try_finally {call L A} (m : body call L A) (f : body call L unit) : body call L A := fun l =>
  pbind (m l) (fun rl => pbind (f rl.2) (fun sl => match sl with (Ok _, l') => Ret (rl.1, l') | (Throw e, l') => Ret (Throw e, l') end)).

(** [await m.catch(() => undefined)] *)
Definition ignore {call L} (m : body call L unit) : body call L unit := try_catch m (fun _ => mret tt).

(** ** Specifications *)

Section wp.
Context {call : Type -> Type} {world choice ghost : Type}.
Context (exec : Z -> forall R, call R -> choice -> world -> option (res R * world)).
Context (owner : ghost -> Z) (Inv : world -> gmap nat ghost -> Prop) (pre : forall R, call R -> ghost -> Prop).
Context (i : nat).

(** Ghost states that a thread may move to between two calls *)
Definition upd (P : ghost -> Prop) (g : ghost) : Prop := forall w gs, gs !! i = Some g -> Inv w gs ->
  exists g', owner g' = owner g /\ Inv w (<[i := g']> gs) /\ P g'.

Fixpoint wp {A} (p : prog call A) (Q : A -> ghost -> Prop) (g : ghost) {struct p} : Prop :=
  match p with
  | Ret a => upd (Q a) g
  | @Vis _ _ R c k => upd (fun g => pre R c g /\ forall w gs ch r w', gs !! i = Some g -> Inv w gs ->
      exec (owner g) R c ch w = Some (r, w') ->
      exists g', owner g' = owner g /\ Inv w' (<[i := g']> gs) /\ wp (k r) Q g') g
  end.

Lemma upd_intro (P : ghost -> Prop) g : P g -> upd P g.
Proof. intros HP w gs Hi HI. exists g. by rewrite insert_id. Qed.

Lemma upd_mono (P P' : ghost -> Prop) g : (forall g', P g' -> P' g') -> upd P g -> upd P' g.
Proof. intros HP Hu w gs Hi HI. destruct (Hu w gs Hi HI) as (g' & ? & ? & ?). exists g'. auto. Qed.

Lemma upd_upd (P : ghost -> Prop) g : upd (upd P) g -> upd P g.
Proof.
  intros Hu w gs Hi HI. destruct (Hu w gs Hi HI) as (g1 & E1 & HI1 & Hu1).
  destruct (Hu1 w (<[i := g1]> gs)) as (g2 & E2 & HI2 & HP); [by rewrite lookup_insert_eq|done|].
  exists g2. rewrite insert_insert_eq in HI2. split_and!; [congruence|done|done].
Qed.

Lemma wp_upd {A} (p : prog call A) Q g : upd (wp p Q) g -> wp p Q g.
Proof. destruct p; apply upd_upd. Qed.

Lemma wpp_mono {A} (p : prog call A) (Q Q' : A -> ghost -> Prop) g :
  (forall a g', Q a g' -> Q' a g') -> wp p Q g -> wp p Q' g.
Proof.
  intros HQ. revert g. induction p as [a|R c k IH]; intros g; cbn; apply upd_mono; [auto|].
  intros g1 [Hp Hk]. split; [done|]. intros w gs ch r w' Hi HI He.
  destruct (Hk w gs ch r w' Hi HI He) as (g' & ? & ? & ?). exists g'. auto.
Qed.

Lemma wpp_bind {A B} (p : prog call A) (f : A -> prog call B) Q g : wp p (fun a => wp (f a) Q) g -> wp (pbind p f) Q g.
Proof.
  revert g. induction p as [a|R c k IH]; intros g; [apply wp_upd|]. apply upd_mono.
  intros g1 [Hp Hk]. split; [done|]. intros w gs ch r w' Hi HI He.
  destruct (Hk w gs ch r w' Hi HI He) as (g' & ? & ? & ?). exists g'. split_and!; [done|done|by apply IH].
Qed.

(** The same for bodies: [Q] of the outcome, the fields and the ghost state. *)
Definition wpb {L A} (m : body call L A) (l : L) (Q : res A -> L -> ghost -> Prop) (g : ghost) : Prop :=
  wp (m l) (fun rl => Q rl.1 rl.2) g.

Context {L : Type}.
Implicit Types l : L.

Lemma wpb_upd {A} (m : body call L A) l Q g : upd (wpb m l Q) g -> wpb m l Q g.
Proof. apply wp_upd. Qed.

Lemma wpb_mono {A} (m : body call L A) l Q Q' g : (forall r l' g', Q r l' g' -> Q' r l' g') -> wpb m l Q g -> wpb m l Q' g.
Proof. intros HQ. apply wpp_mono. auto. Qed.

Lemma wpb_lift {A} (r : res A) l Q g : Q r l g -> wpb (lift r) l Q g.
Proof. apply upd_intro. Qed.

Lemma wpb_ret {A} (a : A) l Q g : Q (Ok a) l g -> wpb (mret a) l Q g.
Proof. apply upd_intro. Qed.

Lemma wpb_fields l Q g : Q (Ok l) l g -> wpb (@fields call L) l Q g.
Proof. apply upd_intro. Qed.

Lemma wpb_assign f l Q g : Q (Ok tt) (f l) g -> wpb (@assign call L f) l Q g.
Proof. apply upd_intro. Qed.

Lemma wpb_bind {A B} (m : body call L A) (f : A -> body call L B) l Q g :
  wpb m l (fun r l' g' => match r with Ok a => wpb (f a) l' Q g' | Throw e => Q (Throw e) l' g' end) g ->
  wpb (m ≫= f) l Q g.
Proof. intros Hm. apply wpp_bind. eapply wpp_mono; [|exact Hm]. intros [[a|e] l'] g' H'; [exact H'|by apply upd_intro]. Qed.

Lemma wpb_try {A} (m : body call L A) h l Q g :
  wpb m l (fun r l' g' => match r with Ok a => Q (Ok a) l' g' | Throw e => wpb (h e) l' Q g' end) g ->
  wpb (try_catch m h) l Q g.
Proof. intros Hm. apply wpp_bind. eapply wpp_mono; [|exact Hm]. intros [[a|e] l'] g' H'; [by apply upd_intro|exact H']. Qed.

Lemma wpb_finally {A} (m : body call L A) f l Q g :
  wpb m l (fun r l' g' => wpb f l' (fun s l'' g'' => match s with Ok _ => Q r l'' g'' | Throw e => Q (Throw e) l'' g'' end) g') g ->
  wpb (try_finally m f) l Q g.
Proof.
  intros Hm. apply wpp_bind. eapply wpp_mono; [|exact Hm]. intros [r l'] g' H'. apply wpp_bind.
  eapply wpp_mono; [|exact H']. intros [[[]|e] l''] g'' H''; by apply upd_intro.
Qed.

Lemma wpb_ignore (m : body call L unit) l Q g : wpb m l (fun _ l' g' => Q (Ok tt) l' g') g -> wpb (ignore m) l Q g.
Proof. intros Hm. apply wpb_try. eapply wpb_mono; [|exact Hm]. intros [[]|e] l' g' H'; [done|by apply wpb_ret]. Qed.

Lemma wpb_sys {R} (c : call R) l Q g : pre R c g ->
  (forall w gs ch r w', gs !! i = Some g -> Inv w gs -> exec (owner g) R c ch w = Some (r, w') ->
    exists g', owner g' = owner g /\ Inv w' (<[i := g']> gs) /\ Q r l g') ->
  wpb (sys c) l Q g.
Proof.
  intros Hp HQ. apply upd_intro. split; [done|]. intros w gs ch r w' Hi HI He.
  destruct (HQ w gs ch r w' Hi HI He) as (g' & ? & ? & ?). exists g'. split_and!; [done|done|by apply upd_intro].
Qed.
End wp.

(** ** Threads *)

Section threads.
Context {call : Type -> Type} {world choice ghost A : Type}.
Context (exec : Z -> forall R, call R -> choice -> world -> option (res R * world)).
Context (owner : ghost -> Z) (Inv : world -> gmap nat ghost -> Prop) (pre : forall R, call R -> ghost -> Prop).
Context (Q : A -> ghost -> Prop).

(** Threads with the processes they run in: their ghost states satisfy the invariant, and
    each is specified from its own. *)
Record threads_ok (w : world) (ts : gmap nat (Z * prog call A)) (gs : gmap nat ghost) : Prop := {
  th_inv : Inv w gs;
  th_dom : forall i, is_Some (gs !! i) <-> is_Some (ts !! i);
  th_wp : forall i pid p g, ts !! i = Some (pid, p) -> gs !! i = Some g ->
    owner g = pid /\ wp exec owner Inv pre i p Q g
}.

Lemma threads_call w ts gs i pid R (c : call R) k ch r w' : threads_ok w ts gs -> ts !! i = Some (pid, Vis c k) ->
  exec pid R c ch w = Some (r, w') -> exists gs', threads_ok w' (<[i := (pid, k r)]> ts) gs'.
Proof.
  intros [HI Hdom Hwp] Hi He. destruct (proj2 (Hdom i) ltac:(eauto)) as [g Hg]. destruct (Hwp i pid _ g Hi Hg) as [Ho Hw].
  destruct (Hw w gs Hg HI) as (g1 & E1 & HI1 & _ & Hk).
  destruct (Hk w (<[i := g1]> gs) ch r w') as (g2 & E2 & HI2 & Hw2); [by rewrite lookup_insert_eq|done|congruence|].
  exists (<[i := g2]> gs). rewrite insert_insert_eq in HI2. split; [done| |].
  - intros j. rewrite !lookup_insert. case_decide; [by split; eauto|apply Hdom].
  - intros j pj p gj. rewrite !lookup_insert. case_decide as Ej; [subst j|apply Hwp].
    intros [= <- <-] [= <-]. split; [congruence|done].
Qed.

(** What holds of two threads that are about to make their next calls *)
Lemma threads_pre2 w ts gs i j pi pj Ri Rj (ci : call Ri) (cj : call Rj) ki kj : threads_ok w ts gs -> i <> j ->
  ts !! i = Some (pi, Vis ci ki) -> ts !! j = Some (pj, Vis cj kj) ->
  exists gs' gi gj, Inv w gs' /\ gs' !! i = Some gi /\ gs' !! j = Some gj /\ pre Ri ci gi /\ pre Rj cj gj.
Proof.
  intros [HI Hdom Hwp] Hne Hi Hj. destruct (proj2 (Hdom i) ltac:(eauto)) as [gi Hgi].
  destruct (proj2 (Hdom j) ltac:(eauto)) as [gj Hgj].
  destruct (Hwp i pi _ gi Hi Hgi) as [_ Hwi]. destruct (Hwp j pj _ gj Hj Hgj) as [_ Hwj].
  destruct (Hwi w gs Hgi HI) as (gi' & _ & HI1 & Hpi & _).
  destruct (Hwj w (<[i := gi']> gs)) as (gj' & _ & HI2 & Hpj & _); [by rewrite lookup_insert_ne|done|].
  exists (<[j := gj']> (<[i := gi']> gs)), gi', gj'. split_and!; [done| |by rewrite lookup_insert_eq|done|done].
  by rewrite lookup_insert_ne, lookup_insert_eq.
Qed.

(** A thread that starts on its own, or goes on after it has returned *)
Lemma threads_start w ts gs i pid p g : threads_ok w ts gs -> Inv w (<[i := g]> gs) -> owner g = pid ->
  wp exec owner Inv pre i p Q g -> threads_ok w (<[i := (pid, p)]> ts) (<[i := g]> gs).
Proof.
  intros [_ Hdom Hwp] HI Ho Hp. split; [done| |].
  - intros j. rewrite !lookup_insert. case_decide; [by split; eauto|apply Hdom].
  - intros j pj q gj. rewrite !lookup_insert. case_decide as Ej; [subst j|apply Hwp]. by intros [= <- <-] [= <-].
Qed.
End threads.
