(* ===== verification/ReceiptLock.v ===== *)
(** * The append lock of the receipts store

    Model of the lock between processes of [src/chain/receipts.ts] and of an append under it,
    system call by system call.  A process claims the directory by linking a record of itself
    (process, instance, a random token) under a name of its own, looks for the claims of
    others, and holds the lock when it finds none; it gives the lock back by linking a release
    record and removing its claim.  Claims of dead processes, released claims and claims of
    its own that it never confirmed are removed by whoever finds them.

    The world is one directory with the lock's records and the shards, the processes with
    their start times, and what [/proc] says of them.  Every call may fail; [ENOENT], [ESRCH]
    and [EEXIST] are truthful.  A listing of the directory begins and ends at different
    moments.  A record is read by its handle, so that its bytes are those of one file; the
    metadata of files are arbitrary.  Random tokens do not repeat.  Temporary files of the
    lock are reached by handle only, as their names are random.  [gc] removes shards without
    the lock; as a scan of the shards fails when a shard that it has listed is gone, one that
    succeeds is a snapshot.  Test hooks are left out. *)

From Stdlib Require Import Ascii.
From S2P Require Import Prelude Js JsText CanonicalJson Sha256 JsConvert JsonParse TextLines NodeBuffer Receipts Interleave.

(** ** Files, processes and the world *)

Record stat := mkStat { sa_regular : bool; sa_dev : Z; sa_ino : Z; sa_size : Z; sa_mtimeNs : Z; sa_ctimeNs : Z }.

Record file := mkFile { f_bytes : list Z; f_regular : bool; f_dev : Z; f_ino : Z; f_mtimeNs : Z; f_ctimeNs : Z }.

Definition stat_of (f : file) : stat :=
  mkStat (f_regular f) (f_dev f) (f_ino f) (size_of (f_bytes f)) (f_mtimeNs f) (f_ctimeNs f).

(** A process: when it started, and the instance it has cached for itself *)
Record process := mkProcess { p_start : Z; p_cache : string }.

(** [w_ever], [w_tokens] and [w_removed] are history: the names that were ever linked, the
    random texts that were ever drawn, the shards that were ever dropped by [gc]. *)
Record world := mkWorld {
  w_boot : string; w_procs : gmap Z process;
  w_names : gmap string nat; w_files : gmap nat file; w_next : nat;
  w_ever : gset string; w_tokens : gset string;
  w_dir : directory; w_removed : directory
}.

Definition set_procs (f : gmap Z process -> gmap Z process) (w : world) : world :=
  mkWorld (w_boot w) (f (w_procs w)) (w_names w) (w_files w) (w_next w) (w_ever w) (w_tokens w) (w_dir w) (w_removed w).
Definition set_files (f : gmap nat file -> gmap nat file) (w : world) : world :=
  mkWorld (w_boot w) (w_procs w) (w_names w) (f (w_files w)) (w_next w) (w_ever w) (w_tokens w) (w_dir w) (w_removed w).
Definition create_file (x : file) (w : world) : world :=
  mkWorld (w_boot w) (w_procs w) (w_names w) (<[w_next w := x]> (w_files w)) (S (w_next w)) (w_ever w) (w_tokens w) (w_dir w) (w_removed w).
Definition link_name (name : string) (h : nat) (w : world) : world :=
  mkWorld (w_boot w) (w_procs w) (<[name := h]> (w_names w)) (w_files w) (w_next w) ({[name]} ∪ w_ever w) (w_tokens w) (w_dir w) (w_removed w).
Definition unlink_name (name : string) (w : world) : world :=
  mkWorld (w_boot w) (w_procs w) (delete name (w_names w)) (w_files w) (w_next w) (w_ever w) (w_tokens w) (w_dir w) (w_removed w).
Definition draw_token (t : string) (w : world) : world :=
  mkWorld (w_boot w) (w_procs w) (w_names w) (w_files w) (w_next w) (w_ever w) ({[t]} ∪ w_tokens w) (w_dir w) (w_removed w).
Definition set_dir (d : directory) (w : world) : world :=
  mkWorld (w_boot w) (w_procs w) (w_names w) (w_files w) (w_next w) (w_ever w) (w_tokens w) d (w_removed w).

(** [gc] drops shards. *)
Definition drop_shards (files : list string) (w : world) : world :=
  mkWorld (w_boot w) (w_procs w) (w_names w) (w_files w) (w_next w) (w_ever w) (w_tokens w) (remove_files files (w_dir w))
    (w_removed w ++ List.filter (fun f => bool_decide (f.1 ∈ files)) (w_dir w)).

Definition restamp (mtime ctime : Z -> Z) (f : file) : file :=
  mkFile (f_bytes f) (f_regular f) (f_dev f) (f_ino f) (mtime (f_mtimeNs f)) (ctime (f_ctimeNs f)).

Definition file_at (name : string) (w : world) : option file := h ← w_names w !! name; w_files w !! h.

(** ** System calls *)

Record dir_stat := mkDirStat { ds_directory : bool; ds_dev : Z; ds_ino : Z }.

(** [Plain] is a call that changes nothing that is modelled: [fsync], [close], [mkdir], a
    timer, the check of an abort signal.  [Opendir] and [Readdir] are the begin and the end of
    one listing. *)
Inductive syscall : Type -> Type :=
| Plain (what : string) : syscall unit
| Now : syscall Z
| DirStat : syscall dir_stat
| Lstat (name : string) : syscall stat
| Open (name : string) : syscall nat
| Fstat (h : nat) : syscall stat
| Read (h offset count : nat) : syscall (list Z)
| Opendir : syscall (list string)
| Readdir (begun : list string) : syscall (list string)
| Random (count : nat) : syscall string
| CreateTemp (temp : string) : syscall nat
| Write (h : nat) (bytes : list Z) : syscall nat
| Link (h : nat) (name : string) : syscall unit
| UnlinkTemp (h : nat) : syscall unit
| Unlink (name : string) : syscall unit
| Kill0 (pid : Z) : syscall unit
| ReadBoot : syscall string
| ReadStat (pid : Z) : syscall string
| CacheGet : syscall string
| CacheSet (instance : string) : syscall unit
| Snapshot : syscall directory
| CreateShardTemp (temp : string) : syscall unit
| WriteShardTemp (temp : string) (bytes : list Z) : syscall nat
| RenameShard (temp file : string) : syscall unit
| UnlinkShardTemp (temp : string) : syscall unit.

(** The calls of an append on the shards *)
Definition on_shards {R} (c : syscall R) : bool :=
  match c with
  | Snapshot | CreateShardTemp _ | WriteShardTemp _ _ | RenameShard _ _ | UnlinkShardTemp _ => true
  | _ => false
  end.

(** What the environment decides of a call *)
Inductive choice : Type :=
| Succeed
| Fail (code : string)
| Count (n : nat)
| At (time : Z)
| Node (dev ino time : Z)
| Wrote (n : nat) (time : Z)
| Token (t : string)
| Names (l : list string)
| DirIs (s : dir_stat)
| ProcStat (comm : string) (fields : list string).

(** Failures with a meaning of their own happen only where they are true. *)
Definition truthful : list string := ["ENOENT"; "ESRCH"; "EEXIST"]%string.

Definition may_fail {R} (w : world) (ch : choice) (answer : option (res R * world)) : option (res R * world) :=
  match ch with
  | Fail code => if bool_decide (code ∈ truthful) then None else Some (Throw code, w)
  | _ => answer
  end.

(** [/proc/<pid>/stat]: the process, its command in parentheses and fields without blanks; the
    start time is field 22, the twentieth after the command. *)
Definition is_field (s : string) : bool :=
  negb (String.eqb s EmptyString) && string_forallb (fun c => negb (is_js_space c) && negb (Ascii.eqb c ")")) s.

Fixpoint spaced (l : list string) : string :=
  match l with [] => EmptyString | x :: l' => " " +:+ x +:+ spaced l' end.

Definition proc_stat (pid : Z) (comm : string) (fields : list string) : string :=
  dec pid +:+ " (" +:+ comm +:+ ")" +:+ spaced fields +:+ char_text 10.

Section exec.
(** Whether a process can always read what [/proc] says of itself *)
Context (proc_readable : bool).

Definition exec (self : Z) (R : Type) (c : syscall R) (ch : choice) (w : world) : option (res R * world) :=
  match c in syscall R return option (res R * world) with
  | Plain _ => may_fail w ch (Some (Ok tt, w))
  | Now => match ch with At time => Some (Ok time, w) | _ => None end
  | DirStat => may_fail w ch (match ch with DirIs s => Some (Ok s, w) | _ => None end)
  | Lstat name => may_fail w ch (Some (match file_at name w with Some f => Ok (stat_of f) | None => Throw "ENOENT" end, w))
  | Open name => may_fail w ch (Some (match w_names w !! name with Some h => Ok h | None => Throw "ENOENT" end, w))
  | Fstat h => may_fail w ch (Some (match w_files w !! h with Some f => Ok (stat_of f) | None => Throw "EBADF" end, w))
  | Read h offset count =>
      may_fail w ch (match ch, w_files w !! h with
        | Count n, Some f => Some (Ok (take (Nat.min n count) (drop offset (f_bytes f))), w)
        | Count n, None => Some (Throw "EBADF", w)
        | _, _ => None
        end)
  | Opendir => may_fail w ch (Some (Ok (elements (dom (w_names w))), w))
  | Readdir begun =>
      may_fail w ch (match ch with
        | Names l =>
            if bool_decide (Forall (fun n => n ∈ dom (w_names w) -> n ∈ l) begun) &&
               bool_decide (Forall (fun n => n ∈ begun \/ n ∈ dom (w_names w)) l) && bool_decide (NoDup l)
            then Some (Ok l, w) else None
        | _ => None
        end)
  | Random count =>
      may_fail w ch (match ch with
        | Token t => if is_hex_digits (2 * count) t && negb (bool_decide (t ∈ w_tokens w)) then Some (Ok t, draw_token t w) else None
        | _ => None
        end)
  | CreateTemp _ =>
      may_fail w ch (match ch with
        | Node dev ino time => Some (Ok (w_next w), create_file (mkFile [] true dev ino time time) w)
        | _ => None
        end)
  | Write h bytes =>
      may_fail w ch (match ch with
        | Wrote n time => Some (Ok (Nat.min n (length bytes)), set_files (alter (fun f =>
            mkFile (f_bytes f ++ take n bytes) (f_regular f) (f_dev f) (f_ino f) time time) h) w)
        | _ => None
        end)
  | Link h name =>
      may_fail w ch (match ch with
        | At time =>
            if bool_decide (name ∈ dom (w_names w)) then Some (Throw "EEXIST", w)
            else Some (Ok tt, set_files (alter (restamp id (fun _ => time)) h) (link_name name h w))
        | _ => None
        end)
  | UnlinkTemp h =>
      may_fail w ch (match ch with At time => Some (Ok tt, set_files (alter (restamp id (fun _ => time)) h) w) | _ => None end)
  | Unlink name =>
      may_fail w ch (Some (if bool_decide (name ∈ dom (w_names w)) then (Ok tt, unlink_name name w) else (Throw "ENOENT", w)))
  | Kill0 pid => match w_procs w !! pid with Some _ => may_fail w ch (Some (Ok tt, w)) | None => Some (Throw "ESRCH", w) end
  | ReadBoot =>
      match ch with Fail _ => if proc_readable then None else may_fail w ch None | _ => Some (Ok (w_boot w +:+ char_text 10), w) end
  | ReadStat pid =>
      match w_procs w !! pid, ch with
      | None, _ => Some (Throw "ENOENT", w)
      | Some p, ProcStat comm fields =>
          if forallb is_field fields && bool_decide (fields !! 19%nat = Some (dec (p_start p)))
          then Some (Ok (proc_stat pid comm fields), w) else None
      | Some _, _ => if proc_readable && (pid =? self) then None else may_fail w ch None
      end
  | CacheGet => match w_procs w !! self with Some p => Some (Ok (p_cache p), w) | None => None end
  | CacheSet instance => Some (Ok tt, set_procs (alter (fun p => mkProcess (p_start p) instance) self) w)
  | Snapshot => may_fail w ch (Some (Ok (w_dir w ++ map (fun n => (n, [])) (elements (dom (w_names w)))), w))
  | CreateShardTemp temp =>
      may_fail w ch (Some (if bool_decide (temp ∈ (w_dir w).*1) then (Throw "EEXIST", w)
        else (Ok tt, set_dir (w_dir w ++ [(temp, [])]) w)))
  | WriteShardTemp temp bytes =>
      may_fail w ch (match ch with
        | Wrote n _ => Some (Ok (Nat.min n (length bytes)),
            set_dir (put_file temp (default [] (file_of temp (w_dir w)) ++ take n bytes) (w_dir w)) w)
        | _ => None
        end)
  | RenameShard temp file =>
      may_fail w ch (Some (match file_of temp (w_dir w) with
        | Some bytes => (Ok tt, set_dir (put_file file bytes (remove_files [temp] (w_dir w))) w)
        | None => (Throw "ENOENT", w)
        end))
  | UnlinkShardTemp temp =>
      may_fail w ch (Some (if bool_decide (temp ∈ (w_dir w).*1) then (Ok tt, set_dir (remove_files [temp] (w_dir w)) w)
        else (Throw "ENOENT", w)))
  end.
End exec.

(** ** Data *)

Definition RECEIPT_APPEND_LOCK_MAX_WAIT_MS_V1 : Z := 30000.
Definition RECEIPT_APPEND_LOCK_CLAIM_MAX_BYTES_V1 : Z := 16 * 1024.
Definition RECEIPT_APPEND_LOCK_CLAIM_V1 : string := "VOID_RECEIPT_APPEND_LOCK_CLAIM_V1".
Definition RECEIPT_APPEND_LOCK_RELEASE_V1 : string := "VOID_RECEIPT_APPEND_LOCK_RELEASE_V1".

Record ReceiptDirectoryAuthorityV1 := mkAuthority { a_dev : Z; a_ino : Z }.

Record ReceiptFileStampV1 := mkStamp { fs_dev : string; fs_ino : string; fs_size : Z; fs_mtimeNs : string; fs_ctimeNs : string }.

#[export] Instance ReceiptFileStampV1_eq : EqDecision ReceiptFileStampV1.
Proof. solve_decision. Defined.

(** The path of a record is its name in the directory. *)
Record ReceiptAppendLockClaimV1 := mkClaim {
  c_pid : Z; c_process_instance : string; c_token : string; c_directory_dev : string; c_directory_ino : string;
  c_path : string; c_stamp : ReceiptFileStampV1
}.

Record ReceiptAppendLockReleaseV1 := mkRelease { re_path : string; re_stamp : ReceiptFileStampV1 }.

Inductive claim_state : Type := live | stale | ambiguous.

(** The fields of a store that an append changes *)
Record locals := mkLocals {
  locallyReleasedAppendClaimV1 : option ReceiptAppendLockClaimV1;
  locallyUnconfirmedAppendClaimV1 : option ReceiptAppendLockClaimV1;
  appendNonce : Z;
  mem : gmap string hit
}.

Definition new_store : locals := mkLocals None None 0 ∅.
Definition set_released (c : option ReceiptAppendLockClaimV1) (l : locals) : locals :=
  mkLocals c (locallyUnconfirmedAppendClaimV1 l) (appendNonce l) (mem l).
Definition set_unconfirmed (c : option ReceiptAppendLockClaimV1) (l : locals) : locals :=
  mkLocals (locallyReleasedAppendClaimV1 l) c (appendNonce l) (mem l).
Definition next_nonce (l : locals) : locals :=
  mkLocals (locallyReleasedAppendClaimV1 l) (locallyUnconfirmedAppendClaimV1 l) (appendNonce l + 1) (mem l).
Definition remember_all (rs : list Receipt) (l : locals) : locals :=
  mkLocals (locallyReleasedAppendClaimV1 l) (locallyUnconfirmedAppendClaimV1 l) (appendNonce l) (remember rs (mem l)).

Notation io := (body syscall locals).

(** ** Stamps and names *)

Definition receiptExactKeysV1 (value : json) (expected : list string) : bool :=
  match value with JObj _ => same_keys value expected | _ => false end.

Definition receiptFileStampV1 (s : stat) : ReceiptFileStampV1 :=
  mkStamp (dec (sa_dev s)) (dec (sa_ino s)) (sa_size s) (dec (sa_mtimeNs s)) (dec (sa_ctimeNs s)).

Definition receiptSameStampV1 (a b : ReceiptFileStampV1) : bool :=
  String.eqb (fs_dev a) (fs_dev b) && String.eqb (fs_ino a) (fs_ino b) && (fs_size a =? fs_size b) &&
  String.eqb (fs_mtimeNs a) (fs_mtimeNs b) && String.eqb (fs_ctimeNs a) (fs_ctimeNs b).

Definition receiptSamePublishedGenerationV1 (linked visible : ReceiptFileStampV1) : bool :=
  String.eqb (fs_dev linked) (fs_dev visible) && String.eqb (fs_ino linked) (fs_ino visible) &&
  (fs_size linked =? fs_size visible) && String.eqb (fs_mtimeNs linked) (fs_mtimeNs visible).

(** [/^\d+$/] *)
Definition is_digits (s : string) : bool := negb (String.eqb s EmptyString) && string_forallb is_digit s.

(** The stamp in a parsed record, where it is a valid one *)
Definition receiptValidStampV1 (value : json) : option ReceiptFileStampV1 :=
  if receiptExactKeysV1 value ["dev"; "ino"; "size"; "mtimeNs"; "ctimeNs"]%string then
    match value.@"dev", value.@"ino", safe_least 0 (value.@"size"), value.@"mtimeNs", value.@"ctimeNs" with
    | JStr dev, JStr ino, Some size, JStr mtimeNs, JStr ctimeNs =>
        if is_digits dev && is_digits ino && is_digits mtimeNs && is_digits ctimeNs
        then Some (mkStamp dev ino size mtimeNs ctimeNs) else None
    | _, _, _, _, _ => None
    end
  else None.

Definition stamp_json (s : ReceiptFileStampV1) : json :=
  JObj ["dev" ~> JStr (fs_dev s); "ino" ~> JStr (fs_ino s); "size" ~> jint (fs_size s);
        "mtimeNs" ~> JStr (fs_mtimeNs s); "ctimeNs" ~> JStr (fs_ctimeNs s)].

Definition is_token (s : string) : bool := is_hex_digits 32 s.

Definition appendLockClaimNameV1 (token : string) : string := ".receipts-append-claim-" +:+ token +:+ ".json".
Definition appendLockReleaseNameV1 (token : string) : string := ".receipts-append-release-" +:+ token +:+ ".json".

(** [/^\.receipts-append-claim-[0-9a-f]{32}\.json$/] *)
Definition is_claim_name (name : string) : bool :=
  String.eqb (slice 0 23 name) ".receipts-append-claim-" && is_token (slice 23 55 name) && String.eqb (slice_from 55 name) ".json".

(** ** Processes *)

(** The text after the last [c] *)
Fixpoint after_last (c : ascii) (s : string) : option string :=
  match s with
  | EmptyString => None
  | String d s' =>
      match after_last c s' with
      | Some t => Some t
      | None => if Ascii.eqb d c then Some s' else None
      end
  end.

(** [s.split(/\s+/)] *)
Fixpoint split_spaces (within : bool) (s : string) : list string :=
  match s with
  | EmptyString => [EmptyString]
  | String c s' =>
      if is_js_space c then (if within then split_spaces true s' else EmptyString :: split_spaces true s')
      else match split_spaces false s' with
        | w :: ws => String c w :: ws
        | [] => [String c EmptyString]
        end
  end.

(** [/^[0-9a-f-]{36}$/] *)
Definition is_boot_id (s : string) : bool :=
  (String.length s =? 36)%nat && string_forallb (fun c => is_lower_hex c || Ascii.eqb c "-") s.

(** The instance of a process, from the texts of [/proc] *)
Definition instance_of (boot raw : string) : option string :=
  match is_boot_id boot, after_last ")" raw with
  | true, Some rest =>
      let startTicks := default EmptyString (split_spaces false (trim rest) !! 19%nat) in
      if is_digits startTicks then Some ("linux:" +:+ boot +:+ ":" +:+ startTicks) else None
  | _, _ => None
  end.

Definition is_pid (pid : Z) : bool := (0 <? pid) && (pid <=? MAX_SAFE_INTEGER).

(** ** The lock *)

Section lock.
Context `{StringNumber} `{JsonNumber}.
(** [process.platform === "linux"], [process.pid], and the span of a shard *)
Context (linux : bool) (self : Z) (shardSpan : Z).

Definition receiptLinuxProcessInstanceV1 (pid : Z) : io (option string) :=
  if negb linux || negb (is_pid pid) then mret None else
  try_catch (
    boot ← sys ReadBoot;
    raw ← sys (ReadStat pid);
    mret (instance_of (trim boot) raw))
  (fun _ => mret None).

Definition receiptCurrentProcessInstanceV1 : io string :=
  cache ← sys CacheGet;
  if negb (String.eqb cache EmptyString) then mret cache else
  known ← receiptLinuxProcessInstanceV1 self;
  fresh ← match known with
    | Some instance => mret instance
    | None => nonce ← sys (Random 16); mret ("opaque:" +:+ dec self +:+ ":" +:+ nonce)
    end;
  sys (CacheSet fresh);;
  mret fresh.

Definition receiptPidAliveV1 (pid : Z) : io bool :=
  if negb (is_pid pid) then mret false else
  try_catch (sys (Kill0 pid);; mret true)
    (fun e => if String.eqb e "ESRCH" then mret false else if String.eqb e "EPERM" then mret true else lift (Throw e)).

Definition assertDirectoryAuthorityV1 (authority : ReceiptDirectoryAuthorityV1) : io unit :=
  opened ← sys DirStat;
  publicPath ← sys DirStat;
  lift (throw_if (negb (ds_directory opened) || negb (ds_directory publicPath) ||
      negb (ds_dev opened =? a_dev authority) || negb (ds_ino opened =? a_ino authority) ||
      negb (ds_dev publicPath =? a_dev authority) || negb (ds_ino publicPath =? a_ino authority))
    "receipt directory authority generation changed").

Definition openDirectoryAuthorityV1 : io ReceiptDirectoryAuthorityV1 :=
  sys (Plain "throwIfAborted");;
  sys (Plain "open directory");;
  try_catch (
    opened ← sys DirStat;
    publicPath ← sys DirStat;
    lift (throw_if (negb (ds_directory opened) || negb (ds_directory publicPath) ||
        negb (ds_dev opened =? ds_dev publicPath) || negb (ds_ino opened =? ds_ino publicPath))
      "receipt directory authority generation mismatch");;
    mret (mkAuthority (ds_dev opened) (ds_ino opened)))
  (fun e => ignore (sys (Plain "close directory"));; lift (Throw e)).

(** *** Reading records *)

(** The loop reads at least one byte each time, so [size] rounds are enough. *)
Fixpoint readLoop (fuel : nat) (h size : nat) (bytes : list Z) : io (list Z) :=
  match fuel with
  | O => mret bytes
  | S fuel =>
      if (length bytes <? size)%nat then
        chunk ← sys (Read h (length bytes) (size - length bytes));
        match chunk with
        | [] => mret bytes
        | _ => readLoop fuel h size (bytes ++ chunk)
        end
      else mret bytes
  end.

(** What is done with a record that is open *)
Definition readOpened (name : string) (listed : stat) (h : nat) : io (json * ReceiptFileStampV1) :=
  let size := Z.to_nat (sa_size listed) in
  opened ← sys (Fstat h);
  let openedStamp := receiptFileStampV1 opened in
  lift (throw_if (negb (receiptSameStampV1 (receiptFileStampV1 listed) openedStamp)) "VOID_RECEIPT_APPEND_LOCK_RECORD_UNSTABLE_V1");;
  bytes ← readLoop size h size [];
  lift (throw_if (negb (length bytes =? size)%nat) "VOID_RECEIPT_APPEND_LOCK_RECORD_SHORT_READ_V1");;
  after ← sys (Fstat h);
  visible ← sys (Lstat name);
  lift (throw_if (negb (receiptSameStampV1 openedStamp (receiptFileStampV1 after)) ||
      negb (receiptSameStampV1 (receiptFileStampV1 after) (receiptFileStampV1 visible))) "VOID_RECEIPT_APPEND_LOCK_RECORD_CHANGED_V1");;
  match parse_bytes bytes with
  | Some value => mret (value, openedStamp)
  | None => lift (Throw "SyntaxError")
  end.

Definition readAppendLockJsonV1 (name : string) : io (json * ReceiptFileStampV1) :=
  listed ← sys (Lstat name);
  lift (throw_if (negb (sa_regular listed)) "VOID_RECEIPT_APPEND_LOCK_NON_REGULAR_V1");;
  lift (throw_if ((sa_size listed <=? 0) || (RECEIPT_APPEND_LOCK_CLAIM_MAX_BYTES_V1 <? sa_size listed))
    "VOID_RECEIPT_APPEND_LOCK_RECORD_SIZE_V1");;
  h ← sys (Open name);
  try_finally (readOpened name listed h) (sys (Plain "close")).

Definition claim_keys : list string :=
  ["marker"; "version"; "pid"; "process_instance"; "token"; "directory_dev"; "directory_ino"]%string.

(** The checks of a claim that was read *)
Definition checkClaim (authority : ReceiptDirectoryAuthorityV1) (name : string) (value : json) (stamp : ReceiptFileStampV1)
    : res ReceiptAppendLockClaimV1 :=
  throw_if (negb (receiptExactKeysV1 value claim_keys)) "VOID_RECEIPT_APPEND_LOCK_CLAIM_SHAPE_V1";;
  token ← js_String (if falsy (value.@"token") then JStr EmptyString else value.@"token");
  match as_safe_integer (value.@"pid"), value.@"process_instance" with
  | Some pid, JStr process_instance =>
      throw_if ((value.@"marker" !== JStr RECEIPT_APPEND_LOCK_CLAIM_V1) || (value.@"version" !== jint 1) || (pid <=? 0) ||
          String.eqb process_instance EmptyString || negb (is_token token) ||
          (value.@"directory_dev" !== JStr (dec (a_dev authority))) || (value.@"directory_ino" !== JStr (dec (a_ino authority))) ||
          negb (String.eqb name (appendLockClaimNameV1 token))) "VOID_RECEIPT_APPEND_LOCK_CLAIM_INVALID_V1";;
      Ok (mkClaim pid process_instance token (dec (a_dev authority)) (dec (a_ino authority)) name stamp)
  | _, _ => Throw "VOID_RECEIPT_APPEND_LOCK_CLAIM_INVALID_V1"
  end.

Definition readAppendLockClaimV1 (authority : ReceiptDirectoryAuthorityV1) (name : string) : io ReceiptAppendLockClaimV1 :=
  '(value, stamp) ← readAppendLockJsonV1 name;
  lift (checkClaim authority name value stamp).

Definition release_keys : list string := ["marker"; "version"; "pid"; "process_instance"; "token"; "claim_stamp"]%string.

Definition checkRelease (claim : ReceiptAppendLockClaimV1) (value : json) : res unit :=
  throw_if (negb (receiptExactKeysV1 value release_keys) ||
      (value.@"marker" !== JStr RECEIPT_APPEND_LOCK_RELEASE_V1) || (value.@"version" !== jint 1) ||
      (value.@"pid" !== jint (c_pid claim)) || (value.@"process_instance" !== JStr (c_process_instance claim)) ||
      (value.@"token" !== JStr (c_token claim)) ||
      match receiptValidStampV1 (value.@"claim_stamp") with
      | Some claim_stamp => negb (receiptSameStampV1 claim_stamp (c_stamp claim))
      | None => true
      end) "VOID_RECEIPT_APPEND_LOCK_RELEASE_INVALID_V1".

Definition readAppendLockReleaseV1 (claim : ReceiptAppendLockClaimV1) : io (option ReceiptAppendLockReleaseV1) :=
  let name := appendLockReleaseNameV1 (c_token claim) in
  record ← try_catch (x ← readAppendLockJsonV1 name; mret (Some x))
    (fun e => if String.eqb e "ENOENT" then mret None else lift (Throw e));
  match record with
  | None => mret None
  | Some (value, stamp) => lift (checkRelease claim value);; mret (Some (mkRelease name stamp))
  end.

(** *** Writing records *)

Fixpoint writeLoop (fuel : nat) (h : nat) (body : list Z) : io unit :=
  match fuel, body with
  | _, [] | O, _ => mret tt
  | S fuel, _ =>
      bytesWritten ← sys (Write h body);
      lift (throw_if (bytesWritten =? 0)%nat "VOID_RECEIPT_APPEND_LOCK_RECORD_SHORT_WRITE_V1");;
      writeLoop fuel h (drop bytesWritten body)
  end.

Definition record_bytes (value : json) : list Z := utf8_bytes (default EmptyString (stringify value) +:+ char_text 10).

Definition closeTemp (h : nat) : io unit := ignore (sys (Plain "close"));; ignore (sys (UnlinkTemp h)).

Definition writeAppendLockRecordV1 (authority : ReceiptDirectoryAuthorityV1) (finalName : string) (value : json)
    (afterLink : ReceiptFileStampV1 -> io unit) : io unit :=
  token ← sys (Random 8);
  let body := record_bytes value in
  h ← sys (CreateTemp (".receipts-append-lock-tmp-" +:+ dec self +:+ "-" +:+ token));
  try_catch (
    writeLoop (length body) h body;;
    sys (Plain "fsync");;
    sys (Link h finalName))
  (fun e => closeTemp h;; ignore (sys (Plain "fsync directory"));; lift (Throw e));;
  try_finally (
    publishedStat ← sys (Fstat h);
    lift (throw_if (negb (sa_regular publishedStat)) "VOID_RECEIPT_APPEND_LOCK_PUBLISHED_NON_REGULAR_V1");;
    afterLink (receiptFileStampV1 publishedStat);;
    sys (Plain "close");;
    sys (Plain "fsync directory");;
    assertDirectoryAuthorityV1 authority)
  (closeTemp h).

(** *** Claims of others *)

Definition appendLockClaimStateV1 (claim : ReceiptAppendLockClaimV1) : io claim_state :=
  alive ← receiptPidAliveV1 (c_pid claim);
  if negb alive then mret stale else
  if linux then
    actual ← receiptLinuxProcessInstanceV1 (c_pid claim);
    mret (match actual with
      | None => ambiguous
      | Some actual => if String.eqb actual (c_process_instance claim) then live else stale
      end)
  else if negb (c_pid claim =? self) then mret ambiguous else
    current ← receiptCurrentProcessInstanceV1;
    mret (if String.eqb (c_process_instance claim) current then live else ambiguous).

Definition removeObservedAppendLockRecordV1 (authority : ReceiptDirectoryAuthorityV1) (path : string) (stamp : ReceiptFileStampV1)
    : io bool :=
  visible ← try_catch (s ← sys (Lstat path); mret (inl s)) (fun e => mret (inr (String.eqb e "ENOENT")));
  match visible with
  | inr absent => mret absent
  | inl visible =>
      if negb (sa_regular visible) || negb (receiptSameStampV1 (receiptFileStampV1 visible) stamp) then mret false else
      try_catch (
        sys (Unlink path);;
        sys (Plain "fsync directory");;
        assertDirectoryAuthorityV1 authority;;
        mret true)
      (fun e => mret (String.eqb e "ENOENT"))
  end.

Definition same_owner (mine claim : ReceiptAppendLockClaimV1) : bool :=
  (c_pid mine =? c_pid claim) && String.eqb (c_process_instance mine) (c_process_instance claim) &&
  String.eqb (c_token mine) (c_token claim) && String.eqb (c_directory_dev mine) (c_directory_dev claim) &&
  String.eqb (c_directory_ino mine) (c_directory_ino claim).

Definition sameLocallyReleasedAppendClaimV1 (l : locals) (claim : ReceiptAppendLockClaimV1) : bool :=
  match locallyReleasedAppendClaimV1 l with
  | Some mine => same_owner mine claim && receiptSameStampV1 (c_stamp mine) (c_stamp claim)
  | None => false
  end.

Definition sameLocallyUnconfirmedAppendClaimV1 (l : locals) (claim : ReceiptAppendLockClaimV1) : bool :=
  match locallyUnconfirmedAppendClaimV1 l with
  | Some mine => same_owner mine claim && receiptSamePublishedGenerationV1 (c_stamp mine) (c_stamp claim)
  | None => false
  end.

(** [if (this.sameLocallyReleased...(claim)) this.locallyReleased... = null] *)
Definition forgetReleased (claim : ReceiptAppendLockClaimV1) : io unit :=
  assign (fun l => if sameLocallyReleasedAppendClaimV1 l claim then set_released None l else l).

Definition release_json (claim : ReceiptAppendLockClaimV1) : json :=
  JObj ["marker" ~> JStr RECEIPT_APPEND_LOCK_RELEASE_V1; "version" ~> jint 1; "pid" ~> jint (c_pid claim);
        "process_instance" ~> JStr (c_process_instance claim); "token" ~> JStr (c_token claim);
        "claim_stamp" ~> stamp_json (c_stamp claim)].

Definition finishAppendLockReleaseV1 (authority : ReceiptDirectoryAuthorityV1) (claim : ReceiptAppendLockClaimV1) : io unit :=
  current ← readAppendLockClaimV1 authority (appendLockClaimNameV1 (c_token claim));
  lift (throw_if (negb (c_pid current =? self)) "VOID_RECEIPT_APPEND_LOCK_RELEASE_OWNER_MISMATCH_V1");;
  instance ← receiptCurrentProcessInstanceV1;
  lift (throw_if (negb (String.eqb (c_process_instance current) instance) || negb (receiptSameStampV1 (c_stamp current) (c_stamp claim)))
    "VOID_RECEIPT_APPEND_LOCK_RELEASE_OWNER_MISMATCH_V1");;
  found ← readAppendLockReleaseV1 claim;
  release ← match found with
    | Some release => mret (Some release)
    | None =>
        writeAppendLockRecordV1 authority (appendLockReleaseNameV1 (c_token claim)) (release_json claim) (fun _ => mret tt);;
        readAppendLockReleaseV1 claim
    end;
  match release with
  | None => lift (Throw "VOID_RECEIPT_APPEND_LOCK_RELEASE_MISSING_V1")
  | Some release =>
      removed ← removeObservedAppendLockRecordV1 authority (c_path claim) (c_stamp claim);
      lift (throw_if (negb removed) "VOID_RECEIPT_APPEND_LOCK_RELEASE_CLEANUP_FAILED_V1");;
      removeObservedAppendLockRecordV1 authority (re_path release) (re_stamp release);;
      forgetReleased claim
  end.

(** One name of the listing: whether its claim blocks *)
Definition claimBlocks (authority : ReceiptDirectoryAuthorityV1) (name : string) : io bool :=
  read ← try_catch (
      claim ← readAppendLockClaimV1 authority name;
      release ← readAppendLockReleaseV1 claim;
      mret (Some (claim, release)))
    (fun _ => mret None);
  match read with
  | None => mret true
  | Some (claim, Some release) =>
      removed ← removeObservedAppendLockRecordV1 authority (c_path claim) (c_stamp claim);
      if negb removed then mret true else
      removeObservedAppendLockRecordV1 authority (re_path release) (re_stamp release);;
      forgetReleased claim;;
      mret false
  | Some (claim, None) =>
      l ← fields;
      if sameLocallyReleasedAppendClaimV1 l claim then
        try_catch (finishAppendLockReleaseV1 authority claim;; mret false) (fun _ => mret true)
      else if sameLocallyUnconfirmedAppendClaimV1 l claim then
        removed ← removeObservedAppendLockRecordV1 authority (c_path claim) (c_stamp claim);
        if removed : bool then assign (set_unconfirmed None);; mret false else mret true
      else
        state ← appendLockClaimStateV1 claim;
        match state with
        | stale =>
            removed ← removeObservedAppendLockRecordV1 authority (c_path claim) (c_stamp claim);
            mret (negb removed)
        | _ => mret true
        end
  end.

Fixpoint blockedNames (authority : ReceiptDirectoryAuthorityV1) (ownPath : option string) (names : list string) (blocked : bool)
    : io bool :=
  match names with
  | [] => mret blocked
  | name :: names =>
      if bool_decide (ownPath = Some name) then blockedNames authority ownPath names blocked else
      b ← claimBlocks authority name;
      blockedNames authority ownPath names (blocked || b)
  end.

Definition appendLockBlockedV1 (authority : ReceiptDirectoryAuthorityV1) (ownPath : option string) : io bool :=
  begun ← sys Opendir;
  names ← sys (Readdir begun);
  blockedNames authority ownPath (isort str_leb (List.filter is_claim_name names)) false.

(** *** Acquiring and releasing *)

Definition claim_json (pid : Z) (instance token : string) (dev ino : Z) : json :=
  JObj ["marker" ~> JStr RECEIPT_APPEND_LOCK_CLAIM_V1; "version" ~> jint 1; "pid" ~> jint pid;
        "process_instance" ~> JStr instance; "token" ~> JStr token;
        "directory_dev" ~> JStr (dec dev); "directory_ino" ~> JStr (dec ino)].

Definition publishAppendLockClaimV1 (authority : ReceiptDirectoryAuthorityV1) : io ReceiptAppendLockClaimV1 :=
  token ← sys (Random 16);
  let name := appendLockClaimNameV1 token in
  processInstance ← receiptCurrentProcessInstanceV1;
  writeAppendLockRecordV1 authority name (claim_json self processInstance token (a_dev authority) (a_ino authority))
    (fun stamp => assign (set_unconfirmed (Some (mkClaim self processInstance token
      (dec (a_dev authority)) (dec (a_ino authority)) name stamp))));;
  claim ← readAppendLockClaimV1 authority name;
  l ← fields;
  lift (throw_if (negb (sameLocallyUnconfirmedAppendClaimV1 l claim)) "VOID_RECEIPT_APPEND_LOCK_CLAIM_PUBLICATION_MISMATCH_V1");;
  assign (set_unconfirmed None);;
  mret claim.

(** The loop ends when the lock is held, a call throws or the deadline has passed; [fuel]
    bounds its rounds, and running out of it is an outcome of its own, which no call of the
    source has. *)
Definition OUT_OF_FUEL : string := "(the bound on the rounds of the loop)".

Fixpoint acquireLoop (fuel : nat) (authority : ReceiptDirectoryAuthorityV1) (deadline : Z) : io ReceiptAppendLockClaimV1 :=
  match fuel with
  | O => lift (Throw OUT_OF_FUEL)
  | S fuel =>
      sys (Plain "throwIfAborted");;
      assertDirectoryAuthorityV1 authority;;
      blocked ← appendLockBlockedV1 authority None;
      held ← (if blocked : bool then mret None else
        own ← publishAppendLockClaimV1 authority;
        assertDirectoryAuthorityV1 authority;;
        blocked ← appendLockBlockedV1 authority (Some (c_path own));
        if negb blocked then mret (Some own) else
        removeObservedAppendLockRecordV1 authority (c_path own) (c_stamp own);;
        mret None);
      match held with
      | Some own => mret own
      | None =>
          now ← sys Now;
          lift (throw_if (deadline <=? now) "VOID_RECEIPT_APPEND_CROSS_PROCESS_LOCKED_V1");;
          sys (Plain "timer");;
          acquireLoop fuel authority deadline
      end
  end.

Definition acquireAppendLockV1 (fuel : nat) (authority : ReceiptDirectoryAuthorityV1) : io ReceiptAppendLockClaimV1 :=
  now ← sys Now;
  acquireLoop fuel authority (now + RECEIPT_APPEND_LOCK_MAX_WAIT_MS_V1).

Definition releaseAppendLockV1 (authority : ReceiptDirectoryAuthorityV1) (claim : ReceiptAppendLockClaimV1) : io unit :=
  assign (set_released (Some claim));;
  ignore (finishAppendLockReleaseV1 authority claim).

(** *** An append under the lock *)

Fixpoint writeShard (fuel : nat) (temp : string) (payload : list Z) : io unit :=
  match fuel, payload with
  | _, [] | O, _ => mret tt
  | S fuel, _ =>
      sys (Plain "throwIfAborted");;
      bytesWritten ← sys (WriteShardTemp temp (take (Z.to_nat (64 * 1024)) payload));
      lift (throw_if (bytesWritten =? 0)%nat "receipt append made no write progress");;
      writeShard fuel temp (drop bytesWritten payload)
  end.

Definition publishShard (authority : ReceiptDirectoryAuthorityV1) (pending : list Receipt) (target : string * list Z) : io unit :=
  let '(file, payload) := target in
  assign next_nonce;;
  l ← fields;
  let temp := "." +:+ file +:+ ".append-" +:+ dec self +:+ "-" +:+ dec (appendNonce l) +:+ ".tmp" in
  try_catch (
    sys (Plain "throwIfAborted");;
    sys (CreateShardTemp temp);;
    writeShard (length payload) temp payload;;
    sys (Plain "fsync");;
    sys (Plain "throwIfAborted");;
    sys (Plain "close");;
    sys (Plain "throwIfAborted");;
    sys (RenameShard temp file))
  (fun e => ignore (sys (Plain "close"));; ignore (sys (UnlinkShardTemp temp));; lift (Throw e));;
  sys (Plain "fsync directory");;
  assertDirectoryAuthorityV1 authority;;
  assign (remember_all pending).

(** What an append does while it holds the lock *)
Definition appendHolding (authority : ReceiptDirectoryAuthorityV1) (clock : nat -> Z) (arr : json) : io unit :=
  d ← sys Snapshot;
  sys (Plain "throwIfAborted");;
  plan ← lift (planAppend shardSpan clock arr d);
  match plan with
  | None => sys (Plain "throwIfAborted");; sys (Plain "fsync directory");; sys (Plain "throwIfAborted");; assertDirectoryAuthorityV1 authority
  | Some (pending, target) => publishShard authority pending target
  end.

(** The clock as it is read for each of [count] items *)
Fixpoint readClock (count : nat) : io (list Z) :=
  match count with
  | O => mret []
  | S count => now ← sys Now; later ← readClock count; mret (now :: later)
  end.

Definition appendManyLocked (fuel : nat) (items : list json) : io unit :=
  sys (Plain "throwIfAborted");;
  if bool_decide (items = []) then mret tt else
  sys (Plain "mkdir");;
  sys (Plain "throwIfAborted");;
  times ← readClock (length items);
  let clock i := nth i times 0 in
  normalizedByHash ← lift (normalizeBatch clock items);
  if bool_decide (normalizedByHash = []) then mret tt else
  authority ← openDirectoryAuthorityV1;
  try_finally (
    appendLock ← acquireAppendLockV1 fuel authority;
    try_finally (appendHolding authority clock (JArr items)) (releaseAppendLockV1 authority appendLock))
  (ignore (sys (Plain "close directory"))).

End lock.

(** ** Stores that run side by side *)

(** A store runs one append at a time; one that has returned keeps the batch and outcome of its
    last append, and its fields. *)
Definition run : Type := prog syscall (list json * res unit * locals).

Record system := mkSystem { sy_world : world; sy_stores : gmap nat (Z * run) }.

Section system.
Context `{StringNumber} `{JsonNumber} (linux proc_readable : bool) (shardSpan : Z).

Definition start_append (self : Z) (fuel : nat) (items : list json) (l : locals) : run :=
  pbind (appendManyLocked linux self shardSpan fuel items l) (fun rl => Ret (items, rl.1, rl.2)).

(** One event: a call of a store, the start of an append on a store that has returned, a new
    store in a process, a new process, the end of a process, a reboot, shards that a [gc]
    drops.  [gc] takes no lock: it lists the shards and then removes some of them one by one,
    and what it has listed may be out of date when it removes them, so that an event drops
    any shards at any moment. *)
Inductive step : system -> system -> Prop :=
| step_call w ss i pid R (c : syscall R) k ch r w' : ss !! i = Some (pid, Vis c k) ->
    exec proc_readable pid R c ch w = Some (r, w') ->
    step (mkSystem w ss) (mkSystem w' (<[i := (pid, k r)]> ss))
| step_append w ss i pid last fuel items : ss !! i = Some (pid, Ret last) ->
    step (mkSystem w ss) (mkSystem w (<[i := (pid, start_append pid fuel items last.2)]> ss))
| step_open w ss i pid : ss !! i = None -> is_Some (w_procs w !! pid) ->
    step (mkSystem w ss) (mkSystem w (<[i := (pid, Ret ([], Ok tt, new_store))]> ss))
| step_spawn w ss pid start : w_procs w !! pid = None -> is_pid pid = true -> 0 <= start ->
    step (mkSystem w ss) (mkSystem (set_procs (insert pid (mkProcess start EmptyString)) w) ss)
| step_kill w ss pid :
    step (mkSystem w ss) (mkSystem (set_procs (delete pid) w) (filter (fun s => s.2.1 <> pid) ss))
| step_reboot w ss boot : is_boot_id boot = true ->
    step (mkSystem w ss) (mkSystem (mkWorld boot ∅ (w_names w) (w_files w) (w_next w) (w_ever w) (w_tokens w) (w_dir w) (w_removed w)) ∅)
| step_gc w ss files : Forall (fun n => is_shard_name n = true) files ->
    step (mkSystem w ss) (mkSystem (drop_shards files w) ss).

(** The next call of a store is one on the shards. *)
Definition critical (p : run) : bool := match p with Vis c _ => on_shards c | Ret _ => false end.
End system.
