(* ===== verification/ReceiptLockLogic.v ===== *)
(** * The invariant of the append lock

    What the directory and the stores of [ReceiptLock] satisfy at every moment.  The ghost
    state of a store says how far it is with its claim and which facts it has learnt; a fact
    is one that no other store can undo.  A store with a claim in the directory is [Inside];
    it is [Holding] once it has found nothing that blocks.  The heart of the invariant is
    [apart]: of two stores inside, one has yet to see the claim of the other. *)

From Stdlib Require Import Ascii.
From S2P Require Import Prelude Js JsText CanonicalJson Sha256 JsConvert JsonParse TextLines NodeBuffer.
From S2P Require Import Receipts ReceiptsSafety Interleave ReceiptLock.

(** ** Texts *)

Lemma sapp_inj_r (a b c : string) : a +:+ c = b +:+ c -> a = b.
Proof.
  intros E. assert (String.length a = String.length b) as El.
  { apply (f_equal String.length) in E. rewrite !length_sapp in E. lia. }
  rewrite <- (prefix_app a c), <- (prefix_app b c), E. by rewrite El.
Qed.

Lemma slice_from_add n m s : slice_from (n + m) s = slice_from m (slice_from n s).
Proof. revert s. induction n as [|n IH]; intros [|c s]; cbn; [done|done|by destruct m|apply IH]. Qed.

Lemma prefix_app_n n a b : String.length a = n -> prefix_of_length n (a +:+ b) = a.
Proof. intros <-. apply prefix_app. Qed.

Lemma claim_name_inj t t' : appendLockClaimNameV1 t = appendLockClaimNameV1 t' -> t = t'.
Proof. intros E. apply (inj (String.append ".receipts-append-claim-")) in E. by apply sapp_inj_r in E. Qed.

Lemma claim_not_release t t' : appendLockClaimNameV1 t <> appendLockReleaseNameV1 t'.
Proof. intros E. apply (f_equal (String.get 17)) in E. discriminate E. Qed.

Lemma is_claim_name_token t : is_token t = true -> is_claim_name (appendLockClaimNameV1 t) = true.
Proof.
  intros Ht. unfold is_claim_name, appendLockClaimNameV1. rewrite slice_0_app by done.
  pose proof (hex_digits_length _ _ Ht) as Hl. unfold slice.
  rewrite slice_from_app_n by done. rewrite (prefix_app_n (55 - 23) t ".json") by done.
  rewrite Ht. change 55%nat with (23 + 32)%nat. rewrite slice_from_add, !slice_from_app_n by done. done.
Qed.

(** *** What [/proc] says of a process *)

Lemma forallb_sub (p q : ascii -> bool) s : (forall c, p c = true -> q c = true) -> string_forallb p s = true -> string_forallb q s = true.
Proof. intros Hpq. induction s as [|c s IH]; cbn; [done|]. rewrite !andb_true_iff. intros [? ?]. auto. Qed.

Lemma after_last_none c s : string_forallb (fun d => negb (Ascii.eqb d c)) s = true -> after_last c s = None.
Proof. induction s as [|d s IH]; cbn; [done|]. rewrite andb_true_iff, negb_true_iff. intros [-> ?]. by rewrite IH. Qed.

Lemma after_last_app c a s : string_forallb (fun d => negb (Ascii.eqb d c)) s = true -> after_last c (a +:+ String c s) = Some s.
Proof.
  intros Hs. induction a as [|d a IH].
  - change (EmptyString +:+ String c s) with (String c s). cbn. by rewrite after_last_none, Ascii.eqb_refl.
  - change (String d a +:+ String c s) with (String d (a +:+ String c s)). cbn. by rewrite IH.
Qed.

Definition no_space (c : ascii) : bool := negb (is_js_space c).

Lemma split_word w r : string_forallb no_space w = true -> (r = EmptyString \/ exists c r', r = String c r' /\ is_js_space c = true) ->
  split_spaces false (w +:+ r) = match split_spaces false r with x :: l => (w +:+ x) :: l | [] => [w] end.
Proof.
  intros Hw Hr. induction w as [|c w IH].
  - change (EmptyString +:+ r) with r. destruct Hr as [->|(c & r' & -> & Hc)]; [done|]. cbn. by rewrite Hc.
  - cbn in Hw. apply andb_true_iff in Hw as [Hc Hw]. unfold no_space in Hc. apply negb_true_iff in Hc.
    change (String c w +:+ r) with (String c (w +:+ r)). cbn [split_spaces]. rewrite Hc, IH by done.
    destruct (split_spaces false r) as [|x l] eqn:E; [|done].
    destruct Hr as [->|(d & r' & -> & Hd)]; [done|]. cbn in E. by rewrite Hd in E.
Qed.

Lemma is_field_char s : is_field s = true -> s <> EmptyString /\ string_forallb no_space s = true /\
  string_forallb (fun d => negb (Ascii.eqb d ")")) s = true.
Proof.
  unfold is_field. rewrite andb_true_iff, negb_true_iff. intros [Hn Hs]. split_and!.
  - intros ->. done.
  - eapply forallb_sub; [|exact Hs]. intros c. unfold no_space. by rewrite andb_true_iff; intros [? _].
  - eapply forallb_sub; [|exact Hs]. intros c. by rewrite andb_true_iff; intros [_ ?].
Qed.

(** Fields behind the first one, each after one blank *)
Lemma split_fields x l : forallb is_field (x :: l) = true -> split_spaces false (x +:+ spaced l) = x :: l.
Proof.
  revert x. induction l as [|y l IH]; intros x Hl; apply andb_true_iff in Hl as [Hx Hl].
  - destruct (is_field_char x Hx) as (_ & Hw & _). change (spaced []) with EmptyString. rewrite split_word by (by auto).
    cbn [split_spaces]. by rewrite sapp_nil_r.
  - destruct (is_field_char x Hx) as (_ & Hw & _). cbn [spaced]. change (" " +:+ y +:+ spaced l) with (String " " (y +:+ spaced l)).
    rewrite split_word by eauto. cbn [split_spaces]. rewrite (eq_refl : is_js_space " " = true).
    assert (split_spaces true (y +:+ spaced l) = split_spaces false (y +:+ spaced l)) as ->.
    { pose proof Hl as Hy. apply andb_true_iff in Hy as [Hy _]. destruct (is_field_char y Hy) as (Hn & Hsp & _).
      destruct y as [|c y]; [done|]. cbn in Hsp. apply andb_true_iff in Hsp as [Hc _]. unfold no_space in Hc. apply negb_true_iff in Hc.
      change (String c y +:+ spaced l) with (String c (y +:+ spaced l)). cbn [split_spaces]. by rewrite Hc. }
    rewrite IH by done. by rewrite sapp_nil_r.
Qed.

Lemma trim_end_word a w : w <> EmptyString -> string_forallb no_space w = true -> trim_end (a +:+ w) = a +:+ w.
Proof.
  intros Hn Hw. assert (forall w, string_forallb no_space w = true -> trim_end w = w) as Hall.
  { clear. induction w as [|c w IH]; [done|]. cbn. rewrite andb_true_iff. unfold no_space at 1. rewrite negb_true_iff. intros [Hc Hw].
    rewrite IH by done. destruct w; [by rewrite Hc|done]. }
  induction a as [|c a IH]; [by apply Hall|]. change (String c a +:+ w) with (String c (a +:+ w)). cbn [trim_end]. rewrite IH.
  destruct (a +:+ w) eqn:E; [|done]. destruct a; [by destruct w|done].
Qed.

Lemma trim_end_newline s : trim_end (s +:+ char_text 10) = trim_end s.
Proof.
  induction s as [|c s IH]; [done|]. change (String c s +:+ char_text 10) with (String c (s +:+ char_text 10)). cbn [trim_end].
  by rewrite IH.
Qed.

Lemma trim_start_word c s : is_js_space c = false -> trim_start (String c s) = String c s.
Proof. intros Hc. cbn. by rewrite Hc. Qed.

Lemma last_field x l : forallb is_field (x :: l) = true -> exists a w, x +:+ spaced l = a +:+ w /\ is_field w = true.
Proof.
  revert x. induction l as [|y l IH]; intros x Hl; apply andb_true_iff in Hl as [Hx Hl].
  - exists EmptyString, x. by rewrite sapp_nil_r.
  - destruct (IH y Hl) as (a & w & E & Hw). exists (x +:+ " " +:+ a), w. cbn [spaced]. by rewrite E, !sapp_assoc.
Qed.

Lemma trim_fields x l : forallb is_field (x :: l) = true -> trim (spaced (x :: l) +:+ char_text 10) = x +:+ spaced l.
Proof.
  intros Hl. destruct (last_field x l Hl) as (a & w & E & Hw). destruct (is_field_char w Hw) as (Hn & Hs & _).
  pose proof Hl as Hx. apply andb_true_iff in Hx as [Hx _]. destruct (is_field_char x Hx) as (Hxn & Hxs & _).
  unfold trim. cbn [spaced]. change ((" " +:+ x +:+ spaced l) +:+ char_text 10) with (String " " ((x +:+ spaced l) +:+ char_text 10)).
  cbn [trim_start]. rewrite (eq_refl : is_js_space " " = true). destruct x as [|c x]; [done|].
  cbn in Hxs. apply andb_true_iff in Hxs as [Hc _]. unfold no_space in Hc. apply negb_true_iff in Hc.
  change (trim_start ((String c x +:+ spaced l) +:+ char_text 10)) with (trim_start (String c ((x +:+ spaced l) +:+ char_text 10))).
  rewrite trim_start_word by done. change (String c ((x +:+ spaced l) +:+ char_text 10)) with ((String c x +:+ spaced l) +:+ char_text 10).
  rewrite trim_end_newline, E. by apply trim_end_word.
Qed.

Lemma boot_id_no_space s : is_boot_id s = true -> s <> EmptyString /\ string_forallb no_space s = true.
Proof.
  unfold is_boot_id. rewrite andb_true_iff. intros [Hl Hs]. split; [by intros ->|]. eapply forallb_sub; [|exact Hs].
  intros c. destruct c as [[][][][][][][][]]; done.
Qed.

Lemma trim_boot boot : is_boot_id boot = true -> trim (boot +:+ char_text 10) = boot.
Proof.
  intros Hb. destruct (boot_id_no_space boot Hb) as [Hn Hs]. unfold trim. destruct boot as [|c s]; [done|].
  change (String c s +:+ char_text 10) with (String c (s +:+ char_text 10)).
  pose proof Hs as Hc. cbn in Hc. apply andb_true_iff in Hc as [Hc _]. unfold no_space in Hc. apply negb_true_iff in Hc.
  rewrite trim_start_word by done. change (String c (s +:+ char_text 10)) with (String c s +:+ char_text 10).
  rewrite trim_end_newline. by apply (trim_end_word EmptyString).
Qed.

Definition instance_text (boot : string) (start : Z) : string := "linux:" +:+ boot +:+ ":" +:+ dec start.

Lemma spaced_no_paren l : forallb is_field l = true -> string_forallb (fun d => negb (Ascii.eqb d ")")) (spaced l) = true.
Proof.
  induction l as [|x l IH]; [done|]. intros Hl. apply andb_true_iff in Hl as [Hx Hl]. destruct (is_field_char x Hx) as (_ & _ & Hp).
  cbn [spaced]. rewrite !forallb_sapp, Hp, IH by done. done.
Qed.

Lemma is_digits_dec z : is_digits (dec z) = true.
Proof.
  unfold is_digits. rewrite dec_digits, andb_true_r, negb_true_iff. apply String.eqb_neq. intros E.
  pose proof (dec_canonical z) as Hc. by rewrite E in Hc.
Qed.

(** A process is told apart by its boot and its start time, whatever its command is called. *)
Lemma instance_of_proc boot pid comm fields start : is_boot_id boot = true -> forallb is_field fields = true ->
  fields !! 19%nat = Some (dec start) ->
  instance_of (trim (boot +:+ char_text 10)) (proc_stat pid comm fields) = Some (instance_text boot start).
Proof.
  intros Hb Hf Hs. unfold instance_of. rewrite trim_boot, Hb by done.
  assert (after_last ")" (proc_stat pid comm fields) = Some (spaced fields +:+ char_text 10)) as ->.
  { unfold proc_stat. rewrite <- !sapp_assoc. rewrite (sapp_assoc (_ +:+ comm)), (sapp_assoc _ _ (char_text 10)).
    rewrite (sapp_assoc ")"). change (")" +:+ spaced fields +:+ char_text 10) with (String ")" (spaced fields +:+ char_text 10)).
    apply after_last_app. by rewrite forallb_sapp, spaced_no_paren. }
  destruct fields as [|x l]; [done|]. rewrite trim_fields, split_fields by done. rewrite Hs. cbn [default]. unfold default, id. cbn [from_option].
  by rewrite is_digits_dec.
Qed.

(** ** Ghost states *)

(** How far the search for other claims is: not begun, the listing begun, the names still to
    look at and whether one has blocked, or the lock held with the directory as it is. *)
Inductive view : Type :=
| Fresh
| Listing (begun : list string)
| Scanning (todo : list string) (blocked : bool)
| Holding (d : option directory).

Inductive stage : Type :=
| Outside
| Drawn (token : string)
| Inside (token instance : string) (v : view).

Inductive fact : Type :=
| Retired (name : string)
| Bound (name : string) (h : nat)
| Content (h : nat) (bytes : list Z)
| Recorded (batch : list Receipt).

Record ghost := mkGhost {
  g_pid : Z; g_boot : string; g_start : Z; g_stage : stage; g_temp : option (nat * list Z); g_facts : list fact
}.

Definition token_of (g : ghost) : option string :=
  match g_stage g with Outside => None | Drawn t | Inside t _ _ => Some t end.

Definition claims (g : ghost) (t : string) : Prop := exists instance v, g_stage g = Inside t instance v.

Definition sees (g : ghost) (t : string) : Prop :=
  match g_stage g with
  | Inside _ _ Fresh => True
  | Inside _ _ (Listing begun) => appendLockClaimNameV1 t ∈ begun
  | Inside _ _ (Scanning todo blocked) => blocked = true \/ appendLockClaimNameV1 t ∈ todo
  | _ => False
  end.

(** ** The invariant *)

(** *** Shards that were dropped *)

(** A receipt of a shard among the removed ones *)
Definition dropped (removed : directory) (r : Receipt) : Prop := exists name rs, (name, shard_bytes rs) ∈ removed /\ r ∈ rs.

Lemma dropped_mono removed removed' r : removed ⊆ removed' -> dropped removed r -> dropped removed' r.
Proof. intros Hsub (name & rs & Hin & Hr). exists name, rs. auto. Qed.

(** [d'] is what is left of [d] after shards of it were dropped. *)
Definition reduced (removed d d' : directory) : Prop :=
  exists names, Forall (fun n => is_shard_name n = true) names /\ d' = remove_files names d /\
    forall f, f ∈ d -> f.1 ∈ names -> f ∈ removed.

Section invariant.
Context (linux : bool).

Record global_ok (w : world) : Prop := mkGlobalOk {
  gl_boot : is_boot_id (w_boot w) = true;
  gl_names : forall n h, w_names w !! n = Some h -> n ∈ w_ever w /\ is_Some (w_files w !! h);
  gl_next : forall h, is_Some (w_files w !! h) -> (h < w_next w)%nat;
  gl_tokens : forall t, appendLockClaimNameV1 t ∈ w_ever w \/ appendLockReleaseNameV1 t ∈ w_ever w -> t ∈ w_tokens w;
  gl_procs : forall pid p, w_procs w !! pid = Some p -> is_pid pid = true /\ 0 <= p_start p /\
    (linux = true -> p_cache p = EmptyString \/ p_cache p = instance_text (w_boot w) (p_start p));
  gl_dir : exists shards, holds shards (w_dir w);
  gl_lock : forall n, n ∈ w_ever w -> is_shard_name n = false
}.

Definition has_bytes (w : world) (h : nat) (bytes : list Z) : Prop := exists f, w_files w !! h = Some f /\ f_bytes f = bytes.

(** The claim of [token] is in the directory, with no release, and says who made it. *)
Record claim_ok (w : world) (pid : Z) (t instance : string) : Prop := mkClaimOk {
  co_token : is_token t = true;
  co_drawn : t ∈ w_tokens w;
  co_release : appendLockReleaseNameV1 t ∉ w_ever w;
  co_file : exists h dev ino, w_names w !! appendLockClaimNameV1 t = Some h /\
    has_bytes w h (record_bytes (claim_json pid instance t dev ino));
  co_instance : linux = true -> exists p, w_procs w !! pid = Some p /\ instance = instance_text (w_boot w) (p_start p)
}.

(** What a holder of the lock knows of the directory after it has read [d] *)
Definition view_ok (w : world) (d : directory) : Prop :=
  (exists shards, holds shards d) /\ reduced (w_removed w) d (w_dir w).

Definition stage_ok (w : world) (pid : Z) (s : stage) : Prop :=
  match s with
  | Outside => True
  | Drawn t => is_token t = true /\ t ∈ w_tokens w /\ (appendLockClaimNameV1 t ∉ w_ever w) /\ appendLockReleaseNameV1 t ∉ w_ever w
  | Inside t instance v => claim_ok w pid t instance /\ forall d, v = Holding (Some d) -> view_ok w d
  end.

Definition fact_ok (w : world) (x : fact) : Prop :=
  match x with
  | Retired n | Bound n _ => n ∈ w_ever w
  | Content h bytes => has_bytes w h bytes
  | Recorded batch => exists shards, holds shards (w_dir w) /\
      forall r, r ∈ batch -> recorded shards (r_h r) = Some r \/ dropped (w_removed w) r
  end.

Record thread_ok (w : world) (g : ghost) : Prop := mkThreadOk {
  to_live : exists p, w_procs w !! g_pid g = Some p /\ p_start p = g_start g;
  to_boot : g_boot g = w_boot w;
  to_temp : forall h bytes, g_temp g = Some (h, bytes) -> has_bytes w h bytes /\ forall n, w_names w !! n <> Some h;
  to_stage : stage_ok w (g_pid g) (g_stage g);
  to_facts : forall x, x ∈ g_facts g -> fact_ok w x
}.

(** A fact that one store knows, against the state of any store *)
Definition fact_vs (w : world) (x : fact) (g : ghost) : Prop :=
  match x with
  | Retired n => forall t, claims g t -> n <> appendLockClaimNameV1 t
  | Bound n h => forall t, claims g t -> n = appendLockClaimNameV1 t -> w_names w !! n = Some h
  | Content h _ => forall bytes, g_temp g <> Some (h, bytes)
  | Recorded _ => True
  end.

Record apart (g g' : ghost) : Prop := mkApart {
  ap_temp : forall h h' b b', g_temp g = Some (h, b) -> g_temp g' = Some (h', b') -> h <> h';
  ap_token : forall t t', token_of g = Some t -> token_of g' = Some t' -> t <> t';
  ap_sees : forall t t', claims g t -> claims g' t' -> sees g t' \/ sees g' t
}.

Record Inv (w : world) (gs : gmap nat ghost) : Prop := mkInv {
  iv_global : global_ok w;
  iv_thread : forall i g, gs !! i = Some g -> thread_ok w g;
  iv_facts : forall i j g g' x, gs !! i = Some g -> gs !! j = Some g' -> x ∈ g_facts g -> fact_vs w x g';
  iv_apart : forall i j g g', i <> j -> gs !! i = Some g -> gs !! j = Some g' -> apart g g'
}.

Lemma apart_sym g g' : apart g g' -> apart g' g.
Proof.
  intros [H1 H2 H3]. split.
  - intros h h' b b' E E' ->. by eapply (H1 h' h').
  - intros t t' E E' ->. by eapply (H2 t' t').
  - intros t t' Hc Hc'. destruct (H3 t' t Hc' Hc); auto.
Qed.

Lemma claims_token g t : claims g t -> token_of g = Some t.
Proof. intros (instance & v & E). unfold token_of. by rewrite E. Qed.

(** What a step of one store has to leave to another *)
Record carries (w w' : world) (g : ghost) : Prop := mkCarries {
  ca_thread : thread_ok w g -> thread_ok w' g;
  ca_facts : forall x, fact_vs w x g -> fact_vs w' x g
}.

Lemma carries_refl w g : carries w w g.
Proof. by split. Qed.

Lemma Inv_step w gs i g w' g' : Inv w gs -> gs !! i = Some g -> global_ok w' -> thread_ok w' g' ->
  (forall x, x ∈ g_facts g' -> fact_vs w' x g') ->
  (forall j gj, j <> i -> gs !! j = Some gj -> carries w w' gj /\
    (forall x, x ∈ g_facts g' -> fact_vs w' x gj) /\ (forall x, x ∈ g_facts gj -> fact_vs w' x g') /\ apart g' gj) ->
  Inv w' (<[i := g']> gs).
Proof.
  intros [Hg Ht Hf Ha] Hi Hg' Ht' Hown Ho. split; [done|..].
  - intros j gj. rewrite lookup_insert. case_decide as Ej; [by intros [= <-]|]. intros Hj.
    destruct (Ho j gj (not_eq_sym Ej) Hj) as [[Hc _] _]. by eapply Hc, Ht.
  - intros j k gj gk x. rewrite !lookup_insert. case_decide as Ej; case_decide as Ek.
    + intros [= <-] [= <-]. apply Hown.
    + intros [= <-] Hk. by apply (Ho k gk (not_eq_sym Ek) Hk).
    + intros Hj [= <-]. by apply (Ho j gj (not_eq_sym Ej) Hj).
    + intros Hj Hk Hx. destruct (Ho k gk (not_eq_sym Ek) Hk) as [[_ Hc] _]. apply Hc. by eapply (Hf j k).
  - intros j k gj gk Hjk. rewrite !lookup_insert. case_decide as Ej; case_decide as Ek; [congruence|..].
    + intros [= <-] Hk. by apply (Ho k gk (not_eq_sym Ek) Hk).
    + intros Hj [= <-]. apply apart_sym. by apply (Ho j gj (not_eq_sym Ej) Hj).
    + by apply Ha.
Qed.

(** *** Steps that change nothing but the ghost state *)

Definition with_stage (s : stage) (g : ghost) : ghost := mkGhost (g_pid g) (g_boot g) (g_start g) s (g_temp g) (g_facts g).
Definition with_temp (t : option (nat * list Z)) (g : ghost) : ghost := mkGhost (g_pid g) (g_boot g) (g_start g) (g_stage g) t (g_facts g).
Definition with_fact (x : fact) (g : ghost) : ghost := mkGhost (g_pid g) (g_boot g) (g_start g) (g_stage g) (g_temp g) (x :: g_facts g).

Lemma claims_with_fact x g t : claims (with_fact x g) t <-> claims g t.
Proof. done. Qed.

Lemma Inv_fact w gs i g x : Inv w gs -> gs !! i = Some g -> fact_ok w x ->
  (forall j gj, gs !! j = Some gj -> fact_vs w x gj) -> Inv w (<[i := with_fact x g]> gs).
Proof.
  intros HI Hi Hok Hvs. pose proof HI as [Hg Ht Hf Ha]. destruct (Ht i g Hi) as [T1 T2 T3 T4 T5].
  apply (Inv_step w gs i g w); [done|done|done|split; cbn; [done..|]| |].
  - intros y [->|Hy]%elem_of_cons; [done|by apply T5].
  - intros y. cbn. intros [->|Hy]%elem_of_cons; [apply (Hvs i g Hi)|]. by apply (Hf i i g g).
  - intros j gj Hj Hgj. split; [apply carries_refl|]. split_and!.
    + intros y. cbn. intros [->|Hy]%elem_of_cons; [by apply (Hvs j gj)|]. by apply (Hf i j g gj).
    + intros y Hy. by apply (Hf j i gj g).
    + destruct (Ha i j g gj (not_eq_sym Hj) Hi Hgj) as [A1 A2 A3]. by split.
Qed.

(** The stage moves on under the same claim, or the claim is given up. *)
Lemma Inv_stage w gs i g s : Inv w gs -> gs !! i = Some g -> stage_ok w (g_pid g) s ->
  (forall t, token_of (with_stage s g) = Some t -> token_of g = Some t \/ forall j gj, j <> i -> gs !! j = Some gj -> token_of gj <> Some t) ->
  (forall t, claims (with_stage s g) t -> claims g t) ->
  (forall j gj t t', j <> i -> gs !! j = Some gj -> claims (with_stage s g) t -> claims gj t' -> sees g t' \/ sees gj t ->
    sees (with_stage s g) t' \/ sees gj t) ->
  Inv w (<[i := with_stage s g]> gs).
Proof.
  intros HI Hi Hs Htok Hcl Hsees. pose proof HI as [Hg Ht Hf Ha]. destruct (Ht i g Hi) as [T1 T2 T3 T4 T5].
  assert (forall x, fact_vs w x g -> fact_vs w x (with_stage s g)) as Hvs.
  { intros [n|n h|h b|b]; cbn; [intros Hx t Hc; by apply Hx, Hcl|intros Hx t Hc; by apply Hx, Hcl|done|done]. }
  apply (Inv_step w gs i g w); [done|done|done|by split| |].
  - intros x Hx. apply Hvs. by apply (Hf i i g g).
  - intros j gj Hj Hgj. split; [apply carries_refl|]. split_and!.
    + intros y Hy. by apply (Hf i j g gj).
    + intros y Hy. apply Hvs. by apply (Hf j i gj g).
    + destruct (Ha i j g gj (not_eq_sym Hj) Hi Hgj) as [A1 A2 A3]. split; [done| |].
      * intros t t' E E'. destruct (Htok t E) as [Et|Hnew]; [by eapply A2|]. intros ->. by eapply Hnew.
      * intros t t' Hc Hc'. apply (Hsees j gj t t'); [done..|]. apply A3; [by apply Hcl|done].
Qed.

Lemma Inv_temp_none w gs i g : Inv w gs -> gs !! i = Some g -> Inv w (<[i := with_temp None g]> gs).
Proof.
  intros HI Hi. pose proof HI as [Hg Ht Hf Ha]. destruct (Ht i g Hi) as [T1 T2 T3 T4 T5].
  assert (forall x, fact_vs w x g -> fact_vs w x (with_temp None g)) as Hvs by (by intros []).
  apply (Inv_step w gs i g w); [done|done|done|by split| |].
  - intros x Hx. apply Hvs. by apply (Hf i i g g).
  - intros j gj Hj Hgj. split; [apply carries_refl|]. split_and!.
    + intros y Hy. by apply (Hf i j g gj).
    + intros y Hy. apply Hvs. by apply (Hf j i gj g).
    + destruct (Ha i j g gj (not_eq_sym Hj) Hi Hgj) as [A1 A2 A3]. by split.
Qed.

(** *** Steps that change the world *)

(** The receipts of a directory stay recorded. *)
Definition grows (d d' : directory) : Prop := forall shards, holds shards d ->
  exists shards', holds shards' d' /\ forall h r, recorded shards h = Some r -> recorded shards' h = Some r.

Lemma grows_refl d : grows d d.
Proof. intros shards Hs. by exists shards. Qed.

(** The receipts of a world stay recorded unless their shard is dropped on the way. *)
Definition keeps (w w' : world) : Prop := exists new, w_removed w' = w_removed w ++ new /\
  forall shards, holds shards (w_dir w) -> exists shards', holds shards' (w_dir w') /\
    forall h r, recorded shards h = Some r -> recorded shards' h = Some r \/ dropped new r.

Lemma keeps_grows w w' : grows (w_dir w) (w_dir w') -> w_removed w' = w_removed w -> keeps w w'.
Proof.
  intros Hg E'. exists []. split; [by rewrite E', app_nil_r|]. intros shards Hs. destruct (Hg shards Hs) as (shards' & Hs' & Hk). exists shards'. auto.
Qed.

Lemma keeps_same w w' : w_dir w' = w_dir w -> w_removed w' = w_removed w -> keeps w w'.
Proof. intros E E'. apply keeps_grows; [rewrite E; apply grows_refl|done]. Qed.

Lemma keeps_trans w1 w2 w3 : keeps w1 w2 -> keeps w2 w3 -> keeps w1 w3.
Proof.
  intros (n1 & R1 & H1) (n2 & R2 & H2). exists (n1 ++ n2). split; [by rewrite R2, R1, app_assoc|]. intros s1 Hs1.
  destruct (H1 s1 Hs1) as (s2 & Hs2 & K1). destruct (H2 s2 Hs2) as (s3 & Hs3 & K2). exists s3. split; [done|]. intros h r Hr.
  destruct (K1 h r Hr) as [Hr2|Hd]; [destruct (K2 h r Hr2) as [?|Hd]; [by left|]|]; right; (eapply dropped_mono; [|exact Hd]); set_solver.
Qed.

(** The files that the state of a store speaks of *)
Definition relies (w : world) (g : ghost) (h : nat) : Prop :=
  (exists b, g_temp g = Some (h, b)) \/ (exists b, Content h b ∈ g_facts g) \/
  (exists t, claims g t /\ w_names w !! appendLockClaimNameV1 t = Some h).

Record evolves (w w' : world) (g : ghost) : Prop := mkEvolves {
  ev_boot : w_boot w' = w_boot w;
  ev_procs : forall p, w_procs w !! g_pid g = Some p -> exists p', w_procs w' !! g_pid g = Some p' /\ p_start p' = p_start p;
  ev_tokens : w_tokens w ⊆ w_tokens w';
  ev_ever : w_ever w ⊆ w_ever w';
  ev_fresh : forall t, token_of g = Some t -> appendLockReleaseNameV1 t ∈ w_ever w' -> appendLockReleaseNameV1 t ∈ w_ever w;
  ev_drawn : forall t, g_stage g = Drawn t -> appendLockClaimNameV1 t ∈ w_ever w' -> appendLockClaimNameV1 t ∈ w_ever w;
  ev_claim : forall t h, claims g t -> w_names w !! appendLockClaimNameV1 t = Some h -> w_names w' !! appendLockClaimNameV1 t = Some h;
  ev_temp : forall h b n, g_temp g = Some (h, b) -> w_names w' !! n = Some h -> w_names w !! n = Some h;
  ev_bytes : forall h b, relies w g h -> has_bytes w h b -> has_bytes w' h b;
  ev_dir : forall t instance d, g_stage g = Inside t instance (Holding (Some d)) -> view_ok w d -> view_ok w' d;
  ev_keeps : keeps w w'
}.

Lemma evolves_stage w w' g : evolves w w' g -> stage_ok w (g_pid g) (g_stage g) -> stage_ok w' (g_pid g) (g_stage g).
Proof.
  intros He. destruct (g_stage g) as [|t|t instance v] eqn:Es; cbn; [done|..].
  - intros (Ht & Hd & Hc & Hr). split_and!; [done|by apply (ev_tokens _ _ _ He)| |].
    + intros Hin. by apply Hc, (ev_drawn _ _ _ He).
    + intros Hin. apply Hr, (ev_fresh _ _ _ He); [|done]. unfold token_of. by rewrite Es.
  - assert (claims g t) as Hcl by (by exists instance, v).
    intros [[C1 C2 C3 (h & dev & ino & Hn & Hb) C5] Hd]. split.
    + split; [done|by apply (ev_tokens _ _ _ He)| | |].
      * intros Hin. apply C3, (ev_fresh _ _ _ He); [|done]. by apply claims_token.
      * exists h, dev, ino. split; [by apply (ev_claim _ _ _ He)|]. apply (ev_bytes _ _ _ He); [|done]. right; right. by exists t.
      * intros El. destruct (C5 El) as (p & Hp & ->). destruct (ev_procs _ _ _ He _ Hp) as (p' & Hp' & Ep).
        exists p'. split; [done|]. by rewrite (ev_boot _ _ _ He), Ep.
    + intros d ->. by eapply (ev_dir _ _ _ He), Hd.
Qed.

Lemma evolves_carries w w' g : evolves w w' g -> carries w w' g.
Proof.
  intros He. split.
  - intros [(p & Hp & Es) T2 T3 T4 T5]. split.
    + destruct (ev_procs _ _ _ He _ Hp) as (p' & Hp' & E'). exists p'. split; [done|congruence].
    + by rewrite (ev_boot _ _ _ He).
    + intros h b Eh. destruct (T3 h b Eh) as [Hb Hn]. split; [apply (ev_bytes _ _ _ He); [left; eauto|done]|].
      intros n Hn'. by eapply Hn, (ev_temp _ _ _ He).
    + by apply (evolves_stage w).
    + intros x Hx. specialize (T5 x Hx). destruct x as [n|n h|h b|b]; cbn in *.
      * by apply (ev_ever _ _ _ He).
      * by apply (ev_ever _ _ _ He).
      * apply (ev_bytes _ _ _ He); [right; left; eauto|done].
      * destruct T5 as (shards & Hs & Hr). destruct (ev_keeps _ _ _ He) as (new & -> & Hkeep). destruct (Hkeep shards Hs) as (shards' & Hs' & Hk).
        exists shards'. split; [done|]. intros r Hin. destruct (Hr r Hin) as [Hrec|Hrec]; [destruct (Hk _ _ Hrec) as [?|Hd]; [by left|]|].
        -- right. eapply dropped_mono; [|exact Hd]. set_solver.
        -- right. eapply dropped_mono; [|exact Hrec]. set_solver.
  - intros [n|n h|h b|b]; cbn; [done| |done|done]. intros Hx t Hc ->. apply (ev_claim _ _ _ He); [done|]. by apply (Hx t).
Qed.

Lemma Inv_evolve w gs w' : Inv w gs -> global_ok w' -> (forall j gj, gs !! j = Some gj -> evolves w w' gj) -> Inv w' gs.
Proof.
  intros [Hg Ht Hf Ha] Hg' Ho. split; [done|..].
  - intros j gj Hj. apply (ca_thread w); [|by eapply Ht]. by apply evolves_carries, (Ho j).
  - intros j k gj gk x Hj Hk Hx. apply (ca_facts w w'); [|by eapply (Hf j k)]. by apply evolves_carries, (Ho k).
  - done.
Qed.

Ltac evolve := split; cbn; [done|by eauto|set_solver|set_solver|set_solver|set_solver|by eauto|by eauto|by eauto|done|by apply keeps_same].

Lemma Inv_draw w gs t : Inv w gs -> Inv (draw_token t w) gs.
Proof.
  intros HI. apply (Inv_evolve w); [done| |].
  - destruct (iv_global _ _ HI) as [G1 G2 G3 G4 G5 G6 G7]. split; cbn; try done. intros t' Ht. apply elem_of_union_r. by apply G4.
  - intros j gj Hj. evolve.
Qed.

Lemma token_drawn w g t : thread_ok w g -> token_of g = Some t -> t ∈ w_tokens w.
Proof.
  intros [_ _ _ T4 _]. unfold token_of, stage_ok in *. destruct (g_stage g) as [|t'|t' instance v]; intros [= ->].
  - apply T4.
  - apply T4.
Qed.

Lemma Inv_draw_token w gs i g t : Inv w gs -> gs !! i = Some g -> t ∉ w_tokens w -> is_token t = true ->
  Inv (draw_token t w) (<[i := with_stage (Drawn t) g]> gs).
Proof.
  intros HI Hi Ht Htok. apply (Inv_stage (draw_token t w)); [by apply Inv_draw|done| | | |].
  - cbn. split_and!; [done|set_solver|..]; intros Hin; apply Ht; apply (gl_tokens w (iv_global _ _ HI)); auto.
  - cbn. intros t' [= <-]. right. intros j gj Hj Hgj E. apply Ht. eapply token_drawn; [|done]. by eapply (iv_thread _ _ HI).
  - intros t' (instance & v & [=]).
  - intros j gj t1 t2 Hj Hgj (instance & v & [=]).
Qed.

Lemma has_bytes_next w h b : global_ok w -> has_bytes w h b -> (h < w_next w)%nat.
Proof. intros Hg (f & Hf & _). apply (gl_next w Hg). eauto. Qed.

Lemma Inv_create w gs i g x : Inv w gs -> gs !! i = Some g ->
  Inv (create_file x w) (<[i := with_temp (Some (w_next w, f_bytes x)) g]> gs).
Proof.
  intros HI Hi. pose proof HI as [Hg Ht Hf Ha]. destruct (iv_global _ _ HI) as [G1 G2 G3 G4 G5 G6 G7].
  assert (forall gj, evolves w (create_file x w) gj) as Hev.
  { intros gj. split; cbn; [done|by eauto|done|done|done|done|done|done| |done|by apply keeps_same].
    intros h b _ Hb. pose proof (has_bytes_next w h b Hg Hb). destruct Hb as (f & Hf' & Eb). exists f. cbn.
    rewrite lookup_insert_ne by lia. done. }
  assert (forall n, w_names w !! n <> Some (w_next w)) as Hn.
  { intros n E. destruct (G2 _ _ E) as [_ Hs]. apply G3 in Hs. lia. }
  assert (forall j gj, gs !! j = Some gj -> forall y, y ∈ g_facts gj -> forall b, y <> Content (w_next w) b) as Hc.
  { intros j gj Hj y Hy b ->. pose proof (to_facts _ _ (Ht j gj Hj) _ Hy) as Hb. apply (has_bytes_next w) in Hb; [lia|done]. }
  assert (forall y, (forall b, y <> Content (w_next w) b) -> fact_vs (create_file x w) y g ->
    fact_vs (create_file x w) y (with_temp (Some (w_next w, f_bytes x)) g)) as Hvs.
  { intros [n|n h|h b|b] Hy; cbn; try done. intros _ b' [= E _]. by eapply Hy; rewrite E. }
  assert (forall j k gj gk y, gs !! j = Some gj -> gs !! k = Some gk -> y ∈ g_facts gj -> fact_vs (create_file x w) y gk) as Hf'.
  { intros j k gj gk y Hj Hk Hy. apply (ca_facts w); [by apply evolves_carries|]. by eapply (Hf j k). }
  destruct (ca_thread _ _ _ (evolves_carries _ _ _ (Hev g)) (Ht i g Hi)) as [T1 T2 T3 T4 T5].
  apply (Inv_step w gs i g); [done|done| | | |].
  - split; cbn; [done| | |done|done|done|done].
    + intros n h E. destruct (G2 n h E) as [? [f Hh]]. split; [done|]. destruct (decide (h = w_next w)) as [->|Hne]; [by rewrite lookup_insert_eq|].
      rewrite lookup_insert_ne by done. eauto.
    + intros h. rewrite lookup_insert. case_decide; [lia|]. intros Hs. specialize (G3 h Hs). lia.
  - split; cbn; [done|done| |done|done]. intros h b [= <- <-]. split; [|done]. exists x. split; [apply lookup_insert_eq|done].
  - intros y Hy. apply Hvs; [by eapply (Hc i)|by eapply (Hf' i i)].
  - intros j gj Hj Hgj. split; [by apply evolves_carries|]. split_and!.
    + intros y Hy. by eapply (Hf' i j).
    + intros y Hy. apply Hvs; [by eapply (Hc j)|by eapply (Hf' j i)].
    + destruct (Ha i j g gj (not_eq_sym Hj) Hi Hgj) as [A1 A2 A3]. split; [|done|done].
      cbn. intros h h' b b' [= <- <-] E <-. destruct (to_temp _ _ (Ht j gj Hgj) _ _ E) as [Hb _]. apply (has_bytes_next w) in Hb; [lia|done].
Qed.

Lemma Inv_restamp w gs h m c : Inv w gs -> Inv (set_files (alter (restamp m c) h) w) gs.
Proof.
  intros HI.
  assert (forall h', is_Some (alter (restamp m c) h (w_files w) !! h') <-> is_Some (w_files w !! h')) as Hs.
  { intros h'. destruct (decide (h' = h)) as [->|Hne]; [rewrite lookup_alter_eq; by rewrite fmap_is_Some|by rewrite lookup_alter_ne]. }
  apply (Inv_evolve w); [done| |].
  - destruct (iv_global _ _ HI) as [G1 G2 G3 G4 G5 G6 G7]. split; cbn; [done| | |done|done|done|done].
    + intros n h' E. rewrite Hs. by eapply G2.
    + intros h'. rewrite Hs. apply G3.
  - intros j gj Hj. split; cbn; [done|by eauto|done|done|done|done|done|done| |done|by apply keeps_same].
    intros h' b _ (f & Hf & Eb). destruct (decide (h' = h)) as [->|Hne].
    + exists (restamp m c f). cbn. by rewrite lookup_alter_eq, Hf.
    + exists f. cbn. by rewrite lookup_alter_ne.
Qed.

(** Nobody else relies on the temporary file of a store. *)
Lemma temp_private w gs i j g gj h b h' : Inv w gs -> gs !! i = Some g -> gs !! j = Some gj -> i <> j ->
  g_temp g = Some (h, b) -> relies w gj h' -> h' <> h.
Proof.
  intros HI Hi Hj Hne Et [(b' & E)|[(b' & Hx)|(t & Hc & Hn)]] ->.
  - eapply (ap_temp _ _ (iv_apart _ _ HI i j g gj Hne Hi Hj)); done.
  - by eapply (iv_facts _ _ HI j i gj g (Content h b') Hj Hi Hx b).
  - by eapply (to_temp _ _ (iv_thread _ _ HI i g Hi) h b Et).
Qed.

Lemma Inv_write w gs i g h b F chunk : Inv w gs -> gs !! i = Some g -> g_temp g = Some (h, b) ->
  (forall f, f_bytes (F f) = f_bytes f ++ chunk) ->
  Inv (set_files (alter F h) w) (<[i := with_temp (Some (h, b ++ chunk)) g]> gs).
Proof.
  intros HI Hi Et HF. pose proof HI as [Hg Ht Hf Ha]. destruct Hg as [G1 G2 G3 G4 G5 G6 G7].
  destruct (Ht i g Hi) as [T1 T2 T3 T4 T5]. destruct (T3 h b Et) as [(f & Hff & Eb) Hn].
  set (w' := set_files (alter F h) w).
  assert (forall h', is_Some (w_files w' !! h') <-> is_Some (w_files w !! h')) as Hs.
  { intros h'. cbn. destruct (decide (h' = h)) as [->|Hne]; [rewrite lookup_alter_eq; by rewrite fmap_is_Some|by rewrite lookup_alter_ne]. }
  assert (forall h' b', h' <> h -> has_bytes w h' b' -> has_bytes w' h' b') as Hb.
  { intros h' b' Hne (f' & Hf' & E'). exists f'. cbn. by rewrite lookup_alter_ne. }
  assert (forall j gj, j <> i -> gs !! j = Some gj -> evolves w w' gj) as Hev.
  { intros j gj Hj Hgj. split; cbn; [done|by eauto|done|done|done|done|done|done| |done|by apply keeps_same].
    intros h' b' Hr. apply Hb. by eapply (temp_private w gs i j). }
  assert (forall y, fact_vs w y g -> fact_vs w' y (with_temp (Some (h, b ++ chunk)) g)) as Hvs.
  { intros [n|n h'|h' b'|b']; cbn; try done. intros Hx b'' [= <- _]. by eapply Hx. }
  apply (Inv_step w gs i g); [done|done| | | |].
  - split; cbn; [done| | |done|done|done|done]; [intros n h' E; split; [by eapply G2|]; apply Hs; by eapply G2|intros h' ?%Hs; by apply G3].
  - split; [done|done| | |].
    + intros h' b' [= <- <-]. split; [|done]. exists (F f). cbn. rewrite lookup_alter_eq, Hff. split; [done|]. by rewrite HF, Eb.
    + cbn. destruct (g_stage g) as [|t|t instance v]; [done|done|]. cbn in *. destruct T4 as [[C1 C2 C3 (h' & dev & ino & E & Hh') C5] Hd].
      split; [|done]. split; [done|done|done| |done]. exists h', dev, ino. split; [done|]. apply Hb; [|done]. intros ->. by eapply Hn.
    + intros x Hx. specialize (T5 x Hx). destruct x as [n|n h'|h' b'|b']; try done. cbn in *. apply Hb; [|done].
      intros ->. by eapply (Hf i i g g (Content h b')).
  - intros x Hx. apply Hvs. by apply (Hf i i g g).
  - intros j gj Hj Hgj. split; [by apply evolves_carries, (Hev j)|]. split_and!.
    + intros y Hy. apply (ca_facts w); [by apply evolves_carries, (Hev j)|]. by apply (Hf i j g gj).
    + intros y Hy. apply Hvs. by apply (Hf j i gj g).
    + destruct (Ha i j g gj (not_eq_sym Hj) Hi Hgj) as [A1 A2 A3]. split; [|done|done]. cbn. intros h1 h' b1 b' [= <- <-] E. by eapply A1.
Qed.

Lemma global_link w gs i g n h b : Inv w gs -> gs !! i = Some g -> g_temp g = Some (h, b) ->
  (forall t, n = appendLockClaimNameV1 t \/ n = appendLockReleaseNameV1 t -> t ∈ w_tokens w) -> is_shard_name n = false -> global_ok (link_name n h w).
Proof.
  intros HI Hi Et Hn Hns. destruct (iv_global _ _ HI) as [G1 G2 G3 G4 G5 G6 G7]. split; cbn; [done| |done| |done|done|].
  - intros n' h'. rewrite lookup_insert. case_decide as En.
    + intros [= <-]. split; [set_solver|]. destruct (to_temp _ _ (iv_thread _ _ HI i g Hi) h b Et) as [(f & Hf & _) _]. eauto.
    + intros E. destruct (G2 n' h' E). split; [set_solver|done].
  - intros t [Hin|Hin]; apply elem_of_union in Hin as [Hin%elem_of_singleton|Hin]; [apply Hn; auto|apply G4; auto|apply Hn; auto|apply G4; auto].
  - intros n' Hin. apply elem_of_union in Hin as [->%elem_of_singleton|Hin]; [done|by apply G7].
Qed.

(** A link leaves to the others what they rely on. *)
Lemma evolves_link w gs i j g gj n h b : Inv w gs -> gs !! i = Some g -> gs !! j = Some gj -> i <> j -> g_temp g = Some (h, b) ->
  w_names w !! n = None -> (forall t, token_of gj = Some t -> n <> appendLockReleaseNameV1 t) ->
  (forall t, g_stage gj = Drawn t -> n <> appendLockClaimNameV1 t) -> evolves w (link_name n h w) gj.
Proof.
  intros HI Hi Hj Hne Et Hn Hr Hd. split; cbn; [done|by eauto|done|set_solver| | | | |by eauto|done|by apply keeps_same].
  - intros t Ht Hin. apply elem_of_union in Hin as [Hin%elem_of_singleton|?]; [|done]. by destruct (Hr t Ht).
  - intros t Ht Hin. apply elem_of_union in Hin as [Hin%elem_of_singleton|?]; [|done]. by destruct (Hd t Ht).
  - intros t h' _ E. rewrite lookup_insert_ne; [done|]. intros ->. by rewrite E in Hn.
  - intros h' b' n' E. rewrite lookup_insert. case_decide; [|done]. intros [= <-].
    exfalso. by eapply (ap_temp _ _ (iv_apart _ _ HI i j g gj Hne Hi Hj) h h).
Qed.

Lemma Inv_link_release w gs i g t h b : Inv w gs -> gs !! i = Some g -> g_temp g = Some (h, b) ->
  Retired (appendLockClaimNameV1 t) ∈ g_facts g -> w_names w !! appendLockReleaseNameV1 t = None ->
  Inv (link_name (appendLockReleaseNameV1 t) h w) (<[i := with_temp None g]> gs).
Proof.
  intros HI Hi Et Hx Hn. pose proof (iv_thread _ _ HI i g Hi) as Hti. pose proof (to_facts _ _ Hti _ Hx) as Hever. cbn in Hever.
  assert (forall j gj t', gs !! j = Some gj -> token_of gj = Some t' -> appendLockReleaseNameV1 t <> appendLockReleaseNameV1 t') as Hr.
  { intros j gj t' Hj Ht' E. assert (t = t') as <-.
    { apply (inj (String.append ".receipts-append-release-")) in E. by apply sapp_inj_r in E. }
    pose proof (iv_facts _ _ HI i j g gj _ Hi Hj Hx) as Hvs. pose proof (to_stage _ _ (iv_thread _ _ HI j gj Hj)) as Hs. cbn in Hvs.
    unfold token_of in Ht'. destruct (g_stage gj) as [|t'|t' instance v] eqn:Es; [done|..]; injection Ht' as ->.
    - destruct Hs as (_ & _ & Hs & _). done.
    - eapply Hvs; [by exists instance, v|done]. }
  assert (forall t', appendLockReleaseNameV1 t <> appendLockClaimNameV1 t') as Hc by (intros t' E; by eapply claim_not_release).
  assert (Inv w (<[i := with_temp None g]> gs)) as HI' by (by apply Inv_temp_none).
  apply (Inv_evolve w); [done| |].
  - eapply (global_link w gs i g); [done|done|done| |done]. intros t' [E|E]; [by destruct (Hc t')|].
    apply (inj (String.append ".receipts-append-release-")) in E. apply sapp_inj_r in E as <-. apply (gl_tokens w (iv_global _ _ HI)). by left.
  - intros j gj. rewrite lookup_insert. case_decide as Ej; [subst j; intros [= <-]|].
    + split; cbn; [done|by eauto|done|set_solver| | | |done|by eauto|done|by apply keeps_same].
      * intros t' Ht' Hin. apply elem_of_union in Hin as [Hin%elem_of_singleton|?]; [|done]. by destruct (Hr i g t' Hi Ht').
      * intros t' Ht' Hin. apply elem_of_union in Hin as [Hin%elem_of_singleton|?]; [|done]. by destruct (Hc t').
      * intros t' h' _ E. rewrite lookup_insert_ne; [done|]. apply Hc.
    + intros Hj. eapply (evolves_link w gs i j); try done. intros t' Ht'. by eapply Hr.
Qed.

Lemma Inv_link_claim w gs i g t h instance dev ino : Inv w gs -> gs !! i = Some g -> g_stage g = Drawn t ->
  g_temp g = Some (h, record_bytes (claim_json (g_pid g) instance t dev ino)) ->
  w_names w !! appendLockClaimNameV1 t = None ->
  (linux = true -> exists p, w_procs w !! g_pid g = Some p /\ instance = instance_text (w_boot w) (p_start p)) ->
  Inv (link_name (appendLockClaimNameV1 t) h w) (<[i := with_temp None (with_stage (Inside t instance Fresh) g)]> gs).
Proof.
  intros HI Hi Es Et Hn Hinst. set (w' := link_name (appendLockClaimNameV1 t) h w). set (g' := with_temp None _).
  pose proof HI as [Hg Ht Hf Ha]. destruct (Ht i g Hi) as [T1 T2 T3 T4 T5]. rewrite Es in T4. destruct T4 as (Htok & Hdr & Hnc & Hnr).
  destruct (T3 h _ Et) as [Hb Hnh].
  assert (forall t', t' <> t -> appendLockClaimNameV1 t <> appendLockClaimNameV1 t') as Hinj by (intros t' Hne E%claim_name_inj; done).
  assert (forall j gj t', j <> i -> gs !! j = Some gj -> token_of gj = Some t' -> t' <> t) as Hoth.
  { intros j gj t' Hj Hgj E ->. eapply (ap_token _ _ (Ha i j g gj (not_eq_sym Hj) Hi Hgj)); [|done|done]. unfold token_of. by rewrite Es. }
  assert (forall j gj, j <> i -> gs !! j = Some gj -> evolves w w' gj) as Hev.
  { intros j gj Hj Hgj. eapply (evolves_link w gs i j g gj); try done.
    intros t' E. apply Hinj. eapply (Hoth j); [done|done|]. unfold token_of. by rewrite E. }
  assert (forall j gj y, gs !! j = Some gj -> y ∈ g_facts gj -> fact_vs w' y g') as Hvs.
  { intros j gj y Hj Hy. pose proof (to_facts _ _ (Ht j gj Hj) y Hy) as Hok. destruct y as [n|n h'|h' b'|b']; cbn in *; [..|done|done].
    - intros t' (instance' & v & [= <- <- <-]) ->. done.
    - intros t' (instance' & v & [= <- <- <-]) ->. done. }
  apply (Inv_step w gs i g); [done|done| | | |].
  - eapply (global_link w gs i g); [done|done|done| |done]. intros t' [E|E]; [apply claim_name_inj in E as <-; done|by destruct (claim_not_release t t')].
  - split; cbn; [done|done|done| |].
    + split; [|done]. split; cbn; [done|done| | |done].
      * intros Hin. apply elem_of_union in Hin as [Hin%elem_of_singleton|?]; [by destruct (claim_not_release t t)|done].
      * exists h, dev, ino. split; [apply lookup_insert_eq|done].
    + intros x Hx. specialize (T5 x Hx). destruct x; cbn in *; [set_solver|set_solver|done|done].
  - intros x Hx. by apply (Hvs i g).
  - intros j gj Hj Hgj. split; [by apply evolves_carries, (Hev j)|]. split_and!.
    + intros y Hy. apply (ca_facts w); [by apply evolves_carries, (Hev j)|]. by apply (Hf i j g gj).
    + intros y Hy. by apply (Hvs j gj).
    + split; cbn; [done| |by intros; left].
      intros t1 t' [= <-] E ->. by eapply (Hoth j).
Qed.

Lemma Inv_unlink w gs n : Inv w gs -> (forall j gj t, gs !! j = Some gj -> claims gj t -> n <> appendLockClaimNameV1 t) ->
  Inv (unlink_name n w) gs.
Proof.
  intros HI Hn. apply (Inv_evolve w); [done| |].
  - destruct (iv_global _ _ HI) as [G1 G2 G3 G4 G5 G6 G7]. split; cbn; try done. intros n' h [_ E]%lookup_delete_Some. by eapply G2.
  - intros j gj Hj. split; cbn; [done|by eauto|done|done|done|done| | |by eauto|done|by apply keeps_same].
    + intros t h Hc E. rewrite lookup_delete_ne; [done|]. by eapply Hn.
    + intros h b n' _ [_ E]%lookup_delete_Some. done.
Qed.

Lemma Inv_cache w gs pid instance : Inv w gs ->
  (linux = true -> forall p, w_procs w !! pid = Some p -> instance = instance_text (w_boot w) (p_start p)) ->
  Inv (set_procs (alter (fun p => mkProcess (p_start p) instance) pid) w) gs.
Proof.
  intros HI Hinst.
  assert (forall q p, w_procs w !! q = Some p -> exists p', alter (fun p => mkProcess (p_start p) instance) pid (w_procs w) !! q = Some p' /\
    p_start p' = p_start p) as Hp.
  { intros q p E. destruct (decide (q = pid)) as [->|Hne]; [rewrite lookup_alter_eq, E; eexists; split; [done|done]|].
    rewrite lookup_alter_ne by done. eauto. }
  apply (Inv_evolve w); [done| |].
  - destruct (iv_global _ _ HI) as [G1 G2 G3 G4 G5 G6 G7]. split; cbn; try done. intros q p.
    rewrite lookup_alter. case_decide as Eq; [subst q|by apply G5].
    intros (p' & Ep & Hp')%fmap_Some. subst p. cbn. destruct (G5 pid p' Ep) as (? & ? & _). split_and!; [done|done|].
    intros El. right. by apply Hinst.
  - intros j gj Hj. split; cbn; [done|by apply Hp|done|done|done|done|done|done|done|done|by apply keeps_same].
Qed.

(** Two stores do not hold the lock. *)
Lemma Inv_exclusive w gs i j g g' t t' instance instance' d d' : Inv w gs -> i <> j -> gs !! i = Some g -> gs !! j = Some g' ->
  g_stage g = Inside t instance (Holding d) -> g_stage g' = Inside t' instance' (Holding d') -> False.
Proof.
  intros HI Hne Hi Hj E E'. destruct (ap_sees _ _ (iv_apart _ _ HI i j g g' Hne Hi Hj) t t') as [Hs|Hs];
    [by eexists _, _|by eexists _, _|unfold sees in Hs; by rewrite E in Hs|unfold sees in Hs; by rewrite E' in Hs].
Qed.

Lemma Inv_dir w gs i g t instance d d' v : Inv w gs -> gs !! i = Some g -> g_stage g = Inside t instance (Holding d) ->
  grows (w_dir w) d' -> view_ok (set_dir d' w) v ->
  Inv (set_dir d' w) (<[i := with_stage (Inside t instance (Holding (Some v))) g]> gs).
Proof.
  intros HI Hi Es Hgr Hv. set (g0 := with_stage (Inside t instance (Holding None)) g).
  assert (Inv w (<[i := g0]> gs)) as HI0.
  { apply Inv_stage; [done|done| | | |].
    - pose proof (to_stage _ _ (iv_thread _ _ HI i g Hi)) as Hs. rewrite Es in Hs. split; [apply Hs|done].
    - cbn. unfold token_of. rewrite Es. auto.
    - intros t' (i' & u & [= <- <- <-]). by eexists _, _.
    - intros j gj t1 t2 _ _ _ _ [Hs|?]; [|by right]. unfold sees in Hs. by rewrite Es in Hs. }
  assert (Inv (set_dir d' w) (<[i := g0]> gs)) as HI1.
  { apply (Inv_evolve w); [done| |].
    - destruct (iv_global _ _ HI) as [G1 G2 G3 G4 G5 (shards & G6) G7]. split; cbn; try done. destruct (Hgr shards G6) as (shards' & ? & _). eauto.
    - intros j gj. rewrite lookup_insert. case_decide as Ej; [subst j; intros [= <-]|intros Hj]; split; cbn; try done; try by eauto.
      + by apply keeps_grows.
      + intros t' instance' d1 E. exfalso. by eapply (Inv_exclusive w gs i j).
      + by apply keeps_grows. }
  replace (<[i := with_stage (Inside t instance (Holding (Some v))) g]> gs)
    with (<[i := with_stage (Inside t instance (Holding (Some v))) g0]> (<[i := g0]> gs)) by (by rewrite insert_insert_eq).
  apply Inv_stage; [done|by rewrite lookup_insert_eq| | | |].
  - pose proof (to_stage _ _ (iv_thread _ _ HI1 i g0 ltac:(by rewrite lookup_insert_eq))) as Hs. split; [apply Hs|]. by intros d1 [= <-].
  - cbn. auto.
  - intros t' (i' & u & [= <- <- <-]). by eexists _, _.
  - intros j gj t1 t2 _ _ _ _ [[]|?]. by right.
Qed.

End invariant.
