(* ===== verification/ReceiptLockSpecs.v ===== *)
(** * Specifications of the functions of the append lock

    Each function of [ReceiptLock] against the invariant of [ReceiptLockLogic]: what it may
    assume of the ghost state of its store and what it leaves.  The claims that a store
    removes are retired ones; a scan that does not block has seen every other claim retired;
    the shards are touched by a holder only, and grow. *)

From Stdlib Require Import Ascii.
From S2P Require Import Prelude Js JsText CanonicalJson Sha256 JsConvert JsonParse TextLines NodeBuffer.
From S2P Require Import Receipts ReceiptsSafety Interleave ReceiptLock ReceiptLockLogic.

(** ** Calls *)

(** A call on the shards is made by a holder, and keeps the receipts of the directory. *)
Definition pre (proc_readable : bool) (R : Type) (c : syscall R) (g : ghost) : Prop :=
  if on_shards c then exists t instance d, g_stage g = Inside t instance (Holding d) /\
    forall w ch r w', (forall d', d = Some d' -> view_ok w d') -> exec proc_readable (g_pid g) R c ch w = Some (r, w') ->
      grows (w_dir w) (w_dir w')
  else True.

(** The store knows more, and nothing else has changed. *)
Record extends (g g' : ghost) : Prop := mkExtends {
  ex_pid : g_pid g' = g_pid g;
  ex_boot : g_boot g' = g_boot g;
  ex_start : g_start g' = g_start g;
  ex_stage : g_stage g' = g_stage g;
  ex_temp : g_temp g' = g_temp g;
  ex_facts : forall x, x ∈ g_facts g -> x ∈ g_facts g'
}.

#[export] Instance extends_pre : PreOrder extends.
Proof.
  split; [by intros g; split|]. intros g1 g2 g3 [A1 A2 A3 A4 A5 A6] [B1 B2 B3 B4 B5 B6].
  split; [congruence..|]. intros x Hx. by apply B6, A6.
Qed.

Lemma extends_fact x g : extends g (with_fact x g).
Proof. split; try done. intros y Hy. by right. Qed.

Lemma may_fail_Some {R} w ch (a : option (res R * world)) r w' : may_fail w ch a = Some (r, w') ->
  (exists code, r = Throw code /\ w' = w /\ code ∉ truthful) \/ a = Some (r, w').
Proof.
  unfold may_fail. destruct ch; try (by right). case_bool_decide; [done|]. intros [= <- <-]. left. eauto.
Qed.

Section specs.
Context `{StringNumber} `{JsonNumber} (linux proc_readable : bool) (shardSpan : Z) (i : nat).
Context (Hproc : linux = true -> proc_readable = true) (Hspan : 0 < shardSpan).

Notation wpl := (wpb (exec proc_readable) g_pid (Inv linux) (pre proc_readable) i (L := locals)).
Notation update := (upd g_pid (Inv linux) i).

(** A call that leaves the world as it is *)
Lemma wp_quiet {R} (c : syscall R) l Q g : on_shards c = false ->
  (forall w gs ch r w', gs !! i = Some g -> Inv linux w gs -> exec proc_readable (g_pid g) R c ch w = Some (r, w') ->
    w' = w /\ exists g', g_pid g' = g_pid g /\ Inv linux w (<[i := g']> gs) /\ Q r l g') ->
  wpl (sys c) l Q g.
Proof.
  intros Hc HQ. apply wpb_sys; [unfold pre; by rewrite Hc|]. intros w gs ch r w' Hi HI He.
  destruct (HQ w gs ch r w' Hi HI He) as [-> Hg]. done.
Qed.

Lemma wp_ignored {R} (c : syscall R) l Q g : on_shards c = false ->
  (forall w ch r w', exec proc_readable (g_pid g) R c ch w = Some (r, w') -> w' = w) -> (forall r, Q r l g) -> wpl (sys c) l Q g.
Proof.
  intros Hc Hw HQ. apply wp_quiet; [done|]. intros w gs ch r w' Hi HI He. split; [by eapply Hw|].
  exists g. by rewrite insert_id.
Qed.

Lemma wp_Plain what l Q g : (forall r, Q r l g) -> wpl (sys (Plain what)) l Q g.
Proof. apply wp_ignored; [done|]. intros w ch r w' He. cbn in He. apply may_fail_Some in He as [(? & _ & -> & _)|[= _ <-]]; done. Qed.

Lemma wp_Now l Q g : (forall r, Q r l g) -> wpl (sys Now) l Q g.
Proof. apply wp_ignored; [done|]. intros w [] r w' He; cbn in He; by simplify_eq. Qed.

Lemma wp_DirStat l Q g : (forall r, Q r l g) -> wpl (sys DirStat) l Q g.
Proof. apply wp_ignored; [done|]. intros w [] r w' He; cbn in He; try case_bool_decide; by simplify_eq. Qed.

Lemma wp_Lstat n l Q g : (forall r, Q r l g) -> wpl (sys (Lstat n)) l Q g.
Proof. apply wp_ignored; [done|]. intros w ch r w' He. cbn in He. apply may_fail_Some in He as [(? & _ & -> & _)|[= _ <-]]; done. Qed.

Lemma wp_Fstat h l Q g : (forall r, Q r l g) -> wpl (sys (Fstat h)) l Q g.
Proof. apply wp_ignored; [done|]. intros w ch r w' He. cbn in He. apply may_fail_Some in He as [(? & _ & -> & _)|[= _ <-]]; done. Qed.

Lemma update_fact x P g : (forall w gs, Inv linux w gs -> gs !! i = Some g -> fact_ok w x /\ forall j gj, gs !! j = Some gj -> fact_vs w x gj) ->
  P (with_fact x g) -> update P g.
Proof.
  intros Hx HP w gs Hi HI. destruct (Hx w gs HI Hi) as [H1 H2]. exists (with_fact x g). split_and!; [done|by apply Inv_fact|done].
Qed.

(** *** Reading a file that is open *)

Lemma content_of w gs g h bs : Inv linux w gs -> gs !! i = Some g -> Content h bs ∈ g_facts g ->
  exists f, w_files w !! h = Some f /\ f_bytes f = bs.
Proof. intros HI Hi Hx. exact (to_facts _ _ _ (iv_thread _ _ _ HI i g Hi) _ Hx). Qed.

Lemma wp_Fstat_content h bs l Q g : Content h bs ∈ g_facts g -> (forall e, Q (Throw e) l g) ->
  (forall s, sa_size s = size_of bs -> Q (Ok s) l g) -> wpl (sys (Fstat h)) l Q g.
Proof.
  intros Hx HT HQ. apply wp_quiet; [done|]. intros w gs ch r w' Hi HI He. cbn in He.
  destruct (content_of w gs g h bs HI Hi Hx) as (f & Hf & Eb). rewrite Hf in He.
  apply may_fail_Some in He as [(? & -> & -> & _)|[= <- <-]]; (split; [done|]); exists g; rewrite insert_id by done; split_and!; auto.
  apply HQ. cbn. by rewrite Eb.
Qed.

Lemma wp_Read h off cnt bs l Q g : Content h bs ∈ g_facts g -> (forall e, Q (Throw e) l g) ->
  (forall n, Q (Ok (take (Nat.min n cnt) (drop off bs))) l g) -> wpl (sys (Read h off cnt)) l Q g.
Proof.
  intros Hx HT HQ. apply wp_quiet; [done|]. intros w gs ch r w' Hi HI He. cbn in He.
  destruct (content_of w gs g h bs HI Hi Hx) as (f & Hf & Eb). rewrite Hf in He.
  apply may_fail_Some in He as [(? & -> & -> & _)|He].
  - split; [done|]. exists g. rewrite insert_id by done. auto.
  - destruct ch; simplify_eq. split; [done|]. exists g. rewrite insert_id by done. auto.
Qed.

Lemma wp_Open n l Q g : (forall e, Q (Throw e) l g) ->
  (forall h bs g', extends g g' -> Bound n h ∈ g_facts g' -> Content h bs ∈ g_facts g' -> Q (Ok h) l g') -> wpl (sys (Open n)) l Q g.
Proof.
  intros HT HQ. apply wp_quiet; [done|]. intros w gs ch r w' Hi HI He. cbn in He.
  apply may_fail_Some in He as [(? & -> & -> & _)|He]; [split; [done|]; exists g; rewrite insert_id by done; auto|].
  destruct (w_names w !! n) as [h|] eqn:En; injection He as <- <-; (split; [done|]); [|exists g; rewrite insert_id by done; auto].
  destruct (gl_names _ _ (iv_global _ _ _ HI) n h En) as [Hev [f Hf]].
  assert (Inv linux w (<[i := with_fact (Bound n h) g]> gs)) as HI1.
  { apply Inv_fact; [done|done|done|]. intros j gj Hj t Hc ->. done. }
  assert (Inv linux w (<[i := with_fact (Content h (f_bytes f)) (with_fact (Bound n h) g)]> gs)) as HI2.
  { rewrite <- (insert_insert_eq gs i _ (with_fact (Bound n h) g)). apply Inv_fact; [done|by rewrite lookup_insert_eq|by exists f|].
    intros j gj Hj b Et. by destruct (to_temp _ _ _ (iv_thread _ _ _ HI1 j gj Hj) h b Et) as [_ Hn]; eapply Hn. }
  eexists. split_and!; [|exact HI2|]; [done|]. apply (HQ h (f_bytes f)); [|by right; left|by left].
  etrans; [|apply extends_fact]. apply extends_fact.
Qed.

Lemma wp_guard {B} b msg (k : unit -> io B) l Q g : (b = true -> Q (Throw msg) l g) -> (b = false -> wpl (k tt) l Q g) ->
  wpl (lift (throw_if b msg) ≫= k) l Q g.
Proof. intros H1 H2. apply wpb_bind, wpb_lift. destruct b; cbn; auto. Qed.

(** *** Records *)

Lemma wp_readLoop fuel h size bs bytes l Q g : Content h bs ∈ g_facts g -> bytes `prefix_of` bs -> (forall e, Q (Throw e) l g) ->
  (forall bytes', bytes' `prefix_of` bs -> Q (Ok bytes') l g) -> wpl (readLoop fuel h size bytes) l Q g.
Proof.
  intros Hx. revert bytes. induction fuel as [|fuel IH]; intros bytes Hp HT HQ; cbn [readLoop]; [by apply wpb_ret, HQ|].
  destruct (_ <? _)%nat; [|by apply wpb_ret, HQ]. apply wpb_bind. apply (wp_Read _ _ _ bs); [done|done|]. intros n.
  set (chunk := take _ _). assert (bytes ++ chunk `prefix_of` bs) as Hp'.
  { destruct Hp as [rest ->]. unfold chunk. rewrite drop_app_length. exists (drop (Nat.min n (size - length bytes)) rest). by rewrite <- app_assoc, take_drop. }
  destruct chunk as [|c chunk]; [by apply wpb_ret, HQ|]. by apply IH.
Qed.

(** The store has read the value [v] under the name [n]. *)
Definition saw (n : string) (v : json) (g : ghost) : Prop :=
  exists h bs, Bound n h ∈ g_facts g /\ Content h bs ∈ g_facts g /\ parse_bytes bs = Some v.

Lemma saw_mono n v g g' : extends g g' -> saw n v g -> saw n v g'.
Proof. intros He (h & bs & H1 & H2 & H3). exists h, bs. split_and!; [by apply He|by apply He|done]. Qed.

Lemma wp_readOpened n listed h bs l Q g : Bound n h ∈ g_facts g -> Content h bs ∈ g_facts g -> (forall e, Q (Throw e) l g) ->
  (forall v s, saw n v g -> Q (Ok (v, s)) l g) -> wpl (readOpened n listed h) l Q g.
Proof.
  intros Hb Hc HT HQ. unfold readOpened. apply wpb_bind. apply (wp_Fstat_content h bs); [done|done|]. intros opened Hsize.
  apply wp_guard; [done|]. intros Hsame%negb_false_iff. apply wpb_bind. apply (wp_readLoop _ _ _ bs); [done|apply prefix_nil|done|].
  intros bytes Hp. apply wp_guard; [done|]. intros Hlen%negb_false_iff%Nat.eqb_eq. apply wpb_bind, wp_Fstat. intros [after|]; [|done].
  apply wpb_bind, wp_Lstat. intros [visible|]; [|done]. apply wp_guard; [done|]. intros _.
  destruct (parse_bytes bytes) as [v|] eqn:Ev; [|by apply wpb_lift]. apply wpb_ret, HQ. exists h, bs. split_and!; [done|done|].
  assert (bytes = bs) as <-; [|done]. unfold receiptSameStampV1 in Hsame. bool_prop.
  repeat match goal with E : (_ =? _) = true |- _ => apply Z.eqb_eq in E end. cbn in *.
  destruct Hp as [rest E]. assert (length bs = length bytes) as Hl by (unfold size_of in *; lia).
  rewrite E, length_app in Hl. destruct rest; [by rewrite app_nil_r in E|cbn in Hl; lia].
Qed.

Lemma wp_readAppendLockJsonV1 n l Q g : (forall e g', extends g g' -> Q (Throw e) l g') ->
  (forall v s g', extends g g' -> saw n v g' -> Q (Ok (v, s)) l g') -> wpl (readAppendLockJsonV1 n) l Q g.
Proof.
  intros HT HQ. assert (forall e, Q (Throw e) l g) as HT0 by (intros e; by apply HT). unfold readAppendLockJsonV1.
  apply wpb_bind, wp_Lstat. intros [listed|]; [|done]. apply wp_guard; [done|]. intros _. apply wp_guard; [done|]. intros _.
  apply wpb_bind, wp_Open; [done|]. intros h bs g' He Hb Hc. apply wpb_finally.
  apply (wp_readOpened n listed h bs); [done|done|..].
  - intros e. apply wp_Plain. intros [[]|]; by apply HT.
  - intros v s Hs. apply wp_Plain. intros [[]|]; [by apply HQ|by apply HT].
Qed.

(** A claim that the store has read *)
Definition seen (c : ReceiptAppendLockClaimV1) (g : ghost) : Prop := exists v, saw (c_path c) v g /\
  c_path c = appendLockClaimNameV1 (c_token c) /\ v.@"pid" = jint (c_pid c) /\ v.@"process_instance" = JStr (c_process_instance c).

Lemma seen_mono c g g' : extends g g' -> seen c g -> seen c g'.
Proof. intros He (v & Hs & ?). exists v. split; [by eapply saw_mono|done]. Qed.

Lemma checkClaim_Ok a n v s c : checkClaim a n v s = Ok c -> c_path c = n /\ n = appendLockClaimNameV1 (c_token c) /\
  v.@"pid" = jint (c_pid c) /\ v.@"process_instance" = JStr (c_process_instance c).
Proof.
  unfold checkClaim. intros E. inv_ok. destruct (as_safe_integer (v.@"pid")) as [pid|] eqn:Ep; [|done].
  destruct (v.@"process_instance") as [| | | |inst| |] eqn:Ei; try done. inv_ok. cbn. bool_prop.
  apply as_safe_integer_Some in Ep as [-> _]. split_and!; try done. by apply String.eqb_eq.
Qed.

Lemma wp_readAppendLockClaimV1 a n l Q g : (forall e g', extends g g' -> Q (Throw e) l g') ->
  (forall c g', extends g g' -> seen c g' -> c_path c = n -> Q (Ok c) l g') -> wpl (readAppendLockClaimV1 a n) l Q g.
Proof.
  intros HT HQ. unfold readAppendLockClaimV1. apply wpb_bind, wp_readAppendLockJsonV1; [done|]. intros v s g' He Hs. apply wpb_lift.
  destruct (checkClaim a n v s) as [c|e] eqn:Ec; [|by apply HT]. apply checkClaim_Ok in Ec as (E1 & E2 & E3 & E4).
  apply HQ; [done| |done]. exists v. rewrite E1. done.
Qed.


Lemma parse_claim pid instance t dev ino : is_pid pid = true ->
  parse_bytes (record_bytes (claim_json pid instance t dev ino)) = Some (claim_json pid instance t dev ino).
Proof using.
  clear. intros Hp. unfold parse_bytes, record_bytes. rewrite from_to_utf8. apply parse_stringify_line; [|done].
  unfold textual. apply andb_true_iff. split; [|by vm_compute].
  assert (printable (jint pid) = true) as Hpid.
  { cbn. apply bool_decide_eq_true. exists pid. unfold is_pid in Hp. apply andb_true_iff in Hp as [?%Z.ltb_lt ?%Z.leb_le].
    cbn. by rewrite (proj2 (Z.leb_le (Z.abs pid) MAX_SAFE_INTEGER)) by lia. }
  unfold claim_json. cbn [printable forallb snd]. by rewrite Hpid.
Qed.

(** What was read of a claim that its owner still relies on is what the owner wrote. *)
Lemma seen_owner w gs g j gj c instance v : Inv linux w gs -> gs !! i = Some g -> seen c g -> gs !! j = Some gj ->
  g_stage gj = Inside (c_token c) instance v -> c_pid c = g_pid gj /\ c_process_instance c = instance.
Proof using.
  intros HI Hi (val & (h & bs & Hb & Hc & Hp) & Epath & Epid & Einst) Hj Es.
  assert (claims gj (c_token c)) as Hcl by (by eexists _, _).
  pose proof (iv_facts _ _ _ HI i j g gj _ Hi Hj Hb (c_token c) Hcl Epath) as Hn.
  destruct (content_of w gs g h bs HI Hi Hc) as (f & Hf & Ebs).
  pose proof (to_stage _ _ _ (iv_thread _ _ _ HI j gj Hj)) as Hs. rewrite Es in Hs. destruct Hs as [[_ _ _ (h' & dev & ino & Hn' & f' & Hf' & Ef') _] _].
  rewrite Epath, Hn' in Hn. injection Hn as ->. rewrite Hf in Hf'. injection Hf' as <-. rewrite Ebs in Ef'. rewrite Ef' in Hp.
  destruct (to_live _ _ _ (iv_thread _ _ _ HI j gj Hj)) as (p & Hp' & _). destruct (gl_procs _ _ (iv_global _ _ _ HI) _ _ Hp') as (Hpid & _).
  rewrite parse_claim in Hp by done. injection Hp as <-. change (jint (g_pid gj) = jint (c_pid c)) in Epid. change (JStr instance = JStr (c_process_instance c)) in Einst. split; [by injection Epid as ->|by injection Einst as ->].
Qed.

(** A claim that is read and that no owner can still rely on is retired. *)
Lemma update_retired c P g : seen c g ->
  (forall w gs j gj instance v, Inv linux w gs -> gs !! i = Some g -> gs !! j = Some gj -> g_stage gj = Inside (c_token c) instance v -> False) ->
  P (with_fact (Retired (c_path c)) g) -> update P g.
Proof using.
  intros (val & (h & bs & Hb & _) & Epath & _) Hno. apply update_fact. intros w gs HI Hi.
  split; [exact (to_facts _ _ _ (iv_thread _ _ _ HI i g Hi) _ Hb)|].
  intros j gj Hj t (instance & v & Es) E. rewrite Epath in E. apply claim_name_inj in E as <-. by eapply Hno.
Qed.

Lemma wp_readAppendLockReleaseV1 c l Q g : seen c g -> (forall e g', extends g g' -> Q (Throw e) l g') ->
  (forall g', extends g g' -> Q (Ok None) l g') ->
  (forall r g', extends g g' -> Retired (c_path c) ∈ g_facts g' -> re_path r = appendLockReleaseNameV1 (c_token c) -> Q (Ok (Some r)) l g') ->
  wpl (readAppendLockReleaseV1 c) l Q g.
Proof using.
  intros Hc HT HN HQ. unfold readAppendLockReleaseV1. apply wpb_bind, wpb_try, wpb_bind, wp_readAppendLockJsonV1.
  - intros e g' He. cbn. destruct (String.eqb e "ENOENT"); [apply wpb_ret, wpb_ret; by apply HN|by apply wpb_lift, HT].
  - intros v s g' He Hs. apply wpb_ret. unfold checkRelease. apply wp_guard; [intros _; by apply HT|]. intros _.
    apply wpb_upd. eapply (update_retired c); [by eapply seen_mono| |].
    + intros w gs j gj instance view HI Hi Hj Es. destruct Hs as (h & bs & Hb & _).
      pose proof (to_facts _ _ _ (iv_thread _ _ _ HI i g' Hi) _ Hb) as Hev. cbn in Hev.
      pose proof (to_stage _ _ _ (iv_thread _ _ _ HI j gj Hj)) as Hst. rewrite Es in Hst. by destruct Hst as [[_ _ Hr _ _] _].
    + apply wpb_ret, HQ; [|by left|done]. etrans; [done|apply extends_fact].
Qed.

Lemma wp_assertDirectoryAuthorityV1 a l Q g : (forall r, Q r l g) -> wpl (assertDirectoryAuthorityV1 a) l Q g.
Proof using.
  intros HQ. unfold assertDirectoryAuthorityV1. apply wpb_bind, wp_DirStat. intros [d|]; [|done]. apply wpb_bind, wp_DirStat. intros [d'|]; [|done].
  apply wpb_lift, HQ.
Qed.

(** A record that may be removed: a retired claim, or a release *)
Definition removable (n : string) (g : ghost) : Prop := Retired n ∈ g_facts g \/ exists t, n = appendLockReleaseNameV1 t.

Lemma wp_Unlink n l Q g : removable n g -> (forall r, Q r l g) -> wpl (sys (Unlink n)) l Q g.
Proof using.
  intros Hn HQ. apply wpb_sys; [done|]. intros w gs ch r w' Hi HI He. exists g. rewrite insert_id by done. split_and!; [done| |done].
  cbn in He. apply may_fail_Some in He as [(? & _ & -> & _)|He]; [done|]. case_bool_decide; injection He as <- <-; [|done].
  apply Inv_unlink; [done|]. intros j gj t Hj Hc. destruct Hn as [Hx|(t' & ->)].
  - by eapply (iv_facts _ _ _ HI i j g gj (Retired n)).
  - intros E. by eapply claim_not_release.
Qed.

Lemma wp_removeObserved a n s l Q g : removable n g -> (forall b, Q (Ok b) l g) -> wpl (removeObservedAppendLockRecordV1 a n s) l Q g.
Proof using.
  intros Hn HQ. unfold removeObservedAppendLockRecordV1. apply wpb_bind, wpb_try, wpb_bind, wp_Lstat.
  intros [visible|]; [|by apply wpb_ret, wpb_ret, HQ]. apply wpb_ret. destruct (_ || _); [by apply wpb_ret, HQ|].
  apply wpb_try, wpb_bind, wp_Unlink; [done|]. intros [[]|]; [|by apply wpb_ret, HQ].
  apply wpb_bind, wp_Plain. intros [[]|]; [|by apply wpb_ret, HQ]. apply wpb_bind, wp_assertDirectoryAuthorityV1.
  intros [[]|]; [by apply wpb_ret, HQ|by apply wpb_ret, HQ].
Qed.


(** ** Processes *)

Lemma wp_known {A} (m : io A) l Q g (P : Prop) : (forall w gs, Inv linux w gs -> gs !! i = Some g -> P) -> (P -> wpl m l Q g) -> wpl m l Q g.
Proof using.
  intros HP Hm. apply wpb_upd. intros w gs Hi HI. exists g. rewrite insert_id by done. split_and!; [done|done|]. by eapply Hm, HP.
Qed.

Lemma own_pid g w gs : Inv linux w gs -> gs !! i = Some g -> is_pid (g_pid g) = true.
Proof using.
  intros HI Hi. destruct (to_live _ _ _ (iv_thread _ _ _ HI i g Hi)) as (p & Hp & _). by apply (gl_procs _ _ (iv_global _ _ _ HI) _ p).
Qed.

Lemma wp_ReadBoot l Q g : (proc_readable = false -> forall e, Q (Throw e) l g) -> Q (Ok (g_boot g +:+ char_text 10)) l g ->
  wpl (sys ReadBoot) l Q g.
Proof using.
  clear Hproc. intros HT HQ. apply wp_quiet; [done|]. intros w gs ch r w' Hi HI He. cbn in He. rewrite <- (to_boot _ _ _ (iv_thread _ _ _ HI i g Hi)) in He.
  destruct ch; try (injection He as <- <-; split; [done|]; exists g; by rewrite insert_id).
  destruct proc_readable; [done|]. apply may_fail_Some in He as [(e & -> & -> & _)|He]; [|done]. split; [done|]. exists g. rewrite insert_id by done. auto.
Qed.

(** The instance that is read of the owner of a claim: another one shows that the claim is retired. *)
Lemma wp_instance_of_owner c l Q g : seen c g -> linux = true -> (forall g', extends g g' -> Q (Ok None) l g') ->
  (forall instance g', extends g g' -> (instance <> c_process_instance c -> Retired (c_path c) ∈ g_facts g') -> Q (Ok (Some instance)) l g') ->
  wpl (receiptLinuxProcessInstanceV1 linux (c_pid c)) l Q g.
Proof using.
  intros Hc Hl HN HQ. unfold receiptLinuxProcessInstanceV1. destruct (_ || _); [by apply wpb_ret, HN|].
  apply wpb_try, wpb_bind, wp_ReadBoot; [intros _ e; by apply wpb_ret, HN|]. apply wpb_bind, wp_quiet; [done|].
  intros w gs ch r w' Hi HI He. cbn in He. pose proof (iv_thread _ _ _ HI i g Hi) as Hth.
  assert (wpl (mret None) l Q g) as HN' by (by apply wpb_ret, HN).
  destruct (w_procs w !! c_pid c) as [p|] eqn:Ep; [|injection He as <- <-; split; [done|]; exists g; rewrite insert_id by done; by auto].
  destruct ch as [|code| | | | | | | |comm fields]; try (destruct (proc_readable && _); [done|]; apply may_fail_Some in He as [(e & -> & -> & _)|He];
    [split; [done|]; exists g; rewrite insert_id by done; by auto|done]).
  destruct (forallb is_field fields && _) eqn:Ef; [|done]. injection He as <- <-. split; [done|].
  apply andb_true_iff in Ef as [Hf Hs%bool_decide_eq_true]. pose proof (gl_boot _ _ (iv_global _ _ _ HI)) as Hb.
  rewrite <- (to_boot _ _ _ Hth) in Hb. assert (instance_of (trim (g_boot g +:+ char_text 10)) (proc_stat (c_pid c) comm fields) =
    Some (instance_text (g_boot g) (p_start p))) as Ei by (by apply instance_of_proc).
  destruct (decide (instance_text (g_boot g) (p_start p) = c_process_instance c)) as [E|Hne].
  { exists g. rewrite insert_id by done. split_and!; [done|done|]. apply wpb_ret. rewrite Ei. by apply HQ. }
  exists (with_fact (Retired (c_path c)) g). split_and!; [done| |apply wpb_ret; rewrite Ei; apply HQ; [apply extends_fact|by left]].
  pose proof Hc as (v & (h & bs & Hbd & _) & Epath & _). apply Inv_fact; [done|done|exact (to_facts _ _ _ Hth _ Hbd)|].
  intros j gj Hj t (instance & vw & Es) E. rewrite Epath in E. apply claim_name_inj in E as <-. apply Hne.
  destruct (seen_owner w gs g j gj c instance vw HI Hi Hc Hj Es) as [E1 E2].
  pose proof (to_stage _ _ _ (iv_thread _ _ _ HI j gj Hj)) as Hst. rewrite Es in Hst. destruct Hst as [[_ _ _ _ Hco] _].
  destruct (Hco Hl) as (p' & Hp' & ->). rewrite <- E1, Ep in Hp'. injection Hp' as <-. by rewrite (to_boot _ _ _ Hth).
Qed.

Lemma wp_instance_self l Q g : linux = true -> Q (Ok (Some (instance_text (g_boot g) (g_start g)))) l g ->
  wpl (receiptLinuxProcessInstanceV1 linux (g_pid g)) l Q g.
Proof using Hproc.
  intros Hl HQ. unfold receiptLinuxProcessInstanceV1. apply (wp_known _ _ _ _ _ (own_pid g)). intros ->. replace (negb linux || negb true) with false by (by rewrite Hl).
  pose proof (Hproc Hl) as Hr. apply wpb_try, wpb_bind, wp_ReadBoot; [by rewrite Hr|]. apply wpb_bind, wp_quiet; [done|].
  intros w gs ch r w' Hi HI He. cbn in He. rewrite Hr, Z.eqb_refl in He. pose proof (iv_thread _ _ _ HI i g Hi) as Hth.
  destruct (to_live _ _ _ Hth) as (p & Ep & Es). rewrite Ep in He. destruct ch as [|code| | | | | | | |comm fields]; try done.
  destruct (forallb is_field fields && _) eqn:Ef; [|done]. injection He as <- <-. split; [done|].
  apply andb_true_iff in Ef as [Hf Hs%bool_decide_eq_true]. pose proof (gl_boot _ _ (iv_global _ _ _ HI)) as Hb.
  rewrite <- (to_boot _ _ _ Hth) in Hb. exists g. rewrite insert_id by done. split_and!; [done|done|]. apply wpb_ret.
  rewrite (instance_of_proc _ _ _ _ (p_start p)) by done. by rewrite Es.
Qed.

Lemma wp_Random n l Q g : (forall r, Q r l g) -> wpl (sys (Random n)) l Q g.
Proof using.
  intros HQ. apply wpb_sys; [done|]. intros w gs ch r w' Hi HI He. exists g. rewrite insert_id by done. split_and!; [done| |done].
  cbn in He. apply may_fail_Some in He as [(? & _ & -> & _)|He]; [done|]. destruct ch; try done. destruct (_ && _); [|done].
  injection He as _ <-. by apply Inv_draw.
Qed.

(** The instance that this process writes into its claims *)
Lemma wp_current_instance l Q g : (forall e, Q (Throw e) l g) ->
  (forall instance, (linux = true -> instance = instance_text (g_boot g) (g_start g)) -> Q (Ok instance) l g) ->
  wpl (receiptCurrentProcessInstanceV1 linux (g_pid g)) l Q g.
Proof using Hproc.
  intros HT HQ. assert (forall instance, (linux = true -> instance = instance_text (g_boot g) (g_start g)) ->
    wpl (sys (CacheSet instance);; mret instance) l Q g) as Hset.
  { intros instance Hin. apply wpb_bind, wpb_sys; [done|]. intros w gs ch r w' Hi HI [= <- <-]. exists g. rewrite insert_id by done.
    split_and!; [done| |by apply wpb_ret, HQ]. apply Inv_cache; [done|]. intros Hl p Hp. pose proof (iv_thread _ _ _ HI i g Hi) as Hth.
    rewrite (Hin Hl), (to_boot _ _ _ Hth). destruct (to_live _ _ _ Hth) as (p' & Hp' & <-). rewrite Hp in Hp'. by injection Hp' as <-. }
  unfold receiptCurrentProcessInstanceV1. apply wpb_bind, wp_quiet; [done|]. intros w gs ch r w' Hi HI He. cbn in He.
  pose proof (iv_thread _ _ _ HI i g Hi) as Hth. destruct (to_live _ _ _ Hth) as (p & Hp & Es). rewrite Hp in He. injection He as <- <-.
  split; [done|]. exists g. rewrite insert_id by done. split_and!; [done|done|]. destruct (String.eqb_spec (p_cache p) EmptyString) as [_|Hne]; cbn [negb].
  - apply wpb_bind. destruct (Bool.bool_dec linux true) as [Hl|Hl%not_true_is_false].
    + apply wp_instance_self; [done|]. apply wpb_bind, wpb_ret. by apply Hset.
    + unfold receiptLinuxProcessInstanceV1. replace (negb linux || negb (is_pid (g_pid g))) with true by (by rewrite Hl). apply wpb_ret. apply wpb_bind, wpb_bind, wp_Random. intros [nonce|e]; [|by apply HT].
      apply wpb_ret. apply Hset. by rewrite Hl.
  - apply wpb_ret, HQ. intros Hl. destruct (gl_procs _ _ (iv_global _ _ _ HI) _ _ Hp) as (_ & _ & Hcache).
    destruct (Hcache Hl) as [?| ->]; [done|]. by rewrite <- (to_boot _ _ _ Hth), Es.
Qed.


Lemma wp_pid_alive c l Q g : seen c g -> (forall e, Q (Throw e) l g) ->
  (forall b g', extends g g' -> (b = false -> Retired (c_path c) ∈ g_facts g') -> Q (Ok b) l g') ->
  wpl (receiptPidAliveV1 (c_pid c)) l Q g.
Proof using.
  intros Hc HT HQ. unfold receiptPidAliveV1.
  assert (forall w gs, Inv linux w gs -> gs !! i = Some g -> (is_pid (c_pid c) = false \/ w_procs w !! c_pid c = None) ->
    forall j gj instance v, gs !! j = Some gj -> g_stage gj = Inside (c_token c) instance v -> False) as Hno.
  { intros w gs HI Hi Hd j gj instance v Hj Es. destruct (seen_owner w gs g j gj c instance v HI Hi Hc Hj Es) as [Ep _].
    destruct (to_live _ _ _ (iv_thread _ _ _ HI j gj Hj)) as (p & Hp & _). rewrite Ep in Hd. destruct Hd as [Hd|Hd]; [|congruence].
    destruct (gl_procs _ _ (iv_global _ _ _ HI) _ _ Hp) as (Hpid & _). congruence. }
  destruct (is_pid (c_pid c)) eqn:Epid; cbn [negb].
  - apply wpb_try, wpb_bind, wp_quiet; [done|]. intros w gs ch r w' Hi HI He. cbn in He.
    destruct (w_procs w !! c_pid c) as [p|] eqn:Ep.
    + assert (w' = w /\ (r = Ok tt \/ exists e, r = Throw e /\ e ∉ truthful)) as [-> Hr].
      { apply may_fail_Some in He as [(e & -> & -> & ?)|[= <- <-]]; split; eauto. }
      split; [done|]. exists g. rewrite insert_id by done. split_and!; [done|done|]. destruct Hr as [-> |(e & -> & Hn)]; [by apply wpb_ret, HQ|].
      assert (String.eqb e "ESRCH" = false) as ->. { apply String.eqb_neq. intros ->. apply Hn. by right; left. }
      destruct (String.eqb e "EPERM"); [by apply wpb_ret, HQ|by apply wpb_lift].
    + injection He as <- <-. split; [done|]. pose proof Hc as (v & (h & bs & Hb & _) & Epath & _).
      exists (with_fact (Retired (c_path c)) g). split_and!; [done| |].
      * apply Inv_fact; [done|done|exact (to_facts _ _ _ (iv_thread _ _ _ HI i g Hi) _ Hb)|].
        intros j gj Hj t (instance & vw & Es) E. rewrite Epath in E. apply claim_name_inj in E as <-. eapply (Hno w gs); eauto.
      * apply wpb_ret, HQ; [apply extends_fact|by left].
  - apply wpb_upd. eapply (update_retired c); [done| |].
    + intros w gs j gj instance v HI Hi Hj Es. eapply (Hno w gs); eauto.
    + apply wpb_ret, HQ; [apply extends_fact|by left].
Qed.

Lemma wp_appendLockClaimStateV1 c l Q g : seen c g -> (forall e g', extends g g' -> Q (Throw e) l g') ->
  (forall s g', extends g g' -> (s = stale -> Retired (c_path c) ∈ g_facts g') -> Q (Ok s) l g') ->
  wpl (appendLockClaimStateV1 linux (g_pid g) c) l Q g.
Proof using Hproc.
  intros Hc HT HQ. unfold appendLockClaimStateV1. apply wpb_bind, wp_pid_alive; [done|intros e; by apply HT|]. intros alive g' He Hd.
  destruct alive; cbn [negb]; [|by apply wpb_ret, HQ; [|auto]]. pose proof (seen_mono _ _ _ He Hc) as Hc'.
  destruct (Bool.bool_dec linux true) as [Hl|Hl%not_true_is_false].
  - replace linux with true at 2 by done. apply wpb_bind, wp_instance_of_owner; [done|done|..].
    + intros g'' He'. apply wpb_ret, HQ; [by etrans|done].
    + intros instance g'' He' Hne. apply wpb_ret. destruct (String.eqb_spec instance (c_process_instance c)) as [->|Hn]; (apply HQ; [by etrans|done || auto]).
  - replace linux with false at 2 by done. destruct (c_pid c =? g_pid g); cbn [negb]; [|by apply wpb_ret, HQ].
    rewrite <- (ex_pid _ _ He). apply wpb_bind, wp_current_instance; [intros e; by apply HT|]. intros instance _. apply wpb_ret, HQ; [done|].
    by destruct (String.eqb _ _).
Qed.


(** ** Writing records *)

Lemma with_temp_id g : with_temp (g_temp g) g = g.
Proof using. by destruct g. Qed.

Lemma wp_writeLoop fuel h b body l Q g : (length body <= fuel)%nat -> (forall e b', Q (Throw e) l (with_temp (Some (h, b')) g)) ->
  Q (Ok tt) l (with_temp (Some (h, b ++ body)) g) -> wpl (writeLoop fuel h body) l Q (with_temp (Some (h, b)) g).
Proof using.
  revert b body. induction fuel as [|fuel IH]; intros b body Hf HT HQ.
  - destruct body; [|cbn in Hf; lia]. cbn [writeLoop]. apply wpb_ret. by rewrite app_nil_r in HQ.
  - destruct body as [|c body]; [cbn [writeLoop]; apply wpb_ret; by rewrite app_nil_r in HQ|].
    set (bs := c :: body) in *. change (writeLoop (S fuel) h bs) with (bytesWritten ← sys (Write h bs);
      lift (throw_if (bytesWritten =? 0)%nat "VOID_RECEIPT_APPEND_LOCK_RECORD_SHORT_WRITE_V1");; (writeLoop fuel h (drop bytesWritten bs) : io unit)).
    apply wpb_bind, wpb_sys; [done|]. intros w gs ch r w' Hi HI He. cbn -[bs] in He.
    apply may_fail_Some in He as [(e & -> & -> & _)|He]; [exists (with_temp (Some (h, b)) g); rewrite insert_id by done; auto|].
    destruct ch as [| | | | |n time| | | |]; try done. injection He as <- <-.
    exists (with_temp (Some (h, b ++ take n bs)) g). split_and!; [done| |].
    + change (with_temp (Some (h, b ++ take n bs)) g) with (with_temp (Some (h, b ++ take n bs)) (with_temp (Some (h, b)) g)).
      by apply Inv_write.
    + apply wp_guard; [intros _; apply HT|]. intros Hn%Nat.eqb_neq. apply IH; [rewrite length_drop; lia|done|].
      change (S (length body)) with (length bs). rewrite <- app_assoc. replace (take n bs ++ drop (Nat.min n (length bs)) bs) with bs; [exact HQ|].
      destruct (decide (n <= length bs)%nat); [by rewrite Nat.min_l, take_drop by done|].
      rewrite Nat.min_r, take_ge, drop_all by lia. by rewrite app_nil_r.
Qed.

Lemma wp_closeTemp h l Q g : Q (Ok tt) l g -> wpl (closeTemp h) l Q g.
Proof using.
  intros HQ. unfold closeTemp. apply wpb_bind, wpb_ignore, wp_Plain. intros _. apply wpb_ignore, wpb_sys; [done|].
  intros w gs ch r w' Hi HI He. exists g. rewrite insert_id by done. split_and!; [done| |done]. cbn in He.
  apply may_fail_Some in He as [(? & _ & -> & _)|He]; [done|]. destruct ch; try done. injection He as _ <-. by apply Inv_restamp.
Qed.

Lemma update_temp_none P g : P (with_temp None g) -> update P g.
Proof using. intros HP w gs Hi HI. exists (with_temp None g). split_and!; [done|by apply Inv_temp_none|done]. Qed.

(** A record is written and linked; [linked] is the ghost state that its link leads to, [f]
    what the callback does to the fields. *)
Lemma wp_writeAppendLockRecordV1 a self final value al (f : ReceiptFileStampV1 -> locals -> locals) linked l Q g :
  g_temp g = None -> g_temp linked = None ->
  (forall h l Q, (forall e, Q (Throw e) l (with_temp (Some (h, record_bytes value)) g)) -> Q (Ok tt) l linked ->
    wpl (sys (Link h final)) l Q (with_temp (Some (h, record_bytes value)) g)) ->
  (forall s l Q g, Q (Ok tt) (f s l) g -> wpl (al s) l Q g) ->
  (forall e, Q (Throw e) l g) ->
  (forall e l', l' = l \/ (exists s, l' = f s l) -> Q (Throw e) l' linked) -> (forall s, Q (Ok tt) (f s l) linked) ->
  wpl (writeAppendLockRecordV1 self a final value al) l Q g.
Proof using.
  intros Et Etl Hlink Hal HT HTl HQ. unfold writeAppendLockRecordV1. apply wpb_bind, wp_Random. intros [token|]; [|done].
  assert (with_temp None g = g) as Eg by (rewrite <- Et at 1; apply with_temp_id).
  assert (forall h x e, wpl (closeTemp h;; ignore (sys (Plain "fsync directory"));; (lift (Throw e) : io unit)) l
    (fun r l' g' => match r with Ok _ => False | Throw e' => Q (Throw e') l' g' end) (with_temp x g)) as Hclean.
  { intros h x e. apply wpb_upd, update_temp_none. change (with_temp None (with_temp x g)) with (with_temp None g). rewrite Eg.
    apply wpb_bind, wp_closeTemp, wpb_bind, wpb_ignore, wp_Plain. intros _. apply wpb_lift, HT. }
  apply wpb_bind, wpb_sys; [done|]. intros w gs ch r w' Hi HI He. cbn in He.
  apply may_fail_Some in He as [(e & -> & -> & _)|He]; [exists g; rewrite insert_id by done; auto|].
  destruct ch as [| | | |dev ino time| | | | |]; try done. injection He as <- <-. set (h := w_next w).
  exists (with_temp (Some (h, [])) g). split_and!; [done|by apply (Inv_create _ w gs i g (mkFile [] true dev ino time time))|].
  clearbody h. clear Hi HI w gs. apply wpb_bind, wpb_try, wpb_bind, wp_writeLoop; [done|..].
  - intros e b'. eapply wpb_mono; [|apply Hclean]. by intros [[]|] l' g'.
  - apply wpb_bind, wp_Plain. intros [[]|e]; [|eapply wpb_mono; [|apply Hclean]; by intros [[]|] l' g']. cbn [app]. apply Hlink.
    + intros e. eapply wpb_mono; [|apply Hclean]. by intros [[]|] l' g'.
    + apply wpb_finally, wpb_bind, wp_Fstat. intros [st|e]; [|by apply wp_closeTemp, HTl; left].
      apply wp_guard; [intros _; by apply wp_closeTemp, HTl; left|]. intros _. apply wpb_bind, Hal.
      assert (forall e, wpl (closeTemp h) (f (receiptFileStampV1 st) l) (fun s l'' g'' => match s with Ok _ => Q (Throw e) l'' g'' | Throw e0 => Q (Throw e0) l'' g'' end) linked) as Hend.
      { intros e. apply wp_closeTemp, HTl. right. eauto. }
      apply wpb_bind, wp_Plain. intros [[]|]; [|done]. apply wpb_bind, wp_Plain. intros [[]|]; [|done].
      apply wp_assertDirectoryAuthorityV1. intros [[]|]; [|done]. by apply wp_closeTemp, HQ.
Qed.

Lemma wp_Link_release t h b l Q g : g_temp g = None -> Retired (appendLockClaimNameV1 t) ∈ g_facts g ->
  (forall e, Q (Throw e) l (with_temp (Some (h, b)) g)) -> Q (Ok tt) l g ->
  wpl (sys (Link h (appendLockReleaseNameV1 t))) l Q (with_temp (Some (h, b)) g).
Proof using.
  intros Et Hx HT HQ. apply wpb_sys; [done|]. intros w gs ch r w' Hi HI He. cbn in He.
  apply may_fail_Some in He as [(e & -> & -> & _)|He]; [exists (with_temp (Some (h, b)) g); rewrite insert_id by done; auto|].
  destruct ch as [| | |time| | | | | |]; try done. case_bool_decide as Hn; injection He as <- <-;
    [exists (with_temp (Some (h, b)) g); rewrite insert_id by done; auto|].
  exists g. split_and!; [done| |done]. apply Inv_restamp. replace g with (with_temp None (with_temp (Some (h, b)) g)) at 1.
  - eapply Inv_link_release; [done|done|done|done|]. by apply not_elem_of_dom.
  - change (with_temp None (with_temp (Some (h, b)) g)) with (with_temp None g). rewrite <- Et. apply with_temp_id.
Qed.

Lemma wp_Link_claim t h instance dev ino l Q g : g_temp g = None -> g_stage g = Drawn t ->
  (linux = true -> instance = instance_text (g_boot g) (g_start g)) ->
  (forall e, Q (Throw e) l (with_temp (Some (h, record_bytes (claim_json (g_pid g) instance t dev ino))) g)) ->
  Q (Ok tt) l (with_stage (Inside t instance Fresh) g) ->
  wpl (sys (Link h (appendLockClaimNameV1 t))) l Q (with_temp (Some (h, record_bytes (claim_json (g_pid g) instance t dev ino))) g).
Proof using.
  intros Et Es Hin HT HQ. set (g1 := with_temp _ g) in *. apply wpb_sys; [done|]. intros w gs ch r w' Hi HI He. cbn in He.
  apply may_fail_Some in He as [(e & -> & -> & _)|He]; [exists g1; rewrite insert_id by done; auto|].
  destruct ch as [| | |time| | | | | |]; try done. case_bool_decide as Hn; injection He as <- <-; [exists g1; rewrite insert_id by done; auto|].
  exists (with_stage (Inside t instance Fresh) g). split_and!; [done| |done]. apply Inv_restamp.
  replace (with_stage (Inside t instance Fresh) g) with (with_temp None (with_stage (Inside t instance Fresh) g1)) by (destruct g; cbn in *; by subst).
  apply (Inv_link_claim _ w gs i g1 t h instance dev ino); [done|done|done|done|by apply not_elem_of_dom|].
  intros Hl. pose proof (iv_thread _ _ _ HI i g1 Hi) as Hth. destruct (to_live _ _ _ Hth) as (p & Hp & Est). exists p. split; [done|].
  rewrite (Hin Hl), <- (to_boot _ _ _ Hth). change (g_boot g1) with (g_boot g). by rewrite Est.
Qed.

End specs.
