(* ===== verification/ReceiptLockProtocol.v ===== *)
(** * Acquiring and releasing the append lock

    The functions of the protocol itself, on the specifications of [ReceiptLockSpecs]: the
    release of a claim, the scan for claims that block, the publication of a claim, the loop
    that acquires the lock. *)

From Stdlib Require Import Ascii.
From S2P Require Import Prelude Js JsText CanonicalJson Sha256 JsConvert JsonParse TextLines NodeBuffer.
From S2P Require Import Receipts ReceiptsSafety Interleave ReceiptLock ReceiptLockLogic ReceiptLockSpecs.

(** The claims that the fields of a store remember are retired. *)
Definition retired_claim (o : option ReceiptAppendLockClaimV1) (g : ghost) : Prop :=
  forall c, o = Some c -> Retired (appendLockClaimNameV1 (c_token c)) ∈ g_facts g.

Record settled (l : locals) (g : ghost) : Prop := mkSettled {
  se_released : retired_claim (locallyReleasedAppendClaimV1 l) g;
  se_unconfirmed : retired_claim (locallyUnconfirmedAppendClaimV1 l) g;
  se_temp : g_temp g = None
}.

Lemma settled_mono l g g' : extends g g' -> settled l g -> settled l g'.
Proof. intros He [H1 H2 H3]. split; [intros c E; by apply He, H1|intros c E; by apply He, H2|by rewrite (ex_temp _ _ He)]. Qed.

Lemma settled_released l g : settled l g -> settled (set_released None l) g.
Proof. intros [H1 H2 H3]. by split. Qed.

Lemma settled_unconfirmed l g : settled l g -> settled (set_unconfirmed None l) g.
Proof. intros [H1 H2 H3]. by split. Qed.

#[export] Hint Resolve settled_mono settled_released settled_unconfirmed : voidnet.

(** The store knows more and has the claim it had, if any. *)
Record follows (g g' : ghost) : Prop := mkFollows {
  fo_pid : g_pid g' = g_pid g;
  fo_temp : g_temp g' = g_temp g;
  fo_facts : forall x, x ∈ g_facts g -> x ∈ g_facts g';
  fo_outside : g_stage g = Outside -> g_stage g' = Outside;
  fo_inside : forall t instance v, g_stage g = Inside t instance v -> exists v', g_stage g' = Inside t instance v'
}.

Lemma extends_follows g g' : extends g g' -> follows g g'.
Proof. intros [E1 E2 E3 E4 E5 E6]. split; [done|done|done|by rewrite E4|rewrite E4; eauto]. Qed.

#[export] Instance follows_pre : PreOrder follows.
Proof.
  split; [intros g; by apply extends_follows|]. intros g1 g2 g3 [A1 A2 A3 A4 A5] [B1 B2 B3 B4 B5]. split; [congruence|congruence|auto|auto|].
  intros t instance v E. destruct (A5 _ _ _ E) as [v' E']. by eapply B5.
Qed.

Lemma settled_follows l g g' : follows g g' -> settled l g -> settled l g'.
Proof. intros Hf [H1 H2 H3]. split; [intros c E; by apply Hf, H1|intros c E; by apply Hf, H2|by rewrite (fo_temp _ _ Hf)]. Qed.

Lemma follows_view t instance v v' g : g_stage g = Inside t instance v -> follows g (with_stage (Inside t instance v') g).
Proof. intros E. split; try done; [by rewrite E|]. intros t1 i1 v1 E1. rewrite E in E1. injection E1 as <- <- <-. by exists v'. Qed.

#[export] Hint Resolve extends_follows settled_follows : voidnet.

Section protocol.
Context `{StringNumber} `{JsonNumber} (linux proc_readable : bool) (i : nat).
Context (Hproc : linux = true -> proc_readable = true).

Notation wpl := (wpb (exec proc_readable) g_pid (Inv linux) (pre proc_readable) i (L := locals)).
Notation update := (upd g_pid (Inv linux) i).

Lemma wp_forgetReleased c l Q g : Q (Ok tt) l g -> Q (Ok tt) (set_released None l) g -> wpl (forgetReleased c) l Q g.
Proof using. intros H1 H2. apply wpb_assign. by destruct (sameLocallyReleasedAppendClaimV1 l c). Qed.

(** *** Releasing *)

Lemma wp_finish a c self l Q g : self = g_pid g -> g_temp g = None -> seen c g -> Retired (c_path c) ∈ g_facts g ->
  (forall r l' g', extends g g' -> l' = l \/ l' = set_released None l -> Q r l' g') ->
  wpl (finishAppendLockReleaseV1 linux self a c) l Q g.
Proof using Hproc.
  intros -> Et Hc Hx HQ. assert (forall r g', extends g g' -> Q r l g') as HQ0 by auto. unfold finishAppendLockReleaseV1.
  apply wpb_bind, wp_readAppendLockClaimV1; [auto|]. intros cur g1 E1 _ _. apply wp_guard; [auto|]. intros _.
  rewrite <- (ex_pid _ _ E1). apply wpb_bind, (wp_current_instance _ _ _ Hproc); [auto|]. intros instance _. apply wp_guard; [auto|]. intros _.
  assert (forall r g2, extends g g2 -> Retired (c_path c) ∈ g_facts g2 -> re_path r = appendLockReleaseNameV1 (c_token c) ->
    wpl (removed ← removeObservedAppendLockRecordV1 a (c_path c) (c_stamp c);
      lift (throw_if (negb removed) "VOID_RECEIPT_APPEND_LOCK_RELEASE_CLEANUP_FAILED_V1");;
      removeObservedAppendLockRecordV1 a (re_path r) (re_stamp r);; forgetReleased c) l Q g2) as Hrest.
  { intros r g2 E2 Hx2 Er. apply wpb_bind, wp_removeObserved; [by left|]. intros b. apply wp_guard; [auto|]. intros _.
    apply wpb_bind, wp_removeObserved; [right; eauto|]. intros _. apply wp_forgetReleased; auto. }
  assert (seen c g1) as Hc1 by (by eapply seen_mono).
  apply wpb_bind, wp_readAppendLockReleaseV1; [done|intros e g2 E2; apply HQ0; by etrans| |].
  - intros g2 E2. assert (extends g g2) as E02 by (by etrans). apply wpb_bind, wpb_bind.
    apply wp_writeAppendLockRecordV1 with (f := fun _ l => l) (linked := g2); [by rewrite (ex_temp _ _ E02)|by rewrite (ex_temp _ _ E02)|..].
    + intros h l' Q' HT HQ'. apply wp_Link_release; [by rewrite (ex_temp _ _ E02)| |done|done]. destruct Hc as (v & _ & Ep & _). rewrite <- Ep. by apply E02.
    + intros s l' Q' g' HQ'. by apply wpb_ret.
    + intros e. by apply HQ0.
    + intros e l' [->|[s ->]]; by apply HQ0.
    + intros s. apply wp_readAppendLockReleaseV1; [by eapply seen_mono|intros e g3 E3; apply HQ0; by etrans| |].
      * intros g3 E3. apply wpb_lift, HQ0. by etrans.
      * intros r g3 E3 Hr Ep. apply Hrest; [by etrans|done|done].
  - intros r g2 E2 Hr Ep. apply wpb_bind, wpb_ret. apply Hrest; [by etrans|done|done].
Qed.

Lemma same_owner_token m c : same_owner m c = true -> c_token m = c_token c.
Proof using. clear. unfold same_owner. intros E. bool_prop. by apply String.eqb_eq. Qed.

(** *** Scanning *)

(** A claim that does not block is retired. *)
Lemma wp_claimBlocks a n self l Q g : self = g_pid g -> settled l g ->
  (forall e l' g', extends g g' -> settled l' g' -> Q (Throw e) l' g') ->
  (forall b l' g', extends g g' -> settled l' g' -> b = true \/ Retired n ∈ g_facts g' -> Q (Ok b) l' g') ->
  wpl (claimBlocks linux self a n) l Q g.
Proof using Hproc.
  intros -> Hs HT HQ. assert (forall g', extends g g' -> Q (Ok true) l g') as Htrue by (intros; apply HQ; eauto with voidnet).
  unfold claimBlocks. apply wpb_bind, wpb_try, wpb_bind, wp_readAppendLockClaimV1; [intros e g1 E1; apply wpb_ret, wpb_ret; auto|].
  intros c g1 E1 Hc Ep. assert (settled l g1) as Hs1 by eauto with voidnet.
  apply wpb_bind, wp_readAppendLockReleaseV1; [done|intros e g2 E2; apply wpb_ret, wpb_ret, Htrue; by etrans| |].
  - intros g2 E2. assert (extends g g2) as E02 by (by etrans). assert (settled l g2) as Hs2 by eauto with voidnet.
    assert (seen c g2) as Hc2 by (by apply (seen_mono c g1 g2)). assert (c_path c = appendLockClaimNameV1 (c_token c)) as Ename by (by destruct Hc as (v & _ & ? & _)).
    apply wpb_ret, wpb_bind, wpb_fields.
    destruct (sameLocallyReleasedAppendClaimV1 l c) eqn:Er; [|destruct (sameLocallyUnconfirmedAppendClaimV1 l c) eqn:Eu].
    + assert (Retired (c_path c) ∈ g_facts g2) as Hx.
      { unfold sameLocallyReleasedAppendClaimV1 in Er. destruct (locallyReleasedAppendClaimV1 l) as [m|] eqn:Em; [|done].
        apply andb_true_iff in Er as [Er _]. rewrite Ename, <- (same_owner_token m c Er). by apply (se_released _ _ Hs2). }
      apply wpb_try, wpb_bind, wp_finish; [by rewrite (ex_pid _ _ E02)|apply Hs2|done|done|].
      intros r l' g3 E3 Hl'. assert (settled l' g3) as Hs3 by (destruct Hl' as [->| ->]; eauto with voidnet).
      assert (extends g g3) as E03 by (by etrans).
      destruct r as [[]|e]; apply wpb_ret, HQ; auto. right. rewrite <- Ep. by apply E3.
    + assert (Retired (c_path c) ∈ g_facts g2) as Hx.
      { unfold sameLocallyUnconfirmedAppendClaimV1 in Eu. destruct (locallyUnconfirmedAppendClaimV1 l) as [m|] eqn:Em; [|done].
        apply andb_true_iff in Eu as [Eu _]. rewrite Ename, <- (same_owner_token m c Eu). by apply (se_unconfirmed _ _ Hs2). }
      apply wpb_bind, wp_removeObserved; [by left|]. intros [|]; [|by apply wpb_ret, Htrue].
      apply wpb_bind, wpb_assign, wpb_ret, HQ; eauto with voidnet. right. by rewrite <- Ep.
    + rewrite <- (ex_pid _ _ E02). apply wpb_bind, (wp_appendLockClaimStateV1 _ _ _ Hproc); [done|..].
      * intros e g3 E3. apply HT; [by etrans|eauto with voidnet].
      * intros st g3 E3 Hst. assert (extends g g3) as E03 by (by etrans). destruct st; [by apply wpb_ret, Htrue| |by apply wpb_ret, Htrue].
        specialize (Hst eq_refl). apply wpb_bind, wp_removeObserved; [by left|]. intros b. apply wpb_ret, HQ; [done|eauto with voidnet|]. right. by rewrite <- Ep.
  - intros r g2 E2 Hx Er. assert (extends g g2) as E02 by (by etrans). assert (settled l g2) as Hs2 by eauto with voidnet.
    apply wpb_ret, wpb_bind, wp_removeObserved; [by left|]. intros [|]; cbn [negb]; [|by apply wpb_ret, Htrue].
    apply wpb_bind, wp_removeObserved; [right; eauto|]. intros _. rewrite Ep in Hx.
    apply wpb_bind, wp_forgetReleased; apply wpb_ret, HQ; eauto with voidnet.
Qed.

Lemma Inv_view w gs t instance v v' g : Inv linux w gs -> gs !! i = Some g -> g_stage g = Inside t instance v ->
  (forall d, v' = Holding (Some d) -> view_ok w d) ->
  (forall j gj t', j <> i -> gs !! j = Some gj -> claims gj t' -> sees g t' -> sees (with_stage (Inside t instance v') g) t') ->
  Inv linux w (<[i := with_stage (Inside t instance v') g]> gs).
Proof using.
  intros HI Hi Es Hd Hsees. apply Inv_stage; [done|done|..].
  - pose proof (to_stage _ _ _ (iv_thread _ _ _ HI i g Hi)) as Hs. rewrite Es in Hs. split; [apply Hs|done].
  - unfold token_of. rewrite Es. auto.
  - intros t' (i' & v1 & [= <- <- <-]). by eexists _, _.
  - intros j gj t1 t' Hj Hgj _ Hc [?|?]; [|by right]. left. by eapply Hsees.
Qed.

Lemma update_view t instance v v' P g : g_stage g = Inside t instance v ->
  (forall w gs, Inv linux w gs -> gs !! i = Some g -> (forall d, v' = Holding (Some d) -> view_ok w d) /\
    forall j gj t', j <> i -> gs !! j = Some gj -> claims gj t' -> sees g t' -> sees (with_stage (Inside t instance v') g) t') ->
  P (with_stage (Inside t instance v') g) -> update P g.
Proof using.
  intros Es Hv HP w gs Hi HI. destruct (Hv w gs HI Hi) as [Hd Hsees]. eexists. split_and!; [|by eapply Inv_view|exact HP]. done.
Qed.

(** Where a scan is, with the names that remain and whether one has blocked *)
Definition scan_at (g : ghost) (own : option string) (names : list string) (blocked : bool) : Prop :=
  g_stage g = Outside \/ exists t instance, own = Some (appendLockClaimNameV1 t) /\ g_stage g = Inside t instance (Scanning names blocked).

Lemma scan_at_extends g g' own names b : extends g g' -> scan_at g own names b -> scan_at g' own names b.
Proof using. unfold scan_at. intros E. by rewrite (ex_stage _ _ E). Qed.

(** A name is done with when it is the own one, blocks or is retired. *)
Lemma update_scanned g own n names b b' P : scan_at g own (n :: names) b -> own = Some n \/ b' = true \/ Retired n ∈ g_facts g ->
  (forall g', follows g g' -> scan_at g' own names (b || b') -> P g') -> update P g.
Proof using.
  intros [Es|(t & instance & -> & Es)] Hn HP; [apply upd_intro, HP; [done|by left]|].
  eapply update_view; [done| |apply HP; [by eapply follows_view|right; eauto]].
  intros w gs HI Hi. split; [done|]. intros j gj t' Hj Hgj Hc. unfold sees. rewrite Es. cbn.
  intros [->|[E|?]%elem_of_cons]; [by left| |by right]. destruct Hn as [[= <-]|[->|Hx]]; [|by left; apply orb_true_r|].
  - apply claim_name_inj in E as ->. exfalso.
    eapply (ap_token _ _ (iv_apart _ _ _ HI i j g gj (not_eq_sym Hj) Hi Hgj) t t); [unfold token_of; by rewrite Es|by apply claims_token|done].
  - exfalso. by eapply (iv_facts _ _ _ HI i j g gj (Retired n) Hi Hgj Hx t').
Qed.

Lemma wp_blockedNames a own self names b l Q g : self = g_pid g -> settled l g -> scan_at g own names b ->
  (forall e l' g', follows g g' -> settled l' g' -> Q (Throw e) l' g') ->
  (forall b' l' g', follows g g' -> settled l' g' -> scan_at g' own [] b' -> Q (Ok b') l' g') ->
  wpl (blockedNames linux self a own names b) l Q g.
Proof using Hproc.
  revert b l g. induction names as [|n names IH]; intros b l g Hpid Hs Hscan HT HQ; [by apply wpb_ret, HQ|]. cbn [blockedNames].
  case_bool_decide as Eo.
  - apply wpb_upd. eapply (update_scanned g own n names b false); [done|by left|]. intros g' Hf Hg'. rewrite orb_false_r in Hg'.
    apply IH; [by rewrite (fo_pid _ _ Hf)|eauto with voidnet|done| |].
    + intros e l' g'' Hf'. apply HT. by etrans.
    + intros b' l' g'' Hf'. apply HQ. by etrans.
  - apply wpb_bind, wp_claimBlocks; [done|done|intros e l' g' He Hs'; apply HT; eauto with voidnet|].
    intros b1 l1 g1 E1 Hs1 Hb1. apply wpb_upd. eapply (update_scanned g1 own n names b b1); [by eapply scan_at_extends|by right|].
    intros g' Hf Hg'. assert (follows g g') as Hfg by (etrans; [by apply extends_follows|done]). apply IH; [by rewrite (fo_pid _ _ Hfg)|eauto with voidnet|done| |].
    + intros e l' g'' Hf'. apply HT. by etrans.
    + intros b' l' g'' Hf'. apply HQ. by etrans.
Qed.

Lemma claim_listed w gs j gj t : Inv linux w gs -> gs !! j = Some gj -> claims gj t -> appendLockClaimNameV1 t ∈ dom (w_names w) /\ is_token t = true.
Proof using.
  intros HI Hj (instance & v & Es). pose proof (to_stage _ _ _ (iv_thread _ _ _ HI j gj Hj)) as Hs. rewrite Es in Hs.
  destruct Hs as [[Ht _ _ (h & _ & _ & Hn & _) _] _]. split; [by apply elem_of_dom_2 in Hn|done].
Qed.

(** A scan starts from a fresh claim, or from outside. *)
Definition scan_from (g : ghost) (own : option string) : Prop :=
  g_stage g = Outside \/ exists t instance, own = Some (appendLockClaimNameV1 t) /\ g_stage g = Inside t instance Fresh.

Lemma wp_listing {A} own (k : list string -> io A) l Q g : scan_from g own -> (forall e g', follows g g' -> Q (Throw e) l g') ->
  (forall names g', follows g g' -> scan_at g' own (isort str_leb (List.filter is_claim_name names)) false -> wpl (k names) l Q g') ->
  wpl (begun ← sys Opendir; names ← sys (Readdir begun); k names) l Q g.
Proof using.
  intros [Es|(t & instance & -> & Es)] HT HQ.
  - apply wpb_bind, wp_ignored; [done| |].
    { intros w ch r w' He. cbn in He. apply may_fail_Some in He as [(? & _ & -> & _)|[= _ <-]]; done. }
    intros [begun|e]; [|by apply HT]. apply wpb_bind, wp_ignored; [done| |].
    { intros w ch r w' He. cbn in He. apply may_fail_Some in He as [(? & _ & -> & _)|He]; [done|]. destruct ch; try done. destruct (_ && _); by simplify_eq. }
    intros [names|e]; [apply HQ; [done|by left]|by apply HT].
  - apply wpb_bind, wp_quiet; [done|]. intros w gs ch r w' Hi HI He. cbn in He.
    apply may_fail_Some in He as [(e & -> & -> & _)|[= <- <-]]; (split; [done|]); [exists g; rewrite insert_id by done; split_and!; [done|done|by apply HT]|].
    set (begun := elements (dom (w_names w))). set (g1 := with_stage (Inside t instance (Listing begun)) g).
    assert (follows g g1) as Hf1 by (by eapply follows_view). exists g1. split_and!; [done|eapply Inv_view; [done|done|done|done|]|].
    { intros j gj t' Hj Hgj Hc _. cbn. apply elem_of_elements. by eapply (claim_listed w gs j gj). }
    clearbody begun. clear Hi HI w gs ch. apply wpb_bind, wp_quiet; [done|]. intros w gs ch r w' Hi HI He. cbn in He.
    apply may_fail_Some in He as [(e & -> & -> & _)|He]; [split; [done|]; exists g1; rewrite insert_id by done; split_and!; [done|done|by apply HT]|].
    destruct ch as [| | | | | | |names| |]; try done. destruct (bool_decide (Forall _ begun) && _ && _) eqn:Eb; [|done]. injection He as <- <-.
    split; [done|]. bool_prop. repeat match goal with E : bool_decide _ = true |- _ => apply bool_decide_eq_true in E end.
    exists (with_stage (Inside t instance (Scanning (isort str_leb (List.filter is_claim_name names)) false)) g1).
    split_and!; [done|eapply Inv_view; [done|done|done|done|]|apply HQ; [etrans; [done|by eapply follows_view]|right; eauto]].
    intros j gj t' Hj Hgj Hc Hin. right. destruct (claim_listed w gs j gj t' HI Hgj Hc) as [Hdom Htok].
    rewrite isort_perm, list_filter_elem. split; [|by apply is_claim_name_token].
    match goal with E : Forall _ begun |- _ => by apply (proj1 (Forall_forall _ _) E) end.
Qed.

Lemma wp_appendLockBlockedV1 a own self l Q g : self = g_pid g -> settled l g -> scan_from g own ->
  (forall e l' g', follows g g' -> settled l' g' -> Q (Throw e) l' g') ->
  (forall b l' g', follows g g' -> settled l' g' -> scan_at g' own [] b -> Q (Ok b) l' g') ->
  wpl (appendLockBlockedV1 linux self a own) l Q g.
Proof using Hproc.
  intros -> Hs Hfrom HT HQ. unfold appendLockBlockedV1.
  apply (wp_listing own); [done|intros e g' Hf; apply HT; eauto with voidnet|]. intros names g' Hf Hscan.
  apply wp_blockedNames; [by rewrite (fo_pid _ _ Hf)|eauto with voidnet|done| |].
  - intros e l' g'' Hf'. apply HT. by etrans.
  - intros b' l' g'' Hf'. apply HQ. by etrans.
Qed.

(** *** Claiming *)

(** What a store is left with when an append ends: it may still have a claim of its own that
    it has not confirmed. *)
Record loose (l : locals) (g : ghost) : Prop := mkLoose {
  lo_released : retired_claim (locallyReleasedAppendClaimV1 l) g;
  lo_unconfirmed : forall c, locallyUnconfirmedAppendClaimV1 l = Some c ->
    Retired (appendLockClaimNameV1 (c_token c)) ∈ g_facts g \/ claims g (c_token c);
  lo_temp : g_temp g = None
}.

Lemma settled_loose l g : settled l g -> loose l g.
Proof using. clear. intros [H1 H2 H3]. split; auto. Qed.

Definition retire (t : string) (g : ghost) : ghost := with_fact (Retired (appendLockClaimNameV1 t)) (with_stage Outside g).

Lemma update_retire t instance v P g : g_stage g = Inside t instance v -> P (retire t g) -> update P g.
Proof using.
  intros Es HP w gs Hi HI. exists (retire t g). split_and!; [done| |done].
  assert (Inv linux w (<[i := with_stage Outside g]> gs)) as HI1.
  { apply Inv_stage; [done|done|done|done|by intros t' (? & ? & [=])|by intros j gj t1 t' _ _ (? & ? & [=])]. }
  unfold retire. rewrite <- (insert_insert_eq gs i _ (with_stage Outside g)). apply Inv_fact; [done|by rewrite lookup_insert_eq| |].
  - destruct (claim_listed w gs i g t HI Hi) as [[h Hn]%elem_of_dom _]; [by eexists _, _|]. by apply (gl_names _ _ (iv_global _ _ _ HI) _ h).
  - intros j gj. rewrite lookup_insert. case_decide as Ej; [intros [= <-] t' (? & ? & [=])|].
    intros Hj t' Hc E. apply claim_name_inj in E as <-.
    eapply (ap_token _ _ (iv_apart _ _ _ HI i j g gj Ej Hi Hj) t t); [unfold token_of; by rewrite Es|by apply claims_token|done].
Qed.

Lemma settled_retire l t g : settled l g -> settled l (retire t g).
Proof using. clear. intros [H1 H2 H3]. split; [intros c E; right; by apply H1|intros c E; right; by apply H2|done]. Qed.

(** A store gives up the claim it may still have. *)
Lemma update_outside l P g : loose l g -> (forall g', g_pid g' = g_pid g -> g_stage g' = Outside -> settled l g' -> P g') -> update P g.
Proof using.
  intros [H1 H2 H3] HP. destruct (g_stage g) as [|t|t instance v] eqn:Es.
  - apply upd_intro, HP; [done|done|]. split; [done| |done]. intros c E. destruct (H2 c E) as [?|(? & ? & E')]; [done|congruence].
  - intros w gs Hi HI. exists (with_stage Outside g). split_and!; [done| |].
    + apply Inv_stage; [done|done|done|done|by intros t' (? & ? & [=])|by intros j gj t1 t' _ _ (? & ? & [=])].
    + apply HP; [done|done|]. split; [done| |done]. intros c E. destruct (H2 c E) as [?|(? & ? & E')]; [done|congruence].
  - eapply update_retire; [done|]. apply HP; [done|done|]. split; [intros c E; right; by apply H1| |done].
    intros c E. destruct (H2 c E) as [?|(? & ? & E')]; [by right|]. rewrite Es in E'. injection E' as <- _ _. by left.
Qed.

Lemma wp_Random_token l Q g : (forall e, Q (Throw e) l g) -> (forall t, Q (Ok t) l (with_stage (Drawn t) g)) -> wpl (sys (Random 16)) l Q g.
Proof using.
  intros HT HQ. apply wpb_sys; [done|]. intros w gs ch r w' Hi HI He. cbn in He.
  apply may_fail_Some in He as [(e & -> & -> & _)|He]; [exists g; rewrite insert_id by done; auto|].
  destruct ch as [| | | | | |t| | |]; try done. destruct (is_hex_digits 32 t && _) eqn:Eb; [|done]. injection He as <- <-.
  apply andb_true_iff in Eb as [Ht Hn%negb_true_iff%bool_decide_eq_false]. exists (with_stage (Drawn t) g).
  split_and!; [done|by apply Inv_draw_token|done].
Qed.

Lemma wp_publishAppendLockClaimV1 a self l Q g : self = g_pid g -> settled l g ->
  (forall e l' g', g_pid g' = g_pid g -> loose l' g' -> Q (Throw e) l' g') ->
  (forall c instance l' g', g_pid g' = g_pid g -> settled l' g' -> seen c g' -> g_stage g' = Inside (c_token c) instance Fresh -> Q (Ok c) l' g') ->
  wpl (publishAppendLockClaimV1 linux self a) l Q g.
Proof using Hproc.
  intros -> Hs HT HQ. unfold publishAppendLockClaimV1. pose proof Hs as [S1 S2 S3].
  apply wpb_bind, wp_Random_token; [intros e; apply HT; [done|by apply settled_loose]|]. intros t. set (g1 := with_stage (Drawn t) g).
  assert (loose l g1) as Hl1 by (apply settled_loose; by split). apply wpb_bind. change (g_pid g) with (g_pid g1).
  apply (wp_current_instance _ _ _ Hproc); [intros e; by apply HT|]. intros instance Hin.
  set (g2 := with_stage (Inside t instance Fresh) g1).
  set (f := fun s l => set_unconfirmed (Some (mkClaim (g_pid g1) instance t (dec (a_dev a)) (dec (a_ino a)) (appendLockClaimNameV1 t) s)) l).
  assert (claims g2 t) as Hcl by (by eexists _, _). assert (forall s, loose (f s l) g2) as Hl2.
  { intros s. split; [done| |done]. intros c [= <-]. by right. }
  apply wpb_bind, wp_writeAppendLockRecordV1 with (f := f) (linked := g2); [done|done| | |intros e; by apply HT| |].
  - intros h l' Q' HT' HQ'. by apply wp_Link_claim.
  - intros s l' Q' g' HQ'. by apply wpb_assign.
  - intros e l' [->|[s ->]]; (apply HT; [done|]); [|done]. split; [done| |done]. intros c E. left. by apply S2.
  - intros s. apply wpb_bind, wp_readAppendLockClaimV1.
    + intros e g3 E3. apply HT; [by rewrite (ex_pid _ _ E3)|]. split; [intros c E; by apply E3, S1| |by rewrite (ex_temp _ _ E3)].
      intros c [= <-]. right. unfold claims. rewrite (ex_stage _ _ E3). by eexists _, _.
    + intros c g3 E3 Hc Ep. assert (c_token c = t) as Et by (destruct Hc as (v & _ & E & _); rewrite Ep in E; by apply claim_name_inj in E).
      apply wpb_bind, wpb_fields. apply wp_guard; [|].
      * intros _. apply HT; [by rewrite (ex_pid _ _ E3)|]. split; [intros c' E; by apply E3, S1| |by rewrite (ex_temp _ _ E3)].
        intros c' [= <-]. right. unfold claims. rewrite (ex_stage _ _ E3). by eexists _, _.
      * intros _. apply wpb_bind, wpb_assign, wpb_ret. apply (HQ c instance); [by rewrite (ex_pid _ _ E3)| |done|by rewrite (ex_stage _ _ E3), Et].
        split; [intros c' E; by apply E3, S1|done|by rewrite (ex_temp _ _ E3)].
Qed.

(** *** The loop *)

Definition acquired (c : ReceiptAppendLockClaimV1) (g : ghost) : Prop :=
  seen c g /\ exists instance, g_stage g = Inside (c_token c) instance (Holding None).

(** A scan that has found nothing that blocks ends in the lock. *)
Lemma update_holding t instance P g : g_stage g = Inside t instance (Scanning [] false) ->
  P (with_stage (Inside t instance (Holding None)) g) -> update P g.
Proof using.
  intros Es HP. eapply update_view; [done| |done]. intros w gs HI Hi. split; [done|]. intros j gj t' _ _ _. unfold sees. rewrite Es.
  intros [?|?%elem_of_nil]; done.
Qed.

Lemma seen_facts c g g' : (forall x, x ∈ g_facts g -> x ∈ g_facts g') -> seen c g -> seen c g'.
Proof using. clear. intros Hf (v & (h & bs & H1 & H2 & H3) & ?). exists v. split; [|done]. exists h, bs. split_and!; [by apply Hf|by apply Hf|done]. Qed.

Lemma wp_acquireLoop fuel a deadline self l Q g : self = g_pid g -> settled l g -> g_stage g = Outside ->
  (forall e l' g', g_pid g' = g_pid g -> loose l' g' -> Q (Throw e) l' g') ->
  (forall c l' g', g_pid g' = g_pid g -> settled l' g' -> acquired c g' -> Q (Ok c) l' g') ->
  wpl (acquireLoop linux self fuel a deadline) l Q g.
Proof using Hproc.
  revert l g. induction fuel as [|fuel IH]; intros l g Hpid Hs Es HT HQ; cbn [acquireLoop];
    [apply wpb_lift, HT; [done|by apply settled_loose]|].
  assert (forall e l' g', g_pid g' = g_pid g -> settled l' g' -> Q (Throw e) l' g') as HTs by (intros; apply HT; [done|by apply settled_loose]).
  apply wpb_bind, wp_Plain. intros [[]|]; [|by apply HTs]. apply wpb_bind, wp_assertDirectoryAuthorityV1. intros [[]|]; [|by apply HTs].
  apply wpb_bind, wp_appendLockBlockedV1; [done|done|by left|intros e l' g' Hf; apply HTs; by rewrite (fo_pid _ _ Hf)|].
  intros b l1 g1 Hf1 Hs1 _. assert (g_pid g1 = g_pid g) as Ep1 by apply Hf1. assert (g_stage g1 = Outside) as Es1 by (by apply Hf1).
  assert (forall l' g', g_pid g' = g_pid g -> settled l' g' -> g_stage g' = Outside -> wpl (now ← sys Now;
    lift (throw_if (deadline <=? now) "VOID_RECEIPT_APPEND_CROSS_PROCESS_LOCKED_V1");; sys (Plain "timer");; acquireLoop linux self fuel a deadline) l' Q g') as Hagain.
  { intros l' g' Ep' Hs' Es'. apply wpb_bind, wp_Now. intros [now|]; [|by apply HTs]. apply wp_guard; [by intros _; apply HTs|]. intros _.
    apply wpb_bind, wp_Plain. intros [[]|]; [|by apply HTs]. apply IH; [congruence|done|done| |].
    - intros e l'' g'' E. apply HT. congruence.
    - intros c l'' g'' E. apply HQ. congruence. }
  apply wpb_bind. destruct b; [by apply wpb_ret, Hagain|]. apply wpb_bind, wp_publishAppendLockClaimV1; [congruence|done|intros e l' g' E; apply HT; congruence|].
  intros c instance l2 g2 Ep2 Hs2 Hc Es2. assert (c_path c = appendLockClaimNameV1 (c_token c)) as Ename by (by destruct Hc as (v & _ & ? & _)).
  apply wpb_bind, wp_assertDirectoryAuthorityV1. intros [[]|]; [|apply HTs; [congruence|done]].
  apply wpb_bind, wp_appendLockBlockedV1; [congruence|done|right; exists (c_token c), instance; by rewrite Ename|
    intros e l' g' Hf; apply HTs; rewrite (fo_pid _ _ Hf); congruence|].
  intros b l3 g3 Hf3 Hs3 Hscan. assert (g_pid g3 = g_pid g) as Ep3 by (rewrite (fo_pid _ _ Hf3); congruence).
  destruct (fo_inside _ _ Hf3 _ _ _ Es2) as [v3 Es3]. destruct Hscan as [E|(t & instance' & [= Et] & E)]; [congruence|].
  rewrite Es3 in E. injection E as <- <- ->. destruct b; cbn [negb].
  - apply wpb_upd. eapply update_retire; [done|]. apply wpb_bind, wp_removeObserved; [left; rewrite Ename; by left|]. intros _.
    apply wpb_ret, Hagain; [done|by apply settled_retire|done].
  - apply wpb_ret, wpb_upd. eapply update_holding; [done|]. apply wpb_ret, HQ; [done|by destruct Hs3; split|]. split; [|by eexists].
    eapply seen_facts; [|exact Hc]. apply Hf3.
Qed.

Lemma wp_acquireAppendLockV1 fuel a self l Q g : self = g_pid g -> settled l g -> g_stage g = Outside ->
  (forall e l' g', g_pid g' = g_pid g -> loose l' g' -> Q (Throw e) l' g') ->
  (forall c l' g', g_pid g' = g_pid g -> settled l' g' -> acquired c g' -> Q (Ok c) l' g') ->
  wpl (acquireAppendLockV1 linux self fuel a) l Q g.
Proof using Hproc.
  intros Hpid Hs Es HT HQ. unfold acquireAppendLockV1. apply wpb_bind, wp_Now. intros [now|]; [|apply HT; [done|by apply settled_loose]].
  by apply wp_acquireLoop.
Qed.

Lemma wp_releaseAppendLockV1 a c self l Q g : self = g_pid g -> settled l g -> seen c g ->
  (exists instance v, g_stage g = Inside (c_token c) instance v) ->
  (forall l' g', g_pid g' = g_pid g -> loose l' g' -> (forall x, x ∈ g_facts g -> x ∈ g_facts g') -> Q (Ok tt) l' g') ->
  wpl (releaseAppendLockV1 linux self a c) l Q g.
Proof using Hproc.
  intros -> Hs Hc (instance & v & Es) HQ. unfold releaseAppendLockV1. apply wpb_bind, wpb_assign, wpb_ignore, wpb_upd.
  assert (c_path c = appendLockClaimNameV1 (c_token c)) as Ename by (by destruct Hc as (val & _ & ? & _)).
  eapply update_retire; [done|]. set (g1 := retire (c_token c) g). assert (forall x, x ∈ g_facts g -> x ∈ g_facts g1) as Hf by (intros x Hx; by right).
  assert (settled (set_released (Some c) l) g1) as Hs1.
  { destruct Hs as [S1 S2 S3]. split; [intros c' [= <-]; by left|intros c' E; by apply Hf, S2|done]. }
  apply (wp_finish a c (g_pid g)); [done|apply Hs1|by eapply seen_facts|rewrite Ename; by left|].
  intros r l' g' E Hl'. apply HQ; [by rewrite (ex_pid _ _ E)| |intros x Hx; by apply E, Hf]. apply settled_loose. destruct Hl' as [->| ->]; eauto with voidnet.
Qed.

End protocol.
