(* ===== verification/ReceiptLockDrops.v ===== *)
(** * Shards that are dropped

    [gc] drops shards at any moment, also while an append works from what it has read of them.
    A directory without some of its shards holds the other ones; a publication that was
    planned before shards were dropped adds its receipts to what is left. *)

From Stdlib Require Import Ascii Sorted.
From S2P Require Import Prelude Js JsText CanonicalJson Sha256 JsConvert JsonParse TextLines NodeBuffer.
From S2P Require Import Receipts ReceiptsSafety Interleave ReceiptLock ReceiptLockLogic.

(** ** Directories *)

Lemma find_filter {A} (p q : A -> bool) (l : list A) : (forall x, q x = true -> p x = true) -> List.find q (List.filter p l) = List.find q l.
Proof.
  intros Hpq. induction l as [|x l IH]; [done|]. cbn. destruct (p x) eqn:Ep; cbn; [by rewrite IH|]. destruct (q x) eqn:Eq; [|done].
  apply Hpq in Eq. congruence.
Qed.

Lemma remove_names names (d : directory) : (remove_files names d).*1 = List.filter (fun n => negb (bool_decide (n ∈ names))) d.*1.
Proof. unfold remove_files. induction d as [|f d IH]; [done|]. cbn. destruct (negb _); cbn; by rewrite IH. Qed.

Lemma filter_filter_sub {A} (p q : A -> bool) (l : list A) : (forall x, q x = true -> p x = true) -> List.filter q (List.filter p l) = List.filter q l.
Proof.
  intros Hpq. induction l as [|x l IH]; [done|]. cbn. destruct (p x) eqn:Ep; cbn; [by rewrite IH|]. destruct (q x) eqn:Eq; [|done].
  apply Hpq in Eq. congruence.
Qed.

(** A file that is not a shard can be removed. *)
Lemma holds_remove shards d temp : is_shard_name temp = false -> holds shards d -> holds shards (remove_files [temp] d).
Proof.
  intros Ht Hd. pose proof Hd as [H1 H2 H3 H4 H5].
  assert (forall name, is_shard_name name = true -> negb (bool_decide (name ∈ [temp])) = true) as Hk.
  { intros name Hn. apply negb_true_iff, bool_decide_eq_false. intros ->%list_elem_of_singleton. congruence. }
  split; [| | |done|done].
  - rewrite remove_names. by apply list_filter_NoDup.
  - by rewrite remove_names, filter_filter_sub.
  - intros name rs Hin. rewrite <- (H3 name rs Hin). unfold file_of. f_equal. apply find_filter.
    intros f Hf%String.eqb_eq. apply Hk. rewrite Hf. apply (shard_listed shards d); [done|]. by apply (list_elem_of_fmap_2 fst) in Hin.
Qed.

Lemma remove_absent temp (d : directory) : temp ∉ d.*1 -> remove_files [temp] d = d.
Proof.
  intros Hn. unfold remove_files. induction d as [|f d IH]; [done|]. cbn. rewrite bool_decide_eq_false_2; [cbn; rewrite IH; [done|]|].
  - intros Hin. apply Hn. by right.
  - intros <-%list_elem_of_singleton. apply Hn. by left.
Qed.

Lemma remove_last temp b (d : directory) : temp ∉ d.*1 -> remove_files [temp] (d ++ [(temp, b)]) = d.
Proof.
  intros Hn. unfold remove_files. rewrite List.filter_app. fold (remove_files [temp] d). rewrite remove_absent by done. cbn.
  rewrite bool_decide_eq_true_2 by (by left). cbn. by rewrite app_nil_r.
Qed.

Lemma put_last temp b b' (d : directory) : temp ∉ d.*1 -> put_file temp b' (d ++ [(temp, b)]) = d ++ [(temp, b')].
Proof.
  intros Hn. induction d as [|f d IH]; cbn; [by rewrite String.eqb_refl|]. destruct (String.eqb_spec f.1 temp) as [E|_].
  - exfalso. apply Hn. rewrite <- E. by left.
  - f_equal. apply IH. intros Hin. apply Hn. by right.
Qed.

Lemma file_last temp b (d : directory) : temp ∉ d.*1 -> file_of temp (d ++ [(temp, b)]) = Some b.
Proof.
  intros Hn. induction d as [|[k v] d IH]; [unfold file_of; cbn; by rewrite String.eqb_refl|].
  change (((k, v) :: d) ++ [(temp, b)]) with ((k, v) :: (d ++ [(temp, b)])). rewrite file_of_cons.
  destruct (String.eqb_spec k temp) as [->|_]; [exfalso; apply Hn; by left|]. apply IH. intros Hin. apply Hn. by right.
Qed.

Lemma grows_remove temp d : is_shard_name temp = false -> grows d (remove_files [temp] d).
Proof. intros Ht shards Hs. exists shards. split; [by apply holds_remove|done]. Qed.

Lemma grows_temp temp b d : temp ∉ d.*1 -> is_shard_name temp = false -> grows d (d ++ [(temp, b)]).
Proof. intros Hn Ht shards Hs. exists shards. split; [by apply holds_temp|done]. Qed.

Lemma grows_trans d1 d2 d3 : grows d1 d2 -> grows d2 d3 -> grows d1 d3.
Proof. intros H12 H23 s1 Hs1. destruct (H12 s1 Hs1) as (s2 & Hs2 & K2). destruct (H23 s2 Hs2) as (s3 & Hs3 & K3). exists s3. auto. Qed.

Lemma grows_rewrite temp b b' d : temp ∉ d.*1 -> is_shard_name temp = false -> grows (d ++ [(temp, b)]) (d ++ [(temp, b')]).
Proof.
  intros Hn Ht. eapply grows_trans; [by apply (grows_remove temp)|]. rewrite remove_last by done. by apply grows_temp.
Qed.

(** *** Removing names *)

Lemma remove_nil d : remove_files [] d = d.
Proof.
  unfold remove_files. induction d as [|f d IH]; [done|]. cbn. rewrite bool_decide_eq_false_2 by apply not_elem_of_nil. cbn. by rewrite IH.
Qed.

Lemma remove_elem names (d : directory) f : f ∈ remove_files names d <-> f ∈ d /\ f.1 ∉ names.
Proof. unfold remove_files. by rewrite list_filter_elem, negb_true_iff, bool_decide_eq_false. Qed.

Lemma remove_remove names names' d : remove_files names' (remove_files names d) = remove_files (names ++ names') d.
Proof.
  unfold remove_files. induction d as [|f d IH]; [done|]. cbn. destruct (bool_decide (f.1 ∈ names)) eqn:E; cbn.
  - apply bool_decide_eq_true in E. rewrite (bool_decide_eq_true_2 (_ ∈ names ++ _)) by set_solver. cbn. done.
  - apply bool_decide_eq_false in E. rewrite (bool_decide_ext (f.1 ∈ names') (f.1 ∈ names ++ names')) by set_solver. by rewrite IH.
Qed.

Lemma remove_ext names names' d : (forall n, n ∈ d.*1 -> n ∈ names <-> n ∈ names') -> remove_files names d = remove_files names' d.
Proof.
  unfold remove_files. induction d as [|f d IH]; intros Hn; [done|]. cbn. rewrite (bool_decide_ext (f.1 ∈ names) (f.1 ∈ names')) by (apply Hn; by left).
  rewrite IH; [done|]. intros n Hin. apply Hn. by right.
Qed.

Lemma remove_snoc names d temp b : temp ∉ names -> remove_files names (d ++ [(temp, b)]) = remove_files names d ++ [(temp, b)].
Proof. intros Hn. unfold remove_files. rewrite List.filter_app. cbn. by rewrite bool_decide_eq_false_2. Qed.

Lemma file_removed names d name : name ∉ names -> file_of name (remove_files names d) = file_of name d.
Proof.
  intros Hn. unfold file_of. f_equal. apply find_filter. intros f Hf%String.eqb_eq. apply negb_true_iff, bool_decide_eq_false. by rewrite Hf.
Qed.

Lemma file_of_elem d name b : NoDup d.*1 -> (name, b) ∈ d <-> file_of name d = Some b.
Proof.
  induction d as [|[k v] d IH]; cbn [fmap list_fmap fst]; [split; [by intros ?%elem_of_nil|done]|]. intros [Hk Hnd]%NoDup_cons.
  rewrite file_of_cons, elem_of_cons. destruct (String.eqb_spec k name) as [->|Hne].
  - split; [intros [[= ->]|Hin]; [done|]|intros [= ->]; by left]. apply (list_elem_of_fmap_2 fst) in Hin. done.
  - rewrite <- IH by done. split; [intros [[= -> ->]|?]; done|by right].
Qed.

(** *** Directories that hold shards *)

Lemma isort_perm_eq (l l' : list string) : l ≡ₚ l' -> isort str_leb l = isort str_leb l'.
Proof.
  intros Hp. apply (Sorted_by_perm_eq str_leb); [eauto with voidnet|apply isort_Sorted; eauto with voidnet..|by rewrite !isort_perm].
Qed.

Lemma sorted_filter (p : string -> bool) l : Sorted_by str_leb l -> Sorted_by str_leb (List.filter p l).
Proof.
  induction 1 as [|x l _ IH Hx]; [constructor|]. cbn. destruct (p x); [|done]. constructor; [done|].
  rewrite Forall_forall in Hx |- *. intros y [Hy _]%list_filter_elem. by apply Hx.
Qed.

Lemma isort_filter (p : string -> bool) l : isort str_leb (List.filter p l) = List.filter p (isort str_leb l).
Proof.
  apply (Sorted_by_perm_eq str_leb); [eauto with voidnet|apply isort_Sorted; eauto with voidnet| |].
  - apply sorted_filter, isort_Sorted; eauto with voidnet.
  - rewrite isort_perm. apply filter_perm. by rewrite isort_perm.
Qed.

Lemma filter_swap {A} (p q : A -> bool) (l : list A) : List.filter p (List.filter q l) = List.filter q (List.filter p l).
Proof. induction l as [|x l IH]; [done|]. cbn. destruct (p x) eqn:Ep, (q x) eqn:Eq; cbn; rewrite ?Ep, ?Eq, ?IH; done. Qed.

Lemma holds_perm shards d d' : holds shards d -> d ≡ₚ d' -> holds shards d'.
Proof.
  intros [H1 H2 H3 H4 H5] Hp. assert (NoDup d'.*1) as Hnd by (by rewrite <- Hp). split; [done| | |done|done].
  - rewrite <- H2. apply isort_perm_eq, filter_perm. by rewrite Hp.
  - intros name rs Hin. apply file_of_elem; [done|]. rewrite <- Hp. apply file_of_elem; [done|]. by apply H3.
Qed.

(** The shards that are left *)
Definition kept (names : list string) (shards : list (string * list Receipt)) : list (string * list Receipt) :=
  List.filter (fun s => negb (bool_decide (s.1 ∈ names))) shards.

Lemma kept_elem names shards name rs : (name, rs) ∈ kept names shards <-> (name, rs) ∈ shards /\ name ∉ names.
Proof. unfold kept. rewrite list_filter_elem, negb_true_iff, bool_decide_eq_false. done. Qed.

Lemma kept_names names shards : (kept names shards).*1 = List.filter (fun n => negb (bool_decide (n ∈ names))) shards.*1.
Proof. unfold kept. induction shards as [|s shards IH]; [done|]. cbn. destruct (negb _); cbn; by rewrite IH. Qed.

Lemma kept_sublist names shards : concat (kept names shards).*2 `sublist_of` concat shards.*2.
Proof.
  unfold kept. induction shards as [|s shards IH]; [done|]. cbn. destruct (negb _); cbn; [by apply sublist_app|by apply sublist_inserts_l].
Qed.

Lemma holds_drop shards d names : holds shards d -> holds (kept names shards) (remove_files names d).
Proof.
  intros [H1 H2 H3 H4 H5]. pose proof (kept_sublist names shards) as Hsub. split.
  - rewrite remove_names. by apply list_filter_NoDup.
  - by rewrite remove_names, filter_swap, isort_filter, H2, kept_names.
  - intros name rs [Hin Hn]%kept_elem. rewrite file_removed by done. by apply H3.
  - rewrite Forall_forall in H4 |- *. intros r Hr. apply H4. by eapply elem_of_submseteq, sublist_submseteq.
  - eapply sublist_NoDup; [exact H5|]. by apply sublist_map.
Qed.

Lemma recorded_elem shards d h r : holds shards d ->
  recorded shards h = Some r <-> (exists name rs, (name, rs) ∈ shards /\ r ∈ rs) /\ r_h r = h.
Proof.
  intros Hd. unfold recorded. split.
  - intros [Hin Hh]%find_receipt_Some. split; [|done]. apply list_elem_of_In, in_concat in Hin as (rs & Hrs%list_elem_of_In & Hr%list_elem_of_In).
    apply list_elem_of_fmap in Hrs as ([name rs'] & -> & Hs). eauto.
  - intros [(name & rs & Hs & Hr) <-]. apply find_receipt_in; [apply Hd|]. apply list_elem_of_In, in_concat. exists rs. rewrite <- !list_elem_of_In. split; [|done].
    apply list_elem_of_fmap. by exists (name, rs).
Qed.

(** Two readings of one directory have the same records. *)
Lemma holds_same `{JsonNumber} shards shards' d h r : holds shards d -> holds shards' d -> recorded shards h = Some r -> recorded shards' h = Some r.
Proof.
  intros Hd Hd' Hr. pose proof Hr as [Hin <-]%find_receipt_Some.
  assert (valid_receipt r) as Hv by (eapply Forall_forall; [apply (ho_valid _ _ Hd)|done]).
  pose proof (vr_hash _ Hv) as Hx. assert (toLowerCase (r_h r) = r_h r) as Hl by (apply toLowerCase_hex; by apply andb_true_iff in Hx as [_ ?]).
  assert (forall sh, cache_ok sh ∅) as Hc by (by intros sh h v ?%lookup_empty_Some).
  pose proof (get_recorded shards (mkReceipts d ∅) (r_h r) (r_h r) Hd (Hc _) Hl Hx) as E.
  rewrite (get_recorded shards' (mkReceipts d ∅) (r_h r) (r_h r) Hd' (Hc _) Hl Hx), Hr in E.
  injection E as E. destruct (recorded shards' (r_h r)) as [r'|] eqn:Er'; [|done]. apply find_receipt_Some in Er' as [_ Eh].
  destruct r as [h n o ts], r' as [h' n' o' ts']. cbn in *. by simplify_eq.
Qed.

(** *** Publishing after shards were dropped *)

Lemma put_file_absent file payload d : file ∉ d.*1 -> put_file file payload d = d ++ [(file, payload)].
Proof.
  induction d as [|[k v] d IH]; cbn [put_file fst fmap list_fmap]; [done|]. intros Hn. destruct (String.eqb_spec k file) as [->|_]; [set_solver|].
  cbn. f_equal. apply IH. set_solver.
Qed.

(** A publication puts its shard back when it was dropped. *)
Lemma put_removed names file payload d : NoDup d.*1 ->
  put_file file payload (remove_files names d) ≡ₚ
  remove_files (List.filter (fun n => negb (String.eqb n file)) names) (put_file file payload d).
Proof.
  set (names' := List.filter _ names). assert (forall n, n ∈ names' <-> n ∈ names /\ n <> file) as Hn'.
  { intros n. unfold names'. by rewrite list_filter_elem, negb_true_iff, String.eqb_neq. }
  assert (file ∉ names') as Hf by (rewrite Hn'; by intros [_ ?]).
  induction d as [|[k v] d IH]; cbn [fmap list_fmap fst]; [intros _|intros [Hk Hnd]%NoDup_cons].
  { cbn. by rewrite bool_decide_eq_false_2. }
  cbn [put_file remove_files List.filter fst]. fold (remove_files names d). destruct (String.eqb_spec k file) as [->|Hne].
  - cbn [remove_files List.filter fst]. rewrite (bool_decide_eq_false_2 (file ∈ names')) by done. cbn [negb]. fold (remove_files names' d).
    rewrite (remove_ext names' names d) by (intros n Hin; rewrite Hn'; split; [by intros [? _]|intros ?; split; [done|by intros ->]]).
    case_bool_decide; cbn [negb put_file fst]; [|by rewrite String.eqb_refl].
    rewrite put_file_absent; [by rewrite Permutation_app_comm|]. rewrite remove_names, list_filter_elem. by intros [? _].
  - cbn [remove_files List.filter fst]. fold (remove_files names' (put_file file payload d)).
    rewrite (bool_decide_ext (k ∈ names') (k ∈ names)) by (rewrite Hn'; naive_solver).
    case_bool_decide; cbn [negb put_file fst]; [by apply IH|]. rewrite (proj2 (String.eqb_neq k file) Hne). by apply perm_skip, IH.
Qed.

Lemma extended_elem shards file pending shards' name rs : extended shards file pending shards' -> (name, rs) ∈ shards ->
  exists rs', (name, rs') ∈ shards' /\ rs ⊆ rs'.
Proof.
  intros [(before & rs0 & -> & ->)|[_ ->]] Hin; [|exists rs; set_solver].
  apply elem_of_app in Hin as [Hin|[= -> ->]%list_elem_of_singleton]; [exists rs|exists (rs0 ++ pending)]; set_solver.
Qed.

Section publish.
Context `{JsonNumber} (shards shards' : list (string * list Receipt)) (file : string) (payload : list Z) (pending : list Receipt).
Context (removed d d1 : directory).
Context (Hd : holds shards d) (Hx : extended shards file pending shards') (Hd' : holds shards' (put_file file payload d)).
Context (Hr : reduced removed d d1).

(** What was planned on [d] is recorded in what is left of it, or dropped. *)
Lemma publish_reduced : exists shards1, holds shards1 (put_file file payload d1) /\
  (forall h r, recorded shards' h = Some r -> recorded shards1 h = Some r \/ dropped removed r) /\
  (forall h r, recorded shards1 h = Some r -> recorded shards' h = Some r).
Proof using Hd Hd' Hr.
  destruct Hr as (names & Hn & -> & Hrem). set (names' := List.filter (fun n => negb (String.eqb n file)) names).
  pose proof (holds_drop shards' _ names' Hd') as Hk. exists (kept names' shards').
  split; [eapply holds_perm; [exact Hk|]; symmetry; apply put_removed, Hd|]. split; intros h r.
  - intros [(name & rs & Hs & Hin) Hh]%(recorded_elem _ _ h r Hd').
    destruct (decide (name ∈ names')) as [Hnm|Hnm]; [right|left; apply (recorded_elem _ _ h r Hk); split; [|done]; exists name, rs; by rewrite kept_elem].
    exists name, rs. split; [|done]. unfold names' in Hnm. apply list_filter_elem in Hnm as [Hnm Hne]. apply Hrem; [|done].
    apply file_of_elem; [apply Hd|]. pose proof (ho_files _ _ Hd' name rs Hs) as Hf. rewrite file_put in Hf.
    rewrite String.eqb_sym in Hne. by destruct (String.eqb file name).
  - intros [(name & rs & [Hs _]%kept_elem & Hin) Hh]%(recorded_elem _ _ h r Hk). apply (recorded_elem _ _ h r Hd'). eauto.
Qed.

Lemma publish_grows : grows d1 (put_file file payload d1).
Proof using All.
  intros sh0 Hsh0. destruct publish_reduced as (shards1 & H1 & _ & _). exists shards1. split; [done|]. intros h r Hrec.
  destruct Hr as (names & Hn & -> & Hrem). pose proof (holds_drop shards d names Hd) as Hk.
  pose proof (holds_same sh0 _ _ h r Hsh0 Hk Hrec) as [(name & rs & [Hs Hnm]%kept_elem & Hin) Hh]%(recorded_elem _ _ h r Hk).
  destruct (extended_elem _ _ _ _ name rs Hx Hs) as (rs' & Hs' & Hsub).
  set (names' := List.filter (fun n => negb (String.eqb n file)) names).
  pose proof (holds_drop shards' _ names' Hd') as Hk'.
  assert (holds (kept names' shards') (put_file file payload (remove_files names d))) as Hk1
    by (eapply holds_perm; [exact Hk'|]; symmetry; apply put_removed, Hd).
  apply (holds_same (kept names' shards') shards1 _ h r Hk1 H1). apply (recorded_elem _ _ h r Hk'). split; [|done].
  exists name, rs'. split; [|by apply Hsub]. apply kept_elem. split; [done|]. unfold names'. rewrite list_filter_elem. by intros [? _].
Qed.
End publish.

(** *** Views *)

Lemma reduced_refl removed d : reduced removed d d.
Proof. exists []. split; [constructor|]. rewrite remove_nil. split; [done|]. by intros f _ ?%elem_of_nil. Qed.

Lemma shard_name_ne names temp : Forall (fun n => is_shard_name n = true) names -> is_shard_name temp = false -> temp ∉ names.
Proof. intros Hn Ht Hin. rewrite Forall_forall in Hn. apply Hn in Hin. congruence. Qed.

(** A file that is no shard is in what is left. *)
Lemma reduced_snoc removed d d1 temp b : is_shard_name temp = false ->
  reduced removed (d ++ [(temp, b)]) d1 <-> exists d2, d1 = d2 ++ [(temp, b)] /\ reduced removed d d2.
Proof.
  intros Ht. split.
  - intros (names & Hn & -> & Hrem). pose proof (shard_name_ne names temp Hn Ht) as Hne. rewrite remove_snoc by done.
    eexists. split; [done|]. exists names. split; [done|]. split; [done|]. intros f Hf. apply Hrem. set_solver.
  - intros (d2 & -> & names & Hn & -> & Hrem). pose proof (shard_name_ne names temp Hn Ht) as Hne. exists names.
    split; [done|]. split; [by rewrite remove_snoc|]. intros f Hf Hin. apply elem_of_app in Hf as [Hf|Hf]; [by apply Hrem|].
    apply list_elem_of_singleton in Hf as ->. done.
Qed.

Lemma reduced_absent removed d d1 temp : is_shard_name temp = false -> reduced removed d d1 -> temp ∈ d1.*1 <-> temp ∈ d.*1.
Proof.
  intros Ht (names & Hn & -> & _). pose proof (shard_name_ne names temp Hn Ht) as Hne. rewrite remove_names, list_filter_elem.
  rewrite negb_true_iff, bool_decide_eq_false. naive_solver.
Qed.

Lemma reduced_remove removed d d1 temp : reduced removed d d1 -> reduced removed (remove_files [temp] d) (remove_files [temp] d1).
Proof.
  intros (names & Hn & -> & Hrem). exists names. split; [done|]. split; [unfold remove_files; apply filter_swap|].
  intros f [Hf _]%remove_elem. by apply Hrem.
Qed.

Lemma reduced_drop removed d d1 files : Forall (fun n => is_shard_name n = true) files -> reduced removed d d1 ->
  reduced (removed ++ List.filter (fun f => bool_decide (f.1 ∈ files)) d1) d (remove_files files d1).
Proof.
  intros Hf (names & Hn & -> & Hrem). exists (names ++ files). split; [by apply Forall_app|]. split; [apply remove_remove|].
  intros f Hin Hnm. apply elem_of_app. destruct (decide (f.1 ∈ names)); [left; by apply Hrem|right].
  apply list_filter_elem. rewrite remove_elem, bool_decide_eq_true. set_solver.
Qed.
