(* ===== verification/ReceiptLockShards.v ===== *)
(** * Appends under the lock: the shards

    What a holder of the append lock does to the shards, on the specifications of
    [ReceiptLockProtocol]: it reads them as one snapshot, writes a temporary file and renames
    it over a shard.  Every call keeps what the directory records, and a rename that succeeds
    records the batch, but for what [gc] has dropped meanwhile. *)

From Stdlib Require Import Ascii.
From S2P Require Import Prelude Js JsText CanonicalJson Sha256 JsConvert JsonParse TextLines NodeBuffer.
From S2P Require Import Receipts ReceiptsSafety Interleave ReceiptLock ReceiptLockLogic ReceiptLockSpecs ReceiptLockProtocol ReceiptLockDrops.

(** ** Plans *)

Section plans.
Context `{StringNumber} `{JsonNumber} (shardSpan : Z) (Hspan : 0 < shardSpan).

Lemma list_extra extra e fs e' fs' : Forall (fun n => is_shard_name n = false) extra -> foldM listStep (e, fs) extra = Ok (e', fs') -> fs' = fs.
Proof using.
  clear. intros Hx. revert e fs. induction Hx as [|x extra Hx _ IH]; intros e fs; cbn [foldM]; [by intros [= _ <-]|].
  destruct (listStep (e, fs) x) as [[e1 f1]|] eqn:E; [|done]. apply list_step in E. cbn in E. rewrite Hx, app_nil_r in E. subst f1. apply IH.
Qed.

Lemma scan_same wanted files d d' : (forall n, n ∈ files -> file_of n d = file_of n d') ->
  scanReceiptHistoryV1 wanted files d = scanReceiptHistoryV1 wanted files d'.
Proof using.
  intros Hf. unfold scanReceiptHistoryV1. assert (forall n, n ∈ reverse files -> file_of n d = file_of n d') as Hr by (intros n Hin; apply Hf; by apply elem_of_reverse).
  generalize (mkScan 0 ∅ ∅ ∅ EmptyString) as s. revert Hr. generalize (last files) as active. induction (reverse files) as [|n l IH]; intros active Hr s; [done|].
  cbn [foldM]. assert (scanFile wanted active d s n = scanFile wanted active d' s n) as ->.
  { unfold scanFile. rewrite (Hr n) by (by left). reflexivity. }
  destruct (scanFile wanted active d' s n); [|done]. apply IH. intros m Hm. apply Hr. by right.
Qed.

(** Entries that are not shards do not change what an append plans; they can only make the
    listing too long. *)
Lemma plan_extra now arr shards d extra plan : holds shards d -> Forall (fun n => is_shard_name n = false) extra ->
  planAppend shardSpan now arr (d ++ map (fun n => (n, [])) extra) = Ok plan -> planAppend shardSpan now arr d = Ok plan.
Proof using.
  intros Hd Hx. unfold planAppend. destruct arr as [| | | | |[|item items]|]; try done.
  destruct (normalizeBatch now (item :: items)) as [batch|]; [|done]. cbn [mbind res_bind]. case_bool_decide; [done|].
  destruct (shardFilesV1 (d ++ _)) as [files|] eqn:Ef; [|done]. cbn [mbind res_bind].
  assert (shardFilesV1 d = Ok files) as Efd.
  { unfold shardFilesV1 in *. rewrite fmap_app in Ef. rewrite foldM_app in Ef. destruct (foldM listStep (0, []) d.*1) as [[e1 f1]|]; [|done].
    cbn [mbind res_bind] in Ef |- *. destruct (foldM listStep (e1, f1) _) as [[e2 f2]|] eqn:E2; [|done]. cbn [mbind res_bind] in Ef.
    apply list_extra in E2; [congruence|]. clear -Hx. induction Hx; constructor; done. }
  rewrite Efd. cbn [mbind res_bind]. rewrite (scan_same _ files (d ++ _) d); [done|].
  intros n Hn. apply file_of_app. pose proof (shard_files shards d files Hd Efd) as ->. by apply (shard_listed shards d n Hd).
Qed.

(** The rename of a planned publication keeps what is recorded and records the batch, where
    [d1] is what is left of the directory [d] that the plan is made on. *)
Lemma plan_rename now items batch d d1 removed temp pending target : temp ∉ d1.*1 -> is_shard_name temp = false ->
  (exists shards, holds shards d) -> reduced removed d d1 ->
  normalizeBatch now items = Ok batch -> planAppend shardSpan now (JArr items) d = Ok (Some (pending, target)) ->
  grows (d1 ++ [(temp, target.2)]) (put_file target.1 target.2 d1) /\
  exists shards, holds shards (put_file target.1 target.2 d1) /\
    forall r, r ∈ batch -> recorded shards (r_h r) = Some r \/ dropped removed r.
Proof using Hspan.
  intros Hn Ht [shards Hd] Hred Hb Hp.
  destruct (planAppend_Ok shardSpan now Hspan shards d (JArr items) _ Hd Hp) as (items' & batch' & shards' & [= <-] & Hb' & Epend & Hrec & _ & Hd' & Hx).
  rewrite Hb in Hb'. injection Hb' as <-. pose proof (extended_concat _ _ _ _ Hx) as Hc. rewrite Epend in Hc.
  destruct (normalizeBatch_valid now items batch Hb) as [_ Hnd]. destruct (recorded_app shards shards' batch Hnd Hc Hrec) as [H1 _].
  split.
  - eapply grows_trans; [by apply (grows_remove temp)|]. rewrite remove_last by done. by eapply (publish_grows shards shards' target.1 target.2 pending removed d d1).
  - destruct (publish_reduced shards shards' target.1 target.2 removed d d1 Hd Hd' Hred) as (shards1 & Hs1 & Hk & _).
    exists shards1. split; [done|]. intros r Hin. by apply Hk, H1.
Qed.
End plans.

(** ** An append that holds the lock *)

Section holding.
Context `{StringNumber} `{JsonNumber} (linux proc_readable : bool) (shardSpan : Z) (i : nat).
Context (Hproc : linux = true -> proc_readable = true) (Hspan : 0 < shardSpan).

Notation wpl := (wpb (exec proc_readable) g_pid (Inv linux) (pre proc_readable) i (L := locals)).
Notation update := (upd g_pid (Inv linux) i).

Section store.
Context (t instance : string) (g : ghost).

(** The store holds the lock, and the directory is what is left of [d]. *)
Definition hold (d : directory) (facts : list fact) : ghost :=
  mkGhost (g_pid g) (g_boot g) (g_start g) (Inside t instance (Holding (Some d))) (g_temp g) facts.

Lemma hold_view w gs d fs : Inv linux w gs -> gs !! i = Some (hold d fs) -> view_ok w d.
Proof using.
  intros HI Hi. destruct (to_stage _ _ _ (iv_thread _ _ _ HI i _ Hi)) as [_ Hd]. by apply Hd.
Qed.

(** A call on the shards fails and changes nothing, or replaces the directory by one that
    keeps every receipt. *)
Lemma wp_shards {R} (c : syscall R) d fs (eff : res R -> directory -> Prop) l Q : on_shards c = true ->
  (forall w ch r w', view_ok w d -> exec proc_readable (g_pid g) R c ch w = Some (r, w') ->
    (w' = w /\ exists e, r = Throw e) \/
    exists d1 d', w' = set_dir d1 w /\ eff r d' /\ grows (w_dir w) d1 /\ view_ok (set_dir d1 w) d') ->
  (forall e, Q (Throw e) l (hold d fs)) -> (forall r d', eff r d' -> Q r l (hold d' fs)) -> wpl (sys c) l Q (hold d fs).
Proof using.
  intros Hc Heff HT HQ. apply wpb_sys.
  { unfold pre. rewrite Hc. eexists _, _, (Some d). split; [done|]. intros w ch r w' Ed He.
    destruct (Heff w ch r w' (Ed d eq_refl) He) as [[-> _]|(d1 & d' & -> & _ & Hgr & _)]; [apply grows_refl|done]. }
  intros w gs ch r w' Hi HI He.
  pose proof (hold_view w gs d fs HI Hi) as Ed. destruct (Heff w ch r w' Ed He) as [[-> [e ->]]|(d1 & d' & -> & Hr & Hgr & Hv)].
  - exists (hold d fs). rewrite insert_id by done. auto.
  - exists (hold d' fs). split_and!; [done| |by apply HQ]. by apply (Inv_dir linux w gs i (hold d fs) t instance (Some d) d1 d').
Qed.

Ltac failed He := apply may_fail_Some in He as [(e & -> & -> & _)|He]; [left; split; [done|by eexists]|].

Lemma wp_CreateShardTemp temp d fs l Q : is_shard_name temp = false -> (forall e, Q (Throw e) l (hold d fs)) ->
  (temp ∉ d.*1 -> Q (Ok tt) l (hold (d ++ [(temp, [])]) fs)) -> wpl (sys (CreateShardTemp temp)) l Q (hold d fs).
Proof using.
  intros Ht HT HQ. apply (wp_shards _ _ _ (fun r d' => r = Ok tt /\ (temp ∉ d.*1) /\ d' = d ++ [(temp, [])])); [done| |done|intros r d' (-> & ? & ->); auto].
  intros w ch r w' [[shards Hs] Hred] He. cbn in He. failed He.
  case_bool_decide as Hin; injection He as <- <-; [left; split; [done|by eexists]|]. right.
  assert (temp ∉ d.*1) as Hn by (by rewrite <- (reduced_absent _ _ _ temp Ht Hred)).
  exists (w_dir w ++ [(temp, [])]), (d ++ [(temp, [])]). split_and!; [done|done|done|done|by apply grows_temp|].
  split; [exists shards; by apply holds_temp|]. apply reduced_snoc; eauto.
Qed.

Lemma wp_WriteShardTemp temp bytes b d fs l Q : is_shard_name temp = false -> temp ∉ d.*1 -> (forall e, Q (Throw e) l (hold (d ++ [(temp, b)]) fs)) ->
  (forall n, Q (Ok (Nat.min n (length bytes))) l (hold (d ++ [(temp, b ++ take n bytes)]) fs)) ->
  wpl (sys (WriteShardTemp temp bytes)) l Q (hold (d ++ [(temp, b)]) fs).
Proof using.
  intros Ht Hn HT HQ. apply (wp_shards _ _ _ (fun r d' => exists n, r = Ok (Nat.min n (length bytes)) /\ d' = d ++ [(temp, b ++ take n bytes)]));
    [done| |done|intros r d' (n & -> & ->); auto].
  intros w ch r w' [[shards Hs] Hred] He. cbn in He. failed He. destruct ch as [| | | | |n time| | | |]; try done. injection He as <- <-. right.
  apply reduced_snoc in Hred as (d2 & Ed & Hred); [|done]. assert (temp ∉ d2.*1) as Hn2 by (by rewrite (reduced_absent _ _ _ temp Ht Hred)).
  rewrite Ed, file_last by done. cbn [default]. unfold default, id. cbn [from_option]. rewrite put_last by done.
  exists (d2 ++ [(temp, b ++ take n bytes)]), (d ++ [(temp, b ++ take n bytes)]).
  split_and!; [done|by exists n|by apply grows_rewrite|]. split; [|apply reduced_snoc; eauto]. exists shards.
  apply (holds_remove shards _ temp Ht) in Hs. rewrite remove_last in Hs by done. by apply holds_temp.
Qed.

Lemma wp_UnlinkShardTemp temp d fs l Q : is_shard_name temp = false -> (forall r d', Q r l (hold d' fs)) ->
  wpl (sys (UnlinkShardTemp temp)) l Q (hold d fs).
Proof using.
  intros Ht HQ. apply (wp_shards _ _ _ (fun _ _ => True)); [done| |done|auto]. intros w ch r w' [[shards Hs] Hred] He. cbn in He. failed He.
  case_bool_decide; injection He as <- <-; [right|left; split; [done|by eexists]].
  exists (remove_files [temp] (w_dir w)), (remove_files [temp] d). split_and!; [done|done|by apply grows_remove|].
  split; [exists shards; by apply holds_remove|by apply reduced_remove].
Qed.

Lemma wp_writeShard fuel temp payload b d fs l Q : is_shard_name temp = false -> temp ∉ d.*1 -> (length payload <= fuel)%nat ->
  (forall e b', Q (Throw e) l (hold (d ++ [(temp, b')]) fs)) -> Q (Ok tt) l (hold (d ++ [(temp, b ++ payload)]) fs) ->
  wpl (writeShard fuel temp payload) l Q (hold (d ++ [(temp, b)]) fs).
Proof using.
  intros Ht Hn. revert b payload. induction fuel as [|fuel IH]; intros b payload Hf HT HQ.
  { destruct payload; [|cbn in Hf; lia]. cbn [writeShard]. apply wpb_ret. by rewrite app_nil_r in HQ. }
  destruct payload as [|c payload]; [cbn [writeShard]; apply wpb_ret; by rewrite app_nil_r in HQ|]. set (p := c :: payload) in *.
  change (writeShard (S fuel) temp p) with (sys (Plain "throwIfAborted");; bytesWritten ← sys (WriteShardTemp temp (take (Z.to_nat (64 * 1024)) p));
    lift (throw_if (bytesWritten =? 0)%nat "receipt append made no write progress");; (writeShard fuel temp (drop bytesWritten p) : io unit)).
  set (k := Z.to_nat (64 * 1024)). apply wpb_bind, wp_Plain. intros [[]|]; [|by apply HT]. apply wpb_bind, wp_WriteShardTemp; [done|done|intros e; apply HT|].
  intros n. apply wp_guard; [intros _; apply HT|]. intros Hz%Nat.eqb_neq. set (m := Nat.min n (length (take k p))) in *.
  assert (take n (take k p) = take m p) as ->.
  { unfold m. rewrite length_take, take_take. destruct (decide (Nat.min n k <= length p)%nat); [f_equal; lia|]. rewrite !take_ge by lia. done. }
  apply IH; [rewrite length_drop; lia|done|]. by rewrite <- app_assoc, take_drop.
Qed.

Lemma wp_RenameShard now items batch temp pending target d fs l Q : is_shard_name temp = false -> temp ∉ d.*1 ->
  normalizeBatch now items = Ok batch -> planAppend shardSpan now (JArr items) d = Ok (Some (pending, target)) ->
  (forall e, Q (Throw e) l (hold (d ++ [(temp, target.2)]) fs)) -> (forall d', Q (Ok tt) l (hold d' (Recorded batch :: fs))) ->
  wpl (sys (RenameShard temp target.1)) l Q (hold (d ++ [(temp, target.2)]) fs).
Proof using Hspan.
  intros Ht Hn Hb Hp HT HQ.
  assert (forall w, view_ok w (d ++ [(temp, target.2)]) -> exists d2, w_dir w = d2 ++ [(temp, target.2)] /\ (temp ∉ d2.*1) /\
    grows (w_dir w) (put_file target.1 target.2 d2) /\ exists shards, holds shards (put_file target.1 target.2 d2) /\
      forall r, r ∈ batch -> recorded shards (r_h r) = Some r \/ dropped (w_removed w) r) as Hview.
  { intros w [[shards Hs] Hred]. apply reduced_snoc in Hred as (d2 & Ed & Hred); [|done].
    apply (holds_remove shards _ temp Ht) in Hs. rewrite remove_last in Hs by done.
    assert (temp ∉ d2.*1) as Hn2 by (by rewrite (reduced_absent _ _ _ temp Ht Hred)).
    destruct (plan_rename shardSpan Hspan now items batch d d2 (w_removed w) temp pending target Hn2 Ht ltac:(by exists shards) Hred Hb Hp) as [Hgr Hrec].
    exists d2. rewrite Ed. by split_and!. }
  apply wpb_sys.
  { unfold pre. eexists _, _, (Some _). split; [done|]. intros w ch r w' Ev He. cbn in He.
    destruct (Hview w (Ev _ eq_refl)) as (d2 & Ed & Hn2 & Hgr & _).
    apply may_fail_Some in He as [(e & -> & -> & _)|He]; [apply grows_refl|]. rewrite Ed, file_last in He by done.
    injection He as <- <-. cbn [w_dir set_dir]. by rewrite remove_last. }
  intros w gs ch r w' Hi HI He. destruct (Hview w (hold_view w gs _ fs HI Hi)) as (d2 & Ed & Hn2 & Hgr & shards & Hs & Hrec). cbn in He.
  apply may_fail_Some in He as [(e & -> & -> & _)|He]; [exists (hold (d ++ [(temp, target.2)]) fs); rewrite insert_id by done; auto|].
  rewrite Ed, file_last in He by done. injection He as <- <-. rewrite remove_last by done. set (d' := put_file target.1 target.2 d2) in *.
  pose proof (Inv_dir linux w gs i (hold (d ++ [(temp, target.2)]) fs) t instance (Some (d ++ [(temp, target.2)])) d' d' HI Hi eq_refl Hgr
    (conj (ex_intro _ shards Hs) (reduced_refl _ _))) as HI1.
  exists (hold d' (Recorded batch :: fs)). split_and!; [done| |done].
  rewrite <- (insert_insert_eq gs i _ (hold d' fs)). apply (Inv_fact linux (set_dir d' w) _ i (hold d' fs)); [exact HI1|by rewrite lookup_insert_eq|by exists shards|done].
Qed.

Lemma temp_not_shard s : is_shard_name ("." +:+ s) = false.
Proof using. done. Qed.

Lemma wp_publishShard a self now items batch pending target d fs l Q : normalizeBatch now items = Ok batch ->
  planAppend shardSpan now (JArr items) d = Ok (Some (pending, target)) ->
  (forall r l' d' fs', locallyReleasedAppendClaimV1 l' = locallyReleasedAppendClaimV1 l -> locallyUnconfirmedAppendClaimV1 l' = locallyUnconfirmedAppendClaimV1 l ->
    (forall x, x ∈ fs -> x ∈ fs') -> (r = Ok tt -> Recorded batch ∈ fs') -> Q r l' (hold d' fs')) ->
  wpl (publishShard self a pending target) l Q (hold d fs).
Proof using Hspan.
  intros Hb Hp HQ. unfold publishShard. destruct target as [file payload]. apply wpb_bind, wpb_assign, wpb_bind, wpb_fields.
  set (l1 := next_nonce l). set (temp := "." +:+ _). assert (is_shard_name temp = false) as Ht by apply temp_not_shard.
  assert (forall e d', wpl (ignore (sys (Plain "close"));; ignore (sys (UnlinkShardTemp temp));; (lift (Throw e) : io unit)) l1
    (fun r l' g' => match r with Ok _ => False | Throw e' => Q (Throw e') l' g' end) (hold d' fs)) as Hclean.
  { intros e d'. apply wpb_bind, wpb_ignore, wp_Plain. intros _. apply wpb_bind, wpb_ignore, wp_UnlinkShardTemp; [done|].
    intros r d''. apply wpb_lift. by apply HQ. }
  assert (forall e d', wpl (ignore (sys (Plain "close"));; ignore (sys (UnlinkShardTemp temp));; (lift (Throw e) : io unit)) l1
    (fun r l' g' => match r with Ok a0 => wpl (sys (Plain "fsync directory");; assertDirectoryAuthorityV1 a;; assign (remember_all pending)) l' Q g'
      | Throw e' => Q (Throw e') l' g' end) (hold d' fs)) as Hfail.
  { intros e d'. eapply wpb_mono; [|apply Hclean]. by intros [[]|] l' g'. }
  apply wpb_bind, wpb_try, wpb_bind, wp_Plain. intros [[]|]; [|apply Hfail]. apply wpb_bind, wp_CreateShardTemp; [done|intros e; apply Hfail|]. intros Hn.
  apply wpb_bind, wp_writeShard; [done|done|done|intros e b'; apply Hfail|]. cbn [app].
  do 4 (apply wpb_bind, wp_Plain; intros [[]|]; [|apply Hfail]).
  apply (wp_RenameShard now items batch temp pending (file, payload)); [done|done|done|done|intros e; apply Hfail|]. intros d'.
  assert (forall x, x ∈ fs -> x ∈ Recorded batch :: fs) as Hsub by (by right).
  apply wpb_bind, wp_Plain. intros [[]|]; [|by apply HQ]. apply wpb_bind, wp_assertDirectoryAuthorityV1. intros [[]|]; [|by apply HQ].
  apply wpb_assign, HQ; [done|done|done|by left].
Qed.
End store.

(** *** The whole append *)

(** The outcome of a snapshot: what is planned from it holds of the directory. *)
Lemma wp_Snapshot now items batch t instance v l Q g : g_stage g = Inside t instance (Holding v) -> normalizeBatch now items = Ok batch ->
  (forall e, Q (Throw e) l g) ->
  (forall d d' fs, (forall x, x ∈ g_facts g -> x ∈ fs) -> (forall plan, planAppend shardSpan now (JArr items) d' = Ok plan ->
    planAppend shardSpan now (JArr items) d = Ok plan /\ (plan = None -> Recorded batch ∈ fs)) -> Q (Ok d') l (hold t instance g d fs)) ->
  wpl (sys Snapshot) l Q g.
Proof using Hspan.
  intros Es Hb HT HQ. apply wpb_sys.
  { unfold pre. cbn. eexists _, _, v. split; [done|]. intros w ch r w' _ He. apply may_fail_Some in He as [(e & -> & -> & _)|[= _ <-]]; apply grows_refl. }
  intros w gs ch r w' Hi HI He. cbn in He. apply may_fail_Some in He as [(e & -> & -> & _)|[= <- <-]]; [exists g; rewrite insert_id by done; auto|].
  destruct (gl_dir _ _ (iv_global _ _ _ HI)) as [shards Hs]. set (extra := elements (dom (w_names w))).
  assert (Forall (fun n => is_shard_name n = false) extra) as Hx.
  { apply Forall_forall. intros n [h Hn]%elem_of_elements%elem_of_dom. apply (gl_lock _ _ (iv_global _ _ _ HI)). by eapply (gl_names _ _ (iv_global _ _ _ HI)). }
  assert (Inv linux w (<[i := hold t instance g (w_dir w) (g_facts g)]> gs)) as HI1.
  { apply (Inv_view linux i w gs t instance (Holding v) (Holding (Some (w_dir w))) g); [done|done|done| |].
    { intros d [= <-]. split; [by exists shards|apply reduced_refl]. }
    intros j gj t' _ _ _ Hsee. unfold sees in Hsee. by rewrite Es in Hsee. }
  destruct (planAppend shardSpan now (JArr items) (w_dir w ++ map (fun n => (n, [])) extra)) as [plan|e] eqn:Ep.
  - pose proof (plan_extra shardSpan now (JArr items) shards (w_dir w) extra plan Hs Hx Ep) as Epd. destruct plan as [[pending target]|].
    + exists (hold t instance g (w_dir w) (g_facts g)). split_and!; [done|done|]. apply HQ; [done|]. rewrite Ep. intros plan [= <-]. by split.
    + exists (hold t instance g (w_dir w) (Recorded batch :: g_facts g)). split_and!; [done| |].
      * rewrite <- (insert_insert_eq gs i _ (hold t instance g (w_dir w) (g_facts g))).
        apply (Inv_fact linux w _ i (hold t instance g (w_dir w) (g_facts g))); [done|by rewrite lookup_insert_eq| |done].
        exists shards. split; [done|]. intros r Hr. left. revert r Hr. by apply (planAppend_Ok shardSpan now Hspan shards (w_dir w) (JArr items) None Hs Epd items batch).
      * apply HQ; [by right|]. rewrite Ep. intros plan [= <-]. split; [done|by left].
  - exists (hold t instance g (w_dir w) (g_facts g)). split_and!; [done|done|]. apply HQ; [done|]. by rewrite Ep.
Qed.

Lemma wp_appendHolding a self now items batch t instance v l Q g : g_stage g = Inside t instance (Holding v) -> normalizeBatch now items = Ok batch ->
  settled l g ->
  (forall r l' g', g_pid g' = g_pid g -> settled l' g' -> (forall x, x ∈ g_facts g -> x ∈ g_facts g') ->
    (exists v', g_stage g' = Inside t instance v') -> (r = Ok tt -> Recorded batch ∈ g_facts g') -> Q r l' g') ->
  wpl (appendHolding self shardSpan a now (JArr items)) l Q g.
Proof using Hspan.
  intros Es Hb Hs HQ. pose proof Hs as [S1 S2 S3]. unfold appendHolding. apply wpb_bind, (wp_Snapshot now items batch t instance v); [done|done| |].
  - intros e. apply HQ; try done. eauto.
  - intros d d' fs Hf Hplan.
    assert (forall r l' d'' fs', locallyReleasedAppendClaimV1 l' = locallyReleasedAppendClaimV1 l -> locallyUnconfirmedAppendClaimV1 l' = locallyUnconfirmedAppendClaimV1 l ->
      (forall x, x ∈ fs -> x ∈ fs') -> (r = Ok tt -> Recorded batch ∈ fs') -> Q r l' (hold t instance g d'' fs')) as HQ'.
    { intros r l' d'' fs' E1 E2 Hf' Hr. apply HQ; [done| |by auto|by eexists|done].
      split; [intros c E; rewrite E1 in E; by apply Hf', Hf, S1|intros c E; rewrite E2 in E; by apply Hf', Hf, S2|done]. }
    assert (forall e, Q (Throw e) l (hold t instance g d fs)) as HT by (intros e; by apply HQ').
    apply wpb_bind, wp_Plain. intros [[]|]; [|done].
    apply wpb_bind, wpb_lift. destruct (planAppend shardSpan now (JArr items) d') as [plan|e]; [|done]. destruct (Hplan plan eq_refl) as [Hp Hnone].
    destruct plan as [[pending target]|].
    + by eapply wp_publishShard.
    + do 3 (apply wpb_bind, wp_Plain; intros [[]|]; [|done]). apply wp_assertDirectoryAuthorityV1. intros [[]|]; [|done]. apply HQ'; auto.
Qed.

(** The batch of an append that has succeeded is recorded. *)
Definition done_with (items : list json) (g : ghost) : Prop :=
  exists clock batch, normalizeBatch clock items = Ok batch /\ (batch = [] \/ Recorded batch ∈ g_facts g).

Lemma wp_openDirectoryAuthorityV1 l Q g : (forall r, Q r l g) -> wpl openDirectoryAuthorityV1 l Q g.
Proof using.
  intros HQ. unfold openDirectoryAuthorityV1. apply wpb_bind, wp_Plain. intros [[]|]; [|done]. apply wpb_bind, wp_Plain. intros [[]|]; [|done].
  assert (forall e, wpl (ignore (sys (Plain "close directory"));; lift (Throw e)) l Q g) as Hc.
  { intros e. apply wpb_bind, wpb_ignore, wp_Plain. intros _. by apply wpb_lift. }
  apply wpb_try, wpb_bind, wp_DirStat. intros [opened|]; [|apply Hc]. apply wpb_bind, wp_DirStat. intros [visible|]; [|apply Hc].
  apply wp_guard; [intros _; apply Hc|]. intros _. by apply wpb_ret.
Qed.

Lemma wp_readClock count l Q g : (forall r, Q r l g) -> wpl (readClock count) l Q g.
Proof using.
  revert Q. induction count as [|count IH]; intros Q HQ; cbn [readClock]; [by apply wpb_ret|].
  apply wpb_bind, wp_Now. intros [now|]; [|done]. apply wpb_bind, IH. intros [later|]; [|done]. by apply wpb_ret.
Qed.

Lemma wp_appendManyLocked fuel self items l Q g : self = g_pid g -> loose l g ->
  (forall r l' g', g_pid g' = g_pid g -> loose l' g' -> (r = Ok tt -> done_with items g') -> Q r l' g') ->
  wpl (appendManyLocked linux self shardSpan fuel items) l Q g.
Proof using Hproc Hspan.
  intros -> Hl HQ. unfold appendManyLocked. apply wpb_upd. eapply (update_outside linux i l); [done|]. intros g1 Ep1 Es1 Hs1.
  assert (forall e, Q (Throw e) l g1) as HT by (intros e; apply HQ; [done|by apply settled_loose|done]).
  assert (forall now, normalizeBatch now items = Ok [] -> Q (Ok tt) l g1) as Hempty.
  { intros now Hb. apply HQ; [done|by apply settled_loose|]. intros _. exists now, []. auto. }
  apply wpb_bind, wp_Plain. intros [[]|]; [|done]. case_bool_decide as Hne; [apply wpb_ret, (Hempty (fun _ => 0)); by subst|].
  do 2 (apply wpb_bind, wp_Plain; intros [[]|]; [|done]). apply wpb_bind, wp_readClock. intros [times|]; [|done].
  set (now := fun j => nth j times 0). apply wpb_bind, wpb_lift. destruct (normalizeBatch now items) as [batch|e] eqn:Hb; [|done].
  case_bool_decide as Hbe; [apply wpb_ret, (Hempty now); by subst|]. apply wpb_bind, wp_openDirectoryAuthorityV1. intros [a|]; [|done].
  apply wpb_finally, wpb_bind, (wp_acquireAppendLockV1 _ _ _ Hproc); [done|done|done|..].
  - intros e l2 g2 Ep2 Hl2. apply wpb_ignore, wp_Plain. intros _. apply HQ; [congruence|done|done].
  - intros c l2 g2 Ep2 Hs2 [Hc [instance Es2]]. apply wpb_finally, (wp_appendHolding _ _ _ _ batch (c_token c) instance None); [done|done|done|].
    intros r l3 g3 Ep3 Hs3 Hf3 [v3 Es3] Hr. apply (wp_releaseAppendLockV1 _ _ _ Hproc); [congruence|done|by eapply seen_facts|eauto|].
    intros l4 g4 Ep4 Hl4 Hf4. apply wpb_ignore, wp_Plain. intros _. apply HQ; [congruence|done|]. intros Er. exists now, batch. auto.
Qed.
End holding.
