(* ===== verification/ReceiptLockSafety.v ===== *)
(** * What the append lock guarantees

    The stores of any number of processes side by side: every interleaving of their system
    calls, with calls that fail, processes that are killed or start anew under an old number,
    reboots, and shards that [gc] drops, which takes no lock.  One store at a time works on the
    shards, appends lose no receipt, and what an append has accepted stays recorded until its
    shard is dropped.  The guarantee needs that a process can read what [/proc] says of itself;
    without, the lock breaks, as a run of the model in [ReceiptLockSamples] records.  A claim
    that nobody remembers blocks all appends while its process lives. *)

From Stdlib Require Import Ascii.
From S2P Require Import Prelude Js JsText CanonicalJson Sha256 JsConvert JsonParse TextLines NodeBuffer.
From S2P Require Import Receipts ReceiptsSafety Interleave ReceiptLock ReceiptLockLogic ReceiptLockSpecs ReceiptLockProtocol ReceiptLockDrops ReceiptLockShards.

(** ** Stores that come and go *)

Section changes.
Context (linux : bool).

Lemma Inv_subset w gs gs' : Inv linux w gs -> gs' ⊆ gs -> Inv linux w gs'.
Proof.
  intros [Hg Ht Hf Ha] Hsub. split; [done|..].
  - intros i g Hi. by eapply Ht, lookup_weaken.
  - intros i j g g' x Hi Hj. eapply (Hf i j); by eapply lookup_weaken.
  - intros i j g g' Hne Hi Hj. eapply (Ha i j); [done|by eapply lookup_weaken..].
Qed.

Definition new_ghost (pid : Z) (boot : string) (start : Z) : ghost := mkGhost pid boot start Outside None [].

Lemma Inv_open w gs i pid p : Inv linux w gs -> gs !! i = None -> w_procs w !! pid = Some p ->
  Inv linux w (<[i := new_ghost pid (w_boot w) (p_start p)]> gs).
Proof.
  intros [Hg Ht Hf Ha] Hi Hp. set (g0 := new_ghost _ _ _). assert (forall t, ~ claims g0 t) as Hc by (by intros t (? & ? & [=])).
  assert (forall x, fact_vs w x g0) as Hx by (by intros []; cbn; try done; intros t ?%Hc).
  assert (forall g, apart g0 g) as Hap by (intros g; split; [done|done|by intros t t' ?%Hc]). split; [done|..].
  - intros j g. rewrite lookup_insert. case_decide; [|by apply Ht]. intros [= <-]. split; [by exists p|done|done|done|by intros x ?%elem_of_nil].
  - intros j k g g' x. rewrite !lookup_insert. case_decide; case_decide; [by intros [= <-] [= <-]|..|by apply Hf].
    + by intros [= <-] _ ?%elem_of_nil.
    + intros _ [= <-] _. apply Hx.
  - intros j k g g' Hne. rewrite !lookup_insert. case_decide; case_decide; [congruence|..|by apply Ha].
    + by intros [= <-] _.
    + intros _ [= <-]. apply apart_sym, Hap.
Qed.

Lemma evolves_procs w f g : (forall p, w_procs w !! g_pid g = Some p -> f (w_procs w) !! g_pid g = Some p) -> evolves w (set_procs f w) g.
Proof. intros Hp. split; cbn; try done; [|by apply keeps_same]. intros p E. exists p. auto. Qed.

Lemma Inv_spawn w gs pid start : Inv linux w gs -> w_procs w !! pid = None -> is_pid pid = true -> 0 <= start ->
  Inv linux (set_procs (insert pid (mkProcess start EmptyString)) w) gs.
Proof.
  intros HI Hn Hp Hs. apply (Inv_evolve _ w); [done| |].
  - destruct (iv_global _ _ _ HI) as [G1 G2 G3 G4 G5 G6 G7]. split; cbn; try done. intros q p. rewrite lookup_insert. case_decide; [|by apply G5].
    intros [= <-]. subst q. split_and!; [done|done|by left].
  - intros j g _. apply evolves_procs. intros p E. rewrite lookup_insert_ne; [done|]. intros Ep. rewrite <- Ep in E. congruence.
Qed.

Lemma Inv_kill w gs pid : Inv linux w gs -> Inv linux (set_procs (delete pid) w) (filter (fun s => g_pid s.2 <> pid) gs).
Proof.
  intros HI. apply (Inv_evolve _ w).
  - eapply Inv_subset; [done|]. apply map_filter_subseteq.
  - destruct (iv_global _ _ _ HI) as [G1 G2 G3 G4 G5 G6 G7]. split; cbn; try done. intros q p [_ E]%lookup_delete_Some. by apply G5.
  - intros j g [_ Hne]%map_lookup_filter_Some. apply evolves_procs. intros p E. by rewrite lookup_delete_ne.
Qed.

Lemma drop_keeps w files : (exists shards, holds shards (w_dir w)) -> keeps w (drop_shards files w).
Proof.
  intros _. exists (List.filter (fun f => bool_decide (f.1 ∈ files)) (w_dir w)). split; [done|]. intros sh Hsh.
  pose proof (holds_drop sh _ files Hsh) as Hk. exists (kept files sh). split; [done|].
  intros h r [(name & rs & Hin & Hr) Hh]%(recorded_elem _ _ h r Hsh). destruct (decide (name ∈ files)) as [Hf|Hf].
  - right. exists name, rs. split; [|done]. apply list_filter_elem. split; [|by apply bool_decide_eq_true_2].
    apply file_of_elem; [apply Hsh|]. by apply Hsh.
  - left. apply (recorded_elem _ _ h r Hk). split; [|done]. exists name, rs. by rewrite kept_elem.
Qed.

Lemma Inv_gc w gs files : Inv linux w gs -> Forall (fun n => is_shard_name n = true) files -> Inv linux (drop_shards files w) gs.
Proof.
  intros HI Hf. destruct (iv_global _ _ _ HI) as [G1 G2 G3 G4 G5 [shards G6] G7]. apply (Inv_evolve _ w); [done| |].
  - split; cbn; try done. exists (kept files shards). by apply holds_drop.
  - intros j g _. split; cbn; try done; [by eauto| |apply drop_keeps; by exists shards].
    intros t instance d _ [Hd Hr]. split; [done|]. cbn. by apply reduced_drop.
Qed.
End changes.

(** ** The invariant of the system *)

Section system.
Context `{StringNumber} `{JsonNumber} (linux proc_readable : bool) (shardSpan : Z).
Context (Hproc : linux = true -> proc_readable = true) (Hspan : 0 < shardSpan).

Definition finished (last : list json * res unit * locals) (g : ghost) : Prop :=
  loose last.2 g /\ (last.1.2 = Ok tt -> done_with last.1.1 g).

Notation ok := (threads_ok (exec proc_readable) g_pid (Inv linux) (pre proc_readable) finished).

Definition system_ok (s : system) : Prop := exists gs, ok (sy_world s) (sy_stores s) gs.

Lemma wp_start_append i pid fuel items l g : pid = g_pid g -> loose l g ->
  wp (exec proc_readable) g_pid (Inv linux) (pre proc_readable) i (start_append linux shardSpan pid fuel items l) finished g.
Proof using Hproc Hspan.
  intros Hp Hl. pose proof (wp_appendManyLocked linux proc_readable shardSpan i Hproc Hspan fuel pid items l
    (fun r l' g' => finished (items, r, l') g') g Hp Hl) as Hw.
  apply wpp_bind. eapply wpp_mono; [|apply Hw; intros r l' g' _ Hl' Hd; by split]. intros [r l'] g' Hf. apply upd_intro. exact Hf.
Qed.

Lemma ok_append w ss gs i pid last fuel items : ok w ss gs -> ss !! i = Some (pid, Ret last) ->
  exists gs', ok w (<[i := (pid, start_append linux shardSpan pid fuel items last.2)]> ss) gs'.
Proof using Hproc Hspan.
  intros Hok Hi. pose proof Hok as [HI Hdom Hwp]. destruct (proj2 (Hdom i) ltac:(eauto)) as [g Hg]. destruct (Hwp i pid _ g Hi Hg) as [Ho Hw].
  destruct (Hw w gs Hg HI) as (g1 & E1 & HI1 & [Hl _]). exists (<[i := g1]> gs). eapply threads_start; [done|done|congruence|].
  apply wp_start_append; [congruence|done].
Qed.

Lemma ok_open w ss gs i pid : ok w ss gs -> ss !! i = None -> is_Some (w_procs w !! pid) ->
  exists gs', ok w (<[i := (pid, Ret ([], Ok tt, new_store))]> ss) gs'.
Proof using.
  intros Hok Hi [p Hp]. pose proof Hok as [HI Hdom _]. exists (<[i := new_ghost pid (w_boot w) (p_start p)]> gs). eapply threads_start; [done| |done|].
  - apply Inv_open; [done| |done]. apply eq_None_not_Some. rewrite Hdom, Hi. by intros [? [=]].
  - apply upd_intro. split; [by split; [by intros c|by intros c|]|]. intros _. exists (fun _ => 0), []. auto.
Qed.

Lemma ok_kill w ss gs pid : ok w ss gs -> exists gs', ok (set_procs (delete pid) w) (filter (fun s => s.2.1 <> pid) ss) gs'.
Proof using.
  intros [HI Hdom Hwp]. exists (filter (fun s => g_pid s.2 <> pid) gs). split; [by apply Inv_kill| |].
  - intros j. split; intros [x Hx]; apply map_lookup_filter_Some in Hx as [Hx Hne]; cbn in Hne.
    + destruct (proj1 (Hdom j) ltac:(eauto)) as [[q p] Hj]. exists (q, p). apply map_lookup_filter_Some. split; [done|]. cbn.
      by destruct (Hwp j q p x Hj Hx) as [<- _].
    + destruct (proj2 (Hdom j) ltac:(eauto)) as [g Hj]. exists g. apply map_lookup_filter_Some. split; [done|]. cbn. destruct x as [q p].
      by destruct (Hwp j q p g Hx Hj) as [-> _].
  - intros j q p g Hj Hg. apply map_lookup_filter_Some in Hj as [Hj _]. apply map_lookup_filter_Some in Hg as [Hg _]. by apply Hwp.
Qed.

Lemma ok_none w : global_ok linux w -> ok w ∅ ∅.
Proof using.
  intros Hg. split.
  - split; [done|by intros i g ?%lookup_empty_Some|by intros i j g g' x ?%lookup_empty_Some|by intros i j g g' _ ?%lookup_empty_Some].
  - intros i. split; intros [x ?%lookup_empty_Some]; done.
  - by intros i pid p g ?%lookup_empty_Some.
Qed.

Lemma ok_reboot w ss gs boot : ok w ss gs -> is_boot_id boot = true ->
  ok (mkWorld boot ∅ (w_names w) (w_files w) (w_next w) (w_ever w) (w_tokens w) (w_dir w) (w_removed w)) ∅ ∅.
Proof using.
  intros [HI _ _] Hb. destruct (iv_global _ _ _ HI) as [G1 G2 G3 G4 G5 G6 G7]. apply ok_none. by split.
Qed.

Lemma system_step s s' : system_ok s -> step linux proc_readable shardSpan s s' -> system_ok s'.
Proof using Hproc Hspan.
  intros [gs Hok] Hst. destruct Hst as [w ss i pid R c k ch r w' Hi He|w ss i pid last fuel items Hi|w ss i pid Hi Hp|w ss pid start Hn Hp Hs|w ss pid|w ss boot Hb|w ss files Hf];
    cbn in Hok; unfold system_ok; cbn [sy_world sy_stores].
  - by eapply threads_call.
  - by eapply ok_append.
  - by eapply ok_open.
  - exists gs. destruct Hok as [HI Hdom Hwp]. split; [by apply Inv_spawn|done|done].
  - by eapply ok_kill.
  - eexists. by eapply ok_reboot.
  - exists gs. destruct Hok as [HI Hdom Hwp]. split; [by apply Inv_gc|done|done].
Qed.

Lemma system_start w : global_ok linux w -> system_ok (mkSystem w ∅).
Proof using. intros Hg. exists ∅. by apply ok_none. Qed.

Lemma system_steps s s' : system_ok s -> rtc (step linux proc_readable shardSpan) s s' -> system_ok s'.
Proof using Hproc Hspan. intros Hs Hr. induction Hr; [done|]. by eapply IHHr, system_step. Qed.

(** *** The shards through a step *)

Lemma exec_dir self R (c : syscall R) ch w r w' : on_shards c = false -> exec proc_readable self R c ch w = Some (r, w') -> w_dir w' = w_dir w.
Proof using.
  clear. intros Hc He. destruct c; try discriminate Hc; cbn in He;
    repeat first [apply may_fail_Some in He as [(? & _ & -> & _)|He]; [done|] | case_match; try done | by simplify_eq].
Qed.

Lemma exec_removed self R (c : syscall R) ch w r w' : exec proc_readable self R c ch w = Some (r, w') -> w_removed w' = w_removed w.
Proof using.
  clear. intros He. destruct c; cbn in He;
    repeat first [apply may_fail_Some in He as [(? & _ & -> & _)|He]; [done|] | case_match; try done | by simplify_eq].
Qed.

Lemma step_keeps s s' : system_ok s -> step linux proc_readable shardSpan s s' -> keeps (sy_world s) (sy_world s').
Proof using.
  intros [gs Hok] Hst. destruct Hst as [w ss i pid R c k ch r w' Hi He| | | | | |w ss files Hf]; cbn in *; try (by apply keeps_same);
    [|apply drop_keeps, (gl_dir _ _ (iv_global _ _ _ (th_inv _ _ _ _ _ _ _ _ Hok)))].
  apply keeps_grows; [|by eapply exec_removed].
  destruct (on_shards c) eqn:Hc; [|rewrite (exec_dir _ _ _ _ _ _ _ Hc He); apply grows_refl].
  destruct Hok as [HI Hdom Hwp]. destruct (proj2 (Hdom i) ltac:(eauto)) as [g Hg]. destruct (Hwp i pid _ g Hi Hg) as [Ho Hw].
  destruct (Hw w gs Hg HI) as (g1 & E1 & HI1 & Hp & _). unfold pre in Hp. rewrite Hc in Hp. destruct Hp as (t & instance & d & Es & Hgr).
  eapply Hgr; [|by rewrite E1, Ho]. intros d' ->. pose proof (to_stage _ _ _ (iv_thread _ _ _ HI1 i g1 ltac:(by rewrite lookup_insert_eq))) as Hs.
  rewrite Es in Hs. by apply Hs.
Qed.

Lemma steps_keep s s' : system_ok s -> rtc (step linux proc_readable shardSpan) s s' -> keeps (sy_world s) (sy_world s').
Proof using Hproc Hspan.
  intros Hs Hr. induction Hr as [s|s s1 s' Hst _ IH]; [by apply keeps_same|]. eapply keeps_trans; [by apply step_keeps|].
  apply IH. by eapply system_step.
Qed.

Lemma system_global s : system_ok s -> global_ok linux (sy_world s).
Proof using. intros [gs Hok]. apply (iv_global _ _ _ (th_inv _ _ _ _ _ _ _ _ Hok)). Qed.

(** One store at a time is about to work on the shards. *)
Lemma system_exclusive s i j pi pj p q : system_ok s -> sy_stores s !! i = Some (pi, p) -> sy_stores s !! j = Some (pj, q) ->
  critical p = true -> critical q = true -> i = j.
Proof using.
  intros [gs Hok] Hi Hj Hp Hq. destruct (decide (i = j)) as [|Hne]; [done|exfalso].
  destruct p as [|R c k]; [done|]. destruct q as [|R' c' k']; [done|]. cbn in Hp, Hq.
  destruct (threads_pre2 _ _ _ _ _ _ _ _ i j pi pj R R' c c' k k' Hok Hne Hi Hj) as (gs' & gi & gj & HI & Hgi & Hgj & Hpi & Hpj).
  unfold pre in Hpi, Hpj. rewrite Hp in Hpi. rewrite Hq in Hpj. destruct Hpi as (t & instance & d & Es & _), Hpj as (t' & instance' & d' & Es' & _).
  by eapply (Inv_exclusive linux (sy_world s) gs' i j).
Qed.

(** What [gc] of [Receipts] does in one go is an event. *)
Lemma gc_step w ss keepLast mem : exists w', step linux proc_readable shardSpan (mkSystem w ss) (mkSystem w' ss) /\
  w_dir w' = rs_dir (gc keepLast (mkReceipts (w_dir w) mem)).2.
Proof using.
  clear Hproc Hspan. eexists. split; [apply step_gc|reflexivity]. apply Forall_forall. intros n.
  destruct (keepCount keepLast) as [k|]; [|by intros ?%elem_of_nil].
  intros Hin. assert (n ∈ reverse (isort str_leb (List.filter is_shard_name (w_dir w).*1))) as Hn
    by (rewrite <- (take_drop k (reverse _)); apply elem_of_app; by right).
  rewrite elem_of_reverse, isort_perm, list_filter_elem in Hn. apply Hn.
Qed.

(** *** A claim that nobody remembers *)

(** A store that has stopped for good while it holds the lock *)
Definition stopped : run := Vis Snapshot (fun _ => Ret ([], Throw "stopped", new_store)).

Definition with_stopped (k : nat) (pid : Z) (s : system) : system := mkSystem (sy_world s) (<[k := (pid, stopped)]> (sy_stores s)).

(** A step after which the process [pid] still runs *)
Definition step_while (pid : Z) (s s' : system) : Prop :=
  step linux proc_readable shardSpan s s' /\ is_Some (w_procs (sy_world s') !! pid).

(** A store that has returned and remembers no claim *)
Definition idle (w : world) (x : Z * run) : Prop :=
  is_Some (w_procs w !! x.1) /\ exists last, x.2 = Ret last /\
    locallyReleasedAppendClaimV1 last.2 = None /\ locallyUnconfirmedAppendClaimV1 last.2 = None.

Lemma step_while_stopped k pid s s' : sy_stores s !! k = None -> sy_stores s' !! k = None -> step_while pid s s' ->
  step linux proc_readable shardSpan (with_stopped k pid s) (with_stopped k pid s').
Proof using.
  clear Hproc Hspan. intros Hk Hk' [Hst Hlive]. unfold with_stopped.
  destruct Hst as [w ss i q R c kk ch r w' Hi He|w ss i q last fuel items Hi|w ss i q Hi Hp|w ss q start Hn Hp Hs|w ss q|w ss boot Hb|w ss files Hf];
    cbn [sy_world sy_stores] in *.
  - assert (i <> k) by (intros ->; pose proof (eq_trans (eq_sym Hk) Hi) as E; discriminate E). rewrite insert_insert_ne by done. eapply step_call; [by rewrite lookup_insert_ne|done].
  - assert (i <> k) by (intros ->; pose proof (eq_trans (eq_sym Hk) Hi) as E; discriminate E). rewrite insert_insert_ne by done. apply step_append. by rewrite lookup_insert_ne.
  - assert (i <> k) by (intros ->; by rewrite lookup_insert_eq in Hk'). rewrite insert_insert_ne by done. apply step_open; [by rewrite lookup_insert_ne|done].
  - by apply step_spawn.
  - assert (pid <> q) by (intros ->; cbn in Hlive; rewrite lookup_delete_eq in Hlive; by destruct Hlive).
    assert (<[k := (pid, stopped)]> (filter (fun s => s.2.1 <> q) ss) = filter (fun s => s.2.1 <> q) (<[k := (pid, stopped)]> ss)) as ->
      by (by rewrite map_filter_insert_True). apply step_kill.
  - exfalso. cbn in Hlive. rewrite lookup_empty in Hlive. by destruct Hlive.
  - by apply step_gc.
Qed.

(** A run uses finitely many stores. *)
Lemma fresh_run pid s s' : rtc (step_while pid) s s' ->
  exists X : gset nat, forall k, k ∉ X -> sy_stores s !! k = None /\ sy_stores s' !! k = None /\
    rtc (step linux proc_readable shardSpan) (with_stopped k pid s) (with_stopped k pid s').
Proof using.
  induction 1 as [s|s s1 s' Hst _ [X IH]].
  - exists (dom (sy_stores s)). intros k Hk. apply not_elem_of_dom in Hk. by split_and!.
  - exists (dom (sy_stores s) ∪ X). intros k [Hk HX]%not_elem_of_union. apply not_elem_of_dom in Hk. destruct (IH k HX) as (Hk1 & Hk' & Hr).
    split_and!; [done|done|]. eapply rtc_l; [apply step_while_stopped; [exact Hk|exact Hk1|exact Hst]|exact Hr].
Qed.

Definition stopped_ghost (w : world) (pid : Z) (start : Z) (t instance : string) : ghost :=
  mkGhost pid (w_boot w) start (Inside t instance (Holding None)) None [].

Lemma wp_stopped k g t instance : g_stage g = Inside t instance (Holding None) -> g_temp g = None ->
  wp (exec proc_readable) g_pid (Inv linux) (pre proc_readable) k stopped finished g.
Proof using.
  clear Hproc Hspan. intros Es Et. apply upd_intro. split.
  - exists t, instance, None. split; [done|]. intros w ch r w' _ He. cbn in He.
    apply may_fail_Some in He as [(e & -> & -> & _)|[= _ <-]]; apply grows_refl.
  - intros w gs ch r w' Hi HI He. cbn in He. assert (w' = w) as -> by (by apply may_fail_Some in He as [(e & -> & -> & _)|[= _ <-]]).
    exists g. split; [done|]. split; [by rewrite insert_id|]. apply upd_intro. split; [by split|done].
Qed.

Lemma map_choice {A B} (m : gmap nat A) (P : A -> B -> Prop) : (forall i x, m !! i = Some x -> exists y, P x y) ->
  exists m' : gmap nat B, forall i, match m !! i, m' !! i with Some x, Some y => P x y | None, None => True | _, _ => False end.
Proof using.
  clear. induction m as [|i x m Hi IH] using map_ind; intros Hm; [exists ∅; intros i; by rewrite !lookup_empty|].
  destruct IH as [m' Hm']; [intros j y Hj; apply (Hm j); rewrite lookup_insert_ne; [done|congruence]|].
  destruct (Hm i x) as [y Hy]; [by rewrite lookup_insert_eq|]. exists (<[i := y]> m'). intros j. destruct (decide (i = j)) as [<-|Hne].
  - by rewrite !lookup_insert_eq.
  - rewrite !lookup_insert_ne by done. apply Hm'.
Qed.

Definition is_record (x : fact) : bool := match x with Recorded _ => true | _ => false end.

(** What is left to know of a store that is idle *)
Record quiet (w : world) (x : Z * run) (g : ghost) : Prop := mkQuiet {
  qu_live : exists p, w_procs w !! g_pid g = Some p /\ p_start p = g_start g;
  qu_boot : g_boot g = w_boot w;
  qu_pid : g_pid g = x.1;
  qu_stage : g_stage g = Outside;
  qu_temp : g_temp g = None;
  qu_facts : forall y, y ∈ g_facts g -> is_record y = true /\ fact_ok w y;
  qu_finished : exists last, x.2 = Ret last /\ finished last g
}.

Lemma idle_quiet w ss gs i x : ok w ss gs -> ss !! i = Some x -> idle w x -> exists g, quiet w x g.
Proof using.
  clear Hproc Hspan. intros [HI Hdom Hwp] Hi [[p Hp] (last & E & H1 & H2)]. destruct x as [q pr]. cbn in Hp, E. subst pr.
  destruct (proj2 (Hdom i) ltac:(eauto)) as [g Hg]. destruct (Hwp i q _ g Hi Hg) as [_ Hw]. destruct (Hw w gs Hg HI) as (g1 & _ & HI1 & [_ Hd]).
  pose proof (to_facts _ _ _ (iv_thread _ _ _ HI1 i g1 ltac:(by rewrite lookup_insert_eq))) as Hf.
  exists (mkGhost q (w_boot w) (p_start p) Outside None (List.filter is_record (g_facts g1))).
  split; [by exists p|done|done|done|done| |].
  - intros y [Hy Hr]%list_filter_elem. auto.
  - exists last. split; [done|]. split; [split; [by intros c; rewrite H1|by intros c; rewrite H2|done]|]. intros Hok.
    destruct (Hd Hok) as (clock & batch & Hb & [->|Hin]); exists clock; [by exists []; auto|exists batch]. split; [done|]. right. cbn. by apply list_filter_elem.
Qed.

(** A world with a claim that nobody remembers is one in which a store has stopped. *)
Lemma ok_stopped s k pid p t instance : system_ok s -> claim_ok linux (sy_world s) pid t instance ->
  w_procs (sy_world s) !! pid = Some p -> map_Forall (fun _ => idle (sy_world s)) (sy_stores s) -> sy_stores s !! k = None ->
  system_ok (with_stopped k pid s).
Proof using.
  clear Hproc Hspan. destruct s as [w ss]. cbn. intros [gs Hok] Hc Hp Hss Hk. cbn in Hok.
  destruct (map_choice ss (quiet w)) as [gs0 Hgs0]; [intros i x Hi; eapply idle_quiet; [done|done|by eapply Hss]|].
  set (gz := stopped_ghost w pid (p_start p) t instance).
  assert (forall i g, (<[k := gz]> gs0) !! i = Some g -> i = k /\ g = gz \/ i <> k /\ exists x, ss !! i = Some x /\ quiet w x g) as Hgs.
  { intros i g. rewrite lookup_insert. case_decide as E; [intros [= <-]; by left|]. intros Hg. right. split; [congruence|].
    specialize (Hgs0 i). rewrite Hg in Hgs0. destruct (ss !! i) as [x|]; [eauto|done]. }
  assert (forall g, quiet w g.1 g.2 -> forall t, ~ claims g.2 t) as Hno by (intros g Hq t' (? & ? & E); by rewrite (qu_stage _ _ _ Hq) in E).
  exists (<[k := gz]> gs0). cbn. split.
  - split; [apply (iv_global _ _ _ (th_inv _ _ _ _ _ _ _ _ Hok))|..].
    + intros i g [[_ ->]|(_ & x & Hx & [Q1 Q2 Q3 Q4 Q5 Q6 Q7])]%Hgs; [split; [by exists p|done|done|by split|by intros y ?%elem_of_nil]|].
      split; [done|done|by rewrite Q5|by rewrite Q4|intros y Hy; by apply Q6].
    + intros i j g g' y Hi _ Hy. destruct (Hgs i g Hi) as [[_ ->]|(_ & x & Hx & Hq)]; [by apply elem_of_nil in Hy|].
      destruct (qu_facts _ _ _ Hq y Hy) as [Hr _]. by destruct y.
    + intros i j g g' Hne Hi Hj. destruct (Hgs i g Hi) as [[-> ->]|(_ & x & _ & Hq)], (Hgs j g' Hj) as [[-> ->]|(_ & x' & _ & Hq')]; [done|..];
        split; unfold token_of, claims; rewrite ?(qu_stage _ _ _ Hq), ?(qu_stage _ _ _ Hq'), ?(qu_temp _ _ _ Hq), ?(qu_temp _ _ _ Hq'); naive_solver.
  - intros i. rewrite !lookup_insert. case_decide; [by split; eauto|]. specialize (Hgs0 i). split; intros [y Hy].
    + rewrite Hy in Hgs0. destruct (ss !! i) as [x|] eqn:Ex; [by exists x|done].
    + destruct (gs0 !! i) as [g|]; [by exists g|]. exfalso. destruct (ss !! i) as [x|] eqn:Ex; [done|].
      pose proof (eq_trans (eq_sym Ex) Hy) as E. discriminate E.
  - intros i q pr g. rewrite lookup_insert. case_decide as E; [subst i; rewrite lookup_insert_eq; intros [= <- <-] [= <-]; split; [done|by eapply wp_stopped]|].
    intros Hi [[? _]|(_ & x & Hx & Hq)]%Hgs; [congruence|]. pose proof (eq_trans (eq_sym Hx) Hi) as E'. injection E' as ->.
    split; [apply Hq|]. destruct (qu_finished _ _ _ Hq) as (last & El & Hf). cbn in El. subst pr. by apply upd_intro.
Qed.

Lemma stopped_blocks s s' pid t instance : system_ok s -> claim_ok linux (sy_world s) pid t instance ->
  is_Some (w_procs (sy_world s) !! pid) -> map_Forall (fun _ => idle (sy_world s)) (sy_stores s) -> rtc (step_while pid) s s' ->
  forall i q p, sy_stores s' !! i = Some (q, p) -> critical p = false.
Proof using Hproc Hspan.
  intros Hok Hc [pr Hp] Hss Hr i q p Hi. destruct (fresh_run pid s s' Hr) as [X HX]. set (k := fresh X). destruct (HX k (is_fresh X)) as (Hk & Hk' & Hrun).
  pose proof (system_steps _ _ (ok_stopped s k pid pr t instance Hok Hc Hp Hss Hk) Hrun) as Hok'. destruct (critical p) eqn:Hcr; [exfalso|done].
  assert (i <> k) as Hne by congruence. apply Hne.
  apply (system_exclusive (with_stopped k pid s') i k q pid p stopped Hok'); [cbn; by rewrite lookup_insert_ne|cbn; by rewrite lookup_insert_eq|done|done].
Qed.

(** Without a store that is about to work on them, the shards only become fewer. *)
Lemma step_reduced s s' d : (forall i q p, sy_stores s !! i = Some (q, p) -> critical p = false) -> step linux proc_readable shardSpan s s' ->
  reduced (w_removed (sy_world s)) d (w_dir (sy_world s)) -> reduced (w_removed (sy_world s')) d (w_dir (sy_world s')).
Proof using.
  clear Hproc Hspan. intros Hc Hst. destruct Hst as [w ss i q R c k ch r w' Hi He| | | | | |w ss files Hf]; cbn in *; try done.
  - by rewrite (exec_dir _ _ _ _ _ _ _ (Hc i q _ Hi) He), (exec_removed _ _ _ _ _ _ _ He).
  - by apply reduced_drop.
Qed.

(** ** The guarantees *)

(** C5: The append lock excludes.  Where every process can read its own entry of [/proc]: from
    any directory of well-formed shards, whatever records of the lock it holds, and any
    processes, after any interleaving of the calls of any number of stores in any number of
    processes, with calls that fail, processes killed anywhere, process numbers used again,
    reboots and shards dropped by [gc], two stores are never both about to read or change the
    shards in an append.  [gc] itself takes no lock. *)
Theorem receipt_lock_excludes (w : world) (s : system) (i j : nat) (pi pj : Z) (p q : run) :
  global_ok linux w -> rtc (step linux proc_readable shardSpan) (mkSystem w ∅) s ->
  sy_stores s !! i = Some (pi, p) -> sy_stores s !! j = Some (pj, q) -> critical p = true -> critical q = true -> i = j.
Proof using Hproc Hspan. intros Hg Hr. apply system_exclusive. eapply system_steps; [by apply system_start|done]. Qed.

(** C6: Concurrent appends lose nothing: whatever stores, processes and failures interleave,
    the shards stay well-formed, and every receipt that is recorded at some moment is
    recorded with the same values at every later moment, unless a [gc] has dropped in between
    a shard with this very receipt.  [gc], which takes no lock, may drop any shards at any
    moment of the run, also while an append works from what it has read of them. *)
Theorem receipt_appends_compose (w : world) (s s' : system) (shards : list (string * list Receipt)) :
  global_ok linux w -> rtc (step linux proc_readable shardSpan) (mkSystem w ∅) s -> rtc (step linux proc_readable shardSpan) s s' ->
  holds shards (w_dir (sy_world s)) ->
  exists new shards', w_removed (sy_world s') = w_removed (sy_world s) ++ new /\ holds shards' (w_dir (sy_world s')) /\
    forall h r, recorded shards h = Some r -> recorded shards' h = Some r \/ dropped new r.
Proof using Hproc Hspan.
  intros Hg Hr Hr' Hs. destruct (steps_keep s s') as (new & En & Hk); [eapply system_steps; [by apply system_start|done]|done|].
  destruct (Hk shards Hs) as (shards' & Hs' & Hrec). exists new, shards'. auto.
Qed.

(** C7: What an append has accepted stays: once an append of a store has returned without an
    error, every receipt of its batch is recorded as it was given (with a time of the clock
    where it had none), then and at every later moment, whatever other stores, failures,
    kills and reboots interleave, unless a [gc] of the run has dropped a shard with this very
    receipt.  Where no shard was dropped, all of them are recorded. *)
Theorem receipt_append_accepted (w : world) (s s' : system) (i : nat) (pid : Z) (items : list json) (l : locals) :
  global_ok linux w -> rtc (step linux proc_readable shardSpan) (mkSystem w ∅) s ->
  sy_stores s !! i = Some (pid, Ret (items, Ok tt, l)) -> rtc (step linux proc_readable shardSpan) s s' ->
  exists clock batch shards, normalizeBatch clock items = Ok batch /\ holds shards (w_dir (sy_world s')) /\
    forall r, r ∈ batch -> recorded shards (r_h r) = Some r \/ dropped (w_removed (sy_world s')) r.
Proof using Hproc Hspan.
  intros Hg Hr Hi Hr'. pose proof (system_steps _ _ (system_start w Hg) Hr) as Hok. destruct (steps_keep s s' Hok Hr') as (new & En & Hgr).
  destruct Hok as [gs [HI Hdom Hwp]]. destruct (proj2 (Hdom i) ltac:(eauto)) as [g Hgi]. destruct (Hwp i pid _ g Hi Hgi) as [_ Hw].
  destruct (Hw _ gs Hgi HI) as (g1 & _ & HI1 & _ & Hd). destruct (Hd eq_refl) as (clock & batch & Hb & Hrec).
  assert (fact_ok (sy_world s) (Recorded batch)) as (shards & Hs & Hk).
  { destruct Hrec as [->|Hx]; [destruct (gl_dir _ _ (iv_global _ _ _ HI)) as [shards ?]; exists shards; split; [done|by intros r ?%elem_of_nil]|].
    exact (to_facts _ _ _ (iv_thread _ _ _ HI1 i g1 ltac:(by rewrite lookup_insert_eq)) _ Hx). }
  destruct (Hgr shards Hs) as (shards' & Hs' & Hkeep). exists clock, batch, shards'. split_and!; [done|done|]. intros r Hin. rewrite En.
  destruct (Hk r Hin) as [Hx|Hx]; [destruct (Hkeep _ _ Hx) as [?|Hy]; [by left|]|]; right; (eapply dropped_mono; [|done]); set_solver.
Qed.

(** C34: A claim that nobody remembers blocks every append for as long as its process lives.
    In any state that the system can reach, take the claim of a process that runs, with no
    release record, while every store has returned and none of them, that of the process
    included, has the claim among the ones it still has to withdraw: so it is when an append
    fails between the confirmation of its claim and the end of the second search for other
    claims.  Then, whatever stores of whatever processes do afterwards, no append gets to work on the
    shards until the process ends: the shards stay what they are, but for those that [gc]
    drops. *)
Theorem receipt_claim_left_behind (w : world) (s s' : system) (pid : Z) (t instance : string) :
  global_ok linux w -> rtc (step linux proc_readable shardSpan) (mkSystem w ∅) s ->
  claim_ok linux (sy_world s) pid t instance -> is_Some (w_procs (sy_world s) !! pid) ->
  map_Forall (fun _ => idle (sy_world s)) (sy_stores s) -> rtc (step_while pid) s s' ->
  (forall i q p, sy_stores s' !! i = Some (q, p) -> critical p = false) /\
  reduced (w_removed (sy_world s')) (w_dir (sy_world s)) (w_dir (sy_world s')).
Proof using Hproc Hspan.
  intros Hg Hr Hc Hp Hss Hr'. pose proof (system_steps _ _ (system_start w Hg) Hr) as Hok.
  assert (forall s1, rtc (step_while pid) s s1 -> forall i q p, sy_stores s1 !! i = Some (q, p) -> critical p = false) as Hblock
    by (intros s1; by apply (stopped_blocks s s1 pid t instance)).
  split; [by apply Hblock|]. clear -Hr' Hblock.
  pattern s'. eapply (rtc_ind_r _ s); [apply reduced_refl| |exact Hr']. intros s1 s2 H1 [H2 _] IH.
  eapply step_reduced; [by apply Hblock|done|done].
Qed.
End system.
