(* ===== verification/ReceiptLockCalm.v ===== *)
(** * Undisturbed runs of the append lock: calls and records

    Total specifications of the functions of [ReceiptLock] for a store that runs alone: no call
    fails, reads and writes make progress, and the directory keeps its identity.  The logic is
    that of [Interleave] with the world itself as the ghost state of the only thread; a call
    has to be possible, so that a specified program runs to its end.  [completes] is that
    guarantee without the logic. *)

From Stdlib Require Import Ascii.
From S2P Require Import Prelude Js JsText CanonicalJson Sha256 JsConvert JsonParse TextLines NodeBuffer.
From S2P Require Import Receipts ReceiptsSafety Interleave ReceiptLock ReceiptLockLogic ReceiptLockSpecs.

(** ** Undisturbed calls *)

(** Times, devices and inodes are 64-bit numbers. *)
Definition word64 (z : Z) : Prop := 0 <= z < 2 ^ 64.

(** What the environment answers to a store that nothing disturbs *)
Definition usual (ds : dir_stat) (ch : choice) : Prop :=
  match ch with
  | Fail _ => False
  | Count n => (0 < n)%nat
  | Wrote n time => (0 < n)%nat /\ word64 time
  | At time => word64 time
  | Node dev ino time => word64 dev /\ word64 ino /\ word64 time
  | DirIs s => s = ds
  | _ => True
  end.

(** Every undisturbed run of a program in process [self] goes on until it returns, and then
    [Q] holds of its result and of the world. *)
Inductive completes {A} (proc_readable : bool) (ds : dir_stat) (self : Z) (Q : A -> world -> Prop) : prog syscall A -> world -> Prop :=
| completes_ret a w : Q a w -> completes proc_readable ds self Q (Ret a) w
| completes_call R (c : syscall R) k w :
    (exists ch r w', usual ds ch /\ exec proc_readable self R c ch w = Some (r, w')) ->
    (forall ch r w', usual ds ch -> exec proc_readable self R c ch w = Some (r, w') -> completes proc_readable ds self Q (k r) w') ->
    completes proc_readable ds self Q (Vis c k) w.

(** Such a run is one of the system. *)
Lemma completes_steps `{StringNumber} `{JsonNumber} linux proc_readable shardSpan ds self Q p w ss i :
  completes proc_readable ds self Q p w -> ss !! i = Some (self, p) ->
  exists last w', rtc (step linux proc_readable shardSpan) (mkSystem w ss) (mkSystem w' (<[i := (self, Ret last)]> ss)) /\ Q last w'.
Proof.
  intros Hc. revert ss. induction Hc as [a w HQ|R c k w (ch & r & w1 & Hu & He) _ IH]; intros ss Hi.
  - exists a, w. by rewrite insert_id.
  - destruct (IH ch r w1 Hu He (<[i := (self, k r)]> ss)) as (last & w2 & Hr & HQ); [by rewrite lookup_insert_eq|].
    exists last, w2. rewrite insert_insert_eq in Hr. split; [|done]. eapply rtc_l; [by eapply step_call|done].
Qed.

Section calm.
Context `{StringNumber} `{JsonNumber} (proc_readable : bool) (ds : dir_stat) (self : Z).

(** The logic of one thread, with the world as its ghost state *)
Definition exec_usual (_ : Z) (R : Type) (c : syscall R) (ch : sig (usual ds)) (w : world) : option (res R * world) :=
  exec proc_readable self R c (proj1_sig ch) w.

Definition only (w : world) (gs : gmap nat world) : Prop := gs = {[0%nat := w]}.

Definition possible (R : Type) (c : syscall R) (w : world) : Prop :=
  exists ch r w', usual ds ch /\ exec proc_readable self R c ch w = Some (r, w').

Notation wpc := (wp exec_usual (fun _ => self) only possible 0%nat).
Notation wpl := (wpb exec_usual (fun _ => self) only possible 0%nat (L := locals)).

Lemma only_insert w w1 w' : only w (<[0%nat := w']> {[0%nat := w1]}) -> w' = w.
Proof. unfold only. rewrite insert_singleton_eq. by intros E%(inj _). Qed.

Lemma upd_only P w : upd (fun _ => self) only 0%nat P w -> P w.
Proof.
  intros Hu. destruct (Hu w {[0%nat := w]}) as (w' & _ & Hw & HP); [by rewrite lookup_singleton_eq|done|].
  by apply only_insert in Hw as ->.
Qed.

Lemma wp_completes {A} (p : prog syscall A) Q w : wpc p Q w -> completes proc_readable ds self Q p w.
Proof.
  revert w. induction p as [a|R c k IH]; intros w Hw; cbn in Hw; apply upd_only in Hw; [by constructor|].
  destruct Hw as [Hp Hk]. constructor; [done|]. intros ch r w' Hu He. apply IH.
  destruct (Hk w {[0%nat := w]} (exist _ ch Hu) r w') as (w1 & _ & Hw & HQ); [by rewrite lookup_singleton_eq|done|done|].
  by apply only_insert in Hw as ->.
Qed.

(** *** Calls *)

Lemma calm_sys {R} (c : syscall R) l Q w : possible R c w ->
  (forall ch r w', usual ds ch -> exec proc_readable self R c ch w = Some (r, w') -> Q r l w') -> wpl (sys c) l Q w.
Proof.
  intros Hp HQ. apply wpb_sys; [done|]. intros w0 gs [ch Hu] r w' Hi HI He. unfold only in HI. subst gs.
  rewrite lookup_singleton_Some in Hi. destruct Hi as [_ ->].
  exists w'. split_and!; [done|unfold only; by rewrite insert_singleton_eq|by eapply HQ].
Qed.

(** A call that nothing but a failure could keep from its answer *)
Lemma calm_answer {R} (c : syscall R) r w' l Q w : (forall ch, usual ds ch -> exec proc_readable self R c ch w = Some (r, w')) -> Q r l w' -> wpl (sys c) l Q w.
Proof.
  intros He HQ. apply calm_sys.
  - exists Succeed, r, w'. split; [done|by apply He].
  - intros ch r1 w1 Hu E. rewrite (He ch Hu) in E. by injection E as <- <-.
Qed.

Ltac answer := apply calm_answer; intros [] Hu; try done; destruct Hu.

Lemma calm_Plain what l Q w : Q (Ok tt) l w -> wpl (sys (Plain what)) l Q w.
Proof. answer. Qed.

Lemma calm_Lstat n l Q w : Q (match file_at n w with Some f => Ok (stat_of f) | None => Throw "ENOENT" end) l w -> wpl (sys (Lstat n)) l Q w.
Proof. answer. Qed.

Lemma calm_Open n l Q w : Q (match w_names w !! n with Some h => Ok h | None => Throw "ENOENT" end) l w -> wpl (sys (Open n)) l Q w.
Proof. answer. Qed.

Lemma calm_Fstat h f l Q w : w_files w !! h = Some f -> Q (Ok (stat_of f)) l w -> wpl (sys (Fstat h)) l Q w.
Proof. intros Hf. apply calm_answer. intros ch Hu. cbn. rewrite Hf. by destruct ch. Qed.

Lemma calm_Opendir l Q w : Q (Ok (elements (dom (w_names w)))) l w -> wpl (sys Opendir) l Q w.
Proof. answer. Qed.

Lemma calm_Unlink n l Q w : n ∈ dom (w_names w) -> Q (Ok tt) l (unlink_name n w) -> wpl (sys (Unlink n)) l Q w.
Proof. intros Hn. apply calm_answer. intros ch Hu. cbn. rewrite bool_decide_eq_true_2 by done. by destruct ch. Qed.

Lemma calm_Kill0 pid l Q w : Q (match w_procs w !! pid with Some _ => Ok tt | None => Throw "ESRCH" end) l w -> wpl (sys (Kill0 pid)) l Q w.
Proof. apply calm_answer. intros ch Hu. cbn. destruct (w_procs w !! pid); [by destruct ch|done]. Qed.

Lemma calm_ReadBoot l Q w : Q (Ok (w_boot w +:+ char_text 10)) l w -> wpl (sys ReadBoot) l Q w.
Proof. answer. Qed.

Lemma calm_CacheGet p l Q w : w_procs w !! self = Some p -> Q (Ok (p_cache p)) l w -> wpl (sys CacheGet) l Q w.
Proof. intros Hp. apply calm_answer. intros ch Hu. cbn. by rewrite Hp. Qed.

Lemma calm_CacheSet x l Q w : Q (Ok tt) l (set_procs (alter (fun p => mkProcess (p_start p) x) self) w) -> wpl (sys (CacheSet x)) l Q w.
Proof. by apply calm_answer. Qed.

Lemma calm_Snapshot l Q w : Q (Ok (w_dir w ++ map (fun n => (n, [])) (elements (dom (w_names w))))) l w -> wpl (sys Snapshot) l Q w.
Proof. answer. Qed.

Lemma calm_CreateShardTemp temp l Q w : temp ∉ (w_dir w).*1 -> Q (Ok tt) l (set_dir (w_dir w ++ [(temp, [])]) w) -> wpl (sys (CreateShardTemp temp)) l Q w.
Proof. intros Hn. apply calm_answer. intros ch Hu. cbn. rewrite bool_decide_eq_false_2 by done. by destruct ch. Qed.

Lemma calm_CreateShardTemp_taken temp l Q w : temp ∈ (w_dir w).*1 -> Q (Throw "EEXIST") l w -> wpl (sys (CreateShardTemp temp)) l Q w.
Proof. intros Hn. apply calm_answer. intros ch Hu. cbn. rewrite bool_decide_eq_true_2 by done. by destruct ch. Qed.

Lemma calm_UnlinkShardTemp temp l Q w : temp ∈ (w_dir w).*1 -> Q (Ok tt) l (set_dir (remove_files [temp] (w_dir w)) w) ->
  wpl (sys (UnlinkShardTemp temp)) l Q w.
Proof. intros Hn. apply calm_answer. intros ch Hu. cbn. rewrite bool_decide_eq_true_2 by done. by destruct ch. Qed.

Lemma calm_RenameShard temp file bytes l Q w : file_of temp (w_dir w) = Some bytes ->
  Q (Ok tt) l (set_dir (put_file file bytes (remove_files [temp] (w_dir w))) w) -> wpl (sys (RenameShard temp file)) l Q w.
Proof. intros Hf. apply calm_answer. intros ch Hu. cbn. rewrite Hf. by destruct ch. Qed.

Ltac chosen := apply calm_sys; [|intros [] r w' Hu He; cbn in He; try done].

Lemma calm_Now l Q w : (forall time, word64 time -> Q (Ok time) l w) -> wpl (sys Now) l Q w.
Proof. intros HQ. chosen; [by exists (At 0), (Ok 0), w|]. injection He as <- <-. by apply HQ. Qed.

Lemma calm_DirStat l Q w : Q (Ok ds) l w -> wpl (sys DirStat) l Q w.
Proof. intros HQ. chosen; [by exists (DirIs ds), (Ok ds), w|]. cbn in Hu. by injection He as <- <-; subst. Qed.

Lemma calm_Read h off cnt f l Q w : w_files w !! h = Some f -> (forall n, (0 < n)%nat -> Q (Ok (take (Nat.min n cnt) (drop off (f_bytes f)))) l w) ->
  wpl (sys (Read h off cnt)) l Q w.
Proof.
  intros Hf HQ. chosen.
  - exists (Count 1). cbn. rewrite Hf. eauto with lia.
  - rewrite Hf in He. injection He as <- <-. by apply HQ.
Qed.

Lemma calm_Readdir l Q w : (forall names, NoDup names -> (forall n, n ∈ names <-> n ∈ dom (w_names w)) -> Q (Ok names) l w) ->
  wpl (sys (Readdir (elements (dom (w_names w))))) l Q w.
Proof.
  intros HQ. chosen.
  - exists (Names (elements (dom (w_names w)))). cbn. rewrite !bool_decide_eq_true_2; [by eauto|apply NoDup_elements|..];
      apply Forall_forall; set_solver.
  - destruct (_ && _ && _) eqn:E; [|done]. injection He as <- <-. bool_prop.
    repeat match goal with X : bool_decide _ = true |- _ => apply bool_decide_eq_true in X end.
    rewrite !Forall_forall in *. apply HQ; [done|]. set_solver.
Qed.

Lemma calm_CreateTemp temp l Q w : (forall dev ino time, word64 dev -> word64 ino -> word64 time ->
    Q (Ok (w_next w)) l (create_file (mkFile [] true dev ino time time) w)) -> wpl (sys (CreateTemp temp)) l Q w.
Proof.
  intros HQ. chosen; [by eexists (Node 0 0 0), _, _|]. destruct Hu as (? & ? & ?). injection He as <- <-. by apply HQ.
Qed.

Lemma calm_Write h bytes l Q w : (forall n time, (0 < n)%nat -> word64 time -> Q (Ok (Nat.min n (length bytes))) l (set_files (alter (fun f =>
    mkFile (f_bytes f ++ take n bytes) (f_regular f) (f_dev f) (f_ino f) time time) h) w)) -> wpl (sys (Write h bytes)) l Q w.
Proof.
  intros HQ. chosen; [eexists (Wrote 1 0), _, _; split; [split; [apply Nat.lt_0_1|done]|reflexivity]|]. destruct Hu. injection He as <- <-. by apply HQ.
Qed.

Lemma calm_Link h n l Q w : n ∉ dom (w_names w) ->
  (forall time, word64 time -> Q (Ok tt) l (set_files (alter (restamp id (fun _ => time)) h) (link_name n h w))) -> wpl (sys (Link h n)) l Q w.
Proof.
  intros Hn HQ. chosen.
  - exists (At 0). cbn. rewrite bool_decide_eq_false_2 by done. eexists _, _. split; [|done]. done.
  - rewrite bool_decide_eq_false_2 in He by done. injection He as <- <-. by apply HQ.
Qed.

Lemma calm_UnlinkTemp h l Q w : (forall time, word64 time -> Q (Ok tt) l (set_files (alter (restamp id (fun _ => time)) h) w)) ->
  wpl (sys (UnlinkTemp h)) l Q w.
Proof. intros HQ. chosen; [by eexists (At 0), _, _|]. injection He as <- <-. by apply HQ. Qed.

Lemma calm_WriteShardTemp temp bytes l Q w : (forall n, (0 < n)%nat -> Q (Ok (Nat.min n (length bytes))) l
    (set_dir (put_file temp (default [] (file_of temp (w_dir w)) ++ take n bytes) (w_dir w)) w)) -> wpl (sys (WriteShardTemp temp bytes)) l Q w.
Proof.
  intros HQ. chosen; [eexists (Wrote 1 0), _, _; split; [split; [apply Nat.lt_0_1|done]|reflexivity]|]. destruct Hu. injection He as <- <-. by apply HQ.
Qed.

Lemma is_field_dec z : is_field (dec z) = true.
Proof.
  pose proof (is_digits_dec z) as Hd. unfold is_digits in Hd. unfold is_field. apply andb_true_iff in Hd as [-> Hd].
  eapply forallb_sub; [|exact Hd]. intros c. by destruct c as [[][][][][][][][]].
Qed.

Lemma calm_ReadStat pid l Q w :
  match w_procs w !! pid with
  | None => Q (Throw "ENOENT") l w
  | Some p => forall comm fields, forallb is_field fields = true -> fields !! 19%nat = Some (dec (p_start p)) ->
      Q (Ok (proc_stat pid comm fields)) l w
  end -> wpl (sys (ReadStat pid)) l Q w.
Proof.
  intros HQ. apply calm_sys.
  - unfold possible. cbn. destruct (w_procs w !! pid) as [p|]; [|by eexists Succeed, _, _].
    eexists (ProcStat "node" (replicate 19 "0"%string ++ [dec (p_start p)])), _, _. split; [done|].
    rewrite bool_decide_eq_true_2 by done. rewrite forallb_app. cbn [forallb]. by rewrite is_field_dec.
  - intros ch r w' Hu He. cbn in He. destruct (w_procs w !! pid) as [p|]; [|by injection He as <- <-].
    destruct ch; try (destruct (proc_readable && _); done).
    destruct (_ && _) eqn:E; [|done]. injection He as <- <-. bool_prop. apply HQ; [done|]. by eapply bool_decide_eq_true.
Qed.

(** Random texts: as long as few were drawn, one is left. *)
Definition TOKENS : Z := 10 ^ 15.

Definition token_text (n : nat) (k : nat) : string := let t := dec (Z.of_nat k) in pad_zeros (n - String.length t) t.

Lemma token_text_hex n k : (16 <= n)%nat -> Z.of_nat k <= TOKENS -> is_hex_digits n (token_text n k) = true.
Proof.
  intros Hn Hk. unfold is_hex_digits, token_text. set (t := dec _). assert (String.length t <= 16)%nat as Hl.
  { apply dec_length; [|lia]. unfold TOKENS in Hk. change (Z.of_nat 16) with 16. lia. }
  rewrite pad_length. replace (n - String.length t + String.length t)%nat with n by lia. rewrite Nat.eqb_refl.
  eapply (forallb_sub is_digit); [|by rewrite pad_digits; apply dec_digits]. intros c. by destruct c as [[][][][][][][][]].
Qed.

Lemma token_text_inj n a b : token_text n a = token_text n b -> a = b.
Proof.
  intros E. apply (f_equal digits_value) in E. unfold token_text in E. rewrite !digits_pad, !digits_dec in E by lia. lia.
Qed.

Lemma fresh_token n (T : gset string) : (16 <= n)%nat -> Z.of_nat (size T) < TOKENS -> exists t, is_hex_digits n t = true /\ t ∉ T.
Proof.
  intros Hn HT. set (L := token_text n <$> seq 0 (S (size T))).
  destruct (decide (Forall (fun t => t ∈ T) L)) as [Hall|Hno].
  - exfalso. assert (list_to_set L ⊆ T) as Hs by (rewrite Forall_forall in Hall; set_solver).
    apply subseteq_size in Hs. rewrite size_list_to_set in Hs.
    + unfold L in Hs. rewrite length_fmap, length_seq in Hs. lia.
    + apply NoDup_fmap_2_strong; [|apply NoDup_seq]. intros a b _ _. apply token_text_inj.
  - apply not_Forall_Exists in Hno; [|apply _]. apply Exists_exists in Hno as (t & Ht & Hnt). exists t. split; [|done].
    unfold L in Ht. apply list_elem_of_fmap in Ht as (k & -> & Hk%elem_of_seq). apply token_text_hex; lia.
Qed.

Lemma calm_Random n l Q w : (8 <= n)%nat -> Z.of_nat (size (w_tokens w)) < TOKENS ->
  (forall t, is_hex_digits (2 * n) t = true -> t ∉ w_tokens w -> Q (Ok t) l (draw_token t w)) -> wpl (sys (Random n)) l Q w.
Proof.
  intros Hn HT HQ. destruct (fresh_token (2 * n) (w_tokens w)) as (t & Hx & Ht); [lia|done|]. chosen.
  - eexists (Token t), _, _. split; [done|]. cbn -[is_hex_digits Nat.mul]. rewrite Hx, bool_decide_eq_false_2 by done. done.
  - destruct (_ && _) eqn:E; [|done]. injection He as <- <-. bool_prop. apply HQ; [done|]. by eapply bool_decide_eq_false.
Qed.
End calm.
