(* ===== verification/ReceiptLockLive.v ===== *)
(** * Undisturbed appends run to their end

    An append of a store that nothing disturbs, in a directory at rest: every claim that is
    there belongs to a process that is gone, or was released.  It removes these claims, takes
    the lock, publishes and gives the lock back, and the directory is at rest again.  So no
    crash can leave the lock in a state that keeps the next process out. *)

From Stdlib Require Import Ascii.
From S2P Require Import Prelude Js JsText CanonicalJson Sha256 JsConvert JsonParse TextLines NodeBuffer.
From S2P Require Import Receipts ReceiptsSafety Interleave ReceiptLock ReceiptLockLogic ReceiptLockSpecs ReceiptLockCalm ReceiptLockDrops ReceiptLockShards.

(** ** Records *)

Lemma same_stamp_refl s : receiptSameStampV1 s s = true.
Proof. unfold receiptSameStampV1. by rewrite !String.eqb_refl, Z.eqb_refl. Qed.

Lemma printable_int z : 0 <= z <= MAX_SAFE_INTEGER -> printable (jint z) = true.
Proof. intros Hz. cbn [printable jint]. apply bool_decide_eq_true. exists z. apply as_safe_integer_Some. split; [done|lia]. Qed.

Lemma pid_range pid : is_pid pid = true -> 0 < pid <= MAX_SAFE_INTEGER.
Proof. unfold is_pid. rewrite andb_true_iff, Z.ltb_lt, Z.leb_le. done. Qed.

(** A stamp of a file *)
Definition stamp_ok (s : ReceiptFileStampV1) : Prop :=
  is_digits (fs_dev s) = true /\ is_digits (fs_ino s) = true /\ 0 <= fs_size s <= MAX_SAFE_INTEGER /\
  is_digits (fs_mtimeNs s) = true /\ is_digits (fs_ctimeNs s) = true.

Section records.
Context `{StringNumber} `{JsonNumber}.

Lemma checkClaim_json pid instance t dev ino s : is_pid pid = true -> instance <> EmptyString -> is_token t = true ->
  checkClaim (mkAuthority dev ino) (appendLockClaimNameV1 t) (claim_json pid instance t dev ino) s =
  Ok (mkClaim pid instance t (dec dev) (dec ino) (appendLockClaimNameV1 t) s).
Proof.
  intros Hp%pid_range Hi Ht. unfold checkClaim. change (receiptExactKeysV1 _ claim_keys) with true. cbn [negb throw_if mbind res_bind].
  change ((claim_json pid instance t dev ino).@"token") with (JStr t).
  change ((claim_json pid instance t dev ino).@"pid") with (jint pid).
  change ((claim_json pid instance t dev ino).@"process_instance") with (JStr instance).
  change ((claim_json pid instance t dev ino).@"marker") with (JStr RECEIPT_APPEND_LOCK_CLAIM_V1).
  change ((claim_json pid instance t dev ino).@"version") with (jint 1).
  change ((claim_json pid instance t dev ino).@"directory_dev") with (JStr (dec dev)).
  change ((claim_json pid instance t dev ino).@"directory_ino") with (JStr (dec ino)).
  assert (falsy (JStr t) = false) as -> by (by destruct t).
  rewrite (proj2 (as_safe_integer_Some (jint pid) pid)) by (split; [done|lia]). cbn [js_String mbind res_bind].
  rewrite (proj2 (Z.leb_gt pid 0)), (proj2 (String.eqb_neq instance EmptyString)), Ht, String.eqb_refl by (done || lia).
  cbn. rewrite !String.eqb_refl. done.
Qed.

Lemma parse_release c : is_pid (c_pid c) = true -> stamp_ok (c_stamp c) -> parse_bytes (record_bytes (release_json c)) = Some (release_json c).
Proof.
  intros Hp%pid_range (_ & _ & Hs & _ & _). unfold parse_bytes, record_bytes. rewrite from_to_utf8. apply parse_stringify_line; [|done].
  unfold textual. apply andb_true_iff. split; [|by vm_compute].
  unfold release_json, stamp_json. cbn [printable forallb snd]. fold (jint (c_pid c)). 
  rewrite (printable_int (c_pid c)), (printable_int (fs_size (c_stamp c))) by lia. done.
Qed.

Lemma valid_stamp s : stamp_ok s -> receiptValidStampV1 (stamp_json s) = Some s.
Proof.
  intros (H1 & H2 & H3 & H4 & H5). unfold receiptValidStampV1. change (receiptExactKeysV1 (stamp_json s) _) with true. cbn iota.
  change ((stamp_json s).@"dev") with (JStr (fs_dev s)). change ((stamp_json s).@"ino") with (JStr (fs_ino s)).
  change ((stamp_json s).@"size") with (jint (fs_size s)). change ((stamp_json s).@"mtimeNs") with (JStr (fs_mtimeNs s)).
  change ((stamp_json s).@"ctimeNs") with (JStr (fs_ctimeNs s)). rewrite safe_least_int by lia. rewrite H1, H2, H4, H5. by destruct s.
Qed.

Lemma checkRelease_json c : is_pid (c_pid c) = true -> stamp_ok (c_stamp c) -> checkRelease c (release_json c) = Ok tt.
Proof.
  intros Hp Hs. unfold checkRelease. change (receiptExactKeysV1 _ release_keys) with true.
  change ((release_json c).@"claim_stamp") with (stamp_json (c_stamp c)). rewrite valid_stamp, same_stamp_refl by done.
  change ((release_json c).@"pid") with (jint (c_pid c)). change ((release_json c).@"marker") with (JStr RECEIPT_APPEND_LOCK_RELEASE_V1).
  change ((release_json c).@"version") with (jint 1). change ((release_json c).@"process_instance") with (JStr (c_process_instance c)).
  change ((release_json c).@"token") with (JStr (c_token c)). cbn. by rewrite !String.eqb_refl, Z.eqb_refl.
Qed.
End records.

Lemma release_name_inj t t' : appendLockReleaseNameV1 t = appendLockReleaseNameV1 t' -> t = t'.
Proof. intros E. apply (inj (String.append ".receipts-append-release-")) in E. by apply sapp_inj_r in E. Qed.

(** *** Sizes *)

Lemma dec_word64 z : word64 z -> (String.length (dec z) <= 20)%nat.
Proof. unfold word64. intros Hz. apply dec_length; [|lia]. change (Z.of_nat 20) with 20. lia. Qed.

Definition fits (bytes : list Z) : Prop := 0 < size_of bytes <= RECEIPT_APPEND_LOCK_CLAIM_MAX_BYTES_V1.

Lemma record_fits v : printable v = true -> (String.length (print v) <= 4000)%nat -> fits (record_bytes v).
Proof.
  intros Hp Hl. unfold record_bytes. rewrite stringify_print by done. unfold default, id. cbn [from_option].
  pose proof (utf8_length (print v +:+ char_text 10)) as Hu. rewrite length_sapp in Hu. change (String.length (char_text 10)) with 1%nat in Hu.
  unfold fits, size_of, RECEIPT_APPEND_LOCK_CLAIM_MAX_BYTES_V1. split; [|lia].
  rewrite utf8_app, length_app. change (length (utf8_bytes (char_text 10))) with 1%nat. lia.
Qed.

Lemma quote_length s n : (String.length s <= n)%nat -> (String.length (json_quote s) <= 6 * n + 2)%nat.
Proof.
  intros Hs. unfold json_quote. cbn [String.length]. rewrite length_sapp. change (String.length (char_text 34)) with 1%nat.
  pose proof (escape_length s). lia.
Qed.

(** The length of an object is that of its fields. *)
Lemma object_length fs : (String.length (print (JObj fs)) <= 2 + list_sum (map (fun f => 6 * String.length f.1 + 4 + String.length (print f.2)) fs))%nat.
Proof.
  cbn [print]. rewrite !length_sapp. change (String.length "{") with 1%nat. change (String.length "}") with 1%nat.
  enough (forall l, (String.length (join_tail (map (fun f => field_text (f.1, print f.2)) l)) <=
    list_sum (map (fun f : string * json => 6 * String.length f.1 + 4 + String.length (print f.2)) l))%nat) as Ht.
  { destruct fs as [|f fs]; [cbn; lia|]. pose proof (Ht (f :: fs)) as Hf. cbn [map join_tail join_comma] in *. rewrite !length_sapp in Hf.
    rewrite length_sapp. change (String.length ",") with 1%nat in Hf. lia. }
  induction l as [|f l IH]; [cbn; lia|]. cbn [map join_tail]. rewrite !length_sapp. change (String.length ",") with 1%nat.
  unfold field_text at 1. cbn [fst snd]. rewrite !length_sapp. pose proof (quote_length f.1 (String.length f.1) (le_n _)).
  unfold list_sum in *. cbn [foldr].   change (String.length ":") with 1%nat. lia.
Qed.

Lemma instance_length boot start : is_boot_id boot = true -> word64 start -> (String.length (instance_text boot start) <= 63)%nat.
Proof.
  unfold is_boot_id. rewrite andb_true_iff, Nat.eqb_eq. intros [Hb _] Hs%dec_word64. unfold instance_text. rewrite !length_sapp, Hb.
  change (String.length "linux:") with 6%nat. change (String.length ":") with 1%nat. lia.
Qed.

Ltac quoted s n := pose proof (quote_length s n ltac:(done || lia)).

Lemma claim_fits pid instance t dev ino : is_pid pid = true -> (String.length instance <= 63)%nat -> is_token t = true ->
  word64 dev -> word64 ino -> fits (record_bytes (claim_json pid instance t dev ino)).
Proof.
  intros Hp%pid_range Hi Ht%hex_digits_length Hd%dec_word64 Hn%dec_word64. unfold claim_json. apply record_fits.
  - cbn [printable forallb snd]. by rewrite (printable_int pid) by lia.
  - etrans; [apply object_length|]. cbn [map fst snd print jint]. pose proof (int_length pid ltac:(lia)). quoted instance 63%nat.
    quoted t 32%nat. quoted (dec dev) 20%nat. quoted (dec ino) 20%nat. quoted RECEIPT_APPEND_LOCK_CLAIM_V1 33%nat.
    change (String.length (int_text 1)) with 1%nat. unfold list_sum. cbn [foldr String.length]. lia.
Qed.

Lemma stamp_length s : stamp_ok s -> Forall (fun x => String.length x <= 20)%nat [fs_dev s; fs_ino s; fs_mtimeNs s; fs_ctimeNs s] ->
  (String.length (print (stamp_json s)) <= 800)%nat.
Proof.
  intros (_ & _ & Hs & _) Hl. rewrite !Forall_cons in Hl. destruct Hl as (H1 & H2 & H3 & H4 & _). unfold stamp_json.
  etrans; [apply object_length|]. cbn [map fst snd print jint]. pose proof (int_length (fs_size s) Hs). quoted (fs_dev s) 20%nat.
  quoted (fs_ino s) 20%nat. quoted (fs_mtimeNs s) 20%nat. quoted (fs_ctimeNs s) 20%nat. unfold list_sum. cbn [foldr String.length]. lia.
Qed.

Lemma release_fits c : is_pid (c_pid c) = true -> (String.length (c_process_instance c) <= 63)%nat -> is_token (c_token c) = true ->
  stamp_ok (c_stamp c) -> (String.length (print (stamp_json (c_stamp c))) <= 800)%nat -> fits (record_bytes (release_json c)).
Proof.
  intros Hp%pid_range Hi Ht%hex_digits_length Hs Hl. pose proof Hs as (_ & _ & Hz & _). unfold release_json. apply record_fits.
  - unfold stamp_json. cbn [printable forallb snd]. by rewrite (printable_int (c_pid c)), (printable_int (fs_size (c_stamp c))) by lia.
  - etrans; [apply object_length|]. remember (stamp_json (c_stamp c)) as sj. cbn [map fst snd print jint]. pose proof (int_length (c_pid c) ltac:(lia)).
    quoted (c_process_instance c) 63%nat. quoted (c_token c) 32%nat. quoted RECEIPT_APPEND_LOCK_RELEASE_V1 35%nat.
    change (String.length (int_text 1)) with 1%nat. unfold list_sum. cbn [foldr String.length]. lia.
Qed.

(** ** Directories at rest *)

Definition set_names (N : gmap string nat) (w : world) : world :=
  mkWorld (w_boot w) (w_procs w) N (w_files w) (w_next w) (w_ever w) (w_tokens w) (w_dir w) (w_removed w).

Definition good_file (f : file) : Prop :=
  f_regular f = true /\ word64 (f_dev f) /\ word64 (f_ino f) /\ word64 (f_mtimeNs f) /\ word64 (f_ctimeNs f).

Section rest.
Context (ds : dir_stat).

(** The claim of [t] is in the directory, and says that [instance] of process [pid] made it. *)
Record claim_file (w : world) (t : string) (pid : Z) (instance : string) (h : nat) (f : file) : Prop := mkClaimFile {
  cf_name : w_names w !! appendLockClaimNameV1 t = Some h;
  cf_file : w_files w !! h = Some f;
  cf_regular : f_regular f = true;
  cf_bytes : f_bytes f = record_bytes (claim_json pid instance t (ds_dev ds) (ds_ino ds));
  cf_fits : fits (f_bytes f);
  cf_token : is_token t = true;
  cf_pid : is_pid pid = true;
  cf_instance : instance <> EmptyString
}.

Definition claim_of (t : string) (pid : Z) (instance : string) (f : file) : ReceiptAppendLockClaimV1 :=
  mkClaim pid instance t (dec (ds_dev ds)) (dec (ds_ino ds)) (appendLockClaimNameV1 t) (receiptFileStampV1 (stat_of f)).

(** The release of a claim is in the directory. *)
Record release_file (w : world) (c : ReceiptAppendLockClaimV1) (h : nat) (f : file) : Prop := mkReleaseFile {
  rf_name : w_names w !! appendLockReleaseNameV1 (c_token c) = Some h;
  rf_file : w_files w !! h = Some f;
  rf_regular : f_regular f = true;
  rf_bytes : f_bytes f = record_bytes (release_json c);
  rf_fits : fits (f_bytes f)
}.

(** The process [pid] has ended, or another one has its number. *)
Definition gone (w : world) (pid : Z) (instance : string) : Prop :=
  forall p, w_procs w !! pid = Some p -> instance_text (w_boot w) (p_start p) <> instance.

(** A claim of a process that is gone, or one that was released *)
Definition abandoned (w : world) (t : string) : Prop := exists pid instance h f, claim_file w t pid instance h f /\
  ((w_names w !! appendLockReleaseNameV1 t = None /\ gone w pid instance) \/ exists h' f', release_file w (claim_of t pid instance f) h' f').

(** What every world satisfies that process [self], started at [start], runs in *)
Record running (self start : Z) (w : world) : Prop := mkRunning {
  ru_boot : is_boot_id (w_boot w) = true;
  ru_names : forall n h, w_names w !! n = Some h -> (h < w_next w)%nat;
  ru_lock : forall n, n ∈ dom (w_names w) -> is_shard_name n = false;
  ru_tokens : forall t, appendLockClaimNameV1 t ∈ dom (w_names w) \/ appendLockReleaseNameV1 t ∈ dom (w_names w) -> t ∈ w_tokens w;
  ru_proc : exists cache, w_procs w !! self = Some (mkProcess start cache) /\ (cache = EmptyString \/ cache = instance_text (w_boot w) start)
}.

(** All claims in the directory are abandoned. *)
Definition at_rest (w : world) : Prop :=
  forall n, n ∈ dom (w_names w) -> is_claim_name n = true -> exists t, n = appendLockClaimNameV1 t /\ abandoned w t.

Lemma stamp_of_file f : fits (f_bytes f) -> stamp_ok (receiptFileStampV1 (stat_of f)).
Proof.
  unfold fits, RECEIPT_APPEND_LOCK_CLAIM_MAX_BYTES_V1. intros Hf. unfold stamp_ok, receiptFileStampV1. cbn. rewrite !is_digits_dec.
  split_and!; try done; unfold MAX_SAFE_INTEGER; lia.
Qed.

Lemma running_names self start N w : N ⊆ w_names w -> running self start w -> running self start (set_names N w).
Proof.
  intros HN [H1 H2 Hs H3 H4]. split; [done| | | |done]; cbn.
  - intros n h Hn. eapply H2, lookup_weaken; done.
  - intros n Hn. apply Hs. by apply (subseteq_dom _ _ HN).
  - intros t Ht. apply H3. apply subseteq_dom in HN. set_solver.
Qed.

Lemma claim_file_names N w t pid instance h f : N !! appendLockClaimNameV1 t = w_names w !! appendLockClaimNameV1 t ->
  claim_file w t pid instance h f -> claim_file (set_names N w) t pid instance h f.
Proof. intros E [C1 C2 C3 C4 C5 C6 C7 C8]. split; try done. cbn. by rewrite E. Qed.

Lemma abandoned_names N w t : N !! appendLockClaimNameV1 t = w_names w !! appendLockClaimNameV1 t ->
  N !! appendLockReleaseNameV1 t = w_names w !! appendLockReleaseNameV1 t -> abandoned w t -> abandoned (set_names N w) t.
Proof.
  intros Ec Er (pid & instance & h & f & Hc & Ho). exists pid, instance, h, f. split; [by apply claim_file_names|].
  destruct Ho as [[Hn Hg]|(h' & f' & [R1 R2 R3 R4 R5])]; [left; split; [cbn; by rewrite Er|done]|].
  right. exists h', f'. split; try done. cbn. rewrite <- R1. exact Er.
Qed.
End rest.

(** ** Functions *)

Section live.
Context `{StringNumber} `{JsonNumber} (proc_readable : bool) (ds : dir_stat) (self start shardSpan : Z).
Context (Hdir : ds_directory ds = true) (Hself : is_pid self = true) (Hstart : word64 start) (Hdev : word64 (ds_dev ds)) (Hino : word64 (ds_ino ds)).

Notation wpl := (wpb (exec_usual proc_readable ds self) (fun _ => self) only (possible proc_readable ds self) 0%nat (L := locals)).
Notation authority := (mkAuthority (ds_dev ds) (ds_ino ds)).

Lemma calm_guard {B} b msg (k : unit -> io B) l Q w : b = false -> wpl (k tt) l Q w -> wpl (lift (throw_if b msg) ≫= k) l Q w.
Proof using. intros -> Hk. by apply wpb_bind, wpb_lift. Qed.

Lemma calm_assert l Q w : Q (Ok tt) l w -> wpl (assertDirectoryAuthorityV1 authority) l Q w.
Proof using Hdir.
  intros HQ. unfold assertDirectoryAuthorityV1. apply wpb_bind, calm_DirStat, wpb_bind, calm_DirStat, wpb_lift. cbn.
  by rewrite Hdir, !Z.eqb_refl.
Qed.

Lemma calm_readLoop fuel h f bytes rest l Q w : w_files w !! h = Some f -> f_bytes f = bytes ++ rest -> (length rest <= fuel)%nat ->
  Q (Ok (f_bytes f)) l w -> wpl (readLoop fuel h (length (f_bytes f)) bytes) l Q w.
Proof using.
  intros Hf. revert bytes rest. induction fuel as [|fuel IH]; intros bytes rest Eb Hl HQ; cbn [readLoop].
  - destruct rest; [|cbn in Hl; lia]. rewrite app_nil_r in Eb. rewrite <- Eb. by apply wpb_ret.
  - destruct (Nat.ltb_spec (length bytes) (length (f_bytes f))) as [Hlt|Hge].
    + apply wpb_bind, (calm_Read _ _ _ _ _ _ f); [done|]. intros n Hn. replace (drop (length bytes) (f_bytes f)) with rest by (by rewrite Eb, drop_app_length).
      destruct rest as [|c rest]; [rewrite Eb, app_nil_r in Hlt; lia|].
      destruct (Nat.min n _) as [|m] eqn:Em; [lia|]. cbn [take]. apply (IH _ (drop m rest)); [|cbn in Hl; rewrite length_drop; lia|done].
      rewrite Eb, <- app_assoc. cbn. by rewrite take_drop.
    + apply wpb_ret. destruct rest; [by rewrite app_nil_r in Eb; rewrite <- Eb|]. rewrite Eb, length_app in Hge. cbn in Hge. lia.
Qed.

Lemma calm_json n h f v l Q w : w_names w !! n = Some h -> w_files w !! h = Some f -> f_regular f = true -> fits (f_bytes f) ->
  parse_bytes (f_bytes f) = Some v -> Q (Ok (v, receiptFileStampV1 (stat_of f))) l w -> wpl (readAppendLockJsonV1 n) l Q w.
Proof using.
  intros Hn Hf Hr Hs Hp HQ. unfold fits in Hs. assert (file_at n w = Some f) as Ha by (unfold file_at; by rewrite Hn).
  unfold readAppendLockJsonV1. apply wpb_bind, calm_Lstat. rewrite Ha. apply calm_guard; [cbn; by rewrite Hr|].
  apply calm_guard; [cbn; apply orb_false_iff; split; [apply Z.leb_gt|apply Z.ltb_ge]; lia|]. apply wpb_bind, calm_Open. rewrite Hn.
  apply wpb_finally. unfold readOpened. apply wpb_bind, (calm_Fstat _ _ _ _ f); [done|]. apply calm_guard; [by rewrite same_stamp_refl|].
  apply wpb_bind. cbn [sa_size stat_of]. unfold size_of. rewrite Nat2Z.id. apply (calm_readLoop _ _ _ [] (f_bytes f)); [done|done|done|].
  apply calm_guard; [by rewrite Nat.eqb_refl|]. apply wpb_bind, (calm_Fstat _ _ _ _ f); [done|]. apply wpb_bind, calm_Lstat. rewrite Ha.
  apply calm_guard; [by rewrite same_stamp_refl|]. rewrite Hp. by apply wpb_ret, calm_Plain.
Qed.

Lemma calm_readClaim t pid instance h f l Q w : claim_file ds w t pid instance h f -> Q (Ok (claim_of ds t pid instance f)) l w ->
  wpl (readAppendLockClaimV1 authority (appendLockClaimNameV1 t)) l Q w.
Proof using.
  intros [C1 C2 C3 C4 C5 C6 C7 C8] HQ. unfold readAppendLockClaimV1. apply wpb_bind.
  apply (calm_json _ h f (claim_json pid instance t (ds_dev ds) (ds_ino ds))); [done..|rewrite C4; by apply parse_claim|].
  apply wpb_lift. by rewrite checkClaim_json.
Qed.

Lemma calm_noRelease c l Q w : w_names w !! appendLockReleaseNameV1 (c_token c) = None -> Q (Ok None) l w -> wpl (readAppendLockReleaseV1 c) l Q w.
Proof using.
  intros Hn HQ. unfold readAppendLockReleaseV1. apply wpb_bind, wpb_try, wpb_bind. unfold readAppendLockJsonV1.
  apply wpb_bind, calm_Lstat. unfold file_at. rewrite Hn. cbn [mbind option_bind]. cbv beta iota. change (String.eqb "ENOENT" "ENOENT") with true. by apply wpb_ret, wpb_ret.
Qed.

Lemma calm_readRelease c h f l Q w : release_file w c h f -> is_pid (c_pid c) = true -> stamp_ok (c_stamp c) ->
  Q (Ok (Some (mkRelease (appendLockReleaseNameV1 (c_token c)) (receiptFileStampV1 (stat_of f))))) l w -> wpl (readAppendLockReleaseV1 c) l Q w.
Proof using.
  intros [R1 R2 R3 R4 R5] Hp Hs HQ. unfold readAppendLockReleaseV1. apply wpb_bind, wpb_try, wpb_bind.
  apply (calm_json _ h f (release_json c)); [done..|rewrite R4; by apply parse_release|]. apply wpb_ret, wpb_bind, wpb_lift.
  rewrite checkRelease_json by done. by apply wpb_ret.
Qed.

Lemma calm_remove n h f l Q w : w_names w !! n = Some h -> w_files w !! h = Some f -> f_regular f = true -> Q (Ok true) l (unlink_name n w) ->
  wpl (removeObservedAppendLockRecordV1 authority n (receiptFileStampV1 (stat_of f))) l Q w.
Proof using Hdir.
  intros Hn Hf Hr HQ. unfold removeObservedAppendLockRecordV1. apply wpb_bind, wpb_try, wpb_bind, calm_Lstat. unfold file_at. rewrite Hn. cbn [mbind option_bind].
  rewrite Hf. apply wpb_ret. cbn [sa_regular stat_of]. rewrite Hr, same_stamp_refl. cbn [negb orb]. apply wpb_try, wpb_bind, calm_Unlink.
  { apply elem_of_dom. by exists h. }
  apply wpb_bind, calm_Plain, wpb_bind, calm_assert. by apply wpb_ret.
Qed.

(** *** The search for claims *)

(** The instance that [/proc] gives of a process that is gone is not that of its claim. *)
Lemma calm_gone c l Q w : is_boot_id (w_boot w) = true -> is_pid (c_pid c) = true -> gone w (c_pid c) (c_process_instance c) ->
  Q (Ok stale) l w -> wpl (appendLockClaimStateV1 true self c) l Q w.
Proof using.
  intros Hb Hp Hg HQ. unfold appendLockClaimStateV1, receiptPidAliveV1. rewrite Hp. apply wpb_bind, wpb_try, wpb_bind, calm_Kill0.
  destruct (w_procs w !! c_pid c) as [p|] eqn:Ep; [|by apply wpb_ret, wpb_ret]. apply wpb_ret, wpb_bind. unfold receiptLinuxProcessInstanceV1.
  rewrite Hp. cbn [negb orb]. apply wpb_try, wpb_bind, calm_ReadBoot, wpb_bind, calm_ReadStat. rewrite Ep. intros comm fields Hf Hs.
  apply wpb_ret. rewrite (instance_of_proc _ _ _ _ (p_start p)) by done. apply wpb_ret.
  by rewrite (proj2 (String.eqb_neq _ _) (Hg p Ep)).
Qed.

Definition free (l : locals) : Prop := locallyReleasedAppendClaimV1 l = None /\ locallyUnconfirmedAppendClaimV1 l = None.

(** An abandoned claim is removed, with its release. *)
Lemma calm_claimBlocks t l Q w : free l -> is_boot_id (w_boot w) = true -> abandoned ds w t ->
  (forall N, N ⊆ w_names w -> N !! appendLockClaimNameV1 t = None ->
    (forall n, n <> appendLockClaimNameV1 t -> n <> appendLockReleaseNameV1 t -> N !! n = w_names w !! n) -> Q (Ok false) l (set_names N w)) ->
  wpl (claimBlocks true self authority (appendLockClaimNameV1 t)) l Q w.
Proof using Hdir.
  intros [Hl1 Hl2] Hb (pid & instance & h & f & Hc & Ho) HQ. pose proof Hc as [C1 C2 C3 C4 C5 C6 C7 C8]. unfold claimBlocks.
  apply wpb_bind, wpb_try, wpb_bind, (calm_readClaim t pid instance h f); [done|]. apply wpb_bind.
  assert (delete (appendLockClaimNameV1 t) (w_names w) ⊆ w_names w) as Hsub by apply delete_subseteq.
  destruct Ho as [[Hn Hg]|(h' & f' & Hr)].
  - apply calm_noRelease; [done|]. apply wpb_ret, wpb_bind, wpb_fields. unfold sameLocallyReleasedAppendClaimV1, sameLocallyUnconfirmedAppendClaimV1.
    rewrite Hl1, Hl2. apply wpb_bind, calm_gone; [done|done|done|]. apply wpb_bind, (calm_remove _ h); [done|done|done|]. apply wpb_ret.
    apply (HQ (delete (appendLockClaimNameV1 t) (w_names w))); [done|by rewrite lookup_delete_eq|]. intros n Hne _. by rewrite lookup_delete_ne.
  - pose proof Hr as [R1 R2 R3 R4 R5]. apply (calm_readRelease _ h' f'); [done|done|by apply stamp_of_file|]. apply wpb_ret, wpb_bind, (calm_remove _ h); [done|done|done|].
    apply wpb_bind, (calm_remove _ h'); [|done|done|].
    { cbn. rewrite lookup_delete_ne; [done|apply claim_not_release]. }
    apply wpb_bind, wpb_assign. unfold sameLocallyReleasedAppendClaimV1. rewrite Hl1. apply wpb_ret.
    apply (HQ (delete (appendLockReleaseNameV1 t) (delete (appendLockClaimNameV1 t) (w_names w)))).
    + etrans; [apply delete_subseteq|done].
    + rewrite lookup_delete_ne by (apply not_eq_sym, claim_not_release). by rewrite lookup_delete_eq.
    + intros n H1 H2. by rewrite !lookup_delete_ne.
Qed.

Lemma calm_blockedNames own names l Q w : free l -> is_boot_id (w_boot w) = true -> NoDup names ->
  (forall n, n ∈ names -> own = Some n \/ exists t, n = appendLockClaimNameV1 t /\ abandoned ds w t) ->
  (forall N, N ⊆ w_names w -> (forall n, n ∈ names -> own = Some n \/ N !! n = None) ->
    (forall t, own = Some (appendLockClaimNameV1 t) \/ appendLockClaimNameV1 t ∉ names ->
      N !! appendLockClaimNameV1 t = w_names w !! appendLockClaimNameV1 t /\ N !! appendLockReleaseNameV1 t = w_names w !! appendLockReleaseNameV1 t) ->
    Q (Ok false) l (set_names N w)) ->
  wpl (blockedNames true self authority own names false) l Q w.
Proof using Hdir.
  intros Hl. revert w. induction names as [|n names IH]; intros w Hb Hnd Hall HQ; cbn [blockedNames].
  { apply wpb_ret. destruct w as [b P N F x e T d]. apply (HQ N); [done|by intros n ?%elem_of_nil|done]. }
  apply NoDup_cons in Hnd as [Hn Hnd]. case_bool_decide as Eo.
  { apply IH; [done|done|intros m Hm; apply Hall; by right|]. intros N HN H1 H2. apply HQ; [done|..].
    - intros m [->|Hm]%elem_of_cons; [by left|by apply H1].
    - intros t Ht. apply H2. destruct Ht as [?|Ht%not_elem_of_cons]; [by left|]. right. apply Ht. }
  destruct (Hall n) as [?|(t & -> & Ha)]; [by left|done|]. apply wpb_bind, calm_claimBlocks; [done|done|done|]. intros N HN H1 H2. cbn [orb].
  assert (forall t', t' <> t -> appendLockClaimNameV1 t' <> appendLockClaimNameV1 t /\ appendLockClaimNameV1 t' <> appendLockReleaseNameV1 t /\
    appendLockReleaseNameV1 t' <> appendLockClaimNameV1 t /\ appendLockReleaseNameV1 t' <> appendLockReleaseNameV1 t) as Hne.
  { intros t' Ht. split_and!; [by intros ?%claim_name_inj|apply claim_not_release|apply not_eq_sym, claim_not_release|by intros ?%release_name_inj]. }
  assert (forall t', t' <> t -> N !! appendLockClaimNameV1 t' = w_names w !! appendLockClaimNameV1 t' /\
    N !! appendLockReleaseNameV1 t' = w_names w !! appendLockReleaseNameV1 t') as Hsame by (intros t' Ht; destruct (Hne t' Ht) as (? & ? & ? & ?); auto).
  apply IH; [done|done|..].
  - intros m Hm. destruct (Hall m) as [?|(t' & -> & Ha')]; [by right|by left|]. right. exists t'. split; [done|].
    destruct (Hsame t') as [E1 E2]; [by intros ->|]. by apply abandoned_names.
  - intros N' HN' H1' H2'. cbn [w_names set_names] in *. change (set_names N' (set_names N w)) with (set_names N' w). apply HQ.
    + by etrans.
    + intros m [->|Hm]%elem_of_cons; [right; by eapply lookup_weaken_None|by apply H1'].
    + intros t' Ht'. assert (t' <> t) as Hd.
      { intros ->. destruct Ht' as [?|Hx]; [done|]. apply Hx. by left. }
      destruct (Hsame t' Hd) as [E1 E2]. destruct (H2' t') as [E3 E4]; [destruct Ht' as [?|Hx%not_elem_of_cons]; [by left|right; apply Hx]|]. by rewrite E3, E4.
Qed.

(** The search leaves no claim but the store's own. *)
Lemma calm_appendLockBlockedV1 own l Q w : free l -> is_boot_id (w_boot w) = true ->
  (forall n, n ∈ dom (w_names w) -> is_claim_name n = true -> own = Some n \/ exists t, n = appendLockClaimNameV1 t /\ abandoned ds w t) ->
  (forall N, N ⊆ w_names w -> (forall n, n ∈ dom N -> is_claim_name n = true -> own = Some n) ->
    (forall t, own = Some (appendLockClaimNameV1 t) ->
      N !! appendLockClaimNameV1 t = w_names w !! appendLockClaimNameV1 t /\ N !! appendLockReleaseNameV1 t = w_names w !! appendLockReleaseNameV1 t) ->
    Q (Ok false) l (set_names N w)) ->
  wpl (appendLockBlockedV1 true self authority own) l Q w.
Proof using Hdir.
  intros Hl Hb Hall HQ. unfold appendLockBlockedV1. apply wpb_bind, calm_Opendir, wpb_bind, calm_Readdir. intros names Hnd Hnames.
  assert (forall n, n ∈ isort str_leb (List.filter is_claim_name names) <-> n ∈ dom (w_names w) /\ is_claim_name n = true) as Hin.
  { intros n. by rewrite isort_perm, list_filter_elem, Hnames. }
  apply calm_blockedNames; [done|done|rewrite isort_perm; by apply list_filter_NoDup|intros n [Hn1 Hn2]%Hin; by apply Hall|].
  intros N HN H1 H2. apply HQ; [done| |intros t Ht; apply H2; by left]. intros n Hn Hc. apply elem_of_dom in Hn as [h Hh].
  destruct (H1 n) as [?|E]; [|done|congruence]. apply Hin. split; [|done]. apply elem_of_dom. exists h. by eapply lookup_weaken.
Qed.

(** *** The own instance *)

Definition instance (w : world) : string := instance_text (w_boot w) start.

(** The processes of [w] and of [w'] differ in what they have cached. *)
Definition same_procs (P P' : gmap Z process) : Prop := forall pid, p_start <$> P !! pid = p_start <$> P' !! pid.

Lemma calm_current_instance l Q w : running self start w ->
  (forall P, P !! self = Some (mkProcess start (instance w)) -> same_procs P (w_procs w) -> Q (Ok (instance w)) l (set_procs (fun _ => P) w)) ->
  wpl (receiptCurrentProcessInstanceV1 true self) l Q w.
Proof using Hself.
  intros [Hb _ _ _ (cache & Hp & Hc)] HQ. unfold receiptCurrentProcessInstanceV1. apply wpb_bind, (calm_CacheGet _ _ _ _ _ _ _ Hp). cbn [p_cache].
  destruct Hc as [E|E]; subst cache.
  - change (String.eqb EmptyString EmptyString) with true. cbn [negb]. apply wpb_bind. unfold receiptLinuxProcessInstanceV1. rewrite Hself. cbn [negb orb].
    apply wpb_try, wpb_bind, calm_ReadBoot, wpb_bind, calm_ReadStat. rewrite Hp. intros comm fields Hf Hs. apply wpb_ret.
    rewrite (instance_of_proc _ _ _ _ start) by done. apply wpb_bind, wpb_ret, wpb_bind, calm_CacheSet, wpb_ret.
    apply (HQ (alter (fun p => mkProcess (p_start p) (instance w)) self (w_procs w))).
    + by rewrite lookup_alter_eq, Hp.
    + intros pid. rewrite lookup_alter. case_decide; [|done]. subst pid. by rewrite Hp.
  - assert (String.eqb (instance_text (w_boot w) start) EmptyString = false) as -> by done. cbn [negb]. apply wpb_ret.
    destruct w as [b P N F x e T d]. by apply (HQ P).
Qed.

(** *** Writing a record *)

Definition bump (w : world) : world :=
  mkWorld (w_boot w) (w_procs w) (w_names w) (w_files w) (S (w_next w)) (w_ever w) (w_tokens w) (w_dir w) (w_removed w).

(** A new file [f] under [name], for which the token [t] was drawn *)
Definition with_record (t name : string) (f : file) (w : world) : world :=
  set_files (insert (w_next w) f) (link_name name (w_next w) (bump (draw_token t w))).

Lemma set_files_alter g h f w : set_files (alter g h) (set_files (insert h f) w) = set_files (insert h (g f)) w.
Proof using. unfold set_files. cbn. by rewrite alter_insert_eq. Qed.

Lemma calm_writeLoop fuel h body f l Q w : good_file f -> (length body <= fuel)%nat ->
  (forall f', good_file f' -> f_bytes f' = f_bytes f ++ body -> Q (Ok tt) l (set_files (insert h f') w)) ->
  wpl (writeLoop fuel h body) l Q (set_files (insert h f) w).
Proof using.
  revert f body. induction fuel as [|fuel IH]; intros f body Hf Hl HQ.
  { destruct body; [|cbn in Hl; lia]. apply wpb_ret, HQ; [done|by rewrite app_nil_r]. }
  destruct body as [|c body]; [apply wpb_ret, HQ; [done|by rewrite app_nil_r]|]. set (b := c :: body) in *.
  change (writeLoop (S fuel) h b) with (bytesWritten ← sys (Write h b);
    lift (throw_if (bytesWritten =? 0)%nat "VOID_RECEIPT_APPEND_LOCK_RECORD_SHORT_WRITE_V1");; (writeLoop fuel h (drop bytesWritten b) : io unit)).
  assert (0 < length b)%nat as Hb by (cbn; lia). apply wpb_bind, calm_Write. intros n time Hn Ht. rewrite set_files_alter.
  apply calm_guard; [apply Nat.eqb_neq; lia|]. apply IH; [destruct Hf as (? & ? & ? & ? & ?); by split_and!|rewrite length_drop; lia|].
  intros f' Hf' Eb. apply HQ; [done|]. rewrite Eb. cbn [f_bytes]. rewrite <- app_assoc. f_equal.
  destruct (decide (n <= length b)%nat); [rewrite Nat.min_l by lia; apply take_drop|]. rewrite Nat.min_r, take_ge, drop_all by lia. by rewrite app_nil_r.
Qed.

Lemma calm_closeTemp h f l Q w : good_file f ->
  (forall f', good_file f' -> f_bytes f' = f_bytes f -> receiptSamePublishedGenerationV1 (receiptFileStampV1 (stat_of f)) (receiptFileStampV1 (stat_of f')) = true ->
    Q (Ok tt) l (set_files (insert h f') w)) ->
  wpl (closeTemp h) l Q (set_files (insert h f) w).
Proof using.
  intros Hf HQ. unfold closeTemp. apply wpb_bind, wpb_ignore, calm_Plain, wpb_ignore, calm_UnlinkTemp. intros time Ht. rewrite set_files_alter.
  apply HQ; [destruct Hf as (? & ? & ? & ? & ?); by split_and!|done|]. unfold receiptSamePublishedGenerationV1. cbn. by rewrite !String.eqb_refl, Z.eqb_refl.
Qed.

Lemma calm_writeRecord name value (g : ReceiptFileStampV1 -> locals -> locals) l Q w : name ∉ dom (w_names w) -> Z.of_nat (size (w_tokens w)) < TOKENS ->
  (forall t s f, good_file f -> f_bytes f = record_bytes value -> receiptSamePublishedGenerationV1 s (receiptFileStampV1 (stat_of f)) = true ->
    Q (Ok tt) (g s l) (with_record t name f w)) ->
  wpl (writeAppendLockRecordV1 self authority name value (fun s => assign (g s))) l Q w.
Proof using Hdir.
  intros Hn HT HQ. unfold writeAppendLockRecordV1. apply wpb_bind, calm_Random; [lia|done|]. intros t _ _. apply wpb_bind, calm_CreateTemp.
  intros dev ino time Hd Hi Ht. set (h := w_next (draw_token t w)).
  change (create_file ?x (draw_token t w)) with (set_files (insert h x) (bump (draw_token t w))).
  apply wpb_bind, wpb_try, wpb_bind, calm_writeLoop; [by split_and!|lia|]. intros f1 Hf1 Eb1. apply wpb_bind, calm_Plain, calm_Link; [done|]. intros time2 Ht2.
  change (link_name name h (set_files ?x ?w)) with (set_files x (link_name name h w)). rewrite set_files_alter. set (f2 := restamp id _ f1).
  assert (good_file f2) as Hf2 by (destruct Hf1 as (? & ? & ? & ? & ?); by split_and!).
  apply wpb_finally, wpb_bind, (calm_Fstat _ _ _ _ f2); [by cbn; rewrite lookup_insert_eq|]. apply calm_guard; [by destruct Hf2 as (E & _); cbn in *; rewrite E|].
  apply wpb_bind, wpb_assign, wpb_bind, calm_Plain, wpb_bind, calm_Plain, calm_assert, calm_closeTemp; [done|]. intros f3 Hf3 Eb3 Hs3.
  apply (HQ t _ f3); [done| |done]. by rewrite Eb3.
Qed.

(** *** The lock *)

Lemma running_draw t w : running self start w -> running self start (draw_token t w).
Proof using. intros [H1 H2 Hs H3 H4]. split; [done|done|done| |done]. intros t' Ht. cbn. apply elem_of_union. right. by apply H3. Qed.

Lemma running_procs P w : P !! self = Some (mkProcess start (instance w)) -> running self start w -> running self start (set_procs (fun _ => P) w).
Proof using. intros HP [H1 H2 Hs H3 H4]. split; [done|done|done|done|]. exists (instance w). split; [done|by right]. Qed.

Lemma running_record t name f w : is_shard_name name = false -> (forall t', appendLockClaimNameV1 t' = name \/ appendLockReleaseNameV1 t' = name -> t' ∈ w_tokens w) ->
  running self start w -> running self start (with_record t name f w).
Proof using.
  intros Hnl Hn [H1 H2 Hs H3 H4]. split; [done| | | |done]; cbn.
  - intros n h. rewrite lookup_insert. case_decide; [intros [= <-]; lia|]. intros Hh%H2. lia.
  - intros n. rewrite dom_insert, elem_of_union, elem_of_singleton. intros [E|Hin]; [by rewrite E|by apply Hs].
  - intros t' Ht. rewrite !dom_insert, !elem_of_union, !elem_of_singleton in Ht. apply elem_of_union. right.
    destruct Ht as [[E|Ht]|[E|Ht]]; [apply Hn; by left|apply H3; by left|apply Hn; by right|apply H3; by right].
Qed.

(** The store holds the lock, or is about to: its claim is the only one. *)
Record held (w : world) (t : string) (h : nat) (f : file) : Prop := mkHeld {
  he_running : running self start w;
  he_claim : claim_file ds w t self (instance w) h f;
  he_good : good_file f;
  he_release : w_names w !! appendLockReleaseNameV1 t = None;
  he_others : forall n, n ∈ dom (w_names w) -> is_claim_name n = true -> n = appendLockClaimNameV1 t
}.

Lemma held_names N w t h f : N ⊆ w_names w -> N !! appendLockClaimNameV1 t = w_names w !! appendLockClaimNameV1 t ->
  held w t h f -> held (set_names N w) t h f.
Proof using.
  intros HN E [H1 H2 H3 H4 H5]. split; [by apply running_names|by apply claim_file_names|done|by eapply lookup_weaken_None|].
  intros n Hn. apply H5. by apply (subseteq_dom _ _ HN).
Qed.

Lemma draw_size t w : (size (w_tokens (draw_token t w)) <= S (size (w_tokens w)))%nat.
Proof using.
  clear. cbn. rewrite size_union_alt, size_singleton. apply le_n_S, subseteq_size. set_solver.
Qed.

Lemma published_held w t tok P f : running self start w -> is_token t = true -> t ∉ w_tokens w ->
  (forall n, n ∈ dom (w_names w) -> is_claim_name n = false) -> P !! self = Some (mkProcess start (instance w)) -> good_file f ->
  f_bytes f = record_bytes (claim_json self (instance w) t (ds_dev ds) (ds_ino ds)) ->
  held (with_record tok (appendLockClaimNameV1 t) f (set_procs (fun _ => P) (draw_token t w))) t (w_next w) f.
Proof using Hdir Hself Hstart Hdev Hino.
  intros Hr Ht Hnew Hno HP Hf Eb. pose proof (ru_boot _ _ _ Hr) as Hb. set (w1 := set_procs (fun _ => P) (draw_token t w)).
  assert (running self start w1) as Hr1 by (by apply running_procs, running_draw). split.
  - apply running_record; [apply temp_not_shard| |done]. intros t' [E%claim_name_inj|E]; [subst t'; cbn; set_solver|]. symmetry in E. by apply claim_not_release in E.
  - split; cbn; [by rewrite lookup_insert_eq|by rewrite lookup_insert_eq|apply Hf|done| |done|done|done].
    rewrite Eb. apply claim_fits; [done|by apply instance_length|done|done|done].
  - done.
  - cbn. rewrite lookup_insert_ne by apply claim_not_release. apply not_elem_of_dom. intros Hin. apply Hnew, (ru_tokens _ _ _ Hr). by right.
  - intros n. cbn. rewrite dom_insert, elem_of_union, elem_of_singleton. intros [->|Hn] Hc; [done|]. rewrite (Hno n Hn) in Hc. done.
Qed.

Lemma calm_publishAppendLockClaimV1 l Q w : free l -> running self start w -> (forall n, n ∈ dom (w_names w) -> is_claim_name n = false) ->
  Z.of_nat (size (w_tokens w)) + 1 < TOKENS ->
  (forall t h f w', held w' t h f -> w_dir w' = w_dir w -> (size (w_tokens w') <= size (w_tokens w) + 2)%nat ->
    Q (Ok (claim_of ds t self (instance w') f)) l w') ->
  wpl (publishAppendLockClaimV1 true self authority) l Q w.
Proof using Hdir Hself Hstart Hdev Hino.
  intros [Hl1 Hl2] Hr Hno HT HQ. unfold publishAppendLockClaimV1. apply wpb_bind, calm_Random; [lia|lia|]. intros t Ht Hnew.
  pose proof (draw_size t w) as Hs1. apply wpb_bind, calm_current_instance; [by apply running_draw|]. intros P HP Hsame.
  change (instance (draw_token t w)) with (instance w) in *. set (w1 := set_procs (fun _ => P) (draw_token t w)).
  apply wpb_bind, (calm_writeRecord _ _ (fun s => set_unconfirmed (Some (mkClaim self (instance w) t (dec (ds_dev ds)) (dec (ds_ino ds)) (appendLockClaimNameV1 t) s)))).
  { intros Hin. apply Hnew, (ru_tokens _ _ _ Hr). by left. }
  { cbn in Hs1 |- *. lia. }
  intros tok s f Hf Eb Hgen. pose proof (published_held w t tok P f Hr Ht Hnew Hno HP Hf Eb) as Hh.
  apply wpb_bind, (calm_readClaim t self (instance w) (w_next w) f); [apply Hh|]. apply wpb_bind, wpb_fields. apply calm_guard.
  { unfold sameLocallyUnconfirmedAppendClaimV1, same_owner. cbn. by rewrite Hgen, !String.eqb_refl, Z.eqb_refl. }
  apply wpb_bind, wpb_assign, wpb_ret. replace (set_unconfirmed None _) with l by (destruct l; cbn in *; by subst).
  apply (HQ t (w_next w) f _ Hh); [done|]. pose proof (draw_size tok w1) as Hs2. cbn in Hs1, Hs2 |- *. lia.
Qed.

Lemma calm_acquireAppendLockV1 fuel l Q w : free l -> running self start w -> at_rest ds w -> Z.of_nat (size (w_tokens w)) + 1 < TOKENS ->
  (forall t h f w', held w' t h f -> w_dir w' = w_dir w -> (size (w_tokens w') <= size (w_tokens w) + 2)%nat ->
    Q (Ok (claim_of ds t self (instance w') f)) l w') ->
  wpl (acquireAppendLockV1 true self (S fuel) authority) l Q w.
Proof using Hdir Hself Hstart Hdev Hino.
  intros Hl Hr Hrest HT HQ. unfold acquireAppendLockV1. apply wpb_bind, calm_Now. intros now _. cbn [acquireLoop].
  apply wpb_bind, calm_Plain, wpb_bind, calm_assert, wpb_bind, calm_appendLockBlockedV1; [done|apply Hr|intros n Hn Hc; right; by apply Hrest|].
  intros N HN Hno _. apply wpb_bind, wpb_bind, calm_publishAppendLockClaimV1; [done|by apply running_names| |done|].
  { intros n Hn. destruct (is_claim_name n) eqn:E; [|done]. by apply (Hno n Hn) in E. }
  intros t h f w1 Hh Hd Hs. pose proof Hh as [H1 H2 H3 H4 H5].
  apply wpb_bind, calm_assert, wpb_bind, calm_appendLockBlockedV1; [done|apply H1|intros n Hn Hc; left; by rewrite (H5 n Hn Hc)|].
  intros N' HN' _ Hsame. destruct (Hsame t eq_refl) as [E1 _]. cbn [negb]. apply wpb_ret, wpb_ret.
  by apply (HQ t h f (set_names N' w1)); [apply held_names| |].
Qed.

Lemma good_stamp f : good_file f -> fits (f_bytes f) -> (String.length (print (stamp_json (receiptFileStampV1 (stat_of f)))) <= 800)%nat.
Proof using.
  intros (_ & H1 & H2 & H3 & H4) Hf. apply stamp_length; [by apply stamp_of_file|]. repeat (apply Forall_cons; split; [by apply dec_word64|]). by apply Forall_nil.
Qed.

(** The claim and its release are removed. *)
Lemma released_rest w t h f tok P f' : held w t h f -> P !! self = Some (mkProcess start (instance w)) ->
  let w' := unlink_name (appendLockReleaseNameV1 t) (unlink_name (appendLockClaimNameV1 t)
    (with_record tok (appendLockReleaseNameV1 t) f' (set_procs (fun _ => P) w))) in
  running self start w' /\ forall n, n ∈ dom (w_names w') -> is_claim_name n = false.
Proof using.
  intros [H1 H2 H3 H4 H5] HP w'. set (w1 := with_record tok (appendLockReleaseNameV1 t) f' (set_procs (fun _ => P) w)). split.
  - apply (running_names self start (delete (appendLockReleaseNameV1 t) (delete (appendLockClaimNameV1 t) (w_names w1))) w1).
    { etrans; [apply delete_subseteq|apply delete_subseteq]. }
    apply running_record; [apply temp_not_shard| |by apply running_procs]. intros t' [E|E%release_name_inj]; [by apply claim_not_release in E|]. subst t'.
    apply (ru_tokens _ _ _ H1). left. apply elem_of_dom. exists h. apply H2.
  - intros n. cbn. rewrite !dom_delete_L, dom_insert_L, !elem_of_difference, !elem_of_singleton, elem_of_union, elem_of_singleton.
    intros [[[E|Hn] Hc] Hnr]; [done|]. destruct (is_claim_name n) eqn:E; [|done]. exfalso. by apply Hc, H5.
Qed.

Lemma calm_releaseAppendLockV1 t h f l Q w : free l -> held w t h f -> Z.of_nat (size (w_tokens w)) < TOKENS ->
  (forall w', running self start w' -> (forall n, n ∈ dom (w_names w') -> is_claim_name n = false) -> w_dir w' = w_dir w -> Q (Ok tt) l w') ->
  wpl (releaseAppendLockV1 true self authority (claim_of ds t self (instance w) f)) l Q w.
Proof using Hdir Hself Hstart.
  intros [Hl1 Hl2] Hh HT HQ. pose proof Hh as [H1 H2 H3 H4 H5]. pose proof H2 as [C1 C2 C3 C4 C5 C6 C7 C8]. set (c := claim_of ds t self (instance w) f).
  unfold releaseAppendLockV1. apply wpb_bind, wpb_assign, wpb_ignore. unfold finishAppendLockReleaseV1.
  apply wpb_bind, (calm_readClaim t self (instance w) h f); [done|]. apply calm_guard; [cbn; by rewrite Z.eqb_refl|].
  apply wpb_bind, calm_current_instance; [done|]. intros P HP Hsame. apply calm_guard; [cbn; by rewrite String.eqb_refl, same_stamp_refl|].
  apply wpb_bind, calm_noRelease; [done|]. set (w1 := set_procs (fun _ => P) w). apply wpb_bind, wpb_bind.
  change (fun _ : ReceiptFileStampV1 => mret tt) with (fun s : ReceiptFileStampV1 => @assign syscall locals ((fun _ => id) s)).
  apply (calm_writeRecord _ _ (fun _ => id)); [by apply not_elem_of_dom|done|]. intros tok _ f' Hf' Eb' _.
  set (w2 := with_record tok (appendLockReleaseNameV1 t) f' w1). assert (stamp_ok (c_stamp c)) as Hst by (by apply stamp_of_file).
  assert (h <> w_next w) as Hne by (pose proof (ru_names _ _ _ H1 _ _ C1); lia).
  assert (release_file w2 c (w_next w) f') as Hrel.
  { split; [cbn; by rewrite lookup_insert_eq|cbn; by rewrite lookup_insert_eq|apply Hf'|done|]. rewrite Eb'.
    apply release_fits; [done|by apply instance_length, Hstart; apply H1|done|done|by apply good_stamp]. }
  apply (calm_readRelease c (w_next w) f'); [done|done|done|]. apply wpb_bind, (calm_remove _ h f).
  { cbn. rewrite lookup_insert_ne; [done|apply not_eq_sym, claim_not_release]. }
  { cbn. by rewrite lookup_insert_ne. }
  { done. }
  apply calm_guard; [done|]. apply wpb_bind, (calm_remove _ (w_next w) f').
  { cbn. rewrite lookup_delete_ne by apply claim_not_release. by rewrite lookup_insert_eq. }
  { cbn. by rewrite lookup_insert_eq. }
  { apply Hf'. }
  apply wpb_assign. unfold sameLocallyReleasedAppendClaimV1, same_owner. cbn [locallyReleasedAppendClaimV1 set_released id].
  rewrite !String.eqb_refl, Z.eqb_refl, same_stamp_refl. cbn [andb]. replace (set_released None _) with l by (destruct l; cbn in *; by subst).
  destruct (released_rest w t h f tok P f' Hh HP) as [R1 R2]. by apply HQ.
Qed.

(** *** Publishing *)

Definition shard_temp (nonce : Z) (file : string) : string := "." +:+ file +:+ ".append-" +:+ dec self +:+ "-" +:+ dec nonce +:+ ".tmp".

Lemma calm_writeShard fuel temp payload b d l Q w : temp ∉ d.*1 -> (length payload <= fuel)%nat ->
  Q (Ok tt) l (set_dir (d ++ [(temp, b ++ payload)]) w) -> wpl (writeShard fuel temp payload) l Q (set_dir (d ++ [(temp, b)]) w).
Proof using.
  intros Hn. revert b payload. induction fuel as [|fuel IH]; intros b payload Hf HQ.
  { destruct payload; [|cbn in Hf; lia]. apply wpb_ret. by rewrite app_nil_r in HQ. }
  destruct payload as [|c payload]; [apply wpb_ret; by rewrite app_nil_r in HQ|]. set (p := c :: payload) in *.
  change (writeShard (S fuel) temp p) with (sys (Plain "throwIfAborted");; bytesWritten ← sys (WriteShardTemp temp (take (Z.to_nat (64 * 1024)) p));
    lift (throw_if (bytesWritten =? 0)%nat "receipt append made no write progress");; (writeShard fuel temp (drop bytesWritten p) : io unit)).
  assert (0 < Z.to_nat (64 * 1024))%nat as Hk by lia. revert Hk. generalize (Z.to_nat (64 * 1024)) as k. intros k Hk.
  assert (0 < length (take k p))%nat as Hp by (rewrite length_take; cbn; lia).
  apply wpb_bind, calm_Plain, wpb_bind, calm_WriteShardTemp. intros n Hn0. apply calm_guard; [apply Nat.eqb_neq; lia|].
  cbn [w_dir set_dir]. rewrite file_last by done. unfold default, id. cbn [from_option]. rewrite put_last by done.
  set (m := Nat.min n (length (take k p))) in *. assert (take n (take k p) = take m p) as ->.
  { unfold m. rewrite length_take, take_take. destruct (decide (Nat.min n k <= length p)%nat); [f_equal; lia|]. by rewrite !take_ge by lia. }
  change (set_dir ?x (set_dir ?y w)) with (set_dir x w). apply IH; [rewrite length_drop; lia|]. by rewrite <- app_assoc, take_drop.
Qed.

Lemma calm_publishShard pending target l Q w : shard_temp (appendNonce l + 1) target.1 ∉ (w_dir w).*1 ->
  Q (Ok tt) (remember_all pending (next_nonce l)) (set_dir (put_file target.1 target.2 (w_dir w)) w) ->
  wpl (publishShard self authority pending target) l Q w.
Proof using Hdir.
  destruct target as [file payload]. cbn [fst snd]. intros Hn HQ. unfold publishShard. apply wpb_bind, wpb_assign, wpb_bind, wpb_fields.
  cbn [appendNonce next_nonce]. change ("." +:+ file +:+ _) with (shard_temp (appendNonce l + 1) file). set (temp := shard_temp _ _) in *.
  apply wpb_bind, wpb_try, wpb_bind, calm_Plain, wpb_bind, calm_CreateShardTemp; [done|]. apply wpb_bind, calm_writeShard; [done|done|].
  do 4 apply wpb_bind, calm_Plain. apply (calm_RenameShard _ _ _ _ _ payload); [cbn [w_dir set_dir]; by apply file_last|].
  apply wpb_bind, calm_Plain, wpb_bind, calm_assert, wpb_assign. cbn [w_dir set_dir]. rewrite remove_last by done.
  by change (set_dir ?x (set_dir ?y w)) with (set_dir x w).
Qed.

(** A temporary file of that name is in the way: it is removed, and the append fails. *)
Lemma calm_publishShard_taken pending target l Q w : let temp := shard_temp (appendNonce l + 1) target.1 in
  temp ∈ (w_dir w).*1 -> Q (Throw "EEXIST") (next_nonce l) (set_dir (remove_files [temp] (w_dir w)) w) ->
  wpl (publishShard self authority pending target) l Q w.
Proof using.
  clear Hdir. destruct target as [file payload]. cbn [fst snd]. intros Hn HQ. unfold publishShard. apply wpb_bind, wpb_assign, wpb_bind, wpb_fields.
  cbn [appendNonce next_nonce]. change ("." +:+ file +:+ _) with (shard_temp (appendNonce l + 1) file).
  apply wpb_bind, wpb_try, wpb_bind, calm_Plain, wpb_bind, calm_CreateShardTemp_taken; [done|].
  apply wpb_bind, wpb_ignore, calm_Plain, wpb_bind, wpb_ignore, calm_UnlinkShardTemp; [done|]. by apply wpb_lift.
Qed.

(** What an append of [items] does to the shards, as it plans it: nothing, with the error of
    the plan or because all receipts are recorded, or one shard is replaced.  Besides the
    shards the append has listed files of the lock.  A temporary file under the name that the
    append gives to its own, from the [nonce] of the store, is removed instead, with an error. *)
Definition planned (nonce : Z) (items : list json) (r : res unit) (d d' : directory) : Prop :=
  exists clock extra, Forall (fun n => is_shard_name n = false) extra /\
    match planAppend shardSpan clock (JArr items) (d ++ map (fun n => (n, [])) extra) with
    | Throw e => r = Throw e /\ d' = d
    | Ok None => r = Ok tt /\ d' = d
    | Ok (Some (_, (file, payload))) =>
        if bool_decide (shard_temp nonce file ∈ d.*1) then r = Throw "EEXIST" /\ d' = remove_files [shard_temp nonce file] d
        else r = Ok tt /\ d' = put_file file payload d
    end.

Lemma calm_appendHolding clock items l Q w : (forall n, n ∈ dom (w_names w) -> is_shard_name n = false) ->
  (forall r l' d', planned (appendNonce l + 1) items r (w_dir w) d' -> (free l -> free l') -> Q r l' (set_dir d' w)) ->
  wpl (appendHolding self shardSpan authority clock (JArr items)) l Q w.
Proof using Hdir.
  intros Hs HQ. unfold appendHolding. apply wpb_bind, calm_Snapshot, wpb_bind, calm_Plain, wpb_bind, wpb_lift.
  set (extra := elements (dom (w_names w))). assert (Forall (fun n => is_shard_name n = false) extra) as Hx.
  { apply Forall_forall. intros n Hin. apply Hs. by apply elem_of_elements. }
  assert (set_dir (w_dir w) w = w) as Ew by (by destruct w).
  destruct (planAppend shardSpan clock (JArr items) _) as [[[pending [file payload]]|]|e] eqn:Ep.
  - destruct (decide (shard_temp (appendNonce l + 1) file ∈ (w_dir w).*1)) as [Hin|Hin];
      [apply calm_publishShard_taken; [done|]|apply calm_publishShard; [done|]]; (apply HQ; [|done]); exists clock, extra; rewrite Ep; (split; [done|]);
      [by rewrite bool_decide_eq_true_2|by rewrite bool_decide_eq_false_2].
  - do 3 apply wpb_bind, calm_Plain. apply calm_assert. rewrite <- Ew. apply HQ; [|done]. exists clock, extra. by rewrite Ep.
  - rewrite <- Ew. apply HQ; [|done]. exists clock, extra. by rewrite Ep.
Qed.

Lemma calm_open l Q w : Q (Ok authority) l w -> wpl openDirectoryAuthorityV1 l Q w.
Proof using Hdir.
  intros HQ. unfold openDirectoryAuthorityV1. apply wpb_bind, calm_Plain, wpb_bind, calm_Plain, wpb_try, wpb_bind, calm_DirStat, wpb_bind, calm_DirStat.
  apply calm_guard; [by rewrite Hdir, !Z.eqb_refl|]. by apply wpb_ret.
Qed.

(** An append that stops before it asks for the lock *)
Lemma planned_early nonce clock items r d : normalizeBatch clock items = (match r with Ok _ => Ok [] | Throw e => Throw e end) ->
  planned nonce items r d d.
Proof using.
  intros Hb. exists clock, []. split; [done|]. unfold planned, planAppend. destruct items as [|item items].
  { destruct r as [[]|e]; [done|discriminate Hb]. }
  rewrite Hb. by destruct r as [[]|e].
Qed.

Lemma calm_readClock count l Q w : (forall times, Q (Ok times) l w) -> wpl (readClock count) l Q w.
Proof using.
  clear Hdir. revert Q. induction count as [|count IH]; intros Q HQ; cbn [readClock]; [by apply wpb_ret|].
  apply wpb_bind, calm_Now. intros now _. apply wpb_bind, IH. intros later. by apply wpb_ret.
Qed.

Lemma calm_appendManyLocked fuel items l Q w : free l -> running self start w -> at_rest ds w -> Z.of_nat (size (w_tokens w)) + 2 < TOKENS ->
  (forall r l' w', planned (appendNonce l + 1) items r (w_dir w) (w_dir w') -> free l' -> running self start w' -> at_rest ds w' -> Q r l' w') ->
  wpl (appendManyLocked true self shardSpan (S fuel) items) l Q w.
Proof using Hdir Hself Hstart Hdev Hino.
  intros Hl Hr Hrest HT HQ. unfold appendManyLocked. apply wpb_bind, calm_Plain. case_bool_decide as Hne.
  { apply wpb_ret, HQ; [apply (planned_early _ (fun _ => 0)); by subst|done..]. }
  do 2 apply wpb_bind, calm_Plain. apply wpb_bind, calm_readClock. intros times. set (clock := fun j => nth j times 0). apply wpb_bind, wpb_lift.
  destruct (normalizeBatch clock items) as [batch|e] eqn:Hb; [|by apply HQ; [apply (planned_early _ clock)|..]].
  case_bool_decide as Hbe; [subst batch; by apply wpb_ret, HQ; [apply (planned_early _ clock)|..]|].
  apply wpb_bind, calm_open, wpb_finally, wpb_bind, calm_acquireAppendLockV1; [done|done|done|lia|]. intros t h f w1 Hh Hd Hs.
  apply wpb_finally, calm_appendHolding; [apply Hh|]. intros r l' d' Hp Hl'. rewrite Hd in Hp.
  assert (held (set_dir d' w1) t h f) as Hh' by (destruct Hh as [[R1 R2 R3 R4 R5] [C1 C2 C3 C4 C5 C6 C7 C8] H3 H4 H5]; split; [by split|by split|done|done|done]).
  change (instance w1) with (instance (set_dir d' w1)). apply (calm_releaseAppendLockV1 t h f); [by apply Hl'|done|cbn; lia|]. intros w2 Hr2 Hno Hd2. apply wpb_ignore, calm_Plain.
  apply HQ; [by rewrite Hd2|by apply Hl'|done|]. intros n Hin Hc. rewrite (Hno n Hin) in Hc. done.
Qed.

(** C8: An append that nothing disturbs runs to its end, also after crashes.  Where every claim
    in the directory belongs to a process that is gone or was released, every run of an append
    without failing calls and without other stores goes on until it returns; it does to the
    shards exactly what it has planned, and leaves the directory and the store as it needs
    them for the next append.  The one thing that a crash can leave in its way is a temporary
    file of a shard under the name that the append gives to its own (the process number and
    the count of the store's appends, so that it takes a process of the same number): the
    append then fails with [EEXIST], once, and removes that file.  The random tokens of two
    more claims are left, and the store has no claim of its own to withdraw. *)
Theorem receipt_append_completes (fuel : nat) (items : list json) (l : locals) (w : world) :
  free l -> running self start w -> at_rest ds w -> Z.of_nat (size (w_tokens w)) + 2 < TOKENS ->
  completes proc_readable ds self (fun last w' => planned (appendNonce l + 1) items last.1.2 (w_dir w) (w_dir w') /\
    free last.2 /\ running self start w' /\ at_rest ds w') (start_append true shardSpan self (S fuel) items l) w.
Proof using Hdir Hself Hstart Hdev Hino.
  intros Hl Hr Hrest HT. apply wp_completes. unfold start_append. apply wpp_bind.
  eapply wpp_mono; [|apply (calm_appendManyLocked fuel items l (fun r l' w' => planned (appendNonce l + 1) items r (w_dir w) (w_dir w') /\
    free l' /\ running self start w' /\ at_rest ds w')); auto]. intros [r l'] w' HQ. by apply upd_intro.
Qed.
End live.
