(* ===== verification/ReceiptLockSamples.v ===== *)
(** * Runs of the append lock

    Concrete processes and stores for the theorems on the append lock, run by the executable
    model: [calm] answers a call as an undisturbed system does, and [advance] lets one store
    run until it is about to make a given call.  Two runs record how the lock fails: the claim
    of a process that could once not read [/proc] is taken for a stale one, and a claim that is
    followed by an error is left behind and blocks the appends to come. *)

From Stdlib Require Import Ascii.
From S2P Require Import Prelude Js JsText CanonicalJson Sha256 JsConvert JsonParse TextLines NodeBuffer.
From S2P Require Import Receipts ReceiptsSafety Interleave ReceiptLock ReceiptLockLogic ReceiptLockSafety ReceiptLockCalm ReceiptLockLive.

(** ** Schedules *)

Definition calm {R} (c : syscall R) (w : world) : choice :=
  match c with
  | Now => At 1000
  | DirStat => DirIs (mkDirStat true 1 2)
  | Read _ _ _ => Count 1000
  | Readdir _ => Names (elements (dom (w_names w)))
  | Random n => let t := dec (Z.of_nat (size (w_tokens w))) in Token (pad_zeros (2 * n - String.length t) t)
  | CreateTemp _ => Node 1 (Z.of_nat (w_next w)) 5
  | Write _ _ => Wrote 1000 6
  | Link _ _ => At 7
  | UnlinkTemp _ => At 8
  | ReadStat pid => ProcStat "node) (worker" (replicate 19 "0"%string ++ [dec (default 0 (p_start <$> w_procs w !! pid))])
  | WriteShardTemp _ _ => Wrote 1000 6
  | _ => Succeed
  end.

Section schedules.
Context `{StringNumber} `{JsonNumber} (linux proc_readable : bool) (shardSpan : Z).

Notation steps := (rtc (step linux proc_readable shardSpan)).

(** One call of store [i], answered by [answer] *)
Definition call_once (answer : forall R, syscall R -> world -> choice) (i : nat) (s : system) : option system :=
  match sy_stores s !! i with
  | Some (pid, @Vis _ _ R c k) =>
      '(r, w') ← exec proc_readable pid R c (answer R c (sy_world s)) (sy_world s);
      Some (mkSystem w' (<[i := (pid, k r)]> (sy_stores s)))
  | _ => None
  end.

Definition undisturbed (R : Type) (c : syscall R) (w : world) : choice := calm c w.
Definition failing (code : string) (R : Type) (c : syscall R) (w : world) : choice := Fail code.

(** Calm calls of store [i] until [stop] holds of what it does next, or it has returned *)
Fixpoint advance (fuel : nat) (stop : run -> bool) (i : nat) (s : system) : option system :=
  match fuel with
  | O => None
  | S fuel =>
      match sy_stores s !! i with
      | Some (_, p) =>
          if stop p then Some s else
          match p with Ret _ => None | Vis _ _ => s' ← call_once undisturbed i s; advance fuel stop i s' end
      | None => None
      end
  end.

Definition begin (i : nat) (items : list json) (s : system) : option system :=
  match sy_stores s !! i with
  | Some (pid, Ret last) => Some (mkSystem (sy_world s) (<[i := (pid, start_append linux shardSpan pid 1 items last.2)]> (sy_stores s)))
  | _ => None
  end.

Lemma call_once_steps answer i s s' : call_once answer i s = Some s' -> steps s s'.
Proof.
  unfold call_once. destruct s as [w ss]. cbn. destruct (ss !! i) as [[pid [|R c k]]|] eqn:Ei; try done.
  destruct (exec proc_readable pid R c (answer R c w) w) as [[r w']|] eqn:Ee; [|done]. intros [= <-]. apply rtc_once. by eapply step_call.
Qed.

Lemma advance_steps fuel stop i s s' : advance fuel stop i s = Some s' -> steps s s'.
Proof.
  revert s. induction fuel as [|fuel IH]; intros s; [done|]. cbn. destruct (sy_stores s !! i) as [[pid p]|]; [|done].
  destruct (stop p); [by intros [= <-]|]. destruct p as [|R c k]; [done|]. destruct (call_once undisturbed i s) as [s1|] eqn:E1; [|done].
  intros E. etrans; [by eapply call_once_steps|by apply IH].
Qed.

Lemma begin_steps i items s s' : begin i items s = Some s' -> steps s s'.
Proof.
  unfold begin. destruct s as [w ss]. cbn. destruct (ss !! i) as [[pid [last|]]|] eqn:Ei; try done. intros [= <-].
  apply rtc_once. by eapply step_append.
Qed.
End schedules.

(** ** Two processes *)

Definition boot0 : string := "01234567-89ab-cdef-0123-456789abcdef".

Definition empty_world : world := mkWorld boot0 ∅ ∅ ∅ 0 ∅ ∅ [] [].

Lemma empty_world_ok linux : global_ok linux empty_world.
Proof.
  split; cbn; try done; [by intros h [x ?]|set_solver|exists []; apply ReceiptSample.empty_holds].
Qed.

(** Processes 5 and 6 with a store each *)
Definition two_stores : system :=
  mkSystem (set_procs (insert 6 (mkProcess 80 EmptyString)) (set_procs (insert 5 (mkProcess 77 EmptyString)) empty_world))
    (<[1%nat := (6, Ret ([], Ok tt, new_store))]> (<[0%nat := (5, Ret ([], Ok tt, new_store))]> ∅)).

#[local] Instance no_text_number : StringNumber := fun _ => NotANumber.
#[local] Instance no_json_number : JsonNumber := fun s => NOther s.

Lemma two_stores_steps linux readable : rtc (step linux readable 10000) (mkSystem empty_world ∅) two_stores.
Proof.
  eapply rtc_l; [apply (step_spawn _ _ _ _ _ 5 77); [done|done|lia]|].
  eapply rtc_l; [apply (step_spawn _ _ _ _ _ 6 80); [done|done|lia]|].
  eapply rtc_l; [apply (step_open _ _ _ _ _ 0%nat 5); [done|by eexists]|].
  eapply rtc_l; [apply (step_open _ _ _ _ _ 1%nat 6); [done|by eexists]|]. done.
Qed.

Definition batch_of (c : ascii) : list json := [JObj ["h" ~> JStr (ReceiptSample.hash c); "n" ~> jint 3; "o" ~> jint 0; "ts" ~> jint 9]].

Definition critical_at (i : nat) (s : system) : bool := match sy_stores s !! i with Some (_, p) => critical p | None => false end.

Definition returned (p : run) : bool := match p with Ret _ => true | Vis _ _ => false end.

Definition outcome (i : nat) (s : system) : option (res unit) :=
  match sy_stores s !! i with Some (_, Ret last) => Some last.1.2 | _ => None end.

Lemma run_to {A} (o : option A) (test : A -> bool) : match o with Some s => test s | None => false end = true -> exists s, o = Some s /\ test s = true.
Proof. destruct o as [s|]; [eauto|done]. Qed.

(** Store 1 has found no claim and is about to link its own when store 0 acquires the lock. *)
Definition contended : option system :=
  s ← begin true 10000 1 (batch_of "b") two_stores;
  s ← advance true 1000 (fun p => match p with Vis (Link _ _) _ => true | _ => false end) 1 s;
  s ← begin true 10000 0 (batch_of "a") s;
  advance true 1000 critical 0 s.

Lemma contended_run : exists s, contended = Some s /\ critical_at 0 s = true.
Proof. apply run_to. by vm_compute. Qed.

Ltac run_steps_at readable := repeat match goal with
  | E : (_ ≫= _) = Some _ |- _ => apply bind_Some in E as (? & ? & E)
  | E : begin _ _ _ _ _ = Some _ |- _ => apply begin_steps with (proc_readable := readable) in E
  | E : advance _ _ _ _ _ = Some _ |- _ => apply (advance_steps true _ 10000) in E
  | E : call_once _ _ _ _ = Some _ |- _ => apply (call_once_steps true _ 10000) in E
  end; repeat (etrans; [eassumption|]); apply rtc_refl.

Lemma contended_steps s : contended = Some s -> rtc (step true true 10000) (mkSystem empty_world ∅) s.
Proof. unfold contended. intros E. etrans; [apply two_stores_steps|]. run_steps_at true. Qed.

(** A holder is the only one that is about to work on the shards. *)
Lemma receipt_lock_excludes_witness : exists s p, rtc (step true true 10000) (mkSystem empty_world ∅) s /\
  sy_stores s !! 0%nat = Some (5, p) /\ critical p = true /\
  forall j pj q, sy_stores s !! j = Some (pj, q) -> critical q = true -> 0%nat = j.
Proof.
  destruct contended_run as (s & Es & Hc). pose proof (contended_steps s Es) as Hr. unfold critical_at in Hc.
  destruct (sy_stores s !! 0%nat) as [[pid p]|] eqn:E0; [|discriminate Hc]. exists s, p.
  assert (pid = 5) as ->.
  { enough (match contended with Some s => match sy_stores s !! 0%nat with Some (q, _) => q =? 5 | None => false end | None => false end = true) as Hq
      by (rewrite Es, E0 in Hq; by apply Z.eqb_eq). by vm_compute. }
  split; [exact Hr|]. split; [exact E0|]. split; [exact Hc|]. intros j pj q Hj Hq.
  exact (receipt_lock_excludes true true 10000 (fun _ => eq_refl) ltac:(lia) empty_world s 0 j 5 pj p q (empty_world_ok true) Hr E0 Hj Hc Hq).
Defined.

(** Store 0 has appended, and then store 1. *)
Definition both_appended : option system :=
  s ← contended;
  s ← advance true 1000 returned 0 s;
  advance true 1000 returned 1 s.

Definition accepted (i : nat) (s : system) : bool := match outcome i s with Some (Ok _) => true | _ => false end.

Lemma accepted_Ok i s : accepted i s = true -> outcome i s = Some (Ok tt).
Proof. unfold accepted. by destruct (outcome i s) as [[[]|]|]. Qed.

Lemma both_run : exists s, both_appended = Some s /\ accepted 0 s && accepted 1 s = true.
Proof. apply run_to. by vm_compute. Qed.

Lemma both_steps s : both_appended = Some s ->
  exists s1, contended = Some s1 /\ rtc (step true true 10000) s1 s.
Proof. unfold both_appended. intros E. apply bind_Some in E as (s1 & E1 & E). exists s1. split; [done|]. run_steps_at true. Qed.

Definition receipt_of (c : ascii) : Receipt := mkReceipt (ReceiptSample.hash c) 3 0 9.

Lemma batch_normal now : normalizeBatch now (batch_of "a") = Ok [receipt_of "a"].
Proof. reflexivity. Qed.

(** Store 0 has appended; store 1 has not. *)
Definition one_appended : option system := s ← contended; advance true 1000 returned 0 s.

Lemma one_run : exists s, one_appended = Some s /\
  bool_decide (w_dir (sy_world s) = [("receipts-00000000.jsonl"%string, shard_bytes [receipt_of "a"])]) &&
  bool_decide (w_removed (sy_world s) = []) && accepted 0 s = true.
Proof. apply run_to. by vm_compute. Qed.

Lemma one_steps s : one_appended = Some s -> rtc (step true true 10000) (mkSystem empty_world ∅) s.
Proof.
  unfold one_appended. intros E. apply bind_Some in E as (s1 & E1 & E). etrans; [by apply contended_steps|]. run_steps_at true.
Qed.

Lemma first_receipt_holds : holds [("receipts-00000000.jsonl"%string, [receipt_of "a"])]
  [("receipts-00000000.jsonl"%string, shard_bytes [receipt_of "a"])].
Proof.
  split; [apply NoDup_singleton|reflexivity|by intros ? ? [= -> ->]%list_elem_of_singleton| |].
  - repeat constructor; cbn; unfold MAX_SAFE_INTEGER; lia.
  - apply (bool_decide_unpack _). by vm_compute.
Qed.

Definition after_gc (s : system) : system := mkSystem (drop_shards ["receipts-00000000.jsonl"%string] (sy_world s)) (sy_stores s).

Lemma after_gc_step s : step true true 10000 s (after_gc s).
Proof. destruct s as [w ss]. apply step_gc. by repeat constructor. Qed.

(** The receipt of store 0 through the append of store 1, and through a [gc] *)
Lemma receipt_appends_compose_witness : exists s s2,
  one_appended = Some s /\ (s1 ← one_appended; advance true 1000 returned 1 s1) = Some s2 /\
  (exists shards', holds shards' (w_dir (sy_world s2)) /\
    recorded shards' (ReceiptSample.hash "a") = Some (receipt_of "a")) /\
  (exists new shards', w_removed (sy_world (after_gc s)) = w_removed (sy_world s) ++ new /\ holds shards' (w_dir (sy_world (after_gc s))) /\
    (recorded shards' (ReceiptSample.hash "a") = Some (receipt_of "a") \/ dropped new (receipt_of "a"))).
Proof.
  assert (exists s2, (s1 ← one_appended; advance true 1000 returned 1 s1) = Some s2 /\ bool_decide (w_removed (sy_world s2) = []) = true)
    as (s2 & E2 & Hn) by (apply run_to; by vm_compute).
  destruct one_run as (s & Es & Ht). apply andb_true_iff in Ht as [[Hd Hw]%andb_true_iff _]. apply bool_decide_eq_true in Hd, Hw, Hn.
  exists s, s2. split; [exact Es|]. split; [exact E2|].
  assert (holds [("receipts-00000000.jsonl"%string, [receipt_of "a"])] (w_dir (sy_world s))) as H0 by (rewrite Hd; exact first_receipt_holds).
  assert (rtc (step true true 10000) s s2) as Hr2 by (clear -E2 Es; apply bind_Some in E2 as (s1 & E1 & E2); rewrite Es in E1; injection E1 as <-; run_steps_at true). split.
  - destruct (receipt_appends_compose true true 10000 (fun _ => eq_refl) ltac:(lia) empty_world s s2 _ (empty_world_ok true)
      (one_steps s Es) Hr2 H0) as (new & shards' & Hnew & Hs & Hk). exists shards'. split; [exact Hs|].
    rewrite Hw, Hn in Hnew. cbn in Hnew. subst new.
    destruct (Hk (ReceiptSample.hash "a") (receipt_of "a") eq_refl) as [H1|(name & rs & Hin & _)]; [exact H1|]. exfalso. exact (not_elem_of_nil _ Hin).
  - destruct (receipt_appends_compose true true 10000 (fun _ => eq_refl) ltac:(lia) empty_world s (after_gc s) _ (empty_world_ok true)
      (one_steps s Es) (rtc_once _ _ (after_gc_step s)) H0) as (new & shards' & Hnew & Hs & Hk).
    exists new, shards'. split; [exact Hnew|]. split; [exact Hs|]. exact (Hk (ReceiptSample.hash "a") (receipt_of "a") eq_refl).
Defined.

Lemma receipt_append_accepted_witness : exists s shards, both_appended = Some s /\ holds shards (w_dir (sy_world s)) /\
  recorded shards (ReceiptSample.hash "a") = Some (receipt_of "a").
Proof.
  destruct both_run as (s & Es & Ha). destruct (both_steps s Es) as (s1 & E1 & Hr). exists s. apply andb_true_iff in Ha as [Ha _].
  unfold accepted, outcome in Ha. destruct (sy_stores s !! 0%nat) as [[pid [[[items r] l]|]]|] eqn:E0; try discriminate Ha.
  destruct r as [[]|]; [|discriminate Ha]. assert (items = batch_of "a") as ->.
  { enough (match both_appended with Some s => match sy_stores s !! 0%nat with Some (_, Ret last) => last.1.1 | _ => [] end | None => [] end =
      batch_of "a") as Hq by (by rewrite Es, E0 in Hq). by vm_compute. }
  assert (rtc (step true true 10000) (mkSystem empty_world ∅) s) as Hr0 by (etrans; [by apply contended_steps|exact Hr]).
  destruct (receipt_append_accepted true true 10000 (fun _ => eq_refl) ltac:(lia) empty_world s s 0 pid (batch_of "a") l (empty_world_ok true)
    Hr0 E0 (rtc_refl _ _)) as (now & batch & shards & Hb & Hs & Hrec). exists shards. split; [exact Es|]. split; [exact Hs|].
  rewrite batch_normal in Hb. injection Hb as <-.
  destruct (Hrec (receipt_of "a") ltac:(by left)) as [H1|(name & rs & Hin & _)]; [exact H1|]. exfalso.
  assert (match both_appended with Some s => bool_decide (w_removed (sy_world s) = []) | None => false end = true) as Hw by (by vm_compute).
  rewrite Es in Hw. apply bool_decide_eq_true in Hw. rewrite Hw in Hin. exact (not_elem_of_nil _ Hin).
Defined.

(** *** After a crash *)

(** Process 5 is killed while it holds the lock. *)
Definition holding : option system :=
  s ← begin true 10000 0 (batch_of "a") two_stores;
  advance true 1000 critical 0 s.

Definition token0 : string := "00000000000000000000000000000000".

(** What it leaves behind: its claim *)
Definition crashed : world :=
  mkWorld boot0 {[6 := mkProcess 80 EmptyString]} {[appendLockClaimNameV1 token0 := 0%nat]}
    {[0%nat := mkFile (record_bytes (claim_json 5 (instance_text boot0 77) token0 1 2)) true 1 0 6 8]}
    1 {[appendLockClaimNameV1 token0]} {[token0; "0000000000000001"%string]} [] [].

Lemma holding_killed : (fun s => set_procs (delete 5) (sy_world s)) <$> holding = Some crashed.
Proof. by vm_compute. Qed.

Definition directory0 : dir_stat := mkDirStat true 1 2.

Lemma crashed_rest : at_rest directory0 crashed.
Proof.
  intros n Hn _. cbn in Hn. rewrite dom_singleton, elem_of_singleton in Hn. exists token0. split; [done|].
  eexists 5, (instance_text boot0 77), 0%nat, _. split; [split; [done|done|done|done|by vm_compute|done|done|done]|]. left. split; [done|by intros p].
Qed.

Lemma crashed_running : running 6 80 crashed.
Proof.
  split; [done|..]; cbn.
  - intros n h E. apply lookup_singleton_Some in E as [_ <-]. lia.
  - intros n. rewrite dom_singleton, elem_of_singleton. by intros ->.
  - intros t. rewrite !dom_singleton, !elem_of_singleton. intros [E%claim_name_inj|E]; [subst t; set_solver|].
    symmetry in E. by apply claim_not_release in E.
  - exists EmptyString. split; [done|by left].
Qed.

Lemma crashed_tokens : Z.of_nat (size (w_tokens crashed)) + 2 < TOKENS.
Proof. by vm_compute. Qed.

Lemma new_store_free : free new_store.
Proof. by split. Qed.

Lemma word80 : word64 80. Proof. split; lia. Qed.
Lemma word1 : word64 1. Proof. split; lia. Qed.
Lemma word2 : word64 2. Proof. split; lia. Qed.

Lemma receipt_append_completes_witness : exists s last, rtc (step true true 10000) (mkSystem empty_world ∅) s /\
  sy_stores s !! 2%nat = Some (6, Ret last) /\ planned 6 10000 1 (batch_of "b") last.1.2 [] (w_dir (sy_world s)).
Proof.
  pose proof holding_killed as Hk. apply fmap_Some in Hk as (s0 & E0 & Ek). destruct s0 as [w0 ss0]. cbn in Ek.
  set (ss1 := filter (fun s => s.2.1 <> 5) ss0). assert (ss1 !! 2%nat = None) as Hfresh.
  { enough (match holding with Some s => bool_decide (sy_stores s !! 2%nat = None) | None => false end = true) as Hb by
      (rewrite E0 in Hb; apply bool_decide_eq_true in Hb; by apply map_lookup_filter_None_2; left). by vm_compute. }
  set (ss2 := <[2%nat := (6, start_append true 10000 6 1 (batch_of "b") new_store)]> ss1).
  assert (rtc (step true true 10000) (mkSystem empty_world ∅) (mkSystem crashed ss2)) as Hr.
  { etrans; [apply two_stores_steps|]. etrans; [unfold holding in E0; clear -E0; run_steps_at true|].
    eapply rtc_l; [apply (step_kill _ _ _ _ _ 5)|]. rewrite <- Ek.
    eapply rtc_l; [apply (step_open _ _ _ _ _ 2%nat 6); [exact Hfresh|by eexists]|].
    eapply rtc_l; [apply (step_append _ _ _ _ _ 2%nat 6 ([], Ok tt, new_store) 1 (batch_of "b")); by rewrite lookup_insert_eq|].
    unfold ss2. rewrite insert_insert_eq. apply rtc_refl. }
  pose proof (receipt_append_completes true directory0 6 80 10000 eq_refl eq_refl word80 word1 word2 0 (batch_of "b") new_store crashed
    new_store_free crashed_running crashed_rest crashed_tokens) as Hc.
  destruct (completes_steps true true 10000 directory0 6 _ _ crashed ss2 2 Hc (lookup_insert_eq _ _ _)) as (last & w' & Hr' & Hp & _).
  eexists _, last. split; [etrans; [exact Hr|exact Hr']|]. cbn [sy_stores sy_world]. split; [apply lookup_insert_eq|exact Hp].
Defined.

(** ** Where the lock fails *)

(** The process of store 0 cannot open [boot_id] when it first asks for its own instance; the
    process of store 1 can.  Store 0 has read the shards when store 1 comes. *)
Definition opaque_owner : option system :=
  s ← begin true 10000 0 (batch_of "a") two_stores;
  s ← advance false 1000 (fun p => match p with Vis ReadBoot _ => true | _ => false end) 0 s;
  s ← call_once false (failing "EMFILE") 0 s;
  s ← advance false 1000 critical 0 s;
  s ← call_once false undisturbed 0 s;
  s ← advance false 1000 critical 0 s;
  s ← begin true 10000 1 (batch_of "b") s;
  advance false 1000 critical 1 s.

Definition opaque_end (s : system) : option system :=
  s ← advance false 1000 returned 1 s;
  advance false 1000 returned 0 s.

(** One shard with the receipt of store 0 and nothing else *)
Definition only_a : directory := [("receipts-00000000.jsonl"%string, shard_bytes [receipt_of "a"])].

(** Runs of stores in which [n] reads of [boot_id] fail; every other call is answered as an
    undisturbed system does. *)
Inductive boot_reads_fail : nat -> system -> system -> Prop :=
| boot_done s : boot_reads_fail 0 s s
| boot_call n i s s1 s' : call_once false undisturbed i s = Some s1 -> boot_reads_fail n s1 s' -> boot_reads_fail n s s'
| boot_begin n i items s s1 s' : begin true 10000 i items s = Some s1 -> boot_reads_fail n s1 s' -> boot_reads_fail n s s'
| boot_fails n i code s s1 s' pid k : sy_stores s !! i = Some (pid, Vis ReadBoot k) -> call_once false (failing code) i s = Some s1 ->
    boot_reads_fail n s1 s' -> boot_reads_fail (S n) s s'.

Lemma boot_advance n fuel stop i s s1 s' : advance false fuel stop i s = Some s1 -> boot_reads_fail n s1 s' -> boot_reads_fail n s s'.
Proof.
  revert s. induction fuel as [|fuel IH]; intros s; [done|]. cbn. destruct (sy_stores s !! i) as [[pid p]|]; [|done].
  destruct (stop p); [by intros [= <-]|]. destruct p as [|R c k]; [done|]. destruct (call_once false undisturbed i s) as [s2|] eqn:E2; [|done].
  cbn. intros E Hr. eapply boot_call; [exact E2|]. by apply IH.
Qed.

(** A run stopped by [advance] is about to make the call it was stopped for. *)
Lemma advance_stop fuel stop i s s1 : advance false fuel stop i s = Some s1 -> exists pid p, sy_stores s1 !! i = Some (pid, p) /\ stop p = true.
Proof.
  revert s. induction fuel as [|fuel IH]; intros s; [done|]. cbn. destruct (sy_stores s !! i) as [[pid p]|] eqn:Ei; [|done].
  destruct (stop p) eqn:Es; [intros [= <-]; eauto|]. destruct p as [|R c k]; [done|]. destruct (call_once false undisturbed i s) as [s2|]; [|done].
  cbn. apply IH.
Qed.

Lemma opaque_owner_fails s : opaque_owner = Some s -> boot_reads_fail 1 two_stores s.
Proof.
  unfold opaque_owner. intros E. apply bind_Some in E as (s1 & E1 & E). eapply boot_begin; [exact E1|].
  apply bind_Some in E as (s2 & E2 & E). eapply boot_advance; [exact E2|]. apply advance_stop in E2 as (pid & p & Hp & Hs).
  apply bind_Some in E as (s3 & E3 & E). destruct p as [|R c k]; [done|]. destruct c; try done. eapply boot_fails; [exact Hp|exact E3|].
  apply bind_Some in E as (s4 & E4 & E). eapply boot_advance; [exact E4|]. apply bind_Some in E as (s5 & E5 & E). eapply boot_call; [exact E5|].
  apply bind_Some in E as (s6 & E6 & E). eapply boot_advance; [exact E6|]. apply bind_Some in E as (s7 & E7 & E). eapply boot_begin; [exact E7|].
  eapply boot_advance; [exact E|apply boot_done].
Qed.

Lemma opaque_end_fails s s' : opaque_end s = Some s' -> boot_reads_fail 0 s s'.
Proof.
  unfold opaque_end. intros E. apply bind_Some in E as (s1 & E1 & E). eapply boot_advance; [exact E1|]. eapply boot_advance; [exact E|apply boot_done].
Qed.

(** Two processes that run, the claim of the first one linked but gone, with no release *)
Definition claim_taken (s : system) : bool :=
  bool_decide (is_Some (w_procs (sy_world s) !! 5)) && bool_decide (is_Some (w_procs (sy_world s) !! 6)) &&
  bool_decide (appendLockClaimNameV1 token0 ∈ w_ever (sy_world s)) && bool_decide (w_names (sy_world s) !! appendLockClaimNameV1 token0 = None) &&
  bool_decide (appendLockReleaseNameV1 token0 ∉ w_ever (sy_world s)).


(** Store 0 has linked its claim when listing the directory fails; then store 1 appends, and
    finds the lock taken until its deadline. *)
Definition asks (p : run) : bool := match p with Vis Now _ => true | _ => false end.
Definition late (R : Type) (c : syscall R) (w : world) : choice := At 40000.

Definition left_behind : option system :=
  s ← begin true 10000 0 (batch_of "a") two_stores;
  s ← advance true 1000 (fun p => match p with Vis (Link _ _) _ => true | _ => false end) 0 s;
  s ← call_once true undisturbed 0 s;
  s ← advance true 1000 (fun p => match p with Vis Opendir _ => true | _ => false end) 0 s;
  s ← call_once true (failing "EMFILE") 0 s;
  advance true 1000 returned 0 s.

Definition refused_later (i : nat) (s : system) : option system :=
  s ← begin true 10000 i (batch_of "b") s;
  s ← advance true 1000 asks i s;
  s ← call_once true undisturbed i s;
  s ← advance true 1000 asks i s;
  s ← call_once true undisturbed i s;
  s ← advance true 1000 asks i s;
  s ← call_once true late i s;
  advance true 1000 returned i s.

Definition throws (e : string) (i : nat) (s : system) : bool := match outcome i s with Some (Throw e') => String.eqb e' e | _ => false end.

Lemma throws_outcome e i s : throws e i s = true -> outcome i s = Some (Throw e).
Proof. unfold throws. destruct (outcome i s) as [[[]|e']|]; try done. by intros ->%String.eqb_eq. Qed.

(** The world then: both processes run, and the claim of store 0 is in the directory. *)
Definition left_world : world :=
  set_procs (fun _ => {[5 := mkProcess 77 (instance_text boot0 77); 6 := mkProcess 80 EmptyString]}) crashed.

Lemma left_world_eq : sy_world <$> left_behind = Some left_world.
Proof. by vm_compute. Qed.

Lemma left_claim : claim_ok true left_world 5 token0 (instance_text boot0 77).
Proof.
  split; [done|cbn; set_solver|by vm_compute| |].
  - exists 0%nat, 1, 2. split; [done|]. eexists. split; [reflexivity|reflexivity].
  - intros _. by exists (mkProcess 77 (instance_text boot0 77)).
Qed.

Definition idle_b (w : world) (x : Z * run) : bool :=
  bool_decide (is_Some (w_procs w !! x.1)) && match x.2 with
  | Ret last => bool_decide (locallyReleasedAppendClaimV1 last.2 = None) && bool_decide (locallyUnconfirmedAppendClaimV1 last.2 = None)
  | Vis _ _ => false
  end.

Lemma idle_b_idle w x : idle_b w x = true -> idle w x.
Proof.
  unfold idle_b, idle. destruct x as [q [last|]]; cbn; rewrite !andb_true_iff; [|by intros [_ ?]].
  intros [H1%bool_decide_eq_true [H2%bool_decide_eq_true H3%bool_decide_eq_true]]. split; [done|]. by exists last.
Qed.

(** Later appends of the same store and of the other process find the lock taken until their
    deadline. *)
Example left_behind_refuses : exists s, left_behind = Some s /\ throws "EMFILE" 0 s = true /\
  match refused_later 0 s with Some s0 => throws "VOID_RECEIPT_APPEND_CROSS_PROCESS_LOCKED_V1" 0 s0 | None => false end = true /\
  match refused_later 1 s with Some s1 => throws "VOID_RECEIPT_APPEND_CROSS_PROCESS_LOCKED_V1" 1 s1 | None => false end = true.
Proof.
  destruct (run_to left_behind (fun s => throws "EMFILE" 0 s &&
    match refused_later 0 s with Some s0 => throws "VOID_RECEIPT_APPEND_CROSS_PROCESS_LOCKED_V1" 0 s0 | None => false end &&
    match refused_later 1 s with Some s1 => throws "VOID_RECEIPT_APPEND_CROSS_PROCESS_LOCKED_V1" 1 s1 | None => false end)) as (s & Es & Ht);
    [by vm_compute|]. apply andb_true_iff in Ht as [[H1 H2]%andb_true_iff H3]. exists s. exact (conj Es (conj H1 (conj H2 H3))).
Qed.

(** After one listing has failed, no append of any store gets to work on the shards while
    process 5 runs. *)
Lemma receipt_claim_left_behind_witness : exists s, rtc (step true true 10000) (mkSystem empty_world ∅) s /\
  outcome 0 s = Some (Throw "EMFILE") /\ sy_world s = left_world /\
  forall s', rtc (step_while true true 10000 5) s s' ->
    (forall i q p, sy_stores s' !! i = Some (q, p) -> critical p = false) /\
    reduced (w_removed (sy_world s')) [] (w_dir (sy_world s')).
Proof.
  destruct (run_to left_behind (fun s => throws "EMFILE" 0 s && bool_decide (map_Forall (fun _ x => idle_b (sy_world s) x = true) (sy_stores s))))
    as (s & Es & Ht); [by vm_compute|]. apply andb_true_iff in Ht as [Ht Hid]. apply bool_decide_eq_true in Hid. pose proof left_world_eq as Hw. rewrite Es in Hw. injection Hw as Hw.
  assert (rtc (step true true 10000) (mkSystem empty_world ∅) s) as Hr
    by (etrans; [apply two_stores_steps|]; unfold left_behind in Es; clear -Es; run_steps_at true).
  exists s. split; [exact Hr|]. split; [by apply throws_outcome|]. split; [exact Hw|]. intros s' Hr'.
  change [] with (w_dir left_world). rewrite <- Hw.
  apply (receipt_claim_left_behind true true 10000 (fun _ => eq_refl) ltac:(lia) empty_world s s' 5 token0 (instance_text boot0 77)
    (empty_world_ok true) Hr); [rewrite Hw; exact left_claim|rewrite Hw; by eexists| |exact Hr'].
  intros i x Hi. apply idle_b_idle. exact (Hid i x Hi).
Defined.
