(* ===== verification/UdpPacket.v ===== *)
(** * Secure packets between peers

    Model of the packets of [src/p2p/udp_secure_reliable_transport_v1.ts]: the keys of a
    session from two reciprocal key offers, the header of a packet with its nonce and
    additional data, and sealing and opening of packets.

    X25519, HKDF, AES-256-GCM and the export of public keys of [node:crypto] are the interface
    [SessionCrypto] with the documented laws [SessionCryptoLaws].  The offers are typed values:
    their creation and verification are not modelled.  Buffers are lists of bytes. *)

From Stdlib Require Import Ascii.
From S2P Require Import Prelude Js JsText CanonicalJson Sha256 MerkleRoots JsConvert JsonParse NodeBuffer ChainBase.

Definition VOID_P2P_UDP_SECURE_RELIABLE_MAX_PAYLOAD_BYTES_V1 : Z := 16 * 1024.
Definition VOID_P2P_UDP_SECURE_RELIABLE_MAX_IN_FLIGHT_V1 : Z := 32.
Definition VOID_P2P_UDP_SECURE_RELIABLE_RECV_WINDOW_V1 : Z := 64.
Definition VOID_P2P_UDP_SECURE_RELIABLE_PACKET_REPLAY_WINDOW_V1 : Z := 256.
Definition VOID_P2P_UDP_SECURE_RELIABLE_RTO_MS_V1 : Z := 250.
Definition VOID_P2P_UDP_SECURE_RELIABLE_MAX_RETRIES_V1 : Z := 5.
Definition VOID_P2P_UDP_SECURE_RELIABLE_IDENTITY_ALGORITHM_V1 : string := "ed25519".
Definition VOID_P2P_UDP_SECURE_RELIABLE_SIGNATURE_ALGORITHM_V1 : string := "ed25519".
Definition VOID_P2P_UDP_SECURE_RELIABLE_KEX_ALGORITHM_V1 : string := "x25519".
Definition VOID_P2P_UDP_SECURE_RELIABLE_KDF_ALGORITHM_V1 : string := "hkdf-sha256".
Definition VOID_P2P_UDP_SECURE_RELIABLE_AEAD_ALGORITHM_V1 : string := "aes-256-gcm".

Definition KDF_DOMAIN : string := "VOID_P2P_UDP_SECURE_RELIABLE_KDF_V1".
Definition PACKET_DOMAIN : string := "VOID_P2P_UDP_SECURE_RELIABLE_PACKET_V1".

(** ** What is called *)

(** A private key is a value of its own type; its public key is the DER text in base64. *)
Class SessionCrypto : Type := {
  private_key : Type;
  is_x25519 : private_key -> bool;
  public_b64 : private_key -> string;
  public_key_type : string -> res string;
  diffieHellman : private_key -> string -> list Z;
  hkdf : list Z -> list Z -> list Z -> nat -> list Z;
  gcm_seal : list Z -> list Z -> list Z -> list Z -> list Z * list Z;
  gcm_open : list Z -> list Z -> list Z -> list Z -> list Z -> option (list Z)
}.

Class SessionCryptoLaws (C : SessionCrypto) : Prop := {
  dh_agrees : forall a b, diffieHellman a (public_b64 b) = diffieHellman b (public_b64 a);
  hkdf_length : forall k s i n, length (hkdf k s i n) = n;
  gcm_bytes : forall k n a p, Forall is_byte p -> Forall is_byte (gcm_seal k n a p).1 /\ Forall is_byte (gcm_seal k n a p).2;
  gcm_length : forall k n a p, length (gcm_seal k n a p).1 = length p /\ length (gcm_seal k n a p).2 = 16%nat;
  gcm_round : forall k n a p, Forall is_byte p -> gcm_open k n a (gcm_seal k n a p).1 (gcm_seal k n a p).2 = Some p
}.

(** ** Data *)

Record VoidUdpSecureKeyOfferV1 := mkOffer {
  of_authenticated_path_protocol : Z; of_authenticated_path_proof_sig : string;
  of_identity_algorithm : string; of_signature_algorithm : string; of_kex_algorithm : string;
  of_kdf_algorithm : string; of_aead_algorithm : string;
  of_session_id : string; of_source_node_id : string; of_target_node_id : string;
  of_x25519_pubkey_b64 : string; of_source_observed_endpoint : string; of_target_observed_endpoint : string; of_nonce : string
}.

Record VoidUdpSecureDirectionKeysV1 := mkKeys {
  k_session_id : string; k_local_node_id : string; k_peer_node_id : string; k_aead_algorithm : string;
  k_send_key : list Z; k_recv_key : list Z; k_send_nonce_prefix : list Z; k_recv_nonce_prefix : list Z
}.

Inductive kind : Type := data | ack.

#[export] Instance kind_eq : EqDecision kind.
Proof. solve_decision. Defined.

Record packet_header := mkHeader {
  h_session_id : string; h_source_node_id : string; h_target_node_id : string;
  h_kind : kind; h_packet_no : Z; h_data_seq : option Z; h_ack_seq : Z
}.

Record VoidUdpSecurePacketV1 := mkPacket { p_header : packet_header; p_ciphertext_b64 : string; p_tag_b64 : string }.

Definition kind_text (k : kind) : string := match k with data => "data" | ack => "ack" end.

(** The fields of a header, in the order of the object that [header] returns *)
Definition header_fields (h : packet_header) : list (string * json) :=
  ["aead_algorithm" ~> JStr VOID_P2P_UDP_SECURE_RELIABLE_AEAD_ALGORITHM_V1; "session_id" ~> JStr (h_session_id h);
   "source_node_id" ~> JStr (h_source_node_id h); "target_node_id" ~> JStr (h_target_node_id h);
   "kind" ~> JStr (kind_text (h_kind h)); "packet_no" ~> jint (h_packet_no h);
   "data_seq" ~> match h_data_seq h with Some s => jint s | None => JNull end; "ack_seq" ~> jint (h_ack_seq h)].

Definition packet_json (p : VoidUdpSecurePacketV1) : json :=
  JObj (["type" ~> JStr "VOID_UDP_SECURE_PACKET"; "protocol" ~> jint 1] ++ header_fields (p_header p) ++
        ["ciphertext_b64" ~> JStr (p_ciphertext_b64 p); "tag_b64" ~> JStr (p_tag_b64 p)]).

(** ** Checks *)

Definition safeInteger (raw : number) (min max : Z) : option Z :=
  match raw with
  | Integer z => if (Z.abs z <=? MAX_SAFE_INTEGER) && (min <=? z) && (z <=? max) then Some z else None
  | _ => None
  end.

Definition nodeId (raw : string) : option string := if is_hex_digits 32 raw then Some raw else None.
Definition id_text (raw : string) : option string := if is_hex_digits 32 raw then Some raw else None.

Definition is_base64_char (c : ascii) : bool :=
  in_range 65 90 c || in_range 97 122 c || in_range 48 57 c || Ascii.eqb c "+" || Ascii.eqb c "/".

(** [/^[A-Za-z0-9+/]+={0,2}$/] *)
Fixpoint is_base64_tail (s : string) : bool :=
  match s with
  | EmptyString => true
  | String c s' => if is_base64_char c then is_base64_tail s' else String.eqb s "=" || String.eqb s "=="
  end.

Definition is_base64_text (s : string) : bool :=
  match s with String c s' => is_base64_char c && is_base64_tail s' | EmptyString => false end.

Definition canonicalBase64 (raw : json) (minBytes maxBytes : Z) : option string :=
  match raw with
  | JStr s =>
      if String.eqb s EmptyString then (if minBytes =? 0 then Some EmptyString else None) else
      let length_of := Z.of_nat (String.length s) in
      if negb (length_of mod 4 =? 0) || ((maxBytes + 2) / 3 * 4 + 4 <? length_of) then None else
      if negb (is_base64_text s) then None else
      let decoded := from_base64 s in
      let n := Z.of_nat (length decoded) in
      if (n <? minBytes) || (maxBytes <? n) then None else
      if String.eqb (to_base64 decoded) s then Some s else None
  | _ => None
  end.

(** ** Keys *)

Definition offer_json (o : VoidUdpSecureKeyOfferV1) : json :=
  JObj ["authenticated_path_protocol" ~> jint (of_authenticated_path_protocol o);
        "authenticated_path_proof_sig" ~> JStr (of_authenticated_path_proof_sig o);
        "identity_algorithm" ~> JStr (of_identity_algorithm o); "signature_algorithm" ~> JStr (of_signature_algorithm o);
        "kex_algorithm" ~> JStr (of_kex_algorithm o); "kdf_algorithm" ~> JStr (of_kdf_algorithm o);
        "aead_algorithm" ~> JStr (of_aead_algorithm o); "source_node_id" ~> JStr (of_source_node_id o);
        "target_node_id" ~> JStr (of_target_node_id o); "x25519_pubkey_b64" ~> JStr (of_x25519_pubkey_b64 o);
        "source_observed_endpoint" ~> JStr (of_source_observed_endpoint o);
        "target_observed_endpoint" ~> JStr (of_target_observed_endpoint o); "nonce" ~> JStr (of_nonce o)].

Section keys.
Context `{SessionCrypto} `{BufferDigest} `{Locale}.

Definition kdfSalt (local remote : VoidUdpSecureKeyOfferV1) : list Z :=
  let offers := isort (fun a b => localeLe (of_source_node_id a) (of_source_node_id b)) [local; remote] in
  sha256_buffer (json_bytes (JObj ["domain" ~> JStr KDF_DOMAIN; "kdf_algorithm" ~> JStr VOID_P2P_UDP_SECURE_RELIABLE_KDF_ALGORITHM_V1;
    "session_id" ~> JStr (of_session_id local); "offers" ~> JArr (map offer_json offers)])).

Definition derive (shared salt : list Z) (label : string) (bytes : nat) : list Z := hkdf shared salt (utf8_bytes label) bytes.

Definition dir_label (session source target purpose : string) : string :=
  KDF_DOMAIN +:+ "|" +:+ VOID_P2P_UDP_SECURE_RELIABLE_KDF_ALGORITHM_V1 +:+ "|" +:+ purpose +:+ "|" +:+ session +:+ "|" +:+ source +:+ "|" +:+ target.

(** The offers of two peers that belong together *)
Definition offers_consistent (localOffer remoteOffer : VoidUdpSecureKeyOfferV1) : bool :=
  String.eqb (of_identity_algorithm localOffer) VOID_P2P_UDP_SECURE_RELIABLE_IDENTITY_ALGORITHM_V1 &&
  String.eqb (of_identity_algorithm remoteOffer) (of_identity_algorithm localOffer) &&
  String.eqb (of_signature_algorithm localOffer) VOID_P2P_UDP_SECURE_RELIABLE_SIGNATURE_ALGORITHM_V1 &&
  String.eqb (of_signature_algorithm remoteOffer) (of_signature_algorithm localOffer) &&
  String.eqb (of_kex_algorithm localOffer) VOID_P2P_UDP_SECURE_RELIABLE_KEX_ALGORITHM_V1 &&
  String.eqb (of_kex_algorithm remoteOffer) (of_kex_algorithm localOffer) &&
  String.eqb (of_kdf_algorithm localOffer) VOID_P2P_UDP_SECURE_RELIABLE_KDF_ALGORITHM_V1 &&
  String.eqb (of_kdf_algorithm remoteOffer) (of_kdf_algorithm localOffer) &&
  String.eqb (of_aead_algorithm localOffer) VOID_P2P_UDP_SECURE_RELIABLE_AEAD_ALGORITHM_V1 &&
  String.eqb (of_aead_algorithm remoteOffer) (of_aead_algorithm localOffer) &&
  (of_authenticated_path_protocol localOffer =? 1) &&
  (of_authenticated_path_protocol remoteOffer =? of_authenticated_path_protocol localOffer) &&
  String.eqb (of_session_id localOffer) (of_session_id remoteOffer) &&
  String.eqb (of_source_node_id localOffer) (of_target_node_id remoteOffer) &&
  String.eqb (of_target_node_id localOffer) (of_source_node_id remoteOffer) &&
  String.eqb (of_source_observed_endpoint localOffer) (of_target_observed_endpoint remoteOffer) &&
  String.eqb (of_target_observed_endpoint localOffer) (of_source_observed_endpoint remoteOffer).

Definition deriveVoidUdpSecureDirectionKeysV1 (localX25519PrivateKey : private_key) (localOffer remoteOffer : VoidUdpSecureKeyOfferV1)
    : res VoidUdpSecureDirectionKeysV1 :=
  throw_if (negb (is_x25519 localX25519PrivateKey) || negb (offers_consistent localOffer remoteOffer))
    "secure UDP reciprocal key offers inconsistent";;
  throw_if (negb (String.eqb (public_b64 localX25519PrivateKey) (of_x25519_pubkey_b64 localOffer)))
    "local X25519 private key does not match signed offer";;
  remote_type ← public_key_type (of_x25519_pubkey_b64 remoteOffer);
  throw_if (negb (String.eqb remote_type "x25519")) "remote secure UDP key offer KEX key is not X25519";;
  let shared := diffieHellman localX25519PrivateKey (of_x25519_pubkey_b64 remoteOffer) in
  let salt := kdfSalt localOffer remoteOffer in
  let dir := dir_label (of_session_id localOffer) in
  Ok (mkKeys (of_session_id localOffer) (of_source_node_id localOffer) (of_target_node_id localOffer) (of_aead_algorithm localOffer)
    (derive shared salt (dir (of_source_node_id localOffer) (of_target_node_id localOffer) "key") 32)
    (derive shared salt (dir (of_source_node_id remoteOffer) (of_target_node_id remoteOffer) "key") 32)
    (derive shared salt (dir (of_source_node_id localOffer) (of_target_node_id localOffer) "nonce") 4)
    (derive shared salt (dir (of_source_node_id remoteOffer) (of_target_node_id remoteOffer) "nonce") 4)).
End keys.

(** ** Packets *)

(** [writeBigUInt64BE] after the prefix *)
Definition nonce (prefix : list Z) (packetNo : Z) : res (list Z) :=
  throw_if (negb (length prefix =? 4)%nat || bool_decide (safeInteger (Integer packetNo) 0 MAX_SAFE_INTEGER = None))
    "secure UDP packet nonce invalid";;
  Ok (prefix ++ word_bytes (Z.shiftr packetNo 32) ++ word_bytes packetNo).

Definition header (session_id source_node_id target_node_id : string) (k : kind) (packet_no : number) (data_seq : option number)
    (ack_seq : number) : res packet_header :=
  let data := match k, data_seq with
    | data, Some n => Some <$> safeInteger n 0 MAX_SAFE_INTEGER
    | ack, None => Some None
    | _, _ => None
    end in
  match id_text session_id, nodeId source_node_id, nodeId target_node_id, safeInteger packet_no 0 MAX_SAFE_INTEGER,
        safeInteger ack_seq (-1) MAX_SAFE_INTEGER, data with
  | Some session_id, Some source_node_id, Some target_node_id, Some packet_no, Some ack_seq, Some data_seq =>
      throw_if (String.eqb source_node_id target_node_id) "secure UDP packet header invalid";;
      Ok (mkHeader session_id source_node_id target_node_id k packet_no data_seq ack_seq)
  | _, _, _, _, _, _ => Throw "secure UDP packet header invalid"
  end.

Definition aad (h : packet_header) : list Z :=
  json_bytes (JObj (["domain" ~> JStr PACKET_DOMAIN; "protocol" ~> jint 1] ++ header_fields h)).

Section packets.
Context `{SessionCrypto}.

Definition encodeVoidUdpSecurePacketV1 (keys : VoidUdpSecureDirectionKeysV1) (k : kind) (packetNo : number) (dataSeq : option number)
    (ackSeq : number) (plaintext : list Z) : res VoidUdpSecurePacketV1 :=
  throw_if (negb (String.eqb (k_aead_algorithm keys) VOID_P2P_UDP_SECURE_RELIABLE_AEAD_ALGORITHM_V1))
    "secure UDP direction keys use unsupported AEAD algorithm";;
  let size := Z.of_nat (length plaintext) in
  throw_if (bool_decide (k = ack) && negb (size =? 0)) "ACK cannot carry payload";;
  throw_if (VOID_P2P_UDP_SECURE_RELIABLE_MAX_PAYLOAD_BYTES_V1 <? size) "payload too large";;
  h ← header (k_session_id keys) (k_local_node_id keys) (k_peer_node_id keys) k packetNo dataSeq ackSeq;
  iv ← nonce (k_send_nonce_prefix keys) (h_packet_no h);
  let '(ciphertext, tag) := gcm_seal (k_send_key keys) iv (aad h) plaintext in
  Ok (mkPacket h (to_base64 ciphertext) (to_base64 tag)).

Context `{StringNumber}.

Definition packet_keys : list string :=
  ["type"; "protocol"; "aead_algorithm"; "session_id"; "source_node_id"; "target_node_id"; "kind";
   "packet_no"; "data_seq"; "ack_seq"; "ciphertext_b64"; "tag_b64"]%string.

(** [String(v ?? "")] *)
Definition text_or_empty (v : json) : res string := match v with JUndefined | JNull => Ok EmptyString | _ => js_String v end.

(** The header of a packet that was received *)
Definition receivedHeader (value : json) (k : kind) : res packet_header :=
  session_id ← text_or_empty (value.@"session_id");
  source_node_id ← text_or_empty (value.@"source_node_id");
  target_node_id ← text_or_empty (value.@"target_node_id");
  packet_no ← js_Number (value.@"packet_no");
  data_seq ← match value.@"data_seq" with JNull => Ok None | v => Some <$> js_Number v end;
  ack_seq ← js_Number (value.@"ack_seq");
  header session_id source_node_id target_node_id k packet_no data_seq ack_seq.

Definition kind_of (v : json) : option kind :=
  if v === JStr "data" then Some data else if v === JStr "ack" then Some ack else None.

(** The plaintext of a packet that has passed the checks of its fields *)
Definition openPacket (keys : VoidUdpSecureDirectionKeysV1) (p : VoidUdpSecurePacketV1) : option (list Z) :=
  match nonce (k_recv_nonce_prefix keys) (h_packet_no (p_header p)) with
  | Ok iv => gcm_open (k_recv_key keys) iv (aad (p_header p)) (from_base64 (p_ciphertext_b64 p)) (from_base64 (p_tag_b64 p))
  | Throw _ => None
  end.

Definition decryptVoidUdpSecurePacketV1 (raw : json) (keys : VoidUdpSecureDirectionKeysV1) : option (VoidUdpSecurePacketV1 * list Z) :=
  if negb (String.eqb (k_aead_algorithm keys) VOID_P2P_UDP_SECURE_RELIABLE_AEAD_ALGORITHM_V1) then None else
  match raw with
  | JObj _ =>
      if negb (same_keys raw packet_keys) then None else
      if (raw.@"type" !== JStr "VOID_UDP_SECURE_PACKET") || (raw.@"protocol" !== jint 1) ||
         (raw.@"aead_algorithm" !== JStr VOID_P2P_UDP_SECURE_RELIABLE_AEAD_ALGORITHM_V1) then None else
      k ← kind_of (raw.@"kind");
      match receivedHeader raw k with
      | Throw _ => None
      | Ok h =>
          if negb (String.eqb (h_session_id h) (k_session_id keys)) || negb (String.eqb (h_source_node_id h) (k_peer_node_id keys)) ||
             negb (String.eqb (h_target_node_id h) (k_local_node_id keys)) then None else
          ciphertext_b64 ← canonicalBase64 (raw.@"ciphertext_b64") 0 VOID_P2P_UDP_SECURE_RELIABLE_MAX_PAYLOAD_BYTES_V1;
          tag_b64 ← canonicalBase64 (raw.@"tag_b64") 16 16;
          let p := mkPacket h ciphertext_b64 tag_b64 in
          plaintext ← openPacket keys p;
          if bool_decide (h_kind h = ack) && negb (length plaintext =? 0)%nat then None else Some (p, plaintext)
      end
  | _ => None
  end.
End packets.
