(* ===== verification/UdpSession.v ===== *)
(** * Sessions of secure packets

    Two peers whose key offers belong together derive the same two keys, one for each
    direction, and a packet that one seals is the packet that the other opens. *)

From Stdlib Require Import Ascii.
From S2P Require Import Prelude Js JsText CanonicalJson Sha256 MerkleRoots JsConvert JsonParse NodeBuffer ChainBase UdpPacket.

(** Keys that [header] and [nonce] accept *)
Definition usable (keys : VoidUdpSecureDirectionKeysV1) : bool :=
  String.eqb (k_aead_algorithm keys) VOID_P2P_UDP_SECURE_RELIABLE_AEAD_ALGORITHM_V1 &&
  is_hex_digits 32 (k_session_id keys) && is_hex_digits 32 (k_local_node_id keys) && is_hex_digits 32 (k_peer_node_id keys) &&
  negb (String.eqb (k_local_node_id keys) (k_peer_node_id keys)) &&
  (length (k_send_nonce_prefix keys) =? 4)%nat && (length (k_recv_nonce_prefix keys) =? 4)%nat.

(** The keys of the other end of a session *)
Definition paired (a b : VoidUdpSecureDirectionKeysV1) : Prop :=
  b = mkKeys (k_session_id a) (k_peer_node_id a) (k_local_node_id a) (k_aead_algorithm a)
    (k_recv_key a) (k_send_key a) (k_recv_nonce_prefix a) (k_send_nonce_prefix a).

(** Numbers that a header can carry *)
Definition header_ranges (h : packet_header) : Prop :=
  0 <= h_packet_no h <= MAX_SAFE_INTEGER /\ -1 <= h_ack_seq h <= MAX_SAFE_INTEGER /\
  match h_kind h, h_data_seq h with
  | data, Some q => 0 <= q <= MAX_SAFE_INTEGER
  | ack, None => True
  | _, _ => False
  end.

Lemma paired_sym a b : paired a b -> paired b a.
Proof. unfold paired. intros ->. by destruct a. Qed.

Lemma usable_paired a b : paired a b -> usable a = true -> usable b = true.
Proof.
  unfold paired, usable. intros ->. cbn. rewrite !andb_true_iff, !negb_true_iff, !String.eqb_neq. naive_solver.
Qed.

Lemma safeInteger_Some raw lo hi z : safeInteger raw lo hi = Some z <->
  raw = Integer z /\ lo <= z <= hi /\ Z.abs z <= MAX_SAFE_INTEGER.
Proof.
  unfold safeInteger. destruct raw as [x| | |]; [|naive_solver..].
  destruct (_ && _ && _) eqn:E; rewrite ?andb_true_iff, ?andb_false_iff, ?Z.leb_le, ?Z.leb_gt in E.
  - split; [intros [= ->]; split; [done|lia]|]. by intros [[= ->] _].
  - split; [done|]. intros [[= ->] ?]. lia.
Qed.

Lemma safeInteger_ok z lo hi : lo <= z <= hi -> -1 <= lo -> hi <= MAX_SAFE_INTEGER -> safeInteger (Integer z) lo hi = Some z.
Proof. intros. apply safeInteger_Some. unfold MAX_SAFE_INTEGER in *. split; [done|lia]. Qed.

Lemma nonce_ok prefix n : length prefix = 4%nat -> 0 <= n <= MAX_SAFE_INTEGER ->
  nonce prefix n = Ok (prefix ++ word_bytes (Z.shiftr n 32) ++ word_bytes n).
Proof. intros Hl Hn. unfold nonce. rewrite Hl, (safeInteger_ok n 0) by lia. done. Qed.

(** The data sequence that a kind of packet asks for *)
Definition seq_fits (k : kind) (seq : option Z) : Prop :=
  match k, seq with data, Some q => 0 <= q <= MAX_SAFE_INTEGER | ack, None => True | _, _ => False end.

Lemma header_ok s a b k n q r : is_hex_digits 32 s = true -> is_hex_digits 32 a = true -> is_hex_digits 32 b = true -> a <> b ->
  0 <= n <= MAX_SAFE_INTEGER -> seq_fits k q -> -1 <= r <= MAX_SAFE_INTEGER ->
  header s a b k (Integer n) (Integer <$> q) (Integer r) = Ok (mkHeader s a b k n q r).
Proof.
  intros Hs Ha Hb Hne Hn Hq Hr. unfold header, id_text, nodeId. rewrite Hs, Ha, Hb, (safeInteger_ok n 0), (safeInteger_ok r (-1)) by lia.
  apply String.eqb_neq in Hne. destruct k, q as [q|]; try done; cbn [fmap option_fmap option_map seq_fits] in *.
  - rewrite (safeInteger_ok q 0) by lia. cbn. by rewrite Hne.
  - by rewrite Hne.
Qed.

Lemma header_inv s a b k n q r h : header s a b k n q r = Ok h ->
  header_ranges h /\ h_kind h = k /\ h_session_id h = s /\ h_source_node_id h = a /\ h_target_node_id h = b /\
  is_hex_digits 32 s = true /\ is_hex_digits 32 a = true /\ is_hex_digits 32 b = true /\ a <> b.
Proof.
  unfold header, id_text, nodeId. intros Hh. repeat case_match; try done; simplify_eq;
    apply bind_Ok in Hh as (? & Hne%throw_if_Ok%String.eqb_neq & [= <-]);
    repeat match goal with H : safeInteger _ _ _ = Some _ |- _ => apply safeInteger_Some in H as (-> & ? & ?) end;
    repeat match goal with H : _ <$> _ = Some _ |- _ => apply fmap_Some in H as (? & (_ & ? & ?)%safeInteger_Some & ->) end;
    repeat split; try done; cbn; unfold MAX_SAFE_INTEGER in *; lia.
Qed.

Lemma header_numbers s a b k n q r h : header s a b k n q r = Ok h ->
  n = Integer (h_packet_no h) /\ q = Integer <$> h_data_seq h /\ r = Integer (h_ack_seq h).
Proof.
  unfold header, id_text, nodeId. intros Hh. repeat case_match; try done; simplify_eq;
    apply bind_Ok in Hh as (? & _ & [= <-]);
    repeat match goal with H : _ <$> _ = Some _ |- _ => apply fmap_Some in H as (? & ? & ->) end;
    repeat match goal with H : safeInteger _ _ _ = Some _ |- _ => apply safeInteger_Some in H as (-> & _ & _) end; done.
Qed.

(** ** Canonical base64 *)

Lemma base64_char_ok n : 0 <= n < 64 -> is_base64_char (base64_char n) = true.
Proof.
  intros Hn. cut (forallb (fun k => is_base64_char (base64_char (Z.of_nat k))) (seq 0 64) = true).
  { rewrite forallb_forall. intros Hall. specialize (Hall (Z.to_nat n)). rewrite Z2Nat.id in Hall by lia. apply Hall, in_seq. lia. }
  by vm_compute.
Qed.

Lemma base64_tail_cons n s : 0 <= n < 64 -> is_base64_tail (String (base64_char n) s) = is_base64_tail s.
Proof. intros Hn. cbn [is_base64_tail]. by rewrite base64_char_ok. Qed.

Lemma base64_tail_ok b : Forall is_byte b -> is_base64_tail (to_base64 b) = true /\
  String.length (to_base64 b) = (4 * ((length b + 2) / 3))%nat.
Proof.
  induction b as [b IH] using (induction_ltof1 _ (@length Z)). intros Hb. unfold ltof in IH.
  assert (is_byte 0) as H0 by (unfold is_byte; lia).
  destruct b as [|x [|y [|z b]]]; [done|..]; rewrite ?Forall_cons in Hb; destruct_and? Hb; cbn [to_base64];
    repeat match goal with H : is_byte ?v |- _ => lazymatch goal with
      | _ : 0 <= v / 4 < 64 /\ _ |- _ => fail | _ => pose proof (sextets v H) end end.
  - rewrite !base64_tail_cons by lia. done.
  - rewrite !base64_tail_cons by lia. done.
  - rewrite !base64_tail_cons by lia. destruct (IH b) as [IH1 IH2]; [simpl; lia|done|]. split; [done|].
    cbn [String.length length]. rewrite IH2. replace (S (S (S (length b))) + 2)%nat with (length b + 2 + 1 * 3)%nat by lia.
    rewrite Nat.div_add by lia. lia.
Qed.

Lemma base64_text_ok b : Forall is_byte b -> b <> [] -> is_base64_text (to_base64 b) = true.
Proof.
  intros Hb Hne. pose proof (proj1 (base64_tail_ok b Hb)) as Ht. unfold is_base64_text. destruct b as [|x b]; [done|].
  apply Forall_cons in Hb as [Hx Hb]. pose proof (sextets x Hx).
  destruct b as [|y [|z b]]; cbn [to_base64] in *; rewrite base64_char_ok by lia; rewrite base64_tail_cons in Ht by lia; done.
Qed.

Lemma canonicalBase64_ok b lo hi : Forall is_byte b -> 0 <= lo <= Z.of_nat (length b) -> Z.of_nat (length b) <= hi ->
  canonicalBase64 (JStr (to_base64 b)) lo hi = Some (to_base64 b).
Proof.
  intros Hb Hlo Hhi. unfold canonicalBase64. destruct (decide (b = [])) as [->|Hne].
  { cbn. by replace lo with 0 by (cbn in Hlo; lia). }
  pose proof (base64_text_ok b Hb Hne) as Ht. destruct (String.eqb _ EmptyString) eqn:E.
  { apply String.eqb_eq in E. by rewrite E in Ht. }
  rewrite (proj2 (base64_tail_ok b Hb)), Ht, from_to_base64, String.eqb_refl by done. cbn [negb].
  replace (Z.of_nat (4 * ((length b + 2) / 3))) with (((Z.of_nat (length b) + 2) / 3) * 4)
    by (rewrite Nat2Z.inj_mul, Nat2Z.inj_div, Nat2Z.inj_add; lia).
  rewrite Z_mod_mult. assert ((Z.of_nat (length b) + 2) / 3 <= (hi + 2) / 3) by (apply Z.div_le_mono; lia).
  repeat match goal with |- context [Z.ltb ?x ?y] => replace (Z.ltb x y) with false by (symmetry; apply Z.ltb_ge; lia) end. done.
Qed.

(** ** Sealing and opening *)

Section packets.
Context `{SessionCrypto} `{!SessionCryptoLaws _}.

Lemma usable_facts keys : usable keys = true ->
  k_aead_algorithm keys = VOID_P2P_UDP_SECURE_RELIABLE_AEAD_ALGORITHM_V1 /\ is_hex_digits 32 (k_session_id keys) = true /\
  is_hex_digits 32 (k_local_node_id keys) = true /\ is_hex_digits 32 (k_peer_node_id keys) = true /\
  k_local_node_id keys <> k_peer_node_id keys /\
  length (k_send_nonce_prefix keys) = 4%nat /\ length (k_recv_nonce_prefix keys) = 4%nat.
Proof.
  unfold usable. rewrite !andb_true_iff, !String.eqb_eq, !Nat.eqb_eq, negb_true_iff, String.eqb_neq. tauto.
Qed.

(** The packet that carries a text *)
Definition sealed (keys : VoidUdpSecureDirectionKeysV1) (h : packet_header) (plaintext : list Z) : VoidUdpSecurePacketV1 :=
  let iv := k_send_nonce_prefix keys ++ word_bytes (Z.shiftr (h_packet_no h) 32) ++ word_bytes (h_packet_no h) in
  let c := gcm_seal (k_send_key keys) iv (aad h) plaintext in
  mkPacket h (to_base64 c.1) (to_base64 c.2).

Definition local_header (keys : VoidUdpSecureDirectionKeysV1) (k : kind) (n : Z) (q : option Z) (r : Z) : packet_header :=
  mkHeader (k_session_id keys) (k_local_node_id keys) (k_peer_node_id keys) k n q r.

Lemma encode_ok keys k n q r plaintext : usable keys = true -> 0 <= n <= MAX_SAFE_INTEGER -> seq_fits k q -> -1 <= r <= MAX_SAFE_INTEGER ->
  Z.of_nat (length plaintext) <= VOID_P2P_UDP_SECURE_RELIABLE_MAX_PAYLOAD_BYTES_V1 -> (k = ack -> plaintext = []) ->
  encodeVoidUdpSecurePacketV1 keys k (Integer n) (Integer <$> q) (Integer r) plaintext = Ok (sealed keys (local_header keys k n q r) plaintext).
Proof.
  intros (Ha & Hs & Hl & Hp & Hne & Hpre & _)%usable_facts Hn Hq Hr Hsize Hack. unfold encodeVoidUdpSecurePacketV1.
  rewrite Ha, String.eqb_refl. cbn [negb throw_if mbind res_bind].
  destruct (bool_decide (k = ack) && _) eqn:E.
  { apply andb_true_iff in E as [E1%bool_decide_eq_true E2]. by rewrite (Hack E1) in E2. }
  apply Z.ltb_ge in Hsize. rewrite Hsize. cbn [throw_if mbind res_bind]. rewrite header_ok by done. cbn [mbind res_bind h_packet_no].
  rewrite nonce_ok by done. cbn [mbind res_bind]. unfold sealed, local_header. cbn [h_packet_no]. by destruct (gcm_seal _ _ _ _).
Qed.

Lemma open_sealed a b h plaintext : usable a = true -> paired a b -> 0 <= h_packet_no h <= MAX_SAFE_INTEGER -> Forall is_byte plaintext ->
  openPacket b (sealed a h plaintext) = Some plaintext.
Proof.
  intros (_ & _ & _ & _ & _ & Hpre & _)%usable_facts -> Hn Hb. unfold openPacket, sealed. cbn [p_header p_ciphertext_b64 p_tag_b64 k_recv_nonce_prefix k_recv_key].
  rewrite nonce_ok by done.
  set (iv := _ ++ _). destruct (gcm_bytes (k_send_key a) iv (aad h) plaintext Hb) as [Hc Ht].
  rewrite !from_to_base64 by done. by apply gcm_round.
Qed.

Lemma encode_inv keys k n q r plaintext p : usable keys = true -> encodeVoidUdpSecurePacketV1 keys k n q r plaintext = Ok p ->
  header_ranges (p_header p) /\ (k = ack -> plaintext = []) /\
  Z.of_nat (length plaintext) <= VOID_P2P_UDP_SECURE_RELIABLE_MAX_PAYLOAD_BYTES_V1 /\
  exists n' q' r', n = Integer n' /\ q = Integer <$> q' /\ r = Integer r' /\ p = sealed keys (local_header keys k n' q' r') plaintext.
Proof.
  intros Hu He. pose proof He as Hi. unfold encodeVoidUdpSecurePacketV1 in Hi.
  apply bind_Ok in Hi as (? & _ & (? & Hk%throw_if_Ok & (? & Hs%throw_if_Ok%Z.ltb_ge & (h & Hh & _)%bind_Ok)%bind_Ok)%bind_Ok).
  assert (k = ack -> plaintext = []) as Hack.
  { intros ->. cbn in Hk. apply negb_false_iff, Z.eqb_eq in Hk. destruct plaintext; [done|]. cbn in Hk. lia. }
  pose proof (header_inv _ _ _ _ _ _ _ _ Hh) as (Hr & Hkind & _). apply header_numbers in Hh as (-> & -> & ->).
  destruct Hr as (Hn & Ha & Hq). rewrite Hkind in Hq. rewrite encode_ok in He by done. injection He as <-.
  split; [|by eauto 10]. repeat split; try apply Hn; try apply Ha. done.
Qed.

Context `{StringNumber}.

Lemma kind_of_Some v k : kind_of v = Some k -> v = JStr (kind_text k).
Proof. unfold kind_of. intros Hk. repeat case_match; simplify_eq; by apply strict_eq_str. Qed.

Lemma decrypt_inv raw keys p plaintext : decryptVoidUdpSecurePacketV1 raw keys = Some (p, plaintext) ->
  openPacket keys p = Some plaintext /\ header_ranges (p_header p) /\ is_object raw = true /\
  raw.@"kind" = JStr (kind_text (h_kind (p_header p))).
Proof.
  unfold decryptVoidUdpSecurePacketV1. destruct (negb _); [done|]. destruct raw as [| | | | | |fs]; try done.
  destruct (negb _); [done|]. destruct (_ || _); [done|]. intros (k & Hk%kind_of_Some & Hd)%bind_Some.
  destruct (receivedHeader _ k) as [h|] eqn:Hh; [|done]. destruct (_ || _); [done|].
  apply bind_Some in Hd as (c & _ & (t & _ & (text & Ho & Hd)%bind_Some)%bind_Some). destruct (_ && _); [done|].
  injection Hd as <- <-. unfold receivedHeader in Hh. repeat (apply bind_Ok in Hh as (? & _ & Hh)).
  apply header_inv in Hh as (Hr & <- & _). done.
Qed.

Lemma sealed_sizes keys h plaintext : Forall is_byte plaintext ->
  Z.of_nat (length plaintext) <= VOID_P2P_UDP_SECURE_RELIABLE_MAX_PAYLOAD_BYTES_V1 ->
  canonicalBase64 (JStr (p_ciphertext_b64 (sealed keys h plaintext))) 0 VOID_P2P_UDP_SECURE_RELIABLE_MAX_PAYLOAD_BYTES_V1
    = Some (p_ciphertext_b64 (sealed keys h plaintext)) /\
  canonicalBase64 (JStr (p_tag_b64 (sealed keys h plaintext))) 16 16 = Some (p_tag_b64 (sealed keys h plaintext)).
Proof.
  intros Hb Hsize. unfold sealed. cbn [p_ciphertext_b64 p_tag_b64].
  set (iv := _ ++ _). destruct (gcm_bytes (k_send_key keys) iv (aad h) plaintext Hb) as [Hc Ht].
  destruct (gcm_length (k_send_key keys) iv (aad h) plaintext) as [Lc Lt].
  split; apply canonicalBase64_ok; try done; rewrite ?Lc, ?Lt; lia.
Qed.

Lemma received_local keys k n q r c t : usable keys = true -> 0 <= n <= MAX_SAFE_INTEGER -> seq_fits k q -> -1 <= r <= MAX_SAFE_INTEGER ->
  receivedHeader (packet_json (mkPacket (local_header keys k n q r) c t)) k = Ok (local_header keys k n q r).
Proof.
  intros (_ & Hs & Hl & Hp & Hne & _)%usable_facts Hn Hq Hr. unfold local_header.
  rewrite <- (header_ok (k_session_id keys) (k_local_node_id keys) (k_peer_node_id keys) k n q r) by done.
  destruct k, q as [q|]; done.
Qed.

(** The other end of a session opens the packet that carries a text. *)
Lemma decrypt_sealed a b k n q r plaintext : usable a = true -> paired a b -> 0 <= n <= MAX_SAFE_INTEGER -> seq_fits k q ->
  -1 <= r <= MAX_SAFE_INTEGER -> Forall is_byte plaintext -> (k = ack -> plaintext = []) ->
  Z.of_nat (length plaintext) <= VOID_P2P_UDP_SECURE_RELIABLE_MAX_PAYLOAD_BYTES_V1 ->
  let p := sealed a (local_header a k n q r) plaintext in decryptVoidUdpSecurePacketV1 (packet_json p) b = Some (p, plaintext).
Proof.
  intros Hu Hpair Hn Hq Hr Hb Hack Hsize p. unfold decryptVoidUdpSecurePacketV1.
  destruct (usable_facts b (usable_paired _ _ Hpair Hu)) as (-> & _). rewrite String.eqb_refl. cbn [negb].
  destruct (packet_json p) as [| | | | | |fs] eqn:Hj; try done. rewrite <- Hj.
  replace (same_keys (packet_json p) packet_keys) with true by (symmetry; by vm_compute). cbn [negb].
  replace (kind_of _) with (Some k) by by destruct k. cbn [mbind option_bind].
  replace (_ || _) with false by done.
  subst p. unfold sealed at 1. rewrite received_local by done.
  assert (k_session_id b = k_session_id a /\ k_peer_node_id b = k_local_node_id a /\ k_local_node_id b = k_peer_node_id a) as (-> & -> & ->)
    by by rewrite Hpair.
  cbn [local_header h_session_id h_source_node_id h_target_node_id].
  rewrite !String.eqb_refl. cbn [negb orb].
  destruct (sealed_sizes a (local_header a k n q r) plaintext Hb Hsize) as [Ec Et].
  change (canonicalBase64 (_.@"ciphertext_b64") 0 _) with (canonicalBase64 (JStr (p_ciphertext_b64 (sealed a (local_header a k n q r) plaintext))) 0 VOID_P2P_UDP_SECURE_RELIABLE_MAX_PAYLOAD_BYTES_V1).
  change (canonicalBase64 (_.@"tag_b64") 16 16) with (canonicalBase64 (JStr (p_tag_b64 (sealed a (local_header a k n q r) plaintext))) 16 16).
  rewrite Ec, Et. cbn [mbind option_bind].
  change (mkPacket _ _ _) with (sealed a (local_header a k n q r) plaintext).
  rewrite open_sealed by done. cbn [mbind option_bind h_kind local_header].
  destruct (bool_decide (k = ack) && _) eqn:E; [|done].
  apply andb_true_iff in E as [E1%bool_decide_eq_true E2]. by rewrite (Hack E1) in E2.
Qed.
End packets.

(** C37: a packet that one end of a session seals is, as JSON, exactly the packet that the other
    end accepts, and it opens to the plaintext that was sealed. *)
Theorem packet_roundtrip `{SessionCrypto} `{!SessionCryptoLaws _} `{StringNumber} a b k packetNo dataSeq ackSeq plaintext p :
  usable a = true -> paired a b -> Forall is_byte plaintext ->
  encodeVoidUdpSecurePacketV1 a k packetNo dataSeq ackSeq plaintext = Ok p ->
  decryptVoidUdpSecurePacketV1 (packet_json p) b = Some (p, plaintext).
Proof.
  intros Hu Hpair Hb (Hr & Hack & Hs & n & q & r & -> & -> & -> & ->)%encode_inv; [|done].
  destruct Hr as (? & ? & ?). by apply decrypt_sealed.
Qed.

(** ** Agreement on keys *)

(** Node identifiers are lower-case hexadecimal text, which [localeCompare] orders by its codes. *)
Class NodeIdLocale (L : Locale) : Prop :=
  localeLe_node_id : forall a b, is_hex_digits 32 a = true -> is_hex_digits 32 b = true -> localeLe a b = str_leb a b.

Section agreement.
Context `{SessionCrypto} `{!SessionCryptoLaws _} `{BufferDigest} (L : Locale) `{!NodeIdLocale L}.

Lemma isort_pair (a b : VoidUdpSecureKeyOfferV1) le : le (of_source_node_id a) (of_source_node_id b) = negb (le (of_source_node_id b) (of_source_node_id a)) ->
  isort (fun x y => le (of_source_node_id x) (of_source_node_id y)) [a; b] = isort (fun x y => le (of_source_node_id x) (of_source_node_id y)) [b; a].
Proof. intros He. cbn. rewrite He. by destruct (le (of_source_node_id b) _). Qed.

Lemma str_leb_swap a b : a <> b -> str_leb a b = negb (str_leb b a).
Proof.
  intros Hne. destruct (str_leb a b) eqn:E1, (str_leb b a) eqn:E2; try done.
  - by destruct (Hne (str_leb_antisym _ _ E1 E2)).
  - destruct (str_leb_total a b); congruence.
Qed.

Lemma kdfSalt_comm a b : is_hex_digits 32 (of_source_node_id a) = true -> is_hex_digits 32 (of_source_node_id b) = true ->
  of_source_node_id a <> of_source_node_id b -> of_session_id a = of_session_id b -> kdfSalt a b = kdfSalt b a.
Proof.
  intros Ha Hb Hne Hs. unfold kdfSalt. rewrite Hs, isort_pair; [done|]. rewrite !localeLe_node_id by done. by apply str_leb_swap.
Qed.

Lemma offers_consistent_sym a b : offers_consistent a b = true -> offers_consistent b a = true.
Proof. unfold offers_consistent. rewrite !andb_true_iff, !String.eqb_eq, !Z.eqb_eq. intuition congruence. Qed.

Lemma offers_consistent_facts a b : offers_consistent a b = true ->
  of_aead_algorithm a = VOID_P2P_UDP_SECURE_RELIABLE_AEAD_ALGORITHM_V1 /\ of_aead_algorithm b = of_aead_algorithm a /\
  of_session_id b = of_session_id a /\ of_target_node_id b = of_source_node_id a /\ of_target_node_id a = of_source_node_id b.
Proof. unfold offers_consistent. rewrite !andb_true_iff, !String.eqb_eq, !Z.eqb_eq. intuition congruence. Qed.

(** What a successful derivation has checked *)
Lemma derive_checked x a b k : deriveVoidUdpSecureDirectionKeysV1 x a b = Ok k ->
  is_x25519 x = true /\ offers_consistent a b = true /\ public_b64 x = of_x25519_pubkey_b64 a.
Proof.
  unfold deriveVoidUdpSecureDirectionKeysV1. intros (? & Hc%throw_if_Ok & (? & Hk%throw_if_Ok & _)%bind_Ok)%bind_Ok.
  apply orb_false_iff in Hc as [?%negb_false_iff ?%negb_false_iff]. by apply negb_false_iff, String.eqb_eq in Hk.
Qed.
End agreement.

(** C36: when one peer derives the keys of a session from its own and its peer's key offer, the
    peer derives from the same offers the same keys with the directions exchanged, and these keys
    are accepted by every packet. *)
Theorem session_keys_agree `{SessionCrypto} `{!SessionCryptoLaws _} `{BufferDigest} (L : Locale) `{!NodeIdLocale L}
    localX25519PrivateKey remoteX25519PrivateKey localOffer remoteOffer keys :
  deriveVoidUdpSecureDirectionKeysV1 localX25519PrivateKey localOffer remoteOffer = Ok keys ->
  is_hex_digits 32 (of_session_id localOffer) = true -> is_hex_digits 32 (of_source_node_id localOffer) = true ->
  is_hex_digits 32 (of_source_node_id remoteOffer) = true -> of_source_node_id localOffer <> of_source_node_id remoteOffer ->
  is_x25519 remoteX25519PrivateKey = true -> public_b64 remoteX25519PrivateKey = of_x25519_pubkey_b64 remoteOffer ->
  public_key_type (of_x25519_pubkey_b64 localOffer) = Ok "x25519"%string ->
  exists keys', deriveVoidUdpSecureDirectionKeysV1 remoteX25519PrivateKey remoteOffer localOffer = Ok keys' /\
    paired keys keys' /\ usable keys = true /\ usable keys' = true.
Proof.
  intros Hd Hs Ha Hb Hne Hy Hpub Htype. pose proof (derive_checked _ _ _ _ _ Hd) as (Hx & Hc & Hpubx).
  unfold deriveVoidUdpSecureDirectionKeysV1 in *. rewrite Hc, Hx, Hpubx, String.eqb_refl in Hd. cbn [negb orb throw_if mbind res_bind] in Hd.
  rewrite (offers_consistent_sym _ _ Hc), Hy, Hpub, String.eqb_refl, Htype. cbn [negb orb throw_if mbind res_bind].
  destruct (public_key_type (of_x25519_pubkey_b64 remoteOffer)) as [t|]; [|done]. cbn [mbind res_bind] in Hd.
  destruct (negb (String.eqb t _)); [done|]. cbn [throw_if mbind res_bind] in Hd. injection Hd as <-.
  rewrite String.eqb_refl. cbn [negb throw_if mbind res_bind].
  apply offers_consistent_facts in Hc as (Haead & Haead' & Hs' & Ht & Ht').
  rewrite (kdfSalt_comm _ remoteOffer localOffer) by (try done; congruence).
  rewrite <- Hpubx, <- Hpub, (dh_agrees remoteX25519PrivateKey), Hs', Ht, Ht'.
  eexists. split; [done|].
  match goal with |- paired ?k ?k' /\ _ => assert (paired k k') as Hp by (unfold paired; cbn; by rewrite Haead');
    assert (usable k = true) as Hu end.
  { unfold usable. cbn. rewrite Haead, Hs, Ha, Hb. unfold derive. rewrite !hkdf_length. apply String.eqb_neq in Hne. by rewrite Hne. }
  split; [done|]. split; [done|]. by eapply usable_paired.
Qed.
