(* ===== verification/UdpTransport.v ===== *)
(** * Ordered delivery between peers

    Model of the sender and receiver of [src/p2p/udp_secure_reliable_transport_v1.ts] and of
    the socket that [src/p2p/udp_peer_socket_adapter_v1.ts] builds from them: a stream of bytes
    cut into numbered packets, acknowledged cumulatively, retransmitted a bounded number of
    times, reordered by the receiver and guarded against replays.

    Calls that read the clock take the time as an argument.  The transmit callback either
    returns or throws ([tx]); a promise of it that is rejected later calls [destroy].  Listeners
    and the callback do not call back into the socket.  Microtasks (the events [drain], [error]
    and [close]) are recorded when they are scheduled. *)

From S2P Require Import Prelude Js JsText CanonicalJson Sha256 MerkleRoots JsConvert JsonParse NodeBuffer ChainBase UdpPacket.

(** ** The sender *)

Record Pending := mkPending { pe_dataSeq : Z; pe_plaintext : list Z; pe_lastSentAtMs : Z; pe_retries : Z }.

(** [pending] is a [Map] in the order of its insertions. *)
Record sender := mkSender { se_nextPacketNo : Z; se_nextDataSeq : Z; se_pending : list (Z * Pending) }.

Definition new_sender : sender := mkSender 0 0 [].

Definition pendingCount (s : sender) : Z := Z.of_nat (length (se_pending s)).

(** [map.set(seq, p)] *)
Definition pending_set (seq : Z) (p : Pending) (m : list (Z * Pending)) : list (Z * Pending) :=
  if bool_decide (seq ∈ m.*1) then map (fun e => if e.1 =? seq then (seq, p) else e) m else m ++ [(seq, p)].

(** The entries above an acknowledgement *)
Definition unacknowledged (upTo : Z) (m : list (Z * Pending)) : list (Z * Pending) := List.filter (fun e => upTo <? e.1) m.

Section sender.
Context `{SessionCrypto} (keys : VoidUdpSecureDirectionKeysV1).

Definition createData (payload : list Z) (ackSeq nowMs : number) (s : sender) : res VoidUdpSecurePacketV1 * sender :=
  match (
    throw_if (VOID_P2P_UDP_SECURE_RELIABLE_MAX_IN_FLIGHT_V1 <=? pendingCount s) "send window full";;
    let size := Z.of_nat (length payload) in
    throw_if ((size <? 1) || (VOID_P2P_UDP_SECURE_RELIABLE_MAX_PAYLOAD_BYTES_V1 <? size)) "payload size invalid";;
    match safeInteger nowMs 0 MAX_SAFE_INTEGER, safeInteger (Integer (se_nextDataSeq s)) 0 (MAX_SAFE_INTEGER - 1),
          safeInteger (Integer (se_nextPacketNo s)) 0 (MAX_SAFE_INTEGER - 1) with
    | None, _, _ => Throw "send time invalid"
    | _, None, _ => Throw "data sequence exhausted"
    | _, _, None => Throw "packet sequence exhausted"
    | Some now, Some seq, Some packetNo =>
        packet ← encodeVoidUdpSecurePacketV1 keys data (Integer packetNo) (Some (Integer seq)) ackSeq payload;
        Ok (packet, mkSender (packetNo + 1) (seq + 1) (pending_set seq (mkPending seq payload now 0) (se_pending s)))
    end) with
  | Ok (packet, s') => (Ok packet, s')
  | Throw e => (Throw e, s)
  end.

Definition createAck (ackSeq : number) (s : sender) : res VoidUdpSecurePacketV1 * sender :=
  match safeInteger (Integer (se_nextPacketNo s)) 0 (MAX_SAFE_INTEGER - 1) with
  | None => (Throw "packet sequence exhausted", s)
  | Some packetNo =>
      match encodeVoidUdpSecurePacketV1 keys ack (Integer packetNo) None ackSeq [] with
      | Ok packet => (Ok packet, mkSender (packetNo + 1) (se_nextDataSeq s) (se_pending s))
      | Throw e => (Throw e, s)
      end
  end.

Definition acknowledge (ackSeq : number) (s : sender) : res Z * sender :=
  match safeInteger ackSeq (-1) MAX_SAFE_INTEGER with
  | None => (Throw "ACK invalid", s)
  | Some upTo =>
      let rest := unacknowledged upTo (se_pending s) in
      (Ok (Z.of_nat (length (se_pending s)) - Z.of_nat (length rest)), mkSender (se_nextPacketNo s) (se_nextDataSeq s) rest)
  end.

Definition is_waiting (upTo now : Z) (e : Z * Pending) : bool :=
  (upTo <? e.1) && (VOID_P2P_UDP_SECURE_RELIABLE_RTO_MS_V1 <=? now - pe_lastSentAtMs e.2).
Definition is_exhausted (upTo now : Z) (e : Z * Pending) : bool :=
  is_waiting upTo now e && (VOID_P2P_UDP_SECURE_RELIABLE_MAX_RETRIES_V1 <=? pe_retries e.2).
Definition is_due (upTo now : Z) (e : Z * Pending) : bool :=
  is_waiting upTo now e && negb (VOID_P2P_UDP_SECURE_RELIABLE_MAX_RETRIES_V1 <=? pe_retries e.2).

(** The packets of the entries that are due, numbered from [packetNo] *)
Fixpoint encodeDue (upTo packetNo : Z) (due : list (Z * Pending)) : res (list VoidUdpSecurePacketV1) :=
  match due with
  | [] => Ok []
  | (_, p) :: due =>
      packet ← encodeVoidUdpSecurePacketV1 keys data (Integer packetNo) (Some (Integer (pe_dataSeq p))) (Integer upTo) (pe_plaintext p);
      packets ← encodeDue upTo (packetNo + 1) due;
      Ok (packet :: packets)
  end.

Definition resent (upTo now : Z) (e : Z * Pending) : Z * Pending :=
  if is_due upTo now e then (e.1, mkPending (pe_dataSeq e.2) (pe_plaintext e.2) now (pe_retries e.2 + 1)) else e.

(** The packets to send again and the numbers that are given up *)
Definition retransmitDue (peerAckSeq nowMs : number) (s : sender) : res (list VoidUdpSecurePacketV1 * list Z) * sender :=
  match safeInteger nowMs 0 MAX_SAFE_INTEGER, safeInteger peerAckSeq (-1) MAX_SAFE_INTEGER with
  | None, _ => (Throw "retransmit time invalid", s)
  | _, None => (Throw "ACK invalid", s)
  | Some now, Some upTo =>
      let entries := isort (fun a b => a.1 <=? b.1) (se_pending s) in
      let due := List.filter (is_due upTo now) entries in
      let exhausted := (List.filter (is_exhausted upTo now) entries).*1 in
      let count := Z.of_nat (length due) in
      match (
        match safeInteger (Integer (se_nextPacketNo s)) 0 MAX_SAFE_INTEGER with
        | None => Throw "packet sequence exhausted"
        | Some packetNoStart =>
            throw_if ((0 <? count) && (MAX_SAFE_INTEGER - count <? packetNoStart)) "packet sequence exhausted";;
            encodeDue upTo packetNoStart due
        end) with
      | Throw e => (Throw e, s)
      | Ok packets =>
          let kept := List.filter (fun e => negb (bool_decide (e.1 ∈ exhausted))) (unacknowledged upTo (se_pending s)) in
          (Ok (packets, exhausted), mkSender (se_nextPacketNo s + count) (se_nextDataSeq s) (map (resent upTo now) kept))
      end
  end.
End sender.

(** ** The receiver *)

Record receiver := mkReceiver { re_nextDataSeq : Z; re_highestPacketNo : Z; re_seenPacketNos : gset Z; re_buffered : gmap Z (list Z) }.

Definition new_receiver : receiver := mkReceiver 0 (-1) ∅ ∅.

Definition ackSeq (r : receiver) : Z := re_nextDataSeq r - 1.

Definition packetNoFresh (packetNo : Z) (r : receiver) : bool * receiver :=
  if bool_decide (packetNo ∈ re_seenPacketNos r) then (false, r) else
  if (0 <=? re_highestPacketNo r) && (packetNo <=? re_highestPacketNo r - VOID_P2P_UDP_SECURE_RELIABLE_PACKET_REPLAY_WINDOW_V1) then (false, r) else
  let highest := Z.max (re_highestPacketNo r) packetNo in
  let floor := highest - VOID_P2P_UDP_SECURE_RELIABLE_PACKET_REPLAY_WINDOW_V1 in
  (true, mkReceiver (re_nextDataSeq r) highest (filter (fun seen => floor < seen) ({[packetNo]} ∪ re_seenPacketNos r)) (re_buffered r)).

(** [while (buffered.has(nextDataSeq)) ...]; every round takes one entry out. *)
Fixpoint deliver (fuel : nat) (next : Z) (buffered : gmap Z (list Z)) (delivered : list (list Z)) : Z * gmap Z (list Z) * list (list Z) :=
  match fuel, buffered !! next with
  | S fuel, Some bytes => deliver fuel (next + 1) (delete next buffered) (delivered ++ [bytes])
  | _, _ => (next, buffered, delivered)
  end.

Record ReceiveResult := mkResult { rr_accepted : bool; rr_replay : bool; rr_peer_ack_seq : Z; rr_ack_seq : Z; rr_delivered : list (list Z) }.

Section receiver.
Context `{SessionCrypto} `{StringNumber} (keys : VoidUdpSecureDirectionKeysV1).

(** What is done with a data packet whose number is fresh *)
Definition receiveData (peer_ack seq : Z) (plaintext : list Z) (r : receiver) : res ReceiveResult * receiver :=
  if seq <? re_nextDataSeq r then (Ok (mkResult true false peer_ack (ackSeq r) []), r) else
  if re_nextDataSeq r + VOID_P2P_UDP_SECURE_RELIABLE_RECV_WINDOW_V1 <=? seq then (Ok (mkResult false false peer_ack (ackSeq r) []), r) else
  let buffered := match re_buffered r !! seq with Some _ => re_buffered r | None => <[seq := plaintext]> (re_buffered r) end in
  if VOID_P2P_UDP_SECURE_RELIABLE_RECV_WINDOW_V1 <? Z.of_nat (size buffered) then
    (Throw "receive window invariant exceeded", mkReceiver (re_nextDataSeq r) (re_highestPacketNo r) (re_seenPacketNos r) buffered) else
  let '(next, rest, delivered) := deliver (size buffered) (re_nextDataSeq r) buffered [] in
  let r' := mkReceiver next (re_highestPacketNo r) (re_seenPacketNos r) rest in
  (Ok (mkResult true false peer_ack (ackSeq r') delivered), r').

Definition receive (raw : json) (r : receiver) : res ReceiveResult * receiver :=
  match decryptVoidUdpSecurePacketV1 raw keys with
  | None => (Ok (mkResult false false (-1) (ackSeq r) []), r)
  | Some (packet, plaintext) =>
      let h := p_header packet in
      let '(fresh, r) := packetNoFresh (h_packet_no h) r in
      if negb fresh then (Ok (mkResult false true (h_ack_seq h) (ackSeq r) []), r) else
      match h_kind h, h_data_seq h with
      | data, Some seq => receiveData (h_ack_seq h) seq plaintext r
      | _, _ => (Ok (mkResult true false (h_ack_seq h) (ackSeq r) []), r)
      end
  end.
End receiver.

(** ** The socket *)

Definition VOID_P2P_UDP_PEER_SOCKET_ADAPTER_DEFAULT_HIGH_WATER_BYTES_V1 : Z := 128 * 1024.
Definition VOID_P2P_UDP_PEER_SOCKET_ADAPTER_DEFAULT_MAX_QUEUED_BYTES_V1 : Z := 512 * 1024.
Definition VOID_P2P_UDP_PEER_SOCKET_ADAPTER_DEFAULT_POLL_MS_V1 : Z := 50.

Record socket_options := mkSocketOptions { o_highWaterBytes : Z; o_maxQueuedBytes : Z; o_maxPayloadBytes : Z; o_pollMs : Z }.

Definition boundedInteger (raw : option number) (fallback min max : Z) : res Z :=
  match raw with
  | None => Ok fallback
  | Some (Integer z) =>
      throw_if (MAX_SAFE_INTEGER <? Z.abs z) "UDP peer-socket adapter option must be an integer";;
      throw_if ((z <? min) || (max <? z)) "UDP peer-socket adapter option is out of range";;
      Ok z
  | Some _ => Throw "UDP peer-socket adapter option must be an integer"
  end.

(** The options of the constructor *)
Definition newOptions (highWaterBytes maxQueuedBytes maxPayloadBytes retransmitPollMs : option number) : res socket_options :=
  high ← boundedInteger highWaterBytes VOID_P2P_UDP_PEER_SOCKET_ADAPTER_DEFAULT_HIGH_WATER_BYTES_V1 1 (16 * 1024 * 1024);
  queue ← boundedInteger maxQueuedBytes VOID_P2P_UDP_PEER_SOCKET_ADAPTER_DEFAULT_MAX_QUEUED_BYTES_V1 high (32 * 1024 * 1024);
  payload ← boundedInteger maxPayloadBytes VOID_P2P_UDP_SECURE_RELIABLE_MAX_PAYLOAD_BYTES_V1 1 VOID_P2P_UDP_SECURE_RELIABLE_MAX_PAYLOAD_BYTES_V1;
  poll ← boundedInteger retransmitPollMs VOID_P2P_UDP_PEER_SOCKET_ADAPTER_DEFAULT_POLL_MS_V1 10 VOID_P2P_UDP_SECURE_RELIABLE_RTO_MS_V1;
  Ok (mkSocketOptions high queue payload poll).

Record socket := mkSocket {
  so_sender : sender; so_receiver : receiver;
  so_queued : list (list Z); so_queuedBytes : Z; so_pendingBytes : gmap Z Z;
  so_closed : bool; so_closeScheduled : bool; so_flushActive : bool; so_backpressured : bool
}.

Definition new_socket : socket := mkSocket new_sender new_receiver [] 0 ∅ false false false false.

Definition set_sender (x : sender) (s : socket) : socket :=
  mkSocket x (so_receiver s) (so_queued s) (so_queuedBytes s) (so_pendingBytes s) (so_closed s) (so_closeScheduled s) (so_flushActive s) (so_backpressured s).
Definition set_receiver (x : receiver) (s : socket) : socket :=
  mkSocket (so_sender s) x (so_queued s) (so_queuedBytes s) (so_pendingBytes s) (so_closed s) (so_closeScheduled s) (so_flushActive s) (so_backpressured s).
Definition set_queued (q : list (list Z)) (n : Z) (s : socket) : socket :=
  mkSocket (so_sender s) (so_receiver s) q n (so_pendingBytes s) (so_closed s) (so_closeScheduled s) (so_flushActive s) (so_backpressured s).
Definition set_pendingBytes (x : gmap Z Z) (s : socket) : socket :=
  mkSocket (so_sender s) (so_receiver s) (so_queued s) (so_queuedBytes s) x (so_closed s) (so_closeScheduled s) (so_flushActive s) (so_backpressured s).
Definition set_closed (s : socket) : socket :=
  mkSocket (so_sender s) (so_receiver s) (so_queued s) (so_queuedBytes s) (so_pendingBytes s) true (so_closeScheduled s) (so_flushActive s) (so_backpressured s).
Definition set_closeScheduled (s : socket) : socket :=
  mkSocket (so_sender s) (so_receiver s) (so_queued s) (so_queuedBytes s) (so_pendingBytes s) (so_closed s) true (so_flushActive s) (so_backpressured s).
Definition set_flushActive (x : bool) (s : socket) : socket :=
  mkSocket (so_sender s) (so_receiver s) (so_queued s) (so_queuedBytes s) (so_pendingBytes s) (so_closed s) (so_closeScheduled s) x (so_backpressured s).
Definition set_backpressured (x : bool) (s : socket) : socket :=
  mkSocket (so_sender s) (so_receiver s) (so_queued s) (so_queuedBytes s) (so_pendingBytes s) (so_closed s) (so_closeScheduled s) (so_flushActive s) x.

(** What a socket does to the outside *)
Inductive event : Type :=
| Transmit (packet : VoidUdpSecurePacketV1)
| Data (bytes : list Z)
| Drain
| Close (error : option string).

(** Methods: an outcome, the socket after it (also when it throws), and its events *)
Definition method (A : Type) : Type := socket -> res A * socket * list event.

#[export] Instance method_ret : MRet method := fun _ a s => (Ok a, s, []).
#[export] Instance method_bind : MBind method := fun _ _ f m s =>
  match m s with
  | (Ok a, s', es) => let '(r, s'', es') := f a s' in (r, s'', es ++ es')
  | (Throw e, s', es) => (Throw e, s', es)
  end.

Definition this {A} (f : socket -> A) : method A := fun s => (Ok (f s), s, []).
Definition update (f : socket -> socket) : method unit := fun s => (Ok tt, f s, []).
Definition emit (e : event) : method unit := fun s => (Ok tt, s, [e]).
Definition throwing {A} (r : res A) : method A := fun s => (r, s, []).
(** A call of the sender or the receiver *)
Definition on_sender {A} (f : sender -> res A * sender) : method A := fun s => let '(r, x) := f (so_sender s) in (r, set_sender x s, []).
Definition on_receiver {A} (f : receiver -> res A * receiver) : method A := fun s => let '(r, x) := f (so_receiver s) in (r, set_receiver x s, []).
(** [try { m } finally { f }] for an [f] that does not throw *)
Definition finally {A} (m : method A) (f : socket -> socket) : method A := fun s => let '(r, s', es) := m s in (r, f s', es).

Section socket.
Context `{SessionCrypto} `{StringNumber} (keys : VoidUdpSecureDirectionKeysV1) (options : socket_options).
(** The error that the transmit callback throws for a packet, if it does *)
Context (tx : VoidUdpSecurePacketV1 -> option string).

Definition writableLength (s : socket) : Z := so_queuedBytes s + map_fold (fun _ n acc => acc + n) 0 (so_pendingBytes s).

Definition scheduleClose (error : option string) : method unit :=
  scheduled ← this so_closeScheduled;
  if scheduled : bool then mret tt else update set_closeScheduled;; emit (Close error).

Definition destroy (error : option string) : method unit :=
  closed ← this so_closed;
  if closed : bool then mret tt else
  update set_closed;;
  update (set_queued [] 0);;
  update (set_pendingBytes ∅);;
  scheduleClose error.

Definition noteBackpressure : method bool :=
  writable ← this writableLength;
  if o_highWaterBytes options <=? writable then update (set_backpressured true);; mret false else mret true.

Definition maybeDrain : method unit :=
  backpressured ← this so_backpressured;
  writable ← this writableLength;
  if negb backpressured || (o_highWaterBytes options <=? writable) then mret tt else
  update (set_backpressured false);; emit Drain.

Definition transmitPacket (packet : VoidUdpSecurePacketV1) : method unit :=
  closed ← this so_closed;
  if closed : bool then mret tt else
  emit (Transmit packet);;
  match tx packet with Some error => destroy (Some error) | None => mret tt end.

(** The loop of [flushQueued]: every round takes an entry out of the queue. *)
Fixpoint flushLoop (fuel : nat) (nowMs : number) : method unit :=
  match fuel with
  | O => mret tt
  | S fuel =>
      s ← this id;
      match so_queued s with
      | bytes :: queued =>
          if negb (pendingCount (so_sender s) <? VOID_P2P_UDP_SECURE_RELIABLE_MAX_IN_FLIGHT_V1) then mret tt else
          update (set_queued queued (so_queuedBytes s - Z.of_nat (length bytes)));;
          packet ← on_sender (createData keys bytes (Integer (ackSeq (so_receiver s))) nowMs);
          match h_data_seq (p_header packet) with
          | None => throwing (Throw "secure UDP sender produced data packet without sequence")
          | Some seq =>
              update (fun s => set_pendingBytes (<[seq := Z.of_nat (length bytes)]> (so_pendingBytes s)) s);;
              transmitPacket packet;;
              flushLoop fuel nowMs
          end
      | [] => mret tt
      end
  end.

Definition flushQueued (nowMs : number) : method unit :=
  s ← this id;
  if so_closed s || so_flushActive s then mret tt else
  update (set_flushActive true);;
  finally (flushLoop (length (so_queued s)) nowMs) (set_flushActive false);;
  maybeDrain.

Definition applyPeerAck (peerAckSeq : Z) (nowMs : number) : method unit :=
  on_sender (acknowledge (Integer peerAckSeq));;
  update (fun s => set_pendingBytes (filter (fun e => peerAckSeq < e.1) (so_pendingBytes s)) s);;
  flushQueued nowMs;;
  maybeDrain.

(** The parts that [write] queues *)
Fixpoint split_chunks (fuel : nat) (n : nat) (bytes : list Z) : list (list Z) :=
  match fuel, bytes with
  | S fuel, _ :: _ => take n bytes :: split_chunks fuel n (drop n bytes)
  | _, _ => []
  end.

Definition write (bytes : list Z) (nowMs : number) : method bool :=
  closed ← this so_closed;
  if closed : bool then mret false else
  if bool_decide (bytes = []) then noteBackpressure else
  writable ← this writableLength;
  let size := Z.of_nat (length bytes) in
  if o_maxQueuedBytes options <? writable + size then
    destroy (Some "UDP peer-socket bounded write queue exceeded"%string);; mret false
  else
    update (fun s => set_queued (so_queued s ++ split_chunks (length bytes) (Z.to_nat (o_maxPayloadBytes options)) bytes) (so_queuedBytes s + size) s);;
    flushQueued nowMs;;
    noteBackpressure.

Fixpoint emitAll (delivered : list (list Z)) : method unit :=
  match delivered with [] => mret tt | bytes :: rest => emit (Data bytes);; emitAll rest end.

Definition receivePacket (raw : json) (nowMs : number) : method bool :=
  closed ← this so_closed;
  if closed : bool then mret false else
  result ← on_receiver (receive keys raw);
  if negb (rr_accepted result) then mret false else
  applyPeerAck (rr_peer_ack_seq result) nowMs;;
  emitAll (rr_delivered result);;
  (if is_object raw && (raw.@"kind" === JStr "data") then
    s ← this id;
    packet ← on_sender (createAck keys (Integer (ackSeq (so_receiver s))));
    transmitPacket packet
  else mret tt);;
  mret true.

Fixpoint transmitAll (packets : list VoidUdpSecurePacketV1) : method unit :=
  match packets with [] => mret tt | packet :: rest => transmitPacket packet;; transmitAll rest end.

Definition tick (nowMs : number) : method unit :=
  closed ← this so_closed;
  if closed : bool then mret tt else
  due ← on_sender (retransmitDue keys (Integer (-1)) nowMs);
  let '(packets, exhausted) := due in
  if bool_decide (exhausted <> []) then destroy (Some ("secure UDP retransmission exhausted: " +:+ String.concat "," (map int_text exhausted))) else
  transmitAll packets;;
  flushQueued nowMs.

(** The timer: an error of [tick] destroys the socket. *)
Definition onTimer (nowMs : number) : method unit := fun s =>
  match tick nowMs s with
  | (Throw e, s', es) => let '(r, s'', es') := destroy (Some e) s' in (r, s'', es ++ es')
  | done => done
  end.
End socket.
