(* ===== verification/UdpRuns.v ===== *)
(** * What the calls of a socket do

    Every call of a socket is a sequence of elementary actions: packets created and sent, chunks
    queued, acknowledgements applied, packets received.  The guarantees of the transport are
    proved of the actions and hold of the calls because calls are made of them. *)

From S2P Require Import Prelude Js JsText CanonicalJson Sha256 MerkleRoots JsConvert JsonParse NodeBuffer ChainBase UdpPacket UdpSession UdpTransport.

(** ** Equations of methods *)

Lemma bind_this {A B} (f : socket -> A) (g : A -> method B) s : (this f ≫= g) s = g (f s) s.
Proof. unfold mbind, method_bind, this. by destruct (g _ s) as [[? ?] ?]. Qed.

Lemma bind_update {B} f (g : unit -> method B) s : (update f ≫= g) s = g tt (f s).
Proof. unfold mbind, method_bind, update. by destruct (g _ _) as [[? ?] ?]. Qed.

Lemma bind_Ok_run {A B} (m : method A) (g : A -> method B) a s s' es : m s = (Ok a, s', es) ->
  (m ≫= g) s = ((g a s').1, es ++ (g a s').2).
Proof. intros E. unfold mbind, method_bind. rewrite E. by destruct (g a s') as [[? ?] ?]. Qed.

Lemma bind_Throw_run {A B} (m : method A) (g : A -> method B) e s s' es : m s = (Throw e, s', es) -> (m ≫= g) s = (Throw e, s', es).
Proof. intros E. unfold mbind, method_bind. by rewrite E. Qed.

(** ** Sequences of actions *)

Section closure.
Context (R : socket -> list event -> socket -> Prop).

Inductive runs_to : socket -> list event -> socket -> Prop :=
| runs_nil s : runs_to s [] s
| runs_cons s1 s2 s3 es es' : R s1 es s2 -> runs_to s2 es' s3 -> runs_to s1 (es ++ es') s3.

Lemma runs_one s1 es s2 : R s1 es s2 -> runs_to s1 es s2.
Proof. intros Hr. rewrite <- (app_nil_r es). by eapply runs_cons, runs_nil. Qed.

Lemma runs_app s1 s2 s3 es es' : runs_to s1 es s2 -> runs_to s2 es' s3 -> runs_to s1 (es ++ es') s3.
Proof. induction 1 as [|s1 s s2 es1 es2 Hr _ IH]; intros H3; [done|]. rewrite <- app_assoc. eapply runs_cons; eauto. Qed.

(** A method whose calls are sequences of actions, whatever their outcome *)
Definition runs {A} (m : method A) : Prop := forall s, runs_to s (m s).2 (m s).1.2.

Lemma runs_ret {A} (a : A) : runs (mret a).
Proof. intros s. apply runs_nil. Qed.

Lemma runs_this {A} (f : socket -> A) : runs (this f).
Proof. intros s. apply runs_nil. Qed.

Lemma runs_bind {A B} (m : method A) (f : A -> method B) : runs m -> (forall a, runs (f a)) -> runs (m ≫= f).
Proof.
  intros Hm Hf s. specialize (Hm s). unfold mbind, method_bind. destruct (m s) as [[[a|e] s'] es]; [|done].
  specialize (Hf a s'). destruct (f a s') as [[r s''] es']. by eapply runs_app.
Qed.
End closure.

Lemma runs_to_mono (R R' : socket -> list event -> socket -> Prop) s1 es s2 :
  (forall a b c, R a b c -> R' a b c) -> runs_to R s1 es s2 -> runs_to R' s1 es s2.
Proof. intros Hsub. induction 1; econstructor; eauto. Qed.

(** A property of sockets and of all their events that actions preserve holds after a call. *)
Lemma runs_to_preserves (R : socket -> list event -> socket -> Prop) (P : socket -> list event -> Prop) s1 es s2 history :
  (forall a b c h, R a b c -> P a h -> P c (h ++ b)) -> runs_to R s1 es s2 -> P s1 history -> P s2 (history ++ es).
Proof.
  intros Hstep Hr. revert history. induction Hr as [s|s1 s2 s3 es es' H1 _ IH]; intros history HP; [by rewrite app_nil_r|].
  rewrite app_assoc. eauto.
Qed.

(** ** Actions *)

(** Events that are neither packets nor bytes *)
Definition quiet (es : list event) : Prop := forall e, e ∈ es -> match e with Transmit _ | Data _ => False | _ => True end.

Lemma quiet_nil : quiet [].
Proof. intros e He. by apply not_elem_of_nil in He. Qed.
Lemma quiet_drain : quiet [Drain].
Proof. by intros e ->%list_elem_of_singleton. Qed.
Lemma quiet_close error : quiet [Close error].
Proof. by intros e ->%list_elem_of_singleton. Qed.
#[local] Hint Resolve quiet_nil quiet_drain quiet_close : core.

(** A socket after [destroy] *)
Definition destroyed (s : socket) : socket :=
  mkSocket (so_sender s) (so_receiver s) [] 0 ∅ true true (so_flushActive s) (so_backpressured s).

(** A socket after a chunk has become the packet [seq] *)
Definition after_send (bytes : list Z) (queued : list (list Z)) (seq : Z) (x : sender) (s : socket) : socket :=
  set_pendingBytes (<[seq := Z.of_nat (length bytes)]> (so_pendingBytes s))
    (set_sender x (set_queued queued (so_queuedBytes s - Z.of_nat (length bytes)) s)).

Section actions.
Context `{SessionCrypto} `{StringNumber} (keys : VoidUdpSecureDirectionKeysV1) (options : socket_options).

(** What [flushQueued] does *)
Inductive flushes (nowMs : number) : socket -> list event -> socket -> Prop :=
| fl_close s es : quiet es -> flushes nowMs s es (destroyed s)
| fl_flags s flush back es : quiet es -> flushes nowMs s es (set_flushActive flush (set_backpressured back s))
| fl_send s bytes queued p x seq : so_closed s = false -> so_queued s = bytes :: queued ->
    createData keys bytes (Integer (ackSeq (so_receiver s))) nowMs (so_sender s) = (Ok p, x) -> h_data_seq (p_header p) = Some seq ->
    flushes nowMs s [Transmit p] (after_send bytes queued seq x s).

(** A chunk that is taken out of the queue and cannot be sent *)
Inductive loses (nowMs : number) : socket -> list event -> socket -> Prop :=
| lose_chunk s bytes queued e : so_closed s = false -> so_queued s = bytes :: queued -> pendingCount (so_sender s) < VOID_P2P_UDP_SECURE_RELIABLE_MAX_IN_FLIGHT_V1 ->
    createData keys bytes (Integer (ackSeq (so_receiver s))) nowMs (so_sender s) = (Throw e, so_sender s) ->
    loses nowMs s [] (set_queued queued (so_queuedBytes s - Z.of_nat (length bytes)) s).

(** The queue after the chunks of a write *)
Definition queue_all (bytes : list Z) (s : socket) : socket :=
  set_queued (so_queued s ++ split_chunks (length bytes) (Z.to_nat (o_maxPayloadBytes options)) bytes) (so_queuedBytes s + Z.of_nat (length bytes)) s.

(** The sender and the counts after an acknowledgement *)
Definition acked (n : Z) (s : socket) : socket :=
  set_pendingBytes (filter (fun e => n < e.1) (so_pendingBytes s)) (set_sender (acknowledge (Integer n) (so_sender s)).2 s).

Inductive acts (nowMs : number) : socket -> list event -> socket -> Prop :=
| act_flush s es s' : flushes nowMs s es s' -> acts nowMs s es s'
| act_lose s es s' : loses nowMs s es s' -> acts nowMs s es s'
| act_queue s bytes : so_closed s = false -> writableLength s + Z.of_nat (length bytes) <= o_maxQueuedBytes options ->
    acts nowMs s [] (queue_all bytes s)
| act_receive s raw : acts nowMs s [] (set_receiver (receive keys raw (so_receiver s)).2 s)
| act_acked s n : -1 <= n -> acts nowMs s [] (acked n s)
| act_deliver s bytes : acts nowMs s [Data bytes] s
| act_ack s p x es : createAck keys (Integer (ackSeq (so_receiver s))) (so_sender s) = (Ok p, x) -> es = [Transmit p] \/ es = [] ->
    acts nowMs s es (set_sender x s)
| act_resend s packets exhausted x sent : retransmitDue keys (Integer (-1)) nowMs (so_sender s) = (Ok (packets, exhausted), x) ->
    sent `prefix_of` packets -> (exhausted <> [] -> sent = []) ->
    acts nowMs s (Transmit <$> sent) (if bool_decide (exhausted = []) then set_sender x s else destroyed (set_sender x s)).

(** ** Flushing *)

Lemma destroy_eq error s : destroy error s =
  if so_closed s then (Ok tt, s, []) else (Ok tt, destroyed s, if so_closeScheduled s then [] else [Close error]).
Proof. destruct s as [? ? ? ? ? [] [] ? ?]; done. Qed.

Lemma destroy_flushes nowMs error : runs (flushes nowMs) (destroy error).
Proof.
  intros s. rewrite destroy_eq. destruct (so_closed s); [apply runs_nil|]. apply runs_one. cbn. apply fl_close. by destruct (so_closeScheduled s).
Qed.

Lemma maybeDrain_eq s : exists back es, maybeDrain options s = (Ok tt, set_backpressured back s, es) /\ (es = [] \/ es = [Drain]).
Proof.
  unfold maybeDrain, mbind, method_bind, this. destruct (negb _ || _).
  - exists (so_backpressured s), []. destruct s; eauto.
  - exists false, [Drain]. eauto.
Qed.

Lemma noteBackpressure_eq s : exists b back, noteBackpressure options s = (Ok b, set_backpressured back s, []).
Proof.
  unfold noteBackpressure, mbind, method_bind, this, mret, method_ret, update. destruct (_ <=? _); [by eauto|].
  exists true, (so_backpressured s). by destruct s.
Qed.

Lemma set_back_flush back s : set_backpressured back s = set_flushActive (so_flushActive s) (set_backpressured back s).
Proof. by destruct s. Qed.
Lemma set_flush_back flush s : set_flushActive flush s = set_flushActive flush (set_backpressured (so_backpressured s) s).
Proof. by destruct s. Qed.

Lemma maybeDrain_flushes nowMs : runs (flushes nowMs) (maybeDrain options).
Proof.
  intros s. destruct (maybeDrain_eq s) as (back & es & -> & Hes). cbn. apply runs_one. rewrite set_back_flush. apply fl_flags. naive_solver.
Qed.

Lemma noteBackpressure_flushes nowMs : runs (flushes nowMs) (noteBackpressure options).
Proof.
  intros s. destruct (noteBackpressure_eq s) as (b & back & ->). cbn. apply runs_one. rewrite set_back_flush. apply fl_flags. naive_solver.
Qed.

(** What [createData] returns *)
Lemma encode_header k n q r plaintext p : encodeVoidUdpSecurePacketV1 keys k n q r plaintext = Ok p ->
  header (k_session_id keys) (k_local_node_id keys) (k_peer_node_id keys) k n q r = Ok (p_header p).
Proof.
  unfold encodeVoidUdpSecurePacketV1. intros He. repeat (apply bind_Ok in He as (? & ? & He)). destruct (gcm_seal _ _ _ _). by injection He as <-.
Qed.

Lemma createData_Ok payload r nowMs s p x : createData keys payload r nowMs s = (Ok p, x) ->
  exists now, nowMs = Integer now /\ pendingCount s < VOID_P2P_UDP_SECURE_RELIABLE_MAX_IN_FLIGHT_V1 /\
    1 <= Z.of_nat (length payload) <= VOID_P2P_UDP_SECURE_RELIABLE_MAX_PAYLOAD_BYTES_V1 /\
    0 <= se_nextDataSeq s <= MAX_SAFE_INTEGER - 1 /\ 0 <= se_nextPacketNo s <= MAX_SAFE_INTEGER - 1 /\
    encodeVoidUdpSecurePacketV1 keys data (Integer (se_nextPacketNo s)) (Some (Integer (se_nextDataSeq s))) r payload = Ok p /\
    x = mkSender (se_nextPacketNo s + 1) (se_nextDataSeq s + 1)
      (pending_set (se_nextDataSeq s) (mkPending (se_nextDataSeq s) payload now 0) (se_pending s)).
Proof.
  unfold createData. case_match eqn:E; [|done]. destruct a as [p' x']. intros [= -> ->].
  apply bind_Ok in E as (? & ?%throw_if_Ok%Z.leb_gt & (? & [?%Z.ltb_ge ?%Z.ltb_ge]%throw_if_Ok%orb_false_iff & E)%bind_Ok).
  destruct (safeInteger nowMs _ _) as [now|] eqn:E1; [|done].
  destruct (safeInteger (Integer (se_nextDataSeq s)) _ _) as [q|] eqn:E2; [|done].
  destruct (safeInteger (Integer (se_nextPacketNo s)) _ _) as [n|] eqn:E3; [|done].
  apply safeInteger_Some in E1 as (-> & _), E2 as ([= <-] & ? & _), E3 as ([= <-] & ? & _).
  apply bind_Ok in E as (? & He & [= <- <-]). eauto 20.
Qed.

Lemma createData_header payload r nowMs s p x : createData keys payload r nowMs s = (Ok p, x) ->
  h_data_seq (p_header p) = Some (se_nextDataSeq s) /\ h_packet_no (p_header p) = se_nextPacketNo s /\ h_kind (p_header p) = data.
Proof.
  intros (now & _ & _ & _ & _ & _ & He & _)%createData_Ok. apply encode_header in He.
  pose proof (header_inv _ _ _ _ _ _ _ _ He) as (_ & Hk & _). apply header_numbers in He as ([= ->] & Hq & _).
  destruct (h_data_seq (p_header p)); naive_solver.
Qed.

Lemma createData_Throw payload r nowMs s e x : createData keys payload r nowMs s = (Throw e, x) -> x = s.
Proof. unfold createData. case_match; [by destruct a|]. by intros [= _ ->]. Qed.

Context (tx : VoidUdpSecurePacketV1 -> option string).

Lemma transmitPacket_open nowMs p s : so_closed s = false -> exists s' es,
  transmitPacket tx p s = (Ok tt, s', Transmit p :: es) /\ runs_to (flushes nowMs) s es s' /\ (s' = s \/ s' = destroyed s).
Proof.
  intros Hc. unfold transmitPacket, mbind, method_bind, this, emit. rewrite Hc.
  destruct (tx p) as [error|]; [|eexists _, []; eauto using runs_nil].
  pose proof (destroy_flushes nowMs (Some error) s) as Hd. rewrite destroy_eq, Hc in *.
  eexists _, _. split_and!; [done|exact Hd|by right].
Qed.

(** Chunks are sent in order until one of them cannot be. *)
Definition flush_outcome (nowMs : number) (s : socket) (out : res unit * socket * list event) : Prop :=
  match out with
  | (Ok _, s', es) => runs_to (flushes nowMs) s es s'
  | (Throw _, s', es) => exists s1 s2 back, runs_to (flushes nowMs) s es s1 /\ loses nowMs s1 [] s2 /\ s' = set_flushActive back s2
  end.

Lemma set_flush_same s : set_flushActive (so_flushActive s) s = s.
Proof. by destruct s. Qed.

Lemma flushLoop_S fuel nowMs s bytes queued : so_queued s = bytes :: queued -> pendingCount (so_sender s) < VOID_P2P_UDP_SECURE_RELIABLE_MAX_IN_FLIGHT_V1 ->
  flushLoop keys tx (S fuel) nowMs s =
  match createData keys bytes (Integer (ackSeq (so_receiver s))) nowMs (so_sender s) with
  | (Throw e, x) => (Throw e, set_sender x (set_queued queued (so_queuedBytes s - Z.of_nat (length bytes)) s), [])
  | (Ok p, x) => (transmitPacket tx p;; flushLoop keys tx fuel nowMs) (after_send bytes queued (se_nextDataSeq (so_sender s)) x s)
  end.
Proof.
  intros Hq Hp%Z.ltb_lt. cbn [flushLoop]. rewrite bind_this. unfold id. rewrite Hq, Hp. cbn [negb]. rewrite bind_update.
  set (s0 := set_queued _ _ s). destruct (createData _ _ _ _ _) as [[p|e] x] eqn:E.
  - rewrite (bind_Ok_run _ _ p s0 (set_sender x s0) []); [|by unfold on_sender; cbn [s0 so_sender set_queued]; rewrite E].
    rewrite (proj1 (createData_header _ _ _ _ _ _ E)), bind_update. by destruct ((transmitPacket tx p ≫= _ : method unit) _) as [[? ?] ?].
  - by rewrite (bind_Throw_run _ _ e s0 (set_sender x s0) []); [|unfold on_sender; cbn [s0 so_sender set_queued]; rewrite E].
Qed.

Lemma flushLoop_runs fuel nowMs s : so_closed s = false \/ so_queued s = [] -> flush_outcome nowMs s (flushLoop keys tx fuel nowMs s).
Proof.
  revert s. induction fuel as [|fuel IH]; intros s Hs; [apply runs_nil|].
  destruct (so_queued s) as [|bytes queued] eqn:Hq.
  { cbn [flushLoop]. unfold mbind, method_bind, this, id. rewrite Hq. apply runs_nil. }
  destruct Hs as [Hc|]; [|done]. destruct (Z.ltb_spec (pendingCount (so_sender s)) VOID_P2P_UDP_SECURE_RELIABLE_MAX_IN_FLIGHT_V1) as [Hp|Hp].
  2: { cbn [flushLoop]. unfold mbind, method_bind, this, id. rewrite Hq. apply Z.ltb_ge in Hp. rewrite Hp. apply runs_nil. }
  rewrite (flushLoop_S _ _ _ _ _ Hq Hp). destruct (createData _ _ _ _ _) as [[p|e] x] eqn:E.
  2: { pose proof (createData_Throw _ _ _ _ _ _ E) as ->. eexists s, _, _. split; [apply runs_nil|]. split; [by econstructor|].
       rewrite set_flush_same. by destruct s. }
  pose proof (fl_send nowMs s bytes queued p x _ Hc Hq E (proj1 (createData_header _ _ _ _ _ _ E))) as Hsend.
  set (s1 := after_send _ _ _ _ _) in *.
  destruct (transmitPacket_open nowMs p s1 Hc) as (s2 & es & Ht & Hr & Hs2). unfold mbind, method_bind. rewrite Ht.
  assert (so_closed s2 = false \/ so_queued s2 = []) as Hs2' by (destruct Hs2 as [->| ->]; [by left|by right]).
  specialize (IH s2 Hs2'). destruct (flushLoop _ _ _ _ s2) as [[[[]|e] s3] es']; cbn [flush_outcome] in *.
  - change ((Transmit p :: es) ++ es') with ([Transmit p] ++ es ++ es'). eapply runs_cons; [done|]. by eapply runs_app.
  - destruct IH as (s4 & s5 & back & H1 & H2). exists s4, s5, back. split; [|done].
    change ((Transmit p :: es) ++ es') with ([Transmit p] ++ es ++ es'). eapply runs_cons; [done|]. by eapply runs_app.
Qed.

Lemma flags_run nowMs flush s : runs_to (flushes nowMs) s [] (set_flushActive flush s).
Proof. apply runs_one. rewrite set_flush_back. by apply fl_flags. Qed.

Lemma flushQueued_outcome nowMs s : flush_outcome nowMs s (flushQueued keys options tx nowMs s).
Proof.
  unfold flushQueued. rewrite bind_this. unfold id.
  destruct (so_closed s || so_flushActive s) eqn:Hg; [apply runs_nil|]. apply orb_false_iff in Hg as [Hc Hf].
  rewrite bind_update. set (s0 := set_flushActive true s).
  pose proof (flushLoop_runs (length (so_queued s)) nowMs s0 (or_introl Hc)) as Hl.
  pose proof (flags_run nowMs true s) as Hrun. destruct (flushLoop _ _ _ _ s0) as [[[[]|e] s1] es] eqn:El; cbn [flush_outcome] in Hl.
  - rewrite (bind_Ok_run _ _ tt s0 (set_flushActive false s1) es); [|by unfold finally; rewrite El].
    pose proof (maybeDrain_flushes nowMs (set_flushActive false s1)) as Hd.
    destruct (maybeDrain_eq (set_flushActive false s1)) as (back & es' & E & _). rewrite E in *. cbn [fst snd flush_outcome] in *.
    change (es ++ es') with ([] ++ es ++ [] ++ es'). eapply runs_app; [exact Hrun|]. eapply runs_app; [exact Hl|].
    eapply runs_app; [apply flags_run|done].
  - rewrite (bind_Throw_run _ _ e s0 (set_flushActive false s1) es); [|by unfold finally; rewrite El].
    destruct Hl as (s2 & s3 & back & H1 & H2 & ->). exists s2, s3, false. split_and!; [|done|by destruct s3].
    rewrite <- (app_nil_l es). by eapply runs_app.
Qed.

(** *** Calls as sequences of actions *)

Lemma flushes_acts nowMs s es s' : runs_to (flushes nowMs) s es s' -> runs_to (acts nowMs) s es s'.
Proof. apply runs_to_mono. intros. by apply act_flush. Qed.

Lemma flush_outcome_acts nowMs s out : flush_outcome nowMs s out -> runs_to (acts nowMs) s out.2 out.1.2.
Proof.
  destruct out as [[[[]|e] s'] es]; cbn; [apply flushes_acts|]. intros (s1 & s2 & back & H1 & H2 & ->).
  rewrite <- (app_nil_r es). eapply runs_app; [by apply flushes_acts|]. rewrite <- (app_nil_l []).
  eapply runs_cons; [by apply act_lose|]. apply flushes_acts, flags_run.
Qed.

Lemma flushQueued_acts nowMs : runs (acts nowMs) (flushQueued keys options tx nowMs).
Proof. intros s. apply flush_outcome_acts, flushQueued_outcome. Qed.

Lemma flushing_acts nowMs {A} (m : method A) : runs (flushes nowMs) m -> runs (acts nowMs) m.
Proof. intros Hm s. apply flushes_acts, Hm. Qed.

Lemma emitAll_eq delivered s : emitAll delivered s = (Ok tt, s, Data <$> delivered).
Proof. induction delivered as [|b l IH]; [done|]. cbn [emitAll]. unfold mbind, method_bind, emit. by rewrite IH. Qed.

Lemma deliver_acts nowMs delivered s : runs_to (acts nowMs) s (Data <$> delivered) s.
Proof.
  induction delivered as [|b l IH]; [apply runs_nil|]. change (Data <$> b :: l) with ([Data b] ++ (Data <$> l)).
  eapply runs_cons; [apply act_deliver|done].
Qed.

Lemma write_acts bytes nowMs : runs (acts nowMs) (write keys options tx bytes nowMs).
Proof.
  intros s. unfold write. rewrite bind_this. destruct (so_closed s) eqn:Hc; [apply runs_nil|].
  destruct (bool_decide (bytes = [])); [apply flushing_acts, noteBackpressure_flushes|].
  rewrite bind_this. destruct (Z.ltb_spec (o_maxQueuedBytes options) (writableLength s + Z.of_nat (length bytes))) as [Hb|Hb].
  { apply runs_bind; [apply flushing_acts, destroy_flushes|]. intros. apply runs_ret. }
  rewrite bind_update. rewrite <- (app_nil_l (_.2)). eapply runs_cons; [by apply (act_queue _ _ bytes)|].
  apply runs_bind; [apply flushQueued_acts|]. intros. apply flushing_acts, noteBackpressure_flushes.
Qed.

(** *** Receiving *)

Lemma acknowledge_ok n x : -1 <= n <= MAX_SAFE_INTEGER -> exists removed, acknowledge (Integer n) x =
  (Ok removed, mkSender (se_nextPacketNo x) (se_nextDataSeq x) (unacknowledged n (se_pending x))).
Proof. intros Hn. unfold acknowledge. rewrite safeInteger_ok by lia. eauto. Qed.

Lemma applyPeerAck_outcome n nowMs s : -1 <= n <= MAX_SAFE_INTEGER -> flush_outcome nowMs (acked n s) (applyPeerAck keys options tx n nowMs s).
Proof.
  intros Hn. unfold applyPeerAck. destruct (acknowledge_ok n (so_sender s) Hn) as (removed & E).
  rewrite (bind_Ok_run _ _ removed s (set_sender (acknowledge (Integer n) (so_sender s)).2 s) []); [|by unfold on_sender; rewrite E].
  cbn [app]. rewrite bind_update. change (so_pendingBytes (set_sender _ s)) with (so_pendingBytes s). fold (acked n s).
  pose proof (flushQueued_outcome nowMs (acked n s)) as Hf. destruct (flushQueued _ _ _ _ (acked n s)) as [[[[]|e] s1] es] eqn:Ef.
  - rewrite (bind_Ok_run _ _ _ _ _ _ Ef). pose proof (maybeDrain_flushes nowMs s1) as Hd.
    destruct (maybeDrain_eq s1) as (back & es' & E' & _). rewrite E' in *. cbn [flush_outcome fst snd] in *. by eapply runs_app.
  - rewrite (bind_Throw_run _ _ _ _ _ _ Ef). exact Hf.
Qed.

(** The packet that an accepted call has opened *)
Lemma receive_accepted raw r result r' : receive keys raw r = (Ok result, r') -> rr_accepted result = true ->
  exists p plaintext, decryptVoidUdpSecurePacketV1 raw keys = Some (p, plaintext) /\ rr_peer_ack_seq result = h_ack_seq (p_header p) /\
    -1 <= rr_peer_ack_seq result <= MAX_SAFE_INTEGER.
Proof.
  unfold receive. destruct (decryptVoidUdpSecurePacketV1 raw keys) as [[p plaintext]|] eqn:E; [|by intros [= <- <-]].
  intros Hr Ha. exists p, plaintext. cut (rr_peer_ack_seq result = h_ack_seq (p_header p)).
  { intros ->. apply decrypt_inv in E as (_ & (_ & Hack & _) & _). done. }
  destruct (packetNoFresh _ r) as [[] r1]; cbn [negb] in Hr; [|by injection Hr as <- <-].
  destruct (h_kind (p_header p)), (h_data_seq (p_header p)); try by injection Hr as <- <-.
  unfold receiveData in Hr. repeat case_match; by simplify_eq.
Qed.

(** The answer to a packet *)
Definition answer (raw : json) : method unit :=
  if is_object raw && (raw.@"kind" === JStr "data") then
    s ← this id;
    packet ← on_sender (createAck keys (Integer (ackSeq (so_receiver s))));
    transmitPacket tx packet
  else mret tt.

Lemma transmitPacket_closed p s : so_closed s = true -> transmitPacket tx p s = (Ok tt, s, []).
Proof. intros Hc. unfold transmitPacket. by rewrite bind_this, Hc. Qed.

Lemma answer_cases nowMs raw s : let out := answer raw s in
  out.1.2 = s /\ out.2 = [] \/
  exists p x es1 es2, createAck keys (Integer (ackSeq (so_receiver s))) (so_sender s) = (Ok p, x) /\ (es1 = [Transmit p] \/ es1 = []) /\
    out.2 = es1 ++ es2 /\ runs_to (flushes nowMs) (set_sender x s) es2 out.1.2.
Proof.
  unfold answer. destruct (is_object raw && _); [|by left]. rewrite bind_this. unfold id.
  destruct (createAck _ _ _) as [[p|e] x] eqn:E.
  2: { left. assert (x = so_sender s) as -> by (unfold createAck in E; repeat case_match; by simplify_eq).
       rewrite (bind_Throw_run _ _ e s s []); [done|]. unfold on_sender. rewrite E. by destruct s. }
  right. rewrite (bind_Ok_run _ _ p s (set_sender x s) []); [|by unfold on_sender; rewrite E]. cbn [app fst snd].
  destruct (so_closed s) eqn:Hc.
  - rewrite transmitPacket_closed by done. exists p, x, [], []. eauto using runs_nil.
  - destruct (transmitPacket_open nowMs p (set_sender x s) Hc) as (s2 & es & -> & Hr & _). exists p, x, [Transmit p], es. eauto.
Qed.

(** The calls that a packet leads to *)
Lemma receivePacket_eq raw nowMs s : so_closed s = false -> receivePacket keys options tx raw nowMs s =
  match receive keys raw (so_receiver s) with
  | (Throw e, r) => (Throw e, set_receiver r s, [])
  | (Ok result, r) =>
      if rr_accepted result then
        (applyPeerAck keys options tx (rr_peer_ack_seq result) nowMs;; emitAll (rr_delivered result);; answer raw;; mret true) (set_receiver r s)
      else (Ok false, set_receiver r s, [])
  end.
Proof.
  intros Hc. unfold receivePacket. rewrite bind_this, Hc. destruct (receive _ _ _) as [[result|e] r] eqn:E.
  - rewrite (bind_Ok_run _ _ result s (set_receiver r s) []); [|by unfold on_receiver; rewrite E].
    destruct (rr_accepted result); [|done]. cbn [negb app]. fold (answer raw).
    by destruct ((_ ≫= _ : method bool) _) as [[? ?] ?].
  - by rewrite (bind_Throw_run _ _ e s (set_receiver r s) []); [|unfold on_receiver; rewrite E].
Qed.

Lemma answer_acts nowMs raw : runs (acts nowMs) (answer raw).
Proof.
  intros s. destruct (answer_cases nowMs raw s) as [[-> ->]|(p & x & es1 & es2 & E & Hes & -> & Hr)]; [apply runs_nil|].
  eapply runs_cons; [by eapply act_ack|]. by apply flushes_acts.
Qed.

Lemma receivePacket_acts raw nowMs : runs (acts nowMs) (receivePacket keys options tx raw nowMs).
Proof.
  intros s. destruct (so_closed s) eqn:Hc; [unfold receivePacket; rewrite bind_this, Hc; apply runs_nil|].
  rewrite receivePacket_eq by done. pose proof (act_receive nowMs s raw) as Hrecv.
  destruct (receive _ _ _) as [[result|e] r] eqn:E; [|by apply runs_one].
  destruct (rr_accepted result) eqn:Ha; [|by apply runs_one]. rewrite <- (app_nil_l (_.2)). eapply runs_cons; [exact Hrecv|].
  destruct (receive_accepted _ _ _ _ E Ha) as (p & plaintext & _ & _ & Hn). cbn [snd].
  apply runs_bind; [|intros []; apply runs_bind; [intros s'; rewrite emitAll_eq; apply deliver_acts|]].
  - intros s'. rewrite <- (app_nil_l (_.2)). eapply runs_cons; [by apply (act_acked _ _ (rr_peer_ack_seq result)); lia|].
    by apply flush_outcome_acts, applyPeerAck_outcome.
  - intros []. apply runs_bind; [apply answer_acts|]. intros. apply runs_ret.
Qed.

(** *** The timer *)

Lemma transmitAll_closed packets s : so_closed s = true -> transmitAll tx packets s = (Ok tt, s, []).
Proof.
  intros Hc. induction packets as [|p packets IH]; [done|]. cbn [transmitAll].
  by rewrite (bind_Ok_run _ _ _ _ _ _ (transmitPacket_closed p s Hc)), IH.
Qed.

Lemma transmitAll_open nowMs packets s : so_closed s = false -> exists sent es s', sent `prefix_of` packets /\
  transmitAll tx packets s = (Ok tt, s', (Transmit <$> sent) ++ es) /\ runs_to (flushes nowMs) s es s'.
Proof.
  intros Hc. induction packets as [|p packets IH]; [by exists [], [], s; eauto using runs_nil|]. cbn [transmitAll].
  destruct (transmitPacket_open nowMs p s Hc) as (s1 & es & E & Hr & Hs1). rewrite (bind_Ok_run _ _ _ _ _ _ E).
  destruct Hs1 as [Hs1|Hs1]; subst s1.
  - unfold transmitPacket in E. rewrite bind_this, Hc in E. unfold mbind, method_bind, emit in E. destruct (tx p).
    { rewrite destroy_eq, Hc in E. injection E as Hs _. apply (f_equal so_closed) in Hs. cbn in Hs. congruence. }
    cbn in E. injection E as Ees. subst es. destruct IH as (sent & es & s' & Hpre & -> & Hr'). exists (p :: sent), es, s'.
    split; [by apply prefix_cons|]. done.
  - rewrite transmitAll_closed by done. exists [p], es, (destroyed s). cbn [fst snd]. rewrite app_nil_r.
    split; [apply prefix_cons, prefix_nil|]. done.
Qed.

Lemma tick_eq nowMs s : so_closed s = false -> tick keys options tx nowMs s =
  match retransmitDue keys (Integer (-1)) nowMs (so_sender s) with
  | (Throw e, x) => (Throw e, set_sender x s, [])
  | (Ok (packets, exhausted), x) =>
      if bool_decide (exhausted = []) then (transmitAll tx packets;; flushQueued keys options tx nowMs) (set_sender x s)
      else destroy (Some ("secure UDP retransmission exhausted: " +:+ String.concat "," (map int_text exhausted))) (set_sender x s)
  end.
Proof.
  intros Hc. unfold tick. rewrite bind_this, Hc. destruct (retransmitDue _ _ _ _) as [[[packets exhausted]|e] x] eqn:E.
  - rewrite (bind_Ok_run _ _ (packets, exhausted) s (set_sender x s) []); [|by unfold on_sender; rewrite E]. cbn [app].
    destruct (decide (exhausted = [])) as [->|Hne].
    + rewrite (bool_decide_eq_false_2 ([] <> [])), (bool_decide_eq_true_2 ([] = [])) by tauto.
      by destruct ((transmitAll tx packets ≫= _ : method unit) _) as [[? ?] ?].
    + rewrite (bool_decide_eq_true_2 (exhausted <> [])), (bool_decide_eq_false_2 (exhausted = [])) by done.
      by destruct (destroy _ _) as [[? ?] ?].
  - by rewrite (bind_Throw_run _ _ e s (set_sender x s) []); [|unfold on_sender; rewrite E].
Qed.

Lemma retransmitDue_Throw r nowMs x e y : retransmitDue keys r nowMs x = (Throw e, y) -> y = x.
Proof. unfold retransmitDue. intros Hr. repeat case_match; by simplify_eq. Qed.

Lemma set_sender_same s : set_sender (so_sender s) s = s.
Proof. by destruct s. Qed.

Lemma tick_acts nowMs : runs (acts nowMs) (tick keys options tx nowMs).
Proof.
  intros s. destruct (so_closed s) eqn:Hc; [unfold tick; rewrite bind_this, Hc; apply runs_nil|]. rewrite tick_eq by done.
  destruct (retransmitDue _ _ _ _) as [[[packets exhausted]|e] x] eqn:E.
  2: { rewrite (retransmitDue_Throw _ _ _ _ _ E), set_sender_same. apply runs_nil. }
  destruct (decide (exhausted = [])) as [->|Hne].
  - rewrite bool_decide_eq_true_2 by done. destruct (transmitAll_open nowMs packets (set_sender x s) Hc) as (sent & es & s' & Hpre & Ht & Hr).
    rewrite (bind_Ok_run _ _ _ _ _ _ Ht). cbn [fst snd]. rewrite <- app_assoc.
    eapply runs_cons; [by apply (act_resend nowMs s packets [] x sent)|]. rewrite bool_decide_eq_true_2 by done.
    eapply runs_app; [by apply flushes_acts|]. apply flushQueued_acts.
  - rewrite bool_decide_eq_false_2, destroy_eq by done. change (so_closed (set_sender x s)) with (so_closed s). rewrite Hc. cbn [fst snd].
    assert (acts nowMs s [] (destroyed (set_sender x s))) as Ha.
    { pose proof (act_resend nowMs s packets exhausted x [] E (prefix_nil _) ltac:(done)) as Ha. by rewrite bool_decide_eq_false_2 in Ha. }
    match goal with |- runs_to _ _ ?es _ => change es with ([] ++ es) end. eapply runs_cons; [exact Ha|]. apply runs_one, act_flush.
    pose proof (fl_close nowMs (destroyed (set_sender x s))) as Hclose. apply Hclose. by destruct (so_closeScheduled _).
Qed.

Lemma onTimer_acts nowMs : runs (acts nowMs) (onTimer keys options tx nowMs).
Proof.
  intros s. unfold onTimer. pose proof (tick_acts nowMs s) as Ht. destruct (tick _ _ _ _ s) as [[[[]|e] s1] es]; [done|].
  pose proof (flushing_acts nowMs _ (destroy_flushes nowMs (Some e)) s1) as Hd. destruct (destroy (Some e) s1) as [[? ?] ?]. by eapply runs_app.
Qed.
End actions.
