(* ===== verification/UdpReceiver.v ===== *)
(** * The receiver

    Packets are accepted once and their chunks delivered in the order of their sequence numbers,
    with bounded memory. *)

From S2P Require Import Prelude Js JsText CanonicalJson Sha256 MerkleRoots JsConvert JsonParse NodeBuffer ChainBase UdpPacket UdpSession UdpTransport.

(** ** Delivery *)

(** The chunks that are delivered follow each other, and what is left was there before. *)
Lemma deliver_spec fuel next buffered acc : exists l, let '(next', rest, delivered) := deliver fuel next buffered acc in
  delivered = acc ++ l /\ next' = next + Z.of_nat (length l) /\ (forall i c, l !! i = Some c -> buffered !! (next + Z.of_nat i) = Some c) /\
  (forall q c, rest !! q = Some c <-> buffered !! q = Some c /\ ~ next <= q < next').
Proof.
  revert next buffered acc. induction fuel as [|fuel IH]; intros next buffered acc; cbn [deliver].
  { exists []. rewrite app_nil_r. split_and!; [done|cbn; lia|done|]. intros q c. split; [|naive_solver]. intros; split; [done|lia]. }
  destruct (buffered !! next) as [bytes|] eqn:E.
  2: { exists []. rewrite app_nil_r. split_and!; [done|cbn; lia|done|]. intros q c. split; [|naive_solver]. intros; split; [done|lia]. }
  destruct (IH (next + 1) (delete next buffered) (acc ++ [bytes])) as (l & Hl). exists (bytes :: l).
  destruct (deliver _ _ _ _) as [[next' rest] delivered]. destruct Hl as (-> & -> & Hl & Hrest). split_and!.
  - by rewrite <- app_assoc.
  - cbn. lia.
  - intros [|i] c Hc; cbn in Hc; [injection Hc as <-; by rewrite Z.add_0_r|].
    apply Hl in Hc. apply lookup_delete_Some in Hc as [_ Hc]. by replace (next + Z.of_nat (S i)) with (next + 1 + Z.of_nat i) by lia.
  - intros q c. rewrite Hrest, lookup_delete_Some. cbn [length]. split.
    + intros [[Hne Hq] Hout]. split; [done|lia].
    + intros [Hq Hout]. split; [split; [lia|done]|lia].
Qed.

(** With as many rounds as there are chunks, delivery stops at a missing one. *)
Lemma deliver_stops fuel next buffered acc : (size buffered <= fuel)%nat ->
  let '(next', rest, _) := deliver fuel next buffered acc in rest !! next' = None.
Proof.
  revert next buffered acc. induction fuel as [|fuel IH]; intros next buffered acc Hs; cbn [deliver].
  - assert (size buffered = 0%nat) as ->%map_size_empty_iff by lia. by apply lookup_empty.
  - destruct (buffered !! next) as [bytes|] eqn:E; [|done]. apply IH. rewrite map_size_delete, E. lia.
Qed.

(** ** The state of the receiver *)

Record receiver_ok (r : receiver) : Prop := {
  ro_next : 0 <= re_nextDataSeq r;
  ro_highest : -1 <= re_highestPacketNo r;
  ro_seen : forall n, n ∈ re_seenPacketNos r ->
    re_highestPacketNo r - VOID_P2P_UDP_SECURE_RELIABLE_PACKET_REPLAY_WINDOW_V1 < n <= re_highestPacketNo r;
  ro_buffered : forall q c, re_buffered r !! q = Some c ->
    re_nextDataSeq r <= q < re_nextDataSeq r + VOID_P2P_UDP_SECURE_RELIABLE_RECV_WINDOW_V1
}.

Lemma new_receiver_ok : receiver_ok new_receiver.
Proof. split; cbn; [lia|lia|set_solver|]. intros q c. by rewrite lookup_empty. Qed.

Lemma size_interval (X : gset Z) lo n : (forall z, z ∈ X -> lo <= z < lo + n) -> 0 <= n -> Z.of_nat (size X) <= n.
Proof.
  intros Hin Hn. assert (X ⊆ list_to_set (seqZ lo n)) as Hsub by (intros z Hz; apply elem_of_list_to_set, elem_of_seqZ; auto).
  apply subseteq_size in Hsub. rewrite size_list_to_set, length_seqZ in Hsub by apply NoDup_seqZ. lia.
Qed.

Lemma receiver_sizes r : receiver_ok r ->
  Z.of_nat (size (re_buffered r)) <= VOID_P2P_UDP_SECURE_RELIABLE_RECV_WINDOW_V1 /\
  Z.of_nat (size (re_seenPacketNos r)) <= VOID_P2P_UDP_SECURE_RELIABLE_PACKET_REPLAY_WINDOW_V1.
Proof.
  intros [_ _ Hs Hb]. split.
  - rewrite <- size_dom. apply (size_interval _ (re_nextDataSeq r)); [|done]. intros q [c Hc]%elem_of_dom. by apply (Hb q c).
  - apply (size_interval _ (re_highestPacketNo r - VOID_P2P_UDP_SECURE_RELIABLE_PACKET_REPLAY_WINDOW_V1 + 1)); [|done]. intros n Hn%Hs. lia.
Qed.

(** *** Fresh numbers *)

Lemma packetNoFresh_cases n r : packetNoFresh n r = (false, r) \/
  ((n ∉ re_seenPacketNos r) /\ (0 <= re_highestPacketNo r -> re_highestPacketNo r - VOID_P2P_UDP_SECURE_RELIABLE_PACKET_REPLAY_WINDOW_V1 < n) /\
   exists seen, packetNoFresh n r = (true, mkReceiver (re_nextDataSeq r) (Z.max (re_highestPacketNo r) n) seen (re_buffered r)) /\
     forall m, m ∈ seen <-> Z.max (re_highestPacketNo r) n - VOID_P2P_UDP_SECURE_RELIABLE_PACKET_REPLAY_WINDOW_V1 < m /\ (m = n \/ m ∈ re_seenPacketNos r)).
Proof.
  unfold packetNoFresh. destruct (bool_decide_reflect (n ∈ re_seenPacketNos r)) as [|Hnot]; [by left|].
  destruct (_ && _) eqn:E; [by left|]. right. split; [done|]. apply andb_false_iff in E. split.
  - intros Hh. destruct E as [E|E]; [apply Z.leb_gt in E|apply Z.leb_gt in E]; lia.
  - eexists. split; [done|]. intros m. rewrite elem_of_filter, elem_of_union, elem_of_singleton. done.
Qed.

(** Every number that was fresh once is remembered or below the window. *)
Definition remembers (l : list Z) (r : receiver) : Prop := forall n, n ∈ l ->
  0 <= n <= re_highestPacketNo r /\ (n ∈ re_seenPacketNos r \/ n <= re_highestPacketNo r - VOID_P2P_UDP_SECURE_RELIABLE_PACKET_REPLAY_WINDOW_V1).

Lemma fresh_remembers n r r' l : packetNoFresh n r = (true, r') -> 0 <= n -> receiver_ok r -> remembers l r ->
  (n ∉ l) /\ receiver_ok r' /\ remembers (n :: l) r' /\ re_nextDataSeq r' = re_nextDataSeq r /\ re_buffered r' = re_buffered r.
Proof.
  intros Hf Hn [Hnext Hh Hs Hb] Hr. destruct (packetNoFresh_cases n r) as [E|(Hnew & Hwin & seen & E & Hseen)]; rewrite E in Hf; [done|].
  injection Hf as <-. set (h := re_highestPacketNo r) in *. split_and!; [|split; cbn|..|done|done].
  - intros Hin. apply Hr in Hin as [? [?|?]]; [done|]. lia.
  - done.
  - lia.
  - intros m [Hlo [->|Hm%Hs]]%Hseen; [lia|]. lia.
  - done.
  - intros m [->|Hm]%elem_of_cons; cbn; fold h.
    + split; [lia|]. rewrite Hseen. destruct (Z.ltb_spec (Z.max h n - VOID_P2P_UDP_SECURE_RELIABLE_PACKET_REPLAY_WINDOW_V1) n); [left; split; [lia|by left]|right; lia].
    + destruct (Hr m Hm) as [Hrange Hor]. fold h in Hrange, Hor. split; [lia|]. rewrite Hseen.
      destruct (Z.ltb_spec (Z.max h n - VOID_P2P_UDP_SECURE_RELIABLE_PACKET_REPLAY_WINDOW_V1) m); [|right; lia].
      destruct Hor as [?|?]; [left; auto|right; lia].
Qed.

(** ** Receiving *)

Section receive.
Context `{SessionCrypto} `{StringNumber} (keys : VoidUdpSecureDirectionKeysV1).
(** What is known of the chunk with a sequence number *)
Context (fits : Z -> list Z -> Prop).

Definition buffered_fits (r : receiver) : Prop := forall q c, re_buffered r !! q = Some c -> fits q c.

(** The effect of a packet on the receiver *)
Record received (r : receiver) (result : ReceiveResult) (r' : receiver) : Prop := {
  rd_ok : receiver_ok r';
  rd_fits : buffered_fits r';
  rd_next : re_nextDataSeq r' = re_nextDataSeq r + Z.of_nat (length (rr_delivered result));
  rd_delivered : forall i c, rr_delivered result !! i = Some c -> fits (re_nextDataSeq r + Z.of_nat i) c;
  rd_refused : rr_accepted result = false -> rr_delivered result = []
}.

Lemma received_nothing r result r' : receiver_ok r' -> buffered_fits r' -> re_nextDataSeq r' = re_nextDataSeq r ->
  rr_delivered result = [] -> received r result r'.
Proof. intros Hok Hf Hn Hd. split; rewrite ?Hd; try done. cbn. lia. Qed.

Lemma buffer_chunk_ok r seq plaintext : receiver_ok r -> buffered_fits r -> fits seq plaintext ->
  re_nextDataSeq r <= seq < re_nextDataSeq r + VOID_P2P_UDP_SECURE_RELIABLE_RECV_WINDOW_V1 ->
  let buffered := match re_buffered r !! seq with Some _ => re_buffered r | None => <[seq := plaintext]> (re_buffered r) end in
  let r' := mkReceiver (re_nextDataSeq r) (re_highestPacketNo r) (re_seenPacketNos r) buffered in
  receiver_ok r' /\ buffered_fits r'.
Proof.
  intros [? ? ? Hb] Hf Hfit Hseq buffered r'.
  assert (forall q c, buffered !! q = Some c -> (q = seq /\ c = plaintext) \/ re_buffered r !! q = Some c) as Hin.
  { intros q c. subst buffered. destruct (re_buffered r !! seq) eqn:E; [by right|]. intros [[<- <-]|[_ ?]]%lookup_insert_Some; auto. }
  split; [split; try done|].
  - intros q c [[-> ->]|Hq]%Hin; [done|]. by apply (Hb q c).
  - intros q c [[-> ->]|Hq]%Hin; [done|by apply Hf].
Qed.

Lemma receiveData_ok peer_ack seq plaintext r : receiver_ok r -> buffered_fits r -> fits seq plaintext ->
  exists result r', receiveData peer_ack seq plaintext r = (Ok result, r') /\ received r result r' /\ 
    re_highestPacketNo r' = re_highestPacketNo r /\ re_seenPacketNos r' = re_seenPacketNos r.
Proof.
  intros Hok Hf Hfit. unfold receiveData. destruct (Z.ltb_spec seq (re_nextDataSeq r)) as [Hlt|Hge].
  { eexists _, r. split; [done|]. split; [by apply received_nothing|done]. }
  destruct (Z.leb_spec (re_nextDataSeq r + VOID_P2P_UDP_SECURE_RELIABLE_RECV_WINDOW_V1) seq) as [Hle|Hgt].
  { eexists _, r. split; [done|]. split; [by apply received_nothing|done]. }
  destruct (buffer_chunk_ok r seq plaintext Hok Hf Hfit ltac:(lia)) as [Hok1 Hf1]. cbn zeta in *.
  set (buffered := match re_buffered r !! seq with Some _ => _ | None => _ end) in *.
  destruct (receiver_sizes _ Hok1) as [Hsize%Z.ltb_ge _]. cbn [re_buffered] in Hsize. rewrite Hsize.
  destruct (deliver_spec (size buffered) (re_nextDataSeq r) buffered []) as (l & Hl).
  destruct (deliver _ _ _ _) as [[next rest] delivered]. destruct Hl as (-> & -> & Hl & Hrest). cbn [app].
  eexists _, _. split; [done|]. split; [|done]. destruct Hok1 as [? ? ? Hb]. cbn in *. split; cbn [rr_delivered rr_accepted re_nextDataSeq]; try done.
  - split; cbn; try done; try lia. intros q c [Hq Hout]%Hrest. apply Hb in Hq. lia.
  - intros q c [Hq _]%Hrest. by apply Hf1.
  - intros i c Hi%Hl. by apply Hf1.
Qed.

Definition genuine (raw : json) : Prop := forall p plaintext q, decryptVoidUdpSecurePacketV1 raw keys = Some (p, plaintext) ->
  h_data_seq (p_header p) = Some q -> fits q plaintext.

Lemma receive_ok raw r l : receiver_ok r -> buffered_fits r -> remembers l r -> genuine raw ->
  exists result r', receive keys raw r = (Ok result, r') /\ received r result r' /\
    remembers l r' /\ (rr_accepted result = true -> exists p plaintext, decryptVoidUdpSecurePacketV1 raw keys = Some (p, plaintext) /\
      (h_packet_no (p_header p) ∉ l) /\ remembers (h_packet_no (p_header p) :: l) r').
Proof.
  intros Hok Hf Hrem Hg. unfold receive. destruct (decryptVoidUdpSecurePacketV1 raw keys) as [[p plaintext]|] eqn:Ed.
  2: { eexists _, r. split; [done|]. by split; [apply received_nothing|]. }
  destruct (decrypt_inv _ _ _ _ Ed) as (_ & (Hn & _ & Hseq) & _).
  destruct (packetNoFresh (h_packet_no (p_header p)) r) as [[] r1] eqn:Ef; cbn [negb].
  2: { destruct (packetNoFresh_cases (h_packet_no (p_header p)) r) as [E|(_ & _ & seen & E & _)]; rewrite E in Ef; [|done]. injection Ef as <-.
       eexists _, r. split; [done|]. by split; [apply received_nothing|]. }
  destruct (fresh_remembers _ _ _ _ Ef ltac:(lia) Hok Hrem) as (Hnew & Hok1 & Hrem1 & Hnext & Hbuf).
  assert (buffered_fits r1) as Hf1 by (intros q c; rewrite Hbuf; apply Hf).
  assert (remembers l r1) as Hrem0 by (intros m Hm; apply Hrem1; by right).
  destruct (h_kind (p_header p)), (h_data_seq (p_header p)) as [q|] eqn:Eq; try done.
  - destruct (receiveData_ok (h_ack_seq (p_header p)) q plaintext r1 Hok1 Hf1 (Hg _ _ _ Ed Eq)) as (result & r' & -> & [H1 H2 H3 H4 H5] & Hh & Hs).
    eexists _, r'. split; [done|]. rewrite Hnext in H3. split; [split; try done; by rewrite <- Hnext|].
    split; [intros m Hm; rewrite Hh, Hs; by apply Hrem0|]. intros _. exists p, plaintext. split; [done|]. split; [done|].
    intros m Hm. rewrite Hh, Hs. by apply Hrem1.
  - eexists _, r1. split; [done|]. split; [by apply received_nothing|]. eauto 10.
Qed.
End receive.

(** ** Streams of packets *)

Section streams.
Context `{SessionCrypto} `{StringNumber} (keys : VoidUdpSecureDirectionKeysV1).

(** The outcomes of a receiver on the packets that arrive *)
Fixpoint receive_all (raws : list json) (r : receiver) : list (res ReceiveResult) * receiver :=
  match raws with
  | [] => ([], r)
  | raw :: raws => let '(out, r1) := receive keys raw r in let '(outs, r2) := receive_all raws r1 in (out :: outs, r2)
  end.

(** The numbers of the packets that were accepted *)
Fixpoint accepted_numbers (raws : list json) (outs : list (res ReceiveResult)) : list Z :=
  match raws, outs with
  | raw :: raws, out :: outs =>
      match decryptVoidUdpSecurePacketV1 raw keys, out with
      | Some (p, _), Ok result => if rr_accepted result then [h_packet_no (p_header p)] else []
      | _, _ => []
      end ++ accepted_numbers raws outs
  | _, _ => []
  end.

Lemma receive_all_ok raws r l : receiver_ok r -> remembers l r -> let '(outs, r') := receive_all raws r in
  receiver_ok r' /\ Forall (fun out => exists result, out = Ok result) outs /\
  NoDup (accepted_numbers raws outs) /\ forall n, n ∈ l -> n ∉ accepted_numbers raws outs.
Proof.
  revert r l. induction raws as [|raw raws IH]; intros r l Hok Hrem; cbn [receive_all].
  { split_and!; [done|constructor|constructor|]. intros. by apply not_elem_of_nil. }
  destruct (receive_ok keys (fun _ _ => True) raw r l Hok ltac:(done) Hrem ltac:(done)) as (result & r1 & -> & [Hok1 _ _ _ _] & Hrem1 & Hacc).
  destruct (rr_accepted result) eqn:Ha.
  - destruct (Hacc eq_refl) as (p & plaintext & Ed & Hnew & Hrem2). specialize (IH r1 _ Hok1 Hrem2).
    destruct (receive_all raws r1) as [outs r2]. destruct IH as (IH1 & IH2 & IH3 & IH4). cbn [accepted_numbers]. rewrite Ed, Ha. cbn [app].
    split_and!; [done|by constructor; eauto|constructor; [apply IH4; by left|done]|].
    intros n Hn [->|Hin]%elem_of_cons; [done|]. eapply IH4; [|exact Hin]. by right.
  - specialize (IH r1 _ Hok1 Hrem1). destruct (receive_all raws r1) as [outs r2]. destruct IH as (IH1 & IH2 & IH3 & IH4).
    cbn [accepted_numbers]. rewrite Ha.
    replace (match decryptVoidUdpSecurePacketV1 raw keys with Some (_, _) => [] | None => [] end) with (@nil Z) by by destruct (decryptVoidUdpSecurePacketV1 raw keys) as [[]|].
    split_and!; [done|by constructor; eauto|done|done].
Qed.
End streams.

(** C12: on any sequence of packets from the network the receiver never throws, never accepts two
    packets with the same number, holds at most 64 chunks back and remembers at most 256 numbers. *)
Theorem receiver_rejects_replays `{SessionCrypto} `{StringNumber} keys raws : let '(outs, r) := receive_all keys raws new_receiver in
  Forall (fun out => exists result, out = Ok result) outs /\ NoDup (accepted_numbers keys raws outs) /\
  Z.of_nat (size (re_buffered r)) <= VOID_P2P_UDP_SECURE_RELIABLE_RECV_WINDOW_V1 /\
  Z.of_nat (size (re_seenPacketNos r)) <= VOID_P2P_UDP_SECURE_RELIABLE_PACKET_REPLAY_WINDOW_V1.
Proof.
  assert (remembers [] new_receiver) as Hrem by (intros n Hn; by apply not_elem_of_nil in Hn).
  pose proof (receive_all_ok keys raws new_receiver [] new_receiver_ok Hrem) as Hall.
  destruct (receive_all keys raws new_receiver) as [outs r]. destruct Hall as (Hok & Hout & Hnd & _).
  destruct (receiver_sizes r Hok). done.
Qed.
