(* ===== verification/UdpStream.v ===== *)
(** * The stream between two sockets

    Two sockets with the keys of one session exchange packets over a network that drops,
    duplicates, delays and reorders packets and makes up any others that the cipher does not
    open.  The bytes that one socket delivers are a prefix of those written to the other, and a
    socket with nothing left to send has had everything delivered. *)

From S2P Require Import Prelude Js JsText CanonicalJson Sha256 MerkleRoots JsConvert JsonParse NodeBuffer ChainBase UdpPacket UdpSession UdpTransport UdpRuns UdpGuards UdpReceiver.

(** ** Chunks *)

Definition chunk_ok (c : list Z) : Prop :=
  Forall is_byte c /\ 1 <= Z.of_nat (length c) <= VOID_P2P_UDP_SECURE_RELIABLE_MAX_PAYLOAD_BYTES_V1.

(** The chunk with a sequence number *)
Definition chunk_at (chunks : list (list Z)) (q : Z) (c : list Z) : Prop := 0 <= q /\ chunks !! Z.to_nat q = Some c.

Definition received_bytes (es : list event) : list Z :=
  concat (omap (fun e => match e with Data b => Some b | _ => None end) es).

Lemma received_app es es' : received_bytes (es ++ es') = received_bytes es ++ received_bytes es'.
Proof. unfold received_bytes. by rewrite omap_app, concat_app. Qed.

Lemma received_data l : received_bytes (Data <$> l) = concat l.
Proof. unfold received_bytes. f_equal. induction l as [|b l IH]; [done|]. cbn. by rewrite IH. Qed.

Lemma received_transmit l : received_bytes (Transmit <$> l) = [].
Proof. unfold received_bytes. induction l as [|b l IH]; [done|]. cbn. by rewrite IH. Qed.

Lemma received_quiet es : quiet es -> received_bytes es = [].
Proof.
  induction es as [|e es IH]; intros Hq; [done|]. pose proof (Hq e (list_elem_of_here _ _)) as He.
  assert (received_bytes es = []) as E by (apply IH; intros x Hx; apply Hq; by right). unfold received_bytes in *. cbn. by destruct e.
Qed.

Lemma chunk_at_prefix chunks chunks' q c : chunks `prefix_of` chunks' -> chunk_at chunks q c -> chunk_at chunks' q c.
Proof. intros [k ->] [? ?]. split; [done|]. by apply lookup_app_l_Some. Qed.

Lemma take_next (chunks : list (list Z)) n l : (forall i c, l !! i = Some c -> chunks !! (n + i)%nat = Some c) -> (n <= length chunks)%nat ->
  (n + length l <= length chunks)%nat /\ take (n + length l) chunks = take n chunks ++ l.
Proof.
  intros Hl Hn. assert (n + length l <= length chunks)%nat as Hlen.
  { destruct l as [|x l]; [cbn; lia|]. destruct (lookup_lt_is_Some_2 (x :: l) (length l)) as [c Hc]; [cbn; lia|].
    apply Hl, lookup_lt_Some in Hc. cbn. lia. }
  split; [done|]. apply list_eq. intros i. destruct (decide (i < n)%nat).
  - rewrite lookup_app_l by (rewrite length_take; lia). by rewrite !lookup_take_lt by lia.
  - rewrite lookup_app_r by (rewrite length_take; lia). rewrite length_take, Nat.min_l by done.
    destruct (l !! (i - n)%nat) as [c|] eqn:E.
    + pose proof (lookup_lt_Some _ _ _ E). apply Hl in E. rewrite lookup_take_lt by lia. by replace (n + (i - n))%nat with i in E by lia.
    + apply lookup_ge_None in E. by rewrite lookup_take_ge by lia.
Qed.

Lemma split_chunks_ok fuel n bytes : (0 < n)%nat -> Z.of_nat n <= VOID_P2P_UDP_SECURE_RELIABLE_MAX_PAYLOAD_BYTES_V1 -> Forall is_byte bytes ->
  Forall chunk_ok (split_chunks fuel n bytes).
Proof.
  intros Hn Hmax. revert bytes. induction fuel as [|fuel IH]; intros bytes Hb; cbn [split_chunks]; [constructor|].
  destruct bytes as [|b bytes]; [constructor|]. constructor; [|apply IH, Forall_drop, Hb].
  split; [apply Forall_take, Hb|]. rewrite length_take. cbn [length]. lia.
Qed.

Lemma pending_set_elem seq p m q e : (q, e) ∈ pending_set seq p m -> (q, e) = (seq, p) \/ (q, e) ∈ m.
Proof.
  unfold pending_set. destruct (bool_decide _).
  - rewrite list_elem_of_In, in_map_iff. intros ([q' e'] & E & Hin%list_elem_of_In). cbn in E. destruct (q' =? seq); [by left|by right; rewrite <- E].
  - intros [?|E%list_elem_of_singleton]%elem_of_app; auto.
Qed.

Lemma pending_set_keys seq p m : seq ∉ m.*1 -> (pending_set seq p m).*1 = m.*1 ++ [seq].
Proof. intros Hs. unfold pending_set. rewrite bool_decide_eq_false_2 by done. by rewrite fmap_app. Qed.

(** ** What a socket has sent *)

Section sending.
Context `{SessionCrypto} `{!SessionCryptoLaws _} `{StringNumber}.
Context (keys : VoidUdpSecureDirectionKeysV1) (options : socket_options) (Hkeys : usable keys = true).

(** A packet that carries the chunk of its number, or none *)
Definition carries (chunks : list (list Z)) (p : VoidUdpSecurePacketV1) : Prop :=
  exists k n q r plaintext, p = sealed keys (local_header keys k n q r) plaintext /\ header_ranges (local_header keys k n q r) /\
    Forall is_byte plaintext /\ (k = ack -> plaintext = []) /\
    Z.of_nat (length plaintext) <= VOID_P2P_UDP_SECURE_RELIABLE_MAX_PAYLOAD_BYTES_V1 /\ match q with Some q => chunk_at chunks q plaintext | None => True end.

(** The chunks that became packets, the state of a socket and its events; the peer has delivered
    all chunks up to [bound]. *)
Record sending (written : list Z) (chunks : list (list Z)) (bound : Z) (s : socket) (es : list event) : Prop := {
  sd_seq : se_nextDataSeq (so_sender s) = Z.of_nat (length chunks);
  sd_no : Z.of_nat (length chunks) <= se_nextPacketNo (so_sender s);
  sd_chunks : Forall chunk_ok chunks;
  sd_queued : Forall chunk_ok (so_queued s);
  sd_pending : forall q p, (q, p) ∈ se_pending (so_sender s) -> pe_dataSeq p = q /\ chunk_at chunks q (pe_plaintext p);
  sd_stream : if so_closed s then concat chunks `prefix_of` written else written = concat chunks ++ concat (so_queued s);
  sd_kept : so_closed s = false -> forall q, 0 <= q < Z.of_nat (length chunks) -> q <= bound \/ q ∈ (se_pending (so_sender s)).*1;
  sd_bytes : so_closed s = false -> forall q, q ∈ (se_pending (so_sender s)).*1 -> exists n, so_pendingBytes s !! q = Some n /\ 1 <= n;
  sd_sent : forall p, Transmit p ∈ es -> carries chunks p /\ h_ack_seq (p_header p) <= ackSeq (so_receiver s)
}.

Lemma carries_prefix chunks chunks' p : chunks `prefix_of` chunks' -> carries chunks p -> carries chunks' p.
Proof.
  intros Hpre (k & n & q & r & plaintext & ? & ? & ? & ? & ? & Hq). exists k, n, q, r, plaintext.
  do 5 (split; [done|]). destruct q as [q|]; [|done]. exact (chunk_at_prefix _ _ _ _ Hpre Hq).
Qed.

Lemma sending_bound written chunks bound bound' s es : bound <= bound' -> sending written chunks bound s es -> sending written chunks bound' s es.
Proof.
  intros Hb [? ? ? ? ? ? Hk ? ?]. split; try done. intros Hc q Hq. destruct (Hk Hc q Hq); [left; lia|by right].
Qed.

Lemma sending_sent chunks es s l r : (forall p, Transmit p ∈ es -> carries chunks p /\ h_ack_seq (p_header p) <= ackSeq (so_receiver s)) ->
  (forall p, p ∈ sent_packets l -> carries chunks p /\ h_ack_seq (p_header p) <= ackSeq r) -> ackSeq (so_receiver s) <= ackSeq r ->
  forall p, Transmit p ∈ es ++ l -> carries chunks p /\ h_ack_seq (p_header p) <= ackSeq r.
Proof.
  intros He Hl Hr p [Hp|Hp]%elem_of_app; [apply He in Hp as [? ?]; split; [done|lia]|].
  apply Hl. unfold sent_packets. apply list_elem_of_omap. by exists (Transmit p).
Qed.

(** Changes of a socket that leave the sending side as it is *)
Lemma sending_same written chunks bound s s' es es' : so_sender s' = so_sender s -> so_queued s' = so_queued s -> so_closed s' = so_closed s ->
  so_pendingBytes s' = so_pendingBytes s -> ackSeq (so_receiver s) <= ackSeq (so_receiver s') -> sent_packets es' = [] ->
  sending written chunks bound s es -> sending written chunks bound s' (es ++ es').
Proof.
  intros E1 E2 E3 E4 Hr Hes [? ? ? ? ? ? ? ? Hs]. split; rewrite ?E1, ?E2, ?E3, ?E4; try done.
  eapply sending_sent; [exact Hs| |done]. intros p. rewrite Hes. by intros ?%not_elem_of_nil.
Qed.

Lemma stream_prefix written chunks s (queued : list (list Z)) :
  (if so_closed s then concat chunks `prefix_of` written else written = concat chunks ++ concat queued) -> concat chunks `prefix_of` written.
Proof. destruct (so_closed s); [done|]. intros ->. by apply prefix_app_r. Qed.

Lemma sending_destroyed written chunks bound s es es' : sent_packets es' = [] -> sending written chunks bound s es ->
  sending written chunks bound (destroyed s) (es ++ es').
Proof.
  intros Hes [? ? ? ? ? Hst ? ? Hs]. split; cbn; try done; [by eapply stream_prefix|].
  eapply sending_sent; [exact Hs| |done]. intros p. rewrite Hes. by intros ?%not_elem_of_nil.
Qed.

Lemma pending_keys_below written chunks bound s es q : sending written chunks bound s es -> q ∈ (se_pending (so_sender s)).*1 ->
  0 <= q < Z.of_nat (length chunks).
Proof.
  intros Hs ([q' e] & -> & Hin)%list_elem_of_fmap. destruct (sd_pending _ _ _ _ _ Hs q' e Hin) as [_ [Hq Hl%lookup_lt_Some]]. cbn. lia.
Qed.

(** The data packet of the next chunk *)
Lemma createData_sealed bytes r nowMs x p y : createData keys bytes (Integer r) nowMs x = (Ok p, y) ->
  p = sealed keys (local_header keys data (se_nextPacketNo x) (Some (se_nextDataSeq x)) r) bytes /\ header_ranges (p_header p).
Proof.
  intros (now & _ & _ & _ & _ & _ & He & _)%createData_Ok.
  apply (encode_inv keys) in He as (Hr & _ & _ & n & q & r' & [= <-] & Eq & [= <-] & ->); [|done]. destruct q as [q|]; [|discriminate Eq]. injection Eq as Eq. rewrite Eq.
  split; [reflexivity|]. exact Hr.
Qed.

Lemma sending_send nowMs s bytes queued p x seq written chunks bound es : so_closed s = false -> so_queued s = bytes :: queued ->
  createData keys bytes (Integer (ackSeq (so_receiver s))) nowMs (so_sender s) = (Ok p, x) -> h_data_seq (p_header p) = Some seq ->
  sending written chunks bound s es -> sending written (chunks ++ [bytes]) bound (after_send bytes queued seq x s) (es ++ [Transmit p]).
Proof.
  intros Hc Hq E Hseq Hs. pose proof (createData_sealed _ _ _ _ _ _ E) as [Hp Hranges]. pose proof (proj1 (createData_header _ _ _ _ _ _ _ E)) as Hseq'.
  pose proof (pending_keys_below _ _ _ _ _ (Z.of_nat (length chunks)) Hs) as Hfresh. destruct Hs as [Es En Hch Hqu Hpe Hst Hk Hb Hsent].
  apply createData_Ok in E as (now & -> & _ & Hlen & Hsr & Hnr & _ & ->). rewrite Hseq in Hseq'. injection Hseq' as ->.
  rewrite Hc in Hst. rewrite Hq in Hqu, Hst. apply Forall_cons in Hqu as [Hbytes Hqu]. rewrite Es in *.
  assert (chunk_at (chunks ++ [bytes]) (Z.of_nat (length chunks)) bytes) as Hat.
  { split; [lia|]. rewrite Nat2Z.id, lookup_app_r, Nat.sub_diag by lia. done. }
  assert (Z.of_nat (length chunks) ∉ (se_pending (so_sender s)).*1) as Hnew by (intros Hin%Hfresh; lia).
  assert (chunks `prefix_of` chunks ++ [bytes]) as Hpre by by apply prefix_app_r.
  split; cbn; rewrite ?length_app; cbn [length].
  - lia.
  - lia.
  - apply Forall_app. split; [done|]. by apply Forall_singleton.
  - done.
  - intros q e [[= -> ->]|Hin]%pending_set_elem; [done|]. destruct (Hpe _ _ Hin). split; [done|]. by eapply (chunk_at_prefix chunks).
  - rewrite Hc, concat_app. cbn. by rewrite app_nil_r, <- app_assoc.
  - intros _ q Hq'. rewrite pending_set_keys, elem_of_app, list_elem_of_singleton by done.
    destruct (decide (q = Z.of_nat (length chunks))) as [|Hne]; [auto|]. destruct (Hk Hc q ltac:(lia)); auto.
  - intros _ q. rewrite pending_set_keys, elem_of_app, list_elem_of_singleton by done. intros [Hin|Hin].
    + destruct (Hb Hc q Hin) as (n & ? & ?). exists n. rewrite lookup_insert_ne; [done|]. intros Heq. by rewrite Heq in Hnew.
    + subst q. eexists. rewrite lookup_insert_eq. split; [done|lia].
  - eapply (sending_sent _ _ s); [|intros p' ->%list_elem_of_singleton; cbn|done].
    + intros p' [Hcar ?]%Hsent. split; [by eapply (carries_prefix chunks)|done].
    + rewrite Hp in Hranges |- *. split; [|cbn; lia]. eexists data, _, (Some _), _, _. split; [reflexivity|]. split; [exact Hranges|]. split; [apply Hbytes|].
      split; [discriminate|]. split; [apply Hbytes|exact Hat].
Qed.

(** Flushing extends the chunks that were sent. *)
Lemma sending_flushes nowMs s es' s' written chunks bound es : runs_to (flushes keys nowMs) s es' s' -> sending written chunks bound s es ->
  exists chunks', chunks `prefix_of` chunks' /\ sending written chunks' bound s' (es ++ es') /\ so_receiver s' = so_receiver s /\ received_bytes es' = [].
Proof.
  intros Hr. revert chunks es. induction Hr as [s|s1 s2 s3 es1 es2 Hstep _ IH]; intros chunks es Hs.
  { exists chunks. rewrite app_nil_r. done. }
  assert (exists chunks1, chunks `prefix_of` chunks1 /\ sending written chunks1 bound s2 (es ++ es1) /\ so_receiver s2 = so_receiver s1 /\ received_bytes es1 = [])
    as (chunks1 & Hpre & Hs2 & Er & Ed).
  { destruct Hstep as [s es1 Hq|s flush back es1 Hq|s bytes queued p x seq Hc Hq E Hseq].
    - exists chunks. split_and!; [done|by apply sending_destroyed; [apply sent_quiet|]|done|by apply received_quiet].
    - exists chunks. split_and!; [done|by eapply sending_same; [..|exact Hs]; try done; by apply sent_quiet|done|by apply received_quiet].
    - exists (chunks ++ [bytes]). split_and!; [by apply prefix_app_r|by eapply sending_send|done|done]. }
  destruct (IH _ _ Hs2) as (chunks' & Hpre' & Hs3 & Er' & Ed'). exists chunks'. rewrite app_assoc, received_app, Ed, Ed'.
  split_and!; [by etrans|done|congruence|done].
Qed.

(** *** No chunk is lost while there are packet numbers *)

Definition valid_time (nowMs : number) : Prop := exists now, nowMs = Integer now /\ 0 <= now <= MAX_SAFE_INTEGER.
Definition ack_in_range (r : receiver) : Prop := -1 <= ackSeq r <= MAX_SAFE_INTEGER.

Lemma createData_sends bytes r nowMs x : chunk_ok bytes -> valid_time nowMs -> -1 <= r <= MAX_SAFE_INTEGER ->
  pendingCount x < VOID_P2P_UDP_SECURE_RELIABLE_MAX_IN_FLIGHT_V1 -> 0 <= se_nextDataSeq x <= se_nextPacketNo x -> se_nextPacketNo x < MAX_SAFE_INTEGER ->
  exists p y, createData keys bytes (Integer r) nowMs x = (Ok p, y).
Proof.
  intros [_ Hlen] (now & -> & Hnow) Hr Hp%Z.leb_gt Hseq Hno. unfold createData. rewrite Hp. cbn [throw_if mbind res_bind].
  replace ((_ <? 1) || _) with false by (symmetry; apply orb_false_iff; rewrite !Z.ltb_ge; lia). cbn [throw_if mbind res_bind].
  rewrite (safeInteger_ok now), (safeInteger_ok (se_nextDataSeq x)), (safeInteger_ok (se_nextPacketNo x)) by lia.
  pose proof (encode_ok keys data (se_nextPacketNo x) (Some (se_nextDataSeq x)) r bytes Hkeys ltac:(lia) ltac:(cbn; lia) Hr ltac:(lia) ltac:(discriminate)) as E.
  cbn [fmap option_fmap option_map] in E. rewrite E. cbn [mbind res_bind]. eexists _, _. reflexivity.
Qed.

Lemma loses_dead nowMs s es' s' written chunks bound es : loses keys nowMs s es' s' -> sending written chunks bound s es -> valid_time nowMs ->
  ack_in_range (so_receiver s) -> se_nextPacketNo (so_sender s) < MAX_SAFE_INTEGER -> False.
Proof.
  intros [s0 bytes queued e Hc Hq Hp E] [Es En _ Hqu _ _ _ _ _] Ht Hr Hno. rewrite Hq in Hqu. apply Forall_cons in Hqu as [Hb _].
  destruct (createData_sends bytes _ nowMs (so_sender s0) Hb Ht Hr Hp ltac:(lia) Hno) as (p & y & E'). congruence.
Qed.

Lemma sending_outcome nowMs s out written chunks bound es : flush_outcome keys nowMs s out -> sending written chunks bound s es ->
  valid_time nowMs -> ack_in_range (so_receiver s) -> se_nextPacketNo (so_sender out.1.2) < MAX_SAFE_INTEGER ->
  out.1.1 = Ok tt /\ runs_to (flushes keys nowMs) s out.2 out.1.2.
Proof.
  destruct out as [[[[]|e] s'] es']; cbn; [done|]. intros (s1 & s2 & back & Hr & Hl & ->) Hs Ht Hack Hno. exfalso.
  destruct (sending_flushes _ _ _ _ _ _ _ _ Hr Hs) as (chunks1 & _ & Hs1 & Er & _).
  eapply loses_dead; [exact Hl|exact Hs1|done|by rewrite Er|]. by destruct Hl.
Qed.

(** *** The other actions *)

Lemma sending_queue bytes s written chunks bound es : so_closed s = false -> Forall is_byte bytes ->
  1 <= o_maxPayloadBytes options <= VOID_P2P_UDP_SECURE_RELIABLE_MAX_PAYLOAD_BYTES_V1 ->
  sending written chunks bound s es -> sending (written ++ bytes) chunks bound (queue_all options bytes s) es.
Proof.
  intros Hc Hb Hpay [? ? ? Hqu ? Hst ? ? ?]. split; try done.
  - apply Forall_app. split; [done|]. apply split_chunks_ok; [lia|lia|done].
  - cbn. rewrite Hc in *. rewrite Hst, concat_app, split_chunks_concat by lia. by rewrite <- app_assoc.
Qed.

Lemma sending_acked n s written chunks bound es : -1 <= n <= MAX_SAFE_INTEGER -> n <= bound -> sending written chunks bound s es ->
  sending written chunks bound (acked n s) es.
Proof.
  intros Hn Hb [? ? ? ? Hpe ? Hk Hby ?]. unfold acked. destruct (acknowledge_ok n (so_sender s) Hn) as (removed & ->). cbn [snd].
  assert (forall q e, (q, e) ∈ unacknowledged n (se_pending (so_sender s)) <-> (q, e) ∈ se_pending (so_sender s) /\ n < q) as Hin.
  { intros q e. unfold unacknowledged. rewrite !list_elem_of_In, filter_In. cbn. by rewrite Z.ltb_lt. }
  split; cbn; try done.
  - intros q e [He _]%Hin. by apply Hpe.
  - intros Hc q Hq. destruct (Hk Hc q Hq) as [?|([q' e] & -> & Hin')%list_elem_of_fmap]; [by left|]. cbn.
    destruct (Z.ltb_spec n q'); [|left; lia]. right. apply list_elem_of_fmap. exists (q', e). rewrite Hin. done.
  - intros Hc q ([q' e] & -> & [Hin' Hlt]%Hin)%list_elem_of_fmap. cbn. destruct (Hby Hc q') as (m & Hm & ?).
    { apply list_elem_of_fmap. by exists (q', e). }
    exists m. split; [|done]. by apply map_lookup_filter_Some_2.
Qed.

Lemma sending_ack s p x es' written chunks bound es : createAck keys (Integer (ackSeq (so_receiver s))) (so_sender s) = (Ok p, x) ->
  es' = [Transmit p] \/ es' = [] -> sending written chunks bound s es -> sending written chunks bound (set_sender x s) (es ++ es').
Proof.
  intros [He ->]%createAck_Ok Hes [? ? ? ? ? ? ? ? Hs]. split; cbn; try done; [lia|].
  apply (encode_inv keys) in He as (Hr & _ & _ & n & q & r & [= <-] & Eq & [= <-] & ->); [|done]. destruct q; [discriminate Eq|].
  eapply (sending_sent _ _ s); [exact Hs| |done]. intros p'. destruct Hes as [Hes|Hes]; subst es'; cbn; [|by intros ?%not_elem_of_nil].
  intros ->%list_elem_of_singleton. split; [|cbn; lia]. eexists ack, _, None, _, []. split; [reflexivity|]. split; [exact Hr|]. done.
Qed.

Lemma encodeDue_carries chunks upTo start due packets :
  (forall q e, (q, e) ∈ due -> pe_dataSeq e = q /\ chunk_at chunks q (pe_plaintext e)) -> Forall chunk_ok chunks ->
  encodeDue keys upTo start due = Ok packets -> forall p, p ∈ packets -> carries chunks p /\ h_ack_seq (p_header p) = upTo.
Proof.
  intros Hdue Hch. revert start packets. induction due as [|[q e] due IH]; intros start packets Hd p Hp; cbn [encodeDue] in Hd.
  { injection Hd as <-. by apply not_elem_of_nil in Hp. }
  apply bind_Ok in Hd as (p' & He & (rest & Hrest & [= <-])%bind_Ok). apply elem_of_cons in Hp as [->|Hp].
  2: { eapply IH; [|exact Hrest|done]. intros q' e' Hin. apply Hdue. by right. }
  destruct (Hdue q e (list_elem_of_here _ _)) as [<- Hat].
  apply (encode_inv keys) in He as (Hr & _ & Hlen & n & q' & r & [= <-] & Eq & [= <-] & ->); [|done].
  destruct q' as [q'|]; [|discriminate Eq]. injection Eq as <-. split; [|reflexivity].
  eexists data, _, (Some _), _, _. split; [reflexivity|]. split; [exact Hr|]. split; [|split; [discriminate|split; [exact Hlen|exact Hat]]].
  rewrite Forall_lookup in Hch. apply (Hch _ _ (proj2 Hat)).
Qed.

Lemma resent_key upTo now e : (resent upTo now e).1 = e.1 /\ pe_dataSeq (resent upTo now e).2 = pe_dataSeq e.2 /\
  pe_plaintext (resent upTo now e).2 = pe_plaintext e.2.
Proof. unfold resent. by destruct (is_due _ _ _). Qed.

Lemma resent_keys upTo now l : (map (resent upTo now) l).*1 = l.*1.
Proof. induction l as [|e l IH]; [done|]. cbn. rewrite IH. by rewrite (proj1 (resent_key _ _ _)). Qed.

Lemma filter_all {A} (f : A -> bool) l : (forall x, x ∈ l -> f x = true) -> List.filter f l = l.
Proof. induction l as [|x l IH]; intros Hf; [done|]. cbn. rewrite Hf by left. f_equal. apply IH. intros y Hy. apply Hf. by right. Qed.

Lemma sending_resend nowMs s packets exhausted x sent written chunks bound es :
  retransmitDue keys (Integer (-1)) nowMs (so_sender s) = (Ok (packets, exhausted), x) -> sent `prefix_of` packets -> 0 <= re_nextDataSeq (so_receiver s) ->
  sending written chunks bound s es ->
  sending written chunks bound (if bool_decide (exhausted = []) then set_sender x s else destroyed (set_sender x s)) (es ++ (Transmit <$> sent)).
Proof.
  intros (now & -> & Hnow & He & _ & ->)%retransmitDue_Ok Hpre Hnext Hs.
  assert (forall e, e ∈ se_pending (so_sender s) -> 0 <= e.1) as Hpos.
  { intros e Hin. eapply pending_keys_below; [exact Hs|]. by apply list_elem_of_fmap_2. }
  destruct Hs as [Es En Hch Hqu Hpe Hst Hk Hb Hsent]. set (entries := isort _ _) in *.
  set (kept := List.filter _ (unacknowledged _ _)).
  assert (forall q e, (q, e) ∈ map (resent (-1) now) kept -> pe_dataSeq e = q /\ chunk_at chunks q (pe_plaintext e)) as Hpe'.
  { intros q e. rewrite list_elem_of_In, in_map_iff. intros (e0 & E & Hin). destruct (resent_key (-1) now e0) as (K1 & K2 & K3). rewrite E in *. cbn in *.
    apply filter_In in Hin as [[Hin _]%filter_In _]. apply list_elem_of_In in Hin. destruct e0 as [q0 e0]. cbn in *. subst q0. rewrite K2, K3. by apply Hpe. }
  assert (forall p, p ∈ sent -> carries chunks p /\ h_ack_seq (p_header p) <= ackSeq (so_receiver s)) as Hsent'.
  { intros p Hp. assert (p ∈ packets) as Hp' by (destruct Hpre as [l ->]; apply elem_of_app; by left).
    eapply encodeDue_carries in Hp' as [Hcar ->]; [|clear p Hp Hp'|exact Hch|exact He]; [split; [done|unfold ackSeq; lia]|].
    intros q e Hin. apply list_elem_of_In, filter_In in Hin as [Hin _]. apply Hpe. apply list_elem_of_In in Hin. unfold entries in Hin. by rewrite isort_perm in Hin. }
  assert (exhausted = [] -> (map (resent (-1) now) kept).*1 = (se_pending (so_sender s)).*1) as Hkeys'.
  { intros ->. rewrite resent_keys. unfold kept, unacknowledged. rewrite !(filter_all _ _); [done|..]; intros e Hin; [|].
    - apply Z.ltb_lt. specialize (Hpos e Hin). lia.
    - by rewrite bool_decide_eq_false_2 by apply not_elem_of_nil. }
  assert (forall r, r = so_receiver s -> forall p, Transmit p ∈ es ++ (Transmit <$> sent) -> carries chunks p /\ h_ack_seq (p_header p) <= ackSeq r) as Hall.
  { intros r ->. eapply (sending_sent _ _ s); [exact Hsent| |done]. intros p. rewrite sent_transmit. apply Hsent'. }
  destruct (decide (exhausted = [])) as [Hex|Hex].
  - rewrite bool_decide_eq_true_2 by done. split; cbn; try done; [lia|..|by apply Hall].
    + intros Hc. rewrite Hkeys' by done. by apply Hk.
    + intros Hc. rewrite Hkeys' by done. by apply Hb.
  - rewrite bool_decide_eq_false_2 by done. split; cbn; try done; [lia|by eapply stream_prefix|by apply Hall].
Qed.
End sending.

(** ** Calls *)

Definition written_by (c : call) : list Z := match c with Write bytes _ => bytes | _ => [] end.

(** The clock is a valid time, bytes are bytes, and the cipher opens no packet that the peer has not sent. *)
Definition valid_call `{SessionCrypto} `{StringNumber} (keys : VoidUdpSecureDirectionKeysV1) (peer_events : list event) (c : call) : Prop :=
  match c with
  | Write bytes now => Forall is_byte bytes /\ valid_time now
  | Receive raw now => valid_time now /\ forall p plaintext, decryptVoidUdpSecurePacketV1 raw keys = Some (p, plaintext) -> Transmit p ∈ peer_events
  | Tick now | Timer now => valid_time now
  | Destroy _ => True
  end.

Section calls.
Context `{SessionCrypto} `{!SessionCryptoLaws _} `{StringNumber}.
Context (keys peer : VoidUdpSecureDirectionKeysV1) (options : socket_options) (tx : VoidUdpSecurePacketV1 -> option string).
Context (Hkeys : usable keys = true) (Hpair : paired keys peer).
Context (Hpay : 1 <= o_maxPayloadBytes options <= VOID_P2P_UDP_SECURE_RELIABLE_MAX_PAYLOAD_BYTES_V1).

Definition alive (s : socket) : Prop := se_nextPacketNo (so_sender s) < MAX_SAFE_INTEGER.

(** A call that sends and does not receive *)
Definition sends_only {A} (written : list Z) (chunks : list (list Z)) (bound : Z) (s : socket) (es : list event) (out : res A * socket * list event) : Prop :=
  exists chunks', chunks `prefix_of` chunks' /\ sending keys written chunks' bound out.1.2 (es ++ out.2) /\
    so_receiver out.1.2 = so_receiver s /\ received_bytes out.2 = [].

Lemma sends_flushes {A} nowMs written chunks bound s s0 es (out : res A * socket * list event) :
  runs_to (flushes keys nowMs) s0 out.2 out.1.2 -> so_receiver s0 = so_receiver s -> sending keys written chunks bound s0 es ->
  sends_only written chunks bound s es out.
Proof.
  intros Hr Er Hs. destruct (sending_flushes _ Hkeys _ _ _ _ _ _ _ _ Hr Hs) as (chunks' & ? & ? & ? & ?). exists chunks'. split_and!; try done. congruence.
Qed.

(** Flushing succeeds and what follows it runs. *)
Lemma flush_succeeds {B} nowMs (m : method unit) (f : unit -> method B) s s0 written chunks bound es :
  flush_outcome keys nowMs s0 (m s) -> sending keys written chunks bound s0 es -> valid_time nowMs -> ack_in_range (so_receiver s0) ->
  alive ((m ≫= f) s).1.2 -> exists s1 es1, m s = (Ok tt, s1, es1) /\ runs_to (flushes keys nowMs) s0 es1 s1.
Proof.
  intros Hf Hs Ht Hr Ha. destruct (m s) as [[[[]|e] s1] es1] eqn:E; [by exists s1, es1|]. exfalso.
  rewrite (bind_Throw_run _ _ _ _ _ _ E) in Ha. by destruct (sending_outcome _ Hkeys _ _ _ _ _ _ _ Hf Hs Ht Hr Ha).
Qed.

(** A method whose result is replaced *)
Lemma bind_state {A B} (m : method A) (b : B) s : (exists r, (m;; mret b) s = (r, (m s).1.2, (m s).2)).
Proof. unfold mbind, method_bind, mret, method_ret. destruct (m s) as [[[a|e] s1] es1]; eexists; cbn; by rewrite ?app_nil_r. Qed.

Lemma sending_closed written more chunks bound s es : so_closed s = true -> sending keys written chunks bound s es ->
  sending keys (written ++ more) chunks bound s es.
Proof. intros Hc []. split; try done. rewrite Hc in *. by apply prefix_app_r. Qed.

Lemma destroy_quiet error s : so_closed s = false -> exists es, destroy error s = (Ok tt, destroyed s, es) /\ quiet es.
Proof. intros Hc. rewrite destroy_eq, Hc. eexists. split; [done|]. destruct (so_closeScheduled s); [apply quiet_nil|apply quiet_close]. Qed.

Lemma sends_write bytes nowMs s written chunks bound es : sending keys written chunks bound s es -> Forall is_byte bytes -> valid_time nowMs ->
  ack_in_range (so_receiver s) -> alive (write keys options tx bytes nowMs s).1.2 ->
  sends_only (written ++ bytes) chunks bound s es (write keys options tx bytes nowMs s).
Proof.
  intros Hs Hb Ht Hr. unfold write. rewrite bind_this. destruct (so_closed s) eqn:Hc; intros Ha.
  { exists chunks. cbn. rewrite app_nil_r. split_and!; try done. by apply sending_closed. }
  destruct (bool_decide_reflect (bytes = [])) as [->|Hne].
  { rewrite app_nil_r. by eapply sends_flushes; [apply (noteBackpressure_flushes keys options nowMs)|..]. }
  rewrite bind_this in *. destruct (Z.ltb_spec (o_maxQueuedBytes options) (writableLength s + Z.of_nat (length bytes))) as [Hover|Hfit].
  { destruct (destroy_quiet (Some "UDP peer-socket bounded write queue exceeded"%string) s Hc) as (es' & E & Hq).
    rewrite (bind_Ok_run _ _ _ _ _ _ E). exists chunks. cbn. rewrite app_nil_r.
    split_and!; [done| |done|by apply received_quiet]. by apply sending_closed, sending_destroyed; [..|apply sent_quiet|]. }
  rewrite bind_update in *. pose proof (sending_queue keys options bytes s _ _ _ _ Hc Hb Hpay Hs) as Hs1. fold (queue_all options bytes s) in *.
  destruct (flush_succeeds nowMs _ _ _ _ _ _ _ _ (flushQueued_outcome keys options tx nowMs (queue_all options bytes s)) Hs1 Ht Hr Ha) as (s1 & es1 & E & Hrun).
  rewrite (bind_Ok_run _ _ _ _ _ _ E). apply (sends_flushes nowMs _ _ _ s (queue_all options bytes s)); [cbn|done|exact Hs1].
  eapply runs_app; [exact Hrun|]. apply (noteBackpressure_flushes keys options nowMs).
Qed.

Lemma sends_destroy error s written chunks bound es : sending keys written chunks bound s es -> sends_only written chunks bound s es (destroy error s).
Proof. intros Hs. eapply (sends_flushes (Integer 0)); [apply (destroy_flushes keys (Integer 0))|done|done]. Qed.

Lemma sends_tick nowMs s written chunks bound es : sending keys written chunks bound s es -> valid_time nowMs -> 0 <= re_nextDataSeq (so_receiver s) ->
  ack_in_range (so_receiver s) -> alive (tick keys options tx nowMs s).1.2 -> sends_only written chunks bound s es (tick keys options tx nowMs s).
Proof.
  intros Hs Ht Hn Hr. destruct (so_closed s) eqn:Hc.
  { unfold tick. rewrite bind_this, Hc. intros _. exists chunks. cbn. by rewrite app_nil_r. }
  rewrite tick_eq by done. destruct (retransmitDue _ _ _ _) as [[[packets exhausted]|e] x] eqn:E.
  2: { rewrite (retransmitDue_Throw _ _ _ _ _ _ E), set_sender_same. intros _. exists chunks. cbn. by rewrite app_nil_r. }
  destruct (decide (exhausted = [])) as [->|Hne].
  - rewrite bool_decide_eq_true_2 by done. destruct (transmitAll_open keys tx nowMs packets (set_sender x s) Hc) as (sent & es1 & s1 & Hpre & Et & Hrun).
    rewrite (bind_Ok_run _ _ _ _ _ _ Et). cbn [fst snd]. intros Ha. pose proof (sending_resend keys Hkeys _ _ _ _ _ _ _ _ _ _ E Hpre Hn Hs) as Hs1.
    rewrite bool_decide_eq_true_2 in Hs1 by done. destruct (sending_flushes _ Hkeys _ _ _ _ _ _ _ _ Hrun Hs1) as (chunks1 & Hp1 & Hs2 & Er & Ed).
    pose proof (flushQueued_outcome keys options tx nowMs s1) as Hf.
    destruct (sending_outcome _ Hkeys _ _ _ _ _ _ _ Hf Hs2 Ht ltac:(by rewrite Er) Ha) as [_ Hrun2].
    destruct (sending_flushes _ Hkeys _ _ _ _ _ _ _ _ Hrun2 Hs2) as (chunks2 & Hp2 & Hs3 & Er' & Ed'). exists chunks2. cbn [fst snd].
    rewrite !received_app, received_transmit, Ed, Ed', !app_assoc. split_and!; [by etrans|done|by rewrite Er', Er|done].
  - rewrite bool_decide_eq_false_2 by done. intros _. pose proof (sending_resend keys Hkeys _ _ _ _ _ [] _ _ _ _ E (prefix_nil _) Hn Hs) as Hs1.
    rewrite bool_decide_eq_false_2, app_nil_r in Hs1 by done.
    destruct (destroy_quiet (Some ("secure UDP retransmission exhausted: " +:+ String.concat "," (map int_text exhausted))) (set_sender x s) Hc) as (es' & -> & Hq).
    exists chunks. cbn. split_and!; [done| |done|by apply received_quiet].
    eapply sending_same; [..|exact Hs1]; try done. by apply sent_quiet.
Qed.

Lemma sends_timer nowMs s written chunks bound es : sending keys written chunks bound s es -> valid_time nowMs -> 0 <= re_nextDataSeq (so_receiver s) ->
  ack_in_range (so_receiver s) -> alive (onTimer keys options tx nowMs s).1.2 -> sends_only written chunks bound s es (onTimer keys options tx nowMs s).
Proof.
  intros Hs Ht Hn Hr. unfold onTimer. pose proof (sends_tick nowMs s _ _ _ _ Hs Ht Hn Hr) as Htick.
  destruct (tick keys options tx nowMs s) as [[[[]|e] s1] es1]; [done|]. cbn in Htick.
  pose proof (sends_destroy (Some e) s1) as Hd. pose proof (destroy_eq (Some e) s1) as Ed. destruct (destroy (Some e) s1) as [[r s2] es2]. cbn [fst snd] in *.
  intros Ha. destruct Htick as (chunks1 & Hp1 & Hs1 & Er1 & Ed1); [destruct (so_closed s1); injection Ed as -> -> _; exact Ha|]. cbn [fst snd] in *.
  destruct (Hd _ _ _ _ Hs1) as (chunks2 & Hp2 & Hs2 & Er2 & Ed2). cbn [fst snd] in *. exists chunks2. cbn [fst snd].
  rewrite received_app, Ed1, Ed2, app_assoc. split_and!; [by etrans|done|congruence|done].
Qed.

(** *** Receiving *)

(** What has been delivered is the beginning of the chunks of the peer. *)
Record receiving (peer_chunks : list (list Z)) (s : socket) (es : list event) : Prop := {
  rc_ok : receiver_ok (so_receiver s);
  rc_fits : buffered_fits (chunk_at peer_chunks) (so_receiver s);
  rc_next : re_nextDataSeq (so_receiver s) <= Z.of_nat (length peer_chunks);
  rc_data : received_bytes es = concat (take (Z.to_nat (re_nextDataSeq (so_receiver s))) peer_chunks)
}.

Lemma receiving_same peer_chunks s s' es es' : so_receiver s' = so_receiver s -> received_bytes es' = [] ->
  receiving peer_chunks s es -> receiving peer_chunks s' (es ++ es').
Proof. intros E Ed []. split; rewrite ?E; try done. by rewrite received_app, Ed, app_nil_r. Qed.

Lemma receiving_delivered peer_chunks s s' es es' result : receiving peer_chunks s es ->
  received (chunk_at peer_chunks) (so_receiver s) result (so_receiver s') -> received_bytes es' = concat (rr_delivered result) ->
  receiving peer_chunks s' (es ++ es').
Proof.
  intros [Hok Hf Hn Hd] [Hok' Hf' Hn' Hl _] Ed. pose proof (ro_next _ Hok) as H0'.
  destruct (take_next peer_chunks (Z.to_nat (re_nextDataSeq (so_receiver s))) (rr_delivered result)) as [Hlen Htake]; [|lia|].
  { intros i c [_ Hc]%Hl. by replace (Z.to_nat _ + i)%nat with (Z.to_nat (re_nextDataSeq (so_receiver s) + Z.of_nat i)) by lia. }
  split; [done|done|lia|]. rewrite received_app, Hd, Ed, Hn', Z2Nat.inj_add, Nat2Z.id, Htake, concat_app by lia. done.
Qed.

Lemma receiving_genuine peer_chunks (peer_es : list event) raw bound : (forall p, Transmit p ∈ peer_es -> carries peer peer_chunks p /\ h_ack_seq (p_header p) <= bound) ->
  (forall p plaintext, decryptVoidUdpSecurePacketV1 raw keys = Some (p, plaintext) -> Transmit p ∈ peer_es) ->
  genuine keys (chunk_at peer_chunks) raw.
Proof.
  intros Hpeer Hauth p plaintext q Hd Hq. destruct (Hpeer p (Hauth _ _ Hd)) as [(k & n & q' & r & text & -> & [Hn _] & Hb & _ & _ & Hat) _].
  apply decrypt_inv in Hd as (Ho & _). rewrite (open_sealed peer keys) in Ho; [|by eapply usable_paired|by apply paired_sym|done|done].
  injection Ho as <-. cbn in Hq. by subst q'.
Qed.

Lemma sends_answer raw s written chunks bound es : sending keys written chunks bound s es -> sends_only written chunks bound s es (answer keys tx raw s).
Proof.
  intros Hs. destruct (answer_cases keys tx (Integer 0) raw s) as [[E1 E2]|(p & x & es1 & es2 & E & Hes & E2 & Hr)].
  - exists chunks. rewrite E1, E2, app_nil_r. done.
  - pose proof (sending_ack keys Hkeys _ _ _ _ _ _ _ _ E Hes Hs) as Hs1.
    destruct (sending_flushes _ Hkeys _ _ _ _ _ _ _ _ Hr Hs1) as (chunks' & Hp & Hs2 & Er & Ed). exists chunks'.
    rewrite E2, received_app, Ed, app_nil_r, app_assoc. split_and!; [done|done|done|]. by destruct Hes; subst.
Qed.

Lemma perform_receive raw nowMs s written chunks bound es peer_chunks peer_es : sending keys written chunks bound s es -> receiving peer_chunks s es ->
  Z.of_nat (length peer_chunks) <= MAX_SAFE_INTEGER -> valid_call keys peer_es (Receive raw nowMs) ->
  (forall p, Transmit p ∈ peer_es -> carries peer peer_chunks p /\ h_ack_seq (p_header p) <= bound) ->
  let out := receivePacket keys options tx raw nowMs s in alive out.1.2 ->
  exists chunks', chunks `prefix_of` chunks' /\ sending keys written chunks' bound out.1.2 (es ++ out.2) /\ receiving peer_chunks out.1.2 (es ++ out.2) /\
    ackSeq (so_receiver s) <= ackSeq (so_receiver out.1.2).
Proof.
  intros Hs Hrc Hlen [Ht Hauth] Hpeer. cbn zeta. destruct (so_closed s) eqn:Hc.
  { unfold receivePacket. rewrite bind_this, Hc. intros _. exists chunks. cbn. by rewrite app_nil_r. }
  rewrite receivePacket_eq by done.
  destruct (receive_ok keys (chunk_at peer_chunks) raw (so_receiver s) []) as (result & r' & E & Hrd & _);
    [apply Hrc|apply Hrc|by intros n ?%not_elem_of_nil|by eapply receiving_genuine|].
  rewrite E. set (s1 := set_receiver r' s).
  assert (ackSeq (so_receiver s) <= ackSeq r') as Hack by (unfold ackSeq; rewrite (rd_next _ _ _ _ Hrd); lia).
  destruct (rr_accepted result) eqn:Ha.
  2: { intros _. exists chunks. split; [done|]. split; [by eapply sending_same; [..|exact Hs]|]. split; [|done].
       eapply receiving_delivered; [exact Hrc|exact Hrd|]. by rewrite (rd_refused _ _ _ _ Hrd Ha). }
  destruct (receive_accepted keys _ _ _ _ E Ha) as (p & plaintext & Hd & Hn & Hrange).
  assert (rr_peer_ack_seq result <= bound) as Hbound by (rewrite Hn; apply Hpeer, (Hauth _ _ Hd)).
  pose proof (receiving_delivered peer_chunks s s1 es (Data <$> rr_delivered result) result Hrc Hrd (received_data _)) as Hrc1.
  assert (ack_in_range r') as Hr'.
  { pose proof (rc_next _ _ _ Hrc1) as Hnx. pose proof (ro_next _ (rd_ok _ _ _ _ Hrd)). unfold ack_in_range, ackSeq. cbn in Hnx. lia. }
  assert (sending keys written chunks bound (acked (rr_peer_ack_seq result) s1) es) as Hs1.
  { apply sending_acked; [done|done|]. rewrite <- (app_nil_r es). by eapply sending_same; [..|exact Hs]. }
  intros Hal. destruct (flush_succeeds nowMs _ _ _ _ _ _ _ _ (applyPeerAck_outcome keys options tx _ nowMs s1 Hrange) Hs1 Ht Hr' Hal) as (s2 & es2 & Eap & Hrun).
  rewrite (bind_Ok_run _ _ _ _ _ _ Eap), (bind_Ok_run _ _ _ _ _ _ (emitAll_eq _ _)).
  destruct (sending_flushes _ Hkeys _ _ _ _ _ _ _ _ Hrun Hs1) as (chunks2 & Hp2 & Hs2 & Er2 & Ed2).
  assert (sending keys written chunks2 bound s2 ((es ++ es2) ++ (Data <$> rr_delivered result))) as Hs3.
  { eapply sending_same; [..|exact Hs2]; try done. clear. induction (rr_delivered result) as [|b l IH]; [done|exact IH]. }
  destruct (sends_answer raw _ _ _ _ _ Hs3) as (chunks4 & Hp4 & Hs4 & Er4 & Ed4).
  exists chunks4. destruct (bind_state (answer keys tx raw) true s2) as [r ->]. cbn [fst snd]. rewrite !app_assoc in *.
  split; [by etrans|]. split; [done|]. rewrite Er4, Er2. split; [|exact Hack].
  rewrite <- !app_assoc. eapply receiving_delivered; [exact Hrc| |]; [rewrite Er4, Er2; exact Hrd|].
  by rewrite !received_app, received_data, Ed2, Ed4, app_nil_r.
Qed.

(** What a call preserves on the side that makes it *)
Lemma perform_linked c s written chunks bound es peer_chunks peer_es : sending keys written chunks bound s es -> receiving peer_chunks s es ->
  Z.of_nat (length peer_chunks) <= MAX_SAFE_INTEGER -> valid_call keys peer_es c ->
  (forall p, Transmit p ∈ peer_es -> carries peer peer_chunks p /\ h_ack_seq (p_header p) <= bound) ->
  let out := perform keys options tx c s in alive out.1.2 ->
  exists chunks', chunks `prefix_of` chunks' /\ sending keys (written ++ written_by c) chunks' bound out.1.2 (es ++ out.2) /\
    receiving peer_chunks out.1.2 (es ++ out.2) /\ ackSeq (so_receiver s) <= ackSeq (so_receiver out.1.2).
Proof.
  intros Hs Hrc Hlen Hv Hpeer. cbn zeta. pose proof (ro_next _ (rc_ok _ _ _ Hrc)) as Hn. pose proof (rc_next _ _ _ Hrc) as Hnx.
  assert (ack_in_range (so_receiver s)) as Hr by (unfold ack_in_range, ackSeq; lia).
  assert (forall A (out : res A * socket * list event), sends_only (written ++ written_by c) chunks bound s es out -> exists chunks', chunks `prefix_of` chunks' /\
    sending keys (written ++ written_by c) chunks' bound out.1.2 (es ++ out.2) /\ receiving peer_chunks out.1.2 (es ++ out.2) /\ ackSeq (so_receiver s) <= ackSeq (so_receiver out.1.2)) as Hsends.
  { intros A out (chunks' & Hp & Hs' & Er & Ed). exists chunks'. split_and!; [done|done|by eapply receiving_same|by rewrite Er]. }
  destruct c as [bytes now|raw now|now|now|error]; cbn [perform valid_call written_by] in *; rewrite ?app_nil_r in *.
  - destruct (bind_state (write keys options tx bytes now) tt s) as [r ->]. cbn [fst snd]. intros Ha. apply Hsends, sends_write; tauto.
  - destruct (bind_state (receivePacket keys options tx raw now) tt s) as [r ->]. cbn [fst snd]. intros Ha. by eapply perform_receive.
  - intros Ha. by apply Hsends, sends_tick.
  - intros Ha. by apply Hsends, sends_timer.
  - intros Ha. by apply Hsends, sends_destroy.
Qed.
End calls.

(** ** Two sockets and a network *)

Record endpoint := mkEnd { en_socket : socket; en_events : list event; en_written : list Z }.

Definition new_endpoint : endpoint := mkEnd new_socket [] [].

Section world.
Context `{SessionCrypto} `{StringNumber}.

(** An end after a call *)
Definition after (keys : VoidUdpSecureDirectionKeysV1) (options : socket_options) (tx : VoidUdpSecurePacketV1 -> option string) (c : call) (e : endpoint) : endpoint :=
  let out := perform keys options tx c (en_socket e) in mkEnd out.1.2 (en_events e ++ out.2) (en_written e ++ written_by c).

Context (kA kB : VoidUdpSecureDirectionKeysV1) (oA oB : socket_options).

(** The ends of a session after calls in any order on either of them; the network chooses the
    packets that arrive, and the cipher opens only packets that the other end has sent. *)
Inductive session : endpoint -> endpoint -> Prop :=
| session_new : session new_endpoint new_endpoint
| session_left tx c a b : session a b -> valid_call kA (en_events b) c -> session (after kA oA tx c a) b
| session_right tx c a b : session a b -> valid_call kB (en_events a) c -> session a (after kB oB tx c b).

Definition unexhausted (e : endpoint) : Prop := alive (en_socket e).

Lemma session_lives a b : session a b -> lives kA oA (en_socket a) (en_events a) /\ lives kB oB (en_socket b) (en_events b).
Proof. induction 1 as [|tx c a b _ [Ha Hb] _|tx c a b _ [Ha Hb] _]; cbn; split; try done; by constructor. Qed.
End world.

Section direction.
Context `{SessionCrypto} `{!SessionCryptoLaws _} `{StringNumber}.

(** The chunks of both directions *)
Record linked (kA kB : VoidUdpSecureDirectionKeysV1) (a b : endpoint) (chunksA chunksB : list (list Z)) : Prop := {
  li_left : sending kA (en_written a) chunksA (ackSeq (so_receiver (en_socket b))) (en_socket a) (en_events a);
  li_right : sending kB (en_written b) chunksB (ackSeq (so_receiver (en_socket a))) (en_socket b) (en_events b);
  li_arrive_left : receiving chunksB (en_socket a) (en_events a);
  li_arrive_right : receiving chunksA (en_socket b) (en_events b)
}.

Lemma linked_sym kA kB a b cA cB : linked kA kB a b cA cB -> linked kB kA b a cB cA.
Proof. by intros []. Qed.

Lemma receiving_prefix chunks chunks' s es : chunks `prefix_of` chunks' -> receiving chunks s es -> receiving chunks' s es.
Proof.
  intros Hp [Hok Hf Hn Hd]. split; [done| | |].
  - intros q c Hq. by eapply (chunk_at_prefix chunks); [|apply Hf].
  - destruct Hp as [l ->]. rewrite length_app. lia.
  - rewrite Hd. f_equal. destruct Hp as [l ->]. rewrite take_app_le by lia. done.
Qed.

Lemma sending_short keys written chunks bound s es : sending keys written chunks bound s es -> alive s -> Z.of_nat (length chunks) <= MAX_SAFE_INTEGER.
Proof. intros [_ Hn _ _ _ _ _ _ _] Ha. unfold alive in Ha. lia. Qed.

Lemma linked_step kA kB options tx c a b cA cB : usable kA = true -> paired kA kB ->
  1 <= o_maxPayloadBytes options <= VOID_P2P_UDP_SECURE_RELIABLE_MAX_PAYLOAD_BYTES_V1 -> valid_call kA (en_events b) c ->
  unexhausted (after kA options tx c a) -> unexhausted b -> linked kA kB a b cA cB ->
  exists cA', linked kA kB (after kA options tx c a) b cA' cB.
Proof.
  intros Hu Hp Hpay Hv Ha Hb [H1 H2 H3 H4].
  destruct (perform_linked kA kB options tx Hu Hp Hpay c (en_socket a) _ _ _ _ cB (en_events b) H1 H3 (sending_short _ _ _ _ _ _ H2 Hb) Hv) as (cA' & Hpre & Hs & Hr & Hack);
    [apply H2|exact Ha|]. exists cA'. split; [exact Hs| |exact Hr|by eapply receiving_prefix].
  by eapply sending_bound.
Qed.

Lemma linked_new kA kB : linked kA kB new_endpoint new_endpoint [] [].
Proof.
  assert (forall keys, sending keys [] [] (-1) new_socket []) as Hs.
  { intros keys. split; cbn; try done; repeat intro; match goal with Hx : _ ∈ [] |- _ => by apply not_elem_of_nil in Hx | _ => lia end. }
  assert (receiving [] new_socket []) as Hr.
  { split; [apply new_receiver_ok| |done|done]. intros q c. cbn. by rewrite lookup_empty. }
  split; [apply Hs|apply Hs|exact Hr|exact Hr].
Qed.

Lemma acts_number_grows keys options nowMs s es s' : acts keys options nowMs s es s' -> se_nextPacketNo (so_sender s) <= se_nextPacketNo (so_sender s').
Proof.
  intros Ha. destruct Ha as [s es s' Hf|s es s' Hl|s bytes Hc Hle|s raw|s n Hr|s bytes|s p x es E Hes|s packets exhausted x sent E Hpre Hex]; try done.
  - destruct Hf as [| |s bytes queued p x seq Hc Hq E Hseq]; try done. apply createData_Ok in E as (now & _ & _ & _ & _ & _ & _ & ->). cbn. lia.
  - by destruct Hl.
  - cbn. unfold acknowledge. by destruct (safeInteger _ _ _).
  - apply createAck_Ok in E as [_ ->]. cbn. lia.
  - apply retransmitDue_Ok in E as (now & _ & _ & _ & _ & ->). destruct (bool_decide _); cbn; lia.
Qed.

Lemma perform_number_grows keys options tx c s : se_nextPacketNo (so_sender s) <= se_nextPacketNo (so_sender (perform keys options tx c s).1.2).
Proof.
  generalize (perform_acts keys options tx c s). generalize (perform keys options tx c s).2, (perform keys options tx c s).1.2.
  intros es s'. induction 1 as [|s1 s2 s3 es es' H1%acts_number_grows _ IH]; [done|]. lia.
Qed.

Lemma alive_before keys options tx c s : alive (perform keys options tx c s).1.2 -> alive s.
Proof. unfold alive. pose proof (perform_number_grows keys options tx c s). lia. Qed.

Lemma session_linked kA kB oA oB a b : usable kA = true -> paired kA kB ->
  1 <= o_maxPayloadBytes oA <= VOID_P2P_UDP_SECURE_RELIABLE_MAX_PAYLOAD_BYTES_V1 ->
  1 <= o_maxPayloadBytes oB <= VOID_P2P_UDP_SECURE_RELIABLE_MAX_PAYLOAD_BYTES_V1 ->
  session kA kB oA oB a b -> unexhausted a -> unexhausted b -> exists cA cB, linked kA kB a b cA cB.
Proof.
  intros Hu Hp HoA HoB. induction 1 as [|tx c a b _ IH Hv|tx c a b _ IH Hv]; intros Ha Hb.
  - eexists _, _. apply linked_new.
  - destruct IH as (cA & cB & Hl); [exact (alive_before _ _ _ _ _ Ha)|done|].
    destruct (linked_step kA kB oA tx c a b cA cB Hu Hp HoA Hv Ha Hb Hl) as (cA' & Hl'). by exists cA', cB.
  - destruct IH as (cA & cB & Hl); [done|exact (alive_before _ _ _ _ _ Hb)|].
    destruct (linked_step kB kA oB tx c b a cB cA (usable_paired _ _ Hp Hu) (paired_sym _ _ Hp) HoB Hv Hb Ha (linked_sym _ _ _ _ _ _ Hl)) as (cB' & Hl').
    exists cA, cB'. by apply linked_sym.
Qed.
End direction.

(** ** The guarantee *)

Section guarantee.
Context `{SessionCrypto} `{!SessionCryptoLaws _} `{StringNumber}.

Lemma linked_delivered kA kB a b cA cB : linked kA kB a b cA cB -> received_bytes (en_events b) `prefix_of` en_written a.
Proof.
  intros [Hs _ _ Hr]. rewrite (rc_data _ _ _ Hr). transitivity (concat cA).
  - rewrite <- (take_drop (Z.to_nat (re_nextDataSeq (so_receiver (en_socket b)))) cA) at 2. rewrite concat_app. by apply prefix_app_r.
  - eapply stream_prefix, Hs.
Qed.

(** An open socket with nothing left to send *)
Lemma drained_empty options s : within_bounds options s -> writableLength s = 0 -> queue_size (so_queued s) = 0 /\ sum_bytes (so_pendingBytes s) = 0.
Proof.
  intros [_ _ Hn Hq] Hw. rewrite writableLength_eq in Hw. pose proof (sum_nonneg _ Hn). pose proof (queue_size_nonneg (so_queued s)). lia.
Qed.

Lemma sum_zero m k n : nonneg m -> sum_bytes m = 0 -> m !! k = Some n -> n = 0.
Proof.
  intros Hm Hz Hk. pose proof (sum_delete _ _ _ Hk) as Hd.
  assert (nonneg (delete k m)) as Hm' by by apply map_Forall_delete. pose proof (sum_nonneg _ Hm'). pose proof (Hm _ _ Hk). cbn in *. lia.
Qed.

Lemma linked_drained kA kB options a b cA cB : linked kA kB a b cA cB -> within_bounds options (en_socket a) ->
  so_closed (en_socket a) = false -> writableLength (en_socket a) = 0 -> received_bytes (en_events b) = en_written a.
Proof.
  intros [[Es En Hch Hqu Hpe Hst Hk Hb _] _ _ Hr] Hw Hc [Hq0 Hs0]%(drained_empty options); [|done].
  assert (forall q, q ∉ (se_pending (so_sender (en_socket a))).*1) as Hnone.
  { intros q Hq. destruct (Hb Hc q Hq) as (n & Hn & Hpos). apply (sum_zero _ _ _ (wb_nonneg _ _ Hw) Hs0) in Hn. lia. }
  assert (concat (so_queued (en_socket a)) = []) as Hqn by (apply length_zero_iff_nil; rewrite queue_size_concat in Hq0; lia).
  rewrite Hc in Hst. rewrite Hst, Hqn, app_nil_r, (rc_data _ _ _ Hr). f_equal. apply take_ge.
  pose proof (rc_next _ _ _ Hr). pose proof (ro_next _ (rc_ok _ _ _ Hr)).
  destruct (decide (Z.of_nat (length cA) <= re_nextDataSeq (so_receiver (en_socket b)))); [lia|]. exfalso.
  destruct (Hk Hc (re_nextDataSeq (so_receiver (en_socket b))) ltac:(lia)) as [Hle|Hin]; [unfold ackSeq in Hle; lia|by apply Hnone in Hin].
Qed.
End guarantee.

(** C9: over a network that drops, duplicates, delays, reorders and makes up packets, the bytes that
    a socket delivers are always a prefix of the bytes written to the socket at the other end, in
    both directions at once; and when a socket is open and has nothing queued or in flight, the
    other end has delivered everything that was written.  Calls on the two ends come in any order
    with any valid clocks, and the transmit callbacks may fail; packet numbers are not used up. *)
Theorem streams_are_delivered `{SessionCrypto} `{!SessionCryptoLaws _} `{StringNumber} kA kB highA queueA payloadA pollA highB queueB payloadB pollB oA oB a b :
  usable kA = true -> paired kA kB -> newOptions highA queueA payloadA pollA = Ok oA -> newOptions highB queueB payloadB pollB = Ok oB ->
  session kA kB oA oB a b -> unexhausted a -> unexhausted b ->
  received_bytes (en_events b) `prefix_of` en_written a /\ received_bytes (en_events a) `prefix_of` en_written b /\
  (so_closed (en_socket a) = false -> writableLength (en_socket a) = 0 -> received_bytes (en_events b) = en_written a) /\
  (so_closed (en_socket b) = false -> writableLength (en_socket b) = 0 -> received_bytes (en_events a) = en_written b).
Proof.
  intros Hu Hp [HmA HpA]%newOptions_Ok [HmB HpB]%newOptions_Ok Hs Ha Hb.
  destruct (session_lives _ _ _ _ _ _ Hs) as [Hla Hlb].
  destruct (session_linked kA kB oA oB a b Hu Hp HpA HpB Hs Ha Hb) as (cA & cB & Hl). pose proof (linked_sym _ _ _ _ _ _ Hl) as Hl'.
  split_and!; [by eapply linked_delivered..|intros Hc Hw|intros Hc Hw].
  - eapply (linked_drained kA kB oA); [exact Hl|eapply (lives_bounds kA); [exact HmA|lia|exact Hla]|done|done].
  - eapply (linked_drained kB kA oB); [exact Hl'|eapply (lives_bounds kB); [exact HmB|lia|exact Hlb]|done|done].
Qed.
