(* ===== verification/UdpLive.v ===== *)
(** * Progress of the stream

    A round without losses: when the timer of one end sends again what is in flight and the
    packets of that tick arrive, the other end has delivered everything that was written and is
    not still queued. *)

From S2P Require Import Prelude Js JsText CanonicalJson Sha256 MerkleRoots JsConvert JsonParse NodeBuffer ChainBase.
From S2P Require Import UdpPacket UdpSession UdpTransport UdpRuns UdpGuards UdpReceiver UdpStream.

(** ** What methods leave alone *)

Section keeps.
Context `{SessionCrypto} `{StringNumber} (keys : VoidUdpSecureDirectionKeysV1) (options : socket_options) (tx : VoidUdpSecurePacketV1 -> option string).
Context {X : Type} (f : socket -> X).
Context (Hsender : forall x s, f (set_sender x s) = f s) (Hqueued : forall q n s, f (set_queued q n s) = f s)
  (Hpending : forall m s, f (set_pendingBytes m s) = f s) (Hflush : forall b s, f (set_flushActive b s) = f s)
  (Hback : forall b s, f (set_backpressured b s) = f s).

Definition keeps {A} (m : method A) : Prop := forall s, f (m s).1.2 = f s.

Lemma keeps_bind {A B} (m : method A) (g : A -> method B) : keeps m -> (forall a, keeps (g a)) -> keeps (m ≫= g).
Proof.
  intros Hm Hg s. specialize (Hm s). unfold mbind, method_bind. destruct (m s) as [[[a|e] s'] es]; [|done].
  specialize (Hg a s'). destruct (g a s') as [[r s''] es']. cbn in *. congruence.
Qed.

Lemma keeps_pure {A} (m : method A) : (forall s, (m s).1.2 = s) -> keeps m.
Proof. intros Hm s. by rewrite Hm. Qed.

Lemma keeps_on_sender {A} (g : sender -> res A * sender) : keeps (on_sender g).
Proof. intros s. unfold on_sender. destruct (g (so_sender s)) as [r x]. apply Hsender. Qed.

Context (Htransmit : forall p, keeps (transmitPacket tx p)).

Lemma keeps_flushLoop fuel nowMs : keeps (flushLoop keys tx fuel nowMs).
Proof.
  induction fuel as [|fuel IH]; cbn [flushLoop]; [by apply keeps_pure|]. apply keeps_bind; [by apply keeps_pure|]. intros s.
  destruct (so_queued s); [by apply keeps_pure|]. destruct (negb _); [by apply keeps_pure|].
  apply keeps_bind; [intros s'; apply Hqueued|]. intros []. apply keeps_bind; [apply keeps_on_sender|]. intros p.
  destruct (h_data_seq (p_header p)); [|by apply keeps_pure]. apply keeps_bind; [intros s'; apply Hpending|]. intros [].
  apply keeps_bind; [apply Htransmit|]. by intros [].
Qed.

Lemma keeps_maybeDrain : keeps (maybeDrain options).
Proof. intros s. destruct (maybeDrain_eq options s) as (back & es & -> & _). apply Hback. Qed.

Lemma keeps_flushQueued nowMs : keeps (flushQueued keys options tx nowMs).
Proof.
  apply keeps_bind; [by apply keeps_pure|]. intros s. destruct (_ || _); [by apply keeps_pure|].
  apply keeps_bind; [intros s'; apply Hflush|]. intros []. apply keeps_bind; [|intros; apply keeps_maybeDrain].
  intros s'. pose proof (keeps_flushLoop (length (so_queued s)) nowMs s') as Hl. unfold finally.
  destruct (flushLoop _ _ _ _ s') as [[r s''] es]. cbn in *. by rewrite Hflush.
Qed.

Lemma keeps_applyPeerAck n nowMs : keeps (applyPeerAck keys options tx n nowMs).
Proof.
  apply keeps_bind; [apply keeps_on_sender|]. intros _. apply keeps_bind; [intros s; apply Hpending|]. intros [].
  apply keeps_bind; [apply keeps_flushQueued|]. intros. apply keeps_maybeDrain.
Qed.

Lemma keeps_answer raw : keeps (answer keys tx raw).
Proof.
  unfold answer. destruct (_ && _); [|by apply keeps_pure]. apply keeps_bind; [by apply keeps_pure|]. intros s.
  apply keeps_bind; [apply keeps_on_sender|]. apply Htransmit.
Qed.

Lemma keeps_accepted n delivered raw nowMs :
  keeps (applyPeerAck keys options tx n nowMs;; emitAll delivered;; answer keys tx raw;; mret true).
Proof.
  apply keeps_bind; [apply keeps_applyPeerAck|]. intros []. apply keeps_bind; [intros s; by rewrite emitAll_eq|]. intros [].
  apply keeps_bind; [apply keeps_answer|]. intros. by apply keeps_pure.
Qed.

Lemma keeps_transmitAll packets : keeps (transmitAll tx packets).
Proof. induction packets as [|p l IH]; [by apply keeps_pure|]. apply keeps_bind; [apply Htransmit|]. by intros []. Qed.

Lemma keeps_write bytes nowMs s : (forall error, keeps (destroy error)) -> f (write keys options tx bytes nowMs s).1.2 = f s.
Proof.
  intros Hdestroy. revert s. apply keeps_bind; [by apply keeps_pure|]. intros []; [by apply keeps_pure|].
  assert (keeps (noteBackpressure options)) as Hn by (intros s; destruct (noteBackpressure_eq options s) as (b & back & ->); apply Hback).
  destruct (bool_decide _); [done|]. apply keeps_bind; [by apply keeps_pure|]. intros w. cbv zeta. destruct (o_maxQueuedBytes options <? w + Z.of_nat (length bytes)).
  - apply keeps_bind; [apply Hdestroy|]. intros. by apply keeps_pure.
  - apply keeps_bind; [intros s'; apply Hqueued|]. intros []. apply keeps_bind; [apply keeps_flushQueued|]. done.
Qed.

Lemma keeps_tick nowMs : (forall error, keeps (destroy error)) -> keeps (tick keys options tx nowMs).
Proof.
  intros Hdestroy. apply keeps_bind; [by apply keeps_pure|]. intros []; [by apply keeps_pure|].
  apply keeps_bind; [apply keeps_on_sender|]. intros [packets exhausted]. destruct (bool_decide _); [apply Hdestroy|].
  apply keeps_bind; [apply keeps_transmitAll|]. intros. apply keeps_flushQueued.
Qed.
End keeps.

(** A transmit callback that does not fail *)
Definition no_failure (p : VoidUdpSecurePacketV1) : option string := None.

Section kept.
Context `{SessionCrypto} `{StringNumber} (keys : VoidUdpSecureDirectionKeysV1) (options : socket_options).

Lemma destroy_receiver error : keeps so_receiver (destroy error).
Proof. intros s. rewrite destroy_eq. by destruct (so_closed s). Qed.

Lemma transmit_receiver tx p : keeps so_receiver (transmitPacket tx p).
Proof.
  apply keeps_bind; [by apply keeps_pure|]. intros []; [by apply keeps_pure|]. apply keeps_bind; [by apply keeps_pure|]. intros [].
  destruct (tx p); [apply destroy_receiver|by apply keeps_pure].
Qed.

Lemma transmit_open p : keeps so_closed (transmitPacket no_failure p).
Proof. intros s. unfold transmitPacket. rewrite bind_this. by destruct (so_closed s) eqn:Hc. Qed.

(** Only packets change the receiver. *)
Lemma perform_receiver tx c s : so_receiver (perform keys options tx c s).1.2 =
  match c with
  | Receive raw _ => if so_closed s then so_receiver s else (receive keys raw (so_receiver s)).2
  | _ => so_receiver s
  end.
Proof.
  pose proof (transmit_receiver tx) as Ht. destruct c as [bytes now|raw now|now|now|error]; cbn [perform].
  - destruct (bind_state (write keys options tx bytes now) tt s) as [r ->]. apply keeps_write; try done. apply destroy_receiver.
  - destruct (bind_state (receivePacket keys options tx raw now) tt s) as [r ->]. cbn [fst snd]. destruct (so_closed s) eqn:Hc.
    { unfold receivePacket. by rewrite bind_this, Hc. }
    rewrite receivePacket_eq by done. destruct (receive keys raw (so_receiver s)) as [[result|e] r']; [|done].
    destruct (rr_accepted result); [|done]. by rewrite (keeps_accepted keys options tx so_receiver).
  - apply keeps_tick; try done. apply destroy_receiver.
  - unfold onTimer. pose proof (keeps_tick keys options tx so_receiver ltac:(done) ltac:(done) ltac:(done) ltac:(done) ltac:(done) Ht now destroy_receiver s) as Hk.
    destruct (tick keys options tx now s) as [[[u|e] s1] es]; [done|]. pose proof (destroy_receiver (Some e) s1) as Hd.
    destruct (destroy (Some e) s1) as [[r s2] es2]. cbn in *. congruence.
  - apply destroy_receiver.
Qed.

(** A packet closes no socket whose callback does not fail. *)
Lemma receive_stays_open raw nowMs s : so_closed (perform keys options no_failure (Receive raw nowMs) s).1.2 = so_closed s.
Proof.
  cbn [perform]. destruct (bind_state (receivePacket keys options no_failure raw nowMs) tt s) as [r ->]. cbn [fst snd].
  destruct (so_closed s) eqn:Hc; [unfold receivePacket; by rewrite bind_this, Hc|].
  rewrite receivePacket_eq by done. destruct (receive keys raw (so_receiver s)) as [[result|e] r']; [|done].
  destruct (rr_accepted result); [|done]. by rewrite (keeps_accepted keys options no_failure so_closed) by (done || apply transmit_open).
Qed.
End kept.

(** ** Progress of the receiver *)

(** A chunk that was delivered or is held back *)
Definition has (r : receiver) (q : Z) : Prop := q < re_nextDataSeq r \/ is_Some (re_buffered r !! q).

(** Nothing more can be delivered. *)
Definition settled (r : receiver) : Prop := re_buffered r !! re_nextDataSeq r = None.

Lemma settled_has r n : settled r -> (forall q, re_nextDataSeq r <= q < n -> has r q) -> n <= re_nextDataSeq r.
Proof.
  intros Hs Hh. destruct (Z.le_gt_cases n (re_nextDataSeq r)) as [|Hlt]; [done|]. exfalso.
  destruct (Hh (re_nextDataSeq r) ltac:(lia)) as [?|[c Hc]]; [lia|]. unfold settled in Hs. congruence.
Qed.

Section progress.
Context `{SessionCrypto} `{StringNumber} (keys : VoidUdpSecureDirectionKeysV1).

Lemma receiveData_progress peer_ack seq plaintext r : receiver_ok r -> settled r ->
  seq < re_nextDataSeq r + VOID_P2P_UDP_SECURE_RELIABLE_RECV_WINDOW_V1 ->
  exists result r', receiveData peer_ack seq plaintext r = (Ok result, r') /\ settled r' /\ has r' seq /\ (forall q, has r q -> has r' q).
Proof.
  intros Hok Hset Hwin. unfold receiveData. destruct (Z.ltb_spec seq (re_nextDataSeq r)) as [Hlt|Hge].
  { eexists _, r. split_and!; [done|done|by left|done]. }
  apply Z.leb_gt in Hwin as Hwin'. rewrite Hwin'.
  destruct (buffer_chunk_ok (fun _ _ => True) r seq plaintext Hok ltac:(done) ltac:(done) ltac:(lia)) as [Hok1 _]. cbn zeta in *.
  set (buffered := match re_buffered r !! seq with Some _ => _ | None => _ end) in *.
  destruct (receiver_sizes _ Hok1) as [Hsize%Z.ltb_ge _]. cbn [re_buffered] in Hsize. rewrite Hsize.
  assert (forall q, q = seq \/ is_Some (re_buffered r !! q) -> is_Some (buffered !! q)) as Hin.
  { intros q Hq. unfold buffered. destruct (re_buffered r !! seq) eqn:E; [destruct Hq as [->|?]; [by eexists|done]|].
    destruct (decide (q = seq)) as [->|]; [rewrite lookup_insert_eq; by eexists|]. rewrite lookup_insert_ne by done. naive_solver. }
  destruct (deliver_spec (size buffered) (re_nextDataSeq r) buffered []) as (l & Hl).
  pose proof (deliver_stops (size buffered) (re_nextDataSeq r) buffered [] ltac:(done)) as Hstop.
  destruct (deliver _ _ _ _) as [[next rest] delivered]. destruct Hl as (-> & -> & _ & Hrest).
  assert (forall q, q = seq \/ has r q -> has (mkReceiver (re_nextDataSeq r + Z.of_nat (length l)) (re_highestPacketNo r) (re_seenPacketNos r) rest) q) as Hhas.
  { intros q Hq. destruct (Z.ltb_spec q (re_nextDataSeq r + Z.of_nat (length l))); [by left|]. right. cbn.
    destruct (Hin q) as [c Hc]; [destruct Hq as [?|[?|?]]; [by left|lia|by right]|]. exists c. apply Hrest. split; [done|lia]. }
  eexists _, _. split_and!; [reflexivity|exact Hstop|apply Hhas; by left|]. intros q Hq. apply Hhas. by right.
Qed.

Lemma fresh_above n r : receiver_ok r -> re_highestPacketNo r < n -> 0 <= n ->
  exists r1, packetNoFresh n r = (true, r1) /\ receiver_ok r1 /\ re_highestPacketNo r1 = n /\ re_nextDataSeq r1 = re_nextDataSeq r /\ re_buffered r1 = re_buffered r.
Proof.
  intros Hok Hn Hpos. unfold packetNoFresh at 1. rewrite bool_decide_eq_false_2 by (intros Hin%(ro_seen _ Hok); lia).
  replace (_ && _) with false.
  2: { symmetry. apply andb_false_iff. right. apply Z.leb_gt. unfold VOID_P2P_UDP_SECURE_RELIABLE_PACKET_REPLAY_WINDOW_V1. lia. }
  eexists. split; [reflexivity|]. split; [|cbn; split_and!; [lia|done|done]].
  destruct Hok as [? ? Hs ?]. split; cbn; try done; [lia|].
  intros m [Hlo [Hm%elem_of_singleton|Hm%Hs]%elem_of_union]%elem_of_filter; lia.
Qed.

Lemma receive_progress raw r p plaintext q : receiver_ok r -> settled r -> decryptVoidUdpSecurePacketV1 raw keys = Some (p, plaintext) ->
  re_highestPacketNo r < packet_no p -> h_kind (p_header p) = data -> h_data_seq (p_header p) = Some q ->
  q < re_nextDataSeq r + VOID_P2P_UDP_SECURE_RELIABLE_RECV_WINDOW_V1 ->
  let r' := (receive keys raw r).2 in has r' q /\ (forall q, has r q -> has r' q) /\ re_highestPacketNo r' = packet_no p /\ re_nextDataSeq r <= re_nextDataSeq r'.
Proof.
  intros Hok Hset Hd Hn Hk Hq Hwin. cbn zeta. destruct (decrypt_inv _ _ _ _ Hd) as (_ & (Hpos & _) & _).
  destruct (fresh_above (packet_no p) r Hok Hn ltac:(unfold packet_no; lia)) as (r1 & Ef & Hok1 & Hh & Hnext & Hbuf).
  unfold receive. rewrite Hd. unfold packet_no in Ef. rewrite Ef, Hk, Hq. cbn [negb].
  destruct (receiveData_progress (h_ack_seq (p_header p)) q plaintext r1 Hok1) as (result & r' & E & _ & Hhas & Hmono);
    [unfold settled; by rewrite Hbuf, Hnext|by rewrite Hnext|].
  destruct (receiveData_ok (fun _ _ => True) (h_ack_seq (p_header p)) q plaintext r1 Hok1 ltac:(done) ltac:(done)) as (result2 & r2 & E2 & [_ _ Hn2 _ _] & Hh2 & _).
  rewrite E2 in E. injection E as <- <-. rewrite E2. cbn [snd]. split_and!; [done| |by rewrite Hh2|lia].
  intros q' Hq'. apply Hmono. unfold has in *. by rewrite Hnext, Hbuf.
Qed.

(** *** In every session *)

Record quiescent (bound : Z) (r : receiver) : Prop := {
  qu_ok : receiver_ok r;
  qu_settled : settled r;
  qu_highest : re_highestPacketNo r < bound
}.

Lemma quiescent_bound n m r : n <= m -> quiescent n r -> quiescent m r.
Proof. intros Hn []. split; [done|done|lia]. Qed.

Lemma receiveData_refused peer_ack seq plaintext r : re_nextDataSeq r + VOID_P2P_UDP_SECURE_RELIABLE_RECV_WINDOW_V1 <= seq ->
  (receiveData peer_ack seq plaintext r).2 = r.
Proof.
  intros Hle. unfold receiveData. destruct (seq <? re_nextDataSeq r); [done|]. apply Z.leb_le in Hle. by rewrite Hle.
Qed.

Lemma fresh_quiescent bound n r : 0 <= n < bound -> quiescent bound r -> quiescent bound (packetNoFresh n r).2.
Proof.
  intros Hn [Hok Hset Hh]. destruct (packetNoFresh n r) as [fresh r1] eqn:Ef. cbn.
  destruct (packetNoFresh_cases n r) as [E|(_ & _ & seen & E & _)]; rewrite E in Ef; injection Ef as <- <-; [done|].
  destruct (fresh_remembers n r _ [] E ltac:(lia) Hok ltac:(by intros m ?%not_elem_of_nil)) as (_ & Hok1 & _). split; [done|done|cbn; lia].
Qed.

Lemma receiveData_quiescent bound peer_ack seq plaintext r : quiescent bound r -> quiescent bound (receiveData peer_ack seq plaintext r).2.
Proof.
  intros Hq. destruct (Z.le_gt_cases (re_nextDataSeq r + VOID_P2P_UDP_SECURE_RELIABLE_RECV_WINDOW_V1) seq) as [Hle|Hgt]; [by rewrite receiveData_refused|].
  destruct Hq as [Hok Hset Hh]. destruct (receiveData_progress peer_ack seq plaintext r Hok Hset Hgt) as (result & r' & E & Hset' & _).
  destruct (receiveData_ok (fun _ _ => True) peer_ack seq plaintext r Hok ltac:(done) ltac:(done)) as (result2 & r2 & E2 & [Hok2 _ _ _ _] & Hh2 & _).
  rewrite E2 in E. injection E as <- <-. rewrite E2. split; [done|done|]. cbn. lia.
Qed.

Lemma receive_quiescent bound raw r : (forall p plaintext, decryptVoidUdpSecurePacketV1 raw keys = Some (p, plaintext) -> packet_no p < bound) ->
  quiescent bound r -> quiescent bound (receive keys raw r).2.
Proof.
  intros Hb Hq. unfold receive. destruct (decryptVoidUdpSecurePacketV1 raw keys) as [[p plaintext]|] eqn:Hd; [|done].
  destruct (decrypt_inv _ _ _ _ Hd) as (_ & (Hpos & _) & _). specialize (Hb _ _ eq_refl). unfold packet_no in Hb.
  pose proof (fresh_quiescent bound (h_packet_no (p_header p)) r ltac:(lia) Hq) as Hq1. destruct (packetNoFresh _ r) as [[] r1]; [|done].
  cbn [negb snd] in *. destruct (h_kind (p_header p)), (h_data_seq (p_header p)); try done. by apply receiveData_quiescent.
Qed.

Lemma new_quiescent : quiescent 0 new_receiver.
Proof. split; [apply new_receiver_ok| |done]. unfold settled. cbn. apply lookup_empty. Qed.
End progress.

Section sessions.
Context `{SessionCrypto} `{StringNumber}.

Definition number_of (e : endpoint) : Z := se_nextPacketNo (so_sender (en_socket e)).

Lemma after_quiescent keys options tx c a b : valid_call keys (en_events b) c -> numbers_ok (en_socket b) (en_events b) ->
  quiescent (number_of b) (so_receiver (en_socket a)) -> quiescent (number_of b) (so_receiver (en_socket (after keys options tx c a))).
Proof.
  intros Hv [_ [_ Hnum]] Hq. unfold after. cbn [en_socket]. rewrite perform_receiver. destruct c as [| raw now| | |]; try done.
  destruct (so_closed _); [done|]. apply receive_quiescent; [|done]. intros p plaintext Hd. destruct Hv as [_ Hauth].
  specialize (Hauth _ _ Hd). rewrite Forall_forall in Hnum. apply Hnum. unfold sent_packets. apply list_elem_of_omap. by exists (Transmit p).
Qed.

(** In a session both receivers are at rest and know only numbers that the other end has used. *)
Lemma session_quiescent kA kB oA oB a b : session kA kB oA oB a b ->
  quiescent (number_of b) (so_receiver (en_socket a)) /\ quiescent (number_of a) (so_receiver (en_socket b)).
Proof.
  induction 1 as [|tx c a b Hs [IHa IHb] Hv|tx c a b Hs [IHa IHb] Hv].
  - split; apply new_quiescent.
  - destruct (session_lives _ _ _ _ _ _ Hs) as [_ Hb%lives_numbers]. split; [by apply after_quiescent|].
    eapply quiescent_bound; [|exact IHb]. apply perform_number_grows.
  - destruct (session_lives _ _ _ _ _ _ Hs) as [Ha%lives_numbers _]. split; [|by apply after_quiescent].
    eapply quiescent_bound; [|exact IHa]. apply perform_number_grows.
Qed.
End sessions.

(** ** A tick sends everything in flight *)

Section ticks.
Context `{SessionCrypto} `{!SessionCryptoLaws _} `{StringNumber} (keys : VoidUdpSecureDirectionKeysV1) (options : socket_options) (Hkeys : usable keys = true).

(** A data packet with a sequence number *)
Definition data_packet (q : Z) (p : VoidUdpSecurePacketV1) : Prop := h_kind (p_header p) = data /\ h_data_seq (p_header p) = Some q.

Lemma encodeDue_all start due : 0 <= start -> start + Z.of_nat (length due) <= MAX_SAFE_INTEGER ->
  (forall q e, (q, e) ∈ due -> pe_dataSeq e = q /\ 0 <= q <= MAX_SAFE_INTEGER /\ chunk_ok (pe_plaintext e)) ->
  exists packets, encodeDue keys (-1) start due = Ok packets /\ forall q, q ∈ due.*1 -> exists p, p ∈ packets /\ data_packet q p.
Proof.
  revert start. induction due as [|[q e] due IH]; intros start Hs Hlen Hdue; cbn [encodeDue].
  { eexists. split; [reflexivity|]. intros q Hq. by apply not_elem_of_nil in Hq. }
  destruct (Hdue q e (list_elem_of_here _ _)) as (<- & Hq & _ & Hsize). cbn [length] in Hlen.
  destruct (IH (start + 1)) as (packets & E & Hcov); [lia|lia|intros q' e' Hin; apply Hdue; by right|].
  pose proof (encode_ok keys data start (Some (pe_dataSeq e)) (-1) (pe_plaintext e) Hkeys ltac:(lia) ltac:(cbn; lia) ltac:(unfold MAX_SAFE_INTEGER; lia) ltac:(lia) ltac:(discriminate)) as Ee.
  cbn [fmap option_fmap option_map] in Ee. rewrite Ee. cbn [mbind res_bind]. rewrite E. cbn [mbind res_bind]. eexists. split; [reflexivity|].
  intros q' [Hq'|Hq']%elem_of_cons; [|destruct (Hcov q' Hq') as (p & Hp & ?); exists p; split; [by right|done]].
  cbn in Hq'. subst q'. eexists. split; [left|]. done.
Qed.

(** A chunk whose retransmission is due *)
Definition due_at (now : Z) (e : Pending) : Prop :=
  VOID_P2P_UDP_SECURE_RELIABLE_RTO_MS_V1 <= now - pe_lastSentAtMs e /\ pe_retries e < VOID_P2P_UDP_SECURE_RELIABLE_MAX_RETRIES_V1.

Lemma filter_none {A} (f : A -> bool) l : (forall x, x ∈ l -> f x = false) -> List.filter f l = [].
Proof. induction l as [|x l IH]; intros Hf; [done|]. cbn. rewrite Hf by left. apply IH. intros y Hy. apply Hf. by right. Qed.

Lemma retransmitDue_all now x : 0 <= now <= MAX_SAFE_INTEGER -> 0 <= se_nextPacketNo x -> se_nextPacketNo x + pendingCount x <= MAX_SAFE_INTEGER ->
  (forall q e, (q, e) ∈ se_pending x -> pe_dataSeq e = q /\ 0 <= q <= MAX_SAFE_INTEGER /\ chunk_ok (pe_plaintext e) /\ due_at now e) ->
  exists packets y, retransmitDue keys (Integer (-1)) (Integer now) x = (Ok (packets, []), y) /\
    forall q, q ∈ (se_pending x).*1 -> exists p, p ∈ packets /\ data_packet q p.
Proof.
  intros Hnow Hpos Hno Hall. unfold retransmitDue. rewrite (safeInteger_ok now), (safeInteger_ok (-1)) by (unfold MAX_SAFE_INTEGER in *; lia).
  set (entries := isort _ _). assert (forall e, e ∈ entries -> e ∈ se_pending x) as Hin by (intros e He; unfold entries in He; by rewrite isort_perm in He).
  assert (forall e, e ∈ entries -> is_waiting (-1) now e = true /\ (VOID_P2P_UDP_SECURE_RELIABLE_MAX_RETRIES_V1 <=? pe_retries e.2) = false) as Hw.
  { intros [q e] He%Hin%Hall. destruct He as (_ & Hq & _ & Hd & Hr). unfold is_waiting. cbn [fst snd].
    split; [rewrite andb_true_iff, Z.ltb_lt, Z.leb_le; lia|by apply Z.leb_gt]. }
  rewrite (filter_all (is_due (-1) now)), (filter_none (is_exhausted (-1) now)).
  2: { intros e He. unfold is_exhausted. destruct (Hw e He) as [-> ->]. done. }
  2: { intros e He. unfold is_due. destruct (Hw e He) as [-> ->]. done. }
  assert (length entries = length (se_pending x)) as Hl by apply isort_length. unfold pendingCount in Hno.
  rewrite (safeInteger_ok (se_nextPacketNo x)) by lia. rewrite Hl.
  replace (_ && _) with false by (symmetry; apply andb_false_iff; right; apply Z.ltb_ge; lia). cbn [throw_if mbind res_bind].
  destruct (encodeDue_all (se_nextPacketNo x) entries) as (packets & -> & Hcov); [done|lia| |].
  { intros q e He%Hin%Hall. tauto. }
  eexists _, _. split; [reflexivity|]. intros q Hq. apply Hcov. apply list_elem_of_fmap in Hq as (e & -> & He). apply list_elem_of_fmap. exists e.
  split; [done|]. unfold entries. by rewrite isort_perm.
Qed.

Lemma transmitAll_reliable packets s : so_closed s = false -> transmitAll no_failure packets s = (Ok tt, s, Transmit <$> packets).
Proof.
  intros Hc. induction packets as [|p l IH]; [done|]. cbn [transmitAll]. rewrite (bind_Ok_run _ _ tt s s [Transmit p]).
  - by rewrite IH.
  - unfold transmitPacket. by rewrite bind_this, Hc.
Qed.

(** What flushing puts in flight it has sent. *)
Lemma flushes_cover nowMs s es s' : runs_to (flushes keys nowMs) s es s' -> forall q, q ∈ (se_pending (so_sender s')).*1 ->
  q ∈ (se_pending (so_sender s)).*1 \/ exists p, Transmit p ∈ es /\ data_packet q p.
Proof.
  induction 1 as [s|s1 s2 s3 es es' Hstep _ IH]; intros q Hq; [by left|].
  destruct (IH q Hq) as [Hq2|(p & Hp & ?)]; [|right; exists p; split; [apply elem_of_app; by right|done]].
  destruct Hstep as [| |s bytes queued p x seq Hc Eq E Hseq]; try by left.
  pose proof (createData_header _ _ _ _ _ _ _ E) as (Hd & _ & Hk). apply createData_Ok in E as (now & _ & _ & _ & _ & _ & _ & ->). cbn in Hq2.
  apply list_elem_of_fmap in Hq2 as ([q' e] & -> & [[= -> ->]|Hin]%pending_set_elem).
  - right. exists p. split; [apply elem_of_app; left; by left|]. done.
  - left. apply list_elem_of_fmap. by exists (q', e).
Qed.

Lemma flushes_data nowMs s es s' p : runs_to (flushes keys nowMs) s es s' -> Transmit p ∈ es -> exists q, data_packet q p.
Proof.
  induction 1 as [s|s1 s2 s3 es es' Hstep _ IH]; intros Hp; [by apply not_elem_of_nil in Hp|].
  apply elem_of_app in Hp as [Hp|Hp]; [|by apply IH]. destruct Hstep as [s es Hq|s flush back es Hq|s bytes queued p' x seq Hc Eq E Hseq].
  - by apply Hq in Hp.
  - by apply Hq in Hp.
  - apply list_elem_of_singleton in Hp as [= ->]. destruct (createData_header _ _ _ _ _ _ _ E) as (Hd & _ & Hk). by eexists.
Qed.

Lemma encodeDue_data upTo start due packets p : encodeDue keys upTo start due = Ok packets -> p ∈ packets -> exists q, data_packet q p.
Proof.
  revert start packets. induction due as [|[q e] due IH]; intros start packets Hd Hp; cbn [encodeDue] in Hd; [injection Hd as <-; by apply not_elem_of_nil in Hp|].
  apply bind_Ok in Hd as (p' & He & (rest & Hrest & [= <-])%bind_Ok). apply elem_of_cons in Hp as [->|Hp]; [|by eapply IH].
  apply (encode_inv keys) in He as (_ & _ & _ & n & q' & r & _ & Eq & _ & ->); [|done]. destruct q' as [q'|]; [|discriminate Eq]. by exists q'.
Qed.

(** A tick when every chunk in flight is due *)
Lemma tick_covers now s written chunks bound es : sending keys written chunks bound s es -> within_bounds options s -> so_closed s = false ->
  0 <= now <= MAX_SAFE_INTEGER -> 0 <= re_nextDataSeq (so_receiver s) -> ack_in_range (so_receiver s) ->
  se_nextPacketNo (so_sender s) + VOID_P2P_UDP_SECURE_RELIABLE_MAX_IN_FLIGHT_V1 <= MAX_SAFE_INTEGER ->
  (forall q e, (q, e) ∈ se_pending (so_sender s) -> due_at now e) ->
  let out := tick keys options no_failure (Integer now) s in alive out.1.2 ->
  so_closed out.1.2 = false /\ (forall q, q ∈ (se_pending (so_sender out.1.2)).*1 -> exists p, Transmit p ∈ out.2 /\ data_packet q p) /\
  (forall p, Transmit p ∈ out.2 -> exists q, data_packet q p).
Proof.
  intros Hs Hw Hc Hnow Hn Hr Hno Hdue. cbn zeta. rewrite tick_eq by done. pose proof (wb_pending _ _ Hw) as Hcount.
  destruct (retransmitDue_all now (so_sender s)) as (packets & x & E & Hcov); [done|pose proof (sd_no _ _ _ _ _ _ Hs); lia|lia| |].
  { intros q e Hin. destruct (sd_pending _ _ _ _ _ _ Hs q e Hin) as [<- Hat]. split; [done|]. pose proof (sd_no _ _ _ _ _ _ Hs) as Hlen.
    pose proof (lookup_lt_Some _ _ _ (proj2 Hat)). destruct Hat as [Hpos Hat]. split; [|split; [|by apply (Hdue (pe_dataSeq e))]].
    - unfold VOID_P2P_UDP_SECURE_RELIABLE_MAX_IN_FLIGHT_V1 in Hno. lia.
    - pose proof (sd_chunks _ _ _ _ _ _ Hs) as Hch. rewrite Forall_lookup in Hch. by apply (Hch _ _ Hat). }
  rewrite E, bool_decide_eq_true_2 by done. rewrite (bind_Ok_run _ _ _ _ _ _ (transmitAll_reliable packets (set_sender x s) Hc)). cbn [fst snd]. intros Ha.
  pose proof (sending_resend keys Hkeys _ _ _ _ _ [] _ _ _ _ E (prefix_nil _) Hn Hs) as Hs1. rewrite bool_decide_eq_true_2 in Hs1 by done.
  destruct (sending_outcome keys Hkeys _ _ _ _ _ _ _ (flushQueued_outcome keys options no_failure (Integer now) (set_sender x s)) Hs1 ltac:(by exists now) Hr Ha) as [_ Hrun].
  split; [|split].
  - rewrite (keeps_flushQueued keys options no_failure so_closed) by (done || apply transmit_open). done.
  - intros q [Hq|(p & Hp & Hd)]%(flushes_cover _ _ _ _ Hrun); [|exists p; split; [apply elem_of_app; by right|done]].
    assert (q ∈ (se_pending (so_sender s)).*1) as Hq'.
    { pose proof (retransmitDue_Ok _ _ _ _ _ _ E) as (now' & _ & _ & _ & _ & ->). cbn in Hq. rewrite resent_keys in Hq.
      apply list_elem_of_fmap in Hq as (e & -> & [[Hin _]%filter_In _]%list_elem_of_In%filter_In). apply list_elem_of_fmap. exists e. by rewrite list_elem_of_In. }
    destruct (Hcov q Hq') as (p & Hp & Hd). exists p. split; [|done]. apply elem_of_app. left. by apply list_elem_of_fmap_2.
  - intros p [(p' & [= ->] & Hp)%list_elem_of_fmap|Hp]%elem_of_app; [|by eapply flushes_data].
    apply retransmitDue_Ok in E as (now' & _ & _ & He & _). by eapply encodeDue_data.
Qed.
End ticks.

(** ** A round without losses *)

Section rounds.
Context `{SessionCrypto} `{!SessionCryptoLaws _} `{StringNumber}.

(** Packets that arrive one after the other *)
Fixpoint arrive (keys : VoidUdpSecureDirectionKeysV1) (options : socket_options) (nowMs : number) (ps : list VoidUdpSecurePacketV1) (b : endpoint) : endpoint :=
  match ps with [] => b | p :: ps => arrive keys options nowMs ps (after keys options no_failure (Receive (packet_json p) nowMs) b) end.

Lemma arrive_alive keys options nowMs ps b : unexhausted (arrive keys options nowMs ps b) -> unexhausted b.
Proof. revert b. induction ps as [|p ps IH]; intros b Ha; [done|]. cbn [arrive] in Ha. apply IH in Ha. exact (alive_before _ _ _ _ _ Ha). Qed.

(** The packets of a call are numbered upwards from the next number. *)
Lemma new_packets_ordered keys options tx c s history : numbers_ok s history ->
  ordered (se_nextPacketNo (so_sender (perform keys options tx c s).1.2)) (sent_packets history ++ sent_packets (perform keys options tx c s).2).
Proof.
  intros Hn. rewrite <- sent_app. apply (runs_to_preserves (acts keys options (clock c)) numbers_ok s); [|apply perform_acts|exact Hn].
  intros. by eapply acts_numbers.
Qed.

Lemma new_packets_above keys options tx c s p : 0 <= se_nextPacketNo (so_sender s) <= MAX_SAFE_INTEGER ->
  p ∈ sent_packets (perform keys options tx c s).2 -> se_nextPacketNo (so_sender s) <= packet_no p.
Proof.
  intros Hno Hp. set (lo := se_nextPacketNo (so_sender s)) in *. destruct (Z.le_gt_cases lo 0) as [Hz|Hz].
  - destruct (new_packets_ordered keys options tx c s []) as [_ Hf].
    { split; [apply Hno|]. split; [by intros i j ? ? _ ?|apply Forall_nil_2]. }
    rewrite Forall_forall in Hf. destruct (Hf p Hp) as [? _]. lia.
  - set (p0 := mkPacket (mkHeader EmptyString EmptyString EmptyString ack (lo - 1) None 0) EmptyString EmptyString).
    destruct (new_packets_ordered keys options tx c s [Transmit p0]) as [Ho _].
    { split; [apply Hno|]. split; [intros [|i] [|j] ? ? ? Hi Hj; (lia || done)|]. apply Forall_singleton. unfold packet_no. cbn. fold lo. lia. }
    apply list_elem_of_lookup in Hp as [i Hi]. specialize (Ho 0%nat (S i) p0 p ltac:(lia) eq_refl Hi). unfold packet_no at 1 in Ho. cbn in Ho. lia.
Qed.

(** What one arrival does *)
Lemma arrival kA kB oA oB nowMs a b p q : usable kA = true -> paired kA kB ->
  1 <= o_maxPayloadBytes oA <= VOID_P2P_UDP_SECURE_RELIABLE_MAX_PAYLOAD_BYTES_V1 -> 1 <= o_maxPayloadBytes oB <= VOID_P2P_UDP_SECURE_RELIABLE_MAX_PAYLOAD_BYTES_V1 ->
  session kA kB oA oB a b -> unexhausted a -> unexhausted b -> so_closed (en_socket b) = false -> valid_time nowMs -> Transmit p ∈ en_events a ->
  data_packet q p -> re_highestPacketNo (so_receiver (en_socket b)) < packet_no p ->
  q < re_nextDataSeq (so_receiver (en_socket b)) + VOID_P2P_UDP_SECURE_RELIABLE_RECV_WINDOW_V1 ->
  let b' := after kB oB no_failure (Receive (packet_json p) nowMs) b in
  session kA kB oA oB a b' /\ so_closed (en_socket b') = false /\ re_highestPacketNo (so_receiver (en_socket b')) = packet_no p /\
  re_nextDataSeq (so_receiver (en_socket b)) <= re_nextDataSeq (so_receiver (en_socket b')) /\
  has (so_receiver (en_socket b')) q /\ forall q', has (so_receiver (en_socket b)) q' -> has (so_receiver (en_socket b')) q'.
Proof.
  intros Hu Hp HoA HoB Hs Ha Hb Hc Ht Hsent [Hk Hq] Hh Hwin. cbn zeta.
  destruct (session_linked kA kB oA oB a b Hu Hp HoA HoB Hs Ha Hb) as (cA & cB & Hl).
  destruct (sd_sent _ _ _ _ _ _ (li_left _ _ _ _ _ _ Hl) p Hsent) as [(k & n & q0 & r & text & Ep & (Hn & Hack & Hseq) & Hbytes & Hk0 & Hlen & _) _].
  assert (decryptVoidUdpSecurePacketV1 (packet_json p) kB = Some (p, text)) as Hd.
  { rewrite Ep. apply decrypt_sealed; try done. }
  destruct (session_quiescent _ _ _ _ _ _ Hs) as [_ [Hok Hset _]].
  destruct (receive_progress kB (packet_json p) _ p text q Hok Hset Hd Hh Hk Hq Hwin) as (Hhas & Hmono & Hhigh & Hnext).
  assert (so_receiver (en_socket (after kB oB no_failure (Receive (packet_json p) nowMs) b)) = (receive kB (packet_json p) (so_receiver (en_socket b))).2) as Er.
  { unfold after. cbn [en_socket]. rewrite perform_receiver, Hc. done. }
  rewrite Er. split; [|split].
  - apply session_right; [done|]. split; [done|]. intros p' text' Hd'. rewrite Hd in Hd'. injection Hd' as <- _. done.
  - unfold after. cbn [en_socket]. rewrite receive_stays_open. done.
  - done.
Qed.

Lemma arrive_delivers kA kB oA oB nowMs ps a b : usable kA = true -> paired kA kB ->
  1 <= o_maxPayloadBytes oA <= VOID_P2P_UDP_SECURE_RELIABLE_MAX_PAYLOAD_BYTES_V1 -> 1 <= o_maxPayloadBytes oB <= VOID_P2P_UDP_SECURE_RELIABLE_MAX_PAYLOAD_BYTES_V1 ->
  session kA kB oA oB a b -> unexhausted a -> unexhausted (arrive kB oB nowMs ps b) -> so_closed (en_socket b) = false -> valid_time nowMs ->
  (forall p, p ∈ ps -> Transmit p ∈ en_events a /\ re_highestPacketNo (so_receiver (en_socket b)) < packet_no p /\ exists q, data_packet q p /\
    q < re_nextDataSeq (so_receiver (en_socket b)) + VOID_P2P_UDP_SECURE_RELIABLE_RECV_WINDOW_V1) ->
  (forall i j p q, (i < j)%nat -> ps !! i = Some p -> ps !! j = Some q -> packet_no p < packet_no q) ->
  let b' := arrive kB oB nowMs ps b in session kA kB oA oB a b' /\
  (forall p q, p ∈ ps -> data_packet q p -> has (so_receiver (en_socket b')) q) /\
  (forall q, has (so_receiver (en_socket b)) q -> has (so_receiver (en_socket b')) q).
Proof.
  intros Hu Hp HoA HoB Hs Ha. revert b Hs. induction ps as [|p ps IH]; intros b Hs Hb Hc Ht Hps Hinc; cbn zeta; cbn [arrive] in *.
  { split; [done|]. split; [|done]. intros p q Hp'. by apply not_elem_of_nil in Hp'. }
  destruct (Hps p (list_elem_of_here _ _)) as (Hsent & Hh & q & Hq & Hwin).
  pose proof (alive_before _ _ _ _ _ (arrive_alive _ _ _ _ _ Hb)) as Hb0.
  destruct (arrival kA kB oA oB nowMs a b p q Hu Hp HoA HoB Hs Ha Hb0 Hc Ht Hsent Hq Hh Hwin) as (Hs1 & Hc1 & Hh1 & Hn1 & Hhas & Hmono).
  destruct (IH _ Hs1 Hb Hc1 Ht) as (Hs2 & Hcov & Hmono2).
  - intros p' Hp'. destruct (Hps p' (list_elem_of_further _ _ _ Hp')) as (? & _ & q' & ? & ?). split; [done|]. split; [|exists q'; split; [done|lia]].
    rewrite Hh1. apply list_elem_of_lookup in Hp' as [i Hi]. apply (Hinc 0%nat (S i)); [lia|done|done].
  - intros i j x y Hij Hi Hj. apply (Hinc (S i) (S j)); [lia|done|done].
  - split; [done|]. split; [|intros q' Hq'; by apply Hmono2, Hmono].
    intros p' q' [->|Hp']%elem_of_cons Hd; [|by eapply Hcov]. destruct Hq as [_ Hq], Hd as [_ Hd]. rewrite Hq in Hd. injection Hd as <-. by apply Hmono2.
Qed.

(** The chunks that the other end lacks fit into its window. *)
Lemma in_flight_fits keys options written chunks bound s es : sending keys written chunks bound s es -> within_bounds options s -> so_closed s = false ->
  -1 <= bound -> se_nextDataSeq (so_sender s) <= bound + 1 + VOID_P2P_UDP_SECURE_RELIABLE_MAX_IN_FLIGHT_V1.
Proof.
  intros Hs Hw Hc Hb. destruct (Z.le_gt_cases (se_nextDataSeq (so_sender s)) (bound + 1)) as [|Hgt].
  { unfold VOID_P2P_UDP_SECURE_RELIABLE_MAX_IN_FLIGHT_V1. lia. }
  assert (length (seqZ (bound + 1) (se_nextDataSeq (so_sender s) - (bound + 1))) <= length (se_pending (so_sender s)).*1)%nat as Hlen.
  { apply NoDup_incl_length; [apply NoDup_ListNoDup, NoDup_seqZ|]. intros q Hq%list_elem_of_In%elem_of_seqZ. apply list_elem_of_In.
    rewrite (sd_seq _ _ _ _ _ _ Hs) in Hq. destruct (sd_kept _ _ _ _ _ _ Hs Hc q ltac:(lia)); [lia|done]. }
  rewrite length_seqZ, length_fmap in Hlen. pose proof (wb_pending _ _ Hw) as Hcount. unfold pendingCount in Hcount. lia.
Qed.

Lemma carries_below keys chunks p q : carries keys chunks p -> data_packet q p -> 0 <= q < Z.of_nat (length chunks).
Proof.
  intros (k & n & q0 & r & text & -> & _ & _ & _ & _ & Hat) [_ Hq]. cbn in Hq. subst q0. destruct Hat as [? Hl%lookup_lt_Some]. lia.
Qed.
End rounds.

Section guarantee.
Context `{SessionCrypto} `{!SessionCryptoLaws _} `{StringNumber}.
Context (kA kB : VoidUdpSecureDirectionKeysV1) (oA oB : socket_options) (Hu : usable kA = true) (Hp : paired kA kB).
Context (HmA : 0 <= o_maxQueuedBytes oA) (HoA : 1 <= o_maxPayloadBytes oA <= VOID_P2P_UDP_SECURE_RELIABLE_MAX_PAYLOAD_BYTES_V1)
  (HoB : 1 <= o_maxPayloadBytes oB <= VOID_P2P_UDP_SECURE_RELIABLE_MAX_PAYLOAD_BYTES_V1).

(** The packets of a tick *)
Definition tick_packets (now : Z) (a : endpoint) : list VoidUdpSecurePacketV1 :=
  sent_packets (perform kA oA no_failure (Tick (Integer now)) (en_socket a)).2.

Definition ticked (now : Z) (a : endpoint) : endpoint := after kA oA no_failure (Tick (Integer now)) a.

(** A tick after which the packets of the tick carry everything in flight *)
Record sends_all (now : Z) (a b : endpoint) : Prop := {
  sa_session : session kA kB oA oB (ticked now a) b;
  sa_open : so_closed (en_socket (ticked now a)) = false;
  sa_cover : forall q, q ∈ (se_pending (so_sender (en_socket (ticked now a)))).*1 -> exists p, p ∈ tick_packets now a /\ data_packet q p;
  sa_data : forall p, p ∈ tick_packets now a -> exists q, data_packet q p
}.

Lemma tick_sends_all now a b : session kA kB oA oB a b -> so_closed (en_socket a) = false -> 0 <= now <= MAX_SAFE_INTEGER ->
  number_of a + VOID_P2P_UDP_SECURE_RELIABLE_MAX_IN_FLIGHT_V1 <= MAX_SAFE_INTEGER ->
  (forall q e, (q, e) ∈ se_pending (so_sender (en_socket a)) -> due_at now e) ->
  unexhausted (ticked now a) -> unexhausted b -> sends_all now a b.
Proof.
  intros Hs Hc Hnow Hno Hdue Ha Hb. pose proof (alive_before _ _ _ _ _ Ha) as Ha0.
  destruct (session_linked kA kB oA oB a b Hu Hp HoA HoB Hs Ha0 Hb) as (cA & cB & [H1 H2 H3 _]).
  pose proof (lives_bounds kA oA _ _ HmA ltac:(lia) (proj1 (session_lives _ _ _ _ _ _ Hs))) as Hw.
  pose proof (ro_next _ (rc_ok _ _ _ H3)) as Hn. pose proof (rc_next _ _ _ H3) as Hnx. pose proof (sending_short _ _ _ _ _ _ H2 Hb) as Hshort.
  destruct (tick_covers kA oA Hu now (en_socket a) _ _ _ _ H1 Hw Hc Hnow Hn ltac:(unfold ack_in_range, ackSeq; lia) Hno Hdue Ha) as (Hopen & Hcov & Hdata).
  assert (forall p, p ∈ tick_packets now a <-> Transmit p ∈ (tick kA oA no_failure (Integer now) (en_socket a)).2) as Hin.
  { intros p. unfold tick_packets, sent_packets. rewrite list_elem_of_omap. split; [intros ([]& ? & E); try done; by injection E as ->|]. intros. by exists (Transmit p). }
  split; [apply session_left; [done|by exists now]|exact Hopen| |].
  - intros q Hq. destruct (Hcov q Hq) as (p & Hp' & ?). exists p. split; [by apply Hin|done].
  - intros p Hp'%Hin. by apply Hdata.
Qed.

Lemma tick_packets_arrive now a b : session kA kB oA oB a b -> sends_all now a b -> unexhausted (ticked now a) -> unexhausted b ->
  (forall p, p ∈ tick_packets now a -> Transmit p ∈ en_events (ticked now a) /\ re_highestPacketNo (so_receiver (en_socket b)) < packet_no p /\
    exists q, data_packet q p /\ q < re_nextDataSeq (so_receiver (en_socket b)) + VOID_P2P_UDP_SECURE_RELIABLE_RECV_WINDOW_V1) /\
  (forall i j p q, (i < j)%nat -> tick_packets now a !! i = Some p -> tick_packets now a !! j = Some q -> packet_no p < packet_no q).
Proof.
  intros Hs0 [Hs Hc Hcov Hdata] Ha Hb. destruct (session_linked kA kB oA oB _ b Hu Hp HoA HoB Hs Ha Hb) as (cA & cB & [H1 _ _ H4]).
  pose proof (lives_bounds kA oA _ _ HmA ltac:(lia) (proj1 (session_lives _ _ _ _ _ _ Hs))) as Hw.
  destruct (lives_numbers _ _ _ _ (proj1 (session_lives _ _ _ _ _ _ Hs0))) as [Hpos _].
  pose proof (alive_before _ _ _ _ _ Ha) as Ha0. unfold alive in Ha0. split.
  - intros p Hp'. assert (Transmit p ∈ en_events (ticked now a)) as Hev.
    { unfold tick_packets, sent_packets in Hp'. apply list_elem_of_omap in Hp' as ([]& Hin & E); try done. injection E as ->. apply elem_of_app. by right. }
    split; [done|]. split.
    + destruct (session_quiescent _ _ _ _ _ _ Hs0) as [_ [_ _ Hh]]. pose proof (new_packets_above kA oA no_failure (Tick (Integer now)) (en_socket a) p ltac:(lia) Hp').
      unfold number_of in Hh. lia.
    + destruct (Hdata p Hp') as [q Hq]. exists q. split; [done|]. destruct (sd_sent _ _ _ _ _ _ H1 p Hev) as [Hcar _].
      pose proof (carries_below _ _ _ _ Hcar Hq) as Hlt. pose proof (ro_next _ (rc_ok _ _ _ H4)).
      pose proof (in_flight_fits kA oA _ _ _ _ _ H1 Hw Hc ltac:(unfold ackSeq; lia)) as Hfit. rewrite (sd_seq _ _ _ _ _ _ H1) in Hfit. unfold ackSeq in Hfit.
      unfold VOID_P2P_UDP_SECURE_RELIABLE_MAX_IN_FLIGHT_V1, VOID_P2P_UDP_SECURE_RELIABLE_RECV_WINDOW_V1 in *. lia.
  - apply (new_packets_ordered kA oA no_failure (Tick (Integer now)) (en_socket a) []). split; [done|]. split; [by intros i j ? ? _ ?|apply Forall_nil_2].
Qed.
End guarantee.

(** C10: one round without losses is enough: when every chunk in flight at one end is due and its
    tick sends the packets again, and the other end receives the packets of that tick, the other
    end has delivered everything that was written except what is still queued. *)
Theorem round_delivers `{SessionCrypto} `{!SessionCryptoLaws _} `{StringNumber} kA kB highA queueA payloadA pollA highB queueB payloadB pollB oA oB a b now :
  usable kA = true -> paired kA kB -> newOptions highA queueA payloadA pollA = Ok oA -> newOptions highB queueB payloadB pollB = Ok oB ->
  session kA kB oA oB a b -> so_closed (en_socket a) = false -> so_closed (en_socket b) = false -> 0 <= now <= MAX_SAFE_INTEGER ->
  number_of a + VOID_P2P_UDP_SECURE_RELIABLE_MAX_IN_FLIGHT_V1 <= MAX_SAFE_INTEGER ->
  (forall q e, (q, e) ∈ se_pending (so_sender (en_socket a)) -> due_at now e) ->
  let a' := ticked kA oA now a in let b' := arrive kB oB (Integer now) (tick_packets kA oA now a) b in
  unexhausted a' -> unexhausted b' ->
  session kA kB oA oB a' b' /\ received_bytes (en_events b') ++ concat (so_queued (en_socket a')) = en_written a.
Proof.
  intros Hu Hp [HmA HoA]%newOptions_Ok [HmB HoB]%newOptions_Ok Hs Hca Hcb Hnow Hno Hdue. cbn zeta. intros Ha Hb.
  pose proof (arrive_alive _ _ _ _ _ Hb) as Hb0.
  pose proof (tick_sends_all kA kB oA oB Hu Hp HmA HoA HoB now a b Hs Hca Hnow Hno Hdue Ha Hb0) as Hall.
  destruct (tick_packets_arrive kA kB oA oB Hu Hp HmA HoA HoB now a b Hs Hall Ha Hb0) as [Hps Hinc]. destruct Hall as [Hs1 Hc1 Hcov _].
  destruct (arrive_delivers kA kB oA oB (Integer now) _ _ b Hu Hp HoA HoB Hs1 Ha Hb Hcb ltac:(by exists now) Hps Hinc) as (Hs2 & Hgot & Hmono).
  split; [done|]. destruct (session_linked kA kB oA oB _ b Hu Hp HoA HoB Hs1 Ha Hb0) as (cA & cB & [H1 _ _ _]).
  destruct (session_quiescent _ _ _ _ _ _ Hs2) as [_ [_ Hset _]].
  assert (se_nextDataSeq (so_sender (en_socket (ticked kA oA now a))) <= re_nextDataSeq (so_receiver (en_socket (arrive kB oB (Integer now) (tick_packets kA oA now a) b)))) as Hnext.
  { apply settled_has; [done|]. intros q Hq. destruct (Z.lt_ge_cases q (re_nextDataSeq (so_receiver (en_socket b)))); [apply Hmono; by left|].
    pose proof (ro_next _ (qu_ok _ _ (proj2 (session_quiescent _ _ _ _ _ _ Hs)))). rewrite (sd_seq _ _ _ _ _ _ H1) in Hq.
    destruct (sd_kept _ _ _ _ _ _ H1 Hc1 q ltac:(lia)) as [Hle|Hin]; [unfold ackSeq in Hle; lia|]. destruct (Hcov q Hin) as (p & Hp' & Hd). by eapply Hgot. }
  destruct (session_linked kA kB oA oB _ _ Hu Hp HoA HoB Hs2 Ha Hb) as (dA & dB & [D1 _ _ D4]).
  pose proof (sd_stream _ _ _ _ _ _ D1) as Hst. rewrite Hc1 in Hst. rewrite (rc_data _ _ _ D4), take_ge.
  - rewrite <- Hst. unfold ticked, after. cbn. by rewrite app_nil_r.
  - rewrite (sd_seq _ _ _ _ _ _ D1) in Hnext. lia.
Qed.
