(* ===== verification/UdpSamples.v ===== *)
(** * Runs of two sockets

    A concrete instance of the cryptography and concrete sockets for the theorems on the secure
    transport, run by the executable model.  Two runs record where the socket fails: a chunk that
    is lost when the clock is not a valid time, and options with a high-water mark above the bound
    that closes the socket. *)

From Stdlib Require Import Ascii.
From S2P Require Import Prelude Js JsText CanonicalJson Sha256 MerkleRoots JsConvert JsonParse NodeBuffer ChainBase.
From S2P Require Import UdpPacket UdpSession UdpTransport UdpRuns UdpGuards UdpReceiver UdpStream UdpLive.

(** ** A cipher *)

Definition sum_mod (b : list Z) : Z := foldr (fun x acc => (x + acc) mod 256) 0 b.
Definition sum_tag (k n a p : list Z) : list Z := replicate 16 (sum_mod (k ++ n ++ a ++ p)).
Definition key_number (s : string) : Z := if String.eqb s "A" then 1 else 2.

(** Two private keys; a tag is a sum of what it covers. *)
#[local] Instance sum_crypto : SessionCrypto := {
  private_key := bool;
  is_x25519 := fun _ => true;
  public_b64 := fun k => if k then "A" else "B";
  public_key_type := fun s => Ok "x25519"%string;
  diffieHellman := fun k s => [(if k then 1 else 2) * key_number s];
  hkdf := fun k s i n => replicate n (sum_mod (k ++ s ++ i));
  gcm_seal := fun k n a p => (p, sum_tag k n a p);
  gcm_open := fun k n a c t => if bool_decide (t = sum_tag k n a c) then Some c else None
}.

Lemma sum_mod_byte b : is_byte (sum_mod b).
Proof. unfold is_byte. induction b as [|x b IH]; cbn [sum_mod foldr]; [lia|]. by apply Z.mod_pos_bound. Qed.

#[local] Instance sum_crypto_laws : SessionCryptoLaws sum_crypto.
Proof.
  split.
  - by intros [] [].
  - intros. apply length_replicate.
  - intros k n a p Hp. split; [done|]. apply Forall_replicate, sum_mod_byte.
  - intros. split; [done|]. apply length_replicate.
  - intros k n a p _. cbn. by rewrite bool_decide_eq_true_2.
Qed.

#[local] Instance no_text : StringNumber := fun _ => NotANumber.

(** ** A session *)

Definition session_text : string := "0123456789abcdef0123456789abcdef".
Definition node_a : string := "aaaaaaaaaaaaaaaaaaaaaaaaaaaaaaaa".
Definition node_b : string := "bbbbbbbbbbbbbbbbbbbbbbbbbbbbbbbb".

Definition offer_of (source target key here there : string) : VoidUdpSecureKeyOfferV1 :=
  mkOffer 1 "sig" "ed25519" "ed25519" "x25519" "hkdf-sha256" "aes-256-gcm" session_text source target key here there "nonce".
Definition offer_a : VoidUdpSecureKeyOfferV1 := offer_of node_a node_b "A" "198.51.100.1:1" "198.51.100.2:2".
Definition offer_b : VoidUdpSecureKeyOfferV1 := offer_of node_b node_a "B" "198.51.100.2:2" "198.51.100.1:1".

Definition keys_of (local remote : string) (send recv : Z) : VoidUdpSecureDirectionKeysV1 :=
  mkKeys session_text local remote "aes-256-gcm" (replicate 32 send) (replicate 32 recv) (replicate 4 send) (replicate 4 recv).
Definition keys_a : VoidUdpSecureDirectionKeysV1 := keys_of node_a node_b 7 9.
Definition keys_b : VoidUdpSecureDirectionKeysV1 := keys_of node_b node_a 9 7.

Definition key_a : @private_key sum_crypto := true.
Definition key_b : @private_key sum_crypto := false.

#[local] Existing Instance code_unit_locale.
#[local] Instance sample_digest : BufferDigest := fun b => replicate 32 (sum_mod b).
#[local] Instance code_unit_node_ids : NodeIdLocale code_unit_locale.
Proof. done. Qed.

Lemma session_keys_agree_witness : exists keys keys', deriveVoidUdpSecureDirectionKeysV1 key_a offer_a offer_b = Ok keys /\
  deriveVoidUdpSecureDirectionKeysV1 key_b offer_b offer_a = Ok keys' /\ paired keys keys'.
Proof.
  destruct (deriveVoidUdpSecureDirectionKeysV1 key_a offer_a offer_b) as [keys|e] eqn:E; [|by vm_compute in E].
  destruct (session_keys_agree code_unit_locale key_a key_b offer_a offer_b keys E) as (keys' & Hd & Hp & _); try reflexivity; [discriminate|].
  exists keys, keys'. split; [reflexivity|]. split; [exact Hd|exact Hp].
Defined.

Lemma bytes_ok b : forallb (fun z => (0 <=? z) && (z <? 256)) b = true -> Forall is_byte b.
Proof. rewrite forallb_forall, Forall_forall. intros Hb z Hz%list_elem_of_In%Hb. unfold is_byte. lia. Qed.

Lemma packet_roundtrip_witness : exists p, encodeVoidUdpSecurePacketV1 keys_a data (Integer 5) (Some (Integer 3)) (Integer (-1)) [1; 2; 3; 255] = Ok p /\
  decryptVoidUdpSecurePacketV1 (packet_json p) keys_b = Some (p, [1; 2; 3; 255]).
Proof.
  eexists. split; [vm_compute; reflexivity|].
  apply (packet_roundtrip keys_a keys_b data (Integer 5) (Some (Integer 3)) (Integer (-1))); [reflexivity|reflexivity| |vm_compute; reflexivity].
  by apply bytes_ok.
Defined.

(** ** Two sockets *)

Definition default_options : socket_options := mkSocketOptions 131072 524288 16384 50.

Lemma default_options_ok : newOptions None None None None = Ok default_options.
Proof. reflexivity. Qed.

Definition last_packet (e : endpoint) : json := default JNull (packet_json <$> last (sent_packets (en_events e))).

(** One end writes, its packet is lost and sent again, the other end answers, and the packet of
    the answer arrives. *)
Definition a1 : endpoint := after keys_a default_options no_failure (Write [104; 105] (Integer 1000)) new_endpoint.
Definition a2 : endpoint := after keys_a default_options no_failure (Timer (Integer 1300)) a1.
Definition b1 : endpoint := after keys_b default_options no_failure (Receive (last_packet a2) (Integer 1310)) new_endpoint.
Definition a3 : endpoint := after keys_a default_options no_failure (Receive (last_packet b1) (Integer 1320)) a2.

Lemma opens_only (keys : VoidUdpSecureDirectionKeysV1) raw (es : list event) : match decryptVoidUdpSecurePacketV1 raw keys with
  | Some (p, _) => Transmit p ∈ es | None => True end ->
  forall p plaintext, decryptVoidUdpSecurePacketV1 raw keys = Some (p, plaintext) -> Transmit p ∈ es.
Proof. intros Hd p plaintext E. by rewrite E in Hd. Qed.

Lemma time_ok now : 0 <= now <= MAX_SAFE_INTEGER -> valid_time (Integer now).
Proof. intros Hn. by exists now. Qed.

Lemma sample_session : session keys_a keys_b default_options default_options a3 b1.
Proof.
  apply session_left; [apply session_right; [apply session_left; [apply session_left; [apply session_new|]|]|]|].
  - split; [by apply bytes_ok|]. by apply time_ok.
  - by apply time_ok.
  - split; [by apply time_ok|]. apply opens_only. vm_compute. right. left.
  - split; [by apply time_ok|]. apply opens_only. vm_compute. right. left.
Qed.

Lemma streams_are_delivered_witness : received_bytes (en_events b1) = [104; 105] /\ en_written a3 = [104; 105] /\ so_closed (en_socket a3) = false /\
  received_bytes (en_events b1) = en_written a3.
Proof.
  split; [vm_compute; reflexivity|]. split; [vm_compute; reflexivity|]. split; [vm_compute; reflexivity|].
  destruct (streams_are_delivered keys_a keys_b None None None None None None None None default_options default_options a3 b1) as (_ & _ & Hdrained & _);
    [reflexivity|reflexivity|reflexivity|reflexivity|apply sample_session|vm_compute; reflexivity|vm_compute; reflexivity|].
  apply Hdrained; vm_compute; reflexivity.
Defined.

Lemma first_write_session : session keys_a keys_b default_options default_options a1 new_endpoint.
Proof. apply session_left; [apply session_new|]. split; [by apply bytes_ok|by apply time_ok]. Qed.

Lemma round_delivers_witness : pendingCount (so_sender (en_socket a1)) = 1 /\
  let b' := arrive keys_b default_options (Integer 1300) (tick_packets keys_a default_options 1300 a1) new_endpoint in
  received_bytes (en_events b') ++ concat (so_queued (en_socket (ticked keys_a default_options 1300 a1))) = en_written a1.
Proof.
  split; [vm_compute; reflexivity|].
  apply (round_delivers keys_a keys_b None None None None None None None None default_options default_options a1 new_endpoint 1300);
    [reflexivity|reflexivity|reflexivity|reflexivity|apply first_write_session|vm_compute; reflexivity|vm_compute; reflexivity|done
    |vm_compute; discriminate| |vm_compute; reflexivity|vm_compute; reflexivity].
  intros q e Hin. vm_compute in Hin. apply list_elem_of_singleton in Hin. injection Hin as -> ->. split; [vm_compute; discriminate|vm_compute; reflexivity].
Defined.

Lemma nonces_never_repeat_witness : length (sent_packets (en_events a3)) = 2%nat /\
  exists ivs, Forall2 (fun p iv => nonce (k_send_nonce_prefix keys_a) (packet_no p) = Ok iv) (sent_packets (en_events a3)) ivs /\ NoDup ivs.
Proof.
  split; [vm_compute; reflexivity|]. apply (nonces_never_repeat keys_a default_options (en_socket a3)); [reflexivity|].
  apply (session_lives _ _ _ _ _ _ sample_session).
Defined.

Lemma socket_stays_bounded_witness : newOptions None None None None = Ok default_options /\
  0 <= writableLength (en_socket a2) <= o_maxQueuedBytes default_options /\ pendingCount (so_sender (en_socket a2)) <= VOID_P2P_UDP_SECURE_RELIABLE_MAX_IN_FLIGHT_V1.
Proof.
  split; [reflexivity|]. apply (socket_stays_bounded keys_a None None None None default_options (en_socket a2) (en_events a2)); [reflexivity|].
  apply lives_call, lives_call, lives_new.
Defined.

(** ** Where the socket fails *)

(** A write while the clock is before the epoch throws and leaves the socket open, but its bytes
    are gone: the chunk is taken out of the queue before it is known that it can be sent. *)
Theorem write_loses_chunk `{SessionCrypto} keys options tx bytes now s :
  so_closed s = false -> so_flushActive s = false -> so_queued s = [] -> pendingCount (so_sender s) < VOID_P2P_UDP_SECURE_RELIABLE_MAX_IN_FLIGHT_V1 ->
  1 <= Z.of_nat (length bytes) <= o_maxPayloadBytes options -> o_maxPayloadBytes options <= VOID_P2P_UDP_SECURE_RELIABLE_MAX_PAYLOAD_BYTES_V1 ->
  writableLength s + Z.of_nat (length bytes) <= o_maxQueuedBytes options -> now < 0 ->
  exists s', write keys options tx bytes (Integer now) s = (Throw "send time invalid", s', []) /\
    so_closed s' = false /\ so_queued s' = [] /\ so_queuedBytes s' = so_queuedBytes s /\ so_sender s' = so_sender s /\ so_pendingBytes s' = so_pendingBytes s.
Proof.
  intros Hc Hf Hq Hp Hlen Hmax Hfit Hnow. unfold write. rewrite bind_this, Hc.
  destruct (bool_decide_reflect (bytes = [])) as [->|Hne]; [cbn in Hlen; lia|]. rewrite bind_this.
  apply Z.ltb_ge in Hfit. rewrite Hfit, bind_update.
  assert (split_chunks (length bytes) (Z.to_nat (o_maxPayloadBytes options)) bytes = [bytes]) as Hsplit.
  { destruct bytes as [|b bytes]; [done|]. cbn [split_chunks length]. rewrite take_ge, drop_ge by (cbn [length] in *; lia). by destruct (length bytes). }
  rewrite Hq, Hsplit. set (s0 := set_queued _ _ s). assert (createData keys bytes (Integer (ackSeq (so_receiver s0))) (Integer now) (so_sender s0) = (Throw "send time invalid", so_sender s)) as Ed.
  { unfold createData. apply Z.leb_gt in Hp. change (pendingCount (so_sender s0)) with (pendingCount (so_sender s)). rewrite Hp. cbn [throw_if mbind res_bind].
    replace ((_ <? 1) || _) with false by (symmetry; apply orb_false_iff; rewrite !Z.ltb_ge; lia). cbn [throw_if mbind res_bind].
    destruct (safeInteger (Integer now) 0 MAX_SAFE_INTEGER) eqn:E; [|done]. apply safeInteger_Some in E as ([= ->] & ? & _). lia. }
  erewrite bind_Throw_run; [eexists; split; [reflexivity|]|].
  2: { unfold flushQueued. rewrite bind_this. unfold id. change (so_closed s0) with (so_closed s). change (so_flushActive s0) with (so_flushActive s). rewrite Hc, Hf. cbn [orb].
       rewrite bind_update. erewrite bind_Throw_run; [reflexivity|]. unfold finally. change (length (so_queued s0)) with 1%nat.
       rewrite (flushLoop_S keys tx 0 (Integer now) (set_flushActive true s0) bytes []) by done.
       change (so_receiver (set_flushActive true s0)) with (so_receiver s0). change (so_sender (set_flushActive true s0)) with (so_sender s0). rewrite Ed. reflexivity. }
  cbn. split_and!; try done. lia.
Qed.

(** The bytes delivered are then not a prefix of those written: the next chunk takes the number. *)
Definition lossy_a : endpoint :=
  after keys_a default_options no_failure (Write [3; 4] (Integer 1000)) (after keys_a default_options no_failure (Write [1; 2] (Integer (-1))) new_endpoint).
Definition lossy_b : endpoint := after keys_b default_options no_failure (Receive (last_packet lossy_a) (Integer 1010)) new_endpoint.

Example hole_in_the_stream : en_written lossy_a = [1; 2; 3; 4] /\ received_bytes (en_events lossy_b) = [3; 4] /\ so_closed (en_socket lossy_a) = false.
Proof. vm_compute. done. Qed.

(** The default bound is not compared with the high-water mark, which may lie above it. *)
Example high_water_above_bound : newOptions (Some (Integer (1024 * 1024))) None None None = Ok (mkSocketOptions (1024 * 1024) (512 * 1024) (16 * 1024) 50).
Proof. reflexivity. Qed.
